(* ===== verification/_CoqProject ===== *)
-Q . S2P
Prelude.v
Checksum.v
Ordered.v
Flow.v
Headers.v
HeadersProofs.v
Frame.v
Transform.v
Fragmenter.v
TcpModel.v
TcpHistory.v
TcpPages.v
TcpState.v
TcpPlan.v
TcpCommit.v
TcpIntervals.v
TcpStorage.v
TcpMerge.v
TcpFlow.v
TcpPush.v
TcpEffect.v
TcpEngine.v
TcpEviction.v
TcpStream.v
TcpTheorems.v
IpModel.v
IpValidate.v
IpMerge.v
IpReconstruct.v
IpEngine.v
IpRanges.v
IpApply.v
IpFragment.v
IpRebuild.v
IpCharge.v
IpPush.v
IpRetire.v
IpTheorems.v
IpDelivery.v
IpDecisions.v
IpPieces.v
FragmenterProofs.v
FragmenterIpv6.v
FragmenterTheorems.v
RoundTrip.v
RoundTripIpv6.v
TransformProofs.v
Rewrite.v
RewriteNetwork.v
RewriteProofs.v
AddressMap.v
AddressMapProofs.v
CaptureWire.v
CaptureRead.v
CaptureWrite.v
CaptureStreams.v
CaptureTime.v
CaptureEncode.v
CaptureWriter.v
CaptureReader.v
CaptureBlocks.v
CaptureSafety.v
CaptureRoundTrip.v
CaptureDecode.v
CaptureRoundTripNg.v
CaptureCopy.v
CaptureRecords.v
CaptureMap.v
CaptureMerge.v
CaptureMergeSource.v
CaptureMergeLanes.v
CaptureMergeOrder.v
CaptureMergeProofs.v
CaptureMergeTheorems.v
FilterLexer.v
FilterCompile.v
FilterValues.v
FilterGrammar.v
FilterEval.v
FilterPredicate.v
