(* ===== verification/Prelude.v ===== *)
(** * PacketcraftR: reassembly, headers, packet transforms, capture files and filters

    A development beside [src/crates/packetcraftr-core], the library of the
    PacketcraftR packet tool that everything else in the repository is built on.
    It models the code that reads and writes capture files, turns captured bytes
    into streams and datagrams, cuts datagrams into fragments, rewrites the headers
    of captured frames, and selects packets by display filters.

    ** The parts and how they meet

    Frames come from a capture file and go back to one ([capture_file/]): the
    reader decodes classic PCAP and PCAPNG from a stream that may cut, interrupt or
    fail its reads, under limits on sizes, interfaces, options and metadata; the
    writer plans each frame, emits it, and remembers a failed output.  Passes over
    whole captures copy, select, map and merge them through a reader per input and
    one writer.

    A captured frame ([frame.rs]) is walked from its link header to its IP header
    ([protocol/headers.rs], [packet/link.rs], [capture_file/link_type.rs]).  IP
    fragments go to the IP reassembler ([analysis/reassembly/ip*]), which keeps the
    pieces of each datagram and returns the rebuilt datagram with the last missing
    one.  TCP segments go to the TCP reassembler ([analysis/reassembly/tcp*]), which
    keeps the pieces of each flow and returns the bytes that have become contiguous.
    Both keep their deadlines in one expiry index ([analysis/reassembly/expiry.rs])
    and account for their memory against configured limits.  The fragmenter
    ([transform/fragment.rs]) goes the other way: it cuts a datagram to an MTU with
    the same header walkers and the checksum of [protocol/common/checksum.rs].  The
    header rewrite ([transform/rewrite.rs]) replaces the addresses, VLAN stack and
    ports of a frame and repairs its checksums ([transform.rs]); an address map
    ([transform/address_map.rs]) looks the addresses of a frame up in tables of
    prefixes and applies itself through that rewrite.

    A display filter ([filter/]) selects packets by a text such as
    [ip.ttl in {5, 7..9} || !(udp)]: the lexer cuts it into tokens, an operator stack
    turns them into a postfix program of predicates, jumps are threaded through the
    program, and a packet is tested by following the jumps, each predicate reading
    the values of a field from the packet's layers.

    ** Files

    - [Prelude]: machine integers, the three-way [outcome] of fallible code ([Ok],
      [Err], [Panic]), lists indexed by [Z], shared tactics and hint databases.
    - [Checksum]: [checksum.rs]; the RFC 1071 reference and the equivalence.
    - [Ordered]: [expiry.rs] and sorted sets of keys (the class of key orders).
    - [Flow]: [serial.rs] and the keys of [stream.rs].
    - [Headers], [HeadersProofs]: [headers.rs], [network.rs], [link.rs] and
      [link_type.rs]; bounds and termination of every walk; the interface
      [options_iterator] of the IPv4 options.
    - [Frame]: [frame.rs].
    - [Transform], [TransformProofs]: [transform/error.rs] and [transform.rs] with the
      pseudo-header checksum of [checksum.rs]; the repair of a checksum field.
    - [Rewrite]: [rewrite.rs]; [RewriteNetwork], [RewriteProofs]: what it writes and
      that the result parses back.
    - [AddressMap], [AddressMapProofs]: [address_map.rs]; the tables against a scan
      of the mappings, through the interface [RemapsBy] that a built map implements
      and applying it uses.
    - [Fragmenter]: [fragment.rs]; [FragmenterProofs], [FragmenterIpv6], [FragmenterTheorems]: what it emits.
    - [TcpModel] ([tcp/model.rs], [limits.rs]), [TcpHistory] ([history.rs]),
      [TcpPages] ([pages.rs]), [TcpState] ([state.rs]), [TcpPlan] ([pending.rs],
      [pending/accounting.rs]), [TcpCommit] ([pending/commit.rs], [engine.rs],
      [tcp.rs]): the TCP reassembler.  [TcpIntervals] to [TcpEviction]: the
      invariant and the specification of one push; [TcpStream]: whole traces;
      [TcpTheorems]: the results.
    - [IpModel] ([ip.rs], [ip/model.rs], [ip/limits.rs]), [IpValidate]
      ([engine/validation.rs]), [IpMerge] ([engine/merge.rs]), [IpReconstruct]
      ([engine/reconstruction.rs]), [IpEngine] ([ip/engine.rs]): the IP
      reassembler.  [IpRanges] to [IpRetire]: the invariant and the specification
      of push, expire and flush; [IpTheorems], [IpDelivery], [IpDecisions]: the
      results; [IpPieces]: the pieces of one datagram, behind the interface
      [CutDatagram] that each family implements.
    - [RoundTrip], [RoundTripIpv6]: the fragmenter and the reassembler together,
      with the instances of [CutDatagram].  The fragment a frame presents is read
      off the wire ([presented4], [presents6]): a specification of what the decoder
      of the tool hands over, not a model of it.
    - [CaptureWire]: [capture_file/] [format.rs], [header.rs], [error.rs], [limits.rs],
      [wire/primitives.rs] and [wire/timestamp.rs]: streams as the lists of the answers
      they give, a state and error monad for methods on [&mut self], the class
      [Write] of its two sinks, fields, times and limits.  [CaptureRead]: [record.rs],
      [reader.rs], [classic/decode.rs], [pcapng/] [options.rs], [interface.rs],
      [packet.rs], [section.rs], [decode.rs], [decode/framing.rs] and
      [decode/record.rs].  [CaptureWrite]: [writer.rs], [classic/encode.rs] and
      [pcapng/encode.rs].
    - [CaptureStreams]: what a computation on a stream may do ([wp], [delivers],
      [emits]); [CaptureTime]: times and ticks; [CaptureEncode], [CaptureWriter]: the
      bytes written; [CaptureReader], [CaptureBlocks], [CaptureSafety]: the reader on
      any stream; [CaptureRoundTrip], [CaptureDecode], [CaptureRoundTripNg]: what was
      written reads back; [CaptureCopy]: [rewrite.rs], copies and selections of a
      capture and what they write.
    - [CaptureRecords]: the effect of each record on a reader and of each operation on
      a writer, and the packet flags a rewrite can keep ([pcapng/packet.rs]).
      [CaptureMap]: [map.rs], its plan and what it writes.  [CaptureMerge]: [merge.rs];
      [CaptureMergeSource], [CaptureMergeLanes]: one source and its window;
      [CaptureMergeOrder]: the specification, a sort of all frames and the plan that
      writes them, and the sources together; [CaptureMergeProofs]: the loop and the
      whole pass; [CaptureMergeTheorems]: the results.
    - [FilterLexer]: [filter/limits.rs], [error.rs] and [lexer.rs]; how tokens are
      spelled.  [FilterCompile]: [parser.rs], [plan.rs], [requirements.rs] and
      [model.rs] over any predicates; expressions and the plans they should have.
      [FilterValues]: the values of [field.rs], [literal.rs], [comparison.rs] and
      [membership.rs].  [FilterGrammar]: the grammar of filters, and the interface
      [PredicateParser] that the operator stack asks of a parser of predicates.
      [FilterEval]: [ast.rs], [path.rs], [eval.rs], [field/path.rs].
      [FilterPredicate]: [parser/predicate.rs], [operand.rs] and [measure.rs], which
      implement that interface, and whole filters.

    A record models a struct, an inductive type an enum, a [Definition] a function;
    names are those of the source, with a prefix where two structs share a field
    name.  [gmap] is a [HashMap] or [BTreeMap]; a [BTreeMap] whose order matters is
    a sorted list.

    ** What is shown

    - TCP ([TcpTheorems]): push does not panic unless an interval is pending in the
      last page of the [u64] stream positions ([clear_of_last_page]); there it can,
      since [remaining_count] adds the page size to the base of that page
      ([push_panics_on_last_page]).  A new reassembler stays clear of it, and its
      buffers within [max_aggregate_bytes], over sessions of any calls
      ([session_safe]; 2^64 bytes of one flow are needed to get there).  Counters,
      limits and the expiry index are exact in every reachable state; push delivers
      the maximal contiguous run of the first-wins merge and keeps the rest; over
      any trace the bytes delivered for a flow are those of the stream it was cut
      from; conflicts, closing, expiry, eviction and flush are exact; the history
      ring refines a byte queue.
    - IP ([IpTheorems], [IpDelivery], [IpDecisions]): push never panics; every
      counter, charge and index is exact; an accepted fragment merges by the
      overlap policy; completed IPv4 and IPv6 datagrams are rebuilt exactly, with
      the headers of the first fragment from offset zero and the ECN bits RFC 3168
      gives for the markings of all accepted fragments; completion happens exactly when nothing is missing; whole runs deliver the
      payload the fragments were cut from; expire, flush, the conflict error, the
      storage search, the ECN table and the search for the IPv6 predecessor byte.
    - Headers and checksum: walks end inside the bytes given; extensions tile; the
      64-bit accumulator is the RFC 1071 sum, and a filled checksum verifies.
    - Fragmenter: it ends, never panics, respects its limits, every frame it returns
      fits the MTU, and it emits exactly the pieces with the headers the standard
      asks for: in later IPv4 fragments the options with the copied flag, in IPv6
      the headers up to the last Hop-by-Hop or Routing header.
    - Header rewriting: it never panics, fits its limit and keeps the capture
      identity; the output parses to the old headers with exactly the requested
      fields replaced, its checksums verify, and every other byte is kept.
    - Address maps: construction refuses exactly the maps that are too large or
      ambiguous; looking up is the scan of the mappings; applying a map remaps the
      outer addresses of the frame and nothing else.
    - Capture files: opening and reading an arbitrary stream never panics, ends, and
      consumes exactly the bytes of the records it returns, each within the limits;
      the next frame is found within the metadata limit; the size preview of the
      writer is exact and a failed write is sticky (a failed flush is not); times and ticks are exact
      inverses; a classic or block capture reads back as the frames and interfaces
      written to it; a copy writes exactly the bytes read, and a selection exactly
      the records it accepts.
    - Passes over captures: mapping carries out its plan, record by record (the plan
      says by itself how interfaces widen, which options are carried and what the
      caller's function may change); a merge
      refines reading every source, sorting all frames by time, source and position,
      and writing them; it succeeds exactly as far as limits, reorder window and
      writer allow; what a map or a merge wrote reads back as those frames.
    - Display filters: compiling never panics and accepts exactly the texts whose
      tokens the grammar derives within the limits; the threaded jumps decide the
      expression; a filter answers for every packet what its text says; tokens read
      back from their spelling; a set holds what one of its members equals, however
      it is indexed; the text operators find what they say; every predicate of a
      filter is well typed, and what it searches for is written in the filter.
    - Round trip: the fragments of a datagram, pushed in any order, are refused only
      for want of resources, and the last one gives the datagram back.

    ** Bounds, fuel and oracles

    Integers are [Z] with their width written out ([checked_add], [add_u],
    [wrapping_add32], ...); the build has overflow checks on, so an overflow of plain
    arithmetic is [Panic].  Loops that are not structural carry fuel, and running
    out of it is [Panic] or an error the theorems exclude: [fold_loop] 4 (a 64-bit
    sum folds in four), [walk_vlans] and [walk_extensions] 66 (the source stops at
    64), [predecessor_loop] one step per eight bytes, [capacity_search] 66 (a binary
    search over 64 bits), [copy_options], [refuse_options] and the fragment loops one
    step per byte, [pad_word] 4, [parse_options_loop] one step per byte, [next_frame]
    one record more than the metadata limit (proved enough).  The passes over
    captures take one turn per record ([map_loop], [read_frame_loop] with the turns of
    its source), per place of the window ([fill_window]) or per frame ([merge_loop]);
    their theorems ask for more turns than the inputs have bytes.  In filters
    [tokenize_loop] and [read_quoted] take a step per byte, [compile_loop],
    [extend_path] and [parse_members] one per token, and [follow] one per step of the
    plan, each proved enough.  Allocation failure is
    an argument ([allocator], [ip_allocator], [capture_allocator]: any function of
    the request), so are the clock, the order in which a hash map is visited, the answers of an input or
    output stream, and those of the deadline and cancellation checks; the theorems
    hold for all of them.

    ** Not modelled

    Display strings, error classification and derived traits; the adapters that
    feed decoded packets to the reassemblers (they need the protocol registry and
    its two hundred codecs); the application analysers over reassembled streams;
    field edits of decoded packets and the text form of address mappings; the
    registry in which a filter's paths are resolved (the parameter [resolve]), the
    text of a literal in an error ([display]), the substring search of the [memchr]
    package ([memmem_find]), the projections of fields and the selection of frames
    with derived packets; compressed
    captures, whose codecs are third-party code, and the JSON text of the comment a
    merge gives its interfaces (a parameter); live network operations and the
    command line, which are input and output over the operating system.  The
    analysers would come next. *)

From stdpp Require Import base tactics option list numbers gmap.
From Stdlib Require Import ZArith Lia.

#[global] Open Scope Z_scope.

(** ** Machine integers

    The source is compiled with [overflow-checks = true] for every profile, on
    64-bit targets ([usize] = [u64]).  A width-w unsigned integer is a [Z] in
    [0 .. 2^w - 1]; the three arithmetic families of the Rust standard library
    are written out here. *)

Definition u8_max : Z := 255.
Definition u16_max : Z := 65535.
Definition u32_max : Z := 4294967295.
Definition u64_max : Z := 18446744073709551615.
Definition usize_max : Z := u64_max.

(** [checked_*]: [None] on overflow. *)
Definition checked_add (max a b : Z) : option Z :=
  if a + b <=? max then Some (a + b) else None.

Definition checked_sub (a b : Z) : option Z :=
  if b <=? a then Some (a - b) else None.

Definition checked_mul (max a b : Z) : option Z :=
  if a * b <=? max then Some (a * b) else None.

(** [saturating_*]: clamp to the type's range. *)
Definition saturating_add (max a b : Z) : Z := Z.min max (a + b).
Definition saturating_sub (a b : Z) : Z := Z.max 0 (a - b).
Definition saturating_mul (max a b : Z) : Z := Z.min max (a * b).

(** [wrapping_*] and [as u32] at 32 bits. *)
Definition as_u32 (a : Z) : Z := a mod 4294967296.
Definition wrapping_add32 (a b : Z) : Z := as_u32 (a + b).
Definition wrapping_sub32 (a b : Z) : Z := as_u32 (a - b).

(** [u64::div_ceil] for a positive divisor. *)
Definition div_ceil (a b : Z) : Z := (a + b - 1) / b.

(** [usize::from(bool)]. *)
Definition from_bool (b : bool) : Z := if b then 1 else 0.

(** ** Results and panics

    [Ok] and [Err] are Rust's [Result]; [Panic] is a failed [expect], [assert!],
    slice index or overflow check. *)
Inductive outcome (E A : Type) : Type :=
| Ok (a : A)
| Err (e : E)
| Panic.
Arguments Ok {E A} a.
Arguments Err {E A} e.
Arguments Panic {E A}.

#[export] Instance outcome_ret {E} : MRet (outcome E) := fun A a => Ok a.
#[export] Instance outcome_bind {E} : MBind (outcome E) :=
  fun A B k m => match m with Ok a => k a | Err e => Err e | Panic => Panic end.

(** [Option::expect] and [assert!]. *)
Definition expect {E A} (o : option A) : outcome E A :=
  match o with Some a => Ok a | None => Panic end.

Definition assert_ {E} (b : bool) : outcome E unit := if b then Ok tt else Panic.

(** [Option::ok_or]. *)
Definition ok_or {E A} (e : E) (o : option A) : outcome E A :=
  match o with Some a => Ok a | None => Err e end.

(** A function that returns [Option] but may panic is an [outcome unit];
    [opt_or] is [ok_or] on it. *)
Definition opt_or {E A} (e : E) (o : outcome unit A) : outcome E A :=
  match o with Ok a => Ok a | Err _ => Err e | Panic => Panic end.

(** [Result::map_err]. *)
Definition map_err {E F A} (f : E -> F) (o : outcome E A) : outcome F A :=
  match o with Ok a => Ok a | Err e => Err (f e) | Panic => Panic end.

(** Plain [+], [-] and [*] panic on overflow. *)
Definition add_u {E} (a b : Z) : outcome E Z := expect (checked_add u64_max a b).
Definition sub_u {E} (a b : Z) : outcome E Z := expect (checked_sub a b).

(** ** Byte strings: lists with [Z] indices *)

Definition bytes : Type := list Z.

Definition zlen {A} (l : list A) : Z := Z.of_nat (length l).
Definition ztake {A} (n : Z) (l : list A) : list A := take (Z.to_nat n) l.
Definition zdrop {A} (n : Z) (l : list A) : list A := drop (Z.to_nat n) l.
Definition zrep {A} (n : Z) (a : A) : list A := replicate (Z.to_nat n) a.
Definition zget {A} (l : list A) (i : Z) : option A :=
  if 0 <=? i then l !! Z.to_nat i else None.

(** The bytes [first .. last) of [l], with no bounds check. *)
Definition zslice {A} (first last : Z) (l : list A) : list A :=
  ztake (last - first) (zdrop first l).

(** [l.get(first..last)]. *)
Definition get_range {A} (l : list A) (first last : Z) : option (list A) :=
  if (0 <=? first) && (first <=? last) && (last <=? zlen l)
  then Some (zslice first last l) else None.

(** [&l[first..last]]. *)
Definition index_range {E A} (l : list A) (first last : Z) : outcome E (list A) :=
  expect (get_range l first last).

(** [target[start..start + src.len()].copy_from_slice(src)]. *)
Definition overwrite {A} (target : list A) (start : Z) (src : list A) : list A :=
  ztake start target ++ src ++ zdrop (start + zlen src) target.

Definition copy_at {E A} (target : list A) (start : Z) (src : list A)
  : outcome E (list A) :=
  if (0 <=? start) && (start + zlen src <=? zlen target)
  then Ok (overwrite target start src) else Panic.

(** [l[index] = value] for an index in range. *)
Definition zput {A} (l : list A) (index : Z) (value : A) : list A := <[Z.to_nat index := value]> l.

Definition is_empty {A} (l : list A) : bool :=
  match l with [] => true | _ => false end.

Definition is_some {A} (o : option A) : bool :=
  match o with Some _ => true | None => false end.

Definition is_none {A} (o : option A) : bool := negb (is_some o).

(** Byte-string equality, [==] on slices. *)
Definition bytes_eqb (a b : bytes) : bool := bool_decide (a = b).

(** ** Automation *)

Create HintDb pcr.
Create HintDb pcr_len.

(** ** Lemmas on results *)

Lemma bind_Ok {E A B} (k : A -> outcome E B) (m : outcome E A) (b : B) :
  (m ≫= k) = Ok b <-> exists a, m = Ok a /\ k a = Ok b.
Proof. destruct m; cbn; split; naive_solver. Qed.

Lemma Ok_bind {E A B} (k : A -> outcome E B) (a : A) : (Ok a ≫= k) = k a.
Proof. reflexivity. Qed.

Lemma bind_Err {E A B} (k : A -> outcome E B) (m : outcome E A) (e : E) :
  (m ≫= k) = Err e <-> m = Err e \/ exists a, m = Ok a /\ k a = Err e.
Proof. destruct m; cbn; split; naive_solver. Qed.

Lemma bind_not_Panic {E A B} (k : A -> outcome E B) (m : outcome E A) :
  m <> Panic -> (forall a, m = Ok a -> k a <> Panic) -> (m ≫= k) <> Panic.
Proof. destruct m; cbn; naive_solver. Qed.

Lemma ok_or_Ok {E A} (e : E) (o : option A) (a : A) : ok_or e o = Ok a <-> o = Some a.
Proof. destruct o; cbn; naive_solver. Qed.

Lemma ok_or_not_Panic {E A} (e : E) (o : option A) : ok_or e o <> Panic.
Proof. by destruct o. Qed.

Lemma checked_add_Some max a b c :
  checked_add max a b = Some c <-> c = a + b /\ a + b <= max.
Proof. unfold checked_add. destruct (Z.leb_spec (a + b) max); naive_solver lia. Qed.

Lemma checked_sub_Some a b c : checked_sub a b = Some c <-> c = a - b /\ b <= a.
Proof. unfold checked_sub. destruct (Z.leb_spec b a); naive_solver lia. Qed.

Lemma checked_mul_Some max a b c :
  checked_mul max a b = Some c <-> c = a * b /\ a * b <= max.
Proof. unfold checked_mul. destruct (Z.leb_spec (a * b) max); naive_solver lia. Qed.

Lemma checked_add_ok max a b : a + b <= max -> checked_add max a b = Some (a + b).
Proof. intros. by apply checked_add_Some. Qed.

Lemma checked_sub_ok a b : b <= a -> checked_sub a b = Some (a - b).
Proof. intros. by apply checked_sub_Some. Qed.

Lemma checked_mul_ok max a b : a * b <= max -> checked_mul max a b = Some (a * b).
Proof. intros. by apply checked_mul_Some. Qed.

Lemma add_u_ok {E} a b : a + b <= u64_max -> @add_u E a b = Ok (a + b).
Proof. intros H. unfold add_u, checked_add. by rewrite (proj2 (Z.leb_le _ _) H). Qed.

Lemma sub_u_ok {E} a b : b <= a -> @sub_u E a b = Ok (a - b).
Proof. intros H. unfold sub_u, checked_sub. by rewrite (proj2 (Z.leb_le _ _) H). Qed.

#[export] Hint Resolve ok_or_not_Panic : pcr.

(** [m] does not panic, and what it returns satisfies [P]. *)
Definition safe {E A} (m : outcome E A) (P : A -> Prop) : Prop :=
  match m with Ok a => P a | Err _ => True | Panic => False end.

Lemma safe_iff {E A} (m : outcome E A) (P : A -> Prop) :
  safe m P <-> m <> Panic /\ forall a, m = Ok a -> P a.
Proof. destruct m; cbn; naive_solver. Qed.

Lemma safe_bind {E A B} (m : outcome E A) (k : A -> outcome E B) (P : B -> Prop) :
  safe m (fun a => safe (k a) P) -> safe (m ≫= k) P.
Proof. by destruct m. Qed.

Lemma safe_mono {E A} (m : outcome E A) (P Q : A -> Prop) :
  safe m P -> (forall a, P a -> Q a) -> safe m Q.
Proof. destruct m; cbn; auto. Qed.

Lemma safe_and {E A} (m : outcome E A) (P Q : A -> Prop) :
  safe m P -> safe m Q -> safe m (fun a => P a /\ Q a).
Proof. by destruct m. Qed.

Lemma safe_Ok {E A} (m : outcome E A) (P : A -> Prop) a : safe m P -> m = Ok a -> P a.
Proof. intros H ->. exact H. Qed.

Lemma safe_ok_or {E A} (e : E) (o : option A) (P : A -> Prop) :
  (forall a, o = Some a -> P a) -> safe (ok_or e o) P.
Proof. destruct o; cbn; auto. Qed.

(** [m] does not panic where [C] holds, and what it returns satisfies [P]
    whether [C] holds or not. *)
Definition safe_when {E A} (C : Prop) (m : outcome E A) (P : A -> Prop) : Prop :=
  match m with Ok a => P a | Err _ => True | Panic => ~ C end.

Lemma safe_when_bind {E A B} (C : Prop) (m : outcome E A) (k : A -> outcome E B) (P : B -> Prop) :
  safe_when C m (fun a => safe_when C (k a) P) -> safe_when C (m ≫= k) P.
Proof. by destruct m. Qed.

Lemma safe_when_mono {E A} (C : Prop) (m : outcome E A) (P Q : A -> Prop) :
  safe_when C m P -> (forall a, P a -> Q a) -> safe_when C m Q.
Proof. destruct m; cbn; auto. Qed.

Lemma safe_when_of_safe {E A} (C : Prop) (m : outcome E A) (P : A -> Prop) :
  safe m P -> safe_when C m P.
Proof. by destruct m. Qed.

Lemma safe_when_Ok {E A} (C : Prop) (m : outcome E A) (P : A -> Prop) a :
  safe_when C m P -> m = Ok a -> P a.
Proof. intros H ->. exact H. Qed.

Lemma safe_when_Panic {E A} (C : Prop) (m : outcome E A) (P : A -> Prop) :
  safe_when C m P -> C -> m <> Panic.
Proof. by intros H ? ->. Qed.

(** [m] does not panic, what it returns satisfies [P], and its errors satisfy [Q]. *)
Definition ends {E A} (Q : E -> Prop) (m : outcome E A) (P : A -> Prop) : Prop :=
  match m with Ok a => P a | Err e => Q e | Panic => False end.

Lemma ends_bind {E A B} (Q : E -> Prop) (m : outcome E A) (k : A -> outcome E B) (P : B -> Prop) :
  ends Q m (fun a => ends Q (k a) P) -> ends Q (m ≫= k) P.
Proof. by destruct m. Qed.

Lemma ends_mono {E A} (Q : E -> Prop) (m : outcome E A) (P P' : A -> Prop) :
  ends Q m P -> (forall a, P a -> P' a) -> ends Q m P'.
Proof. destruct m; cbn; auto. Qed.

Lemma ends_weaken {E A} (Q Q' : E -> Prop) (m : outcome E A) (P : A -> Prop) :
  (forall e, Q e -> Q' e) -> ends Q m P -> ends Q' m P.
Proof. destruct m; cbn; auto. Qed.

Lemma ends_ok_or {E A} (Q : E -> Prop) (e : E) (o : option A) (P : A -> Prop) :
  Q e -> (forall a, o = Some a -> P a) -> ends Q (ok_or e o) P.
Proof. destruct o; cbn; auto. Qed.

Lemma ends_Ok {E A} (Q : E -> Prop) (m : outcome E A) (P : A -> Prop) a : ends Q m P -> m = Ok a -> P a.
Proof. intros H ->. exact H. Qed.

Lemma ends_safe {E A} (Q : E -> Prop) (m : outcome E A) (P : A -> Prop) : ends Q m P -> safe m P.
Proof. by destruct m. Qed.

(** ** Lemmas on lists *)

Lemma filter_all {A} (P : A -> Prop) `{!forall x, Decision (P x)} l :
  Forall P l -> filter P l = l.
Proof. induction 1; [done|]. rewrite filter_cons_True by done. by f_equal. Qed.

(** ** Lemmas on [Z]-indexed lists *)

Section zlist.
Context {A : Type}.
Implicit Types (l k : list A) (i j n a b : Z).

Lemma zlen_nonneg l : 0 <= zlen l.
Proof. unfold zlen. lia. Qed.

Lemma zlen_nil : zlen (@nil A) = 0.
Proof. reflexivity. Qed.

Lemma zlen_cons (x : A) l : zlen (x :: l) = 1 + zlen l.
Proof. unfold zlen. cbn [length]. lia. Qed.

Lemma zlen_app l k : zlen (l ++ k) = zlen l + zlen k.
Proof. unfold zlen. rewrite length_app. lia. Qed.

Lemma zlen_ztake n l : zlen (ztake n l) = Z.min (Z.max 0 n) (zlen l).
Proof. unfold zlen, ztake. rewrite length_take. lia. Qed.

Lemma zlen_zdrop n l : zlen (zdrop n l) = Z.max 0 (zlen l - Z.max 0 n).
Proof. unfold zlen, zdrop. rewrite length_drop. lia. Qed.

Lemma zlen_zrep n (x : A) : zlen (zrep n x) = Z.max 0 n.
Proof. unfold zlen, zrep. rewrite length_replicate. lia. Qed.

Lemma zlen_zslice a b l :
  0 <= a -> a <= b -> b <= zlen l -> zlen (zslice a b l) = b - a.
Proof. intros. unfold zslice. rewrite zlen_ztake, zlen_zdrop. lia. Qed.

Lemma zlen_0 l : zlen l = 0 -> l = [].
Proof. destruct l; [done|]. rewrite zlen_cons. pose proof (zlen_nonneg l). lia. Qed.

Lemma is_empty_zlen l : is_empty l = (zlen l =? 0).
Proof.
  destruct l; [done|]. rewrite zlen_cons. pose proof (zlen_nonneg l).
  symmetry. apply Z.eqb_neq. lia.
Qed.

Lemma zget_neg l i : i < 0 -> zget l i = None.
Proof. unfold zget. intros. destruct (Z.leb_spec 0 i); [lia|done]. Qed.

Lemma zget_ge l i : zlen l <= i -> zget l i = None.
Proof.
  unfold zget, zlen. intros. destruct (Z.leb_spec 0 i); [|done].
  apply lookup_ge_None. lia.
Qed.

Lemma zget_lt_is_Some l i : 0 <= i < zlen l -> is_Some (zget l i).
Proof.
  unfold zget, zlen. intros. destruct (Z.leb_spec 0 i); [|lia].
  apply lookup_lt_is_Some. lia.
Qed.

Lemma zget_Some_lt l i x : zget l i = Some x -> 0 <= i < zlen l.
Proof.
  unfold zget, zlen. intros H. destruct (Z.leb_spec 0 i); [|done].
  apply lookup_lt_Some in H. lia.
Qed.

Lemma zget_nil i : zget (@nil A) i = None.
Proof. unfold zget. by destruct (0 <=? i). Qed.

Lemma zget_app l k i :
  zget (l ++ k) i = if i <? zlen l then zget l i else zget k (i - zlen l).
Proof.
  unfold zget, zlen. destruct (Z.ltb_spec i (Z.of_nat (length l))).
  - destruct (Z.leb_spec 0 i); [|done]. apply lookup_app_l. lia.
  - rewrite (proj2 (Z.leb_le 0 i)) by lia. rewrite (proj2 (Z.leb_le 0 _)) by lia.
    rewrite lookup_app_r by lia. f_equal. lia.
Qed.

Lemma zget_ztake n l i : zget (ztake n l) i = if i <? n then zget l i else None.
Proof.
  unfold zget, ztake. destruct (Z.leb_spec 0 i); [|by destruct (i <? n)].
  destruct (Z.ltb_spec i n).
  - apply lookup_take_lt. lia.
  - apply lookup_take_ge. lia.
Qed.

Lemma zget_zdrop n l i : 0 <= n -> 0 <= i -> zget (zdrop n l) i = zget l (n + i).
Proof.
  intros. unfold zget, zdrop. rewrite !(proj2 (Z.leb_le _ _)) by lia.
  rewrite lookup_drop. f_equal. lia.
Qed.

Lemma zget_zslice a b l i :
  0 <= a ->
  zget (zslice a b l) i = if (0 <=? i) && (i <? b - a) then zget l (a + i) else None.
Proof.
  intros. unfold zslice. rewrite zget_ztake.
  destruct (Z.leb_spec 0 i); cbn.
  - destruct (Z.ltb_spec i (b - a)); [|done]. by apply zget_zdrop.
  - rewrite zget_neg by lia. by destruct (i <? b - a).
Qed.

Lemma zget_zrep n (x : A) i :
  zget (zrep n x) i = if (0 <=? i) && (i <? n) then Some x else None.
Proof.
  unfold zget, zrep. destruct (Z.leb_spec 0 i); cbn; [|done].
  destruct (Z.ltb_spec i n).
  - apply lookup_replicate_2. lia.
  - apply lookup_ge_None. rewrite length_replicate. lia.
Qed.

Lemma zlen_overwrite l a k :
  0 <= a -> a + zlen k <= zlen l -> zlen (overwrite l a k) = zlen l.
Proof.
  intros. unfold overwrite. rewrite !zlen_app, zlen_ztake, zlen_zdrop.
  pose proof (zlen_nonneg k). lia.
Qed.

Lemma zget_overwrite l a k i :
  0 <= a -> a + zlen k <= zlen l ->
  zget (overwrite l a k) i =
  if (a <=? i) && (i <? a + zlen k) then zget k (i - a) else zget l i.
Proof.
  intros. pose proof (zlen_nonneg k). unfold overwrite.
  destruct (decide (i < 0)).
  { rewrite !zget_neg by lia. by destruct ((a <=? i) && _). }
  rewrite !zget_app, zget_ztake, zlen_ztake, Z.max_r, Z.min_l by lia.
  destruct (Z.ltb_spec i a), (Z.leb_spec a i); try lia; cbn; [done|].
  destruct (Z.ltb_spec (i - a) (zlen k)), (Z.ltb_spec i (a + zlen k)); try lia; [done|].
  rewrite zget_zdrop by lia. f_equal. lia.
Qed.

(** Extensionality. *)
Lemma zget_ext l k : (forall i, 0 <= i -> zget l i = zget k i) -> l = k.
Proof.
  intros H. apply list_eq. intros i. specialize (H (Z.of_nat i)).
  unfold zget in H. rewrite !(proj2 (Z.leb_le _ _)), !Nat2Z.id in H by lia.
  apply H. lia.
Qed.

Lemma ztake_zdrop_app n l : ztake n l ++ zdrop n l = l.
Proof. apply take_drop. Qed.

Lemma ztake_all n l : zlen l <= n -> ztake n l = l.
Proof. unfold zlen, ztake. intros. apply take_ge. lia. Qed.

Lemma zdrop_0 l : zdrop 0 l = l.
Proof. reflexivity. Qed.

Lemma zdrop_all n l : zlen l <= n -> zdrop n l = [].
Proof. unfold zlen, zdrop. intros. apply drop_ge. lia. Qed.

Lemma zdrop_zdrop a b l : 0 <= a -> 0 <= b -> zdrop a (zdrop b l) = zdrop (b + a) l.
Proof. intros. unfold zdrop. rewrite drop_drop. f_equal. lia. Qed.

Lemma get_range_Some l a b k :
  get_range l a b = Some k <-> 0 <= a /\ a <= b /\ b <= zlen l /\ k = zslice a b l.
Proof.
  unfold get_range.
  destruct (Z.leb_spec 0 a), (Z.leb_spec a b), (Z.leb_spec b (zlen l)); cbn;
    split; intros; simplify_eq; naive_solver lia.
Qed.

Lemma index_range_ok {E} l a b :
  0 <= a -> a <= b -> b <= zlen l -> @index_range E A l a b = Ok (zslice a b l).
Proof.
  intros. unfold index_range.
  by rewrite (proj2 (get_range_Some l a b (zslice a b l)) ltac:(done)).
Qed.

Lemma copy_at_ok {E} l a k :
  0 <= a -> a + zlen k <= zlen l -> @copy_at E A l a k = Ok (overwrite l a k).
Proof. intros. unfold copy_at. by rewrite !(proj2 (Z.leb_le _ _)) by lia. Qed.
End zlist.

Lemma zget_zput_eq {A} (l : list A) k x : 0 <= k < zlen l -> zget (zput l k x) k = Some x.
Proof. unfold zget, zput, zlen. intros H. rewrite (proj2 (Z.leb_le 0 k)) by lia. rewrite list_lookup_insert_eq; [done|lia]. Qed.

Lemma zget_zput_ne {A} (l : list A) k j x : 0 <= k -> j <> k -> zget (zput l k x) j = zget l j.
Proof. unfold zget, zput. intros H Hn. destruct (Z.leb_spec 0 j); [|done]. rewrite list_lookup_insert_ne; [done|lia]. Qed.

Lemma zlen_zput {A} (l : list A) k x : zlen (zput l k x) = zlen l.
Proof. unfold zlen, zput. by rewrite length_insert. Qed.

Lemma zput_zput {A} (l : list A) k x y : zput (zput l k x) k y = zput l k y.
Proof. unfold zput. apply list_insert_insert_eq. Qed.

Lemma zput_id {A} (l : list A) k x : zget l k = Some x -> zput l k x = l.
Proof. unfold zget, zput. intros H. destruct (Z.leb_spec 0 k); [|done]. by apply list_insert_id. Qed.

#[export] Hint Rewrite @zlen_nil @zlen_cons @zlen_app @zlen_ztake @zlen_zdrop @zlen_zrep : pcr_len.
#[export] Hint Resolve zlen_nonneg : pcr.

Lemma bytes_eqb_spec (a b : bytes) : bytes_eqb a b = true <-> a = b.
Proof. apply bool_decide_eq_true. Qed.

(** Case analysis on the boolean tests of the goal or a hypothesis. *)
Ltac case_bool :=
  match goal with
  | |- context [Z.leb ?a ?b] => destruct (Z.leb_spec a b)
  | |- context [Z.ltb ?a ?b] => destruct (Z.ltb_spec a b)
  | |- context [Z.eqb ?a ?b] => destruct (Z.eqb_spec a b)
  | H : context [Z.leb ?a ?b] |- _ => destruct (Z.leb_spec a b)
  | H : context [Z.ltb ?a ?b] |- _ => destruct (Z.ltb_spec a b)
  | H : context [Z.eqb ?a ?b] |- _ => destruct (Z.eqb_spec a b)
  end; cbn [andb orb negb] in *; try lia.

(** Peel one [bind] of a hypothesis [H : _ = Ok _]. *)
Ltac inv_ok H :=
  let a := fresh "a" in let Ha := fresh "Ha" in
  apply bind_Ok in H as (a & Ha & H).

#[global] Arguments zlen : simpl never.
#[global] Arguments ztake : simpl never.
#[global] Arguments zdrop : simpl never.
#[global] Arguments zrep : simpl never.
#[global] Arguments zget : simpl never.
#[global] Arguments zslice : simpl never.
#[global] Arguments overwrite : simpl never.
#[global] Arguments add_u : simpl never.
#[global] Arguments sub_u : simpl never.
#[global] Arguments index_range : simpl never.
#[global] Arguments copy_at : simpl never.
#[global] Arguments checked_add : simpl never.
#[global] Arguments checked_sub : simpl never.
#[global] Arguments checked_mul : simpl never.
#[global] Arguments saturating_add : simpl never.
#[global] Arguments saturating_sub : simpl never.
#[global] Arguments saturating_mul : simpl never.
#[global] Arguments as_u32 : simpl never.
