(* ===== verification/Checksum.v ===== *)
(** * The Internet checksum

    [protocol/common/checksum.rs]: the accumulator folds 64-bit chunks into a
    128-bit sum and carries an odd byte from one part to the next.  It computes
    the RFC 1071 checksum of the concatenated parts. *)

From Stdlib Require Import ZArith Zpow_facts Lia.
From stdpp Require Import base tactics option numbers list.
From S2P Require Import Prelude.

(** ** Big-endian values *)

(** [from_be_bytes]. *)
Definition from_be_bytes (l : bytes) : Z := foldl (fun acc b => acc * 256 + b) 0 l.

(** [u16::to_be_bytes]. *)
Definition to_be_bytes16 (n : Z) : bytes := [n / 256; n mod 256].

Notation octets := (Forall (fun b : Z => 0 <= b < 256)).

(** ** The code *)

Record ChecksumAccumulator : Type := mkAccumulator {
  ck_sum : Z;
  pending_high_byte : option Z
}.

Definition accumulator_default : ChecksumAccumulator := mkAccumulator 0 None.

(** [as_chunks::<8>()]: the sum of the whole chunks, and the remainder. *)
Fixpoint add_chunks8 (sum : Z) (l : bytes) : Z * bytes :=
  match l with
  | a :: b :: c :: d :: e :: f :: g :: h :: l' =>
      add_chunks8 (sum + from_be_bytes [a; b; c; d; e; f; g; h]) l'
  | _ => (sum, l)
  end.

(** [as_chunks::<2>()]. *)
Fixpoint add_chunks2 (sum : Z) (l : bytes) : Z * bytes :=
  match l with
  | a :: b :: l' => add_chunks2 (sum + from_be_bytes [a; b]) l'
  | _ => (sum, l)
  end.

Definition add_words (sum : Z) (l : bytes) : ChecksumAccumulator :=
  let '(sum, remainder) := add_chunks8 sum l in
  let '(sum, remainder) := add_chunks2 sum remainder in
  mkAccumulator sum (head remainder).

Definition accumulator_add (acc : ChecksumAccumulator) (l : bytes) : ChecksumAccumulator :=
  match pending_high_byte acc with
  | Some high =>
      match l with
      | [] => acc
      | low :: remaining => add_words (ck_sum acc + from_be_bytes [high; low]) remaining
      end
  | None => add_words (ck_sum acc) l
  end.

(** The [while] loop; [fold_terminates] shows four steps are enough. *)
Fixpoint fold_loop (fuel : nat) (sum : Z) : Z :=
  match fuel with
  | O => sum
  | S fuel => if Z.shiftr sum 16 =? 0 then sum
              else fold_loop fuel (Z.land sum 65535 + Z.shiftr sum 16)
  end.

Definition fold_checksum (sum : Z) : Z :=
  let sum := Z.land sum 18446744073709551615 + Z.shiftr sum 64 in
  let sum := Z.land sum 4294967295 + Z.shiftr sum 32 in
  let sum := fold_loop 4 sum in
  Z.lxor (sum mod 65536) 65535.

Definition accumulator_finish (acc : ChecksumAccumulator) : Z :=
  fold_checksum (ck_sum acc
    + match pending_high_byte acc with Some high => Z.shiftl high 8 | None => 0 end).

Definition checksum_parts (parts : list bytes) : Z :=
  accumulator_finish (foldl accumulator_add accumulator_default parts).

(** ** The reference: RFC 1071 over 16-bit words *)

(** Ones' complement addition. *)
Definition oc_add (a b : Z) : Z := if a + b <=? 65535 then a + b else a + b - 65535.

Fixpoint words (l : bytes) : list Z :=
  match l with
  | a :: b :: l' => (a * 256 + b) :: words l'
  | [a] => [a * 256]
  | [] => []
  end.

Definition internet_checksum (l : bytes) : Z := 65535 - foldl oc_add 0 (words l).

(** ** Arithmetic modulo 65535 *)

(** Two natural numbers with the same ones' complement value. *)
Definition oc_eq (a b : Z) : Prop := 0 <= a /\ 0 <= b /\ a mod 65535 = b mod 65535 /\ (a = 0 <-> b = 0).

Lemma oc_eq_refl a : 0 <= a -> oc_eq a a.
Proof. unfold oc_eq. intuition. Qed.

Lemma oc_eq_trans a b c : oc_eq a b -> oc_eq b c -> oc_eq a c.
Proof. unfold oc_eq. intuition congruence. Qed.

Lemma oc_eq_add a b c d : oc_eq a b -> oc_eq c d -> oc_eq (a + c) (b + d).
Proof.
  intros (? & ? & Hm & ?) (? & ? & Hn & ?). split_and!; try lia.
  rewrite (Z.add_mod a c), (Z.add_mod b d), Hm, Hn by lia. done.
Qed.

(** Splitting a number at bit [16 * k] keeps its value. *)
Lemma oc_eq_split sum k :
  0 <= sum -> 1 <= k -> oc_eq (sum mod 65536 ^ k + sum / 65536 ^ k) sum.
Proof.
  intros Hs Hk. assert (0 < 65536 ^ k) as Hp by (apply Z.pow_pos_nonneg; lia).
  pose proof (Z.div_mod sum (65536 ^ k) ltac:(lia)) as Hd.
  pose proof (Z.mod_pos_bound sum (65536 ^ k) Hp). pose proof (Z.div_pos sum (65536 ^ k) Hs Hp).
  split_and!; try lia.
  - assert (65536 ^ k mod 65535 = 1) as Hone.
    { rewrite Zpower_mod by lia. change (65536 mod 65535) with 1. by rewrite Z.pow_1_l by lia. }
    rewrite Hd at 3. rewrite (Z.add_mod (_ * _)), Z.mul_mod, Hone, Z.mul_1_l, Z.mod_mod, <-Z.add_mod by lia.
    f_equal. lia.
  - split; [|intros ->; rewrite Z.mod_0_l, Z.div_0_l; lia]. intros Hsum.
    assert (sum mod 65536 ^ k = 0 /\ sum / 65536 ^ k = 0) as [E1 E2] by lia. rewrite E1, E2 in Hd. lia.
Qed.

Lemma oc_eq_unique a b : oc_eq a b -> a <= 65535 -> b <= 65535 -> a = b.
Proof.
  intros (? & ? & Hm & Hz) Ha Hb. destruct (Z.eq_dec a 65535) as [->|], (Z.eq_dec b 65535) as [->|]; try done.
  - rewrite Z.mod_same, (Z.mod_small b) in Hm by lia. lia.
  - rewrite Z.mod_same, (Z.mod_small a) in Hm by lia. lia.
  - rewrite !Z.mod_small in Hm by lia. done.
Qed.

Lemma oc_add_eq a b : 0 <= a <= 65535 -> 0 <= b <= 65535 -> oc_eq (oc_add a b) (a + b) /\ 0 <= oc_add a b <= 65535.
Proof.
  intros. unfold oc_add. case_bool.
  - split; [|lia]. apply oc_eq_refl. lia.
  - split; [|lia]. split_and!; try lia.
    replace (a + b - 65535) with (a + b + (-1) * 65535) by lia. apply Z.mod_add. lia.
Qed.

(** ** Folding *)

Lemma land_mod sum k : 0 <= sum -> 0 <= k -> Z.land sum (Z.ones k) = sum mod 2 ^ k.
Proof. intros. by apply Z.land_ones. Qed.

Lemma fold_step sum :
  0 <= sum -> Z.land sum 65535 + Z.shiftr sum 16 = sum mod 65536 + sum / 65536.
Proof.
  intros. change 65535 with (Z.ones 16). rewrite Z.land_ones, Z.shiftr_div_pow2 by lia. done.
Qed.

Lemma fold_loop_spec fuel sum :
  0 <= sum -> oc_eq (fold_loop fuel sum) sum.
Proof.
  revert sum. induction fuel as [|fuel IH]; intros sum Hs; cbn; [by apply oc_eq_refl|].
  case_bool; [by apply oc_eq_refl|]. rewrite fold_step by done.
  pose proof (oc_eq_split sum 1 Hs ltac:(lia)) as He. rewrite Z.pow_1_r in He.
  eapply oc_eq_trans; [apply IH|exact He]. apply He.
Qed.

(** The loop ends: four steps bring any sum below 2^33 + 2^32 under 2^16. *)
Lemma fold_terminates sum : 0 <= sum < 2 ^ 34 -> 0 <= fold_loop 4 sum <= 65535.
Proof.
  intros Hs.
  assert (forall s n, 0 <= s < 65536 * n -> 1 <= n ->
    0 <= s mod 65536 + s / 65536 < 65536 + n) as Hstep.
  { intros s n Hsn Hn. pose proof (Z.mod_pos_bound s 65536). pose proof (Z.div_lt_upper_bound s 65536 n).
    pose proof (Z.div_pos s 65536). lia. }
  assert (forall s, 0 <= s -> Z.shiftr s 16 = 0 -> s <= 65535) as Hexit.
  { intros s Hs0. rewrite Z.shiftr_div_pow2 by lia. intros Hd. apply Z.div_small_iff in Hd; lia. }
  cbn [fold_loop]. destruct (Z.eqb_spec (Z.shiftr sum 16) 0); [pose proof (Hexit sum); lia|]. rewrite fold_step by lia.
  pose proof (Hstep sum 262144 ltac:(lia) ltac:(lia)) as H1. set (s1 := sum mod 65536 + sum / 65536) in *.
  destruct (Z.eqb_spec (Z.shiftr s1 16) 0); [pose proof (Hexit s1); lia|]. rewrite fold_step by lia.
  pose proof (Hstep s1 5 ltac:(lia) ltac:(lia)) as H2. set (s2 := s1 mod 65536 + s1 / 65536) in *.
  destruct (Z.eqb_spec (Z.shiftr s2 16) 0); [pose proof (Hexit s2); lia|]. rewrite fold_step by lia.
  pose proof (Hstep s2 2 ltac:(lia) ltac:(lia)) as H3.
  assert (s2 / 65536 = 1) as Hq.
  { apply Z.le_antisymm; [|]. 
    - enough (s2 / 65536 < 2) by lia. apply Z.div_lt_upper_bound; lia.
    - destruct (Z.le_gt_cases s2 65535); [|apply Z.div_le_lower_bound; lia].
      exfalso. assert (Z.shiftr s2 16 = 0); [|done]. rewrite Z.shiftr_div_pow2 by lia. apply Z.div_small. lia. }
  pose proof (Z.div_mod s2 65536 ltac:(lia)). rewrite Hq in *. set (s3 := s2 mod 65536 + 1) in *.
  assert (s3 <= 6) by lia. case_bool.
  assert (Z.shiftr s3 16 = 0); [|done]. rewrite Z.shiftr_div_pow2 by lia. apply Z.div_small. lia.
Qed.

Lemma lxor_ffff v : 0 <= v <= 65535 -> Z.lxor v 65535 = 65535 - v.
Proof.
  intros Hv. change 65535 with (Z.ones 16). apply Z.bits_inj'. intros n Hn. rewrite Z.lxor_spec, Z.testbit_ones_nonneg by lia.
  assert (Z.ones 16 - v = Z.land (Z.lnot v) (Z.ones 16)) as ->.
  { rewrite Z.land_ones by lia. unfold Z.lnot. change (Z.ones 16) with 65535. change (2 ^ 16) with 65536.
    apply (Z.mod_unique _ _ (-1)); lia. }
  rewrite Z.land_spec, Z.lnot_spec, Z.testbit_ones_nonneg by lia.
  destruct (Z.ltb_spec n 16); [by destruct (Z.testbit v n)|]. rewrite andb_false_r, xorb_false_r.
  apply Z.bits_above_log2; [lia|]. destruct (Z.eq_dec v 0) as [->|]; [cbn; lia|].
  apply Z.log2_lt_pow2; [lia|]. apply Z.lt_le_trans with (2 ^ 16); [lia|]. apply Z.pow_le_mono_r; lia.
Qed.

Lemma checksum_range parts : 0 <= checksum_parts parts <= 65535.
Proof.
  unfold checksum_parts, accumulator_finish, fold_checksum. cbv zeta. set (x := fold_loop _ _).
  pose proof (Z.mod_pos_bound x 65536 ltac:(lia)). rewrite lxor_ffff by lia. lia.
Qed.

Lemma fold_checksum_spec sum :
  0 <= sum < 2 ^ 128 -> exists v, fold_checksum sum = 65535 - v /\ oc_eq v sum /\ 0 <= v <= 65535.
Proof.
  intros Hs. unfold fold_checksum. change 18446744073709551615 with (Z.ones 64).
  change 4294967295 with (Z.ones 32).
  rewrite !Z.land_ones, !Z.shiftr_div_pow2 by lia.
  pose proof (oc_eq_split sum 4 ltac:(lia) ltac:(lia)) as H1.
  change (65536 ^ 4) with (2 ^ 64) in H1. set (s1 := sum mod 2 ^ 64 + sum / 2 ^ 64) in *.
  assert (0 <= s1 < 2 ^ 65) as Hs1.
  { unfold s1. pose proof (Z.mod_pos_bound sum (2 ^ 64)). pose proof (Z.div_lt_upper_bound sum (2 ^ 64) (2 ^ 64)).
    pose proof (Z.div_pos sum (2 ^ 64)). lia. }
  pose proof (oc_eq_split s1 2 ltac:(lia) ltac:(lia)) as H2.
  change (65536 ^ 2) with (2 ^ 32) in H2. set (s2 := s1 mod 2 ^ 32 + s1 / 2 ^ 32) in *.
  assert (0 <= s2 < 2 ^ 34) as Hs2.
  { unfold s2. pose proof (Z.mod_pos_bound s1 (2 ^ 32)). pose proof (Z.div_lt_upper_bound s1 (2 ^ 32) (2 ^ 33)).
    pose proof (Z.div_pos s1 (2 ^ 32)). lia. }
  pose proof (fold_terminates s2 Hs2) as Hb. pose proof (fold_loop_spec 4 s2 ltac:(lia)) as H3.
  exists (fold_loop 4 s2). split; [|split; [|done]].
  - rewrite Z.mod_small by lia. by rewrite lxor_ffff by lia.
  - eapply oc_eq_trans; [exact H3|]. by eapply oc_eq_trans.
Qed.

(** ** The accumulator *)

(** The plain sum of the 16-bit words. *)
Definition word_sum (l : bytes) : Z := foldr Z.add 0 (words l).

Lemma octets_app a b : octets (a ++ b) <-> octets a /\ octets b.
Proof. apply Forall_app. Qed.

Lemma two_step_ind (P : list Z -> Prop) :
  P [] -> (forall a, P [a]) -> (forall a b l, P l -> P (a :: b :: l)) -> forall l, P l.
Proof.
  intros H0 H1 H2. fix IH 1. intros [|a [|b l]]; [exact H0|apply H1|apply H2, IH].
Qed.

Lemma words_octets l : octets l -> Forall (fun w => 0 <= w <= 65535) (words l).
Proof.
  induction l as [|a|a b l IH] using two_step_ind; intros Ho; cbn; [constructor|..].
  - apply Forall_cons_1 in Ho as [Ha _]. constructor; [lia|constructor].
  - apply Forall_cons_1 in Ho as [Ha Ho]. apply Forall_cons_1 in Ho as [Hb Ho].
    constructor; [lia|]. by apply IH.
Qed.

Lemma word_sum_nonneg l : octets l -> 0 <= word_sum l.
Proof.
  intros Ho%words_octets. unfold word_sum. induction Ho; cbn; lia.
Qed.

(** The reference is determined by the plain sum. *)
Lemma reference_spec l :
  octets l -> oc_eq (foldl oc_add 0 (words l)) (word_sum l) /\ 0 <= foldl oc_add 0 (words l) <= 65535.
Proof.
  intros Ho%words_octets. unfold word_sum.
  enough (forall acc, 0 <= acc <= 65535 ->
    oc_eq (foldl oc_add acc (words l)) (acc + foldr Z.add 0 (words l)) /\
    0 <= foldl oc_add acc (words l) <= 65535) as H by (apply (H 0); lia).
  induction Ho as [|w ws Hw Hws IH]; intros acc Ha; cbn.
  { split; [|lia]. rewrite Z.add_0_r. apply oc_eq_refl. lia. }
  destruct (oc_add_eq acc w Ha Hw) as [He Hb]. destruct (IH _ Hb) as [He' Hb']. split; [|done].
  eapply oc_eq_trans; [exact He'|].
  assert (0 <= foldr Z.add 0 ws) as Hn by (clear -Hws; induction Hws; cbn; lia).
  replace (acc + (w + foldr Z.add 0 ws)) with (acc + w + foldr Z.add 0 ws) by lia.
  apply oc_eq_add; [done|]. by apply oc_eq_refl.
Qed.

Lemma be8_words a b c d e f g h :
  octets [a; b; c; d; e; f; g; h] ->
  oc_eq (from_be_bytes [a; b; c; d; e; f; g; h]) (word_sum [a; b; c; d; e; f; g; h]).
Proof.
  intros Ho. pose proof (word_sum_nonneg _ Ho).
  repeat match goal with H : Forall _ (_ :: _) |- _ => apply Forall_cons_1 in H as [? H] end.
  unfold word_sum, from_be_bytes in *. cbn [words foldr foldl] in *. split_and!; [lia|lia| |lia].
  set (q := 281474976710656 / 65535 * (a * 256 + b)).
  match goal with |- ?x mod _ = ?y mod _ =>
    replace x with (y + (4295032833 * (a * 256 + b) + 65537 * (c * 256 + d) + (e * 256 + f)) * 65535) by lia end.
  apply Z.mod_add. lia.
Qed.

Lemma add_chunks8_spec n : forall sum l, (length l < n)%nat -> octets l -> 0 <= sum ->
  exists e r sum', add_chunks8 sum l = (sum', r) /\ l = e ++ r /\ Nat.Even (length e) /\
    oc_eq sum' (sum + word_sum e) /\ sum <= sum' <= sum + zlen e * 2 ^ 61.
Proof.
  induction n as [|n IH]; intros sum l Hn Ho Hs; [lia|].
  assert (forall l, l = l -> add_chunks8 sum l = (sum, l) -> exists e r sum',
    add_chunks8 sum l = (sum', r) /\ l = e ++ r /\ Nat.Even (length e) /\
    oc_eq sum' (sum + word_sum e) /\ sum <= sum' <= sum + zlen e * 2 ^ 61) as Hstop.
  { intros k _ ->. exists [], k, sum. split; [done|]. split; [done|]. split; [by exists 0%nat|].
    unfold zlen. cbn. rewrite Z.add_0_r. split; [by apply oc_eq_refl|lia]. }
  destruct l as [|a [|b [|c [|d [|e [|f [|g [|h l]]]]]]]]; try (by apply Hstop).
  change (a :: b :: c :: d :: e :: f :: g :: h :: l) with ([a; b; c; d; e; f; g; h] ++ l) in Ho.
  apply octets_app in Ho as [Hc Ho]. pose proof (be8_words _ _ _ _ _ _ _ _ Hc) as Hw.
  cbn [add_chunks8]. set (v := from_be_bytes [a; b; c; d; e; f; g; h]) in *.
  assert (0 <= v < 2 ^ 64) as Hv.
  { unfold v, from_be_bytes.
    repeat match goal with H : Forall _ (_ :: _) |- _ => apply Forall_cons_1 in H as [? H] end. cbn. lia. }
  destruct (IH (sum + v) l) as (e' & r & sum' & -> & -> & He & Hoc & Hb); [cbn in Hn; lia|done|lia|].
  exists ([a; b; c; d; e; f; g; h] ++ e'), r, sum'. split; [done|]. split; [done|].
  split; [destruct He as [k Hk]; exists (4 + k)%nat; cbn; lia|]. split.
  - eapply oc_eq_trans; [exact Hoc|]. apply octets_app in Ho as [Ho _].
    assert (word_sum ([a; b; c; d; e; f; g; h] ++ e') = word_sum [a; b; c; d; e; f; g; h] + word_sum e') as ->
      by (unfold word_sum; cbn; lia).
    rewrite Z.add_assoc. apply oc_eq_add; [|apply oc_eq_refl, word_sum_nonneg; done].
    apply oc_eq_add; [by apply oc_eq_refl|done].
  - rewrite zlen_app. change (zlen [a; b; c; d; e; f; g; h]) with 8. lia.
Qed.

Lemma add_chunks2_spec sum l :
  octets l -> 0 <= sum ->
  exists e r sum', add_chunks2 sum l = (sum', r) /\ l = e ++ r /\ Nat.Even (length e) /\
    sum' = sum + word_sum e /\ (length r <= 1)%nat /\ sum <= sum' <= sum + zlen e * 2 ^ 61.
Proof.
  revert sum. induction l as [|a|a b l IH] using two_step_ind; intros sum Ho Hs; cbn [add_chunks2].
  - exists [], [], sum. split_and!; [done|done|by exists 0%nat|unfold word_sum; cbn; lia|cbn; lia|lia|unfold zlen; cbn; lia].
  - exists [], [a], sum. split_and!; [done|done|by exists 0%nat|unfold word_sum; cbn; lia|cbn; lia|lia|unfold zlen; cbn; lia].
  - apply Forall_cons_1 in Ho as [Ha Ho]. apply Forall_cons_1 in Ho as [Hb Ho].
    destruct (IH (sum + from_be_bytes [a; b])) as (e & r & sum' & -> & -> & He & -> & Hr & Hbd);
      [done|unfold from_be_bytes; cbn; lia|].
    exists (a :: b :: e), r. eexists. split; [done|]. split; [done|].
    split; [destruct He as [k Hk]; exists (S k); cbn; lia|].
    unfold from_be_bytes, word_sum in *. cbn in *. rewrite !zlen_cons. split; [lia|]. split; [done|]. lia.
Qed.

Lemma word_sum_app e r : Nat.Even (length e) -> word_sum (e ++ r) = word_sum e + word_sum r.
Proof.
  intros He. unfold word_sum. induction e as [|a|a b e IH] using two_step_ind; cbn.
  - lia.
  - destruct He as [k Hk]. cbn in Hk. lia.
  - rewrite IH; [lia|]. destruct He as [k Hk]. exists (pred k). cbn in Hk. lia.
Qed.

(** The accumulator after the bytes [c]: every whole word is in the sum, an odd
    last byte is pending. *)
Definition acc_ok (acc : ChecksumAccumulator) (c : bytes) : Prop :=
  exists e, c = e ++ (match pending_high_byte acc with Some h => [h] | None => [] end) /\
    Nat.Even (length e) /\ oc_eq (ck_sum acc) (word_sum e) /\ ck_sum acc <= zlen e * 2 ^ 61.

Lemma add_words_spec sum e l :
  octets l -> octets e -> Nat.Even (length e) -> oc_eq sum (word_sum e) -> sum <= zlen e * 2 ^ 61 ->
  acc_ok (add_words sum l) (e ++ l).
Proof.
  intros Hl Ho He Hs Hb. unfold add_words. pose proof (proj1 Hs).
  destruct (add_chunks8_spec (S (length l)) sum l ltac:(lia) Hl ltac:(done))
    as (e1 & r1 & s1 & -> & -> & He1 & Hs1 & Hb1).
  apply Forall_app in Hl as [Ho1 Hr1].
  destruct (add_chunks2_spec s1 r1 Hr1 ltac:(lia)) as (e2 & r2 & s2 & -> & -> & He2 & -> & Hr2 & Hb2).
  apply Forall_app in Hr1 as [Ho2 _]. pose proof (word_sum_nonneg _ Ho2). pose proof (word_sum_nonneg _ Ho1).
  exists (e ++ e1 ++ e2). cbn [pending_high_byte ck_sum]. split; [|split; [|split]].
  - rewrite <-!app_assoc. do 3 f_equal. destruct r2 as [|x [|y r2]]; [done|done|]. cbn in Hr2. lia.
  - rewrite !length_app. destruct He as [a ->], He1 as [b ->], He2 as [c ->]. exists (a + b + c)%nat. lia.
  - rewrite word_sum_app, (word_sum_app e1), Z.add_assoc by done.
    apply oc_eq_add; [|by apply oc_eq_refl].
    eapply oc_eq_trans; [exact Hs1|]. apply oc_eq_add; [done|by apply oc_eq_refl].
  - rewrite !zlen_app. lia.
Qed.

Lemma accumulator_add_spec acc c l :
  octets c -> octets l -> acc_ok acc c -> acc_ok (accumulator_add acc l) (c ++ l).
Proof.
  intros Hc Hl Hok. pose proof Hok as (e & Ec & He & Hs & Hb). unfold accumulator_add.
  destruct (pending_high_byte acc) as [high|].
  - destruct l as [|low l]; [by rewrite app_nil_r|]. rewrite Ec in Hc |- *.
    apply Forall_app in Hc as [Ho Hh]. apply Forall_cons_1 in Hh as [Hh _].
    apply Forall_cons_1 in Hl as [Hlow Hl].
    replace ((e ++ [high]) ++ low :: l) with ((e ++ [high; low]) ++ l) by (by rewrite <-!app_assoc).
    apply add_words_spec; [done|apply Forall_app; split; [done|repeat constructor; lia]|..].
    + rewrite length_app. destruct He as [k ->]. exists (S k). cbn. lia.
    + rewrite word_sum_app by done. apply oc_eq_add; [done|].
      unfold word_sum, from_be_bytes. cbn. rewrite Z.add_0_r. apply oc_eq_refl. lia.
    + rewrite zlen_app. change (zlen [high; low]) with 2. unfold from_be_bytes. cbn. lia.
  - rewrite app_nil_r in Ec. subst e. by apply add_words_spec.
Qed.

Lemma accumulate_spec parts : forall acc c,
  octets c -> Forall octets parts -> acc_ok acc c ->
  acc_ok (foldl accumulator_add acc parts) (c ++ concat parts).
Proof.
  induction parts as [|p parts IH]; intros acc c Hc Hp Hok; cbn; [by rewrite app_nil_r|].
  apply Forall_cons_1 in Hp as [Hp Hps]. rewrite app_assoc. apply IH; [by apply Forall_app|done|].
  by apply accumulator_add_spec.
Qed.

Lemma checksum_parts_reference parts :
  Forall octets parts -> zlen (concat parts) <= u64_max ->
  checksum_parts parts = internet_checksum (concat parts).
Proof.
  intros Hp Hlen. assert (octets (concat parts)) as Hc.
  { induction Hp; cbn; [constructor|]. apply Forall_app. split; [done|]. apply IHHp.
    cbn in Hlen. rewrite zlen_app in Hlen. pose proof (zlen_nonneg x). lia. }
  assert (acc_ok accumulator_default []) as H0.
  { exists []. split_and!; [done|by exists 0%nat|unfold word_sum; cbn; apply oc_eq_refl; lia|by vm_compute]. }
  destruct (accumulate_spec parts _ _ (List.Forall_nil _) Hp H0) as (e & Ec & He & Hs & Hb).
  cbn [app] in Ec. unfold checksum_parts, accumulator_finish.
  set (acc := foldl accumulator_add accumulator_default parts) in *.
  set (tail := match pending_high_byte acc with Some h => [h] | None => [] end) in *.
  assert (match pending_high_byte acc with Some high => Z.shiftl high 8 | None => 0 end = word_sum tail) as ->.
  { unfold tail, word_sum. destruct (pending_high_byte acc); cbn; [|done]. rewrite Z.shiftl_mul_pow2 by lia. lia. }
  rewrite Ec in Hc, Hlen |- *. apply Forall_app in Hc as [Ho Ht]. rewrite zlen_app in Hlen.
  assert (0 <= word_sum tail <= 65535) as Hwt.
  { split; [by apply word_sum_nonneg|]. unfold tail in *. destruct (pending_high_byte acc); unfold word_sum; cbn; [|lia].
    apply Forall_cons_1 in Ht as [? _]. lia. }
  pose proof (zlen_nonneg tail). pose proof (proj1 Hs).
  destruct (fold_checksum_spec (ck_sum acc + word_sum tail)) as (v & -> & Hv & Hvb).
  { unfold u64_max in Hlen. split; [lia|]. nia. }
  destruct (reference_spec (e ++ tail)) as [Hr Hrb]; [by apply Forall_app|].
  unfold internet_checksum. f_equal. apply oc_eq_unique; [|lia|lia].
  eapply oc_eq_trans; [exact Hv|]. destruct Hr as (? & ? & Hr1 & Hr2).
  eapply oc_eq_trans; [apply oc_eq_add; [exact Hs|apply oc_eq_refl; lia]|].
  rewrite <-word_sum_app by done. split_and!; [done|done|done|]. by rewrite Hr2.
Qed.

(** A zeroed checksum field filled with the checksum makes the whole sum verify. *)
Lemma checksum_field_verifies (before rest : bytes) :
  octets before -> octets rest -> Nat.Even (length before) ->
  zlen before + zlen rest <= u32_max ->
  checksum_parts [before ++ to_be_bytes16 (checksum_parts [before ++ [0; 0] ++ rest]) ++ rest] = 0.
Proof.
  intros Hb Hr He Hlen. pose proof (zlen_nonneg before). pose proof (zlen_nonneg rest).
  assert (octets (before ++ [0; 0] ++ rest)) as Ho.
  { apply Forall_app. split; [done|]. apply Forall_app. split; [|done]. repeat constructor; lia. }
  assert (forall x y, zlen (before ++ [x; y] ++ rest) <= u64_max) as Hlen'.
  { intros x y. rewrite !zlen_app. change (zlen [x; y]) with 2. unfold u64_max, u32_max in *. lia. }
  rewrite (checksum_parts_reference [before ++ [0; 0] ++ rest]);
    [|by constructor; [|constructor]|cbn [concat]; by rewrite app_nil_r].
  cbn [concat]. rewrite app_nil_r. destruct (reference_spec _ Ho) as [Hv Hvb].
  unfold internet_checksum. set (v := foldl oc_add 0 (words (before ++ [0; 0] ++ rest))) in *.
  assert (octets (to_be_bytes16 (65535 - v))) as Hc.
  { unfold to_be_bytes16. pose proof (Z.mod_pos_bound (65535 - v) 256).
    pose proof (Z.div_pos (65535 - v) 256). pose proof (Z.div_lt_upper_bound (65535 - v) 256 256).
    repeat constructor; lia. }
  assert (octets (before ++ to_be_bytes16 (65535 - v) ++ rest)) as Ho'.
  { apply Forall_app. split; [done|]. by apply Forall_app. }
  rewrite checksum_parts_reference;
    [|by constructor; [|constructor]|cbn [concat]; rewrite app_nil_r; apply Hlen'].
  cbn [concat]. rewrite app_nil_r. unfold internet_checksum.
  destruct (reference_spec _ Ho') as [Hw Hwb]. 
  set (w := foldl oc_add 0 (words (before ++ to_be_bytes16 (65535 - v) ++ rest))) in *.
  enough (w = 65535) by lia. apply oc_eq_unique; [|lia|lia]. eapply oc_eq_trans; [exact Hw|].
  assert (word_sum (before ++ to_be_bytes16 (65535 - v) ++ rest)
          = word_sum (before ++ [0; 0] ++ rest) + (65535 - v)) as ->.
  { rewrite !word_sum_app by (done || by exists 1%nat). unfold to_be_bytes16, word_sum. cbn [words foldr].
    pose proof (Z.div_mod (65535 - v) 256). lia. }
  destruct Hv as (? & ? & Hm & Hz). split_and!; [lia|lia| |lia].
  rewrite Z.add_mod, <-Hm, <-Z.add_mod by lia. f_equal. lia.
Qed.

(** ** Theorems *)

(** C40: the checksum computed in 64-bit chunks over any split of the data into
    parts, odd lengths included, is the RFC 1071 checksum of the concatenation. *)
Theorem checksum_is_rfc1071 (parts : list bytes) :
  Forall octets parts -> zlen (concat parts) <= u64_max ->
  checksum_parts parts = internet_checksum (concat parts).
Proof. apply checksum_parts_reference. Qed.

Lemma checksum_is_rfc1071_witness :
  checksum_parts [[69; 0; 0]; []; [60; 28; 70; 64; 0; 64; 6; 0; 0; 172; 16]; [10; 99; 172; 16; 10; 12]]
    = 45542.
Proof.
  rewrite checksum_is_rfc1071; [by vm_compute|by repeat constructor|by vm_compute].
Defined.

(** a packet whose zeroed checksum field, at an even offset, is filled with
    the computed checksum verifies: its own checksum is zero. *)
Theorem checksum_verifies (before rest : bytes) :
  octets before -> octets rest -> Nat.Even (length before) ->
  zlen before + zlen rest <= u32_max ->
  checksum_parts [before ++ to_be_bytes16 (checksum_parts [before ++ [0; 0] ++ rest]) ++ rest] = 0.
Proof. apply checksum_field_verifies. Qed.

Lemma checksum_verifies_witness :
  checksum_parts [[69; 0; 0; 20; 0; 0; 64; 0; 64; 6] ++ to_be_bytes16 (checksum_parts
    [[69; 0; 0; 20; 0; 0; 64; 0; 64; 6] ++ [0; 0] ++ [10; 0; 0; 1; 10; 0; 0; 2]]) ++ [10; 0; 0; 1; 10; 0; 0; 2]] = 0.
Proof.
  apply checksum_verifies; [by repeat constructor|by repeat constructor|by exists 5%nat|by vm_compute].
Defined.
