(* ===== verification/Ordered.v ===== *)
(** * Ordered containers and the expiry index

    [std::collections::BTreeMap] and [BTreeSet] as strictly sorted association
    lists, with the operations the reassemblers use, and the
    [analysis/reassembly/expiry.rs] index built on them. *)

From stdpp Require Import base tactics option list numbers gmap sorting.
From Stdlib Require Import ZArith Lia.
From S2P Require Import Prelude.

(** ** Total orders: what [Ord] promises a container *)

Class Ord (K : Type) := cmp : K -> K -> comparison.

Class OrdLaws (K : Type) `{Ord K} : Prop := {
  cmp_eq : forall x y : K, cmp x y = Eq <-> x = y;
  cmp_opp : forall x y : K, cmp y x = CompOpp (cmp x y);
  cmp_trans : forall x y z : K, cmp x y = Lt -> cmp y z = Lt -> cmp x z = Lt
}.

#[export] Instance Z_ord : Ord Z := Z.compare.
#[export] Instance Z_ord_laws : OrdLaws Z.
Proof.
  split; unfold cmp, Z_ord.
  - apply Z.compare_eq_iff.
  - intros. apply Z.compare_antisym.
  - intros x y z. rewrite !Z.compare_lt_iff. lia.
Qed.

Lemma cmp_Z_lt (a b : Z) : a < b -> cmp a b = Lt.
Proof. apply Z.compare_lt_iff. Qed.

Lemma cmp_Z_gt (a b : Z) : b < a -> cmp a b = Gt.
Proof. apply Z.compare_gt_iff. Qed.

(** [#[derive(Ord)]] on a pair or struct: lexicographic. *)
Definition lex (c d : comparison) : comparison := match c with Eq => d | _ => c end.

#[export] Instance pair_ord {A B} `{Ord A, Ord B} : Ord (A * B) :=
  fun p q => lex (cmp p.1 q.1) (cmp p.2 q.2).

#[export] Instance pair_ord_laws {A B} `{OrdLaws A, OrdLaws B} : OrdLaws (A * B).
Proof.
  split; unfold cmp, pair_ord, lex.
  - intros [a b] [c d]; cbn. destruct (cmp a c) eqn:E.
    + apply cmp_eq in E as ->. rewrite cmp_eq. naive_solver.
    + split; [done|]. intros [= -> ->]. by rewrite (proj2 (cmp_eq c c) eq_refl) in E.
    + split; [done|]. intros [= -> ->]. by rewrite (proj2 (cmp_eq c c) eq_refl) in E.
  - intros [a b] [c d]; cbn. rewrite (cmp_opp a c), (cmp_opp b d).
    by destruct (cmp a c).
  - intros [a b] [c d] [e f]; cbn.
    destruct (cmp a c) eqn:E1; [apply cmp_eq in E1 as ->| |done].
    + destruct (cmp c e); [apply cmp_trans|done|done].
    + destruct (cmp c e) eqn:E2; [apply cmp_eq in E2 as <-| |done].
      * by rewrite E1.
      * by rewrite (cmp_trans _ _ _ E1 E2).
Qed.

(** An order transported along an injection (a struct compared by its fields). *)
Definition ord_via {K L} `{Ord L} (f : K -> L) : Ord K := fun x y => cmp (f x) (f y).

Lemma ord_via_laws {K L} `{OrdLaws L} (f : K -> L) `{!Inj (=) (=) f} :
  @OrdLaws K (ord_via f).
Proof.
  split; unfold cmp, ord_via.
  - intros x y. setoid_rewrite cmp_eq. split; [apply (inj f)|by intros ->].
  - intros x y. apply (cmp_opp (f x) (f y)).
  - intros x y z. apply (cmp_trans (f x) (f y) (f z)).
Qed.

Lemma cmp_refl {K} `{OrdLaws K} (x : K) : cmp x x = Eq.
Proof. by apply cmp_eq. Qed.

Lemma cmp_Gt {K} `{OrdLaws K} (x y : K) : cmp x y = Gt <-> cmp y x = Lt.
Proof. rewrite (cmp_opp x y). destruct (cmp x y); naive_solver. Qed.

(** ** [BTreeMap] *)

Section btree.
Context {K V : Type} `{OrdLaws K}.
Implicit Types (m : list (K * V)) (k : K).

Fixpoint bt_insert (k : K) (v : V) (m : list (K * V)) : list (K * V) :=
  match m with
  | [] => [(k, v)]
  | (k', v') :: m' =>
      match cmp k k' with
      | Lt => (k, v) :: m
      | Eq => (k, v) :: m'
      | Gt => (k', v') :: bt_insert k v m'
      end
  end.

Fixpoint bt_remove (k : K) (m : list (K * V)) : list (K * V) :=
  match m with
  | [] => []
  | (k', v') :: m' =>
      match cmp k k' with Eq => m' | _ => (k', v') :: bt_remove k m' end
  end.

Fixpoint bt_get (k : K) (m : list (K * V)) : option V :=
  match m with
  | [] => None
  | (k', v') :: m' => match cmp k k' with Eq => Some v' | _ => bt_get k m' end
  end.

Definition key_lt (p q : K * V) : Prop := cmp p.1 q.1 = Lt.
Definition bt_sorted m : Prop := StronglySorted key_lt m.

Lemma bt_insert_in k v m p :
  bt_sorted m ->
  p ∈ bt_insert k v m <-> p = (k, v) \/ (p ∈ m /\ p.1 <> k).
Proof.
  induction m as [|[k' v'] m IH]; cbn; intros Hs.
  { rewrite list_elem_of_singleton. set_solver. }
  apply StronglySorted_inv in Hs as [Hs Hf]. rewrite Forall_forall in Hf.
  destruct (cmp k k') eqn:E.
  - apply cmp_eq in E as ->. rewrite !elem_of_cons. split; [|naive_solver].
    intros [->|Hp]; [by left|]. right. split; [by right|].
    intros He. specialize (Hf _ Hp). unfold key_lt in Hf; cbn in Hf.
    rewrite He, cmp_refl in Hf. done.
  - rewrite !elem_of_cons. split; [|naive_solver].
    intros [->|Hp]; [by left|]. right. split; [done|]. intros <-.
    destruct Hp as [->|Hp]; cbn in *; [by rewrite cmp_refl in E|].
    specialize (Hf _ Hp). unfold key_lt in Hf; cbn in Hf.
    by rewrite (proj2 (cmp_Gt _ _) Hf) in E.
  - rewrite !elem_of_cons, IH by done. split; [|naive_solver].
    intros [->|[->|?]]; [|by left|naive_solver].
    right. split; [by left|]. cbn. intros ->. by rewrite cmp_refl in E.
Qed.

Lemma bt_insert_sorted k v m : bt_sorted m -> bt_sorted (bt_insert k v m).
Proof.
  induction m as [|[k' v'] m IH]; cbn; intros Hs.
  { repeat constructor. }
  pose proof Hs as Hs0. apply StronglySorted_inv in Hs as [Hs Hf].
  destruct (cmp k k') eqn:E.
  - apply cmp_eq in E as ->. by constructor.
  - constructor; [done|]. constructor; [done|].
    eapply Forall_impl; [exact Hf|]. intros p Hp. exact (cmp_trans _ _ _ E Hp).
  - constructor; [by apply IH|]. rewrite Forall_forall in Hf |- *.
    intros p [->|[Hp _]]%bt_insert_in; [by apply cmp_Gt|auto|done].
Qed.

Lemma bt_remove_in k m p : bt_sorted m -> p ∈ bt_remove k m <-> p ∈ m /\ p.1 <> k.
Proof.
  induction m as [|[k' v'] m IH]; cbn; intros Hs; [set_solver|].
  apply StronglySorted_inv in Hs as [Hs Hf]. rewrite Forall_forall in Hf.
  assert (cmp k k' <> Eq -> k' <> k) as Hne.
  { intros Hc ->. by rewrite cmp_refl in Hc. }
  destruct (cmp k k') eqn:E; rewrite ?elem_of_cons, ?IH by done.
  - apply cmp_eq in E as ->. split; [|naive_solver].
    intros Hp. split; [by right|]. intros He. specialize (Hf _ Hp).
    unfold key_lt in Hf. cbn in Hf. by rewrite He, cmp_refl in Hf.
  - naive_solver.
  - naive_solver.
Qed.

Lemma bt_remove_sorted k m : bt_sorted m -> bt_sorted (bt_remove k m).
Proof.
  induction m as [|[k' v'] m IH]; cbn; intros Hs; [constructor|].
  apply StronglySorted_inv in Hs as [Hs Hf].
  assert (Forall (key_lt (k', v')) (bt_remove k m)).
  { rewrite Forall_forall in Hf |- *. intros p [??]%bt_remove_in; auto. }
  destruct (cmp k k'); [done| |]; constructor; auto; by apply IH.
Qed.
End btree.
#[export] Hint Resolve bt_insert_sorted bt_remove_sorted : pcr.

(** ** [ExpiryIndex]: keys ordered by deadline, then key *)

Section expiry.
Context {K : Type} `{OrdLaws K}.

(** [struct ExpiryIndex]: the [BTreeSet<(Instant, K)>] of its [entries]. *)
Definition ExpiryIndex : Type := list ((Z * K) * unit).

Definition expiry_default : ExpiryIndex := [].

Definition expiry_insert (deadline : option Z) (key : K) (entries : ExpiryIndex)
  : ExpiryIndex :=
  match deadline with
  | Some deadline => bt_insert (deadline, key) tt entries
  | None => entries
  end.

Definition expiry_remove (deadline : option Z) (key : K) (entries : ExpiryIndex)
  : ExpiryIndex :=
  match deadline with
  | Some deadline => bt_remove (deadline, key) entries
  | None => entries
  end.

(** The keys [visit] receives, in order, and the entries left. *)
Fixpoint drain_expired (now : Z) (entries : ExpiryIndex) : list K * ExpiryIndex :=
  match entries with
  | ((deadline, key), u) :: rest =>
      if deadline <=? now
      then let '(keys, remaining) := drain_expired now rest in (key :: keys, remaining)
      else ([], entries)
  | [] => ([], [])
  end.

Definition take_expired (now : Z) (entries : ExpiryIndex) : list K * ExpiryIndex :=
  drain_expired now entries.

Lemma expiry_fst_in (e : ExpiryIndex) p : p ∈ e.*1 <-> (p, tt) ∈ e.
Proof.
  rewrite list_elem_of_fmap. split; [|intros; by exists (p, tt)].
  by intros ([q []] & -> & ?).
Qed.

Lemma expiry_insert_in d k e p :
  bt_sorted e -> p ∈ (expiry_insert d k e).*1 <-> p ∈ e.*1 \/ d = Some p.1 /\ p.2 = k.
Proof.
  intros Hs. rewrite !expiry_fst_in. destruct p as [pt pk].
  destruct d as [t|]; cbn; [|naive_solver].
  rewrite bt_insert_in by done. cbn. split; [naive_solver|].
  intros [Hp|[[= ->] ->]]; [|by left].
  destruct (cmp (pt, pk) (t, k)) eqn:E; [apply cmp_eq in E as [= -> ->]; by left|..];
    right; (split; [done|]); intros [= -> ->]; by rewrite cmp_refl in E.
Qed.

Lemma expiry_remove_in d k e p :
  bt_sorted e ->
  p ∈ (expiry_remove d k e).*1 <-> p ∈ e.*1 /\ (d = Some p.1 -> p.2 <> k).
Proof.
  intros Hs. rewrite !expiry_fst_in. destruct p as [pt pk].
  destruct d as [t|]; cbn; [|naive_solver].
  rewrite bt_remove_in by done. cbn. naive_solver.
Qed.

Lemma expiry_insert_sorted d k e : bt_sorted e -> bt_sorted (expiry_insert d k e).
Proof. destruct d; cbn; [apply bt_insert_sorted|done]. Qed.

Lemma expiry_remove_sorted d k e : bt_sorted e -> bt_sorted (expiry_remove d k e).
Proof. destruct d; cbn; [apply bt_remove_sorted|done]. Qed.

Lemma drain_expired_split now e keys rest :
  bt_sorted e -> drain_expired now e = (keys, rest) ->
  exists taken, e = taken ++ rest /\ keys = (fun p => p.1.2) <$> taken /\
    Forall (fun p => p.1.1 <= now) taken /\ Forall (fun p => now < p.1.1) rest.
Proof.
  revert keys. induction e as [|[[d k] u] e IH]; cbn; intros keys Hs Hd; simplify_eq.
  { exists []. auto. }
  pose proof Hs as Hs0. apply StronglySorted_inv in Hs as [Hs Hf].
  destruct (Z.leb_spec d now).
  - destruct (drain_expired now e) as [keys' rest'] eqn:E. simplify_eq.
    destruct (IH keys' Hs eq_refl) as (taken & -> & -> & ? & ?).
    exists (((d, k), u) :: taken). repeat split; auto.
  - simplify_eq. exists []. repeat split; auto. constructor; [cbn; lia|].
    eapply Forall_impl; [exact Hf|]. intros [[d' k'] []] Hlt. cbn in *.
    unfold key_lt, cmp, pair_ord, lex in Hlt. cbn in Hlt.
    destruct (cmp d d') eqn:Ed; [apply (cmp_eq d d') in Ed; subst; cbn; lia| |done].
    apply (proj1 (Z.compare_lt_iff d d')) in Ed. cbn. lia.
Qed.
End expiry.
Arguments ExpiryIndex : clear implicits.
#[export] Hint Resolve expiry_insert_sorted expiry_remove_sorted : pcr.

(** ** Sums over a map *)

Section map_sum.
Context {K S : Type} `{Countable K} (f : S -> Z).
Implicit Types (m : gmap K S).

Definition map_sum m : Z := map_fold (fun _ s acc => f s + acc) 0 m.

Lemma map_sum_empty : map_sum ∅ = 0.
Proof. apply map_fold_empty. Qed.

Lemma map_sum_delete m k s : m !! k = Some s -> map_sum m = f s + map_sum (delete k m).
Proof.
  intros Hk. unfold map_sum.
  rewrite (map_fold_delete_L (fun _ s acc => f s + acc) 0 k s m); [done|lia|done].
Qed.

Lemma map_sum_insert m k s :
  map_sum (<[k := s]> m) = f s + map_sum (delete k m).
Proof.
  rewrite (map_sum_delete _ k s) by apply lookup_insert_eq. by rewrite delete_insert_eq.
Qed.

Lemma map_sum_delete_from m k : map_sum (delete k m) = map_sum m - from_option f 0 (m !! k).
Proof.
  destruct (m !! k) as [s|] eqn:E; cbn.
  - rewrite (map_sum_delete m k s E). lia.
  - rewrite delete_id by done. lia.
Qed.

Lemma map_sum_nonneg m : map_Forall (fun _ s => 0 <= f s) m -> 0 <= map_sum m.
Proof.
  induction m as [|k s m Hk IH] using map_ind; intros Hf; [by rewrite map_sum_empty|].
  rewrite map_sum_insert, delete_id by done. apply map_Forall_insert in Hf as [? ?]; [|done].
  specialize (IH ltac:(done)). lia.
Qed.

Lemma map_sum_member m k s :
  map_Forall (fun _ s => 0 <= f s) m -> m !! k = Some s -> 0 <= f s <= map_sum m.
Proof.
  intros Hf Hk. split; [by apply (Hf k)|]. rewrite (map_sum_delete m k s Hk).
  enough (0 <= map_sum (delete k m)) by lia. apply map_sum_nonneg.
  intros k' s' [_ Hk']%lookup_delete_Some. by apply (Hf k').
Qed.
End map_sum.

(** ** Sizes of maps *)

Section map_size.
Context {K S : Type} `{Countable K}.
Implicit Types (m : gmap K S).

Lemma size_insert_bound m k s :
  Z.of_nat (size (<[k := s]> m)) = Z.of_nat (size (delete k m)) + 1.
Proof.
  rewrite <-insert_delete_eq, map_size_insert_None by apply lookup_delete_eq. lia.
Qed.

Lemma size_delete_eq m k :
  Z.of_nat (size (delete k m)) = Z.of_nat (size m) - from_bool (is_some (m !! k)).
Proof.
  destruct (m !! k) as [s|] eqn:E; cbn.
  - rewrite <-(insert_delete_id m k s E) at 2. rewrite size_insert_bound, delete_delete_eq. lia.
  - rewrite delete_id by done. lia.
Qed.
End map_size.

(** ** An index that lists exactly the deadlines of a map's entries *)

Section indexed.
Context {K S : Type} `{Countable K, !Ord K, !OrdLaws K} (deadline_of : S -> option Z).

Definition indexed (m : gmap K S) (e : ExpiryIndex K) : Prop :=
  bt_sorted e /\
  forall d k, (d, k) ∈ e.*1 <-> exists s, m !! k = Some s /\ deadline_of s = Some d.

Lemma indexed_empty : indexed ∅ expiry_default.
Proof.
  split; [constructor|]. intros d k. rewrite lookup_empty. cbn. set_solver.
Qed.

Lemma indexed_delete m e k :
  indexed m e -> indexed (delete k m) (expiry_remove (m !! k ≫= deadline_of) k e).
Proof.
  intros [Hs Hi]. split; [by apply expiry_remove_sorted|]. intros d k'.
  rewrite expiry_remove_in, Hi by done. cbn. destruct (decide (k' = k)) as [->|Hne].
  - rewrite lookup_delete_eq. split; [|naive_solver].
    intros ((s & Hk & Hd) & Hn). rewrite Hk in Hn. cbn in Hn. naive_solver.
  - rewrite lookup_delete_ne by done. naive_solver.
Qed.

Lemma indexed_insert_new m e k s :
  m !! k = None -> indexed m e -> indexed (<[k := s]> m) (expiry_insert (deadline_of s) k e).
Proof.
  intros Hk [Hs Hi]. split; [by apply expiry_insert_sorted|]. intros d k'.
  rewrite expiry_insert_in, Hi by done. cbn. destruct (decide (k' = k)) as [->|Hne].
  - rewrite lookup_insert_eq, Hk. naive_solver.
  - rewrite lookup_insert_ne by done. naive_solver.
Qed.

Lemma indexed_insert m e k s :
  indexed m e ->
  indexed (<[k := s]> m) (expiry_insert (deadline_of s) k (expiry_remove (m !! k ≫= deadline_of) k e)).
Proof.
  intros Hi. rewrite <-insert_delete_eq. apply indexed_insert_new; [apply lookup_delete_eq|].
  by apply indexed_delete.
Qed.

(** Replacing an entry whose deadline does not change. *)
Lemma indexed_insert_same m e k s :
  indexed m e -> (m !! k ≫= deadline_of) = deadline_of s -> indexed (<[k := s]> m) e.
Proof.
  intros [Hs Hi] Hd. split; [done|]. intros d k'. rewrite Hi. destruct (decide (k' = k)) as [->|Hne].
  - rewrite lookup_insert_eq. destruct (m !! k) as [s'|] eqn:E; cbn in Hd.
    + naive_solver congruence.
    + split; [naive_solver|]. intros (s0 & [= <-] & Hs0). congruence.
  - by rewrite lookup_insert_ne.
Qed.

(** What [drain_expired] returns: the expired keys, each once, and an index of the
    entries that stay. *)
Definition past_deadline (now : Z) (s : S) : Prop := exists d, deadline_of s = Some d /\ d <= now.

Lemma indexed_drain m e now keys rest :
  indexed m e -> drain_expired now e = (keys, rest) ->
  NoDup keys /\
  (forall k, k ∈ keys <-> exists s, m !! k = Some s /\ past_deadline now s) /\
  bt_sorted rest /\
  (forall d k, (d, k) ∈ rest.*1 <-> (exists s, m !! k = Some s /\ deadline_of s = Some d) /\ k ∉ keys).
Proof.
  intros [Hs Hi] Hd. destruct (drain_expired_split _ _ _ _ Hs Hd) as (taken & -> & -> & Ht & Hr).
  rewrite Forall_forall in Ht, Hr.
  assert (forall d k, (d, k) ∈ taken.*1 \/ (d, k) ∈ rest.*1 <->
    exists s, m !! k = Some s /\ deadline_of s = Some d) as Hi'.
  { intros d k. rewrite <-Hi, fmap_app, elem_of_app. done. }
  assert (forall k, k ∈ (fun p : (Z * K) * unit => p.1.2) <$> taken <->
    exists s, m !! k = Some s /\ past_deadline now s) as Hk.
  { intros k. rewrite list_elem_of_fmap. split.
    - intros ([[d k'] []] & -> & Hin). cbn. specialize (Ht _ Hin). cbn in Ht.
      destruct (proj1 (Hi' d k')) as (s & ? & ?); [left; by apply expiry_fst_in|]. exists s. split; [done|]. by exists d.
    - intros (s & Hk & d & Hdl & Hle). exists ((d, k), tt). split; [done|].
      destruct (proj2 (Hi' d k)) as [Hin|Hin]; [by exists s|by apply expiry_fst_in|].
      apply expiry_fst_in in Hin. specialize (Hr _ Hin). cbn in Hr. lia. }
  split_and!; [|done|by eapply StronglySorted_app_1_r|].
  - apply StronglySorted_app_1_l in Hs.
    assert (forall p q, p ∈ taken -> q ∈ taken -> p.1.2 = q.1.2 -> p.1.1 = q.1.1) as Huniq.
    { intros [[d k] []] [[d' k'] []] Hp Hq. cbn. intros <-.
      destruct (proj1 (Hi' d k)) as (s & E1 & E2); [left; by apply expiry_fst_in|].
      destruct (proj1 (Hi' d' k)) as (s' & E3 & E4); [left; by apply expiry_fst_in|]. congruence. }
    clear -Hs Huniq OrdLaws0. induction Hs as [|[[d k] []] l Hl IH Hf]; cbn; [constructor|].
    apply NoDup_cons. split; [|apply IH; intros p q ? ?; apply Huniq; by right].
    rewrite list_elem_of_fmap. intros ([[d' k'] []] & E & Hin). cbn in E. subst k'.
    rewrite Forall_forall in Hf. pose proof (Hf _ Hin) as Hlt.
    assert (d = d') as -> by (apply (Huniq ((d, k), tt) ((d', k), tt)); [by left|by right|done]).
    unfold key_lt in Hlt. cbn in Hlt. by rewrite cmp_refl in Hlt.
  - intros d k. rewrite <-Hi', Hk. split.
    + intros Hin. split; [by right|]. intros (s & Hks & d' & Hd' & Hle).
      destruct (proj1 (Hi' d k)) as (s' & E1 & E2); [by right|].
      rewrite Hks in E1. injection E1 as <-. rewrite Hd' in E2. injection E2 as ->.
      apply expiry_fst_in in Hin. specialize (Hr _ Hin). cbn in Hr. lia.
    + intros [[Hin|Hin] Hn]; [|done]. destruct Hn. destruct (proj1 (Hi' d k)) as (s & ? & ?); [by left|].
      exists s. split; [done|]. exists d. split; [done|]. apply expiry_fst_in in Hin. by apply (Ht _ Hin).
Qed.
End indexed.
