(* ===== verification/Flow.v ===== *)
(** * Flow identities and serial-number arithmetic

    [analysis/scope.rs] ([ScopeId]), [analysis/stream.rs] ([FlowKey],
    [ScopedFlowKey]) and [analysis/serial.rs]. *)

From stdpp Require Import base tactics option list numbers gmap countable.
From Stdlib Require Import ZArith Lia.
From S2P Require Import Prelude Ordered.

(** ** Flow keys *)

(** [std::net::IpAddr]; the octets are read as one big-endian number, whose
    order is the derived order on octets. *)
Inductive IpAddr : Type :=
| V4 (addr : Z)
| V6 (addr : Z).

Record FlowKey : Type := mkFlowKey {
  source : IpAddr;
  source_port : Z;
  destination : IpAddr;
  destination_port : Z
}.

Definition FlowKey_reverse (k : FlowKey) : FlowKey :=
  {| source := destination k; source_port := destination_port k;
     destination := source k; destination_port := source_port k |}.

Record ScopedFlowKey : Type := mkScopedFlowKey {
  scope : Z;
  flow : FlowKey
}.

Definition ScopedFlowKey_reverse (k : ScopedFlowKey) : ScopedFlowKey :=
  {| scope := scope k; flow := FlowKey_reverse (flow k) |}.

(** The derived order compares the fields in declaration order; [V4] sorts
    before [V6]. *)
Definition IpAddr_fields (a : IpAddr) : Z * Z :=
  match a with V4 x => (0, x) | V6 x => (1, x) end.

Definition FlowKey_fields (k : FlowKey) : (Z * Z) * (Z * ((Z * Z) * Z)) :=
  (IpAddr_fields (source k),
   (source_port k, (IpAddr_fields (destination k), destination_port k))).

Definition ScopedFlowKey_fields (k : ScopedFlowKey)
  : Z * ((Z * Z) * (Z * ((Z * Z) * Z))) :=
  (scope k, FlowKey_fields (flow k)).

#[export] Instance IpAddr_fields_inj : Inj (=) (=) IpAddr_fields.
Proof. intros [] [] [= ->]; done. Qed.

#[export] Instance FlowKey_fields_inj : Inj (=) (=) FlowKey_fields.
Proof.
  intros [s1 p1 d1 q1] [s2 p2 d2 q2] H. unfold FlowKey_fields in H. cbn in H.
  injection H as Hs Hp Hd Hq.
  apply (inj IpAddr_fields) in Hs, Hd. congruence.
Qed.

#[export] Instance ScopedFlowKey_fields_inj : Inj (=) (=) ScopedFlowKey_fields.
Proof.
  intros [s1 f1] [s2 f2] H. unfold ScopedFlowKey_fields in H.
  apply (inj2 pair) in H as [Hs Hf]. cbn in Hs, Hf.
  apply (inj FlowKey_fields) in Hf. congruence.
Qed.

#[export] Instance IpAddr_eq_dec : EqDecision IpAddr.
Proof. solve_decision. Defined.
#[export] Instance FlowKey_eq_dec : EqDecision FlowKey.
Proof. solve_decision. Defined.
#[export] Instance ScopedFlowKey_eq_dec : EqDecision ScopedFlowKey.
Proof. solve_decision. Defined.

Definition IpAddr_of_fields (p : Z * Z) : IpAddr :=
  if p.1 =? 0 then V4 p.2 else V6 p.2.

Definition ScopedFlowKey_of_fields (p : Z * ((Z * Z) * (Z * ((Z * Z) * Z))))
  : ScopedFlowKey :=
  mkScopedFlowKey p.1
    (mkFlowKey (IpAddr_of_fields p.2.1) p.2.2.1 (IpAddr_of_fields p.2.2.2.1) p.2.2.2.2).

#[export] Program Instance ScopedFlowKey_countable : Countable ScopedFlowKey :=
  inj_countable' ScopedFlowKey_fields ScopedFlowKey_of_fields _.
Next Obligation. by intros [s [[] sp [] dp]]. Qed.

#[export] Instance ScopedFlowKey_ord : Ord ScopedFlowKey := ord_via ScopedFlowKey_fields.
#[export] Instance ScopedFlowKey_ord_laws : OrdLaws ScopedFlowKey.
Proof. exact (ord_via_laws ScopedFlowKey_fields). Qed.

(** ** Clock readings

    [Instant] and [Duration] count nanoseconds.  [Instant::checked_add] fails
    past the signed 64-bit seconds of a Unix [timespec]. *)
Definition instant_max : Z := 9223372036854775808 * 1000000000 - 1.

Definition instant_checked_add (now expiry : Z) : option Z :=
  checked_add instant_max now expiry.

Definition duration_millis (d : Z) : Z := d / 1000000.

(** [Constraint], for the variants the reassemblers report. *)
Inductive Constraint : Type :=
| BelowSerialHalfSpace
| WithinClockRange.

(** [expiry::violation], the clock reading [now] as an argument. *)
Definition expiry_violation (now expiry : Z) : option (Z * Constraint) :=
  match instant_checked_add now expiry with
  | None => Some (Z.min u64_max (duration_millis expiry), WithinClockRange)
  | Some _ => None
  end.

(** ** Serial numbers *)

Definition SERIAL_HALF : Z := 2147483648.

Definition serial_ge (value base : Z) : bool :=
  wrapping_sub32 value base <? SERIAL_HALF.

Definition serial_gt (value base : Z) : bool :=
  let delta := wrapping_sub32 value base in
  negb (delta =? 0) && (delta <? SERIAL_HALF).

(** [as i32] keeps the bit pattern. *)
Definition as_i32 (a : Z) : Z := if a <? SERIAL_HALF then a else a - 4294967296.

Definition serial_offset (value base : Z) : Z := as_i32 (wrapping_sub32 value base).

Definition serial_range_contains (base next : option Z) (value : Z) : option bool :=
  match base, next with
  | Some base, Some next => Some (serial_ge value base && serial_ge next value)
  | _, _ => None
  end.

Lemma as_u32_range a : 0 <= as_u32 a < 4294967296.
Proof. apply Z.mod_pos_bound. lia. Qed.

Lemma as_u32_small a : 0 <= a < 4294967296 -> as_u32 a = a.
Proof. apply Z.mod_small. Qed.

Lemma wrapping_sub32_congr a b :
  wrapping_sub32 (as_u32 a) (as_u32 b) = as_u32 (a - b).
Proof. unfold wrapping_sub32, as_u32. symmetry. apply Zminus_mod. Qed.

Lemma wrapping_add32_congr a b :
  wrapping_add32 (as_u32 a) (as_u32 b) = as_u32 (a + b).
Proof. unfold wrapping_add32, as_u32. symmetry. apply Zplus_mod. Qed.

Lemma serial_offset_range value base :
  - SERIAL_HALF <= serial_offset value base < SERIAL_HALF.
Proof.
  unfold serial_offset, as_i32, wrapping_sub32.
  pose proof (as_u32_range (value - base)). unfold SERIAL_HALF in *.
  case_bool.
Qed.

(** Unwrapped positions less than half the space apart are
    recovered exactly from their wire sequence numbers. *)
Lemma serial_offset_unwrap a b :
  - SERIAL_HALF <= a - b < SERIAL_HALF -> serial_offset (as_u32 a) (as_u32 b) = a - b.
Proof.
  intros H. unfold serial_offset. rewrite wrapping_sub32_congr.
  unfold as_i32, as_u32, SERIAL_HALF in *.
  destruct (Z.leb_spec 0 (a - b)).
  - rewrite Z.mod_small by lia. case_bool.
  - rewrite <-(Z.mod_unique (a - b) 4294967296 (-1) (a - b + 4294967296)) by lia.
    case_bool.
Qed.

Lemma serial_ge_offset value base :
  serial_ge value base = (0 <=? serial_offset value base).
Proof.
  unfold serial_ge, serial_offset, as_i32, wrapping_sub32, SERIAL_HALF.
  pose proof (as_u32_range (value - base)). repeat case_bool.
Qed.

Lemma serial_gt_offset value base :
  serial_gt value base = (0 <? serial_offset value base).
Proof.
  unfold serial_gt, serial_offset, as_i32, wrapping_sub32, SERIAL_HALF.
  pose proof (as_u32_range (value - base)). repeat case_bool.
Qed.
