(* ===== verification/Headers.v ===== *)
(** * Header walkers

    [protocol/headers.rs]: bounded parsing of link, VLAN and IP headers, and of
    IPv4 options and IPv6 extension chains, from raw bytes; with [VlanTag] of
    [packet/link.rs] and the link types of [capture_file/link_type.rs]. *)

From stdpp Require Import base tactics option list numbers.
From Stdlib Require Import ZArith Lia.
From S2P Require Import Prelude Checksum Ordered Flow.

(** ** Slices *)

(** [first_chunk::<N>()]. *)
Definition first_chunk (n : Z) (l : bytes) : option bytes :=
  if zlen l <? n then None else Some (ztake n l).

(** [l.get(first..)]. *)
Definition get_from (l : bytes) (first : Z) : option bytes := get_range l first (zlen l).

(** A constant index into a fixed-size array, in bounds by its type. *)
Definition at_ (l : bytes) (i : Z) : Z := default 0 (zget l i).

(** [l[i]] on a slice. *)
Definition index {E} (l : bytes) (i : Z) : outcome E Z := expect (zget l i).

Definition be16 (l : bytes) (i : Z) : Z := from_be_bytes [at_ l i; at_ l (i + 1)].

(** ** Protocol numbers ([protocol/network.rs]) *)

Definition HOP_BY_HOP : Z := 0.
Definition ROUTING : Z := 43.
Definition FRAGMENT : Z := 44.
Definition AH : Z := 51.
Definition NO_NEXT_HEADER : Z := 59.
Definition DESTINATION_OPTIONS : Z := 60.

Definition MAX_VLAN_DEPTH : Z := 64.
Definition MAX_IPV6_EXTENSIONS : Z := 64.

Definition is_walkable_ipv6_extension (next_header : Z) : bool :=
  (next_header =? HOP_BY_HOP) || (next_header =? ROUTING)
  || (next_header =? AH) || (next_header =? DESTINATION_OPTIONS).

Definition ipv6_extension_header_length (next_header encoded_length : Z) : option Z :=
  if (next_header =? HOP_BY_HOP) || (next_header =? ROUTING) || (next_header =? DESTINATION_OPTIONS)
  then units ← checked_add usize_max encoded_length 1; checked_mul usize_max units 8
  else if next_header =? AH
  then words ← checked_add usize_max encoded_length 2;
       length ← checked_mul usize_max words 4;
       if 12 <=? length then Some length else None
  else None.

(** ** Errors *)

Inductive Header : Type :=
| HEthernet | HVlan | HIp | HIpv4 | HIpv4Option | HIpv6 | HIpv6Extension | HIpv6Option.

Inductive HeaderError : Type :=
| Truncated (h : Header)
| Length (h : Header)
| Depth (h : Header) (limit : Z)
| UnknownIpVersion (version : Z)
| IpVersionMismatch (expected found : Z)
| Jumbogram.

(** ** VLAN tags *)

Inductive VlanKind : Type := Ieee8021Q | Ieee8021Ad.

Definition VlanKind_ether_type (k : VlanKind) : Z :=
  match k with Ieee8021Q => 33024 | Ieee8021Ad => 34984 end.

Definition VlanKind_from_ether_type (ether_type : Z) : option VlanKind :=
  if ether_type =? 33024 then Some Ieee8021Q
  else if ether_type =? 34984 then Some Ieee8021Ad else None.

Record VlanTag : Type := mkVlanTag {
  vlan_kind : VlanKind;
  priority : Z;
  drop_eligible : bool;
  vlan_id : Z
}.

Definition VlanTag_from_tci (kind : VlanKind) (tci : Z) : VlanTag :=
  {| vlan_kind := kind;
     priority := Z.shiftr tci 13 mod 256;
     drop_eligible := negb (Z.land tci 4096 =? 0);
     vlan_id := Z.land tci 4095 |}.

Definition VlanTag_tci (tag : VlanTag) : Z :=
  Z.lor (Z.lor (Z.shiftl (Z.land (priority tag) 7) 13) (if drop_eligible tag then Z.shiftl 1 12 else 0))
        (Z.land (vlan_id tag) 4095).

(** ** Ethernet *)

Record EthernetHeader : Type := mkEthernetHeader {
  eth_destination : bytes;
  eth_source : bytes;
  vlan_tags : list VlanTag;
  ether_type : Z
}.

Definition ETHERNET_LENGTH : Z := 14.
Definition VLAN_TAG_LENGTH : Z := 4.

Definition EthernetHeader_base (frame : bytes) : outcome HeaderError (bytes * bytes * Z) :=
  header ← ok_or (Truncated HEthernet) (first_chunk ETHERNET_LENGTH frame);
  Ok (zslice 0 6 header, zslice 6 12 header, be16 header 12).

(** The [while let] loop; the depth check bounds it by [MAX_VLAN_DEPTH + 1]
    iterations. *)
Fixpoint walk_vlans (fuel : nat) (frame : bytes) (tags : list VlanTag) (ether_type : Z)
  : outcome HeaderError (list VlanTag * Z) :=
  match fuel with
  | O => Panic
  | S fuel =>
      match VlanKind_from_ether_type ether_type with
      | None => Ok (tags, ether_type)
      | Some kind =>
          if zlen tags =? MAX_VLAN_DEPTH then Err (Depth HVlan MAX_VLAN_DEPTH) else
          let offset := ETHERNET_LENGTH + zlen tags * VLAN_TAG_LENGTH in
          tag ← ok_or (Truncated HVlan)
                  (rest ← get_from frame offset; first_chunk VLAN_TAG_LENGTH rest);
          walk_vlans fuel frame (tags ++ [VlanTag_from_tci kind (be16 tag 0)]) (be16 tag 2)
      end
  end.

Definition EthernetHeader_walk (frame : bytes) : outcome HeaderError EthernetHeader :=
  '(destination, source, ether_type) ← EthernetHeader_base frame;
  '(tags, ether_type) ← walk_vlans 66 frame [] ether_type;
  Ok (mkEthernetHeader destination source tags ether_type).

Definition payload_offset (h : EthernetHeader) : Z :=
  ETHERNET_LENGTH + zlen (vlan_tags h) * VLAN_TAG_LENGTH.

Definition EthernetHeader_ip_version (h : EthernetHeader) : option Z :=
  if ether_type h =? 2048 then Some 4 else if ether_type h =? 34525 then Some 6 else None.

(** ** IPv4 *)

Record Ipv4Header : Type := mkIpv4Header {
  v4_header_length : Z;
  v4_total_length : Z;
  v4_identification : Z;
  v4_flags_and_offset : Z;
  v4_protocol : Z
}.

Definition IPV4_MIN_LENGTH : Z := 20.

Definition Ipv4Header_walk_lengths (ip : bytes) (prefix : bool) : outcome HeaderError Ipv4Header :=
  fixed ← ok_or (Truncated HIpv4) (first_chunk IPV4_MIN_LENGTH ip);
  if negb (Z.shiftr (at_ fixed 0) 4 =? 4)
  then Err (IpVersionMismatch 4 (Z.shiftr (at_ fixed 0) 4)) else
  let header_length := Z.land (at_ fixed 0) 15 * 4 in
  let total_length := be16 fixed 2 in
  if (header_length <? IPV4_MIN_LENGTH) || (total_length <? header_length)
  then Err (Length HIpv4) else
  if (zlen ip <? header_length) || (negb prefix && (zlen ip <? total_length))
  then Err (Truncated HIpv4) else
  Ok {| v4_header_length := header_length;
        v4_total_length := total_length;
        v4_identification := be16 fixed 4;
        v4_flags_and_offset := be16 fixed 6;
        v4_protocol := at_ fixed 9 |}.

Definition Ipv4Header_walk (ip : bytes) := Ipv4Header_walk_lengths ip false.
Definition Ipv4Header_walk_prefix (ip : bytes) := Ipv4Header_walk_lengths ip true.

Definition reserved_flag (h : Ipv4Header) : bool := negb (Z.land (v4_flags_and_offset h) 32768 =? 0).
Definition dont_fragment (h : Ipv4Header) : bool := negb (Z.land (v4_flags_and_offset h) 16384 =? 0).
Definition v4_is_fragment (h : Ipv4Header) : bool := negb (Z.land (v4_flags_and_offset h) 16383 =? 0).

Record IpOption : Type := mkIpOption {
  option_kind : Z;
  option_range : Z * Z
}.

(** An iterator over options: the bytes and the cursor. *)
Record Options : Type := mkOptions {
  opt_bytes : bytes;
  opt_cursor : Z
}.

Definition Ipv4Header_options (h : Ipv4Header) (ip : bytes) : outcome HeaderError Options :=
  header ← index_range ip 0 (Z.min (v4_header_length h) (zlen ip));
  Ok (mkOptions header IPV4_MIN_LENGTH).

(** [next]: the item, if any, and the iterator afterwards. *)
Definition Ipv4Options_next (it : Options) : option (IpOption + HeaderError) * Options :=
  let start := opt_cursor it in
  let finished := mkOptions (opt_bytes it) (zlen (opt_bytes it)) in
  match zget (opt_bytes it) start with
  | None => (None, it)
  | Some kind =>
      if kind =? 0 then (None, finished) else
      let take (length : Z) :=
        if (negb (kind =? 1) && (length <? 2)) || (zlen (opt_bytes it) <? start + length)
        then (Some (inr (Length HIpv4Option)), finished)
        else (Some (inl (mkIpOption kind (start, start + length))),
              mkOptions (opt_bytes it) (start + length)) in
      if kind =? 1 then take 1 else
      match zget (opt_bytes it) (start + 1) with
      | None => (Some (inr (Truncated HIpv4Option)), finished)
      | Some length => take length
      end
  end.

(** ** IPv6 *)

Record Ipv6Extension : Type := mkIpv6Extension {
  ext_protocol : Z;
  ext_offset : Z;
  ext_length : Z;
  ext_next_header : Z;
  ext_fragment : option Z
}.

Definition ext_range (e : Ipv6Extension) : Z * Z := (ext_offset e, ext_offset e + ext_length e).
Definition ext_fragment_offset (e : Ipv6Extension) : option Z :=
  (fun word => Z.shiftr word 3) <$> ext_fragment e.
Definition ext_more_fragments (e : Ipv6Extension) : option bool :=
  (fun word => negb (Z.land word 1 =? 0)) <$> ext_fragment e.
Definition ext_is_fragment (e : Ipv6Extension) : bool :=
  match ext_fragment e with Some word => negb (Z.land word 65529 =? 0) | None => false end.

Record Ipv6ExtensionChain : Type := mkChain {
  ch_bytes : bytes;
  ch_protocol : Z;
  ch_offset : Z;
  ch_limit : Z;
  ch_taken : Z;
  ch_done : bool
}.

Definition chain_new (data : bytes) (offset next_header : Z) : Ipv6ExtensionChain :=
  mkChain data next_header offset MAX_IPV6_EXTENSIONS 0 false.

Definition chain_position (c : Ipv6ExtensionChain) : Z * Z := (ch_protocol c, ch_offset c).

Definition chain_with_ceiling (c : Ipv6ExtensionChain) (ceiling : Z) : Ipv6ExtensionChain :=
  mkChain (ch_bytes c) (ch_protocol c) (ch_offset c) ceiling (ch_taken c) (ch_done c).

(** The [step] closure of [next]. *)
Definition chain_step (c : Ipv6ExtensionChain) : outcome HeaderError Ipv6Extension :=
  prefix ← ok_or (Truncated HIpv6Extension)
             (rest ← get_from (ch_bytes c) (ch_offset c); first_chunk 2 rest);
  length ← (if ch_protocol c =? FRAGMENT then Ok 8
            else ok_or (Length HIpv6Extension)
                   (ipv6_extension_header_length (ch_protocol c) (at_ prefix 1)));
  last ← add_u (ch_offset c) length;
  header ← ok_or (Truncated HIpv6Extension) (get_range (ch_bytes c) (ch_offset c) last);
  fragment ← (if ch_protocol c =? FRAGMENT
              then a ← index header 2; b ← index header 3; Ok (Some (from_be_bytes [a; b]))
              else Ok None);
  next_header ← index header 0;
  Ok (mkIpv6Extension (ch_protocol c) (ch_offset c) length next_header fragment).

Definition chain_next (c : Ipv6ExtensionChain)
  : option (outcome HeaderError Ipv6Extension) * Ipv6ExtensionChain :=
  let stop := mkChain (ch_bytes c) (ch_protocol c) (ch_offset c) (ch_limit c) (ch_taken c) true in
  if ch_done c || negb ((ch_protocol c =? FRAGMENT) || is_walkable_ipv6_extension (ch_protocol c))
  then (None, c)
  else if ch_limit c <=? ch_taken c
  then (Some (Err (Depth HIpv6Extension (ch_limit c))), stop)
  else match chain_step c with
       | Ok extension =>
           (Some (Ok extension),
            mkChain (ch_bytes c) (ext_next_header extension) (ch_offset c + ext_length extension)
              (ch_limit c) (ch_taken c + 1)
              (match ext_fragment_offset extension with Some units => negb (units =? 0) | None => false end))
       | Err e => (Some (Err e), stop)
       | Panic => (Some Panic, stop)
       end.

Record Ipv6Header : Type := mkIpv6Header {
  v6_payload_length : Z;
  v6_next_header : Z;
  v6_extensions : list Ipv6Extension;
  v6_upper_layer : Z;
  v6_upper_layer_offset : Z
}.

Definition IPV6_LENGTH : Z := 40.

Definition Ipv6Header_walk_fixed (ip : bytes) : outcome HeaderError (Z * Z) :=
  fixed ← ok_or (Truncated HIpv6) (first_chunk IPV6_LENGTH ip);
  if negb (Z.shiftr (at_ fixed 0) 4 =? 6)
  then Err (IpVersionMismatch 6 (Z.shiftr (at_ fixed 0) 4)) else
  let payload_length := be16 fixed 4 in
  let next_header := at_ fixed 6 in
  if (payload_length =? 0) && negb (next_header =? NO_NEXT_HEADER) then Err Jumbogram
  else Ok (payload_length, next_header).

(** The [for] loop of [walk_chain]: the extensions and the final chain.  The
    limit bounds it by [MAX_IPV6_EXTENSIONS + 1] iterations. *)
Fixpoint walk_extensions (fuel : nat) (c : Ipv6ExtensionChain) (extensions : list Ipv6Extension)
  : outcome HeaderError (list Ipv6Extension * Ipv6ExtensionChain) :=
  match fuel with
  | O => Panic
  | S fuel =>
      match chain_next c with
      | (None, c') => Ok (extensions, c')
      | (Some item, c') =>
          extension ← item;
          walk_extensions fuel c' (extensions ++ [extension])
      end
  end.

Definition Ipv6Header_walk_chain (datagram : bytes) (payload_length next_header : Z)
  : outcome HeaderError Ipv6Header :=
  '(extensions, chain) ← walk_extensions 66 (chain_new datagram IPV6_LENGTH next_header) [];
  let '(upper_layer, upper_layer_offset) := chain_position chain in
  Ok (mkIpv6Header payload_length next_header extensions upper_layer upper_layer_offset).

Definition Ipv6Header_walk (ip : bytes) : outcome HeaderError Ipv6Header :=
  '(payload_length, next_header) ← Ipv6Header_walk_fixed ip;
  datagram ← ok_or (Truncated HIpv6) (get_range ip 0 (IPV6_LENGTH + payload_length));
  Ipv6Header_walk_chain datagram payload_length next_header.

Definition Ipv6Header_walk_prefix (ip : bytes) : outcome HeaderError Ipv6Header :=
  '(payload_length, next_header) ← Ipv6Header_walk_fixed ip;
  datagram ← index_range ip 0 (Z.min (IPV6_LENGTH + payload_length) (zlen ip));
  Ipv6Header_walk_chain datagram payload_length next_header.

Definition v6_datagram_length (h : Ipv6Header) : Z := IPV6_LENGTH + v6_payload_length h.
Definition v6_is_fragment (h : Ipv6Header) : bool := existsb ext_is_fragment (v6_extensions h).

Definition Ipv6Extension_options (e : Ipv6Extension) (ip : bytes) : outcome HeaderError Options :=
  let carries_options := (ext_protocol e =? HOP_BY_HOP) || (ext_protocol e =? DESTINATION_OPTIONS) in
  let last := if carries_options then Z.min (ext_offset e + ext_length e) (zlen ip) else 0 in
  header ← index_range ip 0 last;
  Ok (mkOptions header (ext_offset e + 2)).

Definition Ipv6Options_next (it : Options) : option (IpOption + HeaderError) * Options :=
  let start := opt_cursor it in
  let finished := mkOptions (opt_bytes it) (zlen (opt_bytes it)) in
  match zget (opt_bytes it) start with
  | None => (None, it)
  | Some kind =>
      let take (length : Z) :=
        if zlen (opt_bytes it) <? start + length
        then (Some (inr (Length HIpv6Option)), finished)
        else (Some (inl (mkIpOption kind (start, start + length))),
              mkOptions (opt_bytes it) (start + length)) in
      if kind =? 0 then take 1 else
      match zget (opt_bytes it) (start + 1) with
      | None => (Some (inr (Truncated HIpv6Option)), finished)
      | Some length => take (length + 2)
      end
  end.

(** ** IP and link headers *)

Inductive IpHeader : Type :=
| IpV4 (h : Ipv4Header)
| IpV6 (h : Ipv6Header).

Definition IpHeader_walk (ip : bytes) : outcome HeaderError IpHeader :=
  match head ip with
  | None => Err (Truncated HIp)
  | Some first =>
      let version := Z.shiftr first 4 in
      if version =? 4 then h ← Ipv4Header_walk ip; Ok (IpV4 h)
      else if version =? 6 then h ← Ipv6Header_walk ip; Ok (IpV6 h)
      else Err (UnknownIpVersion version)
  end.

Definition IpHeader_version (h : IpHeader) : Z := match h with IpV4 _ => 4 | IpV6 _ => 6 end.

Definition IpHeader_datagram_length (h : IpHeader) : Z :=
  match h with IpV4 h => v4_total_length h | IpV6 h => v6_datagram_length h end.

Definition IpHeader_is_fragment (h : IpHeader) : bool :=
  match h with IpV4 h => v4_is_fragment h | IpV6 h => v6_is_fragment h end.

Definition IpHeader_upper_layer (h : IpHeader) : Z * Z :=
  match h with
  | IpV4 h => (v4_protocol h, v4_header_length h)
  | IpV6 h => (v6_upper_layer h, v6_upper_layer_offset h)
  end.

(** The address octets read as one big-endian number, as in [IpAddr]. *)
Definition IpHeader_addresses (h : IpHeader) (ip : bytes) : outcome HeaderError (IpAddr * IpAddr) :=
  match h with
  | IpV4 _ =>
      source ← ok_or (Truncated HIpv4) (get_range ip 12 16);
      destination ← ok_or (Truncated HIpv4) (get_range ip 16 20);
      Ok (V4 (from_be_bytes source), V4 (from_be_bytes destination))
  | IpV6 _ =>
      source ← ok_or (Truncated HIpv6) (get_range ip 8 24);
      destination ← ok_or (Truncated HIpv6) (get_range ip 24 40);
      Ok (V6 (from_be_bytes source), V6 (from_be_bytes destination))
  end.

(** Link types by number; the root protocols a [LinkType] names. *)
Inductive RootProtocol : Type :=
| BsdNull | EthernetRoot | RawIpRoot | BsdLoop | LinuxSll | Ipv4Root | Ipv6Root | LinuxSll2.

#[export] Instance RootProtocol_eq_dec : EqDecision RootProtocol.
Proof. solve_decision. Defined.

Definition BUILTIN_ROOTS : list (Z * RootProtocol) :=
  [(0, BsdNull); (1, EthernetRoot); (101, RawIpRoot); (12, RawIpRoot); (108, BsdLoop);
   (113, LinuxSll); (228, Ipv4Root); (229, Ipv6Root); (276, LinuxSll2)].

Definition root_protocol (link_type : Z) : option RootProtocol :=
  snd <$> find (fun p => p.1 =? link_type) BUILTIN_ROOTS.

Definition for_root_protocol (protocol : RootProtocol) : option Z :=
  fst <$> find (fun p => bool_decide (p.2 = protocol)) BUILTIN_ROOTS.

Definition is_raw_ip (link_type : Z) : bool :=
  match root_protocol link_type with
  | Some RawIpRoot | Some Ipv4Root | Some Ipv6Root => true
  | _ => false
  end.

Inductive LinkHeader : Type :=
| LinkEthernet (h : EthernetHeader)
| LinkRawIp (version : option Z).

Definition LinkHeader_walk (link_type : Z) (frame : bytes) : outcome HeaderError (option LinkHeader) :=
  if link_type =? 1 then h ← EthernetHeader_walk frame; Ok (Some (LinkEthernet h)) else
  if negb (is_raw_ip link_type) then Ok None else
  Ok (Some (LinkRawIp (match root_protocol link_type with
                       | Some Ipv4Root => Some 4
                       | Some Ipv6Root => Some 6
                       | _ => None
                       end))).

Definition network_offset (l : LinkHeader) : Z :=
  match l with LinkEthernet h => payload_offset h | LinkRawIp _ => 0 end.

Definition carries_ip (l : LinkHeader) : bool :=
  match l with LinkEthernet h => is_some (EthernetHeader_ip_version h) | LinkRawIp _ => true end.

Definition announced_ip_version (l : LinkHeader) : option Z :=
  match l with LinkEthernet h => EthernetHeader_ip_version h | LinkRawIp version => version end.

Definition LinkHeader_walk_ip (l : LinkHeader) (frame : bytes) : outcome HeaderError (option IpHeader) :=
  if negb (carries_ip l) then Ok None else
  ip ← ok_or (Truncated HIp) (get_from frame (network_offset l));
  match announced_ip_version l, (fun b => Z.shiftr b 4) <$> head ip with
  | Some expected, Some found =>
      if negb (expected =? found) then Err (IpVersionMismatch expected found)
      else h ← IpHeader_walk ip; Ok (Some h)
  | _, _ => h ← IpHeader_walk ip; Ok (Some h)
  end.
