(* ===== verification/HeadersProofs.v ===== *)
(** * Theorems on the header walkers

    Bounds of what the walkers accept, termination and tiling of the option and
    extension iterators, and the VLAN tag round trip. *)

From stdpp Require Import base tactics option list numbers.
From Stdlib Require Import ZArith Lia.
From S2P Require Import Prelude Checksum Ordered Flow Headers.

(** ** Slices *)

Lemma first_chunk_Some n l k :
  first_chunk n l = Some k <-> n <= zlen l /\ k = ztake n l.
Proof. unfold first_chunk. destruct (Z.ltb_spec (zlen l) n); naive_solver lia. Qed.

Lemma get_from_Some l i k : get_from l i = Some k -> 0 <= i <= zlen l /\ k = zdrop i l.
Proof.
  unfold get_from. intros (? & ? & _ & ->)%get_range_Some. split; [done|].
  unfold zslice. apply ztake_all. rewrite zlen_zdrop. lia.
Qed.

Lemma octets_ztake n l : octets l -> octets (ztake n l).
Proof. apply Forall_take. Qed.

Lemma octets_zdrop n l : octets l -> octets (zdrop n l).
Proof. apply Forall_drop. Qed.

Lemma octets_zget l i b : octets l -> zget l i = Some b -> 0 <= b < 256.
Proof.
  intros Ho. unfold zget. destruct (0 <=? i); [|done]. intros Hl. by eapply Forall_lookup_1 in Ho.
Qed.

Lemma octets_at l i : octets l -> 0 <= at_ l i < 256.
Proof.
  intros Ho. unfold at_. destruct (zget l i) as [b|] eqn:E; cbn; [|lia]. by eapply octets_zget.
Qed.

Lemma be16_range l i : octets l -> 0 <= be16 l i < 65536.
Proof.
  intros Ho. pose proof (octets_at l i Ho). pose proof (octets_at l (i + 1) Ho).
  unfold be16, from_be_bytes. cbn. lia.
Qed.

Lemma index_safe {E} l i : 0 <= i < zlen l -> exists b, @index E l i = Ok b.
Proof. intros Hi. destruct (zget_lt_is_Some l i Hi) as [b Hb]. exists b. unfold index. by rewrite Hb. Qed.

(** ** Ethernet *)

Lemma walk_vlans_spec fuel : forall frame tags et,
  zlen tags <= MAX_VLAN_DEPTH -> 66 <= Z.of_nat fuel + zlen tags ->
  ETHERNET_LENGTH + zlen tags * VLAN_TAG_LENGTH <= zlen frame ->
  safe (walk_vlans fuel frame tags et) (fun '(tags', _) =>
    zlen tags' <= MAX_VLAN_DEPTH /\ ETHERNET_LENGTH + zlen tags' * VLAN_TAG_LENGTH <= zlen frame).
Proof.
  induction fuel as [|fuel IH]; intros frame tags et Hd Hf Hl; unfold MAX_VLAN_DEPTH in *; [lia|].
  cbn [walk_vlans]. destruct (VlanKind_from_ether_type et); [|done].
  unfold MAX_VLAN_DEPTH. destruct (Z.eqb_spec (zlen tags) 64); [done|].
  apply safe_bind, safe_ok_or. intros tag Ht.
  destruct (get_from frame _) as [rest|] eqn:Eg; [|done]. cbn in Ht.
  apply get_from_Some in Eg as [Hb ->]. apply first_chunk_Some in Ht as [Ht _].
  rewrite zlen_zdrop in Ht. unfold VLAN_TAG_LENGTH, ETHERNET_LENGTH in *.
  apply IH; rewrite zlen_app; change (zlen [_]) with 1; lia.
Qed.

Lemma EthernetHeader_walk_spec frame :
  safe (EthernetHeader_walk frame) (fun h =>
    zlen (vlan_tags h) <= MAX_VLAN_DEPTH /\ ETHERNET_LENGTH <= payload_offset h <= zlen frame).
Proof.
  unfold EthernetHeader_walk, EthernetHeader_base. apply safe_bind, safe_bind, safe_ok_or.
  intros header [Hl _]%first_chunk_Some. cbn [safe]. apply safe_bind.
  eapply safe_mono; [apply walk_vlans_spec; unfold MAX_VLAN_DEPTH; change (@zlen VlanTag []) with 0; lia|].
  intros [tags et] [H1 H2]. cbn. split; [done|]. unfold payload_offset. cbn.
  pose proof (zlen_nonneg tags). unfold VLAN_TAG_LENGTH in *. lia.
Qed.

(** ** IPv4 *)

Lemma land15 a : 0 <= a -> 0 <= Z.land a 15 <= 15.
Proof. intros. change 15 with (Z.ones 4) at 1 2. rewrite Z.land_ones by lia. pose proof (Z.mod_pos_bound a (2 ^ 4)). lia. Qed.

Lemma Ipv4Header_walk_spec ip prefix :
  octets ip ->
  safe (Ipv4Header_walk_lengths ip prefix) (fun h =>
    20 <= v4_header_length h <= 60 /\ v4_header_length h <= v4_total_length h <= u16_max /\
    v4_header_length h <= zlen ip /\ (prefix = false -> v4_total_length h <= zlen ip)).
Proof.
  intros Ho. unfold Ipv4Header_walk_lengths. apply safe_bind, safe_ok_or.
  intros fixed [Hl ->]%first_chunk_Some.
  pose proof (octets_ztake IPV4_MIN_LENGTH ip Ho) as Hf. case_match; [done|].
  pose proof (land15 (at_ (ztake IPV4_MIN_LENGTH ip) 0) ltac:(apply octets_at; done)).
  pose proof (be16_range (ztake IPV4_MIN_LENGTH ip) 2 Hf). cbv zeta.
  unfold IPV4_MIN_LENGTH in *. destruct (_ || _) eqn:E1; [done|]. apply orb_false_iff in E1 as [?%Z.ltb_ge ?%Z.ltb_ge].
  destruct (_ || _) eqn:E2; [done|]. apply orb_false_iff in E2 as [?%Z.ltb_ge Hp].
  cbn [safe v4_header_length v4_total_length].
  unfold u16_max. split_and!; try lia. intros ->. cbn [negb andb] in Hp. apply Z.ltb_ge in Hp. lia.
Qed.

(** ** Option iterators *)

(** All items of an iterator; [None] when [fuel] steps do not exhaust it. *)
Fixpoint collect_options (next : Options -> option (IpOption + HeaderError) * Options)
  (fuel : nat) (it : Options) : option (list (IpOption + HeaderError)) :=
  match fuel with
  | O => None
  | S fuel =>
      match next it with
      | (None, _) => Some []
      | (Some item, it') => (fun l => item :: l) <$> collect_options next fuel it'
      end
  end.

(** The items are options one after the other from [cursor], within [limit];
    only the last may be an error. *)
Fixpoint options_tile (cursor limit : Z) (items : list (IpOption + HeaderError)) : Prop :=
  match items with
  | [] => True
  | inl o :: items' =>
      (option_range o).1 = cursor /\ cursor < (option_range o).2 <= limit /\
      options_tile (option_range o).2 limit items'
  | inr _ :: items' => items' = []
  end.

Record options_iterator (next : Options -> option (IpOption + HeaderError) * Options) : Prop := {
  oi_bytes : forall it item it', next it = (Some item, it') -> opt_bytes it' = opt_bytes it;
  oi_option : forall it o it', octets (opt_bytes it) -> next it = (Some (inl o), it') ->
    option_range o = (opt_cursor it, opt_cursor it') /\ opt_cursor it < opt_cursor it' <= zlen (opt_bytes it);
  oi_error : forall it e it', next it = (Some (inr e), it') -> opt_cursor it' = zlen (opt_bytes it');
  oi_end : forall it, zlen (opt_bytes it) <= opt_cursor it -> (next it).1 = None
}.

Lemma collect_options_spec next it :
  options_iterator next -> octets (opt_bytes it) ->
  exists items, collect_options next (Z.to_nat (zlen (opt_bytes it) - opt_cursor it) + 2) it = Some items /\
    options_tile (opt_cursor it) (zlen (opt_bytes it)) items.
Proof.
  intros Hn. remember (Z.to_nat (zlen (opt_bytes it) - opt_cursor it)) as n eqn:En.
  revert it En. induction n as [n IH] using lt_wf_ind. intros it En Ho.
  replace (n + 2)%nat with (S (n + 1)) by lia. cbn [collect_options].
  destruct (next it) as [[item|] it'] eqn:E; [|by exists []].
  pose proof (oi_bytes _ Hn _ _ _ E) as Hb.
  destruct item as [o|e].
  - destruct (oi_option _ Hn _ _ _ Ho E) as [Hr Hc].
    destruct (IH (Z.to_nat (zlen (opt_bytes it') - opt_cursor it')) ltac:(rewrite Hb; lia) it' eq_refl)
      as (items & Hi & Ht); [by rewrite Hb|].
    assert (forall f g x l, (f <= g)%nat -> collect_options next f x = Some l -> collect_options next g x = Some l) as Hmono.
    { clear. induction f as [|f IHf]; intros g x l Hg H; [done|]. destruct g as [|g]; [lia|]. cbn in *.
      destruct (next x) as [[item|] x']; [|done].
      destruct (collect_options next f x') as [l'|] eqn:E'; [|done].
      rewrite (IHf g x' l' ltac:(lia) E'). done. }
    rewrite (Hmono (Z.to_nat (zlen (opt_bytes it') - opt_cursor it') + 2)%nat (n + 1)%nat it' items
      ltac:(rewrite Hb; lia) Hi). cbn.
    exists (inl o :: items). split; [done|]. cbn. rewrite Hr. cbn. rewrite Hb in Ht. done.
  - pose proof (oi_error _ Hn _ _ _ E) as He. pose proof (oi_end _ Hn it' ltac:(lia)) as Hend.
    replace (n + 1)%nat with (S n) by lia. cbn [collect_options].
    destruct (next it') as [x it2]. cbn in Hend. rewrite Hend. cbn. by exists [inr e].
Qed.

Lemma Ipv4Options_iterator : options_iterator Ipv4Options_next.
Proof.
  split; unfold Ipv4Options_next.
  - intros it item it'. destruct (zget _ _) as [kind|]; [|done]. case_match; [done|].
    case_match; [case_match; naive_solver|]. case_match; [|naive_solver]. case_match; naive_solver.
  - intros it o it' Ho. destruct (zget (opt_bytes it) (opt_cursor it)) as [kind|] eqn:Ek; [|done].
    case_match; [done|]. destruct (Z.eqb_spec kind 1).
    + cbn. case_bool; [done|]. intros [= <- <-]. cbn. split; [done|lia].
    + destruct (zget (opt_bytes it) (opt_cursor it + 1)) as [len|]; [|done]. cbn.
      destruct (Z.ltb_spec len 2); [done|]. cbn. case_bool; [done|].
      intros [= <- <-]. cbn. split; [done|lia].
  - intros it e it'. destruct (zget _ _) as [kind|]; [|done]. case_match; [done|].
    case_match; [case_match; naive_solver|]. case_match; [|naive_solver]. case_match; naive_solver.
  - intros it Hc. by rewrite zget_ge.
Qed.

Lemma Ipv6Options_iterator : options_iterator Ipv6Options_next.
Proof.
  split; unfold Ipv6Options_next.
  - intros it item it'. destruct (zget _ _) as [kind|]; [|done].
    case_match; [case_match; naive_solver|]. case_match; [|naive_solver]. case_match; naive_solver.
  - intros it o it' Ho. destruct (zget (opt_bytes it) (opt_cursor it)) as [kind|] eqn:Ek; [|done].
    case_match.
    + case_bool; [done|]. intros [= <- <-]. cbn. split; [done|lia].
    + destruct (zget (opt_bytes it) (opt_cursor it + 1)) as [len|] eqn:El; [|done].
      pose proof (octets_zget _ _ _ Ho El). case_bool; [done|]. intros [= <- <-]. cbn. split; [done|lia].
  - intros it e it'. destruct (zget _ _) as [kind|]; [|done].
    case_match; [case_match; naive_solver|]. case_match; [|naive_solver]. case_match; naive_solver.
  - intros it Hc. by rewrite zget_ge.
Qed.

(** ** IPv6 extension chains *)

(** Extension headers back to back from [first] to [last]. *)
Fixpoint extensions_tile (first last : Z) (l : list Ipv6Extension) : Prop :=
  match l with
  | [] => first = last
  | e :: l' => ext_offset e = first /\ 8 <= ext_length e /\
               extensions_tile (first + ext_length e) last l'
  end.

Lemma extensions_tile_snoc first mid last l e :
  extensions_tile first mid l -> ext_offset e = mid -> 8 <= ext_length e -> last = mid + ext_length e ->
  extensions_tile first last (l ++ [e]).
Proof.
  revert first. induction l as [|x l IH]; intros first; cbn; [|naive_solver].
  intros -> ? ? ->. done.
Qed.

Lemma extension_length_bounds next encoded len :
  0 <= encoded < 256 -> ipv6_extension_header_length next encoded = Some len -> 8 <= len <= 2048.
Proof.
  intros He. unfold ipv6_extension_header_length, usize_max, u64_max. case_match.
  - rewrite checked_add_ok by lia. cbn. rewrite checked_mul_ok by lia. intros [= <-]. lia.
  - case_match; [|done]. rewrite checked_add_ok by lia. cbn. rewrite checked_mul_ok by lia. cbn.
    case_bool; [|done]. intros [= <-]. lia.
Qed.

Lemma chain_step_spec c :
  octets (ch_bytes c) -> zlen (ch_bytes c) <= u64_max - 2048 ->
  safe (chain_step c) (fun e => ext_offset e = ch_offset c /\ 8 <= ext_length e /\
    ch_offset c + ext_length e <= zlen (ch_bytes c) /\
    zget (ch_bytes c) (ch_offset c) = Some (ext_next_header e)).
Proof.
  intros Ho Hlen. unfold chain_step. apply safe_bind, safe_ok_or. intros prefix Hp.
  destruct (get_from _ _) as [rest|] eqn:Eg; [|done]. cbn in Hp.
  apply get_from_Some in Eg as [Hoff ->]. apply first_chunk_Some in Hp as [Hp ->].
  pose proof (octets_at (ztake 2 (zdrop (ch_offset c) (ch_bytes c))) 1
    (octets_ztake _ _ (octets_zdrop _ _ Ho))) as Hat.
  apply safe_bind. apply (safe_mono _ (fun len => 8 <= len <= 2048)).
  { destruct (ch_protocol c =? FRAGMENT); [cbn; lia|]. apply safe_ok_or.
    intros len. by apply extension_length_bounds. }
  intros len Hl. rewrite add_u_ok by (unfold u64_max in *; lia). rewrite Ok_bind.
  apply safe_bind, safe_ok_or. intros header (_ & _ & Hend & ->)%get_range_Some.
  assert (zlen (zslice (ch_offset c) (ch_offset c + len) (ch_bytes c)) = len) as Hh.
  { rewrite zlen_zslice by lia. lia. }
  destruct (@index_safe HeaderError (zslice (ch_offset c) (ch_offset c + len) (ch_bytes c)) 0) as [b0 E0]; [lia|].
  destruct (@index_safe HeaderError (zslice (ch_offset c) (ch_offset c + len) (ch_bytes c)) 2) as [b2 E2]; [lia|].
  destruct (@index_safe HeaderError (zslice (ch_offset c) (ch_offset c + len) (ch_bytes c)) 3) as [b3 E3]; [lia|].
  apply safe_bind. apply (safe_mono _ (fun _ => True)).
  { destruct (ch_protocol c =? FRAGMENT); [|done]. by rewrite E2, Ok_bind, E3, Ok_bind. }
  intros fragment _. rewrite E0, Ok_bind. cbn. split_and!; try done; try lia.
  unfold index in E0. rewrite zget_zslice in E0 by lia. cbn [Z.leb andb] in E0.
  rewrite (proj2 (Z.ltb_lt _ _)), Z.add_0_r in E0 by lia. by destruct (zget (ch_bytes c) (ch_offset c)); simplify_eq/=.
Qed.

Lemma walk_extensions_spec data first : octets data -> zlen data <= u32_max ->
  forall fuel c extensions,
  ch_bytes c = data -> ch_limit c = MAX_IPV6_EXTENSIONS -> ch_taken c = zlen extensions ->
  zlen extensions <= MAX_IPV6_EXTENSIONS -> 66 <= Z.of_nat fuel + zlen extensions ->
  extensions_tile first (ch_offset c) extensions -> ch_offset c <= zlen data ->
  safe (walk_extensions fuel c extensions) (fun '(extensions', c') =>
    extensions_tile first (ch_offset c') extensions' /\ zlen extensions' <= MAX_IPV6_EXTENSIONS /\
    ch_offset c' <= zlen data).
Proof.
  intros Ho Hlen. induction fuel as [|fuel IH]; intros c exts Hb Hlim Htk Hmax Hf Ht Hoff.
  { unfold MAX_IPV6_EXTENSIONS in *. lia. }
  cbn [walk_extensions]. unfold chain_next. destruct (ch_done c || negb _); [done|].
  destruct (Z.leb_spec (ch_limit c) (ch_taken c)); [done|].
  pose proof (chain_step_spec c ltac:(by rewrite Hb) ltac:(rewrite Hb; unfold u64_max, u32_max in *; lia)) as Hs.
  destruct (chain_step c) as [e| |]; [|done|done]. cbn [safe] in Hs. destruct Hs as (He & H8 & Hend & _).
  rewrite Ok_bind. apply IH; cbn; rewrite ?zlen_app; change (zlen [e]) with 1; try lia; try done.
  - by eapply extensions_tile_snoc.
  - by rewrite Hb in Hend.
Qed.

Lemma Ipv6Header_walk_chain_spec data payload_length next_header :
  octets data -> IPV6_LENGTH <= zlen data -> zlen data <= u32_max ->
  safe (Ipv6Header_walk_chain data payload_length next_header) (fun h =>
    v6_payload_length h = payload_length /\
    extensions_tile IPV6_LENGTH (v6_upper_layer_offset h) (v6_extensions h) /\
    zlen (v6_extensions h) <= MAX_IPV6_EXTENSIONS /\ v6_upper_layer_offset h <= zlen data).
Proof.
  intros Ho Hl Hm. unfold Ipv6Header_walk_chain. apply safe_bind.
  eapply safe_mono.
  - apply (walk_extensions_spec data IPV6_LENGTH Ho Hm); try done; unfold MAX_IPV6_EXTENSIONS; by vm_compute.
  - intros [exts c] (H1 & H2 & H3). done.
Qed.

Lemma Ipv6Header_walk_fixed_spec ip :
  octets ip -> safe (Ipv6Header_walk_fixed ip) (fun '(len, _) => 0 <= len <= u16_max /\ IPV6_LENGTH <= zlen ip).
Proof.
  intros Ho. unfold Ipv6Header_walk_fixed. apply safe_bind, safe_ok_or.
  intros fixed [Hl ->]%first_chunk_Some. case_match; [done|].
  pose proof (be16_range (ztake IPV6_LENGTH ip) 4 (octets_ztake _ _ Ho)).
  cbv zeta. case_match; [done|]. cbn [safe]. unfold u16_max. lia.
Qed.

Lemma octets_zslice a b l : octets l -> octets (zslice a b l).
Proof. intros. by apply octets_ztake, octets_zdrop. Qed.

(** ** Theorems *)

(** the Ethernet walk never panics, follows at most 64 VLAN tags, and the
    network header it points to starts within the frame. *)
Theorem ethernet_walk_bounds (frame : bytes) :
  EthernetHeader_walk frame <> Panic /\
  forall h, EthernetHeader_walk frame = Ok h ->
    zlen (vlan_tags h) <= MAX_VLAN_DEPTH /\ ETHERNET_LENGTH <= payload_offset h <= zlen frame.
Proof. apply safe_iff, EthernetHeader_walk_spec. Qed.

(** an IPv4 header the walk accepts has a length between 20 and 60 bytes, no
    longer than its total length, and both lie in the bytes given; iterating its
    options ends, and they tile the option area in order, an error ending it. *)
Theorem ipv4_walk_bounds (ip : bytes) (h : Ipv4Header) :
  octets ip -> Ipv4Header_walk ip = Ok h ->
  20 <= v4_header_length h <= 60 /\ v4_header_length h <= v4_total_length h <= zlen ip /\
  exists it items,
    Ipv4Header_options h ip = Ok it /\
    collect_options Ipv4Options_next (Z.to_nat (v4_header_length h) + 2) it = Some items /\
    options_tile IPV4_MIN_LENGTH (v4_header_length h) items.
Proof.
  intros Ho Hw. pose proof (Ipv4Header_walk_spec ip false Ho) as Hs.
  unfold Ipv4Header_walk in Hw. rewrite Hw in Hs. destruct Hs as (H1 & H2 & H3 & H4).
  specialize (H4 eq_refl). split; [done|]. split; [lia|].
  unfold Ipv4Header_options. rewrite Z.min_l by done. rewrite index_range_ok by lia. rewrite Ok_bind.
  set (it := mkOptions (zslice 0 (v4_header_length h) ip) IPV4_MIN_LENGTH).
  assert (zlen (opt_bytes it) = v4_header_length h) as Hl by (cbn; rewrite zlen_zslice; lia).
  destruct (collect_options_spec _ it Ipv4Options_iterator) as (items & Hc & Ht); [by apply octets_zslice|].
  exists it. rewrite Hl in *. cbn in Ht. change (opt_cursor it) with 20 in Hc.
  assert (forall f g x l, (f <= g)%nat -> collect_options Ipv4Options_next f x = Some l ->
    collect_options Ipv4Options_next g x = Some l) as Hmono.
  { clear. induction f as [|f IHf]; intros g x l Hg H; [done|]. destruct g as [|g]; [lia|]. cbn in *.
    destruct (Ipv4Options_next x) as [[item|] x']; [|done].
    destruct (collect_options _ f x') as [l'|] eqn:E'; [|done]. by rewrite (IHf g x' l' ltac:(lia) E'). }
  exists items. split; [done|]. split; [|done]. eapply Hmono; [|exact Hc]. lia.
Qed.

Lemma ipv4_walk_bounds_witness :
  let ip := [70; 0; 0; 24; 0; 0; 64; 0; 64; 6; 0; 0; 10; 0; 0; 1; 10; 0; 0; 2; 1; 148; 2; 0] in
  20 <= 24 /\ exists h, Ipv4Header_walk ip = Ok h /\ v4_header_length h <= v4_total_length h <= zlen ip.
Proof.
  split; [lia|]. eexists. split; [by vm_compute|].
  apply (ipv4_walk_bounds [70; 0; 0; 24; 0; 0; 64; 0; 64; 6; 0; 0; 10; 0; 0; 1; 10; 0; 0; 2; 1; 148; 2; 0]);
    [by repeat constructor|by vm_compute].
Defined.

(** An IPv6 header the walk accepts has its extension headers back to back
    from byte 40 to the upper-layer offset, at most 64 of them, all within the
    declared datagram; the walk never panics and always ends. *)
Theorem ipv6_walk_tiles (ip : bytes) :
  octets ip ->
  Ipv6Header_walk ip <> Panic /\
  forall h, Ipv6Header_walk ip = Ok h ->
    extensions_tile IPV6_LENGTH (v6_upper_layer_offset h) (v6_extensions h) /\
    zlen (v6_extensions h) <= MAX_IPV6_EXTENSIONS /\
    v6_upper_layer_offset h <= v6_datagram_length h <= zlen ip.
Proof.
  intros Ho. apply safe_iff. unfold Ipv6Header_walk. apply safe_bind.
  eapply safe_mono; [by apply Ipv6Header_walk_fixed_spec|]. intros [len nh] [Hl H40].
  apply safe_bind, safe_ok_or. intros data (_ & _ & Hd & ->)%get_range_Some.
  assert (zlen (zslice 0 (IPV6_LENGTH + len) ip) = IPV6_LENGTH + len) as Hz.
  { rewrite zlen_zslice; unfold IPV6_LENGTH in *; lia. }
  eapply safe_mono.
  - apply Ipv6Header_walk_chain_spec; [by apply octets_zslice|..]; rewrite Hz;
      unfold IPV6_LENGTH, u32_max, u16_max in *; lia.
  - intros h (Hp & Ht & Hn & Hu). rewrite Hz in Hu. unfold v6_datagram_length. rewrite Hp. done.
Qed.

Lemma ipv6_walk_tiles_witness :
  let ip := [96; 0; 0; 0; 0; 8; 0; 64] ++ zrep 32 0 ++ [58; 0; 1; 4; 0; 0; 0; 0] in
  match Ipv6Header_walk ip with
  | Ok h => v6_upper_layer h = 58 /\ extensions_tile 40 48 (v6_extensions h)
  | _ => False
  end.
Proof.
  destruct (ipv6_walk_tiles ([96; 0; 0; 0; 0; 8; 0; 64] ++ zrep 32 0 ++ [58; 0; 1; 4; 0; 0; 0; 0])) as [_ H].
  - by repeat constructor.
  - cbv zeta. destruct (Ipv6Header_walk _) as [h| |] eqn:E; [|by vm_compute in E..].
    assert (v6_upper_layer h = 58 /\ v6_upper_layer_offset h = 48) as [H1 H2]
      by (vm_compute in E; injection E as <-; done).
    split; [exact H1|]. rewrite <-H2. exact (proj1 (H h eq_refl)).
Defined.

(** the VLAN tag control information survives decoding and encoding. *)
Theorem vlan_tci_roundtrip (kind : VlanKind) (tci : Z) :
  0 <= tci < 65536 -> VlanTag_tci (VlanTag_from_tci kind tci) = tci.
Proof.
  intros Ht. unfold VlanTag_tci, VlanTag_from_tci. cbn [priority drop_eligible vlan_id].
  assert (Z.shiftr tci 13 mod 256 = Z.shiftr tci 13) as ->.
  { apply Z.mod_small. rewrite Z.shiftr_div_pow2 by lia.
    split; [apply Z.div_pos; lia|]. apply Z.div_lt_upper_bound; lia. }
  assert ((if negb (Z.land tci 4096 =? 0) then Z.shiftl 1 12 else 0) = Z.land tci 4096) as ->.
  { change 4096 with (2 ^ 12). destruct (Z.testbit tci 12) eqn:Eb.
    - assert (Z.land tci (2 ^ 12) = 2 ^ 12) as ->; [|done].
      apply Z.bits_inj'. intros n Hn. rewrite Z.land_spec, Z.pow2_bits_eqb by lia.
      destruct (Z.eqb_spec 12 n) as [<-|]; [by rewrite Eb|by rewrite andb_false_r].
    - assert (Z.land tci (2 ^ 12) = 0) as ->; [|done].
      apply Z.bits_inj'. intros n Hn. rewrite Z.land_spec, Z.pow2_bits_eqb, Z.bits_0 by lia.
      destruct (Z.eqb_spec 12 n) as [<-|]; [by rewrite Eb|by rewrite andb_false_r]. }
  apply Z.bits_inj'. intros n Hn. rewrite !Z.lor_spec, !Z.land_spec.
  change 4095 with (Z.ones 12). change 7 with (Z.ones 3). change 4096 with (2 ^ 12).
  rewrite Z.pow2_bits_eqb, !Z.testbit_ones_nonneg by lia.
  destruct (Z.ltb_spec n 13) as [H13|H13].
  - rewrite Z.shiftl_spec_low by lia. cbn [orb].
    destruct (Z.eqb_spec 12 n), (Z.ltb_spec n 12); try lia; rewrite ?andb_true_r, ?andb_false_r, ?orb_false_r; done.
  - rewrite Z.shiftl_spec, Z.land_spec, Z.shiftr_spec, Z.testbit_ones_nonneg by lia.
    replace (n - 13 + 13) with n by lia.
    destruct (Z.eqb_spec 12 n), (Z.ltb_spec n 12), (Z.ltb_spec (n - 13) 3); try lia;
      rewrite ?andb_true_r, ?andb_false_r, ?orb_false_r; [done|].
    symmetry. destruct (Z.eq_dec tci 0) as [->|]; [by rewrite Z.bits_0|].
    apply Z.bits_above_log2; [lia|]. apply Z.log2_lt_pow2; [lia|].
    apply Z.lt_le_trans with (2 ^ 16); [lia|]. apply Z.pow_le_mono_r; lia.
Qed.

Lemma vlan_tci_roundtrip_witness : VlanTag_tci (VlanTag_from_tci Ieee8021Q 45159) = 45159.
Proof. apply vlan_tci_roundtrip. lia. Defined.
