(* ===== verification/Frame.v ===== *)
(** * Captured frames

    [frame.rs]: a frame with its lengths, the bounds on capture times, and the
    split of a time into seconds and nanoseconds. *)

From stdpp Require Import base tactics option list numbers.
From Stdlib Require Import ZArith Lia.
From S2P Require Import Prelude Checksum.

(** A [SystemTime] is the signed number of nanoseconds since the Unix epoch. *)
Notation SystemTime := Z (only parsing).

Record Lengths : Type := mkLengths {
  ln_captured : Z;
  ln_original : Z
}.

Inductive Direction : Type := Inbound | Outbound | UnknownDirection.

Inductive FrameError : Type :=
| CapturedLengthTooLarge (actual : Z)
| CapturedLengthMismatch (declared actual : Z)
| OriginalLengthTooSmall (captured original : Z)
| ReversedTimeBounds (first last : SystemTime).

Record Frame : Type := mkFrame {
  fr_timestamp : option SystemTime;
  captured_length : Z;
  original_length : Z;
  link_type : Z;
  fr_interface : option Z;
  fr_direction : option Direction;
  frame_bytes : bytes
}.

Definition try_with_optional_timestamp (timestamp : option SystemTime) (link : Z) (lengths : Lengths) (data : bytes)
  : outcome FrameError Frame :=
  if negb (ln_captured lengths =? zlen data)
  then Err (CapturedLengthMismatch (ln_captured lengths) (zlen data)) else
  if ln_original lengths <? ln_captured lengths
  then Err (OriginalLengthTooSmall (ln_captured lengths) (ln_original lengths)) else
  Ok (mkFrame timestamp (ln_captured lengths) (ln_original lengths) link None None data).

Definition Frame_new (timestamp : option SystemTime) (link : Z) (data : bytes) : outcome FrameError Frame :=
  length ← ok_or (CapturedLengthTooLarge (zlen data)) (if zlen data <=? u32_max then Some (zlen data) else None);
  try_with_optional_timestamp timestamp link (mkLengths length length) data.

Definition is_truncated (f : Frame) : bool := captured_length f <? original_length f.

(** [duration_since] gives the time elapsed after the epoch, or in its error the
    time before it; both are seconds and nanoseconds of a non-negative span. *)
Definition unix_floor (time : SystemTime) : Z * Z :=
  let second := 1000000000 in
  if 0 <=? time then (time / second, time mod second)
  else
    let elapsed := - time in
    if elapsed mod second =? 0 then (- (elapsed / second), 0)
    else (- (elapsed / second) - 1, second - elapsed mod second).

Definition checked_slice (data : bytes) (first last : Z) : option bytes :=
  if (last <? first) || (zlen data <? last) then None else Some (zslice first last data).

Record TimeBounds : Type := mkTimeBounds {
  tb_start : option SystemTime;
  tb_end : option SystemTime
}.

Definition TimeBounds_new (first last : option SystemTime) : outcome FrameError TimeBounds :=
  match first, last with
  | Some s, Some e => if e <? s then Err (ReversedTimeBounds s e) else Ok (mkTimeBounds first last)
  | _, _ => Ok (mkTimeBounds first last)
  end.

Definition TimeBounds_contains (b : TimeBounds) (timestamp : option SystemTime) : bool :=
  match timestamp with
  | None => false
  | Some t => match tb_start b with Some s => s <=? t | None => true end
              && match tb_end b with Some e => t <=? e | None => true end
  end.

(** ** Invariants *)

(** What every constructor of a frame guarantees. *)
Definition frame_ok (f : Frame) : Prop :=
  captured_length f = zlen (frame_bytes f) /\ captured_length f <= original_length f.

Lemma Frame_new_ok timestamp link data f :
  Frame_new timestamp link data = Ok f <-> zlen data <= u32_max /\
    f = mkFrame timestamp (zlen data) (zlen data) link None None data.
Proof.
  unfold Frame_new, try_with_optional_timestamp. destruct (Z.leb_spec (zlen data) u32_max); cbn [ok_or].
  - rewrite Ok_bind. cbn [ln_captured ln_original]. rewrite Z.eqb_refl, Z.ltb_irrefl. cbn [negb]. naive_solver.
  - split; [done|]. intros []. lia.
Qed.

(** ** Theorems *)

(** [unix_floor] is the floor of the time in seconds and the nanoseconds past
    it, before and after the epoch alike, so the parts give the time back. *)
Theorem unix_floor_exact (time : SystemTime) :
  unix_floor time = (time / 1000000000, time mod 1000000000) /\
  (unix_floor time).1 * 1000000000 + (unix_floor time).2 = time /\ 0 <= (unix_floor time).2 < 1000000000.
Proof.
  assert (unix_floor time = (time / 1000000000, time mod 1000000000)) as E.
  { unfold unix_floor. destruct (Z.leb_spec 0 time); [done|].
    pose proof (Z.div_mod (- time) 1000000000 ltac:(lia)). pose proof (Z.mod_pos_bound (- time) 1000000000 ltac:(lia)).
    destruct (Z.eqb_spec (- time mod 1000000000) 0) as [E|E].
    - f_equal; [|symmetry; apply Z.mod_opp_l_z in E; [by rewrite Z.opp_involutive in E|lia]].
      apply (Z.div_unique _ _ _ 0); lia.
    - f_equal; [apply (Z.div_unique _ _ _ (1000000000 - - time mod 1000000000)); lia|].
      apply (Z.mod_unique _ _ (- (- time / 1000000000) - 1)); lia. }
  rewrite E. cbn. pose proof (Z.div_mod time 1000000000 ltac:(lia)). pose proof (Z.mod_pos_bound time 1000000000 ltac:(lia)). split; [done|lia].
Qed.
