(* ===== verification/Transform.v ===== *)
(** * Transforms: errors and transport checksums

    [transform.rs] and [transform/error.rs]: the errors the transforms share, the
    check that a datagram's transport checksum covers what a transform changes,
    and the repair of that checksum; with the pseudo-header checksum of
    [protocol/common/checksum.rs]. *)

From stdpp Require Import base tactics option list numbers strings.
From Stdlib Require Import ZArith Lia.
From S2P Require Import Prelude Checksum Ordered Flow Headers Frame.

(** ** Errors *)

Inductive InvalidInput : Type :=
| InvAssignmentSyntax | InvAssignmentEmptyPath | InvAssignmentPathSpace | InvAssignmentValueNotUnsigned
| InvEditSyntax | InvEditOccurrence | InvEditOccurrenceNotNumber | InvEditOccurrenceZero
| InvEditUnknownProtocol | InvEditPath | InvEditUnknownField | InvEditFieldNotUnsigned | InvEditValueWidth
| InvDuplicateEdit | InvEditTruncatedCapture | InvOverlappingEdits | InvEditOutsideTransport
| InvTransportCoverage | InvUdpLength | InvUdpLengthOverflow | InvUdpLengthExceedsPayload
| InvIpv4ChecksumPlacement | InvTransportChecksumPlacement | InvFieldRangeCaptured | InvFieldRangeWidth
| InvFragmentTruncatedCapture | InvIpv4HeaderChecksum | InvIpv4ReservedFlag | InvMtuBelowIpv4Header
| InvIpv4Identification | InvIpv4FragmentLength | InvTruncatedTcpHeader | InvTcpHeaderLength
| InvTruncatedUpperLayer | InvMtuBelowIpv6Headers | InvIpv6FirstFragment | InvIpv6Identification
| InvIpv6FragmentLength | InvMtuFragmentPayload | InvVlanTag | InvMixedAddressFamilies
| InvRewriteTruncatedCapture | InvAddressFamilyChange | InvTruncatedIcmpv6 | InvAddressMapSyntax
| InvAddressMapAddress | InvAddressMapFamilies | InvAddressMapPrefix | InvAddressMapHostBits
| InvAddressMapOverlap.

Inductive Unsupported : Type :=
| UnsChecksumOverFragment | UnsIpv4SourceRoute | UnsIpv6RoutingHeader | UnsIpv6HomeAddress
| UnsNestedEditPath | UnsEditProtocolSchema | UnsEditField | UnsEditLayerMissing | UnsEditOpaqueLayer
| UnsEditFieldLayout | UnsEditFieldWidth | UnsEditProtectedTraffic | UnsEditChecksumCoverage
| UnsTransportChecksumEnvelope | UnsTransportChecksum | UnsChecksumLayout | UnsLinkType
| UnsEthernetPayload | UnsAlreadyFragmented | UnsDontFragment | UnsIpv6PayloadLength
| UnsIpv6FragmentOrIpsec | UnsMisorderedHopByHop | UnsIpv6UpperLayer | UnsLinkEditWithoutEthernet
| UnsRewriteLinkType | UnsNetworkEditWithoutIp | UnsRawIpTrailer | UnsUpperLayerChecksum
| UnsPortEditTransport | UnsPacketRoot.

Inductive Limit : Type :=
| LimMaxFragments | LimMaxOutputBytes | LimFieldAssignments | LimVlanDepth | LimAddressMapEntries.

(** [codec::Error]: the one constructor the transport checksum raises. *)
Inductive CodecError : Type :=
| CodecInvalid (protocol message : string).

(** The errors of the decoder are not raised here and carry no payload. *)
Inductive TransformError : Type :=
| TInvalid (input : InvalidInput)
| TUnsupported (what : Unsupported)
| TLimit (field : Limit) (limit : Z)
| TLimitRange (field : Limit) (min max : Z)
| TFrame (e : FrameError)
| TDecode
| TChecksum (e : CodecError)
| THeader (e : HeaderError).

(** ** Protocol numbers ([protocol/network.rs]) *)

Definition ICMPV4 : Z := 1.
Definition IGMP : Z := 2.
Definition IPV4 : Z := 4.
Definition TCP : Z := 6.
Definition UDP : Z := 17.
Definition IPV6 : Z := 41.
Definition GRE : Z := 47.
Definition ESP : Z := 50.
Definition ICMPV6 : Z := 58.
Definition SCTP : Z := 132.

(** ** The pseudo-header checksum *)

(** [x.to_be_bytes()] of an [n]-byte integer. *)
Fixpoint be_bytes (n : nat) (x : Z) : bytes :=
  match n with
  | O => []
  | S n => be_bytes n (x / 256) ++ [x mod 256]
  end.

Definition is_ipv4 (a : IpAddr) : bool := match a with V4 _ => true | V6 _ => false end.
Definition is_ipv6 (a : IpAddr) : bool := match a with V4 _ => false | V6 _ => true end.

(** [IpAddr::octets] of either family. *)
Definition address_octets (a : IpAddr) : bytes :=
  match a with V4 x => be_bytes 4 x | V6 x => be_bytes 16 x end.

(** The length of the parts, if it is a [usize]. *)
Fixpoint parts_length (total : Z) (parts : list bytes) : option Z :=
  match parts with
  | [] => Some total
  | part :: rest => total ← checked_add usize_max total (zlen part); parts_length total rest
  end.

Definition transport_checksum_parts (name : string) (source destination : IpAddr) (protocol_number : Z)
  (parts : list bytes) : outcome CodecError Z :=
  transport_length ← ok_or (CodecInvalid name "segment length overflow") (parts_length 0 parts);
  pseudo ← match source, destination with
           | V4 _, V4 _ =>
               length ← ok_or (CodecInvalid name "IPv4 segment exceeds 65535 bytes")
                 (if transport_length <=? u16_max then Some transport_length else None);
               Ok [address_octets source; address_octets destination; [0; protocol_number]; be_bytes 2 length]
           | V6 _, V6 _ =>
               length ← ok_or (CodecInvalid name "IPv6 segment exceeds u32 length")
                 (if transport_length <=? u32_max then Some transport_length else None);
               Ok [address_octets source; address_octets destination; be_bytes 4 length; [0; 0; 0; protocol_number]]
           | _, _ => Err (CodecInvalid name "mixed IP versions in pseudo-header")
           end;
  Ok (accumulator_finish (foldl accumulator_add (foldl accumulator_add accumulator_default pseudo) parts)).

(** ** Checksum coverage *)

Definition LOOSE_SOURCE_ROUTE : Z := 131.
Definition STRICT_SOURCE_ROUTE : Z := 137.
Definition HOME_ADDRESS : Z := 201.

(** A [for] loop over options that refuses some kinds; each turn consumes a byte. *)
Fixpoint refuse_options (fuel : nat) (next : Options -> option (IpOption + HeaderError) * Options)
  (refused : Z -> bool) (what : Unsupported) (it : Options) : outcome TransformError unit :=
  match fuel with
  | O => Panic
  | S fuel =>
      match next it with
      | (None, _) => Ok tt
      | (Some (inr e), _) => Err (THeader e)
      | (Some (inl option), it') =>
          if refused (option_kind option) then Err (TUnsupported what)
          else refuse_options fuel next refused what it'
      end
  end.

Fixpoint refuse_extensions (ip : bytes) (extensions : list Ipv6Extension) : outcome TransformError unit :=
  match extensions with
  | [] => Ok tt
  | extension :: rest =>
      if ext_protocol extension =? ROUTING then Err (TUnsupported UnsIpv6RoutingHeader) else
      it ← map_err THeader (Ipv6Extension_options extension ip);
      _ ← refuse_options (Z.to_nat (zlen ip) + 2) Ipv6Options_next (fun kind => kind =? HOME_ADDRESS)
            UnsIpv6HomeAddress it;
      refuse_extensions ip rest
  end.

Definition ensure_checksum_coverage (ip : bytes) (header : IpHeader) : outcome TransformError unit :=
  if IpHeader_is_fragment header then Err (TUnsupported UnsChecksumOverFragment) else
  match header with
  | IpV4 ipv4 =>
      it ← map_err THeader (Ipv4Header_options ipv4 ip);
      refuse_options (Z.to_nat (zlen ip) + 2) Ipv4Options_next
        (fun kind => (kind =? LOOSE_SOURCE_ROUTE) || (kind =? STRICT_SOURCE_ROUTE)) UnsIpv4SourceRoute it
  | IpV6 ipv6 => refuse_extensions ip (v6_extensions ipv6)
  end.

(** The repaired segment and the value written at [field .. field + 2]. *)
Definition repair_checksum (segment : bytes) (field protocol : Z) (name : string) (addresses : IpAddr * IpAddr)
  : outcome TransformError (bytes * option Z) :=
  let '(source, destination) := addresses in
  let udp := protocol =? UDP in
  disabled ← (if udp && is_ipv4 source
              then current ← index_range segment field (field + 2); Ok (bytes_eqb current [0; 0])
              else Ok false);
  if (disabled : bool) then Ok (segment, None) else
  segment ← copy_at segment field [0; 0];
  value ← map_err TChecksum (transport_checksum_parts name source destination protocol [segment]);
  let value := if udp && (value =? 0) then 65535 else value in
  segment ← copy_at segment field (be_bytes 2 value);
  Ok (segment, Some value).
