(* ===== verification/Fragmenter.v ===== *)
(** * Fragmenting a datagram

    [transform/fragment.rs]: an IP datagram in a raw-IP or Ethernet frame is cut
    into fragments that fit an MTU. *)

From stdpp Require Import base tactics option list numbers.
From Stdlib Require Import ZArith Lia.
From S2P Require Import Prelude Checksum Ordered Flow Headers Frame Transform.

(** ** Options *)

Record FragmentOptions : Type := mkFragmentOptions {
  mtu : Z;
  fo_identification : option Z;
  max_fragments : Z;
  max_output_bytes : Z
}.

Definition FragmentOptions_default : FragmentOptions :=
  mkFragmentOptions 1500 None 1024 (256 * 1024 * 1024).

(** [root] is the protocol of the packet's first layer, if it is a built-in one. *)
Definition fragment_link_type (root : option RootProtocol) : outcome TransformError Z :=
  ok_or (TUnsupported UnsPacketRoot)
    (protocol ← root;
     match protocol with
     | EthernetRoot | Ipv4Root | Ipv6Root => for_root_protocol protocol
     | _ => None
     end).

(** ** Output frames *)

Definition unchanged (frame : Frame) (options : FragmentOptions) : outcome TransformError (list Frame) :=
  if max_output_bytes options <? zlen (frame_bytes frame)
  then Err (TLimit LimMaxOutputBytes (max_output_bytes options)) else Ok [frame].

Definition payload_count (room remaining : Z) : outcome TransformError Z :=
  let count := if remaining <=? room then remaining else room / 8 * 8 in
  if count =? 0 then Err (TInvalid InvMtuFragmentPayload) else Ok count.

(** [append]: the total retained and the frames so far are threaded through. *)
Definition append (frame : Frame) (offset : Z) (header payload : bytes) (options : FragmentOptions)
  (state : Z * list Frame) : outcome TransformError (Z * list Frame) :=
  let '(retained, output) := state in
  if max_fragments options <=? zlen output
  then Err (TLimit LimMaxFragments (max_fragments options)) else
  let length := Z.max (offset + zlen header + zlen payload) (if link_type frame =? 1 then 60 else 0) in
  retained ← ok_or (TLimit LimMaxOutputBytes (max_output_bytes options))
    (t ← checked_add usize_max retained length; if t <=? max_output_bytes options then Some t else None);
  link ← index_range (frame_bytes frame) 0 offset;
  let data := link ++ header ++ payload in
  let data := data ++ zrep (length - zlen data) 0 in
  fragment ← map_err TFrame (Frame_new None (link_type frame) data);
  Ok (retained, output ++ [mkFrame (fr_timestamp frame) (captured_length fragment) (original_length fragment)
                             (link_type fragment) (fr_interface frame) (fr_direction frame) (frame_bytes fragment)]).

(** ** IPv4 *)

(** The loop over the options, at most one per header byte. *)
Fixpoint copy_options (fuel : nat) (ip : bytes) (it : Options) (copied : bytes) : outcome TransformError bytes :=
  match fuel with
  | O => Panic
  | S fuel =>
      match Ipv4Options_next it with
      | (None, _) => Ok copied
      | (Some (inr e), _) => Err (THeader e)
      | (Some (inl option), it') =>
          copied ← (if negb (Z.land (option_kind option) 128 =? 0)
                    then data ← index_range ip (option_range option).1 (option_range option).2; Ok (copied ++ data)
                    else Ok copied);
          copy_options fuel ip it' copied
      end
  end.

(** [while copied.len() % 4 != 0 { copied.push(0) }]. *)
Fixpoint pad_word (fuel : nat) (copied : bytes) : bytes :=
  match fuel with
  | O => copied
  | S fuel => if zlen copied mod 4 =? 0 then copied else pad_word fuel (copied ++ [0])
  end.

Definition copied_options (ip : bytes) (h : Ipv4Header) : outcome TransformError bytes :=
  it ← map_err THeader (Ipv4Header_options h ip);
  copied ← copy_options (Z.to_nat (v4_header_length h) + 1) ip it [];
  Ok (pad_word 4 copied).

(** The header of the fragment at [position]. *)
Definition fragment_base4 (ip copied : bytes) (header_len position : Z) : outcome TransformError bytes :=
  if position =? 0 then index_range ip 0 header_len
  else
    fixed ← index_range ip 0 IPV4_MIN_LENGTH;
    let header := fixed ++ copied in
    copy_at header 0 [Z.lor 64 (zlen header / 4 mod 256)].

Definition fragment_header4 (header : bytes) (total id flags : Z) : outcome TransformError bytes :=
  header ← copy_at header 2 (to_be_bytes16 total);
  header ← copy_at header 4 (to_be_bytes16 id);
  header ← copy_at header 6 (to_be_bytes16 flags);
  header ← copy_at header 10 [0; 0];
  copy_at header 10 (to_be_bytes16 (checksum_parts [header])).

(** The [while position < payload.len()] loop; each turn takes a byte or more. *)
Fixpoint ipv4_loop (fuel : nat) (frame : Frame) (offset : Z) (ip copied payload : bytes)
  (header_len id flags : Z) (options : FragmentOptions) (position : Z) (state : Z * list Frame)
  : outcome TransformError (list Frame) :=
  match fuel with
  | O => Panic
  | S fuel =>
      if negb (position <? zlen payload) then Ok state.2 else
      header ← fragment_base4 ip copied header_len position;
      room ← ok_or (TInvalid InvMtuBelowIpv4Header) (checked_sub (mtu options) (zlen header));
      count ← payload_count room (zlen payload - position);
      let more := position + count <? zlen payload in
      total ← ok_or (TInvalid InvIpv4FragmentLength)
        (if zlen header + count <=? u16_max then Some (zlen header + count) else None);
      let fragment_flags :=
        Z.lor (Z.lor (Z.land flags 32768) (Z.shiftl (from_bool more) 13)) (position / 8 mod 65536) in
      header ← fragment_header4 header total id fragment_flags;
      piece ← index_range payload position (position + count);
      state ← append frame offset header piece options state;
      ipv4_loop fuel frame offset ip copied payload header_len id flags options (position + count) state
  end.

Definition fragment_ipv4 (frame : Frame) (offset : Z) (ip : bytes) (h : Ipv4Header) (options : FragmentOptions)
  : outcome TransformError (list Frame) :=
  let header_len := v4_header_length h in
  let length := v4_total_length h in
  header ← index_range ip 0 header_len;
  if negb (checksum_parts [header] =? 0) then Err (TInvalid InvIpv4HeaderChecksum) else
  if reserved_flag h then Err (TInvalid InvIpv4ReservedFlag) else
  if v4_is_fragment h then Err (TUnsupported UnsAlreadyFragmented) else
  if length <=? mtu options then unchanged frame options else
  if dont_fragment h then Err (TUnsupported UnsDontFragment) else
  if length =? header_len then Err (TInvalid InvMtuBelowIpv4Header) else
  copied ← copied_options ip h;
  id ← match fo_identification options with
       | None => Ok (v4_identification h)
       | Some id => if id <=? u16_max then Ok id else Err (TInvalid InvIpv4Identification)
       end;
  payload ← index_range ip header_len length;
  ipv4_loop (Z.to_nat (zlen payload) + 1) frame offset ip copied payload header_len id (v4_flags_and_offset h)
    options 0 (0, []).

(** ** IPv6 *)

(** The end of the unfragmentable part and the byte that announces what follows
    it. *)
Fixpoint unfragmentable (index : Z) (extensions : list Ipv6Extension) (prefix_len prefix_next : Z)
  : outcome TransformError (Z * Z) :=
  match extensions with
  | [] => Ok (prefix_len, prefix_next)
  | e :: rest =>
      if (ext_protocol e =? FRAGMENT) || (ext_protocol e =? AH) then Err (TUnsupported UnsIpv6FragmentOrIpsec)
      else if (ext_protocol e =? HOP_BY_HOP) && negb (index =? 0) then Err (TUnsupported UnsMisorderedHopByHop)
      else if (ext_protocol e =? HOP_BY_HOP) || (ext_protocol e =? ROUTING)
      then unfragmentable (index + 1) rest (ext_range e).2 (ext_range e).1
      else unfragmentable (index + 1) rest prefix_len prefix_next
  end.

Definition transport_length (ip : bytes) (next cursor : Z) : outcome TransformError Z :=
  if next =? TCP then
    value ← ok_or (TInvalid InvTruncatedTcpHeader) (zget ip (cursor + 12));
    let size := Z.shiftr value 4 * 4 in
    if size <? 20 then Err (TInvalid InvTcpHeaderLength) else Ok size
  else if (next =? UDP) || (next =? ICMPV6) then Ok 8
  else if next =? SCTP then Ok 12
  else Err (TUnsupported UnsIpv6UpperLayer).

Definition to_be_bytes32 (x : Z) : bytes :=
  [x / 16777216 mod 256; x / 65536 mod 256; x / 256 mod 256; x mod 256].

(** The per-fragment headers: the prefix, then the Fragment header. *)
Definition fragment_header6 (ip : bytes) (prefix_len prefix_next count id flags : Z)
  : outcome TransformError bytes :=
  header ← index_range ip 0 prefix_len;
  next ← index header prefix_next;
  header ← copy_at header prefix_next [FRAGMENT];
  payload_length ← ok_or (TInvalid InvIpv6FragmentLength)
    (if prefix_len - 40 + 8 + count <=? u16_max then Some (prefix_len - 40 + 8 + count) else None);
  header ← copy_at header 4 (to_be_bytes16 payload_length);
  Ok (header ++ [next; 0] ++ to_be_bytes16 flags ++ to_be_bytes32 id).

Fixpoint ipv6_loop (fuel : nat) (frame : Frame) (offset : Z) (ip payload : bytes)
  (prefix_len prefix_next room id : Z) (options : FragmentOptions) (position : Z) (state : Z * list Frame)
  : outcome TransformError (list Frame) :=
  match fuel with
  | O => Panic
  | S fuel =>
      if negb (position <? zlen payload) then Ok state.2 else
      count ← payload_count room (zlen payload - position);
      let flags := Z.lor (Z.land (position mod 65536) 65528) (from_bool (position + count <? zlen payload)) in
      header ← fragment_header6 ip prefix_len prefix_next count id flags;
      piece ← index_range payload position (position + count);
      state ← append frame offset header piece options state;
      ipv6_loop fuel frame offset ip payload prefix_len prefix_next room id options (position + count) state
  end.

Definition fragment_ipv6 (frame : Frame) (offset : Z) (ip : bytes) (h : Ipv6Header) (options : FragmentOptions)
  : outcome TransformError (list Frame) :=
  if v6_payload_length h =? 0 then Err (TUnsupported UnsIpv6PayloadLength) else
  let length := v6_datagram_length h in
  '(prefix_len, prefix_next) ← unfragmentable 0 (v6_extensions h) IPV6_LENGTH 6;
  let next := v6_upper_layer h in
  let cursor := v6_upper_layer_offset h in
  if next =? ESP then Err (TUnsupported UnsIpv6FragmentOrIpsec) else
  if length <=? mtu options then unchanged frame options else
  transport_len ← transport_length ip next cursor;
  if length <? cursor + transport_len then Err (TInvalid InvTruncatedUpperLayer) else
  room ← ok_or (TInvalid InvMtuBelowIpv6Headers) (checked_sub (mtu options) (prefix_len + 8));
  needed ← sub_u (cursor + transport_len) prefix_len;
  if room / 8 * 8 <? needed then Err (TInvalid InvIpv6FirstFragment) else
  id ← ok_or (TInvalid InvIpv6Identification) (fo_identification options);
  payload ← index_range ip prefix_len length;
  ipv6_loop (Z.to_nat (zlen payload) + 1) frame offset ip payload prefix_len prefix_next room id options 0 (0, []).

(** ** The entry point *)

Definition fragment (frame : Frame) (options : FragmentOptions) : outcome TransformError (list Frame) :=
  if max_fragments options =? 0 then Err (TLimitRange LimMaxFragments 1 8192) else
  if 8192 <? max_fragments options then Err (TLimit LimMaxFragments 8192) else
  if negb (captured_length frame =? original_length frame)
  then Err (TInvalid InvFragmentTruncatedCapture) else
  link ← map_err THeader (LinkHeader_walk (link_type frame) (frame_bytes frame));
  link ← ok_or (TUnsupported UnsLinkType) link;
  header ← map_err THeader (LinkHeader_walk_ip link (frame_bytes frame));
  header ← ok_or (TUnsupported UnsEthernetPayload) header;
  let offset := network_offset link in
  ip ← index_range (frame_bytes frame) offset (zlen (frame_bytes frame));
  match header with
  | IpV4 h => fragment_ipv4 frame offset ip h options
  | IpV6 h => fragment_ipv6 frame offset ip h options
  end.
