(* ===== verification/TcpModel.v ===== *)
(** * TCP reassembly: data model and limits

    [analysis/reassembly/tcp/model.rs], [limits.rs] and the constants of
    [tcp.rs]. *)

From stdpp Require Import base tactics option list numbers strings.
From Stdlib Require Import ZArith Lia.
From S2P Require Import Prelude Ordered Flow.

(** ** Segments and events ([model.rs]) *)

Record Segment : Type := mkSegment {
  seg_flow : ScopedFlowKey;
  seg_sequence : Z;
  seg_payload : bytes;
  seg_syn : bool;
  seg_fin : bool;
  seg_rst : bool
}.

Inductive Event : Type :=
| Data (flow : ScopedFlowKey) (sequence : Z) (data : bytes)
| Retransmission (flow : ScopedFlowKey) (sequence : Z) (count : Z)
    (conflicting : bool) (ranges : list (Z * Z))
| Gap (flow : ScopedFlowKey) (expected_sequence next_sequence : Z)
| Closed (flow : ScopedFlowKey) (reset : bool)
| Evicted (flow : ScopedFlowKey) (pending_bytes : Z).

Inductive Resource : Type :=
| FlowLimit (limit : Z)
| SegmentLimit (limit : Z)
| FlowByteLimit (limit : Z)
| AggregateByteLimit (limit : Z)
| AllocationFailed (requested : Z).

Inductive Malformed : Type :=
| ConflictingFinalSequence (existing_offset new_offset : Z)
| BeyondFinalSequence (final_offset : Z).

Inductive Error : Type :=
| ErrResource (r : Resource)
| ErrMalformed (m : Malformed).

(** ** Limits ([limits.rs]) *)

Definition DEFAULT_MAX_FLOWS : Z := 8192.
Definition DEFAULT_MAX_BYTES_PER_FLOW : Z := 1024 * 1024.
Definition DEFAULT_MAX_AGGREGATE_BYTES : Z := 256 * 1024 * 1024.
Definition DEFAULT_MAX_SEGMENTS_PER_FLOW : Z := 4096.
Definition DEFAULT_IDLE_EXPIRY : Z := 120 * 1000000000.

Definition MAX_BYTES_PER_FLOW : Z := SERIAL_HALF - 1.

Record Limits : Type := mkLimits {
  max_flows : Z;
  max_bytes_per_flow : Z;
  max_aggregate_bytes : Z;
  max_segments_per_flow : Z;
  idle_expiry : Z
}.

Definition Limits_default : Limits :=
  {| max_flows := DEFAULT_MAX_FLOWS;
     max_bytes_per_flow := DEFAULT_MAX_BYTES_PER_FLOW;
     max_aggregate_bytes := DEFAULT_MAX_AGGREGATE_BYTES;
     max_segments_per_flow := DEFAULT_MAX_SEGMENTS_PER_FLOW;
     idle_expiry := DEFAULT_IDLE_EXPIRY |}.

Inductive Field : Type :=
| MaxFlows | MaxBytesPerFlow | MaxAggregateBytes | MaxSegmentsPerFlow | IdleExpiry.

Definition Field_name (f : Field) : string :=
  match f with
  | MaxFlows => "max_flows"
  | MaxBytesPerFlow => "max_bytes_per_flow"
  | MaxAggregateBytes => "max_aggregate_bytes"
  | MaxSegmentsPerFlow => "max_segments_per_flow"
  | IdleExpiry => "idle_expiry"
  end.

(** [Limits::violation]; [clock] is the reading [SystemClock.now()] returns. *)
Definition Limits_violation (clock : Z) (limits : Limits)
  : option (Field * Z * Constraint) :=
  if MAX_BYTES_PER_FLOW <? max_bytes_per_flow limits
  then Some (MaxBytesPerFlow, max_bytes_per_flow limits, BelowSerialHalfSpace)
  else match expiry_violation clock (idle_expiry limits) with
       | Some (value, reason) => Some (IdleExpiry, value, reason)
       | None => None
       end.

(** [analysis::Error::InvalidLimit]. *)
Inductive LimitError : Type :=
| InvalidLimit (field : string) (value : Z) (reason : Constraint).

Definition Limits_validate (clock : Z) (limits : Limits) : outcome LimitError unit :=
  match Limits_violation clock limits with
  | Some (field, value, reason) => Err (InvalidLimit (Field_name field) value reason)
  | None => Ok tt
  end.

Definition flow_byte_error (limits : Limits) : Error :=
  ErrResource (FlowByteLimit (max_bytes_per_flow limits)).

Definition aggregate_byte_error (limits : Limits) : Error :=
  ErrResource (AggregateByteLimit (max_aggregate_bytes limits)).

(** ** Accounting charges ([tcp.rs], [pages.rs]) *)

Definition PENDING_SEGMENT_METADATA_CHARGE : Z := 64.
Definition TCP_FLOW_STATE_METADATA_CHARGE : Z := 256.
Definition PAGE_BYTES : Z := 4096.
Definition PAGE_CHARGE : Z := PAGE_BYTES + 64.

(** ** Allocation

    [Vec::try_reserve_exact] asks the global allocator, which may refuse any
    request and must refuse one above [isize::MAX] bytes.  An [allocator] gives
    the answer for each request one [push] makes; every theorem holds for all
    allocators. *)
Inductive alloc_site : Type :=
| AllocHistory
| AllocPage (key : Z)
| AllocOutput.

Definition allocator : Type := alloc_site -> Z -> bool.

Definition isize_max : Z := 9223372036854775807.

Definition try_reserve_exact (alloc : allocator) (site : alloc_site) (n : Z)
  : outcome Error unit :=
  if alloc site n && (n <=? isize_max) then Ok tt
  else Err (ErrResource (AllocationFailed n)).

(** What [Limits::validate] establishes, with the ranges of the field types. *)
Record limits_ok (limits : Limits) : Prop := {
  lok_flows : 0 <= max_flows limits <= u64_max;
  lok_bytes : 0 <= max_bytes_per_flow limits <= MAX_BYTES_PER_FLOW;
  lok_aggregate : 0 <= max_aggregate_bytes limits <= u64_max;
  lok_segments : 0 <= max_segments_per_flow limits <= u64_max;
  lok_expiry : 0 <= idle_expiry limits
}.
