(* ===== verification/TcpHistory.v ===== *)
(** * The emitted-history ring buffer

    [analysis/reassembly/tcp/history.rs].  The theorems show that the ring
    implements a bounded queue of bytes: [contents] of the ring after each
    operation is the queue operation on the [contents] before. *)

From stdpp Require Import base tactics option list numbers.
From Stdlib Require Import ZArith Lia.
From S2P Require Import Prelude Ordered Flow TcpModel.

(** ** The structure and its operations *)

Record History : Type := mkHistory {
  storage : bytes;
  start : Z;
  len : Z
}.

Definition history_default : History := mkHistory [] 0 0.

Definition capacity (h : History) : Z := zlen (storage h).

Definition history_new (alloc : allocator) (cap : Z) : outcome Error History :=
  _ ← try_reserve_exact alloc AllocHistory cap;
  Ok (mkHistory (zrep cap 0) 0 0).

Definition history_is_empty (h : History) : bool := len h =? 0.

Definition history_clear (h : History) : History := mkHistory (storage h) 0 0.

Definition history_wrap (h : History) (index : Z) : Z :=
  if capacity h <=? index then index - capacity h else index.

Definition drain_prefix (h : History) (count : Z) : outcome Error (bool * History) :=
  if len h <? count then Ok (false, h) else
  let len' := len h - count in
  if len' =? 0 then Ok (true, mkHistory (storage h) 0 len') else
  index ← add_u (start h) count;
  Ok (true, mkHistory (storage h) (history_wrap h index) len').

(** [slices(first..last)], the bounds already resolved. *)
Definition history_slices (h : History) (first last : Z)
  : outcome Error (bytes * bytes) :=
  _ ← assert_ ((first <=? last) && (last <=? len h));
  if first =? last then Ok ([], []) else
  index ← add_u (start h) first;
  let head := history_wrap h index in
  let length := last - first in
  room ← sub_u (capacity h) head;
  let contiguous := Z.min room length in
  one ← index_range (storage h) head (head + contiguous);
  two ← index_range (storage h) 0 (length - contiguous);
  Ok (one, two).

Definition history_extend (h : History) (data : bytes) : outcome Error History :=
  room ← sub_u (capacity h) (len h);
  _ ← assert_ (zlen data <=? room);
  if is_empty data then Ok h else
  index ← add_u (start h) (len h);
  let tail := history_wrap h index in
  space ← sub_u (capacity h) tail;
  let contiguous := Z.min space (zlen data) in
  let head := ztake contiguous data in
  let wrapped := zdrop contiguous data in
  storage1 ← copy_at (storage h) tail head;
  storage2 ← copy_at storage1 0 wrapped;
  Ok (mkHistory storage2 (start h) (len h + zlen data)).

(** ** Invariant and abstraction *)

(** [start < capacity] unless nothing is stored; [len <= capacity]; a live
    allocation is at most [isize::MAX] bytes. *)
Record history_wf (h : History) : Prop := {
  hwf_len : 0 <= len h <= capacity h;
  hwf_start : 0 <= start h;
  hwf_start_lt : start h < capacity h \/ (start h = 0 /\ len h = 0);
  hwf_alloc : capacity h <= isize_max
}.

(** The queue a ring represents: the stored bytes in stream order. *)
Definition contents (h : History) : bytes :=
  let contiguous := Z.min (capacity h - start h) (len h) in
  zslice (start h) (start h + contiguous) (storage h)
  ++ zslice 0 (len h - contiguous) (storage h).

Lemma capacity_nonneg h : 0 <= capacity h.
Proof. apply zlen_nonneg. Qed.

Lemma zget_contents h i :
  history_wf h ->
  zget (contents h) i =
  if (0 <=? i) && (i <? len h) then zget (storage h) (history_wrap h (start h + i))
  else None.
Proof.
  intros [? ? ? ?]. unfold contents, history_wrap.
  pose proof (capacity_nonneg h). fold (capacity h) in *.
  rewrite zget_app, !zget_zslice, zlen_zslice by (unfold capacity in *; lia).
  repeat case_bool; try done; f_equal; lia.
Qed.

Lemma zlen_contents h : history_wf h -> zlen (contents h) = len h.
Proof.
  intros [? ? ? ?]. unfold contents. pose proof (capacity_nonneg h).
  rewrite zlen_app, !zlen_zslice; unfold capacity in *; lia.
Qed.

Lemma contents_ext h l :
  history_wf h -> zlen l = len h ->
  (forall i, 0 <= i < len h -> zget (storage h) (history_wrap h (start h + i)) = zget l i) ->
  contents h = l.
Proof.
  intros Hwf Hl Hi. apply zget_ext. intros i ?. rewrite zget_contents by done.
  repeat case_bool; [apply Hi; lia|]. symmetry. apply zget_ge. lia.
Qed.

(** ** Operations refine the queue *)

Lemma history_default_wf : history_wf history_default.
Proof. split; change (capacity history_default) with 0; cbn; unfold isize_max; lia. Qed.

Lemma history_new_Ok alloc cap h :
  0 <= cap -> history_new alloc cap = Ok h ->
  history_wf h /\ capacity h = cap /\ contents h = [].
Proof.
  unfold history_new, try_reserve_exact. intros Hcap H.
  destruct (alloc AllocHistory cap); cbn in H; [|done].
  destruct (Z.leb_spec cap isize_max); cbn in H; [|done]. simplify_eq.
  assert (capacity (mkHistory (zrep cap 0) 0 0) = cap) as Hc.
  { unfold capacity. cbn. rewrite zlen_zrep. lia. }
  assert (history_wf (mkHistory (zrep cap 0) 0 0)) as Hwf by (split; rewrite ?Hc; cbn; lia).
  split; [done|]. split; [done|]. apply zlen_0. by rewrite zlen_contents.
Qed.

Lemma history_clear_spec h :
  history_wf h ->
  history_wf (history_clear h) /\ capacity (history_clear h) = capacity h /\
  contents (history_clear h) = [].
Proof.
  intros Hwf. pose proof (capacity_nonneg h).
  assert (history_wf (history_clear h)) as Hc.
  { destruct Hwf. split; cbn; try lia; try done. }
  split; [done|]. split; [done|]. apply zlen_0. by rewrite zlen_contents.
Qed.

Lemma drain_prefix_spec h count :
  history_wf h -> 0 <= count <= len h ->
  exists h', drain_prefix h count = Ok (true, h') /\ history_wf h' /\
    capacity h' = capacity h /\ contents h' = zdrop count (contents h).
Proof.
  intros Hwf Hc. pose proof Hwf as [? ? ? ?]. unfold drain_prefix.
  destruct (Z.ltb_spec (len h) count); [lia|].
  destruct (Z.eqb_spec (len h - count) 0).
  - eexists. split; [done|].
    assert (history_wf (mkHistory (storage h) 0 (len h - count))) as Hw.
    { split; cbn; unfold capacity in *; cbn in *; lia. }
    split; [done|]. split; [done|].
    rewrite zdrop_all by (rewrite zlen_contents; [lia|done]).
    apply zlen_0. rewrite zlen_contents by done. cbn. lia.
  - rewrite add_u_ok by (unfold isize_max, u64_max in *; lia). cbn.
    eexists. split; [done|].
    assert (history_wf (mkHistory (storage h) (history_wrap h (start h + count))
              (len h - count))) as Hw.
    { unfold history_wrap. split; cbn; unfold capacity in *; cbn in *; repeat case_bool; lia. }
    split; [done|]. split; [done|]. apply contents_ext; [done|cbn|cbn].
    + rewrite zlen_zdrop, zlen_contents by done. lia.
    + intros i Hi. rewrite zget_zdrop, zget_contents by (done || lia).
      unfold history_wrap, capacity in *. cbn in *. repeat case_bool; f_equal; lia.
Qed.

Lemma history_slices_spec h first last :
  history_wf h -> 0 <= first -> first <= last -> last <= len h ->
  exists one two, history_slices h first last = Ok (one, two) /\
    one ++ two = zslice first last (contents h).
Proof.
  intros Hwf H0 H1 H2. pose proof Hwf as [? ? ? ?]. unfold history_slices.
  rewrite !(proj2 (Z.leb_le _ _)) by lia. cbn.
  destruct (Z.eqb_spec first last) as [->|Hne].
  { eexists _, _. split; [done|]. symmetry. apply zlen_0.
    rewrite zlen_zslice; rewrite ?zlen_contents; auto; lia. }
  rewrite add_u_ok by (unfold isize_max, u64_max in *; lia). cbn.
  assert (history_wrap h (start h + first) < capacity h /\
          0 <= history_wrap h (start h + first)).
  { unfold history_wrap. case_bool. }
  rewrite sub_u_ok by lia. cbn.
  rewrite !index_range_ok by (unfold capacity in *; lia). cbn.
  eexists _, _. split; [done|].
  apply zget_ext. intros i Hi.
  rewrite zget_app, !zget_zslice, zlen_zslice, zget_contents by (unfold capacity in *; lia || done).
  unfold history_wrap in *. repeat case_bool; try done; f_equal; lia.
Qed.

Lemma history_extend_spec h data :
  history_wf h -> zlen data <= capacity h - len h ->
  exists h', history_extend h data = Ok h' /\ history_wf h' /\
    capacity h' = capacity h /\ contents h' = contents h ++ data.
Proof.
  intros Hwf Hd. pose proof Hwf as [? ? ? ?]. pose proof (zlen_nonneg data).
  unfold history_extend. rewrite sub_u_ok by lia. cbn.
  rewrite (proj2 (Z.leb_le _ _)) by lia. cbn. rewrite is_empty_zlen.
  destruct (Z.eqb_spec (zlen data) 0) as [He|Hne].
  { apply zlen_0 in He as ->. exists h. by rewrite app_nil_r. }
  rewrite add_u_ok by (unfold isize_max, u64_max in *; lia). cbn.
  set (tail := history_wrap h (start h + len h)).
  assert (0 <= tail < capacity h) as Ht.
  { unfold tail, history_wrap. case_bool. }
  rewrite sub_u_ok by lia. cbn.
  assert (forall n, 0 <= n <= zlen data -> zlen (ztake n data) = n) as Hz.
  { intros. rewrite zlen_ztake. lia. }
  set (c := Z.min (capacity h - tail) (zlen data)).
  assert (zlen (zdrop c data) = zlen data - c) as Hzd by (rewrite zlen_zdrop; lia).
  specialize (Hz c ltac:(lia)).
  assert (tail + zlen (ztake c data) <= zlen (storage h)) as Hfit1
    by (rewrite Hz; unfold capacity in *; lia).
  rewrite copy_at_ok by lia. cbn.
  set (s1 := overwrite (storage h) tail (ztake c data)).
  assert (zlen s1 = capacity h) as Hs1 by (apply zlen_overwrite; lia).
  assert (0 + zlen (zdrop c data) <= zlen s1) as Hfit2 by lia.
  rewrite copy_at_ok by lia. cbn.
  set (s2 := overwrite s1 0 (zdrop c data)).
  assert (zlen s2 = capacity h) as Hs2 by (rewrite <-Hs1; apply zlen_overwrite; lia).
  eexists. split; [done|].
  assert (history_wf (mkHistory s2 (start h) (len h + zlen data))) as Hw.
  { assert (capacity (mkHistory s2 (start h) (len h + zlen data)) = capacity h) as Hcap
      by exact Hs2.
    split; rewrite ?Hcap; cbn; lia. }
  split; [done|]. split; [done|]. apply contents_ext; [done|cbn|cbn [len start storage]].
  { rewrite zlen_app, zlen_contents by done. lia. }
  intros i Hi. unfold history_wrap at 1. unfold capacity at 1 2. cbn [storage].
  rewrite Hs2. fold (history_wrap h (start h + i)).
  rewrite zget_app, zlen_contents, zget_contents by done.
  unfold s2. rewrite zget_overwrite by lia. unfold s1. rewrite zget_overwrite by lia.
  rewrite Hz, Hzd.
  unfold tail, history_wrap in *. fold (capacity h) in *.
  repeat case_bool; rewrite ?zget_zdrop, ?zget_ztake by lia; repeat case_bool; try done;
    try (f_equal; lia).
Qed.
