(* ===== verification/TcpPages.v ===== *)
(** * Sparse payload pages

    [analysis/reassembly/tcp/pages.rs]: out-of-order payload is kept in fixed
    4096-byte pages keyed by stream offset / 4096; each page counts its live
    bytes.  A page map is described by [page_byte] (the byte stored at a stream
    offset) and [live_at] (the live count of a page); the lemmas give both for
    every operation. *)

From stdpp Require Import base tactics option list numbers gmap.
From Stdlib Require Import ZArith Lia.
From S2P Require Import Prelude Ordered Flow TcpModel.

Record Page : Type := mkPage {
  page_bytes : bytes;
  live : Z
}.

(** The half-open key interval as a list. *)
Definition page_keys (first last : Z) : list Z :=
  let first_key := first / PAGE_BYTES in
  let end_key := div_ceil last PAGE_BYTES in
  seqZ first_key ((if last <=? first then first_key else end_key) - first_key).

Definition page_allocate (alloc : allocator) (key : Z) : outcome Error Page :=
  _ ← try_reserve_exact alloc (AllocPage key) PAGE_BYTES;
  Ok (mkPage (zrep PAGE_BYTES 0) 0).

(** The (key, range-in-page) pairs [slices] visits.  [base < last] for every key
    of [page_keys], so [range.end - base] does not wrap. *)
Definition page_slices (first last : Z) : list (Z * (Z * Z)) :=
  (fun key => let base := key * PAGE_BYTES in
    (key, (saturating_sub first base, Z.min (last - base) PAGE_BYTES)))
  <$> page_keys first last.

Fixpoint equals_loop (pages : gmap Z Page) (data : bytes)
  (sl : list (Z * (Z * Z))) (copied : Z) (equal : bool) : outcome Error bool :=
  match sl with
  | [] => Ok equal
  | (key, (s, e)) :: sl' =>
      page ← expect (pages !! key);
      held ← index_range (page_bytes page) s e;
      given ← index_range data copied (copied + (e - s));
      equals_loop pages data sl' (copied + (e - s)) (equal && bytes_eqb held given)
  end.

Definition pages_equals (pages : gmap Z Page) (offset : Z) (data : bytes)
  : outcome Error bool :=
  last ← add_u offset (zlen data);
  equals_loop pages data (page_slices offset last) 0 true.

Fixpoint copy_out_loop (pages : gmap Z Page) (output : bytes)
  (sl : list (Z * (Z * Z))) (copied : Z) : outcome Error bytes :=
  match sl with
  | [] => Ok output
  | (key, (s, e)) :: sl' =>
      page ← expect (pages !! key);
      held ← index_range (page_bytes page) s e;
      output' ← copy_at output copied held;
      copy_out_loop pages output' sl' (copied + (e - s))
  end.

Definition pages_copy_out (pages : gmap Z Page) (offset : Z) (output : bytes)
  : outcome Error bytes :=
  last ← add_u offset (zlen output);
  copy_out_loop pages output (page_slices offset last) 0.

Fixpoint insert_loop (pages : gmap Z Page) (data : bytes)
  (sl : list (Z * (Z * Z))) (copied : Z) : outcome Error (gmap Z Page) :=
  match sl with
  | [] => Ok pages
  | (key, (s, e)) :: sl' =>
      page ← expect (pages !! key);
      given ← index_range data copied (copied + (e - s));
      page_bytes' ← copy_at (page_bytes page) s given;
      live' ← add_u (live page) (e - s);
      _ ← assert_ (live' <=? PAGE_BYTES);
      insert_loop (<[key := mkPage page_bytes' live']> pages) data sl' (copied + (e - s))
  end.

Definition pages_insert (pages : gmap Z Page) (offset : Z) (data : bytes)
  : outcome Error (gmap Z Page) :=
  last ← add_u offset (zlen data);
  insert_loop pages data (page_slices offset last) 0.

Fixpoint remove_loop (pages : gmap Z Page) (sl : list (Z * (Z * Z)))
  : outcome Error (gmap Z Page) :=
  match sl with
  | [] => Ok pages
  | (key, (s, e)) :: sl' =>
      page ← expect (pages !! key);
      live' ← expect (checked_sub (live page) (e - s));
      remove_loop
        (if live' =? 0 then delete key pages
         else <[key := mkPage (page_bytes page) live']> pages) sl'
  end.

Definition pages_remove (pages : gmap Z Page) (first last : Z)
  : outcome Error (gmap Z Page) :=
  remove_loop pages (page_slices first last).

(** [intervals.range(..k).next_back()] and [intervals.range(k..).next()]. *)
Definition last_before (k : Z) (intervals : list (Z * Z)) : option (Z * Z) :=
  last (filter (fun p => p.1 < k) intervals).

Definition range_from (k : Z) (intervals : list (Z * Z)) : list (Z * Z) :=
  filter (fun p => k <= p.1) intervals.

Definition pages_len (pages : gmap Z Page) : Z := Z.of_nat (size pages).

(** The closure of the filter: is the page of [key] left without a byte once
    [range] goes?  [base + PAGE_BYTES] is a [u64] addition under overflow checks,
    reached only for a held page that [before] does not cover, with an [after]. *)
Definition page_removed (pages : gmap Z Page) (before after : option Z) (key : Z)
  : outcome Error bool :=
  let base := key * PAGE_BYTES in
  if is_some (pages !! key)
     && negb (match before with Some e => base <? e | None => false end)
  then match after with
       | Some s => page_end ← add_u base PAGE_BYTES; Ok (negb (s <? page_end))
       | None => Ok true
       end
  else Ok false.

Fixpoint count_removed (pages : gmap Z Page) (before after : option Z)
  (keys : list Z) (count : Z) : outcome Error Z :=
  match keys with
  | [] => Ok count
  | key :: keys' =>
      removed ← page_removed pages before after key;
      count_removed pages before after keys' (count + from_bool removed)
  end.

Definition remaining_count (pages : gmap Z Page) (intervals : list (Z * Z))
  (first last : Z) : outcome Error Z :=
  let before := snd <$> last_before first intervals in
  let after := fst <$> head (range_from last intervals) in
  removed ← count_removed pages before after (page_keys first last) 0;
  sub_u (pages_len pages) removed.

(** ** Page arithmetic *)

Definition page_byte (pages : gmap Z Page) (off : Z) : option Z :=
  match pages !! (off / PAGE_BYTES) with
  | Some p => zget (page_bytes p) (off mod PAGE_BYTES)
  | None => None
  end.

Definition live_at (pages : gmap Z Page) (key : Z) : Z :=
  match pages !! key with Some p => live p | None => 0 end.

(** Bytes of [first, last) that lie in page [key]. *)
Definition overlap (key first last : Z) : Z :=
  Z.max 0 (Z.min last ((key + 1) * PAGE_BYTES) - Z.max first (key * PAGE_BYTES)).

Definition pages_sized (pages : gmap Z Page) : Prop :=
  map_Forall (fun _ p => zlen (page_bytes p) = PAGE_BYTES) pages.

Definition page_next (first last : Z) : Z :=
  Z.min last ((first / PAGE_BYTES + 1) * PAGE_BYTES).

Lemma page_key_bounds off :
  off / PAGE_BYTES * PAGE_BYTES <= off < (off / PAGE_BYTES + 1) * PAGE_BYTES.
Proof. unfold PAGE_BYTES. pose proof (Z.div_mod off 4096). pose proof (Z.mod_pos_bound off 4096). lia. Qed.

Lemma page_off_split off : off = off / PAGE_BYTES * PAGE_BYTES + off mod PAGE_BYTES /\
  0 <= off mod PAGE_BYTES < PAGE_BYTES.
Proof. unfold PAGE_BYTES. pose proof (Z.div_mod off 4096). pose proof (Z.mod_pos_bound off 4096). lia. Qed.

Lemma page_key_unique off k :
  k * PAGE_BYTES <= off < (k + 1) * PAGE_BYTES -> off / PAGE_BYTES = k.
Proof. pose proof (page_key_bounds off). unfold PAGE_BYTES in *. nia. Qed.

Lemma div_ceil_page last : forall k, k < div_ceil last PAGE_BYTES <-> k * PAGE_BYTES < last.
Proof.
  intros k. unfold div_ceil, PAGE_BYTES.
  pose proof (Z.div_mod (last + 4096 - 1) 4096). pose proof (Z.mod_pos_bound (last + 4096 - 1) 4096). lia.
Qed.

Lemma page_keys_in first last k :
  k ∈ page_keys first last <-> first < last /\ 0 < overlap k first last.
Proof.
  unfold page_keys. rewrite elem_of_seqZ.
  pose proof (div_ceil_page last k). pose proof (page_key_bounds first).
  unfold overlap. destruct (Z.leb_spec last first); unfold PAGE_BYTES in *; lia.
Qed.

Lemma page_keys_nodup first last : NoDup (page_keys first last).
Proof. apply NoDup_seqZ. Qed.

(** The number of pages that stay, without the overflow check: the pages of the
    range that neither the interval before nor the one after it reaches go. *)
Definition page_goes (pages : gmap Z Page) (before after : option Z) (key : Z) : bool :=
  is_some (pages !! key)
  && negb (match before with Some e => key * PAGE_BYTES <? e | None => false end)
  && negb (match after with Some s => s <? key * PAGE_BYTES + PAGE_BYTES | None => false end).

Definition remaining_pages (pages : gmap Z Page) (intervals : list (Z * Z))
  (first last : Z) : Z :=
  pages_len pages - zlen (filter
    (fun key => page_goes pages (snd <$> last_before first intervals)
                  (fst <$> head (range_from last intervals)) key)
    (page_keys first last)).

(** No interval starts in the page that ends at 2^64. *)
Definition clear_of_last_page (intervals : list (Z * Z)) : Prop :=
  Forall (fun iv => iv.1 < u64_max + 1 - PAGE_BYTES) intervals.

Lemma page_removed_spec pages before after key :
  (page_removed pages before after key = Ok (page_goes pages before after key)) \/
  (page_removed pages before after key = Panic /\
   u64_max < key * PAGE_BYTES + PAGE_BYTES /\ is_Some after).
Proof.
  unfold page_removed, page_goes. destruct (is_some _ && negb _); [|by left].
  destruct after as [s|]; [|by left].
  destruct (Z.le_gt_cases (key * PAGE_BYTES + PAGE_BYTES) u64_max) as [Hle|Hgt].
  - left. by rewrite add_u_ok.
  - right. split; [|split; [done|by eexists]].
    unfold add_u, checked_add. by rewrite (proj2 (Z.leb_gt _ _)).
Qed.

Lemma count_removed_spec pages before after keys count :
  (count_removed pages before after keys count
     = Ok (count + zlen (filter (page_goes pages before after) keys))) \/
  (count_removed pages before after keys count = Panic /\ is_Some after /\
   exists key, key ∈ keys /\ u64_max < key * PAGE_BYTES + PAGE_BYTES).
Proof.
  revert count. induction keys as [|key keys IH]; intros count; cbn [count_removed].
  { left. cbn. f_equal. unfold zlen. cbn. lia. }
  destruct (page_removed_spec pages before after key) as [->|(-> & Hov & Ha)].
  2:{ right. split; [done|]. split; [done|]. exists key. split; [by left|done]. }
  rewrite Ok_bind. destruct (IH (count + from_bool (page_goes pages before after key)))
    as [->|(-> & Ha & k & Hk & Hov)].
  - left. f_equal. rewrite filter_cons. destruct (page_goes pages before after key); cbn [from_bool].
    + rewrite decide_True, zlen_cons by done. lia.
    + rewrite decide_False by (by intros []). lia.
  - right. split; [done|]. split; [done|]. exists k. split; [by right|done].
Qed.

Lemma removed_at_most pages before after first last :
  zlen (filter (page_goes pages before after) (page_keys first last)) <= pages_len pages.
Proof.
  unfold pages_len, zlen. apply Nat2Z.inj_le. rewrite <-(size_dom pages).
  rewrite <-(size_list_to_set (C := gset Z)) by (apply NoDup_filter, page_keys_nodup).
  apply subseteq_size. intros k. rewrite elem_of_list_to_set, list_elem_of_filter, elem_of_dom.
  unfold page_goes. by destruct (pages !! k); [|intros [? _]].
Qed.

(** [remaining_count] counts the pages that stay; the overflow check can fail
    only when an interval after the range starts in the last page. *)
Lemma remaining_count_spec pages intervals first last :
  safe_when (clear_of_last_page intervals) (remaining_count pages intervals first last)
    (fun n => n = remaining_pages pages intervals first last).
Proof.
  unfold remaining_count, remaining_pages.
  set (before := snd <$> _). set (after := fst <$> _).
  destruct (count_removed_spec pages before after (page_keys first last) 0)
    as [->|(-> & [s Hs] & key & Hk & Hov)].
  - rewrite Ok_bind, sub_u_ok by apply removed_at_most. cbn. lia.
  - cbn. intros Hc. unfold after in Hs. apply fmap_Some in Hs as ([s' e] & Hh & ->).
    apply head_Some_elem_of in Hh. unfold range_from in Hh.
    apply list_elem_of_filter in Hh as [Hle Hin]. cbn in Hle.
    unfold clear_of_last_page in Hc. rewrite Forall_forall in Hc. specialize (Hc _ Hin). cbn in Hc.
    apply page_keys_in in Hk as [_ Ho]. unfold overlap, u64_max, PAGE_BYTES in *. lia.
Qed.

Lemma page_slices_nil first last : last <= first -> page_slices first last = [].
Proof.
  intros. unfold page_slices, page_keys. rewrite (proj2 (Z.leb_le _ _)) by done.
  by rewrite Z.sub_diag.
Qed.

Lemma page_slices_cons first last :
  first < last ->
  page_slices first last =
  (first / PAGE_BYTES,
    (first - first / PAGE_BYTES * PAGE_BYTES,
     page_next first last - first / PAGE_BYTES * PAGE_BYTES))
  :: page_slices (page_next first last) last.
Proof.
  intros Hlt. pose proof (page_key_bounds first) as Hb.
  set (k := first / PAGE_BYTES) in *.
  assert (k < div_ceil last PAGE_BYTES) as Hk by (apply div_ceil_page; lia).
  unfold page_slices at 1, page_keys.
  destruct (Z.leb_spec last first); [lia|]. fold k.
  rewrite seqZ_cons by lia. cbn. f_equal.
  { unfold saturating_sub, page_next. fold k. repeat f_equal; unfold PAGE_BYTES in *; lia. }
  unfold page_next. fold k.
  destruct (Z.le_gt_cases last ((k + 1) * PAGE_BYTES)).
  - rewrite Z.min_l by done. rewrite page_slices_nil by lia.
    assert (div_ceil last PAGE_BYTES = k + 1) as ->.
    { pose proof (div_ceil_page last (k + 1)). lia. }
    replace (Z.pred (k + 1 - k)) with 0 by lia. done.
  - rewrite Z.min_r by lia. unfold page_slices, page_keys.
    destruct (Z.leb_spec last ((k + 1) * PAGE_BYTES)); [lia|].
    rewrite Z.div_mul by done.
    replace (Z.pred (div_ceil last PAGE_BYTES - k)) with (div_ceil last PAGE_BYTES - (k + 1)) by lia.
    apply list_fmap_ext. intros i key Hi. apply list_elem_of_lookup_2, elem_of_seqZ in Hi.
    apply (f_equal2 pair); [done|]. apply (f_equal2 pair); [|done].
    unfold saturating_sub, PAGE_BYTES in *. lia.
Qed.

Lemma page_next_bounds first last :
  first < last -> first < page_next first last <= last.
Proof. intros. pose proof (page_key_bounds first). unfold page_next. lia. Qed.

(** Induction page by page. *)
Lemma page_ind (last : Z) (P : Z -> Prop) :
  (forall first, last <= first -> P first) ->
  (forall first, first < last -> P (page_next first last) -> P first) ->
  forall first, P first.
Proof.
  intros Hbase Hstep first.
  remember (Z.to_nat (last - first)) as n eqn:Hn. revert first Hn.
  induction n as [n IH] using lt_wf_ind. intros first ->.
  destruct (Z.le_gt_cases last first); [by apply Hbase|].
  apply Hstep; [done|]. pose proof (page_next_bounds first last).
  eapply IH; [|done]. lia.
Qed.

(** ** The loops, in terms of [page_byte] and [live_at] *)

Definition pages_cover (pages : gmap Z Page) (first last : Z) : Prop :=
  forall k, 0 < overlap k first last -> is_Some (pages !! k).

Lemma overlap_first first last : first < last -> 0 < overlap (first / PAGE_BYTES) first last.
Proof. intros. pose proof (page_key_bounds first). unfold overlap. lia. Qed.

Lemma overlap_next k first last :
  first < last ->
  overlap k first last =
  overlap k (page_next first last) last +
  (if k =? first / PAGE_BYTES then page_next first last - first else 0).
Proof.
  intros. pose proof (page_key_bounds first). unfold overlap, page_next.
  destruct (Z.eqb_spec k (first / PAGE_BYTES)) as [->|Hne]; [lia|].
  unfold PAGE_BYTES in *. lia.
Qed.

Lemma overlap_next_first first last :
  first < last -> overlap (first / PAGE_BYTES) (page_next first last) last = 0.
Proof. intros. pose proof (page_key_bounds first). unfold overlap, page_next. lia. Qed.

Lemma overlap_nonneg k first last : 0 <= overlap k first last.
Proof. unfold overlap. lia. Qed.

Lemma pages_cover_next pages first last :
  first < last -> pages_cover pages first last ->
  pages_cover pages (page_next first last) last /\ is_Some (pages !! (first / PAGE_BYTES)).
Proof.
  intros Hlt Hc. split; [|by apply Hc, overlap_first].
  intros k Hk. apply Hc. rewrite overlap_next by done.
  pose proof (page_next_bounds first last). case_bool.
Qed.

Lemma page_step_off off first last :
  first <= off < page_next first last ->
  off / PAGE_BYTES = first / PAGE_BYTES /\
  off mod PAGE_BYTES = off - first / PAGE_BYTES * PAGE_BYTES.
Proof.
  intros H. pose proof (page_key_bounds first).
  assert (off / PAGE_BYTES = first / PAGE_BYTES) as Hk.
  { apply page_key_unique. unfold page_next in H. lia. }
  split; [done|]. pose proof (page_off_split off). lia.
Qed.

(** The bytes of one page step, as a list. *)
Lemma page_step_slice pages p first last :
  first < last -> pages !! (first / PAGE_BYTES) = Some p ->
  zlen (page_bytes p) = PAGE_BYTES ->
  let base := first / PAGE_BYTES * PAGE_BYTES in
  @index_range Error _ (page_bytes p) (first - base) (page_next first last - base)
    = Ok (zslice (first - base) (page_next first last - base) (page_bytes p)) /\
  zlen (zslice (first - base) (page_next first last - base) (page_bytes p))
    = page_next first last - first /\
  forall i, 0 <= i < page_next first last - first ->
    zget (zslice (first - base) (page_next first last - base) (page_bytes p)) i
    = page_byte pages (first + i).
Proof.
  intros Hlt Hp Hl base. pose proof (page_key_bounds first). pose proof (page_next_bounds first last Hlt).
  assert (0 <= first - base /\ page_next first last - base <= PAGE_BYTES) as [].
  { unfold base, page_next, PAGE_BYTES in *. lia. }
  repeat split.
  - apply index_range_ok; lia.
  - rewrite zlen_zslice; lia.
  - intros i Hi. rewrite zget_zslice by lia. repeat case_bool.
    unfold page_byte. destruct (page_step_off (first + i) first last) as [-> ->]; [lia|].
    rewrite Hp. f_equal. lia.
Qed.

Lemma equals_loop_spec pages data last first copied equal :
  pages_sized pages -> pages_cover pages first last ->
  0 <= copied -> copied + Z.max 0 (last - first) <= zlen data ->
  exists b, equals_loop pages data (page_slices first last) copied equal = Ok b /\
  (b = true <-> equal = true /\
     forall off, first <= off < last -> page_byte pages off = zget data (copied + (off - first))).
Proof.
  intros Hs. revert copied equal. induction first as [first Hle|first Hlt IH] using (page_ind last);
    intros copied equal Hc H0 Hd.
  { rewrite page_slices_nil by done. exists equal. split; [done|]. split; [|naive_solver].
    intros ->. split; [done|]. intros. lia. }
  rewrite page_slices_cons by done. cbn [equals_loop].
  destruct (pages_cover_next _ _ _ Hlt Hc) as [Hc' [p Hp]]. rewrite Hp. cbn.
  destruct (page_step_slice _ _ _ _ Hlt Hp (Hs _ _ Hp)) as (Hir & Hzl & Hzg).
  rewrite Hir. cbn. pose proof (page_next_bounds _ _ Hlt).
  replace (page_next first last - _ - (first - _)) with (page_next first last - first) by lia.
  rewrite index_range_ok by lia. cbn.
  set (n := page_next first last) in *.
  edestruct (IH (copied + (n - first))) as (b & -> & Hb); [done|lia|lia|].
  exists b. split; [done|]. rewrite Hb, andb_true_iff, bytes_eqb_spec. split.
  - intros [[He Hx] Hrest]. split; [done|]. intros off Hoff.
    destruct (Z.lt_ge_cases off n).
    + replace off with (first + (off - first)) at 1 by lia. rewrite <-Hzg by lia.
      rewrite Hx, zget_zslice by lia. repeat case_bool; done.
    + rewrite Hrest by lia. f_equal. lia.
  - intros [He Hall]. split; [split; [done|]|].
    + apply zget_ext. intros i Hi. rewrite (zget_zslice copied) by lia.
      repeat case_bool; [|apply zget_ge; lia].
      rewrite Hzg, Hall by lia. f_equal. lia.
    + intros off Hoff. rewrite Hall by lia. f_equal. lia.
Qed.

Lemma copy_out_loop_spec pages last first output copied :
  pages_sized pages -> pages_cover pages first last ->
  0 <= copied -> copied + Z.max 0 (last - first) <= zlen output ->
  exists out, copy_out_loop pages output (page_slices first last) copied = Ok out /\
  zlen out = zlen output /\
  forall i, zget out i =
    if (copied <=? i) && (i <? copied + (last - first))
    then page_byte pages (first + (i - copied)) else zget output i.
Proof.
  intros Hs. revert output copied. induction first as [first Hle|first Hlt IH] using (page_ind last);
    intros output copied Hc H0 Hd.
  { rewrite page_slices_nil by done. exists output. split; [done|]. split; [done|].
    intros i. repeat case_bool; done. }
  rewrite page_slices_cons by done. cbn [copy_out_loop].
  destruct (pages_cover_next _ _ _ Hlt Hc) as [Hc' [p Hp]]. rewrite Hp. cbn.
  destruct (page_step_slice _ _ _ _ Hlt Hp (Hs _ _ Hp)) as (Hir & Hzl & Hzg).
  rewrite Hir. cbn. pose proof (page_next_bounds _ _ Hlt).
  replace (page_next first last - _ - (first - _)) with (page_next first last - first) by lia.
  set (n := page_next first last) in *.
  set (chunk := zslice _ _ (page_bytes p)) in *.
  rewrite copy_at_ok by lia. cbn.
  edestruct (IH (overwrite output copied chunk) (copied + (n - first)))
    as (out & -> & Hlen & Hget); [done|lia|rewrite zlen_overwrite; lia|].
  exists out. rewrite zlen_overwrite in Hlen by lia. split; [done|]. split; [done|].
  intros i. rewrite Hget, zget_overwrite by lia. rewrite Hzl.
  repeat case_bool; try done; try (f_equal; lia); rewrite Hzg by lia; f_equal; lia.
Qed.

Lemma page_byte_insert_key pages key p off :
  page_byte (<[key := p]> pages) off =
  if off / PAGE_BYTES =? key then zget (page_bytes p) (off mod PAGE_BYTES)
  else page_byte pages off.
Proof.
  unfold page_byte. destruct (Z.eqb_spec (off / PAGE_BYTES) key) as [->|].
  - by rewrite lookup_insert_eq.
  - by rewrite lookup_insert_ne.
Qed.

Lemma live_at_insert pages key p k :
  live_at (<[key := p]> pages) k = if k =? key then live p else live_at pages k.
Proof.
  unfold live_at. destruct (Z.eqb_spec k key) as [->|].
  - by rewrite lookup_insert_eq.
  - by rewrite lookup_insert_ne.
Qed.

Lemma pages_sized_insert pages key p :
  pages_sized pages -> zlen (page_bytes p) = PAGE_BYTES -> pages_sized (<[key := p]> pages).
Proof. intros. by apply map_Forall_insert_2. Qed.

Lemma insert_loop_spec pages data last first copied :
  pages_sized pages -> pages_cover pages first last ->
  0 <= copied -> copied + Z.max 0 (last - first) <= zlen data ->
  (forall k, 0 <= live_at pages k /\ live_at pages k + overlap k first last <= PAGE_BYTES) ->
  exists pages', insert_loop pages data (page_slices first last) copied = Ok pages' /\
  pages_sized pages' /\ dom pages' = dom pages /\
  (forall off, page_byte pages' off =
    if (first <=? off) && (off <? last)
    then zget data (copied + (off - first)) else page_byte pages off) /\
  (forall k, live_at pages' k = live_at pages k + overlap k first last).
Proof.
  revert pages copied. induction first as [first Hle|first Hlt IH] using (page_ind last);
    intros pages copied Hs Hc H0 Hd Hlv.
  { rewrite page_slices_nil by done. exists pages. repeat (split; [done|]). split.
    - intros off. repeat case_bool; done.
    - intros k. unfold overlap. lia. }
  rewrite page_slices_cons by done. cbn [insert_loop].
  destruct (pages_cover_next _ _ _ Hlt Hc) as [Hc' [p Hp]]. rewrite Hp. cbn.
  pose proof (Hs _ _ Hp) as Hps. cbn in Hps.
  pose proof (page_next_bounds _ _ Hlt). pose proof (page_key_bounds first).
  replace (page_next first last - _ - (first - _)) with (page_next first last - first) by lia.
  set (n := page_next first last) in *. set (key := first / PAGE_BYTES) in *.
  assert (n <= (key + 1) * PAGE_BYTES) by (unfold n, page_next; fold key; lia).
  rewrite index_range_ok by lia. cbn.
  set (chunk := zslice copied (copied + (n - first)) data).
  assert (zlen chunk = n - first) as Hch by (unfold chunk; rewrite zlen_zslice; lia).
  rewrite copy_at_ok by lia. cbn.
  assert (live_at pages key = live p) as Hlk by (unfold live_at; by rewrite Hp).
  pose proof (Hlv key) as Hlvk. rewrite overlap_next in Hlvk by done.
  fold key n in Hlvk. rewrite Z.eqb_refl in Hlvk. pose proof (overlap_nonneg key n last).
  rewrite add_u_ok by (unfold u64_max, PAGE_BYTES in *; lia). cbn.
  rewrite (proj2 (Z.leb_le _ _)) by lia. cbn.
  set (p' := mkPage (overwrite (page_bytes p) (first - key * PAGE_BYTES) chunk)
                    (live p + (n - first))).
  assert (zlen (page_bytes p') = PAGE_BYTES) as Hp' by (cbn; rewrite zlen_overwrite; lia).
  edestruct (IH (<[key := p']> pages) (copied + (n - first)))
    as (pages' & -> & Hs' & Hdom & Hby & Hli).
  - by apply pages_sized_insert.
  - intros k Hk. rewrite lookup_insert_is_Some'. right. by apply Hc'.
  - lia.
  - lia.
  - intros k. rewrite live_at_insert. cbn.
    specialize (Hlv k). rewrite overlap_next in Hlv by done. fold key n in Hlv.
    case_bool; subst; lia.
  - exists pages'. split; [done|]. split; [done|]. split.
    { rewrite Hdom, dom_insert_lookup_L; [done|by eexists]. }
    split.
    + intros off. rewrite Hby, page_byte_insert_key. cbn.
      destruct (Z.leb_spec first off), (Z.ltb_spec off n); try lia.
      * destruct (page_step_off off first last) as [-> ->]; [fold n; lia|]. fold key.
        rewrite Z.eqb_refl, zget_overwrite by lia. rewrite Hch.
        repeat case_bool. unfold chunk. rewrite zget_zslice by lia. repeat case_bool. f_equal. lia.
      * destruct (Z.eqb_spec (off / PAGE_BYTES) key) as [e|];
          repeat case_bool; try done; try (f_equal; lia).
        rewrite zget_overwrite by lia. rewrite Hch.
        pose proof (page_off_split off). repeat case_bool.
        unfold page_byte. by rewrite e, Hp.
      * destruct (Z.eqb_spec (off / PAGE_BYTES) key) as [e|];
          repeat case_bool; try done; try (f_equal; lia).
        rewrite zget_overwrite by lia. rewrite Hch.
        pose proof (page_off_split off). repeat case_bool.
        unfold page_byte. by rewrite e, Hp.
    + intros k. rewrite Hli, live_at_insert. cbn. rewrite (overlap_next k first last) by done.
      fold key n. case_bool; subst; lia.
Qed.

Lemma remove_loop_spec pages last first :
  pages_cover pages first last ->
  (forall k p, pages !! k = Some p -> 0 < live p /\ overlap k first last <= live p) ->
  exists pages', remove_loop pages (page_slices first last) = Ok pages' /\
  forall k, pages' !! k =
    match pages !! k with
    | Some p => if live p =? overlap k first last then None
                else Some (mkPage (page_bytes p) (live p - overlap k first last))
    | None => None
    end.
Proof.
  revert pages. induction first as [first Hle|first Hlt IH] using (page_ind last);
    intros pages Hc Hlv.
  { rewrite page_slices_nil by done. exists pages. split; [done|]. intros k.
    destruct (pages !! k) as [[b l]|] eqn:Hk; [|done]. specialize (Hlv _ _ Hk). cbn in *.
    replace (overlap k first last) with 0 by (unfold overlap; lia).
    case_bool. do 2 f_equal. lia. }
  rewrite page_slices_cons by done. cbn [remove_loop].
  destruct (pages_cover_next _ _ _ Hlt Hc) as [Hc' [p Hp]]. rewrite Hp. cbn.
  pose proof (page_next_bounds _ _ Hlt). pose proof (overlap_next_first _ _ Hlt) as Hof.
  replace (page_next first last - _ - (first - _)) with (page_next first last - first) by lia.
  set (n := page_next first last) in *. set (key := first / PAGE_BYTES) in *.
  pose proof (Hlv _ _ Hp) as Hlp. rewrite overlap_next in Hlp by done. fold key n in Hlp.
  rewrite Hof, Z.eqb_refl in Hlp.
  unfold checked_sub. rewrite (proj2 (Z.leb_le _ _)) by lia. cbn.
  set (pages1 := if live p - (n - first) =? 0 then _ else _).
  assert (forall k, k <> key -> pages1 !! k = pages !! k) as Hne.
  { intros k Hk. unfold pages1. case_bool; [by rewrite lookup_delete_ne|by rewrite lookup_insert_ne]. }
  edestruct (IH pages1) as (pages' & -> & Hlk).
  - intros k Hk. rewrite Hne; [by apply Hc'|]. intros ->. lia.
  - intros k q Hk. destruct (decide (k = key)) as [->|Hkk].
    + rewrite Hof. unfold pages1 in Hk. destruct (Z.eqb_spec (live p - (n - first)) 0).
      * by rewrite lookup_delete_eq in Hk.
      * rewrite lookup_insert_eq in Hk. simplify_eq. cbn. lia.
    + rewrite Hne in Hk by done. specialize (Hlv _ _ Hk). rewrite overlap_next in Hlv by done.
      fold key n in Hlv. destruct (Z.eqb_spec k key); [done|]. lia.
  - exists pages'. split; [done|]. intros k. rewrite Hlk, (overlap_next k first last) by done.
    fold key n. destruct (Z.eqb_spec k key) as [->|Hkk].
    + rewrite Hof, Hp. unfold pages1.
      destruct (Z.eqb_spec (live p - (n - first)) 0).
      * rewrite lookup_delete_eq. rewrite (proj2 (Z.eqb_eq _ _)) by lia. done.
      * rewrite lookup_insert_eq. cbn. repeat case_bool. do 2 f_equal. lia.
    + rewrite Hne by done. rewrite Z.add_0_r. done.
Qed.
