(* ===== verification/TcpState.v ===== *)
(** * Per-flow reassembly state

    [analysis/reassembly/tcp/state.rs]. *)

From stdpp Require Import base tactics option list numbers gmap.
From Stdlib Require Import ZArith Lia.
From S2P Require Import Prelude Ordered Flow TcpModel TcpHistory TcpPages.

Record TcpFlowState : Type := mkFlowState {
  base_sequence : Z;
  next_offset : Z;
  history_start_offset : Z;
  emitted_history : History;
  pending : list (Z * Z);
  flow_pages : gmap Z Page;
  pending_bytes : Z;
  fin_offset : option Z;
  last_update : Z;
  deadline : option Z
}.

Definition flow_state_new (base now : Z) (deadline : option Z) : TcpFlowState :=
  {| base_sequence := base;
     next_offset := 0;
     history_start_offset := 0;
     emitted_history := history_default;
     pending := [];
     flow_pages := ∅;
     pending_bytes := 0;
     fin_offset := None;
     last_update := now;
     deadline := deadline |}.

(** Field updates of the functions below. *)
Definition set_history (state : TcpFlowState) (history_start : Z) (h : History)
  : TcpFlowState :=
  mkFlowState (base_sequence state) (next_offset state) history_start h
    (pending state) (flow_pages state) (pending_bytes state) (fin_offset state)
    (last_update state) (deadline state).

Definition retained_bytes (state : TcpFlowState) : option Z :=
  checked_add usize_max (pending_bytes state) (len (emitted_history state)).

Definition memory_charge_parts (pending_storage_charge segment_count history_capacity : Z)
  (flow_state : bool) : option Z :=
  buffers ←
    (metadata ← checked_mul usize_max segment_count PENDING_SEGMENT_METADATA_CHARGE;
     charge ← checked_add usize_max pending_storage_charge metadata;
     checked_add usize_max charge history_capacity);
  if flow_state : bool
  then checked_add usize_max buffers TCP_FLOW_STATE_METADATA_CHARGE
  else Some buffers.

Definition flow_memory_charge (state : TcpFlowState) : option Z :=
  storage ← checked_mul usize_max (pages_len (flow_pages state)) PAGE_CHARGE;
  memory_charge_parts storage (zlen (pending state))
    (capacity (emitted_history state)) true.

Definition planned_history_allocation (current required limit : Z) : Z :=
  if required <=? current then current
  else Z.min (Z.max (saturating_mul usize_max current 2) required) limit.

Definition emitted_history_conflicts (state : TcpFlowState) (offset : Z)
  (payload : bytes) : outcome Error bool :=
  match checked_add u64_max offset (zlen payload) with
  | None => Ok true
  | Some payload_end =>
      let history_end := saturating_add u64_max (history_start_offset state)
                           (len (emitted_history state)) in
      let overlap_start := Z.max offset (history_start_offset state) in
      let overlap_end := Z.min payload_end history_end in
      if overlap_end <=? overlap_start then Ok false else
      let payload_start := saturating_sub overlap_start offset in
      let history_start := saturating_sub overlap_start (history_start_offset state) in
      let length := saturating_sub overlap_end overlap_start in
      let history_end := saturating_add usize_max history_start length in
      match get_range payload payload_start (zlen payload) ≫=
            (fun tail => get_range tail 0 length) with
      | None => Ok true
      | Some payload_overlap =>
          '(head, tail) ← history_slices (emitted_history state) history_start history_end;
          payload_head ← index_range payload_overlap 0 (zlen head);
          payload_tail ← index_range payload_overlap (zlen head) (zlen payload_overlap);
          Ok (negb (bytes_eqb head payload_head) || negb (bytes_eqb tail payload_tail))
      end
  end.

Definition trim_emitted_history (state : TcpFlowState) (capacity : Z)
  : outcome Error TcpFlowState :=
  if capacity <? len (emitted_history state) then
    let remove := saturating_sub (len (emitted_history state)) capacity in
    let history_start := saturating_add u64_max (history_start_offset state) remove in
    '(drained, h) ← drain_prefix (emitted_history state) remove;
    Ok (set_history state history_start
          (if drained : bool then h else history_clear (emitted_history state)))
  else Ok state.

Definition prepare_emitted_history (alloc : allocator) (state : TcpFlowState)
  (retained_capacity cap : Z) : outcome Error (option History) :=
  if capacity (emitted_history state) =? cap then Ok None else
  resized ← history_new alloc cap;
  let skip := saturating_sub (len (emitted_history state)) retained_capacity in
  '(head, tail) ← history_slices (emitted_history state) skip (len (emitted_history state));
  resized ← history_extend resized head;
  resized ← history_extend resized tail;
  Ok (Some resized).

Definition append_emitted_history (state : TcpFlowState) (output_start : Z)
  (output : bytes) (capacity : Z) : outcome Error TcpFlowState :=
  let output_end := saturating_add u64_max output_start (zlen output) in
  let h := emitted_history state in
  if capacity =? 0 then Ok (set_history state output_end (history_clear h)) else
  let old_end := saturating_add u64_max (history_start_offset state) (len h) in
  _ ← assert_ (history_is_empty h || (old_end =? output_start));
  let keep := Z.min (saturating_add usize_max (len h) (zlen output)) capacity in
  let history_start := saturating_sub output_end keep in
  h' ← (if negb (history_is_empty h) && (history_start <? output_start) then
          let old_start := saturating_sub history_start (history_start_offset state) in
          '(drained, h') ← drain_prefix h old_start;
          Ok (if drained : bool then h' else history_clear h)
        else Ok (history_clear h));
  let output_skip := saturating_sub history_start output_start in
  h'' ← history_extend h' (default [] (get_range output output_skip (zlen output)));
  Ok (set_history state history_start h'').
