(* ===== verification/TcpPlan.v ===== *)
(** * Planning a push

    [analysis/reassembly/tcp/pending.rs] and [pending/accounting.rs]: everything
    a segment would do to its flow is computed, and every limit checked, before
    any state changes. *)

From stdpp Require Import base tactics option list numbers gmap.
From Stdlib Require Import ZArith Lia.
From S2P Require Import Prelude Ordered Flow TcpModel TcpHistory TcpPages TcpState.

(** ** Normalising the payload *)

Record IncomingPayload : Type := mkIncoming {
  in_sequence : Z;
  in_fin_offset : option Z;
  in_payload : bytes;
  in_payload_start : Z;
  in_offset : Z;
  in_remaining_end : Z;
  in_retransmitted : Z;
  in_conflicting : bool
}.

Definition u64_try_from (x : Z) : option Z :=
  if (0 <=? x) && (x <=? u64_max) then Some x else None.

Definition validate_sequence_bounds (limits : Limits) (state : TcpFlowState)
  (offset : Z) (payload : bytes) (fin : option Z) : outcome Error Z :=
  window_end ← ok_or (flow_byte_error limits)
    (checked_add u64_max (next_offset state) (max_bytes_per_flow limits));
  remaining_end ← ok_or (flow_byte_error limits) (checked_add u64_max offset (zlen payload));
  _ ← match fin_offset state with
      | Some final_offset =>
          match fin with
          | Some new_offset =>
              if negb (new_offset =? final_offset)
              then Err (ErrMalformed (ConflictingFinalSequence final_offset new_offset))
              else if final_offset <? remaining_end
              then Err (ErrMalformed (BeyondFinalSequence final_offset)) else Ok tt
          | None =>
              if final_offset <? remaining_end
              then Err (ErrMalformed (BeyondFinalSequence final_offset)) else Ok tt
          end
      | None => Ok tt
      end;
  _ ← match fin with
      | Some final_offset =>
          if final_offset <? next_offset state
          then Err (ErrMalformed (BeyondFinalSequence final_offset)) else Ok tt
      | None => Ok tt
      end;
  if (window_end <? offset) || (window_end <? remaining_end)
  then Err (flow_byte_error limits) else Ok remaining_end.

Definition normalize_payload (limits : Limits) (state : TcpFlowState) (segment : Segment)
  : outcome Error IncomingPayload :=
  let sequence := wrapping_add32 (seg_sequence segment) (from_bool (seg_syn segment)) in
  let expected := wrapping_add32 (base_sequence state) (as_u32 (next_offset state)) in
  let delta := serial_offset sequence expected in
  let absolute := next_offset state + delta in
  let total := zlen (seg_payload segment) in
  let fin := if seg_fin segment then u64_try_from (absolute + total) else None in
  let before_base := if absolute <? 0 then Z.min (- absolute) total else 0 in
  payload ← index_range (seg_payload segment) before_base total;
  offset ← ok_or (flow_byte_error limits) (u64_try_from (Z.max absolute 0));
  '(payload, payload_start, retransmitted, conflicting, offset) ←
    (if offset <? next_offset state then
       let consumed := Z.min (saturating_sub (next_offset state) offset) (zlen payload) in
       let overlap := ztake (Z.min consumed (zlen payload)) payload in
       let rest := zdrop (Z.min consumed (zlen payload)) payload in
       let keep_alive_probe :=
         (total =? 1) && (saturating_add u64_max offset 1 =? next_offset state)
         && negb (seg_syn segment || seg_fin segment || seg_rst segment) in
       conflicting ← (if keep_alive_probe then Ok false
                      else emitted_history_conflicts state offset overlap);
       payload_start ← ok_or (flow_byte_error limits)
         (checked_add usize_max before_base consumed);
       Ok (rest, payload_start, saturating_add usize_max before_base consumed,
           conflicting, next_offset state)
     else Ok (payload, before_base, before_base, false, offset));
  remaining_end ← validate_sequence_bounds limits state offset payload fin;
  Ok {| in_sequence := sequence;
        in_fin_offset := fin;
        in_payload := payload;
        in_payload_start := payload_start;
        in_offset := offset;
        in_remaining_end := remaining_end;
        in_retransmitted := retransmitted;
        in_conflicting := conflicting |}.

(** ** Merging with the pending intervals *)

Record PendingMergePlan : Type := mkMerge {
  added_bytes : Z;
  overlapping_bytes : Z;
  overlapping_ranges : list (Z * Z);
  has_conflicting_overlap : bool;
  segment_count : Z;
  emitted_segment_bytes : Z;
  direct_output : bool;
  first_affected : option Z;
  affected_segment_count : Z;
  union_start : Z;
  union_end : Z;
  merge_offset : Z;
  merge_payload_start : Z;
  new_pages : list (Z * Page);
  merge_output : option bytes
}.

(** The plan fields the [record] closure updates. *)
Record MergeAcc : Type := mkAcc {
  acc_first : option Z;
  acc_count : Z;
  acc_start : Z;
  acc_end : Z;
  acc_overlapping : Z;
  acc_ranges : list (Z * Z);
  acc_conflict : bool
}.

(** The [record] closure.  [Err tt] is its [None]. *)
Definition record_overlap (pages : gmap Z Page) (offset payload_end : Z) (payload : bytes)
  (acc : MergeAcc) (iv : Z * Z) : outcome unit MergeAcc :=
  let '(s, e) := iv in
  if (e <? offset) || (payload_end <? s) then Ok acc else
  count ← ok_or tt (checked_add usize_max (acc_count acc) 1);
  let first := match acc_first acc with Some f => Some f | None => Some s end in
  let us := Z.min (acc_start acc) s in
  let ue := Z.max (acc_end acc) e in
  let overlap_start := Z.max s offset in
  let overlap_end := Z.min e payload_end in
  if overlap_start <? overlap_end then
    let length := overlap_end - overlap_start in
    let from := overlap_start - offset in
    overlapping ← ok_or tt (checked_add usize_max (acc_overlapping acc) length);
    held ← index_range payload from (from + length);
    equal ← map_err (fun _ => tt) (pages_equals pages overlap_start held);
    Ok (mkAcc first count us ue overlapping
          (acc_ranges acc ++ [(overlap_start, overlap_end)])
          (acc_conflict acc || negb equal))
  else Ok (mkAcc first count us ue (acc_overlapping acc) (acc_ranges acc) (acc_conflict acc)).

Fixpoint record_all (pages : gmap Z Page) (offset payload_end : Z) (payload : bytes)
  (acc : MergeAcc) (ivs : list (Z * Z)) : outcome unit MergeAcc :=
  match ivs with
  | [] => Ok acc
  | iv :: ivs' =>
      acc' ← record_overlap pages offset payload_end payload acc iv;
      record_all pages offset payload_end payload acc' ivs'
  end.

(** The intervals [record] is applied to: the last one starting before
    [offset], then those starting in [offset ..= payload_end]. *)
Definition merge_candidates (offset payload_end : Z) (existing : list (Z * Z))
  : list (Z * Z) :=
  match last_before offset existing with Some iv => [iv] | None => [] end
  ++ filter (fun iv => offset <= iv.1 <= payload_end) existing.

Definition plan_pending_merge (state : TcpFlowState) (offset : Z) (payload : bytes)
  (payload_start next : Z) : outcome unit PendingMergePlan :=
  let existing := pending state in
  payload_end ← ok_or tt (checked_add u64_max offset (zlen payload));
  if is_empty payload then
    Ok {| added_bytes := 0; overlapping_bytes := 0; overlapping_ranges := [];
          has_conflicting_overlap := false; segment_count := zlen existing;
          emitted_segment_bytes := 0; direct_output := false; first_affected := None;
          affected_segment_count := 0; union_start := offset; union_end := payload_end;
          merge_offset := offset; merge_payload_start := payload_start;
          new_pages := []; merge_output := None |}
  else
    acc ← record_all (flow_pages state) offset payload_end payload
            (mkAcc None 0 offset payload_end 0 [] false)
            (merge_candidates offset payload_end existing);
    added ← ok_or tt (checked_sub (zlen payload) (acc_overlapping acc));
    total ← ok_or tt (checked_add usize_max (zlen existing) 1);
    count ← ok_or tt (checked_sub total (acc_count acc));
    emitted ← (if offset =? next then sub_u (acc_end acc) next else Ok 0);
    Ok {| added_bytes := added;
          overlapping_bytes := acc_overlapping acc;
          overlapping_ranges := acc_ranges acc;
          has_conflicting_overlap := acc_conflict acc;
          segment_count := count;
          emitted_segment_bytes := emitted;
          direct_output := (offset =? next) && is_none (acc_first acc);
          first_affected := acc_first acc;
          affected_segment_count := acc_count acc;
          union_start := acc_start acc;
          union_end := acc_end acc;
          merge_offset := offset;
          merge_payload_start := payload_start;
          new_pages := [];
          merge_output := None |}.

(** ** Accounting ([pending/accounting.rs]) *)

Record PushAccountingPlan : Type := mkAccounting {
  acct_initial_history_capacity : Z;
  acct_history_allocation : Z;
  acct_aggregate_bytes : Z;
  acct_aggregate_memory_charge : Z
}.

Definition plan_push_accounting (limits : Limits) (state : TcpFlowState)
  (pending_bytes storage_bytes emitted_segment_bytes segment_count
   aggregate_base_bytes aggregate_base_memory_charge : Z) (retains_flow_state : bool)
  : outcome Error PushAccountingPlan :=
  let initial_history_capacity :=
    saturating_sub (max_bytes_per_flow limits) pending_bytes in
  let final_pending_bytes := saturating_sub pending_bytes emitted_segment_bytes in
  let final_pending_segments :=
    saturating_sub segment_count (from_bool (negb (emitted_segment_bytes =? 0))) in
  if max_segments_per_flow limits <? final_pending_segments
  then Err (ErrResource (SegmentLimit (max_segments_per_flow limits))) else
  let final_history_capacity :=
    saturating_sub (max_bytes_per_flow limits) final_pending_bytes in
  let prospective_history :=
    Z.min (saturating_add usize_max
             (Z.min (len (emitted_history state)) initial_history_capacity)
             emitted_segment_bytes)
          final_history_capacity in
  let history_allocation :=
    planned_history_allocation (capacity (emitted_history state))
      prospective_history final_history_capacity in
  let aggregate_error := aggregate_byte_error limits in
  prospective_retained ← ok_or aggregate_error
    (checked_add usize_max final_pending_bytes prospective_history);
  prospective_memory ← ok_or aggregate_error
    (memory_charge_parts storage_bytes final_pending_segments history_allocation
       retains_flow_state);
  prospective_aggregate_bytes ← ok_or aggregate_error
    (checked_add usize_max aggregate_base_bytes prospective_retained);
  prospective_aggregate_memory ← ok_or aggregate_error
    (checked_add usize_max aggregate_base_memory_charge prospective_memory);
  if (max_aggregate_bytes limits <? prospective_aggregate_bytes)
     || (max_aggregate_bytes limits <? prospective_aggregate_memory)
  then Err aggregate_error else
  let '(aggregate_bytes, aggregate_memory_charge) :=
    if retains_flow_state
    then (prospective_aggregate_bytes, prospective_aggregate_memory)
    else (aggregate_base_bytes, aggregate_base_memory_charge) in
  Ok {| acct_initial_history_capacity := initial_history_capacity;
        acct_history_allocation := history_allocation;
        acct_aggregate_bytes := aggregate_bytes;
        acct_aggregate_memory_charge := aggregate_memory_charge |}.

Record PlannedMerge : Type := mkPlanned {
  pm_merge : PendingMergePlan;
  pm_pending_bytes : Z;
  pm_initial_history_capacity : Z;
  pm_history_allocation : Z;
  pm_missing_pages : Z;
  pm_closed : bool;
  pm_aggregate_bytes : Z;
  pm_aggregate_memory_charge : Z
}.

Definition validate_pending_final_offset (state : TcpFlowState) (incoming : IncomingPayload)
  : outcome Error unit :=
  match in_fin_offset incoming with
  | Some final_offset =>
      if (match last (pending state) with
          | Some (_, e) => final_offset <? e
          | None => false
          end) || (final_offset <? in_remaining_end incoming)
      then Err (ErrMalformed (BeyondFinalSequence final_offset))
      else Ok tt
  | None => Ok tt
  end.

Definition plan_merge_and_accounting (limits : Limits) (state : TcpFlowState)
  (aggregate_base_bytes aggregate_base_memory_charge : Z) (segment : Segment)
  (incoming : IncomingPayload) : outcome Error PlannedMerge :=
  merge ← opt_or (flow_byte_error limits)
    (plan_pending_merge state (in_offset incoming) (in_payload incoming)
       (in_payload_start incoming) (next_offset state));
  bytes ← ok_or (flow_byte_error limits)
    (b ← checked_add usize_max (pending_bytes state) (added_bytes merge);
     if b <=? max_bytes_per_flow limits then Some b else None);
  _ ← validate_pending_final_offset state incoming;
  final_next_offset ← ok_or (flow_byte_error limits)
    (checked_add u64_max (next_offset state) (emitted_segment_bytes merge));
  let final_fin_offset := match fin_offset state with
                          | Some f => Some f | None => in_fin_offset incoming end in
  let closed := seg_rst segment ||
    (match final_fin_offset with Some o => o <=? final_next_offset | None => false end) in
  '(missing, final_page_count) ←
    (if negb (emitted_segment_bytes merge =? 0) then
       remaining ← remaining_count (flow_pages state) (pending state)
                     (union_start merge) (union_end merge);
       Ok (0, remaining)
     else
       let missing := zlen (filter (fun key => flow_pages state !! key = None)
         (page_keys (in_offset incoming) (in_remaining_end incoming))) in
       total ← ok_or (aggregate_byte_error limits)
         (checked_add usize_max (pages_len (flow_pages state)) missing);
       Ok (missing, total));
  storage_bytes ← ok_or (aggregate_byte_error limits)
    (checked_mul usize_max final_page_count PAGE_CHARGE);
  accounting ← plan_push_accounting limits state bytes storage_bytes
    (emitted_segment_bytes merge) (segment_count merge)
    aggregate_base_bytes aggregate_base_memory_charge (negb closed);
  Ok {| pm_merge := merge;
        pm_pending_bytes := bytes;
        pm_initial_history_capacity := acct_initial_history_capacity accounting;
        pm_history_allocation := acct_history_allocation accounting;
        pm_missing_pages := missing;
        pm_closed := closed;
        pm_aggregate_bytes := acct_aggregate_bytes accounting;
        pm_aggregate_memory_charge := acct_aggregate_memory_charge accounting |}.

(** ** Materialising: every allocation of a push *)

(** New zeroed pages for the uncovered keys, in key order. *)
Fixpoint allocate_missing (alloc : allocator) (pages : gmap Z Page) (keys : list Z)
  : outcome Error (list (Z * Page)) :=
  match keys with
  | [] => Ok []
  | key :: keys' =>
      match pages !! key with
      | Some _ => allocate_missing alloc pages keys'
      | None =>
          page ← page_allocate alloc key;
          rest ← allocate_missing alloc pages keys';
          Ok ((key, page) :: rest)
      end
  end.

(** Copies each interval's retained bytes over the output. *)
Fixpoint copy_intervals (pages : gmap Z Page) (origin : Z) (output : bytes)
  (ivs : list (Z * Z)) : outcome Error bytes :=
  match ivs with
  | [] => Ok output
  | (s, e) :: ivs' =>
      relative ← sub_u s origin;
      target ← index_range output relative (relative + (e - s));
      copied ← pages_copy_out pages s target;
      output' ← copy_at output relative copied;
      copy_intervals pages origin output' ivs'
  end.

Definition set_merge_storage (plan : PendingMergePlan) (pages : list (Z * Page))
  (output : option bytes) : PendingMergePlan :=
  mkMerge (added_bytes plan) (overlapping_bytes plan) (overlapping_ranges plan)
    (has_conflicting_overlap plan) (segment_count plan) (emitted_segment_bytes plan)
    (direct_output plan) (first_affected plan) (affected_segment_count plan)
    (union_start plan) (union_end plan) (merge_offset plan) (merge_payload_start plan)
    pages output.

Definition materialize_pending_merge (alloc : allocator) (state : TcpFlowState) (offset : Z)
  (payload : bytes) (plan : PendingMergePlan) : outcome Error PendingMergePlan :=
  if (added_bytes plan =? 0) || direct_output plan then Ok plan else
  if emitted_segment_bytes plan =? 0 then
    last ← add_u offset (zlen payload);
    fresh ← allocate_missing alloc (flow_pages state) (page_keys offset last);
    Ok (set_merge_storage plan fresh (merge_output plan))
  else
    _ ← try_reserve_exact alloc AllocOutput (emitted_segment_bytes plan);
    let output := zrep (emitted_segment_bytes plan) 0 in
    first ← sub_u offset (union_start plan);
    output ← copy_at output first payload;
    output ← match first_affected plan with
             | Some first =>
                 copy_intervals (flow_pages state) (union_start plan) output
                   (ztake (affected_segment_count plan) (range_from first (pending state)))
             | None => Ok output
             end;
    Ok (set_merge_storage plan (new_pages plan) (Some output)).

(** ** The plan *)

Record PushPlan : Type := mkPlan {
  payload_sequence : Z;
  incoming_fin_offset : option Z;
  retransmitted : Z;
  conflicting : bool;
  merge : PendingMergePlan;
  direct_payload : option (Z * Z);
  plan_pending_bytes : Z;
  initial_history_capacity : Z;
  history_replacement : option History;
  closed : bool;
  plan_aggregate_bytes : Z;
  plan_aggregate_memory_charge : Z
}.

Definition plan_push (alloc : allocator) (limits : Limits) (state : TcpFlowState)
  (aggregate_base_bytes aggregate_base_memory_charge transient_base_memory_charge : Z)
  (segment : Segment) : outcome Error PushPlan :=
  let aggregate_error := aggregate_byte_error limits in
  incoming ← normalize_payload limits state segment;
  planned ← plan_merge_and_accounting limits state aggregate_base_bytes
    aggregate_base_memory_charge segment incoming;
  let m := pm_merge planned in
  let history :=
    if negb (capacity (emitted_history state) =? pm_history_allocation planned)
    then pm_history_allocation planned else 0 in
  descriptors ← ok_or aggregate_error
    (checked_mul usize_max (saturating_sub (segment_count m) (zlen (pending state)))
       PENDING_SEGMENT_METADATA_CHARGE);
  missing_charge ← ok_or aggregate_error
    (checked_mul usize_max (pm_missing_pages planned) PAGE_CHARGE);
  peak ← ok_or aggregate_error
    (v ← checked_add usize_max transient_base_memory_charge missing_charge;
     v ← checked_add usize_max v (if direct_output m then 0 else emitted_segment_bytes m);
     v ← checked_add usize_max v history;
     checked_add usize_max v (if emitted_segment_bytes m =? 0 then descriptors else 0));
  if max_aggregate_bytes limits <? peak then Err aggregate_error else
  m ← materialize_pending_merge alloc state (in_offset incoming) (in_payload incoming) m;
  history_replacement ← prepare_emitted_history alloc state
    (pm_initial_history_capacity planned) (pm_history_allocation planned);
  direct_payload ←
    (if direct_output m then
       e ← ok_or (flow_byte_error limits)
         (checked_add usize_max (in_payload_start incoming) (zlen (in_payload incoming)));
       Ok (Some (in_payload_start incoming, e))
     else Ok None);
  Ok {| payload_sequence := in_sequence incoming;
        incoming_fin_offset := in_fin_offset incoming;
        retransmitted := in_retransmitted incoming;
        conflicting := in_conflicting incoming;
        merge := m;
        direct_payload := direct_payload;
        plan_pending_bytes := pm_pending_bytes planned;
        initial_history_capacity := pm_initial_history_capacity planned;
        history_replacement := history_replacement;
        closed := pm_closed planned;
        plan_aggregate_bytes := pm_aggregate_bytes planned;
        plan_aggregate_memory_charge := pm_aggregate_memory_charge planned |}.
