(* ===== verification/TcpCommit.v ===== *)
(** * Committing a planned push, and the reassembler

    [analysis/reassembly/tcp/pending/commit.rs], [engine.rs] and the
    [Reassembler] of [tcp.rs]. *)

From stdpp Require Import base tactics option list numbers gmap.
From Stdlib Require Import ZArith Lia.
From S2P Require Import Prelude Ordered Flow Frame TcpModel TcpHistory TcpPages TcpState TcpPlan.

(** ** Committing to one flow *)

(** The loop that adds the prepared pages. *)
Fixpoint add_new_pages (pages : gmap Z Page) (fresh : list (Z * Page))
  : outcome Error (gmap Z Page) :=
  match fresh with
  | [] => Ok pages
  | (key, page) :: fresh' =>
      _ ← assert_ (is_none (pages !! key));
      add_new_pages (<[key := page]> pages) fresh'
  end.

(** The loop that stores the payload bytes the affected intervals lack; returns
    the pages and the final cursor. *)
Fixpoint fill_gaps (pages : gmap Z Page) (payload : bytes) (offset payload_end cursor : Z)
  (ivs : list (Z * Z)) : outcome Error (gmap Z Page * Z) :=
  match ivs with
  | [] => Ok (pages, cursor)
  | (s, e) :: ivs' =>
      let stop := Z.min s payload_end in
      pages' ← (if cursor <? stop then
                  chunk ← index_range payload (cursor - offset) (stop - offset);
                  pages_insert pages cursor chunk
                else Ok pages);
      fill_gaps pages' payload offset payload_end (Z.min (Z.max cursor e) payload_end) ivs'
  end.

(** The loop that removes the affected intervals, and, when they are emitted,
    their pages. *)
Fixpoint remove_affected (ivs : list (Z * Z)) (pages : gmap Z Page) (first : Z)
  (emitted : bool) (count : nat) : outcome Error (list (Z * Z) * gmap Z Page) :=
  match count with
  | O => Ok (ivs, pages)
  | S count' =>
      '(s, _) ← expect (head (range_from first ivs));
      e ← expect (bt_get s ivs);
      let ivs' := bt_remove s ivs in
      pages' ← (if emitted : bool then pages_remove pages s e else Ok pages);
      remove_affected ivs' pages' first emitted count'
  end.

Definition set_storage (state : TcpFlowState) (ivs : list (Z * Z)) (pages : gmap Z Page)
  : TcpFlowState :=
  mkFlowState (base_sequence state) (next_offset state) (history_start_offset state)
    (emitted_history state) ivs pages (pending_bytes state) (fin_offset state)
    (last_update state) (deadline state).

Definition apply_pending_merge (state : TcpFlowState) (plan : PendingMergePlan)
  (payload : bytes) : outcome Error (TcpFlowState * option bytes) :=
  if (added_bytes plan =? 0) || direct_output plan then Ok (state, merge_output plan) else
  let offset := merge_offset plan in
  let emitted := negb (emitted_segment_bytes plan =? 0) in
  pages ←
    (if emitted then Ok (flow_pages state) else
       pages ← add_new_pages (flow_pages state) (new_pages plan);
       payload ← index_range payload (merge_payload_start plan) (zlen payload);
       payload_end ← add_u offset (zlen payload);
       '(pages, cursor) ←
         (match first_affected plan with
          | Some first =>
              fill_gaps pages payload offset payload_end offset
                (ztake (affected_segment_count plan) (range_from first (pending state)))
          | None => Ok (pages, offset)
          end);
       if cursor <? payload_end then
         chunk ← index_range payload (cursor - offset) (zlen payload);
         pages_insert pages cursor chunk
       else Ok pages);
  '(ivs, pages) ←
    (match first_affected plan with
     | Some first =>
         remove_affected (pending state) pages first emitted
           (Z.to_nat (affected_segment_count plan))
     | None => Ok (pending state, pages)
     end);
  ivs ←
    (if emitted then Ok ivs else
       _ ← assert_ (is_none (bt_get (union_start plan) ivs));
       Ok (bt_insert (union_start plan) (union_end plan) ivs));
  expected ← sub_u (segment_count plan) (from_bool emitted);
  _ ← assert_ (zlen ivs =? expected);
  Ok (set_storage state ivs pages, merge_output plan).

Definition emit_data (state : TcpFlowState) (flow : ScopedFlowKey) (data : bytes)
  (max_bytes : Z) : outcome Error (TcpFlowState * Event) :=
  let sequence := wrapping_add32 (base_sequence state) (as_u32 (next_offset state)) in
  let output_start := next_offset state in
  next ← expect (checked_add u64_max (next_offset state) (zlen data));
  let state :=
    mkFlowState (base_sequence state) next (history_start_offset state)
      (emitted_history state) (pending state) (flow_pages state) (pending_bytes state)
      (fin_offset state) (last_update state) (deadline state) in
  let history_capacity := saturating_sub max_bytes (pending_bytes state) in
  state ← append_emitted_history state output_start data history_capacity;
  Ok (state, Data flow sequence data).

Definition set_pending_bytes (state : TcpFlowState) (n : Z) : TcpFlowState :=
  mkFlowState (base_sequence state) (next_offset state) (history_start_offset state)
    (emitted_history state) (pending state) (flow_pages state) n (fin_offset state)
    (last_update state) (deadline state).

Definition commit_flow_push (state : TcpFlowState) (flow : ScopedFlowKey) (now : Z)
  (max_bytes : Z) (plan : PushPlan) (direct : option bytes) (incoming_payload : bytes)
  : outcome Error (TcpFlowState * list Event) :=
  let m := merge plan in
  let sequence := payload_sequence plan in
  let ranges :=
    (if negb (retransmitted plan =? 0)
     then [(sequence, wrapping_add32 sequence (as_u32 (retransmitted plan)))] else [])
    ++ ((fun r => (wrapping_add32 (base_sequence state) (as_u32 r.1),
                   wrapping_add32 (base_sequence state) (as_u32 r.2)))
        <$> overlapping_ranges m) in
  let repeated := saturating_add usize_max (retransmitted plan) (overlapping_bytes m) in
  let conflict := conflicting plan || has_conflicting_overlap m in
  let state :=
    mkFlowState (base_sequence state) (next_offset state) (history_start_offset state)
      (emitted_history state) (pending state) (flow_pages state) (pending_bytes state)
      (fin_offset state) (Z.max (last_update state) now) (deadline state) in
  state ← trim_emitted_history state (initial_history_capacity plan);
  let state := match history_replacement plan with
               | Some h => set_history state (history_start_offset state) h
               | None => state
               end in
  '(state, output) ← apply_pending_merge state m incoming_payload;
  let state :=
    mkFlowState (base_sequence state) (next_offset state) (history_start_offset state)
      (emitted_history state) (pending state) (flow_pages state) (plan_pending_bytes plan)
      (match fin_offset state with Some f => Some f | None => incoming_fin_offset plan end)
      (last_update state) (deadline state) in
  let events :=
    if negb (repeated =? 0) || conflict
    then [Retransmission flow sequence repeated conflict ranges] else [] in
  '(state, events) ←
    (match direct with
     | Some data =>
         let state := set_pending_bytes state
                        (saturating_sub (pending_bytes state) (zlen data)) in
         '(state, event) ← emit_data state flow data max_bytes;
         Ok (state, events ++ [event])
     | None => Ok (state, events)
     end);
  match output with
  | Some data =>
      left ← expect (checked_sub (pending_bytes state) (zlen data));
      '(state, event) ← emit_data (set_pending_bytes state left) flow data max_bytes;
      Ok (state, events ++ [event])
  | None => Ok (state, events)
  end.

(** ** The reassembler ([tcp.rs], [engine.rs]) *)

Record Reassembler : Type := mkReassembler {
  limits : Limits;
  flows : gmap ScopedFlowKey TcpFlowState;
  expiry : ExpiryIndex ScopedFlowKey;
  aggregate_bytes : Z;
  aggregate_memory_charge : Z
}.

Definition reassembler_new (clock : Z) (l : Limits) : outcome LimitError Reassembler :=
  _ ← Limits_validate clock l;
  Ok (mkReassembler l ∅ expiry_default 0 0).

Definition set_deadline (state : TcpFlowState) (d : option Z) : TcpFlowState :=
  mkFlowState (base_sequence state) (next_offset state) (history_start_offset state)
    (emitted_history state) (pending state) (flow_pages state) (pending_bytes state)
    (fin_offset state) (last_update state) d.

Definition commit_push (r : Reassembler) (segment : Segment) (now : Z)
  (changes_generation : bool) (plan : PushPlan)
  : outcome Error (Reassembler * list Event) :=
  let first_payload_sequence :=
    wrapping_add32 (seg_sequence segment) (from_bool (seg_syn segment)) in
  let max_bytes := max_bytes_per_flow (limits r) in
  let flow := seg_flow segment in
  let previous := flows r !! flow in
  let previous_deadline := previous ≫= deadline in
  let updated := match previous with
                 | Some state => Z.max (last_update state) now | None => now end in
  let new_deadline := instant_checked_add updated (idle_expiry (limits r)) in
  let direct := direct_payload plan ≫=
    (fun range => checked_slice (seg_payload segment) range.1 range.2) in
  '(flows, replacement, events) ←
    (if changes_generation : bool then
       let state := flow_state_new first_payload_sequence updated new_deadline in
       '(state, events) ← commit_flow_push state flow now max_bytes plan direct
                            (seg_payload segment);
       Ok (flows r, Some state, events)
     else
       state ← expect (flows r !! flow);
       '(state, events) ← commit_flow_push state flow now max_bytes plan direct
                            (seg_payload segment);
       Ok (<[flow := set_deadline state new_deadline]> (flows r), None, events));
  if closed plan then
    Ok (mkReassembler (limits r) (delete flow flows)
          (expiry_remove previous_deadline flow (expiry r))
          (plan_aggregate_bytes plan) (plan_aggregate_memory_charge plan),
        events ++ [Closed flow (seg_rst segment)])
  else
    let flows := match replacement with
                 | Some state => <[flow := state]> flows | None => flows end in
    let expiry :=
      if bool_decide (previous_deadline = new_deadline) then expiry r
      else expiry_insert new_deadline flow
             (expiry_remove previous_deadline flow (expiry r)) in
    Ok (mkReassembler (limits r) flows expiry
          (plan_aggregate_bytes plan) (plan_aggregate_memory_charge plan), events).

Definition aggregates_without (r : Reassembler) (existing : option TcpFlowState)
  : outcome Error (Z * Z) :=
  let error := aggregate_byte_error (limits r) in
  old_retained ← ok_or error (match existing with Some s => retained_bytes s | None => Some 0 end);
  old_charge ← ok_or error (match existing with Some s => flow_memory_charge s | None => Some 0 end);
  bytes ← ok_or error (checked_sub (aggregate_bytes r) old_retained);
  charge ← ok_or error (checked_sub (aggregate_memory_charge r) old_charge);
  Ok (bytes, charge).

(** On [Err] the caller keeps [r]: [push] has not changed it. *)
Definition push (alloc : allocator) (r : Reassembler) (segment : Segment) (now : Z)
  : outcome Error (Reassembler * list Event) :=
  let existing := flows r !! seg_flow segment in
  if is_empty (seg_payload segment) && negb (seg_syn segment) && negb (seg_fin segment)
     && negb (seg_rst segment) && is_none existing
  then Ok (r, []) else
  let first_payload_sequence :=
    wrapping_add32 (seg_sequence segment) (from_bool (seg_syn segment)) in
  let changes_generation :=
    (seg_syn segment || is_none existing) &&
    (match existing with
     | Some state => negb (base_sequence state =? first_payload_sequence)
     | None => true
     end) in
  if changes_generation &&
     (max_flows (limits r) <=?
        saturating_sub (Z.of_nat (size (flows r))) (from_bool (is_some existing)))
  then Err (ErrResource (FlowLimit (max_flows (limits r)))) else
  '(base_bytes, base_charge) ← aggregates_without r existing;
  let empty := flow_state_new first_payload_sequence now
                 (instant_checked_add now (idle_expiry (limits r))) in
  state ← (if changes_generation then Ok empty else expect existing);
  plan ← plan_push alloc (limits r) state base_bytes base_charge
           (aggregate_memory_charge r) segment;
  commit_push r segment now changes_generation plan.

(** [keys.sort()]. *)
Fixpoint insert_key (k : ScopedFlowKey) (keys : list ScopedFlowKey) : list ScopedFlowKey :=
  match keys with
  | [] => [k]
  | k' :: keys' =>
      match cmp k k' with Gt => k' :: insert_key k keys' | _ => k :: keys end
  end.

Definition sort_keys (keys : list ScopedFlowKey) : list ScopedFlowKey :=
  foldr insert_key [] keys.

(** One iteration of [remove_flows]. *)
Definition remove_flow (r : Reassembler) (key : ScopedFlowKey) : Reassembler * list Event :=
  match flows r !! key with
  | None => (r, [])
  | Some state =>
      let gap :=
        match head (pending state) with
        | Some (next, _) =>
            if next_offset state <? next
            then [Gap key (wrapping_add32 (base_sequence state) (as_u32 (next_offset state)))
                    (wrapping_add32 (base_sequence state) (as_u32 next))]
            else []
        | None => []
        end in
      (mkReassembler (limits r) (delete key (flows r))
         (expiry_remove (deadline state) key (expiry r))
         (saturating_sub (aggregate_bytes r) (default 0 (retained_bytes state)))
         (saturating_sub (aggregate_memory_charge r) (default 0 (flow_memory_charge state))),
       gap ++ [Evicted key (pending_bytes state)])
  end.

Fixpoint remove_sorted (r : Reassembler) (keys : list ScopedFlowKey)
  : Reassembler * list Event :=
  match keys with
  | [] => (r, [])
  | key :: keys' =>
      let '(r1, events1) := remove_flow r key in
      let '(r2, events2) := remove_sorted r1 keys' in
      (r2, events1 ++ events2)
  end.

Definition remove_flows (r : Reassembler) (keys : list ScopedFlowKey)
  : Reassembler * list Event :=
  remove_sorted r (sort_keys keys).

Definition expire (r : Reassembler) (now : Z) : Reassembler * list Event :=
  let '(keys, entries) := take_expired now (expiry r) in
  remove_flows (mkReassembler (limits r) (flows r) entries (aggregate_bytes r)
                  (aggregate_memory_charge r)) keys.

Definition flush (r : Reassembler) : Reassembler * list Event :=
  remove_flows r (map_to_list (flows r)).*1.

Definition evict_flow (r : Reassembler) (flow : ScopedFlowKey) : Reassembler * list Event :=
  remove_flows r [flow].

Definition flow_count (r : Reassembler) : Z := Z.of_nat (size (flows r)).

Definition flow_base_sequence (r : Reassembler) (flow : ScopedFlowKey) : option Z :=
  base_sequence <$> flows r !! flow.

Definition flow_next_sequence (r : Reassembler) (flow : ScopedFlowKey) : option Z :=
  (fun state => wrapping_add32 (base_sequence state) (as_u32 (next_offset state)))
    <$> flows r !! flow.

Definition flow_observed_payload (r : Reassembler) (flow : ScopedFlowKey) : bool :=
  match flows r !! flow with
  | Some state =>
      (0 <? next_offset state) || negb (is_empty (pending state))
      || is_some (fin_offset state)
  | None => false
  end.
