(* ===== verification/TcpIntervals.v ===== *)
(** * Pending intervals and their pages

    Facts about the sorted, separated interval list [pending] keeps, how an
    incoming range [offset, pend) splits it into the intervals before, affected
    and after, and how the page map follows the intervals. *)

From stdpp Require Import base tactics option list numbers gmap sorting.
From Stdlib Require Import ZArith Lia.
From S2P Require Import Prelude Ordered Flow TcpModel TcpHistory TcpPages TcpState TcpPlan TcpCommit.

(** ** Well-formed interval lists *)

(** Non-empty, in order, and never touching: each starts strictly after the end
    of the one before (after [lo] for the first). *)
Fixpoint ivs_wf (lo : Z) (l : list (Z * Z)) : Prop :=
  match l with
  | [] => True
  | (s, e) :: l' => lo < s /\ s < e /\ ivs_wf e l'
  end.

Fixpoint ivs_end (lo : Z) (l : list (Z * Z)) : Z :=
  match l with [] => lo | (_, e) :: l' => ivs_end e l' end.

(** The offsets an interval list holds. *)
Definition held (l : list (Z * Z)) (off : Z) : Prop :=
  Exists (fun iv => iv.1 <= off < iv.2) l.

#[export] Instance held_dec l off : Decision (held l off).
Proof. unfold held. apply _. Defined.

(** Bytes of page [k] the intervals cover, and their total length. *)
Fixpoint cover (k : Z) (l : list (Z * Z)) : Z :=
  match l with [] => 0 | (s, e) :: l' => overlap k s e + cover k l' end.

Fixpoint ivs_bytes (l : list (Z * Z)) : Z :=
  match l with [] => 0 | (s, e) :: l' => e - s + ivs_bytes l' end.

Lemma ivs_wf_app lo l k : ivs_wf lo (l ++ k) <-> ivs_wf lo l /\ ivs_wf (ivs_end lo l) k.
Proof.
  revert lo. induction l as [|[s e] l IH]; intros lo; cbn; [naive_solver|].
  rewrite IH. naive_solver.
Qed.

Lemma ivs_end_app lo l k : ivs_end lo (l ++ k) = ivs_end (ivs_end lo l) k.
Proof. revert lo. induction l as [|[s e] l IH]; intros; cbn; [done|apply IH]. Qed.

Lemma ivs_end_ge lo l : ivs_wf lo l -> lo <= ivs_end lo l.
Proof.
  revert lo. induction l as [|[s e] l IH]; cbn; intros lo H; [lia|].
  destruct H as (? & ? & H). specialize (IH _ H). lia.
Qed.

Lemma ivs_wf_weaken lo lo' l : lo' <= lo -> ivs_wf lo l -> ivs_wf lo' l.
Proof. destruct l as [|[s e] l]; cbn; intros; [done|]. naive_solver lia. Qed.

Lemma ivs_wf_raise lo lo' l :
  ivs_wf lo l -> Forall (fun iv => lo' < iv.1) l -> ivs_wf lo' l.
Proof.
  destruct l as [|[s e] l]; cbn; intros H F; [done|].
  apply Forall_cons in F as [? _]. cbn in *. naive_solver.
Qed.

Lemma ivs_wf_bounds lo l iv :
  ivs_wf lo l -> iv ∈ l -> lo < iv.1 /\ iv.1 < iv.2 /\ iv.2 <= ivs_end lo l.
Proof.
  revert lo. induction l as [|[s e] l IH]; intros lo H Hin; [set_solver|].
  cbn in H. destruct H as (? & ? & H). pose proof (ivs_end_ge _ _ H). cbn.
  apply elem_of_cons in Hin as [->|Hin]; cbn; [lia|].
  specialize (IH _ H Hin). lia.
Qed.

Lemma ivs_wf_Forall lo l :
  ivs_wf lo l -> Forall (fun iv => lo < iv.1 /\ iv.1 < iv.2 /\ iv.2 <= ivs_end lo l) l.
Proof. intros H. apply Forall_forall. intros. by apply ivs_wf_bounds. Qed.

Lemma cover_app k l1 l2 : cover k (l1 ++ l2) = cover k l1 + cover k l2.
Proof. induction l1 as [|[s e] l1 IH]; cbn; [done|]. rewrite IH. lia. Qed.

Lemma ivs_bytes_app l1 l2 : ivs_bytes (l1 ++ l2) = ivs_bytes l1 + ivs_bytes l2.
Proof. induction l1 as [|[s e] l1 IH]; cbn; [done|]. rewrite IH. lia. Qed.

Lemma held_app l1 l2 off : held (l1 ++ l2) off <-> held l1 off \/ held l2 off.
Proof. apply Exists_app. Qed.

Lemma held_cons s e l off : held ((s, e) :: l) off <-> (s <= off < e) \/ held l off.
Proof. apply Exists_cons. Qed.

Lemma held_nil off : ~ held [] off.
Proof. intros H%Exists_nil. done. Qed.

Lemma cover_nonneg k l : 0 <= cover k l.
Proof.
  induction l as [|[s e] l IH]; cbn; [lia|]. pose proof (overlap_nonneg k s e). lia.
Qed.

Lemma ivs_bytes_nonneg lo l : ivs_wf lo l -> 0 <= ivs_bytes l.
Proof.
  revert lo. induction l as [|[s e] l IH]; cbn; intros lo H; [lia|].
  destruct H as (? & ? & H). specialize (IH _ H). lia.
Qed.

(** Disjoint intervals never cover more than the page. *)
Lemma cover_le lo l k :
  ivs_wf lo l -> cover k l <= Z.max 0 ((k + 1) * PAGE_BYTES - Z.max lo (k * PAGE_BYTES)).
Proof.
  revert lo. induction l as [|[s e] l IH]; cbn; intros lo H; [lia|].
  destruct H as (? & ? & H). specialize (IH _ H). unfold overlap. lia.
Qed.

Lemma cover_le_page lo l k : ivs_wf lo l -> cover k l <= PAGE_BYTES.
Proof. intros H. pose proof (cover_le lo l k H). unfold PAGE_BYTES in *. lia. Qed.

(** A held offset is covered. *)
Lemma held_cover l off : held l off -> 0 < cover (off / PAGE_BYTES) l.
Proof.
  induction l as [|[s e] l IH]; [by intros ?%held_nil|].
  rewrite held_cons. cbn. pose proof (cover_nonneg (off / PAGE_BYTES) l).
  pose proof (overlap_nonneg (off / PAGE_BYTES) s e).
  intros [?|?%IH]; [|lia]. pose proof (page_key_bounds off). unfold overlap. lia.
Qed.

(** No interval reaches a page that starts at or after every end, or ends at or
    before every start. *)
Lemma cover_zero_right lo l k : ivs_wf lo l -> (k + 1) * PAGE_BYTES <= lo + 1 -> cover k l = 0.
Proof.
  intros H Hk. revert lo H Hk. induction l as [|[s e] l IH]; cbn; intros lo H Hk; [done|].
  destruct H as (? & ? & H).
  assert (overlap k s e = 0) as -> by (unfold overlap; lia).
  rewrite (IH e) by (done || lia). done.
Qed.

(** ** Splitting at an incoming range *)

Record ivs_split (offset pend : Z) (l b a c : list (Z * Z)) : Prop := {
  sp_eq : l = b ++ a ++ c;
  sp_before : Forall (fun iv => iv.2 < offset) b;
  sp_affected : Forall (fun iv => offset <= iv.2 /\ iv.1 <= pend) a;
  sp_after : Forall (fun iv => pend < iv.1) c
}.

Lemma ivs_split_exists offset pend lo l :
  ivs_wf lo l -> exists b a c, ivs_split offset pend l b a c.
Proof.
  revert lo. induction l as [|[s e] l IH]; intros lo H.
  { exists [], [], []. split; auto. }
  cbn in H. destruct H as (? & ? & H).
  destruct (Z.lt_ge_cases e offset).
  { destruct (IH _ H) as (b & a & c & [-> ? ? ?]).
    exists ((s, e) :: b), a, c. split; auto. }
  destruct (Z.lt_ge_cases pend s).
  { exists [], [], ((s, e) :: l). split; auto. constructor; [done|].
    apply Forall_forall. intros iv Hin. pose proof (ivs_wf_bounds _ _ _ H Hin). lia. }
  destruct (IH _ H) as (b & a & c & [-> Hb ? ?]).
  exists [], ((s, e) :: a), c.
  assert (b = []) as ->.
  { destruct b as [|[s' e'] b]; [done|]. apply Forall_cons in Hb as [Hb _]. cbn in *. lia. }
  split; auto.
Qed.

(** ** Recording the overlaps *)

Definition touches (offset pend : Z) (iv : Z * Z) : Prop := offset <= iv.2 /\ iv.1 <= pend.

#[export] Instance touches_dec offset pend iv : Decision (touches offset pend iv).
Proof. unfold touches. apply _. Defined.

Lemma record_all_touches pages offset pend payload acc ivs :
  record_all pages offset pend payload acc ivs =
  record_all pages offset pend payload acc (filter (touches offset pend) ivs).
Proof.
  revert acc. induction ivs as [|[s e] ivs IH]; intros acc; [done|].
  rewrite filter_cons. case_decide as Ht; unfold touches in Ht; cbn in Ht.
  - cbn [record_all]. destruct (record_overlap _ _ _ _ acc (s, e)); cbn; [apply IH|done|done].
  - cbn [record_all]. unfold record_overlap at 1.
    assert (((e <? offset) || (pend <? s)) = true) as -> by (repeat case_bool; done).
    cbn. apply IH.
Qed.

Lemma filter_none {A} (P : A -> Prop) `{!forall x, Decision (P x)} l :
  Forall (fun x => ~ P x) l -> filter P l = [].
Proof. induction 1; [done|]. by rewrite filter_cons_False. Qed.

Lemma filter_redundant {A} (P Q : A -> Prop)
  `{!forall x, Decision (P x), !forall x, Decision (Q x)} l :
  Forall (fun x => P x -> Q x) l -> filter P (filter Q l) = filter P l.
Proof.
  induction 1 as [|x l Hx _ IH]; [done|].
  rewrite (filter_cons Q), (filter_cons P). case_decide as HQ.
  - rewrite filter_cons. case_decide; by rewrite IH.
  - rewrite decide_False by naive_solver. done.
Qed.

(** Splitting by start. *)
Lemma ivs_split_start k lo l :
  ivs_wf lo l -> exists l1 l2, l = l1 ++ l2 /\
    Forall (fun iv => iv.1 < k) l1 /\ Forall (fun iv => k <= iv.1) l2.
Proof.
  revert lo. induction l as [|[s e] l IH]; intros lo H; [by exists [], []|].
  cbn in H. destruct H as (? & ? & H).
  destruct (Z.lt_ge_cases s k).
  - destruct (IH _ H) as (l1 & l2 & -> & ? & ?). exists ((s, e) :: l1), l2. auto.
  - exists [], ((s, e) :: l). repeat split; auto. constructor; [done|].
    apply Forall_forall. intros iv Hin. pose proof (ivs_wf_bounds _ _ _ H Hin). lia.
Qed.

(** The intervals the plan visits are, of those that touch the range, all. *)
Lemma merge_candidates_touches offset pend lo l :
  ivs_wf lo l -> offset <= pend ->
  filter (touches offset pend) (merge_candidates offset pend l)
  = filter (touches offset pend) l.
Proof.
  intros Hwf Hle. destruct (ivs_split_start offset lo l Hwf) as (l1 & l2 & -> & H1 & H2).
  apply ivs_wf_app in Hwf as [Hw1 Hw2].
  unfold merge_candidates, last_before. rewrite !filter_app.
  rewrite (filter_all (fun p => p.1 < offset) l1) by done.
  rewrite (filter_none (fun p => p.1 < offset) l2)
    by (eapply Forall_impl; [exact H2|]; intros; cbn in *; lia).
  rewrite (filter_none (fun iv => offset <= iv.1 <= pend) l1)
    by (eapply Forall_impl; [exact H1|]; intros; cbn in *; lia).
  rewrite app_nil_r. cbn [app]. f_equal.
  - destruct l1 as [|x l1 _] using rev_ind; [done|].
    rewrite last_snoc, filter_app. apply ivs_wf_app in Hw1 as [Hw1 Hx].
    rewrite (filter_none (touches offset pend) l1); [done|].
    apply Forall_forall. intros iv Hin. pose proof (ivs_wf_bounds _ _ _ Hw1 Hin).
    destruct x as [s e]. cbn in Hx. apply Forall_app in H1 as [_ H1].
    apply Forall_cons in H1 as [H1 _]. cbn in H1. unfold touches. lia.
  - apply filter_redundant.
    eapply Forall_impl; [apply Forall_and; split; [exact H2|exact (ivs_wf_Forall _ _ Hw2)]|].
    intros iv [? ?]. unfold touches. lia.
Qed.

(** The part of an interval list inside [offset, pend). *)
Fixpoint clip (offset pend : Z) (l : list (Z * Z)) : list (Z * Z) :=
  match l with
  | [] => []
  | (s, e) :: l' =>
      (if Z.max s offset <? Z.min e pend then [(Z.max s offset, Z.min e pend)] else [])
      ++ clip offset pend l'
  end.

Lemma held_clip offset pend l off :
  held (clip offset pend l) off <-> held l off /\ offset <= off < pend.
Proof.
  induction l as [|[s e] l IH]; [split; [by intros ?%held_nil|by intros [?%held_nil _]]|].
  cbn [clip]. rewrite held_app, IH, held_cons.
  destruct (Z.ltb_spec (Z.max s offset) (Z.min e pend)).
  - rewrite held_cons. pose proof (held_nil off). naive_solver lia.
  - pose proof (held_nil off). naive_solver lia.
Qed.

Definition conflicts_with (pages : gmap Z Page) (offset : Z) (payload : bytes)
  (l : list (Z * Z)) : Prop :=
  exists off, held l off /\ offset <= off < offset + zlen payload /\
    page_byte pages off <> zget payload (off - offset).

Lemma pages_cover_mono pages s e s' e' :
  pages_cover pages s e -> s <= s' -> e' <= e -> pages_cover pages s' e'.
Proof. intros H ? ? k Hk. apply H. unfold overlap in *. lia. Qed.

Lemma pages_equals_spec pages off data :
  pages_sized pages -> pages_cover pages off (off + zlen data) ->
  off + zlen data <= u64_max ->
  exists b, pages_equals pages off data = Ok b /\
  (b = false <-> exists o, off <= o < off + zlen data /\
                   page_byte pages o <> zget data (o - off)).
Proof.
  intros Hs Hc Hm. unfold pages_equals. rewrite add_u_ok by done. cbn.
  pose proof (zlen_nonneg data).
  destruct (equals_loop_spec pages data (off + zlen data) off 0 true) as (b & -> & Hb);
    [done|done|lia|lia|].
  exists b. split; [done|]. destruct b.
  - split; [done|]. intros (o & Ho & Hne).
    destruct (proj1 Hb eq_refl) as [_ Hall]. rewrite (Hall o Ho) in Hne. done.
  - split; [|done]. intros _.
    destruct (decide (Forall (fun o => page_byte pages o = zget data (o - off))
                (seqZ off (zlen data)))) as [HF|HF].
    + exfalso. assert (false = true) as Hf; [|done]. apply Hb. split; [done|].
      intros o Ho. rewrite Z.add_0_l. rewrite Forall_forall in HF. apply HF, elem_of_seqZ. lia.
    + apply not_Forall_Exists in HF; [|apply _]. apply Exists_exists in HF as (o & Ho & Hne).
      apply elem_of_seqZ in Ho. exists o. split; [lia|done].
Qed.

Lemma record_overlap_spec pages offset pend payload acc s e :
  pages_sized pages -> pages_cover pages s e ->
  0 <= offset -> pend = offset + zlen payload -> pend <= u64_max ->
  touches offset pend (s, e) -> s < e ->
  acc_count acc + 1 <= usize_max ->
  acc_overlapping acc + ivs_bytes (clip offset pend [(s, e)]) <= usize_max ->
  exists conflict, record_overlap pages offset pend payload acc (s, e) =
    Ok (mkAcc (match acc_first acc with Some f => Some f | None => Some s end)
          (acc_count acc + 1) (Z.min (acc_start acc) s) (Z.max (acc_end acc) e)
          (acc_overlapping acc + ivs_bytes (clip offset pend [(s, e)]))
          (acc_ranges acc ++ clip offset pend [(s, e)]) conflict) /\
  (conflict = true <-> acc_conflict acc = true \/ conflicts_with pages offset payload [(s, e)]).
Proof.
  intros Hs Hc H0 -> Hm [Ht1 Ht2] Hse Hcnt Hov. cbn in Ht1, Ht2.
  unfold record_overlap.
  assert (((e <? offset) || (offset + zlen payload <? s)) = false) as -> by (repeat case_bool; done).
  rewrite (checked_add_ok usize_max (acc_count acc) 1) by done. cbn.
  cbn in Hov. destruct (Z.ltb_spec (Z.max s offset) (Z.min e (offset + zlen payload))).
  - cbn in Hov. rewrite checked_add_ok by lia. cbn.
    rewrite index_range_ok by lia. cbn.
    set (held_part := zslice _ _ payload).
    assert (zlen held_part = Z.min e (offset + zlen payload) - Z.max s offset) as Hl.
    { unfold held_part. rewrite zlen_zslice; lia. }
    destruct (pages_equals_spec pages (Z.max s offset) held_part) as (b & -> & Hb);
      [done|eapply pages_cover_mono; [exact Hc|lia|lia]|lia|].
    cbn. eexists. split; [do 2 f_equal; lia|].
    rewrite orb_true_iff, negb_true_iff, Hb. unfold conflicts_with.
    apply or_iff_compat_l. split; intros (o & Ho).
    + exists o. rewrite held_cons. destruct Ho as [Ho Hne].
      split; [left; lia|]. split; [lia|]. intros Heq. apply Hne. rewrite Heq.
      unfold held_part. rewrite zget_zslice by lia. repeat case_bool. f_equal. lia.
    + destruct Ho as (Hh & Ho & Hne). apply held_cons in Hh as [Hh|Hh%held_nil]; [|done].
      exists o. split; [lia|]. intros Heq. apply Hne. rewrite Heq.
      unfold held_part. rewrite zget_zslice by lia. repeat case_bool. f_equal. lia.
  - exists (acc_conflict acc). cbn. rewrite app_nil_r, Z.add_0_r. split; [done|].
    split; [by left|]. intros [?|(o & Hh & Ho & _)]; [done|].
    apply held_cons in Hh as [Hh|Hh%held_nil]; [lia|done].
Qed.

Lemma conflicts_with_cons pages offset payload iv l :
  conflicts_with pages offset payload (iv :: l) <->
  conflicts_with pages offset payload [iv] \/ conflicts_with pages offset payload l.
Proof.
  unfold conflicts_with. destruct iv as [s e]. setoid_rewrite held_cons.
  pose proof held_nil. naive_solver.
Qed.

Lemma clip_cons offset pend iv l :
  clip offset pend (iv :: l) = clip offset pend [iv] ++ clip offset pend l.
Proof. destruct iv as [s e]. cbn. by rewrite app_nil_r. Qed.

Lemma clip_bytes_nonneg offset pend l : 0 <= ivs_bytes (clip offset pend l).
Proof.
  induction l as [|[s e] l IH]; cbn; [done|]. rewrite ivs_bytes_app.
  case_bool; cbn; lia.
Qed.

Lemma record_all_spec pages offset pend payload a acc :
  pages_sized pages -> Forall (fun iv => pages_cover pages iv.1 iv.2) a ->
  0 <= offset -> pend = offset + zlen payload -> pend <= u64_max ->
  Forall (touches offset pend) a -> Forall (fun iv => iv.1 < iv.2) a ->
  acc_count acc + zlen a <= usize_max ->
  acc_overlapping acc + ivs_bytes (clip offset pend a) <= usize_max ->
  exists conflict, record_all pages offset pend payload acc a =
    Ok (mkAcc (match acc_first acc with Some f => Some f | None => fst <$> head a end)
          (acc_count acc + zlen a)
          (foldl (fun u iv => Z.min u iv.1) (acc_start acc) a)
          (foldl (fun u iv => Z.max u iv.2) (acc_end acc) a)
          (acc_overlapping acc + ivs_bytes (clip offset pend a))
          (acc_ranges acc ++ clip offset pend a) conflict) /\
  (conflict = true <-> acc_conflict acc = true \/ conflicts_with pages offset payload a).
Proof.
  intros Hs Hc H0 Hp Hm Ht Hse. revert acc.
  induction a as [|[s e] a IH]; intros acc Hcnt Hov.
  { exists (acc_conflict acc). destruct acc as [f n us ue ov rs cf]; cbn.
    rewrite zlen_nil, !Z.add_0_r, app_nil_r. split; [by destruct f|].
    split; [by left|]. intros [?|(o & Hh%held_nil & _)]; done. }
  apply Forall_cons in Hc as [Hc1 Hc], Ht as [Ht1 Ht], Hse as [Hse1 Hse].
  rewrite clip_cons, ivs_bytes_app in *. rewrite zlen_cons in *.
  pose proof (clip_bytes_nonneg offset pend a). pose proof (zlen_nonneg a).
  cbn [record_all].
  destruct (record_overlap_spec pages offset pend payload acc s e) as (cf & -> & Hcf);
    [done|done|done|done|done|done|done|lia|lia|]. cbn [mbind outcome_bind].
  destruct (IH Hc Ht Hse (mkAcc (match acc_first acc with Some f => Some f | None => Some s end)
          (acc_count acc + 1) (Z.min (acc_start acc) s) (Z.max (acc_end acc) e)
          (acc_overlapping acc + ivs_bytes (clip offset pend [(s, e)]))
          (acc_ranges acc ++ clip offset pend [(s, e)]) cf)) as (cf' & -> & Hcf');
    cbn [acc_count acc_overlapping]; [lia|lia|].
  exists cf'. cbn [acc_first acc_count acc_start acc_end acc_overlapping acc_ranges acc_conflict foldl] in *.
  split.
  - f_equal. f_equal; [by destruct (acc_first acc)|lia|lia|by rewrite app_assoc].
  - rewrite Hcf'. pose proof (conflicts_with_cons pages offset payload (s, e) a). naive_solver.
Qed.

(** ** The gaps an incoming range fills *)

Fixpoint gaps (cursor pend : Z) (a : list (Z * Z)) : list (Z * Z) :=
  match a with
  | [] => if cursor <? pend then [(cursor, pend)] else []
  | (s, e) :: a' =>
      (if cursor <? Z.min s pend then [(cursor, Z.min s pend)] else [])
      ++ gaps (Z.min (Z.max cursor e) pend) pend a'
  end.

Definition union_lo (offset : Z) (a : list (Z * Z)) : Z :=
  match a with [] => offset | (s, _) :: _ => Z.min offset s end.

Definition union_hi (pend : Z) (a : list (Z * Z)) : Z := Z.max pend (ivs_end pend a).

(** What [gaps] needs of its cursor. *)
Definition gaps_ok (cursor pend : Z) (a : list (Z * Z)) : Prop :=
  cursor <= pend /\ Forall (fun iv => cursor <= iv.2 /\ iv.1 <= pend) a.

Lemma gaps_ok_step cursor pend lo s e a :
  ivs_wf lo ((s, e) :: a) -> gaps_ok cursor pend ((s, e) :: a) ->
  Z.min (Z.max cursor e) pend = Z.min e pend /\ gaps_ok (Z.min e pend) pend a /\
  (pend < e -> a = []).
Proof.
  cbn. intros (? & ? & H) [Hc Hf]. apply Forall_cons in Hf as [[? ?] Hf]. cbn in *.
  split; [lia|]. split.
  - split; [lia|]. rewrite Forall_forall in Hf |- *. intros iv Hin.
    pose proof (ivs_wf_bounds _ _ _ H Hin). specialize (Hf _ Hin). lia.
  - intros. destruct a as [|[s' e'] a]; [done|]. apply Forall_cons in Hf as [[? ?] _].
    cbn in *. lia.
Qed.

Lemma overlap_split k a b c : a <= b -> b <= c -> overlap k a b + overlap k b c = overlap k a c.
Proof. unfold overlap, PAGE_BYTES. lia. Qed.

Lemma overlap_empty k a b : b <= a -> overlap k a b = 0.
Proof. unfold overlap. lia. Qed.

Lemma ivs_end_cons lo s e a : ivs_end lo ((s, e) :: a) = ivs_end e a.
Proof. reflexivity. Qed.

Lemma ivs_end_irrel lo lo' a : a <> [] -> ivs_end lo a = ivs_end lo' a.
Proof. by destruct a as [|[s e] a]. Qed.

(** Pages: the union is the affected intervals plus the gaps. *)
Lemma gaps_cover k cursor pend lo a :
  ivs_wf lo a -> gaps_ok cursor pend a ->
  overlap k (union_lo cursor a) (union_hi pend a) = cover k a + cover k (gaps cursor pend a).
Proof.
  revert cursor lo. induction a as [|[s e] a IH]; intros cursor lo Hwf Hok.
  { unfold union_hi. cbn. destruct Hok as [? _]. rewrite Z.max_id.
    case_bool; cbn; [lia|]. rewrite overlap_empty by lia. done. }
  destruct (gaps_ok_step _ _ _ _ _ _ Hwf Hok) as (Hmin & Hok' & Hnil).
  cbn in Hwf. destruct Hwf as (? & Hse & Hwf).
  destruct Hok as [? Hf]. apply Forall_cons in Hf as [[? ?] _]. cbn in *.
  rewrite Hmin, cover_app. specialize (IH _ _ Hwf Hok').
  unfold union_hi in *. cbn [ivs_end union_lo] in *.
  pose proof (ivs_end_ge _ _ Hwf).
  assert (Z.max pend (ivs_end e a) = Z.max pend (ivs_end pend a) \/ a = []) as Hor.
  { destruct a; [by right|left]. by rewrite (ivs_end_irrel e pend). }
  assert (overlap k (Z.min cursor s) e = overlap k s e +
    cover k (if cursor <? Z.min s pend then [(cursor, Z.min s pend)] else [])) as Hhead.
  { case_bool; cbn; rewrite ?Z.add_0_r.
    - rewrite (Z.min_l cursor s), (Z.min_l s pend) by lia.
      rewrite Z.add_comm. symmetry. apply overlap_split; lia.
    - rewrite Z.min_r by lia. done. }
  destruct (Z.le_gt_cases e pend).
  - rewrite (Z.min_l e pend) in * by done.
    assert (union_lo e a = e) as Hul.
    { destruct a as [|[s' e'] a]; [done|]. cbn in *. lia. }
    rewrite Hul in IH.
    replace (Z.max pend (ivs_end e a)) with (Z.max pend (ivs_end pend a))
      by (destruct Hor as [->| ->]; cbn; [done|lia]).
    rewrite <-(overlap_split k (Z.min cursor s) e) by lia. lia.
  - rewrite (Hnil ltac:(lia)) in *. cbn in *.
    rewrite (Z.min_r e pend), Z.ltb_irrefl in * by lia. cbn in *.
    rewrite Z.max_r by lia. lia.
Qed.

Lemma gaps_bytes cursor pend lo a :
  ivs_wf lo a -> gaps_ok cursor pend a ->
  union_hi pend a - union_lo cursor a = ivs_bytes a + ivs_bytes (gaps cursor pend a) /\
  pend - cursor = ivs_bytes (clip cursor pend a) + ivs_bytes (gaps cursor pend a).
Proof.
  revert cursor lo. induction a as [|[s e] a IH]; intros cursor lo Hwf Hok.
  { unfold union_hi. cbn. destruct Hok as [? _]. rewrite Z.max_id. case_bool; cbn; lia. }
  destruct (gaps_ok_step _ _ _ _ _ _ Hwf Hok) as (Hmin & Hok' & Hnil).
  cbn in Hwf. destruct Hwf as (? & Hse & Hwf).
  destruct Hok as [? Hf]. apply Forall_cons in Hf as [[? ?] _]. cbn in *.
  rewrite Hmin, !ivs_bytes_app. destruct (IH _ _ Hwf Hok') as [IH1 IH2].
  unfold union_hi in *. cbn [ivs_end union_lo] in *.
  pose proof (ivs_end_ge _ _ Hwf).
  assert (forall c, c <= e -> ivs_bytes (clip c pend a) = ivs_bytes (clip (Z.min e pend) pend a)) as Hclip.
  { intros c Hc. destruct (Z.le_gt_cases e pend); [|by rewrite (Hnil ltac:(lia))].
    rewrite Z.min_l by done. clear -Hwf Hc.
    assert (Forall (fun iv => e < iv.1) a) as Hall.
    { apply Forall_forall. intros. by eapply ivs_wf_bounds. }
    clear Hwf. induction Hall as [|[s' e'] a Hx _ IH]; cbn; [done|].
    cbn in Hx. rewrite !Z.max_l by lia. rewrite !ivs_bytes_app. lia. }
  rewrite (Hclip cursor) by lia.
  destruct (Z.le_gt_cases e pend).
  - rewrite (Z.min_l e pend) in * by done.
    assert (union_lo e a = e) as Hul.
    { destruct a as [|[s' e'] a]; [done|]. cbn in *. lia. }
    rewrite Hul in IH1.
    assert (Z.max pend (ivs_end e a) = Z.max pend (ivs_end pend a)) as ->.
    { destruct a; [cbn; lia|]. by rewrite (ivs_end_irrel e pend). }
    repeat case_bool; cbn; lia.
  - rewrite (Hnil ltac:(lia)) in *. cbn in *.
    rewrite (Z.min_r e pend), Z.ltb_irrefl in * by lia. cbn in *.
    repeat case_bool; cbn; lia.
Qed.

(** Bytes: a gap is exactly what the range has and the intervals lack. *)
Lemma gaps_held cursor pend lo a off :
  ivs_wf lo a -> gaps_ok cursor pend a ->
  held (gaps cursor pend a) off <-> cursor <= off < pend /\ ~ held a off.
Proof.
  revert cursor lo. induction a as [|[s e] a IH]; intros cursor lo Hwf Hok.
  { cbn. pose proof (held_nil off). case_bool; rewrite ?held_cons; naive_solver lia. }
  destruct (gaps_ok_step _ _ _ _ _ _ Hwf Hok) as (Hmin & Hok' & Hnil).
  cbn in Hwf. destruct Hwf as (? & Hse & Hwf).
  destruct Hok as [? Hf]. apply Forall_cons in Hf as [[? ?] _]. cbn in *.
  rewrite Hmin, held_app, (IH _ _ Hwf Hok'), held_cons.
  assert (held a off -> e < off) as Hright.
  { intros (iv & Hin & Hiv)%Exists_exists. pose proof (ivs_wf_bounds _ _ _ Hwf Hin). lia. }
  pose proof (held_nil off).
  clear IH Hok' Hnil Hmin.
  assert (held [] off <-> False) as HF by tauto.
  destruct (decide (held a off)) as [Hh|Hh]; [specialize (Hright Hh)|clear Hright].
  - assert (held a off <-> True) as -> by tauto. case_bool; rewrite ?held_cons, ?HF; lia.
  - assert (held a off <-> False) as -> by tauto. case_bool; rewrite ?held_cons, ?HF; lia.
Qed.

(** ** Pages follow the intervals *)

(** A page exists exactly when the intervals reach it, and counts the bytes of
    them it stores. *)
Definition pages_match (pages : gmap Z Page) (l : list (Z * Z)) : Prop :=
  forall k, match pages !! k with
       | Some p => zlen (page_bytes p) = PAGE_BYTES /\ live p = cover k l /\ 0 < cover k l
       | None => cover k l = 0
       end.

Lemma pages_match_sized pages l : pages_match pages l -> pages_sized pages.
Proof. intros H k p Hk. specialize (H k). rewrite Hk in H. by destruct H. Qed.

Lemma pages_match_live pages l k : pages_match pages l -> live_at pages k = cover k l.
Proof. intros H. specialize (H k). unfold live_at. destruct (pages !! k); naive_solver. Qed.

Lemma pages_match_Some pages l k : pages_match pages l -> 0 < cover k l -> is_Some (pages !! k).
Proof. intros H. specialize (H k). destruct (pages !! k); [eauto|lia]. Qed.

Lemma cover_elem k l iv : iv ∈ l -> overlap k iv.1 iv.2 <= cover k l.
Proof.
  induction l as [|[s e] l IH]; [set_solver|].
  pose proof (cover_nonneg k l). pose proof (overlap_nonneg k s e). cbn.
  intros [->|?%IH]%elem_of_cons; cbn; lia.
Qed.

Lemma pages_match_covers pages l iv : pages_match pages l -> iv ∈ l -> pages_cover pages iv.1 iv.2.
Proof.
  intros H Hin k Hk. eapply pages_match_Some; [done|].
  pose proof (cover_elem k l iv Hin). lia.
Qed.

Lemma pages_match_byte pages l off : pages_match pages l -> held l off -> is_Some (page_byte pages off).
Proof.
  intros H Hh. pose proof (held_cover _ _ Hh). unfold page_byte.
  specialize (H (off / PAGE_BYTES)). destruct (pages !! _) as [p|]; [|lia].
  apply zget_lt_is_Some. pose proof (page_off_split off). lia.
Qed.

Lemma pages_remove_spec pages b s e c :
  pages_match pages (b ++ (s, e) :: c) ->
  exists pages', pages_remove pages s e = Ok pages' /\ pages_match pages' (b ++ c) /\
    forall off, held (b ++ c) off -> page_byte pages' off = page_byte pages off.
Proof.
  intros Hm.
  assert (forall k, cover k (b ++ (s, e) :: c) = overlap k s e + cover k (b ++ c)) as Hcov.
  { intros k. rewrite !cover_app. cbn. lia. }
  destruct (remove_loop_spec pages e s) as (pages' & Hr & Hlk).
  { eapply (pages_match_covers _ _ (s, e)); [done|]. set_solver. }
  { intros k p Hk. specialize (Hm k). rewrite Hk, Hcov in Hm.
    pose proof (cover_nonneg k (b ++ c)). lia. }
  exists pages'. split; [done|].
  assert (pages_match pages' (b ++ c)) as Hm'.
  { intros k. specialize (Hm k). rewrite Hlk. rewrite Hcov in Hm.
    pose proof (cover_nonneg k (b ++ c)). pose proof (overlap_nonneg k s e).
    destruct (pages !! k) as [p|]; [|lia]. case_bool; cbn; lia. }
  split; [done|]. intros off Hh. pose proof (held_cover _ _ Hh) as Hpos.
  unfold page_byte. specialize (Hm (off / PAGE_BYTES)). rewrite Hlk. rewrite Hcov in Hm.
  destruct (pages !! (off / PAGE_BYTES)) as [p|]; [|done]. case_bool. done.
Qed.

(** ** The list edits of a merge *)

Lemma bt_get_mid (b c : list (Z * Z)) s e :
  Forall (fun iv => iv.1 < s) b -> bt_get s (b ++ (s, e) :: c) = Some e.
Proof.
  induction 1 as [|[s' e'] b Hx _ IH]; cbn.
  - by rewrite cmp_refl.
  - cbn in Hx. rewrite (cmp_Z_gt s s') by lia. done.
Qed.

Lemma bt_remove_mid (b c : list (Z * Z)) s e :
  Forall (fun iv => iv.1 < s) b -> bt_remove s (b ++ (s, e) :: c) = b ++ c.
Proof.
  induction 1 as [|[s' e'] b Hx _ IH]; cbn.
  - by rewrite cmp_refl.
  - cbn in Hx. rewrite (cmp_Z_gt s s') by lia. by rewrite IH.
Qed.

Lemma bt_insert_mid (b c : list (Z * Z)) s e :
  Forall (fun iv => iv.1 < s) b -> Forall (fun iv => s < iv.1) c ->
  bt_insert s e (b ++ c) = b ++ (s, e) :: c.
Proof.
  intros Hb Hc. induction Hb as [|[s' e'] b Hx _ IH]; cbn.
  - destruct c as [|[s' e'] c]; cbn; [done|]. apply Forall_cons in Hc as [Hc _]. cbn in Hc.
    by rewrite cmp_Z_lt.
  - cbn in Hx. rewrite (cmp_Z_gt s s') by lia. by rewrite IH.
Qed.

Lemma bt_get_none (b c : list (Z * Z)) s :
  Forall (fun iv => iv.1 <> s) (b ++ c) -> bt_get s (b ++ c) = None.
Proof.
  induction 1 as [|[s' e'] l Hx _ IH]; cbn; [done|]. cbn in Hx.
  destruct (cmp s s') eqn:E; [|done|done]. apply (cmp_eq s s') in E. congruence.
Qed.

Lemma range_from_mid (b c : list (Z * Z)) first :
  Forall (fun iv => iv.1 < first) b -> Forall (fun iv => first <= iv.1) c ->
  range_from first (b ++ c) = c.
Proof.
  intros Hb Hc. unfold range_from. rewrite filter_app.
  rewrite filter_none by (eapply Forall_impl; [exact Hb|]; intros; cbn in *; lia).
  by rewrite filter_all.
Qed.

(** Starts are strictly increasing. *)
Lemma ivs_wf_starts lo b iv c :
  ivs_wf lo (b ++ iv :: c) ->
  Forall (fun x => x.1 < iv.1) b /\ Forall (fun x => iv.1 < x.1) c.
Proof.
  destruct iv as [s e]. intros [Hb Hc]%ivs_wf_app. cbn in Hc. destruct Hc as (? & ? & Hc).
  split; apply Forall_forall; intros x Hx; cbn.
  - pose proof (ivs_wf_bounds _ _ _ Hb Hx). lia.
  - pose proof (ivs_wf_bounds _ _ _ Hc Hx). lia.
Qed.

Lemma remove_affected_keep lo b a c pages first :
  ivs_wf lo (b ++ a ++ c) ->
  Forall (fun iv => iv.1 < first) b -> Forall (fun iv => first <= iv.1) (a ++ c) ->
  remove_affected (b ++ a ++ c) pages first false (length a) = Ok (b ++ c, pages).
Proof.
  induction a as [|[s e] a IH]; intros Hwf Hb Hac; [done|].
  cbn [length remove_affected app]. rewrite range_from_mid by done. cbn.
  destruct (ivs_wf_starts lo b (s, e) (a ++ c) Hwf) as [Hs1 _].
  rewrite bt_get_mid by done. cbn. rewrite bt_remove_mid by done. apply IH.
  - apply ivs_wf_app in Hwf as [Hwb Hwf]. cbn in Hwf. apply ivs_wf_app. split; [done|].
    eapply ivs_wf_weaken; [|apply Hwf]. lia.
  - done.
  - by apply Forall_cons in Hac as [_ ?].
Qed.

Lemma remove_affected_emit lo b a c pages first :
  ivs_wf lo (b ++ a ++ c) -> pages_match pages (b ++ a ++ c) ->
  Forall (fun iv => iv.1 < first) b -> Forall (fun iv => first <= iv.1) (a ++ c) ->
  exists pages',
    remove_affected (b ++ a ++ c) pages first true (length a) = Ok (b ++ c, pages') /\
    pages_match pages' (b ++ c) /\
    forall off, held (b ++ c) off -> page_byte pages' off = page_byte pages off.
Proof.
  revert pages. induction a as [|[s e] a IH]; intros pages Hwf Hm Hb Hac.
  { exists pages. done. }
  cbn [length remove_affected app]. rewrite range_from_mid by done. cbn.
  destruct (ivs_wf_starts lo b (s, e) (a ++ c) Hwf) as [Hs1 _].
  rewrite bt_get_mid by done. cbn. rewrite bt_remove_mid by done.
  destruct (pages_remove_spec pages b s e (a ++ c) Hm) as (p1 & -> & Hm1 & Hb1). cbn.
  destruct (IH p1) as (p2 & -> & Hm2 & Hb2).
  - apply ivs_wf_app in Hwf as [Hwb Hwf]. cbn in Hwf. apply ivs_wf_app. split; [done|].
    eapply ivs_wf_weaken; [|apply Hwf]. lia.
  - done.
  - done.
  - by apply Forall_cons in Hac as [_ ?].
  - exists p2. split; [done|]. split; [done|]. intros off Hh. rewrite Hb2 by done. apply Hb1.
    apply held_app in Hh as [Hh|Hh]; apply held_app; [by left|right; apply held_app; by right].
Qed.
