(* ===== verification/TcpStorage.v ===== *)
(** * Storing and emitting payload

    What planning plus committing does to the pages: the gap-filling loop stores
    exactly the bytes the pending intervals lack, the output buffer is the
    merged byte range, and the predicted page counts are the actual ones. *)

From stdpp Require Import base tactics option list numbers gmap sorting.
From Stdlib Require Import ZArith Lia.
From S2P Require Import Prelude Ordered Flow TcpModel TcpHistory TcpPages TcpState TcpPlan TcpCommit TcpIntervals.

(** ** Gap bounds *)

Lemma gaps_bounds cursor pend lo a :
  ivs_wf lo a -> gaps_ok cursor pend a ->
  Forall (fun iv => cursor <= iv.1 /\ iv.1 < iv.2 /\ iv.2 <= pend) (gaps cursor pend a).
Proof.
  revert cursor lo. induction a as [|[s e] a IH]; intros cursor lo Hwf Hok.
  { cbn. case_bool; repeat constructor; cbn; lia. }
  destruct (gaps_ok_step _ _ _ _ _ _ Hwf Hok) as (Hmin & Hok' & _).
  cbn in Hwf. destruct Hwf as (? & Hse & Hwf).
  destruct Hok as [? Hf]. apply Forall_cons in Hf as [[? ?] _]. cbn in *.
  rewrite Hmin. apply Forall_app. split.
  - case_bool; repeat constructor; cbn; lia.
  - eapply Forall_impl; [exact (IH _ _ Hwf Hok')|]. cbn. lia.
Qed.

Lemma gaps_cover_le k cursor pend lo a :
  ivs_wf lo a -> gaps_ok cursor pend a ->
  cover k (gaps cursor pend a) <= overlap k cursor pend.
Proof.
  revert cursor lo. induction a as [|[s e] a IH]; intros cursor lo Hwf Hok.
  { cbn. case_bool; cbn; [lia|apply overlap_nonneg]. }
  destruct (gaps_ok_step _ _ _ _ _ _ Hwf Hok) as (Hmin & Hok' & _).
  cbn in Hwf. destruct Hwf as (? & Hse & Hwf).
  destruct Hok as [? Hf]. apply Forall_cons in Hf as [[? ?] _]. cbn in *.
  rewrite Hmin, cover_app. specialize (IH _ _ Hwf Hok').
  pose proof (overlap_nonneg k cursor (Z.min e pend)).
  rewrite <-(overlap_split k cursor (Z.min e pend) pend) by lia.
  case_bool; cbn; [|lia].
  rewrite <-(overlap_split k cursor (Z.min s pend) (Z.min e pend)) by lia.
  pose proof (overlap_nonneg k (Z.min s pend) (Z.min e pend)). lia.
Qed.

(** The union holds the affected intervals and the incoming range. *)
Lemma union_held cursor pend lo a off :
  ivs_wf lo a -> gaps_ok cursor pend a ->
  union_lo cursor a <= off < union_hi pend a <-> held a off \/ cursor <= off < pend.
Proof.
  revert cursor lo. induction a as [|[s e] a IH]; intros cursor lo Hwf Hok.
  { assert (held [] off <-> False) as HF by (pose proof (held_nil off); tauto).
    unfold union_hi. rewrite HF. cbn. lia. }
  destruct (gaps_ok_step _ _ _ _ _ _ Hwf Hok) as (_ & Hok' & Hnil).
  cbn in Hwf. destruct Hwf as (? & Hse & Hwf).
  destruct Hok as [? Hf]. apply Forall_cons in Hf as [[? ?] _]. cbn in *.
  specialize (IH _ _ Hwf Hok'). rewrite held_cons.
  unfold union_hi in *. cbn [ivs_end union_lo] in *.
  pose proof (ivs_end_ge _ _ Hwf). destruct (Z.le_gt_cases e pend).
  - rewrite (Z.min_l e pend) in * by done.
    assert (union_lo e a = e) as Hul.
    { destruct a as [|[s' e'] a]; [done|]. cbn in *. lia. }
    rewrite Hul in IH.
    assert (Z.max pend (ivs_end e a) = Z.max pend (ivs_end pend a)) as Hmx.
    { destruct a; [cbn; lia|]. by rewrite (ivs_end_irrel e pend). }
    rewrite Hmx in *. destruct (decide (held a off)) as [Hh|Hh].
    + assert (held a off <-> True) as HT by tauto. rewrite HT in *. lia.
    + assert (held a off <-> False) as HF by tauto. rewrite HF in *. lia.
  - rewrite (Hnil ltac:(lia)) in *. cbn in *.
    assert (held [] off <-> False) as HF by (pose proof (held_nil off); tauto).
    rewrite HF in *. lia.
Qed.

(** ** The gap-filling loop *)

(** Storing a list of disjoint payload ranges. *)
Fixpoint insert_gaps (pages : gmap Z Page) (payload : bytes) (offset : Z) (gs : list (Z * Z))
  : outcome Error (gmap Z Page) :=
  match gs with
  | [] => Ok pages
  | (s, e) :: gs' =>
      chunk ← index_range payload (s - offset) (e - offset);
      pages' ← pages_insert pages s chunk;
      insert_gaps pages' payload offset gs'
  end.

Lemma insert_gaps_app pages payload offset g1 g2 :
  insert_gaps pages payload offset (g1 ++ g2) =
  (pages' ← insert_gaps pages payload offset g1; insert_gaps pages' payload offset g2).
Proof.
  revert pages. induction g1 as [|[s e] g1 IH]; intros pages; [done|]. cbn.
  destruct (index_range payload _ _) as [chunk| |]; cbn; [|done|done].
  destruct (pages_insert pages s chunk) as [pages'| |]; cbn; [apply IH|done|done].
Qed.

(** [fill_gaps] and the final store are [insert_gaps] on [gaps]. *)
Lemma fill_gaps_insert_gaps pages payload offset cursor a :
  (fill_gaps pages payload offset (offset + zlen payload) cursor a ≫=
     (fun '(pages, cursor) =>
       if cursor <? offset + zlen payload then
         index_range payload (cursor - offset) (zlen payload) ≫=
         (fun chunk => pages_insert pages cursor chunk)
       else Ok pages))
  = insert_gaps pages payload offset (gaps cursor (offset + zlen payload) a).
Proof.
  revert pages cursor. induction a as [|[s e] a IH]; intros pages cursor.
  { cbn. case_bool; cbn; [|done].
    replace (offset + zlen payload - offset) with (zlen payload) by lia.
    destruct (index_range payload _ _) as [chunk| |]; cbn; [|done|done].
    by destruct (pages_insert pages cursor chunk). }
  cbn [fill_gaps gaps]. rewrite insert_gaps_app.
  destruct (Z.ltb_spec cursor (Z.min s (offset + zlen payload))).
  - cbn [insert_gaps]. destruct (index_range payload _ _) as [chunk| |]; cbn; [|done|done].
    destruct (pages_insert pages cursor chunk) as [pages'| |]; cbn; [apply IH|done|done].
  - cbn. apply IH.
Qed.

Lemma insert_gaps_spec payload offset gs pages :
  pages_sized pages -> Forall (fun iv => pages_cover pages iv.1 iv.2) gs ->
  0 <= offset -> offset + zlen payload <= u64_max ->
  Forall (fun iv => offset <= iv.1 /\ iv.1 < iv.2 /\ iv.2 <= offset + zlen payload) gs ->
  (forall k, 0 <= live_at pages k /\ live_at pages k + cover k gs <= PAGE_BYTES) ->
  exists pages', insert_gaps pages payload offset gs = Ok pages' /\
    pages_sized pages' /\ dom pages' = dom pages /\
    (forall off, page_byte pages' off =
       if decide (held gs off) then zget payload (off - offset) else page_byte pages off) /\
    (forall k, live_at pages' k = live_at pages k + cover k gs).
Proof.
  intros Hs Hc H0 Hm. revert pages Hs Hc.
  induction gs as [|[s e] gs IH]; intros pages Hs Hc Hb Hl.
  { exists pages. do 3 (split; [done|]). split; [|intros; cbn; lia].
    intros off. by rewrite decide_False by apply held_nil. }
  apply Forall_cons in Hc as [Hc1 Hc], Hb as [(? & ? & ?) Hb]. cbn in *.
  rewrite index_range_ok by lia. cbn. unfold pages_insert.
  assert (zlen (zslice (s - offset) (e - offset) payload) = e - s) as Hzl
    by (rewrite zlen_zslice; lia).
  rewrite Hzl, add_u_ok by lia. cbn.
  replace (s + (e - s)) with e by lia.
  destruct (insert_loop_spec pages (zslice (s - offset) (e - offset) payload) e s 0)
    as (p1 & -> & Hs1 & Hd1 & Hby1 & Hl1).
  { done. } { done. } { lia. } { lia. }
  { intros k. specialize (Hl k). pose proof (cover_nonneg k gs). lia. }
  cbn.
  destruct (IH p1 Hs1) as (p2 & -> & Hs2 & Hd2 & Hby2 & Hl2).
  { eapply Forall_impl; [exact Hc|]. cbn. intros iv Hiv k Hk. apply elem_of_dom.
    rewrite Hd1. apply elem_of_dom. by apply Hiv. }
  { done. }
  { intros k. rewrite Hl1. specialize (Hl k). pose proof (overlap_nonneg k s e). lia. }
  exists p2. split; [done|]. split; [done|]. split; [congruence|]. split.
  - intros off. rewrite Hby2, Hby1. pose proof (held_cons s e gs off) as Hhc.
    destruct (decide (held gs off)) as [Hg|Hg];
      destruct (decide (held ((s, e) :: gs) off)) as [Hx|Hx]; try tauto.
    + apply Hhc in Hx as [Hx|]; [|done].
      repeat case_bool. rewrite zget_zslice by lia. repeat case_bool. f_equal. lia.
    + repeat case_bool; try done. tauto.
  - intros k. rewrite Hl2, Hl1. lia.
Qed.

Lemma ivs_end_lt lo l x : lo < x -> Forall (fun iv => iv.2 < x) l -> ivs_end lo l < x.
Proof.
  revert lo. induction l as [|[s e] l IH]; cbn; intros lo Hlo Hf; [done|].
  apply Forall_cons in Hf as [? ?]. by apply IH.
Qed.

(** ** New pages *)

Definition zero_page : Page := mkPage (zrep PAGE_BYTES 0) 0.

Lemma allocate_missing_Ok alloc pages keys fresh :
  allocate_missing alloc pages keys = Ok fresh ->
  fresh = (fun k => (k, zero_page)) <$> filter (fun k => pages !! k = None) keys.
Proof.
  revert fresh. induction keys as [|k keys IH]; intros fresh H; [by simplify_eq/=|].
  cbn in H. rewrite filter_cons. destruct (pages !! k) eqn:E.
  - rewrite decide_False by done. by apply IH.
  - rewrite decide_True by done. unfold page_allocate in H. inv_ok H. inv_ok Ha.
    simplify_eq. inv_ok H. simplify_eq. cbn. f_equal. by apply IH.
Qed.

Lemma allocate_missing_not_Panic alloc pages keys : allocate_missing alloc pages keys <> Panic.
Proof.
  induction keys as [|k keys IH]; cbn; [done|]. destruct (pages !! k); [done|].
  unfold page_allocate, try_reserve_exact.
  destruct (alloc (AllocPage k) PAGE_BYTES && _); cbn; [|done].
  by destruct (allocate_missing alloc pages keys).
Qed.

Lemma add_new_pages_spec pages ks :
  NoDup ks -> Forall (fun k => pages !! k = None) ks ->
  exists pages', add_new_pages pages ((fun k => (k, zero_page)) <$> ks) = Ok pages' /\
    (forall k, pages' !! k = if decide (k ∈ ks) then Some zero_page else pages !! k) /\
    pages_len pages' = pages_len pages + zlen ks.
Proof.
  revert pages. induction ks as [|k ks IH]; intros pages Hnd Hn.
  { exists pages. split; [done|]. split; [intros; by rewrite decide_False by set_solver|].
    rewrite zlen_nil. lia. }
  apply NoDup_cons in Hnd as [Hk Hnd]. apply Forall_cons in Hn as [Hn1 Hn]. cbn.
  rewrite Hn1. cbn.
  destruct (IH (<[k:=zero_page]> pages) Hnd) as (p' & -> & Hlk & Hlen).
  { rewrite Forall_forall in Hn |- *. intros x Hx. rewrite lookup_insert_ne by set_solver. auto. }
  exists p'. split; [done|]. split.
  - intros x. rewrite Hlk. destruct (decide (x = k)) as [->|].
    + rewrite decide_False by done. rewrite lookup_insert_eq. by rewrite decide_True by set_solver.
    + rewrite lookup_insert_ne by done. destruct (decide (x ∈ ks));
        [rewrite decide_True by set_solver|rewrite decide_False by set_solver]; done.
  - rewrite Hlen. unfold pages_len. rewrite map_size_insert_None by done. rewrite zlen_cons. lia.
Qed.

(** ** Storing a range (nothing to emit) *)

Record range_setup (offset : Z) (payload : bytes) (l b a c : list (Z * Z)) (lo : Z) : Prop := {
  rs_split : ivs_split offset (offset + zlen payload) l b a c;
  rs_wf : ivs_wf lo l;
  rs_offset : 0 <= offset;
  rs_pend : offset + zlen payload <= u64_max;
  rs_payload : 0 < zlen payload
}.

Section store.
Context (offset lo : Z) (payload : bytes) (l b a c : list (Z * Z)).
Context (HR : range_setup offset payload l b a c lo) (Hlo : lo < offset).

Notation pend := (offset + zlen payload).
Notation us := (union_lo offset a).
Notation ue := (union_hi pend a).

Lemma store_gaps_ok : gaps_ok offset pend a.
Proof.
  destruct HR as [[_ _ Ha _] _ ? ? ?]. split; [lia|]. exact Ha.
Qed.

Lemma store_a_wf : exists lo', ivs_wf lo' a.
Proof.
  destruct HR as [[Hl _ _ _] Hwf _ _ _]. rewrite Hl in Hwf.
  apply ivs_wf_app in Hwf as [_ [Hwf _]%ivs_wf_app]. eauto.
Qed.

Lemma store_us_le : us <= offset.
Proof. destruct a as [|[s e] a']; cbn; lia. Qed.

Lemma store_ue_ge : pend <= ue.
Proof. unfold union_hi. lia. Qed.

(** The interval list after the merge is well formed. *)
Lemma store_wf : ivs_wf lo (b ++ (us, ue) :: c).
Proof.
  pose proof store_us_le. pose proof store_ue_ge.
  destruct HR as [[Hl Hb Ha Hc] Hwf ? ? ?]. rewrite Hl in Hwf.
  apply ivs_wf_app in Hwf as [Hwb [Hwa Hwc]%ivs_wf_app].
  apply ivs_wf_app. split; [done|]. cbn.
  assert (ivs_end lo b < offset) as Hend.
  { by apply ivs_end_lt. }
  split; [|split; [lia|]].
  - destruct a as [|[s e] a']; cbn in *; lia.
  - eapply ivs_wf_raise; [exact Hwc|]. rewrite Forall_forall in Hc |- *. intros iv Hin.
    specialize (Hc _ Hin). pose proof (ivs_wf_bounds _ _ _ Hwc Hin).
    unfold union_hi. destruct a; cbn in *; lia.
Qed.

(** Within the incoming range, only affected intervals hold bytes. *)
Lemma store_held_inside off : held l off -> offset <= off < pend -> held a off.
Proof.
  destruct HR as [[Hl Hb Ha Hc] Hwf ? ? ?]. rewrite Hl, !held_app. intros Hh Hr.
  destruct Hh as [Hh|[Hh|Hh]]; [|done|]; apply Exists_exists in Hh as (iv & Hin & Hiv).
  - rewrite Forall_forall in Hb. specialize (Hb _ Hin). lia.
  - rewrite Forall_forall in Hc. specialize (Hc _ Hin). lia.
Qed.

Lemma store_held off :
  held (b ++ (us, ue) :: c) off <-> held l off \/ offset <= off < pend.
Proof.
  destruct store_a_wf as [lo' Hwa]. pose proof (union_held _ _ _ _ off Hwa store_gaps_ok) as Hu.
  rewrite (sp_eq _ _ _ _ _ _ (rs_split _ _ _ _ _ _ _ HR)).
  rewrite !held_app, held_cons. tauto.
Qed.

Lemma store_cover k : cover k (b ++ (us, ue) :: c) = cover k l + cover k (gaps offset pend a).
Proof.
  destruct store_a_wf as [lo' Hwa]. pose proof (gaps_cover k _ _ _ _ Hwa store_gaps_ok) as Hu.
  rewrite (sp_eq _ _ _ _ _ _ (rs_split _ _ _ _ _ _ _ HR)), !cover_app. cbn. lia.
Qed.

Lemma store_pages alloc pages fresh :
  pages_match pages l ->
  allocate_missing alloc pages (page_keys offset pend) = Ok fresh ->
  exists pages1 pages', add_new_pages pages fresh = Ok pages1 /\
    insert_gaps pages1 payload offset (gaps offset pend a) = Ok pages' /\
    pages_match pages' (b ++ (us, ue) :: c) /\
    (forall off, held (b ++ (us, ue) :: c) off ->
       page_byte pages' off =
       if decide (held l off) then page_byte pages off else zget payload (off - offset)) /\
    pages_len pages' = pages_len pages
      + zlen (filter (fun k => pages !! k = None) (page_keys offset pend)).
Proof.
  intros Hm Hfresh. apply allocate_missing_Ok in Hfresh as ->.
  set (ks := filter (fun k => pages !! k = None) (page_keys offset pend)).
  assert (forall k, k ∈ ks <-> pages !! k = None /\ 0 < overlap k offset pend) as Hks.
  { intros k. unfold ks. rewrite list_elem_of_filter, page_keys_in.
    pose proof (rs_payload _ _ _ _ _ _ _ HR). naive_solver lia. }
  destruct (add_new_pages_spec pages ks) as (p1 & Hp1 & Hlk1 & Hlen1).
  { apply NoDup_filter, page_keys_nodup. }
  { apply Forall_forall. intros k [? _]%Hks. done. }
  assert (pages_sized p1) as Hs1.
  { intros k p Hk. rewrite Hlk1 in Hk. case_decide.
    - simplify_eq. apply zlen_zrep.
    - by apply (pages_match_sized _ _ Hm k). }
  assert (forall k, live_at p1 k = cover k l) as Hl1.
  { intros k. rewrite <-(pages_match_live pages l k Hm). unfold live_at. rewrite Hlk1.
    case_decide as Hk; [|done]. apply Hks in Hk as [-> _]. done. }
  assert (forall k, 0 < overlap k offset pend -> is_Some (p1 !! k)) as Hc1.
  { intros k Hk. rewrite Hlk1. case_decide as Hin; [eauto|].
    destruct (pages !! k) eqn:E; [eauto|]. destruct Hin. by apply Hks. }
  destruct store_a_wf as [lo' Hwa].
  pose proof (gaps_bounds _ _ _ _ Hwa store_gaps_ok) as Hgb.
  destruct (insert_gaps_spec payload offset (gaps offset pend a) p1)
    as (p2 & Hp2 & Hs2 & Hd2 & Hby2 & Hl2).
  { done. }
  { eapply Forall_impl; [exact Hgb|]. intros iv (? & ? & ?) k Hk. apply Hc1.
    unfold overlap in *. lia. }
  { apply HR. } { apply HR. } { done. }
  { intros k. rewrite Hl1, <-store_cover. split; [apply cover_nonneg|].
    eapply cover_le_page, store_wf. }
  exists p1, p2. split; [done|]. split; [done|].
  assert (pages_match p2 (b ++ (us, ue) :: c)) as Hm2.
  { intros k. specialize (Hl2 k). rewrite Hl1, <-store_cover in Hl2.
    pose proof (gaps_cover_le k _ _ _ _ Hwa store_gaps_ok) as Hgle.
    pose proof (cover_nonneg k (gaps offset pend a)).
    assert (is_Some (p2 !! k) <-> is_Some (p1 !! k)) as Hdom.
    { rewrite <-!elem_of_dom. by rewrite Hd2. }
    pose proof (Hlk1 k) as Hlk. pose proof (Hm k) as Hmk.
    destruct (p2 !! k) as [p|] eqn:E2.
    - split; [by apply (Hs2 k)|]. unfold live_at in Hl2. rewrite E2 in Hl2. split; [done|].
      destruct (decide (k ∈ ks)) as [Hin|Hnin].
      + apply Hks in Hin as [_ Hin]. rewrite cover_app. cbn.
        pose proof (cover_nonneg k b). pose proof (cover_nonneg k c).
        pose proof store_us_le. pose proof store_ue_ge. unfold overlap in *. lia.
      + rewrite store_cover. destruct (proj1 Hdom ltac:(eauto)) as [q Hq].
        rewrite Hlk in Hq. rewrite Hq in Hmk. lia.
    - unfold live_at in Hl2. rewrite E2 in Hl2. done. }
  split; [done|]. split.
  - intros off Hh%store_held. rewrite Hby2.
    pose proof (gaps_held _ _ _ _ off Hwa store_gaps_ok) as Hg.
    assert (held a off -> held l off) as Hal.
    { rewrite (sp_eq _ _ _ _ _ _ (rs_split _ _ _ _ _ _ _ HR)), !held_app. tauto. }
    destruct (decide (held l off)) as [Hl|Hl].
    + rewrite decide_False.
      * unfold page_byte. rewrite Hlk1. pose proof (held_cover _ _ Hl) as Hpos.
        destruct (pages_match_Some _ _ _ Hm Hpos) as [p Hp].
        rewrite decide_False; [done|]. rewrite Hks, Hp. naive_solver.
      * intros [Hr Hna]%Hg. apply Hna. by apply store_held_inside.
    + rewrite decide_True; [done|]. apply Hg. naive_solver.
  - rewrite <-Hlen1. unfold pages_len. f_equal.
    rewrite <-!size_dom. by rewrite Hd2.
Qed.
End store.

(** ** Emitting a range *)

Lemma copy_intervals_spec pages origin ivs output :
  pages_sized pages -> Forall (fun iv => pages_cover pages iv.1 iv.2) ivs ->
  Forall (fun iv => origin <= iv.1 /\ iv.1 < iv.2 /\ iv.2 - origin <= zlen output /\ iv.2 <= u64_max) ivs ->
  exists out, copy_intervals pages origin output ivs = Ok out /\ zlen out = zlen output /\
    forall i, 0 <= i -> zget out i =
      if decide (held ivs (origin + i)) then page_byte pages (origin + i) else zget output i.
Proof.
  intros Hs. revert output. induction ivs as [|[s e] ivs IH]; intros output Hc Hb.
  { exists output. split; [done|]. split; [done|]. intros i _.
    by rewrite decide_False by apply held_nil. }
  apply Forall_cons in Hc as [Hc1 Hc], Hb as [(? & ? & ? & ?) Hb]. cbn in *.
  rewrite sub_u_ok by lia. cbn. rewrite index_range_ok by lia. cbn.
  unfold pages_copy_out.
  assert (zlen (zslice (s - origin) (s - origin + (e - s)) output) = e - s) as Hzl
    by (rewrite zlen_zslice; lia).
  rewrite Hzl, add_u_ok by lia. cbn. replace (s + (e - s)) with e by lia.
  destruct (copy_out_loop_spec pages e s (zslice (s - origin) (s - origin + (e - s)) output) 0)
    as (part & -> & Hpl & Hpg); [done|done|lia|lia|].
  cbn. rewrite copy_at_ok by lia. cbn.
  destruct (IH (overwrite output (s - origin) part) Hc) as (out & -> & Hol & Hog).
  { eapply Forall_impl; [exact Hb|]. cbn. intros iv. rewrite zlen_overwrite by lia. done. }
  exists out. split; [done|]. split; [rewrite Hol; apply zlen_overwrite; lia|].
  intros i Hi. rewrite Hog by done. pose proof (held_cons s e ivs (origin + i)) as Hhc.
  destruct (decide (held ivs (origin + i))); [rewrite decide_True by tauto; done|].
  rewrite zget_overwrite, Hpl, Hzl by lia.
  destruct (decide (held ((s, e) :: ivs) (origin + i))) as [Hx|Hx].
  - apply Hhc in Hx as [Hx|]; [|done]. repeat case_bool. rewrite Hpg. repeat case_bool.
    f_equal. lia.
  - repeat case_bool; try done. destruct Hx. apply Hhc. left. lia.
Qed.

Section emit.
Context (offset : Z) (payload : bytes) (l b a c : list (Z * Z)).
Context (HR : range_setup offset payload l b a c offset).

Notation pend := (offset + zlen payload).
Notation ue := (union_hi pend a).

Lemma emit_no_before : b = [].
Proof.
  destruct HR as [[Hl Hb _ _] Hwf ? ? ?]. destruct b as [|[s e] b']; [done|].
  rewrite Hl in Hwf. cbn in Hwf. apply Forall_cons in Hb as [Hb _]. cbn in Hb. lia.
Qed.

Lemma emit_l : l = a ++ c.
Proof. rewrite (sp_eq _ _ _ _ _ _ (rs_split _ _ _ _ _ _ _ HR)). by rewrite emit_no_before. Qed.

Lemma emit_a_wf : ivs_wf offset a /\ ivs_wf (ivs_end offset a) c.
Proof.
  pose proof emit_l as Hl. pose proof (rs_wf _ _ _ _ _ _ _ HR) as Hwf.
  rewrite Hl in Hwf. by apply ivs_wf_app in Hwf.
Qed.

Lemma emit_gaps_ok : gaps_ok offset pend a.
Proof. destruct HR as [[_ _ Ha _] _ ? ? ?]. split; [lia|]. exact Ha. Qed.

Lemma emit_us : union_lo offset a = offset.
Proof. destruct emit_a_wf as [Ha _]. destruct a as [|[s e] a']; cbn in *; lia. Qed.

Lemma emit_c_wf : ivs_wf ue c.
Proof.
  destruct emit_a_wf as [Ha Hc]. destruct HR as [[_ _ _ Hcp] _ ? ? ?].
  eapply ivs_wf_raise; [exact Hc|]. rewrite Forall_forall in Hcp |- *.
  intros iv Hin. specialize (Hcp _ Hin). pose proof (ivs_wf_bounds _ _ _ Hc Hin).
  unfold union_hi. destruct a; cbn in *; lia.
Qed.

Lemma emit_held off : held a off \/ offset <= off < pend <-> offset <= off < ue.
Proof.
  destruct emit_a_wf as [Ha _]. rewrite <-(union_held _ _ _ _ off Ha emit_gaps_ok).
  by rewrite emit_us.
Qed.

Lemma emit_ue_bound hi : Forall (fun iv => iv.2 <= hi) l -> pend <= hi -> ue <= hi.
Proof.
  intros Hf Hp. rewrite emit_l in Hf. apply Forall_app in Hf as [Hf _].
  unfold union_hi. destruct a as [|x a' _] using rev_ind; [cbn; lia|].
  apply Forall_app in Hf as [_ Hf]. apply Forall_cons in Hf as [Hf _].
  destruct x as [s e]. rewrite ivs_end_app. cbn in *. lia.
Qed.

(** The output buffer of an emission is the merged range, retained bytes first. *)
Lemma emit_output pages output0 :
  pages_match pages l -> ue <= u64_max -> zlen output0 = ue - offset ->
  (forall i, 0 <= i < zlen payload -> zget output0 i = zget payload i) ->
  exists out, copy_intervals pages offset output0 a = Ok out /\ zlen out = ue - offset /\
    forall off, offset <= off < ue -> zget out (off - offset) =
      if decide (held l off) then page_byte pages off else zget payload (off - offset).
Proof.
  intros Hm Hu Hz Hp. destruct emit_a_wf as [Ha Hc].
  assert (forall iv, iv ∈ a -> offset < iv.1 /\ iv.1 < iv.2 /\ iv.2 <= ue) as Hbd.
  { intros iv Hin. pose proof (ivs_wf_bounds _ _ _ Ha Hin). unfold union_hi.
    destruct a; [set_solver|]. cbn in *. lia. }
  destruct (copy_intervals_spec pages offset a output0) as (out & Ho & Hol & Hog).
  { eapply pages_match_sized, Hm. }
  { apply Forall_forall. intros iv Hin. eapply pages_match_covers; [exact Hm|].
    rewrite emit_l. set_solver. }
  { apply Forall_forall. intros iv Hin. specialize (Hbd _ Hin). lia. }
  exists out. split; [done|]. split; [lia|]. intros off Hoff.
  rewrite Hog by lia. replace (offset + (off - offset)) with off by lia.
  assert (held l off <-> held a off) as Hla.
  { rewrite emit_l, held_app. split; [|by left]. intros [?|Hh]; [done|].
    apply Exists_exists in Hh as (iv & Hin & Hiv).
    pose proof (ivs_wf_bounds _ _ _ emit_c_wf Hin). lia. }
  destruct (decide (held a off)), (decide (held l off)); try tauto.
  apply Hp. destruct (proj2 (emit_held off) Hoff); [done|lia].
Qed.

(** [remaining_pages] predicts the pages left once the affected intervals go. *)
Lemma emit_remaining_count pages pages' :
  pages_match pages l -> pages_match pages' c ->
  pages_len pages' = remaining_pages pages l offset ue.
Proof.
  intros Hm Hm'. destruct emit_a_wf as [Ha Hc]. pose proof emit_c_wf as Hcw.
  assert (last_before offset l = None) as Hbef.
  { unfold last_before. rewrite filter_none; [done|].
    eapply Forall_impl; [exact (ivs_wf_Forall _ _ (rs_wf _ _ _ _ _ _ _ HR))|].
    intros iv (? & ? & ?). lia. }
  assert (range_from ue l = c) as Haft.
  { rewrite emit_l. apply range_from_mid.
    - apply Forall_forall. intros iv Hin. pose proof (ivs_wf_bounds _ _ _ Ha Hin).
      unfold union_hi. destruct a; [set_solver|]. cbn in *. lia.
    - eapply Forall_impl; [exact (ivs_wf_Forall _ _ Hcw)|]. intros iv (? & ? & ?). lia. }
  unfold remaining_pages, page_goes. rewrite Hbef, Haft. cbn [fmap option_fmap option_map].
  set (removed := filter _ (page_keys offset ue)).
  assert (0 < ue - offset) as Hpos.
  { destruct HR. unfold union_hi. lia. }
  assert (forall k, k ∈ removed <-> k ∈ dom pages /\ k ∉ dom pages') as Hrem.
  { intros k. unfold removed. rewrite list_elem_of_filter, page_keys_in, !elem_of_dom.
    pose proof (Hm k) as Hk. pose proof (Hm' k) as Hk'.
    rewrite emit_l, cover_app in Hk. pose proof (cover_nonneg k a). pose proof (cover_nonneg k c).
    assert (0 < cover k a -> 0 < overlap k offset ue) as Hin.
    { intros. pose proof (gaps_cover k _ _ _ _ Ha emit_gaps_ok) as Hg.
      rewrite emit_us in Hg. pose proof (cover_nonneg k (gaps offset pend a)). lia. }
    assert (0 < overlap k offset ue ->
      (match fst <$> head c with Some s => s <? k * PAGE_BYTES + PAGE_BYTES | None => false end) = true
      <-> 0 < cover k c) as Hhead.
    { intros Hov. destruct c as [|[s e] c']; cbn; [lia|].
      cbn in Hcw. destruct Hcw as (? & ? & Hcw). pose proof (cover_nonneg k c').
      assert (k * PAGE_BYTES < ue) by (unfold overlap in Hov; lia).
      case_bool.
      - split; [|done]. intros _. unfold overlap. lia.
      - split; [done|]. assert (overlap k s e = 0) as -> by (unfold overlap; lia).
        rewrite (cover_zero_right e c' k Hcw) by lia. lia. }
    rewrite !Is_true_true, !andb_true_iff, negb_true_iff.
    destruct (pages !! k) as [p|], (pages' !! k) as [q|]; cbn.
    - split; [|intros [_ Hn]; destruct Hn; eauto].
      intros [[_ Hh] [_ Hov]]. exfalso. specialize (Hhead Hov).
      rewrite (proj2 Hhead) in Hh by lia. done.
    - split; [intros _; split; [eauto|by intros []]|]. intros _.
      assert (0 < overlap k offset ue) as Hov by (apply Hin; lia).
      split; [|lia]. split; [done|]. specialize (Hhead Hov).
      destruct (match fst <$> head c with Some _ => _ | None => _ end); [|done].
      destruct (proj1 Hhead eq_refl). lia.
    - split; [intros [[[? _] _] _]; done|intros [[? ?] _]; done].
    - split; [intros [[[? _] _] _]; done|intros [[? ?] _]; done]. }
  assert (dom pages' ⊆ dom pages) as Hsub.
  { intros k. rewrite !elem_of_dom. intros [q Hq]. pose proof (Hm k) as Hk. pose proof (Hm' k) as Hk'.
    rewrite emit_l, cover_app in Hk. rewrite Hq in Hk'. pose proof (cover_nonneg k a).
    destruct (pages !! k); [eauto|lia]. }
  assert (dom pages = dom pages' ∪ list_to_set removed) as Hdom.
  { apply set_eq. intros k. rewrite elem_of_union, elem_of_list_to_set, Hrem.
    destruct (decide (k ∈ dom pages')); set_solver. }
  unfold pages_len. rewrite <-(size_dom pages), <-(size_dom pages'), Hdom.
  rewrite size_union by (intros k; rewrite elem_of_list_to_set, Hrem; tauto).
  rewrite size_list_to_set by (apply NoDup_filter, page_keys_nodup).
  unfold zlen. lia.
Qed.
End emit.
