(* ===== verification/TcpMerge.v ===== *)
(** * The merge plan and its commit, per flow

    [plan_pending_merge], [materialize_pending_merge] and [apply_pending_merge]
    evaluated on a well-formed flow: which intervals result, which bytes the
    pages hold, what is emitted, and that no assertion fails. *)

From stdpp Require Import base tactics option list numbers gmap sorting.
From Stdlib Require Import ZArith Lia.
From S2P Require Import Prelude Ordered Flow TcpModel TcpHistory TcpPages TcpState TcpPlan TcpCommit.
From S2P Require Import TcpIntervals TcpStorage.

(** ** Planning *)

Lemma foldl_min_id s a u :
  Forall (fun iv : Z * Z => s < iv.1) a -> u <= s ->
  foldl (fun u iv => Z.min u iv.1) u a = u.
Proof.
  intros Hf Hu. induction Hf as [|[s' e'] a Hx _ IH]; cbn in *; [done|].
  by rewrite Z.min_l by lia.
Qed.

Lemma foldl_min_wf lo a offset :
  ivs_wf lo a -> foldl (fun u iv => Z.min u iv.1) offset a = union_lo offset a.
Proof.
  destruct a as [|[s e] a]; [done|]. cbn. intros (? & ? & Hwf).
  apply (foldl_min_id s); [|lia].
  apply Forall_forall. intros iv Hin. pose proof (ivs_wf_bounds _ _ _ Hwf Hin). lia.
Qed.

Lemma foldl_max_wf lo a u :
  ivs_wf lo a -> foldl (fun u iv => Z.max u iv.2) u a = Z.max u (ivs_end u a).
Proof.
  revert lo u. induction a as [|[s e] a IH]; intros lo u Hwf; cbn; [lia|].
  cbn in Hwf. destruct Hwf as (? & ? & Hwf). rewrite (IH _ _ Hwf).
  pose proof (ivs_end_ge _ _ Hwf). destruct a as [|[s' e'] a]; cbn in *; lia.
Qed.

Lemma split_filter offset pend l b a c :
  ivs_split offset pend l b a c -> offset <= pend -> filter (touches offset pend) l = a.
Proof.
  intros [-> Hb Ha Hc] Hle. rewrite !filter_app.
  rewrite (filter_none _ b) by (eapply Forall_impl; [exact Hb|]; unfold touches; cbn; lia).
  rewrite (filter_none _ c) by (eapply Forall_impl; [exact Hc|]; unfold touches; cbn; lia).
  rewrite (filter_all _ a) by exact Ha. by rewrite app_nil_r.
Qed.

Lemma conflicts_with_split pages offset payload l b a c :
  ivs_split offset (offset + zlen payload) l b a c ->
  conflicts_with pages offset payload l <-> conflicts_with pages offset payload a.
Proof.
  intros [-> Hb _ Hc]. unfold conflicts_with. split; intros (off & Hh & Hr & Hne);
    exists off; (split; [|done]).
  - rewrite !held_app in Hh. destruct Hh as [Hh|[Hh|Hh]]; [|done|];
      apply Exists_exists in Hh as (iv & Hin & Hiv).
    + rewrite Forall_forall in Hb. specialize (Hb _ Hin). lia.
    + rewrite Forall_forall in Hc. specialize (Hc _ Hin). lia.
  - rewrite !held_app. tauto.
Qed.

(** The plan a non-empty payload gets. *)
Definition merge_plan (next offset : Z) (payload : bytes) (payload_start : Z)
  (l a : list (Z * Z)) (conflict : bool) : PendingMergePlan :=
  let pend := offset + zlen payload in
  mkMerge (zlen payload - ivs_bytes (clip offset pend a)) (ivs_bytes (clip offset pend a))
    (clip offset pend a) conflict (zlen l + 1 - zlen a)
    (if offset =? next then union_hi pend a - next else 0)
    ((offset =? next) && is_none (fst <$> head a)) (fst <$> head a) (zlen a)
    (union_lo offset a) (union_hi pend a) offset payload_start [] None.

Lemma plan_pending_merge_spec state lo offset payload ps next b a c :
  range_setup offset payload (pending state) b a c lo ->
  pages_match (flow_pages state) (pending state) ->
  zlen (pending state) + 1 <= usize_max -> next <= offset ->
  exists conflict,
    plan_pending_merge state offset payload ps next
      = Ok (merge_plan next offset payload ps (pending state) a conflict) /\
    (conflict = true <-> conflicts_with (flow_pages state) offset payload (pending state)).
Proof.
  intros HR Hm Hcnt Hno. pose proof HR as [Hsp Hwf H0 Hpe Hpl].
  unfold plan_pending_merge. rewrite (checked_add_ok u64_max offset (zlen payload)) by done. cbn [ok_or mbind outcome_bind].
  rewrite is_empty_zlen. destruct (Z.eqb_spec (zlen payload) 0); [lia|].
  set (pend := offset + zlen payload) in *.
  rewrite record_all_touches, (merge_candidates_touches _ _ _ _ Hwf) by lia.
  rewrite (split_filter _ _ _ _ _ _ Hsp) by lia.
  assert (exists lo', ivs_wf lo' a) as [lo' Hwa].
  { destruct Hsp as [Hl _ _ _]. rewrite Hl in Hwf.
    apply ivs_wf_app in Hwf as [_ [Hwf _]%ivs_wf_app]. eauto. }
  assert (gaps_ok offset pend a) as Hgok by (split; [lia|apply Hsp]).
  destruct (gaps_bytes _ _ _ _ Hwa Hgok) as [Hgb1 Hgb2].
  assert (0 <= ivs_bytes (gaps offset pend a)) as Hg0.
  { pose proof (gaps_bounds _ _ _ _ Hwa Hgok) as Hf. clear -Hf.
    induction Hf as [|[s e] g Hx _ IH]; cbn in *; lia. }
  assert (zlen (pending state) = zlen b + zlen a + zlen c) as Hlen.
  { rewrite (sp_eq _ _ _ _ _ _ Hsp), !zlen_app. lia. }
  pose proof (zlen_nonneg a). pose proof (zlen_nonneg b). pose proof (zlen_nonneg c).
  destruct (record_all_spec (flow_pages state) offset pend payload a
              (mkAcc None 0 offset pend 0 [] false)) as (cf & -> & Hcf);
    cbn [acc_count acc_overlapping].
  { eapply pages_match_sized, Hm. }
  { apply Forall_forall. intros iv Hin. eapply pages_match_covers; [exact Hm|].
    rewrite (sp_eq _ _ _ _ _ _ Hsp). set_solver. }
  { done. } { done. } { done. }
  { apply Hsp. }
  { eapply Forall_impl; [exact (ivs_wf_Forall _ _ Hwa)|]. cbn. lia. }
  { lia. }
  { unfold usize_max. lia. }
  cbn [mbind outcome_bind acc_overlapping acc_count acc_end acc_start acc_first acc_ranges acc_conflict ok_or].
  rewrite (checked_sub_ok (zlen payload)) by lia. cbn [mbind outcome_bind ok_or].
  rewrite (checked_add_ok usize_max (zlen (pending state))) by done. cbn [mbind outcome_bind ok_or].
  rewrite (checked_sub_ok (zlen (pending state) + 1)) by lia. cbn [mbind outcome_bind ok_or].
  rewrite (foldl_min_wf _ _ _ Hwa), (foldl_max_wf _ _ _ Hwa). fold (union_hi pend a).
  exists cf. split.
  - unfold merge_plan. fold pend.
    destruct (Z.eqb_spec offset next).
    + rewrite sub_u_ok by (unfold union_hi; lia). cbn. do 2 f_equal; lia.
    + cbn. do 2 f_equal; lia.
  - rewrite Hcf, (conflicts_with_split _ _ _ _ _ _ _ Hsp). cbn. split; [|by right].
    by intros [?|?].
Qed.

(** ** The result of a merge *)

(** The byte the stream has at [off]: the one already held wins. *)
Definition first_wins (pages : gmap Z Page) (l : list (Z * Z)) (offset : Z) (payload : bytes)
  (off : Z) : option Z :=
  if decide (held l off) then page_byte pages off else zget payload (off - offset).

Record merge_result (next offset : Z) (payload : bytes) (l : list (Z * Z))
  (pages : gmap Z Page) (l' : list (Z * Z)) (pages' : gmap Z Page) (out : bytes) : Prop := {
  mr_wf : ivs_wf (next + zlen out) l';
  mr_match : pages_match pages' l';
  mr_held : forall off, held l' off <->
    (held l off \/ offset <= off < offset + zlen payload) /\ next + zlen out <= off;
  mr_bytes : forall off, held l' off ->
    page_byte pages' off = first_wins pages l offset payload off;
  mr_out : forall off, next <= off < next + zlen out ->
    (held l off \/ offset <= off < offset + zlen payload) /\
    zget out (off - next) = first_wins pages l offset payload off;
  mr_total : ivs_bytes l' + zlen out
    = ivs_bytes l + (zlen payload - ivs_bytes (clip offset (offset + zlen payload) l))
}.

Lemma set_storage_id state : set_storage state (pending state) (flow_pages state) = state.
Proof. by destruct state. Qed.

Lemma affected_take lo b a c first :
  ivs_wf lo (b ++ a ++ c) -> fst <$> head a = Some first ->
  Forall (fun iv => iv.1 < first) b /\ Forall (fun iv => first <= iv.1) (a ++ c) /\
  ztake (zlen a) (range_from first (b ++ a ++ c)) = a.
Proof.
  destruct a as [|[s e] a]; [done|]. intros Hwf Hh. cbn in Hh. simplify_eq.
  destruct (ivs_wf_starts lo b (first, e) (a ++ c) Hwf) as [H1 H2].
  assert (Forall (fun iv => first <= iv.1) (((first, e) :: a) ++ c)) as H3.
  { cbn. constructor; [cbn; lia|]. eapply Forall_impl; [exact H2|]. cbn. lia. }
  split; [done|]. split; [done|]. rewrite range_from_mid by done.
  unfold ztake, zlen. rewrite Nat2Z.id. apply take_app_length.
Qed.

Lemma clip_split offset pend l b a c :
  ivs_split offset pend l b a c -> clip offset pend l = clip offset pend a.
Proof.
  intros [-> Hb _ Hc].
  assert (forall x y, clip offset pend (x ++ y) = clip offset pend x ++ clip offset pend y) as Happ.
  { intros x y. induction x as [|iv x IH]; [done|].
    cbn [app]. rewrite (clip_cons _ _ iv), (clip_cons _ _ iv x), IH. by rewrite app_assoc. }
  rewrite !Happ.
  assert (forall x, Forall (fun iv => iv.2 < offset \/ pend < iv.1) x -> clip offset pend x = []) as Hn.
  { induction 1 as [|[s e] x Hx _ IH]; [done|]. cbn in *. rewrite IH. case_bool. done. }
  rewrite (Hn b), (Hn c).
  - by rewrite app_nil_r.
  - eapply Forall_impl; [exact Hc|]. cbn. lia.
  - eapply Forall_impl; [exact Hb|]. cbn. lia.
Qed.

Section store_case.
Context (alloc : allocator) (state st1 : TcpFlowState) (next offset ps : Z)
  (payload segp : bytes) (b a c : list (Z * Z)) (conflict : bool).
Context (HR : range_setup offset payload (pending state) b a c next) (Hno : next < offset).
Context (Hm : pages_match (flow_pages state) (pending state)).
Context (Hpend : pending st1 = pending state) (Hpages : flow_pages st1 = flow_pages state).
Context (Hps : 0 <= ps <= zlen segp) (Hseg : zdrop ps segp = payload).

Notation l := (pending state).
Notation pages := (flow_pages state).
Notation plan := (merge_plan next offset payload ps l a conflict).

Lemma store_wfs : exists lo', ivs_wf lo' a.
Proof. eapply store_a_wf. exact HR. Qed.

(** Everything already held: the range lies inside one interval. *)
Lemma store_nothing_gaps :
  added_bytes plan = 0 -> gaps offset (offset + zlen payload) a = [].
Proof.
  intros Hadd. cbn in Hadd. destruct store_wfs as [lo' Hwa].
  pose proof (store_gaps_ok _ _ _ _ _ _ _ HR) as Hgok.
  destruct (gaps_bytes _ _ _ _ Hwa Hgok) as [_ Hgb].
  pose proof (gaps_bounds _ _ _ _ Hwa Hgok) as Hf.
  destruct (gaps _ _ a) as [|[s e] g] eqn:Eg; [done|]. exfalso.
  assert (0 <= ivs_bytes g) as Hg0.
  { apply Forall_cons in Hf as [_ Hf]. clear -Hf.
    induction Hf as [|[s e] g Hx _ IH]; cbn in *; lia. }
  apply Forall_cons in Hf as [Hf _]. cbn in *. lia.
Qed.

Lemma store_nothing_count : added_bytes plan = 0 -> segment_count plan = zlen l.
Proof.
  intros Hadd. pose proof (store_nothing_gaps Hadd) as Hnil. cbn.
  destruct store_wfs as [lo' Hwa]. pose proof HR as [Hsp _ _ _ Hpl].
  destruct a as [|[s e] [|[s' e'] a']].
  - cbn in Hnil. destruct (Z.ltb_spec offset (offset + zlen payload)); [done|lia].
  - rewrite zlen_cons, zlen_nil. lia.
  - exfalso. pose proof (sp_affected _ _ _ _ _ _ Hsp) as Ha.
    apply Forall_cons in Ha as [Ha1 Ha]. apply Forall_cons in Ha as [Ha2 _].
    cbn in *. apply app_nil in Hnil as [_ Hnil]. apply app_nil in Hnil as [Hnil _].
    destruct (Z.ltb_spec (Z.min (Z.max offset e) (offset + zlen payload))
      (Z.min s' (offset + zlen payload))); [done|lia].
Qed.

Lemma store_nothing_held off :
  added_bytes plan = 0 -> offset <= off < offset + zlen payload -> held l off.
Proof.
  intros Hadd Hoff. destruct store_wfs as [lo' Hwa].
  pose proof (store_gaps_ok _ _ _ _ _ _ _ HR) as Hgok.
  rewrite (sp_eq _ _ _ _ _ _ (rs_split _ _ _ _ _ _ _ HR)), !held_app.
  destruct (decide (held a off)) as [Ha|Ha]; [tauto|].
  pose proof (gaps_held _ _ _ _ off Hwa Hgok) as Hg. rewrite store_nothing_gaps in Hg by done.
  destruct (held_nil off). by apply Hg.
Qed.

Lemma store_nothing_pages :
  added_bytes plan = 0 ->
  filter (fun k => pages !! k = None) (page_keys offset (offset + zlen payload)) = [].
Proof.
  intros Hadd. apply filter_none, Forall_forall. intros k [_ Hk]%page_keys_in Hn.
  set (off := Z.max offset (k * PAGE_BYTES)).
  assert (offset <= off < offset + zlen payload /\ off / PAGE_BYTES = k) as [Hoff Hkey].
  { unfold overlap in Hk. split; [unfold off; lia|]. apply page_key_unique. unfold off, PAGE_BYTES in *. lia. }
  pose proof (held_cover _ _ (store_nothing_held off Hadd Hoff)) as Hpos. rewrite Hkey in Hpos.
  destruct (pages_match_Some _ _ _ Hm Hpos). congruence.
Qed.

Lemma store_nothing_result :
  added_bytes plan = 0 -> merge_result next offset payload l pages l pages [].
Proof.
  intros Hadd. pose proof HR as [Hsp Hwf H0 Hpe Hpl].
  split.
  - by rewrite zlen_nil, Z.add_0_r.
  - done.
  - intros off. rewrite zlen_nil. split; [|intros [[?|?] _]; [done|by apply store_nothing_held]].
    intros Hh. split; [by left|]. apply Exists_exists in Hh as (iv & Hiv & ?).
    pose proof (ivs_wf_bounds _ _ _ Hwf Hiv). lia.
  - intros off Hh. unfold first_wins. by rewrite decide_True.
  - intros off. rewrite zlen_nil. lia.
  - cbn in Hadd. rewrite zlen_nil, (clip_split _ _ _ _ _ _ Hsp). lia.
Qed.

(** Something new: the union replaces the affected intervals. *)
Lemma store_result pages' :
  pages_match pages' (b ++ (union_lo offset a, union_hi (offset + zlen payload) a) :: c) ->
  (forall off, held (b ++ (union_lo offset a, union_hi (offset + zlen payload) a) :: c) off ->
     page_byte pages' off = first_wins pages l offset payload off) ->
  merge_result next offset payload l pages
    (b ++ (union_lo offset a, union_hi (offset + zlen payload) a) :: c) pages' [].
Proof.
  intros Hm' Hby. pose proof HR as [Hsp Hwf H0 Hpe Hpl].
  pose proof (store_wf _ _ _ _ _ _ _ HR Hno) as Hwf'.
  split.
  - by rewrite zlen_nil, Z.add_0_r.
  - done.
  - intros off. rewrite zlen_nil, (store_held _ _ _ _ _ _ _ HR). split; [|naive_solver].
    intros Hh. split; [done|]. destruct Hh as [Hh|?]; [|lia].
    apply Exists_exists in Hh as (iv & Hiv & ?). pose proof (ivs_wf_bounds _ _ _ Hwf Hiv). lia.
  - done.
  - intros off. rewrite zlen_nil. lia.
  - destruct store_wfs as [lo' Hwa].
    destruct (gaps_bytes _ _ _ _ Hwa (store_gaps_ok _ _ _ _ _ _ _ HR)) as [Hg1 Hg2].
    rewrite zlen_nil, (clip_split _ _ _ _ _ _ Hsp).
    rewrite (sp_eq _ _ _ _ _ _ Hsp) at 1. rewrite !ivs_bytes_app. cbn. lia.
Qed.

Lemma apply_store plan' :
  materialize_pending_merge alloc state offset payload plan = Ok plan' ->
  exists l' pages',
    apply_pending_merge st1 plan' segp = Ok (set_storage st1 l' pages', None) /\
    merge_result next offset payload l pages l' pages' [] /\
    zlen l' = segment_count plan /\ direct_output plan' = false /\
    pages_len pages' = pages_len pages
      + zlen (filter (fun k => pages !! k = None) (page_keys offset (offset + zlen payload))).
Proof.
  pose proof HR as [Hsp Hwf H0 Hpe Hpl]. pose proof (sp_eq _ _ _ _ _ _ Hsp) as Hl.
  assert (segment_count plan = zlen b + 1 + zlen c) as Hsc.
  { cbn. rewrite Hl, !zlen_app. lia. }
  unfold materialize_pending_merge.
  assert (direct_output plan = false) as Hdir by (cbn; case_bool; done).
  assert (emitted_segment_bytes plan = 0) as Hem by (cbn; case_bool; done).
  rewrite Hdir, orb_false_r, Hem. cbn [Z.eqb].
  destruct (Z.eqb_spec (added_bytes plan) 0) as [Hadd|Hadd].
  { intros [= <-]. exists l, pages. unfold apply_pending_merge. rewrite Hadd. cbn [Z.eqb orb].
    assert (set_storage st1 l pages = st1) as -> by (rewrite <-Hpend, <-Hpages; apply set_storage_id).
    split; [done|].
    split; [by apply store_nothing_result|]. rewrite (store_nothing_count Hadd).
    split; [done|]. split; [done|]. rewrite (store_nothing_pages Hadd), zlen_nil. lia. }
  rewrite add_u_ok by done. cbn [mbind outcome_bind]. intros H. inv_ok H. injection H as <-.
  rename a0 into fresh.
  destruct (store_pages _ _ _ _ _ _ _ HR Hno _ _ _ Hm Ha) as (p1 & p2 & Hadd1 & Hins & Hm2 & Hby & Hlen).
  exists (b ++ (union_lo offset a, union_hi (offset + zlen payload) a) :: c), p2.
  split; [|split; [by apply store_result|split; [rewrite Hsc, zlen_app, zlen_cons; lia|split; [done|done]]]].
  unfold apply_pending_merge. unfold set_merge_storage.
  cbn [added_bytes direct_output emitted_segment_bytes merge_offset new_pages merge_payload_start
       first_affected affected_segment_count union_start union_end segment_count merge_output].
  rewrite (proj2 (Z.eqb_neq _ _) Hadd), Hdir, Hem, Hpend, Hpages. cbn [orb negb Z.eqb].
  change (merge_payload_start plan) with ps.
  rewrite Hadd1. cbn [mbind outcome_bind]. rewrite index_range_ok by lia. cbn [mbind outcome_bind].
  assert (zslice ps (zlen segp) segp = payload) as ->.
  { rewrite <-Hseg. unfold zslice. apply ztake_all. rewrite zlen_zdrop. lia. }
  change (merge_offset plan) with offset. rewrite add_u_ok by done. cbn [mbind outcome_bind].
  assert (exists fill, (match first_affected plan with
     | Some first => fill_gaps p1 payload offset (offset + zlen payload) offset
         (ztake (affected_segment_count plan) (range_from first l))
     | None => Ok (p1, offset)
     end) = fill /\ fill = fill_gaps p1 payload offset (offset + zlen payload) offset a) as (fill & -> & ->).
  { eexists. split; [done|]. cbn [first_affected affected_segment_count merge_plan].
    destruct (fst <$> head a) as [first|] eqn:Ef.
    - rewrite Hl in Hwf |- *. destruct (affected_take _ _ _ _ _ Hwf Ef) as (_ & _ & ->). done.
    - destruct a; done. }
  rewrite fill_gaps_insert_gaps, Hins. cbn [mbind outcome_bind].
  assert ((match first_affected plan with
     | Some first => remove_affected l p2 first false (Z.to_nat (affected_segment_count plan))
     | None => Ok (l, p2)
     end) = Ok (b ++ c, p2)) as ->.
  { cbn [first_affected affected_segment_count merge_plan].
    destruct (fst <$> head a) as [first|] eqn:Ef.
    - rewrite Hl in Hwf |- *. destruct (affected_take _ _ _ _ _ Hwf Ef) as (Hb1 & Hb2 & _).
      unfold zlen. rewrite Nat2Z.id. by apply (remove_affected_keep next).
    - destruct a; [|done]. by rewrite Hl. }
  cbn [mbind outcome_bind]. change (union_start plan) with (union_lo offset a).
  change (union_end plan) with (union_hi (offset + zlen payload) a).
  pose proof (store_wf _ _ _ _ _ _ _ HR Hno) as Hwf'.
  destruct (ivs_wf_starts _ _ _ _ Hwf') as [Hs1 Hs2]. cbn in Hs1, Hs2.
  rewrite bt_get_none.
  2:{ apply Forall_app. split; eapply Forall_impl; eauto; cbn; lia. }
  cbn [is_none is_some negb assert_ mbind outcome_bind]. rewrite bt_insert_mid by done.
  rewrite sub_u_ok by (cbn [from_bool]; pose proof (zlen_nonneg b); pose proof (zlen_nonneg c); lia).
  cbn [mbind outcome_bind from_bool]. rewrite Hsc, zlen_app, zlen_cons.
  rewrite (proj2 (Z.eqb_eq _ _)) by lia. done.
Qed.
End store_case.

Section emit_case.
Context (alloc : allocator) (state st1 : TcpFlowState) (offset ps : Z)
  (payload segp : bytes) (b a c : list (Z * Z)) (conflict : bool).
Context (HR : range_setup offset payload (pending state) b a c offset).
Context (Hm : pages_match (flow_pages state) (pending state)).
Context (Hpend : pending st1 = pending state) (Hpages : flow_pages st1 = flow_pages state).
Context (Hends : Forall (fun iv => iv.2 <= u64_max) (pending state)).

Notation l := (pending state).
Notation pages := (flow_pages state).
Notation ue := (union_hi (offset + zlen payload) a).
Notation plan := (merge_plan offset offset payload ps l a conflict).

Lemma emit_added : 0 < added_bytes plan.
Proof.
  destruct (emit_a_wf _ _ _ _ _ _ HR) as [Hwa _].
  pose proof (emit_gaps_ok _ _ _ _ _ _ HR) as Hgok.
  destruct (gaps_bytes _ _ _ _ Hwa Hgok) as [_ Hgb].
  pose proof (gaps_bounds _ _ _ _ Hwa Hgok) as Hf. pose proof (rs_payload _ _ _ _ _ _ _ HR).
  enough (0 < ivs_bytes (gaps offset (offset + zlen payload) a)) by (cbn; lia).
  destruct (gaps _ _ a) as [|[s e] g] eqn:Eg.
  - exfalso. destruct a as [|[s e] a']; cbn in Eg, Hwa.
    + destruct (Z.ltb_spec offset (offset + zlen payload)); [done|lia].
    + apply app_nil in Eg as [Eg _].
      destruct (Z.ltb_spec offset (Z.min s (offset + zlen payload))); [done|lia].
  - assert (0 <= ivs_bytes g) as Hg0.
    { apply Forall_cons in Hf as [_ Hf]. clear -Hf.
      induction Hf as [|[s' e'] g Hx _ IH]; cbn in *; lia. }
    apply Forall_cons in Hf as [Hf _]. cbn in *. lia.
Qed.

Lemma emit_ue_max : ue <= u64_max.
Proof. apply (emit_ue_bound _ _ _ _ _ _ HR); [done|]. apply HR. Qed.

Lemma emit_ue_gt : offset < ue.
Proof. destruct HR. unfold union_hi. lia. Qed.

Lemma emit_result pages' out :
  pages_match pages' c ->
  (forall off, held c off -> page_byte pages' off = page_byte pages off) ->
  zlen out = ue - offset ->
  (forall off, offset <= off < ue -> zget out (off - offset) = first_wins pages l offset payload off) ->
  merge_result offset offset payload l pages c pages' out.
Proof.
  intros Hm' Hby Hlen Hout. pose proof (emit_l _ _ _ _ _ _ HR) as Hl.
  pose proof (emit_c_wf _ _ _ _ _ _ HR) as Hcw. pose proof emit_ue_gt.
  assert (ue = offset + zlen out) as Hue by lia. rewrite Hue in Hout, Hcw.
  assert (forall off, held a off \/ offset <= off < offset + zlen payload <->
            offset <= off < offset + zlen out) as Hu.
  { intros off. rewrite (emit_held _ _ _ _ _ _ HR off). by rewrite Hue. }
  assert (forall off, held c off -> offset + zlen out < off) as Hc.
  { intros off (iv & Hin & Hiv)%Exists_exists. pose proof (ivs_wf_bounds _ _ _ Hcw Hin). lia. }
  assert (forall off, held l off <-> held a off \/ held c off) as Hlac.
  { intros off. by rewrite Hl, held_app. }
  split; try done.
  - intros off. specialize (Hu off). specialize (Hc off). specialize (Hlac off).
    split; [intros Hh; specialize (Hc Hh); split; [tauto|lia]|].
    intros [Hh Hge]. assert (~ (offset <= off < offset + zlen out)) by lia. tauto.
  - intros off Hh. unfold first_wins. rewrite decide_True by (apply Hlac; tauto). by apply Hby.
  - intros off Hoff. specialize (Hlac off). split; [|by apply Hout].
    specialize (Hu off). tauto.
  - destruct (emit_a_wf _ _ _ _ _ _ HR) as [Hwa _].
    destruct (gaps_bytes _ _ _ _ Hwa (emit_gaps_ok _ _ _ _ _ _ HR)) as [Hg1 Hg2].
    rewrite (emit_us _ _ _ _ _ _ HR) in Hg1.
    rewrite (clip_split _ _ _ _ _ _ (rs_split _ _ _ _ _ _ _ HR)).
    rewrite Hl at 1. rewrite ivs_bytes_app. lia.
Qed.

(** The in-order segment nothing pending touches is delivered as received. *)
Lemma apply_direct :
  a = [] ->
  materialize_pending_merge alloc state offset payload plan = Ok plan /\
  apply_pending_merge st1 plan segp = Ok (st1, None) /\
  merge_result offset offset payload l pages l pages payload /\
  direct_output plan = true /\ c = l /\ ue = offset + zlen payload.
Proof.
  intros Ha. assert (direct_output plan = true) as Hd.
  { cbn. rewrite Ha, Z.eqb_refl. done. }
  assert (c = l) as Hc by (by rewrite (emit_l _ _ _ _ _ _ HR), Ha).
  assert (ue = offset + zlen payload) as Hue by (rewrite Ha; unfold union_hi; cbn; lia).
  unfold materialize_pending_merge, apply_pending_merge. rewrite Hd, orb_true_r.
  split; [done|]. split; [done|]. split; [|done].
  rewrite <-Hc at 2. apply emit_result.
  - by rewrite Hc.
  - done.
  - lia.
  - intros off Hoff. unfold first_wins. rewrite decide_False; [done|].
    rewrite <-Hc. intros (iv & Hin & Hiv)%Exists_exists.
    pose proof (ivs_wf_bounds _ _ _ (emit_c_wf _ _ _ _ _ _ HR) Hin). lia.
Qed.

(** Delivering more than the segment: one allocation, then the payload
    overwritten by what was already held. *)
Lemma materialize_emit :
  a <> [] ->
  exists out,
    materialize_pending_merge alloc state offset payload plan
      = (_ ← try_reserve_exact alloc AllocOutput (ue - offset);
         Ok (set_merge_storage plan [] (Some out))) /\
    zlen out = ue - offset /\
    (forall off, offset <= off < ue ->
       zget out (off - offset) = first_wins pages l offset payload off).
Proof.
  intros Hne. pose proof HR as [Hsp Hwf H0 Hpe Hpl]. pose proof (emit_l _ _ _ _ _ _ HR) as Hl.
  pose proof emit_added as Hadd. pose proof emit_ue_gt as Hgt. pose proof emit_ue_max as Hmx.
  destruct (fst <$> head a) as [first|] eqn:Ef; [|by destruct a].
  rewrite Hl in Hwf.
  destruct (affected_take offset [] a c first Hwf Ef) as (_ & _ & Htake). cbn [app] in Htake.
  assert (zlen (zrep (ue - offset) 0) = ue - offset) as Hz by (rewrite zlen_zrep; lia).
  assert (zlen payload <= ue - offset) as Hple by (unfold union_hi; lia).
  destruct (emit_output _ _ _ _ _ _ HR pages (overwrite (zrep (ue - offset) 0) 0 payload))
    as (out & Hcp & Hol & Hog); [done|done|rewrite zlen_overwrite; lia| |].
  { intros i Hi. rewrite zget_overwrite by lia. repeat case_bool. f_equal. lia. }
  exists out. split; [|done]. unfold materialize_pending_merge.
  rewrite (proj2 (Z.eqb_neq _ _)) by lia.
  assert (direct_output plan = false) as -> by (cbn; rewrite Ef; apply andb_false_r).
  assert (emitted_segment_bytes plan = ue - offset) as -> by (cbn; by rewrite Z.eqb_refl).
  cbn [orb]. rewrite (proj2 (Z.eqb_neq _ _)) by lia.
  destruct (try_reserve_exact _ _ _) as [[]| |]; [|done|done]. rewrite !Ok_bind.
  change (union_start plan) with (union_lo offset a). rewrite (emit_us _ _ _ _ _ _ HR).
  rewrite sub_u_ok, Ok_bind, Z.sub_diag by lia. rewrite copy_at_ok, Ok_bind by lia.
  change (first_affected plan) with (fst <$> head a). rewrite Ef.
  change (affected_segment_count plan) with (zlen a). rewrite Hl at 1.
  rewrite Htake, Hcp. done.
Qed.

Lemma apply_emit plan' :
  a <> [] ->
  materialize_pending_merge alloc state offset payload plan = Ok plan' ->
  exists out pages',
    apply_pending_merge st1 plan' segp = Ok (set_storage st1 c pages', Some out) /\
    merge_result offset offset payload l pages c pages' out /\
    zlen out = ue - offset /\ zlen c = segment_count plan - 1 /\ direct_output plan' = false /\
    pages_len pages' = remaining_pages pages l offset ue.
Proof.
  intros Hne. pose proof (emit_l _ _ _ _ _ _ HR) as Hl. pose proof (rs_wf _ _ _ _ _ _ _ HR) as Hwf.
  pose proof emit_added as Hadd. pose proof emit_ue_gt as Hgt.
  destruct (fst <$> head a) as [first|] eqn:Ef; [|by destruct a].
  assert (segment_count plan = zlen c + 1) as Hsc by (cbn; rewrite Hl, zlen_app; lia).
  rewrite Hl in Hwf.
  destruct (affected_take offset [] a c first Hwf Ef) as (Hb1 & Hb2 & _). cbn [app] in Hb2.
  assert (pages_match pages ([] ++ a ++ c)) as Hm0 by (cbn; by rewrite <-Hl).
  destruct (remove_affected_emit offset [] a c pages first Hwf Hm0 Hb1 Hb2)
    as (p2 & Hrem & Hm2 & Hby2). cbn [app] in Hrem, Hm2, Hby2.
  destruct (materialize_emit Hne) as (out & -> & Hol & Hog).
  intros H. inv_ok H. injection H as <-. exists out, p2.
  split; [|split; [by apply emit_result|split; [done|split; [lia|split; [|]]]]].
  2:{ cbn. rewrite Ef. apply andb_false_r. }
  2:{ by apply (emit_remaining_count _ _ _ _ _ _ HR). }
  unfold apply_pending_merge, set_merge_storage.
  cbn [added_bytes direct_output emitted_segment_bytes merge_offset new_pages merge_payload_start
       first_affected affected_segment_count union_start union_end segment_count merge_output].
  rewrite (proj2 (Z.eqb_neq (added_bytes plan) 0)) by lia.
  assert (direct_output plan = false) as -> by (cbn; rewrite Ef; apply andb_false_r).
  assert (emitted_segment_bytes plan = ue - offset) as -> by (cbn; by rewrite Z.eqb_refl).
  cbn [orb]. rewrite (proj2 (Z.eqb_neq (ue - offset) 0)) by lia. cbn [negb]. rewrite Ok_bind.
  change (first_affected plan) with (fst <$> head a). rewrite Ef, Hpend, Hpages.
  change (affected_segment_count plan) with (zlen a).
  replace (Z.to_nat (zlen a)) with (length a) by (unfold zlen; lia).
  rewrite Hl at 1. rewrite Hrem, Ok_bind, Ok_bind, Hsc.
  rewrite sub_u_ok by (cbn [from_bool]; pose proof (zlen_nonneg c); lia).
  rewrite Ok_bind. cbn [from_bool]. rewrite (proj2 (Z.eqb_eq _ _)) by lia. done.
Qed.
End emit_case.
