(* ===== verification/TcpFlow.v ===== *)
(** * The per-flow invariant and the history of delivered bytes

    What [TcpFlowState] maintains between calls ([flow_wf]), and the functions
    of [analysis/reassembly/tcp/state.rs] over a well-formed flow: comparing a
    retransmission with the delivered bytes, trimming, resizing and appending
    to the history. *)

From stdpp Require Import base tactics option list numbers gmap.
From Stdlib Require Import ZArith Lia.
From S2P Require Import Prelude Ordered Flow TcpModel TcpHistory TcpPages TcpState TcpPlan TcpCommit.
From S2P Require Import TcpIntervals TcpStorage TcpMerge.

(** ** The invariant *)

Record flow_wf (L : Limits) (st : TcpFlowState) : Prop := {
  fw_base : 0 <= base_sequence st <= u32_max;
  fw_next : 0 <= next_offset st <= u64_max;
  fw_ivs : ivs_wf (next_offset st) (pending st);
  fw_match : pages_match (flow_pages st) (pending st);
  fw_ends : Forall (fun iv => iv.2 <= u64_max) (pending st);
  fw_bytes : pending_bytes st = ivs_bytes (pending st);
  fw_hist : history_wf (emitted_history st);
  fw_start : 0 <= history_start_offset st;
  fw_window : history_start_offset st + len (emitted_history st) = next_offset st;
  fw_max : pending_bytes st + len (emitted_history st) <= max_bytes_per_flow L;
  fw_cap : capacity (emitted_history st) <= max_bytes_per_flow L;
  fw_segments : zlen (pending st) <= max_segments_per_flow L;
  fw_fin : forall f, fin_offset st = Some f ->
    next_offset st < f <= u64_max /\ Forall (fun iv => iv.2 <= f) (pending st)
}.

(** What the decoder guarantees of a segment: field widths and a payload that
    fits in memory. *)
Record segment_ok (seg : Segment) : Prop := {
  sok_sequence : 0 <= seg_sequence seg <= u32_max;
  sok_payload : zlen (seg_payload seg) <= isize_max
}.

Lemma flow_state_new_wf L base now d :
  limits_ok L -> 0 <= base <= u32_max -> flow_wf L (flow_state_new base now d).
Proof.
  intros HL Hb. destruct HL.
  split; cbn; unfold u64_max, u32_max in *; rewrite ?zlen_nil;
    try apply history_default_wf; try done; try lia.
  change (capacity history_default) with 0. lia.
Qed.

Lemma ivs_count lo l : ivs_wf lo l -> 2 * zlen l <= ivs_end lo l - lo.
Proof.
  revert lo. induction l as [|[s e] l IH]; intros lo H; [unfold zlen; cbn; lia|].
  cbn in H |- *.
  destruct H as (? & ? & H). specialize (IH _ H). rewrite zlen_cons. lia.
Qed.

Lemma flow_wf_count L st : flow_wf L st -> zlen (pending st) + 1 <= usize_max.
Proof.
  intros [? ? Hi ? He ? ? ? ? ? ? ? ?]. pose proof (ivs_count _ _ Hi).
  assert (ivs_end (next_offset st) (pending st) <= u64_max) as Hle.
  { clear -He fw_next0. destruct fw_next0 as [_ Hn]. revert Hn. generalize (next_offset st).
    induction He as [|[s e] l Hx _ IH]; intros n Hn; cbn in *; auto. }
  unfold usize_max, u64_max in *. lia.
Qed.

(** ** The last [n] bytes of a string *)

Definition keep_last (n : Z) (l : bytes) : bytes := zdrop (zlen l - n) l.

Lemma zlen_keep_last n l : 0 <= n -> zlen (keep_last n l) = Z.min n (zlen l).
Proof. intros. unfold keep_last. rewrite zlen_zdrop. pose proof (zlen_nonneg l). lia. Qed.

Lemma keep_last_all n l : zlen l <= n -> keep_last n l = l.
Proof. intros. unfold keep_last, zdrop. by replace (Z.to_nat _) with 0%nat by lia. Qed.

Lemma keep_last_0 l : keep_last 0 l = [].
Proof. apply zlen_0. rewrite zlen_keep_last by lia. pose proof (zlen_nonneg l). lia. Qed.

Lemma zdrop_zslice n (l : bytes) : 0 <= n -> n <= zlen l -> zslice n (zlen l) l = zdrop n l.
Proof. intros. unfold zslice. apply ztake_all. rewrite zlen_zdrop. lia. Qed.

Lemma keep_last_app n d out :
  0 <= n ->
  keep_last n (d ++ out) =
  if zlen out <=? n then zdrop (zlen d + zlen out - n) d ++ out else zdrop (zlen out - n) out.
Proof.
  intros. unfold keep_last, zdrop. rewrite zlen_app, drop_app.
  pose proof (zlen_nonneg d). pose proof (zlen_nonneg out). unfold zlen in *.
  destruct (Z.leb_spec (Z.of_nat (length out)) n).
  - f_equal. by replace (Z.to_nat _ - length d)%nat with 0%nat by lia.
  - rewrite (drop_ge d) by lia. cbn. f_equal. lia.
Qed.

Lemma keep_last_keep_last a b d out :
  0 <= b -> Z.min b (zlen d + zlen out) <= Z.min a (zlen d) + zlen out -> 0 <= a ->
  keep_last b (keep_last a d ++ out) = keep_last b (d ++ out).
Proof.
  intros Hb Hle Ha. rewrite !keep_last_app by done. rewrite zlen_keep_last by done.
  pose proof (zlen_nonneg d). pose proof (zlen_nonneg out).
  case_bool; [|done]. f_equal. unfold keep_last, zdrop. rewrite drop_drop. f_equal. unfold zlen in *. lia.
Qed.

(** ** Comparing a retransmission with the delivered bytes *)

(** Some byte of [payload] at stream position [off] differs from the one still
    in the history. *)
Definition history_differs (st : TcpFlowState) (offset : Z) (payload : bytes) : Prop :=
  exists off, offset <= off < offset + zlen payload /\
    history_start_offset st <= off < next_offset st /\
    zget payload (off - offset)
      <> zget (contents (emitted_history st)) (off - history_start_offset st).

Lemma bytes_differ (a b : bytes) :
  zlen a = zlen b -> a <> b <-> exists i, 0 <= i < zlen a /\ zget a i <> zget b i.
Proof.
  intros Hl. split.
  - intros Hne. destruct (decide (Exists (fun i => zget a i <> zget b i) (Z.of_nat <$> seq 0 (length a))))
      as [He|He].
    + apply Exists_exists in He as (i & Hin & Hi). apply list_elem_of_fmap in Hin as (n & -> & Hn).
      apply elem_of_seq in Hn. exists (Z.of_nat n). unfold zlen. split; [lia|done].
    + exfalso. apply Hne, zget_ext. intros i Hi.
      destruct (decide (i < zlen a)); [|by rewrite !zget_ge by lia].
      destruct (decide (zget a i = zget b i)); [done|]. exfalso. apply He, Exists_exists.
      exists i. split; [|done]. apply list_elem_of_fmap. exists (Z.to_nat i).
      rewrite elem_of_seq. unfold zlen in *. lia.
  - intros (i & _ & Hi) ->. done.
Qed.

Lemma bytes_differ_app (head tail a : bytes) :
  zlen head <= zlen a ->
  negb (bytes_eqb head (zslice 0 (zlen head) a)) || negb (bytes_eqb tail (zslice (zlen head) (zlen a) a))
    = negb (bytes_eqb (head ++ tail) a).
Proof.
  intros Hl. pose proof (zlen_nonneg head).
  rewrite zdrop_zslice by done. unfold zslice. rewrite Z.sub_0_r, zdrop_0.
  rewrite <-negb_andb. f_equal. apply eq_true_iff_eq.
  rewrite andb_true_iff, !bytes_eqb_spec. split.
  - intros [E1 E2]. rewrite E1 at 1. rewrite E2 at 1. apply ztake_zdrop_app.
  - intros <-. unfold ztake, zdrop, zlen. rewrite Nat2Z.id, take_app_length, drop_app_length. done.
Qed.

Lemma emitted_history_conflicts_spec L st offset payload :
  flow_wf L st -> 0 <= offset -> offset + zlen payload <= next_offset st ->
  exists conflict, emitted_history_conflicts st offset payload = Ok conflict /\
    (conflict = true <-> history_differs st offset payload).
Proof.
  intros Hw H0 Hle. pose proof Hw as [? ? ? ? ? ? Hh ? ? ? ? ? ?]. pose proof Hh as [? ? ? ?].
  pose proof (zlen_nonneg payload).
  set (hs := history_start_offset st) in *. set (h := emitted_history st) in *.
  unfold emitted_history_conflicts. fold hs h.
  rewrite checked_add_ok by lia.
  assert (saturating_add u64_max hs (len h) = next_offset st) as -> by (unfold saturating_add; lia).
  set (lo := Z.max offset hs). set (hi := Z.min (offset + zlen payload) (next_offset st)).
  destruct (Z.leb_spec hi lo).
  { exists false. split; [done|]. split; [done|]. intros (off & ? & ? & _). lia. }
  unfold saturating_sub. rewrite !Z.max_r by lia.
  unfold saturating_add. rewrite Z.min_r by (unfold usize_max, u64_max in *; lia).
  rewrite (proj2 (get_range_Some payload (lo - offset) (zlen payload) _) ltac:(repeat split; lia)).
  cbn [mbind option_bind]. rewrite zdrop_zslice by lia.
  rewrite (proj2 (get_range_Some (zdrop (lo - offset) payload) 0 (hi - lo) _)
             ltac:(rewrite zlen_zdrop; repeat split; lia)).
  destruct (history_slices_spec h (lo - hs) (lo - hs + (hi - lo))) as (one & two & -> & Hc); try done; try lia.
  cbn [mbind outcome_bind].
  assert (forall k (l : bytes), zslice 0 k l = ztake k l) as Hz.
  { intros. unfold zslice. by rewrite Z.sub_0_r, zdrop_0. }
  rewrite (Hz (hi - lo)). set (part := ztake (hi - lo) (zdrop (lo - offset) payload)).
  assert (zlen part = hi - lo) as Hpl by (unfold part; rewrite zlen_ztake, zlen_zdrop; lia).
  assert (zlen (one ++ two) = hi - lo) as H12.
  { rewrite Hc, zlen_zslice; rewrite ?zlen_contents by done; lia. }
  rewrite zlen_app in H12. pose proof (zlen_nonneg one). pose proof (zlen_nonneg two).
  rewrite !index_range_ok by lia. cbn [mbind outcome_bind].
  eexists. split; [done|]. rewrite bytes_differ_app by lia.
  rewrite negb_true_iff, <-not_true_iff_false, bytes_eqb_spec, bytes_differ
    by (rewrite zlen_app; lia).
  rewrite Hc. split.
  - intros (i & Hi & Hne). exists (lo + i). rewrite zlen_zslice in Hi by (rewrite ?zlen_contents by done; lia).
    split; [lia|]. split; [lia|].
    intros E. apply Hne. unfold part. rewrite zget_ztake, zget_zslice by lia.
    repeat case_bool. rewrite zget_zdrop by lia.
    replace (lo - offset + i) with (lo + i - offset) by lia.
    replace (lo - hs + i) with (lo + i - hs) by lia. done.
  - intros (off & Ho & Hhs & Hne). exists (off - lo).
    rewrite zlen_zslice by (rewrite ?zlen_contents by done; lia). split; [lia|].
    intros E. apply Hne. unfold part in E. rewrite zget_ztake, zget_zslice in E by lia.
    repeat case_bool. rewrite zget_zdrop in E by lia.
    replace (lo - offset + (off - lo)) with (off - offset) in E by lia.
    replace (lo - hs + (off - lo)) with (off - hs) in E by lia. done.
Qed.

(** ** Trimming, resizing, appending *)

(** [st]'s history stores [d], which ends at stream position [pos]. *)
Record history_is (st : TcpFlowState) (d : bytes) (pos : Z) : Prop := {
  hi_wf : history_wf (emitted_history st);
  hi_contents : contents (emitted_history st) = d;
  hi_start : 0 <= history_start_offset st;
  hi_end : history_start_offset st + zlen d = pos;
  hi_pos : pos <= u64_max
}.

Lemma history_is_len st d pos : history_is st d pos -> len (emitted_history st) = zlen d.
Proof. intros [Hwf <- _ _ _]. by rewrite zlen_contents. Qed.

Lemma flow_wf_history L st :
  flow_wf L st -> history_is st (contents (emitted_history st)) (next_offset st).
Proof.
  intros [? ? ? ? ? ? Hh ? ? ? ? ? ?]. split; try done; [|lia]. rewrite zlen_contents by done. lia.
Qed.

Lemma set_history_id st : set_history st (history_start_offset st) (emitted_history st) = st.
Proof. by destruct st. Qed.

Lemma trim_emitted_history_spec st d pos cap :
  history_is st d pos -> 0 <= cap ->
  exists h', trim_emitted_history st cap = Ok (set_history st (pos - zlen (keep_last cap d)) h') /\
    history_wf h' /\ contents h' = keep_last cap d /\ capacity h' = capacity (emitted_history st).
Proof.
  intros HI Hc. pose proof (history_is_len _ _ _ HI) as Hl. pose proof HI as [Hwf Hd H0 He Hp].
  pose proof (zlen_nonneg d). unfold trim_emitted_history. rewrite Hl, zlen_keep_last by done.
  destruct (Z.ltb_spec cap (zlen d)).
  - unfold saturating_sub, saturating_add. rewrite Z.max_r, Z.min_r by lia.
    destruct (drain_prefix_spec (emitted_history st) (zlen d - cap)) as (h' & -> & Hw' & Hcap & Hd');
      [done|lia|].
    cbn [mbind outcome_bind]. exists h'.
    split; [do 2 f_equal; lia|]. split; [done|]. split; [|done]. by rewrite Hd', Hd.
  - exists (emitted_history st). split; [|split; [done|split; [|done]]].
    + replace (pos - Z.min cap (zlen d)) with (history_start_offset st) by lia.
      by rewrite set_history_id.
    + rewrite keep_last_all by lia. done.
Qed.

Lemma prepare_emitted_history_spec alloc st d pos keep cap o :
  history_is st d pos -> 0 <= keep -> Z.min keep (zlen d) <= cap ->
  prepare_emitted_history alloc st keep cap = Ok o ->
  match o with
  | None => capacity (emitted_history st) = cap
  | Some h => history_wf h /\ contents h = keep_last keep d /\ capacity h = cap
  end.
Proof.
  intros HI Hk Hcap. pose proof (history_is_len _ _ _ HI) as Hl. pose proof HI as [Hwf Hd H0 He Hp].
  pose proof (zlen_nonneg d) as Hdn. unfold prepare_emitted_history.
  destruct (Z.eqb_spec (capacity (emitted_history st)) cap); [by intros [= <-]|].
  intros H. inv_ok H. rename a into h0. apply history_new_Ok in Ha as (Hw0 & Hc0 & Hn0); [|lia].
  rewrite Hl in H. unfold saturating_sub in H.
  destruct (history_slices_spec (emitted_history st) (Z.max 0 (zlen d - keep)) (zlen d))
    as (one & two & Hsl & H12); [done|lia|lia|lia|].
  rewrite Hsl in H. cbn [mbind outcome_bind] in H. rewrite Hd in H12.
  rewrite zdrop_zslice in H12 by lia.
  assert (one ++ two = keep_last keep d) as Hkl.
  { rewrite H12. unfold keep_last, zdrop. f_equal. lia. }
  pose proof (zlen_app one two) as Hll. rewrite Hkl, zlen_keep_last in Hll by done.
  pose proof (zlen_nonneg one). pose proof (zlen_nonneg two).
  pose proof (zlen_contents _ Hw0) as Hlen0. rewrite Hn0, zlen_nil in Hlen0.
  destruct (history_extend_spec h0 one) as (h1 & E1 & Hw1 & Hc1 & Hn1); [done|lia|].
  rewrite E1 in H. cbn [mbind outcome_bind] in H.
  pose proof (zlen_contents _ Hw1) as Hlen1. rewrite Hn1, Hn0 in Hlen1. cbn in Hlen1.
  destruct (history_extend_spec h1 two) as (h2 & E2 & Hw2 & Hc2 & Hn2); [done|lia|].
  rewrite E2 in H. cbn [mbind outcome_bind] in H. injection H as <-.
  split; [done|]. split; [|lia]. by rewrite Hn2, Hn1, Hn0.
Qed.

Lemma prepare_emitted_history_not_Panic alloc st d pos keep cap :
  history_is st d pos -> 0 <= keep -> Z.min keep (zlen d) <= cap ->
  prepare_emitted_history alloc st keep cap <> Panic.
Proof.
  intros HI Hk Hcap. pose proof (history_is_len _ _ _ HI) as Hl. pose proof HI as [Hwf Hd H0 He Hp].
  pose proof (zlen_nonneg d). unfold prepare_emitted_history. case_bool; [done|].
  apply bind_not_Panic. { unfold history_new, try_reserve_exact. by destruct (_ && _). }
  intros h0 (Hw0 & Hc0 & Hn0)%history_new_Ok; [|lia].
  rewrite Hl. unfold saturating_sub.
  destruct (history_slices_spec (emitted_history st) (Z.max 0 (zlen d - keep)) (zlen d))
    as (one & two & -> & H12); [done|lia|lia|lia|]. cbn [mbind outcome_bind].
  rewrite Hd, zdrop_zslice in H12 by lia. pose proof (zlen_app one two) as Hll.
  rewrite H12, zlen_zdrop in Hll.
  pose proof (zlen_nonneg one). pose proof (zlen_nonneg two).
  pose proof (zlen_contents _ Hw0) as Hlen0. rewrite Hn0, zlen_nil in Hlen0.
  destruct (history_extend_spec h0 one) as (h1 & -> & Hw1 & Hc1 & Hn1); [done|lia|].
  cbn [mbind outcome_bind].
  pose proof (zlen_contents _ Hw1) as Hlen1. rewrite Hn1, Hn0 in Hlen1. cbn in Hlen1.
  by destruct (history_extend_spec h1 two) as (h2 & -> & _ & _ & _); [done|lia|].
Qed.

Lemma append_emitted_history_spec st d pos out cap :
  history_is st d pos -> pos + zlen out <= u64_max -> 0 <= cap ->
  Z.min (zlen d + zlen out) cap <= capacity (emitted_history st) ->
  exists h', append_emitted_history st pos out cap
      = Ok (set_history st (pos + zlen out - zlen (keep_last cap (d ++ out))) h') /\
    history_wf h' /\ contents h' = keep_last cap (d ++ out) /\
    capacity h' = capacity (emitted_history st).
Proof.
  intros HI Hmax Hc Hroom. pose proof (history_is_len _ _ _ HI) as Hl.
  pose proof HI as [Hwf Hd H0 He Hp]. pose proof (zlen_nonneg d). pose proof (zlen_nonneg out).
  pose proof (hwf_alloc _ Hwf). pose proof (history_clear_spec _ Hwf) as (Hcw & Hcc & Hcn).
  unfold append_emitted_history. rewrite zlen_keep_last, zlen_app by done.
  unfold history_is_empty. rewrite Hl.
  assert (saturating_add u64_max pos (zlen out) = pos + zlen out) as -> by (unfold saturating_add; lia).
  destruct (Z.eqb_spec cap 0) as [->|Hcz].
  { exists (history_clear (emitted_history st)). split; [do 2 f_equal; lia|].
    split; [done|]. split; [|done]. by rewrite keep_last_0. }
  assert (saturating_add u64_max (history_start_offset st) (zlen d) = pos) as ->
    by (unfold saturating_add; lia).
  rewrite Z.eqb_refl, orb_true_r. cbn [assert_ mbind outcome_bind].
  assert (Z.min (saturating_add usize_max (zlen d) (zlen out)) cap = Z.min (zlen d + zlen out) cap) as ->.
  { unfold saturating_add. destruct (Z.le_ge_cases (zlen d + zlen out) usize_max); [lia|].
    unfold isize_max, usize_max, u64_max in *. lia. }
  set (keep := Z.min (zlen d + zlen out) cap) in *.
  assert (0 <= keep <= zlen d + zlen out) as Hkeep by (unfold keep; lia).
  assert (saturating_sub (pos + zlen out) keep = pos + zlen out - keep) as ->
    by (unfold saturating_sub; lia).
  assert (exists h', (if negb (zlen d =? 0) && (pos + zlen out - keep <? pos)
     then '(drained, h') ← drain_prefix (emitted_history st)
                             (saturating_sub (pos + zlen out - keep) (history_start_offset st));
          Ok (if drained : bool then h' else history_clear (emitted_history st))
     else Ok (history_clear (emitted_history st))) = @Ok Error _ h' /\
     history_wf h' /\ capacity h' = capacity (emitted_history st) /\
     contents h' = zdrop (zlen d + zlen out - keep) d) as (h1 & -> & Hw1 & Hc1 & Hn1).
  { destruct (Z.eqb_spec (zlen d) 0) as [Hz|Hz]; cbn [negb andb].
    { exists (history_clear (emitted_history st)). rewrite Hcn. apply zlen_0 in Hz as ->.
      split; [done|]. split; [done|]. split; [done|]. unfold zdrop. by rewrite drop_nil. }
    destruct (Z.ltb_spec (pos + zlen out - keep) pos); cycle 1.
    { exists (history_clear (emitted_history st)). rewrite Hcn, zdrop_all by lia. done. }
    unfold saturating_sub. rewrite Z.max_r by lia.
    destruct (drain_prefix_spec (emitted_history st) (pos + zlen out - keep - history_start_offset st))
      as (h' & -> & Hw' & Hcap & Hd'); [done|lia|].
    exists h'. split; [done|]. split; [done|]. split; [done|]. rewrite Hd', Hd. f_equal. lia. }
  cbn [mbind outcome_bind].
  assert (default [] (get_range out (saturating_sub (pos + zlen out - keep) pos) (zlen out))
          = zdrop (zlen out - keep) out) as ->.
  { unfold saturating_sub. rewrite (proj2 (get_range_Some out (Z.max 0 (pos + zlen out - keep - pos)) (zlen out) _) ltac:(repeat split; lia)).
    cbn. rewrite zdrop_zslice by lia. unfold zdrop. f_equal. lia. }
  pose proof (zlen_contents _ Hw1) as Hlen1. rewrite Hn1, zlen_zdrop in Hlen1.
  destruct (history_extend_spec h1 (zdrop (zlen out - keep) out)) as (h2 & -> & Hw2 & Hc2 & Hn2); [done| |].
  { rewrite zlen_zdrop. lia. }
  exists h2. split; [cbn; do 2 f_equal; lia|]. split; [done|]. split; [|lia].
  rewrite Hn2, Hn1, keep_last_app by done. case_bool.
  - f_equal; unfold zdrop; [f_equal; unfold keep; lia|].
    by replace (Z.to_nat _) with 0%nat by (unfold keep; lia).
  - rewrite zdrop_all by lia. cbn. f_equal. unfold keep. lia.
Qed.
