(* ===== verification/TcpPush.v ===== *)
(** * One push on one flow

    [normalize_payload], the accounting of [pending/accounting.rs] and
    [commit_flow_push] over a well-formed flow: no step panics, the predicted
    charges are the charges of the resulting flow, and the resulting flow is
    well-formed. *)

From stdpp Require Import base tactics option list numbers gmap.
From Stdlib Require Import ZArith Lia.
From S2P Require Import Prelude Ordered Flow TcpModel TcpHistory TcpPages TcpState TcpPlan TcpCommit.
From S2P Require Import TcpIntervals TcpStorage TcpMerge TcpFlow.

(** ** Placing a segment in the stream *)

Definition first_payload_sequence (seg : Segment) : Z :=
  wrapping_add32 (seg_sequence seg) (from_bool (seg_syn seg)).

Definition expected_sequence (st : TcpFlowState) : Z :=
  wrapping_add32 (base_sequence st) (as_u32 (next_offset st)).

(** The stream offset of the segment's first payload byte; negative before the
    first byte of the flow. *)
Definition segment_position (st : TcpFlowState) (seg : Segment) : Z :=
  next_offset st + serial_offset (first_payload_sequence seg) (expected_sequence st).

(** A one-byte segment just before the next expected byte, without flags. *)
Definition keep_alive (st : TcpFlowState) (seg : Segment) : bool :=
  (zlen (seg_payload seg) =? 1) && (segment_position st seg + 1 =? next_offset st)
  && (0 <=? segment_position st seg) && negb (seg_syn seg || seg_fin seg || seg_rst seg).

Record incoming_ok (L : Limits) (st : TcpFlowState) (seg : Segment) (inc : IncomingPayload)
  : Prop := {
  io_sequence : in_sequence inc = first_payload_sequence seg;
  io_start : in_payload_start inc
    = Z.min (Z.max 0 (next_offset st - segment_position st seg)) (zlen (seg_payload seg));
  io_payload : in_payload inc = zdrop (in_payload_start inc) (seg_payload seg);
  io_offset : in_offset inc = Z.max (next_offset st) (segment_position st seg);
  io_end : in_remaining_end inc = in_offset inc + zlen (in_payload inc);
  io_max : in_remaining_end inc <= u64_max;
  io_window : in_remaining_end inc <= next_offset st + max_bytes_per_flow L;
  io_retransmitted : in_retransmitted inc = in_payload_start inc;
  io_fin : in_fin_offset inc
    = if seg_fin seg
      then u64_try_from (segment_position st seg + zlen (seg_payload seg)) else None;
  io_fin_next : forall f, in_fin_offset inc = Some f -> next_offset st <= f <= u64_max;
  io_fin_same : forall f g, in_fin_offset inc = Some f -> fin_offset st = Some g -> f = g;
  io_fin_end : forall g, fin_offset st = Some g -> in_remaining_end inc <= g;
  io_conflict : in_conflicting inc = true <->
    keep_alive st seg = false /\
    history_differs st (Z.max 0 (segment_position st seg))
      (zslice (Z.min (Z.max 0 (- segment_position st seg)) (zlen (seg_payload seg)))
         (in_payload_start inc) (seg_payload seg))
}.

Lemma u64_try_from_Some x y : u64_try_from x = Some y <-> y = x /\ 0 <= x <= u64_max.
Proof.
  unfold u64_try_from. destruct (Z.leb_spec 0 x), (Z.leb_spec x u64_max); cbn;
    naive_solver lia.
Qed.

Lemma validate_sequence_bounds_spec L st offset payload fin :
  safe (validate_sequence_bounds L st offset payload fin) (fun e =>
    e = offset + zlen payload /\ e <= u64_max /\
    offset <= next_offset st + max_bytes_per_flow L /\
    e <= next_offset st + max_bytes_per_flow L /\
    (forall f, fin = Some f -> next_offset st <= f) /\
    (forall f g, fin = Some f -> fin_offset st = Some g -> f = g) /\
    (forall g, fin_offset st = Some g -> e <= g)).
Proof.
  unfold validate_sequence_bounds.
  destruct (checked_add u64_max (next_offset st) _) as [w|] eqn:Ew; [|done].
  destruct (checked_add u64_max offset _) as [e|] eqn:Ee; [|done].
  apply checked_add_Some in Ew as [-> _]. apply checked_add_Some in Ee as [-> ?].
  cbn [ok_or mbind outcome_bind].
  destruct (fin_offset st) as [g|], fin as [f|]; cbn [mbind outcome_bind];
    repeat (case_bool; cbn [mbind outcome_bind]); try done;
    repeat split; intros; simplify_eq; try lia.
Qed.

(** The bytes of a segment before the next expected one, and how they compare
    with the history. *)
Section trim.
Context (L : Limits) (st : TcpFlowState) (seg : Segment).
Context (Hw : flow_wf L st) (Hs : segment_ok seg).

Notation p := (segment_position st seg).
Notation total := (zlen (seg_payload seg)).
Notation bb := (Z.min (Z.max 0 (- p)) total).
Notation start := (Z.min (Z.max 0 (next_offset st - p)) total).
Notation overlap := (zslice bb start (seg_payload seg)).
Notation pay := (zdrop bb (seg_payload seg)).

Lemma trim_ahead :
  next_offset st <= Z.max p 0 ->
  start = bb /\ ~ history_differs st (Z.max 0 p) overlap /\ Z.max (next_offset st) p = Z.max p 0.
Proof.
  pose proof (fw_next _ _ Hw). pose proof (zlen_nonneg (seg_payload seg)). intros Hge.
  split; [lia|]. split; [|lia]. intros (off & Ho & _).
  rewrite zlen_zslice in Ho by lia. lia.
Qed.

Lemma trim_behind :
  Z.max p 0 < next_offset st ->
  let consumed := Z.min (saturating_sub (next_offset st) (Z.max p 0)) (zlen pay) in
  start = bb + consumed /\ ztake (Z.min consumed (zlen pay)) pay = overlap /\
  zdrop (Z.min consumed (zlen pay)) pay = zdrop start (seg_payload seg) /\
  Z.max p 0 + zlen overlap <= next_offset st.
Proof.
  pose proof (fw_next _ _ Hw). pose proof (zlen_nonneg (seg_payload seg)). intros Hlt.
  assert (zlen pay = total - bb) as Hpay by (rewrite zlen_zdrop; lia).
  cbv zeta. unfold saturating_sub. rewrite (Z.max_r 0 (next_offset st - Z.max p 0)) by lia.
  set (consumed := Z.min (next_offset st - Z.max p 0) (zlen pay)).
  replace (Z.min consumed (zlen pay)) with consumed by (unfold consumed; lia).
  assert (start = bb + consumed) as Hst by (unfold consumed; lia).
  split; [done|]. split; [unfold zslice; f_equal; lia|]. split.
  - rewrite zdrop_zdrop by lia. f_equal. lia.
  - rewrite zlen_zslice by lia. lia.
Qed.

Lemma keep_alive_probe_spec :
  Z.max p 0 < next_offset st ->
  history_differs st (Z.max 0 p) overlap ->
  (total =? 1) && (saturating_add u64_max (Z.max p 0) 1 =? next_offset st)
    && negb (seg_syn seg || seg_fin seg || seg_rst seg) = keep_alive st seg.
Proof.
  pose proof (fw_next _ _ Hw). pose proof (zlen_nonneg (seg_payload seg)).
  intros Hlt (off & Ho & _). rewrite zlen_zslice in Ho by lia.
  unfold keep_alive, saturating_add. destruct (negb _); [|by rewrite !andb_false_r].
  repeat case_bool.
Qed.
End trim.

Lemma normalize_payload_spec L st seg :
  flow_wf L st -> segment_ok seg ->
  safe (normalize_payload L st seg) (incoming_ok L st seg).
Proof.
  intros Hw Hs. pose proof (fw_next _ _ Hw) as Hnx. pose proof (sok_payload _ Hs) as Hp.
  pose proof (trim_ahead L st seg Hw) as Hah. pose proof (trim_behind L st seg Hw) as Hbe.
  pose proof (keep_alive_probe_spec L st seg Hw) as Hka.
  unfold normalize_payload. fold (first_payload_sequence seg) (expected_sequence st).
  fold (segment_position st seg). set (p := segment_position st seg) in *.
  set (total := zlen (seg_payload seg)) in *.
  assert (0 <= total) as Ht by apply zlen_nonneg.
  assert ((if p <? 0 then Z.min (- p) total else 0) = Z.min (Z.max 0 (- p)) total) as -> by case_bool.
  set (bb := Z.min (Z.max 0 (- p)) total) in *.
  rewrite index_range_ok by (fold total; lia). rewrite Ok_bind.
  assert (zslice bb total (seg_payload seg) = zdrop bb (seg_payload seg)) as ->
    by (apply zdrop_zslice; fold total; lia).
  apply safe_bind, safe_ok_or. intros offset [-> Hpo]%u64_try_from_Some.
  set (start := Z.min (Z.max 0 (next_offset st - p)) total) in *.
  apply safe_bind.
  apply (safe_mono _ (fun x => exists conflict, x = (zdrop start (seg_payload seg), start, start, conflict,
      Z.max (next_offset st) p) /\ (conflict = true <-> keep_alive st seg = false /\
      history_differs st (Z.max 0 p) (zslice bb start (seg_payload seg))))).
  - destruct (Z.ltb_spec (Z.max p 0) (next_offset st)) as [Hlt|Hge].
    + cbv zeta in Hbe |- *. destruct (Hbe Hlt) as (Hst & -> & -> & Hle). specialize (Hka Hlt).
      rewrite Z.max_comm in Hle.
      destruct (emitted_history_conflicts_spec L st (Z.max 0 p) (zslice bb start (seg_payload seg)) Hw)
        as (c & Hc & Hcc); [lia|lia|].
      rewrite (Z.max_comm p 0) in *.
      set (consumed := Z.min (saturating_sub (next_offset st) (Z.max 0 p)) _) in *.
      assert (start <= usize_max) by (unfold usize_max, u64_max, isize_max in *; lia).
      rewrite checked_add_ok by lia.
      assert (saturating_add usize_max bb consumed = start) as -> by (unfold saturating_add; lia).
      rewrite <-Hst, (Z.max_l (next_offset st) p) by lia.
      destruct (_ && _ && _) eqn:Eka.
      * cbn. exists false. split; [done|]. split; [done|]. intros [Hk Hd]. specialize (Hka Hd). congruence.
      * rewrite Hc. cbn. exists c. split; [done|]. rewrite Hcc. split; [|by intros [_ ?]].
        intros Hd. split; [|done]. by rewrite <-Hka.
    + destruct (Hah Hge) as (Hst & Hnd & ->). cbn. exists false. rewrite Hst in *.
      split; [done|]. split; [done|]. by intros [_ ?].
  - intros x (conflict & -> & Hcf). apply safe_bind.
    eapply safe_mono; [apply validate_sequence_bounds_spec|].
    intros e (-> & ? & ? & ? & ? & ? & ?). split; cbn; fold total p; try done.
    intros f Hf. split; [by auto|]. destruct (seg_fin seg); [|done].
    apply u64_try_from_Some in Hf as [-> ?]. lia.
Qed.

(** ** The merge of an accepted payload, all cases *)

(** Merging the payload of [inc] into [st] with plan [m] leaves the intervals
    [l'] on [pages'] and delivers [out], as the segment's own bytes when the
    plan is direct and as [output] otherwise. *)
Record merge_step (st : TcpFlowState) (inc : IncomingPayload) (m : PendingMergePlan)
  (l' : list (Z * Z)) (pages' : gmap Z Page) (out : bytes) (output : option bytes) : Prop := {
  ms_result : merge_result (next_offset st) (in_offset inc) (in_payload inc)
    (pending st) (flow_pages st) l' pages' out;
  ms_emitted : emitted_segment_bytes m = zlen out;
  ms_added : added_bytes m = zlen (in_payload inc)
    - ivs_bytes (clip (in_offset inc) (in_offset inc + zlen (in_payload inc)) (pending st));
  ms_added_nonneg : 0 <= added_bytes m;
  ms_count : zlen l' = segment_count m - from_bool (negb (zlen out =? 0));
  ms_output : if direct_output m then output = None /\ out = in_payload inc /\ 0 < zlen out
              else output = if zlen out =? 0 then None else Some out;
  ms_conflict : has_conflicting_overlap m = true <->
    conflicts_with (flow_pages st) (in_offset inc) (in_payload inc) (pending st);
  ms_overlap : overlapping_bytes m
    = ivs_bytes (clip (in_offset inc) (in_offset inc + zlen (in_payload inc)) (pending st));
  ms_ranges : overlapping_ranges m
    = clip (in_offset inc) (in_offset inc + zlen (in_payload inc)) (pending st);
  ms_pages : pages_len pages' = if zlen out =? 0
    then pages_len (flow_pages st) + zlen (filter (fun k => flow_pages st !! k = None)
           (page_keys (in_offset inc) (in_remaining_end inc)))
    else remaining_pages (flow_pages st) (pending st) (union_start m) (union_end m)
}.

Lemma clip_empty off l : clip off off l = [].
Proof.
  induction l as [|[s e] l IH]; [done|]. rewrite clip_cons, IH, app_nil_r. cbn. case_bool. done.
Qed.

Lemma merge_result_empty next off l pages :
  ivs_wf next l -> pages_match pages l -> merge_result next off [] l pages l pages [].
Proof.
  intros Hwf Hm. split; rewrite ?zlen_nil, ?Z.add_0_r; try done.
  - intros o. split; [|intros [[?|?] _]; [done|lia]]. intros Hh. split; [by left|].
    apply Exists_exists in Hh as (iv & Hin & ?). pose proof (ivs_wf_bounds _ _ _ Hwf Hin). lia.
  - intros o Hh. unfold first_wins. by rewrite decide_True.
  - intros o. lia.
  - rewrite clip_empty. cbn. lia.
Qed.

Lemma page_keys_empty off : page_keys off off = [].
Proof. destruct (page_keys off off) as [|k ks] eqn:E; [done|]. exfalso.
  assert (k ∈ page_keys off off) as Hk by (rewrite E; set_solver).
  apply page_keys_in in Hk as [_ Hk]. unfold overlap in Hk. lia.
Qed.

Definition same_storage (st st1 : TcpFlowState) : Prop :=
  pending st1 = pending st /\ flow_pages st1 = flow_pages st.

Section merge_step.
Context (alloc : allocator) (L : Limits) (st st1 : TcpFlowState) (seg : Segment)
  (inc : IncomingPayload).
Context (Hw : flow_wf L st) (Hs : segment_ok seg) (Hi : incoming_ok L st seg inc).
Context (Hst : same_storage st st1).

Notation off := (in_offset inc).
Notation pay := (in_payload inc).
Notation next := (next_offset st).

Definition merge_applies (m : PendingMergePlan) : Prop :=
  safe (materialize_pending_merge alloc st off pay m) (fun m' =>
    (exists np o, m' = set_merge_storage m np o) /\
    exists l' pages' out output, merge_step st inc m l' pages' out output /\
      apply_pending_merge st1 m' (seg_payload seg) = Ok (set_storage st1 l' pages', output)).

Lemma set_merge_storage_id m : m = set_merge_storage m (new_pages m) (merge_output m).
Proof. by destruct m. Qed.

Lemma set_merge_storage_materialize m m' :
  materialize_pending_merge alloc st off pay m = Ok m' ->
  exists np o, m' = set_merge_storage m np o.
Proof.
  unfold materialize_pending_merge. case_match.
  { intros [= <-]. eexists _, _. apply set_merge_storage_id. }
  case_match; intros H'.
  - inv_ok H'. inv_ok H'. injection H' as <-. eauto.
  - repeat inv_ok H'. injection H' as <-. eauto.
Qed.

Lemma incoming_start : 0 <= in_payload_start inc <= zlen (seg_payload seg).
Proof. rewrite (io_start _ _ _ _ Hi). pose proof (zlen_nonneg (seg_payload seg)). lia. Qed.

Lemma merge_step_empty :
  zlen pay = 0 ->
  exists m, plan_pending_merge st off pay (in_payload_start inc) next = Ok m /\ merge_applies m.
Proof.
  intros He. apply zlen_0 in He as Hp. destruct Hst as [Hst1 Hst2].
  pose proof (io_end _ _ _ _ Hi) as Hend. pose proof (io_max _ _ _ _ Hi).
  unfold plan_pending_merge. rewrite (checked_add_ok u64_max off (zlen pay)) by lia.
  rewrite is_empty_zlen, He.
  eexists. split; [done|]. unfold merge_applies, materialize_pending_merge. cbn.
  split; [by eexists _, _|]. exists (pending st), (flow_pages st), [], None.
  split; [|by rewrite <-Hst1, <-Hst2, set_storage_id].
  rewrite He in Hend. rewrite Z.add_0_r in Hend.
  split; cbn; rewrite ?Hend, ?He, ?Z.add_0_r, ?clip_empty, ?page_keys_empty;
    change (@zlen Z []) with 0; cbn; try lia; try done.
  - rewrite Hp. apply merge_result_empty; apply Hw.
  - split; [done|]. intros (o & _ & Ho & _). lia.
  - unfold zlen. cbn. lia.
Qed.

Lemma incoming_range :
  0 < zlen pay -> exists b a c, range_setup off pay (pending st) b a c next /\
    exists conflict,
    plan_pending_merge st off pay (in_payload_start inc) next
      = Ok (merge_plan next off pay (in_payload_start inc) (pending st) a conflict) /\
    (conflict = true <-> conflicts_with (flow_pages st) off pay (pending st)) /\
    clip off (off + zlen pay) (pending st) = clip off (off + zlen pay) a /\
    0 <= zlen pay - ivs_bytes (clip off (off + zlen pay) a).
Proof.
  intros Hp. pose proof (fw_ivs _ _ Hw) as Hwf. pose proof (fw_next _ _ Hw).
  pose proof (io_offset _ _ _ _ Hi). pose proof (io_end _ _ _ _ Hi). pose proof (io_max _ _ _ _ Hi).
  destruct (ivs_split_exists off (off + zlen pay) _ _ Hwf) as (b & a & c & Hsp).
  exists b, a, c. assert (range_setup off pay (pending st) b a c next) as HR by (split; auto; lia).
  split; [done|].
  destruct (plan_pending_merge_spec st next off pay (in_payload_start inc) next b a c)
    as (cf & Hpl & Hcf); [done|apply Hw|by apply (flow_wf_count L)|lia|].
  exists cf. split; [done|]. split; [done|]. split; [by eapply clip_split|].
  assert (exists lo, ivs_wf lo a) as [lo Hwa].
  { rewrite (sp_eq _ _ _ _ _ _ Hsp) in Hwf. apply ivs_wf_app in Hwf as [_ [Hwf _]%ivs_wf_app]. eauto. }
  assert (gaps_ok off (off + zlen pay) a) as Hg by (split; [lia|apply Hsp]).
  destruct (gaps_bytes _ _ _ _ Hwa Hg) as [_ Hgb].
  pose proof (gaps_bounds _ _ _ _ Hwa Hg) as Hf.
  assert (0 <= ivs_bytes (gaps off (off + zlen pay) a)); [|lia]. clear -Hf.
  induction Hf as [|[s' e'] g Hx _ IH]; cbn in *; lia.
Qed.

Lemma merge_step_store b a c conflict :
  range_setup off pay (pending st) b a c next -> next < off ->
  (conflict = true <-> conflicts_with (flow_pages st) off pay (pending st)) ->
  clip off (off + zlen pay) (pending st) = clip off (off + zlen pay) a ->
  0 <= zlen pay - ivs_bytes (clip off (off + zlen pay) a) ->
  merge_applies (merge_plan next off pay (in_payload_start inc) (pending st) a conflict).
Proof.
  intros HR Hlt Hcf Hclip Hnn. destruct Hst as [Hst1 Hst2]. pose proof incoming_start as Hstart.
  unfold merge_applies. apply safe_iff. split.
  { unfold materialize_pending_merge. case_match; [done|]. case_match; cycle 1.
    - exfalso. cbn in *. repeat case_bool.
    - rewrite add_u_ok by apply HR. rewrite Ok_bind. apply bind_not_Panic; [|done].
      apply allocate_missing_not_Panic. }
  intros m' Hm'. split; [by eapply set_merge_storage_materialize|].
  destruct (apply_store alloc st st1 next off (in_payload_start inc) pay (seg_payload seg) b a c conflict
    HR Hlt (fw_match _ _ Hw) Hst1 Hst2 Hstart (eq_sym (io_payload _ _ _ _ Hi)) m' Hm')
    as (l' & pages' & Happ & Hres & Hcnt & Hdir & Hpg).
  exists l', pages', [], None. split; [|done].
  split; cbn [merge_plan added_bytes overlapping_bytes overlapping_ranges has_conflicting_overlap
    segment_count emitted_segment_bytes direct_output union_start union_end]; rewrite ?Hclip;
    try done; try (repeat case_bool; done).
  - rewrite Hcnt. change (@zlen Z []) with 0. cbn. lia.
  - rewrite Hpg. change (@zlen Z []) with 0. cbn. rewrite (io_end _ _ _ _ Hi). done.
Qed.

Lemma merge_step_emit b a c conflict :
  range_setup off pay (pending st) b a c next -> next = off ->
  (conflict = true <-> conflicts_with (flow_pages st) off pay (pending st)) ->
  clip off (off + zlen pay) (pending st) = clip off (off + zlen pay) a ->
  0 <= zlen pay - ivs_bytes (clip off (off + zlen pay) a) ->
  merge_applies (merge_plan next off pay (in_payload_start inc) (pending st) a conflict).
Proof.
  intros HR Heq Hcf Hclip Hnn. destruct Hst as [Hst1 Hst2]. rewrite Heq in *.
  pose proof (emit_us _ _ _ _ _ _ HR) as Hus. pose proof (rs_payload _ _ _ _ _ _ _ HR) as Hpl.
  pose proof (fw_ends _ _ Hw) as Hends. pose proof (fw_match _ _ Hw) as Hm.
  pose proof (emit_ue_gt st off pay b a c HR) as Hgt.
  unfold merge_applies. destruct (decide (a = [])) as [Ha|Ha].
  - destruct (apply_direct alloc st st1 off (in_payload_start inc) pay (seg_payload seg) b a c conflict
      HR Hm Ha) as (-> & Happ & Hres & Hd & Hc & Hue).
    cbn [safe]. split; [by exists [], None|].
    exists (pending st), (flow_pages st), pay, None.
    split; [|by rewrite Happ, <-Hst1, <-Hst2, set_storage_id].
    split; rewrite ?Hd; cbn [merge_plan added_bytes overlapping_bytes overlapping_ranges
      has_conflicting_overlap segment_count emitted_segment_bytes union_start union_end];
      rewrite ?Hclip, ?Z.eqb_refl, ?Heq; try done.
    + lia.
    + rewrite (proj2 (Z.eqb_neq (zlen pay) 0)) by lia. rewrite Ha. cbn. rewrite zlen_nil. lia.
    + rewrite (proj2 (Z.eqb_neq (zlen pay) 0)) by lia. rewrite Hus.
      apply (emit_remaining_count _ _ _ _ _ _ HR); [done|]. by rewrite Hc.
  - apply safe_iff. split.
    { destruct (materialize_emit alloc st off (in_payload_start inc) pay b a c conflict HR Hm Hends Ha)
        as (out & -> & _). unfold try_reserve_exact. by destruct (_ && _). }
    intros m' Hm'. split; [by eapply set_merge_storage_materialize|].
    destruct (apply_emit alloc st st1 off (in_payload_start inc) pay (seg_payload seg) b a c conflict
      HR Hm Hst1 Hst2 Hends m' Ha Hm') as (out & pages' & Happ & Hres & Hlen & Hcnt & Hd & Hpg).
    exists c, pages', out, (Some out). split; [|done].
    destruct (fst <$> head a) as [first|] eqn:Ef; [|by destruct a].
    split; cbn [merge_plan added_bytes overlapping_bytes overlapping_ranges
      has_conflicting_overlap segment_count emitted_segment_bytes union_start union_end direct_output];
      rewrite ?Hclip, ?Z.eqb_refl, ?Heq, ?Ef, ?(proj2 (Z.eqb_neq (zlen out) 0)) by lia; try done.
    by rewrite Hus.
Qed.

Lemma merge_step_ok :
  exists m, plan_pending_merge st off pay (in_payload_start inc) next = Ok m /\ merge_applies m.
Proof.
  destruct (Z.eq_dec (zlen pay) 0) as [He|He]; [by apply merge_step_empty|].
  pose proof (zlen_nonneg pay). destruct incoming_range as (b & a & c & HR & cf & -> & Hcf & Hcl & Hnn); [lia|].
  eexists. split; [done|].
  pose proof (io_offset _ _ _ _ Hi). destruct (Z.eq_dec next off).
  - by eapply merge_step_emit.
  - eapply merge_step_store; eauto. lia.
Qed.
End merge_step.
