(* ===== verification/TcpEffect.v ===== *)
(** * The effect of a push on its flow

    Accounting ([pending/accounting.rs]) and commit ([commit.rs]) over a
    well-formed flow.  The result, [push_effect], is the contract the engine's
    theorems are proved against. *)

From stdpp Require Import base tactics option list numbers gmap.
From Stdlib Require Import ZArith Lia.
From S2P Require Import Prelude Ordered Flow Frame TcpModel TcpHistory TcpPages TcpState TcpPlan TcpCommit.
From S2P Require Import TcpIntervals TcpStorage TcpMerge TcpFlow TcpPush.

(** ** What a flow is charged *)

Definition flow_retained (st : TcpFlowState) : Z :=
  pending_bytes st + len (emitted_history st).

Definition charge_parts (pages segments cap : Z) : Z :=
  pages * PAGE_CHARGE + segments * PENDING_SEGMENT_METADATA_CHARGE + cap
  + TCP_FLOW_STATE_METADATA_CHARGE.

Definition flow_charge (st : TcpFlowState) : Z :=
  charge_parts (pages_len (flow_pages st)) (zlen (pending st)) (capacity (emitted_history st)).

Lemma pages_len_nonneg pages : 0 <= pages_len pages.
Proof. unfold pages_len. lia. Qed.

Lemma flow_charge_nonneg st : 0 <= flow_charge st.
Proof.
  unfold flow_charge, charge_parts. pose proof (pages_len_nonneg (flow_pages st)).
  pose proof (zlen_nonneg (pending st)). pose proof (capacity_nonneg (emitted_history st)).
  unfold PAGE_CHARGE, PAGE_BYTES, PENDING_SEGMENT_METADATA_CHARGE, TCP_FLOW_STATE_METADATA_CHARGE. lia.
Qed.

Lemma flow_retained_nonneg L st : flow_wf L st -> 0 <= flow_retained st.
Proof.
  intros Hw. unfold flow_retained. rewrite (fw_bytes _ _ Hw).
  pose proof (hwf_len _ (fw_hist _ _ Hw)). pose proof (ivs_bytes_nonneg _ _ (fw_ivs _ _ Hw)). lia.
Qed.

Lemma retained_bytes_eq L st :
  limits_ok L -> flow_wf L st -> retained_bytes st = Some (flow_retained st).
Proof.
  intros HL Hw. unfold retained_bytes. apply checked_add_ok. pose proof (fw_max _ _ Hw).
  pose proof (lok_bytes _ HL). unfold MAX_BYTES_PER_FLOW, SERIAL_HALF, usize_max, u64_max in *. lia.
Qed.

Lemma memory_charge_parts_Some storage segments cap fs v :
  memory_charge_parts storage segments cap fs = Some v ->
  v = storage + segments * PENDING_SEGMENT_METADATA_CHARGE + cap
      + (if fs then TCP_FLOW_STATE_METADATA_CHARGE else 0).
Proof.
  unfold memory_charge_parts.
  destruct (checked_mul _ _ _) as [x|] eqn:E1; [|done]. cbn.
  destruct (checked_add usize_max storage x) as [y|] eqn:E2; [|done]. cbn.
  destruct (checked_add usize_max y cap) as [z|] eqn:E3; [|done]. cbn.
  apply checked_mul_Some in E1 as [-> _]. apply checked_add_Some in E2 as [-> _].
  apply checked_add_Some in E3 as [-> _]. destruct fs.
  - by intros [-> _]%checked_add_Some.
  - intros [= <-]. lia.
Qed.

Lemma flow_memory_charge_eq st :
  flow_charge st <= usize_max -> flow_memory_charge st = Some (flow_charge st).
Proof.
  unfold flow_charge, charge_parts. intros Hle.
  pose proof (pages_len_nonneg (flow_pages st)). pose proof (zlen_nonneg (pending st)).
  pose proof (capacity_nonneg (emitted_history st)).
  unfold flow_memory_charge, memory_charge_parts.
  unfold PAGE_CHARGE, PAGE_BYTES, PENDING_SEGMENT_METADATA_CHARGE, TCP_FLOW_STATE_METADATA_CHARGE in *.
  rewrite checked_mul_ok by lia. cbn [mbind option_bind].
  rewrite checked_mul_ok by lia. cbn [mbind option_bind].
  rewrite checked_add_ok by lia. cbn [mbind option_bind].
  rewrite checked_add_ok by lia. cbn [mbind option_bind].
  by rewrite checked_add_ok by lia.
Qed.

(** ** Accounting *)

(** Bytes the history will hold: what survives trimming, plus the output. *)
Definition history_after (L : Limits) (st : TcpFlowState) (pb emitted : Z) : Z :=
  Z.min (len (emitted_history st)) (max_bytes_per_flow L - pb) + emitted.

Record accounting_ok (L : Limits) (st : TcpFlowState) (pb storage emitted segments base_bytes
  base_charge : Z) (retains : bool) (acct : PushAccountingPlan) : Prop := {
  ac_initial : acct_initial_history_capacity acct = max_bytes_per_flow L - pb;
  ac_segments : segments - from_bool (negb (emitted =? 0)) <= max_segments_per_flow L;
  ac_room : history_after L st pb emitted <= acct_history_allocation acct;
  ac_cap : acct_history_allocation acct <= max_bytes_per_flow L;
  ac_bytes : acct_aggregate_bytes acct = base_bytes +
    (if retains then pb - emitted + history_after L st pb emitted else 0);
  ac_charge : acct_aggregate_memory_charge acct = base_charge +
    (if retains then storage
       + (segments - from_bool (negb (emitted =? 0))) * PENDING_SEGMENT_METADATA_CHARGE
       + acct_history_allocation acct + TCP_FLOW_STATE_METADATA_CHARGE else 0);
  ac_max : retains = true -> acct_aggregate_bytes acct <= max_aggregate_bytes L /\
    acct_aggregate_memory_charge acct <= max_aggregate_bytes L
}.

Lemma planned_history_allocation_spec current required limit :
  0 <= current -> required <= limit ->
  required <= planned_history_allocation current required limit
    <= Z.max current limit.
Proof. intros. unfold planned_history_allocation, saturating_mul. case_bool. Qed.

Lemma plan_push_accounting_spec L st pb storage emitted segments bb bc retains :
  limits_ok L -> flow_wf L st ->
  0 <= emitted <= pb -> pb <= max_bytes_per_flow L ->
  0 <= segments - from_bool (negb (emitted =? 0)) ->
  safe (plan_push_accounting L st pb storage emitted segments bb bc retains)
    (accounting_ok L st pb storage emitted segments bb bc retains).
Proof.
  intros HL Hw He Hpb Hseg. pose proof (lok_bytes _ HL). pose proof (hwf_len _ (fw_hist _ _ Hw)).
  pose proof (fw_cap _ _ Hw). unfold plan_push_accounting.
  assert (saturating_sub (max_bytes_per_flow L) pb = max_bytes_per_flow L - pb) as ->
    by (unfold saturating_sub; lia).
  assert (saturating_sub pb emitted = pb - emitted) as -> by (unfold saturating_sub; lia).
  assert (saturating_sub (max_bytes_per_flow L) (pb - emitted) = max_bytes_per_flow L - (pb - emitted)) as ->
    by (unfold saturating_sub; lia).
  set (fs := saturating_sub segments _).
  assert (fs = segments - from_bool (negb (emitted =? 0))) as Hfs by (unfold fs, saturating_sub; lia).
  destruct (Z.ltb_spec (max_segments_per_flow L) fs); [done|].
  set (hl := Z.min (saturating_add _ _ _) _).
  assert (hl = history_after L st pb emitted) as Hhl.
  { unfold hl, history_after, saturating_add, MAX_BYTES_PER_FLOW, SERIAL_HALF, usize_max, u64_max in *. lia. }
  set (ha := planned_history_allocation _ _ _).
  destruct (planned_history_allocation_spec (capacity (emitted_history st)) hl
    (max_bytes_per_flow L - (pb - emitted))) as [Hlo Hhi]; [lia|lia|]. fold ha in Hlo, Hhi.
  apply safe_bind, safe_ok_or. intros pr [-> _]%checked_add_Some.
  apply safe_bind, safe_ok_or. intros pm Hpm%memory_charge_parts_Some.
  apply safe_bind, safe_ok_or. intros pab [-> _]%checked_add_Some.
  apply safe_bind, safe_ok_or. intros pam [-> _]%checked_add_Some.
  destruct (Z.ltb_spec (max_aggregate_bytes L) (bb + (pb - emitted + hl))); [done|].
  destruct (Z.ltb_spec (max_aggregate_bytes L) (bc + pm)); [done|]. cbn [orb].
  destruct retains; cbn; split; cbn; rewrite <-?Hhl; try done; lia.
Qed.

(** ** The contract of one push *)

(** The number of bytes of the segment received before. *)
Definition repeated_bytes (st : TcpFlowState) (inc : IncomingPayload) : Z :=
  in_payload_start inc +
  ivs_bytes (clip (in_offset inc) (in_offset inc + zlen (in_payload inc)) (pending st)).

(** The wire ranges of those bytes. *)
Definition repeated_ranges (st : TcpFlowState) (inc : IncomingPayload) : list (Z * Z) :=
  (if negb (in_payload_start inc =? 0)
   then [(in_sequence inc, wrapping_add32 (in_sequence inc) (as_u32 (in_payload_start inc)))]
   else [])
  ++ ((fun r => (wrapping_add32 (base_sequence st) (as_u32 r.1),
                 wrapping_add32 (base_sequence st) (as_u32 r.2)))
      <$> clip (in_offset inc) (in_offset inc + zlen (in_payload inc)) (pending st)).

Definition effect_events (st : TcpFlowState) (inc : IncomingPayload) (flow : ScopedFlowKey)
  (conflict : bool) (out : bytes) : list Event :=
  (if negb (repeated_bytes st inc =? 0) || conflict
   then [Retransmission flow (in_sequence inc) (repeated_bytes st inc) conflict
           (repeated_ranges st inc)] else [])
  ++ (if zlen out =? 0 then []
      else [Data flow (expected_sequence st) out]).

Definition final_fin (st : TcpFlowState) (inc : IncomingPayload) : option Z :=
  match fin_offset st with Some f => Some f | None => in_fin_offset inc end.

Record push_effect (L : Limits) (st : TcpFlowState) (seg : Segment) (now : Z)
  (flow : ScopedFlowKey) (st' : TcpFlowState) (events : list Event) (closing : bool)
  (inc : IncomingPayload) (out : bytes) (conflict : bool) : Prop := {
  pe_incoming : incoming_ok L st seg inc;
  pe_base : base_sequence st' = base_sequence st;
  pe_next : next_offset st' = next_offset st + zlen out;
  pe_merge : merge_result (next_offset st) (in_offset inc) (in_payload inc)
    (pending st) (flow_pages st) (pending st') (flow_pages st') out;
  pe_history : contents (emitted_history st')
    = keep_last (max_bytes_per_flow L - pending_bytes st') (contents (emitted_history st) ++ out);
  pe_pending : pending_bytes st' = ivs_bytes (pending st');
  pe_fin : fin_offset st' = final_fin st inc;
  pe_update : last_update st' = Z.max (last_update st) now;
  pe_deadline : deadline st' = deadline st;
  pe_closed : closing = seg_rst seg ||
    match final_fin st inc with Some f => f <=? next_offset st + zlen out | None => false end;
  pe_wf : closing = false -> flow_wf L st';
  pe_conflict : conflict = true <-> in_conflicting inc = true \/
    conflicts_with (flow_pages st) (in_offset inc) (in_payload inc) (pending st);
  pe_events : events = effect_events st inc flow conflict out
}.

(** ** What planning establishes *)

Lemma ivs_last_end lo l s e iv :
  ivs_wf lo l -> last l = Some (s, e) -> iv ∈ l -> iv.2 <= e.
Proof.
  intros Hwf Hl Hin. apply last_Some in Hl as [l0 ->].
  apply elem_of_app in Hin as [Hin|Hin]; [|set_solver].
  apply ivs_wf_app in Hwf as [Hwf Htl]. cbn in Htl.
  pose proof (ivs_wf_bounds _ _ _ Hwf Hin). lia.
Qed.

Lemma validate_pending_final_offset_spec st inc lo :
  ivs_wf lo (pending st) ->
  safe (validate_pending_final_offset st inc) (fun _ => forall f, in_fin_offset inc = Some f ->
    in_remaining_end inc <= f /\ Forall (fun iv => iv.2 <= f) (pending st)).
Proof.
  intros Hwf. unfold validate_pending_final_offset.
  destruct (in_fin_offset inc) as [f|]; [|done].
  destruct (last (pending st)) as [[s e]|] eqn:El.
  - destruct (Z.ltb_spec f e), (Z.ltb_spec f (in_remaining_end inc)); cbn; try done.
    intros f' [= <-]. split; [done|]. apply Forall_forall. intros iv Hin.
    pose proof (ivs_last_end _ _ _ _ _ Hwf El Hin). lia.
  - apply last_None in El. case_bool; cbn; [done|]. intros f' [= <-]. rewrite El. done.
Qed.

Lemma merge_result_ends next offset payload l pages l' pages' out bound :
  merge_result next offset payload l pages l' pages' out ->
  Forall (fun iv => iv.2 <= bound) l -> offset + zlen payload <= bound ->
  Forall (fun iv => iv.2 <= bound) l'.
Proof.
  intros Hr Hf Hp. apply Forall_forall. intros [s e] Hin.
  pose proof (ivs_wf_bounds _ _ _ (mr_wf _ _ _ _ _ _ _ _ Hr) Hin) as Hb. cbn in *.
  assert (held l' (e - 1)) as Hh.
  { apply Exists_exists. exists (s, e). split; [done|]. cbn. lia. }
  apply (mr_held _ _ _ _ _ _ _ _ Hr) in Hh as [[Hh|?] _]; [|lia].
  apply Exists_exists in Hh as ([s' e'] & Hin' & ?).
  rewrite Forall_forall in Hf. specialize (Hf _ Hin'). cbn in *. lia.
Qed.

(** The merge and accounting of one accepted payload. *)
Record planned_ok (L : Limits) (st : TcpFlowState) (bb bc : Z) (seg : Segment)
  (inc : IncomingPayload) (m : PendingMergePlan) (planned : PlannedMerge) (out : bytes)
  (count : Z) : Prop := {
  po_merge : pm_merge planned = m;
  po_pending : pm_pending_bytes planned = pending_bytes st + added_bytes m;
  po_pending_max : pm_pending_bytes planned <= max_bytes_per_flow L;
  po_fin : forall f, in_fin_offset inc = Some f ->
    in_remaining_end inc <= f /\ Forall (fun iv => iv.2 <= f) (pending st);
  po_next : next_offset st + zlen out <= u64_max;
  po_closed : pm_closed planned = seg_rst seg ||
    match final_fin st inc with Some f => f <=? next_offset st + zlen out | None => false end;
  po_accounting : accounting_ok L st (pm_pending_bytes planned) (count * PAGE_CHARGE) (zlen out)
    (segment_count m) bb bc (negb (pm_closed planned))
    {| acct_initial_history_capacity := pm_initial_history_capacity planned;
       acct_history_allocation := pm_history_allocation planned;
       acct_aggregate_bytes := pm_aggregate_bytes planned;
       acct_aggregate_memory_charge := pm_aggregate_memory_charge planned |}
}.

Lemma plan_merge_and_accounting_spec L st bb bc seg inc m l' pages' out output :
  limits_ok L -> flow_wf L st -> incoming_ok L st seg inc ->
  plan_pending_merge st (in_offset inc) (in_payload inc) (in_payload_start inc) (next_offset st) = Ok m ->
  merge_step st inc m l' pages' out output ->
  safe_when (clear_of_last_page (pending st)) (plan_merge_and_accounting L st bb bc seg inc) (fun planned =>
    planned_ok L st bb bc seg inc m planned out (pages_len pages')).
Proof.
  intros HL Hw Hi Hm Hs. pose proof (zlen_nonneg out).
  unfold plan_merge_and_accounting. rewrite Hm. cbn [opt_or]. rewrite Ok_bind.
  apply safe_when_bind, safe_when_of_safe, safe_ok_or. intros pb Hpb.
  destruct (checked_add _ (pending_bytes st) _) as [pb'|] eqn:Epb; [|done]. cbn in Hpb.
  apply checked_add_Some in Epb as [-> _].
  destruct (Z.leb_spec (pending_bytes st + added_bytes m) (max_bytes_per_flow L)); [|done].
  injection Hpb as <-.
  set (pb := pending_bytes st + added_bytes m) in *.
  apply safe_when_bind, safe_when_of_safe.
  eapply safe_mono; [apply (validate_pending_final_offset_spec _ _ _ (fw_ivs _ _ Hw))|].
  intros [] Hfin. apply safe_when_bind, safe_when_of_safe, safe_ok_or. rewrite (ms_emitted _ _ _ _ _ _ _ Hs).
  intros fno [-> Hno]%checked_add_Some. cbv zeta. fold (final_fin st inc).
  set (closing := seg_rst seg || _). apply safe_when_bind.
  apply (safe_when_mono _ _ (fun x => x.2 = pages_len pages')).
  { rewrite (ms_pages _ _ _ _ _ _ _ Hs). destruct (Z.eqb_spec (zlen out) 0); cbn [negb].
    - apply safe_when_of_safe, safe_bind, safe_ok_or. intros total [-> _]%checked_add_Some. done.
    - apply safe_when_bind. eapply safe_when_mono; [apply remaining_count_spec|]. by intros ? ->. }
  intros [missing count] Hc. cbn in Hc. rewrite Hc. apply safe_when_of_safe.
  apply safe_bind, safe_ok_or. intros storage [-> _]%checked_mul_Some.
  apply safe_bind. eapply safe_mono.
  { apply plan_push_accounting_spec; [done|done| |done|].
    - pose proof (mr_total _ _ _ _ _ _ _ _ (ms_result _ _ _ _ _ _ _ Hs)) as Ht.
      pose proof (ivs_bytes_nonneg _ _ (mr_wf _ _ _ _ _ _ _ _ (ms_result _ _ _ _ _ _ _ Hs))).
      rewrite <-(ms_added _ _ _ _ _ _ _ Hs), <-(fw_bytes _ _ Hw) in Ht. unfold pb. lia.
    - rewrite <-(ms_count _ _ _ _ _ _ _ Hs). apply zlen_nonneg. }
  intros acct Ha. destruct acct. by split.
Qed.

(** ** Committing *)

Lemma emit_data_spec st d pos data flow max :
  history_is st d pos -> next_offset st = pos -> pos + zlen data <= u64_max ->
  pending_bytes st <= max ->
  Z.min (zlen d + zlen data) (max - pending_bytes st) <= capacity (emitted_history st) ->
  exists h, emit_data st flow data max
    = Ok (mkFlowState (base_sequence st) (pos + zlen data)
            (pos + zlen data - zlen (keep_last (max - pending_bytes st) (d ++ data))) h
            (pending st) (flow_pages st) (pending_bytes st) (fin_offset st) (last_update st)
            (deadline st), Data flow (expected_sequence st) data) /\
    history_wf h /\ contents h = keep_last (max - pending_bytes st) (d ++ data) /\
    capacity h = capacity (emitted_history st).
Proof.
  intros HI Hn Hmax Hpb Hroom. unfold emit_data. rewrite Hn.
  rewrite checked_add_ok by done. cbn [expect]. rewrite Ok_bind. cbn [pending_bytes].
  assert (saturating_sub max (pending_bytes st) = max - pending_bytes st) as ->
    by (unfold saturating_sub; lia).
  edestruct (append_emitted_history_spec
    (mkFlowState (base_sequence st) (pos + zlen data) (history_start_offset st) (emitted_history st)
       (pending st) (flow_pages st) (pending_bytes st) (fin_offset st) (last_update st) (deadline st))
    d pos data (max - pending_bytes st)) as (h & -> & Hwf & Hc & Hcap); [|done|lia|done|].
  { destruct HI. by split. }
  exists h. split; [|done]. rewrite Ok_bind. unfold set_history, expected_sequence. cbn. by rewrite Hn.
Qed.

(** The state a commit leaves. *)
Definition final_state (st : TcpFlowState) (inc : IncomingPayload) (now : Z)
  (l' : list (Z * Z)) (pages' : gmap Z Page) (pb : Z) (out : bytes) (h : History) : TcpFlowState :=
  mkFlowState (base_sequence st) (next_offset st + zlen out)
    (next_offset st + zlen out - zlen (contents h)) h l' pages' pb (final_fin st inc)
    (Z.max (last_update st) now) (deadline st).

Section commit.
Context (alloc : allocator) (L : Limits) (st : TcpFlowState) (bb bc : Z) (seg : Segment)
  (inc : IncomingPayload) (flow : ScopedFlowKey) (now : Z) (plan : PushPlan)
  (m : PendingMergePlan) (planned : PlannedMerge).
Context (HL : limits_ok L) (Hw : flow_wf L st) (Hs : segment_ok seg) (Hi : incoming_ok L st seg inc).

Notation ic := (pm_initial_history_capacity planned).
Notation ha := (pm_history_allocation planned).
Notation pb := (pm_pending_bytes planned).
Notation d := (contents (emitted_history st)).

(** The state between the history updates and the merge. *)
Definition trimmed_state (h : History) : TcpFlowState :=
  mkFlowState (base_sequence st) (next_offset st) (next_offset st - zlen (keep_last ic d)) h
    (pending st) (flow_pages st) (pending_bytes st) (fin_offset st)
    (Z.max (last_update st) now) (deadline st).

Lemma trim_and_replace hr :
  0 <= ic -> Z.min ic (len (emitted_history st)) <= ha ->
  prepare_emitted_history alloc st ic ha = Ok hr ->
  exists h, (state ← trim_emitted_history
               (mkFlowState (base_sequence st) (next_offset st) (history_start_offset st)
                  (emitted_history st) (pending st) (flow_pages st) (pending_bytes st)
                  (fin_offset st) (Z.max (last_update st) now) (deadline st)) ic;
             Ok (match hr with
                 | Some h => set_history state (history_start_offset state) h
                 | None => state
                 end)) = @Ok Error _ (trimmed_state h) /\
    history_wf h /\ contents h = keep_last ic d /\ capacity h = ha.
Proof.
  intros Hic Hha Hpr. pose proof (flow_wf_history _ _ Hw) as HI.
  rewrite (history_is_len _ _ _ HI) in Hha.
  pose proof (prepare_emitted_history_spec _ _ _ _ _ _ _ HI Hic Hha Hpr) as Hp.
  edestruct trim_emitted_history_spec as (h & -> & Hwf & Hc & Hcap); [|exact Hic|].
  { destruct HI. split; [..|done]; done. }
  rewrite Ok_bind. destruct hr as [h'|].
  - by exists h'.
  - exists h. split; [done|]. split; [done|]. split; [done|]. cbn in Hcap. congruence.
Qed.

Context (l' : list (Z * Z)) (pages' : gmap Z Page) (out : bytes) (output : option bytes) (count : Z).
Context (Hm : merge_step st inc m l' pages' out output).
Context (Hp : planned_ok L st bb bc seg inc m planned out count).

Lemma planned_pending : pb - zlen out = ivs_bytes l' /\ 0 <= pb - zlen out.
Proof.
  pose proof (ms_result _ _ _ _ _ _ _ Hm) as Hr. pose proof (mr_total _ _ _ _ _ _ _ _ Hr) as Ht.
  pose proof (ivs_bytes_nonneg _ _ (mr_wf _ _ _ _ _ _ _ _ Hr)).
  rewrite <-(ms_added _ _ _ _ _ _ _ Hm), <-(fw_bytes _ _ Hw) in Ht.
  rewrite (po_pending _ _ _ _ _ _ _ _ _ _ Hp). lia.
Qed.

Lemma planned_capacity : ic = max_bytes_per_flow L - pb /\ 0 <= ic /\
  Z.min (len (emitted_history st)) ic + zlen out <= ha <= max_bytes_per_flow L.
Proof.
  destruct (po_accounting _ _ _ _ _ _ _ _ _ _ Hp) as [Hin _ Hr Hc _ _ _]. cbn in *.
  pose proof (po_pending_max _ _ _ _ _ _ _ _ _ _ Hp). unfold history_after in Hr. lia.
Qed.

(** Every field of the resulting flow. *)
Lemma final_state_effect h events conflict :
  history_wf h -> contents h = keep_last (max_bytes_per_flow L - (pb - zlen out)) (d ++ out) ->
  capacity h = ha ->
  (conflict = true <-> in_conflicting inc = true \/
    conflicts_with (flow_pages st) (in_offset inc) (in_payload inc) (pending st)) ->
  events = effect_events st inc flow conflict out ->
  push_effect L st seg now flow (final_state st inc now l' pages' (pb - zlen out) out h) events
    (pm_closed planned) inc out conflict.
Proof.
  intros Hh Hc Hcap Hcf Hev. pose proof planned_pending as [Hpe Hpn].
  pose proof planned_capacity as (Hic & Hic0 & Hha). pose proof (ms_result _ _ _ _ _ _ _ Hm) as Hr.
  pose proof (zlen_nonneg out). pose proof (fw_next _ _ Hw). pose proof (fw_start _ _ Hw).
  split; cbn; try done.
  { apply (po_closed _ _ _ _ _ _ _ _ _ _ Hp). }
  intros Hcl. pose proof (zlen_contents _ Hh) as Hlen. pose proof (zlen_contents _ (fw_hist _ _ Hw)) as Hlen0.
  rewrite Hc, zlen_keep_last, zlen_app in Hlen by lia.
  pose proof (fw_window _ _ Hw). pose proof (po_next _ _ _ _ _ _ _ _ _ _ Hp).
  pose proof (io_end _ _ _ _ Hi) as Hie. pose proof (io_max _ _ _ _ Hi).
  pose proof (ms_count _ _ _ _ _ _ _ Hm) as Hcnt.
  pose proof (ac_segments _ _ _ _ _ _ _ _ _ _ (po_accounting _ _ _ _ _ _ _ _ _ _ Hp)).
  split; cbn; rewrite ?(zlen_contents _ Hh); try done; try lia.
  - apply Hw.
  - apply Hr.
  - apply Hr.
  - eapply merge_result_ends; [exact Hr|apply Hw|lia].
  - intros f Hf. rewrite (po_closed _ _ _ _ _ _ _ _ _ _ Hp), Hf in Hcl.
    apply orb_false_iff in Hcl as [_ Hcl%Z.leb_gt].
    unfold final_fin in Hf. destruct (fin_offset st) as [g|] eqn:Eg.
    + injection Hf as ->. destruct (fw_fin _ _ Hw _ Eg) as [? Hfa].
      split; [lia|]. eapply merge_result_ends; [exact Hr|done|].
      pose proof (io_fin_end _ _ _ _ Hi _ Eg). lia.
    + destruct (po_fin _ _ _ _ _ _ _ _ _ _ Hp _ Hf) as [? Hfa].
      pose proof (io_fin_next _ _ _ _ Hi _ Hf).
      split; [lia|]. eapply merge_result_ends; [exact Hr|done|lia].
Qed.
Context (h1 : History) (hr : option History) (np : list (Z * Page)) (o : option bytes).
Context (Htrim : (state ← trim_emitted_history
               (mkFlowState (base_sequence st) (next_offset st) (history_start_offset st)
                  (emitted_history st) (pending st) (flow_pages st) (pending_bytes st)
                  (fin_offset st) (Z.max (last_update st) now) (deadline st)) ic;
             Ok (match hr with
                 | Some h => set_history state (history_start_offset state) h
                 | None => state
                 end)) = @Ok Error _ (trimmed_state h1)).
Context (Hh1 : history_wf h1) (Hc1 : contents h1 = keep_last ic d) (Hcap1 : capacity h1 = ha).
Context (Happ : apply_pending_merge (trimmed_state h1) (set_merge_storage m np o) (seg_payload seg)
                = Ok (set_storage (trimmed_state h1) l' pages', output)).

(** The state between the merge and the delivery. *)
Definition merged_state : TcpFlowState :=
  mkFlowState (base_sequence st) (next_offset st) (next_offset st - zlen (keep_last ic d)) h1
    l' pages' pb (final_fin st inc) (Z.max (last_update st) now) (deadline st).

Lemma deliver :
  exists h, emit_data (set_pending_bytes merged_state (pb - zlen out)) flow out (max_bytes_per_flow L)
    = Ok (final_state st inc now l' pages' (pb - zlen out) out h, Data flow (expected_sequence st) out) /\
    history_wf h /\ contents h = keep_last (max_bytes_per_flow L - (pb - zlen out)) (d ++ out) /\
    capacity h = ha.
Proof.
  pose proof planned_pending as [Hpe Hpn]. pose proof planned_capacity as (Hic & Hic0 & Hha).
  pose proof (po_next _ _ _ _ _ _ _ _ _ _ Hp). pose proof (zlen_nonneg out).
  pose proof (zlen_contents _ (fw_hist _ _ Hw)) as Hlen0. pose proof (fw_start _ _ Hw).
  pose proof (fw_window _ _ Hw). pose proof (fw_next _ _ Hw).
  pose proof (zlen_keep_last ic d Hic0) as Hkl. pose proof (zlen_nonneg d).
  edestruct (emit_data_spec (set_pending_bytes merged_state (pb - zlen out)) (keep_last ic d)
    (next_offset st) out flow (max_bytes_per_flow L)) as (h & -> & Hwf & Hc & Hcap); cbn; try lia.
  { split; cbn; try done; lia. }
  assert (keep_last (max_bytes_per_flow L - (pb - zlen out)) (keep_last ic d ++ out)
          = keep_last (max_bytes_per_flow L - (pb - zlen out)) (d ++ out)) as Hk.
  { apply keep_last_keep_last; lia. }
  cbn in Hc. rewrite Hk in Hc. exists h.
  split; [|split; [done|split; [done|by cbn in Hcap; rewrite Hcap]]].
  unfold final_state, expected_sequence. cbn. by rewrite Hk, Hc.
Qed.

Lemma commit_flow_push_spec direct :
  payload_sequence plan = in_sequence inc ->
  incoming_fin_offset plan = in_fin_offset inc ->
  retransmitted plan = in_retransmitted inc ->
  conflicting plan = in_conflicting inc ->
  merge plan = set_merge_storage m np o ->
  plan_pending_bytes plan = pb ->
  initial_history_capacity plan = ic ->
  history_replacement plan = hr ->
  direct = (if direct_output m then Some (in_payload inc) else None) ->
  exists st' events conflict,
    commit_flow_push st flow now (max_bytes_per_flow L) plan direct (seg_payload seg) = Ok (st', events) /\
    push_effect L st seg now flow st' events (pm_closed planned) inc out conflict /\
    pending st' = l' /\ flow_pages st' = pages' /\ capacity (emitted_history st') = ha.
Proof.
  intros Epl Efin Eret Ecf Em Epb Eic Ehr Edir.
  set (conflict := in_conflicting inc || has_conflicting_overlap m).
  assert (conflict = true <-> in_conflicting inc = true \/
    conflicts_with (flow_pages st) (in_offset inc) (in_payload inc) (pending st)) as Hcf.
  { unfold conflict. rewrite orb_true_iff, (ms_conflict _ _ _ _ _ _ _ Hm). done. }
  enough (exists h, commit_flow_push st flow now (max_bytes_per_flow L) plan direct (seg_payload seg)
      = Ok (final_state st inc now l' pages' (pb - zlen out) out h, effect_events st inc flow conflict out) /\
      history_wf h /\ contents h = keep_last (max_bytes_per_flow L - (pb - zlen out)) (d ++ out) /\
      capacity h = ha) as (h & -> & Hwf & Hc & Hcap).
  { eexists _, _, conflict. split; [done|]. split; [by apply final_state_effect|]. done. }
  pose proof planned_pending as [Hpe Hpn]. pose proof planned_capacity as (Hic & Hic0 & Hha).
  pose proof Htrim as Ht. inv_ok Ht. injection Ht as Ht.
  assert (saturating_add usize_max (in_retransmitted inc) (overlapping_bytes m) = repeated_bytes st inc) as Hrep.
  { unfold repeated_bytes. rewrite (io_retransmitted _ _ _ _ Hi), (ms_overlap _ _ _ _ _ _ _ Hm).
    pose proof (ms_added _ _ _ _ _ _ _ Hm). pose proof (ms_added_nonneg _ _ _ _ _ _ _ Hm).
    pose proof (sok_payload _ Hs). pose proof (incoming_start _ _ _ _ Hi) as Hst.
    rewrite (io_payload _ _ _ _ Hi) in *. rewrite zlen_zdrop in *.
    unfold saturating_add, usize_max, u64_max, isize_max in *. lia. }
  unfold commit_flow_push. rewrite Em, Epl, Efin, Eret, Ecf, Epb, Eic, Ehr.
  cbn [overlapping_ranges overlapping_bytes has_conflicting_overlap set_merge_storage].
  rewrite Ha, Hrep, Ok_bind, Ht, Happ, Ok_bind. fold conflict.
  cbn [base_sequence next_offset history_start_offset emitted_history pending flow_pages pending_bytes
       fin_offset last_update deadline set_storage trimmed_state].
  fold (final_fin st inc) merged_state.
  rewrite (io_retransmitted _ _ _ _ Hi), (ms_ranges _ _ _ _ _ _ _ Hm). fold (repeated_ranges st inc).
  destruct deliver as (h & Hdel & Hwf & Hc & Hcap).
  pose proof (ms_output _ _ _ _ _ _ _ Hm) as Hout. destruct (direct_output m).
  - destruct Hout as (-> & Hop & Hpos). subst direct. exists h. split; [|done]. rewrite <-Hop.
    change (pending_bytes merged_state) with pb.
    assert (saturating_sub pb (zlen out) = pb - zlen out) as -> by (unfold saturating_sub; lia).
    rewrite Hdel. unfold effect_events. rewrite (proj2 (Z.eqb_neq (zlen out) 0)) by lia. done.
  - rewrite Edir, Hout. destruct (Z.eqb_spec (zlen out) 0) as [Hz|Hz].
    + exists h1. split; [|split; [done|split; [|done]]].
      * unfold effect_events. rewrite (proj2 (Z.eqb_eq _ _) Hz), app_nil_r. cbn.
        do 2 f_equal. unfold merged_state, final_state. rewrite Hz, Hc1. f_equal; lia.
      * rewrite Hc1, (zlen_0 _ Hz), app_nil_r. f_equal. change (@zlen Z []) with 0. lia.
    + exists h. split; [|done]. rewrite Ok_bind.
      change (pending_bytes merged_state) with pb.
      rewrite checked_sub_ok by lia. cbn [expect]. rewrite Ok_bind, Hdel.
      unfold effect_events. rewrite (proj2 (Z.eqb_neq _ _) Hz). done.
Qed.
End commit.

(** ** Planning and committing together *)

Lemma plan_push_accounting_safe L st pb storage emitted segments bb bc retains :
  safe (plan_push_accounting L st pb storage emitted segments bb bc retains) (fun _ => True).
Proof.
  unfold plan_push_accounting. case_match; [done|].
  do 4 (apply safe_bind, safe_ok_or; intros ? _). case_match; [done|]. by destruct retains.
Qed.

Lemma plan_merge_and_accounting_safe L st bb bc seg inc m :
  flow_wf L st ->
  plan_pending_merge st (in_offset inc) (in_payload inc) (in_payload_start inc) (next_offset st) = Ok m ->
  safe_when (clear_of_last_page (pending st)) (plan_merge_and_accounting L st bb bc seg inc)
    (fun planned => pm_merge planned = m).
Proof.
  intros Hw Hm. unfold plan_merge_and_accounting. rewrite Hm. cbn [opt_or]. rewrite Ok_bind.
  apply safe_when_bind, safe_when_of_safe, safe_ok_or. intros ? _.
  apply safe_when_bind, safe_when_of_safe. eapply safe_mono.
  { apply (validate_pending_final_offset_spec _ _ _ (fw_ivs _ _ Hw)). }
  intros _ _. apply safe_when_bind, safe_when_of_safe, safe_ok_or. intros ? _. apply safe_when_bind.
  apply (safe_when_mono _ _ (fun _ => True)).
  { case_match.
    - apply safe_when_bind. eapply safe_when_mono; [apply remaining_count_spec|]. done.
    - apply safe_when_of_safe, safe_bind, safe_ok_or. done. }
  intros [? ?] _. apply safe_when_of_safe, safe_bind, safe_ok_or. intros ? _. apply safe_bind.
  eapply safe_mono; [apply plan_push_accounting_safe|]. done.
Qed.

Definition direct_of (plan : PushPlan) (seg : Segment) : option bytes :=
  direct_payload plan ≫= (fun range => checked_slice (seg_payload seg) range.1 range.2).

(** What a planned push does when committed. *)
Record push_ok (L : Limits) (st : TcpFlowState) (bb bc : Z) (seg : Segment) (flow : ScopedFlowKey)
  (now : Z) (plan : PushPlan) (st' : TcpFlowState) (events : list Event) : Prop := {
  pk_effect : exists inc out conflict,
    push_effect L st seg now flow st' events (closed plan) inc out conflict;
  pk_commit : commit_flow_push st flow now (max_bytes_per_flow L) plan (direct_of plan seg)
    (seg_payload seg) = Ok (st', events);
  pk_bytes : plan_aggregate_bytes plan = bb + (if closed plan then 0 else flow_retained st');
  pk_charge : plan_aggregate_memory_charge plan = bc + (if closed plan then 0 else flow_charge st');
  pk_max : closed plan = false -> plan_aggregate_bytes plan <= max_aggregate_bytes L /\
    plan_aggregate_memory_charge plan <= max_aggregate_bytes L
}.

Lemma checked_slice_tail segp ps pay :
  0 <= ps <= zlen segp -> pay = zdrop ps segp -> checked_slice segp ps (ps + zlen pay) = Some pay.
Proof.
  intros Hps ->. unfold checked_slice. rewrite zlen_zdrop.
  rewrite !(proj2 (Z.ltb_ge _ _)) by lia. cbn.
  replace (ps + _) with (zlen segp) by lia. by rewrite zdrop_zslice by lia.
Qed.

Section plan_push.
Context (alloc : allocator) (L : Limits) (st : TcpFlowState) (bb bc : Z) (seg : Segment).
Context (HL : limits_ok L) (Hw : flow_wf L st) (Hs : segment_ok seg).
Context (inc : IncomingPayload) (m m' : PendingMergePlan) (planned : PlannedMerge).
Context (Hi : incoming_ok L st seg inc).
Context (Hplan : plan_pending_merge st (in_offset inc) (in_payload inc) (in_payload_start inc)
                   (next_offset st) = Ok m).
Context (Hacct : plan_merge_and_accounting L st bb bc seg inc = Ok planned).
Context (Hmat : materialize_pending_merge alloc st (in_offset inc) (in_payload inc) m = Ok m').

Lemma merge_and_account st1 :
  same_storage st st1 -> exists np o l' pages' out output,
    m' = set_merge_storage m np o /\ merge_step st inc m l' pages' out output /\
    apply_pending_merge st1 m' (seg_payload seg) = Ok (set_storage st1 l' pages', output) /\
    planned_ok L st bb bc seg inc m planned out (pages_len pages').
Proof.
  intros Hst. destruct (merge_step_ok alloc L st st1 seg inc Hw Hi Hst) as (m2 & Hp2 & Hap).
  assert (m2 = m) as -> by congruence. unfold merge_applies in Hap.
  destruct (safe_Ok _ _ _ Hap Hmat) as ((np & o & Em) & l' & pages' & out & output & Hms & Happ).
  exists np, o, l', pages', out, output. split; [done|]. split; [done|]. split; [done|].
  exact (safe_when_Ok _ _ _ _ (plan_merge_and_accounting_spec L st bb bc seg inc m l' pages' out output
           HL Hw Hi Hplan Hms) Hacct).
Qed.

Lemma history_room :
  0 <= pm_initial_history_capacity planned /\
  Z.min (pm_initial_history_capacity planned) (len (emitted_history st)) <= pm_history_allocation planned.
Proof.
  destruct (merge_and_account st) as (np & o & l' & pages' & out & output & _ & Hms & _ & Hpo); [done|].
  pose proof (planned_capacity _ _ _ _ _ _ _ _ _ _ Hpo) as (? & ? & ?).
  pose proof (zlen_nonneg out). lia.
Qed.

Lemma committed flow now plan hr :
  prepare_emitted_history alloc st (pm_initial_history_capacity planned) (pm_history_allocation planned) = Ok hr ->
  plan = {| payload_sequence := in_sequence inc; incoming_fin_offset := in_fin_offset inc;
            retransmitted := in_retransmitted inc; conflicting := in_conflicting inc; merge := m';
            direct_payload := if direct_output m'
              then Some (in_payload_start inc, in_payload_start inc + zlen (in_payload inc)) else None;
            plan_pending_bytes := pm_pending_bytes planned;
            initial_history_capacity := pm_initial_history_capacity planned;
            history_replacement := hr; closed := pm_closed planned;
            plan_aggregate_bytes := pm_aggregate_bytes planned;
            plan_aggregate_memory_charge := pm_aggregate_memory_charge planned |} ->
  exists st' events, push_ok L st bb bc seg flow now plan st' events.
Proof.
  intros Hpr Epl. destruct history_room as [Hic Hroom].
  destruct (trim_and_replace alloc L st now planned Hw hr Hic Hroom Hpr) as (h1 & Htr & Hwf1 & Hc1 & Hcap1).
  destruct (merge_and_account (trimmed_state st now planned h1)) as
    (np & o & l' & pages' & out & output & Em & Hms & Happ & Hpo); [done|].
  rewrite Em in Happ.
  destruct (commit_flow_push_spec L st bb bc seg inc flow now plan m planned Hw Hs Hi l' pages' out output
    (pages_len pages') Hms Hpo h1 hr np o Htr Hwf1 Hc1 Hcap1 Happ (direct_of plan seg))
    as (st' & events & conflict & Hcom & Heff & El & Epg & Ecap); try (by rewrite Epl).
  { rewrite Epl, Em. unfold direct_of. cbn. destruct (direct_output m); [|done].
    apply checked_slice_tail; [by eapply incoming_start|by eapply io_payload]. }
  exists st', events. pose proof (po_accounting _ _ _ _ _ _ _ _ _ _ Hpo) as Ha.
  assert (flow_charge st' = charge_parts (pages_len pages') (zlen l') (pm_history_allocation planned)) as Hfc.
  { unfold flow_charge. by rewrite El, Epg, Ecap. }
  rewrite Epl. split; cbn [closed plan_aggregate_bytes plan_aggregate_memory_charge].
  - by exists inc, out, conflict.
  - by rewrite <-Epl.
  - pose proof (ac_bytes _ _ _ _ _ _ _ _ _ _ Ha) as Hab. cbn in Hab. rewrite Hab. destruct (pm_closed planned) eqn:Ec; cbn; [done|].
    f_equal. pose proof (pe_wf _ _ _ _ _ _ _ _ _ _ _ Heff eq_refl) as Hw'.
    unfold flow_retained. rewrite <-(zlen_contents _ (fw_hist _ _ Hw')), (pe_history _ _ _ _ _ _ _ _ _ _ _ Heff).
    rewrite (pe_pending _ _ _ _ _ _ _ _ _ _ _ Heff), El.
    destruct (planned_pending _ _ _ _ _ _ _ _ Hw _ _ _ _ _ Hms Hpo) as [<- Hpn].
    pose proof (po_pending_max _ _ _ _ _ _ _ _ _ _ Hpo). pose proof (zlen_nonneg out).
    rewrite zlen_keep_last, zlen_app, zlen_contents by (try apply Hw; lia).
    unfold history_after. lia.
  - pose proof (ac_charge _ _ _ _ _ _ _ _ _ _ Ha) as Hac. cbn in Hac. rewrite Hac. destruct (pm_closed planned); cbn; [done|].
    f_equal. rewrite Hfc, (ms_count _ _ _ _ _ _ _ Hms). unfold charge_parts. lia.
  - intros Hc. apply (ac_max _ _ _ _ _ _ _ _ _ _ Ha). by rewrite Hc.
Qed.
End plan_push.

(** Where no pending interval starts in the last page, planning does not panic; a
    push that is planned commits, with the effect and charges planned. *)
Lemma plan_push_spec alloc L st bb bc tb seg flow now :
  limits_ok L -> flow_wf L st -> segment_ok seg ->
  safe_when (clear_of_last_page (pending st)) (plan_push alloc L st bb bc tb seg) (fun plan =>
    exists st' events, push_ok L st bb bc seg flow now plan st' events).
Proof.
  intros HL Hw Hs. unfold plan_push. apply safe_when_bind, safe_when_of_safe.
  eapply safe_mono; [by apply normalize_payload_spec|]. intros inc Hi.
  destruct (merge_step_ok alloc L st st seg inc Hw Hi) as (m & Hm & Hap); [done|].
  apply safe_when_bind. pose proof (plan_merge_and_accounting_safe L st bb bc seg inc m Hw Hm) as Hsafe.
  destruct (plan_merge_and_accounting L st bb bc seg inc) as [planned| |] eqn:Hacct; [|done|done].
  cbn [safe_when] in Hsafe |- *. rewrite Hsafe. apply safe_when_of_safe.
  do 3 (apply safe_bind, safe_ok_or; intros ? _). case_match; [done|]. apply safe_bind.
  unfold merge_applies in Hap.
  destruct (materialize_pending_merge alloc st (in_offset inc) (in_payload inc) m)
    as [m'| |] eqn:Hmat; [|done|done]. cbn [safe].
  destruct (history_room alloc L st bb bc seg HL Hw inc m m' planned Hi Hm Hacct Hmat) as [Hic Hroom].
  apply safe_bind.
  destruct (prepare_emitted_history alloc st (pm_initial_history_capacity planned)
    (pm_history_allocation planned)) as [hr| |] eqn:Hpr; [|done|].
  2:{ exfalso. revert Hpr. pose proof (flow_wf_history _ _ Hw) as HI.
      apply (prepare_emitted_history_not_Panic _ _ _ _ _ _ HI); [done|].
      by rewrite <-(history_is_len _ _ _ HI). }
  cbn [safe]. apply safe_bind.
  apply (safe_mono _ (fun o => o = if direct_output m'
    then Some (in_payload_start inc, in_payload_start inc + zlen (in_payload inc)) else None)).
  { destruct (direct_output m'); [|done]. apply safe_bind, safe_ok_or. by intros e [-> _]%checked_add_Some. }
  intros dp ->. cbn [safe].
  by eapply (committed alloc L st bb bc seg HL Hw Hs inc m m' planned Hi Hm Hacct Hmat).
Qed.
