(* ===== verification/TcpEngine.v ===== *)
(** * The reassembler's invariant

    [engine.rs] and the reassembler-level half of [commit.rs]: every operation
    keeps the flows well-formed, the aggregate counters exact and within the
    limits, and the expiry index equal to the deadlines of the flows; no
    operation panics. *)

From stdpp Require Import base tactics option list numbers gmap.
From Stdlib Require Import ZArith Lia.
From S2P Require Import Prelude Ordered Flow TcpModel TcpHistory TcpPages TcpState TcpPlan TcpCommit.
From S2P Require Import TcpIntervals TcpStorage TcpMerge TcpFlow TcpPush TcpEffect.

Record reassembler_wf (r : Reassembler) : Prop := {
  rw_limits : limits_ok (limits r);
  rw_flows : map_Forall (fun _ st => flow_wf (limits r) st) (flows r);
  rw_deadlines : map_Forall (fun _ st =>
    deadline st = instant_checked_add (last_update st) (idle_expiry (limits r))) (flows r);
  rw_bytes : aggregate_bytes r = map_sum flow_retained (flows r);
  rw_charge : aggregate_memory_charge r = map_sum flow_charge (flows r);
  rw_bytes_max : aggregate_bytes r <= max_aggregate_bytes (limits r);
  rw_charge_max : aggregate_memory_charge r <= max_aggregate_bytes (limits r);
  rw_count : flow_count r <= max_flows (limits r);
  rw_expiry : indexed deadline (flows r) (expiry r)
}.

Lemma rw_retained_nonneg r :
  reassembler_wf r -> map_Forall (fun _ st => 0 <= flow_retained st) (flows r).
Proof. intros Hr k st Hk. eapply flow_retained_nonneg. by apply (rw_flows _ Hr k). Qed.

Lemma rw_charge_nonneg r : map_Forall (fun _ st => 0 <= flow_charge st) (flows r).
Proof. intros k st Hk. apply flow_charge_nonneg. Qed.

Lemma reassembler_new_wf clock l r :
  limits_ok l -> reassembler_new clock l = Ok r -> reassembler_wf r.
Proof.
  intros HL H. unfold reassembler_new in H. inv_ok H. injection H as <-. destruct HL.
  split; cbn; try done; try (by rewrite map_sum_empty); try lia.
  - unfold flow_count. cbn. rewrite map_size_empty. lia.
  - apply indexed_empty.
Qed.

(** [Limits::validate] accepts only limits whose byte bound is below half the
    sequence space. *)
Lemma Limits_validate_bytes clock l :
  Limits_validate clock l = Ok tt -> max_bytes_per_flow l <= MAX_BYTES_PER_FLOW.
Proof.
  unfold Limits_validate, Limits_violation. by case_bool.
Qed.

(** ** Where a push starts *)

Definition generation_changes (r : Reassembler) (seg : Segment) : bool :=
  (seg_syn seg || is_none (flows r !! seg_flow seg)) &&
  match flows r !! seg_flow seg with
  | Some st => negb (base_sequence st =? first_payload_sequence seg)
  | None => true
  end.

(** [updated] of [commit_push]. *)
Definition updated_at (r : Reassembler) (seg : Segment) (now : Z) : Z :=
  match flows r !! seg_flow seg with
  | Some st => Z.max (last_update st) now | None => now end.

(** The state the segment is applied to: the flow's, or a new generation's. *)
Definition start_state (r : Reassembler) (seg : Segment) (now : Z) : TcpFlowState :=
  match flows r !! seg_flow seg with
  | Some st => if generation_changes r seg
               then flow_state_new (first_payload_sequence seg) (updated_at r seg now)
                      (instant_checked_add (updated_at r seg now) (idle_expiry (limits r)))
               else st
  | None => flow_state_new (first_payload_sequence seg) now
              (instant_checked_add now (idle_expiry (limits r)))
  end.

(** A bare acknowledgement of an unknown flow. *)
Definition ignored (r : Reassembler) (seg : Segment) : bool :=
  is_empty (seg_payload seg) && negb (seg_syn seg) && negb (seg_fin seg)
  && negb (seg_rst seg) && is_none (flows r !! seg_flow seg).

(** What [push] does to the reassembler, in terms of one flow's effect. *)
Record push_result (r : Reassembler) (seg : Segment) (now : Z) (r' : Reassembler)
  (events : list Event) (st' : TcpFlowState) (closing : bool) (inc : IncomingPayload)
  (out : bytes) (conflict : bool) (flow_events : list Event) : Prop := {
  pr_effect : push_effect (limits r) (start_state r seg now) seg now (seg_flow seg) st'
    flow_events closing inc out conflict;
  pr_limits : limits r' = limits r;
  pr_flows : flows r' = if closing then delete (seg_flow seg) (flows r)
    else <[seg_flow seg := set_deadline st'
             (instant_checked_add (last_update st') (idle_expiry (limits r)))]> (flows r);
  pr_events : events = flow_events ++ if closing then [Closed (seg_flow seg) (seg_rst seg)] else []
}.

Lemma first_payload_sequence_range seg : 0 <= first_payload_sequence seg <= u32_max.
Proof.
  unfold first_payload_sequence, wrapping_add32. pose proof (as_u32_range
    (seg_sequence seg + from_bool (seg_syn seg))). unfold u32_max. lia.
Qed.

Lemma start_state_wf r seg now :
  reassembler_wf r -> flow_wf (limits r) (start_state r seg now).
Proof.
  intros Hr. pose proof (first_payload_sequence_range seg). pose proof (rw_limits _ Hr).
  unfold start_state. destruct (flows r !! seg_flow seg) as [st|] eqn:E.
  - case_match; [by apply flow_state_new_wf|]. by apply (rw_flows _ Hr _ _ E).
  - by apply flow_state_new_wf.
Qed.

Lemma aggregates_without_eq r existing flow :
  reassembler_wf r -> flows r !! flow = existing ->
  aggregates_without r existing
    = Ok (map_sum flow_retained (delete flow (flows r)), map_sum flow_charge (delete flow (flows r))).
Proof.
  intros Hr He. pose proof Hr as [HL Hf _ Hb Hc Hbm Hcm _ _]. pose proof (lok_aggregate _ HL).
  unfold aggregates_without. rewrite !map_sum_delete_from, He.
  destruct existing as [st|]; cbn [from_option].
  - pose proof (map_sum_member _ _ _ _ (rw_retained_nonneg _ Hr) He).
    pose proof (map_sum_member _ _ _ _ (rw_charge_nonneg r) He).
    rewrite (retained_bytes_eq (limits r)) by (try done; by apply (Hf flow)).
    rewrite flow_memory_charge_eq by (unfold usize_max; lia).
    cbn [ok_or]. rewrite !Ok_bind, Hb, Hc, !checked_sub_ok by lia. done.
  - cbn [ok_or]. rewrite !Ok_bind, Hb, Hc.
    pose proof (map_sum_nonneg _ _ (rw_retained_nonneg _ Hr)).
    pose proof (map_sum_nonneg _ _ (rw_charge_nonneg r)).
    rewrite !checked_sub_ok by lia. done.
Qed.

Lemma flow_wf_set_deadline L st d : flow_wf L st -> flow_wf L (set_deadline st d).
Proof. by intros [? ? ? ? ? ? ? ? ? ? ? ? ?]; split. Qed.

Lemma plan_push_fresh alloc L base now d now' d' bb bc tb seg :
  plan_push alloc L (flow_state_new base now d) bb bc tb seg
  = plan_push alloc L (flow_state_new base now' d') bb bc tb seg.
Proof. reflexivity. Qed.

(** ** Pushing *)

Section push.
Context (r : Reassembler) (seg : Segment) (now : Z).
Context (Hr : reassembler_wf r).

Notation flow := (seg_flow seg).
Notation L := (limits r).

(** Storing the new state of the flow keeps the invariant. *)
Lemma store_flow_wf st' agg charge :
  flow_wf L st' ->
  agg = map_sum flow_retained (delete flow (flows r)) + flow_retained st' ->
  charge = map_sum flow_charge (delete flow (flows r)) + flow_charge st' ->
  agg <= max_aggregate_bytes L -> charge <= max_aggregate_bytes L ->
  last_update st' = updated_at r seg now ->
  deadline st' = instant_checked_add (updated_at r seg now) (idle_expiry L) ->
  (generation_changes r seg = true ->
   Z.of_nat (size (delete flow (flows r))) < max_flows L) ->
  reassembler_wf (mkReassembler L (<[flow := st']> (flows r))
    (if bool_decide ((flows r !! flow ≫= deadline) = deadline st') then expiry r
     else expiry_insert (deadline st') flow (expiry_remove (flows r !! flow ≫= deadline) flow (expiry r)))
    agg charge).
Proof.
  intros Hw Ha Hc Ham Hcm Hu Hd Hcount. destruct Hr as [HL Hf Hdl _ _ _ _ Hn He].
  split; cbn; try done.
  - by apply map_Forall_insert_2.
  - apply map_Forall_insert_2; [by rewrite Hu|done].
  - rewrite map_sum_insert. lia.
  - rewrite map_sum_insert. lia.
  - unfold flow_count in *. cbn. rewrite size_insert_bound. unfold generation_changes in Hcount.
    rewrite size_delete_eq in *. destruct (flows r !! flow) as [st|]; cbn in *; [lia|].
    rewrite orb_true_r in Hcount. specialize (Hcount eq_refl). lia.
  - case_bool_decide as Heq.
    + by apply indexed_insert_same.
    + by apply indexed_insert.
Qed.

(** Removing the flow keeps the invariant. *)
Lemma close_flow_wf :
  reassembler_wf (mkReassembler L (delete flow (flows r))
    (expiry_remove (flows r !! flow ≫= deadline) flow (expiry r))
    (map_sum flow_retained (delete flow (flows r))) (map_sum flow_charge (delete flow (flows r)))).
Proof.
  pose proof (rw_retained_nonneg _ Hr) as Hrn. pose proof (rw_charge_nonneg r) as Hcn.
  destruct Hr as [HL Hf Hdl Hb Hc Hbm Hcm Hn He].
  assert (forall f, map_Forall (fun _ st => 0 <= f st) (flows r) ->
    map_sum f (delete flow (flows r)) <= map_sum f (flows r)) as Hle.
  { intros f Hfn. rewrite map_sum_delete_from. destruct (flows r !! flow) eqn:E; cbn; [|lia].
    pose proof (Hfn _ _ E). cbn in *. lia. }
  split; cbn; try done.
  - by apply map_Forall_delete.
  - by apply map_Forall_delete.
  - pose proof (Hle _ Hrn). lia.
  - pose proof (Hle _ Hcn). lia.
  - unfold flow_count in *. cbn. rewrite size_delete_eq. destruct (flows r !! flow); cbn; lia.
  - by apply indexed_delete.
Qed.
End push.

Lemma commit_push_spec r seg now plan st' events bb bc :
  reassembler_wf r ->
  bb = map_sum flow_retained (delete (seg_flow seg) (flows r)) ->
  bc = map_sum flow_charge (delete (seg_flow seg) (flows r)) ->
  (generation_changes r seg = true ->
     Z.of_nat (size (delete (seg_flow seg) (flows r))) < max_flows (limits r)) ->
  push_ok (limits r) (start_state r seg now) bb bc seg (seg_flow seg) now plan st' events ->
  exists r' inc out conflict,
    commit_push r seg now (generation_changes r seg) plan
      = Ok (r', events ++ if closed plan then [Closed (seg_flow seg) (seg_rst seg)] else []) /\
    reassembler_wf r' /\
    push_result r seg now r' (events ++ if closed plan then [Closed (seg_flow seg) (seg_rst seg)] else [])
      st' (closed plan) inc out conflict events.
Proof.
  intros Hr -> -> Hcount [(inc & out & conflict & He) Hcom Hb Hc Hmax].
  set (upd := updated_at r seg now).
  set (dl := instant_checked_add upd (idle_expiry (limits r))).
  assert (last_update st' = upd) as Hupd.
  { rewrite (pe_update _ _ _ _ _ _ _ _ _ _ _ He). unfold upd, start_state, updated_at.
    destruct (flows r !! seg_flow seg); [|cbn; lia]. destruct (generation_changes r seg); cbn; lia. }
  set (stf := if generation_changes r seg then st' else set_deadline st' dl).
  assert (generation_changes r seg = true -> deadline st' = dl) as Hgd.
  { intros Hg. rewrite (pe_deadline _ _ _ _ _ _ _ _ _ _ _ He). unfold dl, upd, start_state, updated_at.
    destruct (flows r !! seg_flow seg); [|done]. by rewrite Hg. }
  assert (stf = set_deadline st' dl) as Hstf.
  { unfold stf. destruct (generation_changes r seg); [|done]. rewrite <-Hgd by done. by destruct st'. }
  set (r' := if closed plan
    then mkReassembler (limits r) (delete (seg_flow seg) (flows r))
      (expiry_remove (flows r !! seg_flow seg ≫= deadline) (seg_flow seg) (expiry r))
      (plan_aggregate_bytes plan) (plan_aggregate_memory_charge plan)
    else mkReassembler (limits r) (<[seg_flow seg := stf]> (flows r))
      (if bool_decide ((flows r !! seg_flow seg ≫= deadline) = dl) then expiry r
       else expiry_insert dl (seg_flow seg)
              (expiry_remove (flows r !! seg_flow seg ≫= deadline) (seg_flow seg) (expiry r)))
      (plan_aggregate_bytes plan) (plan_aggregate_memory_charge plan)).
  exists r', inc, out, conflict. split; [|split].
  - unfold commit_push. fold (direct_of plan seg) (first_payload_sequence seg) (updated_at r seg now).
    fold upd. fold dl. unfold r', stf, start_state in *. fold upd in Hcom. fold dl in Hcom.
    destruct (generation_changes r seg) eqn:Eg.
    + assert (flow_state_new (first_payload_sequence seg) upd dl = match flows r !! seg_flow seg with
        | Some _ => flow_state_new (first_payload_sequence seg) upd dl
        | None => flow_state_new (first_payload_sequence seg) now
            (instant_checked_add now (idle_expiry (limits r))) end) as ->.
      { unfold dl, upd, updated_at. by destruct (flows r !! seg_flow seg). }
      rewrite Hcom, !Ok_bind. destruct (closed plan); [done|]. by rewrite app_nil_r.
    + destruct (flows r !! seg_flow seg) as [st|] eqn:Ef.
      2:{ unfold generation_changes in Eg. rewrite Ef in Eg. by rewrite orb_true_r in Eg. }
      cbn [expect]. rewrite Ok_bind, Hcom, !Ok_bind. destruct (closed plan).
      * by rewrite delete_insert_eq.
      * by rewrite app_nil_r.
  - unfold r'. destruct (closed plan) eqn:Ec.
    + rewrite Hb, Hc, !Z.add_0_r. by apply close_flow_wf.
    + destruct (Hmax eq_refl) as [Hm1 Hm2].
      pose proof (store_flow_wf r seg now Hr stf (plan_aggregate_bytes plan) (plan_aggregate_memory_charge plan))
        as Hst. rewrite Hstf in Hst |- *. apply Hst; try done.
      by apply flow_wf_set_deadline, (pe_wf _ _ _ _ _ _ _ _ _ _ _ He).
  - split; [done|..|done]; unfold r'; destruct (closed plan); cbn; try done.
    rewrite Hstf, Hupd. done.
Qed.

(** [push] panics only when a pending interval of the flow starts in the last page;
    a rejected segment leaves the caller's reassembler, an
    accepted one a well-formed reassembler. *)
Lemma push_spec alloc r seg now :
  reassembler_wf r -> segment_ok seg ->
  safe_when (clear_of_last_page (pending (start_state r seg now))) (push alloc r seg now) (fun '(r', events) =>
    reassembler_wf r' /\
    (if ignored r seg then r' = r /\ events = []
     else exists st' closing inc out conflict flow_events,
       push_result r seg now r' events st' closing inc out conflict flow_events)).
Proof.
  intros Hr Hs. unfold push. fold (ignored r seg) (first_payload_sequence seg) (generation_changes r seg).
  destruct (ignored r seg); [done|].
  destruct (generation_changes r seg && (max_flows (limits r) <=? _)) eqn:Ecap; [done|].
  rewrite (aggregates_without_eq r _ (seg_flow seg)) by done. rewrite Ok_bind.
  pose proof (plan_push_spec alloc (limits r) (start_state r seg now)
    (map_sum flow_retained (delete (seg_flow seg) (flows r)))
    (map_sum flow_charge (delete (seg_flow seg) (flows r))) (aggregate_memory_charge r) seg
    (seg_flow seg) now (rw_limits _ Hr) (start_state_wf _ _ _ Hr) Hs) as Hplan.
  apply safe_when_bind, safe_when_of_safe.
  apply (safe_mono _ (fun state => forall bb bc tb,
    plan_push alloc (limits r) state bb bc tb seg
    = plan_push alloc (limits r) (start_state r seg now) bb bc tb seg)).
  { unfold start_state. destruct (generation_changes r seg) eqn:Eg.
    - cbn. intros. destruct (flows r !! seg_flow seg); apply plan_push_fresh.
    - unfold generation_changes in Eg. destruct (flows r !! seg_flow seg); [done|].
      by rewrite orb_true_r in Eg. }
  intros state ->. apply safe_when_bind. eapply safe_when_mono; [exact Hplan|].
  intros plan (st' & events & Hok). cbn beta in *.
  edestruct commit_push_spec as (r' & inc & out & conflict & -> & Hwf & Hpr); [done|done|done| |exact Hok|].
  - intros Hg. rewrite Hg in Ecap. cbn in Ecap. apply Z.leb_gt in Ecap.
    rewrite size_delete_eq. unfold saturating_sub in Ecap. lia.
  - cbn. split; [done|]. by eexists _, _, _, _, _, _.
Qed.
