(* ===== verification/TcpEviction.v ===== *)
(** * Expiry, eviction and flush

    [expire], [evict_flow], [flush] and the [remove_flows] they share
    ([engine.rs]): which flows go, what is reported, and that the invariant of
    the reassembler holds afterwards. *)

From stdpp Require Import base tactics option list numbers gmap sorting.
From Stdlib Require Import ZArith Lia.
From S2P Require Import Prelude Ordered Flow TcpModel TcpHistory TcpPages TcpState TcpPlan TcpCommit.
From S2P Require Import TcpIntervals TcpStorage TcpMerge TcpFlow TcpPush TcpEffect TcpEngine.

(** ** Sorting the keys *)

Lemma insert_key_perm k l : insert_key k l ≡ₚ k :: l.
Proof.
  induction l as [|k' l IH]; cbn; [done|]. destruct (cmp k k'); [done|done|].
  by rewrite IH, Permutation_swap.
Qed.

Lemma sort_keys_perm l : sort_keys l ≡ₚ l.
Proof. induction l as [|k l IH]; cbn; [done|]. by rewrite insert_key_perm, IH. Qed.

Definition key_le (a b : ScopedFlowKey) : Prop := cmp a b <> Gt.

Lemma key_le_trans a b c : key_le a b -> key_le b c -> key_le a c.
Proof.
  unfold key_le. intros H1 H2. destruct (cmp a b) eqn:E1; [apply cmp_eq in E1 as ->; done| |done].
  destruct (cmp b c) eqn:E2; [apply cmp_eq in E2 as <-; by rewrite E1| |done].
  by rewrite (cmp_trans _ _ _ E1 E2).
Qed.

Lemma insert_key_sorted k l : StronglySorted key_le l -> StronglySorted key_le (insert_key k l).
Proof.
  induction l as [|k' l IH]; cbn; intros Hs; [repeat constructor|].
  pose proof Hs as Hs0. apply StronglySorted_inv in Hs as [Hs Hf].
  assert (cmp k k' <> Gt -> StronglySorted key_le (k :: k' :: l)) as Hle.
  { intros Hk. constructor; [done|]. constructor; [done|].
    eapply Forall_impl; [exact Hf|]. intros x. by apply key_le_trans. }
  destruct (cmp k k') eqn:E; [by apply Hle|by apply Hle|].
  constructor; [by apply IH|]. rewrite insert_key_perm. constructor; [|done].
  unfold key_le. by rewrite (proj1 (cmp_Gt _ _) E).
Qed.

Lemma sort_keys_sorted l : StronglySorted key_le (sort_keys l).
Proof. induction l as [|k l IH]; cbn; [constructor|]. by apply insert_key_sorted. Qed.

(** ** The invariant while some keys have already left the index *)

Record removing_wf (X : gset ScopedFlowKey) (r : Reassembler) : Prop := {
  rm_limits : limits_ok (limits r);
  rm_flows : map_Forall (fun _ st => flow_wf (limits r) st) (flows r);
  rm_deadlines : map_Forall (fun _ st =>
    deadline st = instant_checked_add (last_update st) (idle_expiry (limits r))) (flows r);
  rm_bytes : aggregate_bytes r = map_sum flow_retained (flows r);
  rm_charge : aggregate_memory_charge r = map_sum flow_charge (flows r);
  rm_bytes_max : aggregate_bytes r <= max_aggregate_bytes (limits r);
  rm_charge_max : aggregate_memory_charge r <= max_aggregate_bytes (limits r);
  rm_count : flow_count r <= max_flows (limits r);
  rm_sorted : bt_sorted (expiry r);
  rm_index : forall d k, (d, k) ∈ (expiry r).*1 <->
    (exists st, flows r !! k = Some st /\ deadline st = Some d) /\ k ∉ X
}.

Lemma removing_wf_done r : removing_wf ∅ r <-> reassembler_wf r.
Proof.
  split.
  - intros [? ? ? ? ? ? ? ? ? Hi]. split; try done. split; [done|].
    intros d k. rewrite Hi. set_solver.
  - intros [? ? ? ? ? ? ? ? [? Hi]]. split; try done. intros d k. rewrite Hi. set_solver.
Qed.

(** What removing a flow reports. *)
Definition removal_events (key : ScopedFlowKey) (st : TcpFlowState) : list Event :=
  (match head (pending st) with
   | Some (next, _) =>
       [Gap key (expected_sequence st) (wrapping_add32 (base_sequence st) (as_u32 next))]
   | None => []
   end) ++ [Evicted key (pending_bytes st)].

Lemma remove_flow_spec X r key :
  removing_wf X r ->
  removing_wf (X ∖ {[key]}) (remove_flow r key).1 /\
  flows (remove_flow r key).1 = delete key (flows r) /\
  limits (remove_flow r key).1 = limits r /\
  (remove_flow r key).2 = from_option (removal_events key) [] (flows r !! key).
Proof.
  intros Hr. unfold remove_flow. destruct (flows r !! key) as [st|] eqn:Ek; cbn [fst snd flows limits from_option].
  2:{ rewrite delete_id by done. split; [|done]. destruct Hr as [? ? ? ? ? ? ? ? ? Hi]. split; try done.
      intros d k. rewrite Hi. destruct (decide (k = key)) as [->|]; [|set_solver].
      rewrite Ek. naive_solver. }
  pose proof Hr as [HL Hf Hdl Hb Hc Hbm Hcm Hn Hs Hi].
  assert (map_Forall (fun _ st => 0 <= flow_retained st) (flows r)) as Hrn.
  { intros k s Hk. eapply flow_retained_nonneg. by apply (Hf k). }
  pose proof (rw_charge_nonneg r) as Hcn. pose proof (Hf _ _ Ek) as Hw.
  pose proof (map_sum_member _ _ _ _ Hrn Ek). pose proof (map_sum_member _ _ _ _ Hcn Ek).
  pose proof (lok_aggregate _ HL).
  split; [|split; [done|split; [done|]]].
  - rewrite (retained_bytes_eq (limits r)), flow_memory_charge_eq by (try done; unfold usize_max; lia).
    cbn [default]. unfold saturating_sub.
    split; cbn; rewrite ?map_sum_delete_from, ?Ek; cbn; try done; try lia.
    + by apply map_Forall_delete.
    + by apply map_Forall_delete.
    + unfold flow_count in *. cbn. rewrite size_delete_eq, Ek. cbn. lia.
    + by apply expiry_remove_sorted.
    + intros d k. rewrite expiry_remove_in, Hi by done. cbn. destruct (decide (k = key)) as [->|Hne].
      * rewrite lookup_delete_eq, Ek. naive_solver.
      * rewrite lookup_delete_ne by done. set_solver.
  - unfold removal_events. fold (expected_sequence st). f_equal.
    pose proof (fw_ivs _ _ Hw) as Hiv. destruct (pending st) as [|[s e] l]; [done|]. cbn in *.
    by rewrite (proj2 (Z.ltb_lt _ _)) by lia.
Qed.

(** The events of removing [keys] in order, each flow once. *)
Fixpoint all_removals (m : gmap ScopedFlowKey TcpFlowState) (keys : list ScopedFlowKey) : list Event :=
  match keys with
  | [] => []
  | k :: keys' => from_option (removal_events k) [] (m !! k) ++ all_removals (delete k m) keys'
  end.

Definition without (keys : list ScopedFlowKey) (m : gmap ScopedFlowKey TcpFlowState)
  : gmap ScopedFlowKey TcpFlowState := filter (fun p => p.1 ∉ keys) m.

Lemma remove_sorted_spec X r keys :
  removing_wf X r ->
  removing_wf (X ∖ list_to_set keys) (remove_sorted r keys).1 /\
  flows (remove_sorted r keys).1 = without keys (flows r) /\
  limits (remove_sorted r keys).1 = limits r /\
  (remove_sorted r keys).2 = all_removals (flows r) keys.
Proof.
  revert X r. induction keys as [|k keys IH]; intros X r Hr; cbn.
  { split; [by replace (X ∖ ∅) with X by set_solver|]. split; [|done].
    unfold without. rewrite map_filter_id; [done|]. set_solver. }
  destruct (remove_flow_spec X r k Hr) as (H1 & H2 & H3 & H4).
  destruct (remove_flow r k) as [r1 e1]. cbn [fst snd] in *.
  destruct (IH _ _ H1) as (I1 & I2 & I3 & I4). destruct (remove_sorted r1 keys) as [r2 e2].
  cbn [fst snd] in *. split; [|split; [|split]].
  - by replace (X ∖ ({[k]} ∪ list_to_set keys)) with ((X ∖ {[k]}) ∖ list_to_set keys : gset _) by set_solver.
  - rewrite I2, H2. apply map_eq. intros k'. unfold without.
    apply option_eq. intros s. rewrite !map_lookup_filter_Some, lookup_delete_Some. cbn. set_solver.
  - congruence.
  - by rewrite I4, H2, H4.
Qed.

(** ** The public operations *)

Lemma without_lookup keys m k st :
  without keys m !! k = Some st <-> m !! k = Some st /\ k ∉ keys.
Proof. unfold without. by rewrite map_lookup_filter_Some. Qed.

Lemma remove_flows_spec X r keys :
  removing_wf X r ->
  removing_wf (X ∖ list_to_set keys) (remove_flows r keys).1 /\
  flows (remove_flows r keys).1 = without keys (flows r) /\
  limits (remove_flows r keys).1 = limits r /\
  (remove_flows r keys).2 = all_removals (flows r) (sort_keys keys).
Proof.
  intros Hr. unfold remove_flows.
  destruct (remove_sorted_spec X r (sort_keys keys) Hr) as (H1 & H2 & H3 & H4).
  assert (forall k, k ∈ sort_keys keys <-> k ∈ keys) as Hin by (intros k; by rewrite sort_keys_perm).
  split; [|split; [|done]].
  - replace (X ∖ list_to_set keys) with (X ∖ list_to_set (sort_keys keys) : gset _); [done|].
    apply set_eq. intros k. rewrite !elem_of_difference, !elem_of_list_to_set, Hin. done.
  - rewrite H2. apply map_eq. intros k. apply option_eq. intros st.
    by rewrite !without_lookup, Hin.
Qed.

(** A flow is idle past its deadline. *)
Definition expired (now : Z) (st : TcpFlowState) : Prop :=
  exists d, deadline st = Some d /\ d <= now.

Lemma expire_spec r now :
  reassembler_wf r ->
  reassembler_wf (expire r now).1 /\ limits (expire r now).1 = limits r /\
  (forall k st, flows (expire r now).1 !! k = Some st <->
     flows r !! k = Some st /\ ~ expired now st) /\
  exists keys, (expire r now).2 = all_removals (flows r) keys /\ StronglySorted key_le keys /\
    forall k, k ∈ keys <-> exists st, flows r !! k = Some st /\ expired now st.
Proof.
  intros Hr. pose proof Hr as [? ? ? ? ? ? ? ? Hi]. unfold expire, take_expired.
  destruct (drain_expired now (expiry r)) as [keys entries] eqn:Ed.
  destruct (indexed_drain _ _ _ _ _ _ Hi Ed) as (_ & Hkeys & Hse & Hent).
  change (forall k, k ∈ keys <-> exists st, flows r !! k = Some st /\ expired now st) in Hkeys.
  destruct (remove_flows_spec (list_to_set keys) (mkReassembler (limits r) (flows r) entries
    (aggregate_bytes r) (aggregate_memory_charge r)) keys) as (H1' & H2' & H3' & H4').
  { split; cbn; try done. intros d k. by rewrite elem_of_list_to_set. }
  rewrite difference_diag_L in H1'. apply removing_wf_done in H1'. cbn [flows limits] in *.
  split; [done|]. split; [done|]. split.
  - intros k st. rewrite H2', without_lookup, Hkeys. split.
    + intros [Hk Hn]. split; [done|]. intros Hx. apply Hn. eauto.
    + intros [Hk Hn]. split; [done|]. intros (st' & Hk' & Hx). rewrite Hk in Hk'. by injection Hk' as <-.
  - exists (sort_keys keys). split; [done|]. split; [apply sort_keys_sorted|].
    intros k. by rewrite sort_keys_perm.
Qed.

Lemma evict_flow_spec r flow :
  reassembler_wf r ->
  reassembler_wf (evict_flow r flow).1 /\ limits (evict_flow r flow).1 = limits r /\
  flows (evict_flow r flow).1 = delete flow (flows r) /\
  (evict_flow r flow).2 = from_option (removal_events flow) [] (flows r !! flow).
Proof.
  intros Hr. apply removing_wf_done in Hr. unfold evict_flow.
  destruct (remove_flows_spec ∅ r [flow] Hr) as (H1 & H2 & H3 & H4).
  split; [by apply removing_wf_done; replace ∅ with (∅ ∖ list_to_set [flow] : gset ScopedFlowKey) by set_solver|].
  split; [done|]. split.
  - rewrite H2. apply map_eq. intros k. apply option_eq. intros st.
    rewrite without_lookup, lookup_delete_Some. set_solver.
  - rewrite H4. cbn. by rewrite app_nil_r.
Qed.

Lemma flush_spec r :
  reassembler_wf r ->
  reassembler_wf (flush r).1 /\ limits (flush r).1 = limits r /\ flows (flush r).1 = ∅ /\
  exists keys, (flush r).2 = all_removals (flows r) keys /\ StronglySorted key_le keys /\
    forall k, k ∈ keys <-> is_Some (flows r !! k).
Proof.
  intros Hr. apply removing_wf_done in Hr. unfold flush.
  set (keys := (map_to_list (flows r)).*1).
  assert (forall k, k ∈ keys <-> is_Some (flows r !! k)) as Hk.
  { intros k. unfold keys. rewrite list_elem_of_fmap. split.
    - intros ([k' st] & -> & Hin%elem_of_map_to_list). by exists st.
    - intros [st Hk]. exists (k, st). split; [done|]. by apply elem_of_map_to_list. }
  destruct (remove_flows_spec ∅ r keys Hr) as (H1 & H2 & H3 & H4).
  split; [by apply removing_wf_done; replace ∅ with (∅ ∖ list_to_set keys : gset ScopedFlowKey) by set_solver|].
  split; [done|]. split.
  - rewrite H2. apply map_empty. intros k. destruct (without keys (flows r) !! k) eqn:E; [|done].
    apply without_lookup in E as [E Hn]. destruct Hn. apply Hk. eauto.
  - exists (sort_keys keys). split; [done|]. split; [apply sort_keys_sorted|].
    intros k. by rewrite sort_keys_perm.
Qed.

Lemma all_removals_evicted m keys k n :
  Evicted k n ∈ all_removals m keys <->
  k ∈ keys /\ exists st, m !! k = Some st /\ n = pending_bytes st.
Proof.
  revert m. induction keys as [|k' keys IH]; intros m; cbn; [set_solver|].
  rewrite elem_of_app, IH, elem_of_cons.
  assert (Evicted k n ∈ from_option (removal_events k') [] (m !! k') <->
    k = k' /\ exists st, m !! k' = Some st /\ n = pending_bytes st) as ->.
  { destruct (m !! k') as [st|]; cbn; [|set_solver]. unfold removal_events.
    rewrite elem_of_app, list_elem_of_singleton. split.
    - intros [Hin|[= -> ->]]; [|eauto]. destruct (head (pending st)) as [[??]|]; set_solver.
    - intros [-> (st' & [= <-] & ->)]. by right. }
  destruct (decide (k = k')) as [->|Hne].
  - rewrite lookup_delete_eq. naive_solver.
  - rewrite lookup_delete_ne by done. naive_solver.
Qed.
