(* ===== verification/TcpStream.v ===== *)
(** * TCP reassembly against its specification

    The specification of a flow is a partial map from stream offsets to bytes:
    a segment adds the bytes it has at offsets where none is known, and the
    maximal run from the next expected offset is delivered.  [push] refines it,
    and delivers a prefix of the sender's stream over any trace of segments cut
    from it. *)

From stdpp Require Import base tactics option list numbers gmap.
From Stdlib Require Import ZArith Lia.
From S2P Require Import Prelude Ordered Flow TcpModel TcpHistory TcpPages TcpState TcpPlan TcpCommit.
From S2P Require Import TcpIntervals TcpStorage TcpMerge TcpFlow TcpPush TcpEffect TcpEngine TcpEviction.

(** ** The abstract flow *)

(** The byte received and not yet delivered at [off]. *)
Definition view (st : TcpFlowState) (off : Z) : option Z :=
  if decide (held (pending st) off) then page_byte (flow_pages st) off else None.

(** The byte at [off] once [seg] has arrived: one already there wins. *)
Definition merged (st : TcpFlowState) (seg : Segment) (off : Z) : option Z :=
  match view st off with
  | Some b => Some b
  | None => if next_offset st <=? off
            then zget (seg_payload seg) (off - segment_position st seg) else None
  end.

(** The [Data] events of a flow, and their bytes. *)
Definition data_events (flow : ScopedFlowKey) (events : list Event) : list (Z * bytes) :=
  omap (fun e => match e with
                 | Data f sequence data => if decide (f = flow) then Some (sequence, data) else None
                 | _ => None
                 end) events.

Definition delivered (flow : ScopedFlowKey) (events : list Event) : bytes :=
  concat (data_events flow events).*2.

Lemma view_Some L st off b :
  flow_wf L st -> view st off = Some b -> held (pending st) off /\ next_offset st < off.
Proof.
  intros Hw. unfold view. destruct (decide _) as [Hh|]; [|done]. intros _. split; [done|].
  apply Exists_exists in Hh as (iv & Hin & ?).
  pose proof (ivs_wf_bounds _ _ _ (fw_ivs _ _ Hw) Hin). lia.
Qed.

Lemma view_held L st off : flow_wf L st -> held (pending st) off -> is_Some (view st off).
Proof.
  intros Hw Hh. unfold view. rewrite decide_True by done.
  eapply pages_match_byte; [apply (fw_match _ _ Hw)|done].
Qed.

Lemma incoming_byte L st seg inc off :
  incoming_ok L st seg inc -> next_offset st <= off ->
  zget (in_payload inc) (off - in_offset inc) = zget (seg_payload seg) (off - segment_position st seg).
Proof.
  intros Hi Hle. pose proof (io_start _ _ _ _ Hi). pose proof (io_offset _ _ _ _ Hi).
  pose proof (zlen_nonneg (seg_payload seg)). rewrite (io_payload _ _ _ _ Hi).
  destruct (Z.lt_ge_cases off (in_offset inc)).
  { by rewrite !zget_neg by lia. }
  rewrite zget_zdrop by lia.
  destruct (Z.le_gt_cases (next_offset st - segment_position st seg) (zlen (seg_payload seg))).
  - f_equal. lia.
  - rewrite !zget_ge by lia. done.
Qed.

Lemma incoming_held L st seg inc off :
  incoming_ok L st seg inc -> next_offset st <= off ->
  in_offset inc <= off < in_offset inc + zlen (in_payload inc) <->
  is_Some (zget (seg_payload seg) (off - segment_position st seg)).
Proof.
  intros Hi Hle. rewrite <-(incoming_byte _ _ _ _ _ Hi Hle). split.
  - intros. apply zget_lt_is_Some. lia.
  - intros [b Hb]. apply zget_Some_lt in Hb. lia.
Qed.

(** The merged view, in the terms of the merge. *)
Lemma merged_first_wins L st seg inc off :
  flow_wf L st -> incoming_ok L st seg inc -> next_offset st <= off ->
  merged st seg off = first_wins (flow_pages st) (pending st) (in_offset inc) (in_payload inc) off.
Proof.
  intros Hw Hi Hle. unfold merged, first_wins.
  destruct (decide (held (pending st) off)) as [Hh|Hh].
  - destruct (view_held _ _ _ Hw Hh) as [b Hb]. rewrite Hb.
    unfold view in Hb. by rewrite decide_True in Hb.
  - unfold view. rewrite decide_False by done. rewrite (proj2 (Z.leb_le _ _)) by done.
    symmetry. by eapply incoming_byte.
Qed.

Lemma merged_is_Some L st seg inc off :
  flow_wf L st -> incoming_ok L st seg inc -> next_offset st <= off ->
  is_Some (merged st seg off) <->
  held (pending st) off \/ in_offset inc <= off < in_offset inc + zlen (in_payload inc).
Proof.
  intros Hw Hi Hle. rewrite (merged_first_wins _ _ _ _ _ Hw Hi Hle). unfold first_wins.
  rewrite (incoming_held _ _ _ _ _ Hi Hle), <-(incoming_byte _ _ _ _ _ Hi Hle).
  destruct (decide (held (pending st) off)) as [Hh|Hh]; [|tauto].
  pose proof (pages_match_byte _ _ _ (fw_match _ _ Hw) Hh). tauto.
Qed.

(** The delivered run is the maximal one, and the rest stays. *)
Lemma effect_refines L st seg now flow st' events closing inc out conflict :
  flow_wf L st -> push_effect L st seg now flow st' events closing inc out conflict ->
  (forall i, 0 <= i < zlen out -> zget out i = merged st seg (next_offset st + i)) /\
  merged st seg (next_offset st + zlen out) = None /\
  forall off, view st' off =
    if off <? next_offset st + zlen out then None else merged st seg off.
Proof.
  intros Hw He. pose proof (pe_incoming _ _ _ _ _ _ _ _ _ _ _ He) as Hi.
  pose proof (pe_merge _ _ _ _ _ _ _ _ _ _ _ He) as Hr. pose proof (zlen_nonneg out).
  assert (forall off, held (pending st') off -> next_offset st + zlen out < off) as Hgt.
  { intros off Hh. apply Exists_exists in Hh as (iv & Hin & ?).
    pose proof (ivs_wf_bounds _ _ _ (mr_wf _ _ _ _ _ _ _ _ Hr) Hin). lia. }
  assert (forall off, next_offset st + zlen out <= off ->
    held (pending st') off <-> is_Some (merged st seg off)) as Hh.
  { intros off Hoff. rewrite (mr_held _ _ _ _ _ _ _ _ Hr), (merged_is_Some _ _ _ _ _ Hw Hi) by lia. tauto. }
  split; [|split].
  - intros i Hi'. rewrite (merged_first_wins _ _ _ _ _ Hw Hi) by lia.
    destruct (mr_out _ _ _ _ _ _ _ _ Hr (next_offset st + i)) as [_ <-]; [lia|]. f_equal. lia.
  - apply eq_None_not_Some. intros Hs. apply Hh in Hs; [|lia]. apply Hgt in Hs. lia.
  - intros off. unfold view. destruct (decide (held (pending st') off)) as [Hd|Hd].
    + pose proof (Hgt _ Hd). rewrite (proj2 (Z.ltb_ge _ _)) by lia.
      rewrite (mr_bytes _ _ _ _ _ _ _ _ Hr) by done. symmetry. apply (merged_first_wins _ _ _ _ _ Hw Hi). lia.
    + destruct (Z.ltb_spec off (next_offset st + zlen out)) as [|Hge]; [done|].
      symmetry. apply eq_None_not_Some. intros Hs. by apply Hd, Hh.
Qed.

Lemma effect_data_events st inc flow conflict out :
  data_events flow (effect_events st inc flow conflict out)
    = if zlen out =? 0 then [] else [(expected_sequence st, out)].
Proof.
  unfold effect_events, data_events. destruct (negb _ || conflict); cbn;
    destruct (zlen out =? 0); cbn; rewrite ?decide_True by done; done.
Qed.

Lemma effect_other_events st inc flow flow' conflict out :
  flow' <> flow -> data_events flow' (effect_events st inc flow conflict out) = [].
Proof.
  intros Hne. unfold effect_events, data_events. destruct (negb _ || conflict); cbn;
    destruct (zlen out =? 0); cbn; rewrite ?decide_False by done; done.
Qed.

Lemma data_events_app flow a b : data_events flow (a ++ b) = data_events flow a ++ data_events flow b.
Proof. apply omap_app. Qed.

Lemma push_result_data r seg now r' events st' closing inc out conflict fe flow :
  push_result r seg now r' events st' closing inc out conflict fe ->
  data_events flow events = if decide (flow = seg_flow seg)
    then if zlen out =? 0 then [] else [(expected_sequence (start_state r seg now), out)] else [].
Proof.
  intros [He _ _ ->]. rewrite data_events_app.
  assert (data_events flow (if closing then [Closed (seg_flow seg) (seg_rst seg)] else []) = []) as ->
    by (by destruct closing).
  rewrite app_nil_r, (pe_events _ _ _ _ _ _ _ _ _ _ _ He).
  destruct (decide (flow = seg_flow seg)) as [->|].
  - apply effect_data_events.
  - by apply effect_other_events.
Qed.

(** ** Conflicting retransmissions *)

(** The byte known at [off]: pending, or delivered and still in the history. *)
Definition known (st : TcpFlowState) (off : Z) : option Z :=
  if (history_start_offset st <=? off) && (off <? next_offset st)
  then zget (contents (emitted_history st)) (off - history_start_offset st) else view st off.

(** The segment contradicts a byte known before it; a keep-alive probe's byte
    is not compared. *)
Definition contradicts (st : TcpFlowState) (seg : Segment) : Prop :=
  exists off b, known st off = Some b /\
    segment_position st seg <= off < segment_position st seg + zlen (seg_payload seg) /\
    zget (seg_payload seg) (off - segment_position st seg) <> Some b /\
    (keep_alive st seg = true -> next_offset st <= off).

Lemma known_history L st off :
  flow_wf L st -> history_start_offset st <= off < next_offset st ->
  exists b, known st off = Some b /\
    zget (contents (emitted_history st)) (off - history_start_offset st) = Some b.
Proof.
  intros Hw Ho. pose proof (zlen_contents _ (fw_hist _ _ Hw)). pose proof (fw_window _ _ Hw).
  unfold known. rewrite (proj2 (Z.leb_le _ _)), (proj2 (Z.ltb_lt _ _)) by lia. cbn.
  destruct (zget_lt_is_Some (contents (emitted_history st)) (off - history_start_offset st)) as [b Hb]; [lia|].
  by exists b.
Qed.

Lemma known_pending L st off b :
  flow_wf L st -> next_offset st <= off ->
  known st off = Some b <-> held (pending st) off /\ page_byte (flow_pages st) off = Some b.
Proof.
  intros Hw Ho. unfold known. rewrite (proj2 (Z.ltb_ge _ _)) by lia. rewrite andb_false_r.
  unfold view. destruct (decide _); naive_solver.
Qed.

Lemma history_conflict L st seg inc :
  flow_wf L st -> incoming_ok L st seg inc ->
  in_conflicting inc = true <-> keep_alive st seg = false /\
    exists off b, known st off = Some b /\ history_start_offset st <= off < next_offset st /\
      segment_position st seg <= off < segment_position st seg + zlen (seg_payload seg) /\
      zget (seg_payload seg) (off - segment_position st seg) <> Some b.
Proof.
  intros Hw Hi. rewrite (io_conflict _ _ _ _ Hi), (io_start _ _ _ _ Hi).
  pose proof (fw_start _ _ Hw). pose proof (fw_next _ _ Hw). pose proof (zlen_nonneg (seg_payload seg)).
  set (p := segment_position st seg). set (total := zlen (seg_payload seg)) in *.
  set (bb := Z.min (Z.max 0 (- p)) total). set (start := Z.min (Z.max 0 (next_offset st - p)) total).
  assert (zlen (zslice bb start (seg_payload seg)) = start - bb) as Hlen.
  { apply zlen_zslice; fold total; unfold bb, start; lia. }
  assert (forall off, Z.max 0 p <= off < Z.max 0 p + (start - bb) ->
    zget (zslice bb start (seg_payload seg)) (off - Z.max 0 p) = zget (seg_payload seg) (off - p)) as Hget.
  { intros off Ho. rewrite zget_zslice by (unfold bb; lia). unfold bb, start in *. repeat case_bool. f_equal. lia. }
  apply and_iff_compat_l. unfold history_differs. rewrite Hlen. split.
  - intros (off & Ho & Hh & Hne). destruct (known_history _ _ _ Hw Hh) as (b & Hb & Hc).
    exists off, b. rewrite Hget, Hc in Hne by done. unfold bb, start in *.
    split; [done|]. split; [done|]. split; [lia|done].
  - intros (off & b & Hb & Hh & Ho & Hne). destruct (known_history _ _ _ Hw Hh) as (b' & Hb' & Hc).
    assert (b' = b) as -> by congruence.
    exists off. assert (Z.max 0 p <= off < Z.max 0 p + (start - bb)) as Hoff by (unfold bb, start; lia).
    split; [done|]. split; [done|]. by rewrite Hget, Hc.
Qed.

Lemma conflict_exact L st seg inc :
  flow_wf L st -> incoming_ok L st seg inc ->
  in_conflicting inc = true \/
    conflicts_with (flow_pages st) (in_offset inc) (in_payload inc) (pending st) <->
  contradicts st seg.
Proof.
  intros Hw Hi. rewrite (history_conflict _ _ _ _ Hw Hi). split.
  - intros [(Hk & off & b & Hb & Hh & Ho & Hne)|(off & Hh & Ho & Hne)].
    + exists off, b. rewrite Hk. done.
    + assert (next_offset st <= off) as Hle.
      { pose proof (io_offset _ _ _ _ Hi). lia. }
      destruct (pages_match_byte _ _ _ (fw_match _ _ Hw) Hh) as [b Hb].
      exists off, b. split; [by apply (known_pending L)|].
      rewrite (incoming_byte _ _ _ _ _ Hi Hle), Hb in Hne.
      pose proof (proj1 (incoming_held _ _ _ _ _ Hi Hle) Ho) as [b' Hb'].
      pose proof (zget_Some_lt _ _ _ Hb'). split; [lia|]. split; [congruence|done].
  - intros (off & b & Hb & Ho & Hne & Hka).
    destruct (Z.lt_ge_cases off (next_offset st)) as [Hlt|Hle].
    + left. split. { destruct (keep_alive st seg); [|done]. specialize (Hka eq_refl). lia. }
      exists off, b. split; [done|]. split; [|done]. split; [|done].
      destruct (Z.le_gt_cases (history_start_offset st) off); [done|]. exfalso.
      unfold known in Hb. rewrite (proj2 (Z.leb_gt _ _)) in Hb by lia. cbn in Hb.
      destruct (view_Some _ _ _ _ Hw Hb). lia.
    + right. apply (known_pending L) in Hb as [Hh Hb]; [|done|done].
      exists off. split; [done|].
      split; [apply (incoming_held _ _ _ _ _ Hi Hle), zget_lt_is_Some; lia|].
      rewrite (incoming_byte _ _ _ _ _ Hi Hle), Hb. congruence.
Qed.

(** ** The stream a sender sends *)

(** The [n] bytes of the stream [S] from offset [off]. *)
Definition stream_bytes (S : Z -> Z) (off n : Z) : bytes := S <$> seqZ off n.

Lemma zlen_stream_bytes S off n : 0 <= n -> zlen (stream_bytes S off n) = n.
Proof. intros. unfold stream_bytes, zlen. rewrite length_fmap, length_seqZ. lia. Qed.

Lemma zget_stream_bytes S off n i : 0 <= i < n -> zget (stream_bytes S off n) i = Some (S (off + i)).
Proof.
  intros. unfold zget, stream_bytes. rewrite (proj2 (Z.leb_le _ _)) by lia.
  rewrite list_lookup_fmap, lookup_seqZ_lt by lia. cbn. do 2 f_equal. lia.
Qed.

Lemma stream_bytes_app S off n k :
  0 <= n -> 0 <= k -> stream_bytes S off n ++ stream_bytes S (off + n) k = stream_bytes S off (n + k).
Proof. intros. unfold stream_bytes. rewrite seqZ_app by done. by rewrite fmap_app. Qed.

(** Everything the flow holds is from the stream. *)
Definition agrees (S : Z -> Z) (st : TcpFlowState) : Prop :=
  forall off b, view st off = Some b -> b = S off.

(** The segment was cut from the stream at its position. *)
Definition cut_from (S : Z -> Z) (st : TcpFlowState) (seg : Segment) : Prop :=
  seg_payload seg = stream_bytes S (segment_position st seg) (zlen (seg_payload seg)).

Lemma agrees_merged S st seg off b :
  agrees S st -> cut_from S st seg -> merged st seg off = Some b -> b = S off.
Proof.
  intros Ha Hc. unfold merged. destruct (view st off) as [b'|] eqn:Ev.
  - intros [= <-]. by apply Ha.
  - case_bool; [|done]. intros Hz. pose proof (zget_Some_lt _ _ _ Hz).
    rewrite Hc, zget_stream_bytes in Hz by lia. injection Hz as <-. f_equal. lia.
Qed.

Lemma agrees_effect S L st seg now flow st' events closing inc out conflict :
  flow_wf L st -> push_effect L st seg now flow st' events closing inc out conflict ->
  agrees S st -> cut_from S st seg ->
  out = stream_bytes S (next_offset st) (zlen out) /\ agrees S st'.
Proof.
  intros Hw He Ha Hc. destruct (effect_refines _ _ _ _ _ _ _ _ _ _ _ Hw He) as (Hout & _ & Hv).
  pose proof (zlen_nonneg out). split.
  - apply zget_ext. intros i Hi. destruct (Z.lt_ge_cases i (zlen out)).
    + rewrite zget_stream_bytes by lia. rewrite Hout by lia.
      destruct (zget_lt_is_Some out i) as [b Hb]; [lia|]. rewrite Hout in Hb by lia.
      rewrite Hb. f_equal. by eapply agrees_merged.
    + rewrite !zget_ge; [done| |lia]. rewrite zlen_stream_bytes; lia.
  - intros off b Hb. rewrite Hv in Hb. case_bool; [done|]. by eapply agrees_merged.
Qed.
