(* ===== verification/TcpTheorems.v ===== *)
(** * Theorems on TCP reassembly

    The guarantees of [analysis/reassembly/tcp], over single operations and over
    every reachable state. *)

From stdpp Require Import base tactics option list numbers gmap sorting.
From Stdlib Require Import ZArith Lia.
From S2P Require Import Prelude Ordered Flow TcpModel TcpHistory TcpPages TcpState TcpPlan TcpCommit.
From S2P Require Import TcpIntervals TcpStorage TcpMerge TcpFlow TcpPush TcpEffect TcpEngine TcpEviction TcpStream.

(** ** Steps and reachable states *)

(** One call of the public interface that changes the reassembler; a rejected
    [push] does not. *)
Inductive step (r : Reassembler) : Reassembler -> list Event -> Prop :=
| step_push alloc seg now r' events :
    segment_ok seg -> push alloc r seg now = Ok (r', events) -> step r r' events
| step_expire now : step r (expire r now).1 (expire r now).2
| step_evict flow : step r (evict_flow r flow).1 (evict_flow r flow).2
| step_flush : step r (flush r).1 (flush r).2.

Inductive reachable (clock : Z) (l : Limits) : Reassembler -> Prop :=
| reachable_new r : reassembler_new clock l = Ok r -> reachable clock l r
| reachable_step r r' events :
    reachable clock l r -> step r r' events -> reachable clock l r'.

Lemma step_wf r r' events :
  reassembler_wf r -> step r r' events -> reassembler_wf r' /\ limits r' = limits r.
Proof.
  intros Hr [alloc seg now r1 ev Hs Hp|now|flow|].
  - pose proof (push_spec alloc r seg now Hr Hs) as Hsp. rewrite Hp in Hsp. cbn in Hsp.
    destruct Hsp as [Hw Hi]. split; [done|]. destruct (ignored r seg).
    + by destruct Hi as [-> _].
    + destruct Hi as (? & ? & ? & ? & ? & ? & [_ ? _ _]). done.
  - destruct (expire_spec r now Hr) as (? & ? & _). done.
  - destruct (evict_flow_spec r flow Hr) as (? & ? & _). done.
  - destruct (flush_spec r Hr) as (? & ? & _). done.
Qed.

Lemma reachable_wf clock l r :
  limits_ok l -> reachable clock l r -> reassembler_wf r /\ limits r = l.
Proof.
  intros HL Hr. induction Hr as [r Hn|r r' ev Hr [IHw IHl] Hst].
  - split; [by eapply reassembler_new_wf|]. unfold reassembler_new in Hn. inv_ok Hn. by injection Hn as <-.
  - destruct (step_wf _ _ _ IHw Hst). split; [done|]. congruence.
Qed.

(** A caller that pushes a list of segments and drops the rejected ones. *)
Fixpoint run (alloc : allocator) (r : Reassembler) (trace : list (Segment * Z))
  : outcome Error (Reassembler * list Event) :=
  match trace with
  | [] => Ok (r, [])
  | (seg, now) :: trace' =>
      match push alloc r seg now with
      | Ok (r1, events1) =>
          '(r2, events2) ← run alloc r1 trace'; Ok (r2, events1 ++ events2)
      | Err _ => run alloc r trace'
      | Panic => Panic
      end
  end.

(** ** Stream positions below a bound

    The positions of a flow are [u64] offsets from the start of its stream.  Every
    push keeps them within [max_bytes_per_flow] of the next expected byte, so a
    bound on them grows by that much with each push. *)

Definition flow_below (bound : Z) (st : TcpFlowState) : Prop :=
  next_offset st <= bound /\ Forall (fun iv => iv.2 <= bound) (pending st).

Definition below (bound : Z) (r : Reassembler) : Prop :=
  0 <= bound /\ map_Forall (fun _ st => flow_below bound st) (flows r).

(** The first position of the page that ends at 2^64. *)
Definition LAST_PAGE : Z := u64_max + 1 - PAGE_BYTES.

(** The positions stay below the last page over any trace of this length. *)
Definition headroom (bound : Z) (r : Reassembler) (trace : list (Segment * Z)) : Prop :=
  below bound r /\ bound + zlen trace * max_bytes_per_flow (limits r) <= LAST_PAGE.

Lemma below_mono b b' r : b <= b' -> below b r -> below b' r.
Proof.
  intros Hb [H0 Hr]. split; [lia|]. intros k st Hk. destruct (Hr _ _ Hk) as [H1 H2].
  split; [lia|]. eapply Forall_impl; [exact H2|]. cbn. lia.
Qed.

Lemma start_below b r seg now : below b r -> flow_below b (start_state r seg now).
Proof.
  intros [H0 Hr]. unfold start_state. destruct (flows r !! seg_flow seg) as [st|] eqn:Ef.
  - destruct (generation_changes r seg); [by split; [|constructor]|by apply (Hr _ _ Ef)].
  - by split; [|constructor].
Qed.

Lemma below_clear b r seg now :
  reassembler_wf r -> below b r -> b <= LAST_PAGE ->
  clear_of_last_page (pending (start_state r seg now)).
Proof.
  intros Hr Hb Hle. destruct (start_below b r seg now Hb) as [_ Hf].
  pose proof (fw_ivs _ _ (start_state_wf r seg now Hr)) as Hwf.
  apply Forall_forall. intros iv Hin. rewrite Forall_forall in Hf. specialize (Hf _ Hin).
  pose proof (ivs_wf_bounds _ _ _ Hwf Hin). unfold LAST_PAGE in Hle. lia.
Qed.

Lemma effect_below b L st seg now flow st' ev closing inc out conflict :
  flow_wf L st -> push_effect L st seg now flow st' ev closing inc out conflict ->
  flow_below b st -> flow_below (b + max_bytes_per_flow L) st'.
Proof.
  intros Hw He [Hn Hf]. pose proof (pe_incoming _ _ _ _ _ _ _ _ _ _ _ He) as Hi.
  pose proof (pe_merge _ _ _ _ _ _ _ _ _ _ _ He) as Hm.
  pose proof (io_window _ _ _ _ Hi) as Hwin. rewrite (io_end _ _ _ _ Hi) in Hwin.
  pose proof (fw_max _ _ Hw). pose proof (fw_hist _ _ Hw) as Hh.
  assert (0 <= max_bytes_per_flow L) as Hmax.
  { pose proof (ivs_bytes_nonneg _ _ (fw_ivs _ _ Hw)). rewrite <-(fw_bytes _ _ Hw) in *.
    pose proof (zlen_contents _ Hh). pose proof (zlen_nonneg (contents (emitted_history st))). lia. }
  assert (Forall (fun iv => iv.2 <= b + max_bytes_per_flow L) (pending st)) as Hf'.
  { eapply Forall_impl; [exact Hf|]. cbn. lia. }
  split; [|eapply (merge_result_ends _ _ _ _ _ _ _ _ _ Hm Hf'); lia].
  rewrite (pe_next _ _ _ _ _ _ _ _ _ _ _ He).
  pose proof (zlen_nonneg out). destruct (decide (zlen out = 0)); [lia|].
  destruct (mr_out _ _ _ _ _ _ _ _ Hm (next_offset st + zlen out - 1)) as [[Hh'|?] _]; [lia| |lia].
  apply Exists_exists in Hh' as (iv & Hin & ?). rewrite Forall_forall in Hf. specialize (Hf _ Hin). lia.
Qed.

Lemma push_below b alloc r seg now r' events :
  reassembler_wf r -> segment_ok seg -> push alloc r seg now = Ok (r', events) ->
  below b r -> below (b + max_bytes_per_flow (limits r)) r' /\ limits r' = limits r.
Proof.
  intros Hr Hs Hp Hb. pose proof (lok_bytes _ (rw_limits _ Hr)) as Hmax.
  pose proof (push_spec alloc r seg now Hr Hs) as H. rewrite Hp in H. destruct H as [_ H].
  destruct (ignored r seg).
  { destruct H as [-> _]. split; [|done]. apply (below_mono b); [lia|done]. }
  destruct H as (st' & closing & inc & out & conflict & fe & [He Hl Hf _]). split; [|done].
  destruct (below_mono b (b + max_bytes_per_flow (limits r)) r) as [H0 Hold]; [lia|done|].
  split; [done|]. rewrite Hf. destruct closing; [by apply map_Forall_delete|].
  apply map_Forall_insert_2; [|done].
  exact (effect_below b _ _ _ _ _ _ _ _ _ _ _ (start_state_wf _ _ _ Hr) He (start_below _ _ _ _ Hb)).
Qed.

(** One push of a run with headroom: no panic, and headroom for the rest. *)
Lemma headroom_step b alloc r seg now trace :
  reassembler_wf r -> segment_ok seg -> headroom b r ((seg, now) :: trace) ->
  match push alloc r seg now with
  | Ok (r', _) => reassembler_wf r' /\ limits r' = limits r /\
      headroom (b + max_bytes_per_flow (limits r)) r' trace
  | Err _ => headroom b r trace
  | Panic => False
  end.
Proof.
  intros Hr Hs [Hb Hle]. rewrite zlen_cons in Hle. pose proof (zlen_nonneg trace).
  pose proof (lok_bytes _ (rw_limits _ Hr)) as Hmax.
  assert (0 <= zlen trace * max_bytes_per_flow (limits r)) by nia.
  pose proof (push_spec alloc r seg now Hr Hs) as Hsp.
  destruct (push alloc r seg now) as [[r1 ev]| |] eqn:Ep.
  - destruct (push_below b _ _ _ _ _ _ Hr Hs Ep Hb) as [Hb1 Hl1]. destruct Hsp as [Hw _].
    split; [done|]. split; [done|]. split; [done|]. rewrite Hl1. lia.
  - split; [done|lia].
  - cbn in Hsp. apply Hsp. apply (below_clear b); [done|done|lia].
Qed.

(** Each segment of [flow] in the trace continues the flow's generation and is
    cut from the stream [S]. *)
Fixpoint run_consistent (S : Z -> Z) (flow : ScopedFlowKey) (alloc : allocator) (r : Reassembler)
  (trace : list (Segment * Z)) : Prop :=
  match trace with
  | [] => True
  | (seg, now) :: trace' =>
      (seg_flow seg = flow -> is_Some (flows r !! flow) /\ generation_changes r seg = false /\
         cut_from S (start_state r seg now) seg) /\
      run_consistent S flow alloc
        (match push alloc r seg now with Ok (r1, _) => r1 | _ => r end) trace'
  end.

Lemma start_state_continues r seg now st :
  flows r !! seg_flow seg = Some st -> generation_changes r seg = false -> start_state r seg now = st.
Proof. intros Hf Hg. unfold start_state. by rewrite Hf, Hg. Qed.

(** One push, seen from one flow. *)
Lemma push_stream_step S alloc r seg now r' events flow :
  reassembler_wf r -> segment_ok seg -> push alloc r seg now = Ok (r', events) ->
  (seg_flow seg = flow -> is_Some (flows r !! flow) /\ generation_changes r seg = false /\
     cut_from S (start_state r seg now) seg) ->
  forall st, flows r !! flow = Some st -> agrees S st ->
  exists n, 0 <= n /\ delivered flow events = stream_bytes S (next_offset st) n /\
    forall st', flows r' !! flow = Some st' -> agrees S st' /\ next_offset st' = next_offset st + n.
Proof.
  intros Hr Hs Hp Hc st Hst Ha. pose proof (push_spec alloc r seg now Hr Hs) as Hsp.
  rewrite Hp in Hsp. cbn in Hsp. destruct Hsp as [Hw' Hi]. destruct (ignored r seg).
  { destruct Hi as [-> ->]. exists 0. split; [lia|]. split; [done|]. intros st' Hst'.
    rewrite Hst in Hst'. injection Hst' as <-. split; [done|lia]. }
  destruct Hi as (st1 & closing & inc & out & conflict & fe & Hpr).
  unfold delivered. rewrite (push_result_data _ _ _ _ _ _ _ _ _ _ _ flow Hpr).
  destruct Hpr as [He _ Hfl _]. destruct (decide (flow = seg_flow seg)) as [Heq|Hne].
  - destruct Hc as (_ & Hg & Hcut); [done|]. rewrite Heq in Hst.
    rewrite (start_state_continues _ _ _ _ Hst Hg) in *.
    destruct (agrees_effect S _ _ _ _ _ _ _ _ _ _ _ (rw_flows _ Hr _ _ Hst) He Ha Hcut) as [Hout Ha'].
    exists (zlen out). pose proof (zlen_nonneg out). split; [done|]. split.
    + rewrite <-Hout. destruct (Z.eqb_spec (zlen out) 0) as [Hz|]; cbn; [|by rewrite app_nil_r].
      by rewrite (zlen_0 _ Hz).
    + intros st' Hst'. rewrite Hfl, Heq in Hst'. destruct closing.
      { by rewrite lookup_delete_eq in Hst'. }
      rewrite lookup_insert_eq in Hst'. injection Hst' as <-. split; [done|].
      apply (pe_next _ _ _ _ _ _ _ _ _ _ _ He).
  - exists 0. split; [lia|]. split; [done|]. intros st' Hst'.
    assert (flows r' !! flow = flows r !! flow) as E.
    { rewrite Hfl. destruct closing; [by rewrite lookup_delete_ne|by rewrite lookup_insert_ne]. }
    rewrite E, Hst in Hst'. injection Hst' as <-. split; [done|lia].
Qed.

Lemma push_keeps_absent alloc r seg now r' events flow :
  reassembler_wf r -> segment_ok seg -> push alloc r seg now = Ok (r', events) ->
  seg_flow seg <> flow -> flows r !! flow = None ->
  flows r' !! flow = None /\ delivered flow events = [].
Proof.
  intros Hr Hs Hp Hne Hn. pose proof (push_spec alloc r seg now Hr Hs) as Hsp.
  rewrite Hp in Hsp. cbn in Hsp. destruct Hsp as [_ Hi]. destruct (ignored r seg).
  { by destruct Hi as [-> ->]. }
  destruct Hi as (st1 & closing & inc & out & conflict & fe & Hpr).
  unfold delivered. rewrite (push_result_data _ _ _ _ _ _ _ _ _ _ _ flow Hpr), decide_False by done.
  split; [|done]. rewrite (pr_flows _ _ _ _ _ _ _ _ _ _ _ Hpr).
  destruct closing; [by rewrite lookup_delete_ne|by rewrite lookup_insert_ne].
Qed.

Lemma run_absent S alloc flow trace : forall b r,
  reassembler_wf r -> Forall (fun p => segment_ok p.1) trace -> headroom b r trace ->
  run_consistent S flow alloc r trace -> flows r !! flow = None ->
  exists r' events, run alloc r trace = Ok (r', events) /\ delivered flow events = [] /\
    flows r' !! flow = None.
Proof.
  induction trace as [|[seg now] trace IH]; intros b r Hr Hs Hh Hc Hn; cbn.
  { by exists r, []. }
  apply Forall_cons in Hs as [Hs Hss]. cbn in Hs, Hc. destruct Hc as [Hc1 Hc2].
  pose proof (headroom_step b alloc r seg now trace Hr Hs Hh) as Hst.
  destruct (push alloc r seg now) as [[r1 ev1]| |] eqn:Ep; [|by eapply IH|done].
  assert (seg_flow seg <> flow) as Hne.
  { intros Heq. destruct (Hc1 Heq) as [Hx _]. rewrite Hn in Hx. by destruct Hx. }
  destruct Hst as (Hw1 & _ & Hh1). destruct (push_keeps_absent _ _ _ _ _ _ _ Hr Hs Ep Hne Hn) as [Hn1 Hd1].
  destruct (IH _ r1 Hw1 Hss Hh1 Hc2 Hn1) as (r' & ev & -> & Hd & Hn').
  cbn. eexists _, _. split; [done|]. split; [|done].
  unfold delivered in *. rewrite data_events_app, fmap_app, concat_app, Hd1, Hd. done.
Qed.

Lemma run_stream S alloc flow trace : forall b r st,
  reassembler_wf r -> Forall (fun p => segment_ok p.1) trace -> headroom b r trace ->
  flows r !! flow = Some st -> agrees S st -> run_consistent S flow alloc r trace ->
  exists r' events n, run alloc r trace = Ok (r', events) /\ 0 <= n /\
    delivered flow events = stream_bytes S (next_offset st) n /\
    forall st', flows r' !! flow = Some st' -> agrees S st' /\ next_offset st' = next_offset st + n.
Proof.
  induction trace as [|[seg now] trace IH]; intros b r st Hr Hs Hh Hst Ha Hc; cbn.
  { exists r, [], 0. split; [done|]. split; [lia|]. split; [done|]. intros st' Hst'.
    rewrite Hst in Hst'. injection Hst' as <-. split; [done|lia]. }
  apply Forall_cons in Hs as [Hs Hss]. cbn in Hs, Hc. destruct Hc as [Hc1 Hc2].
  pose proof (headroom_step b alloc r seg now trace Hr Hs Hh) as Hsp.
  destruct (push alloc r seg now) as [[r1 ev1]| |] eqn:Ep; [|by eapply IH|done].
  destruct Hsp as (Hw1 & _ & Hh1).
  destruct (push_stream_step S _ _ _ _ _ _ flow Hr Hs Ep Hc1 st Hst Ha) as (n1 & Hn1 & Hd1 & Hst1).
  assert (forall ev, delivered flow (ev1 ++ ev) = delivered flow ev1 ++ delivered flow ev) as Happ.
  { intros ev. unfold delivered. by rewrite data_events_app, fmap_app, concat_app. }
  destruct (flows r1 !! flow) as [st1|] eqn:Ef.
  - destruct (Hst1 _ eq_refl) as [Ha1 Hx1].
    destruct (IH _ r1 st1 Hw1 Hss Hh1 Ef Ha1 Hc2) as (r' & ev & n & -> & Hn & Hd & Hst').
    cbn. exists r', (ev1 ++ ev), (n1 + n). split; [done|]. split; [lia|]. split.
    + rewrite Happ, Hd1, Hd, Hx1. by apply stream_bytes_app.
    + intros st' Hl. destruct (Hst' _ Hl). split; [done|lia].
  - destruct (run_absent S alloc flow trace _ r1 Hw1 Hss Hh1 Hc2 Ef) as (r' & ev & -> & Hd & Hn).
    cbn. exists r', (ev1 ++ ev), n1. split; [done|]. split; [lia|]. split.
    + by rewrite Happ, Hd, app_nil_r.
    + intros st' Hl. congruence.
Qed.

(** ** A sample flow for the witnesses *)

Definition demo_flow : ScopedFlowKey :=
  mkScopedFlowKey 0 (mkFlowKey (V4 167772161) 4000 (V4 167772162) 80).

Definition demo_alloc : allocator := fun _ _ => true.

Definition demo_new : Reassembler := mkReassembler Limits_default ∅ expiry_default 0 0.

(** The sequence numbers wrap: the first payload byte is 4294967291. *)
Definition demo_syn : Segment := mkSegment demo_flow 4294967290 [] true false false.
Definition demo_late : Segment := mkSegment demo_flow 4294967294 [4; 5; 6] false false false.
Definition demo_fill : Segment := mkSegment demo_flow 4294967291 [1; 2; 3; 9] false false false.
Definition demo_first : Segment := mkSegment demo_flow 4294967291 [1; 2; 3] false false false.

Definition after (r : Reassembler) (seg : Segment) (now : Z) : Reassembler :=
  match push demo_alloc r seg now with Ok (r', _) => r' | _ => r end.

Definition events_of (r : Reassembler) (seg : Segment) (now : Z) : list Event :=
  match push demo_alloc r seg now with Ok (_, ev) => ev | _ => [] end.

Definition accepted (r : Reassembler) (seg : Segment) (now : Z) : bool :=
  match push demo_alloc r seg now with Ok _ => true | _ => false end.

Lemma accepted_push r seg now :
  accepted r seg now = true -> push demo_alloc r seg now = Ok (after r seg now, events_of r seg now).
Proof.
  unfold accepted, after, events_of. by destruct (push demo_alloc r seg now) as [[? ?]| |].
Qed.

(** The SYN and then a segment ahead of the next expected byte. *)
Definition demo_gap : Reassembler := after (after demo_new demo_syn 1000) demo_late 2000.

Lemma demo_limits : limits_ok Limits_default.
Proof. split; try split; by vm_compute. Qed.

Lemma demo_new_eq : reassembler_new 0 Limits_default = Ok demo_new.
Proof. reflexivity. Qed.

Lemma demo_segments : segment_ok demo_syn /\ segment_ok demo_late /\ segment_ok demo_fill /\ segment_ok demo_first.
Proof. split_and!; split; cbn; unfold u32_max, isize_max, zlen; cbn; lia. Qed.

Lemma after_wf r seg now : reassembler_wf r -> segment_ok seg -> reassembler_wf (after r seg now).
Proof.
  intros Hr Hs. pose proof (push_spec demo_alloc r seg now Hr Hs) as H. unfold after.
  destruct (push demo_alloc r seg now) as [[r' ev]| |]; [|done|done]. by destruct H.
Qed.

Lemma demo_new_wf : reassembler_wf demo_new.
Proof. exact (reassembler_new_wf 0 _ _ demo_limits demo_new_eq). Qed.

Lemma demo_new_below : below 0 demo_new.
Proof. split; [done|]. apply map_Forall_empty. Qed.

Lemma demo_headroom trace :
  DEFAULT_MAX_BYTES_PER_FLOW + zlen trace * DEFAULT_MAX_BYTES_PER_FLOW <= LAST_PAGE ->
  headroom DEFAULT_MAX_BYTES_PER_FLOW (after demo_new demo_syn 1000) trace.
Proof.
  destruct (push_below 0 demo_alloc demo_new demo_syn 1000 (after demo_new demo_syn 1000)
    (events_of demo_new demo_syn 1000) demo_new_wf) as [Hb Hl].
  - apply demo_segments.
  - apply accepted_push. by vm_compute.
  - apply demo_new_below.
  - intros H. split; [exact Hb|]. rewrite Hl. exact H.
Qed.

Lemma demo_gap_wf : reassembler_wf demo_gap.
Proof. destruct demo_segments as (? & ? & ? & ?). do 2 (apply after_wf; [|done]). apply demo_new_wf. Qed.

(** ** Theorems *)

(** C1: [push] on a well-formed reassembler does not panic (no index, assertion,
    [expect] or overflow check fails, whatever the allocator answers) unless a
    pending interval of the segment's flow starts in the last 4096 bytes of the
    [u64] stream positions, and in every case what it returns is well-formed with
    the same limits. *)
Theorem push_safe (alloc : allocator) (r : Reassembler) (seg : Segment) (now : Z) :
  reassembler_wf r -> segment_ok seg ->
  (clear_of_last_page (pending (start_state r seg now)) -> push alloc r seg now <> Panic) /\
  forall r' events, push alloc r seg now = Ok (r', events) ->
    reassembler_wf r' /\ limits r' = limits r.
Proof.
  intros Hr Hs. pose proof (push_spec alloc r seg now Hr Hs) as H. split.
  - exact (safe_when_Panic _ _ _ H).
  - intros r' ev Hp. eapply step_wf; [exact Hr|]. by eapply step_push.
Qed.

Lemma push_safe_witness :
  reassembler_wf demo_gap /\ push demo_alloc demo_gap demo_fill 3000 <> Panic.
Proof.
  split; [apply demo_gap_wf|].
  apply (push_safe demo_alloc demo_gap demo_fill 3000 demo_gap_wf); [apply demo_segments|].
  apply (bool_decide_unpack _). by vm_compute.
Defined.

(** C28: in every state reachable from a new reassembler by pushes, expiry,
    eviction and flush, the aggregate counters are exactly the sums over the
    flows and within [max_aggregate_bytes], the number of flows, and for each
    flow its retained bytes, segments and history capacity, are within their
    limits, and the expiry index lists exactly the flows' deadlines. *)
Theorem reachable_invariant (clock : Z) (l : Limits) (r : Reassembler) :
  limits_ok l -> reachable clock l r ->
  aggregate_bytes r = map_sum flow_retained (flows r) /\
  aggregate_memory_charge r = map_sum flow_charge (flows r) /\
  aggregate_bytes r <= max_aggregate_bytes l /\
  aggregate_memory_charge r <= max_aggregate_bytes l /\
  flow_count r <= max_flows l /\
  (forall k st, flows r !! k = Some st ->
     0 <= flow_retained st <= max_bytes_per_flow l /\
     zlen (pending st) <= max_segments_per_flow l /\
     capacity (emitted_history st) <= max_bytes_per_flow l) /\
  (forall d k, (d, k) ∈ (expiry r).*1 <->
     exists st, flows r !! k = Some st /\ deadline st = Some d).
Proof.
  intros HL Hr. destruct (reachable_wf _ _ _ HL Hr) as [Hw <-].
  pose proof Hw as [? Hf ? ? ? ? ? ? [_ Hi]]. do 5 (split; [done|]). split; [|done].
  intros k st Hk. pose proof (Hf _ _ Hk) as Hfw. pose proof (rw_retained_nonneg _ Hw _ _ Hk).
  destruct Hfw. unfold flow_retained in *. done.
Qed.

Lemma reachable_invariant_witness : aggregate_bytes demo_gap = map_sum flow_retained (flows demo_gap).
Proof.
  destruct demo_segments as (Hs1 & Hs2 & _ & _).
  apply (reachable_invariant 0 Limits_default demo_gap demo_limits).
  eapply (reachable_step _ _ (after demo_new demo_syn 1000) _ (events_of (after demo_new demo_syn 1000) demo_late 2000)).
  - eapply (reachable_step _ _ demo_new _ (events_of demo_new demo_syn 1000)).
    + by apply reachable_new.
    + apply (step_push _ demo_alloc demo_syn 1000); [done|]. apply accepted_push. by vm_compute.
  - apply (step_push _ demo_alloc demo_late 2000); [done|]. apply accepted_push. by vm_compute.
Defined.

(** C3: an accepted [push] refines the byte-stream specification: the bytes
    delivered are the maximal run, from the next expected offset, of the bytes
    received so far with the first copy winning; exactly the later bytes remain
    pending; they are reported in one [Data] event, at the right sequence
    number; no other flow changes. *)
Theorem push_delivers (alloc : allocator) (r : Reassembler) (seg : Segment) (now : Z)
  (r' : Reassembler) (events : list Event) :
  reassembler_wf r -> segment_ok seg -> ignored r seg = false ->
  push alloc r seg now = Ok (r', events) ->
  let st := start_state r seg now in
  exists out,
    (forall i, 0 <= i < zlen out -> zget out i = merged st seg (next_offset st + i)) /\
    merged st seg (next_offset st + zlen out) = None /\
    data_events (seg_flow seg) events
      = (if zlen out =? 0 then [] else [(expected_sequence st, out)]) /\
    (forall st', flows r' !! seg_flow seg = Some st' ->
       next_offset st' = next_offset st + zlen out /\
       forall off, view st' off =
         if off <? next_offset st + zlen out then None else merged st seg off) /\
    (forall k, k <> seg_flow seg -> flows r' !! k = flows r !! k).
Proof.
  intros Hr Hs Hig Hp st. pose proof (push_spec alloc r seg now Hr Hs) as H.
  rewrite Hp, Hig in H. destruct H as (_ & st1 & closing & inc & out & conflict & fe & Hpr).
  pose proof (pr_effect _ _ _ _ _ _ _ _ _ _ _ Hpr) as He.
  destruct (effect_refines _ _ _ _ _ _ _ _ _ _ _ (start_state_wf _ _ _ Hr) He) as (H1 & H2 & H3).
  exists out. split; [done|]. split; [done|]. split; [|split].
  - by rewrite (push_result_data _ _ _ _ _ _ _ _ _ _ _ _ Hpr), decide_True.
  - intros st' Hst'. rewrite (pr_flows _ _ _ _ _ _ _ _ _ _ _ Hpr) in Hst'.
    destruct closing; [by rewrite lookup_delete_eq in Hst'|].
    rewrite lookup_insert_eq in Hst'. injection Hst' as <-. split; [|done].
    apply (pe_next _ _ _ _ _ _ _ _ _ _ _ He).
  - intros k Hk. rewrite (pr_flows _ _ _ _ _ _ _ _ _ _ _ Hpr).
    destruct closing; [by rewrite lookup_delete_ne|by rewrite lookup_insert_ne].
Qed.

(** The late bytes 4, 5, 6 win over the 9 that arrives with the missing ones. *)
Lemma push_delivers_witness :
  events_of demo_gap demo_fill 3000
    = [Retransmission demo_flow 4294967291 1 true [(4294967294, 4294967295)];
       Data demo_flow 4294967291 [1; 2; 3; 4; 5; 6]] /\
  exists out : bytes, merged (start_state demo_gap demo_fill 3000) demo_fill
    (next_offset (start_state demo_gap demo_fill 3000) + zlen out) = None.
Proof.
  split; [by vm_compute|].
  destruct (push_delivers demo_alloc demo_gap demo_fill 3000 (after demo_gap demo_fill 3000)
    (events_of demo_gap demo_fill 3000) demo_gap_wf (proj1 (proj2 (proj2 demo_segments))))
    as (out & _ & H & _); [by vm_compute|apply accepted_push; by vm_compute|]. by exists out.
Defined.

(** C5: over any interleaving of segments of any flows, some rejected, as long as
    there is headroom (the stream positions, plus [max_bytes_per_flow] for every
    segment of the trace, stay below the last page of the [u64] positions), the
    caller does not panic and the bytes delivered for a flow whose segments were
    cut from one stream are exactly the next bytes of that stream: no loss,
    duplication, reordering or corruption. *)
Theorem stream_integrity (S : Z -> Z) (alloc : allocator) (flow : ScopedFlowKey)
  (trace : list (Segment * Z)) (bound : Z) (r : Reassembler) (st : TcpFlowState) :
  reassembler_wf r -> Forall (fun p => segment_ok p.1) trace -> headroom bound r trace ->
  flows r !! flow = Some st -> agrees S st -> run_consistent S flow alloc r trace ->
  exists r' events n, run alloc r trace = Ok (r', events) /\ 0 <= n /\
    delivered flow events = stream_bytes S (next_offset st) n /\
    (forall st', flows r' !! flow = Some st' -> next_offset st' = next_offset st + n).
Proof.
  intros Hr Hs Hh Hst Ha Hc.
  destruct (run_stream S alloc flow trace bound r st Hr Hs Hh Hst Ha Hc) as (r' & ev & n & H1 & H2 & H3 & H4).
  exists r', ev, n. do 3 (split; [done|]). intros st' Hst'. by destruct (H4 _ Hst').
Qed.

Lemma stream_integrity_witness :
  exists r' events n, run demo_alloc (after demo_new demo_syn 1000) [(demo_late, 2000); (demo_first, 3000)]
      = Ok (r', events) /\ 0 <= n /\
    delivered demo_flow events = stream_bytes (fun off => off + 1) 0 n.
Proof.
  destruct demo_segments as (Hs1 & Hs2 & _ & Hs4).
  destruct (flows (after demo_new demo_syn 1000) !! demo_flow) as [st|] eqn:Ef; [|by vm_compute in Ef].
  assert (next_offset st = 0 /\ pending st = []) as [Hn Hp].
  { vm_compute in Ef. injection Ef as <-. done. }
  destruct (stream_integrity (fun off => off + 1) demo_alloc demo_flow
    [(demo_late, 2000); (demo_first, 3000)] DEFAULT_MAX_BYTES_PER_FLOW
    (after demo_new demo_syn 1000) st)
    as (r' & ev & n & H1 & H2 & H3 & _).
  - apply after_wf; [apply demo_new_wf|done].
  - by repeat constructor.
  - apply demo_headroom. by vm_compute.
  - done.
  - intros off b. unfold view. rewrite Hp, decide_False; [done|]. by inversion 1.
  - split; [intros _|split; [intros _|exact I]];
      (split; [apply (bool_decide_unpack _); by vm_compute|]); split; by vm_compute.
  - exists r', ev, n. rewrite Hn in H3. exact (conj H1 (conj H2 H3)).
Defined.

(** A segment whose unwrapped stream position is within half the sequence
    space of the next expected byte is placed at exactly that position, across
    any number of wraps of the 32-bit sequence numbers. *)
Theorem segment_position_unwrap (L : Limits) (st : TcpFlowState) (seg : Segment) (position : Z) :
  flow_wf L st -> - SERIAL_HALF <= position - next_offset st < SERIAL_HALF ->
  first_payload_sequence seg = wrapping_add32 (base_sequence st) (as_u32 position) ->
  segment_position st seg = position.
Proof.
  intros Hw Hd Hseq. pose proof (fw_base _ _ Hw). unfold segment_position, expected_sequence.
  rewrite Hseq. rewrite <-(as_u32_small (base_sequence st)) by (unfold u32_max in *; lia).
  rewrite !wrapping_add32_congr, serial_offset_unwrap by lia. lia.
Qed.

Lemma segment_position_unwrap_witness :
  segment_position (start_state demo_gap demo_late 3000) demo_late = 3.
Proof.
  apply (segment_position_unwrap Limits_default).
  - exact (start_state_wf demo_gap demo_late 3000 demo_gap_wf).
  - split; by vm_compute.
  - by vm_compute.
Defined.

(** C35: an accepted segment is reported as a conflicting retransmission exactly
    when one of its bytes differs from the byte known at its position, pending
    or delivered and still in the history (keep-alive probes excepted). *)
Theorem conflict_reported (alloc : allocator) (r : Reassembler) (seg : Segment) (now : Z)
  (r' : Reassembler) (events : list Event) :
  reassembler_wf r -> segment_ok seg -> ignored r seg = false ->
  push alloc r seg now = Ok (r', events) ->
  (exists sequence count ranges,
     Retransmission (seg_flow seg) sequence count true ranges ∈ events) <->
  contradicts (start_state r seg now) seg.
Proof.
  intros Hr Hs Hig Hp. pose proof (push_spec alloc r seg now Hr Hs) as H.
  rewrite Hp, Hig in H. destruct H as (_ & st1 & closing & inc & out & conflict & fe & Hpr).
  pose proof (pr_effect _ _ _ _ _ _ _ _ _ _ _ Hpr) as He.
  rewrite <-(conflict_exact _ _ _ _ (start_state_wf _ _ _ Hr) (pe_incoming _ _ _ _ _ _ _ _ _ _ _ He)).
  rewrite <-(pe_conflict _ _ _ _ _ _ _ _ _ _ _ He).
  rewrite (pr_events _ _ _ _ _ _ _ _ _ _ _ Hpr), (pe_events _ _ _ _ _ _ _ _ _ _ _ He).
  unfold effect_events. split.
  - intros (s & n & rs & Hin). rewrite !elem_of_app in Hin.
    destruct Hin as [[Hin|Hin]|Hin].
    + destruct (negb _ || conflict); [|set_solver].
      apply list_elem_of_singleton in Hin. by injection Hin.
    + destruct (zlen out =? 0); set_solver.
    + destruct closing; set_solver.
  - intros ->. rewrite orb_true_r. eexists _, _, _. rewrite !elem_of_app. left. left.
    by apply list_elem_of_singleton.
Qed.

Lemma conflict_reported_witness : contradicts (start_state demo_gap demo_fill 3000) demo_fill.
Proof.
  apply (conflict_reported demo_alloc demo_gap demo_fill 3000 (after demo_gap demo_fill 3000)
    (events_of demo_gap demo_fill 3000) demo_gap_wf (proj1 (proj2 (proj2 demo_segments)))).
  - by vm_compute.
  - apply accepted_push. by vm_compute.
  - exists 4294967291, 1, [(4294967294, 4294967295)].
    assert (events_of demo_gap demo_fill 3000
      = [Retransmission demo_flow 4294967291 1 true [(4294967294, 4294967295)];
         Data demo_flow 4294967291 [1; 2; 3; 4; 5; 6]]) as -> by (by vm_compute).
    by left.
Defined.

(** C34: an accepted segment closes its flow exactly when it is a reset or every
    byte up to the final sequence number has been delivered; the flow is then
    removed, reported closed, and its charges returned. *)
Theorem close_exact (alloc : allocator) (r : Reassembler) (seg : Segment) (now : Z)
  (r' : Reassembler) (events : list Event) :
  reassembler_wf r -> segment_ok seg -> ignored r seg = false ->
  push alloc r seg now = Ok (r', events) ->
  let st := start_state r seg now in
  let position := segment_position st seg in
  let final := match fin_offset st with
               | Some f => Some f
               | None => if seg_fin seg then u64_try_from (position + zlen (seg_payload seg)) else None
               end in
  let next := next_offset st + zlen (delivered (seg_flow seg) events) in
  (flows r' !! seg_flow seg = None <-> seg_rst seg = true \/ exists f, final = Some f /\ f <= next) /\
  (Closed (seg_flow seg) (seg_rst seg) ∈ events <-> flows r' !! seg_flow seg = None) /\
  (flows r' !! seg_flow seg = None ->
     aggregate_bytes r' = map_sum flow_retained (delete (seg_flow seg) (flows r)) /\
     aggregate_memory_charge r' = map_sum flow_charge (delete (seg_flow seg) (flows r))).
Proof.
  intros Hr Hs Hig Hp st position final next. pose proof (push_spec alloc r seg now Hr Hs) as H.
  rewrite Hp, Hig in H. destruct H as (Hw' & st1 & closing & inc & out & conflict & fe & Hpr).
  pose proof (pr_effect _ _ _ _ _ _ _ _ _ _ _ Hpr) as He.
  assert (zlen (delivered (seg_flow seg) events) = zlen out) as Hd.
  { unfold delivered. rewrite (push_result_data _ _ _ _ _ _ _ _ _ _ _ _ Hpr), decide_True by done.
    destruct (Z.eqb_spec (zlen out) 0); cbn; rewrite ?app_nil_r; done. }
  assert (final_fin st inc = final) as Hff.
  { unfold final_fin, final. by rewrite (io_fin _ _ _ _ (pe_incoming _ _ _ _ _ _ _ _ _ _ _ He)). }
  pose proof (pe_closed _ _ _ _ _ _ _ _ _ _ _ He) as Hc. fold st in Hc. rewrite Hff, <-Hd in Hc. fold next in Hc.
  assert (flows r' !! seg_flow seg = None <-> closing = true) as Hfl.
  { rewrite (pr_flows _ _ _ _ _ _ _ _ _ _ _ Hpr). destruct closing.
    - by rewrite lookup_delete_eq.
    - rewrite lookup_insert_eq. done. }
  split; [|split].
  - rewrite Hfl, Hc, orb_true_iff. destruct final as [f|].
    + rewrite Z.leb_le. naive_solver.
    + naive_solver.
  - rewrite Hfl, (pr_events _ _ _ _ _ _ _ _ _ _ _ Hpr), elem_of_app.
    rewrite (pe_events _ _ _ _ _ _ _ _ _ _ _ He). unfold effect_events.
    destruct closing; [set_solver|]. split; [|done]. rewrite elem_of_app.
    destruct (negb _ || conflict), (zlen out =? 0); set_solver.
  - intros Hcl. rewrite (rw_bytes _ Hw'), (rw_charge _ Hw'), (pr_flows _ _ _ _ _ _ _ _ _ _ _ Hpr).
    by rewrite (proj1 Hfl Hcl).
Qed.

Definition demo_fin : Segment := mkSegment demo_flow 4294967291 [1; 2; 3] false true false.

Lemma close_exact_witness : flows (after (after demo_new demo_syn 1000) demo_fin 3000) !! demo_flow = None.
Proof.
  assert (segment_ok demo_fin) as Hs by (split; cbn; unfold u32_max, isize_max, zlen; cbn; lia).
  destruct demo_segments as (Hs1 & _).
  refine (proj2 (proj1 (close_exact demo_alloc (after demo_new demo_syn 1000) demo_fin 3000
    (after (after demo_new demo_syn 1000) demo_fin 3000)
    (events_of (after demo_new demo_syn 1000) demo_fin 3000)
    (after_wf _ _ _ demo_new_wf Hs1) Hs _ (accepted_push _ _ _ _))) (or_intror (ex_intro _ 3 (conj _ _))));
    vm_compute; done.
Defined.

(** [expire] removes exactly the flows whose deadline has passed, reports
    each once with its undelivered byte count, in key order, and keeps the
    invariant; the others are untouched. *)
Theorem expire_exact (r : Reassembler) (now : Z) :
  reassembler_wf r ->
  reassembler_wf (expire r now).1 /\
  (forall k st, flows (expire r now).1 !! k = Some st <->
     flows r !! k = Some st /\ ~ expired now st) /\
  (forall k n, Evicted k n ∈ (expire r now).2 <->
     exists st, flows r !! k = Some st /\ expired now st /\ n = pending_bytes st) /\
  exists keys, (expire r now).2 = all_removals (flows r) keys /\ StronglySorted key_le keys.
Proof.
  intros Hr. destruct (expire_spec r now Hr) as (Hw & _ & Hf & keys & He & Hs & Hk).
  split; [done|]. split; [done|]. split; [|by exists keys].
  intros k n. rewrite He, all_removals_evicted, Hk. split.
  - intros ((st & Hst & Hx) & st' & Hst' & ->). rewrite Hst in Hst'. injection Hst' as <-. eauto.
  - intros (st & Hst & Hx & ->). split; by exists st.
Qed.

Lemma expire_exact_witness :
  flows (expire demo_gap (2000 + DEFAULT_IDLE_EXPIRY)).1 !! demo_flow = None /\
  (expire demo_gap (2000 + DEFAULT_IDLE_EXPIRY)).2
    = [Gap demo_flow 4294967291 4294967294; Evicted demo_flow 3] /\
  reassembler_wf (expire demo_gap (2000 + DEFAULT_IDLE_EXPIRY)).1.
Proof.
  split; [by vm_compute|]. split; [by vm_compute|].
  apply (expire_exact demo_gap (2000 + DEFAULT_IDLE_EXPIRY) demo_gap_wf).
Defined.

(** [evict_flow] removes one flow and [flush] all of them, each reporting
    what it drops; after [flush] every counter is zero and the index empty. *)
Theorem evict_and_flush (r : Reassembler) (flow : ScopedFlowKey) :
  reassembler_wf r ->
  (reassembler_wf (evict_flow r flow).1 /\
   flows (evict_flow r flow).1 = delete flow (flows r) /\
   (evict_flow r flow).2 = from_option (removal_events flow) [] (flows r !! flow)) /\
  flows (flush r).1 = ∅ /\ aggregate_bytes (flush r).1 = 0 /\
  aggregate_memory_charge (flush r).1 = 0 /\ expiry (flush r).1 = [] /\
  (forall k n, Evicted k n ∈ (flush r).2 <->
     exists st, flows r !! k = Some st /\ n = pending_bytes st).
Proof.
  intros Hr. destruct (evict_flow_spec r flow Hr) as (H1 & _ & H2 & H3). split; [done|].
  destruct (flush_spec r Hr) as (Hw & _ & Hf & keys & He & _ & Hk). split; [done|].
  split; [by rewrite (rw_bytes _ Hw), Hf|]. split; [by rewrite (rw_charge _ Hw), Hf|]. split.
  - destruct (expiry (flush r).1) as [|[[d k] u] e] eqn:Ee; [done|]. exfalso.
    destruct (proj1 (proj2 (rw_expiry _ Hw) d k)) as (st & Hst & _).
    + rewrite Ee. by left.
    + by rewrite Hf in Hst.
  - intros k n. rewrite He, all_removals_evicted, Hk. split.
    + intros [_ Hx]. done.
    + intros (st & Hst & ->). split; by exists st.
Qed.

Lemma evict_and_flush_witness :
  flows (flush demo_gap).1 = ∅ /\ (flush demo_gap).2 = [Gap demo_flow 4294967291 4294967294; Evicted demo_flow 3].
Proof.
  split; [apply (evict_and_flush demo_gap demo_flow demo_gap_wf)|]. by vm_compute.
Defined.

(** The buffer bytes a flow keeps allocated. *)
Definition flow_allocated (st : TcpFlowState) : Z :=
  pages_len (flow_pages st) * PAGE_BYTES + capacity (emitted_history st).

(** One call of the public interface. *)
Inductive Call :=
| CallPush (segment : Segment) (now : Z)
| CallExpire (now : Z)
| CallEvict (flow : ScopedFlowKey)
| CallFlush.

Definition call_ok (c : Call) : Prop :=
  match c with CallPush seg _ => segment_ok seg | _ => True end.

(** A caller that makes the calls in turn and drops the segments [push] rejects. *)
Fixpoint session (alloc : allocator) (r : Reassembler) (calls : list Call)
  : outcome Error (Reassembler * list Event) :=
  match calls with
  | [] => Ok (r, [])
  | c :: calls' =>
      '(r1, events1) ←
        match c with
        | CallPush seg now =>
            match push alloc r seg now with Err _ => Ok (r, []) | result => result end
        | CallExpire now => Ok (expire r now)
        | CallEvict flow => Ok (evict_flow r flow)
        | CallFlush => Ok (flush r)
        end;
      '(r2, events2) ← session alloc r1 calls';
      Ok (r2, events1 ++ events2)
  end.

Lemma below_subset b (r r' : Reassembler) :
  (forall k st, flows r' !! k = Some st -> flows r !! k = Some st) -> below b r -> below b r'.
Proof. intros Hs [H0 Hr]. split; [done|]. intros k st Hk. by apply (Hr k), Hs. Qed.

Lemma session_spec alloc calls : forall b r,
  reassembler_wf r -> Forall call_ok calls -> below b r ->
  b + zlen calls * max_bytes_per_flow (limits r) <= LAST_PAGE ->
  exists r' events, session alloc r calls = Ok (r', events) /\ reassembler_wf r' /\
    limits r' = limits r /\ below (b + zlen calls * max_bytes_per_flow (limits r)) r'.
Proof.
  induction calls as [|c calls IH]; intros b r Hr Hc Hb Hle; cbn [session].
  { exists r, []. split; [done|]. split; [done|]. split; [done|].
    eapply below_mono; [|exact Hb]. unfold zlen. cbn. lia. }
  apply Forall_cons in Hc as [Hc Hcs]. rewrite zlen_cons in *. pose proof (zlen_nonneg calls).
  pose proof (lok_bytes _ (rw_limits _ Hr)) as Hmax.
  assert (0 <= zlen calls * max_bytes_per_flow (limits r)) by nia.
  assert (exists r1 ev1, (match c with
    | CallPush seg now => match push alloc r seg now with Err _ => Ok (r, []) | result => result end
    | CallExpire now => Ok (expire r now) | CallEvict flow => Ok (evict_flow r flow)
    | CallFlush => Ok (flush r) end) = @Ok Error _ (r1, ev1) /\ reassembler_wf r1 /\
    limits r1 = limits r /\ below (b + max_bytes_per_flow (limits r)) r1)
    as (r1 & ev1 & -> & Hr1 & Hl1 & Hb1).
  { pose proof (below_mono b (b + max_bytes_per_flow (limits r)) r ltac:(lia) Hb) as Hbm.
    destruct c as [seg now|now|flow|].
    - pose proof (push_spec alloc r seg now Hr Hc) as Hsp.
      destruct (push alloc r seg now) as [[r1 ev1]| |] eqn:Ep.
      + destruct (push_below b _ _ _ _ _ _ Hr Hc Ep Hb). exists r1, ev1. destruct Hsp. done.
      + by exists r, [].
      + destruct Hsp. apply (below_clear b); [done|done|lia].
    - destruct (expire_spec r now Hr) as (? & ? & Hf & _). destruct (expire r now) as [r1 ev1].
      exists r1, ev1. do 3 (split; [done|]). eapply below_subset; [|exact Hbm]. intros k st Hk. by apply Hf.
    - destruct (evict_flow_spec r flow Hr) as (? & ? & Hf & _). destruct (evict_flow r flow) as [r1 ev1].
      exists r1, ev1. do 3 (split; [done|]). eapply below_subset; [|exact Hbm]. cbn in Hf. rewrite Hf.
      intros k st Hk. by apply lookup_delete_Some in Hk as [_ ?].
    - destruct (flush_spec r Hr) as (? & ? & Hf & _). destruct (flush r) as [r1 ev1].
      exists r1, ev1. do 3 (split; [done|]). eapply below_subset; [|exact Hbm]. cbn in Hf. by rewrite Hf. }
  rewrite Ok_bind. destruct (IH _ r1 Hr1 Hcs Hb1) as (r2 & ev2 & -> & Hr2 & Hl2 & Hb2).
  { rewrite Hl1. lia. }
  rewrite Hl1 in *. eexists _, _. split; [done|]. split; [done|]. split; [done|].
  eapply below_mono; [|exact Hb2]. lia.
Qed.

Lemma allocated_le_charge r : map_sum flow_allocated (flows r) <= map_sum flow_charge (flows r).
Proof.
  induction (flows r) as [|k st m Hk IH] using map_ind; [by rewrite !map_sum_empty|].
  rewrite !map_sum_insert, delete_id by done.
  enough (flow_allocated st <= flow_charge st) by lia.
  unfold flow_allocated, flow_charge, charge_parts. pose proof (pages_len_nonneg (flow_pages st)).
  pose proof (zlen_nonneg (pending st)).
  unfold PAGE_CHARGE, PENDING_SEGMENT_METADATA_CHARGE, TCP_FLOW_STATE_METADATA_CHARGE, PAGE_BYTES. lia.
Qed.

(** C38: a session of any calls of the public interface on a new reassembler, in
    any order and with any segments, never panics as long as [max_bytes_per_flow]
    for every call stays below the last page of the [u64] positions; whatever was
    pushed, the buffers held at its end (every
    page, live or not, and every history ring) fit in [max_aggregate_bytes], and
    no flow has advanced by more than [max_bytes_per_flow] per call. *)
Theorem session_safe (alloc : allocator) (clock : Z) (l : Limits) (r : Reassembler)
  (calls : list Call) :
  limits_ok l -> reassembler_new clock l = Ok r -> Forall call_ok calls ->
  zlen calls * max_bytes_per_flow l <= LAST_PAGE ->
  exists r' events, session alloc r calls = Ok (r', events) /\
    map_sum flow_allocated (flows r') <= max_aggregate_bytes l /\
    forall k st, flows r' !! k = Some st -> next_offset st <= zlen calls * max_bytes_per_flow l.
Proof.
  intros HL Hn Hc Hle. pose proof (reassembler_new_wf _ _ _ HL Hn) as Hr.
  assert (limits r = l /\ flows r = ∅) as [Hl Hf].
  { unfold reassembler_new in Hn. inv_ok Hn. by injection Hn as <-. }
  destruct (session_spec alloc calls 0 r Hr Hc) as (r' & ev & Hs & Hr' & Hl' & _ & Hb).
  - split; [done|]. rewrite Hf. apply map_Forall_empty.
  - by rewrite Hl.
  - rewrite Hl in *. exists r', ev. split; [done|]. split.
    + etransitivity; [apply allocated_le_charge|]. rewrite <-(rw_charge _ Hr'), <-Hl'.
      apply (rw_charge_max _ Hr').
    + intros k st Hk. apply (Hb k st Hk).
Qed.

(** A session that ends with one page and three history bytes held. *)
Lemma session_safe_witness :
  exists r' events, session demo_alloc demo_new [CallPush demo_syn 1000; CallPush demo_first 1500;
      CallPush demo_fill 1600; CallPush (mkSegment demo_flow 10 [7; 8] false false false) 1700;
      CallExpire 1800] = Ok (r', events) /\
    PAGE_BYTES < map_sum flow_allocated (flows r') <= DEFAULT_MAX_AGGREGATE_BYTES.
Proof.
  destruct (session_safe demo_alloc 0 Limits_default demo_new [CallPush demo_syn 1000;
    CallPush demo_first 1500; CallPush demo_fill 1600;
    CallPush (mkSegment demo_flow 10 [7; 8] false false false) 1700; CallExpire 1800])
    as (r' & ev & Hs & Hm & _).
  - apply demo_limits.
  - reflexivity.
  - repeat constructor; cbn; unfold u32_max, isize_max, zlen; cbn; lia.
  - by vm_compute.
  - exists r', ev. split; [exact Hs|]. split; [|exact Hm].
    assert (match session demo_alloc demo_new [CallPush demo_syn 1000;
      CallPush demo_first 1500; CallPush demo_fill 1600;
      CallPush (mkSegment demo_flow 10 [7; 8] false false false) 1700; CallExpire 1800] with
      | Ok (r, _) => PAGE_BYTES <? map_sum flow_allocated (flows r) | _ => false end = true) as Hw
      by (by vm_compute).
    rewrite Hs in Hw. by apply Z.ltb_lt in Hw.
Defined.

(** ** The last page *)

(** A window of sixteen bytes, and a flow whose window ends at the last [u64]
    position with nothing pending. *)
Definition top_limits : Limits :=
  {| max_flows := DEFAULT_MAX_FLOWS; max_bytes_per_flow := 16;
     max_aggregate_bytes := DEFAULT_MAX_AGGREGATE_BYTES;
     max_segments_per_flow := DEFAULT_MAX_SEGMENTS_PER_FLOW; idle_expiry := DEFAULT_IDLE_EXPIRY |}.

Definition top_flow : TcpFlowState :=
  mkFlowState 0 (u64_max - 16) (u64_max - 16) history_default [] ∅ 0 None 1000
    (instant_checked_add 1000 DEFAULT_IDLE_EXPIRY).

Definition top_new : Reassembler :=
  mkReassembler top_limits {[demo_flow := top_flow]}
    (expiry_insert (deadline top_flow) demo_flow expiry_default) 0 (flow_charge top_flow).

(** Bytes 6 and 7 after the next expected one, and then bytes 0 and 1. *)
Definition top_late : Segment := mkSegment demo_flow 4294967285 [6; 7] false false false.
Definition top_fill : Segment := mkSegment demo_flow 4294967279 [0; 1] false false false.

Lemma top_new_wf : reassembler_wf top_new.
Proof.
  assert (reassembler_wf (mkReassembler top_limits ∅ expiry_default 0 0)) as Hn.
  { apply (reassembler_new_wf 0 top_limits); [split; try split; by vm_compute|reflexivity]. }
  pose proof (store_flow_wf _ demo_syn 1000 Hn top_flow 0 (flow_charge top_flow)) as H.
  apply H; try (by vm_compute).
  split; try apply history_default_wf; try done; by vm_compute.
Qed.

(** The overflow check of [remaining_count] does fail: with a byte pending in the
    last page, a segment that fills an earlier gap of that page makes [push] panic
    on a well-formed reassembler. *)
Theorem push_panics_on_last_page :
  reassembler_wf (after top_new top_late 2000) /\ segment_ok top_fill /\
  pending (start_state (after top_new top_late 2000) top_fill 3000) = [(u64_max - 10, u64_max - 8)] /\
  push demo_alloc (after top_new top_late 2000) top_fill 3000 = Panic.
Proof.
  split; [apply after_wf; [apply top_new_wf|]|split].
  - split; cbn; unfold u32_max, isize_max, zlen; cbn; lia.
  - split; cbn; unfold u32_max, isize_max, zlen; cbn; lia.
  - split; by vm_compute.
Qed.

(** The history ring refines a byte queue: appending, dropping a prefix and
    reading a range act on its contents as list append, drop and slice, with no
    panic and at constant capacity. *)
Theorem history_refines_queue (h : History) (data : bytes) (count first last : Z) :
  history_wf h -> zlen data <= capacity h - len h -> 0 <= count <= len h ->
  0 <= first -> first <= last -> last <= len h ->
  (exists h', history_extend h data = Ok h' /\ history_wf h' /\ capacity h' = capacity h /\
     contents h' = contents h ++ data) /\
  (exists h', drain_prefix h count = Ok (true, h') /\ history_wf h' /\ capacity h' = capacity h /\
     contents h' = zdrop count (contents h)) /\
  (exists one two, history_slices h first last = Ok (one, two) /\
     one ++ two = zslice first last (contents h)).
Proof.
  intros Hw Hd Hc H1 H2 H3. split; [by apply history_extend_spec|].
  split; [by apply drain_prefix_spec|by apply history_slices_spec].
Qed.

(** A ring of capacity 4 holding 3, 4, 5 across its end. *)
Lemma history_refines_queue_witness :
  contents (mkHistory [4; 5; 9; 3] 3 3) = [3; 4; 5] /\
  exists h', history_extend (mkHistory [4; 5; 9; 3] 3 3) [6] = Ok h' /\ contents h' = [3; 4; 5; 6].
Proof.
  split; [by vm_compute|].
  destruct (history_refines_queue (mkHistory [4; 5; 9; 3] 3 3) [6] 0 0 0) as ((h' & H1 & _ & _ & H2) & _).
  - split; unfold capacity, zlen, isize_max; cbn; lia.
  - by vm_compute.
  - by cbn.
  - done.
  - done.
  - by cbn.
  - exists h'. split; [exact H1|]. rewrite H2. by vm_compute.
Defined.

(** [serial::ge] and [serial::gt] are the order of the signed distance
    [serial::offset], and agree with the order of unwrapped positions less than
    half the space apart. *)
Theorem serial_orders (a b : Z) :
  - SERIAL_HALF <= a - b < SERIAL_HALF ->
  serial_offset (as_u32 a) (as_u32 b) = a - b /\
  serial_ge (as_u32 a) (as_u32 b) = (b <=? a) /\
  serial_gt (as_u32 a) (as_u32 b) = (b <? a).
Proof.
  intros H. rewrite serial_ge_offset, serial_gt_offset, serial_offset_unwrap by done.
  split; [done|]. split; repeat case_bool.
Qed.

Lemma serial_orders_witness : serial_gt (as_u32 4294967297) (as_u32 4294967290) = true.
Proof. apply (serial_orders 4294967297 4294967290). unfold SERIAL_HALF. lia. Defined.
