(* ===== verification/IpModel.v ===== *)
(** * IP reassembly: data model

    [analysis/reassembly/ip.rs], [ip/model.rs] and [ip/limits.rs]: datagram keys,
    fragments, outcomes, errors, limits, and the state a datagram keeps. *)

From stdpp Require Import base tactics option list numbers gmap strings.
From Stdlib Require Import ZArith Lia.
From S2P Require Import Prelude Ordered Flow.

(** ** Keys ([model.rs]) *)

Inductive Family : Type := FamilyIpv4 | FamilyIpv6.

Record Ipv4DatagramKey : Type := mkKey4 {
  k4_scope : Z;
  k4_source : Z;
  k4_destination : Z;
  k4_identification : Z;
  k4_protocol : Z
}.

Record Ipv6DatagramKey : Type := mkKey6 {
  k6_scope : Z;
  k6_source : Z;
  k6_destination : Z;
  k6_identification : Z
}.

Inductive DatagramKey : Type :=
| Key4 (k : Ipv4DatagramKey)
| Key6 (k : Ipv6DatagramKey).

Definition DatagramKey_family (k : DatagramKey) : Family :=
  match k with Key4 _ => FamilyIpv4 | Key6 _ => FamilyIpv6 end.

(** The derived order: the variant, then the fields in declaration order. *)
Definition DatagramKey_fields (k : DatagramKey) : Z * (Z * (Z * (Z * (Z * Z)))) :=
  match k with
  | Key4 k => (0, (k4_scope k, (k4_source k, (k4_destination k, (k4_identification k, k4_protocol k)))))
  | Key6 k => (1, (k6_scope k, (k6_source k, (k6_destination k, (k6_identification k, 0)))))
  end.

#[export] Instance DatagramKey_fields_inj : Inj (=) (=) DatagramKey_fields.
Proof. intros [[]|[]] [[]|[]]; cbn; intros [=]; subst; done. Qed.

Definition DatagramKey_of_fields (p : Z * (Z * (Z * (Z * (Z * Z))))) : DatagramKey :=
  let '(v, (s, (a, (b, (i, q))))) := p in
  if v =? 0 then Key4 (mkKey4 s a b i q) else Key6 (mkKey6 s a b i).

#[export] Instance Ipv4DatagramKey_eq_dec : EqDecision Ipv4DatagramKey.
Proof. solve_decision. Defined.
#[export] Instance Ipv6DatagramKey_eq_dec : EqDecision Ipv6DatagramKey.
Proof. solve_decision. Defined.
#[export] Instance DatagramKey_eq_dec : EqDecision DatagramKey.
Proof. solve_decision. Defined.
#[export] Program Instance DatagramKey_countable : Countable DatagramKey :=
  inj_countable' DatagramKey_fields DatagramKey_of_fields _.
Next Obligation. by intros [[]|[]]. Qed.
#[export] Instance DatagramKey_ord : Ord DatagramKey := ord_via DatagramKey_fields.
#[export] Instance DatagramKey_ord_laws : OrdLaws DatagramKey.
Proof. exact (ord_via_laws DatagramKey_fields). Qed.

(** ** Fragments *)

Record Ipv4Fragment : Type := mkFragment4 {
  f4_key : Ipv4DatagramKey;
  f4_fragment_offset : Z;
  f4_more_fragments : bool;
  f4_header : bytes;
  f4_payload : bytes
}.

Record Ipv6Fragment : Type := mkFragment6 {
  f6_key : Ipv6DatagramKey;
  f6_fragment_offset : Z;
  f6_more_fragments : bool;
  f6_next_header : Z;
  f6_unfragmentable_prefix : bytes;
  f6_predecessor_next_header_offset : Z;
  f6_payload : bytes
}.

Inductive Fragment : Type :=
| Fragment4 (f : Ipv4Fragment)
| Fragment6 (f : Ipv6Fragment).

Inductive OverlapPolicy : Type := PolicyReject | PolicyFirst | PolicyLast.

#[export] Instance OverlapPolicy_eq_dec : EqDecision OverlapPolicy.
Proof. solve_decision. Defined.

(** ** Outcomes *)

Inductive FragmentDisposition : Type :=
| Accepted (added_bytes : Z)
| Duplicate (count : Z)
| OverlapResolved (policy : OverlapPolicy) (affected_bytes added_bytes : Z).

Record FragmentOutcome : Type := mkFragmentOutcome {
  fo_key : DatagramKey;
  fo_disposition : FragmentDisposition;
  fo_fragment_count : Z;
  fo_unique_bytes : Z;
  fo_known_final_length : option Z
}.

Record CompletedDatagram : Type := mkCompleted {
  cd_key : DatagramKey;
  cd_bytes : bytes;
  cd_fragment_count : Z;
  cd_unique_bytes : Z;
  cd_final_payload_length : Z;
  cd_duplicate_fragments : Z;
  cd_overlap_bytes : Z
}.

Inductive PushOutcome : Type :=
| PushAccepted (o : FragmentOutcome)
| PushCompleted (fragment : FragmentOutcome) (datagram : CompletedDatagram).

Inductive IncompleteReason : Type := IdleExpired | EndOfCapture.

Record IncompleteDatagram : Type := mkIncomplete {
  id_key : DatagramKey;
  id_reason : IncompleteReason;
  id_fragment_count : Z;
  id_unique_bytes : Z;
  id_known_final_length : option Z;
  id_duplicate_fragments : Z;
  id_overlap_bytes : Z
}.

Definition IncompleteDatagram_family (d : IncompleteDatagram) : Family := DatagramKey_family (id_key d).

Record RetiredDatagrams : Type := mkRetired {
  outcomes : list IncompleteDatagram;
  omitted_ipv4 : Z;
  omitted_ipv6 : Z
}.

(** ** Errors *)

Inductive IpResource : Type :=
| DatagramLimit (limit : Z)
| FragmentLimit (limit : Z)
| DatagramByteLimit (limit : Z)
| AggregateMemoryLimit (limit : Z)
| IpAllocationFailed (requested : Z)
| IdleExpiryRange (expiry : Z).

Inductive IpMalformed : Type :=
| OffsetOutOfRange (offset : Z)
| OffsetOverflow
| EmptyPayload
| AtomicFragment
| UnalignedNonFinal (length : Z)
| InvalidIpv4Header (reason : string)
| InconsistentIpv4Header
| InvalidIpv6Prefix (reason : string)
| InconsistentEcn
| ConflictingFinalLength (existing new : Z)
| BeyondFinalLength (final_length : Z)
| NonFinalAtFinalLength (final_length : Z)
| ConflictingOverlap (count : Z)
| ReconstructedLength (family : Family).

Inductive IpError : Type :=
| IpErrResource (r : IpResource)
| IpErrMalformed (m : IpMalformed)
| Inconsistent (reason : string).

(** ** Limits ([limits.rs]) *)

Record IpLimits : Type := mkIpLimits {
  max_datagrams : Z;
  max_fragments_per_datagram : Z;
  max_bytes_per_datagram : Z;
  ip_max_aggregate_bytes : Z;
  max_retained_outcomes : Z;
  ip_idle_expiry : Z
}.

Definition IpLimits_default : IpLimits :=
  {| max_datagrams := 8192;
     max_fragments_per_datagram := 256;
     max_bytes_per_datagram := 65535;
     ip_max_aggregate_bytes := 64 * 1024 * 1024;
     max_retained_outcomes := 8192;
     ip_idle_expiry := 30 * 1000000000 |}.

Inductive IpField : Type :=
| IpMaxDatagrams | IpMaxFragmentsPerDatagram | IpMaxBytesPerDatagram
| IpMaxAggregateBytes | IpMaxRetainedOutcomes | IpIdleExpiry.

Definition IpField_name (f : IpField) : string :=
  match f with
  | IpMaxDatagrams => "max_datagrams"
  | IpMaxFragmentsPerDatagram => "max_fragments_per_datagram"
  | IpMaxBytesPerDatagram => "max_bytes_per_datagram"
  | IpMaxAggregateBytes => "max_aggregate_bytes"
  | IpMaxRetainedOutcomes => "max_retained_outcomes"
  | IpIdleExpiry => "idle_expiry"
  end.

Definition IpLimits_violation (clock : Z) (l : IpLimits) : option (IpField * Z * Constraint) :=
  (fun p => (IpIdleExpiry, p.1, p.2)) <$> expiry_violation clock (ip_idle_expiry l).

Inductive IpLimitError : Type :=
| IpInvalidLimit (field : string) (value : Z) (reason : Constraint).

Definition IpLimits_validate (clock : Z) (l : IpLimits) : outcome IpLimitError unit :=
  match IpLimits_violation clock l with
  | Some (field, value, reason) => Err (IpInvalidLimit (IpField_name field) value reason)
  | None => Ok tt
  end.

(** ** State ([ip.rs]) *)

Definition DATAGRAM_METADATA_CHARGE : Z := 4096.
Definition RANGE_METADATA_CHARGE : Z := 64.

(** A retained range: where it starts, its bytes in order, and the capacity of
    the [VecDeque] that stores them. *)
Record RetainedRange : Type := mkRange {
  rr_start : Z;
  rr_bytes : bytes;
  rr_capacity : Z
}.

Definition rr_end (r : RetainedRange) : option Z := checked_add usize_max (rr_start r) (zlen (rr_bytes r)).

Inductive Ecn : Type := NotEct | Ect1 | Ect0 | Ce.

#[export] Instance Ecn_eq_dec : EqDecision Ecn.
Proof. solve_decision. Defined.

Definition Ecn_from_bits (bits : Z) : Ecn :=
  let b := Z.land bits 3 in
  if b =? 0 then NotEct else if b =? 1 then Ect1 else if b =? 2 then Ect0 else Ce.

Definition Ecn_from_ipv4_tos (tos : Z) : Ecn := Ecn_from_bits (Z.land tos 3).

Definition Ecn_from_ipv6_traffic_class (traffic_class : Z) : Ecn :=
  Ecn_from_bits (Z.shiftr (Z.land traffic_class 48) 4).

Definition Ecn_ipv4_tos_bits (e : Ecn) : Z :=
  match e with NotEct => 0 | Ect1 => 1 | Ect0 => 2 | Ce => 3 end.

Definition Ecn_ipv6_traffic_class_bits (e : Ecn) : Z := Z.shiftl (Ecn_ipv4_tos_bits e) 4.

Definition Ecn_merge (a b : Ecn) : outcome IpMalformed Ecn :=
  if bool_decide (a = b) then Ok a else
  match a, b with
  | Ce, NotEct | NotEct, Ce => Err InconsistentEcn
  | Ce, _ | _, Ce => Ok Ce
  | NotEct, _ | _, NotEct => Ok NotEct
  | _, _ => Ok Ect0
  end.

Inductive Reconstruction : Type :=
| Reconstruct4 (first_header : option bytes) (ecn : Ecn)
| Reconstruct6 (prefix : bytes) (predecessor_next_header_offset next_header : Z) (ecn : Ecn)
    (from_offset_zero : bool).

Definition Reconstruction_ecn (r : Reconstruction) : Ecn :=
  match r with Reconstruct4 _ ecn => ecn | Reconstruct6 _ _ _ ecn _ => ecn end.

Record DatagramState : Type := mkDatagram {
  ranges : list RetainedRange;
  unique_bytes : Z;
  fragment_count : Z;
  duplicate_fragments : Z;
  overlap_bytes : Z;
  final_length : option Z;
  max_non_final_end : option Z;
  reconstruction : Reconstruction;
  dg_last_update : Z;
  dg_deadline : option Z;
  memory_charge : Z
}.

Record Retained : Type := mkRetained {
  rt_payload_bytes : Z;
  rt_memory_charge : Z;
  rt_datagram_slots : Z
}.

Definition Retained_release (r : Retained) (state : DatagramState) : outcome IpError Retained :=
  payload ← expect (checked_sub (rt_payload_bytes r) (unique_bytes state));
  charge ← expect (checked_sub (rt_memory_charge r) (memory_charge state));
  Ok (mkRetained payload charge (rt_datagram_slots r)).

Record IpReassembler : Type := mkIpReassembler {
  ip_limits : IpLimits;
  overlap_policy : OverlapPolicy;
  datagrams : gmap DatagramKey DatagramState;
  ip_expiry : ExpiryIndex DatagramKey;
  retained : Retained
}.

(** ** Allocation *)

(** The allocations one [push] makes; any may be refused. *)
Inductive ip_alloc_site : Type :=
| AllocCopy | AllocMerge | AllocRanges | AllocMap | AllocDatagram.

Definition ip_allocator : Type := ip_alloc_site -> Z -> bool.

Definition ip_isize_max : Z := 9223372036854775807.

Definition ip_try_reserve (alloc : ip_allocator) (site : ip_alloc_site) (n requested : Z)
  : outcome IpError unit :=
  if alloc site n && (n <=? ip_isize_max) then Ok tt
  else Err (IpErrResource (IpAllocationFailed requested)).
