(* ===== verification/IpValidate.v ===== *)
(** * IP reassembly: validation of a fragment

    [ip/engine/validation.rs]. *)

From stdpp Require Import base tactics option list numbers gmap strings.
From Stdlib Require Import ZArith Lia.
From S2P Require Import Prelude Checksum Ordered Flow Headers IpModel.

Definition IPV6_FRAGMENT_HEADER_LENGTH : Z := 8.
Definition MAX_WIRE_LENGTH : Z := 65535.

Definition FAMILY_MISMATCH : IpError :=
  Inconsistent "retained datagram family disagrees with its key".

Inductive IncomingReconstruction : Type :=
| Incoming4 (header : bytes)
| Incoming6 (prefix : bytes) (predecessor_next_header_offset next_header : Z).

Record Incoming : Type := mkIncoming {
  inc_key : DatagramKey;
  inc_offset : Z;
  inc_end : Z;
  inc_more_fragments : bool;
  inc_payload : bytes;
  inc_reconstruction : IncomingReconstruction;
  inc_ecn : Ecn
}.

Definition malformed {A} (m : IpMalformed) : outcome IpError A := Err (IpErrMalformed m).
Definition ip_resource {A} (r : IpResource) : outcome IpError A := Err (IpErrResource r).
Definition or_overflow {A} (o : option A) : outcome IpError A := ok_or (IpErrMalformed OffsetOverflow) o.

Definition validate_ipv4_header (f : Ipv4Fragment) : outcome IpError Ecn :=
  match first_chunk IPV4_MIN_LENGTH (f4_header f) with
  | None => malformed (InvalidIpv4Header "header is shorter than twenty bytes")
  | Some fixed =>
      if negb (Z.shiftr (at_ fixed 0) 4 =? 4)
      then malformed (InvalidIpv4Header "version is not four") else
      header_length ← or_overflow (checked_mul usize_max (Z.land (at_ fixed 0) 15) 4);
      if (header_length <? IPV4_MIN_LENGTH) || negb (header_length =? zlen (f4_header f))
      then malformed (InvalidIpv4Header "IHL does not match supplied header bytes") else
      let total_length := be16 fixed 2 in
      if negb (bool_decide (checked_add usize_max header_length (zlen (f4_payload f)) = Some total_length))
      then malformed (InvalidIpv4Header "total length does not match header and fragment payload") else
      let flags_offset := be16 fixed 6 in
      if negb (Z.land flags_offset 8191 =? f4_fragment_offset f)
         || negb (Bool.eqb (negb (Z.land flags_offset 8192 =? 0)) (f4_more_fragments f))
      then malformed (InvalidIpv4Header "wire fragmentation fields do not match the adapter metadata") else
      if negb (be16 fixed 4 =? k4_identification (f4_key f))
         || negb (at_ fixed 9 =? k4_protocol (f4_key f))
         || negb (from_be_bytes (zslice 12 16 fixed) =? k4_source (f4_key f))
         || negb (from_be_bytes (zslice 16 20 fixed) =? k4_destination (f4_key f))
      then malformed (InvalidIpv4Header "header identity does not match the datagram key") else
      Ok (Ecn_from_ipv4_tos (at_ fixed 1))
  end.

(** The [loop]: at most one iteration per eight prefix bytes before the ceiling
    stops it. *)
Fixpoint predecessor_loop (fuel : nat) (chain : Ipv6ExtensionChain) (predecessor length : Z)
  : outcome IpError (option Z) :=
  match fuel with
  | O => Panic
  | S fuel =>
      let '(protocol, offset) := chain_position chain in
      if protocol =? FRAGMENT
      then Ok (if offset =? length then Some predecessor else None)
      else match chain_next chain with
           | (None, _) => Ok None
           | (Some (Ok extension), chain') =>
               predecessor_loop fuel chain' (ext_range extension).1 length
           | (Some (Err _), _) => Ok None
           | (Some Panic, _) => Panic
           end
  end.

Definition ipv6_fragment_predecessor (prefix : bytes) : outcome IpError (option Z) :=
  match first_chunk IPV6_LENGTH prefix with
  | None => Ok None
  | Some base =>
      let chain := chain_with_ceiling (chain_new prefix IPV6_LENGTH (at_ base 6)) (zlen prefix / 8) in
      predecessor_loop (Z.to_nat (zlen prefix / 8) + 2) chain 6 (zlen prefix)
  end.

Definition validate_ipv6_prefix (f : Ipv6Fragment) : outcome IpError Ecn :=
  let prefix := f6_unfragmentable_prefix f in
  match first_chunk IPV6_LENGTH prefix with
  | None => malformed (InvalidIpv6Prefix "prefix is shorter than the IPv6 base header")
  | Some base =>
      if negb (Z.shiftr (at_ base 0) 4 =? 6)
      then malformed (InvalidIpv6Prefix "version is not six") else
      predecessor ← ipv6_fragment_predecessor prefix;
      if negb (bool_decide (predecessor = Some (f6_predecessor_next_header_offset f)))
      then malformed (InvalidIpv6Prefix "predecessor is not the final structurally valid Next Header field")
      else
      prefix_payload_length ← or_overflow
        (l ← checked_sub (zlen prefix) IPV6_LENGTH;
         l ← checked_add usize_max l IPV6_FRAGMENT_HEADER_LENGTH;
         checked_add usize_max l (zlen (f6_payload f)));
      let declared := be16 base 4 in
      if negb (prefix_payload_length =? declared)
      then malformed (InvalidIpv6Prefix "payload length does not match prefix, Fragment header, and payload")
      else
      let source := rest ← get_from prefix 8; from_be_bytes <$> first_chunk 16 rest in
      let destination := rest ← get_from prefix 24; from_be_bytes <$> first_chunk 16 rest in
      if negb (bool_decide (source = Some (k6_source (f6_key f))))
         || negb (bool_decide (destination = Some (k6_destination (f6_key f))))
      then malformed (InvalidIpv6Prefix "base-header identity does not match the datagram key")
      else Ok (Ecn_from_ipv6_traffic_class (at_ base 1))
  end.

Definition ipv4_dscp (header : bytes) : option Z := (fun tos => Z.land tos 252) <$> zget header 1.

Definition ipv4_preserved_flags (header : bytes) : option Z :=
  (fun b => Z.land (from_be_bytes b) 49152) <$> get_range header 6 8.

Definition ipv4_headers_match (first second : bytes) : bool :=
  (zlen first =? zlen second)
  && bool_decide (head first = head second)
  && bool_decide (ipv4_dscp first = ipv4_dscp second)
  && bool_decide (get_range first 4 6 = get_range second 4 6)
  && bool_decide (ipv4_preserved_flags first = ipv4_preserved_flags second)
  && bool_decide (get_range first 9 10 = get_range second 9 10)
  && bool_decide (get_from first 12 = get_from second 12).

Definition validate_reconstruction_consistency (existing : option DatagramState) (incoming : Incoming)
  : outcome IpError unit :=
  match existing with
  | None => Ok tt
  | Some existing =>
      match reconstruction existing, inc_reconstruction incoming with
      | Reconstruct4 first_header _, Incoming4 header =>
          if (inc_offset incoming =? 0)
             && match first_header with
                | Some established => negb (ipv4_headers_match established header)
                | None => false
                end
          then malformed InconsistentIpv4Header else Ok tt
      | Reconstruct6 _ _ _ _ _, Incoming6 _ _ _ => Ok tt
      | _, _ => Err FAMILY_MISMATCH
      end
  end.

(** [ranges.last().and_then(RetainedRange::end)]. *)
Definition retained_last_end (existing : option DatagramState) : option Z :=
  state ← existing; last_range ← last (ranges state); rr_end last_range.

Definition plan_final_length (existing : option DatagramState) (incoming : Incoming)
  : outcome IpError (option Z) :=
  let established := existing ≫= final_length in
  final ← (if inc_more_fragments incoming then Ok established
           else match established with
                | Some e => if negb (e =? inc_end incoming)
                            then malformed (ConflictingFinalLength e (inc_end incoming))
                            else Ok (Some (inc_end incoming))
                | None => Ok (Some (inc_end incoming))
                end);
  match final with
  | None => Ok None
  | Some f =>
      if match existing ≫= max_non_final_end with Some e => e =? f | None => false end
      then malformed (NonFinalAtFinalLength f) else
      if (f <? inc_end incoming)
         || match retained_last_end existing with Some e => f <? e | None => false end
      then malformed (BeyondFinalLength f) else
      if inc_more_fragments incoming && (f <=? inc_end incoming)
      then malformed (NonFinalAtFinalLength f) else Ok (Some f)
  end.

Definition validate_family_wire_extent (existing : option DatagramState) (incoming : Incoming)
  (final : option Z) : outcome IpError unit :=
  let retained_end := default 0 (retained_last_end existing) in
  let extent := default (Z.max (inc_end incoming) retained_end) final in
  reconstructed_prefix_length ←
    match inc_reconstruction incoming with
    | Incoming4 header =>
        if inc_offset incoming =? 0 then Ok (zlen header) else
        match existing with
        | Some state =>
            match reconstruction state with
            | Reconstruct4 first_header _ =>
                Ok (match first_header with Some h => zlen h | None => IPV4_MIN_LENGTH end)
            | Reconstruct6 _ _ _ _ _ => Err FAMILY_MISMATCH
            end
        | None => Ok IPV4_MIN_LENGTH
        end
    | Incoming6 prefix _ _ =>
        let retained :=
          match existing with
          | Some state =>
              match reconstruction state with
              | Reconstruct6 established _ _ _ from_offset_zero =>
                  if negb from_offset_zero && (inc_offset incoming =? 0)
                  then zlen prefix else zlen established
              | Reconstruct4 _ _ => zlen prefix
              end
          | None => zlen prefix
          end in
        or_overflow (checked_sub retained IPV6_LENGTH)
    end;
  if match checked_add usize_max reconstructed_prefix_length extent with
     | Some length => MAX_WIRE_LENGTH <? length
     | None => true
     end
  then malformed (ReconstructedLength (DatagramKey_family (inc_key incoming)))
  else Ok tt.

Definition accumulated_ecn (existing : option DatagramState) (incoming : Incoming)
  : outcome IpError Ecn :=
  match existing with
  | None => Ok (inc_ecn incoming)
  | Some state =>
      map_err IpErrMalformed (Ecn_merge (Reconstruction_ecn (reconstruction state)) (inc_ecn incoming))
  end.

Definition validate_fragment (fragment : Fragment) (limits : IpLimits) : outcome IpError Incoming :=
  let fragment_offset := match fragment with
                         | Fragment4 f => f4_fragment_offset f
                         | Fragment6 f => f6_fragment_offset f end in
  if 8191 <? fragment_offset then malformed (OffsetOutOfRange fragment_offset) else
  '(key, more_fragments, payload, reconstruction, ecn) ←
    match fragment with
    | Fragment4 f =>
        ecn ← validate_ipv4_header f;
        Ok (Key4 (f4_key f), f4_more_fragments f, f4_payload f, Incoming4 (f4_header f), ecn)
    | Fragment6 f =>
        ecn ← validate_ipv6_prefix f;
        Ok (Key6 (f6_key f), f6_more_fragments f, f6_payload f,
            Incoming6 (f6_unfragmentable_prefix f) (f6_predecessor_next_header_offset f)
              (f6_next_header f), ecn)
    end;
  if (fragment_offset =? 0) && negb more_fragments then malformed AtomicFragment else
  if is_empty payload then malformed EmptyPayload else
  if more_fragments && negb (zlen payload mod 8 =? 0) then malformed (UnalignedNonFinal (zlen payload)) else
  offset ← or_overflow (checked_mul usize_max fragment_offset 8);
  last ← or_overflow (checked_add usize_max offset (zlen payload));
  let incoming := mkIncoming key offset last more_fragments payload reconstruction ecn in
  _ ← validate_family_wire_extent None incoming
        (if negb (inc_more_fragments incoming) then Some (inc_end incoming) else None);
  if max_bytes_per_datagram limits <? inc_end incoming
  then ip_resource (DatagramByteLimit (max_bytes_per_datagram limits)) else
  Ok incoming.
