(* ===== verification/IpMerge.v ===== *)
(** * IP reassembly: merging a fragment

    [ip/engine/merge.rs]. *)

From stdpp Require Import base tactics option list numbers gmap strings.
From Stdlib Require Import ZArith Lia.
From S2P Require Import Prelude Checksum Ordered Flow Headers IpModel IpValidate.

Inductive UpdateKind : Type := KUnchanged | KAppend | KPrepend | KReplace.

#[export] Instance UpdateKind_eq_dec : EqDecision UpdateKind.
Proof. solve_decision. Defined.

Record MergePlan : Type := mkMergePlan {
  mp_first_affected : Z;
  mp_affected_count : Z;
  mp_union_start : Z;
  mp_union_end : Z;
  mp_added_bytes : Z;
  mp_conflicting_bytes : Z;
  mp_result_range_count : Z;
  mp_kind : UpdateKind
}.

Inductive RangeUpdate : Type :=
| UUnchanged
| UAppend
| UPrepend
| UReplace (r : RetainedRange).

(** The byte pairs that differ; [zip] stops at the shorter list. *)
Fixpoint count_different (a b : bytes) : Z :=
  match a, b with
  | x :: a', y :: b' => (if x =? y then 0 else 1) + count_different a' b'
  | _, _ => 0
  end.

Definition measure_overlap (r : RetainedRange) (retained_end : Z) (incoming : Incoming)
  : outcome IpError (Z * Z) :=
  let overlap_start := Z.max (rr_start r) (inc_offset incoming) in
  let overlap_end := Z.min retained_end (inc_end incoming) in
  length ← or_overflow (checked_sub overlap_end overlap_start);
  retained_start ← or_overflow (checked_sub overlap_start (rr_start r));
  incoming_start ← or_overflow (checked_sub overlap_start (inc_offset incoming));
  incoming_stop ← or_overflow (checked_add usize_max incoming_start length);
  incoming_overlap ← or_overflow (get_range (inc_payload incoming) incoming_start incoming_stop);
  Ok (length, count_different (ztake length (zdrop retained_start (rr_bytes r))) incoming_overlap).

(** The loop variables of [plan_merge]. *)
Record MergeScan : Type := mkScan {
  sc_first : Z;
  sc_count : Z;
  sc_start : Z;
  sc_end : Z;
  sc_overlapping : Z;
  sc_conflicting : Z
}.

Fixpoint scan_ranges (incoming : Incoming) (index : Z) (s : MergeScan) (l : list RetainedRange)
  : outcome IpError MergeScan :=
  match l with
  | [] => Ok s
  | r :: l' =>
      e ← or_overflow (rr_end r);
      if e <? inc_offset incoming then
        first ← or_overflow (checked_add usize_max index 1);
        scan_ranges incoming (index + 1)
          (mkScan first (sc_count s) (sc_start s) (sc_end s) (sc_overlapping s) (sc_conflicting s)) l'
      else
      let first := if sc_count s =? 0 then index else sc_first s in
      if inc_end incoming <? rr_start r then
        Ok (mkScan first (sc_count s) (sc_start s) (sc_end s) (sc_overlapping s) (sc_conflicting s))
      else
      count ← or_overflow (checked_add usize_max (sc_count s) 1);
      let us := Z.min (sc_start s) (rr_start r) in
      let ue := Z.max (sc_end s) e in
      '(overlapping, conflicting) ←
        (if Z.max (rr_start r) (inc_offset incoming) <? Z.min e (inc_end incoming) then
           '(o, c) ← measure_overlap r e incoming;
           o ← or_overflow (checked_add usize_max (sc_overlapping s) o);
           c ← or_overflow (checked_add usize_max (sc_conflicting s) c);
           Ok (o, c)
         else Ok (sc_overlapping s, sc_conflicting s));
      scan_ranges incoming (index + 1) (mkScan first count us ue overlapping conflicting) l'
  end.

Definition plan_merge (l : list RetainedRange) (incoming : Incoming) : outcome IpError MergePlan :=
  s ← scan_ranges incoming 0
        (mkScan (zlen l) 0 (inc_offset incoming) (inc_end incoming) 0 0) l;
  added ← or_overflow (checked_sub (zlen (inc_payload incoming)) (sc_overlapping s));
  count ← or_overflow (total ← checked_add usize_max (zlen l) 1; checked_sub total (sc_count s));
  let whole := (sc_count s =? 1) && (added =? zlen (inc_payload incoming)) in
  let kind :=
    if (added =? 0) && (sc_conflicting s =? 0) then KUnchanged
    else if whole && bool_decide ((zget l (sc_first s) ≫= rr_end) = Some (inc_offset incoming))
    then KAppend
    else if whole && bool_decide ((rr_start <$> zget l (sc_first s)) = Some (inc_end incoming))
    then KPrepend
    else KReplace in
  Ok (mkMergePlan (sc_first s) (sc_count s) (sc_start s) (sc_end s) added (sc_conflicting s) count kind).

Definition copy_into (target : bytes) (start : Z) (src : bytes) : outcome IpError bytes :=
  last ← or_overflow (checked_add usize_max start (zlen src));
  _ ← or_overflow (get_range target start last);
  Ok (overwrite target start src).

(** A deque is stored as its bytes in order; copying its two slices one after
    the other copies them at [relative]. *)
Fixpoint copy_ranges (target : bytes) (union_start : Z) (l : list RetainedRange) : outcome IpError bytes :=
  match l with
  | [] => Ok target
  | r :: l' =>
      relative ← or_overflow (checked_sub (rr_start r) union_start);
      target ← copy_into target relative (rr_bytes r);
      copy_ranges target union_start l'
  end.

Definition merge_affected (alloc : ip_allocator) (l : list RetainedRange) (incoming : Incoming)
  (plan : MergePlan) (policy : OverlapPolicy) (capacity : Z) : outcome IpError RetainedRange :=
  union_length ← or_overflow (checked_sub (mp_union_end plan) (mp_union_start plan));
  _ ← ip_try_reserve alloc AllocMerge capacity capacity;
  let target := ztake union_length (zrep capacity 0) in
  incoming_start ← or_overflow (checked_sub (inc_offset incoming) (mp_union_start plan));
  let incoming_last := bool_decide (policy = PolicyLast) in
  target ← (if negb incoming_last then copy_into target incoming_start (inc_payload incoming) else Ok target);
  target ← copy_ranges target (mp_union_start plan)
             (ztake (mp_affected_count plan) (zdrop (mp_first_affected plan) l));
  target ← (if incoming_last then copy_into target incoming_start (inc_payload incoming) else Ok target);
  Ok (mkRange (mp_union_start plan) target capacity).

(** [VecDeque::extend] and [push_front] reallocate only past the capacity. *)
Definition grown_capacity (capacity length : Z) : Z :=
  if length <=? capacity then capacity else Z.max (2 * capacity) length.

Definition apply_range_update (alloc : ip_allocator) (l : list RetainedRange) (update : RangeUpdate)
  (incoming : Incoming) (plan : MergePlan) : outcome IpError (list RetainedRange) :=
  match update with
  | UUnchanged => Ok l
  | UAppend =>
      r ← or_overflow (zget l (mp_first_affected plan));
      let data := rr_bytes r ++ inc_payload incoming in
      Ok (overwrite l (mp_first_affected plan)
            [mkRange (rr_start r) data (grown_capacity (rr_capacity r) (zlen data))])
  | UPrepend =>
      r ← or_overflow (zget l (mp_first_affected plan));
      let data := inc_payload incoming ++ rr_bytes r in
      Ok (overwrite l (mp_first_affected plan)
            [mkRange (inc_offset incoming) data (grown_capacity (rr_capacity r) (zlen data))])
  | UReplace merged =>
      replaced_end ← or_overflow (checked_add usize_max (mp_first_affected plan) (mp_affected_count plan));
      _ ← or_overflow (get_range l (mp_first_affected plan) replaced_end);
      _ ← (if mp_affected_count plan =? 0
           then ip_try_reserve alloc AllocRanges (zlen l + 1) RANGE_METADATA_CHARGE else Ok tt);
      Ok (ztake (mp_first_affected plan) l ++ [merged] ++ zdrop replaced_end l)
  end.
