(* ===== verification/IpReconstruct.v ===== *)
(** * IP reassembly: rebuilding the datagram

    [ip/engine/reconstruction.rs]. *)

From stdpp Require Import base tactics option list numbers gmap strings.
From Stdlib Require Import ZArith Lia.
From S2P Require Import Prelude Checksum Ordered Flow Headers IpModel IpValidate.

Definition MISSING_OFFSET_ZERO_HEADER : IpError :=
  Inconsistent "complete IPv4 payload has no offset-zero header".

Definition reconstructed_length (r : Reconstruction) (payload_length : Z) : outcome IpError Z :=
  prefix ← match r with
           | Reconstruct4 first_header _ => ok_or MISSING_OFFSET_ZERO_HEADER (zlen <$> first_header)
           | Reconstruct6 prefix _ _ _ _ => Ok (zlen prefix)
           end;
  or_overflow (checked_add usize_max prefix payload_length).

Inductive RetainedHeader : Type :=
| HeaderAbsent
| HeaderEstablished (r : Reconstruction)
| HeaderIncoming.

Definition RetainedHeader_len (h : RetainedHeader) (incoming : Incoming) : Z :=
  match h with
  | HeaderAbsent => 0
  | HeaderEstablished (Reconstruct4 first_header _) =>
      match first_header with Some h => zlen h | None => 0 end
  | HeaderEstablished (Reconstruct6 prefix _ _ _ _) => zlen prefix
  | HeaderIncoming =>
      match inc_reconstruction incoming with
      | Incoming4 header => zlen header
      | Incoming6 prefix _ _ => zlen prefix
      end
  end.

Definition retained_header (existing : option DatagramState) (incoming : Incoming)
  : outcome IpError RetainedHeader :=
  match existing with
  | None => Ok (match inc_reconstruction incoming with
                | Incoming4 _ => if negb (inc_offset incoming =? 0) then HeaderAbsent else HeaderIncoming
                | Incoming6 _ _ _ => HeaderIncoming
                end)
  | Some state =>
      provisional ← match reconstruction state, inc_reconstruction incoming with
                    | Reconstruct4 first_header _, Incoming4 _ => Ok (is_none first_header)
                    | Reconstruct6 _ _ _ _ from_offset_zero, Incoming6 _ _ _ => Ok (negb from_offset_zero)
                    | _, _ => Err FAMILY_MISMATCH
                    end;
      Ok (if provisional && (inc_offset incoming =? 0) then HeaderIncoming
          else HeaderEstablished (reconstruction state))
  end.

Definition reconstruction_retained_bytes (existing : option DatagramState) (incoming : Incoming)
  : outcome IpError Z :=
  h ← retained_header existing incoming; Ok (RetainedHeader_len h incoming).

Definition reconstruction_copied_bytes (existing : option DatagramState) (incoming : Incoming) : Z :=
  match retained_header existing incoming with
  | Ok HeaderIncoming => RetainedHeader_len HeaderIncoming incoming
  | _ => 0
  end.

Definition copy_bytes (alloc : ip_allocator) (source : bytes) : outcome IpError bytes :=
  _ ← ip_try_reserve alloc AllocCopy (zlen source) (zlen source); Ok source.

Definition materialize_reconstruction (alloc : ip_allocator) (existing : option DatagramState)
  (incoming : Incoming) (ecn : Ecn) : outcome IpError Reconstruction :=
  header ← retained_header existing incoming;
  match header, inc_reconstruction incoming with
  | HeaderEstablished (Reconstruct4 first_header _), _ => Ok (Reconstruct4 first_header ecn)
  | HeaderEstablished (Reconstruct6 prefix predecessor next_header _ zero), _ =>
      Ok (Reconstruct6 prefix predecessor next_header ecn zero)
  | HeaderAbsent, _ => Ok (Reconstruct4 None ecn)
  | HeaderIncoming, Incoming4 header =>
      header ← copy_bytes alloc header; Ok (Reconstruct4 (Some header) ecn)
  | HeaderIncoming, Incoming6 prefix predecessor next_header =>
      prefix ← copy_bytes alloc prefix;
      Ok (Reconstruct6 prefix predecessor next_header ecn (inc_offset incoming =? 0))
  end.

(** [try_fold] over the three parts. *)
Definition payload_length (parts : list bytes) : outcome IpError Z :=
  or_overflow (foldl (fun total part => t ← total; checked_add usize_max t (zlen part)) (Some 0) parts).

Definition u16_try_from (x : Z) : option Z := if (0 <=? x) && (x <=? u16_max) then Some x else None.

(** [get_mut(first..last)?.copy_from_slice(src)]. *)
Definition set_bytes (l : bytes) (first last : Z) (src : bytes) : outcome IpError bytes :=
  _ ← or_overflow (get_range l first last);
  if last - first =? zlen src then Ok (overwrite l first src) else Panic.

Definition reconstruct_ipv4 (alloc : ip_allocator) (first_header : option bytes) (ecn : Ecn)
  (parts : list bytes) : outcome IpError bytes :=
  header ← ok_or MISSING_OFFSET_ZERO_HEADER first_header;
  payload ← payload_length parts;
  total_length ← ok_or (IpErrMalformed (ReconstructedLength FamilyIpv4))
    (l ← checked_add usize_max (zlen header) payload; u16_try_from l);
  _ ← ip_try_reserve alloc AllocDatagram total_length total_length;
  let datagram := header ++ concat parts in
  datagram ← set_bytes datagram 2 4 (to_be_bytes16 total_length);
  tos ← or_overflow (zget datagram 1);
  datagram ← set_bytes datagram 1 2 [Z.lor (Z.land tos 252) (Ecn_ipv4_tos_bits ecn)];
  flags ← or_overflow (from_be_bytes <$> get_range datagram 6 8);
  datagram ← set_bytes datagram 6 8 (to_be_bytes16 (Z.land flags 49152));
  datagram ← set_bytes datagram 10 12 [0; 0];
  head ← or_overflow (get_range datagram 0 (zlen header));
  set_bytes datagram 10 12 (to_be_bytes16 (checksum_parts [head])).

Definition reconstruct_ipv6 (alloc : ip_allocator) (prefix : bytes)
  (predecessor_next_header_offset next_header : Z) (ecn : Ecn) (parts : list bytes)
  : outcome IpError bytes :=
  extension_length ← or_overflow (checked_sub (zlen prefix) IPV6_LENGTH);
  payload ← payload_length parts;
  wire_length ← ok_or (IpErrMalformed (ReconstructedLength FamilyIpv6))
    (l ← checked_add usize_max extension_length payload; u16_try_from l);
  requested ← or_overflow (checked_add usize_max (zlen prefix) payload);
  _ ← ip_try_reserve alloc AllocDatagram requested requested;
  let datagram := prefix ++ concat parts in
  datagram ← set_bytes datagram 4 6 (to_be_bytes16 wire_length);
  traffic_class ← or_overflow (zget datagram 1);
  datagram ← set_bytes datagram 1 2
    [Z.lor (Z.land traffic_class 207) (Ecn_ipv6_traffic_class_bits ecn)];
  set_bytes datagram predecessor_next_header_offset (predecessor_next_header_offset + 1) [next_header].

Definition reconstruct_bytes (alloc : ip_allocator) (r : Reconstruction) (parts : list bytes)
  : outcome IpError bytes :=
  match r with
  | Reconstruct4 first_header ecn => reconstruct_ipv4 alloc first_header ecn parts
  | Reconstruct6 prefix predecessor next_header ecn _ =>
      reconstruct_ipv6 alloc prefix predecessor next_header ecn parts
  end.
