(* ===== verification/IpEngine.v ===== *)
(** * IP reassembly: the engine

    [ip/engine.rs]. *)

From stdpp Require Import base tactics option list numbers gmap strings.
From Stdlib Require Import ZArith Lia.
From S2P Require Import Prelude Checksum Ordered Flow Headers IpModel IpValidate IpMerge IpReconstruct.

Definition INCOMPLETE_RECONSTRUCTION : IpError :=
  Inconsistent "reconstruction requested before the datagram completed".

Record Charges : Type := mkCharges {
  ch_unique_bytes : Z;
  ch_duplicate_fragments : Z;
  ch_overlap_bytes : Z;
  ch_new_slot_charge : Z;
  ch_prospective_charge : Z;
  ch_aggregate_memory_charge : Z;
  ch_replacement_peak_charge : Z;
  ch_aggregate_payload_bytes : Z;
  ch_last_update : Z;
  ch_deadline : option Z
}.

Record StoragePlan : Type := mkStorage {
  st_retained_payload : Z;
  st_allocation : Z
}.

Definition contains_datagram (r : IpReassembler) (key : DatagramKey) : bool :=
  is_some (datagrams r !! key).

Definition aggregate_limit (r : IpReassembler) : IpError :=
  IpErrResource (AggregateMemoryLimit (ip_max_aggregate_bytes (ip_limits r))).

Definition replacement_allocation_charge (r : IpReassembler) (merge : MergePlan) (storage : StoragePlan)
  (reconstruction new_slot_charge : Z) : outcome IpError Z :=
  range_metadata ← ok_or (aggregate_limit r)
    (checked_mul usize_max (mp_result_range_count merge) RANGE_METADATA_CHARGE);
  ok_or (aggregate_limit r)
    (c ← checked_add usize_max range_metadata (st_allocation storage);
     c ← checked_add usize_max c reconstruction;
     checked_add usize_max c new_slot_charge).

(** The [try_fold] summing capacities. *)
Definition total_capacity (l : list RetainedRange) : option Z :=
  foldl (fun total r => t ← total; checked_add usize_max t (rr_capacity r)) (Some 0) l.

Definition is_extension (kind : UpdateKind) : bool :=
  match kind with KAppend | KPrepend => true | _ => false end.

Definition storage_plan (r : IpReassembler) (l : list RetainedRange) (merge : MergePlan) (capacity : Z)
  : outcome IpError StoragePlan :=
  retained ← ok_or (aggregate_limit r) (total_capacity l);
  if bool_decide (mp_kind merge = KUnchanged) then Ok (mkStorage retained 0) else
  last ← add_u (mp_first_affected merge) (mp_affected_count merge);
  slice ← index_range l (mp_first_affected merge) last;
  affected ← ok_or (aggregate_limit r) (total_capacity slice);
  required ← sub_u (mp_union_end merge) (mp_union_start merge);
  if is_extension (mp_kind merge) && (required <=? affected) then Ok (mkStorage retained 0) else
  let allocation := Z.max capacity required in
  retained_payload ← ok_or (aggregate_limit r)
    (t ← checked_sub retained affected; checked_add usize_max t allocation);
  Ok (mkStorage retained_payload allocation).

(** [checked(..).filter(|v| *v <= limit)]. *)
Definition at_most (limit : Z) (o : option Z) : option Z :=
  v ← o; if v <=? limit then Some v else None.

(** The final fragment has arrived and nothing is missing. *)
Definition merge_completes (merge : MergePlan) (final : option Z) : bool :=
  match final with
  | Some length => (mp_result_range_count merge =? 1) && (mp_union_start merge =? 0)
                   && (mp_union_end merge =? length)
  | None => false
  end.

Definition admit_charges (r : IpReassembler) (existing : option DatagramState) (incoming : Incoming)
  (merge : MergePlan) (storage : StoragePlan) (now external_charge : Z) : outcome IpError Charges :=
  let limits := ip_limits r in
  let max := ip_max_aggregate_bytes limits in
  let limit_error := aggregate_limit r in
  let old_unique_bytes := from_option unique_bytes 0 existing in
  let new_slot_charge :=
    if is_none existing && (rt_datagram_slots (retained r) <=? Z.of_nat (size (datagrams r)))
    then DATAGRAM_METADATA_CHARGE else 0 in
  unique ← ok_or (IpErrResource (DatagramByteLimit (max_bytes_per_datagram limits)))
    (at_most (max_bytes_per_datagram limits)
       (checked_add usize_max old_unique_bytes (mp_added_bytes merge)));
  reconstruction_bytes ← reconstruction_retained_bytes existing incoming;
  let reconstruction_allocation := reconstruction_copied_bytes existing incoming in
  let last_update := from_option (fun s => Z.max (dg_last_update s) now) now existing in
  deadline ← ok_or (IpErrResource (IdleExpiryRange (ip_idle_expiry limits)))
    (instant_checked_add last_update (ip_idle_expiry limits));
  duplicates ← ok_or limit_error
    (checked_add usize_max (from_option duplicate_fragments 0 existing)
       (from_bool (bool_decide (mp_kind merge = KUnchanged))));
  overlaps ← ok_or limit_error
    (checked_add usize_max (from_option overlap_bytes 0 existing) (mp_conflicting_bytes merge));
  prospective ← ok_or limit_error
    (c ← checked_mul usize_max (mp_result_range_count merge) RANGE_METADATA_CHARGE;
     c ← checked_add usize_max c (st_retained_payload storage);
     checked_add usize_max c reconstruction_bytes);
  let old_charge := from_option memory_charge 0 existing in
  aggregate_memory ← ok_or limit_error
    (c ← checked_sub (rt_memory_charge (retained r)) old_charge;
     c ← checked_add usize_max c prospective;
     c ← checked_add usize_max c new_slot_charge;
     match checked_add usize_max c external_charge with
     | Some total => if total <=? max then Some c else None
     | None => None
     end);
  replacement_allocation ← replacement_allocation_charge r merge storage
    reconstruction_allocation new_slot_charge;
  peak ← ok_or limit_error
    (at_most max (c ← checked_add usize_max (rt_memory_charge (retained r)) replacement_allocation;
                  checked_add usize_max c external_charge));
  final ← plan_final_length existing incoming;
  _ ← (if merge_completes merge final then
         ok_or limit_error
           (at_most max (c ← checked_add usize_max peak reconstruction_bytes;
                         checked_add usize_max c (mp_union_end merge)))
       else Ok 0);
  payload ← ok_or limit_error
    (at_most max (b ← checked_sub (rt_payload_bytes (retained r)) old_unique_bytes;
                  checked_add usize_max b unique));
  Ok {| ch_unique_bytes := unique;
        ch_duplicate_fragments := duplicates;
        ch_overlap_bytes := overlaps;
        ch_new_slot_charge := new_slot_charge;
        ch_prospective_charge := prospective;
        ch_aggregate_memory_charge := aggregate_memory;
        ch_replacement_peak_charge := peak;
        ch_aggregate_payload_bytes := payload;
        ch_last_update := last_update;
        ch_deadline := Some deadline |}.

Definition ip_reassembler_new (clock : Z) (l : IpLimits) (policy : OverlapPolicy)
  : outcome IpLimitError IpReassembler :=
  _ ← IpLimits_validate clock l;
  Ok (mkIpReassembler l policy ∅ expiry_default (mkRetained 0 0 0)).

Definition is_aggregate_limit (e : IpError) : bool :=
  match e with IpErrResource (AggregateMemoryLimit _) => true | _ => false end.

(** The [while lower < upper] search for the largest capacity admitted.  Each
    step halves [upper - lower], so 65 steps exhaust a 64-bit range. *)
Fixpoint capacity_search (fuel : nat) (plan : Z -> outcome IpError StoragePlan)
  (charges_for : StoragePlan -> outcome IpError Charges) (lower upper : Z)
  (storage : StoragePlan) (accepted : Charges) : outcome IpError (StoragePlan * Charges) :=
  match fuel with
  | O => Panic
  | S fuel =>
      if negb (lower <? upper) then Ok (storage, accepted) else
      let candidate := lower + div_ceil (upper - lower) 2 in
      candidate_storage ← plan candidate;
      match charges_for candidate_storage with
      | Ok candidate_charges =>
          capacity_search fuel plan charges_for candidate upper candidate_storage candidate_charges
      | Err e => if is_aggregate_limit e
                 then capacity_search fuel plan charges_for lower (candidate - 1) storage accepted
                 else Err e
      | Panic => Panic
      end
  end.

(** The storage to allocate and its charges: the preferred capacity if it is
    admitted, else the largest that is. *)
Definition choose_storage (plan : Z -> outcome IpError StoragePlan)
  (charges_for : StoragePlan -> outcome IpError Charges) (required preferred : Z)
  : outcome IpError (StoragePlan * Charges) :=
  storage ← plan preferred;
  match charges_for storage with
  | Ok charges => Ok (storage, charges)
  | Panic => Panic
  | Err e =>
      if is_aggregate_limit e && (required <? preferred) then
        storage ← plan required;
        accepted ← charges_for storage;
        upper ← sub_u preferred 1;
        capacity_search 66 plan charges_for required upper storage accepted
      else Err e
  end.

Definition ip_push_with_external_charge (alloc : ip_allocator) (r : IpReassembler) (fragment : Fragment)
  (now external_charge : Z) : outcome IpError (IpReassembler * PushOutcome) :=
  let limits := ip_limits r in
  incoming ← validate_fragment fragment limits;
  let key := inc_key incoming in
  let existing := datagrams r !! key in
  if is_none existing && (max_datagrams limits <=? Z.of_nat (size (datagrams r)))
  then ip_resource (DatagramLimit (max_datagrams limits)) else
  count ← ok_or (IpErrResource (FragmentLimit (max_fragments_per_datagram limits)))
    (at_most (max_fragments_per_datagram limits)
       (checked_add usize_max (from_option fragment_count 0 existing) 1));
  _ ← validate_reconstruction_consistency existing incoming;
  ecn ← accumulated_ecn existing incoming;
  final ← plan_final_length existing incoming;
  _ ← validate_family_wire_extent existing incoming final;
  let l := from_option ranges [] existing in
  merge ← plan_merge l incoming;
  if negb (mp_conflicting_bytes merge =? 0) && bool_decide (overlap_policy r = PolicyReject)
  then malformed (ConflictingOverlap (mp_conflicting_bytes merge)) else
  required ← sub_u (mp_union_end merge) (mp_union_start merge);
  preferred ← (if is_extension (mp_kind merge) then
                 first ← expect (zget l (mp_first_affected merge));
                 Ok (Z.min (Z.max (saturating_mul usize_max (rr_capacity first) 2) required)
                       (max_bytes_per_datagram limits))
               else Ok required);
  '(storage, charges) ←
    choose_storage (storage_plan r l merge)
      (fun storage => admit_charges r existing incoming merge storage now external_charge)
      required preferred;
  reconstruction ← materialize_reconstruction alloc existing incoming ecn;
  '(update, storage, charges) ←
    (if negb (st_allocation storage =? 0) then
       range ← merge_affected alloc l incoming merge (overlap_policy r) (st_allocation storage);
       '(storage, charges) ←
         (if negb (rr_capacity range =? st_allocation storage) then
            storage ← storage_plan r l merge (rr_capacity range);
            charges ← admit_charges r existing incoming merge storage now external_charge;
            Ok (storage, charges)
          else Ok (storage, charges));
       Ok (UReplace range, storage, charges)
     else match mp_kind merge with
          | KUnchanged => Ok (UUnchanged, storage, charges)
          | KAppend => Ok (UAppend, storage, charges)
          | KPrepend => Ok (UPrepend, storage, charges)
          | KReplace => Err INCOMPLETE_RECONSTRUCTION
          end);
  let max_non_final :=
    if inc_more_fragments incoming
    then Some (match existing ≫= max_non_final_end with
               | Some e => Z.max e (inc_end incoming) | None => inc_end incoming end)
    else existing ≫= max_non_final_end in
  let disposition :=
    if bool_decide (mp_kind merge = KUnchanged) then Duplicate (zlen (inc_payload incoming))
    else if negb (mp_conflicting_bytes merge =? 0)
    then OverlapResolved (overlap_policy r) (mp_conflicting_bytes merge) (mp_added_bytes merge)
    else Accepted (mp_added_bytes merge) in
  let fragment_outcome := mkFragmentOutcome key disposition count (ch_unique_bytes charges) final in
  let previous_deadline := existing ≫= dg_deadline in
  if merge_completes merge final then
    let final_len := mp_union_end merge in
    datagram_charge ← reconstructed_length reconstruction final_len;
    _ ← ok_or (aggregate_limit r)
          (at_most (ip_max_aggregate_bytes limits)
             (checked_add usize_max (ch_replacement_peak_charge charges) datagram_charge));
    let first := rr_bytes <$> head l in
    parts ← match update with
            | UUnchanged => data ← ok_or INCOMPLETE_RECONSTRUCTION first; Ok [data; []; []]
            | UAppend => data ← ok_or INCOMPLETE_RECONSTRUCTION first;
                         Ok [data; []; inc_payload incoming]
            | UPrepend => data ← ok_or INCOMPLETE_RECONSTRUCTION first;
                          Ok [inc_payload incoming; data; []]
            | UReplace range => Ok [rr_bytes range; []; []]
            end;
    data ← reconstruct_bytes alloc reconstruction parts;
    let datagram := mkCompleted key data count (ch_unique_bytes charges) final_len
                      (ch_duplicate_fragments charges) (ch_overlap_bytes charges) in
    retained ← match existing with
               | Some state => Retained_release (retained r) state
               | None => Ok (retained r)
               end;
    Ok (mkIpReassembler limits (overlap_policy r) (delete key (datagrams r))
          (expiry_remove previous_deadline key (ip_expiry r)) retained,
        PushCompleted fragment_outcome datagram)
  else
    _ ← (if is_none existing
         then ip_try_reserve alloc AllocMap 1 (ch_prospective_charge charges) else Ok tt);
    new_ranges ← apply_range_update alloc l update incoming merge;
    let new_state :=
      mkDatagram new_ranges (ch_unique_bytes charges) count (ch_duplicate_fragments charges)
        (ch_overlap_bytes charges) final max_non_final reconstruction (ch_last_update charges)
        (ch_deadline charges) (ch_prospective_charge charges) in
    let expiry :=
      if bool_decide (previous_deadline = ch_deadline charges) then ip_expiry r
      else expiry_insert (ch_deadline charges) key (expiry_remove previous_deadline key (ip_expiry r)) in
    let slots := if negb (ch_new_slot_charge charges =? 0)
                 then saturating_add usize_max (rt_datagram_slots (retained r)) 1
                 else rt_datagram_slots (retained r) in
    Ok (mkIpReassembler limits (overlap_policy r) (<[key := new_state]> (datagrams r)) expiry
          (mkRetained (ch_aggregate_payload_bytes charges) (ch_aggregate_memory_charge charges) slots),
        PushAccepted fragment_outcome).

Definition ip_push (alloc : ip_allocator) (r : IpReassembler) (fragment : Fragment) (now : Z)
  : outcome IpError (IpReassembler * PushOutcome) :=
  ip_push_with_external_charge alloc r fragment now 0.

(** ** Retiring datagrams *)

Definition retired_default : RetiredDatagrams := mkRetired [] 0 0.

Definition retired_omit (t : RetiredDatagrams) (family : Family) : RetiredDatagrams :=
  match family with
  | FamilyIpv4 => mkRetired (outcomes t) (saturating_add u64_max (omitted_ipv4 t) 1) (omitted_ipv6 t)
  | FamilyIpv6 => mkRetired (outcomes t) (omitted_ipv4 t) (saturating_add u64_max (omitted_ipv6 t) 1)
  end.

Definition retired_push (t : RetiredDatagrams) (outcome : IncompleteDatagram) (limit : Z)
  : RetiredDatagrams :=
  if zlen (outcomes t) <? limit
  then mkRetired (outcomes t ++ [outcome]) (omitted_ipv4 t) (omitted_ipv6 t)
  else retired_omit t (IncompleteDatagram_family outcome).

Definition incomplete_datagram (key : DatagramKey) (state : DatagramState) (reason : IncompleteReason)
  : IncompleteDatagram :=
  mkIncomplete key reason (fragment_count state) (unique_bytes state) (final_length state)
    (duplicate_fragments state) (overlap_bytes state).

(** The closure [drain_expired] calls, over the expired keys in order. *)
Fixpoint retire_expired (limit : Z) (m : gmap DatagramKey DatagramState) (rt : Retained)
  (t : RetiredDatagrams) (keys : list DatagramKey)
  : outcome IpError (gmap DatagramKey DatagramState * Retained * RetiredDatagrams) :=
  match keys with
  | [] => Ok (m, rt, t)
  | key :: keys' =>
      match m !! key with
      | None => retire_expired limit m rt t keys'
      | Some state =>
          rt' ← Retained_release rt state;
          retire_expired limit (delete key m) rt'
            (retired_push t (incomplete_datagram key state IdleExpired) limit) keys'
      end
  end.

Definition ip_expire (r : IpReassembler) (now : Z) : outcome IpError (IpReassembler * RetiredDatagrams) :=
  let '(keys, entries) := drain_expired now (ip_expiry r) in
  '(m, rt, t) ← retire_expired (max_retained_outcomes (ip_limits r)) (datagrams r) (retained r)
                  retired_default keys;
  Ok (mkIpReassembler (ip_limits r) (overlap_policy r) m entries rt, t).

(** [BinaryHeap]: kept in ascending order, so the greatest is last. *)
Fixpoint heap_push (k : DatagramKey) (heap : list DatagramKey) : list DatagramKey :=
  match heap with
  | [] => [k]
  | k' :: heap' => match cmp k k' with Gt => k' :: heap_push k heap' | _ => k :: heap end
  end.

Definition heap_peek (heap : list DatagramKey) : option DatagramKey := last heap.
Definition heap_pop (heap : list DatagramKey) : list DatagramKey := removelast heap.

Definition keep_smallest (limit : Z) (heap : list DatagramKey) (key : DatagramKey) : list DatagramKey :=
  if zlen heap <? limit then heap_push key heap
  else match heap_peek heap with
       | Some largest => match cmp key largest with
                         | Lt => heap_push key (heap_pop heap)
                         | _ => heap
                         end
       | None => heap
       end.

Fixpoint retire_kept (m : gmap DatagramKey DatagramState) (rt : Retained) (t : RetiredDatagrams)
  (keys : list DatagramKey)
  : outcome IpError (gmap DatagramKey DatagramState * Retained * RetiredDatagrams) :=
  match keys with
  | [] => Ok (m, rt, t)
  | key :: keys' =>
      match m !! key with
      | None => retire_kept m rt t keys'
      | Some state =>
          rt' ← Retained_release rt state;
          retire_kept (delete key m) rt'
            (mkRetired (outcomes t ++ [incomplete_datagram key state EndOfCapture])
               (omitted_ipv4 t) (omitted_ipv6 t)) keys'
      end
  end.

Fixpoint drain_rest (rt : Retained) (t : RetiredDatagrams) (l : list (DatagramKey * DatagramState))
  : outcome IpError (Retained * RetiredDatagrams) :=
  match l with
  | [] => Ok (rt, t)
  | (key, state) :: l' =>
      rt' ← Retained_release rt state;
      drain_rest rt' (retired_omit t (DatagramKey_family key)) l'
  end.

(** [order] is the order in which [HashMap::keys] visits the keys, and
    [drain_order] the order of the final [drain]; both are unspecified. *)
Definition ip_flush (order : list DatagramKey)
  (drain_order : gmap DatagramKey DatagramState -> list (DatagramKey * DatagramState))
  (r : IpReassembler) : outcome IpError (IpReassembler * RetiredDatagrams) :=
  let retain_limit := Z.min (max_retained_outcomes (ip_limits r)) (Z.of_nat (size (datagrams r))) in
  let smallest := foldl (keep_smallest retain_limit) [] order in
  '(m, rt, t) ← retire_kept (datagrams r) (retained r) retired_default smallest;
  '(rt, t) ← drain_rest rt t (drain_order m);
  Ok (mkIpReassembler (ip_limits r) (overlap_policy r) ∅ expiry_default rt, t).

Definition datagram_count (r : IpReassembler) : Z := Z.of_nat (size (datagrams r)).
Definition aggregate_payload_bytes (r : IpReassembler) : Z := rt_payload_bytes (retained r).
Definition ip_aggregate_memory_charge (r : IpReassembler) : Z := rt_memory_charge (retained r).
