(* ===== verification/IpRanges.v ===== *)
(** * IP reassembly: retained ranges as a partial map from offsets to bytes

    The ranges of a datagram are sorted, disjoint and not adjacent.  [rview]
    reads them as a map from payload offsets to bytes, [tally] counts offsets of
    a fragment, and [scan_ranges] and [plan_merge] are specified on both. *)

From stdpp Require Import base tactics option list numbers gmap strings.
From Stdlib Require Import ZArith Lia.
From S2P Require Import Prelude Checksum Ordered Flow Headers IpModel IpValidate IpMerge.

(** ** Sorted ranges *)

Definition rr_last (r : RetainedRange) : Z := rr_start r + zlen (rr_bytes r).

(** Every range starts strictly above the end of the one before it; none is
    empty, and each fits its allocation. *)
Fixpoint ranges_wf (lo : Z) (l : list RetainedRange) : Prop :=
  match l with
  | [] => True
  | r :: l' => lo < rr_start r /\ 0 < zlen (rr_bytes r) <= rr_capacity r /\
               rr_last r <= MAX_WIRE_LENGTH /\ ranges_wf (rr_last r) l'
  end.

(** The bytes held, and the storage they occupy. *)
Fixpoint held (l : list RetainedRange) : Z :=
  match l with [] => 0 | r :: l' => zlen (rr_bytes r) + held l' end.
Fixpoint stored (l : list RetainedRange) : Z :=
  match l with [] => 0 | r :: l' => rr_capacity r + stored l' end.

(** Where the last range ends. *)
Fixpoint ranges_end (lo : Z) (l : list RetainedRange) : Z :=
  match l with [] => lo | r :: l' => ranges_end (rr_last r) l' end.

(** The byte at a payload offset. *)
Fixpoint rview (l : list RetainedRange) (i : Z) : option Z :=
  match l with
  | [] => None
  | r :: l' => if (rr_start r <=? i) && (i <? rr_last r) then zget (rr_bytes r) (i - rr_start r)
               else rview l' i
  end.

Definition inc_view (inc : Incoming) (i : Z) : option Z := zget (inc_payload inc) (i - inc_offset inc).

(** [Option::or]. *)
Definition orelse {A} (a b : option A) : option A := match a with Some _ => a | None => b end.

(** The fragments validation lets through. *)
Definition span_ok (inc : Incoming) : Prop :=
  0 <= inc_offset inc /\ inc_end inc = inc_offset inc + zlen (inc_payload inc) /\
  0 < zlen (inc_payload inc) /\ inc_end inc <= MAX_WIRE_LENGTH.

Lemma ranges_held_app l k : held (l ++ k) = held l + held k.
Proof. induction l; cbn; lia. Qed.

Lemma stored_app l k : stored (l ++ k) = stored l + stored k.
Proof. induction l; cbn; lia. Qed.

Lemma held_nonneg l : 0 <= held l.
Proof. induction l as [|r l IH]; cbn; [lia|]. pose proof (zlen_nonneg (rr_bytes r)). lia. Qed.

Lemma ranges_wf_weaken lo lo' l : lo' <= lo -> ranges_wf lo l -> ranges_wf lo' l.
Proof. destruct l; cbn; [done|]. intros ? (? & ?). split; [lia|done]. Qed.

Lemma ranges_wf_app lo l k : ranges_wf lo (l ++ k) <-> ranges_wf lo l /\ ranges_wf (ranges_end lo l) k.
Proof. revert lo. induction l as [|r l IH]; intros lo; cbn; [naive_solver|]. rewrite IH. naive_solver. Qed.

Lemma ranges_end_app lo l k : ranges_end lo (l ++ k) = ranges_end (ranges_end lo l) k.
Proof. revert lo. induction l; cbn; auto. Qed.

Lemma ranges_wf_end lo l : ranges_wf lo l -> lo <= ranges_end lo l.
Proof.
  revert lo. induction l as [|r l IH]; intros lo H; cbn; [lia|]. cbn in H.
  destruct H as (? & ? & ? & H). specialize (IH _ H). unfold rr_last in *. lia.
Qed.

Lemma ranges_wf_le_max lo l :
  lo <= MAX_WIRE_LENGTH -> ranges_wf lo l -> ranges_end lo l <= MAX_WIRE_LENGTH.
Proof. revert lo. induction l as [|r l IH]; intros lo ? H; cbn in *; naive_solver. Qed.

(** Sorted ranges leave at least one offset free between neighbours. *)
Lemma held_le_span lo l : ranges_wf lo l -> held l + zlen l <= ranges_end lo l - lo.
Proof.
  revert lo. induction l as [|r l IH]; intros lo H; cbn; [change (zlen (@nil RetainedRange)) with 0; lia|]. cbn in H.
  destruct H as (? & ? & ? & H). specialize (IH _ H). rewrite zlen_cons. unfold rr_last in *. lia.
Qed.

Lemma ranges_wf_in lo l r :
  ranges_wf lo l -> r ∈ l ->
  lo < rr_start r /\ 0 < zlen (rr_bytes r) <= rr_capacity r /\ rr_last r <= ranges_end lo l /\
  rr_last r <= MAX_WIRE_LENGTH.
Proof.
  revert lo. induction l as [|r' l IH]; intros lo H; [set_solver|]. cbn in H. destruct H as (? & ? & ? & H).
  intros [->|Hin]%elem_of_cons; cbn.
  - split_and!; try done; try lia. by apply ranges_wf_end.
  - destruct (IH _ H Hin) as (? & ? & ? & ?). unfold rr_last in *. split_and!; try done; lia.
Qed.

(** ** The view *)

Lemma rview_below lo l i : ranges_wf lo l -> i <= lo -> rview l i = None.
Proof.
  revert lo. induction l as [|r l IH]; intros lo H Hi; [done|]. cbn in *. destruct H as (? & ? & ? & H).
  rewrite (proj2 (Z.leb_gt _ _)) by lia. cbn. eapply IH; [exact H|]. unfold rr_last. lia.
Qed.

Lemma rview_app lo l k i :
  ranges_wf lo (l ++ k) -> rview (l ++ k) i = if i <? ranges_end lo l then rview l i else rview k i.
Proof.
  revert lo. induction l as [|r l IH]; intros lo H; cbn.
  - cbn in H. destruct (Z.ltb_spec i lo); [|done]. eapply rview_below; [exact H|lia].
  - cbn in H. destruct H as (? & Hl & ? & H). pose proof (ranges_wf_end (rr_last r) l) as He.
    pose proof (proj1 (proj1 (ranges_wf_app _ _ _) H)) as Hw. specialize (He Hw).
    rewrite (IH _ H). destruct (Z.leb_spec (rr_start r) i), (Z.ltb_spec i (rr_last r)); cbn; try done.
    rewrite (proj2 (Z.ltb_lt _ _)) by lia. done.
Qed.

Lemma rview_end lo l i b : ranges_wf lo l -> rview l i = Some b -> lo < i < ranges_end lo l.
Proof.
  revert lo. induction l as [|r l IH]; intros lo H; [done|]. cbn in *. destruct H as (? & ? & ? & H).
  pose proof (ranges_wf_end _ _ H). destruct (Z.leb_spec (rr_start r) i), (Z.ltb_spec i (rr_last r)); cbn;
    intros Hv; try (specialize (IH _ H Hv)); unfold rr_last in *; lia.
Qed.

(** An offset inside a range is in the view. *)
Lemma rview_covered lo l i :
  ranges_wf lo l -> (exists r, r ∈ l /\ rr_start r <= i < rr_last r) -> is_Some (rview l i).
Proof.
  revert lo. induction l as [|r l IH]; intros lo H (r' & Hin & Hi); [set_solver|]. cbn in *.
  destruct H as (? & ? & ? & H).
  destruct (Z.leb_spec (rr_start r) i), (Z.ltb_spec i (rr_last r)); cbn;
    try (apply (IH _ H); exists r'; split; [|done]; apply elem_of_cons in Hin as [->|]; [lia|done]).
  apply zget_lt_is_Some. unfold rr_last in *. lia.
Qed.

Lemma inc_view_spec inc i : span_ok inc -> is_Some (inc_view inc i) <-> inc_offset inc <= i < inc_end inc.
Proof.
  intros (? & He & ? & ?). unfold inc_view. split.
  - intros [b Hb]. apply zget_Some_lt in Hb. lia.
  - intros. apply zget_lt_is_Some. lia.
Qed.

Lemma inc_view_None inc i : span_ok inc -> ~ inc_offset inc <= i < inc_end inc -> inc_view inc i = None.
Proof. intros Hs Hn. rewrite eq_None_not_Some, inc_view_spec by done. done. Qed.

(** ** Counting the offsets of a fragment *)

Fixpoint tally (P : Z -> Z -> bool) (off : Z) (p : bytes) : Z :=
  match p with [] => 0 | b :: p' => from_bool (P off b) + tally P (off + 1) p' end.

(** The offset already has a byte; it has a different one. *)
Definition present (f : Z -> option Z) (i _b : Z) : bool := is_some (f i).
Definition differs (f : Z -> option Z) (i b : Z) : bool :=
  match f i with Some x => negb (x =? b) | None => false end.

Lemma tally_range P off p : 0 <= tally P off p <= zlen p.
Proof.
  revert off. induction p as [|b p IH]; intros off; cbn; [change (zlen (@nil Z)) with 0; lia|].
  specialize (IH (off + 1)). rewrite zlen_cons. destruct (P off b); cbn; lia.
Qed.

Lemma tally_app P off p q : tally P off (p ++ q) = tally P off p + tally P (off + zlen p) q.
Proof.
  revert off. induction p as [|b p IH]; intros off; cbn; [by rewrite Z.add_0_r|].
  rewrite IH, zlen_cons. replace (off + 1 + zlen p) with (off + (1 + zlen p)) by lia. lia.
Qed.

Lemma zget_cons {A} (x : A) l i : zget (x :: l) i = if i =? 0 then Some x else zget l (i - 1).
Proof.
  change (x :: l) with ([x] ++ l). rewrite zget_app. change (zlen [x]) with 1.
  destruct (Z.ltb_spec i 1), (Z.eqb_spec i 0); try lia; [by subst|by rewrite !zget_neg by lia|done].
Qed.

Lemma get_range_ok {A} (l : list A) a b :
  0 <= a -> a <= b -> b <= zlen l -> get_range l a b = Some (zslice a b l).
Proof. intros. by apply get_range_Some. Qed.

Lemma tally_sum P Q R off p :
  (forall i b, zget p (i - off) = Some b ->
     from_bool (P i b) = from_bool (Q i b) + from_bool (R i b)) ->
  tally P off p = tally Q off p + tally R off p.
Proof.
  revert off. induction p as [|b p IH]; intros off H; cbn; [done|].
  rewrite (H off b), (IH (off + 1)).
  - lia.
  - intros i b' Hb. apply H. rewrite zget_cons. pose proof (zget_Some_lt _ _ _ Hb).
    rewrite (proj2 (Z.eqb_neq _ _)) by lia. by replace (i - off - 1) with (i - (off + 1)) by lia.
  - by rewrite zget_cons, Z.sub_diag.
Qed.

Lemma tally_none P off p :
  (forall i b, zget p (i - off) = Some b -> P i b = false) -> tally P off p = 0.
Proof.
  intros H. enough (tally P off p = tally P off p + tally P off p) by lia.
  apply tally_sum. intros i b Hb. by rewrite (H i b Hb).
Qed.

Lemma tally_ext P Q off p :
  (forall i b, zget p (i - off) = Some b -> P i b = Q i b) -> tally P off p = tally Q off p.
Proof.
  intros H. rewrite (tally_sum P Q (fun _ _ => false)), (tally_none (fun _ _ => false)) by
    (done || (intros i b Hb; rewrite (H i b Hb); cbn; lia)). lia.
Qed.

Lemma tally_0_none P off p i b : tally P off p = 0 -> zget p (i - off) = Some b -> P i b = false.
Proof.
  revert off. induction p as [|b' p IH]; intros off H Hb; [by rewrite zget_nil in Hb|].
  cbn in H. pose proof (tally_range P (off + 1) p). destruct (P off b') eqn:E; cbn in H; [lia|].
  rewrite zget_cons in Hb. destruct (Z.eqb_spec (i - off) 0).
  - injection Hb as <-. by replace i with off by lia.
  - apply (IH (off + 1)); [lia|]. by replace (i - (off + 1)) with (i - off - 1) by lia.
Qed.

Lemma tally_full P off p i b : tally P off p = zlen p -> zget p (i - off) = Some b -> P i b = true.
Proof.
  intros H Hb. enough (negb (P i b) = false) by (by destruct (P i b)).
  apply (tally_0_none (fun i b => negb (P i b)) off p); [|done].
  assert (tally (fun _ _ => true) off p = zlen p) as Ht.
  { clear. revert off. induction p as [|b p IH]; intros off; [done|]. cbn. rewrite IH, zlen_cons. done. }
  rewrite (tally_sum _ P (fun i b => negb (P i b))) in Ht; [lia|].
  intros j c _. by destruct (P j c).
Qed.

(** Only the offsets [a .. b) can count. *)
Lemma tally_window P off p a b :
  off <= a -> a <= b -> b <= off + zlen p ->
  (forall i x, off <= i < off + zlen p -> ~ a <= i < b -> P i x = false) ->
  tally P off p = tally P a (zslice (a - off) (b - off) p).
Proof.
  intros Ha Hb Hl HP.
  rewrite <-(ztake_zdrop_app (a - off) p) at 1. rewrite tally_app.
  rewrite <-(ztake_zdrop_app (b - a) (zdrop (a - off) p)) at 1. rewrite tally_app.
  rewrite (tally_none P off), (tally_none P (_ + zlen (ztake (b - a) _))).
  - rewrite zlen_ztake. unfold zslice. replace (b - off - (a - off)) with (b - a) by lia.
    replace (off + Z.min (Z.max 0 (a - off)) (zlen p)) with a by lia. lia.
  - intros i x Hx%zget_Some_lt. rewrite !zlen_ztake, !zlen_zdrop in Hx. apply HP; lia.
  - intros i x Hx%zget_Some_lt. rewrite zlen_ztake in Hx. apply HP; lia.
Qed.

Lemma tally_differs f a xs ys :
  zlen ys <= zlen xs -> (forall j, 0 <= j < zlen ys -> f (a + j) = zget xs j) ->
  tally (differs f) a ys = count_different xs ys.
Proof.
  revert a xs. induction ys as [|y ys IH]; intros a xs Hl Hf; [by destruct xs|].
  rewrite zlen_cons in *. pose proof (zlen_nonneg ys). destruct xs as [|x xs].
  { change (zlen (@nil Z)) with 0 in Hl. lia. }
  rewrite zlen_cons in Hl. cbn. rewrite (IH (a + 1) xs).
  - unfold differs. rewrite <-(Z.add_0_r a), Hf by lia. rewrite zget_cons. cbn.
    by destruct (x =? y).
  - lia.
  - intros j Hj. rewrite <-Z.add_assoc, Hf by lia. rewrite zget_cons.
    rewrite (proj2 (Z.eqb_neq _ _)) by lia. f_equal. lia.
Qed.

Lemma tally_present f a ys :
  (forall j, 0 <= j < zlen ys -> is_Some (f (a + j))) -> tally (present f) a ys = zlen ys.
Proof.
  revert a. induction ys as [|y ys IH]; intros a Hf; [done|].
  rewrite zlen_cons in *. pose proof (zlen_nonneg ys). cbn. rewrite IH.
  - unfold present. destruct (Hf 0) as [x Hx]; [lia|]. rewrite Z.add_0_r in Hx. by rewrite Hx.
  - intros j Hj. rewrite <-Z.add_assoc. apply Hf. lia.
Qed.

(** ** Overlap with one range *)

Definition overlapping (f : Z -> option Z) (inc : Incoming) : Z :=
  tally (present f) (inc_offset inc) (inc_payload inc).
Definition conflicting (f : Z -> option Z) (inc : Incoming) : Z :=
  tally (differs f) (inc_offset inc) (inc_payload inc).

Lemma rview_single r i : rview [r] i = zget (rr_bytes r) (i - rr_start r).
Proof.
  cbn. destruct (Z.leb_spec (rr_start r) i), (Z.ltb_spec i (rr_last r)); cbn; try done; unfold rr_last in *.
  - by rewrite zget_ge by lia.
  - by rewrite zget_neg by lia.
  - by rewrite zget_ge by lia.
Qed.

Lemma measure_overlap_spec r inc :
  span_ok inc -> 0 <= rr_start r ->
  Z.max (rr_start r) (inc_offset inc) < Z.min (rr_last r) (inc_end inc) ->
  measure_overlap r (rr_last r) inc = Ok (overlapping (rview [r]) inc, conflicting (rview [r]) inc) /\
  overlapping (rview [r]) inc = Z.min (rr_last r) (inc_end inc) - Z.max (rr_start r) (inc_offset inc).
Proof.
  intros (H0 & He & Hp & Hm) Hr Hlt. unfold measure_overlap, rr_last, or_overflow in *.
  set (a := Z.max (rr_start r) (inc_offset inc)) in *.
  set (b := Z.min (rr_start r + zlen (rr_bytes r)) (inc_end inc)) in *.
  rewrite (checked_sub_ok b a), (checked_sub_ok a (rr_start r)), (checked_sub_ok a (inc_offset inc)) by lia.
  cbn [ok_or]. rewrite !Ok_bind. unfold MAX_WIRE_LENGTH, usize_max, u64_max in *.
  rewrite checked_add_ok by lia. cbn [ok_or]. rewrite !Ok_bind.
  rewrite get_range_ok by lia. cbn [ok_or]. rewrite !Ok_bind.
  replace (a - inc_offset inc + (b - a)) with (b - inc_offset inc) by lia.
  assert (zlen (zslice (a - inc_offset inc) (b - inc_offset inc) (inc_payload inc)) = b - a) as Hs.
  { rewrite zlen_zslice by lia. lia. }
  assert (forall i, inc_offset inc <= i < inc_offset inc + zlen (inc_payload inc) -> ~ a <= i < b ->
    rview [r] i = None) as Hout.
  { intros i Hi Hn. rewrite rview_single. destruct (zget _ _) as [?|] eqn:E; [|done].
    apply zget_Some_lt in E. lia. }
  assert (overlapping (rview [r]) inc = b - a) as Eo.
  { unfold overlapping. rewrite (tally_window _ _ _ a b) by
      (try lia; intros i x Hi Hn; unfold present; by rewrite Hout).
    rewrite tally_present; [done|]. intros j Hj. rewrite rview_single. apply zget_lt_is_Some. lia. }
  split; [|lia]. rewrite Eo. do 2 f_equal. unfold conflicting.
  rewrite (tally_window _ _ _ a b) by (try lia; intros i x Hi Hn; unfold differs; by rewrite Hout).
  symmetry. apply tally_differs.
  - rewrite Hs, zlen_ztake, zlen_zdrop. lia.
  - intros j Hj. rewrite rview_single, zget_ztake, (proj2 (Z.ltb_lt _ _)), zget_zdrop by lia. f_equal. lia.
Qed.

(** No overlap: neither count sees the range. *)
Lemma overlap_none r inc :
  span_ok inc -> Z.min (rr_last r) (inc_end inc) <= Z.max (rr_start r) (inc_offset inc) ->
  overlapping (rview [r]) inc = 0 /\ conflicting (rview [r]) inc = 0.
Proof.
  intros (H0 & He & Hp & Hm) Hle. unfold rr_last in Hle.
  assert (forall i b, zget (inc_payload inc) (i - inc_offset inc) = Some b -> rview [r] i = None) as Hn.
  { intros i b Hb%zget_Some_lt. rewrite rview_single. destruct (zget _ _) as [?|] eqn:E; [|done].
    apply zget_Some_lt in E. lia. }
  split; apply tally_none; intros i b Hb; unfold present, differs; by rewrite (Hn i b Hb).
Qed.

Lemma rview_cons_sum lo r l i :
  ranges_wf lo (r :: l) -> rview (r :: l) i = orelse (rview [r] i) (rview l i) /\
  (rview [r] i = None \/ rview l i = None).
Proof.
  intros H. pose proof H as (? & ? & ? & Hl). cbn [rview].
  destruct (Z.leb_spec (rr_start r) i), (Z.ltb_spec i (rr_last r)); cbn [andb].
  - rewrite (rview_below (rr_last r) l i Hl) by lia. destruct (zget _ _); cbn; auto.
  - by destruct (rview l i); auto.
  - by destruct (rview l i); auto.
  - by destruct (rview l i); auto.
Qed.

Lemma counts_cons lo r l inc :
  ranges_wf lo (r :: l) ->
  overlapping (rview (r :: l)) inc = overlapping (rview [r]) inc + overlapping (rview l) inc /\
  conflicting (rview (r :: l)) inc = conflicting (rview [r]) inc + conflicting (rview l) inc.
Proof.
  intros H. split; apply tally_sum; intros i b _; destruct (rview_cons_sum _ _ _ i H) as [E Hn];
    unfold present, differs; rewrite E; destruct (rview [r] i), (rview l i); cbn; try done;
    try (by destruct Hn); destruct (_ =? b); done.
Qed.

Lemma counts_nil inc : overlapping (rview []) inc = 0 /\ conflicting (rview []) inc = 0.
Proof. split; by apply tally_none. Qed.

(** ** The scan of [plan_merge] *)

Lemma rr_end_ok r : rr_last r <= MAX_WIRE_LENGTH -> rr_end r = Some (rr_last r).
Proof. intros. apply checked_add_ok. unfold rr_last, MAX_WIRE_LENGTH, usize_max, u64_max in *. lia. Qed.

Lemma ranges_wf_count lo l : -1 <= lo -> ranges_wf lo l -> zlen l <= 65536.
Proof.
  intros Hlo H. destruct l as [|r l]; [by vm_compute|]. pose proof (held_le_span _ _ H) as Hs.
  pose proof (held_nonneg (r :: l)). pose proof H as (_ & _ & Hm & Hl).
  pose proof (ranges_wf_le_max _ _ Hm Hl). cbn [ranges_end] in Hs. unfold MAX_WIRE_LENGTH in *. lia.
Qed.

Lemma scan_below inc idx s L rest :
  Forall (fun r => rr_last r < inc_offset inc /\ rr_last r <= MAX_WIRE_LENGTH) L ->
  0 <= idx -> idx + zlen L <= 65536 ->
  scan_ranges inc idx s (L ++ rest) =
  scan_ranges inc (idx + zlen L)
    (if is_empty L then s else
     mkScan (idx + zlen L) (sc_count s) (sc_start s) (sc_end s) (sc_overlapping s) (sc_conflicting s)) rest.
Proof.
  intros HL. revert idx s. induction HL as [|r L [Hr Hm] HL IH]; intros idx s Hi Hn.
  { change (zlen (@nil RetainedRange)) with 0. by rewrite Z.add_0_r. }
  rewrite zlen_cons in *. pose proof (zlen_nonneg L). cbn [app scan_ranges].
  rewrite rr_end_ok by done. cbn [or_overflow ok_or]. rewrite Ok_bind, (proj2 (Z.ltb_lt _ _)) by done.
  unfold or_overflow. rewrite checked_add_ok by (unfold usize_max, u64_max; lia). cbn [ok_or].
  rewrite Ok_bind, IH by lia. cbn. replace (idx + 1 + zlen L) with (idx + (1 + zlen L)) by lia.
  destruct L; [|done]. cbn. change (zlen (@nil RetainedRange)) with 0. by rewrite Z.add_0_r.
Qed.

Definition touches (inc : Incoming) (r : RetainedRange) : Prop :=
  inc_offset inc <= rr_last r /\ rr_start r <= inc_end inc.

(** What the scan accumulates over the ranges [M] that touch the fragment. *)
Record touch_post (lo : Z) (inc : Incoming) (M : list RetainedRange) (s s' : MergeScan) : Prop := {
  tp_count : sc_count s' = sc_count s + zlen M;
  tp_overlapping : sc_overlapping s' = sc_overlapping s + overlapping (rview M) inc;
  tp_conflicting : sc_conflicting s' = sc_conflicting s + conflicting (rview M) inc;
  tp_start : sc_start s' <= sc_start s;
  tp_end : sc_end s <= sc_end s';
  tp_hull : forall r, r ∈ M -> sc_start s' <= rr_start r /\ rr_last r <= sc_end s';
  tp_length : sc_end s' - sc_start s' = sc_end s - sc_start s + held M - overlapping (rview M) inc;
  tp_covered : forall i, sc_start s' <= i < sc_end s' ->
    sc_start s <= i < sc_end s \/ exists r, r ∈ M /\ rr_start r <= i < rr_last r;
  tp_above : sc_start s' = sc_start s \/ lo < sc_start s';
  tp_below : sc_end s' = sc_end s \/ sc_end s' <= ranges_end lo M
}.

Lemma touch_post_nil lo inc s : touch_post lo inc [] s s.
Proof.
  destruct (counts_nil inc) as [H1 H2]. split; rewrite ?H1, ?H2; change (zlen (@nil RetainedRange)) with 0;
    cbn; try lia; try set_solver; auto.
Qed.

(** One step of the hull. *)
Lemma touch_post_cons lo inc r M s s1 s' :
  span_ok inc -> ranges_wf lo (r :: M) -> -1 <= lo -> touches inc r ->
  (forall r', r' ∈ M -> touches inc r') ->
  sc_start s <= inc_offset inc -> sc_end s = inc_end inc ->
  sc_start s = inc_offset inc \/ inc_offset inc <= lo ->
  sc_count s1 = sc_count s + 1 -> sc_start s1 = Z.min (sc_start s) (rr_start r) ->
  sc_end s1 = Z.max (sc_end s) (rr_last r) ->
  sc_overlapping s1 = sc_overlapping s + overlapping (rview [r]) inc ->
  sc_conflicting s1 = sc_conflicting s + conflicting (rview [r]) inc ->
  touch_post (rr_last r) inc M s1 s' -> touch_post lo inc (r :: M) s s'.
Proof.
  intros Hsp Hw Hlo [Ht1 Ht2] HM Hs1 Hs2 Hs3 Ec Es Ee Eo Ek [P1 P2 P3 P4 P5 P6 P7 P8 P9 P10].
  destruct (counts_cons lo r M inc Hw) as [C1 C2]. pose proof Hw as (Hlr & Hlen & Hmax & HwM).
  assert (overlapping (rview [r]) inc =
    Z.max 0 (Z.min (rr_last r) (inc_end inc) - Z.max (rr_start r) (inc_offset inc))) as Ho.
  { destruct (Z.lt_ge_cases (Z.max (rr_start r) (inc_offset inc)) (Z.min (rr_last r) (inc_end inc))) as [Hl|Hl].
    - destruct (measure_overlap_spec r inc Hsp ltac:(lia) Hl) as [_ ->]. lia.
    - destruct (overlap_none r inc Hsp Hl) as [-> _]. lia. }
  assert (rr_last r = rr_start r + zlen (rr_bytes r)) as Elast by done.
  destruct Hsp as (? & ? & ? & _). split; rewrite ?C1, ?C2, ?zlen_cons; cbn [held ranges_end]; try lia.
  - intros r' [->|Hin]%elem_of_cons; [lia|by apply P6].
  - intros i Hi. destruct (P8 i Hi) as [Hi'|(r' & Hin & Hi')]; [|right; exists r'; set_solver].
    destruct (decide (sc_start s <= i < sc_end s)); [by left|]. right. exists r. split; [set_solver|lia].
  - destruct P10 as [->|?]; [|by right]. pose proof (ranges_wf_end _ _ HwM). lia.
Qed.

Lemma scan_touching inc M R : span_ok inc -> forall lo idx s,
  ranges_wf lo (M ++ R) -> -1 <= lo -> (forall r, r ∈ M -> touches inc r) ->
  match R with [] => True | r :: _ => inc_end inc < rr_start r end ->
  sc_start s <= inc_offset inc -> (M = [] \/ sc_end s = inc_end inc) ->
  (sc_start s = inc_offset inc \/ inc_offset inc <= lo) -> 
  inc_offset inc <= sc_end s -> 0 <= sc_count s -> sc_count s + zlen M <= 65536 ->
  0 <= sc_overlapping s -> sc_overlapping s + overlapping (rview M) inc <= MAX_WIRE_LENGTH ->
  0 <= sc_conflicting s -> sc_conflicting s + conflicting (rview M) inc <= MAX_WIRE_LENGTH ->
  exists s', scan_ranges inc idx s (M ++ R) = Ok s' /\ touch_post lo inc M s s' /\
    sc_first s' = if (sc_count s =? 0) && negb (is_empty (M ++ R)) then idx else sc_first s.
Proof.
  intros Hsp. induction M as [|r M IH]; intros lo idx s Hw Hlo HM HR Hs1 Hs2 Hs3 Hs4 Hc0 Hc Ho0 Ho Hk0 Hk.
  - cbn [app] in *. destruct R as [|r R]; cbn [scan_ranges is_empty negb].
    { exists s. rewrite andb_false_r. split; [done|]. split; [apply touch_post_nil|done]. }
    destruct Hw as (? & ? & Hm & ?). rewrite rr_end_ok by done. cbn [or_overflow ok_or]. rewrite Ok_bind.
    destruct Hsp as (? & ? & ? & ?).
    rewrite (proj2 (Z.ltb_ge (rr_last r) _)) by (unfold rr_last; lia). rewrite (proj2 (Z.ltb_lt _ _)) by done.
    eexists. split; [reflexivity|]. split; [|cbn; by rewrite andb_true_r].
    pose proof (touch_post_nil lo inc s) as [? ? ? ? ? ? ? ? ? ?]. by split.
  - pose proof Hw as (Hlr & Hlen & Hm & HwM). cbn [app scan_ranges is_empty negb].
    destruct (HM r) as [Ht1 Ht2]; [set_solver|]. destruct Hs2 as [?|Hs2]; [done|].
    rewrite rr_end_ok by done. cbn [or_overflow ok_or]. rewrite Ok_bind, zlen_cons in *.
    pose proof (zlen_nonneg M). rewrite (proj2 (Z.ltb_ge (rr_last r) _)) by done.
    rewrite (proj2 (Z.ltb_ge (inc_end inc) _)) by done.
    assert (ranges_wf lo (r :: M)) as Hw'. { apply (ranges_wf_app lo (r :: M) R). exact Hw. }
    destruct (counts_cons lo r M inc Hw') as [C1 C2]. rewrite C1, C2 in *.
    pose proof (tally_range (present (rview [r])) (inc_offset inc) (inc_payload inc)) as B1.
    pose proof (tally_range (differs (rview [r])) (inc_offset inc) (inc_payload inc)) as B2.
    pose proof (tally_range (present (rview M)) (inc_offset inc) (inc_payload inc)) as B3.
    pose proof (tally_range (differs (rview M)) (inc_offset inc) (inc_payload inc)) as B4.
    fold (overlapping (rview [r]) inc) (conflicting (rview [r]) inc)
         (overlapping (rview M) inc) (conflicting (rview M) inc) in *.
    unfold or_overflow, MAX_WIRE_LENGTH, usize_max, u64_max in *.
    rewrite (checked_add_ok _ (sc_count s)) by lia. cbn [ok_or]. rewrite Ok_bind.
    set (s1 := mkScan (if sc_count s =? 0 then idx else sc_first s) (sc_count s + 1)
      (Z.min (sc_start s) (rr_start r)) (Z.max (sc_end s) (rr_last r))
      (sc_overlapping s + overlapping (rview [r]) inc) (sc_conflicting s + conflicting (rview [r]) inc)).
    assert ((if Z.max (rr_start r) (inc_offset inc) <? Z.min (rr_last r) (inc_end inc) then
           '(o, c) ← measure_overlap r (rr_last r) inc;
           o ← ok_or (IpErrMalformed OffsetOverflow) (checked_add 18446744073709551615 (sc_overlapping s) o);
           c ← ok_or (IpErrMalformed OffsetOverflow) (checked_add 18446744073709551615 (sc_conflicting s) c);
           Ok (o, c)
         else Ok (sc_overlapping s, sc_conflicting s)) = Ok (sc_overlapping s1, sc_conflicting s1)) as ->.
    { destruct (Z.ltb_spec (Z.max (rr_start r) (inc_offset inc)) (Z.min (rr_last r) (inc_end inc))) as [Hl|Hl].
      - destruct (measure_overlap_spec r inc Hsp ltac:(lia) Hl) as [-> _]. rewrite Ok_bind.
        rewrite (checked_add_ok _ (sc_overlapping s)) by lia. cbn [ok_or]. rewrite Ok_bind.
        rewrite (checked_add_ok _ (sc_conflicting s)) by lia. done.
      - destruct (overlap_none r inc Hsp Hl) as [E1 E2]. unfold s1. cbn [sc_first sc_count sc_start sc_end sc_overlapping sc_conflicting]. rewrite E1, E2. do 2 f_equal; lia. }
    rewrite Ok_bind.
    destruct (IH (rr_last r) (idx + 1) s1) as (s' & Hscan & Hp & Hf); try (cbn [sc_first sc_count sc_start sc_end sc_overlapping sc_conflicting]; unfold s1; cbn [sc_first sc_count sc_start sc_end sc_overlapping sc_conflicting]; lia); try done.
    { unfold rr_last. lia. }
    { intros r' ?. apply HM. set_solver. }
    { destruct M as [|r' M]; [by left|]. right. unfold s1. cbn [sc_first sc_count sc_start sc_end sc_overlapping sc_conflicting]. destruct (HM r') as [? ?]; [set_solver|].
      destruct HwM as (? & _). lia. }
    exists s'. split; [exact Hscan|]. split.
    + apply (touch_post_cons lo inc r M s s1 s'); try done.
      intros r' ?; apply HM; set_solver.
    + rewrite Hf. cbn. rewrite (proj2 (Z.eqb_neq _ 0)) by lia. cbn. by rewrite andb_true_r.
Qed.

(** ** [plan_merge] *)

Lemma counts_app lo l k inc :
  ranges_wf lo (l ++ k) ->
  overlapping (rview (l ++ k)) inc = overlapping (rview l) inc + overlapping (rview k) inc /\
  conflicting (rview (l ++ k)) inc = conflicting (rview l) inc + conflicting (rview k) inc.
Proof.
  revert lo. induction l as [|r l IH]; intros lo H.
  { destruct (counts_nil inc) as [-> ->]. done. }
  destruct (counts_cons lo r (l ++ k) inc H) as [E1 E2].
  destruct (counts_cons lo r l inc) as [E3 E4]; [by apply (ranges_wf_app lo (r :: l) k)|].
  destruct H as (_ & _ & _ & H). destruct (IH _ H) as [E5 E6]. cbn [app]. lia.
Qed.

Lemma counts_apart lo l inc :
  span_ok inc -> ranges_wf lo l ->
  Forall (fun r => rr_last r <= inc_offset inc \/ inc_end inc <= rr_start r) l ->
  overlapping (rview l) inc = 0 /\ conflicting (rview l) inc = 0.
Proof.
  intros Hsp Hw Hl. revert lo Hw. induction Hl as [|r l Hr Hl IH]; intros lo Hw; [apply counts_nil|].
  destruct (counts_cons lo r l inc Hw) as [-> ->]. destruct Hw as (? & ? & ? & Hw).
  destruct (IH _ Hw) as [-> ->]. destruct (overlap_none r inc Hsp) as [-> ->]; [|done]. lia.
Qed.

Lemma split_below inc l :
  exists L rest, l = L ++ rest /\ Forall (fun r => rr_last r < inc_offset inc) L /\
    match rest with [] => True | r :: _ => inc_offset inc <= rr_last r end.
Proof.
  induction l as [|r l (L & rest & -> & HL & Hr)].
  { by exists [], []. }
  destruct (Z.lt_ge_cases (rr_last r) (inc_offset inc)).
  - exists (r :: L), rest. auto.
  - exists [], (r :: L ++ rest). auto.
Qed.

Lemma split_touching inc lo l :
  ranges_wf lo l -> match l with [] => True | r :: _ => inc_offset inc <= rr_last r end ->
  exists M R, l = M ++ R /\ (forall r, r ∈ M -> touches inc r) /\
    (forall r, r ∈ R -> inc_end inc < rr_start r).
Proof.
  revert lo. induction l as [|r l IH]; intros lo Hw Hh; [exists [], []; set_solver|].
  pose proof Hw as (? & ? & ? & Hl). destruct (Z.le_gt_cases (rr_start r) (inc_end inc)).
  - destruct (IH (rr_last r)) as (M & R & -> & HM & HR); [done| |].
    { destruct l as [|r' l]; [done|]. destruct Hl as (? & ? & _). unfold rr_last in *. lia. }
    exists (r :: M), R. split; [done|]. split; [|done].
    intros r' [->|?]%elem_of_cons; [by split|by apply HM].
  - exists [], (r :: l). split; [done|]. split; [set_solver|]. intros r' [->|Hin]%elem_of_cons; [lia|].
    destruct (ranges_wf_in _ _ _ Hl Hin) as (? & _). unfold rr_last in *. lia.
Qed.

(** The plan: which ranges the fragment touches, the hull of those and the
    fragment, and what it adds and contradicts. *)
Record merge_post (l : list RetainedRange) (inc : Incoming) (p : MergePlan)
  (L M R : list RetainedRange) : Prop := {
  mo_split : l = L ++ M ++ R;
  mo_below : Forall (fun r => rr_last r < inc_offset inc) L;
  mo_touch : forall r, r ∈ M -> touches inc r;
  mo_above : forall r, r ∈ R -> inc_end inc < rr_start r;
  mo_first : mp_first_affected p = zlen L;
  mo_count : mp_affected_count p = zlen M;
  mo_result : mp_result_range_count p = zlen L + 1 + zlen R;
  mo_hull : mp_union_start p <= inc_offset inc /\ inc_end inc <= mp_union_end p;
  mo_hull_ranges : forall r, r ∈ M -> mp_union_start p <= rr_start r /\ rr_last r <= mp_union_end p;
  mo_covered : forall i, mp_union_start p <= i < mp_union_end p ->
    inc_offset inc <= i < inc_end inc \/ exists r, r ∈ M /\ rr_start r <= i < rr_last r;
  mo_added : mp_added_bytes p = zlen (inc_payload inc) - overlapping (rview l) inc;
  mo_conflicting : mp_conflicting_bytes p = conflicting (rview l) inc;
  mo_length : mp_union_end p - mp_union_start p = held M + mp_added_bytes p;
  mo_left : ranges_end (-1) L < mp_union_start p;
  mo_right : forall r, r ∈ R -> mp_union_end p < rr_start r;
  mo_max : mp_union_end p <= MAX_WIRE_LENGTH
}.

Definition merge_kind (l : list RetainedRange) (inc : Incoming) (p : MergePlan) : UpdateKind :=
  let whole := (mp_affected_count p =? 1) && (mp_added_bytes p =? zlen (inc_payload inc)) in
  if (mp_added_bytes p =? 0) && (mp_conflicting_bytes p =? 0) then KUnchanged
  else if whole && bool_decide ((zget l (mp_first_affected p) ≫= rr_end) = Some (inc_offset inc))
  then KAppend
  else if whole && bool_decide ((rr_start <$> zget l (mp_first_affected p)) = Some (inc_end inc))
  then KPrepend
  else KReplace.

Lemma ranges_end_bound lo l b : lo < b -> Forall (fun r => rr_last r < b) l -> ranges_end lo l < b.
Proof. intros Hb Hl. revert lo Hb. induction Hl; cbn; auto. Qed.

Lemma plan_merge_spec l inc :
  ranges_wf (-1) l -> span_ok inc ->
  exists p L M R, plan_merge l inc = Ok p /\ merge_post l inc p L M R /\ mp_kind p = merge_kind l inc p.
Proof.
  intros Hw Hsp. destruct (split_below inc l) as (L & rest & El & HL & Hh).
  pose proof Hw as Hw0. rewrite El in Hw0. apply ranges_wf_app in Hw0 as [HwL Hwr].
  destruct (split_touching inc _ rest Hwr Hh) as (M & R & -> & HM & HR).
  pose proof Hsp as (Hs0 & Hse & Hsp' & Hsm). pose proof (ranges_wf_count (-1) l ltac:(lia) Hw) as Hcnt.
  assert (ranges_end (-1) L < inc_offset inc) as HLe by (apply ranges_end_bound; [lia|done]).
  pose proof (ranges_wf_end _ _ HwL) as HLlo.
  destruct (counts_app (-1) L (M ++ R) inc) as [C1 C2]; [by rewrite <-El|].
  destruct (counts_app _ M R inc Hwr) as [C3 C4].
  destruct (counts_apart (-1) L inc Hsp HwL) as [C5 C6].
  { eapply Forall_impl; [exact HL|]. intros; cbn in *; lia. }
  apply ranges_wf_app in Hwr as [HwM HwR].
  destruct (counts_apart _ R inc Hsp HwR) as [C7 C8].
  { apply Forall_forall. intros r Hr. specialize (HR r Hr). lia. }
  rewrite <-El in C1, C2.
  pose proof (tally_range (present (rview M)) (inc_offset inc) (inc_payload inc)) as B1.
  pose proof (tally_range (differs (rview M)) (inc_offset inc) (inc_payload inc)) as B2.
  fold (overlapping (rview M) inc) (conflicting (rview M) inc) in B1, B2.
  assert (zlen l = zlen L + zlen M + zlen R) as Hll by (rewrite El, !zlen_app; lia).
  pose proof (zlen_nonneg L). pose proof (zlen_nonneg M). pose proof (zlen_nonneg R).
  set (s0 := mkScan (zlen l) 0 (inc_offset inc) (inc_end inc) 0 0).
  set (s1 := if is_empty L then s0 else mkScan (0 + zlen L) 0 (inc_offset inc) (inc_end inc) 0 0).
  assert (sc_count s1 = 0 /\ sc_start s1 = inc_offset inc /\ sc_end s1 = inc_end inc /\
    sc_overlapping s1 = 0 /\ sc_conflicting s1 = 0 /\
    ((M ++ R) = [] -> sc_first s1 = zlen L)) as (F1 & F2 & F3 & F4 & F5 & F6).
  { unfold s1. destruct L; cbn; split_and!; try done. intros E. rewrite El, E. done. }
  destruct (scan_touching inc M R Hsp (ranges_end (-1) L) (0 + zlen L) s1) as (s & Hscan & Hp & Hf);
    rewrite ?F1, ?F2, ?F3, ?F4, ?F5; try lia; try done.
  { by apply ranges_wf_app. }
  { destruct R; [done|]. apply HR. set_solver. }
  assert (scan_ranges inc 0 s0 l = Ok s) as Hs.
  { rewrite El, scan_below; [exact Hscan| |lia|lia]. apply Forall_forall. intros r Hr. split.
    - rewrite Forall_forall in HL. by apply HL.
    - by apply (ranges_wf_in (-1) L r). }
  assert (sc_first s = zlen L) as Ef.
  { rewrite Hf, F1. cbn. destruct (M ++ R) eqn:E; cbn; [by apply F6|lia]. }
  destruct Hp as [P1 P2 P3 P4 P5 P6 P7 P8 P9 P10]. rewrite F1, F2, F3, F4, F5 in *.
  unfold plan_merge. fold s0. rewrite Hs, Ok_bind. unfold or_overflow.
  rewrite checked_sub_ok by lia. cbn [ok_or]. rewrite Ok_bind.
  rewrite (checked_add_ok _ (zlen l)) by (unfold usize_max, u64_max; lia). cbn [mbind option_bind].
  rewrite checked_sub_ok by lia. cbn [ok_or]. rewrite Ok_bind.
  eexists _, L, M, R. split; [reflexivity|]. split; [|done].
  assert (sc_end s <= MAX_WIRE_LENGTH) as Hmax.
  { destruct P10 as [->|He]; [done|]. etrans; [exact He|]. apply ranges_wf_le_max; [lia|done]. }
  split; cbn [mp_first_affected mp_affected_count mp_union_start mp_union_end mp_added_bytes
    mp_conflicting_bytes mp_result_range_count]; try done; try lia.
  intros r Hr. specialize (HR r Hr). destruct P10 as [->|He]; [done|].
  destruct (ranges_wf_in _ _ _ HwR Hr) as (? & _). lia.
Qed.
