(* ===== verification/IpApply.v ===== *)
(** * IP reassembly: the effect of a merge on the retained bytes

    [merge_affected] and [apply_range_update] on the ranges the plan selects:
    one range replaces the touched ones, and the view of the datagram becomes
    the view the overlap policy asks for. *)

From stdpp Require Import base tactics option list numbers gmap strings.
From Stdlib Require Import ZArith Lia.
From S2P Require Import Prelude Checksum Ordered Flow Headers IpModel IpValidate IpMerge IpRanges.

(** Errors that report an input or a resource, not a broken invariant. *)
Definition external (e : IpError) : Prop :=
  match e with
  | Inconsistent _ | IpErrMalformed OffsetOverflow => False
  | _ => True
  end.

(** Errors a limit or the allocator causes. *)
Definition resource_error (e : IpError) : Prop := match e with IpErrResource _ => True | _ => False end.

Lemma resource_external e : resource_error e -> external e.
Proof. by destruct e. Qed.

(** The byte each policy keeps where both have one. *)
Definition merged_view (policy : OverlapPolicy) (f g : Z -> option Z) (i : Z) : option Z :=
  match policy with PolicyLast => orelse (g i) (f i) | _ => orelse (f i) (g i) end.

(** ** The view of a concatenation *)

Lemma rview_cons r l i : rview (r :: l) i = orelse (rview [r] i) (rview l i).
Proof.
  cbn. destruct (Z.leb_spec (rr_start r) i), (Z.ltb_spec i (rr_last r)); cbn; try done.
  destruct (zget_lt_is_Some (rr_bytes r) (i - rr_start r)) as [b ->]; [unfold rr_last in *; lia|done].
Qed.

Lemma rview_or l k i : rview (l ++ k) i = orelse (rview l i) (rview k i).
Proof.
  induction l as [|r l IH]; [done|]. cbn [app]. rewrite (rview_cons r (l ++ k)), (rview_cons r l), IH. by destruct (rview [r] i).
Qed.

Lemma rview_Some_in l i b :
  rview l i = Some b -> exists r, r ∈ l /\ rr_start r <= i < rr_last r.
Proof.
  induction l as [|r l IH]; [done|]. rewrite (rview_cons r l), rview_single.
  destruct (zget (rr_bytes r) (i - rr_start r)) as [x|] eqn:E; cbn.
  - intros _. exists r. apply zget_Some_lt in E. unfold rr_last. split; [set_solver|lia].
  - intros H. destruct (IH H) as (r' & ? & ?). exists r'. split; [set_solver|done].
Qed.

(** ** Copying *)

Lemma copy_into_ok target start src :
  0 <= start -> start + zlen src <= zlen target -> zlen target <= MAX_WIRE_LENGTH ->
  copy_into target start src = Ok (overwrite target start src).
Proof.
  intros. pose proof (zlen_nonneg src). unfold copy_into, or_overflow, MAX_WIRE_LENGTH, usize_max, u64_max in *.
  rewrite checked_add_ok by lia. cbn [ok_or]. rewrite Ok_bind, get_range_ok by lia. done.
Qed.

Lemma copy_ranges_spec us M : forall lo T,
  ranges_wf lo M -> zlen T <= MAX_WIRE_LENGTH ->
  (forall r, r ∈ M -> us <= rr_start r /\ rr_last r <= us + zlen T) ->
  exists T', copy_ranges T us M = Ok T' /\ zlen T' = zlen T /\
    forall j, 0 <= j < zlen T -> zget T' j = orelse (rview M (us + j)) (zget T j).
Proof.
  induction M as [|r M IH]; intros lo T Hw HT Hin; [by exists T|].
  pose proof Hw as (? & ? & ? & HwM). destruct (Hin r) as [? Hl]; [set_solver|]. unfold rr_last in Hl.
  cbn [copy_ranges]. unfold or_overflow. rewrite checked_sub_ok by lia. cbn [ok_or].
  rewrite Ok_bind, copy_into_ok by lia. rewrite Ok_bind.
  pose proof (zlen_overwrite T (rr_start r - us) (rr_bytes r) ltac:(lia) ltac:(lia)) as Hlen.
  destruct (IH (rr_last r) (overwrite T (rr_start r - us) (rr_bytes r)) HwM) as (T' & -> & Hl' & Hg).
  { lia. } { intros r' ?. rewrite Hlen. apply Hin. set_solver. }
  exists T'. split; [done|]. split; [lia|]. intros j Hj. rewrite Hg, zget_overwrite by lia.
  rewrite (rview_cons r M), rview_single.
  destruct (zget (rr_bytes r) (us + j - rr_start r)) as [b|] eqn:E; cbn.
  - pose proof (zget_Some_lt _ _ _ E) as Hb.
    rewrite (rview_below (rr_last r) M) by (done || unfold rr_last; lia). cbn.
    rewrite (proj2 (Z.leb_le _ _)), (proj2 (Z.ltb_lt _ _)) by lia. cbn.
    by replace (j - (rr_start r - us)) with (us + j - rr_start r) by lia.
  - destruct (Z.leb_spec (rr_start r - us) j), (Z.ltb_spec j (rr_start r - us + zlen (rr_bytes r))); cbn; try done.
    destruct (zget_lt_is_Some (rr_bytes r) (us + j - rr_start r)) as [b Hb]; [lia|congruence].
Qed.

(** ** The merged range *)

(** [x] is the range the touched ranges and the fragment become. *)
Record merged_range (policy : OverlapPolicy) (inc : Incoming) (p : MergePlan)
  (M : list RetainedRange) (x : RetainedRange) : Prop := {
  mr_start : rr_start x = mp_union_start p;
  mr_last : rr_last x = mp_union_end p;
  mr_view : forall i, rview [x] i = merged_view policy (rview M) (inc_view inc) i
}.

Section merge.
Context (l : list RetainedRange) (inc : Incoming) (p : MergePlan) (L M R : list RetainedRange).
Context (Hw : ranges_wf (-1) l) (Hsp : span_ok inc) (Hm : merge_post l inc p L M R).

Lemma merge_parts_wf :
  ranges_wf (-1) L /\ ranges_wf (ranges_end (-1) L) M /\ ranges_wf (ranges_end (ranges_end (-1) L) M) R.
Proof.
  pose proof Hw as H. rewrite (mo_split _ _ _ _ _ _ Hm) in H.
  by rewrite !ranges_wf_app in H.
Qed.

Lemma union_nonneg : 0 <= mp_union_start p /\ mp_union_start p < mp_union_end p.
Proof.
  destruct merge_parts_wf as (HL & _). pose proof (ranges_wf_end _ _ HL).
  pose proof (mo_left _ _ _ _ _ _ Hm). destruct (mo_hull _ _ _ _ _ _ Hm). destruct Hsp as (? & ? & ? & ?). lia.
Qed.

(** Outside the hull there is nothing. *)
Lemma outside_hull i :
  ~ mp_union_start p <= i < mp_union_end p -> rview M i = None /\ inc_view inc i = None.
Proof.
  intros Hi. split.
  - destruct (rview M i) eqn:E; [|done]. apply rview_Some_in in E as (r & Hr & ?).
    destruct (mo_hull_ranges _ _ _ _ _ _ Hm r Hr). lia.
  - apply inc_view_None; [done|]. destruct (mo_hull _ _ _ _ _ _ Hm). lia.
Qed.

Lemma affected_slice : ztake (mp_affected_count p) (zdrop (mp_first_affected p) l) = M.
Proof.
  rewrite (mo_split _ _ _ _ _ _ Hm), (mo_first _ _ _ _ _ _ Hm), (mo_count _ _ _ _ _ _ Hm).
  unfold zlen, zdrop, ztake. by rewrite !Nat2Z.id, drop_app_length, take_app_length.
Qed.

(** Writing the fragment and the touched ranges, the policy's winner last. *)
Lemma blend_spec policy T0 :
  zlen T0 = mp_union_end p - mp_union_start p ->
  let isk := inc_offset inc - mp_union_start p in
  exists T1 T2 T,
    (if negb (bool_decide (policy = PolicyLast)) then copy_into T0 isk (inc_payload inc) else Ok T0) = Ok T1 /\
    copy_ranges T1 (mp_union_start p) M = Ok T2 /\
    (if bool_decide (policy = PolicyLast) then copy_into T2 isk (inc_payload inc) else Ok T2) = Ok T /\
    zlen T = mp_union_end p - mp_union_start p /\
    forall j, 0 <= j < mp_union_end p - mp_union_start p ->
      zget T j = merged_view policy (rview M) (inc_view inc) (mp_union_start p + j).
Proof.
  intros HT0 isk. destruct union_nonneg as [Hu0 Hu]. destruct (mo_hull _ _ _ _ _ _ Hm) as [Hh1 Hh2].
  pose proof Hsp as (H0 & He & Hp & Hmx). pose proof (mo_max _ _ _ _ _ _ Hm) as Hmax.
  destruct merge_parts_wf as (_ & HM & _). pose proof (mo_covered _ _ _ _ _ _ Hm) as Hcov.
  set (us := mp_union_start p) in *. set (ue := mp_union_end p) in *.
  assert (forall n : bytes, zlen n = ue - us -> forall r, r ∈ M -> us <= rr_start r /\ rr_last r <= us + zlen n) as HMin.
  { intros n Hn r Hr. destruct (mo_hull_ranges _ _ _ _ _ _ Hm r Hr) as [H Hl]. fold us in H. fold ue in Hl. lia. }
  assert (forall T : bytes, zlen T = ue - us -> copy_into T isk (inc_payload inc) = Ok (overwrite T isk (inc_payload inc)) /\
    zlen (overwrite T isk (inc_payload inc)) = ue - us /\
    forall j, 0 <= j < ue - us ->
      zget (overwrite T isk (inc_payload inc)) j = orelse (inc_view inc (us + j)) (zget T j)) as Hput.
  { intros T HT. rewrite copy_into_ok by (unfold isk; lia). rewrite zlen_overwrite by (unfold isk; lia).
    split; [done|]. split; [done|]. intros j Hj. rewrite zget_overwrite by (unfold isk; lia).
    unfold inc_view, isk. replace (us + j - inc_offset inc) with (j - (inc_offset inc - us)) by lia.
    destruct (Z.leb_spec (inc_offset inc - us) j), (Z.ltb_spec j (inc_offset inc - us + zlen (inc_payload inc)));
      cbn; [|by rewrite (zget_ge (inc_payload inc)) by lia|by rewrite (zget_neg (inc_payload inc)) by lia|by rewrite (zget_neg (inc_payload inc)) by lia].
    by destruct (zget_lt_is_Some (inc_payload inc) (j - (inc_offset inc - us))) as [b ->]; [lia|]. }
  unfold merged_view. destruct (decide (policy = PolicyLast)) as [->|Hne].
  - rewrite bool_decide_true by done. cbn [negb].
    destruct (copy_ranges_spec us M _ T0 HM ltac:(lia) (HMin T0 HT0)) as (T2 & E2 & Hl2 & Hv2).
    destruct (Hput T2 ltac:(lia)) as (E3 & Hl3 & Hv3).
    exists T0, T2, (overwrite T2 isk (inc_payload inc)). split_and!; try done.
    intros j Hj. rewrite Hv3, Hv2 by lia.
    destruct (Hcov (us + j) ltac:(lia)) as [Hi|Hi].
    + apply inc_view_spec in Hi as [b ->]; done.
    + destruct (rview_covered _ M (us + j) HM Hi) as [b ->]. done.
  - rewrite bool_decide_false by done. cbn [negb]. destruct (Hput T0 HT0) as (E1 & Hl1 & Hv1).
    destruct (copy_ranges_spec us M _ (overwrite T0 isk (inc_payload inc)) HM ltac:(lia) (HMin _ Hl1))
      as (T2 & E2 & Hl2 & Hv2).
    exists (overwrite T0 isk (inc_payload inc)), T2, T2. split_and!; try done; [lia|].
    intros j Hj. rewrite Hv2, Hv1 by lia.
    assert (is_Some (orelse (rview M (us + j)) (inc_view inc (us + j)))) as [b Hb].
    { destruct (Hcov (us + j) ltac:(lia)) as [Hi|Hi].
      - apply inc_view_spec in Hi as [b ->]; [|done]. by destruct (rview M (us + j)).
      - destruct (rview_covered _ M (us + j) HM Hi) as [b ->]. done. }
    by destruct policy, (rview M (us + j)), (inc_view inc (us + j)).
Qed.

Lemma merge_affected_spec alloc policy capacity :
  mp_union_end p - mp_union_start p <= capacity ->
  ends resource_error (merge_affected alloc l inc p policy capacity) (fun x =>
    merged_range policy inc p M x /\ rr_capacity x = capacity).
Proof.
  intros Hc. destruct union_nonneg as [Hu0 Hu]. destruct (mo_hull _ _ _ _ _ _ Hm) as [Hh1 Hh2].
  unfold merge_affected, or_overflow. rewrite (checked_sub_ok (mp_union_end p)) by lia. cbn [ok_or].
  rewrite Ok_bind. apply ends_bind. unfold ip_try_reserve.
  destruct (alloc AllocMerge capacity && (capacity <=? ip_isize_max)); [|done]. cbn [ends].
  rewrite checked_sub_ok by lia. cbn [ok_or]. rewrite Ok_bind, affected_slice.
  set (T0 := ztake (mp_union_end p - mp_union_start p) (zrep capacity 0)).
  destruct (blend_spec policy T0) as (T1 & T2 & T & E1 & E2 & E3 & Hl & Hv).
  { unfold T0. rewrite zlen_ztake, zlen_zrep. lia. }
  rewrite E1, Ok_bind, E2, Ok_bind, E3, Ok_bind. cbn [ends]. split; [|done].
  split; [done|unfold rr_last; cbn [rr_start rr_bytes]; lia|]. intros i. rewrite rview_single. cbn [rr_start rr_bytes].
  destruct (decide (mp_union_start p <= i < mp_union_end p)) as [Hi|Hi].
  - rewrite Hv by lia. f_equal. lia.
  - destruct (outside_hull i Hi) as [EM EI]. unfold merged_view. rewrite EM, EI.
    destruct (zget T (i - mp_union_start p)) as [b|] eqn:E; [|by destruct policy].
    apply zget_Some_lt in E. lia.
Qed.

(** ** What each kind of update means *)

Lemma apart_inside i :
  inc_offset inc <= i < inc_end inc -> rview L i = None /\ rview R i = None.
Proof.
  intros Hi. split.
  - destruct (rview L i) eqn:E; [|done]. apply rview_Some_in in E as (r & Hr & ?).
    pose proof (mo_below _ _ _ _ _ _ Hm) as HL. rewrite Forall_forall in HL. specialize (HL r Hr). cbn in HL. lia.
  - destruct (rview R i) eqn:E; [|done]. apply rview_Some_in in E as (r & Hr & ?).
    pose proof (mo_above _ _ _ _ _ _ Hm r Hr). lia.
Qed.

Lemma view_inside i : inc_offset inc <= i < inc_end inc -> rview l i = rview M i.
Proof.
  intros Hi. rewrite (mo_split _ _ _ _ _ _ Hm), !rview_or. destruct (apart_inside i Hi) as [-> ->].
  by destruct (rview M i).
Qed.

Lemma first_touched r : M = [r] -> zget l (mp_first_affected p) = Some r.
Proof.
  intros E. rewrite (mo_split _ _ _ _ _ _ Hm), (mo_first _ _ _ _ _ _ Hm), E.
  rewrite zget_app, Z.ltb_irrefl, Z.sub_diag. done.
Qed.

Lemma touched_single : mp_affected_count p = 1 -> exists r, M = [r].
Proof.
  rewrite (mo_count _ _ _ _ _ _ Hm). destruct M as [|r [|r' M']]; unfold zlen; cbn; try lia. by exists r.
Qed.

(** A fragment that adds nothing lies within one range. *)
Lemma nothing_added :
  mp_added_bytes p = 0 -> exists r, M = [r] /\ rr_start r = mp_union_start p /\ rr_last r = mp_union_end p.
Proof.
  intros Ha. pose proof (mo_length _ _ _ _ _ _ Hm) as Hlen. rewrite Ha in Hlen.
  pose proof (mo_hull_ranges _ _ _ _ _ _ Hm) as Hh. destruct union_nonneg as [_ Hu].
  destruct merge_parts_wf as (_ & HM & _). clear Hw Hsp Hm. destruct M as [|r M'].
  { cbn in Hlen. lia. }
  pose proof HM as (? & ? & ? & HM'). destruct M' as [|r' M''].
  { exists r. destruct (Hh r) as [? ?]; [set_solver|]. cbn in Hlen. unfold rr_last in *. split; [done|lia]. }
  exfalso. pose proof (held_le_span _ _ HM') as Hs. rewrite zlen_cons in Hs. pose proof (zlen_nonneg M'').
  destruct (Hh r) as [? _]; [set_solver|].
  assert (ranges_end (rr_last r) (r' :: M'') <= mp_union_end p).
  { clear -Hh. cbn [ranges_end]. assert (forall r0, r0 ∈ r' :: M'' -> rr_last r0 <= mp_union_end p) as Hf.
    { intros r0 ?. apply Hh. set_solver. } clear Hh. generalize dependent r'.
    induction M'' as [|r1 M'' IH]; intros r' Hf; cbn; [apply Hf; set_solver|].
    apply IH. intros r0 ?. apply Hf. set_solver. }
  cbn [held] in *. unfold rr_last in *. lia.
Qed.

Lemma unchanged_merged policy :
  mp_added_bytes p = 0 -> mp_conflicting_bytes p = 0 ->
  exists r, M = [r] /\ merged_range policy inc p M r.
Proof.
  intros Ha Hc. destruct (nothing_added Ha) as (r & EM & Hs & He). exists r. split; [done|].
  split; [done|done|]. intros i. rewrite EM. unfold merged_view.
  destruct (inc_view inc i) as [b|] eqn:E; [|by destruct policy, (rview [r] i)].
  assert (inc_offset inc <= i < inc_end inc) as Hi by (apply inc_view_spec; [done|by rewrite E]).
  enough (rview [r] i = Some b) as -> by (by destruct policy).
  rewrite <-EM, <-view_inside by done. rewrite (mo_added _ _ _ _ _ _ Hm) in Ha.
  rewrite (mo_conflicting _ _ _ _ _ _ Hm) in Hc.
  pose proof (tally_full (present (rview l)) (inc_offset inc) (inc_payload inc) i b) as H1.
  pose proof (tally_0_none (differs (rview l)) (inc_offset inc) (inc_payload inc) i b Hc E) as H2.
  specialize (H1 ltac:(unfold overlapping in Ha; lia) E). unfold present, differs in *.
  destruct (rview l i) as [x|]; [|done]. apply negb_false_iff, Z.eqb_eq in H2. congruence.
Qed.

Definition appended (r : RetainedRange) : RetainedRange :=
  mkRange (rr_start r) (rr_bytes r ++ inc_payload inc)
    (grown_capacity (rr_capacity r) (zlen (rr_bytes r ++ inc_payload inc))).

Definition prepended (r : RetainedRange) : RetainedRange :=
  mkRange (inc_offset inc) (inc_payload inc ++ rr_bytes r)
    (grown_capacity (rr_capacity r) (zlen (inc_payload inc ++ rr_bytes r))).

Lemma append_merged policy :
  merge_kind l inc p = KAppend ->
  exists r, M = [r] /\ rr_last r = inc_offset inc /\ merged_range policy inc p M (appended r).
Proof.
  unfold merge_kind. destruct ((mp_added_bytes p =? 0) && _); [done|].
  destruct (Z.eqb_spec (mp_affected_count p) 1) as [Hc|], (Z.eqb_spec (mp_added_bytes p) (zlen (inc_payload inc)))
    as [Ha|]; cbn [andb]; try done.
  destruct (touched_single Hc) as [r EM]. rewrite (first_touched r EM). cbn [mbind option_bind fmap option_fmap option_map].
  case_bool_decide as Hend; [|by case_bool_decide]. intros _.
  assert (rr_last r = inc_offset inc) as Hl by (by apply checked_add_Some in Hend as [-> _]).
  exists r. split; [done|]. split; [done|]. pose proof Hsp as (? & Hse & ? & ?).
  pose proof (mo_length _ _ _ _ _ _ Hm) as Hlen. destruct (mo_hull _ _ _ _ _ _ Hm).
  destruct (mo_hull_ranges _ _ _ _ _ _ Hm r) as [? ?]; [rewrite EM; set_solver|].
  rewrite EM in Hlen |- *. cbn [held] in Hlen. unfold rr_last in Hl.
  assert (rr_start r = mp_union_start p /\ inc_end inc = mp_union_end p) as [Es Ee] by lia.
  split; [done|unfold rr_last; cbn; rewrite zlen_app; lia|]. intros i. rewrite !rview_single. unfold merged_view.
  rewrite rview_single. unfold inc_view, appended. cbn [rr_start rr_bytes].
  rewrite zget_app. destruct (Z.ltb_spec (i - rr_start r) (zlen (rr_bytes r))).
  - rewrite (zget_neg (inc_payload inc)) by lia. by destruct policy, (zget (rr_bytes r) (i - rr_start r)).
  - rewrite (zget_ge (rr_bytes r)) by lia. replace (i - inc_offset inc) with (i - rr_start r - zlen (rr_bytes r)) by lia.
    by destruct policy, (zget (inc_payload inc) (i - rr_start r - zlen (rr_bytes r))).
Qed.

Lemma prepend_merged policy :
  merge_kind l inc p = KPrepend ->
  exists r, M = [r] /\ rr_start r = inc_end inc /\ merged_range policy inc p M (prepended r).
Proof.
  unfold merge_kind. destruct ((mp_added_bytes p =? 0) && _); [done|].
  destruct (Z.eqb_spec (mp_affected_count p) 1) as [Hc|], (Z.eqb_spec (mp_added_bytes p) (zlen (inc_payload inc)))
    as [Ha|]; cbn [andb]; try done.
  destruct (touched_single Hc) as [r EM]. rewrite (first_touched r EM). cbn [mbind option_bind fmap option_fmap option_map].
  case_bool_decide; [done|]. case_bool_decide as Hst; [|done]. intros _. injection Hst as Hst.
  exists r. split; [done|]. split; [done|]. pose proof Hsp as (? & Hse & ? & ?).
  pose proof (mo_length _ _ _ _ _ _ Hm) as Hlen. destruct (mo_hull _ _ _ _ _ _ Hm).
  destruct (mo_hull_ranges _ _ _ _ _ _ Hm r) as [? ?]; [rewrite EM; set_solver|].
  rewrite EM in Hlen |- *. cbn [held] in Hlen. unfold rr_last in *.
  assert (inc_offset inc = mp_union_start p /\ rr_start r + zlen (rr_bytes r) = mp_union_end p) as [Es Ee] by lia.
  split; [done|unfold rr_last; cbn; rewrite zlen_app; lia|]. intros i. rewrite !rview_single. unfold merged_view.
  rewrite rview_single. unfold inc_view, prepended. cbn [rr_start rr_bytes].
  rewrite zget_app. destruct (Z.ltb_spec (i - inc_offset inc) (zlen (inc_payload inc))).
  - rewrite (zget_neg (rr_bytes r)) by lia. by destruct policy, (zget (inc_payload inc) (i - inc_offset inc)).
  - rewrite (zget_ge (inc_payload inc)) by lia.
    replace (i - inc_offset inc - zlen (inc_payload inc)) with (i - rr_start r) by lia.
    by destruct policy, (zget (rr_bytes r) (i - rr_start r)).
Qed.

(** ** The new list of ranges *)

Lemma spliced_wf policy x :
  merged_range policy inc p M x -> zlen (rr_bytes x) <= rr_capacity x -> ranges_wf (-1) (L ++ [x] ++ R).
Proof.
  intros [Hs He _] Hc. destruct union_nonneg as [? ?]. destruct merge_parts_wf as (HL & _ & HR).
  pose proof (mo_left _ _ _ _ _ _ Hm). pose proof (mo_max _ _ _ _ _ _ Hm). pose proof (mo_right _ _ _ _ _ _ Hm) as Hr.
  apply ranges_wf_app. split; [done|]. cbn [app ranges_wf]. unfold rr_last in *.
  split; [lia|]. split; [lia|]. split; [lia|]. rewrite He. clear -HR Hr. destruct R as [|r R']; [done|].
  destruct HR as (? & ?). split; [|done]. apply Hr. set_solver.
Qed.

Lemma spliced_held policy x :
  merged_range policy inc p M x -> held (L ++ [x] ++ R) = held l + mp_added_bytes p.
Proof.
  intros [Hs He _]. rewrite (mo_split _ _ _ _ _ _ Hm), !ranges_held_app. cbn [held].
  pose proof (mo_length _ _ _ _ _ _ Hm). unfold rr_last in He. lia.
Qed.

Lemma spliced_view policy x i :
  merged_range policy inc p M x ->
  rview (L ++ [x] ++ R) i = merged_view policy (rview l) (inc_view inc) i.
Proof.
  intros [_ _ Hv]. rewrite !rview_or, Hv. unfold merged_view.
  destruct (decide (inc_offset inc <= i < inc_end inc)) as [Hi|Hi].
  - rewrite (view_inside i Hi). destruct (apart_inside i Hi) as [-> ->].
    destruct (proj2 (inc_view_spec inc i Hsp) Hi) as [b ->]. by destruct (rview M i), policy.
  - rewrite (inc_view_None inc i Hsp Hi), (mo_split _ _ _ _ _ _ Hm), !rview_or.
    by destruct policy, (rview L i), (rview M i), (rview R i).
Qed.

(** [x] is the range [update] leaves in place of the touched ones. *)
Definition update_range (update : RangeUpdate) (x : RetainedRange) : Prop :=
  match update with
  | UUnchanged => M = [x]
  | UAppend => exists r, M = [r] /\ x = appended r
  | UPrepend => exists r, M = [r] /\ x = prepended r
  | UReplace y => x = y
  end.

Lemma overwrite_touched (x r : RetainedRange) :
  M = [r] -> overwrite l (mp_first_affected p) [x] = L ++ [x] ++ R.
Proof.
  intros E. rewrite (mo_split _ _ _ _ _ _ Hm), (mo_first _ _ _ _ _ _ Hm), E. unfold overwrite.
  change (zlen [x]) with 1. unfold ztake, zdrop, zlen. rewrite Nat2Z.id, take_app_length. do 2 f_equal.
  replace (Z.to_nat (Z.of_nat (length L) + 1)) with (length L + 1)%nat by lia.
  by rewrite drop_app_add'.
Qed.

Lemma apply_range_update_spec alloc update x :
  update_range update x ->
  ends resource_error (apply_range_update alloc l update inc p) (fun l' => l' = L ++ [x] ++ R).
Proof.
  intros Hu. destruct update as [| | |y]; cbn [update_range apply_range_update] in *.
  - cbn. by rewrite (mo_split _ _ _ _ _ _ Hm), Hu.
  - destruct Hu as (r & EM & ->). rewrite (first_touched r EM). cbn [or_overflow ok_or]. rewrite Ok_bind.
    apply (overwrite_touched (appended r) r EM).
  - destruct Hu as (r & EM & ->). rewrite (first_touched r EM). cbn [or_overflow ok_or]. rewrite Ok_bind.
    apply (overwrite_touched (prepended r) r EM).
  - subst y. pose proof (ranges_wf_count (-1) l ltac:(lia) Hw) as Hcnt.
    pose proof (mo_split _ _ _ _ _ _ Hm) as El. assert (zlen l = zlen L + zlen M + zlen R) as Hl.
    { rewrite El, !zlen_app. lia. }
    pose proof (zlen_nonneg L). pose proof (zlen_nonneg M). pose proof (zlen_nonneg R).
    rewrite (mo_first _ _ _ _ _ _ Hm), (mo_count _ _ _ _ _ _ Hm). unfold or_overflow.
    rewrite checked_add_ok by (unfold usize_max, u64_max; lia). cbn [ok_or]. rewrite Ok_bind.
    rewrite get_range_ok by lia. cbn [ok_or]. rewrite Ok_bind. apply ends_bind.
    apply (ends_mono _ _ (fun _ => True)).
    { destruct (zlen M =? 0); [|done]. unfold ip_try_reserve.
      by destruct (alloc AllocRanges (zlen l + 1) && _). }
    intros _ _. cbn [ends]. rewrite El, <-zlen_app. unfold ztake, zdrop, zlen.
    rewrite !Nat2Z.id, take_app_length. do 2 f_equal. rewrite (app_assoc L M R). apply drop_app_length.
Qed.
End merge.
