(* ===== verification/IpFragment.v ===== *)
(** * IP reassembly: what validation guarantees

    The fragments [validate_fragment] lets through, and the invariant of a
    retained datagram that [push] checks them against. *)

From stdpp Require Import base tactics option list numbers gmap strings.
From Stdlib Require Import ZArith Lia.
From S2P Require Import Prelude Checksum Ordered Flow Headers HeadersProofs.
From S2P Require Import IpModel IpValidate IpMerge IpReconstruct IpRanges IpApply.

(** ** Fragments as a caller can build them: [Bytes] of octets, [u16] offsets *)

Definition fragment_key (f : Fragment) : DatagramKey :=
  match f with Fragment4 f => Key4 (f4_key f) | Fragment6 f => Key6 (f6_key f) end.
Definition fragment_units (f : Fragment) : Z :=
  match f with Fragment4 f => f4_fragment_offset f | Fragment6 f => f6_fragment_offset f end.
Definition fragment_more (f : Fragment) : bool :=
  match f with Fragment4 f => f4_more_fragments f | Fragment6 f => f6_more_fragments f end.
Definition fragment_payload (f : Fragment) : bytes :=
  match f with Fragment4 f => f4_payload f | Fragment6 f => f6_payload f end.
Definition fragment_prefix (f : Fragment) : bytes :=
  match f with Fragment4 f => f4_header f | Fragment6 f => f6_unfragmentable_prefix f end.

Record fragment_ok (f : Fragment) : Prop := {
  fk_units : 0 <= fragment_units f <= u16_max;
  fk_payload : octets (fragment_payload f);
  fk_prefix : octets (fragment_prefix f);
  fk_payload_len : zlen (fragment_payload f) <= ip_isize_max;
  fk_prefix_len : zlen (fragment_prefix f) <= ip_isize_max;
  fk_next_header : match f with Fragment6 f => 0 <= f6_next_header f < 256 | _ => True end
}.

(** ** Headers fit to rebuild a datagram *)

Definition header4_ok (header : bytes) : Prop := octets header /\ 20 <= zlen header <= 60.

(** [predecessor] is the Next Header byte that announces the Fragment header. *)
Definition prefix6_ok (prefix : bytes) (predecessor next_header : Z) : Prop :=
  octets prefix /\ IPV6_LENGTH <= zlen prefix /\ zget prefix predecessor = Some FRAGMENT /\
  (predecessor = 6 \/ IPV6_LENGTH <= predecessor) /\ 0 <= next_header < 256.

(** ** The IPv6 extension walk *)

Lemma predecessor_loop_spec prefix : octets prefix -> zlen prefix <= ip_isize_max ->
  forall fuel c predecessor,
  ch_bytes c = prefix -> ch_taken c <= ch_limit c -> ch_limit c - ch_taken c + 1 <= Z.of_nat fuel ->
  zget prefix predecessor = Some (ch_protocol c) ->
  IPV6_LENGTH <= ch_offset c -> (predecessor = 6 \/ IPV6_LENGTH <= predecessor) ->
  exists o, predecessor_loop fuel c predecessor (zlen prefix) = Ok o /\
    forall q, o = Some q -> zget prefix q = Some FRAGMENT /\ (q = 6 \/ IPV6_LENGTH <= q).
Proof.
  intros Ho Hlen. induction fuel as [|fuel IH]; intros c predecessor Hb Htk Hf Hp Hoff Hq; [lia|].
  cbn [predecessor_loop chain_position]. destruct (Z.eqb_spec (ch_protocol c) FRAGMENT) as [Hfr|Hfr].
  { eexists. split; [reflexivity|]. intros q Hq'. rewrite Hfr in Hp.
    destruct (ch_offset c =? zlen prefix); [|done]. injection Hq' as <-. done. }
  unfold chain_next. destruct (ch_done c || _); [by eexists; split|].
  destruct (Z.leb_spec (ch_limit c) (ch_taken c)); [by eexists; split|].
  pose proof (chain_step_spec c ltac:(by rewrite Hb)
    ltac:(rewrite Hb; unfold u64_max, ip_isize_max in *; lia)) as Hs.
  destruct (chain_step c) as [e|e|]; [|by eexists; split|done]. cbn [safe] in Hs. destruct Hs as (He & H8 & Hend & Hn).
  apply IH; cbn; try lia; try done. rewrite He. by rewrite <-Hb.
Qed.

Lemma ipv6_fragment_predecessor_spec prefix :
  octets prefix -> zlen prefix <= ip_isize_max ->
  exists o, ipv6_fragment_predecessor prefix = Ok o /\
    forall q, o = Some q -> zget prefix q = Some FRAGMENT /\ (q = 6 \/ IPV6_LENGTH <= q).
Proof.
  intros Ho Hl. unfold ipv6_fragment_predecessor.
  destruct (first_chunk IPV6_LENGTH prefix) as [base|] eqn:E; [|by eexists; split].
  apply first_chunk_Some in E as [Hlen ->]. pose proof (Z.div_pos (zlen prefix) 8).
  pose proof (zlen_nonneg prefix).
  apply predecessor_loop_spec; cbn; try done; try lia.
  unfold at_. rewrite zget_ztake, (proj2 (Z.ltb_lt 6 _)) by done. unfold IPV6_LENGTH in *.
  by destruct (zget_lt_is_Some prefix 6) as [b ->]; [lia|].
Qed.

(** ** Validation *)

Definition prefix_ok (inc : Incoming) : Prop :=
  match inc_key inc, inc_reconstruction inc with
  | Key4 _, Incoming4 header => header4_ok header
  | Key6 _, Incoming6 prefix predecessor next_header => prefix6_ok prefix predecessor next_header
  | _, _ => False
  end.

Record incoming_ok (l : IpLimits) (inc : Incoming) : Prop := {
  io_span : span_ok inc;
  io_max : inc_end inc <= max_bytes_per_datagram l;
  io_payload : octets (inc_payload inc);
  io_atomic : inc_offset inc = 0 -> inc_more_fragments inc = true;
  io_prefix : prefix_ok inc
}.

(** The fragment, read as [validate_fragment] reads it. *)
Record incoming_of (f : Fragment) (inc : Incoming) : Prop := {
  if_key : inc_key inc = fragment_key f;
  if_offset : inc_offset inc = 8 * fragment_units f;
  if_more : inc_more_fragments inc = fragment_more f;
  if_payload : inc_payload inc = fragment_payload f;
  if_header : inc_reconstruction inc =
    match f with
    | Fragment4 f => Incoming4 (f4_header f)
    | Fragment6 f => Incoming6 (f6_unfragmentable_prefix f) (f6_predecessor_next_header_offset f)
                       (f6_next_header f)
    end
}.

Lemma ends_err {E A} (Q : E -> Prop) (e : E) (P : A -> Prop) : Q e -> ends Q (@Err E A e) P.
Proof. done. Qed.

Lemma validate_ipv4_header_spec f :
  octets (f4_header f) -> zlen (f4_payload f) <= ip_isize_max ->
  ends external (validate_ipv4_header f) (fun _ => header4_ok (f4_header f)).
Proof.
  intros Ho Hl. unfold validate_ipv4_header.
  destruct (first_chunk IPV4_MIN_LENGTH (f4_header f)) as [fixed|] eqn:E; [|done].
  apply first_chunk_Some in E as [Hlen ->]. destruct (negb _); [done|].
  pose proof (octets_at (ztake IPV4_MIN_LENGTH (f4_header f)) 0 (octets_ztake _ _ Ho)) as H0.
  pose proof (land15 (at_ (ztake IPV4_MIN_LENGTH (f4_header f)) 0) ltac:(lia)) as H15.
  unfold or_overflow. rewrite checked_mul_ok by (unfold usize_max, u64_max; lia). cbn [ok_or]. rewrite Ok_bind.
  destruct (Z.ltb_spec (Z.land (at_ (ztake IPV4_MIN_LENGTH (f4_header f)) 0) 15 * 4) IPV4_MIN_LENGTH); [done|].
  cbn [orb]. destruct (Z.eqb_spec (Z.land (at_ (ztake IPV4_MIN_LENGTH (f4_header f)) 0) 15 * 4)
    (zlen (f4_header f))) as [Hh|]; [|done]. cbn [negb].
  destruct (negb _); [done|]. destruct (negb _ || negb _); [done|].
  destruct (_ || _); [done|]. cbn [ends]. split; [done|]. unfold IPV4_MIN_LENGTH in *. lia.
Qed.

Lemma validate_ipv6_prefix_spec f :
  octets (f6_unfragmentable_prefix f) -> zlen (f6_unfragmentable_prefix f) <= ip_isize_max ->
  zlen (f6_payload f) <= ip_isize_max -> 0 <= f6_next_header f < 256 ->
  ends external (validate_ipv6_prefix f) (fun _ =>
    prefix6_ok (f6_unfragmentable_prefix f) (f6_predecessor_next_header_offset f) (f6_next_header f)).
Proof.
  intros Ho Hl Hpl Hn. unfold validate_ipv6_prefix.
  destruct (first_chunk IPV6_LENGTH (f6_unfragmentable_prefix f)) as [base|] eqn:E; [|done].
  apply first_chunk_Some in E as [Hlen ->]. destruct (negb _); [done|].
  destruct (ipv6_fragment_predecessor_spec _ Ho Hl) as (o & -> & Hq). rewrite Ok_bind.
  case_bool_decide as Ep; cbn [negb]; [|done]. destruct (Hq _ Ep) as [Hq1 Hq2].
  unfold or_overflow, usize_max, u64_max, ip_isize_max, IPV6_FRAGMENT_HEADER_LENGTH in *.
  rewrite (checked_sub_ok (zlen (f6_unfragmentable_prefix f))) by lia. cbn [mbind option_bind].
  unfold IPV6_LENGTH in *.
  rewrite (checked_add_ok _ (zlen (f6_unfragmentable_prefix f) - 40)) by lia. cbn [mbind option_bind].
  pose proof (zlen_nonneg (f6_payload f)).
  destruct (checked_add 18446744073709551615 _ (zlen (f6_payload f))) eqn:Ec.
  2:{ rewrite checked_add_ok in Ec by lia. done. }
  cbn [ok_or]. rewrite Ok_bind. destruct (negb _); [done|]. destruct (_ || _); [done|]. cbn [ends].
  by repeat split; try apply Hn.
Qed.

(** ** Retained datagrams *)

Definition recon_len (r : Reconstruction) : Z :=
  match r with
  | Reconstruct4 h _ => match h with Some h => zlen h | None => 0 end
  | Reconstruct6 prefix _ _ _ _ => zlen prefix
  end.

(** The header kept suits the key's family; an IPv4 datagram has none only while
    its first byte is missing. *)
Definition recon_wf (key : DatagramKey) (view : Z -> option Z) (r : Reconstruction) : Prop :=
  match key, r with
  | Key4 _, Reconstruct4 (Some header) _ => header4_ok header
  | Key4 _, Reconstruct4 None _ => view 0 = None
  | Key6 _, Reconstruct6 prefix predecessor next_header _ _ => prefix6_ok prefix predecessor next_header
  | _, _ => False
  end.

(** The datagram is one range from zero to its final length. *)
Definition complete (l : list RetainedRange) (final : option Z) : Prop :=
  exists r f, l = [r] /\ final = Some f /\ rr_start r = 0 /\ rr_last r = f.

Record datagram_wf (lim : IpLimits) (key : DatagramKey) (st : DatagramState) : Prop := {
  dw_ranges : ranges_wf (-1) (ranges st);
  dw_nonempty : ranges st <> [];
  dw_unique : unique_bytes st = held (ranges st);
  dw_unique_max : unique_bytes st <= max_bytes_per_datagram lim;
  dw_fragments : 1 <= fragment_count st <= max_fragments_per_datagram lim;
  dw_duplicates : 0 <= duplicate_fragments st <= fragment_count st;
  dw_overlap : 0 <= overlap_bytes st <= 65535 * fragment_count st;
  dw_final : forall f, final_length st = Some f ->
    ranges_end (-1) (ranges st) <= f <= MAX_WIRE_LENGTH;
  dw_non_final : forall e, max_non_final_end st = Some e ->
    0 < e <= ranges_end (-1) (ranges st) /\ forall f, final_length st = Some f -> e < f;
  dw_incomplete : ~ complete (ranges st) (final_length st);
  dw_recon : recon_wf key (rview (ranges st)) (reconstruction st);
  dw_charge : memory_charge st =
    RANGE_METADATA_CHARGE * zlen (ranges st) + stored (ranges st) + recon_len (reconstruction st);
  dw_deadline : dg_deadline st = instant_checked_add (dg_last_update st) (ip_idle_expiry lim) /\
                is_Some (dg_deadline st)
}.

(** What the engine holds for the key of a fragment. *)
Definition existing_wf (lim : IpLimits) (key : DatagramKey) (existing : option DatagramState) : Prop :=
  from_option (datagram_wf lim key) True existing.

Definition ranges_of (existing : option DatagramState) : list RetainedRange := from_option ranges [] existing.

Lemma ranges_end_last lo l r : last l = Some r -> ranges_end lo l = rr_last r.
Proof.
  revert lo. induction l as [|r' l IH]; intros lo; [done|]. destruct l; [by intros [= ->]|].
  intros Hl. cbn [ranges_end]. apply (IH (rr_last r')). exact Hl.
Qed.

Lemma retained_last_end_spec lim key existing :
  existing_wf lim key existing ->
  retained_last_end existing = match existing with
                               | Some st => Some (ranges_end (-1) (ranges st))
                               | None => None
                               end.
Proof.
  destruct existing as [st|]; [|done]. intros Hst. cbn in Hst. unfold retained_last_end. cbn.
  destruct (last (ranges st)) as [r|] eqn:E.
  - cbn. rewrite (ranges_end_last _ _ _ E). apply rr_end_ok.
    apply (ranges_wf_in (-1) (ranges st) r (dw_ranges _ _ _ Hst)). by apply last_Some_elem_of.
  - apply last_None in E. by destruct (dw_nonempty _ _ _ Hst).
Qed.

(** ** The checks of [push] against a retained datagram *)

Section checks.
Context (lim : IpLimits) (existing : option DatagramState) (inc : Incoming).
Context (Hex : existing_wf lim (inc_key inc) existing) (Hpre : prefix_ok inc).

(** The header bytes that precede the payload once this fragment is in, without
    the IPv6 base header. *)
Definition wire_prefix : Z :=
  match inc_reconstruction inc with
  | Incoming4 header =>
      if inc_offset inc =? 0 then zlen header else
      match existing with
      | Some state => match reconstruction state with
                      | Reconstruct4 (Some h) _ => zlen h
                      | _ => IPV4_MIN_LENGTH
                      end
      | None => IPV4_MIN_LENGTH
      end
  | Incoming6 prefix _ _ =>
      match existing with
      | Some state => match reconstruction state with
                      | Reconstruct6 established _ _ _ zero =>
                          if negb zero && (inc_offset inc =? 0) then zlen prefix else zlen established
                      | _ => zlen prefix
                      end
      | None => zlen prefix
      end - IPV6_LENGTH
  end.

Definition wire_extent (final : option Z) : Z :=
  default (Z.max (inc_end inc) (from_option (fun st => ranges_end (-1) (ranges st)) 0 existing)) final.

(** The family of the fragment and of what is retained agree. *)
Lemma family_cases :
  (exists header, inc_reconstruction inc = Incoming4 header /\ header4_ok header /\
     match existing with
     | Some st => exists h e, reconstruction st = Reconstruct4 h e /\ from_option header4_ok True h
     | None => True
     end) \/
  (exists prefix q n, inc_reconstruction inc = Incoming6 prefix q n /\ prefix6_ok prefix q n /\
     match existing with
     | Some st => exists p' q' n' e z, reconstruction st = Reconstruct6 p' q' n' e z /\ prefix6_ok p' q' n'
     | None => True
     end).
Proof.
  pose proof Hpre as Hp. unfold prefix_ok in Hp. destruct (inc_key inc), (inc_reconstruction inc) as [h|p q n]; try done.
  - left. exists h. split; [done|]. split; [done|]. destruct existing as [st|]; [|done]. cbn in Hex.
    pose proof (dw_recon _ _ _ Hex) as Hr. unfold recon_wf in Hr.
    destruct (reconstruction st) as [h' e'|]; [|done]. exists h', e'. split; [done|]. by destruct h'.
  - right. exists p, q, n. split; [done|]. split; [done|]. destruct existing as [st|]; [|done]. cbn in Hex.
    pose proof (dw_recon _ _ _ Hex) as Hr. unfold recon_wf in Hr.
    destruct (reconstruction st) as [|p' q' n' e z]; [done|]. by exists p', q', n', e, z.
Qed.

Lemma wire_extent_check final :
  ends external (validate_family_wire_extent existing inc final) (fun _ =>
    wire_prefix + wire_extent final <= MAX_WIRE_LENGTH).
Proof.
  unfold validate_family_wire_extent. rewrite (retained_last_end_spec _ _ _ Hex).
  match goal with |- context [checked_add usize_max _ (default ?d final)] =>
    assert (default d final = wire_extent final) as -> end.
  { unfold wire_extent. by destruct existing. }
  assert (forall n, 0 <= n -> ends external
    (if match checked_add usize_max n (wire_extent final) with Some length => MAX_WIRE_LENGTH <? length | None => true end
     then malformed (ReconstructedLength (DatagramKey_family (inc_key inc))) else Ok tt)
    (fun _ => n + wire_extent final <= MAX_WIRE_LENGTH)) as Hfin.
  { intros n Hn. destruct (checked_add _ _ _) as [t|] eqn:E; [|done]. apply checked_add_Some in E as [-> _].
    by destruct (Z.ltb_spec MAX_WIRE_LENGTH (n + wire_extent final)). }
  unfold wire_prefix.
  destruct family_cases as [(h & -> & [Ho Hh] & Hst)|(p & q & n & -> & (Ho & Hp & _) & Hst)].
  - destruct (inc_offset inc =? 0); [rewrite Ok_bind; apply Hfin; lia|].
    destruct existing as [st|]; [|rewrite Ok_bind; apply Hfin; by unfold IPV4_MIN_LENGTH].
    destruct Hst as (h' & e & -> & Hh'). rewrite Ok_bind. apply Hfin.
    destruct h'; [apply zlen_nonneg|by unfold IPV4_MIN_LENGTH].
  - unfold or_overflow. unfold IPV6_LENGTH in *. destruct existing as [st|].
    + destruct Hst as (p' & q' & n' & e & z & -> & (_ & Hp' & _)). unfold IPV6_LENGTH in Hp'.
      rewrite checked_sub_ok by (destruct (negb z && _); lia). cbn [ok_or]. rewrite Ok_bind. apply Hfin.
      destruct (negb z && _); lia.
    + rewrite checked_sub_ok by lia. cbn [ok_or]. rewrite Ok_bind. apply Hfin. lia.
Qed.
End checks.

Lemma validate_fragment_spec f lim :
  fragment_ok f ->
  ends external (validate_fragment f lim) (fun inc => incoming_ok lim inc /\ incoming_of f inc).
Proof.
  intros Hf. unfold validate_fragment. fold (fragment_units f).
  destruct (Z.ltb_spec 8191 (fragment_units f)); [done|].
  pose proof (fk_units _ Hf) as Hu. pose proof (fk_payload_len _ Hf) as Hpl.
  match goal with |- ends _ (?m ≫= ?k) _ => assert (ends external m (fun '(key, more, payload, recon, ecn) =>
    key = fragment_key f /\ more = fragment_more f /\ payload = fragment_payload f /\
    prefix_ok (mkIncoming key 0 0 more payload recon ecn) /\
    recon = match f with
            | Fragment4 f => Incoming4 (f4_header f)
            | Fragment6 f => Incoming6 (f6_unfragmentable_prefix f) (f6_predecessor_next_header_offset f)
                               (f6_next_header f)
            end)) as Hm end.
  { destruct Hf as [_ _ Hx _ Hxl Hn]. destruct f as [f|f]; cbn in *; apply ends_bind; (eapply ends_mono;
      [apply validate_ipv4_header_spec || apply validate_ipv6_prefix_spec; done|]); intros ecn Hh; cbn; done. }
  apply ends_bind. eapply ends_mono; [exact Hm|]. clear Hm. intros [[[[key more] payload] recon] ecn] (-> & -> & -> & Hp & Hrec).
  set (units := fragment_units f) in *. destruct ((units =? 0) && negb (fragment_more f)) eqn:Eat; [done|].
  rewrite is_empty_zlen. destruct (Z.eqb_spec (zlen (fragment_payload f)) 0); [done|].
  pose proof (zlen_nonneg (fragment_payload f)). destruct (fragment_more f && negb _); [done|].
  unfold or_overflow, usize_max, u64_max, u16_max, ip_isize_max in *.
  rewrite checked_mul_ok by lia. cbn [ok_or]. rewrite Ok_bind, checked_add_ok by lia. cbn [ok_or]. rewrite Ok_bind.
  set (inc := mkIncoming (fragment_key f) (units * 8) _ (fragment_more f) (fragment_payload f) recon ecn).
  apply ends_bind. eapply ends_mono.
  { apply (wire_extent_check lim None inc); [done|exact Hp]. }
  intros [] Hw. cbv beta in Hw. destruct (Z.ltb_spec (max_bytes_per_datagram lim) (inc_end inc)); [done|]. cbn [ends].
  assert (wire_extent None inc (if negb (inc_more_fragments inc) then Some (inc_end inc) else None) = inc_end inc) as Ew.
  { unfold wire_extent. cbn. destruct (fragment_more f); cbn; lia. }
  assert (0 <= wire_prefix None inc) as Hwp.
  { unfold wire_prefix, prefix_ok, header4_ok, prefix6_ok in *. cbn in *. destruct (fragment_key f), recon; try done.
    - destruct (units * 8 =? 0); unfold IPV4_MIN_LENGTH; lia.
    - lia. }
  split; split; cbn; try done; try lia.
  - unfold span_ok. cbn. rewrite Ew in Hw. cbn in Hw. lia.
  - apply (fk_payload _ Hf).
  - intros E0. assert (units =? 0 = true) as Eu by (apply Z.eqb_eq; lia). rewrite Eu in Eat.
    by destruct (fragment_more f).
Qed.

(** ** Final lengths, ECN and headers *)

Record final_post (existing : option DatagramState) (inc : Incoming) (final : option Z) : Prop := {
  fp_bounds : forall f, final = Some f -> inc_end inc <= f <= MAX_WIRE_LENGTH;
  fp_retained : forall f st, final = Some f -> existing = Some st ->
    ranges_end (-1) (ranges st) <= f /\ forall e, max_non_final_end st = Some e -> e < f;
  fp_more : forall f, final = Some f -> inc_more_fragments inc = true -> inc_end inc < f;
  fp_established : forall st f, existing = Some st -> final_length st = Some f -> final = Some f;
  fp_unknown : inc_more_fragments inc = true -> final = existing ≫= final_length;
  fp_last : inc_more_fragments inc = false -> final = Some (inc_end inc)
}.

(** An offset-zero fragment does not change the length of the IPv4 header kept. *)
Definition same_header_length (existing : option DatagramState) (inc : Incoming) : Prop :=
  forall st h e header, existing = Some st -> reconstruction st = Reconstruct4 (Some h) e ->
    inc_reconstruction inc = Incoming4 header -> inc_offset inc = 0 -> zlen h = zlen header.

Section retained_checks.
Context (lim : IpLimits) (existing : option DatagramState) (inc : Incoming).
Context (Hex : existing_wf lim (inc_key inc) existing) (Hinc : incoming_ok lim inc).

Lemma plan_final_length_spec :
  ends external (plan_final_length existing inc) (final_post existing inc).
Proof.
  unfold plan_final_length. rewrite (retained_last_end_spec _ _ _ Hex). apply ends_bind.
  destruct (io_span _ _ Hinc) as (H0 & He & Hp & Hm).
  assert (forall st f, existing = Some st -> final_length st = Some f -> f <= MAX_WIRE_LENGTH) as Hfm.
  { intros st f -> Hf. cbn in Hex. by apply (dw_final _ _ _ Hex). }
  apply (ends_mono _ _ (fun final =>
    (inc_more_fragments inc = true -> final = existing ≫= final_length) /\
    (inc_more_fragments inc = false -> final = Some (inc_end inc)) /\
    (forall st f, existing = Some st -> final_length st = Some f -> final = Some f) /\
    (forall f, final = Some f -> f <= MAX_WIRE_LENGTH))).
  { destruct (inc_more_fragments inc).
    - cbn. split_and!; [done|done|by intros st f -> ?|]. destruct existing as [st|]; [|done]. cbn. eauto.
    - destruct existing as [st|]; cbn; [destruct (final_length st) as [e|] eqn:Ef|].
      + destruct (Z.eqb_spec e (inc_end inc)); [|done]. cbn. split_and!; [done|done|naive_solver|naive_solver].
      + cbn. split_and!; [done|done|naive_solver|naive_solver].
      + cbn. split_and!; [done|done|naive_solver|naive_solver]. }
  intros [f|] (H1 & H2 & H3 & H4); [|by split].
  destruct (match existing ≫= max_non_final_end with Some e => e =? f | None => false end) eqn:En; [done|].
  destruct (Z.ltb_spec f (inc_end inc)); [done|]. cbn [orb].
  destruct (match match existing with Some st => _ | None => None end with Some e => f <? e | None => false end) eqn:Er; [done|].
  destruct (inc_more_fragments inc && (f <=? inc_end inc)) eqn:Em; [done|]. cbn [ends].
  split; [| | |exact H3|exact H1|exact H2].
  - intros f' [= <-]. split; [lia|by apply H4].
  - intros f' st [= <-] ->. cbn in En, Er. rewrite Z.ltb_ge in Er. split; [done|]. intros e Hn. rewrite Hn in En.
    apply Z.eqb_neq in En. cbn in Hex. destruct (dw_non_final _ _ _ Hex e Hn) as [? _]. lia.
  - intros f' [= <-] Hmore. rewrite Hmore in Em. cbn in Em. apply Z.leb_gt in Em. lia.
Qed.

Lemma accumulated_ecn_spec : ends external (accumulated_ecn existing inc) (fun _ => True).
Proof. unfold accumulated_ecn. destruct existing; [|done]. by destruct (Reconstruction_ecn _), (inc_ecn inc). Qed.

(** An offset-zero fragment has the length of the header already kept. *)
Lemma consistency_spec :
  ends external (validate_reconstruction_consistency existing inc) (fun _ => same_header_length existing inc).
Proof.
  unfold validate_reconstruction_consistency.
  destruct (family_cases _ _ _ Hex (io_prefix _ _ Hinc)) as [(h & Eh & _ & Hst)|(p & q & n & Ep & _ & Hst)];
    (destruct existing as [st|]; [|done]).
  - destruct Hst as (h' & e & Er & _). rewrite Er, Eh.
    destruct ((inc_offset inc =? 0) && _) eqn:Ec; [done|]. cbn [ends]. intros st' h0 e0 header [= <-] Er' Eh' Ho.
    rewrite Er in Er'. injection Er' as -> ->. rewrite ?Eh in Eh'. injection Eh' as ->.
    rewrite Ho in Ec. cbn in Ec. apply negb_false_iff in Ec. unfold ipv4_headers_match in Ec.
    rewrite !andb_true_iff in Ec. destruct Ec as [[[[[[Hl _] _] _] _] _] _]. by apply Z.eqb_eq.
  - destruct Hst as (p' & q' & n' & e & z & Er & _). rewrite Er, Ep. cbn. intros. congruence.
Qed.

(** ** The header to keep *)

(** The header of the datagram once this fragment is in: IPv4 keeps the first one
    from offset zero, IPv6 the first one until offset zero supplies its own. *)
Definition settled (ecn : Ecn) : Reconstruction :=
  let zero := inc_offset inc =? 0 in
  let incoming :=
    match inc_reconstruction inc with
    | Incoming4 header => Reconstruct4 (if zero then Some header else None) ecn
    | Incoming6 prefix predecessor next_header => Reconstruct6 prefix predecessor next_header ecn zero
    end in
  match reconstruction <$> existing with
  | None => incoming
  | Some (Reconstruct4 (Some header) _) => Reconstruct4 (Some header) ecn
  | Some (Reconstruct4 None _) => incoming
  | Some (Reconstruct6 prefix predecessor next_header _ from_zero) =>
      if negb from_zero && zero then incoming
      else Reconstruct6 prefix predecessor next_header ecn from_zero
  end.

(** What the engine relies on of that header. *)
Record header_post (policy : OverlapPolicy) (ecn : Ecn) (r : Reconstruction) : Prop := {
  hp_wf : recon_wf (inc_key inc) (merged_view policy (rview (ranges_of existing)) (inc_view inc)) r;
  hp_ecn : Reconstruction_ecn r = ecn;
  hp_wire : match r with
            | Reconstruct4 (Some h) _ => zlen h = wire_prefix existing inc
            | Reconstruct4 None _ => True
            | Reconstruct6 prefix _ _ _ _ => zlen prefix - IPV6_LENGTH = wire_prefix existing inc
            end
}.

Lemma copy_bytes_spec alloc b : ends resource_error (copy_bytes alloc b) (fun c => c = b).
Proof. unfold copy_bytes, ip_try_reserve. by destruct (alloc AllocCopy (zlen b) && _). Qed.

Lemma inc_view_start : inc_offset inc <> 0 -> inc_view inc 0 = None.
Proof. intros. destruct (io_span _ _ Hinc) as (? & _). unfold inc_view. apply zget_neg. lia. Qed.

(** The header kept, its length as charged, and that keeping it allocates at most
    that much. *)
Lemma retained_header_spec :
  exists h, retained_header existing inc = Ok h /\ 0 <= RetainedHeader_len h inc /\
    reconstruction_copied_bytes existing inc <= RetainedHeader_len h inc /\
    0 <= reconstruction_copied_bytes existing inc.
Proof.
  assert (exists h, retained_header existing inc = Ok h) as [h Eh].
  { unfold retained_header.
    destruct (family_cases _ _ _ Hex (io_prefix _ _ Hinc)) as [(h & Eh & _ & Hst)|(p & q & n & Ep & _ & Hst)];
      (destruct existing as [st|]; [|eauto]).
    - destruct Hst as (h' & e & -> & _). rewrite Eh. eauto.
    - destruct Hst as (p' & q' & n' & e & z & -> & _). rewrite Ep. eauto. }
  exists h. split; [done|]. unfold reconstruction_copied_bytes. rewrite Eh.
  assert (0 <= RetainedHeader_len h inc).
  { destruct h as [|[[]|]|]; cbn; try lia; try apply zlen_nonneg. destruct (inc_reconstruction inc); apply zlen_nonneg. }
  destruct h; lia.
Qed.

(** Rewrite with what is known of the two headers. *)
Ltac known_headers :=
  repeat match goal with
  | E : reconstruction _ = _ |- _ => rewrite E
  | E : inc_reconstruction _ = _ |- _ => rewrite E
  end.

(** Cases on the family, and on the header already kept. *)
Ltac header_cases :=
  destruct (family_cases _ _ _ Hex (io_prefix _ _ Hinc))
    as [(h & Eh & Hh & Hst)|(pre & q & n & Eh & Hh & Hst)];
  destruct existing as [st|] eqn:Eex;
  [destruct Hst as ([h'|] & e & Er & Hh')| |destruct Hst as (p' & q' & n' & e & [|] & Er & Hh')|];
  cbn [fmap option_fmap option_map]; known_headers;
  destruct (Z.eqb_spec (inc_offset inc) 0) as [E0|E0]; cbn [andb negb is_none is_some].

Lemma materialize_settled alloc ecn :
  ends resource_error (materialize_reconstruction alloc existing inc ecn) (fun r => r = settled ecn).
Proof.
  pose proof (copy_bytes_spec alloc) as Hcopy. unfold materialize_reconstruction, retained_header, settled.
  header_cases; rewrite ?Ok_bind; try done; apply ends_bind; (eapply ends_mono; [apply Hcopy|]); by intros ? ->.
Qed.

Lemma retained_bytes_settled ecn :
  reconstruction_retained_bytes existing inc = Ok (recon_len (settled ecn)).
Proof.
  unfold reconstruction_retained_bytes, retained_header, settled. header_cases; cbn; by rewrite ?Eh.
Qed.

Lemma settled_post policy ecn : same_header_length existing inc -> header_post policy ecn (settled ecn).
Proof.
  intros Hcons. unfold same_header_length in Hcons. pose proof (io_prefix _ _ Hinc) as Hpre. unfold prefix_ok in Hpre.
  assert (forall st h e, existing = Some st -> reconstruction st = Reconstruct4 h e ->
    recon_wf (inc_key inc) (rview (ranges st)) (Reconstruct4 h e)) as Hr4.
  { intros st h e Est Er. pose proof Hex as Hst. rewrite Est in Hst. cbn in Hst. rewrite <-Er. apply (dw_recon _ _ _ Hst). }
  split; unfold settled.
  - header_cases; rewrite ?Eh in Hpre; destruct (inc_key inc) as [k|k]; try done; cbn [recon_wf].
    + specialize (Hr4 st None e eq_refl Er). cbn in Hr4. unfold merged_view, ranges_of. cbn [from_option].
      rewrite Hr4, inc_view_start by done. by destruct policy.
    + unfold merged_view, ranges_of. rewrite inc_view_start by done. by destruct policy.
  - by header_cases.
  - unfold wire_prefix. header_cases; try done; known_headers; cbn [andb negb]; try done. by eapply Hcons.
Qed.
End retained_checks.
