(* ===== verification/IpRebuild.v ===== *)
(** * IP reassembly: the rebuilt datagram

    [reconstruct_ipv4] and [reconstruct_ipv6]: the header fields they rewrite,
    the bytes they leave alone, and the IPv4 header checksum. *)

From stdpp Require Import base tactics option list numbers gmap strings.
From Stdlib Require Import ZArith Lia.
From S2P Require Import Prelude Checksum Ordered Flow Headers HeadersProofs.
From S2P Require Import IpModel IpValidate IpMerge IpReconstruct IpRanges IpApply IpFragment.

(** ** Writing into a prefix *)

Lemma overwrite_app {A} (l k : list A) a s :
  0 <= a -> a + zlen s <= zlen l -> overwrite (l ++ k) a s = overwrite l a s ++ k.
Proof.
  intros Ha Hl. pose proof (zlen_nonneg s). apply zget_ext. intros i Hi.
  pose proof (zlen_nonneg k).
  rewrite zget_overwrite, !zget_app, zlen_overwrite, zget_overwrite by (rewrite ?zlen_app; lia).
  destruct (Z.leb_spec a i), (Z.ltb_spec i (a + zlen s)), (Z.ltb_spec i (zlen l)); cbn; try done; lia.
Qed.

Lemma octets_overwrite l a s : octets l -> octets s -> octets (overwrite l a s).
Proof.
  intros Hl Hs. unfold overwrite. apply Forall_app. split; [by apply octets_ztake|].
  apply Forall_app. split; [done|]. by apply octets_zdrop.
Qed.

Lemma to_be_bytes16_octets x : 0 <= x <= 65535 -> octets (to_be_bytes16 x).
Proof.
  intros Hx. unfold to_be_bytes16. pose proof (Z.mod_pos_bound x 256).
  pose proof (Z.div_pos x 256). pose proof (Z.div_lt_upper_bound x 256 256). repeat constructor; lia.
Qed.

Lemma be16_to_be x : 0 <= x -> from_be_bytes (to_be_bytes16 x) = x.
Proof.
  intros Hx. unfold to_be_bytes16, from_be_bytes. cbn. pose proof (Z.div_mod x 256). lia.
Qed.

Lemma set_bytes_ok l k first last s :
  0 <= first -> last = first + zlen s -> last <= zlen l ->
  set_bytes (l ++ k) first last s = Ok (overwrite l first s ++ k).
Proof.
  intros H0 -> Hl. pose proof (zlen_nonneg s). pose proof (zlen_nonneg k). unfold set_bytes, or_overflow.
  rewrite get_range_ok by (rewrite ?zlen_app; lia). cbn [ok_or]. rewrite Ok_bind.
  rewrite (proj2 (Z.eqb_eq _ _)) by lia. by rewrite overwrite_app by lia.
Qed.

Lemma payload_length_ok parts :
  zlen (concat parts) <= usize_max -> payload_length parts = Ok (zlen (concat parts)).
Proof.
  intros Hl. unfold payload_length.
  enough (forall t, 0 <= t -> t + zlen (concat parts) <= usize_max ->
    foldl (fun total part => t ← total; checked_add usize_max t (zlen part)) (Some t) parts
    = Some (t + zlen (concat parts))) as H.
  { rewrite (H 0) by lia. done. }
  clear Hl. induction parts as [|p parts IH]; intros t Ht Hl; cbn.
  { change (zlen (@nil Z)) with 0. by rewrite Z.add_0_r. }
  cbn in Hl. rewrite zlen_app in *. pose proof (zlen_nonneg p). pose proof (zlen_nonneg (concat parts)).
  rewrite checked_add_ok, IH by lia. f_equal. lia.
Qed.

Lemma be16_zget l i a b : zget l i = Some a -> zget l (i + 1) = Some b -> be16 l i = from_be_bytes [a; b].
Proof. intros Ha Hb. unfold be16, at_. by rewrite Ha, Hb. Qed.

Lemma zslice_two (l : bytes) i : 0 <= i -> i + 2 <= zlen l -> zslice i (i + 2) l = [at_ l i; at_ l (i + 1)].
Proof.
  intros Hi Hl. destruct (zget_lt_is_Some l i) as [a Ha]; [lia|]. destruct (zget_lt_is_Some l (i + 1)) as [b Hb]; [lia|].
  unfold at_. rewrite Ha, Hb. cbn. apply zget_ext. intros j Hj. rewrite zget_zslice by lia.
  rewrite (proj2 (Z.leb_le _ _)) by lia. cbn. rewrite !zget_cons, zget_nil.
  destruct (Z.ltb_spec j (i + 2 - i)), (Z.eqb_spec j 0), (Z.eqb_spec (j - 1) 0); subst; try lia; try done.
  - by rewrite Z.add_0_r.
  - by replace (i + j) with (i + 1) by lia.
Qed.

(** ** IPv4 *)

(** The IPv4 header of the whole datagram, from the header of its first fragment. *)
Record rebuilt_header4 (h : bytes) (ecn : Ecn) (total : Z) (h' : bytes) : Prop := {
  r4_len : zlen h' = zlen h;
  r4_octets : octets h';
  r4_total : be16 h' 2 = total;
  r4_tos : at_ h' 1 = Z.lor (Z.land (at_ h 1) 252) (Ecn_ipv4_tos_bits ecn);
  r4_flags : be16 h' 6 = Z.land (be16 h 6) 49152;
  r4_checksum : checksum_parts [h'] = 0;
  r4_other : forall i, i ∉ [1; 2; 3; 6; 7; 10; 11] -> zget h' i = zget h i
}.

Definition rebuilt4 (h : bytes) (ecn : Ecn) (payload d : bytes) : Prop :=
  exists h', d = h' ++ payload /\ rebuilt_header4 h ecn (zlen h + zlen payload) h'.

(** The five writes to the header. *)
Definition header4_writes (h : bytes) (ecn : Ecn) (total : Z) : bytes :=
  let h1 := overwrite h 2 (to_be_bytes16 total) in
  let h2 := overwrite h1 1 [Z.lor (Z.land (at_ h 1) 252) (Ecn_ipv4_tos_bits ecn)] in
  overwrite h2 6 (to_be_bytes16 (Z.land (be16 h 6) 49152)).

Lemma header4_writes_spec h ecn total :
  header4_ok h -> 0 <= total <= 65535 ->
  let h3 := header4_writes h ecn total in
  zlen h3 = zlen h /\ octets h3 /\
  zget h3 1 = Some (Z.lor (Z.land (at_ h 1) 252) (Ecn_ipv4_tos_bits ecn)) /\
  be16 h3 2 = total /\ be16 h3 6 = Z.land (be16 h 6) 49152 /\
  forall i, i ∉ [1; 2; 3; 6; 7] -> zget h3 i = zget h i.
Proof.
  intros [Ho [Hl _]] Ht h3.
  assert (zlen (to_be_bytes16 total) = 2) as L1 by done.
  assert (zlen (to_be_bytes16 (Z.land (be16 h 6) 49152)) = 2) as L2 by done.
  set (tos := Z.lor (Z.land (at_ h 1) 252) (Ecn_ipv4_tos_bits ecn)) in *.
  assert (zlen [tos] = 1) as L3 by done.
  pose proof (be16_range h 6 Ho) as Hb6. pose proof (octets_at h 1 Ho) as Ht1.
  assert (0 <= Z.land (be16 h 6) 49152 <= 65535) as Hflags.
  { split; [apply Z.land_nonneg; lia|].
    pose proof (Z.land_ones (Z.land (be16 h 6) 49152) 16 ltac:(lia)) as Hm.
    rewrite <-Z.land_assoc in Hm. change (Z.land 49152 (Z.ones 16)) with 49152 in Hm.
    pose proof (Z.mod_pos_bound (Z.land (be16 h 6) 49152) (2 ^ 16)). lia. }
  assert (0 <= tos < 256) as Htos.
  { split; [apply Z.lor_nonneg; split; [apply Z.land_nonneg; lia|by destruct ecn]|].
    pose proof (Z.land_ones tos 8 ltac:(lia)) as Hm. unfold tos in Hm |- *. rewrite Z.land_lor_distr_l in Hm.
    rewrite <-Z.land_assoc in Hm. change (Z.land 252 (Z.ones 8)) with 252 in Hm.
    replace (Z.land (Ecn_ipv4_tos_bits ecn) (Z.ones 8)) with (Ecn_ipv4_tos_bits ecn) in Hm by (by destruct ecn).
    pose proof (Z.mod_pos_bound (Z.lor (Z.land (at_ h 1) 252) (Ecn_ipv4_tos_bits ecn)) (2 ^ 8)). lia. }
  assert (forall i, zget h3 i = if (6 <=? i) && (i <? 8) then zget (to_be_bytes16 (Z.land (be16 h 6) 49152)) (i - 6)
    else if (1 <=? i) && (i <? 2) then zget [tos] (i - 1)
    else if (2 <=? i) && (i <? 4) then zget (to_be_bytes16 total) (i - 2) else zget h i) as Hg.
  { intros i. unfold h3, header4_writes. fold tos.
    rewrite !zget_overwrite; rewrite ?zlen_overwrite; rewrite ?zlen_overwrite; rewrite ?L1, ?L2, ?L3; try lia. done. }
  split_and!.
  - unfold h3, header4_writes. fold tos. rewrite !zlen_overwrite; rewrite ?zlen_overwrite; rewrite ?zlen_overwrite;
      rewrite ?L1, ?L2, ?L3; try lia.
  - unfold h3, header4_writes. fold tos. repeat apply octets_overwrite; try done; try by apply to_be_bytes16_octets.
    by apply Forall_singleton.
  - by rewrite Hg.
  - unfold be16, at_. rewrite !Hg. cbn [andb Z.leb Z.ltb Z.compare Pos.compare Pos.compare_cont]. apply be16_to_be. lia.
  - unfold be16 at 1, at_. rewrite !Hg. cbn [andb Z.leb Z.ltb Z.compare Pos.compare Pos.compare_cont]. apply be16_to_be. lia.
  - intros i Hi. rewrite Hg. rewrite !not_elem_of_cons in Hi.
    destruct (Z.leb_spec 6 i), (Z.ltb_spec i 8), (Z.leb_spec 1 i), (Z.ltb_spec i 2), (Z.leb_spec 2 i), (Z.ltb_spec i 4);
      cbn; try done; lia.
Qed.

Lemma overwrite_overwrite {A} (l : list A) a s s' :
  0 <= a -> a + zlen s <= zlen l -> zlen s = zlen s' -> overwrite (overwrite l a s) a s' = overwrite l a s'.
Proof.
  intros Ha Hl Hs. apply zget_ext. intros i Hi. rewrite !zget_overwrite by (rewrite ?zlen_overwrite; lia).
  rewrite Hs. by destruct ((a <=? i) && _).
Qed.

(** Filling the zeroed checksum field of a header. *)
Lemma header_checksum_verifies h :
  header4_ok h ->
  checksum_parts [overwrite h 10 (to_be_bytes16 (checksum_parts [overwrite h 10 [0; 0]]))] = 0.
Proof.
  intros [Ho [Hl Hm]]. unfold overwrite.
  change (zlen (to_be_bytes16 _)) with 2. change (zlen [0; 0]) with 2.
  apply checksum_field_verifies; [by apply octets_ztake|by apply octets_zdrop| |].
  - exists 5%nat. unfold ztake, zlen in *. rewrite length_take. lia.
  - rewrite zlen_ztake, zlen_zdrop. unfold u32_max. lia.
Qed.

(** The writes go to the header and leave the payload alone. *)
Lemma reconstruct_ipv4_writes alloc h ecn parts :
  header4_ok h -> zlen h + zlen (concat parts) <= MAX_WIRE_LENGTH ->
  let total := zlen h + zlen (concat parts) in
  let h3 := header4_writes h ecn total in
  reconstruct_ipv4 alloc (Some h) ecn parts =
  (_ ← ip_try_reserve alloc AllocDatagram total total;
   Ok (overwrite h3 10 (to_be_bytes16 (checksum_parts [overwrite h3 10 [0; 0]])) ++ concat parts)).
Proof.
  intros Hh Hlen total. destruct (header4_writes_spec h ecn total Hh) as (W1 & _).
  { unfold total, MAX_WIRE_LENGTH in *. pose proof (zlen_nonneg h). pose proof (zlen_nonneg (concat parts)). lia. }
  pose proof Hh as [Ho [Hl Hm]]. set (payload := concat parts) in *.
  pose proof (zlen_nonneg payload). unfold MAX_WIRE_LENGTH in Hlen. unfold header4_writes, reconstruct_ipv4 in *.
  cbn [ok_or]. rewrite Ok_bind, payload_length_ok by (fold payload; unfold usize_max, u64_max; lia). fold payload.
  rewrite Ok_bind, checked_add_ok by (unfold usize_max, u64_max; lia). cbn [mbind option_bind]. fold total.
  unfold u16_try_from, u16_max. rewrite !(proj2 (Z.leb_le _ _)) by lia. cbn [andb ok_or]. rewrite Ok_bind.
  destruct (ip_try_reserve _ _ _ _) as [[]|e|]; [rewrite !Ok_bind|done|done].
  set (h1 := overwrite h 2 (to_be_bytes16 total)) in *.
  assert (zlen (to_be_bytes16 total) = 2) as L1 by done.
  assert (zlen h1 = zlen h) as Hl1 by (unfold h1; apply zlen_overwrite; lia).
  rewrite (set_bytes_ok h payload 2 4) by (rewrite ?L1; lia). fold h1. rewrite Ok_bind.
  assert (zget (h1 ++ payload) 1 = Some (at_ h 1)) as ->.
  { rewrite zget_app, (proj2 (Z.ltb_lt _ _)) by lia. unfold h1. rewrite zget_overwrite by (rewrite ?L1; lia).
    unfold at_. cbn. by destruct (zget_lt_is_Some h 1) as [b ->]; [lia|]. }
  cbn [or_overflow ok_or]. rewrite Ok_bind.
  set (tos := Z.lor (Z.land (at_ h 1) 252) (Ecn_ipv4_tos_bits ecn)) in *.
  set (h2 := overwrite h1 1 [tos]) in *. assert (zlen [tos] = 1) as L2 by done.
  assert (zlen h2 = zlen h) as Hl2 by (unfold h2; rewrite zlen_overwrite; lia).
  rewrite (set_bytes_ok h1 payload 1 2) by (rewrite ?L2; lia). fold h2. rewrite Ok_bind.
  rewrite get_range_ok by (rewrite ?zlen_app; lia). cbn [fmap option_fmap option_map or_overflow ok_or]. rewrite Ok_bind.
  assert (from_be_bytes (zslice 6 8 (h2 ++ payload)) = be16 h 6) as ->.
  { change 8 with (6 + 2). rewrite zslice_two by (rewrite ?zlen_app; lia). unfold be16. f_equal. unfold at_.
    rewrite !zget_app, !(proj2 (Z.ltb_lt _ (zlen h2))) by lia. unfold h2.
    rewrite !zget_overwrite by (rewrite ?L2; lia). unfold h1. by rewrite !zget_overwrite by (rewrite ?L1; lia). }
  set (h3 := overwrite h2 6 (to_be_bytes16 (Z.land (be16 h 6) 49152))) in *.
  rewrite (set_bytes_ok h2 payload 6 8) by (change (zlen (to_be_bytes16 _)) with 2; lia). fold h3. rewrite Ok_bind.
  rewrite (set_bytes_ok h3 payload 10 12) by (change (zlen [0; 0]) with 2; lia). rewrite Ok_bind.
  assert (zlen (overwrite h3 10 [0; 0]) = zlen h) as Hl4.
  { rewrite zlen_overwrite by (change (zlen [0; 0]) with 2; lia). done. }
  rewrite get_range_ok by (rewrite ?zlen_app; lia). cbn [or_overflow ok_or]. rewrite Ok_bind.
  replace (zslice 0 (zlen h) (overwrite h3 10 [0; 0] ++ payload)) with (overwrite h3 10 [0; 0]).
  2:{ unfold zslice. rewrite zdrop_0, Z.sub_0_r, <-Hl4. unfold ztake, zlen. by rewrite Nat2Z.id, take_app_length. }
  rewrite (set_bytes_ok _ payload 10 12) by (change (zlen (to_be_bytes16 _)) with 2; lia).
  by rewrite overwrite_overwrite by (done || change (zlen [0; 0]) with 2; lia).
Qed.

Lemma reconstruct_ipv4_spec alloc h ecn parts :
  header4_ok h -> zlen h + zlen (concat parts) <= MAX_WIRE_LENGTH ->
  ends resource_error (reconstruct_ipv4 alloc (Some h) ecn parts) (rebuilt4 h ecn (concat parts)).
Proof.
  intros Hh Hlen. rewrite reconstruct_ipv4_writes by done.
  set (total := zlen h + zlen (concat parts)). set (h3 := header4_writes h ecn total).
  destruct (header4_writes_spec h ecn total Hh) as (W1 & W2 & W3 & W4 & W5 & W6).
  { unfold total, MAX_WIRE_LENGTH in *. pose proof (zlen_nonneg h). pose proof (zlen_nonneg (concat parts)). lia. }
  fold h3 in W1, W2, W3, W4, W5, W6. apply ends_bind. unfold ip_try_reserve. destruct (_ && _); [cbn [ends]|done].
  set (ck := to_be_bytes16 _). assert (zlen ck = 2) as Lc by done. pose proof Hh as [_ [Hl Hm]].
  exists (overwrite h3 10 ck). split; [done|].
  assert (forall i, ~ 10 <= i < 12 -> zget (overwrite h3 10 ck) i = zget h3 i) as Hg.
  { intros i Hi. rewrite zget_overwrite, Lc by lia. by destruct (Z.leb_spec 10 i), (Z.ltb_spec i (10 + 2)); try lia. }
  split.
  - rewrite zlen_overwrite; lia.
  - apply octets_overwrite; [done|]. apply to_be_bytes16_octets, checksum_range.
  - etrans; [|exact W4]. unfold be16, at_. by rewrite !Hg by lia.
  - unfold at_ at 1. by rewrite Hg, W3 by lia.
  - etrans; [|exact W5]. unfold be16, at_. by rewrite !Hg by lia.
  - apply header_checksum_verifies. split; [done|lia].
  - intros i Hi. rewrite !not_elem_of_cons in Hi. rewrite Hg by lia. apply W6. rewrite !not_elem_of_cons. naive_solver.
Qed.

(** ** IPv6 *)

(** The headers of the whole datagram, from those before the Fragment header: the
    Next Header byte that announced it names what follows it instead. *)
Record rebuilt_prefix6 (prefix : bytes) (predecessor next_header : Z) (ecn : Ecn) (payload_length : Z)
  (prefix' : bytes) : Prop := {
  r6_len : zlen prefix' = zlen prefix;
  r6_octets : octets prefix';
  r6_length : be16 prefix' 4 = payload_length;
  r6_class : at_ prefix' 1 = Z.lor (Z.land (at_ prefix 1) 207) (Ecn_ipv6_traffic_class_bits ecn);
  r6_next : zget prefix' predecessor = Some next_header;
  r6_other : forall i, i ∉ [1; 4; 5; predecessor] -> zget prefix' i = zget prefix i
}.

Definition rebuilt6 (prefix : bytes) (predecessor next_header : Z) (ecn : Ecn) (payload d : bytes) : Prop :=
  exists prefix', d = prefix' ++ payload /\
    rebuilt_prefix6 prefix predecessor next_header ecn (zlen prefix - IPV6_LENGTH + zlen payload) prefix'.

Lemma class_octet x ecn : 0 <= x < 256 -> 0 <= Z.lor (Z.land x 207) (Ecn_ipv6_traffic_class_bits ecn) < 256.
Proof.
  intros Hx. split; [apply Z.lor_nonneg; split; [apply Z.land_nonneg; lia|by destruct ecn]|].
  assert (Z.lor (Z.land x 207) (Ecn_ipv6_traffic_class_bits ecn) =
    Z.land (Z.lor (Z.land x 207) (Ecn_ipv6_traffic_class_bits ecn)) (Z.ones 8)) as ->.
  { rewrite Z.land_lor_distr_l, <-Z.land_assoc. by destruct ecn. }
  rewrite Z.land_ones by lia. apply Z.mod_pos_bound. lia.
Qed.

Lemma reconstruct_ipv6_spec alloc prefix predecessor next_header ecn parts :
  prefix6_ok prefix predecessor next_header ->
  zlen prefix - IPV6_LENGTH + zlen (concat parts) <= MAX_WIRE_LENGTH ->
  ends resource_error (reconstruct_ipv6 alloc prefix predecessor next_header ecn parts)
    (rebuilt6 prefix predecessor next_header ecn (concat parts)).
Proof.
  intros (Ho & Hl & Hpn & Hq & Hn) Hlen. unfold rebuilt6. set (payload := concat parts) in *.
  pose proof (zlen_nonneg payload). pose proof (zget_Some_lt _ _ _ Hpn) as Hpr.
  unfold MAX_WIRE_LENGTH, IPV6_LENGTH, reconstruct_ipv6, or_overflow in *.
  rewrite checked_sub_ok by (unfold IPV6_LENGTH; lia). cbn [ok_or]. unfold IPV6_LENGTH.
  rewrite Ok_bind, payload_length_ok by (fold payload; unfold usize_max, u64_max; lia). fold payload.
  rewrite Ok_bind, (checked_add_ok _ (zlen prefix - 40)) by (unfold usize_max, u64_max; lia). cbn [mbind option_bind].
  unfold u16_try_from, u16_max. rewrite !(proj2 (Z.leb_le _ _)) by lia. cbn [andb ok_or]. rewrite Ok_bind.
  rewrite (checked_add_ok _ (zlen prefix)) by (unfold usize_max, u64_max; lia). cbn [ok_or]. rewrite Ok_bind.
  apply ends_bind. unfold ip_try_reserve. destruct (_ && _); [cbn [ends]|done].
  set (wire := zlen prefix - 40 + zlen payload) in *.
  assert (zlen (to_be_bytes16 wire) = 2) as L1 by done.
  rewrite (set_bytes_ok prefix payload 4 6) by (rewrite ?L1; lia). rewrite Ok_bind.
  set (p1 := overwrite prefix 4 (to_be_bytes16 wire)).
  assert (zlen p1 = zlen prefix) as Hl1 by (apply zlen_overwrite; lia).
  assert (zget (p1 ++ payload) 1 = Some (at_ prefix 1)) as ->.
  { rewrite zget_app, (proj2 (Z.ltb_lt _ _)) by lia. unfold p1. rewrite zget_overwrite by (rewrite ?L1; lia).
    unfold at_. cbn. by destruct (zget_lt_is_Some prefix 1) as [b ->]; [lia|]. }
  cbn [ok_or]. rewrite Ok_bind. set (tc := Z.lor _ _). assert (zlen [tc] = 1) as L2 by done.
  rewrite (set_bytes_ok p1 payload 1 2) by (rewrite ?L2; lia). rewrite Ok_bind. set (p2 := overwrite p1 1 [tc]).
  assert (zlen p2 = zlen prefix) as Hl2 by (unfold p2; rewrite zlen_overwrite; lia).
  assert (zlen [next_header] = 1) as L3 by done.
  rewrite (set_bytes_ok p2 payload predecessor) by (rewrite ?L3; lia). cbn [ends].
  exists (overwrite p2 predecessor [next_header]). split; [done|].
  assert (forall i, zget (overwrite p2 predecessor [next_header]) i =
    if (predecessor <=? i) && (i <? predecessor + 1) then zget [next_header] (i - predecessor)
    else if (1 <=? i) && (i <? 1 + 1) then zget [tc] (i - 1)
    else if (4 <=? i) && (i <? 4 + 2) then zget (to_be_bytes16 wire) (i - 4) else zget prefix i) as Hg.
  { intros i. unfold p2, p1 in *. by rewrite !zget_overwrite, ?L1, ?L2, ?L3 by lia. }
  split.
  - rewrite zlen_overwrite; lia.
  - unfold p2, p1. repeat apply octets_overwrite; try done.
    + apply to_be_bytes16_octets. lia.
    + apply Forall_singleton. by apply class_octet, octets_at.
    + by apply Forall_singleton.
  - unfold be16, at_. rewrite !Hg.
    destruct Hq as [->|Hq]; [by apply be16_to_be; lia|].
    rewrite !(proj2 (Z.leb_gt predecessor _)) by lia. cbn [andb Z.leb Z.ltb Z.compare Pos.compare Pos.compare_cont].
    apply be16_to_be. lia.
  - unfold at_ at 1. rewrite Hg. destruct Hq as [->|Hq]; [done|]. by rewrite (proj2 (Z.leb_gt predecessor _)) by lia.
  - rewrite Hg, (proj2 (Z.leb_le _ _)), (proj2 (Z.ltb_lt _ _)), Z.sub_diag by lia. done.
  - intros i Hi. rewrite Hg. rewrite !not_elem_of_cons in Hi.
    destruct (Z.leb_spec predecessor i), (Z.ltb_spec i (predecessor + 1)), (Z.leb_spec 1 i), (Z.ltb_spec i (1 + 1)),
      (Z.leb_spec 4 i), (Z.ltb_spec i (4 + 2)); cbn; try done; lia.
Qed.

(** ** Either family *)

Definition rebuilt (r : Reconstruction) (payload d : bytes) : Prop :=
  match r with
  | Reconstruct4 (Some h) ecn => rebuilt4 h ecn payload d
  | Reconstruct4 None _ => False
  | Reconstruct6 prefix predecessor next_header ecn _ => rebuilt6 prefix predecessor next_header ecn payload d
  end.

Lemma reconstruct_bytes_spec key view alloc r parts :
  recon_wf key view r -> is_Some (view 0) ->
  match r with
  | Reconstruct6 prefix _ _ _ _ => zlen prefix - IPV6_LENGTH
  | _ => recon_len r
  end + zlen (concat parts) <= MAX_WIRE_LENGTH ->
  ends resource_error (reconstruct_bytes alloc r parts) (rebuilt r (concat parts)).
Proof.
  intros Hr [b Hv] Hl. unfold recon_wf in Hr. destruct r as [[h|] e|p q n e z]; cbn [reconstruct_bytes rebuilt].
  - destruct key; [|done]. by apply reconstruct_ipv4_spec.
  - destruct key; [congruence|done].
  - destruct key; [done|]. by apply reconstruct_ipv6_spec.
Qed.
