(* ===== verification/IpCharge.v ===== *)
(** * IP reassembly: storage and charges

    [storage_plan], [admit_charges] and the search for the capacity to allocate. *)

From stdpp Require Import base tactics option list numbers gmap strings.
From Stdlib Require Import ZArith Lia.
From S2P Require Import Prelude Checksum Ordered Flow Headers HeadersProofs.
From S2P Require Import IpModel IpValidate IpMerge IpReconstruct IpEngine IpRanges IpApply IpFragment.

(** ** Storage *)

Lemma total_capacity_from t l s :
  foldl (fun total r => t ← total; checked_add usize_max t (rr_capacity r)) (Some t) l = Some s ->
  s = t + stored l.
Proof.
  revert t. induction l as [|r l IH]; intros t; cbn [foldl stored]; [intros [= <-]; lia|].
  cbn [mbind option_bind]. destruct (checked_add usize_max t (rr_capacity r)) as [t'|] eqn:E.
  - apply checked_add_Some in E as [-> _]. intros H. rewrite (IH _ H). lia.
  - assert (forall k, foldl (fun total r => t ← total; checked_add usize_max t (rr_capacity r)) None k = None) as Hn.
    { induction k; [done|]. exact IHk. }
    by rewrite Hn.
Qed.

Lemma total_capacity_Some l s : total_capacity l = Some s -> s = stored l.
Proof. intros H%total_capacity_from. lia. Qed.

(** Either the storage is kept, or the touched ranges get one new allocation. *)
Definition storage_post (l L M R : list RetainedRange) (p : MergePlan) (capacity : Z) (s : StoragePlan) : Prop :=
  (st_allocation s = 0 /\ st_retained_payload s = stored l /\
   (mp_kind p = KUnchanged \/
    is_extension (mp_kind p) = true /\ mp_union_end p - mp_union_start p <= stored M)) \/
  (mp_kind p <> KUnchanged /\
   st_allocation s = Z.max capacity (mp_union_end p - mp_union_start p) /\
   st_retained_payload s = stored L + st_allocation s + stored R).

Lemma limit_is_resource r : resource_error (aggregate_limit r).
Proof. done. Qed.

Section storage.
Context (l : list RetainedRange) (inc : Incoming) (p : MergePlan) (L M R : list RetainedRange).
Context (Hw : ranges_wf (-1) l) (Hsp : span_ok inc) (Hm : merge_post l inc p L M R).

Lemma storage_plan_spec r capacity :
  ends resource_error (storage_plan r l p capacity) (storage_post l L M R p capacity).
Proof.
  destruct (union_nonneg _ _ _ _ _ _ Hw Hsp Hm) as [Hu0 Hu].
  pose proof (ranges_wf_count (-1) l ltac:(lia) Hw) as Hcnt. pose proof (mo_split _ _ _ _ _ _ Hm) as El.
  assert (zlen l = zlen L + zlen M + zlen R) as Hll by (rewrite El, !zlen_app; lia).
  pose proof (zlen_nonneg L). pose proof (zlen_nonneg M). pose proof (zlen_nonneg R).
  unfold storage_plan. apply ends_bind, ends_ok_or; [done|]. intros retained Hr%total_capacity_Some. subst retained.
  case_bool_decide as Ek; [cbn; left; auto|].
  rewrite (mo_first _ _ _ _ _ _ Hm), (mo_count _ _ _ _ _ _ Hm).
  rewrite add_u_ok, Ok_bind, index_range_ok, Ok_bind by (unfold u64_max; lia).
  assert (zslice (zlen L) (zlen L + zlen M) l = M) as ->.
  { etrans; [|exact (affected_slice _ _ _ _ _ _ Hm)]. rewrite (mo_first _ _ _ _ _ _ Hm), (mo_count _ _ _ _ _ _ Hm).
    unfold zslice. f_equal. lia. }
  apply ends_bind, ends_ok_or; [done|]. intros affected Ha%total_capacity_Some. subst affected.
  rewrite sub_u_ok, Ok_bind by lia.
  destruct (is_extension (mp_kind p)) eqn:Ee; cbn [andb].
  - destruct (Z.leb_spec (mp_union_end p - mp_union_start p) (stored M)); [cbn; left; auto|].
    apply ends_bind, ends_ok_or; [done|]. intros t Ht. cbn. right. split; [done|]. split; [done|].
    destruct (checked_sub _ _) as [s|] eqn:Es; [|done]. apply checked_sub_Some in Es as [-> _].
    apply checked_add_Some in Ht as [-> _]. cbn. rewrite El, !stored_app. lia.
  - apply ends_bind, ends_ok_or; [done|]. intros t Ht. cbn. right. split; [done|]. split; [done|].
    destruct (checked_sub _ _) as [s|] eqn:Es; [|done]. apply checked_sub_Some in Es as [-> _].
    apply checked_add_Some in Ht as [-> _]. cbn. rewrite El, !stored_app. lia.
Qed.
End storage.

(** ** Charges *)

Record charges_post (r : IpReassembler) (existing : option DatagramState) (inc : Incoming) (p : MergePlan)
  (final : option Z) (header : Z) (s : StoragePlan) (now external_charge : Z) (c : Charges) : Prop := {
  cp_unique : ch_unique_bytes c = from_option unique_bytes 0 existing + mp_added_bytes p /\
              ch_unique_bytes c <= max_bytes_per_datagram (ip_limits r);
  cp_duplicates : ch_duplicate_fragments c =
    from_option duplicate_fragments 0 existing + from_bool (bool_decide (mp_kind p = KUnchanged));
  cp_overlap : ch_overlap_bytes c = from_option overlap_bytes 0 existing + mp_conflicting_bytes p;
  cp_slot : ch_new_slot_charge c =
    if is_none existing && (rt_datagram_slots (retained r) <=? Z.of_nat (size (datagrams r)))
    then DATAGRAM_METADATA_CHARGE else 0;
  cp_prospective : ch_prospective_charge c =
    RANGE_METADATA_CHARGE * mp_result_range_count p + st_retained_payload s + header;
  cp_memory : ch_aggregate_memory_charge c =
    rt_memory_charge (retained r) - from_option memory_charge 0 existing + ch_prospective_charge c
    + ch_new_slot_charge c /\
    ch_aggregate_memory_charge c + external_charge <= ip_max_aggregate_bytes (ip_limits r);
  cp_peak : ch_replacement_peak_charge c <= ip_max_aggregate_bytes (ip_limits r);
  cp_complete : merge_completes p final = true ->
    ch_replacement_peak_charge c + header + mp_union_end p <= ip_max_aggregate_bytes (ip_limits r);
  cp_payload : ch_aggregate_payload_bytes c =
    rt_payload_bytes (retained r) - from_option unique_bytes 0 existing + ch_unique_bytes c /\
    ch_aggregate_payload_bytes c <= ip_max_aggregate_bytes (ip_limits r);
  cp_update : ch_last_update c = from_option (fun st => Z.max (dg_last_update st) now) now existing;
  cp_deadline : ch_deadline c = instant_checked_add (ch_last_update c) (ip_idle_expiry (ip_limits r)) /\
                is_Some (ch_deadline c)
}.

Lemma at_most_Some limit o v : at_most limit o = Some v <-> o = Some v /\ v <= limit.
Proof.
  unfold at_most. destruct o as [x|]; cbn; [|naive_solver].
  destruct (Z.leb_spec x limit); naive_solver lia.
Qed.

(** Destruct the checked operations of a hypothesis [_ = Some _]. *)
Ltac inv_checked :=
  repeat match goal with
  | H : at_most _ _ = Some _ |- _ => apply at_most_Some in H as [H ?]
  | H : checked_add _ _ _ = Some _ |- _ => apply checked_add_Some in H as [-> ?]
  | H : checked_sub _ _ = Some _ |- _ => apply checked_sub_Some in H as [-> ?]
  | H : checked_mul _ _ _ = Some _ |- _ => apply checked_mul_Some in H as [-> ?]
  | H : mbind _ ?o = Some _ |- _ => let E := fresh "E" in destruct o eqn:E; cbn [mbind option_bind] in H; [|done]
  end.

Lemma admit_charges_spec r existing inc p final header s now external_charge :
  plan_final_length existing inc = Ok final ->
  reconstruction_retained_bytes existing inc = Ok header ->
  ends resource_error (admit_charges r existing inc p s now external_charge)
    (charges_post r existing inc p final header s now external_charge).
Proof.
  intros Hfin Hhead. unfold admit_charges. rewrite Hhead, Hfin.
  apply ends_bind, ends_ok_or; [done|]. intros unique Hu. rewrite Ok_bind.
  apply ends_bind, ends_ok_or; [done|]. intros deadline Hd.
  apply ends_bind, ends_ok_or; [done|]. intros dup Hdup.
  apply ends_bind, ends_ok_or; [done|]. intros ov Hov.
  apply ends_bind, ends_ok_or; [done|]. intros prosp Hp.
  apply ends_bind, ends_ok_or; [done|]. intros mem Hmem.
  unfold replacement_allocation_charge.
  apply ends_bind, ends_bind, ends_ok_or; [done|]. intros rm Hrm. apply ends_ok_or; [done|]. intros ra Hra.
  apply ends_bind, ends_ok_or; [done|]. intros peak Hpk. rewrite Ok_bind.
  apply ends_bind. apply (ends_mono _ _ (fun _ => merge_completes p final = true ->
    peak + header + mp_union_end p <= ip_max_aggregate_bytes (ip_limits r))).
  { destruct (merge_completes p final); [|done]. apply ends_ok_or; [done|]. intros v Hv _. inv_checked. lia. }
  intros _ Hc. apply ends_bind, ends_ok_or; [done|]. intros pay Hpay. cbn [ends].
  inv_checked. match type of Hmem with match ?o with _ => _ end = _ => destruct o as [tot|] eqn:Et; [|done] end.
  destruct (Z.leb_spec tot (ip_max_aggregate_bytes (ip_limits r))); [|done].
  apply checked_add_Some in Et as [-> ?].
  injection Hmem as <-. split; cbn; try done; try lia; rewrite ?Hd; eauto; lia.
Qed.

(** ** The capacity search *)

Section search.
Context (plan : Z -> outcome IpError StoragePlan) (charges_for : StoragePlan -> outcome IpError Charges).

(** The capacity is refused for memory. *)
Definition refused (c : Z) : Prop :=
  exists s e, plan c = Ok s /\ charges_for s = Err e /\ is_aggregate_limit e = true.

(** The largest capacity up to [preferred] that is not refused. *)
Definition largest (preferred : Z) (out : StoragePlan * Charges) : Prop :=
  exists c, c <= preferred /\ plan c = Ok out.1 /\ charges_for out.1 = Ok out.2 /\
    forall c', c < c' <= preferred -> refused c'.

Context (preferred : Z).
Context (Hplan : forall c, c <= preferred -> exists s, plan c = Ok s).
Context (Hadmit : forall c s, plan c = Ok s -> ends resource_error (charges_for s) (fun _ => True)).
Context (Hmono : forall c c', c <= c' <= preferred -> refused c -> refused c').

Lemma capacity_search_spec fuel : forall lower upper s ch,
  upper <= preferred -> lower <= preferred -> plan lower = Ok s -> charges_for s = Ok ch ->
  upper - lower < 2 ^ Z.of_nat fuel ->
  (forall c, upper < c <= preferred -> refused c) ->
  ends resource_error (capacity_search (S fuel) plan charges_for lower upper s ch) (largest preferred).
Proof.
  induction fuel as [|fuel IH]; intros lower upper s ch Hup Hlo Hp Ha Hd Hr; cbn [capacity_search].
  - change (2 ^ Z.of_nat 0) with 1 in Hd. rewrite (proj2 (Z.ltb_ge _ _)) by lia. cbn [negb ends].
    exists lower. split_and!; try done. intros c' Hc. apply Hr. lia.
  - destruct (Z.ltb_spec lower upper) as [Hlt|]; cbn [negb].
    2:{ cbn [ends]. exists lower. split_and!; try done. intros c' Hc. apply Hr. lia. }
    set (candidate := lower + div_ceil (upper - lower) 2).
    assert (lower < candidate <= upper /\ upper - candidate < 2 ^ Z.of_nat fuel /\
      candidate - 1 - lower < 2 ^ Z.of_nat fuel) as (Hc1 & Hc2 & Hc3).
    { rewrite Nat2Z.inj_succ, Z.pow_succ_r in Hd by lia. unfold candidate, div_ceil.
      pose proof (Z.div_mod (upper - lower + 2 - 1) 2 ltac:(lia)).
      pose proof (Z.mod_pos_bound (upper - lower + 2 - 1) 2 ltac:(lia)). lia. }
    destruct (Hplan candidate) as [sc Esc]; [lia|]. rewrite Esc, Ok_bind.
    pose proof (Hadmit _ _ Esc) as Had. destruct (charges_for sc) as [cc|e|] eqn:Eac; [|cbn in Had|done].
    + apply IH; try done; lia.
    + destruct (is_aggregate_limit e) eqn:Ee; [|done]. apply IH; try done; [lia|].
      intros c Hc. destruct (decide (upper < c)); [apply Hr; lia|].
      apply (Hmono candidate); [lia|]. by exists sc, e.
Qed.

Lemma choose_storage_spec required :
  0 <= required -> preferred <= u64_max ->
  ends resource_error (choose_storage plan charges_for required preferred) (largest preferred).
Proof.
  intros Hreq Hd. unfold choose_storage. destruct (Hplan preferred) as [s Es]; [lia|]. rewrite Es, Ok_bind.
  pose proof (Hadmit _ _ Es) as Had. destruct (charges_for s) as [ch|e|] eqn:Ea; [|cbn in Had|done].
  { cbn. exists preferred. split_and!; try done; lia. }
  destruct (is_aggregate_limit e) eqn:Ee; cbn [andb]; [|done].
  destruct (Z.ltb_spec required preferred) as [Hlt|]; [|done].
  destruct (Hplan required) as [s' Es']; [lia|]. rewrite Es', Ok_bind.
  pose proof (Hadmit _ _ Es') as Had'. destruct (charges_for s') as [ch'|e'|] eqn:Ea'; [|done|done].
  rewrite Ok_bind, sub_u_ok, Ok_bind by lia. unfold u64_max in Hd.
  apply capacity_search_spec; try done; try lia.
  intros c Hc. replace c with preferred by lia. by exists s, e.
Qed.
End search.

(** A larger plan is never admitted when a smaller one is refused for memory. *)
Definition plan_le (s s' : StoragePlan) : Prop :=
  st_allocation s <= st_allocation s' /\ st_retained_payload s <= st_retained_payload s'.

Lemma storage_plan_mono r l p c c' s' :
  c <= c' -> storage_plan r l p c' = Ok s' -> exists s, storage_plan r l p c = Ok s /\ plan_le s s'.
Proof.
  intros Hc. unfold storage_plan, plan_le.
  destruct (total_capacity l) as [t|]; cbn [ok_or]; [rewrite !Ok_bind|done].
  case_bool_decide; [intros [= <-]; eexists; split; [reflexivity|cbn; lia]|].
  destruct (add_u _ _) as [last|e|]; [rewrite !Ok_bind|done|done].
  destruct (index_range _ _ _) as [slice|e|]; [rewrite !Ok_bind|done|done].
  destruct (total_capacity slice) as [a|]; cbn [ok_or]; [rewrite !Ok_bind|done].
  destruct (sub_u _ _) as [required|e|]; [rewrite !Ok_bind|done|done].
  destruct (is_extension _ && _); [intros [= <-]; eexists; split; [reflexivity|cbn; lia]|].
  destruct (checked_sub t a) as [d|]; [|done]. cbn [mbind option_bind].
  destruct (checked_add usize_max d (Z.max c' required)) as [v|] eqn:E; [|done].
  apply checked_add_Some in E as [-> E]. cbn [ok_or]. rewrite Ok_bind. intros [= <-].
  rewrite checked_add_ok by lia. eexists. split; [reflexivity|]. cbn. lia.
Qed.

(** When the larger computation succeeds, so does the smaller, with a smaller
    value. *)
Definition opt_le (o o' : option Z) : Prop :=
  forall v, o' = Some v -> exists w, o = Some w /\ w <= v.

Lemma opt_le_refl o : opt_le o o.
Proof. intros v ->. eauto with lia. Qed.

Lemma opt_le_add max a b c d : a <= c -> b <= d -> opt_le (checked_add max a b) (checked_add max c d).
Proof. intros ? ? v [-> ?]%checked_add_Some. exists (a + b). rewrite checked_add_ok by lia. split; [done|lia]. Qed.

Lemma opt_le_bind (o o' : option Z) (k k' : Z -> option Z) :
  opt_le o o' -> (forall w v, w <= v -> opt_le (k w) (k' v)) -> opt_le (o ≫= k) (o' ≫= k').
Proof.
  intros Ho Hk v Hv. destruct o' as [x|]; [|done]. destruct (Ho x eq_refl) as (w & -> & Hw). by apply (Hk w x).
Qed.

Lemma opt_le_at_most limit o o' : opt_le o o' -> opt_le (at_most limit o) (at_most limit o').
Proof.
  intros Ho v [Hv Hl]%at_most_Some. destruct (Ho v Hv) as (w & -> & Hw). exists w.
  rewrite at_most_Some. split; [|done]. split; [done|lia].
Qed.

(** The filter on the total with the caller's charge. *)
Lemma opt_le_filter max limit ext w v : w <= v ->
  opt_le (match checked_add max w ext with Some t => if t <=? limit then Some w else None | None => None end)
         (match checked_add max v ext with Some t => if t <=? limit then Some v else None | None => None end).
Proof.
  intros Hwv x Hx. destruct (checked_add max v ext) as [t|] eqn:E; [|done]. apply checked_add_Some in E as [-> E].
  rewrite checked_add_ok by lia. destruct (Z.leb_spec (v + ext) limit); [|done]. injection Hx as <-.
  rewrite (proj2 (Z.leb_le _ _)) by lia. eauto.
Qed.
#[local] Hint Resolve opt_le_refl opt_le_add opt_le_at_most opt_le_filter opt_le_bind Z.le_refl : opt_le.

(** Step through a pair of [ok_or limit_error]: when the larger one fails the goal
    is reached, when it succeeds so does the smaller. *)
Lemma refused_step {A} (r : IpReassembler) (o o' : option Z) (k k' : Z -> outcome IpError A) e :
  opt_le o o' ->
  (forall v w, o = Some w -> o' = Some v -> w <= v -> k w = Err e ->
     exists e', k' v = Err e' /\ is_aggregate_limit e' = true) ->
  (ok_or (aggregate_limit r) o ≫= k) = Err e ->
  exists e', (ok_or (aggregate_limit r) o' ≫= k') = Err e' /\ is_aggregate_limit e' = true.
Proof.
  intros Ho Hk H. destruct o' as [v|]; cbn; [|eauto]. destruct (Ho v eq_refl) as (w & -> & ?). cbn in H. eauto.
Qed.

Lemma admit_charges_mono r ex inc p s s' now ext e :
  plan_le s s' -> admit_charges r ex inc p s now ext = Err e -> is_aggregate_limit e = true ->
  exists e', admit_charges r ex inc p s' now ext = Err e' /\ is_aggregate_limit e' = true.
Proof.
  intros [Hal Hre] H He. unfold admit_charges in *.
  destruct (at_most _ (checked_add _ _ (mp_added_bytes p))) as [unique|]; cbn [ok_or] in *; [rewrite !Ok_bind in *|].
  2:{ cbn in H. injection H as <-. done. }
  destruct (reconstruction_retained_bytes ex inc) as [rec|e0|]; [rewrite !Ok_bind in *|cbn in H |- *; by eauto|done].
  destruct (instant_checked_add _ _) as [deadline|]; cbn [ok_or] in *; [rewrite !Ok_bind in *|].
  2:{ cbn in H. injection H as <-. done. }
  revert H. apply refused_step; [auto with opt_le|]. intros d1 d2 E1 E2 _. rewrite E1 in E2. injection E2 as <-.
  apply refused_step; [auto with opt_le|]. intros o1 o2 E3 E4 _. rewrite E3 in E4. injection E4 as <-.
  apply refused_step; [auto 8 with opt_le|]. intros p2 p1 _ _ Hp.
  apply refused_step; [auto 8 with opt_le|]. intros m2 m1 _ _ _. unfold replacement_allocation_charge.
  destruct (checked_mul _ _ _) as [rm|]; cbn [ok_or]; [rewrite !Ok_bind|cbn; eauto].
  apply refused_step; [auto 8 with opt_le|]. intros a2 a1 _ _ Ha.
  apply refused_step; [auto 8 with opt_le|]. intros k2 k1 _ _ Hk.
  destruct (plan_final_length ex inc) as [final|e0|]; [rewrite !Ok_bind|cbn; eauto|done].
  destruct (merge_completes p final); [|rewrite !Ok_bind; apply refused_step; [auto with opt_le|]; done].
  apply refused_step; [auto 8 with opt_le|]. intros ? ? _ _ _. apply refused_step; [auto with opt_le|]. done.
Qed.

(** ** The storage [push] settles on *)

Lemma push_storage_spec r existing inc p L M R final header now external_charge required preferred :
  let l := ranges_of existing in
  let charges_for := fun s => admit_charges r existing inc p s now external_charge in
  ranges_wf (-1) l -> span_ok inc -> merge_post l inc p L M R ->
  plan_final_length existing inc = Ok final ->
  reconstruction_retained_bytes existing inc = Ok header ->
  0 <= required -> preferred <= u64_max ->
  ends resource_error (choose_storage (storage_plan r l p) charges_for required preferred) (fun out =>
    (exists c, c <= preferred /\ storage_post l L M R p c out.1) /\
    charges_post r existing inc p final header out.1 now external_charge out.2 /\
    largest (storage_plan r l p) charges_for preferred out).
Proof.
  intros l charges_for Hw Hsp Hm Hfin Hhead Hreq Hpref.
  pose proof (storage_plan_spec l inc p L M R Hw Hsp Hm r) as Hplan.
  assert (forall s, ends resource_error (charges_for s) (charges_post r existing inc p final header s now external_charge)) as Hadm.
  { intros s. exact (admit_charges_spec r existing inc p final header s now external_charge Hfin Hhead). }
  destruct (storage_plan r l p preferred) as [sp|e|] eqn:Esp.
  2:{ unfold choose_storage. rewrite Esp. specialize (Hplan preferred). by rewrite Esp in Hplan. }
  2:{ specialize (Hplan preferred). by rewrite Esp in Hplan. }
  eapply ends_mono.
  - apply (choose_storage_spec (storage_plan r l p) charges_for preferred); try done.
    + intros c Hc. destruct (storage_plan_mono r l p c preferred sp Hc Esp) as (s & ? & _). eauto.
    + intros c s _. eapply ends_mono; [apply Hadm|done].
    + intros c c' [Hc Hc'] (s & e & Es & Ea & Ee).
      destruct (storage_plan_mono r l p c' preferred sp Hc' Esp) as (s' & Es' & _).
      destruct (storage_plan_mono r l p c c' s' Hc Es') as (s0 & Es0 & Hle).
      rewrite Es in Es0. injection Es0 as <-.
      destruct (admit_charges_mono r existing inc p s s' now external_charge e Hle Ea Ee) as (e' & ? & ?).
      by exists s', e'.
  - intros [s ch] Hl. pose proof Hl as (c & Hc & Hs & Ha & _). cbn [fst snd] in *. split_and!; [| |done].
    + exists c. split; [done|]. exact (ends_Ok _ _ _ _ (Hplan c) Hs).
    + exact (ends_Ok _ _ _ _ (Hadm s) Ha).
Qed.
