(* ===== verification/IpPush.v ===== *)
(** * IP reassembly: one push

    The invariant of the reassembler, and what [push_with_external_charge] does
    to it, on every branch. *)

From stdpp Require Import base tactics option list numbers gmap strings.
From Stdlib Require Import ZArith Lia.
From S2P Require Import Prelude Checksum Ordered Flow Headers HeadersProofs.
From S2P Require Import IpModel IpValidate IpMerge IpReconstruct IpEngine IpRanges IpApply IpFragment IpRebuild IpCharge.

(** ** The invariant *)

Record ip_limits_ok (l : IpLimits) : Prop := {
  il_datagrams : 0 <= max_datagrams l <= usize_max;
  il_fragments : 0 <= max_fragments_per_datagram l <= usize_max;
  il_bytes : 0 <= max_bytes_per_datagram l <= usize_max;
  il_aggregate : 0 <= ip_max_aggregate_bytes l <= usize_max;
  il_outcomes : 0 <= max_retained_outcomes l <= usize_max
}.

(** The accounting and the index agree with the map of datagrams. *)
Record ip_wf (r : IpReassembler) : Prop := {
  iw_limits : ip_limits_ok (ip_limits r);
  iw_datagrams : map_Forall (datagram_wf (ip_limits r)) (datagrams r);
  iw_payload : rt_payload_bytes (retained r) = map_sum unique_bytes (datagrams r);
  iw_memory : rt_memory_charge (retained r) =
    map_sum memory_charge (datagrams r) + DATAGRAM_METADATA_CHARGE * rt_datagram_slots (retained r);
  iw_payload_max : rt_payload_bytes (retained r) <= ip_max_aggregate_bytes (ip_limits r);
  iw_memory_max : rt_memory_charge (retained r) <= ip_max_aggregate_bytes (ip_limits r);
  iw_count : Z.of_nat (size (datagrams r)) <= max_datagrams (ip_limits r);
  iw_slots : Z.of_nat (size (datagrams r)) <= rt_datagram_slots (retained r);
  iw_index : indexed dg_deadline (datagrams r) (ip_expiry r)
}.

Lemma stored_nonneg lo l : ranges_wf lo l -> 0 <= stored l.
Proof.
  revert lo. induction l as [|r l IH]; intros lo H; cbn; [lia|]. destruct H as (? & ? & ? & H).
  specialize (IH _ H). lia.
Qed.

Lemma recon_len_nonneg r : 0 <= recon_len r.
Proof. destruct r as [[h|] e|p q n e z]; cbn; try lia; apply zlen_nonneg. Qed.

Lemma datagram_charge_nonneg lim key st : datagram_wf lim key st -> 0 <= memory_charge st.
Proof.
  intros H. rewrite (dw_charge _ _ _ H). pose proof (stored_nonneg _ _ (dw_ranges _ _ _ H)).
  pose proof (recon_len_nonneg (reconstruction st)). pose proof (zlen_nonneg (ranges st)).
  unfold RANGE_METADATA_CHARGE. lia.
Qed.

Lemma datagram_unique_nonneg lim key st : datagram_wf lim key st -> 0 <= unique_bytes st.
Proof. intros H. rewrite (dw_unique _ _ _ H). apply held_nonneg. Qed.

Lemma ip_wf_sums r :
  ip_wf r -> map_Forall (fun _ st => 0 <= unique_bytes st) (datagrams r) /\
             map_Forall (fun _ st => 0 <= memory_charge st) (datagrams r).
Proof.
  intros Hr. split; intros k st Hk; pose proof (iw_datagrams _ Hr k st Hk) as H.
  - by eapply datagram_unique_nonneg.
  - by eapply datagram_charge_nonneg.
Qed.

(** The totals charged for the datagrams of [m] and [slots] map slots. *)
Definition accounted (m : gmap DatagramKey DatagramState) (slots : Z) : Retained :=
  mkRetained (map_sum unique_bytes m) (map_sum memory_charge m + DATAGRAM_METADATA_CHARGE * slots) slots.

Lemma ip_wf_accounted r : ip_wf r -> retained r = accounted (datagrams r) (rt_datagram_slots (retained r)).
Proof. intros Hr. unfold accounted. rewrite <-(iw_payload _ Hr), <-(iw_memory _ Hr). by destruct (retained r). Qed.

(** A datagram of the map can always be released. *)
Lemma release_ok m slots key st :
  map_Forall (fun _ st => 0 <= unique_bytes st) m -> map_Forall (fun _ st => 0 <= memory_charge st) m ->
  0 <= slots -> m !! key = Some st ->
  Retained_release (accounted m slots) st = Ok (accounted (delete key m) slots).
Proof.
  intros Hu Hm Hs Hk. pose proof (map_sum_member unique_bytes _ _ _ Hu Hk) as H1.
  pose proof (map_sum_member memory_charge _ _ _ Hm Hk) as H2.
  unfold Retained_release, accounted, DATAGRAM_METADATA_CHARGE. cbn [rt_payload_bytes rt_memory_charge rt_datagram_slots].
  rewrite (checked_sub_ok (map_sum unique_bytes m)) by lia. cbn [expect]. rewrite Ok_bind.
  rewrite checked_sub_ok by lia. cbn [expect]. rewrite Ok_bind, !map_sum_delete_from, Hk. cbn [from_option].
  do 2 f_equal. lia.
Qed.

(** ** The update *)

Section update.
Context (l : list RetainedRange) (inc : Incoming) (p : MergePlan) (L M R : list RetainedRange).
Context (Hw : ranges_wf (-1) l) (Hsp : span_ok inc) (Hm : merge_post l inc p L M R).
Context (Hkind : mp_kind p = merge_kind l inc p).

(** The range put in place, and that it costs what the plan says. *)
Record updated (policy : OverlapPolicy) (s : StoragePlan) (u : RangeUpdate) (x : RetainedRange) : Prop := {
  up_range : update_range inc M u x;
  up_merged : merged_range policy inc p M x;
  up_fits : zlen (rr_bytes x) <= rr_capacity x;
  up_stored : stored (L ++ [x] ++ R) = st_retained_payload s
}.

Lemma kept_update policy c s :
  storage_post l L M R p c s -> st_allocation s = 0 ->
  exists x, match mp_kind p with
            | KUnchanged => updated policy s UUnchanged x
            | KAppend => updated policy s UAppend x
            | KPrepend => updated policy s UPrepend x
            | KReplace => False
            end.
Proof.
  intros Hs Ha. destruct (union_nonneg _ _ _ _ _ _ Hw Hsp Hm) as [Hu0 Hu].
  pose proof (mo_split _ _ _ _ _ _ Hm) as El.
  destruct (merge_parts_wf _ _ _ _ _ _ Hw Hm) as (_ & HM & _).
  assert (forall r, M = [r] -> 0 < zlen (rr_bytes r) <= rr_capacity r) as Hone.
  { intros r EM. rewrite EM in HM. by destruct HM as (_ & ? & _). }
  destruct Hs as [(_ & Hret & Hk)|(_ & Ha' & _)]; [|lia].
  destruct (mp_kind p) eqn:Ek; symmetry in Hkind.
  - unfold merge_kind in Hkind. destruct (Z.eqb_spec (mp_added_bytes p) 0) as [H0|], (Z.eqb_spec (mp_conflicting_bytes p) 0)
      as [Hc|]; cbn [andb] in Hkind; try (by repeat case_match).
    destruct (unchanged_merged _ _ _ _ _ _ Hw Hsp Hm policy H0 Hc) as (r & EM & Hmr). exists r.
    split; [done|done|by apply Hone|]. rewrite Hret, El, EM. done.
  - destruct Hk as [?|[_ Hfit]]; [done|].
    destruct (append_merged _ _ _ _ _ _ Hw Hsp Hm policy Hkind) as (r & EM & _ & Hmr). exists (appended inc r).
    pose proof Hmr as [Hs He _]. rewrite EM in Hfit. cbn [stored] in Hfit. specialize (Hone r EM).
    assert (rr_capacity (appended inc r) = rr_capacity r /\ zlen (rr_bytes (appended inc r)) <= rr_capacity r) as [Hcap Hlen].
    { unfold rr_last, appended, grown_capacity in *. cbn [rr_start rr_bytes rr_capacity] in *. rewrite zlen_app in *.
      rewrite (proj2 (Z.leb_le _ _)) by lia. lia. }
    split; [by exists r|done|lia|]. rewrite Hret, El, EM, !stored_app. cbn [stored]. lia.
  - destruct Hk as [?|[_ Hfit]]; [done|].
    destruct (prepend_merged _ _ _ _ _ _ Hw Hsp Hm policy Hkind) as (r & EM & _ & Hmr). exists (prepended inc r).
    pose proof Hmr as [Hs He _]. rewrite EM in Hfit. cbn [stored] in Hfit. specialize (Hone r EM).
    assert (rr_capacity (prepended inc r) = rr_capacity r /\ zlen (rr_bytes (prepended inc r)) <= rr_capacity r) as [Hcap Hlen].
    { unfold rr_last, prepended, grown_capacity in *. cbn [rr_start rr_bytes rr_capacity] in *. rewrite zlen_app in *.
      rewrite (proj2 (Z.leb_le _ _)) by lia. lia. }
    split; [by exists r|done|lia|]. rewrite Hret, El, EM, !stored_app. cbn [stored]. lia.
  - by destruct Hk as [?|[? _]].
Qed.

(** The branch of [push] that settles the update; the charges stand. *)
Lemma update_spec alloc r existing now external_charge policy c s (ch : Charges) :
  storage_post l L M R p c s ->
  ends resource_error
    (if negb (st_allocation s =? 0) then
       range ← merge_affected alloc l inc p policy (st_allocation s);
       '(storage, charges) ←
         (if negb (rr_capacity range =? st_allocation s) then
            storage ← storage_plan r l p (rr_capacity range);
            charges ← admit_charges r existing inc p storage now external_charge;
            Ok (storage, charges)
          else Ok (s, ch));
       Ok (UReplace range, storage, charges)
     else match mp_kind p with
          | KUnchanged => Ok (UUnchanged, s, ch)
          | KAppend => Ok (UAppend, s, ch)
          | KPrepend => Ok (UPrepend, s, ch)
          | KReplace => Err INCOMPLETE_RECONSTRUCTION
          end)
    (fun '(u, s', ch') => s' = s /\ ch' = ch /\ exists x, updated policy s u x).
Proof.
  intros Hs. destruct (Z.eqb_spec (st_allocation s) 0) as [Ha|Ha]; cbn [negb].
  - destruct (kept_update policy c s Hs Ha) as [x Hx]. destruct (mp_kind p); cbn [ends]; eauto; done.
  - pose proof Hs as [(? & _)|(_ & Ea & Hret)]; [done|]. apply ends_bind. eapply ends_mono.
    { apply (merge_affected_spec _ _ _ _ _ _ Hw Hsp Hm alloc policy). lia. }
    intros x [Hmr Hcap]. rewrite Hcap, Z.eqb_refl. cbn [negb]. rewrite Ok_bind. cbn [ends].
    split; [done|]. split; [done|]. exists x. pose proof Hmr as [Hst He _]. unfold rr_last in He.
    split; [done|done|lia|]. rewrite Hret, !stored_app. cbn [stored]. lia.
Qed.
End update.

(** ** Removing and inserting datagrams *)

Lemma ip_wf_delete r key st :
  ip_wf r -> datagrams r !! key = Some st ->
  ip_wf (mkIpReassembler (ip_limits r) (overlap_policy r) (delete key (datagrams r))
           (expiry_remove (dg_deadline st) key (ip_expiry r))
           (accounted (delete key (datagrams r)) (rt_datagram_slots (retained r)))).
Proof.
  intros Hr Hk. destruct (ip_wf_sums r Hr) as [Hu Hm].
  pose proof (map_sum_member unique_bytes _ _ _ Hu Hk). pose proof (map_sum_member memory_charge _ _ _ Hm Hk).
  pose proof Hr as [H1 H2 H3 H4 H5 H6 H7 H8 H9].
  assert (Z.of_nat (size (delete key (datagrams r))) <= Z.of_nat (size (datagrams r))) as Hsz.
  { rewrite size_delete_eq, Hk. cbn. lia. }
  split; cbn; try done; try lia.
  - by apply map_Forall_delete.
  - rewrite map_sum_delete_from, Hk. cbn. lia.
  - rewrite map_sum_delete_from, Hk. cbn. lia.
  - pose proof (indexed_delete dg_deadline _ _ key H9) as Hi. by rewrite Hk in Hi.
Qed.

(** [entries] is the index after the deadline of [key] moves to that of [st']. *)
Lemma ip_wf_insert r key st' entries payload memory slots :
  ip_wf r -> datagram_wf (ip_limits r) key st' ->
  entries = (if bool_decide ((datagrams r !! key ≫= dg_deadline) = dg_deadline st') then ip_expiry r
             else expiry_insert (dg_deadline st') key
                    (expiry_remove (datagrams r !! key ≫= dg_deadline) key (ip_expiry r))) ->
  payload = rt_payload_bytes (retained r) - from_option unique_bytes 0 (datagrams r !! key) + unique_bytes st' ->
  memory = rt_memory_charge (retained r) - from_option memory_charge 0 (datagrams r !! key) + memory_charge st'
           + DATAGRAM_METADATA_CHARGE * (slots - rt_datagram_slots (retained r)) ->
  payload <= ip_max_aggregate_bytes (ip_limits r) -> memory <= ip_max_aggregate_bytes (ip_limits r) ->
  Z.of_nat (size (<[key := st']> (datagrams r))) <= max_datagrams (ip_limits r) ->
  Z.of_nat (size (<[key := st']> (datagrams r))) <= slots ->
  ip_wf (mkIpReassembler (ip_limits r) (overlap_policy r) (<[key := st']> (datagrams r)) entries
           (mkRetained payload memory slots)).
Proof.
  intros Hr Hst -> -> -> Hpm Hmm Hc Hs. pose proof Hr as [H1 H2 H3 H4 H5 H6 H7 H8 H9].
  split; cbn; try done.
  - by apply map_Forall_insert_2.
  - rewrite map_sum_insert, map_sum_delete_from. lia.
  - rewrite map_sum_insert, map_sum_delete_from. lia.
  - case_bool_decide as Hd; [by apply indexed_insert_same|by apply indexed_insert].
Qed.

(** ** What a push reports and leaves *)

Definition frag_view (f : Fragment) (i : Z) : option Z := zget (fragment_payload f) (i - 8 * fragment_units f).
Definition frag_overlap (g : Z -> option Z) (f : Fragment) : Z :=
  tally (present g) (8 * fragment_units f) (fragment_payload f).
Definition frag_conflicts (g : Z -> option Z) (f : Fragment) : Z :=
  tally (differs g) (8 * fragment_units f) (fragment_payload f).

(** The bytes retained for a key, by payload offset. *)
Definition datagram_view (r : IpReassembler) (key : DatagramKey) : Z -> option Z :=
  rview (ranges_of (datagrams r !! key)).

Definition disposition_of (policy : OverlapPolicy) (g : Z -> option Z) (f : Fragment) : FragmentDisposition :=
  let added := zlen (fragment_payload f) - frag_overlap g f in
  if (added =? 0) && (frag_conflicts g f =? 0) then Duplicate (zlen (fragment_payload f))
  else if negb (frag_conflicts g f =? 0) then OverlapResolved policy (frag_conflicts g f) added
  else Accepted added.

(** The fragment's own outcome. *)
Record fragment_reported (r : IpReassembler) (f : Fragment) (o : FragmentOutcome) : Prop := {
  fr_key : fo_key o = fragment_key f;
  fr_disposition : fo_disposition o = disposition_of (overlap_policy r) (datagram_view r (fragment_key f)) f;
  fr_count : fo_fragment_count o = from_option fragment_count 0 (datagrams r !! fragment_key f) + 1 /\
             fo_fragment_count o <= max_fragments_per_datagram (ip_limits r);
  fr_unique : fo_unique_bytes o = from_option unique_bytes 0 (datagrams r !! fragment_key f)
    + (zlen (fragment_payload f) - frag_overlap (datagram_view r (fragment_key f)) f);
  fr_final : (forall st n, datagrams r !! fragment_key f = Some st -> final_length st = Some n ->
                fo_known_final_length o = Some n) /\
             fo_known_final_length o =
               (if fragment_more f then datagrams r !! fragment_key f ≫= final_length
                else Some (8 * fragment_units f + zlen (fragment_payload f)));
  fr_reject : overlap_policy r = PolicyReject -> frag_conflicts (datagram_view r (fragment_key f)) f = 0
}.

Definition after (r : IpReassembler) (f : Fragment) : Z -> option Z :=
  merged_view (overlap_policy r) (datagram_view r (fragment_key f)) (frag_view f).

(** The furthest end of a fragment that is not the last, once this one is in. *)
Definition new_non_final (existing : option DatagramState) (inc : Incoming) : option Z :=
  if inc_more_fragments inc
  then Some (match existing ≫= max_non_final_end with
             | Some e => Z.max e (inc_end inc) | None => inc_end inc end)
  else existing ≫= max_non_final_end.

(** The datagram stays: its bytes are the merge, and some are missing. *)
Definition accepted_post (r : IpReassembler) (f : Fragment) (r' : IpReassembler) (o : FragmentOutcome) : Prop :=
  exists st, datagrams r' = <[fragment_key f := st]> (datagrams r) /\
    (forall i, rview (ranges st) i = after r f i) /\ final_length st = fo_known_final_length o /\
    fragment_count st = fo_fragment_count o /\ unique_bytes st = fo_unique_bytes o /\
    exists inc ecn, validate_fragment f (ip_limits r) = Ok inc /\ accumulated_ecn (datagrams r !! fragment_key f) inc = Ok ecn /\
      reconstruction st = settled (datagrams r !! fragment_key f) inc ecn /\
      max_non_final_end st = new_non_final (datagrams r !! fragment_key f) inc.

(** The datagram leaves: its payload is the merge, without a gap, up to the final
    length, behind the header kept. *)
Definition completed_post (r : IpReassembler) (f : Fragment) (r' : IpReassembler) (o : FragmentOutcome)
  (d : CompletedDatagram) : Prop :=
  datagrams r' = delete (fragment_key f) (datagrams r) /\
  fo_known_final_length o = Some (cd_final_payload_length d) /\
  cd_key d = fragment_key f /\ cd_fragment_count d = fo_fragment_count o /\
  cd_unique_bytes d = cd_final_payload_length d /\
  exists inc ecn payload, incoming_of f inc /\ validate_fragment f (ip_limits r) = Ok inc /\
    accumulated_ecn (datagrams r !! fragment_key f) inc = Ok ecn /\
    zlen payload = cd_final_payload_length d /\
    (forall i, 0 <= i < zlen payload -> zget payload i = after r f i) /\
    (forall i, is_Some (after r f i) -> 0 <= i < zlen payload) /\
    rebuilt (settled (datagrams r !! fragment_key f) inc ecn) payload (cd_bytes d).

Definition push_post (r : IpReassembler) (f : Fragment) (r' : IpReassembler) (out : PushOutcome) : Prop :=
  ip_wf r' /\ ip_limits r' = ip_limits r /\ overlap_policy r' = overlap_policy r /\
  match out with
  | PushAccepted o => fragment_reported r f o /\ accepted_post r f r' o
  | PushCompleted o d => fragment_reported r f o /\ completed_post r f r' o d
  end.

(** The view of the incoming fragment is the view of the fragment. *)
Lemma incoming_view f inc : incoming_of f inc ->
  (forall i, inc_view inc i = frag_view f i) /\
  forall g, overlapping g inc = frag_overlap g f /\ conflicting g inc = frag_conflicts g f.
Proof.
  intros [_ Ho _ Hp _]. unfold inc_view, frag_view, overlapping, conflicting, frag_overlap, frag_conflicts.
  by rewrite Ho, Hp.
Qed.

Lemma merged_view_ext policy f g g' i : g i = g' i -> merged_view policy f g i = merged_view policy f g' i.
Proof. unfold merged_view. by intros ->. Qed.

(** The disposition [push] computes from the plan. *)
Lemma disposition_spec policy l f inc p L M R :
  incoming_of f inc -> merge_post l inc p L M R -> mp_kind p = merge_kind l inc p ->
  (if bool_decide (mp_kind p = KUnchanged) then Duplicate (zlen (inc_payload inc))
   else if negb (mp_conflicting_bytes p =? 0)
   then OverlapResolved policy (mp_conflicting_bytes p) (mp_added_bytes p)
   else Accepted (mp_added_bytes p)) = disposition_of policy (rview l) f.
Proof.
  intros Hf Hm Hk. destruct (incoming_view f inc Hf) as [_ Hc]. destruct (Hc (rview l)) as [Ho Hcf].
  unfold disposition_of. rewrite <-Ho, <-Hcf, <-(if_payload _ _ Hf), <-(mo_added _ _ _ _ _ _ Hm), <-(mo_conflicting _ _ _ _ _ _ Hm).
  assert (bool_decide (mp_kind p = KUnchanged) = (mp_added_bytes p =? 0) && (mp_conflicting_bytes p =? 0)) as ->; [|done].
  rewrite Hk. unfold merge_kind. destruct ((mp_added_bytes p =? 0) && (mp_conflicting_bytes p =? 0)); [done|].
  apply bool_decide_false. by repeat case_match.
Qed.

(** ** The state a fragment leaves *)

Lemma rview_last lo l : ranges_wf lo l -> l <> [] -> is_Some (rview l (ranges_end lo l - 1)).
Proof.
  intros Hl Hne. destruct (last l) as [r|] eqn:E; [|by apply last_None in E].
  rewrite (ranges_end_last _ _ _ E). apply (rview_covered lo); [done|]. apply last_Some_elem_of in E.
  exists r. split; [done|]. destruct (ranges_wf_in _ _ _ Hl E) as (_ & ? & _). unfold rr_last. lia.
Qed.

Lemma merged_view_Some policy f g i :
  is_Some (merged_view policy f g i) <-> is_Some (f i) \/ is_Some (g i).
Proof. unfold merged_view. destruct policy, (f i), (g i); cbn; split; intros; try (by eauto); by destruct H as [[? ?]|[? ?]] || by destruct H. Qed.

Lemma existing_ranges_wf lim key existing :
  existing_wf lim key existing -> ranges_wf (-1) (ranges_of existing).
Proof. destruct existing as [st|]; [|done]. apply dw_ranges. Qed.

Lemma existing_unique lim key existing :
  existing_wf lim key existing -> from_option unique_bytes 0 existing = held (ranges_of existing).
Proof. destruct existing as [st|]; [|done]. apply dw_unique. Qed.

Section core.
Context (r : IpReassembler) (existing : option DatagramState) (inc : Incoming).
Context (Hlim : ip_limits_ok (ip_limits r)).
Context (Hex : existing_wf (ip_limits r) (inc_key inc) existing) (Hinc : incoming_ok (ip_limits r) inc).
Context (p : MergePlan) (L M R : list RetainedRange).
Context (Hm : merge_post (ranges_of existing) inc p L M R).
Context (Hkind : mp_kind p = merge_kind (ranges_of existing) inc p).
Context (final : option Z) (Hfin : final_post existing inc final).
Context (ecn : Ecn) (policy : OverlapPolicy).
Context (Hhead : header_post existing inc policy ecn (settled existing inc ecn)).
Context (s : StoragePlan) (ch : Charges) (now external_charge : Z).
Context (Hch : charges_post r existing inc p final (recon_len (settled existing inc ecn)) s now external_charge ch).
Context (u : RangeUpdate) (x : RetainedRange) (Hup : updated inc p L M R policy s u x).

#[local] Notation existing_ranges := (existing_ranges_wf _ _ _ Hex).

Definition new_ranges : list RetainedRange := L ++ [x] ++ R.

Lemma new_ranges_wf : ranges_wf (-1) new_ranges.
Proof.
  apply (spliced_wf _ _ _ _ _ _ existing_ranges (io_span _ _ Hinc) Hm policy); apply Hup.
Qed.

Lemma new_ranges_view i :
  rview new_ranges i = merged_view policy (rview (ranges_of existing)) (inc_view inc) i.
Proof.
  apply (spliced_view _ _ _ _ _ _ (io_span _ _ Hinc) Hm policy); apply Hup.
Qed.

Lemma new_ranges_held : held new_ranges = ch_unique_bytes ch.
Proof.
  unfold new_ranges. rewrite (spliced_held _ _ _ _ _ _ Hm policy) by apply Hup.
  destruct (cp_unique _ _ _ _ _ _ _ _ _ _ Hch) as [-> _]. by rewrite (existing_unique _ _ _ Hex).
Qed.

Lemma new_ranges_count : zlen new_ranges = mp_result_range_count p.
Proof. unfold new_ranges. rewrite !zlen_app, (mo_result _ _ _ _ _ _ Hm). change (zlen [x]) with 1. lia. Qed.

Lemma new_ranges_nonempty : new_ranges <> [].
Proof. unfold new_ranges. by destruct L. Qed.

(** The end of the last range is the furthest byte seen. *)
Lemma new_ranges_end :
  inc_end inc <= ranges_end (-1) new_ranges /\
  ranges_end (-1) (ranges_of existing) <= ranges_end (-1) new_ranges <=
    Z.max (inc_end inc) (ranges_end (-1) (ranges_of existing)).
Proof.
  pose proof new_ranges_wf as Hw'. pose proof existing_ranges as Hw. pose proof (io_span _ _ Hinc) as Hsp.
  assert (forall i, is_Some (rview (ranges_of existing) i) \/ is_Some (inc_view inc i) ->
    i < ranges_end (-1) new_ranges) as Hin.
  { intros i Hi. apply (merged_view_Some policy) in Hi as [b Hb]. rewrite <-new_ranges_view in Hb.
    apply (rview_end _ _ _ _ Hw') in Hb. lia. }
  assert (inc_end inc <= ranges_end (-1) new_ranges) as Hie.
  { enough (inc_end inc - 1 < ranges_end (-1) new_ranges) by lia. apply Hin. right. apply inc_view_spec; [done|].
    destruct Hsp as (? & ? & ? & ?). lia. }
  split; [done|]. split.
  - destruct (decide (ranges_of existing = [])) as [->|Hne].
    { cbn. apply (ranges_wf_end (-1) new_ranges Hw'). }
    enough (ranges_end (-1) (ranges_of existing) - 1 < ranges_end (-1) new_ranges) by lia. apply Hin. left.
    by apply rview_last.
  - pose proof (rview_last _ _ Hw' new_ranges_nonempty) as Hl. rewrite new_ranges_view in Hl.
    apply merged_view_Some in Hl as [[b Hb]|Hb].
    + apply (rview_end _ _ _ _ Hw) in Hb. lia.
    + apply inc_view_spec in Hb; [|done]. lia.
Qed.

Lemma new_non_final_spec e : new_non_final existing inc = Some e ->
  0 < e <= ranges_end (-1) new_ranges /\ forall f, final = Some f -> e < f.
Proof.
  intros He. destruct new_ranges_end as (H1 & H2 & _). destruct (io_span _ _ Hinc) as (? & ? & ? & _).
  assert (forall e', existing ≫= max_non_final_end = Some e' ->
    0 < e' <= ranges_end (-1) new_ranges /\ forall f, final = Some f -> e' < f) as Hold.
  { intros e' He'. destruct existing as [st|] eqn:Eex; [|done]. cbn in He', Hex. 
    destruct (dw_non_final _ _ _ Hex e' He') as [Hb _]. cbn in H2. split; [lia|].
    intros f Hf. by apply (proj2 (fp_retained _ _ _ Hfin f st Hf eq_refl)). }
  assert (inc_more_fragments inc = true -> forall f, final = Some f -> inc_end inc < f) as Hnew.
  { intros Hmore f Hf. by apply (fp_more _ _ _ Hfin). }
  unfold new_non_final in He. destruct (inc_more_fragments inc); [|by apply Hold].
  specialize (Hnew eq_refl). destruct (existing ≫= max_non_final_end) as [e'|]; injection He as <-.
  - destruct (Hold e' eq_refl) as [? Hf']. split; [lia|]. intros f Hf. specialize (Hnew f Hf). specialize (Hf' f Hf). lia.
  - split; [lia|done].
Qed.

(** What [merge_completes] tests is that the new ranges are the whole datagram. *)
Lemma completes_iff : merge_completes p final = true <-> complete new_ranges final.
Proof.
  pose proof (mr_start _ _ _ _ _ (up_merged _ _ _ _ _ _ _ _ _ Hup)) as Hstart.
  pose proof (mr_last _ _ _ _ _ (up_merged _ _ _ _ _ _ _ _ _ Hup)) as Hlast.
  unfold merge_completes, complete. rewrite <-new_ranges_count. split.
  - destruct final as [f|]; [|done]. rewrite !andb_true_iff, !Z.eqb_eq. intros [[Hc Hs] He].
    exists x, f. unfold new_ranges in *. rewrite !zlen_app in Hc. change (zlen [x]) with 1 in Hc.
    pose proof (zlen_nonneg L). pose proof (zlen_nonneg R).
    rewrite (zlen_0 L), (zlen_0 R) by lia. split_and!; [done|done|lia|lia].
  - intros (r0 & f & E & -> & Hs & He). unfold new_ranges in *. destruct L as [|? [|]]; [|done|done]. destruct R; [|done].
    cbn in E. injection E as <-. rewrite !andb_true_iff, !Z.eqb_eq. split; [split; [done|lia]|lia].
Qed.

Definition new_state (count : Z) : DatagramState :=
  mkDatagram new_ranges (ch_unique_bytes ch) count (ch_duplicate_fragments ch) (ch_overlap_bytes ch) final
    (new_non_final existing inc) (settled existing inc ecn) (ch_last_update ch) (ch_deadline ch) (ch_prospective_charge ch).

Lemma new_state_wf count :
  count = from_option fragment_count 0 existing + 1 -> count <= max_fragments_per_datagram (ip_limits r) ->
  merge_completes p final = false -> datagram_wf (ip_limits r) (inc_key inc) (new_state count).
Proof.
  intros Hc Hcm Hnc. destruct Hch as [[Hu1 Hu2] Hd Ho Hsl Hpr Hmem _ _ _ _ [Hdl1 Hdl2]].
  pose proof (tally_range (differs (rview (ranges_of existing))) (inc_offset inc) (inc_payload inc)) as Hcf.
  fold (conflicting (rview (ranges_of existing)) inc) in Hcf. rewrite <-(mo_conflicting _ _ _ _ _ _ Hm) in Hcf.
  destruct (io_span _ _ Hinc) as (Hi1 & Hi2 & Hi3 & Hi4). unfold MAX_WIRE_LENGTH in Hi4.
  assert (0 <= from_option fragment_count 0 existing /\
    0 <= from_option duplicate_fragments 0 existing <= from_option fragment_count 0 existing /\
    0 <= from_option overlap_bytes 0 existing <= 65535 * from_option fragment_count 0 existing) as (Hf0 & Hd0 & Ho0).
  { destruct existing as [st|]; cbn; [|lia]. destruct Hex as [_ _ _ _ ? ? ? _ _ _ _ _ _]. lia. }
  split; cbn.
  - apply new_ranges_wf.
  - apply new_ranges_nonempty.
  - by rewrite new_ranges_held.
  - done.
  - lia.
  - rewrite Hd. destruct (bool_decide _); cbn; lia.
  - rewrite Ho. lia.
  - intros f Hf. destruct new_ranges_end as (_ & _ & Hend). destruct (fp_bounds _ _ _ Hfin f Hf) as [Hb1 Hb2].
    split; [|done]. destruct existing as [st|] eqn:Eex; [|cbn in Hend; lia].
    destruct (fp_retained _ _ _ Hfin f st Hf eq_refl) as [? _]. cbn in Hend. lia.
  - intros e He. by apply new_non_final_spec.
  - intros Hcp. apply completes_iff in Hcp. congruence.
  - pose proof (hp_wf _ _ _ _ _ Hhead) as Hw. unfold recon_wf in *.
    destruct (inc_key inc), (settled existing inc ecn) as [[h|] e|]; try done. by rewrite new_ranges_view.
  - rewrite Hpr, new_ranges_count. unfold new_ranges. by rewrite (up_stored _ _ _ _ _ _ _ _ _ Hup).
  - done.
Qed.
(** ** The payload of a completed datagram *)

Definition payload_parts : outcome IpError (list bytes) :=
  match u with
  | UUnchanged => data ← ok_or INCOMPLETE_RECONSTRUCTION (rr_bytes <$> head (ranges_of existing)); Ok [data; []; []]
  | UAppend => data ← ok_or INCOMPLETE_RECONSTRUCTION (rr_bytes <$> head (ranges_of existing));
               Ok [data; []; inc_payload inc]
  | UPrepend => data ← ok_or INCOMPLETE_RECONSTRUCTION (rr_bytes <$> head (ranges_of existing));
                Ok [inc_payload inc; data; []]
  | UReplace range => Ok [rr_bytes range; []; []]
  end.

Lemma completed_parts :
  merge_completes p final = true ->
  final = Some (mp_union_end p) /\ zlen (rr_bytes x) = mp_union_end p /\ 0 < mp_union_end p /\
  ch_unique_bytes ch = mp_union_end p /\
  (exists parts, payload_parts = Ok parts /\ concat parts = rr_bytes x) /\
  forall i, zget (rr_bytes x) i = merged_view policy (rview (ranges_of existing)) (inc_view inc) i.
Proof.
  intros Hc. pose proof (proj1 completes_iff Hc) as (r0 & f & E & Ef & Hs & He).
  pose proof (mr_last _ _ _ _ _ (up_merged _ _ _ _ _ _ _ _ _ Hup)) as Hlast.
  destruct (io_span _ _ Hinc) as (_ & _ & Hp & _). destruct (mo_hull _ _ _ _ _ _ Hm) as [_ Hh].
  unfold new_ranges in E. pose proof new_ranges_held as Hheld. pose proof new_ranges_view as Hview. unfold new_ranges in *.
  pose proof (mo_split _ _ _ _ _ _ Hm) as El. pose proof (up_range _ _ _ _ _ _ _ _ _ Hup) as Hu.
  destruct L as [|? [|]]; [|done|done]. destruct R; [|done]. cbn in E. injection E as ->. cbn [app] in *.
  rewrite app_nil_r in El. unfold rr_last in *. cbn [held] in Hheld.
  assert (0 < mp_union_end p) as H0 by (destruct (io_span _ _ Hinc) as (? & ? & ? & ?); lia).
  split; [rewrite Ef; f_equal; lia|]. split; [lia|]. split; [done|]. split; [lia|]. split.
  - unfold payload_parts. destruct u as [| | |y]; cbn [update_range] in Hu.
    + rewrite El, Hu. eexists. split; [reflexivity|]. cbn. by rewrite app_nil_r.
    + destruct Hu as (r1 & HM & ->). rewrite El, HM. eexists. split; [reflexivity|]. cbn. by rewrite app_nil_r.
    + destruct Hu as (r1 & HM & ->). rewrite El, HM. eexists. split; [reflexivity|]. cbn. by rewrite app_nil_r.
    + subst y. eexists. split; [reflexivity|]. cbn. by rewrite app_nil_r.
  - intros i. rewrite <-Hview, rview_single. f_equal. lia.
Qed.

(** ** The two ways a push ends *)

Context (f : Fragment) (Hof : incoming_of f inc) (Hval : validate_fragment f (ip_limits r) = Ok inc) (Hr : ip_wf r).
Context (Hexr : existing = datagrams r !! inc_key inc) (Hpol : policy = overlap_policy r).
Context (Hecn : accumulated_ecn existing inc = Ok ecn).
Context (Hwire : wire_prefix existing inc + wire_extent existing inc final <= MAX_WIRE_LENGTH).
Context (count : Z) (Hcount : count = from_option fragment_count 0 existing + 1)
  (Hcount_max : count <= max_fragments_per_datagram (ip_limits r)).
Context (Hext : 0 <= external_charge) (Hreject : policy = PolicyReject -> mp_conflicting_bytes p = 0).

Definition reported : FragmentOutcome :=
  mkFragmentOutcome (inc_key inc)
    (if bool_decide (mp_kind p = KUnchanged) then Duplicate (zlen (inc_payload inc))
     else if negb (mp_conflicting_bytes p =? 0)
     then OverlapResolved policy (mp_conflicting_bytes p) (mp_added_bytes p)
     else Accepted (mp_added_bytes p)) count (ch_unique_bytes ch) final.

Lemma after_eq i : after r f i = merged_view policy (rview (ranges_of existing)) (inc_view inc) i.
Proof.
  unfold after, datagram_view. rewrite <-(if_key _ _ Hof), <-Hexr, <-Hpol. apply merged_view_ext.
  symmetry. by apply incoming_view.
Qed.

Lemma reported_post : fragment_reported r f reported.
Proof.
  destruct (incoming_view f inc Hof) as [_ Hc]. destruct (Hc (rview (ranges_of existing))) as [Ho Hcf].
  assert (datagrams r !! fragment_key f = existing) as Ek by (by rewrite <-(if_key _ _ Hof)).
  split; unfold datagram_view; rewrite ?Ek, <-?Hpol; cbn.
  - apply (if_key _ _ Hof).
  - by eapply disposition_spec.
  - done.
  - rewrite <-Ho, <-(if_payload _ _ Hof), <-(mo_added _ _ _ _ _ _ Hm). apply (cp_unique _ _ _ _ _ _ _ _ _ _ Hch).
  - split; [apply (fp_established _ _ _ Hfin)|]. rewrite <-(if_more _ _ Hof), <-(if_offset _ _ Hof), <-(if_payload _ _ Hof).
    destruct (inc_more_fragments inc) eqn:Emore; [apply (fp_unknown _ _ _ Hfin Emore)|].
    rewrite (fp_last _ _ _ Hfin Emore). f_equal. destruct (io_span _ _ Hinc) as (_ & ? & _). lia.
  - intros HR. rewrite <-Hcf, <-(mo_conflicting _ _ _ _ _ _ Hm). auto.
Qed.

Lemma accept_branch alloc :
  merge_completes p final = false ->
  (is_none existing = true -> Z.of_nat (size (datagrams r)) < max_datagrams (ip_limits r)) ->
  ends resource_error
    (_ ← (if is_none existing then ip_try_reserve alloc AllocMap 1 (ch_prospective_charge ch) else Ok tt);
     new_ranges ← apply_range_update alloc (ranges_of existing) u inc p;
     let new_state :=
       mkDatagram new_ranges (ch_unique_bytes ch) count (ch_duplicate_fragments ch)
         (ch_overlap_bytes ch) final (new_non_final existing inc) (settled existing inc ecn) (ch_last_update ch)
         (ch_deadline ch) (ch_prospective_charge ch) in
     let expiry :=
       if bool_decide ((existing ≫= dg_deadline) = ch_deadline ch) then ip_expiry r
       else expiry_insert (ch_deadline ch) (inc_key inc)
              (expiry_remove (existing ≫= dg_deadline) (inc_key inc) (ip_expiry r)) in
     let slots := if negb (ch_new_slot_charge ch =? 0)
                  then saturating_add usize_max (rt_datagram_slots (retained r)) 1
                  else rt_datagram_slots (retained r) in
     Ok (mkIpReassembler (ip_limits r) policy (<[inc_key inc := new_state]> (datagrams r)) expiry
           (mkRetained (ch_aggregate_payload_bytes ch) (ch_aggregate_memory_charge ch) slots),
         PushAccepted reported))
    (fun '(r', out) => push_post r f r' out).
Proof.
  intros Hnc Hroom. apply ends_bind. apply (ends_mono _ _ (fun _ => True)).
  { destruct (is_none existing); [|done]. unfold ip_try_reserve. by destruct (alloc AllocMap 1 && _). }
  intros _ _. apply ends_bind. eapply ends_mono.
  { apply (apply_range_update_spec _ _ _ _ _ _ existing_ranges Hm alloc u x), Hup. }
  intros ? ->. cbv zeta. fold new_ranges. fold (new_state count). cbn [ends].
  pose proof (new_state_wf count Hcount Hcount_max Hnc) as Hst.
  pose proof Hch as [Hu Hd Ho Hsl Hpr [Hmem Hmem'] _ _ [Hpay Hpay'] _ [_ Hdl]].
  pose proof (iw_slots _ Hr). pose proof (iw_count _ Hr). pose proof (iw_memory_max _ Hr) as Hmm.
  assert (rt_datagram_slots (retained r) + 1 <= usize_max) as Hsat.
  { pose proof (iw_memory _ Hr) as Em. destruct (ip_wf_sums r Hr) as [_ Hs0].
    pose proof (map_sum_nonneg memory_charge _ Hs0). destruct (il_aggregate _ Hlim).
    unfold DATAGRAM_METADATA_CHARGE, usize_max, u64_max in *. lia. }
  set (slots := if negb _ then _ else _).
  assert (DATAGRAM_METADATA_CHARGE * (slots - rt_datagram_slots (retained r)) = ch_new_slot_charge ch /\
    Z.of_nat (size (<[inc_key inc := new_state count]> (datagrams r))) <= slots /\
    Z.of_nat (size (<[inc_key inc := new_state count]> (datagrams r))) <= max_datagrams (ip_limits r)) as (Hsl1 & Hsl2 & Hsl3).
  { rewrite size_insert_bound, size_delete_eq, <-Hexr. unfold slots. rewrite Hsl. unfold saturating_add, DATAGRAM_METADATA_CHARGE.
    unfold is_none in *. destruct existing; cbn [is_some negb andb from_bool] in *; cbn.
    - lia.
    - specialize (Hroom eq_refl). destruct (Z.leb_spec (rt_datagram_slots (retained r)) (Z.of_nat (size (datagrams r)))); cbn; lia. }
  split_and!; [|done|by cbn|apply reported_post|].
  - rewrite Hpol. apply ip_wf_insert; try done.
    + by rewrite <-Hexr.
    + rewrite <-Hexr. cbn. lia.
    + rewrite <-Hexr. cbn. lia.
    + lia.
  - exists (new_state count). rewrite <-(if_key _ _ Hof). split; [done|].
    split; [intros i; cbn; by rewrite new_ranges_view, after_eq|]. split_and!; try done.
    exists inc, ecn. by rewrite <-Hexr.
Qed.
Lemma complete_branch alloc :
  merge_completes p final = true ->
  ends resource_error
    (let final_len := mp_union_end p in
     datagram_charge ← reconstructed_length (settled existing inc ecn) final_len;
     _ ← ok_or (aggregate_limit r)
           (at_most (ip_max_aggregate_bytes (ip_limits r))
              (checked_add usize_max (ch_replacement_peak_charge ch) datagram_charge));
     parts ← payload_parts;
     data ← reconstruct_bytes alloc (settled existing inc ecn) parts;
     let datagram := mkCompleted (inc_key inc) data count (ch_unique_bytes ch) final_len
                       (ch_duplicate_fragments ch) (ch_overlap_bytes ch) in
     retained ← match existing with
                | Some state => Retained_release (retained r) state
                | None => Ok (retained r)
                end;
     Ok (mkIpReassembler (ip_limits r) policy (delete (inc_key inc) (datagrams r))
           (expiry_remove (existing ≫= dg_deadline) (inc_key inc) (ip_expiry r)) retained,
         PushCompleted reported datagram))
    (fun '(r', out) => push_post r f r' out).
Proof.
  intros Hc. cbv zeta. destruct (completed_parts Hc) as (Efin & Hxl & Hpos & Huniq & (parts & Eparts & Hcat) & Hview).
  pose proof (mo_max _ _ _ _ _ _ Hm) as Hmax. unfold MAX_WIRE_LENGTH in Hmax.
  assert (is_Some (merged_view policy (rview (ranges_of existing)) (inc_view inc) 0)) as Hzero.
  { rewrite <-Hview. apply zget_lt_is_Some. lia. }
  pose proof (recon_len_nonneg (settled existing inc ecn)) as Hrl.
  assert (wire_prefix existing inc + mp_union_end p <= MAX_WIRE_LENGTH) as Hw.
  { etrans; [|exact Hwire]. unfold wire_extent. by rewrite Efin. }
  destruct Hhead as [Hwf He Hwr].
  assert (reconstructed_length (settled existing inc ecn) (mp_union_end p)
          = Ok (recon_len (settled existing inc ecn) + mp_union_end p)) as ->.
  { unfold reconstructed_length, recon_wf, or_overflow in *. unfold MAX_WIRE_LENGTH, IPV6_LENGTH in *.
    destruct (settled existing inc ecn) as [[h|] e|pre q n e z]; cbn in *.
    - by rewrite checked_add_ok by (unfold usize_max, u64_max; lia).
    - destruct (inc_key inc); [|done]. by rewrite Hwf in Hzero; destruct Hzero.
    - by rewrite checked_add_ok by (unfold usize_max, u64_max; lia). }
  rewrite Ok_bind. pose proof (cp_complete _ _ _ _ _ _ _ _ _ _ Hch Hc) as Hcc. destruct (il_aggregate _ Hlim).
  rewrite checked_add_ok by lia. unfold at_most. cbn [mbind option_bind].
  rewrite (proj2 (Z.leb_le _ _)) by lia. cbn [ok_or]. rewrite Ok_bind, Eparts, Ok_bind.
  apply ends_bind. eapply ends_mono.
  { eapply (reconstruct_bytes_spec (inc_key inc)); [exact Hwf|exact Hzero|]. rewrite Hcat, Hxl.
    unfold MAX_WIRE_LENGTH, IPV6_LENGTH in *.
    destruct (settled existing inc ecn) as [[h|] e|pre q n e z]; cbn [recon_len]; lia. }
  intros data Hdata. rewrite Hcat in Hdata.
  assert (exists rt, match existing with Some state => Retained_release (retained r) state | None => Ok (retained r) end
    = Ok rt /\ ip_wf (mkIpReassembler (ip_limits r) policy (delete (inc_key inc) (datagrams r))
           (expiry_remove (existing ≫= dg_deadline) (inc_key inc) (ip_expiry r)) rt)) as (rt & -> & Hwf').
  { rewrite Hpol. clear -Hexr Hr. destruct existing as [st|]; symmetry in Hexr.
    - destruct (ip_wf_sums r Hr) as [Hu Hmc]. pose proof (iw_slots _ Hr).
      eexists. split; [rewrite (ip_wf_accounted r Hr); by apply (release_ok _ _ (inc_key inc)); [..|lia|]|].
      apply (ip_wf_delete r (inc_key inc) st Hr Hexr).
    - exists (retained r). split; [done|]. rewrite delete_id by done. by destruct r. }
  rewrite Ok_bind. cbn [ends]. split_and!; [done|done|by cbn|apply reported_post|].
  unfold completed_post. rewrite <-(if_key _ _ Hof), <-Hexr. cbn. split_and!; try done.
  exists inc, ecn, (rr_bytes x). split_and!; try done.
  - intros i Hi. by rewrite Hview, after_eq.
  - intros i Hi. rewrite after_eq, <-Hview in Hi. destruct Hi as [b Hb]. by apply zget_Some_lt in Hb.
Qed.
End core.

(** ** The whole push *)

(** The checks [push] makes before it looks for memory all succeed. *)
Definition passes (r : IpReassembler) (f : Fragment) : Prop :=
  exists inc ecn final, validate_fragment f (ip_limits r) = Ok inc /\
    let existing := datagrams r !! inc_key inc in
    validate_reconstruction_consistency existing inc = Ok tt /\ accumulated_ecn existing inc = Ok ecn /\
    plan_final_length existing inc = Ok final /\ validate_family_wire_extent existing inc final = Ok tt /\
    (overlap_policy r = PolicyReject -> frag_conflicts (datagram_view r (fragment_key f)) f = 0).

(** What a push can fail with; only for want of resources once the checks pass. *)
Definition push_error (r : IpReassembler) (f : Fragment) (e : IpError) : Prop :=
  external e /\ (passes r f -> resource_error e).

Lemma ends_check {E A B} (Q Q' : E -> Prop) (m : outcome E A) (k : A -> outcome E B) (P : A -> Prop) (R : B -> Prop) :
  ends Q m P -> (forall e, m = Err e -> Q e -> Q' e) -> (forall a, m = Ok a -> P a -> ends Q' (k a) R) ->
  ends Q' (m ≫= k) R.
Proof. destruct m; cbn; auto. Qed.

(** A check that fails does not pass. *)
Ltac failed_check :=
  let e := fresh in let Ee := fresh in let He := fresh in
  intros e Ee He; split; [exact He|]; intros (? & ? & ? & ? & ? & ? & ? & ? & ?);
  repeat match goal with x := _ |- _ => subst x end; simplify_eq; congruence.

Lemma ip_push_spec_passes alloc r f now external_charge :
  ip_wf r -> fragment_ok f -> 0 <= external_charge ->
  ends (push_error r f) (ip_push_with_external_charge alloc r f now external_charge)
    (fun '(r', out) => push_post r f r' out).
Proof.
  intros Hr Hf Hext. pose proof (iw_limits _ Hr) as Hlim. unfold ip_push_with_external_charge.
  eapply ends_check; [by apply validate_fragment_spec|failed_check|]. intros inc Ev [Hinc Hof]. cbv zeta.
  set (existing := datagrams r !! inc_key inc).
  assert (existing_wf (ip_limits r) (inc_key inc) existing) as Hex.
  { unfold existing. destruct (datagrams r !! inc_key inc) as [st|] eqn:E; [|done]. by apply (iw_datagrams _ Hr). }
  destruct (is_none existing && (max_datagrams (ip_limits r) <=? Z.of_nat (size (datagrams r)))) eqn:Eroom; [done|].
  assert (is_none existing = true -> Z.of_nat (size (datagrams r)) < max_datagrams (ip_limits r)) as Hroom.
  { intros En. rewrite En in Eroom. cbn in Eroom. apply Z.leb_gt in Eroom. lia. }
  apply ends_bind, ends_ok_or; [done|]. intros count [Hcount Hcm]%at_most_Some. apply checked_add_Some in Hcount as [Hcount _].
  eapply ends_check; [exact (consistency_spec _ existing inc Hex Hinc)|failed_check|]. intros [] _ Hcons.
  eapply ends_check; [exact (accumulated_ecn_spec _ existing inc Hex)|failed_check|]. intros ecn Hecn _.
  eapply ends_check; [exact (plan_final_length_spec _ existing inc Hex Hinc)|failed_check|]. intros final Efin Hfin.
  eapply ends_check; [exact (wire_extent_check _ existing inc Hex (io_prefix _ _ Hinc) final)|failed_check|].
  intros [] _ Hwire. cbv beta in Hwire.
  change (from_option ranges [] existing) with (ranges_of existing).
  pose proof (existing_ranges_wf _ _ _ Hex) as Hw. pose proof (io_span _ _ Hinc) as Hsp.
  destruct (plan_merge_spec (ranges_of existing) inc Hw Hsp) as (p & L & M & R & -> & Hm & Hk). rewrite Ok_bind.
  destruct (negb (mp_conflicting_bytes p =? 0) && bool_decide (overlap_policy r = PolicyReject)) eqn:Erej.
  { split; [done|]. intros (? & ? & ? & ? & ? & ? & ? & ? & Hno). exfalso.
    apply andb_true_iff in Erej as [Hc%negb_true_iff%Z.eqb_neq Hp%bool_decide_eq_true].
    destruct (incoming_view f inc Hof) as [_ Hov]. destruct (Hov (rview (ranges_of existing))) as [_ Hcf]. apply Hc.
    rewrite (mo_conflicting _ _ _ _ _ _ Hm), Hcf. unfold existing. rewrite (if_key _ _ Hof). exact (Hno Hp). }
  assert (overlap_policy r = PolicyReject -> mp_conflicting_bytes p = 0) as Hrej.
  { intros E. rewrite (bool_decide_true _ E), andb_true_r in Erej. by apply negb_false_iff, Z.eqb_eq in Erej. }
  destruct (union_nonneg _ _ _ _ _ _ Hw Hsp Hm) as [Hu0 Hu]. rewrite sub_u_ok, Ok_bind by lia.
  apply ends_bind. apply (ends_mono _ _ (fun preferred => preferred <= u64_max)).
  { destruct (il_bytes _ Hlim) as [_ Hb]. pose proof (mo_max _ _ _ _ _ _ Hm) as Hmax.
    assert (forall r0, M = [r0] -> ends (push_error r f) (first ← expect (zget (ranges_of existing) (mp_first_affected p));
      Ok (Z.min (Z.max (saturating_mul usize_max (rr_capacity first) 2) (mp_union_end p - mp_union_start p))
            (max_bytes_per_datagram (ip_limits r)))) (fun v => v <= u64_max)) as Hone.
    { intros r0 EM. rewrite (first_touched _ _ _ _ _ _ Hm r0 EM). cbn [expect]. rewrite Ok_bind. cbn [ends].
      unfold usize_max in Hb. lia. }
    rewrite Hk. destruct (merge_kind (ranges_of existing) inc p) eqn:Ek; cbn [is_extension].
    - cbn. unfold MAX_WIRE_LENGTH, u64_max in *. lia.
    - destruct (append_merged _ _ _ _ _ _ Hw Hsp Hm PolicyFirst Ek) as (r0 & EM & _). by apply (Hone r0).
    - destruct (prepend_merged _ _ _ _ _ _ Hw Hsp Hm PolicyFirst Ek) as (r0 & EM & _). by apply (Hone r0).
    - cbn. unfold MAX_WIRE_LENGTH, u64_max in *. lia. }
  intros preferred Hpref. apply (ends_weaken resource_error); [by split; [apply resource_external|]|].
  pose proof (retained_bytes_settled _ existing inc Hex Hinc ecn) as Hrb.
  apply ends_bind. eapply ends_mono.
  { apply (push_storage_spec r existing inc p L M R final (recon_len (settled existing inc ecn))); try done. lia. }
  intros [s ch] ((c & _ & Hs) & Hch & _). cbn [fst snd] in *.
  apply ends_bind. eapply ends_mono; [exact (materialize_settled _ existing inc Hex Hinc alloc ecn)|]. intros ? ->.
  apply ends_bind. eapply ends_mono.
  { exact (update_spec _ inc p L M R Hw Hsp Hm Hk alloc r existing now external_charge (overlap_policy r) c s ch Hs). }
  intros [[u s'] ch'] (-> & -> & x & Hx).
  pose proof (settled_post _ existing inc Hex Hinc (overlap_policy r) ecn Hcons) as Hhead.
  destruct (merge_completes p final) eqn:Ec.
  - exact (complete_branch r existing inc Hlim Hex Hinc p L M R Hm Hk final Hfin ecn (overlap_policy r) Hhead
      s ch now external_charge Hch u x Hx f Hof Ev Hr eq_refl eq_refl Hecn Hwire count Hcount Hcm Hrej alloc Ec).
  - exact (accept_branch r existing inc Hlim Hex Hinc p L M R Hm Hk final Hfin ecn (overlap_policy r) Hhead
      s ch now external_charge Hch u x Hx f Hof Ev Hr eq_refl eq_refl Hecn Hwire count Hcount Hcm Hext Hrej alloc Ec Hroom).
Qed.


Lemma ip_push_spec alloc r f now external_charge :
  ip_wf r -> fragment_ok f -> 0 <= external_charge ->
  ends external (ip_push_with_external_charge alloc r f now external_charge)
    (fun '(r', out) => push_post r f r' out).
Proof. intros. eapply ends_weaken; [|by apply ip_push_spec_passes]. by intros e [? _]. Qed.

Lemma ip_push_passed alloc r f now external_charge :
  ip_wf r -> fragment_ok f -> 0 <= external_charge -> passes r f ->
  ends resource_error (ip_push_with_external_charge alloc r f now external_charge)
    (fun '(r', out) => push_post r f r' out).
Proof. intros ? ? ? Hp. eapply ends_weaken; [|by apply ip_push_spec_passes]. intros e [_ H']. by apply H'. Qed.
