(* ===== verification/IpRetire.v ===== *)
(** * IP reassembly: expiry and flush

    [expire] and [flush]: which datagrams are retired, what is reported of them,
    and that the accounting is exact afterwards. *)

From stdpp Require Import base tactics option list numbers gmap strings sorting.
From Stdlib Require Import ZArith Lia.
From S2P Require Import Prelude Checksum Ordered Flow Headers HeadersProofs.
From S2P Require Import IpModel IpValidate IpMerge IpReconstruct IpEngine IpRanges IpApply IpFragment IpPush.

Notation dmap := (gmap DatagramKey DatagramState).

(** ** The report *)

Definition of_family (family : Family) (key : DatagramKey) : bool :=
  match family, DatagramKey_family key with
  | FamilyIpv4, FamilyIpv4 | FamilyIpv6, FamilyIpv6 => true
  | _, _ => false
  end.

Definition count_family (family : Family) (keys : list DatagramKey) : Z :=
  zlen (filter (fun k => of_family family k = true) keys).

(** [kept] is reported one by one, [omitted] only counted. *)
Definition report (kept : list IncompleteDatagram) (omitted : list DatagramKey) : RetiredDatagrams :=
  mkRetired kept (Z.min u64_max (count_family FamilyIpv4 omitted)) (Z.min u64_max (count_family FamilyIpv6 omitted)).

Lemma count_family_snoc family keys k :
  count_family family (keys ++ [k]) = count_family family keys + from_bool (of_family family k).
Proof.
  unfold count_family. rewrite filter_app, zlen_app. f_equal. rewrite filter_cons, filter_nil.
  by destruct (of_family family k).
Qed.

Lemma count_family_perm family keys keys' : keys ≡ₚ keys' -> count_family family keys = count_family family keys'.
Proof. intros H. unfold count_family, zlen. by rewrite H. Qed.

Lemma retired_omit_report kept omitted k :
  retired_omit (report kept omitted) (DatagramKey_family k) = report kept (omitted ++ [k]).
Proof.
  unfold report. rewrite !count_family_snoc. unfold retired_omit, of_family, saturating_add. cbn.
  destruct (DatagramKey_family k); cbn; f_equal; unfold u64_max; lia.
Qed.

(** The first [limit] outcomes are kept, the others counted. *)
Lemma retired_push_report limit ds d :
  0 <= limit ->
  retired_push (report (ztake limit ds) (id_key <$> zdrop limit ds)) d limit =
  report (ztake limit (ds ++ [d])) (id_key <$> zdrop limit (ds ++ [d])).
Proof.
  intros Hl. unfold retired_push. change (outcomes (report ?k ?o)) with k. rewrite zlen_ztake. pose proof (zlen_nonneg ds).
  destruct (Z.ltb_spec (Z.min (Z.max 0 limit) (zlen ds)) limit) as [Hlt|Hge].
  - rewrite (ztake_all limit ds), (zdrop_all limit ds) by lia.
    rewrite (ztake_all limit (ds ++ [d])), (zdrop_all limit (ds ++ [d])) by
      (rewrite zlen_app; change (zlen [d]) with 1; lia). done.
  - unfold IncompleteDatagram_family. rewrite retired_omit_report. unfold ztake, zdrop, zlen in *.
    rewrite take_app_le, drop_app_le, fmap_app by lia. done.
Qed.

(** ** Releasing a list of datagrams *)

Lemma accounted_nonneg (m : dmap) :
  map_Forall (fun _ st => 0 <= unique_bytes st) m -> map_Forall (fun _ st => 0 <= memory_charge st) m ->
  forall k, map_Forall (fun _ st => 0 <= unique_bytes st) (delete k m) /\
            map_Forall (fun _ st => 0 <= memory_charge st) (delete k m).
Proof. intros. split; by apply map_Forall_delete. Qed.

Definition dropped (keys : list DatagramKey) (m : dmap) : dmap := filter (fun p => p.1 ∉ keys) m.

Lemma dropped_lookup keys (m : dmap) k st :
  dropped keys m !! k = Some st <-> m !! k = Some st /\ k ∉ keys.
Proof. unfold dropped. by rewrite map_lookup_filter_Some. Qed.

Lemma dropped_cons k keys (m : dmap) : dropped (k :: keys) m = dropped keys (delete k m).
Proof.
  apply map_eq. intros k'. apply option_eq. intros st.
  rewrite !dropped_lookup, lookup_delete_Some. set_solver.
Qed.

(** The outcomes of retiring [keys] in order. *)
Definition incompletes (reason : IncompleteReason) (m : dmap) (keys : list DatagramKey) : list IncompleteDatagram :=
  omap (fun k => (fun st => incomplete_datagram k st reason) <$> m !! k) keys.

Lemma incompletes_delete reason (m : dmap) k keys :
  k ∉ keys -> incompletes reason (delete k m) keys = incompletes reason m keys.
Proof.
  intros Hk. unfold incompletes. induction keys as [|k' keys IH]; [done|]. cbn.
  rewrite lookup_delete_ne by set_solver. rewrite IH by set_solver. done.
Qed.

Lemma retire_expired_spec limit slots keys : 0 <= limit -> 0 <= slots -> NoDup keys -> forall m ds,
  map_Forall (fun _ st => 0 <= unique_bytes st) m -> map_Forall (fun _ st => 0 <= memory_charge st) m ->
  retire_expired limit m (accounted m slots) (report (ztake limit ds) (id_key <$> zdrop limit ds)) keys =
  Ok (dropped keys m, accounted (dropped keys m) slots,
      let ds' := ds ++ incompletes IdleExpired m keys in report (ztake limit ds') (id_key <$> zdrop limit ds')).
Proof.
  intros Hl Hs. induction 1 as [|k keys Hk Hnd IH]; intros m ds Hu Hm; cbn [retire_expired].
  { cbn. rewrite app_nil_r. unfold dropped. rewrite map_filter_id; [done|]. set_solver. }
  rewrite dropped_cons. cbn [incompletes omap list_omap]. destruct (m !! k) as [st|] eqn:E; cbn [fmap option_fmap option_map].
  - rewrite (release_ok m slots k st Hu Hm Hs E), Ok_bind, retired_push_report by done.
    destruct (accounted_nonneg m Hu Hm k) as [Hu' Hm']. rewrite IH by done.
    rewrite incompletes_delete, <-app_assoc by done. done.
  - rewrite IH by done. rewrite delete_id by done. done.
Qed.

(** ** Expiry *)

Lemma dropped_wf r keys entries :
  ip_wf r -> bt_sorted entries ->
  (forall d k, (d, k) ∈ entries.*1 <->
     (exists st, datagrams r !! k = Some st /\ dg_deadline st = Some d) /\ k ∉ keys) ->
  ip_wf (mkIpReassembler (ip_limits r) (overlap_policy r) (dropped keys (datagrams r)) entries
           (accounted (dropped keys (datagrams r)) (rt_datagram_slots (retained r)))).
Proof.
  intros Hr Hs Hi. pose proof Hr as [H1 H2 H3 H4 H5 H6 H7 H8 H9]. destruct (ip_wf_sums r Hr) as [Hu Hm].
  assert (forall (g : DatagramState -> Z), map_Forall (fun _ st => 0 <= g st) (datagrams r) ->
    map_sum g (dropped keys (datagrams r)) <= map_sum g (datagrams r)) as Hle.
  { clear. generalize (datagrams r). induction keys as [|k keys IH]; intros m g Hg.
    { unfold dropped. rewrite map_filter_id; [done|]. set_solver. }
    rewrite dropped_cons. etrans; [apply IH; by apply map_Forall_delete|].
    rewrite map_sum_delete_from. destruct (m !! k) as [st|] eqn:E; cbn; [|lia]. specialize (Hg k st E). cbn in Hg. lia. }
  assert (Z.of_nat (size (dropped keys (datagrams r))) <= Z.of_nat (size (datagrams r))) as Hsz.
  { clear. generalize (datagrams r). induction keys as [|k keys IH]; intros m.
    { unfold dropped. rewrite map_filter_id; [done|]. set_solver. }
    rewrite dropped_cons. etrans; [apply IH|]. rewrite size_delete_eq. destruct (is_some _); cbn; lia. }
  pose proof (Hle unique_bytes Hu). pose proof (Hle memory_charge Hm).
  split; cbn; try done; try lia.
  - intros k st [Hk _]%dropped_lookup. by apply H2.
  - split; [done|]. intros d k. rewrite Hi. setoid_rewrite dropped_lookup. naive_solver.
Qed.

Lemma ip_expire_spec r now :
  ip_wf r ->
  exists keys r', NoDup keys /\
    (forall k, k ∈ keys <-> exists st, datagrams r !! k = Some st /\ past_deadline dg_deadline now st) /\
    ip_expire r now = Ok (r',
      let ds := incompletes IdleExpired (datagrams r) keys in
      report (ztake (max_retained_outcomes (ip_limits r)) ds)
             (id_key <$> zdrop (max_retained_outcomes (ip_limits r)) ds)) /\
    datagrams r' = dropped keys (datagrams r) /\ ip_wf r' /\
    ip_limits r' = ip_limits r /\ overlap_policy r' = overlap_policy r.
Proof.
  intros Hr. unfold ip_expire. destruct (drain_expired now (ip_expiry r)) as [keys entries] eqn:Ed.
  destruct (indexed_drain _ _ _ _ _ _ (iw_index _ Hr) Ed) as (Hnd & Hk & Hs & Hi).
  destruct (ip_wf_sums r Hr) as [Hu Hm]. pose proof (iw_slots _ Hr). destruct (il_outcomes _ (iw_limits _ Hr)).
  exists keys, (mkIpReassembler (ip_limits r) (overlap_policy r) (dropped keys (datagrams r)) entries
    (accounted (dropped keys (datagrams r)) (rt_datagram_slots (retained r)))).
  rewrite (ip_wf_accounted r Hr).
  assert (retired_default = report (ztake (max_retained_outcomes (ip_limits r)) [])
    (id_key <$> zdrop (max_retained_outcomes (ip_limits r)) [])) as ->.
  { unfold ztake, zdrop. by rewrite take_nil, drop_nil. }
  rewrite retire_expired_spec by (done || lia). rewrite Ok_bind. cbn [rt_datagram_slots accounted].
  split_and!; try done. by apply dropped_wf.
Qed.

(** ** The smallest keys *)

Definition before_key (a b : DatagramKey) : Prop := cmp a b = Lt.

#[local] Instance before_key_trans : Transitive before_key.
Proof. intros a b c. apply cmp_trans. Qed.

Lemma before_key_irrefl a : ~ before_key a a.
Proof. unfold before_key. by rewrite cmp_refl. Qed.

Lemma before_key_total a b : a <> b -> before_key a b \/ before_key b a.
Proof.
  intros Hne. unfold before_key. destruct (cmp a b) eqn:E; [by apply cmp_eq in E|by left|right]. by apply cmp_Gt.
Qed.

Lemma heap_push_perm k heap : heap_push k heap ≡ₚ k :: heap.
Proof.
  induction heap as [|k' heap IH]; cbn; [done|]. destruct (cmp k k'); [done|done|].
  by rewrite IH, Permutation_swap.
Qed.

Lemma heap_push_sorted k heap :
  k ∉ heap -> StronglySorted before_key heap -> StronglySorted before_key (heap_push k heap).
Proof.
  induction heap as [|k' heap IH]; cbn; intros Hk Hs; [repeat constructor|].
  pose proof Hs as Hs0. apply StronglySorted_inv in Hs as [Hs Hf]. destruct (cmp k k') eqn:E.
  - apply cmp_eq in E as ->. set_solver.
  - constructor; [done|]. constructor; [done|]. eapply Forall_impl; [exact Hf|].
    intros x Hx. exact (cmp_trans _ _ _ E Hx).
  - constructor; [apply IH; [set_solver|done]|]. rewrite heap_push_perm. constructor; [by apply cmp_Gt|done].
Qed.

(** [heap] holds the [limit] smallest of the keys seen. *)
Record smallest_of (limit : Z) (seen heap : list DatagramKey) : Prop := {
  so_sorted : StronglySorted before_key heap;
  so_split : exists rest, heap ++ rest ≡ₚ seen /\
    (zlen heap < limit -> rest = []) /\ (forall a b, a ∈ heap -> b ∈ rest -> before_key a b);
  so_length : zlen heap <= limit
}.

Lemma last_snoc_inv (heap : list DatagramKey) a : last heap = Some a -> heap = removelast heap ++ [a].
Proof.
  intros H. apply last_Some in H as [l ->]. by rewrite removelast_last.
Qed.

Lemma keep_smallest_step limit seen heap k :
  0 <= limit -> k ∉ seen -> smallest_of limit seen heap ->
  smallest_of limit (seen ++ [k]) (keep_smallest limit heap k).
Proof.
  intros Hl Hk [Hs (rest & Hp & Hrest & Hlt) Hlen].
  assert (k ∉ heap) as Hkh by (rewrite <-Hp in Hk; set_solver).
  assert (forall b, b ∈ rest -> b <> k) as Hkr by (intros b Hb ->; rewrite <-Hp in Hk; set_solver).
  unfold keep_smallest. destruct (Z.ltb_spec (zlen heap) limit) as [Hroom|Hfull].
  - specialize (Hrest Hroom). subst rest. rewrite app_nil_r in Hp. split.
    + by apply heap_push_sorted.
    + exists []. split_and!; [|done|set_solver]. by rewrite app_nil_r, heap_push_perm, Hp, Permutation_app_comm.
    + unfold zlen in *. rewrite heap_push_perm. cbn. lia.
  - unfold heap_peek, heap_pop. destruct (last heap) as [a|] eqn:Ea.
    2:{ apply last_None in Ea. subst heap. split; [done| |done].
        exists (rest ++ [k]). rewrite <-Hp. cbn. split_and!; [done|unfold zlen in *; cbn in *; lia|set_solver]. }
    pose proof (last_snoc_inv _ _ Ea) as Eh. set (init := removelast heap) in *.
    assert (forall b, b ∈ init -> before_key b a) as Hinit.
    { intros b Hb. rewrite Eh in Hs. apply (StronglySorted_app_1_elem_of _ _ _ _ _ Hs Hb). set_solver. }
    assert (StronglySorted before_key init) as Hsi.
    { rewrite Eh in Hs. by apply StronglySorted_app_1_l in Hs. }
    destruct (cmp k a) eqn:Eka.
    + apply cmp_eq in Eka as ->. rewrite Eh in Hkh. set_solver.
    + split.
      * apply heap_push_sorted; [rewrite Eh in Hkh; set_solver|done].
      * exists (a :: rest). split_and!.
        -- rewrite heap_push_perm, <-Hp, Eh. by solve_Permutation.
        -- intros Hz. exfalso. rewrite Eh in Hfull. unfold zlen in *. rewrite heap_push_perm in Hz.
           rewrite length_app in Hfull. cbn in *. lia.
        -- intros x y Hx Hy%elem_of_cons. rewrite heap_push_perm in Hx. apply elem_of_cons in Hx.
           assert (before_key x a) as Hxa by (destruct Hx as [->|?]; [done|by apply Hinit]).
           destruct Hy as [->|Hy]; [done|]. etrans; [exact Hxa|]. apply Hlt; [rewrite Eh; set_solver|done].
      * rewrite Eh in Hlen. unfold zlen in *. rewrite heap_push_perm. rewrite length_app in Hlen. cbn in *. lia.
    + split; [done| |done]. exists (rest ++ [k]). split_and!.
      * by rewrite app_assoc, Hp.
      * lia.
      * intros x y Hx [Hy|Hy%list_elem_of_singleton]%elem_of_app; [by apply Hlt|]. subst y. apply cmp_Gt in Eka.
        rewrite Eh in Hx. apply elem_of_app in Hx as [Hx|Hx%list_elem_of_singleton]; [|by rewrite Hx].
        etrans; [by apply Hinit|done].
Qed.

Lemma keep_smallest_spec limit order :
  0 <= limit -> NoDup order -> smallest_of limit order (foldl (keep_smallest limit) [] order).
Proof.
  intros Hl. enough (forall seen heap, NoDup (seen ++ order) -> smallest_of limit seen heap ->
    smallest_of limit (seen ++ order) (foldl (keep_smallest limit) heap order)) as H.
  { intros Hnd. apply (H [] []); [done|]. split; [constructor| |exact Hl]. exists []. split_and!; [done|done|set_solver]. }
  induction order as [|k order IH]; intros seen heap Hnd Hh; cbn; [by rewrite app_nil_r|].
  replace (seen ++ k :: order) with ((seen ++ [k]) ++ order) in * by (by rewrite <-app_assoc).
  apply IH; [done|]. apply keep_smallest_step; [done| |done].
  rewrite <-app_assoc in Hnd. apply NoDup_app in Hnd as (_ & Hd & _). intros Hin. by apply (Hd k Hin), elem_of_app; left; left.
Qed.

(** ** Flush *)

Lemma retire_kept_spec slots keys : 0 <= slots -> NoDup keys -> forall m t,
  map_Forall (fun _ st => 0 <= unique_bytes st) m -> map_Forall (fun _ st => 0 <= memory_charge st) m ->
  retire_kept m (accounted m slots) t keys =
  Ok (dropped keys m, accounted (dropped keys m) slots,
      mkRetired (outcomes t ++ incompletes EndOfCapture m keys) (omitted_ipv4 t) (omitted_ipv6 t)).
Proof.
  intros Hs. induction 1 as [|k keys Hk Hnd IH]; intros m t Hu Hm; cbn [retire_kept].
  { cbn. rewrite app_nil_r. unfold dropped. rewrite map_filter_id; [by destruct t|]. set_solver. }
  rewrite dropped_cons. cbn [incompletes omap list_omap]. destruct (m !! k) as [st|] eqn:E; cbn [fmap option_fmap option_map].
  - rewrite (release_ok m slots k st Hu Hm Hs E), Ok_bind.
    destruct (accounted_nonneg m Hu Hm k) as [Hu' Hm']. rewrite IH by done. cbn [outcomes omitted_ipv4 omitted_ipv6].
    rewrite incompletes_delete, <-app_assoc by done. done.
  - rewrite IH by done. rewrite delete_id by done. done.
Qed.

Lemma drain_rest_spec slots kept : 0 <= slots -> forall l (m : dmap) omitted,
  l ≡ₚ map_to_list m ->
  map_Forall (fun _ st => 0 <= unique_bytes st) m -> map_Forall (fun _ st => 0 <= memory_charge st) m ->
  drain_rest (accounted m slots) (report kept omitted) l = Ok (accounted ∅ slots, report kept (omitted ++ l.*1)).
Proof.
  intros Hs. induction l as [|[k st] l IH]; intros m omitted Hl Hu Hm; cbn [drain_rest].
  { symmetry in Hl. apply Permutation_nil_r, map_to_list_empty_iff in Hl as ->. cbn. by rewrite app_nil_r. }
  assert (m !! k = Some st) as E. { apply elem_of_map_to_list. rewrite <-Hl. by left. }
  rewrite (release_ok m slots k st Hu Hm Hs E), Ok_bind, retired_omit_report.
  destruct (accounted_nonneg m Hu Hm k) as [Hu' Hm']. rewrite IH; [|  |done|done].
  - by rewrite <-app_assoc.
  - apply (Permutation_cons_inv (a := (k, st))). rewrite Hl. symmetry. by apply map_to_list_delete.
Qed.

(** How [flush] divides the keys: the first ones in key order are reported. *)
Record flush_split (limit : Z) (m : dmap) (kept omitted : list DatagramKey) : Prop := {
  fs_keys : kept ++ omitted ≡ₚ (map_to_list m).*1;
  fs_sorted : StronglySorted before_key kept;
  fs_first : forall a b, a ∈ kept -> b ∈ omitted -> before_key a b;
  fs_length : zlen kept = Z.min limit (Z.of_nat (size m))
}.

Lemma map_keys_length (m : dmap) : zlen (map_to_list m).*1 = Z.of_nat (size m).
Proof. unfold zlen. by rewrite length_fmap, length_map_to_list. Qed.

Lemma ip_flush_spec order drain_order r :
  ip_wf r -> order ≡ₚ (map_to_list (datagrams r)).*1 -> (forall m, drain_order m ≡ₚ map_to_list m) ->
  exists kept omitted r',
    flush_split (max_retained_outcomes (ip_limits r)) (datagrams r) kept omitted /\
    ip_flush order drain_order r =
      Ok (r', report (incompletes EndOfCapture (datagrams r) kept) omitted) /\
    datagrams r' = ∅ /\ retained r' = accounted ∅ (rt_datagram_slots (retained r)) /\ ip_wf r' /\
    ip_limits r' = ip_limits r /\ overlap_policy r' = overlap_policy r.
Proof.
  intros Hr Ho Hd. destruct (ip_wf_sums r Hr) as [Hu Hm]. pose proof (iw_slots _ Hr) as Hslots.
  destruct (il_outcomes _ (iw_limits _ Hr)) as [Hl0 _]. set (slots := rt_datagram_slots (retained r)) in *.
  set (limit := Z.min (max_retained_outcomes (ip_limits r)) (Z.of_nat (size (datagrams r)))).
  assert (NoDup order) as Hnd by (rewrite Ho; apply NoDup_fst_map_to_list).
  destruct (keep_smallest_spec limit order ltac:(lia) Hnd) as [Hs (rest & Hp & Hrest & Hlt) Hlen].
  unfold ip_flush. fold limit. set (kept := foldl (keep_smallest limit) [] order) in *.
  assert (zlen kept = limit) as Hk.
  { destruct (Z.lt_ge_cases (zlen kept) limit) as [Hx|]; [|lia]. exfalso.
    rewrite (Hrest Hx), app_nil_r, Ho in Hp. apply Permutation_length in Hp.
    pose proof (map_keys_length (datagrams r)) as Hkl. unfold zlen in *. lia. }
  assert (NoDup kept) as Hndk. { rewrite <-Hp in Hnd. by apply NoDup_app in Hnd as (? & _ & _). }
  rewrite (ip_wf_accounted r Hr). fold slots.
  rewrite (retire_kept_spec slots kept ltac:(lia) Hndk (datagrams r) retired_default Hu Hm), Ok_bind.
  set (m := dropped kept (datagrams r)). cbn [outcomes retired_default omitted_ipv4 omitted_ipv6 app].
  change (mkRetired (incompletes EndOfCapture (datagrams r) kept) 0 0)
    with (report (incompletes EndOfCapture (datagrams r) kept) []).
  rewrite (drain_rest_spec slots _ ltac:(lia) (drain_order m) m []); [|done| |].
  2,3: intros k st [Hkk _]%dropped_lookup; first [by apply (Hu k)|by apply (Hm k)].
  rewrite Ok_bind. cbn [app]. exists kept, (drain_order m).*1. eexists. split_and!; [|reflexivity|done|done| |done|done].
  - assert ((map_to_list m).*1 ≡ₚ rest) as Hmr.
    { rewrite <-Hp in Hnd. apply NoDup_app in Hnd as (_ & Hdisj & Hndr). apply NoDup_Permutation; [apply NoDup_fst_map_to_list|done|].
      intros k. assert (k ∈ kept ++ rest <-> is_Some (datagrams r !! k)) as Hin.
      { rewrite Hp, Ho, list_elem_of_fmap. split; [intros ([k' st] & -> & Hx%elem_of_map_to_list); by exists st|].
        intros [st Hst]. exists (k, st). split; [done|]. by apply elem_of_map_to_list. }
      rewrite list_elem_of_fmap. split.
      - intros ([k' st] & -> & Hx%elem_of_map_to_list). apply dropped_lookup in Hx as [Hx Hn]. cbn.
        assert (k' ∈ kept ++ rest) as Hy by (apply Hin; by exists st). set_solver.
      - intros Hx. destruct (proj1 Hin) as [st Hst]; [set_solver|]. exists (k, st). split; [done|].
        apply elem_of_map_to_list, dropped_lookup. split; [done|]. intros Hy. by apply (Hdisj k). }
    split; [|done| |done].
    + rewrite Hd, Hmr, Hp. exact Ho.
    + intros a b Ha Hb. rewrite Hd, Hmr in Hb. by apply Hlt.
  - pose proof Hr as [H1 _ _ H4 _ H6 _ _ _]. destruct (il_aggregate _ H1). destruct (il_datagrams _ H1).
    pose proof (map_sum_nonneg memory_charge _ Hm). fold slots in H4.
    split; cbn; try done; rewrite ?map_sum_empty; try lia; try apply indexed_empty.
    change (Z.of_nat (size (∅ : dmap))) with 0. lia.
Qed.

(** The division is determined by the keys alone. *)
Lemma flush_split_unique limit (m : dmap) kept omitted kept' omitted' :
  flush_split limit m kept omitted -> flush_split limit m kept' omitted' -> kept = kept' /\ omitted ≡ₚ omitted'.
Proof.
  assert (forall k1 o1 k2 o2, flush_split limit m k1 o1 -> flush_split limit m k2 o2 -> forall x, x ∈ k1 -> x ∈ k2) as Hsub.
  { intros k1 o1 k2 o2 [K1 _ F1 L1] [K2 _ F2 L2] x Hx. destruct (decide (x ∈ k2)) as [|Hn]; [done|exfalso].
    assert (x ∈ o2) as Hxo. { assert (x ∈ k2 ++ o2) as Hy by (rewrite K2, <-K1; set_solver). set_solver. }
    assert (forall y, y ∈ k2 -> y ∈ k1) as Hin.
    { intros y Hy. assert (y ∈ k1 ++ o1) as [?|Hyo]%elem_of_app by (rewrite K1, <-K2; set_solver); [done|].
      exfalso. apply (before_key_irrefl x). etrans; [by apply F1|by apply F2]. }
    assert (NoDup (x :: k2)) as Hnd.
    { apply NoDup_cons. split; [done|]. assert (NoDup (k2 ++ o2)) as Hn2 by (rewrite K2; apply NoDup_fst_map_to_list).
      by apply NoDup_app in Hn2 as (? & _). }
    assert (length (x :: k2) <= length k1)%nat as Hle.
    { apply submseteq_length, NoDup_submseteq; [done|]. set_solver. }
    unfold zlen in *. cbn in Hle. lia. }
  intros H1 H2. assert (kept = kept') as <-.
  { apply (StronglySorted_unique_strong before_key); [|apply H1|apply H2|].
    - intros a b _ _ Hab Hba. exfalso. apply (before_key_irrefl a). by etrans.
    - apply NoDup_Permutation.
      + assert (NoDup (kept ++ omitted)) as Hn by (rewrite (fs_keys _ _ _ _ H1); apply NoDup_fst_map_to_list).
        by apply NoDup_app in Hn as (? & _).
      + assert (NoDup (kept' ++ omitted')) as Hn by (rewrite (fs_keys _ _ _ _ H2); apply NoDup_fst_map_to_list).
        by apply NoDup_app in Hn as (? & _).
      + intros x. split; eapply Hsub; eassumption. }
  split; [done|]. apply (Permutation_app_inv_l kept). by rewrite (fs_keys _ _ _ _ H1), (fs_keys _ _ _ _ H2).
Qed.
