(* ===== verification/IpTheorems.v ===== *)
(** * Theorems on IP reassembly

    The guarantees of [analysis/reassembly/ip], over single operations and over
    every reachable state. *)

From stdpp Require Import base tactics option list numbers gmap strings sorting.
From Stdlib Require Import ZArith Lia.
From S2P Require Import Prelude Checksum Ordered Flow Headers HeadersProofs.
From S2P Require Import IpModel IpValidate IpMerge IpReconstruct IpEngine IpRanges IpApply IpFragment IpRebuild.
From S2P Require Import IpCharge IpPush IpRetire.

(** ** Steps and reachable states *)

(** One call of the interface that changes the reassembler; a rejected [push]
    does not. *)
Inductive ip_step (r : IpReassembler) : IpReassembler -> Prop :=
| ip_step_push alloc f now external_charge r' out :
    fragment_ok f -> 0 <= external_charge ->
    ip_push_with_external_charge alloc r f now external_charge = Ok (r', out) -> ip_step r r'
| ip_step_expire now r' t : ip_expire r now = Ok (r', t) -> ip_step r r'
| ip_step_flush order drain_order r' t :
    order ≡ₚ (map_to_list (datagrams r)).*1 -> (forall m, drain_order m ≡ₚ map_to_list m) ->
    ip_flush order drain_order r = Ok (r', t) -> ip_step r r'.

Inductive ip_reachable (clock : Z) (l : IpLimits) (policy : OverlapPolicy) : IpReassembler -> Prop :=
| ip_reachable_new r : ip_reassembler_new clock l policy = Ok r -> ip_reachable clock l policy r
| ip_reachable_step r r' :
    ip_reachable clock l policy r -> ip_step r r' -> ip_reachable clock l policy r'.

Lemma ip_new_wf clock l policy r :
  ip_limits_ok l -> ip_reassembler_new clock l policy = Ok r ->
  ip_wf r /\ ip_limits r = l /\ overlap_policy r = policy.
Proof.
  intros Hl Hn. unfold ip_reassembler_new in Hn. inv_ok Hn. injection Hn as <-. split; [|done].
  destruct (il_aggregate _ Hl), (il_datagrams _ Hl).
  split; cbn; rewrite ?map_sum_empty; try done; try lia. apply indexed_empty.
Qed.

Lemma ip_step_wf r r' :
  ip_wf r -> ip_step r r' ->
  ip_wf r' /\ ip_limits r' = ip_limits r /\ overlap_policy r' = overlap_policy r.
Proof.
  intros Hr [alloc f now ext r1 out Hf He Hp|now r1 t He|order drain r1 t Ho Hd Hfl].
  - pose proof (ends_Ok _ _ _ _ (ip_push_spec alloc r f now ext Hr Hf He) Hp) as (? & ? & ? & _). done.
  - destruct (ip_expire_spec r now Hr) as (keys & r2 & _ & _ & E & _ & ? & ? & ?). rewrite E in He. by injection He as <- _.
  - destruct (ip_flush_spec order drain r Hr Ho Hd) as (kept & om & r2 & _ & E & _ & _ & ? & ? & ?).
    rewrite E in Hfl. by injection Hfl as <- _.
Qed.

Lemma ip_reachable_wf clock l policy r :
  ip_limits_ok l -> ip_reachable clock l policy r ->
  ip_wf r /\ ip_limits r = l /\ overlap_policy r = policy.
Proof.
  intros Hl H. induction H as [r Hn|r r' _ (IHw & IHl & IHp) Hst]; [by eapply ip_new_wf|].
  destruct (ip_step_wf _ _ IHw Hst) as (? & ? & ?). split; [done|]. split; congruence.
Qed.

(** ** Concrete fragments *)

Definition demo_key : Ipv4DatagramKey := mkKey4 0 167772161 167772162 7 17.

Definition demo_header (total flags : Z) : bytes :=
  [69; 0] ++ to_be_bytes16 total ++ [0; 7] ++ to_be_bytes16 flags ++ [64; 17; 0; 0; 10; 0; 0; 1; 10; 0; 0; 2].

Definition demo_fragment (units : Z) (more : bool) (payload : bytes) : Fragment :=
  Fragment4 (mkFragment4 demo_key units more
    (demo_header (20 + zlen payload) (units + if more then 8192 else 0)) payload).

Definition demo_alloc : ip_allocator := fun _ _ => true.

Definition demo_new (policy : OverlapPolicy) : IpReassembler :=
  mkIpReassembler IpLimits_default policy ∅ expiry_default (mkRetained 0 0 0).

(** The reassembler after a push that is accepted. *)
Definition pushed (r : IpReassembler) (f : Fragment) (now : Z) : IpReassembler :=
  match ip_push demo_alloc r f now with Ok (r', _) => r' | _ => r end.
Definition push_out (r : IpReassembler) (f : Fragment) (now : Z) : option PushOutcome :=
  match ip_push demo_alloc r f now with Ok (_, out) => Some out | _ => None end.

(** Sixteen bytes at offset 0, sixteen that overlap the last eight of them, and
    the last three bytes at offset 24. *)
Definition demo_first : Fragment := demo_fragment 0 true (zrep 16 1).
Definition demo_second : Fragment := demo_fragment 1 true (zrep 16 2).
Definition demo_last : Fragment := demo_fragment 3 false [9; 8; 7].

(** All but the middle has arrived. *)
Definition demo_state (policy : OverlapPolicy) : IpReassembler :=
  pushed (pushed (demo_new policy) demo_last 5) demo_first 6.

Lemma demo_fragments_ok : fragment_ok demo_first /\ fragment_ok demo_second /\ fragment_ok demo_last.
Proof.
  split_and!; split; vm_compute; try done; try (split; done); repeat constructor; done.
Qed.

Lemma default_limits_ok : ip_limits_ok IpLimits_default.
Proof. split; vm_compute; split; done. Qed.

Lemma demo_new_reachable policy : ip_reachable 0 IpLimits_default policy (demo_new policy).
Proof. apply ip_reachable_new. reflexivity. Qed.

Lemma pushed_reachable {l} policy r f now :
  fragment_ok f -> ip_reachable 0 l policy r -> ip_reachable 0 l policy (pushed r f now).
Proof.
  intros Hf Hr. unfold pushed. destruct (ip_push demo_alloc r f now) as [[r' out]|e|] eqn:E; [|done|done].
  eapply ip_reachable_step; [exact Hr|]. by eapply (ip_step_push r demo_alloc f now 0).
Qed.

Lemma demo_state_reachable policy : ip_reachable 0 IpLimits_default policy (demo_state policy).
Proof.
  destruct demo_fragments_ok as (H1 & H2 & H3).
  exact (pushed_reachable _ _ _ _ H1 (pushed_reachable _ _ _ _ H3 (demo_new_reachable policy))).
Qed.

Lemma demo_state_wf policy : ip_wf (demo_state policy).
Proof. apply (ip_reachable_wf 0 IpLimits_default policy); [apply default_limits_ok|apply demo_state_reachable]. Qed.

Lemma pushed_eq r f now out :
  push_out r f now = Some out -> ip_push_with_external_charge demo_alloc r f now 0 = Ok (pushed r f now, out).
Proof. unfold push_out, pushed. change (ip_push_with_external_charge demo_alloc r f now 0) with (ip_push demo_alloc r f now). destruct (ip_push demo_alloc r f now) as [[r' o]|e|]; [by intros [= ->]|done|done]. Qed.

(** ** Theorems *)

(** C2: on any reachable state and any fragment a caller can build, [push] never
    panics, and it never reports a broken invariant: no arithmetic overflow
    ([OffsetOverflow]) and none of the [Inconsistent] errors. *)
Theorem ip_push_safe (alloc : ip_allocator) (r : IpReassembler) (f : Fragment) (now external_charge : Z) :
  ip_wf r -> fragment_ok f -> 0 <= external_charge ->
  ip_push_with_external_charge alloc r f now external_charge <> Panic /\
  forall e, ip_push_with_external_charge alloc r f now external_charge = Err e -> external e.
Proof.
  intros Hr Hf He. pose proof (ip_push_spec alloc r f now external_charge Hr Hf He) as H.
  destruct (ip_push_with_external_charge alloc r f now external_charge) as [p|e|]; cbn in H; [done| |done].
  split; [done|]. by intros ? [= <-].
Qed.

Lemma ip_push_safe_witness :
  ip_push_with_external_charge demo_alloc (demo_state PolicyReject) demo_second 7 0 <> Panic /\
  forall e, ip_push_with_external_charge demo_alloc (demo_state PolicyReject) demo_second 7 0 = Err e -> external e.
Proof. apply (ip_push_safe demo_alloc); [apply demo_state_wf|apply demo_fragments_ok|lia]. Defined.

(** C29: in every reachable state the ranges of each datagram are sorted, disjoint
    and not adjacent, its counters and charge are exact, it is incomplete, the
    totals are the sums over the datagrams, and the expiry index lists exactly
    their deadlines. *)
Theorem ip_reachable_invariant (clock : Z) (l : IpLimits) (policy : OverlapPolicy) (r : IpReassembler) :
  ip_limits_ok l -> ip_reachable clock l policy r -> ip_wf r /\ ip_limits r = l /\ overlap_policy r = policy.
Proof. apply ip_reachable_wf. Qed.

Lemma ip_reachable_invariant_witness :
  ip_wf (demo_state PolicyLast) /\ ip_limits (demo_state PolicyLast) = IpLimits_default /\
  overlap_policy (demo_state PolicyLast) = PolicyLast.
Proof. apply (ip_reachable_invariant 0); [apply default_limits_ok|apply demo_state_reachable]. Defined.

(** in every reachable state the payload retained, the memory charged, the
    number of datagrams, and each datagram's bytes and fragments stay within the
    limits configured. *)
Theorem ip_memory_bounded (clock : Z) (l : IpLimits) (policy : OverlapPolicy) (r : IpReassembler) :
  ip_limits_ok l -> ip_reachable clock l policy r ->
  aggregate_payload_bytes r <= ip_max_aggregate_bytes l /\
  ip_aggregate_memory_charge r <= ip_max_aggregate_bytes l /\
  DATAGRAM_METADATA_CHARGE * datagram_count r <= ip_max_aggregate_bytes l /\
  datagram_count r <= max_datagrams l /\
  forall key st, datagrams r !! key = Some st ->
    held (ranges st) <= max_bytes_per_datagram l /\ fragment_count st <= max_fragments_per_datagram l /\
    stored (ranges st) <= memory_charge st.
Proof.
  intros Hl Hreach. destruct (ip_reachable_wf _ _ _ _ Hl Hreach) as (Hr & El & _). rewrite <-El.
  pose proof Hr as [_ H2 _ H4 H5 H6 H7 H8 _]. destruct (ip_wf_sums r Hr) as [_ Hm].
  pose proof (map_sum_nonneg memory_charge _ Hm). unfold aggregate_payload_bytes, ip_aggregate_memory_charge, datagram_count.
  split_and!; try done; [unfold DATAGRAM_METADATA_CHARGE in *; lia|].
  intros key st Hk. specialize (H2 key st Hk). cbn in H2. rewrite <-(dw_unique _ _ _ H2), (dw_charge _ _ _ H2).
  pose proof (recon_len_nonneg (reconstruction st)). pose proof (zlen_nonneg (ranges st)).
  split_and!; [apply H2|apply H2|unfold RANGE_METADATA_CHARGE; lia].
Qed.

Lemma ip_memory_bounded_witness :
  aggregate_payload_bytes (demo_state PolicyFirst) = 19 /\
  aggregate_payload_bytes (demo_state PolicyFirst) <= ip_max_aggregate_bytes IpLimits_default.
Proof.
  split; [by vm_compute|].
  exact (proj1 (ip_memory_bounded 0 IpLimits_default PolicyFirst (demo_state PolicyFirst) default_limits_ok
    (demo_state_reachable PolicyFirst))).
Defined.

(** C4: a fragment accepted without completing its datagram leaves, at every
    payload offset, the byte the overlap policy asks for: [Reject] and [First]
    keep the byte already there, [Last] takes the fragment's; offsets neither
    had stay empty.  The outcome counts exactly the offsets added and the
    offsets where the bytes differed, and no other datagram changes. *)
Theorem ip_push_merges (alloc : ip_allocator) (r : IpReassembler) (f : Fragment) (now external_charge : Z)
  (r' : IpReassembler) (o : FragmentOutcome) :
  ip_wf r -> fragment_ok f -> 0 <= external_charge ->
  ip_push_with_external_charge alloc r f now external_charge = Ok (r', PushAccepted o) ->
  (forall i, datagram_view r' (fragment_key f) i =
     match overlap_policy r with
     | PolicyLast => orelse (frag_view f i) (datagram_view r (fragment_key f) i)
     | _ => orelse (datagram_view r (fragment_key f) i) (frag_view f i)
     end) /\
  fo_disposition o = disposition_of (overlap_policy r) (datagram_view r (fragment_key f)) f /\
  fo_unique_bytes o = from_option unique_bytes 0 (datagrams r !! fragment_key f)
    + (zlen (fragment_payload f) - frag_overlap (datagram_view r (fragment_key f)) f) /\
  (forall key, key <> fragment_key f -> datagrams r' !! key = datagrams r !! key).
Proof.
  intros Hr Hf He Hp.
  destruct (ends_Ok _ _ _ _ (ip_push_spec alloc r f now external_charge Hr Hf He) Hp) as (_ & _ & _ & Hrep & st & Hd & Hv & _).
  split_and!; [|apply Hrep|apply Hrep|].
  - intros i. unfold datagram_view at 1. rewrite Hd, lookup_insert_eq. cbn. rewrite Hv. unfold after, merged_view.
    by destruct (overlap_policy r).
  - intros key Hne. by rewrite Hd, lookup_insert_ne.
Qed.

Lemma ip_push_merges_witness :
  push_out (pushed (demo_new PolicyLast) demo_first 5) demo_second 6 =
    Some (PushAccepted (mkFragmentOutcome (Key4 demo_key) (OverlapResolved PolicyLast 8 8) 2 24 None)) /\
  datagram_view (pushed (pushed (demo_new PolicyLast) demo_first 5) demo_second 6) (Key4 demo_key) 8 = Some 2.
Proof.
  assert (push_out (pushed (demo_new PolicyLast) demo_first 5) demo_second 6 =
    Some (PushAccepted (mkFragmentOutcome (Key4 demo_key) (OverlapResolved PolicyLast 8 8) 2 24 None))) as E by (by vm_compute).
  split; [exact E|]. destruct demo_fragments_ok as (H1 & H2 & _).
  pose proof (ip_reachable_wf _ _ _ _ default_limits_ok
    (pushed_reachable PolicyLast _ _ 5 H1 (demo_new_reachable PolicyLast))) as [Hw _].
  exact (proj1 (ip_push_merges demo_alloc _ demo_second 6 0 _ _ Hw H2 (Z.le_refl 0) (pushed_eq _ _ _ _ E)) 8).
Defined.

(** under [Reject] a fragment is accepted, or completes its datagram, only if
    it contradicts no retained byte, and under [Reject] and [First] no retained
    byte ever changes. *)
Theorem ip_retained_bytes_stable (alloc : ip_allocator) (r : IpReassembler) (f : Fragment) (now external_charge : Z)
  (r' : IpReassembler) (out : PushOutcome) :
  ip_wf r -> fragment_ok f -> 0 <= external_charge -> overlap_policy r <> PolicyLast ->
  ip_push_with_external_charge alloc r f now external_charge = Ok (r', out) ->
  (overlap_policy r = PolicyReject ->
     forall i a b, datagram_view r (fragment_key f) i = Some a -> frag_view f i = Some b -> a = b) /\
  (forall key i b, is_Some (datagrams r' !! key) -> datagram_view r key i = Some b ->
     datagram_view r' key i = Some b).
Proof.
  intros Hr Hf He Hpol Hp.
  destruct (ends_Ok _ _ _ _ (ip_push_spec alloc r f now external_charge Hr Hf He) Hp) as (_ & _ & _ & Hout).
  split.
  - intros HR i a b Ha Hb.
    assert (frag_conflicts (datagram_view r (fragment_key f)) f = 0) as H0.
    { destruct out; destruct Hout as [Hrep _]; by apply Hrep. }
    pose proof (tally_0_none _ _ _ _ _ H0 Hb) as Hd. unfold differs in Hd. rewrite Ha in Hd.
    by apply negb_false_iff, Z.eqb_eq in Hd.
  - intros key i b [st Hst] Hb. destruct (decide (key = fragment_key f)) as [->|Hne].
    + destruct out as [o|o d]; destruct Hout as [_ Hx].
      * destruct Hx as (st' & Hd & Hv & _). unfold datagram_view. rewrite Hd, lookup_insert_eq. cbn. rewrite Hv.
        unfold after, merged_view. rewrite Hb. by destruct (overlap_policy r).
      * destruct Hx as (Hd & _). by rewrite Hd, lookup_delete_eq in Hst.
    + unfold datagram_view in *. destruct out as [o|o d]; destruct Hout as [_ Hx].
      * destruct Hx as (st' & -> & _). by rewrite lookup_insert_ne.
      * destruct Hx as (-> & _). by rewrite lookup_delete_ne.
Qed.

Lemma ip_retained_bytes_stable_witness :
  datagram_view (pushed (pushed (demo_new PolicyFirst) demo_first 5) demo_second 6) (Key4 demo_key) 8 = Some 1.
Proof.
  assert (exists out, push_out (pushed (demo_new PolicyFirst) demo_first 5) demo_second 6 = Some out) as [out E].
  { eexists. vm_compute. reflexivity. }
  destruct demo_fragments_ok as (H1 & H2 & _).
  pose proof (ip_reachable_wf _ _ _ _ default_limits_ok
    (pushed_reachable PolicyFirst _ _ 5 H1 (demo_new_reachable PolicyFirst))) as [Hw _].
  refine (proj2 (ip_retained_bytes_stable demo_alloc _ demo_second 6 0 _ out Hw H2 (Z.le_refl 0) _ (pushed_eq _ _ _ _ E)) _ 8 1 _ _).
  - vm_compute. done.
  - vm_compute. by eexists.
  - by vm_compute.
Defined.

(** ** Completed datagrams *)

Lemma pushed_completed alloc r f now external_charge r' o d :
  ip_wf r -> fragment_ok f -> 0 <= external_charge ->
  ip_push_with_external_charge alloc r f now external_charge = Ok (r', PushCompleted o d) ->
  completed_post r f r' o d.
Proof.
  intros Hr Hf He Hp.
  by destruct (ends_Ok _ _ _ _ (ip_push_spec alloc r f now external_charge Hr Hf He) Hp) as (_ & _ & _ & _ & Hc).
Qed.

(** ** The fragments a datagram is put together from *)

(** The ECN bits of the IP header a fragment came with. *)
Definition wire_ecn (f : Fragment) : Z :=
  match f with
  | Fragment4 f => at_ (f4_header f) 1 mod 4
  | Fragment6 f => at_ (f6_unfragmentable_prefix f) 1 / 16 mod 4
  end.

(** The codepoint RFC 3168 section 5.3 gives a datagram whose fragments carried
    the codepoints [seen]: congestion experienced (3) if any fragment carried it,
    else not ECN-capable (0) if any was that, else ECT(0) (2) if any, else ECT(1). *)
Definition congestion (seen : list Z) : Z :=
  if bool_decide (3 ∈ seen) then 3 else if bool_decide (0 ∈ seen) then 0
  else if bool_decide (2 ∈ seen) then 2 else 1.

Definition mixed (seen : list Z) : Prop := 3 ∈ seen /\ 0 ∈ seen.

(** The fragment whose headers the datagram takes: the first from offset zero. *)
Definition first_at_zero (l : list Fragment) : option Fragment :=
  head (filter (fun g => fragment_units g = 0) l).

(** A reassembler together with the fragments accepted, in order of arrival, for
    each datagram it still holds. *)
Inductive ip_received (clock : Z) (l : IpLimits) (policy : OverlapPolicy)
  : IpReassembler -> (DatagramKey -> list Fragment) -> Prop :=
| received_new r :
    ip_reassembler_new clock l policy = Ok r -> ip_received clock l policy r (fun _ => [])
| received_push r history alloc f now external_charge r' out :
    ip_received clock l policy r history -> fragment_ok f -> 0 <= external_charge ->
    ip_push_with_external_charge alloc r f now external_charge = Ok (r', out) ->
    ip_received clock l policy r' (fun key =>
      if decide (key = fragment_key f)
      then match out with PushAccepted _ => history key ++ [f] | PushCompleted _ _ => [] end
      else history key)
| received_expire r history now r' t :
    ip_received clock l policy r history -> ip_expire r now = Ok (r', t) ->
    ip_received clock l policy r' (fun key => if datagrams r' !! key then history key else [])
| received_flush r history order drain_order r' t :
    ip_received clock l policy r history ->
    order ≡ₚ (map_to_list (datagrams r)).*1 -> (forall m, drain_order m ≡ₚ map_to_list m) ->
    ip_flush order drain_order r = Ok (r', t) ->
    ip_received clock l policy r' (fun _ => []).

(** The headers kept are those of the first fragment from offset zero. *)
Definition header_from (recon : Reconstruction) (seen : list Fragment) : Prop :=
  match recon with
  | Reconstruct4 header _ => header = fragment_prefix <$> first_at_zero seen
  | Reconstruct6 prefix predecessor next_header _ from_zero =>
      match first_at_zero seen with
      | Some g => from_zero = true /\ exists f6, g = Fragment6 f6 /\ prefix = f6_unfragmentable_prefix f6 /\
          predecessor = f6_predecessor_next_header_offset f6 /\ next_header = f6_next_header f6
      | None => from_zero = false
      end
  end.

Record made_from (key : DatagramKey) (view : Z -> option Z) (recon : Reconstruction) (seen : list Fragment) : Prop := {
  mf_ok : Forall (fun g => fragment_ok g /\ fragment_key g = key) seen;
  mf_ecn : Ecn_ipv4_tos_bits (Reconstruction_ecn recon) = congestion (wire_ecn <$> seen);
  mf_unmixed : ~ mixed (wire_ecn <$> seen);
  mf_header : header_from recon seen;
  mf_family : match key, recon with
              | Key4 _, Reconstruct4 _ _ | Key6 _, Reconstruct6 _ _ _ _ _ => True
              | _, _ => False
              end;
  mf_zero : is_Some (view 0) -> is_Some (first_at_zero seen)
}.

Lemma octet_cases (P : Z -> bool) x : forallb P (seqZ 0 256) = true -> 0 <= x < 256 -> P x = true.
Proof. intros H Hx. rewrite forallb_forall in H. apply H, list_elem_of_In, elem_of_seqZ. lia. Qed.

Lemma at_octet l i : octets l -> 0 <= at_ l i < 256.
Proof. intros Ho. unfold at_. destruct (zget l i) as [b|] eqn:E; cbn; [by apply (octets_zget l i)|lia]. Qed.

Lemma first_chunk_at n l l' i : first_chunk n l = Some l' -> i < n -> at_ l' i = at_ l i.
Proof. intros [_ ->]%first_chunk_Some Hi. unfold at_. by rewrite zget_ztake, (proj2 (Z.ltb_lt _ _)). Qed.

(** The next check of a validation, which passed. *)
Ltac passed H := match type of H with (if ?b then _ else _) = _ => destruct b; [done|] end.

(** The marking a fragment is validated to carry is the one on the wire. *)
Lemma validated_ecn f lim inc :
  fragment_ok f -> validate_fragment f lim = Ok inc -> Ecn_ipv4_tos_bits (inc_ecn inc) = wire_ecn f.
Proof.
  intros Hf Hv. pose proof (at_octet (fragment_prefix f) 1 (fk_prefix _ Hf)) as Ho.
  unfold validate_fragment in Hv. passed Hv. destruct f as [f|f]; cbn [fragment_prefix wire_ecn] in *.
  - destruct (validate_ipv4_header f) as [ecn| |] eqn:Ee; [|done|done]. rewrite !Ok_bind in Hv. cbv beta iota in Hv.
    repeat passed Hv. do 3 inv_ok Hv. passed Hv. injection Hv as <-. cbn [inc_ecn].
    unfold validate_ipv4_header in Ee. destruct (first_chunk IPV4_MIN_LENGTH (f4_header f)) as [fixed|] eqn:Ec; [|done].
    passed Ee. inv_ok Ee. passed Ee. cbv zeta in Ee. repeat passed Ee. injection Ee as <-.
    rewrite (first_chunk_at _ _ _ 1 Ec) by done.
    apply Z.eqb_eq, (octet_cases (fun x => Ecn_ipv4_tos_bits (Ecn_from_ipv4_tos x) =? x mod 4)); [by vm_compute|done].
  - destruct (validate_ipv6_prefix f) as [ecn| |] eqn:Ee; [|done|done]. rewrite !Ok_bind in Hv. cbv beta iota in Hv.
    repeat passed Hv. do 3 inv_ok Hv. passed Hv. injection Hv as <-. cbn [inc_ecn].
    unfold validate_ipv6_prefix in Ee. cbv zeta in Ee.
    destruct (first_chunk IPV6_LENGTH (f6_unfragmentable_prefix f)) as [base|] eqn:Ec; [|done].
    passed Ee. inv_ok Ee. passed Ee. inv_ok Ee. repeat passed Ee. injection Ee as <-.
    rewrite (first_chunk_at _ _ _ 1 Ec) by done.
    apply Z.eqb_eq, (octet_cases (fun x => Ecn_ipv4_tos_bits (Ecn_from_ipv6_traffic_class x) =? x / 16 mod 4));
      [by vm_compute|done].
Qed.

Lemma congestion_snoc seen a b c :
  Ecn_ipv4_tos_bits a = congestion seen -> ~ mixed seen -> Ecn_merge a b = Ok c ->
  Ecn_ipv4_tos_bits c = congestion (seen ++ [Ecn_ipv4_tos_bits b]) /\ ~ mixed (seen ++ [Ecn_ipv4_tos_bits b]).
Proof.
  intros Ha Hm Hc. unfold mixed, congestion in *.
  assert (forall x, x ∈ seen ++ [Ecn_ipv4_tos_bits b] <-> x ∈ seen \/ x = Ecn_ipv4_tos_bits b) as Hin by set_solver.
  split.
  - destruct (bool_decide_reflect (3 ∈ seen)), (bool_decide_reflect (0 ∈ seen)), (bool_decide_reflect (2 ∈ seen));
      destruct a; try done; destruct b; try done; injection Hc as <-; cbn;
      repeat case_bool_decide; rewrite ?Hin in *; naive_solver.
  - rewrite !Hin. destruct (bool_decide_reflect (3 ∈ seen)), (bool_decide_reflect (0 ∈ seen)), (bool_decide_reflect (2 ∈ seen));
      destruct a; try done; destruct b; try done; naive_solver.
Qed.

Lemma first_at_zero_snoc seen f :
  first_at_zero (seen ++ [f]) = match first_at_zero seen with
    | Some g => Some g | None => if decide (fragment_units f = 0) then Some f else None end.
Proof.
  unfold first_at_zero. rewrite filter_app, filter_cons, filter_nil.
  destruct (filter _ seen) as [|g l]; [|done]. by destruct (decide (fragment_units f = 0)).
Qed.

(** The datagram once the fragment is in. *)
Lemma settled_made r f inc ecn seen :
  ip_wf r -> fragment_ok f -> validate_fragment f (ip_limits r) = Ok inc ->
  accumulated_ecn (datagrams r !! fragment_key f) inc = Ok ecn ->
  match datagrams r !! fragment_key f with
  | Some st => made_from (fragment_key f) (rview (ranges st)) (reconstruction st) seen
  | None => seen = []
  end ->
  made_from (fragment_key f) (after r f) (settled (datagrams r !! fragment_key f) inc ecn) (seen ++ [f]).
Proof.
  intros Hr Hf Hv He Hold.
  pose proof (ends_Ok _ _ _ _ (validate_fragment_spec f (ip_limits r) Hf) Hv) as [Hinc Hof].
  pose proof (validated_ecn f _ inc Hf Hv) as Hwire.
  assert (Reconstruction_ecn (settled (datagrams r !! fragment_key f) inc ecn) = ecn) as Hse.
  { unfold settled. destruct (inc_reconstruction inc); repeat case_match; done. }
  assert (fragment_units f = 0 <-> inc_offset inc = 0) as Hz by (rewrite (if_offset _ _ Hof); lia).
  assert (is_Some (frag_view f 0) -> fragment_units f = 0) as Hfv.
  { unfold frag_view. intros [b Hb]. apply zget_Some_lt in Hb. pose proof (fk_units _ Hf). lia. }
  assert (is_Some (after r f 0) -> is_Some (datagram_view r (fragment_key f) 0) \/ fragment_units f = 0) as Haf.
  { unfold after, merged_view. intros [b Hb].
    destruct (datagram_view r (fragment_key f) 0) as [x|]; [left; eauto|]. right. apply Hfv.
    destruct (frag_view f 0) as [y|]; [eauto|]. by destruct (overlap_policy r). }
  unfold datagram_view in Haf. unfold accumulated_ecn in He.
  destruct (datagrams r !! fragment_key f) as [st|] eqn:Est.
  - destruct Hold as [Ho Hecn Hmix Hhead Hfam Hzero]. cbn [ranges_of from_option] in Haf.
    destruct (Ecn_merge (Reconstruction_ecn (reconstruction st)) (inc_ecn inc)) as [c| |] eqn:Em; [|done|done].
    cbn in He. injection He as ->. destruct (congestion_snoc _ _ _ _ Hecn Hmix Em) as [H1 H2]. rewrite Hwire in H1, H2.
    split.
    + apply Forall_app. split; [done|]. by apply Forall_singleton.
    + by rewrite Hse, fmap_app.
    + by rewrite fmap_app.
    + pose proof (dw_recon _ _ _ (iw_datagrams _ Hr _ _ Est)) as Hwf.
      unfold settled. cbn [fmap option_fmap option_map]. unfold header_from in *. rewrite first_at_zero_snoc.
      rewrite (if_header _ _ Hof). destruct (reconstruction st) as [header e|p q n e z].
      * destruct (first_at_zero seen) as [g|]; cbn in Hhead; subst header; [done|].
        destruct f as [f|f]; [|done].
        destruct (Z.eqb_spec (inc_offset inc) 0), (decide (fragment_units (Fragment4 f) = 0)); try done; tauto.
      * destruct f as [f|f]; [done|]. destruct (first_at_zero seen) as [g|] eqn:Eg.
        { destruct Hhead as [-> Hg]. done. }
        subst z. cbn [negb andb].
        destruct (Z.eqb_spec (inc_offset inc) 0), (decide (fragment_units (Fragment6 f) = 0)); try done; try tauto.
        cbn. split; [done|]. by exists f.
    + unfold settled. rewrite (if_header _ _ Hof). cbn [fmap option_fmap option_map].
      destruct f as [f|f]; cbn in *; destruct (reconstruction st) as [[?|] ?|]; try done. by case_match.
    + intros H. rewrite first_at_zero_snoc. destruct (first_at_zero seen) as [g|] eqn:Eg; [eauto|].
      destruct (Haf H) as [Hs|Hs]; [destruct (Hzero Hs); congruence|]. rewrite decide_True by done. eauto.
  - subst seen. injection He as <-. cbn [app]. cbn [ranges_of from_option rview] in Haf. split.
    + by apply Forall_singleton.
    + rewrite Hse. cbn. rewrite <-Hwire. by destruct (inc_ecn inc).
    + unfold mixed. cbn. rewrite <-Hwire. destruct (inc_ecn inc); cbn; set_solver.
    + unfold settled, header_from, first_at_zero. cbn [fmap option_fmap option_map]. rewrite (if_header _ _ Hof).
      rewrite filter_cons, filter_nil. destruct f as [f|f];
        destruct (Z.eqb_spec (inc_offset inc) 0), (decide (fragment_units _ = 0)); try done; try tauto.
      cbn. split; [done|]. by exists f.
    + unfold settled. rewrite (if_header _ _ Hof). by destruct f.
    + intros H. unfold first_at_zero. rewrite filter_cons, filter_nil.
      destruct (Haf H) as [[? ?]|Hs]; [done|]. rewrite decide_True by done. cbn. eauto.
Qed.

Lemma made_from_ext key view view' recon seen :
  (forall i, view i = view' i) -> made_from key view recon seen -> made_from key view' recon seen.
Proof. intros Hv [? ? ? ? ? Hz]. split; try done. by rewrite <-Hv. Qed.

(** Every datagram held is made from the fragments accepted for it. *)
Definition all_made (r : IpReassembler) (history : DatagramKey -> list Fragment) : Prop :=
  forall key, match datagrams r !! key with
    | Some st => made_from key (rview (ranges st)) (reconstruction st) (history key)
    | None => history key = []
    end.

Lemma received_made clock l policy r history :
  ip_limits_ok l -> ip_received clock l policy r history -> ip_wf r /\ all_made r history.
Proof.
  intros Hl H. induction H as [r Hn|r h alloc f now ext r' out _ [Hr IH] Hf He Hp|r h now r' t _ [Hr IH] He
    |r h order drain r' t _ [Hr IH] Ho Hd He].
  - split; [by eapply ip_new_wf|]. unfold ip_reassembler_new in Hn. inv_ok Hn. injection Hn as <-.
    intros key. cbn. by rewrite lookup_empty.
  - destruct (ends_Ok _ _ _ _ (ip_push_spec alloc r f now ext Hr Hf He) Hp) as (Hr' & _ & _ & Hout). split; [done|].
    intros key. destruct out as [o|o d].
    + destruct Hout as (_ & st & Hd & Hv & _ & _ & _ & inc & ecn & Hval & Hecn & Hrec & _). rewrite Hd.
      destruct (decide (key = fragment_key f)) as [->|Hne]; [|rewrite lookup_insert_ne by done; apply IH].
      rewrite lookup_insert_eq, Hrec.
      eapply made_from_ext; [|by eapply settled_made; [..|apply IH]]. intros i. by rewrite Hv.
    + destruct Hout as (_ & Hd & _). rewrite Hd.
      destruct (decide (key = fragment_key f)) as [->|Hne]; [by rewrite lookup_delete_eq|].
      rewrite lookup_delete_ne by done. apply IH.
  - destruct (ip_expire_spec r now Hr) as (keys & r2 & _ & _ & E & Hd & Hw & _). rewrite E in He. injection He as <- _.
    split; [done|]. intros key. cbn. destruct (datagrams r2 !! key) as [st|] eqn:Est; [|done].
    rewrite Hd in Est. apply dropped_lookup in Est as [Est _]. specialize (IH key). by rewrite Est in IH.
  - destruct (ip_flush_spec order drain r Hr Ho Hd) as (kept & om & r2 & _ & E & Hem & _ & Hw & _).
    rewrite E in He. injection He as <- _. split; [done|]. intros key. by rewrite Hem, lookup_empty.
Qed.

(** The byte that holds the ECN bits, with new ones. *)
Lemma tos_with_ecn x ecn : 0 <= x < 256 ->
  Z.lor (Z.land x 252) (Ecn_ipv4_tos_bits ecn) = x / 4 * 4 + Ecn_ipv4_tos_bits ecn.
Proof.
  intros Hx. apply Z.eqb_eq, (octet_cases (fun x => Z.lor (Z.land x 252) (Ecn_ipv4_tos_bits ecn) =? x / 4 * 4 + Ecn_ipv4_tos_bits ecn));
    [destruct ecn; by vm_compute|done].
Qed.

Lemma class_with_ecn x ecn : 0 <= x < 256 ->
  Z.lor (Z.land x 207) (Ecn_ipv6_traffic_class_bits ecn) = x / 64 * 64 + Ecn_ipv4_tos_bits ecn * 16 + x mod 16.
Proof.
  intros Hx. apply Z.eqb_eq, (octet_cases (fun x => Z.lor (Z.land x 207) (Ecn_ipv6_traffic_class_bits ecn)
    =? x / 64 * 64 + Ecn_ipv4_tos_bits ecn * 16 + x mod 16)); [destruct ecn; by vm_compute|done].
Qed.

Lemma completed_made clock l policy history alloc r f now external_charge r' o d :
  ip_limits_ok l -> ip_received clock l policy r history -> fragment_ok f -> 0 <= external_charge ->
  ip_push_with_external_charge alloc r f now external_charge = Ok (r', PushCompleted o d) ->
  exists recon payload zero, datagrams r' = delete (fragment_key f) (datagrams r) /\
    made_from (fragment_key f) (after r f) recon (history (fragment_key f) ++ [f]) /\
    first_at_zero (history (fragment_key f) ++ [f]) = Some zero /\ fragment_ok zero /\
    fragment_key zero = fragment_key f /\
    rebuilt recon payload (cd_bytes d) /\ zlen payload = cd_final_payload_length d /\
    forall i, 0 <= i < zlen payload -> is_Some (zget payload i) /\ zget payload i = after r f i.
Proof.
  intros Hl Hrec Hf He Hp. destruct (received_made _ _ _ _ _ Hl Hrec) as [Hr Hall].
  destruct (pushed_completed _ _ _ _ _ _ _ _ Hr Hf He Hp)
    as (Hd & _ & _ & _ & _ & inc & ecn & payload & Hof & Hval & Hecn & Hlen & Hv & Hin & Hreb).
  pose proof (settled_made r f inc ecn _ Hr Hf Hval Hecn (Hall (fragment_key f))) as Hm.
  pose proof (ends_Ok _ _ _ _ (validate_fragment_spec f (ip_limits r) Hf) Hval) as [Hinc _].
  destruct (io_span _ _ Hinc) as (H0 & _ & Hpos & _). rewrite (if_payload _ _ Hof) in Hpos.
  pose proof (fk_units _ Hf) as Hu.
  assert (0 < zlen payload) as Hlp.
  { destruct (Hin (8 * fragment_units f)) as [? ?]; [|lia]. unfold after, merged_view.
    destruct (zget_lt_is_Some (fragment_payload f) 0) as [b Hb]; [lia|].
    assert (frag_view f (8 * fragment_units f) = Some b) as Eb by (unfold frag_view; by rewrite Z.sub_diag).
    rewrite Eb. destruct (overlap_policy r), (datagram_view r (fragment_key f) (8 * fragment_units f)); cbn; eauto. }
  assert (forall i, 0 <= i < zlen payload -> is_Some (zget payload i) /\ zget payload i = after r f i) as Hpay.
  { intros i Hi. split; [by apply zget_lt_is_Some|by apply Hv]. }
  destruct (mf_zero _ _ _ _ Hm) as [zero Hz].
  { destruct (Hpay 0) as [Hs E]; [lia|]. by rewrite <-E. }
  assert (zero ∈ history (fragment_key f) ++ [f]) as Hzin.
  { unfold first_at_zero in Hz. apply head_Some_elem_of in Hz. by apply list_elem_of_filter in Hz as [_ ?]. }
  pose proof (mf_ok _ _ _ _ Hm) as Hok. rewrite Forall_forall in Hok. destruct (Hok _ Hzin) as [Hzok Hzk].
  exists (settled (datagrams r !! fragment_key f) inc ecn), payload, zero. done.
Qed.

(** C36: a completed IPv4 datagram is a header followed by the whole payload: every
    offset up to the final length holds the merged byte.  The header is that of the
    first accepted fragment from offset zero, with the total length of this
    datagram, the fragment bits cleared, a checksum that verifies, and every other
    byte unchanged but the ECN bits, which are those RFC 3168 gives for the markings
    of all the fragments accepted for it (never both CE and not ECN-capable). *)
Theorem ip_completed_ipv4 (clock : Z) (l : IpLimits) (policy : OverlapPolicy) (history : DatagramKey -> list Fragment)
  (alloc : ip_allocator) (r : IpReassembler) (f : Fragment) (now external_charge : Z)
  (r' : IpReassembler) (o : FragmentOutcome) (d : CompletedDatagram) (k : Ipv4DatagramKey) :
  ip_limits_ok l -> ip_received clock l policy r history ->
  fragment_ok f -> 0 <= external_charge -> fragment_key f = Key4 k ->
  ip_push_with_external_charge alloc r f now external_charge = Ok (r', PushCompleted o d) ->
  let seen := history (fragment_key f) ++ [f] in
  datagrams r' = delete (fragment_key f) (datagrams r) /\ ~ mixed (wire_ecn <$> seen) /\
  exists zero ecn h' payload, first_at_zero seen = Some zero /\
    cd_bytes d = h' ++ payload /\ rebuilt_header4 (fragment_prefix zero) ecn (zlen (cd_bytes d)) h' /\
    at_ h' 1 = at_ (fragment_prefix zero) 1 / 4 * 4 + congestion (wire_ecn <$> seen) /\
    zlen payload = cd_final_payload_length d /\
    forall i, 0 <= i < zlen payload -> is_Some (zget payload i) /\ zget payload i = after r f i.
Proof.
  intros Hl Hrec Hf He Hk Hp seen.
  destruct (completed_made _ _ _ _ _ _ _ _ _ _ _ _ Hl Hrec Hf He Hp)
    as (recon & payload & zero & Hd & [Hok Hecn Hmix Hhead Hfam _] & Hz & Hzok & Hzk & Hreb & Hlen & Hpay).
  split; [done|]. split; [done|]. fold seen in Hz, Hhead, Hecn. unfold header_from in Hhead.
  destruct recon as [header ecn|p q n ecn z].
  - rewrite Hz in Hhead. cbn in Hhead. subst header. destruct Hreb as (h' & Ed & Hr4).
    exists zero, ecn, h', payload. split_and!; try done.
    + rewrite Ed, zlen_app, (r4_len _ _ _ _ Hr4). exact Hr4.
    + rewrite (r4_tos _ _ _ _ Hr4), <-Hecn. apply tos_with_ecn, at_octet, (fk_prefix _ Hzok).
  - rewrite Hz in Hhead. destruct Hhead as (_ & f6 & -> & _). cbn in Hzk. congruence.
Qed.

(** Fragments marked ECT(0), CE and ECT(1). *)
Definition demo_marked (tos units : Z) (more : bool) (payload : bytes) : Fragment :=
  Fragment4 (mkFragment4 demo_key units more
    (overwrite (demo_header (20 + zlen payload) (units + if more then 8192 else 0)) 1 [tos]) payload).

Definition marked_first : Fragment := demo_marked 2 0 true (zrep 8 1).
Definition marked_middle : Fragment := demo_marked 3 1 true (zrep 8 2).
Definition marked_last : Fragment := demo_marked 1 2 false [9].

Lemma marked_ok : fragment_ok marked_first /\ fragment_ok marked_middle /\ fragment_ok marked_last.
Proof. split_and!; split; vm_compute; try done; try (split; done); repeat constructor; done. Qed.

Lemma pushed_received {l} policy r history f now o :
  fragment_ok f -> ip_received 0 l policy r history -> push_out r f now = Some (PushAccepted o) ->
  ip_received 0 l policy (pushed r f now)
    (fun key => if decide (key = fragment_key f) then history key ++ [f] else history key).
Proof.
  intros Hf Hr Hp. exact (received_push 0 l policy r history demo_alloc f now 0 _ _ Hr Hf (Z.le_refl 0) (pushed_eq _ _ _ _ Hp)).
Qed.

Lemma ip_completed_ipv4_witness :
  exists o d zero h' payload,
    push_out (pushed (pushed (demo_new PolicyFirst) marked_last 5) marked_middle 6) marked_first 7
      = Some (PushCompleted o d) /\
    cd_bytes d = h' ++ payload /\ first_at_zero [marked_last; marked_middle; marked_first] = Some zero /\
    at_ h' 1 = at_ (fragment_prefix zero) 1 / 4 * 4 + 3.
Proof.
  assert (exists o1, push_out (demo_new PolicyFirst) marked_last 5 = Some (PushAccepted o1)) as [o1 E1].
  { eexists. vm_compute. reflexivity. }
  assert (exists o2, push_out (pushed (demo_new PolicyFirst) marked_last 5) marked_middle 6 = Some (PushAccepted o2)) as [o2 E2].
  { eexists. vm_compute. reflexivity. }
  assert (exists o d, push_out (pushed (pushed (demo_new PolicyFirst) marked_last 5) marked_middle 6) marked_first 7
    = Some (PushCompleted o d)) as (o & d & E).
  { do 2 eexists. vm_compute. reflexivity. }
  destruct marked_ok as (H1 & H2 & H3).
  pose proof (received_new 0 IpLimits_default PolicyFirst (demo_new PolicyFirst) eq_refl) as R0.
  pose proof (pushed_received PolicyFirst _ _ marked_middle 6 o2 H2 (pushed_received PolicyFirst _ _ marked_last 5 o1 H3 R0 E1) E2) as R2.
  pose proof (ip_completed_ipv4 0 IpLimits_default PolicyFirst _ demo_alloc _ marked_first 7 0 _ o d demo_key
    default_limits_ok R2 H1 (Z.le_refl 0) eq_refl (pushed_eq _ _ _ _ E)) as H.
  cbv beta zeta in H. rewrite !decide_True in H by reflexivity.
  destruct H as (_ & _ & zero & ecn & h' & payload & Hz & Ed & _ & Ht & _).
  exists o, d, zero, h', payload. split_and!; [exact E|exact Ed|exact Hz|]. rewrite Ht. reflexivity.
Defined.

(** C37: a completed IPv6 datagram is the unfragmentable part of the first accepted
    fragment from offset zero followed by the whole payload: the payload length
    counts the extension headers and the payload, the byte that announced the
    Fragment header names what followed it, the ECN bits are those RFC 3168 gives
    for the markings of all the fragments accepted for it (never both CE and not
    ECN-capable), and every other byte is unchanged. *)
Theorem ip_completed_ipv6 (clock : Z) (l : IpLimits) (policy : OverlapPolicy) (history : DatagramKey -> list Fragment)
  (alloc : ip_allocator) (r : IpReassembler) (f : Fragment) (now external_charge : Z)
  (r' : IpReassembler) (o : FragmentOutcome) (d : CompletedDatagram) (k : Ipv6DatagramKey) :
  ip_limits_ok l -> ip_received clock l policy r history ->
  fragment_ok f -> 0 <= external_charge -> fragment_key f = Key6 k ->
  ip_push_with_external_charge alloc r f now external_charge = Ok (r', PushCompleted o d) ->
  let seen := history (fragment_key f) ++ [f] in
  ~ mixed (wire_ecn <$> seen) /\
  exists zero ecn prefix' payload, first_at_zero seen = Some (Fragment6 zero) /\
    cd_bytes d = prefix' ++ payload /\
    rebuilt_prefix6 (f6_unfragmentable_prefix zero) (f6_predecessor_next_header_offset zero) (f6_next_header zero)
      ecn (zlen (cd_bytes d) - IPV6_LENGTH) prefix' /\
    at_ prefix' 1 = at_ (f6_unfragmentable_prefix zero) 1 / 64 * 64 + congestion (wire_ecn <$> seen) * 16
      + at_ (f6_unfragmentable_prefix zero) 1 mod 16 /\
    zlen payload = cd_final_payload_length d /\
    forall i, 0 <= i < zlen payload -> is_Some (zget payload i) /\ zget payload i = after r f i.
Proof.
  intros Hl Hrec Hf He Hk Hp seen.
  destruct (completed_made _ _ _ _ _ _ _ _ _ _ _ _ Hl Hrec Hf He Hp)
    as (recon & payload & zero & _ & [Hok Hecn Hmix Hhead Hfam _] & Hz & Hzok & Hzk & Hreb & Hlen & Hpay).
  split; [done|]. fold seen in Hz, Hhead, Hecn. unfold header_from in Hhead. rewrite Hz in Hhead.
  destruct zero as [g|g]; [cbn in Hzk; congruence|]. exists g. destruct recon as [header ecn|p q n ecn z].
  - by rewrite Hk in Hfam.
  - destruct Hhead as (_ & f6 & [= <-] & -> & -> & ->). destruct Hreb as (prefix' & Ed & H6).
    exists ecn, prefix', payload. split_and!; try done.
    + rewrite Ed, zlen_app, (r6_len _ _ _ _ _ _ H6).
      replace (zlen (f6_unfragmentable_prefix g) + zlen payload - IPV6_LENGTH)
        with (zlen (f6_unfragmentable_prefix g) - IPV6_LENGTH + zlen payload) by lia. exact H6.
    + rewrite (r6_class _ _ _ _ _ _ H6), <-Hecn. apply class_with_ecn, at_octet, (fk_prefix _ Hzok).
Qed.

Definition demo_prefix6 (length : Z) : bytes :=
  [96; 0; 0; 0] ++ to_be_bytes16 length ++ [44; 64] ++ zrep 15 0 ++ [1] ++ zrep 15 0 ++ [2].

Definition demo_fragment6 (units : Z) (more : bool) (payload : bytes) : Fragment :=
  Fragment6 (mkFragment6 (mkKey6 0 1 2 77) units more 17 (demo_prefix6 (8 + zlen payload)) 6 payload).

Lemma demo_fragment6_ok : fragment_ok (demo_fragment6 0 true (zrep 8 5)) /\ fragment_ok (demo_fragment6 1 false [6; 6]).
Proof. split; split; vm_compute; try done; try (split; done); repeat constructor; done. Qed.

Lemma ip_completed_ipv6_witness :
  exists o d zero ecn prefix' payload,
    push_out (pushed (demo_new PolicyReject) (demo_fragment6 1 false [6; 6]) 1) (demo_fragment6 0 true (zrep 8 5)) 2
      = Some (PushCompleted o d) /\
    first_at_zero [demo_fragment6 1 false [6; 6]; demo_fragment6 0 true (zrep 8 5)] = Some (Fragment6 zero) /\
    cd_bytes d = prefix' ++ payload /\
    rebuilt_prefix6 (f6_unfragmentable_prefix zero) (f6_predecessor_next_header_offset zero) (f6_next_header zero)
      ecn (zlen (cd_bytes d) - IPV6_LENGTH) prefix'.
Proof.
  assert (exists o1, push_out (demo_new PolicyReject) (demo_fragment6 1 false [6; 6]) 1 = Some (PushAccepted o1)) as [o1 E1].
  { eexists. vm_compute. reflexivity. }
  assert (exists o d, push_out (pushed (demo_new PolicyReject) (demo_fragment6 1 false [6; 6]) 1)
    (demo_fragment6 0 true (zrep 8 5)) 2 = Some (PushCompleted o d)) as (o & d & E).
  { do 2 eexists. vm_compute. reflexivity. }
  destruct demo_fragment6_ok as [H1 H2].
  pose proof (received_new 0 IpLimits_default PolicyReject (demo_new PolicyReject) eq_refl) as R0.
  pose proof (pushed_received PolicyReject _ _ (demo_fragment6 1 false [6; 6]) 1 o1 H2 R0 E1) as R1.
  pose proof (ip_completed_ipv6 0 IpLimits_default PolicyReject _ demo_alloc _ (demo_fragment6 0 true (zrep 8 5)) 2 0 _ o d
    (mkKey6 0 1 2 77) default_limits_ok R1 H1 (Z.le_refl 0) eq_refl (pushed_eq _ _ _ _ E)) as H.
  cbv beta zeta in H. rewrite !decide_True in H by reflexivity.
  destruct H as (_ & zero & ecn & prefix' & payload & Hz & Ed & H6 & _).
  exists o, d, zero, ecn, prefix', payload. split_and!; [exact E|exact Hz|exact Ed|exact H6].
Defined.
