(* ===== verification/IpDelivery.v ===== *)
(** * IP reassembly: completion, delivery and retirement

    When a datagram completes, what a whole run of the reassembler delivers, and
    what [expire] and [flush] report. *)

From stdpp Require Import base tactics option list numbers gmap strings sorting.
From Stdlib Require Import ZArith Lia.
From S2P Require Import Prelude Checksum Ordered Flow Headers HeadersProofs.
From S2P Require Import IpModel IpValidate IpMerge IpReconstruct IpEngine IpRanges IpApply IpFragment IpRebuild.
From S2P Require Import IpCharge IpPush IpRetire IpTheorems.

(** ** Completion *)

Definition push_report (out : PushOutcome) : FragmentOutcome :=
  match out with PushAccepted o | PushCompleted o _ => o end.

(** Ranges that reach no further than [n] and leave no gap below it are one
    range. *)
Lemma covered_complete l n :
  ranges_wf (-1) l -> l <> [] -> ranges_end (-1) l <= n ->
  (forall i, 0 <= i < n -> is_Some (rview l i)) -> complete l (Some n).
Proof.
  intros Hl Hne Hend Hcov. destruct l as [|r l]; [done|]. cbn in Hl, Hend. destruct Hl as (Hs & Hlen & _ & Hl).
  pose proof (ranges_wf_end _ _ Hl) as Hge. unfold rr_last in *.
  assert (rr_start r = 0) as Hs0.
  { destruct (Hcov 0) as [b Hb]; [lia|]. cbn [rview] in Hb. destruct (Z.leb_spec (rr_start r) 0); [lia|].
    cbn [andb] in Hb. by rewrite (rview_below _ _ 0 Hl) in Hb by (unfold rr_last; lia). }
  assert (rr_start r + zlen (rr_bytes r) < n -> False) as Hlast.
  { intros Hlt. destruct (Hcov (rr_start r + zlen (rr_bytes r))) as [b Hb]; [lia|]. cbn [rview] in Hb. unfold rr_last in Hb.
    rewrite (proj2 (Z.ltb_ge _ _)), andb_false_r in Hb by lia. by rewrite (rview_below _ _ _ Hl) in Hb by lia. }
  destruct l as [|r2 l].
  - exists r, n. split_and!; try done. unfold rr_last. cbn in *. lia.
  - exfalso. apply Hlast. cbn in Hl, Hge, Hend. destruct Hl as (Hx & ? & _ & Hl2). pose proof (ranges_wf_end _ _ Hl2).
    unfold rr_last in *. lia.
Qed.

(** C30: an accepted push completes the datagram exactly when the final length is
    known and no byte below it is missing. *)
Theorem ip_completes_exactly (alloc : ip_allocator) (r : IpReassembler) (f : Fragment) (now external_charge : Z)
  (r' : IpReassembler) (out : PushOutcome) :
  ip_wf r -> fragment_ok f -> 0 <= external_charge ->
  ip_push_with_external_charge alloc r f now external_charge = Ok (r', out) ->
  (exists o d, out = PushCompleted o d) <->
  (exists n, fo_known_final_length (push_report out) = Some n /\ forall i, 0 <= i < n -> is_Some (after r f i)).
Proof.
  intros Hr Hf He Hp.
  destruct (ends_Ok _ _ _ _ (ip_push_spec alloc r f now external_charge Hr Hf He) Hp) as (Hr' & _ & _ & Hout).
  split.
  - intros (o & d & ->). destruct Hout as (_ & _ & Hfin & _ & _ & _ & inc & ecn & payload & _ & _ & _ & Hl & Hv & _).
    exists (cd_final_payload_length d). split; [done|]. rewrite <-Hl. intros i Hi. rewrite <-Hv by done.
    by apply zget_lt_is_Some.
  - intros (n & Hn & Hcov). destruct out as [o|o d]; [exfalso|by eauto]. destruct Hout as (_ & st & Hd & Hv & Hfin & _).
    assert (datagrams r' !! fragment_key f = Some st) as Hst by (by rewrite Hd, lookup_insert_eq).
    pose proof (iw_datagrams _ Hr' _ _ Hst) as Hw. cbn in Hn. rewrite <-Hfin in Hn.
    apply (dw_incomplete _ _ _ Hw). rewrite Hn. apply covered_complete; try apply Hw; [done|].
    intros i Hi. rewrite Hv. by apply Hcov.
Qed.

(** Exactly the bytes [demo_state] misses. *)
Definition demo_middle : Fragment := demo_fragment 2 true (zrep 8 2).

Lemma demo_middle_ok : fragment_ok demo_middle.
Proof. split; vm_compute; try done; try (split; done); repeat constructor; done. Qed.

Lemma ip_completes_exactly_witness :
  exists out, push_out (demo_state PolicyReject) demo_middle 7 = Some out /\
    exists o d, out = PushCompleted o d.
Proof.
  assert (exists out, push_out (demo_state PolicyReject) demo_middle 7 = Some out /\
    fo_known_final_length (push_report out) = Some 27) as (out & E & Hl).
  { eexists. split; [vm_compute; reflexivity|reflexivity]. }
  exists out. split; [exact E|].
  apply (ip_completes_exactly demo_alloc (demo_state PolicyReject) _ 7 0 (pushed (demo_state PolicyReject) _ 7) out
    (demo_state_wf PolicyReject) demo_middle_ok (Z.le_refl 0) (pushed_eq _ _ _ _ E)).
  exists 27. split; [exact Hl|]. intros i Hi.
  assert (forallb (fun i => is_some (after (demo_state PolicyReject) demo_middle i))
    (seqZ 0 27) = true) as Hall by (by vm_compute).
  rewrite forallb_forall in Hall. specialize (Hall i). rewrite <-list_elem_of_In, elem_of_seqZ in Hall.
  destruct (after _ _ i); [by eexists|]. by specialize (Hall ltac:(lia)).
Defined.

(** ** Runs *)

(** A caller's operations in order; the two orders of [EvFlush] are those in
    which the hash map is visited. *)
Inductive ip_event : Type :=
| EvPush (f : Fragment) (now external_charge : Z)
| EvExpire (now : Z)
| EvFlush (order : gmap DatagramKey DatagramState -> list DatagramKey)
          (drain_order : gmap DatagramKey DatagramState -> list (DatagramKey * DatagramState)).

Definition ip_event_ok (ev : ip_event) : Prop :=
  match ev with
  | EvPush f _ external_charge => fragment_ok f /\ 0 <= external_charge
  | EvExpire _ => True
  | EvFlush order drain_order =>
      (forall m, order m ≡ₚ (map_to_list m).*1) /\ (forall m, drain_order m ≡ₚ map_to_list m)
  end.

(** One operation: the reassembler afterwards and the datagram completed; a
    rejected fragment leaves the reassembler as it is. *)
Definition ip_apply (alloc : ip_allocator) (r : IpReassembler) (ev : ip_event)
  : outcome IpError (IpReassembler * list CompletedDatagram) :=
  match ev with
  | EvPush f now external_charge =>
      match ip_push_with_external_charge alloc r f now external_charge with
      | Ok (r', PushAccepted _) => Ok (r', [])
      | Ok (r', PushCompleted _ d) => Ok (r', [d])
      | Err _ => Ok (r, [])
      | Panic => Panic
      end
  | EvExpire now => '(r', _) ← ip_expire r now; Ok (r', [])
  | EvFlush order drain_order => '(r', _) ← ip_flush (order (datagrams r)) drain_order r; Ok (r', [])
  end.

Fixpoint ip_run (alloc : ip_allocator) (r : IpReassembler) (evs : list ip_event)
  : outcome IpError (IpReassembler * list CompletedDatagram) :=
  match evs with
  | [] => Ok (r, [])
  | ev :: evs =>
      '(r, now_done) ← ip_apply alloc r ev;
      '(r, later_done) ← ip_run alloc r evs;
      Ok (r, now_done ++ later_done)
  end.

(** The fragments of [key] are pieces of the payload [S]. *)
Definition cut_from (key : DatagramKey) (S : bytes) (ev : ip_event) : Prop :=
  match ev with
  | EvPush f _ _ => fragment_key f = key ->
      (forall i b, frag_view f i = Some b -> zget S i = Some b) /\
      (fragment_more f = false -> 8 * fragment_units f + zlen (fragment_payload f) = zlen S)
  | _ => True
  end.

(** What is retained for [key] is a part of [S]. *)
Definition part_of (key : DatagramKey) (S : bytes) (r : IpReassembler) : Prop :=
  forall st, datagrams r !! key = Some st ->
    (forall i b, rview (ranges st) i = Some b -> zget S i = Some b) /\
    (forall n, final_length st = Some n -> n = zlen S).

Lemma part_of_after key S r f now external_charge i b :
  part_of key S r -> cut_from key S (EvPush f now external_charge) -> fragment_key f = key ->
  after r f i = Some b -> zget S i = Some b.
Proof.
  intros Hpart Hcut Hk Ha. destruct (Hcut Hk) as [Hv _]. unfold after, merged_view, datagram_view in Ha.
  assert (forall b, rview (ranges_of (datagrams r !! fragment_key f)) i = Some b -> zget S i = Some b) as Hold.
  { rewrite Hk. destruct (datagrams r !! key) as [st|] eqn:E; [|done]. intros b'. by apply (Hpart st E). }
  destruct (overlap_policy r), (frag_view f i) eqn:Ef, (rview _ i) eqn:Er; cbn in Ha; simplify_eq; auto.
Qed.

Lemma part_of_final key S r f now external_charge o n :
  part_of key S r -> cut_from key S (EvPush f now external_charge) -> fragment_key f = key ->
  fragment_reported r f o -> fo_known_final_length o = Some n -> n = zlen S.
Proof.
  intros Hpart Hcut Hk Hrep Hn. destruct (fr_final _ _ _ Hrep) as [_ Hf]. rewrite Hn in Hf.
  destruct (fragment_more f) eqn:Em; [|injection Hf as ->; by apply Hcut].
  rewrite Hk in Hf. destruct (datagrams r !! key) as [st|] eqn:E; [|done]. by apply (Hpart st E).
Qed.

(** A completed datagram is some header before its payload. *)
Lemma rebuilt_suffix r payload d : rebuilt r payload d -> exists h, d = h ++ payload.
Proof. destruct r as [[h|] e|p q n e z]; cbn; [|done|]; intros (h' & -> & _); eauto. Qed.

Lemma ip_apply_delivers alloc key S r ev :
  ip_wf r -> ip_event_ok ev -> cut_from key S ev -> part_of key S r ->
  exists r' ds, ip_apply alloc r ev = Ok (r', ds) /\ ip_wf r' /\ part_of key S r' /\
    forall d, d ∈ ds -> cd_key d = key -> exists h, cd_bytes d = h ++ S.
Proof.
  intros Hr Hok Hcut Hpart. destruct ev as [f now ext|now|order drain]; cbn [ip_apply].
  - destruct Hok as [Hf He]. pose proof (ip_push_spec alloc r f now ext Hr Hf He) as Hs.
    destruct (ip_push_with_external_charge alloc r f now ext) as [[r' out]|e|]; cbn in Hs; [|by exists r, []; set_solver|done].
    destruct Hs as (Hw & _ & _ & Hout). destruct out as [o|o d]; destruct Hout as [Hrep Hx].
    + exists r', []. split_and!; try done; [|set_solver]. destruct Hx as (st & Hd & Hv & Hfin & _). intros st' Hst'.
      rewrite Hd in Hst'. destruct (decide (key = fragment_key f)) as [->|Hne].
      * rewrite lookup_insert_eq in Hst'. injection Hst' as <-. split.
        -- intros i b. rewrite Hv. by eapply part_of_after.
        -- intros n. rewrite Hfin. by eapply part_of_final.
      * rewrite lookup_insert_ne in Hst' by done. by apply Hpart.
    + exists r', [d]. destruct Hx as (Hd & Hfin & Hkey & _ & _ & inc & ecn & payload & _ & _ & _ & Hl & Hv & _ & Hreb).
      split_and!; try done.
      * intros st' Hst'. rewrite Hd in Hst'. apply lookup_delete_Some in Hst' as [_ Hst']. by apply Hpart.
      * intros d' ->%list_elem_of_singleton Hk. rewrite Hkey in Hk. apply rebuilt_suffix in Hreb as [h ->].
        exists h. f_equal. pose proof (part_of_final _ _ _ _ _ _ _ _ Hpart Hcut Hk Hrep Hfin) as Hn.
        apply zget_ext. intros i Hi. destruct (Z.lt_ge_cases i (zlen payload)) as [Hlt|Hge].
        -- destruct (zget_lt_is_Some payload i ltac:(lia)) as [b Hb]. rewrite Hb. symmetry.
           rewrite (Hv i ltac:(lia)) in Hb. by eapply part_of_after.
        -- by rewrite !zget_ge by lia.
  - destruct (ip_expire_spec r now Hr) as (keys & r' & _ & _ & -> & Hd & Hw & _).
    rewrite Ok_bind. exists r', []. split_and!; try done; [|set_solver]. intros st Hst. rewrite Hd in Hst.
    apply dropped_lookup in Hst as [Hst _]. by apply Hpart.
  - destruct Hok as [Ho Hdr]. destruct (ip_flush_spec _ _ r Hr (Ho _) Hdr) as (kept & om & r' & _ & -> & Hd & _ & Hw & _).
    rewrite Ok_bind. exists r', []. split_and!; try done; [|set_solver]. intros st Hst. by rewrite Hd in Hst.
Qed.

(** C6: whatever the order, duplication and overlap of the fragments, the losses
    to expiry and flush, the rejections and the overlap policy: when every
    fragment of a key is cut from one payload, every datagram completed for the
    key ends with exactly that payload, and no operation panics. *)
Theorem ip_reassembles (alloc : ip_allocator) (key : DatagramKey) (S : bytes) (evs : list ip_event) (r : IpReassembler) :
  ip_wf r -> datagrams r !! key = None -> Forall ip_event_ok evs -> Forall (cut_from key S) evs ->
  exists r' ds, ip_run alloc r evs = Ok (r', ds) /\ ip_wf r' /\
    forall d, d ∈ ds -> cd_key d = key -> exists h, cd_bytes d = h ++ S.
Proof.
  intros Hr Hnone Hok Hcut. assert (part_of key S r) as Hpart by (intros st Hst; congruence). clear Hnone.
  revert r Hr Hpart. induction evs as [|ev evs IH]; intros r Hr Hpart.
  { exists r, []. split_and!; try done. set_solver. }
  apply Forall_cons in Hok as [Hok Hoks]. apply Forall_cons in Hcut as [Hcut Hcuts].
  destruct (ip_apply_delivers alloc key S r ev Hr Hok Hcut Hpart) as (r1 & ds1 & E1 & Hw1 & Hp1 & Hd1).
  destruct (IH Hoks Hcuts r1 Hw1 Hp1) as (r2 & ds2 & E2 & Hw2 & Hd2).
  exists r2, (ds1 ++ ds2). cbn [ip_run]. rewrite E1, Ok_bind, E2, Ok_bind. split_and!; try done.
  intros d [Hd|Hd]%elem_of_app; auto.
Qed.

(** A fragment whose payload is a slice of [S] at its offset is cut from it. *)
Lemma slice_cut S f now external_charge :
  0 <= fragment_units f ->
  fragment_payload f = zslice (8 * fragment_units f) (8 * fragment_units f + zlen (fragment_payload f)) S ->
  (fragment_more f = false -> 8 * fragment_units f + zlen (fragment_payload f) = zlen S) ->
  cut_from (fragment_key f) S (EvPush f now external_charge).
Proof.
  intros Hu Hs Hm _. split; [|done]. intros i b Hv. unfold frag_view in Hv. rewrite Hs in Hv.
  pose proof (zget_Some_lt _ _ _ Hv) as [H0 _]. rewrite zget_zslice in Hv by lia. case_match; [|done].
  by replace (8 * fragment_units f + (i - 8 * fragment_units f)) with i in Hv by lia.
Qed.

Definition demo_payload : bytes := zrep 16 1 ++ zrep 8 2 ++ [9; 8; 7].

(** The last piece, a stale clock, the first twice, then the middle. *)
Definition demo_events : list ip_event :=
  [EvPush demo_last 5 0; EvExpire 4; EvPush demo_first 6 0; EvPush demo_first 7 0; EvPush demo_middle 8 0].

Lemma ip_reassembles_witness :
  exists r' ds, ip_run demo_alloc (demo_new PolicyReject) demo_events = Ok (r', ds) /\ zlen ds = 1 /\
    forall d, d ∈ ds -> cd_key d = Key4 demo_key -> exists h, cd_bytes d = h ++ demo_payload.
Proof.
  destruct demo_fragments_ok as (H1 & _ & H3).
  assert (ip_wf (demo_new PolicyReject)) as Hw.
  { apply (ip_reachable_wf 0 IpLimits_default PolicyReject); [apply default_limits_ok|apply demo_new_reachable]. }
  destruct (ip_reassembles demo_alloc (Key4 demo_key) demo_payload demo_events (demo_new PolicyReject) Hw eq_refl)
    as (r' & ds & E & _ & Hd).
  - pose proof demo_middle_ok. repeat apply Forall_cons_2; try apply Forall_nil_2; cbn; auto with lia.
  - assert (forall now ext, cut_from (Key4 demo_key) demo_payload (EvPush demo_last now ext) /\
      cut_from (Key4 demo_key) demo_payload (EvPush demo_first now ext) /\
      cut_from (Key4 demo_key) demo_payload (EvPush demo_middle now ext)) as Hc.
    { intros now ext. split_and!.
      - exact (slice_cut demo_payload demo_last now ext ltac:(vm_compute; done) eq_refl ltac:(reflexivity)).
      - exact (slice_cut demo_payload demo_first now ext ltac:(vm_compute; done) eq_refl ltac:(discriminate)).
      - exact (slice_cut demo_payload demo_middle now ext ltac:(vm_compute; done) eq_refl ltac:(discriminate)). }
    repeat apply Forall_cons_2; try apply Forall_nil_2; try exact I; apply Hc.
  - exists r', ds. split; [exact E|]. split; [|exact Hd].
    assert (match ip_run demo_alloc (demo_new PolicyReject) demo_events with Ok (_, ds) => zlen ds | _ => 0 end = 1) as Hz
      by (by vm_compute).
    by rewrite E in Hz.
Defined.

(** ** Retirement *)

Lemma zlen_fmap {A B} (g : A -> B) l : zlen (g <$> l) = zlen l.
Proof. unfold zlen. by rewrite length_fmap. Qed.

Lemma count_family_total keys : count_family FamilyIpv4 keys + count_family FamilyIpv6 keys = zlen keys.
Proof.
  induction keys as [|k keys IH] using rev_ind; [done|]. rewrite !count_family_snoc, zlen_app. change (zlen [k]) with 1.
  unfold of_family. destruct (DatagramKey_family k); cbn [from_bool]; lia.
Qed.

Lemma count_family_nonneg family keys : 0 <= count_family family keys.
Proof. apply zlen_nonneg. Qed.

(** Every datagram retired is in the report, itself or as a count. *)
Lemma report_total kept omitted :
  zlen omitted <= u64_max ->
  let t := report kept omitted in zlen (outcomes t) + omitted_ipv4 t + omitted_ipv6 t = zlen kept + zlen omitted.
Proof.
  intros Hl. cbn. pose proof (count_family_total omitted). pose proof (count_family_nonneg FamilyIpv4 omitted).
  pose proof (count_family_nonneg FamilyIpv6 omitted). lia.
Qed.

Lemma incompletes_length reason (m : dmap) keys :
  (forall k, k ∈ keys -> is_Some (m !! k)) -> zlen (incompletes reason m keys) = zlen keys.
Proof.
  intros H. unfold incompletes. induction keys as [|k keys IH]; [done|]. cbn [omap list_omap].
  destruct (H k) as [st ->]; [set_solver|]. cbn. rewrite !zlen_cons, IH by set_solver. done.
Qed.

Lemma keys_bound (m : dmap) keys :
  NoDup keys -> (forall k, k ∈ keys -> is_Some (m !! k)) -> zlen keys <= Z.of_nat (size m).
Proof.
  intros Hnd Hin. rewrite <-map_keys_length. unfold zlen. apply inj_le, submseteq_length, NoDup_submseteq; [done|].
  intros k Hk. destruct (Hin k Hk) as [st Hst]. apply list_elem_of_fmap. exists (k, st). split; [done|].
  by apply elem_of_map_to_list.
Qed.

Lemma ip_wf_size r : ip_wf r -> Z.of_nat (size (datagrams r)) <= u64_max.
Proof. intros Hr. pose proof (iw_count _ Hr). destruct (il_datagrams _ (iw_limits _ Hr)). unfold usize_max in *. lia. Qed.

(** [expire] removes exactly the datagrams whose deadline has passed and
    reports each of them once: those the report has room for with their
    counters, the rest by family. *)
Theorem ip_expire_exact (r : IpReassembler) (now : Z) :
  ip_wf r ->
  exists keys r' t, ip_expire r now = Ok (r', t) /\ NoDup keys /\
    (forall k, k ∈ keys <-> exists st, datagrams r !! k = Some st /\ past_deadline dg_deadline now st) /\
    (forall k, datagrams r' !! k = if decide (k ∈ keys) then None else datagrams r !! k) /\
    outcomes t = ztake (max_retained_outcomes (ip_limits r)) (incompletes IdleExpired (datagrams r) keys) /\
    zlen (outcomes t) + omitted_ipv4 t + omitted_ipv6 t = zlen keys /\ ip_wf r'.
Proof.
  intros Hr. destruct (ip_expire_spec r now Hr) as (keys & r' & Hnd & Hk & E & Hd & Hw & _).
  exists keys, r'. eexists. split; [exact E|]. split_and!; try done.
  - intros k. rewrite Hd. destruct (dropped keys (datagrams r) !! k) as [st|] eqn:El.
    + apply dropped_lookup in El as [El Hn]. by rewrite decide_False.
    + destruct (decide (k ∈ keys)) as [|Hn]; [done|]. destruct (datagrams r !! k) as [st|] eqn:Ek; [|done].
      exfalso. assert (dropped keys (datagrams r) !! k = Some st) by (by apply dropped_lookup). congruence.
  - assert (forall k, k ∈ keys -> is_Some (datagrams r !! k)) as Hin by (intros k (st & -> & _)%Hk; by eexists).
    pose proof (keys_bound _ _ Hnd Hin). pose proof (ip_wf_size r Hr). rewrite report_total.
    + rewrite zlen_fmap, <-zlen_app, ztake_zdrop_app. by apply incompletes_length.
    + rewrite zlen_fmap, zlen_zdrop, (incompletes_length _ _ _ Hin). lia.
Qed.

Lemma ip_expire_exact_witness :
  exists keys r' t, ip_expire (demo_state PolicyFirst) 30000000006 = Ok (r', t) /\
    Key4 demo_key ∈ keys /\ zlen (outcomes t) + omitted_ipv4 t + omitted_ipv6 t = zlen keys.
Proof.
  destruct (ip_expire_exact (demo_state PolicyFirst) 30000000006 (demo_state_wf PolicyFirst))
    as (keys & r' & t & E & _ & Hk & _ & _ & Ht & _).
  exists keys, r', t. split; [exact E|]. split; [|exact Ht]. apply Hk. eexists. split; [vm_compute; reflexivity|].
  eexists. split; [vm_compute; reflexivity|done].
Defined.

(** [flush] empties the reassembler and reports every datagram once: the
    first [max_retained_outcomes] keys in key order with their counters, the rest
    by family.  The report does not depend on the order in which the hash map is
    visited. *)
Theorem ip_flush_exact (order order' : list DatagramKey)
  (drain drain' : gmap DatagramKey DatagramState -> list (DatagramKey * DatagramState)) (r : IpReassembler) :
  ip_wf r ->
  order ≡ₚ (map_to_list (datagrams r)).*1 -> (forall m, drain m ≡ₚ map_to_list m) ->
  order' ≡ₚ (map_to_list (datagrams r)).*1 -> (forall m, drain' m ≡ₚ map_to_list m) ->
  exists kept omitted r' t, ip_flush order drain r = Ok (r', t) /\
    flush_split (max_retained_outcomes (ip_limits r)) (datagrams r) kept omitted /\
    outcomes t = incompletes EndOfCapture (datagrams r) kept /\
    zlen (outcomes t) + omitted_ipv4 t + omitted_ipv6 t = Z.of_nat (size (datagrams r)) /\
    datagrams r' = ∅ /\ aggregate_payload_bytes r' = 0 /\ ip_wf r' /\
    exists r'', ip_flush order' drain' r = Ok (r'', t).
Proof.
  intros Hr Ho Hd Ho' Hd'.
  destruct (ip_flush_spec order drain r Hr Ho Hd) as (kept & om & r' & Hs & E & Hdg & Hrt & Hw & _).
  destruct (ip_flush_spec order' drain' r Hr Ho' Hd') as (kept' & om' & r'' & Hs' & E' & _).
  destruct (flush_split_unique _ _ _ _ _ _ Hs Hs') as [<- Hp].
  assert (report (incompletes EndOfCapture (datagrams r) kept) om' = report (incompletes EndOfCapture (datagrams r) kept) om) as Et.
  { unfold report. by rewrite !(count_family_perm _ _ _ Hp). }
  rewrite Et in E'. exists kept, om, r'. eexists. split; [exact E|]. split_and!; try done.
  - pose proof (fs_keys _ _ _ _ Hs) as Hk. apply Permutation_length in Hk. pose proof (map_keys_length (datagrams r)) as Hkl.
    rewrite length_app in Hk. pose proof (ip_wf_size r Hr). rewrite report_total by (unfold zlen in *; lia).
    rewrite incompletes_length; [unfold zlen in *; lia|]. intros k Hin.
    assert (k ∈ (map_to_list (datagrams r)).*1) as Hx by (rewrite <-(fs_keys _ _ _ _ Hs); set_solver).
    apply list_elem_of_fmap in Hx as ([k' st] & -> & Hx%elem_of_map_to_list). by eexists.
  - unfold aggregate_payload_bytes. by rewrite Hrt.
  - by exists r''.
Qed.

Definition demo_two : IpReassembler := pushed (demo_state PolicyFirst) (demo_fragment6 0 true (zrep 8 5)) 9.

Lemma demo_two_wf : ip_wf demo_two.
Proof.
  apply (ip_reachable_wf 0 IpLimits_default PolicyFirst); [apply default_limits_ok|].
  exact (pushed_reachable PolicyFirst _ _ 9 (proj1 demo_fragment6_ok) (demo_state_reachable PolicyFirst)).
Qed.

Lemma ip_flush_exact_witness :
  exists r' r'' t, ip_flush (map_to_list (datagrams demo_two)).*1 map_to_list demo_two = Ok (r', t) /\
    ip_flush (rev (map_to_list (datagrams demo_two)).*1) (fun m => rev (map_to_list m)) demo_two = Ok (r'', t) /\
    zlen (outcomes t) + omitted_ipv4 t + omitted_ipv6 t = 2.
Proof.
  destruct (ip_flush_exact (map_to_list (datagrams demo_two)).*1 (rev (map_to_list (datagrams demo_two)).*1)
    map_to_list (fun m => rev (map_to_list m)) demo_two demo_two_wf (Permutation_refl _) (fun m => Permutation_refl _)
    (Permutation_sym (Permutation_rev _)) (fun m => Permutation_sym (Permutation_rev _)))
    as (kept & om & r' & t & E & _ & _ & Ht & _ & _ & _ & r'' & E').
  exists r', r'', t. split; [exact E|]. split; [exact E'|]. rewrite Ht. by vm_compute.
Defined.
