(* ===== verification/IpDecisions.v ===== *)
(** * IP reassembly: the decisions of a push

    The congestion marking accumulated, the storage chosen, the fragments
    refused and the walk to the Fragment header of an IPv6 prefix. *)

From stdpp Require Import base tactics option list numbers gmap strings.
From Stdlib Require Import ZArith Lia.
From S2P Require Import Prelude Checksum Ordered Flow Headers HeadersProofs.
From S2P Require Import IpModel IpValidate IpMerge IpReconstruct IpEngine IpRanges IpApply IpFragment IpRebuild.
From S2P Require Import IpCharge IpPush IpTheorems.

(** ** Congestion markings *)

(** The markings of a datagram's fragments, merged in order of arrival. *)
Definition ecn_fold (first : Ecn) (rest : list Ecn) : outcome IpMalformed Ecn :=
  foldl (fun acc e => a ← acc; Ecn_merge a e) (Ok first) rest.

(** RFC 3168 section 5.3 on the set of markings seen. *)
Definition ecn_of_set (seen : list Ecn) : outcome IpMalformed Ecn :=
  if bool_decide (Ce ∈ seen) && bool_decide (NotEct ∈ seen) then Err InconsistentEcn
  else if bool_decide (Ce ∈ seen) then Ok Ce
  else if bool_decide (NotEct ∈ seen) then Ok NotEct
  else if bool_decide (Ect0 ∈ seen) then Ok Ect0
  else Ok Ect1.

Lemma ecn_of_set_perm seen seen' : seen ≡ₚ seen' -> ecn_of_set seen = ecn_of_set seen'.
Proof.
  intros H. unfold ecn_of_set.
  assert (forall e, bool_decide (e ∈ seen) = bool_decide (e ∈ seen')) as E.
  { intros e. apply bool_decide_ext. by rewrite H. }
  by rewrite !E.
Qed.

Lemma ecn_of_set_snoc seen e :
  seen <> [] -> (a ← ecn_of_set seen; Ecn_merge a e) = ecn_of_set (seen ++ [e]).
Proof.
  intros Hne. unfold ecn_of_set.
  assert (forall x, bool_decide (x ∈ seen ++ [e]) = bool_decide (x ∈ seen) || bool_decide (x = e)) as E.
  { intros x. apply eq_true_iff_eq. rewrite orb_true_iff, !bool_decide_eq_true. set_solver. }
  rewrite !E. destruct (bool_decide (Ce ∈ seen)) eqn:E1, (bool_decide (NotEct ∈ seen)) eqn:E2,
    (bool_decide (Ect0 ∈ seen)) eqn:E3; destruct e; try reflexivity; cbn.
  all: destruct seen as [|x seen]; [done|]; exfalso; destruct x;
    rewrite ?bool_decide_eq_false in *; set_solver.
Qed.

(** the congestion marking of a datagram is that of RFC 3168 for the set of
    its fragments' markings, and a mixture of CE and Not-ECT is an error,
    whatever the order in which the fragments arrive. *)
Theorem ecn_order_independent (first first' : Ecn) (rest rest' : list Ecn) :
  first :: rest ≡ₚ first' :: rest' ->
  ecn_fold first rest = ecn_of_set (first :: rest) /\ ecn_fold first rest = ecn_fold first' rest'.
Proof.
  assert (forall e l, ecn_fold e l = ecn_of_set (e :: l)) as Hspec.
  { intros e l. unfold ecn_fold. induction l as [|x l IH] using rev_ind; [by destruct e|].
    rewrite foldl_snoc, IH, ecn_of_set_snoc by done. done. }
  intros Hp. rewrite !Hspec. split; [done|]. by apply ecn_of_set_perm.
Qed.

Lemma ecn_order_independent_witness :
  ecn_fold Ect1 [Ect0; Ce] = ecn_of_set [Ect1; Ect0; Ce] /\ ecn_fold Ect1 [Ect0; Ce] = ecn_fold Ce [Ect1; Ect0].
Proof. apply (ecn_order_independent Ect1 Ce [Ect0; Ce] [Ect1; Ect0]). solve_Permutation. Defined.

(** ** The storage chosen *)

(** the storage a push settles on is the largest capacity up to the preferred
    one that the memory limit admits: it is admitted, and every larger capacity
    is refused by the limit; the binary search always ends. *)
Theorem ip_storage_largest (r : IpReassembler) (existing : option DatagramState) (inc : Incoming) (p : MergePlan)
  (final : option Z) (now external_charge required preferred : Z) :
  existing_wf (ip_limits r) (inc_key inc) existing -> incoming_ok (ip_limits r) inc ->
  plan_merge (ranges_of existing) inc = Ok p -> plan_final_length existing inc = Ok final ->
  0 <= required -> preferred <= u64_max ->
  let plan := storage_plan r (ranges_of existing) p in
  let charges_for := fun s => admit_charges r existing inc p s now external_charge in
  choose_storage plan charges_for required preferred <> Panic /\
  forall storage charges, choose_storage plan charges_for required preferred = Ok (storage, charges) ->
    exists capacity, capacity <= preferred /\ plan capacity = Ok storage /\ charges_for storage = Ok charges /\
      forall c, capacity < c <= preferred ->
        exists s limit, plan c = Ok s /\ charges_for s = Err (IpErrResource (AggregateMemoryLimit limit)).
Proof.
  intros Hex Hinc Hp Hfin Hreq Hpref plan charges_for.
  pose proof (existing_ranges_wf _ _ _ Hex) as Hw. pose proof (io_span _ _ Hinc) as Hsp.
  destruct (plan_merge_spec (ranges_of existing) inc Hw Hsp) as (p' & L & M & R & Hp' & Hm & _).
  rewrite Hp in Hp'. injection Hp' as <-.
  pose proof (push_storage_spec r existing inc p L M R final (recon_len (settled existing inc (inc_ecn inc))) now
    external_charge required preferred Hw Hsp Hm Hfin (retained_bytes_settled _ existing inc Hex Hinc _) Hreq Hpref) as Hs.
  fold plan charges_for in Hs. destruct (choose_storage plan charges_for required preferred) as [[s ch]|e|]; [|done|done].
  cbn [ends] in Hs. destruct Hs as (_ & _ & c & Hc & Hpl & Ha & Hbig). split; [done|]. intros storage charges [= <- <-].
  exists c. split_and!; try done. intros c' Hc'. destruct (Hbig c' Hc') as (s' & e & ? & He & Hag).
  destruct e as [[]| |]; try done. by exists s', limit.
Qed.

(** Room for the eight bytes that extend the first range, but not for twice its
    capacity: of 24 required and 32 preferred, 28 bytes can be had. *)
Definition tight_limits : IpLimits := mkIpLimits 16 16 65535 4288 16 30000000000.
Definition tight_state : IpReassembler :=
  pushed (mkIpReassembler tight_limits PolicyReject ∅ expiry_default (mkRetained 0 0 0)) demo_first 5.
Definition tight_fragment : Fragment := demo_fragment 2 true (zrep 8 2).

Lemma tight_limits_ok : ip_limits_ok tight_limits.
Proof. split; vm_compute; split; done. Qed.

Lemma tight_fragment_ok : fragment_ok tight_fragment.
Proof. split; vm_compute; try done; try (split; done); repeat constructor; done. Qed.

Lemma tight_state_wf : ip_wf tight_state.
Proof.
  apply (ip_reachable_wf 0 tight_limits PolicyReject); [apply tight_limits_ok|].
  apply pushed_reachable; [apply demo_fragments_ok|]. apply ip_reachable_new. reflexivity.
Qed.

Lemma ip_storage_largest_witness :
  exists existing inc p storage charges,
    validate_fragment tight_fragment tight_limits = Ok inc /\
    plan_merge (ranges_of existing) inc = Ok p /\
    choose_storage (storage_plan tight_state (ranges_of existing) p)
      (fun s => admit_charges tight_state existing inc p s 6 0) 24 32 = Ok (storage, charges) /\
    st_allocation storage = 28 /\
    exists capacity, capacity <= 32 /\ storage_plan tight_state (ranges_of existing) p capacity = Ok storage.
Proof.
  assert (exists existing inc p final storage charges,
    validate_fragment tight_fragment tight_limits = Ok inc /\
    datagrams tight_state !! inc_key inc = Some existing /\ plan_merge (ranges existing) inc = Ok p /\
    plan_final_length (Some existing) inc = Ok final /\
    choose_storage (storage_plan tight_state (ranges existing) p)
      (fun s => admit_charges tight_state (Some existing) inc p s 6 0) 24 32 = Ok (storage, charges) /\
    st_allocation storage = 28) as (st & inc & p & final & storage & charges & Hv & Hst & Hp & Hf & Hc & Ha).
  { do 6 eexists. do 5 (split; [vm_compute; reflexivity|]). reflexivity. }
  exists (Some st), inc, p, storage, charges. split; [exact Hv|]. split; [exact Hp|]. split; [exact Hc|]. split; [exact Ha|].
  pose proof (iw_datagrams _ tight_state_wf _ _ Hst) as Hw.
  pose proof (validate_fragment_spec tight_fragment tight_limits tight_fragment_ok) as Hs. rewrite Hv in Hs. destruct Hs as [Hi _].
  destruct (proj2 (ip_storage_largest tight_state (Some st) inc p final 6 0 24 32 Hw Hi Hp Hf
    (ltac:(lia) : 0 <= 24) (ltac:(vm_compute; done) : 32 <= u64_max)) storage charges Hc) as (c & H1 & H2 & _).
  exists c. split; [exact H1|exact H2].
Defined.

(** ** Conflicting fragments *)

(** Under [Reject], a fragment that passes every earlier check and disagrees
    with retained bytes is refused with [ConflictingOverlap], which names exactly
    the number of payload offsets that differ. *)
Theorem ip_conflict_rejected (alloc : ip_allocator) (r : IpReassembler) (f : Fragment) (now external_charge : Z)
  (inc : Incoming) (st : DatagramState) (ecn : Ecn) (final : option Z) :
  ip_wf r -> fragment_ok f -> overlap_policy r = PolicyReject ->
  validate_fragment f (ip_limits r) = Ok inc -> datagrams r !! fragment_key f = Some st ->
  fragment_count st < max_fragments_per_datagram (ip_limits r) ->
  validate_reconstruction_consistency (Some st) inc = Ok tt -> accumulated_ecn (Some st) inc = Ok ecn ->
  plan_final_length (Some st) inc = Ok final -> validate_family_wire_extent (Some st) inc final = Ok tt ->
  frag_conflicts (datagram_view r (fragment_key f)) f <> 0 ->
  ip_push_with_external_charge alloc r f now external_charge =
    Err (IpErrMalformed (ConflictingOverlap (frag_conflicts (datagram_view r (fragment_key f)) f))).
Proof.
  intros Hr Hf Hpol Hv Hst Hcount Hcons Hecn Hfin Hwire Hne.
  pose proof (validate_fragment_spec f (ip_limits r) Hf) as Hs. rewrite Hv in Hs. destruct Hs as [Hinc Hof].
  unfold ip_push_with_external_charge. rewrite Hv, Ok_bind. cbv zeta. rewrite (if_key _ _ Hof), Hst. cbn [is_none andb].
  pose proof (iw_datagrams _ Hr _ _ Hst) as Hw. cbn in Hw. destruct (dw_fragments _ _ _ Hw).
  destruct (il_fragments _ (iw_limits _ Hr)). cbn [from_option].
  rewrite (checked_add_ok _ (fragment_count st)) by lia. unfold at_most. cbn [mbind option_bind].
  rewrite (proj2 (Z.leb_le (fragment_count st + 1) _)) by lia. cbn [ok_or]. rewrite Ok_bind, Hcons, Ok_bind, Hecn, Ok_bind, Hfin, Ok_bind, Hwire, Ok_bind.
  destruct (plan_merge_spec (ranges st) inc (dw_ranges _ _ _ Hw) (io_span _ _ Hinc)) as (p & L & M & R & -> & Hm & _).
  rewrite Ok_bind. destruct (incoming_view f inc Hof) as [_ Hc]. destruct (Hc (rview (ranges st))) as [_ Hcf].
  assert (frag_conflicts (datagram_view r (fragment_key f)) f = mp_conflicting_bytes p) as E.
  { unfold datagram_view. rewrite Hst. cbn [ranges_of from_option]. by rewrite <-Hcf, (mo_conflicting _ _ _ _ _ _ Hm). }
  rewrite E in Hne |- *. rewrite (proj2 (Z.eqb_neq _ _) Hne), Hpol, bool_decide_true by done. done.
Qed.

Lemma ip_conflict_rejected_witness :
  exists c, c = 8 /\ ip_push_with_external_charge demo_alloc (demo_state PolicyReject) demo_second 7 0 =
    Err (IpErrMalformed (ConflictingOverlap c)).
Proof.
  assert (exists inc st ecn final,
    validate_fragment demo_second (ip_limits (demo_state PolicyReject)) = Ok inc /\
    datagrams (demo_state PolicyReject) !! fragment_key demo_second = Some st /\
    validate_reconstruction_consistency (Some st) inc = Ok tt /\ accumulated_ecn (Some st) inc = Ok ecn /\
    plan_final_length (Some st) inc = Ok final /\ validate_family_wire_extent (Some st) inc final = Ok tt /\
    (fragment_count st <? max_fragments_per_datagram (ip_limits (demo_state PolicyReject))) = true)
    as (inc & st & ecn & final & H1 & H2 & H3 & H4 & H5 & H6 & H7).
  { do 4 eexists. do 6 (split; [vm_compute; reflexivity|]). vm_compute. reflexivity. }
  exists (frag_conflicts (datagram_view (demo_state PolicyReject) (fragment_key demo_second)) demo_second).
  assert (frag_conflicts (datagram_view (demo_state PolicyReject) (fragment_key demo_second)) demo_second = 8) as E by (by vm_compute).
  split; [exact E|].
  assert (overlap_policy (demo_state PolicyReject) = PolicyReject) as Hpol by (by vm_compute).
  apply (ip_conflict_rejected demo_alloc (demo_state PolicyReject) demo_second 7 0 inc st ecn final
    (demo_state_wf PolicyReject) (proj1 (proj2 demo_fragments_ok)) Hpol H1 H2 (proj1 (Z.ltb_lt _ _) H7) H3 H4 H5 H6).
  rewrite E. lia.
Defined.

(** ** The Fragment header of an IPv6 prefix *)

(** One extension header followed: from the Next Header byte at [q], which
    announces [protocol] at [offset], to the one of that header. *)
Inductive ext_step (prefix : bytes) : Z * Z * Z -> Z * Z * Z -> Prop :=
| ext_step_walk q protocol offset length :
    is_walkable_ipv6_extension protocol = true ->
    ipv6_extension_header_length protocol (at_ prefix (offset + 1)) = Some length ->
    offset + length <= zlen prefix ->
    ext_step prefix (q, protocol, offset) (offset, at_ prefix offset, offset + length).

(** The chain of extension headers that starts behind the base header. *)
Definition ext_path (prefix : bytes) (q protocol offset : Z) : Prop :=
  rtc (ext_step prefix) (6, at_ prefix 6, IPV6_LENGTH) (q, protocol, offset).

Lemma at_zdrop_ztake l off n i : 0 <= off -> 0 <= i < n -> at_ (ztake n (zdrop off l)) i = at_ l (off + i).
Proof. intros Ho Hi. unfold at_. rewrite zget_ztake, (proj2 (Z.ltb_lt _ _)) by lia. by rewrite zget_zdrop by lia. Qed.

Lemma chain_step_inv c e :
  octets (ch_bytes c) -> zlen (ch_bytes c) <= ip_isize_max -> ch_protocol c <> FRAGMENT -> chain_step c = Ok e ->
  ext_offset e = ch_offset c /\ 8 <= ext_length e /\ ext_fragment e = None /\
  ext_next_header e = at_ (ch_bytes c) (ch_offset c) /\
  ipv6_extension_header_length (ch_protocol c) (at_ (ch_bytes c) (ch_offset c + 1)) = Some (ext_length e) /\
  ch_offset c + ext_length e <= zlen (ch_bytes c).
Proof.
  intros Ho Hl Hf He. pose proof (chain_step_spec c Ho ltac:(unfold u64_max, ip_isize_max in *; lia)) as Hs.
  rewrite He in Hs. cbn in Hs. destruct Hs as (Hof & H8 & Hend & Hn).
  unfold chain_step in He. rewrite (proj2 (Z.eqb_neq _ _) Hf) in He.
  destruct (get_from (ch_bytes c) (ch_offset c)) as [rest|] eqn:Eg; [|done]. cbn [mbind option_bind] in He.
  apply get_from_Some in Eg as [Hoff ->].
  destruct (first_chunk 2 _) as [pre|] eqn:Ep; [|done]. apply first_chunk_Some in Ep as [_ ->]. cbn [ok_or] in He.
  rewrite Ok_bind, at_zdrop_ztake in He by lia.
  destruct (ipv6_extension_header_length _ _) as [len|] eqn:El; [|done]. cbn [ok_or] in He. rewrite Ok_bind in He.
  inv_ok He. inv_ok He. cbn in He. inv_ok He. injection He as <-. cbn in *. split_and!; try done. unfold at_. by rewrite Hn.
Qed.

Lemma chain_step_ok c len :
  octets (ch_bytes c) -> zlen (ch_bytes c) <= ip_isize_max -> ch_protocol c <> FRAGMENT -> 0 <= ch_offset c ->
  ipv6_extension_header_length (ch_protocol c) (at_ (ch_bytes c) (ch_offset c + 1)) = Some len ->
  ch_offset c + len <= zlen (ch_bytes c) -> exists e, chain_step c = Ok e.
Proof.
  intros Ho Hl Hf Hoff Hlen Hend.
  assert (0 <= at_ (ch_bytes c) (ch_offset c + 1) < 256) as Hb by (by apply octets_at).
  pose proof (extension_length_bounds _ _ _ Hb Hlen) as H8.
  unfold chain_step. rewrite (proj2 (Z.eqb_neq _ _) Hf).
  assert (get_from (ch_bytes c) (ch_offset c) = Some (zdrop (ch_offset c) (ch_bytes c))) as ->.
  { unfold get_from. rewrite get_range_ok by lia. f_equal. unfold zslice. apply ztake_all. rewrite zlen_zdrop. lia. }
  cbn [mbind option_bind].
  assert (first_chunk 2 (zdrop (ch_offset c) (ch_bytes c)) = Some (ztake 2 (zdrop (ch_offset c) (ch_bytes c)))) as ->.
  { apply first_chunk_Some. rewrite zlen_zdrop. split; [lia|done]. }
  cbn [ok_or]. rewrite Ok_bind, at_zdrop_ztake, Hlen by lia. cbn [ok_or]. rewrite Ok_bind.
  rewrite add_u_ok, Ok_bind by (unfold u64_max, ip_isize_max in *; lia). rewrite get_range_ok by lia. cbn [ok_or].
  rewrite !Ok_bind. destruct (@index_safe HeaderError (zslice (ch_offset c) (ch_offset c + len) (ch_bytes c)) 0) as [b ->].
  { rewrite zlen_zslice by lia. lia. }
  by eexists.
Qed.

Lemma ext_step_inv prefix q protocol offset x :
  ext_step prefix (q, protocol, offset) x ->
  protocol <> FRAGMENT /\ is_walkable_ipv6_extension protocol = true /\
  exists length, ipv6_extension_header_length protocol (at_ prefix (offset + 1)) = Some length /\
    offset + length <= zlen prefix /\ x = (offset, at_ prefix offset, offset + length).
Proof. intros H. inversion H; subst. split; [by intros ->|]. split; [done|]. by eexists. Qed.

(** The loop follows the chain and answers its last Next Header byte. *)
Lemma predecessor_loop_exact prefix : octets prefix -> zlen prefix <= ip_isize_max ->
  forall fuel c q,
  ch_bytes c = prefix -> ch_done c = false -> ch_limit c = zlen prefix / 8 ->
  0 <= ch_taken c -> IPV6_LENGTH + 8 * ch_taken c <= ch_offset c <= zlen prefix ->
  ch_limit c - ch_taken c + 1 <= Z.of_nat fuel ->
  exists o, predecessor_loop fuel c q (zlen prefix) = Ok o /\
    forall q', o = Some q' <-> rtc (ext_step prefix) (q, ch_protocol c, ch_offset c) (q', FRAGMENT, zlen prefix).
Proof.
  intros Ho Hlen. induction fuel as [|fuel IH]; intros c q Hb Hdone Hlim Htk0 Hoff Hf.
  { pose proof (Z.div_mod (zlen prefix) 8 ltac:(lia)). pose proof (Z.mod_pos_bound (zlen prefix) 8 ltac:(lia)).
    unfold IPV6_LENGTH in *. lia. }
  cbn [predecessor_loop chain_position].
  assert (forall q', (~ exists x, ext_step prefix (q, ch_protocol c, ch_offset c) x) ->
    rtc (ext_step prefix) (q, ch_protocol c, ch_offset c) (q', FRAGMENT, zlen prefix) <->
    q' = q /\ ch_protocol c = FRAGMENT /\ ch_offset c = zlen prefix) as Hstop.
  { intros q' Hno. split; [intros H%rtc_inv; destruct H as [[= ]|(x & Hx & _)]; [done|exfalso; eauto]|intros (-> & -> & ->); apply rtc_refl]. }
  destruct (Z.eqb_spec (ch_protocol c) FRAGMENT) as [Hfr|Hfr].
  { eexists. split; [reflexivity|]. intros q'. rewrite Hstop.
    - destruct (Z.eqb_spec (ch_offset c) (zlen prefix)); naive_solver.
    - intros [x (Hx & _)%ext_step_inv]. done. }
  unfold chain_next. rewrite Hdone, (proj2 (Z.eqb_neq _ _) Hfr). cbn [orb].
  destruct (is_walkable_ipv6_extension (ch_protocol c)) eqn:Ew; cbn [negb].
  2:{ eexists. split; [reflexivity|]. intros q'. rewrite Hstop; [naive_solver|]. intros [x (_ & Hx & _)%ext_step_inv]. congruence. }
  assert (ch_taken c < ch_limit c) as Htk.
  { rewrite Hlim. pose proof (Z.div_mod (zlen prefix) 8 ltac:(lia)). pose proof (Z.mod_pos_bound (zlen prefix) 8 ltac:(lia)).
    unfold IPV6_LENGTH in *. lia. }
  rewrite (proj2 (Z.leb_gt _ _)) by done.
  pose proof (chain_step_spec c ltac:(by rewrite Hb) ltac:(rewrite Hb; unfold u64_max, ip_isize_max in *; lia)) as Hsafe.
  destruct (chain_step c) as [e|e|] eqn:Es; [| |done].
  - destruct (chain_step_inv c e ltac:(by rewrite Hb) ltac:(by rewrite Hb) Hfr Es) as (He & H8 & Hnf & Hn & Hl & Hend).
    rewrite Hb in Hn, Hl, Hend. unfold ext_fragment_offset. rewrite Hnf. cbn [fmap option_fmap option_map].
    unfold ext_range. cbn [fst]. rewrite He.
    destruct (IH (mkChain (ch_bytes c) (ext_next_header e) (ch_offset c + ext_length e) (ch_limit c) (ch_taken c + 1) false)
      (ch_offset c)) as (o & Eo & Hq); cbn [ch_bytes ch_done ch_limit ch_taken ch_offset]; try done; try lia.
    exists o. split; [done|]. intros q'. rewrite Hq. cbn [ch_protocol ch_offset]. rewrite Hn.
    assert (ext_step prefix (q, ch_protocol c, ch_offset c)
      (ch_offset c, at_ prefix (ch_offset c), ch_offset c + ext_length e)) as Hstep by (by apply ext_step_walk).
    split; [intros; by eapply rtc_l|]. intros H%rtc_inv. destruct H as [[= ]|(x & Hx & Hr)]; [done|].
    apply ext_step_inv in Hx as (_ & _ & len & Hl' & _ & ->). rewrite Hl in Hl'. by injection Hl' as <-.
  - eexists. split; [reflexivity|]. intros q'. rewrite Hstop; [naive_solver|].
    intros [x (_ & _ & len & Hl & Hend & _)%ext_step_inv].
    destruct (chain_step_ok c len) as [e' He']; rewrite ?Hb; try done; [unfold IPV6_LENGTH in *; lia|congruence].
Qed.

Lemma fragment_predecessor_exact (prefix : bytes) :
  octets prefix -> zlen prefix <= ip_isize_max ->
  exists o, ipv6_fragment_predecessor prefix = Ok o /\
    forall q, o = Some q <-> IPV6_LENGTH <= zlen prefix /\ ext_path prefix q FRAGMENT (zlen prefix).
Proof.
  intros Ho Hlen. unfold ipv6_fragment_predecessor. destruct (first_chunk IPV6_LENGTH prefix) as [base|] eqn:E.
  - apply first_chunk_Some in E as [Hl ->]. pose proof (Z.div_pos (zlen prefix) 8 (zlen_nonneg _) ltac:(lia)).
    assert (at_ (ztake IPV6_LENGTH prefix) 6 = at_ prefix 6) as ->.
    { unfold at_. by rewrite zget_ztake. }
    destruct (predecessor_loop_exact prefix Ho Hlen (Z.to_nat (zlen prefix / 8) + 2)
      (chain_with_ceiling (chain_new prefix IPV6_LENGTH (at_ prefix 6)) (zlen prefix / 8)) 6) as (o & -> & Hq);
      cbn [chain_with_ceiling chain_new ch_bytes ch_done ch_limit ch_taken ch_offset]; try done; try lia.
    exists o. split; [done|]. intros q. rewrite Hq. cbn. unfold ext_path. naive_solver.
  - exists None. split; [done|]. intros q. split; [done|]. intros [Hl _]. unfold first_chunk in E.
    destruct (Z.ltb_spec (zlen prefix) IPV6_LENGTH); [lia|done].
Qed.

(** the walk over an IPv6 prefix always ends, and it answers the offset of a
    Next Header byte exactly when the chain of extension headers leads from the
    base header to a Fragment header that starts where the prefix ends. *)
Theorem ipv6_predecessor_exact (prefix : bytes) :
  octets prefix -> zlen prefix <= ip_isize_max ->
  exists o, ipv6_fragment_predecessor prefix = Ok o /\
    forall q, o = Some q <-> IPV6_LENGTH <= zlen prefix /\ ext_path prefix q FRAGMENT (zlen prefix).
Proof. apply fragment_predecessor_exact. Qed.

(** A Hop-by-Hop header of eight bytes, then the Fragment header. *)
Definition demo_extended : bytes :=
  [96; 0; 0; 0; 0; 24; 0; 64] ++ zrep 32 0 ++ [44; 0; 1; 4; 0; 0; 0; 0].

Lemma ipv6_predecessor_exact_witness :
  ipv6_fragment_predecessor demo_extended = Ok (Some 40) /\ ext_path demo_extended 40 FRAGMENT 48.
Proof.
  assert (ipv6_fragment_predecessor demo_extended = Ok (Some 40)) as E by reflexivity. split; [exact E|].
  destruct (ipv6_predecessor_exact demo_extended) as (o & Eo & Hq).
  - apply Forall_forall. intros x Hx. assert (forallb (fun x => (0 <=? x) && (x <? 256)) demo_extended = true) as Hall by reflexivity.
    rewrite forallb_forall in Hall. specialize (Hall x (proj1 (list_elem_of_In _ _) Hx)).
    apply andb_true_iff in Hall as [H1 H2]. apply Z.leb_le in H1. apply Z.ltb_lt in H2. split; assumption.
  - vm_compute. done.
  - rewrite E in Eo. injection Eo as <-. exact (proj2 (proj1 (Hq 40) eq_refl)).
Defined.
