(* ===== verification/IpPieces.v ===== *)
(** * IP reassembly: a datagram cut into pieces

    Pieces of one payload, pushed in any order: each is refused only for want of
    resources, none completes the datagram before the last, and the last does. *)

From stdpp Require Import base tactics option list numbers gmap strings.
From Stdlib Require Import ZArith Lia.
From S2P Require Import Prelude Checksum Ordered Flow Headers HeadersProofs.
From S2P Require Import IpModel IpValidate IpMerge IpReconstruct IpEngine IpRanges IpApply IpFragment IpRebuild.
From S2P Require Import IpCharge IpPush IpRetire IpTheorems IpDelivery.

(** ** Pieces *)

Definition frag_end (f : Fragment) : Z := 8 * fragment_units f + zlen (fragment_payload f).
Definition in_span (f : Fragment) (i : Z) : Prop := 8 * fragment_units f <= i < frag_end f.

(** A fragment of [key] that carries its part of [S]. *)
Record piece (key : DatagramKey) (S : bytes) (f : Fragment) : Prop := {
  pc_key : fragment_key f = key;
  pc_ok : fragment_ok f;
  pc_payload : fragment_payload f = zslice (8 * fragment_units f) (frag_end f) S;
  pc_nonempty : 0 < zlen (fragment_payload f);
  pc_end : frag_end f <= zlen S;
  pc_more : fragment_more f = (frag_end f <? zlen S)
}.

Definition kept_by (kept : Reconstruction -> Prop) (existing : option DatagramState) : Prop :=
  from_option (fun st => kept (reconstruction st)) True existing.

(** What the headers of the pieces of one datagram promise the engine: the pieces
    in [good] are read as [incoming], they agree with every header in [kept], and
    what is kept after one of them is in [kept] again. *)
Class CutDatagram (key : DatagramKey) (S : bytes) (good : Fragment -> Prop) (incoming : Fragment -> Incoming)
  (kept : Reconstruction -> Prop) : Prop := {
  cut_piece : forall f, good f -> piece key S f;
  cut_validates : forall f lim, good f -> validate_fragment f lim =
    if max_bytes_per_datagram lim <? frag_end f
    then ip_resource (DatagramByteLimit (max_bytes_per_datagram lim)) else Ok (incoming f);
  cut_incoming : forall f, good f -> incoming_of f (incoming f) /\ inc_end (incoming f) = frag_end f;
  cut_consistent : forall f existing, good f -> kept_by kept existing ->
    validate_reconstruction_consistency existing (incoming f) = Ok tt;
  cut_ecn : forall f existing, good f -> kept_by kept existing ->
    exists ecn, accumulated_ecn existing (incoming f) = Ok ecn /\ kept (settled existing (incoming f) ecn);
  cut_wire : forall lim f existing final, good f -> kept_by kept existing -> existing_wf lim key existing ->
    wire_extent existing (incoming f) final <= zlen S ->
    validate_family_wire_extent existing (incoming f) final = Ok tt
}.

(** Fragments pushed one after the other, with the clock at each; the first error
    ends it. *)
Fixpoint ip_push_all (alloc : ip_allocator) (r : IpReassembler) (l : list (Fragment * Z))
  : outcome IpError (IpReassembler * list PushOutcome) :=
  match l with
  | [] => Ok (r, [])
  | (f, now) :: l =>
      '(r, out) ← ip_push alloc r f now;
      '(r, outs) ← ip_push_all alloc r l;
      Ok (r, out :: outs)
  end.

Section pieces.
Context (alloc : ip_allocator) (key : DatagramKey) (S : bytes) (good : Fragment -> Prop) (incoming : Fragment -> Incoming)
  (kept : Reconstruction -> Prop) `{Hcut : CutDatagram key S good incoming kept}.

(** What the datagram retains once the pieces [pushed] are in. *)
Record holds (pushed : list Fragment) (st : DatagramState) : Prop := {
  hd_part : forall i b, rview (ranges st) i = Some b -> zget S i = Some b;
  hd_cover : forall i, is_Some (rview (ranges st) i) <-> exists f, f ∈ pushed /\ in_span f i;
  hd_final : forall n, final_length st = Some n -> n = zlen S;
  hd_last : forall f, f ∈ pushed -> fragment_more f = false -> final_length st = Some (zlen S);
  hd_more : forall e, max_non_final_end st = Some e -> e < zlen S;
  hd_kept : kept (reconstruction st)
}.

Definition progress (pushed : list Fragment) (r : IpReassembler) : Prop :=
  match datagrams r !! key with Some st => holds pushed st | None => pushed = [] end.

Lemma piece_view f i : good f ->
  (forall b, frag_view f i = Some b -> zget S i = Some b) /\ (is_Some (frag_view f i) <-> in_span f i).
Proof.
  intros Hg. destruct (cut_piece f Hg) as [_ Hok Hp Hn He _]. pose proof (fk_units _ Hok). unfold frag_view, in_span.
  assert (zlen (fragment_payload f) = frag_end f - 8 * fragment_units f) as Hl by (unfold frag_end; lia). split.
  - intros b Hb. pose proof (zget_Some_lt _ _ _ Hb). rewrite Hp, zget_zslice in Hb by lia. case_match; [|done].
    by replace (8 * fragment_units f + (i - 8 * fragment_units f)) with i in Hb by lia.
  - split.
    + intros [b Hb]. apply zget_Some_lt in Hb. lia.
    + intros Hi. apply zget_lt_is_Some. lia.
Qed.

Section one.
Context (pushed : list Fragment) (r : IpReassembler) (f : Fragment) (Hr : ip_wf r) (Hp : progress pushed r) (Hg : good f).

#[local] Notation existing := (datagrams r !! key).

Lemma progress_kept : kept_by kept existing.
Proof. unfold progress, kept_by in *. destruct existing; [|done]. apply Hp. Qed.

Lemma progress_existing : existing_wf (ip_limits r) key existing.
Proof. destruct existing as [st|] eqn:E; [|done]. by apply (iw_datagrams _ Hr). Qed.

Lemma progress_view i :
  (forall b, rview (ranges_of existing) i = Some b -> zget S i = Some b) /\
  (is_Some (rview (ranges_of existing) i) <-> exists g, g ∈ pushed /\ in_span g i).
Proof.
  unfold progress in Hp. destruct existing as [st|]; cbn.
  - split; [apply Hp|apply (hd_cover _ _ Hp)].
  - rewrite Hp. split; [done|]. split; [by intros []|]. intros (g & Hgn & _). by apply elem_of_nil in Hgn.
Qed.

Lemma after_progress i :
  (forall b, after r f i = Some b -> zget S i = Some b) /\
  (is_Some (after r f i) <-> exists g, g ∈ f :: pushed /\ in_span g i).
Proof.
  destruct (progress_view i) as [V1 V2], (piece_view f i Hg) as [F1 F2].
  unfold after, datagram_view. rewrite (pc_key _ _ _ (cut_piece f Hg)). split.
  - intros b Hb. unfold merged_view in Hb.
    destruct (overlap_policy r), (rview _ i) eqn:Er, (frag_view f i) eqn:Ef; cbn in Hb; simplify_eq; auto.
  - rewrite merged_view_Some, V2, F2. split.
    + intros [(g & Hin & Hi)|Hi]; [by exists g; split; [right|]|by exists f; split; [left|]].
    + intros (g & [->|Hin]%elem_of_cons & Hi); [by right|]. left. by exists g.
Qed.

Lemma retained_end_bound : from_option (fun st => ranges_end (-1) (ranges st)) 0 existing <= zlen S.
Proof.
  pose proof progress_existing as Hex. destruct existing as [st|] eqn:E; cbn in *; [|apply zlen_nonneg].
  destruct (rview_last _ _ (dw_ranges _ _ _ Hex) (dw_nonempty _ _ _ Hex)) as [b Hb].
  pose proof (progress_view (ranges_end (-1) (ranges st) - 1)) as [V _]. rewrite E in V. cbn in V.
  apply V, zget_Some_lt in Hb. lia.
Qed.

(** The final length the engine settles on is that of [S], or still unknown. *)
Lemma progress_final :
  plan_final_length existing (incoming f) =
    Ok (if fragment_more f then existing ≫= final_length else Some (zlen S)).
Proof.
  destruct (cut_incoming f Hg) as [Hof Hend]. pose proof (cut_piece f Hg) as Hpc.
  pose proof (pc_end _ _ _ Hpc) as He. pose proof (pc_more _ _ _ Hpc) as Hm.
  pose proof retained_end_bound as Hre. pose proof progress_existing as Hex.
  assert (forall n, existing ≫= final_length = Some n -> n = zlen S) as Hn.
  { unfold progress in Hp. destruct existing as [st|]; [|done]. apply Hp. }
  assert (forall e, existing ≫= max_non_final_end = Some e -> e < zlen S) as Hnf.
  { unfold progress in Hp. destruct existing as [st|]; [|done]. apply Hp. }
  unfold plan_final_length. rewrite (retained_last_end_spec _ _ _ Hex), (if_more _ _ Hof), Hend.
  assert (forall b, (b = true -> frag_end f < zlen S) -> match Some (zlen S) with
    | Some n => if match existing ≫= max_non_final_end with Some e => e =? n | None => false end
                then malformed (NonFinalAtFinalLength n) else
                if (n <? frag_end f) || match match existing with Some st => Some (ranges_end (-1) (ranges st)) | None => None end
                                        with Some e => n <? e | None => false end
                then malformed (BeyondFinalLength n) else
                if b && (n <=? frag_end f) then malformed (NonFinalAtFinalLength n) else Ok (Some n)
    | None => Ok None end = Ok (Some (zlen S))) as Hchecks.
  { intros b Hb. assert (match existing ≫= max_non_final_end with Some e => e =? zlen S | None => false end = false) as ->.
    { destruct (existing ≫= max_non_final_end) as [e|] eqn:En; [|done]. apply Z.eqb_neq. specialize (Hnf e eq_refl). lia. }
    rewrite (proj2 (Z.ltb_ge _ _)) by lia. cbn [orb].
    assert (match match existing with Some st => Some (ranges_end (-1) (ranges st)) | None => None end
      with Some e => zlen S <? e | None => false end = false) as ->.
    { destruct existing; [|done]. cbn in Hre. by apply Z.ltb_ge. }
    destruct b; [|done]. rewrite (proj2 (Z.leb_gt _ _)) by auto. done. }
  destruct (fragment_more f) eqn:Emore.
  - rewrite Ok_bind. destruct (existing ≫= final_length) as [n|] eqn:En; [|done].
    rewrite (Hn n eq_refl). apply Hchecks. intros _. symmetry in Hm. by apply Z.ltb_lt in Hm.
  - symmetry in Hm. apply Z.ltb_ge in Hm. assert (frag_end f = zlen S) as Ee by lia.
    assert (forall n, existing ≫= final_length = Some n -> n =? frag_end f = true) as Hn'.
    { intros n Hn''. apply Z.eqb_eq. rewrite Ee. by apply Hn. }
    destruct (existing ≫= final_length) as [n|] eqn:En; [rewrite (Hn' n eq_refl); cbn [negb]|];
      rewrite Ok_bind, Ee; rewrite Ee in Hchecks; by apply Hchecks.
Qed.

(** A piece passes every check. *)
Lemma progress_passes : frag_end f <= max_bytes_per_datagram (ip_limits r) -> passes r f.
Proof.
  intros Hmax. destruct (cut_incoming f Hg) as [Hof Hend]. pose proof (cut_piece f Hg) as Hpc. pose proof (pc_end _ _ _ Hpc).
  pose proof progress_kept as Hk. destruct (cut_ecn f _ Hg Hk) as (ecn & He & _).
  assert (inc_key (incoming f) = key) as Ek by (rewrite (if_key _ _ Hof); apply Hpc).
  exists (incoming f), ecn, (if fragment_more f then existing ≫= final_length else Some (zlen S)). cbv zeta. rewrite Ek.
  split; [rewrite (cut_validates f _ Hg), (proj2 (Z.ltb_ge _ _)) by done; done|].
  split; [by apply cut_consistent|]. split; [done|]. split; [apply progress_final|]. split.
  - eapply cut_wire; [done|done|apply progress_existing|]. unfold wire_extent. pose proof retained_end_bound as Hb. rewrite Hend.
    destruct (fragment_more f); [|cbn; lia]. destruct (existing ≫= final_length) as [n|] eqn:En; cbn; [|lia].
    unfold progress in Hp. destruct existing; [|done]. rewrite (hd_final _ _ Hp n En). lia.
  - intros _. apply tally_none. intros i b Hb. unfold differs, datagram_view. rewrite (pc_key _ _ _ Hpc).
    destruct (rview _ i) as [x|] eqn:Er; [|done]. destruct (progress_view i) as [V _], (piece_view f i Hg) as [F _].
    apply V in Er. apply F in Hb. assert (x = b) as -> by congruence. by rewrite Z.eqb_refl.
Qed.

Lemma piece_push now : ends resource_error (ip_push alloc r f now) (fun '(r', out) => push_post r f r' out).
Proof.
  unfold ip_push. destruct (Z.le_gt_cases (frag_end f) (max_bytes_per_datagram (ip_limits r))) as [Hle|Hgt].
  - apply ip_push_passed; [done|apply (pc_ok _ _ _ (cut_piece f Hg))|done|by apply progress_passes].
  - unfold ip_push_with_external_charge. rewrite (cut_validates f _ Hg), (proj2 (Z.ltb_lt _ _)) by lia. done.
Qed.

(** Nothing of [S] is missing from [fs]. *)
Definition covers (fs : list Fragment) : Prop := forall i, 0 <= i < zlen S -> exists g, g ∈ fs /\ in_span g i.

Lemma progress_known o : fragment_reported r f o ->
  forall n, fo_known_final_length o = Some n -> n = zlen S.
Proof.
  intros Hrep n Hn. destruct (fr_final _ _ _ Hrep) as [_ Hf]. rewrite Hn in Hf. pose proof (cut_piece f Hg) as Hpc.
  rewrite (pc_key _ _ _ Hpc) in Hf. pose proof (pc_more _ _ _ Hpc) as Hm. pose proof (pc_end _ _ _ Hpc).
  destruct (fragment_more f).
  - unfold progress in Hp. destruct existing; [|done]. by apply (hd_final _ _ Hp).
  - injection Hf as ->. symmetry in Hm. apply Z.ltb_ge in Hm. unfold frag_end in *. lia.
Qed.

Lemma progress_accepted r' o :
  push_post r f r' (PushAccepted o) -> progress (f :: pushed) r' /\ delete key (datagrams r') = delete key (datagrams r).
Proof.
  intros (_ & _ & _ & Hrep & st & Hd & Hv & Hfin & _ & _ & inc & ecn & Hval & Hecn & Hrec & Hnf).
  pose proof (cut_piece f Hg) as Hpc. rewrite (pc_key _ _ _ Hpc) in *. rewrite Hd.
  assert (inc = incoming f) as ->.
  { rewrite (cut_validates f _ Hg) in Hval. case_match; [done|]. by injection Hval. }
  destruct (cut_incoming f Hg) as [Hof Hend]. pose proof (pc_more _ _ _ Hpc) as Hm. pose proof (pc_end _ _ _ Hpc).
  pose proof (fr_final _ _ _ Hrep) as [_ Hkf]. rewrite (pc_key _ _ _ Hpc) in Hkf. fold (frag_end f) in Hkf.
  split; [|by rewrite delete_insert_eq]. unfold progress. rewrite Hd, lookup_insert_eq. split.
  - intros i b. rewrite Hv. by apply after_progress.
  - intros i. rewrite Hv. by apply after_progress.
  - intros n. rewrite Hfin. by apply progress_known.
  - intros g [->|Hin]%elem_of_cons Hgm; rewrite Hfin, Hkf.
    + rewrite Hgm in *. symmetry in Hm. apply Z.ltb_ge in Hm. f_equal. lia.
    + unfold progress in Hp. destruct existing as [st'|]; [|subst pushed; by apply elem_of_nil in Hin].
      cbn. rewrite (hd_last _ _ Hp g Hin Hgm). destruct (fragment_more f); [done|]. symmetry in Hm.
      apply Z.ltb_ge in Hm. f_equal. lia.
  - intros e. rewrite Hnf. unfold new_non_final. rewrite (if_more _ _ Hof), Hend.
    assert (forall e, existing ≫= max_non_final_end = Some e -> e < zlen S) as Hold.
    { unfold progress in Hp. destruct existing as [st'|]; [|done]. apply Hp. }
    destruct (fragment_more f); [|apply Hold]. symmetry in Hm. apply Z.ltb_lt in Hm.
    destruct (existing ≫= max_non_final_end) as [e'|]; intros [= <-]; [|done]. specialize (Hold e' eq_refl). lia.
  - rewrite Hrec. destruct (cut_ecn f existing Hg progress_kept) as (ecn' & He' & Hk). rewrite Hecn in He'.
    by injection He' as ->.
Qed.

(** An accepted push leaves something missing. *)
Lemma accepted_gap r' o : 0 < zlen S -> Forall good pushed -> push_post r f r' (PushAccepted o) -> ~ covers (f :: pushed).
Proof.
  intros Hpos Hgs Hpost Hcov. destruct (progress_accepted r' o Hpost) as [Hp' _].
  destruct Hpost as (Hw & _ & _ & _ & st & Hd & _). unfold progress in Hp'.
  assert (datagrams r' !! key = Some st) as Hst.
  { rewrite Hd, (pc_key _ _ _ (cut_piece f Hg)). apply lookup_insert_eq. }
  rewrite Hst in Hp'. pose proof (iw_datagrams _ Hw _ _ Hst) as Hdw.
  destruct (Hcov (zlen S - 1)) as (g & Hin & Hi); [lia|].
  assert (good g) as Hgg.
  { apply elem_of_cons in Hin as [->|Hin]; [done|]. by eapply Forall_forall. }
  pose proof (cut_piece g Hgg) as Hpc. pose proof (pc_end _ _ _ Hpc). pose proof (pc_more _ _ _ Hpc) as Hm.
  rewrite (proj2 (Z.ltb_ge _ _)) in Hm by (destruct Hi; lia).
  pose proof (hd_last _ _ Hp' g Hin Hm) as Hfin. apply (dw_incomplete _ _ _ Hdw). rewrite Hfin.
  apply covered_complete; [apply Hdw..| |].
  - apply (dw_final _ _ _ Hdw _ Hfin).
  - intros i Hi'. apply (hd_cover _ _ Hp'). by apply Hcov.
Qed.

(** A completing push has everything, and returns [S] behind a kept header. *)
Lemma progress_completed r' o d :
  push_post r f r' (PushCompleted o d) ->
  covers (f :: pushed) /\ ip_wf r' /\ datagrams r' = delete key (datagrams r) /\
  exists recon, kept recon /\ rebuilt recon S (cd_bytes d).
Proof.
  intros (Hw & _ & _ & Hrep & Hd & Hfin & _ & _ & _ & inc & ecn & payload & _ & Hval & Hecn & Hl & Hv & _ & Hreb).
  pose proof (cut_piece f Hg) as Hpc. rewrite (pc_key _ _ _ Hpc) in *.
  assert (inc = incoming f) as ->.
  { rewrite (cut_validates f _ Hg) in Hval. case_match; [done|]. by injection Hval. }
  pose proof (progress_known o Hrep _ Hfin) as Hn. rewrite Hn in Hl.
  assert (forall i, 0 <= i < zlen S -> is_Some (after r f i)) as Hcov.
  { intros i Hi. rewrite <-Hv by lia. apply zget_lt_is_Some. lia. }
  assert (payload = S) as ->.
  { apply zget_ext. intros i Hi. destruct (Z.lt_ge_cases i (zlen S)) as [Hlt|Hge]; [|by rewrite !zget_ge by lia].
    rewrite Hv by lia. destruct (Hcov i ltac:(lia)) as [b Hb]. rewrite Hb. symmetry. by apply after_progress. }
  split_and!; try done.
  - intros i Hi. apply after_progress; [done..|]. by apply Hcov.
  - destruct (cut_ecn f existing Hg progress_kept) as (ecn' & He' & Hk). rewrite Hecn in He'.
    injection He' as <-. by eexists.
Qed.
End one.

(** ** All the pieces *)

(** No byte is in two pieces. *)
Definition disjoint_pieces (fs : list Fragment) : Prop :=
  forall f g i, f ∈ fs -> g ∈ fs -> in_span f i -> in_span g i -> f = g.

(** The pieces of [S], in any order. *)
Record pieces_of (fs : list Fragment) : Prop := {
  ps_good : Forall good fs;
  ps_nodup : NoDup fs;
  ps_disjoint : disjoint_pieces fs;
  ps_covers : covers fs
}.

#[export] Instance pieces_of_perm : Proper ((≡ₚ) ==> iff) pieces_of.
Proof.
  assert (forall fs gs, fs ≡ₚ gs -> pieces_of fs -> pieces_of gs) as H.
  { intros fs gs Hperm [H1 H2 H3 H4]. split; [by rewrite <-Hperm..| |].
    - intros f g i. rewrite <-!Hperm. apply H3.
    - intros i Hi. destruct (H4 i Hi) as (g & Hin & Hs). exists g. by rewrite <-Hperm. }
  intros fs gs Hperm. split; by apply H.
Qed.

(** Before the last piece something is missing. *)
Lemma pieces_gap pushed f rest : rest <> [] -> pieces_of (f :: pushed ++ rest) -> ~ covers (f :: pushed).
Proof.
  intros Hne [Hgood Hnd Hdis _] Hcov. destruct rest as [|g rest]; [done|].
  assert (g ∈ f :: pushed ++ g :: rest) as Hin by set_solver.
  pose proof (cut_piece g (proj1 (Forall_forall _ _) Hgood g Hin)) as Hpc. pose proof (pc_nonempty _ _ _ Hpc).
  pose proof (pc_end _ _ _ Hpc). pose proof (fk_units _ (pc_ok _ _ _ Hpc)).
  assert (in_span g (8 * fragment_units g)) as Hs by (unfold in_span, frag_end in *; lia).
  destruct (Hcov (8 * fragment_units g)) as (g' & Hin' & Hs'); [unfold frag_end in *; lia|].
  assert (g' = g) as -> by (eapply Hdis; [|exact Hin|exact Hs'|exact Hs]; set_solver).
  change (f :: pushed ++ g :: rest) with ((f :: pushed) ++ g :: rest) in Hnd.
  apply NoDup_app in Hnd as (_ & Hnd & _). apply (Hnd g Hin'). set_solver.
Qed.

Lemma pieces_complete l : forall pushed r,
  ip_wf r -> progress pushed r -> l <> [] -> 0 < zlen S -> pieces_of (pushed ++ l.*1) ->
  ends resource_error (ip_push_all alloc r l) (fun '(r', outs) =>
    exists accepted o d recon, outs = (PushAccepted <$> accepted) ++ [PushCompleted o d] /\ ip_wf r' /\
      datagrams r' = delete key (datagrams r) /\ kept recon /\ rebuilt recon S (cd_bytes d)).
Proof.
  induction l as [|[f now] l IH]; intros pushed r Hr Hp Hne Hpos Hps; [done|]. cbn [ip_push_all fmap list_fmap fst] in *.
  rewrite <-Permutation_middle in Hps. pose proof Hps as [Hgood _ _ Hcov].
  apply Forall_cons in Hgood as [Hg Hgs]. pose proof (proj1 (proj1 (Forall_app _ _ _) Hgs)) as Hgp.
  apply ends_bind. eapply ends_mono; [exact (piece_push pushed r f Hr Hp Hg now)|]. intros [r1 [o|o d]] Hpost.
  - destruct (progress_accepted pushed r f Hp Hg r1 o Hpost) as [Hp1 Hdel].
    pose proof (accepted_gap pushed r f Hp Hg r1 o Hpos Hgp Hpost) as Hgap.
    assert (l <> []) as Hl by (intros ->; apply Hgap; by rewrite app_nil_r in Hcov).
    apply ends_bind. eapply ends_mono; [exact (IH (f :: pushed) r1 (proj1 Hpost) Hp1 Hl Hpos Hps)|].
    intros [r2 outs] (acc & o2 & d & recon & -> & Hw & Hd & Hk & Hb). cbn [ends].
    exists (o :: acc), o2, d, recon. split; [done|]. split; [done|]. by rewrite Hd, Hdel.
  - destruct (progress_completed pushed r f Hp Hg r1 o d Hpost) as (Hc & Hw & Hd & recon & Hk & Hb).
    destruct l as [|x l]; [|by destruct (pieces_gap pushed f (x :: l).*1)].
    cbn [ip_push_all]. rewrite Ok_bind. cbn [ends]. by exists [], o, d, recon.
Qed.
End pieces.
