(* ===== verification/FragmenterProofs.v ===== *)
(** * Fragmenting: what each fragment carries

    The pieces a datagram is cut into, the headers put before them and the frames
    emitted, for IPv4 and IPv6. *)

From stdpp Require Import base tactics option list numbers gmap strings.
From Stdlib Require Import ZArith Lia.
From S2P Require Import Prelude Checksum Ordered Flow Headers HeadersProofs Frame Transform Fragmenter.
From S2P Require Import IpModel IpValidate IpReconstruct IpRanges IpFragment IpRebuild.

(** ** Pieces *)

(** Pieces of [payload], in order from [position]; every one but the last ends on
    an eight-byte boundary. *)
Fixpoint tiles (payload : bytes) (position : Z) (pieces : list (Z * bytes)) : Prop :=
  match pieces with
  | [] => position = zlen payload
  | (p, c) :: rest =>
      p = position /\ position mod 8 = 0 /\ 0 < zlen c /\ c = zslice position (position + zlen c) payload /\
      position + zlen c <= zlen payload /\ tiles payload (position + zlen c) rest
  end.

Lemma payload_count_spec room remaining count :
  0 <= room -> 0 < remaining -> payload_count room remaining = Ok count ->
  0 < count <= remaining /\ count <= room /\ (count < remaining -> count mod 8 = 0).
Proof.
  intros Hr Hrem. unfold payload_count. pose proof (Z.div_mod room 8 ltac:(lia)). pose proof (Z.mod_pos_bound room 8 ltac:(lia)).
  pose proof (Z.div_pos room 8 Hr ltac:(lia)).
  cbv zeta. destruct (Z.leb_spec remaining room); case_match eqn:E; intros [= <-]; apply Z.eqb_neq in E; [lia|].
  split_and!; try lia. intros _. rewrite Z.mul_comm, Z.mul_mod, Z.mod_same, Z.mul_0_l by lia. done.
Qed.

(** ** Emitted frames *)

(** A fragment behind the link header of [frame], padded as Ethernet asks. *)
Definition emitted (frame : Frame) (offset : Z) (header piece : bytes) : Frame :=
  let data := ztake offset (frame_bytes frame) ++ header ++ piece in
  let data := data ++ zrep ((if link_type frame =? 1 then 60 else 0) - zlen data) 0 in
  mkFrame (fr_timestamp frame) (zlen data) (zlen data) (link_type frame) (fr_interface frame) (fr_direction frame) data.

Lemma append_spec frame offset header piece options retained output :
  0 <= offset <= zlen (frame_bytes frame) ->
  safe (append frame offset header piece options (retained, output)) (fun '(retained', output') =>
    output' = output ++ [emitted frame offset header piece] /\ zlen output < max_fragments options /\
    retained' = retained + zlen (frame_bytes (emitted frame offset header piece)) /\
    retained' <= max_output_bytes options).
Proof.
  intros Ho. unfold append. destruct (Z.leb_spec (max_fragments options) (zlen output)); [done|].
  set (length := Z.max _ _). apply safe_bind, safe_ok_or. intros t Ht.
  destruct (checked_add usize_max retained length) as [t'|] eqn:Ec; [|done]. cbn in Ht.
  destruct (Z.leb_spec t' (max_output_bytes options)); [|done]. injection Ht as <-.
  apply checked_add_Some in Ec as [-> _]. rewrite index_range_ok by lia. rewrite Ok_bind. cbv zeta.
  unfold emitted. replace (zslice 0 offset (frame_bytes frame)) with (ztake offset (frame_bytes frame)).
  2:{ unfold zslice. by rewrite zdrop_0, Z.sub_0_r. }
  set (data := ztake offset (frame_bytes frame) ++ header ++ piece).
  assert (zlen data = offset + zlen header + zlen piece) as Hd by (unfold data; rewrite !zlen_app, zlen_ztake; lia).
  assert (zrep (length - zlen data) 0 = zrep ((if link_type frame =? 1 then 60 else 0) - zlen data) 0) as ->.
  { unfold zrep. f_equal. lia. }
  set (padded := data ++ _).
  assert (zlen padded = length) as Hp.
  { unfold padded. rewrite zlen_app, zlen_zrep. lia. }
  apply safe_bind. destruct (Frame_new None (link_type frame) padded) as [f|e|] eqn:Ef; cbn [map_err safe].
  - apply Frame_new_ok in Ef as [_ ->]. cbn. rewrite Hp. done.
  - done.
  - unfold Frame_new, try_with_optional_timestamp in Ef. destruct (zlen padded <=? u32_max); [|done]. cbn [ok_or] in Ef.
    rewrite Ok_bind in Ef. by repeat case_match.
Qed.

(** ** IPv4 headers *)

(** [h] is [base] with the lengths, identification, fragment word and a checksum
    that verifies. *)
Record wire_header4 (base : bytes) (total id flags : Z) (h : bytes) : Prop := {
  w4_len : zlen h = zlen base;
  w4_octets : octets h;
  w4_total : be16 h 2 = total;
  w4_id : be16 h 4 = id;
  w4_flags : be16 h 6 = flags;
  w4_checksum : checksum_parts [h] = 0;
  w4_other : forall i, i ∉ [2; 3; 4; 5; 6; 7; 10; 11] -> zget h i = zget base i
}.

Lemma fragment_header4_spec base total id flags :
  header4_ok base -> 0 <= total <= 65535 -> 0 <= id <= 65535 -> 0 <= flags <= 65535 ->
  exists h, fragment_header4 base total id flags = Ok h /\ wire_header4 base total id flags h.
Proof.
  intros [Ho [Hl Hm]] Ht Hi Hf.
  assert (forall x, zlen (to_be_bytes16 x) = 2) as L by done. assert (zlen [0; 0] = 2) as L0 by done.
  unfold fragment_header4. rewrite (copy_at_ok base 2) by (rewrite ?L; lia). rewrite Ok_bind.
  set (h1 := overwrite base 2 (to_be_bytes16 total)).
  assert (zlen h1 = zlen base) as E1 by (unfold h1; rewrite zlen_overwrite; rewrite ?L; lia).
  rewrite (copy_at_ok h1 4) by (rewrite ?L; lia). rewrite Ok_bind. set (h2 := overwrite h1 4 (to_be_bytes16 id)).
  assert (zlen h2 = zlen base) as E2 by (unfold h2; rewrite zlen_overwrite; rewrite ?L; lia).
  rewrite (copy_at_ok h2 6) by (rewrite ?L; lia). rewrite Ok_bind. set (h3 := overwrite h2 6 (to_be_bytes16 flags)).
  assert (zlen h3 = zlen base) as E3 by (unfold h3; rewrite zlen_overwrite; rewrite ?L; lia).
  rewrite (copy_at_ok h3 10) by (rewrite ?L0; lia). rewrite Ok_bind.
  assert (zlen (overwrite h3 10 [0; 0]) = zlen base) as E4 by (rewrite zlen_overwrite; rewrite ?L0; lia).
  rewrite copy_at_ok by (rewrite ?L; lia). rewrite overwrite_overwrite by (rewrite ?L, ?L0; lia).
  eexists. split; [reflexivity|].
  assert (octets h3) as O3.
  { unfold h3, h2, h1. repeat apply octets_overwrite; try done; by apply to_be_bytes16_octets. }
  set (sum := checksum_parts [overwrite h3 10 [0; 0]]).
  assert (forall i, zget (overwrite h3 10 (to_be_bytes16 sum)) i =
    if (10 <=? i) && (i <? 12) then zget (to_be_bytes16 sum) (i - 10)
    else if (6 <=? i) && (i <? 8) then zget (to_be_bytes16 flags) (i - 6)
    else if (4 <=? i) && (i <? 6) then zget (to_be_bytes16 id) (i - 4)
    else if (2 <=? i) && (i <? 4) then zget (to_be_bytes16 total) (i - 2) else zget base i) as Hg.
  { intros i. rewrite zget_overwrite by (rewrite ?L; lia). unfold h3. rewrite zget_overwrite by (rewrite ?L; lia).
    unfold h2. rewrite zget_overwrite by (rewrite ?L; lia). unfold h1. rewrite zget_overwrite by (rewrite ?L; lia). done. }
  split.
  - rewrite zlen_overwrite; rewrite ?L; lia.
  - apply octets_overwrite; [done|]. apply to_be_bytes16_octets. apply checksum_range.
  - unfold be16, at_. rewrite !Hg. cbn [andb Z.leb Z.ltb Z.compare Pos.compare Pos.compare_cont]. apply be16_to_be. lia.
  - unfold be16, at_. rewrite !Hg. cbn [andb Z.leb Z.ltb Z.compare Pos.compare Pos.compare_cont]. apply be16_to_be. lia.
  - unfold be16, at_. rewrite !Hg. cbn [andb Z.leb Z.ltb Z.compare Pos.compare Pos.compare_cont]. apply be16_to_be. lia.
  - apply header_checksum_verifies. split; [done|lia].
  - intros i Hi'. rewrite Hg. rewrite !not_elem_of_cons in Hi'.
    destruct (Z.leb_spec 10 i), (Z.ltb_spec i 12), (Z.leb_spec 6 i), (Z.ltb_spec i 8), (Z.leb_spec 4 i), (Z.ltb_spec i 6),
      (Z.leb_spec 2 i), (Z.ltb_spec i 4); cbn; try done; lia.
Qed.

(** ** Copied options *)

(** The options of a header as RFC 791 lays them out, from [cursor] on: a list of
    options ended by the end of the header or by an end-of-options octet; the type
    octet comes first, and in every option but a no-operation a length octet, which
    counts both, comes second. *)
Inductive options4 (header : bytes) : Z -> list bytes -> Prop :=
| options4_stop cursor : zlen header <= cursor -> options4 header cursor []
| options4_end cursor : zget header cursor = Some 0 -> options4 header cursor []
| options4_nop cursor os :
    zget header cursor = Some 1 -> options4 header (cursor + 1) os -> options4 header cursor ([1] :: os)
| options4_option cursor kind length os :
    zget header cursor = Some kind -> kind <> 0 -> kind <> 1 ->
    zget header (cursor + 1) = Some length -> 2 <= length -> cursor + length <= zlen header ->
    options4 header (cursor + length) os ->
    options4 header cursor (zslice cursor (cursor + length) header :: os).

(** The copied flag is the top bit of the type octet. *)
Definition copied_flag (o : bytes) : Prop := exists kind, zget o 0 = Some kind /\ 128 <= kind.

#[export] Instance copied_flag_dec o : Decision (copied_flag o).
Proof.
  unfold copied_flag. destruct (zget o 0) as [kind|]; [|by right; intros (? & ? & _)].
  destruct (decide (128 <= kind)); [left; eauto|right; by intros (? & [= <-] & ?)].
Defined.

Lemma copy_bit kind : 0 <= kind < 256 -> negb (Z.land kind 128 =? 0) = (128 <=? kind).
Proof.
  intros Hk. assert (forallb (fun k => Bool.eqb (negb (Z.land k 128 =? 0)) (128 <=? k)) (seqZ 0 256) = true) as H
    by (by vm_compute).
  rewrite forallb_forall in H. apply eqb_prop, H, list_elem_of_In, elem_of_seqZ. lia.
Qed.

(** What one turn of the option iterator sees. *)
Lemma Ipv4Options_next_reads it item it' :
  0 <= opt_cursor it -> Ipv4Options_next it = (item, it') ->
  match item with
  | None => options4 (opt_bytes it) (opt_cursor it) []
  | Some (inl o) => exists kind length,
      zget (opt_bytes it) (opt_cursor it) = Some kind /\ option_kind o = kind /\
      option_range o = (opt_cursor it, opt_cursor it + length) /\
      opt_bytes it' = opt_bytes it /\ opt_cursor it' = opt_cursor it + length /\ 0 < length /\
      opt_cursor it + length <= zlen (opt_bytes it) /\
      forall os, options4 (opt_bytes it) (opt_cursor it + length) os ->
        options4 (opt_bytes it) (opt_cursor it) (zslice (opt_cursor it) (opt_cursor it + length) (opt_bytes it) :: os)
  | Some (inr _) => True
  end.
Proof.
  intros H0 H. unfold Ipv4Options_next in H. destruct (zget (opt_bytes it) (opt_cursor it)) as [kind|] eqn:Eg.
  2:{ injection H as <- _. apply options4_stop.
      destruct (Z.le_gt_cases (zlen (opt_bytes it)) (opt_cursor it)); [done|].
      destruct (zget_lt_is_Some (opt_bytes it) (opt_cursor it)) as [b Hb]; [lia|congruence]. }
  destruct (Z.eqb_spec kind 0) as [->|Hk0]; [injection H as <- _; by apply options4_end|].
  destruct (Z.eqb_spec kind 1) as [->|Hk1]; cbn [negb andb] in H.
  - cbn in H. destruct (Z.ltb_spec (zlen (opt_bytes it)) (opt_cursor it + 1)); injection H as <- <-; [done|].
    exists 1, 1. cbn. split_and!; try done. intros os Hos.
    assert (zslice (opt_cursor it) (opt_cursor it + 1) (opt_bytes it) = [1]) as ->; [|by apply options4_nop].
    apply zget_ext. intros i Hi. rewrite zget_zslice by lia.
    destruct (Z.eq_dec i 0) as [->|].
    + rewrite Z.add_0_r, Eg. by rewrite (proj2 (Z.ltb_lt 0 _)) by lia.
    + rewrite (proj2 (Z.ltb_ge i _)), andb_false_r by lia. rewrite zget_ge; [done|]. unfold zlen. cbn. lia.
  - destruct (zget (opt_bytes it) (opt_cursor it + 1)) as [length|] eqn:El; [|by injection H as <- _].
    destruct (Z.ltb_spec length 2); [by injection H as <- _|].
    destruct (Z.ltb_spec (zlen (opt_bytes it)) (opt_cursor it + length)); injection H as <- <-; [done|].
    exists kind, length. cbn. split_and!; try done; try lia. intros os Hos. by eapply options4_option.
Qed.

Lemma copy_options_spec ip limit fuel : octets ip -> limit <= zlen ip -> forall it copied,
  opt_bytes it = ztake limit ip -> 0 <= opt_cursor it <= limit -> octets copied ->
  limit - opt_cursor it < Z.of_nat fuel ->
  safe (copy_options fuel ip it copied) (fun copied' =>
    octets copied' /\ zlen copied' <= zlen copied + (limit - opt_cursor it) /\
    exists os, options4 (ztake limit ip) (opt_cursor it) os /\ copied' = copied ++ mjoin (filter copied_flag os)).
Proof.
  intros Ho Hlim. induction fuel as [|fuel IH]; intros it copied Hb Hc Hco Hf; [lia|]. cbn [copy_options].
  destruct (Ipv4Options_next it) as [item it'] eqn:E.
  pose proof (Ipv4Options_next_reads it item it' ltac:(lia) E) as Hn. rewrite Hb in Hn.
  destruct item as [[o|e]|]; [|done|cbn; split; [done|split; [lia|exists []; by rewrite app_nil_r]]].
  destruct Hn as (kind & length & Hk & -> & -> & Hb' & Hc' & Hlen & Hend & Hos). cbn [fst snd].
  rewrite zlen_ztake in Hend.
  set (o' := zslice (opt_cursor it) (opt_cursor it + length) (ztake limit ip)) in *.
  assert (o' = zslice (opt_cursor it) (opt_cursor it + length) ip) as Eo.
  { apply zget_ext. intros i Hi. unfold o'. rewrite !zget_zslice, zget_ztake by lia.
    destruct (Z.leb_spec 0 i), (Z.ltb_spec i (opt_cursor it + length - opt_cursor it)); cbn; try done.
    by rewrite (proj2 (Z.ltb_lt _ _)) by lia. }
  assert (zget o' 0 = Some kind) as Ek.
  { unfold o'. rewrite zget_zslice by lia. rewrite Z.add_0_r, Hk.
    by rewrite (proj2 (Z.ltb_lt 0 _)) by lia. }
  assert (0 <= kind < 256) as Hkind.
  { apply (octets_zget (ztake limit ip) (opt_cursor it)); [by apply octets_ztake|done]. }
  assert (forall copied', octets copied' -> zlen copied' <= zlen copied + length ->
    (copied' = copied ++ mjoin (filter copied_flag [o'])) ->
    safe (copy_options fuel ip it' copied') (fun copied' =>
      octets copied' /\ zlen copied' <= zlen copied + (limit - opt_cursor it) /\
      exists os, options4 (ztake limit ip) (opt_cursor it) os /\ copied' = copied ++ mjoin (filter copied_flag os))) as Hnext.
  { intros copied' Hco' Hle Eq. eapply safe_mono; [apply IH; [congruence|lia|done|lia]|].
    cbv beta. intros c (? & ? & os & Hos' & ->). split; [done|]. split; [lia|].
    exists (o' :: os). rewrite Hc' in Hos'. split; [by apply Hos|].
    rewrite Eq, <-app_assoc. f_equal. change (o' :: os) with ([o'] ++ os). rewrite filter_app.
    exact (eq_sym (join_app (filter copied_flag [o']) (filter copied_flag os))). }
  rewrite copy_bit by done. destruct (Z.leb_spec 128 kind) as [H128|H128].
  - rewrite index_range_ok by lia. rewrite !Ok_bind. apply Hnext.
    + apply octets_app. split; [done|]. by apply octets_zslice.
    + rewrite zlen_app, zlen_zslice by lia. lia.
    + rewrite filter_cons_True by (by exists kind). cbn. by rewrite app_nil_r, Eo.
  - rewrite Ok_bind. apply Hnext; [done|lia|]. rewrite filter_cons_False; [cbn; by rewrite app_nil_r|].
    intros (k & Hk' & ?). rewrite Ek in Hk'. injection Hk' as <-. lia.
Qed.

Lemma pad_word_spec copied m :
  octets copied -> zlen copied <= m -> m mod 4 = 0 ->
  octets (pad_word 4 copied) /\ zlen (pad_word 4 copied) <= m /\ zlen (pad_word 4 copied) mod 4 = 0 /\
  exists pad, 0 <= pad < 4 /\ pad_word 4 copied = copied ++ zrep pad 0.
Proof.
  intros Ho Hl Hm. pose proof (zlen_nonneg copied).
  assert (forall l : bytes, zlen (l ++ [0]) = zlen l + 1) as L by (intros; by rewrite zlen_app).
  assert (forall l : bytes, octets l -> octets (l ++ [0])) as O.
  { intros l Hlo. apply octets_app. split; [done|]. apply Forall_singleton. lia. }
  pose proof (Z.div_mod (zlen copied) 4 ltac:(lia)). pose proof (Z.mod_pos_bound (zlen copied) 4 ltac:(lia)).
  pose proof (Z.div_mod m 4 ltac:(lia)).
  assert (forall k, (zlen copied + k) mod 4 = (zlen copied mod 4 + k) mod 4) as Hk by (intros; by rewrite Zplus_mod_idemp_l).
  cbn [pad_word]. rewrite !L, <-!Z.add_assoc, !Hk.
  assert (zlen copied mod 4 = 0 \/ zlen copied mod 4 = 1 \/ zlen copied mod 4 = 2 \/ zlen copied mod 4 = 3)
    as [E|[E|[E|E]]] by lia; rewrite !E; cbn [Z.eqb Z.add Z.modulo Z.div_eucl Z.pos_div_eucl].
  - split_and!; try done. exists 0. split; [lia|]. by rewrite app_nil_r.
  - change ((1 + 1) mod 4 =? 0) with false. change ((1 + (1 + 1)) mod 4 =? 0) with false.
    change ((1 + (1 + (1 + 1))) mod 4 =? 0) with true. cbv iota.
    rewrite !L, <-!Z.add_assoc, Hk, E. split; [auto|]. split; [lia|]. split; [done|].
    exists 3. split; [lia|]. by rewrite <-!app_assoc.
  - change ((2 + 1) mod 4 =? 0) with false. change ((2 + (1 + 1)) mod 4 =? 0) with true. cbv iota.
    rewrite !L, <-!Z.add_assoc, Hk, E. split; [auto|]. split; [lia|]. split; [done|].
    exists 2. split; [lia|]. by rewrite <-!app_assoc.
  - change ((3 + 1) mod 4 =? 0) with true. cbv iota. rewrite !L, Hk, E. split; [auto|]. split; [lia|]. split; [done|].
    exists 1. split; [lia|]. done.
Qed.

(** The options every fragment carries: those with the copied flag, as they stand,
    and fewer than four end-of-options octets up to a word boundary. *)
Definition copies_options (header copied : bytes) : Prop :=
  exists os pad, options4 header IPV4_MIN_LENGTH os /\ 0 <= pad < 4 /\
    copied = mjoin (filter copied_flag os) ++ zrep pad 0.

Lemma copied_options_spec ip h :
  octets ip -> Ipv4Header_walk ip = Ok h ->
  safe (copied_options ip h) (fun copied =>
    octets copied /\ zlen copied <= v4_header_length h - 20 /\ zlen copied mod 4 = 0 /\
    copies_options (ztake (v4_header_length h) ip) copied).
Proof.
  intros Ho Hw. pose proof (safe_Ok _ _ _ (Ipv4Header_walk_spec ip false Ho) Hw) as (H1 & H2 & H3 & _).
  assert (v4_header_length h mod 4 = 0) as Hmod.
  { unfold Ipv4Header_walk, Ipv4Header_walk_lengths in Hw. inv_ok Hw. case_match; [done|]. case_match; [done|]. case_match; [done|].
    injection Hw as <-. cbn. by rewrite Z.mul_mod, Z.mod_same, Z.mul_0_r by lia. }
  unfold copied_options, Ipv4Header_options. rewrite index_range_ok by lia. rewrite Ok_bind. cbn [map_err]. rewrite Ok_bind.
  apply safe_bind. eapply safe_mono.
  - apply (copy_options_spec ip (v4_header_length h)); try done; cbn [opt_bytes opt_cursor]; try (unfold IPV4_MIN_LENGTH; lia).
    unfold zslice. by rewrite zdrop_0, Z.sub_0_r, Z.min_l by lia.
  - cbn [opt_cursor]. unfold IPV4_MIN_LENGTH. change (zlen (@nil Z)) with 0. intros copied (Hco & Hle & os & Hos & Ec). cbn [safe].
    destruct (pad_word_spec copied (v4_header_length h - 20) Hco) as (P1 & P2 & P3 & pad & Hpad & P4);
      [lia|by rewrite Zminus_mod, Hmod|].
    split_and!; try done. exists os, pad. rewrite P4, Ec. done.
Qed.

(** ** The IPv4 loop *)

(** The header a fragment at [position] starts from: the whole header for the
    first, the fixed part and the copied options for the others. *)
Record base_header4 (ip : bytes) (header_len position : Z) (base : bytes) : Prop := {
  b4_ok : header4_ok base;
  b4_version : Z.shiftr (at_ base 0) 4 = 4;
  b4_ihl : Z.land (at_ base 0) 15 * 4 = zlen base;
  b4_fixed : forall i, 1 <= i < 20 -> zget base i = zget ip i;
  b4_first : position = 0 -> base = ztake header_len ip;
  b4_later : position <> 0 -> copies_options (ztake header_len ip) (zdrop 20 base);
  b4_max : zlen base <= header_len
}.

Lemma ihl_byte x : 0 <= x < 16 -> Z.shiftr (Z.lor 64 x) 4 = 4 /\ Z.land (Z.lor 64 x) 15 = x /\ 0 <= Z.lor 64 x < 256.
Proof.
  intros Hx. assert (x = 0 \/ x = 1 \/ x = 2 \/ x = 3 \/ x = 4 \/ x = 5 \/ x = 6 \/ x = 7 \/ x = 8 \/ x = 9 \/ x = 10
    \/ x = 11 \/ x = 12 \/ x = 13 \/ x = 14 \/ x = 15) as H by lia.
  repeat destruct H as [->|H]; [..|subst x]; by vm_compute.
Qed.

Lemma walk4_fields ip h :
  octets ip -> Ipv4Header_walk ip = Ok h ->
  20 <= v4_header_length h <= 60 /\ v4_header_length h <= v4_total_length h <= zlen ip /\ v4_total_length h <= 65535 /\
  Z.shiftr (at_ ip 0) 4 = 4 /\ v4_header_length h = Z.land (at_ ip 0) 15 * 4 /\
  v4_total_length h = be16 ip 2 /\ v4_identification h = be16 ip 4 /\ v4_flags_and_offset h = be16 ip 6 /\
  v4_protocol h = at_ ip 9.
Proof.
  intros Ho Hw. pose proof (safe_Ok _ _ _ (Ipv4Header_walk_spec ip false Ho) Hw) as (H1 & H2 & H3 & H4). specialize (H4 eq_refl).
  unfold Ipv4Header_walk, Ipv4Header_walk_lengths in Hw.
  destruct (first_chunk IPV4_MIN_LENGTH ip) as [fixed|] eqn:E; [|done]. cbn [ok_or] in Hw. rewrite Ok_bind in Hw.
  apply first_chunk_Some in E as [Hl ->].
  assert (forall i, 0 <= i < 20 -> at_ (ztake IPV4_MIN_LENGTH ip) i = at_ ip i) as Hat.
  { intros i Hi. unfold at_, IPV4_MIN_LENGTH. by rewrite zget_ztake, (proj2 (Z.ltb_lt _ _)) by lia. }
  unfold be16 in Hw. rewrite !Hat in Hw by lia. destruct (Z.eqb_spec (Z.shiftr (at_ ip 0) 4) 4) as [Hv|]; [|done]. cbn [negb] in Hw.
  case_match; [done|]. case_match; [done|]. injection Hw as <-. cbn in *. unfold u16_max in *. split_and!; try done; lia.
Qed.

Lemma fragment_base4_spec ip h copied position :
  octets ip -> Ipv4Header_walk ip = Ok h ->
  octets copied -> zlen copied <= v4_header_length h - 20 -> zlen copied mod 4 = 0 ->
  copies_options (ztake (v4_header_length h) ip) copied -> 0 <= position ->
  exists base, fragment_base4 ip copied (v4_header_length h) position = Ok base /\
    base_header4 ip (v4_header_length h) position base.
Proof.
  intros Ho Hw Hco Hcl Hcm Hcopy Hp. destruct (walk4_fields ip h Ho Hw) as (H1 & H2 & H3 & Hv & Hihl & _).
  unfold fragment_base4. destruct (Z.eqb_spec position 0) as [->|Hne].
  - rewrite index_range_ok by lia. replace (zslice 0 (v4_header_length h) ip) with (ztake (v4_header_length h) ip).
    2:{ unfold zslice. by rewrite zdrop_0, Z.sub_0_r. }
    assert (zlen (ztake (v4_header_length h) ip) = v4_header_length h) as Hl by (rewrite zlen_ztake; lia).
    assert (forall i, 0 <= i < 20 -> zget (ztake (v4_header_length h) ip) i = zget ip i) as Hg.
    { intros i Hi. by rewrite zget_ztake, (proj2 (Z.ltb_lt _ _)) by lia. }
    eexists. split; [reflexivity|]. split; rewrite ?Hl; try done; try lia.
    + split; [by apply octets_ztake|lia].
    + unfold at_. by rewrite Hg by lia.
    + unfold at_. by rewrite Hg by lia.
    + intros i Hi. apply Hg. lia.
  - rewrite index_range_ok by (unfold IPV4_MIN_LENGTH; lia). rewrite Ok_bind. cbv zeta.
    set (base := zslice 0 IPV4_MIN_LENGTH ip ++ copied). pose proof (zlen_nonneg copied).
    assert (zlen (zslice 0 IPV4_MIN_LENGTH ip) = 20) as Hf by (rewrite zlen_zslice; unfold IPV4_MIN_LENGTH; lia).
    assert (zlen base = 20 + zlen copied) as Hl by (unfold base; rewrite zlen_app; lia).
    pose proof (Z.div_mod (zlen copied) 4 ltac:(lia)).
    assert (zlen base / 4 mod 256 = zlen base / 4 /\ 5 <= zlen base / 4 < 16 /\ 4 * (zlen base / 4) = zlen base) as (Hq & Hq' & Hq4).
    { assert (zlen base / 4 = 5 + zlen copied / 4) as Hd.
      { rewrite Hl. symmetry. apply (Z.div_unique _ _ _ 0); lia. }
      rewrite Hd. rewrite Z.mod_small; lia. }
    rewrite Hq. destruct (ihl_byte (zlen base / 4) ltac:(lia)) as (I1 & I2 & I3).
    set (x := Z.lor 64 (zlen base / 4)) in *. assert (zlen [x] = 1) as Lx by done.
    rewrite copy_at_ok by (rewrite ?Lx; lia).
    assert (forall i, zget (overwrite base 0 [x]) i = if (0 <=? i) && (i <? 1) then zget [x] (i - 0) else zget base i) as Hg.
    { intros i. by rewrite zget_overwrite by (rewrite ?Lx; lia). }
    assert (at_ (overwrite base 0 [x]) 0 = x) as Hx0 by (unfold at_; by rewrite Hg).
    assert (zlen (overwrite base 0 [x]) = zlen base) as Hlo by (rewrite zlen_overwrite; rewrite ?Lx; lia).
    eexists. split; [reflexivity|]. split; rewrite ?Hx0, ?Hlo; try done; try lia.
    + split; [|lia]. apply octets_overwrite; [|by apply Forall_singleton]. apply octets_app. split; [by apply octets_zslice|done].
    + intros i Hi. rewrite Hg, (proj2 (Z.ltb_ge i 1)), andb_false_r by lia. unfold base. rewrite zget_app, Hf, (proj2 (Z.ltb_lt _ _)) by lia.
      rewrite zget_zslice, (proj2 (Z.leb_le _ _)), (proj2 (Z.ltb_lt _ _)) by (unfold IPV4_MIN_LENGTH; lia). done.
    + intros _. replace (zdrop 20 (overwrite base 0 [x])) with copied; [done|].
      apply zget_ext. intros i Hi. rewrite zget_zdrop by lia. rewrite Hg, (proj2 (Z.ltb_ge (20 + i) 1)), andb_false_r by lia.
      unfold base. rewrite zget_app, Hf, (proj2 (Z.ltb_ge _ _)) by lia. f_equal. lia.
Qed.

(** The fragment word: MF above the offset in eight-byte units. *)
Definition fragment_word (more : bool) (position : Z) : Z := (if more then 8192 else 0) + position / 8.

Lemma fragment_word_flags flags more position :
  Z.land flags 32768 = 0 -> 0 <= position <= 65535 ->
  Z.lor (Z.lor (Z.land flags 32768) (Z.shiftl (from_bool more) 13)) (position / 8 mod 65536) = fragment_word more position /\
  0 <= fragment_word more position <= 65535.
Proof.
  intros -> Hp. pose proof (Z.div_pos position 8 ltac:(lia) ltac:(lia)). pose proof (Z.div_lt_upper_bound position 8 8192).
  rewrite Z.lor_0_l, Z.mod_small by lia. unfold fragment_word. destruct more; cbn [from_bool].
  - split; [|lia]. change (Z.shiftl 1 13) with 8192. rewrite <-Z.lxor_lor, <-Z.add_nocarry_lxor; [done| |].
    all: apply Z.bits_inj'; intros n Hn; rewrite Z.land_spec, Z.bits_0;
      change 8192 with (2 ^ 13); destruct (Z.eq_dec n 13) as [->|Hne];
      [rewrite (Z.bits_above_log2 (position / 8) 13), andb_false_r; try done; try lia|
       rewrite Z.pow2_bits_false by lia; done].
    all: destruct (Z.eq_dec (position / 8) 0) as [->|]; [done|]; apply Z.log2_lt_pow2; lia.
  - change (Z.shiftl 0 13) with 0. rewrite Z.lor_0_l. lia.
Qed.

Section ipv4.
Context (frame : Frame) (offset : Z) (ip : bytes) (h : Ipv4Header) (copied payload : bytes) (id : Z)
  (options : FragmentOptions).

(** The frame emitted for one piece. *)
Definition emitted4 (piece : Z * bytes) (f : Frame) : Prop :=
  exists base header, base_header4 ip (v4_header_length h) piece.1 base /\
    wire_header4 base (zlen base + zlen piece.2) id
      (fragment_word (piece.1 + zlen piece.2 <? zlen payload) piece.1) header /\
    zlen header + zlen piece.2 <= mtu options /\ f = emitted frame offset header piece.2.

Definition total_bytes (l : list Frame) : Z := foldr (fun f t => zlen (frame_bytes f) + t) 0 l.

Lemma total_bytes_app l k : total_bytes (l ++ k) = total_bytes l + total_bytes k.
Proof. induction l as [|f l IH]; cbn; [done|]. unfold total_bytes in *. lia. Qed.

Context (Ho : octets ip) (Hw : Ipv4Header_walk ip = Ok h) (Hoff : 0 <= offset <= zlen (frame_bytes frame)).
Context (Hco : octets copied) (Hcl : zlen copied <= v4_header_length h - 20) (Hcm : zlen copied mod 4 = 0).
Context (Hcopy : copies_options (ztake (v4_header_length h) ip) copied).
Context (Hid : 0 <= id <= 65535) (Hres : reserved_flag h = false).
Context (Hpl : zlen payload <= 65535).

Lemma ipv4_loop_spec fuel : forall position retained output,
  0 <= position <= zlen payload -> (position < zlen payload -> position mod 8 = 0) ->
  zlen payload - position < Z.of_nat fuel -> retained = total_bytes output ->
  safe (ipv4_loop fuel frame offset ip copied payload (v4_header_length h) id (v4_flags_and_offset h) options
          position (retained, output)) (fun frames =>
    exists pieces out, frames = output ++ out /\ tiles payload position pieces /\ Forall2 emitted4 pieces out /\
      (out = [] \/ zlen frames <= max_fragments options /\ total_bytes frames <= max_output_bytes options)).
Proof.
  induction fuel as [|fuel IH]; intros position retained output Hp Hmod Hf Hret; [lia|]. cbn [ipv4_loop].
  destruct (Z.ltb_spec position (zlen payload)) as [Hlt|Hge]; cbn [negb].
  2:{ cbn. exists [], []. rewrite app_nil_r. split_and!; try done; [cbn; lia|by left]. }
  destruct (fragment_base4_spec ip h copied position Ho Hw Hco Hcl Hcm Hcopy ltac:(lia)) as (base & -> & Hb). rewrite Ok_bind.
  pose proof (b4_ok _ _ _ _ Hb) as [Hbo [Hbl Hbm]].
  apply safe_bind, safe_ok_or. intros room [Hroom Hr0]%checked_sub_Some.
  apply safe_bind. destruct (payload_count room (zlen payload - position)) as [count| |] eqn:Ec; [cbn [safe]|done|].
  2:{ unfold payload_count in Ec. by repeat case_match. }
  destruct (payload_count_spec room (zlen payload - position) count ltac:(lia) ltac:(lia) Ec) as (Hc & Hcr & Hc8).
  cbv zeta. apply safe_bind, safe_ok_or. intros total Htot. destruct (Z.leb_spec (zlen base + count) u16_max) as [Hu|]; [|done].
  injection Htot as <-.
  destruct (fragment_word_flags (v4_flags_and_offset h) (position + count <? zlen payload) position) as [-> Hfw].
  { unfold reserved_flag in Hres. apply negb_false_iff, Z.eqb_eq in Hres. done. }
  { lia. }
  destruct (fragment_header4_spec base (zlen base + count) id (fragment_word (position + count <? zlen payload) position)
    (b4_ok _ _ _ _ Hb)) as (header & -> & Hh); [unfold u16_max in Hu; lia|done|done|].
  rewrite Ok_bind, index_range_ok, Ok_bind by lia. set (piece := zslice position (position + count) payload).
  assert (zlen piece = count) as Hpc by (unfold piece; rewrite zlen_zslice; lia).
  apply safe_bind. eapply safe_mono; [by apply append_spec|]. intros [retained' output'] (-> & Hmax & -> & Hmo).
  eapply safe_mono.
  - apply IH; [lia| |lia|].
    + intros Hlt'. rewrite Z.add_mod, (Hmod Hlt), (Hc8 ltac:(lia)) by lia. done.
    + rewrite total_bytes_app, Hret. cbn [total_bytes foldr]. lia.
  - cbv beta. intros frames (pieces & out & -> & Ht & Hall & Hbd).
    exists ((position, piece) :: pieces), (emitted frame offset header piece :: out).
    rewrite <-app_assoc. split; [done|]. split; [|split].
    + cbn. rewrite Hpc. split_and!; try done; try lia.
    + constructor; [|done]. exists base, header. cbn [fst snd]. rewrite Hpc. split_and!; try done.
      rewrite (w4_len _ _ _ _ _ Hh). lia.
    + right. destruct Hbd as [->|Hbd]; [|by rewrite <-app_assoc in Hbd].
      cbn [app]. rewrite zlen_app, total_bytes_app. change (zlen [_]) with 1. cbn [total_bytes foldr]. rewrite <-Hret. lia.
Qed.
End ipv4.

Lemma flags_clear w :
  0 <= w < 65536 -> Z.land w 32768 = 0 -> Z.land w 16383 = 0 -> Z.land w 16384 = 0 -> w = 0.
Proof.
  intros Hw H1 H2 H3. rewrite <-(Z.mod_small w 65536) by lia. change 65536 with (2 ^ 16). rewrite <-Z.land_ones by lia.
  change (Z.ones 16) with (Z.lor (Z.lor 32768 16383) 16384). by rewrite !Z.land_lor_distr_r, H1, H2, H3.
Qed.

Definition options_ok (options : FragmentOptions) : Prop :=
  0 <= mtu options /\ from_option (fun id => 0 <= id <= u32_max) True (fo_identification options) /\
  0 <= max_fragments options.

(** The identification the fragments carry. *)
Definition chosen_id (h : Ipv4Header) (options : FragmentOptions) : Z :=
  default (v4_identification h) (fo_identification options).

(** The fragments of a datagram that does not fit the MTU. *)
Record cut_ipv4 (frame : Frame) (offset : Z) (ip : bytes) (h : Ipv4Header) (options : FragmentOptions)
  (frames : list Frame) : Prop := {
  c4_large : mtu options < v4_total_length h;
  c4_payload : v4_header_length h < v4_total_length h;
  c4_sum : checksum_parts [ztake (v4_header_length h) ip] = 0;
  c4_flags : be16 ip 6 = 0;
  c4_id : 0 <= chosen_id h options <= 65535;
  c4_pieces : exists pieces, tiles (zslice (v4_header_length h) (v4_total_length h) ip) 0 pieces /\
    Forall2 (emitted4 frame offset ip h (zslice (v4_header_length h) (v4_total_length h) ip) (chosen_id h options) options)
      pieces frames;
  c4_count : zlen frames <= max_fragments options;
  c4_bytes : total_bytes frames <= max_output_bytes options
}.

Lemma unchanged_spec frame options :
  safe (unchanged frame options) (fun frames => frames = [frame] /\ zlen (frame_bytes frame) <= max_output_bytes options).
Proof. unfold unchanged. destruct (Z.ltb_spec (max_output_bytes options) (zlen (frame_bytes frame))); done. Qed.

Lemma fragment_ipv4_spec frame offset ip h options :
  octets ip -> Ipv4Header_walk ip = Ok h -> 0 <= offset <= zlen (frame_bytes frame) -> options_ok options ->
  safe (fragment_ipv4 frame offset ip h options) (fun frames =>
    v4_total_length h <= mtu options /\ frames = [frame] /\ zlen (frame_bytes frame) <= max_output_bytes options \/
    cut_ipv4 frame offset ip h options frames).
Proof.
  intros Ho Hw Hoff (Hmtu & Hoid & _). destruct (walk4_fields ip h Ho Hw) as (H1 & H2 & H3 & Hv & Hihl & Htot & Hident & Hfl & _).
  unfold fragment_ipv4. cbv zeta. rewrite (index_range_ok ip 0) by lia. rewrite Ok_bind.
  replace (zslice 0 (v4_header_length h) ip) with (ztake (v4_header_length h) ip).
  2:{ unfold zslice. by rewrite zdrop_0, Z.sub_0_r. }
  case_match eqn:Hsum; [exact I|]. apply negb_false_iff, Z.eqb_eq in Hsum.
  destruct (reserved_flag h) eqn:Er; [exact I|]. destruct (v4_is_fragment h) eqn:Ef; [exact I|].
  destruct (Z.leb_spec (v4_total_length h) (mtu options)) as [|Hbig].
  { eapply safe_mono; [apply unchanged_spec|]. intros frames [-> ?]. by left. }
  destruct (dont_fragment h) eqn:Ed; [exact I|].
  destruct (Z.eqb_spec (v4_total_length h) (v4_header_length h)) as [|Hne]; [exact I|].
  apply safe_bind. eapply safe_mono; [by apply copied_options_spec|]. intros copied (Hco & Hcl & Hcm & Hcopy).
  pose proof (be16_range ip 4 Ho) as Hi4. pose proof (be16_range ip 6 Ho) as Hi6.
  apply safe_bind. apply (safe_mono _ (fun id => id = chosen_id h options /\ 0 <= id <= 65535)).
  { unfold chosen_id. destruct (fo_identification options) as [id|]; cbn in Hoid |- *; [|split; [done|lia]].
    destruct (Z.leb_spec id u16_max) as [Hid|]; [|done]. cbn. unfold u16_max in Hid. split; [done|lia]. }
  intros id [-> Hid]. rewrite index_range_ok, Ok_bind by lia. set (payload := zslice _ _ ip).
  assert (zlen payload = v4_total_length h - v4_header_length h) as Hpl by (unfold payload; rewrite zlen_zslice; lia).
  eapply safe_mono.
  - apply (ipv4_loop_spec frame offset ip h copied payload (chosen_id h options) options); try done; try lia.
  - cbv beta. intros frames (pieces & out & -> & Ht & Hall & Hbd). cbn [app] in *. right.
    unfold reserved_flag, v4_is_fragment, dont_fragment in *. rewrite Hfl in *.
    apply negb_false_iff, Z.eqb_eq in Er, Ef, Ed.
    assert (out <> []) as Hout.
    { intros ->. apply Forall2_nil_inv_r in Hall. subst pieces. cbn in Ht. lia. }
    destruct Hbd as [|[Hc Hb]]; [done|]. split; try done; [lia|..].
    + apply flags_clear; try done; lia.
    + by exists pieces.
Qed.
