(* ===== verification/FragmenterIpv6.v ===== *)
(** * Fragmenting IPv6

    The unfragmentable part, the headers of the fragments and the pieces of an
    IPv6 datagram. *)

From stdpp Require Import base tactics option list numbers gmap strings.
From Stdlib Require Import ZArith Lia.
From S2P Require Import Prelude Checksum Ordered Flow Headers HeadersProofs Frame Transform Fragmenter.
From S2P Require Import IpModel IpValidate IpReconstruct IpRanges IpFragment IpRebuild IpDecisions FragmenterProofs.

(** ** The extension chain of a walked header *)

(** Each extension sits where the one before it ends and is of the kind the Next
    Header byte before it announces; up to a Fragment header they are all there is. *)
Fixpoint linked (data : bytes) (protocol offset : Z) (es : list Ipv6Extension) : Prop :=
  match es with
  | [] => is_walkable_ipv6_extension protocol = false
  | e :: es' =>
      ext_protocol e = protocol /\ ext_offset e = offset /\ 8 <= ext_length e /\ offset + ext_length e <= zlen data /\
      (protocol <> FRAGMENT -> is_walkable_ipv6_extension protocol = true /\
         ipv6_extension_header_length protocol (at_ data (offset + 1)) = Some (ext_length e)) /\
      (protocol <> FRAGMENT -> linked data (at_ data offset) (offset + ext_length e) es')
  end.

Lemma chain_step_protocol c e : chain_step c = Ok e -> ext_protocol e = ch_protocol c.
Proof. unfold chain_step. intros H. do 6 inv_ok H. by injection H as <-. Qed.

Lemma walk_extensions_grows fuel : forall c exts exts' c',
  walk_extensions fuel c exts = Ok (exts', c') -> exists more, exts' = exts ++ more.
Proof.
  induction fuel as [|fuel IH]; intros c exts exts' c' Hw; [done|]. cbn [walk_extensions] in Hw.
  destruct (chain_next c) as [[item|] c1].
  - inv_ok Hw. apply IH in Hw as (more & ->). rewrite <-app_assoc. by eexists.
  - injection Hw as <- _. exists []. by rewrite app_nil_r.
Qed.

Lemma walk_extensions_linked data : octets data -> zlen data <= u32_max ->
  forall fuel c exts exts' c', ch_bytes c = data -> ch_done c = false -> walk_extensions fuel c exts = Ok (exts', c') ->
  exists more, exts' = exts ++ more /\ linked data (ch_protocol c) (ch_offset c) more.
Proof.
  intros Ho Hlen. induction fuel as [|fuel IH]; intros c exts exts' c' Hb Hdone Hw; [done|]. cbn [walk_extensions] in Hw.
  unfold chain_next in Hw. rewrite Hdone in Hw. cbn [orb] in Hw.
  destruct (negb ((ch_protocol c =? FRAGMENT) || is_walkable_ipv6_extension (ch_protocol c))) eqn:Ed.
  { injection Hw as <- <-. exists []. rewrite app_nil_r. split; [done|].
    apply negb_true_iff, orb_false_iff in Ed as [_ Ed]. exact Ed. }
  destruct (ch_limit c <=? ch_taken c); [done|].
  pose proof (chain_step_spec c ltac:(by rewrite Hb) ltac:(rewrite Hb; unfold u64_max, u32_max in *; lia)) as Hs.
  destruct (chain_step c) as [e|e|] eqn:Es; [|done|done]. cbn [safe] in Hs. destruct Hs as (He & H8 & Hend & Hn).
  rewrite Ok_bind in Hw. destruct (walk_extensions_grows _ _ _ _ _ Hw) as (es & ->).
  exists (e :: es). split; [by rewrite <-app_assoc|]. cbn. rewrite Hb in Hend, Hn.
  assert (at_ data (ch_offset c) = ext_next_header e) as -> by (unfold at_; by rewrite Hn).
  assert (ch_protocol c <> FRAGMENT -> is_walkable_ipv6_extension (ch_protocol c) = true /\
    ext_fragment e = None /\
    ipv6_extension_header_length (ch_protocol c) (at_ data (ch_offset c + 1)) = Some (ext_length e)) as Hf.
  { intros Hf. apply negb_false_iff in Ed. rewrite (proj2 (Z.eqb_neq _ _) Hf) in Ed.
    destruct (chain_step_inv c e ltac:(by rewrite Hb) ltac:(rewrite Hb; unfold ip_isize_max, u32_max in *; lia) Hf Es)
      as (_ & _ & Hfr & _ & Hl' & _). rewrite Hb in Hl'. done. }
  split_and!; try done; [by apply chain_step_protocol|by intros Hf'; destruct (Hf Hf') as (? & _ & ?)|].
  intros Hf'. destruct (Hf Hf') as (_ & Hfr & _). apply IH in Hw as (more & Em & Hl); [|done|].
  - rewrite <-!app_assoc in Em. apply app_inv_head in Em. injection Em as ->. exact Hl.
  - cbn. unfold ext_fragment_offset. by rewrite Hfr.
Qed.

(** ** The unfragmentable part *)

(** A place where the unfragmentable part can end: where the header announced by
    the byte at [prefix_next] would start, behind the base header or behind a
    Hop-by-Hop or Routing header of the chain. *)
Record prefix_stop (data : bytes) (prefix_len prefix_next : Z) : Prop := {
  ps_path : ext_path data prefix_next (at_ data prefix_next) prefix_len;
  ps_where : prefix_next = 6 /\ prefix_len = IPV6_LENGTH \/
    IPV6_LENGTH <= prefix_next < prefix_len /\
    exists q protocol, ext_path data q protocol prefix_next /\ (protocol = HOP_BY_HOP \/ protocol = ROUTING);
  ps_max : IPV6_LENGTH <= prefix_len <= zlen data
}.

(** The unfragmentable part: the chain up to its last Hop-by-Hop or Routing
    header, that header included; just the base header if there is none. *)
Record prefix_end (data : bytes) (prefix_len prefix_next : Z) : Prop := {
  pe_stop : prefix_stop data prefix_len prefix_next;
  pe_last : forall q protocol offset, ext_path data q protocol offset ->
    protocol = HOP_BY_HOP \/ protocol = ROUTING -> offset < prefix_len
}.

Lemma unfragmentable_spec data es : forall index q protocol offset prefix_len prefix_next r,
  linked data protocol offset es -> ext_path data q protocol offset -> IPV6_LENGTH <= offset ->
  prefix_stop data prefix_len prefix_next ->
  unfragmentable index es prefix_len prefix_next = Ok r -> prefix_stop data r.1 r.2.
Proof.
  induction es as [|e es IH]; intros index q protocol offset pl pn r Hl Hq Hoff Hpe Hu; cbn in Hu.
  { by injection Hu as <-. }
  cbn in Hl. destruct Hl as (Hep & Heo & H8 & Hend & Hwalk & Hl). rewrite Hep in Hu.
  destruct (Z.eqb_spec protocol FRAGMENT) as [|Hnf]; [done|]. cbn [orb] in Hu.
  destruct (protocol =? AH); [done|]. destruct ((protocol =? HOP_BY_HOP) && _); [done|].
  destruct (Hwalk Hnf) as [Hw Hlen].
  assert (ext_path data offset (at_ data offset) (offset + ext_length e)) as Hnext.
  { eapply rtc_r; [exact Hq|]. by apply ext_step_walk. }
  destruct ((protocol =? HOP_BY_HOP) || (protocol =? ROUTING)) eqn:Ek.
  - eapply IH; [exact (Hl Hnf)|exact Hnext|lia| |exact Hu]. unfold ext_range. cbn [fst snd]. rewrite Heo.
    split; [exact Hnext| |lia]. right. split; [lia|]. exists q, protocol. split; [exact Hq|].
    by rewrite <-!Z.eqb_eq, <-orb_true_iff.
  - eapply IH; [exact (Hl Hnf)|exact Hnext|lia|exact Hpe|exact Hu].
Qed.

(** The result is past every Hop-by-Hop and Routing header of the rest of the
    chain, and not before where it started. *)
Lemma unfragmentable_last data es : forall index q protocol offset prefix_len prefix_next r,
  linked data protocol offset es -> prefix_len <= offset ->
  unfragmentable index es prefix_len prefix_next = Ok r ->
  prefix_len <= r.1 /\ forall x, rtc (ext_step data) (q, protocol, offset) x ->
    x.1.2 = HOP_BY_HOP \/ x.1.2 = ROUTING -> x.2 < r.1.
Proof.
  induction es as [|e es IH]; intros index q protocol offset pl pn r Hl Hoff Hu; cbn in Hu.
  { injection Hu as <-. split; [cbn; lia|]. intros x Hx Hk. cbn in Hl. exfalso.
    apply rtc_inv in Hx as [<-|(y & Hy & _)]; [by destruct Hk as [E|E]; cbn in E; subst protocol|].
    apply ext_step_inv in Hy as (_ & Hy & _). congruence. }
  cbn in Hl. destruct Hl as (Hep & Heo & H8 & Hend & Hwalk & Hl). rewrite Hep in Hu.
  destruct (Z.eqb_spec protocol FRAGMENT) as [|Hnf]; [done|]. cbn [orb] in Hu.
  destruct (protocol =? AH); [done|]. destruct ((protocol =? HOP_BY_HOP) && _); [done|].
  destruct (Hwalk Hnf) as [_ Hlen]. specialize (Hl Hnf).
  assert (forall y x, rtc (ext_step data) y x -> ext_step data (q, protocol, offset) y ->
    rtc (ext_step data) (offset, at_ data offset, offset + ext_length e) x) as Hstep.
  { intros y x Hyx Hy. apply ext_step_inv in Hy as (_ & _ & length & El & _ & ->). by simplify_eq. }
  destruct ((protocol =? HOP_BY_HOP) || (protocol =? ROUTING)) eqn:Ek.
  - unfold ext_range in Hu. rewrite Heo in Hu. cbn [fst snd] in Hu.
    destruct (IH (index + 1) offset _ _ _ _ _ Hl (Z.le_refl _) Hu) as [Hge Hall]. split; [lia|].
    intros x Hx Hk. apply rtc_inv in Hx as [<-|(y & Hy & Hyx)]; [cbn; lia|]. apply Hall; [by eapply Hstep|done].
  - destruct (IH (index + 1) offset (at_ data offset) (offset + ext_length e) pl pn r Hl ltac:(lia) Hu) as [Hge Hall]. split; [done|].
    intros x Hx Hk. apply rtc_inv in Hx as [<-|(y & Hy & Hyx)]; [|apply Hall; [by eapply Hstep|done]].
    apply orb_false_iff in Ek as [E1%Z.eqb_neq E2%Z.eqb_neq]. cbn in Hk. tauto.
Qed.

Lemma pe_path data prefix_len prefix_next : prefix_end data prefix_len prefix_next ->
  ext_path data prefix_next (at_ data prefix_next) prefix_len.
Proof. intros H. apply (ps_path _ _ _ (pe_stop _ _ _ H)). Qed.

Lemma pe_where data prefix_len prefix_next : prefix_end data prefix_len prefix_next ->
  prefix_next = 6 /\ prefix_len = IPV6_LENGTH \/ IPV6_LENGTH <= prefix_next < prefix_len.
Proof. intros H. destruct (ps_where _ _ _ (pe_stop _ _ _ H)) as [?|[? _]]; [by left|by right]. Qed.

Lemma pe_max data prefix_len prefix_next : prefix_end data prefix_len prefix_next ->
  IPV6_LENGTH <= prefix_len <= zlen data.
Proof. intros H. apply (ps_max _ _ _ (pe_stop _ _ _ H)). Qed.

Lemma prefix_end_next data prefix_len prefix_next :
  prefix_end data prefix_len prefix_next -> 0 <= prefix_next < prefix_len.
Proof. intros H. destruct (pe_where _ _ _ H) as [[-> ->]|[? ?]]; unfold IPV6_LENGTH in *; lia. Qed.

Lemma walk6_fields ip h :
  octets ip -> Ipv6Header_walk ip = Ok h ->
  0 <= v6_payload_length h <= 65535 /\ IPV6_LENGTH + v6_payload_length h <= zlen ip /\
  Z.shiftr (at_ ip 0) 4 = 6 /\ v6_payload_length h = be16 ip 4 /\
  linked (ztake (IPV6_LENGTH + v6_payload_length h) ip) (at_ ip 6) IPV6_LENGTH (v6_extensions h) /\
  extensions_tile IPV6_LENGTH (v6_upper_layer_offset h) (v6_extensions h) /\
  IPV6_LENGTH <= v6_upper_layer_offset h <= IPV6_LENGTH + v6_payload_length h.
Proof.
  intros Ho Hw. unfold Ipv6Header_walk, Ipv6Header_walk_fixed in Hw.
  destruct (first_chunk IPV6_LENGTH ip) as [fixed|] eqn:E; [|done]. cbn [ok_or] in Hw. rewrite Ok_bind in Hw.
  apply first_chunk_Some in E as [Hl ->].
  assert (forall i, 0 <= i < 40 -> at_ (ztake IPV6_LENGTH ip) i = at_ ip i) as Hat.
  { intros i Hi. unfold at_, IPV6_LENGTH. by rewrite zget_ztake, (proj2 (Z.ltb_lt _ _)) by lia. }
  unfold be16 in Hw. rewrite !Hat in Hw by lia. fold (be16 ip 4) in Hw.
  destruct (Z.eqb_spec (Z.shiftr (at_ ip 0) 4) 6) as [Hv|]; [|done]. cbn [negb] in Hw.
  case_match; [done|]. rewrite Ok_bind in Hw. pose proof (be16_range ip 4 Ho) as Hr.
  destruct (get_range ip 0 (IPV6_LENGTH + be16 ip 4)) as [data|] eqn:Eg; [|done]. cbn [ok_or] in Hw. rewrite Ok_bind in Hw.
  apply get_range_Some in Eg as (_ & _ & Hend & ->).
  replace (zslice 0 (IPV6_LENGTH + be16 ip 4) ip) with (ztake (IPV6_LENGTH + be16 ip 4) ip) in Hw.
  2:{ unfold zslice. by rewrite zdrop_0, Z.sub_0_r. }
  set (data := ztake (IPV6_LENGTH + be16 ip 4) ip) in *.
  assert (zlen data = IPV6_LENGTH + be16 ip 4) as Hdl by (unfold data; rewrite zlen_ztake; unfold IPV6_LENGTH in *; lia).
  assert (octets data) as Hdo by (by apply octets_ztake).
  assert (zlen data <= u32_max) as Hdm by (unfold u32_max, IPV6_LENGTH in *; lia).
  pose proof (Ipv6Header_walk_chain_spec data (be16 ip 4) (at_ ip 6) Hdo ltac:(lia) Hdm) as Hsp.
  rewrite Hw in Hsp. cbn [safe] in Hsp. destruct Hsp as (Hpl & Ht & _ & Hup).
  unfold Ipv6Header_walk_chain in Hw.
  destruct (walk_extensions 66 (chain_new data IPV6_LENGTH (at_ ip 6)) []) as [[exts c]|e|] eqn:Ew; [|done|done].
  apply (walk_extensions_linked data Hdo Hdm) in Ew as (more & -> & Hlk); [|done|done].
  rewrite Ok_bind in Hw. cbn in Hw. injection Hw as <-. cbn in *.
  split_and!; try done; try lia. clear -Ht. revert Ht. generalize IPV6_LENGTH.
  induction more as [|e more IH]; intros z; cbn; [lia|]. intros (_ & ? & H). apply IH in H. lia.
Qed.

(** ** The IPv6 loop *)

(** The unfragmentable part as it stands in a fragment that carries [count]
    bytes: a Fragment header is announced, and the payload length counts it. *)
Definition fragment_prefix6 (ip : bytes) (prefix_len prefix_next count : Z) : bytes :=
  overwrite (overwrite (ztake prefix_len ip) prefix_next [FRAGMENT]) 4 (to_be_bytes16 (prefix_len - 40 + 8 + count)).

Lemma fragment_prefix6_len ip prefix_len prefix_next count :
  IPV6_LENGTH <= prefix_len <= zlen ip -> 0 <= prefix_next < prefix_len ->
  zlen (fragment_prefix6 ip prefix_len prefix_next count) = prefix_len.
Proof.
  intros Hl Hn. unfold IPV6_LENGTH in Hl. unfold fragment_prefix6.
  assert (zlen [FRAGMENT] = 1) as L1 by done. assert (forall x, zlen (to_be_bytes16 x) = 2) as L2 by done.
  assert (zlen (ztake prefix_len ip) = prefix_len) as Hp by (rewrite zlen_ztake; lia).
  rewrite !zlen_overwrite; rewrite ?zlen_overwrite; rewrite ?L1, ?L2; lia.
Qed.

Definition fragment_extension (next flags id : Z) : bytes := [next; 0] ++ to_be_bytes16 flags ++ to_be_bytes32 id.

Lemma fragment_header6_spec ip prefix_len prefix_next count id flags :
  IPV6_LENGTH <= prefix_len <= zlen ip -> 0 <= prefix_next < prefix_len ->
  safe (fragment_header6 ip prefix_len prefix_next count id flags) (fun header =>
    prefix_len - 40 + 8 + count <= 65535 /\
    header = fragment_prefix6 ip prefix_len prefix_next count ++ fragment_extension (at_ ip prefix_next) flags id).
Proof.
  intros Hl Hn. unfold IPV6_LENGTH in Hl. unfold fragment_header6. rewrite (index_range_ok ip 0) by lia. rewrite Ok_bind.
  replace (zslice 0 prefix_len ip) with (ztake prefix_len ip) by (unfold zslice; by rewrite zdrop_0, Z.sub_0_r).
  assert (zlen (ztake prefix_len ip) = prefix_len) as Hp by (rewrite zlen_ztake; lia).
  assert (@index TransformError (ztake prefix_len ip) prefix_next = Ok (at_ ip prefix_next)) as ->.
  { unfold index, at_. rewrite zget_ztake, (proj2 (Z.ltb_lt _ _)) by lia.
    by destruct (zget_lt_is_Some ip prefix_next) as [b ->]; [lia|]. }
  assert (zlen [FRAGMENT] = 1) as L1 by done. assert (forall x, zlen (to_be_bytes16 x) = 2) as L2 by done.
  rewrite Ok_bind, copy_at_ok, Ok_bind by (rewrite ?L1; lia).
  apply safe_bind, safe_ok_or. intros x Hx. destruct (Z.leb_spec (prefix_len - 40 + 8 + count) u16_max); [|done].
  injection Hx as <-. rewrite copy_at_ok, Ok_bind by (rewrite ?zlen_overwrite, ?L1, ?L2; rewrite ?L1; lia). cbn [safe].
  unfold u16_max in *. split; [lia|done].
Qed.

Section ipv6.
Context (frame : Frame) (offset : Z) (ip payload : bytes) (prefix_len prefix_next room id : Z) (options : FragmentOptions).

Definition emitted6 (piece : Z * bytes) (f : Frame) : Prop :=
  zlen piece.2 <= room /\ prefix_len - 40 + 8 + zlen piece.2 <= 65535 /\
  f = emitted frame offset
        (fragment_prefix6 ip prefix_len prefix_next (zlen piece.2) ++
         fragment_extension (at_ ip prefix_next)
           (piece.1 + from_bool (piece.1 + zlen piece.2 <? zlen payload)) id) piece.2.

Context (Hl : IPV6_LENGTH <= prefix_len <= zlen ip) (Hn : 0 <= prefix_next < prefix_len).
Context (Hoff : 0 <= offset <= zlen (frame_bytes frame)) (Hroom : 0 <= room).
Context (Hpl : zlen payload <= 65535).

Lemma fragment_flags6 position more :
  0 <= position <= 65535 -> position mod 8 = 0 ->
  Z.lor (Z.land (position mod 65536) 65528) (from_bool more) = position + from_bool more.
Proof.
  intros Hp Hm. rewrite (Z.mod_small position) by lia.
  assert (Z.land position 65528 = position) as ->.
  { assert (position = 8 * (position / 8)) as E by (pose proof (Z.div_mod position 8 ltac:(lia)); lia).
    rewrite E at 1. rewrite (Z.mul_comm 8). change 8 with (2 ^ 3) at 2. rewrite <-Z.shiftl_mul_pow2 by lia.
    change 65528 with (Z.shiftl 8191 3). rewrite <-Z.shiftl_land. change 8191 with (Z.ones 13). rewrite Z.land_ones by lia.
    rewrite Z.mod_small by (pose proof (Z.div_pos position 8); pose proof (Z.div_lt_upper_bound position 8 8192); lia).
    rewrite Z.shiftl_mul_pow2 by lia. lia. }
  destruct more; cbn [from_bool]; [|by rewrite Z.lor_0_r, Z.add_0_r].
  assert (Z.land position 1 = 0) as H0.
  { change 1 with (Z.ones 1). rewrite Z.land_ones by lia. change (2 ^ 1) with 2.
    pose proof (Z.div_mod position 8 ltac:(lia)). rewrite Hm, Z.add_0_r in H. rewrite H, Z.mul_mod by lia. by vm_compute. }
  rewrite <-Z.lxor_lor, <-Z.add_nocarry_lxor by done. done.
Qed.

Lemma ipv6_loop_spec fuel : forall position retained output,
  0 <= position <= zlen payload -> (position < zlen payload -> position mod 8 = 0) ->
  zlen payload - position < Z.of_nat fuel -> retained = total_bytes output ->
  safe (ipv6_loop fuel frame offset ip payload prefix_len prefix_next room id options position (retained, output))
    (fun frames => exists pieces out, frames = output ++ out /\ tiles payload position pieces /\
      Forall2 emitted6 pieces out /\
      (out = [] \/ zlen frames <= max_fragments options /\ total_bytes frames <= max_output_bytes options)).
Proof.
  induction fuel as [|fuel IH]; intros position retained output Hp Hmod Hf Hret; [lia|]. cbn [ipv6_loop].
  destruct (Z.ltb_spec position (zlen payload)) as [Hlt|Hge]; cbn [negb].
  2:{ cbn. exists [], []. rewrite app_nil_r. split_and!; try done; [cbn; lia|by left]. }
  apply safe_bind. destruct (payload_count room (zlen payload - position)) as [count| |] eqn:Ec; [cbn [safe]|done|].
  2:{ unfold payload_count in Ec. by repeat case_match. }
  destruct (payload_count_spec room (zlen payload - position) count ltac:(lia) ltac:(lia) Ec) as (Hc & Hcr & Hc8).
  cbv zeta. rewrite fragment_flags6 by (auto with lia). apply safe_bind. eapply safe_mono; [by apply fragment_header6_spec|].
  intros header [Hmax ->]. rewrite index_range_ok, Ok_bind by lia. set (piece := zslice position (position + count) payload).
  assert (zlen piece = count) as Hpc by (unfold piece; rewrite zlen_zslice; lia).
  apply safe_bind. eapply safe_mono; [by apply append_spec|]. intros [retained' output'] (-> & Hmf & -> & Hmo).
  eapply safe_mono.
  - apply IH; [lia| |lia|].
    + intros Hlt'. rewrite Z.add_mod, (Hmod Hlt), (Hc8 ltac:(lia)) by lia. done.
    + rewrite total_bytes_app, Hret. cbn [total_bytes foldr]. lia.
  - cbv beta. intros frames (pieces & out & -> & Ht & Hall & Hbd).
    exists ((position, piece) :: pieces). eexists (_ :: out).
    rewrite <-app_assoc. split; [done|]. split; [|split].
    + cbn. rewrite Hpc. split_and!; try done; try lia.
    + constructor; [|done]. unfold emitted6. cbn [fst snd]. rewrite Hpc. split_and!; try done; lia.
    + right. destruct Hbd as [->|Hbd]; [|by rewrite <-app_assoc in Hbd].
      cbn [app]. rewrite zlen_app, total_bytes_app. change (zlen [_]) with 1. cbn [total_bytes foldr]. rewrite <-Hret. lia.
Qed.
End ipv6.

(** ** The whole datagram *)

Record cut_ipv6 (frame : Frame) (offset : Z) (ip : bytes) (h : Ipv6Header) (options : FragmentOptions)
  (frames : list Frame) : Prop := {
  c6_large : mtu options < IPV6_LENGTH + v6_payload_length h;
  c6_pieces : exists prefix_len prefix_next id pieces,
    prefix_end (ztake (IPV6_LENGTH + v6_payload_length h) ip) prefix_len prefix_next /\
    (fo_identification options = Some id /\ prefix_len + 8 <= mtu options) /\
    tiles (zslice prefix_len (IPV6_LENGTH + v6_payload_length h) ip) 0 pieces /\
    Forall2 (emitted6 frame offset ip (zslice prefix_len (IPV6_LENGTH + v6_payload_length h) ip)
      prefix_len prefix_next (mtu options - (prefix_len + 8)) id) pieces frames;
  c6_count : zlen frames <= max_fragments options;
  c6_bytes : total_bytes frames <= max_output_bytes options
}.

Lemma unfragmentable_le es : forall index offset last pl pn r,
  extensions_tile offset last es -> pl <= offset -> unfragmentable index es pl pn = Ok r -> r.1 <= last.
Proof.
  induction es as [|e es IH]; intros index offset last pl pn r Ht Hle Hu; cbn in Ht, Hu.
  { injection Hu as <-. cbn. lia. }
  destruct Ht as (Ho & H8 & Ht). do 2 (case_match; [done|]).
  case_match; (eapply IH; [exact Ht| |exact Hu]); unfold ext_range; cbn; lia.
Qed.

Lemma unfragmentable_not_panic es : forall index pl pn, unfragmentable index es pl pn <> Panic.
Proof. induction es as [|e es IH]; intros index pl pn; cbn; [done|]. repeat case_match; auto. Qed.

Lemma fragment_ipv6_spec frame offset ip h options :
  octets ip -> Ipv6Header_walk ip = Ok h -> 0 <= offset <= zlen (frame_bytes frame) -> options_ok options ->
  safe (fragment_ipv6 frame offset ip h options) (fun frames =>
    IPV6_LENGTH + v6_payload_length h <= mtu options /\ frames = [frame] /\
      zlen (frame_bytes frame) <= max_output_bytes options \/
    cut_ipv6 frame offset ip h options frames).
Proof.
  intros Ho Hw Hoff (Hmtu & Hoid & _). destruct (walk6_fields ip h Ho Hw) as (H1 & H2 & _ & _ & Hlk & Htile & Hup).
  unfold fragment_ipv6. destruct (v6_payload_length h =? 0) eqn:Ez; [exact I|]. cbv zeta.
  set (data := ztake (IPV6_LENGTH + v6_payload_length h) ip) in *. unfold v6_datagram_length.
  assert (zlen data = IPV6_LENGTH + v6_payload_length h) as Hd by (unfold data; rewrite zlen_ztake; unfold IPV6_LENGTH in *; lia).
  assert (at_ data 6 = at_ ip 6) as H6.
  { unfold at_, data. by rewrite zget_ztake, (proj2 (Z.ltb_lt _ _)) by (unfold IPV6_LENGTH; lia). }
  apply safe_bind. destruct (unfragmentable 0 (v6_extensions h) IPV6_LENGTH 6) as [[pl pn]|e|] eqn:Eu; [cbn [safe]|exact I|].
  2:{ by apply unfragmentable_not_panic in Eu. }
  assert (prefix_end data pl pn) as Hpe.
  { split.
    - refine (unfragmentable_spec data (v6_extensions h) 0 6 (at_ ip 6) IPV6_LENGTH IPV6_LENGTH 6 (pl, pn) Hlk _ _ _ Eu); [|done|].
      + rewrite <-H6. apply rtc_refl.
      + split; [apply rtc_refl|by left|rewrite Hd; lia].
    - intros q protocol o Hpath Hk. destruct (unfragmentable_last data (v6_extensions h) 0 6 _ _ _ _ _ Hlk (Z.le_refl _) Eu)
        as [_ Hall]. apply (Hall (q, protocol, o)); [|done]. rewrite <-H6. exact Hpath. }
  pose proof (pe_max _ _ _ Hpe) as Hm. rewrite Hd in Hm.
  pose proof (prefix_end_next _ _ _ Hpe) as Hpn.
  destruct (v6_upper_layer h =? ESP); [exact I|].
  destruct (Z.leb_spec (IPV6_LENGTH + v6_payload_length h) (mtu options)) as [|Hbig].
  { eapply safe_mono; [apply unchanged_spec|]. intros frames [-> ?]. by left. }
  apply safe_bind. apply (safe_mono _ (fun len => 0 <= len)).
  { unfold transport_length. destruct (_ =? TCP); [|repeat case_match; cbn; lia || done]. apply safe_bind, safe_ok_or.
    intros v _. cbv zeta. destruct (Z.ltb_spec (Z.shiftr v 4 * 4) 20); cbn; [done|lia]. }
  intros tl Htl. destruct (IPV6_LENGTH + v6_payload_length h <? v6_upper_layer_offset h + tl); [exact I|].
  apply safe_bind, safe_ok_or. intros room [-> Hroom]%checked_sub_Some.
  pose proof (unfragmentable_le _ _ _ _ _ _ _ Htile (Z.le_refl _) Eu) as Hle. cbn in Hle.
  rewrite sub_u_ok, Ok_bind by lia. case_match; [exact I|]. apply safe_bind, safe_ok_or. intros id Hid.
  rewrite index_range_ok, Ok_bind by lia. set (payload := zslice _ _ ip).
  assert (zlen payload = IPV6_LENGTH + v6_payload_length h - pl) as Hpl by (unfold payload; rewrite zlen_zslice; lia).
  unfold IPV6_LENGTH in Hm. eapply safe_mono.
  - apply (ipv6_loop_spec frame offset ip payload pl pn (mtu options - (pl + 8)) id options);
      unfold IPV6_LENGTH in *; try done; try lia.
  - cbv beta. intros frames (pieces & out & -> & Ht & Hall & Hbd). cbn [app] in *. right.
    assert (out <> []) as Hout.
    { intros ->. apply Forall2_nil_inv_r in Hall. subst pieces. cbn in Ht. unfold IPV6_LENGTH in *. lia. }
    destruct Hbd as [|[Hc Hb]]; [done|]. split; try done. exists pl, pn, id, pieces. by split_and!.
Qed.
