(* ===== verification/FragmenterTheorems.v ===== *)
(** * Theorems on fragmenting

    Safety and limits of [fragment], the shape of what it emits, and the round
    trip through the reassembler. *)

From stdpp Require Import base tactics option list numbers gmap strings.
From Stdlib Require Import ZArith Lia.
From S2P Require Import Prelude Checksum Ordered Flow Headers HeadersProofs Frame Transform Fragmenter.
From S2P Require Import IpModel IpValidate IpReconstruct IpRanges IpFragment IpRebuild IpDecisions.
From S2P Require Import FragmenterProofs FragmenterIpv6.

(** ** The entry point *)

Lemma LinkHeader_walk_spec link frame :
  safe (LinkHeader_walk link frame) (fun o => forall l, o = Some l -> 0 <= network_offset l <= zlen frame).
Proof.
  unfold LinkHeader_walk. destruct (link =? 1).
  - apply safe_bind. eapply safe_mono; [apply EthernetHeader_walk_spec|]. intros h [_ Hp]. cbn. intros l [= <-].
    unfold ETHERNET_LENGTH in Hp. cbn. lia.
  - destruct (negb (is_raw_ip link)); [done|]. cbn. intros l [= <-]. cbn. split; [lia|apply zlen_nonneg].
Qed.

(** What the link header announces is walked from the network offset. *)
Definition walked_from (data : bytes) (h : IpHeader) : Prop :=
  match h with IpV4 h => Ipv4Header_walk data = Ok h | IpV6 h => Ipv6Header_walk data = Ok h end.

Lemma IpHeader_walk_spec ip : octets ip -> safe (IpHeader_walk ip) (walked_from ip).
Proof.
  intros Ho. unfold IpHeader_walk. destruct (head ip) as [b|]; [|done].
  pose proof (Ipv4Header_walk_spec ip false Ho) as H4.
  assert (Ipv6Header_walk ip <> Panic) as H6.
  { unfold Ipv6Header_walk. pose proof (Ipv6Header_walk_fixed_spec ip Ho) as Hf.
    destruct (Ipv6Header_walk_fixed ip) as [[len nh]|e|]; [|done|done]. cbn in Hf. rewrite Ok_bind.
    destruct (get_range ip 0 (IPV6_LENGTH + len)) as [data|] eqn:Eg; [|done]. cbn [ok_or]. rewrite Ok_bind.
    apply get_range_Some in Eg as (_ & _ & Hend & ->).
    pose proof (Ipv6Header_walk_chain_spec (zslice 0 (IPV6_LENGTH + len) ip) len nh (octets_zslice _ _ _ Ho)) as Hc.
    destruct (Ipv6Header_walk_chain _ len nh); try done. exfalso. apply Hc.
    all: unfold IPV6_LENGTH, u32_max, u16_max in *; rewrite zlen_zslice; lia. }
  destruct (_ =? 4); [|destruct (_ =? 6); [|done]].
  - fold (Ipv4Header_walk ip) in H4. destruct (Ipv4Header_walk ip) eqn:E; [|done|done]. cbn. by rewrite E.
  - destruct (Ipv6Header_walk ip) eqn:E; [|done|done]. cbn. by rewrite E.
Qed.

Lemma LinkHeader_walk_ip_spec l frame :
  octets frame -> 0 <= network_offset l <= zlen frame ->
  safe (LinkHeader_walk_ip l frame) (fun o => forall h, o = Some h -> walked_from (zdrop (network_offset l) frame) h).
Proof.
  intros Ho Hn. unfold LinkHeader_walk_ip. destruct (negb (carries_ip l)); [done|].
  apply safe_bind, safe_ok_or. intros ip [_ ->]%get_from_Some.
  assert (safe (h ← IpHeader_walk (zdrop (network_offset l) frame); Ok (Some h))
    (fun o => forall h, o = Some h -> walked_from (zdrop (network_offset l) frame) h)) as Hw.
  { apply safe_bind. eapply safe_mono; [by apply IpHeader_walk_spec, octets_zdrop|]. cbn. by intros h Hh h' [= <-]. }
  repeat case_match; done.
Qed.

(** What [fragment] did: where the datagram starts, and its fragments. *)
Definition fragmented (frame : Frame) (options : FragmentOptions) (frames : list Frame) : Prop :=
  exists l h, LinkHeader_walk (link_type frame) (frame_bytes frame) = Ok (Some l) /\
    LinkHeader_walk_ip l (frame_bytes frame) = Ok (Some h) /\
    let offset := network_offset l in
    let ip := zdrop offset (frame_bytes frame) in
    0 <= offset <= zlen (frame_bytes frame) /\ walked_from ip h /\
    (IpHeader_datagram_length h <= mtu options /\ frames = [frame] /\
       zlen (frame_bytes frame) <= max_output_bytes options \/
     match h with
     | IpV4 h => cut_ipv4 frame offset ip h options frames
     | IpV6 h => cut_ipv6 frame offset ip h options frames
     end).

Lemma fragment_spec frame options :
  octets (frame_bytes frame) -> options_ok options ->
  safe (fragment frame options) (fun frames => 0 < max_fragments options <= 8192 /\ fragmented frame options frames).
Proof.
  intros Ho Hopt. pose proof Hopt as (_ & _ & Hmax). unfold fragment.
  destruct (Z.eqb_spec (max_fragments options) 0); [done|].
  destruct (Z.ltb_spec 8192 (max_fragments options)); [done|]. destruct (negb _); [done|].
  apply (safe_mono _ (fragmented frame options)); [|intros; split; [lia|done]].
  pose proof (LinkHeader_walk_spec (link_type frame) (frame_bytes frame)) as Hl.
  destruct (LinkHeader_walk (link_type frame) (frame_bytes frame)) as [[l|]|e|] eqn:El; cbn [map_err]; try done.
  rewrite Ok_bind. cbn [ok_or]. rewrite Ok_bind. cbn in Hl. specialize (Hl l eq_refl).
  pose proof (LinkHeader_walk_ip_spec l (frame_bytes frame) Ho Hl) as Hi.
  destruct (LinkHeader_walk_ip l (frame_bytes frame)) as [[h|]|e|] eqn:Ei; cbn [map_err]; try done.
  rewrite Ok_bind. cbn [ok_or]. rewrite Ok_bind. cbn in Hi. specialize (Hi h eq_refl). cbv zeta.
  rewrite index_range_ok by lia. rewrite Ok_bind.
  replace (zslice (network_offset l) (zlen (frame_bytes frame)) (frame_bytes frame))
    with (zdrop (network_offset l) (frame_bytes frame)).
  2:{ unfold zslice. symmetry. apply ztake_all. rewrite zlen_zdrop. lia. }
  pose proof (octets_zdrop (network_offset l) _ Ho) as Hio.
  destruct h as [h|h].
  - eapply safe_mono; [by apply fragment_ipv4_spec|]. cbv beta. intros frames Hf. exists l, (IpV4 h). split_and!; try done.
  - eapply safe_mono; [by apply fragment_ipv6_spec|]. cbv beta. intros frames Hf. exists l, (IpV6 h). split_and!; try done.
Qed.

(** ** Limits *)

Lemma emitted_bytes frame offset header piece :
  exists pad, frame_bytes (emitted frame offset header piece) =
    ztake offset (frame_bytes frame) ++ (header ++ piece) ++ zrep pad 0.
Proof. eexists. unfold emitted. cbn. by rewrite <-!app_assoc. Qed.

Lemma Forall2_elem {A B} (P : A -> B -> Prop) l k y : Forall2 P l k -> y ∈ k -> exists x, x ∈ l /\ P x y.
Proof.
  intros Hf Hy. apply list_elem_of_lookup in Hy as [i Hi]. destruct (Forall2_lookup_r _ _ _ _ _ Hf Hi) as (x & Hx & HP).
  exists x. split; [|done]. by eapply list_elem_of_lookup_2.
Qed.

(** The length a datagram announces: the total length of an IPv4 header, the
    payload length of an IPv6 header behind its forty bytes. *)
Definition announced_length (datagram : bytes) : Z :=
  if Z.shiftr (at_ datagram 0) 4 =? 4 then be16 datagram 2 else IPV6_LENGTH + be16 datagram 4.

(** Behind the link header of [frame], [f] carries one whole datagram that fits
    the MTU; what follows it is padding, or what followed it in [frame]. *)
Definition fits (frame : Frame) (offset : Z) (options : FragmentOptions) (f : Frame) : Prop :=
  exists datagram trailer, announced_length datagram = zlen datagram /\ zlen datagram <= mtu options /\
    link_type f = link_type frame /\
    frame_bytes f = ztake offset (frame_bytes frame) ++ datagram ++ trailer /\
    (f = frame \/ exists pad, trailer = zrep pad 0).

Lemma emitted_fits frame offset options header piece :
  announced_length (header ++ piece) = zlen header + zlen piece ->
  zlen header + zlen piece <= mtu options -> fits frame offset options (emitted frame offset header piece).
Proof.
  intros Ha Hm. destruct (emitted_bytes frame offset header piece) as [pad E]. exists (header ++ piece), (zrep pad 0).
  rewrite zlen_app. split_and!; try done. right. by exists pad.
Qed.

Lemma at_app_left l k i : i < zlen l -> at_ (l ++ k) i = at_ l i.
Proof. intros Hi. unfold at_. by rewrite zget_app, (proj2 (Z.ltb_lt _ _)). Qed.

Lemma cut_ipv4_fits frame offset ip h options frames :
  cut_ipv4 frame offset ip h options frames -> forall f, f ∈ frames -> fits frame offset options f.
Proof.
  intros [_ _ _ _ _ (pieces & _ & Hall) _ _] f Hin.
  destruct (Forall2_elem _ _ _ _ Hall Hin) as (piece & _ & base & header & Hb & Hh & Hm & ->).
  apply emitted_fits; [|done]. pose proof (w4_len _ _ _ _ _ Hh) as Hl.
  destruct (b4_ok _ _ _ _ Hb) as [_ [H20 _]]. unfold announced_length, be16. rewrite !at_app_left by lia.
  assert (at_ header 0 = at_ base 0) as -> by (unfold at_; by rewrite (w4_other _ _ _ _ _ Hh) by set_solver).
  rewrite (b4_version _ _ _ _ Hb). cbn [Z.eqb Pos.eqb]. fold (be16 header 2).
  rewrite (w4_total _ _ _ _ _ Hh). lia.
Qed.

Lemma cut_ipv6_fits frame offset ip h options frames :
  0 <= offset <= zlen (frame_bytes frame) -> Ipv6Header_walk ip = Ok h -> octets ip ->
  cut_ipv6 frame offset ip h options frames -> forall f, f ∈ frames -> fits frame offset options f.
Proof.
  intros Hoff Hw Ho [_ (pl & pn & id & pieces & Hpe & _ & Ht & Hall) _ _] f Hin.
  destruct (Forall2_elem _ _ _ _ Hall Hin) as ([p c] & _ & Hroom & Hmax & ->). cbn [fst snd] in *.
  destruct (walk6_fields ip h Ho Hw) as (H1 & H2 & Hv & _). pose proof (pe_max _ _ _ Hpe) as Hm.
  rewrite zlen_ztake in Hm. pose proof (prefix_end_next _ _ _ Hpe) as Hn. pose proof (zlen_nonneg c).
  set (ext := fragment_extension _ _ _). assert (zlen ext = 8) as L8 by done.
  assert (zlen (fragment_prefix6 ip pl pn (zlen c)) = pl) as Lp by (apply fragment_prefix6_len; lia).
  assert (pn = 6 \/ 40 <= pn) as Hpn by (destruct (pe_where _ _ _ Hpe) as [[? _]|[? _]]; unfold IPV6_LENGTH in *; lia).
  unfold IPV6_LENGTH in *.
  apply emitted_fits; rewrite zlen_app, Lp, L8; [|lia].
  unfold announced_length, be16. rewrite <-app_assoc, !at_app_left by lia. fold (be16 (fragment_prefix6 ip pl pn (zlen c)) 4).
  assert (zlen [FRAGMENT] = 1) as L1 by done. assert (forall x, zlen (to_be_bytes16 x) = 2) as L2 by done.
  assert (zlen (ztake pl ip) = pl) as Hp by (rewrite zlen_ztake; lia).
  assert (forall i, zget (fragment_prefix6 ip pl pn (zlen c)) i =
    if (4 <=? i) && (i <? 6) then zget (to_be_bytes16 (pl - 40 + 8 + zlen c)) (i - 4)
    else zget (overwrite (ztake pl ip) pn [FRAGMENT]) i) as Hg.
  { intros i. unfold fragment_prefix6. by rewrite zget_overwrite by (rewrite ?zlen_overwrite, ?L1, ?L2; rewrite ?L1; lia). }
  assert (at_ (fragment_prefix6 ip pl pn (zlen c)) 0 = at_ ip 0) as ->.
  { unfold at_. rewrite Hg. cbn [andb Z.leb Z.compare]. rewrite zget_overwrite, L1 by (rewrite ?L1; lia).
    rewrite (proj2 (Z.leb_gt pn 0)) by lia. cbn [andb]. by rewrite zget_ztake, (proj2 (Z.ltb_lt _ _)) by lia. }
  rewrite Hv. cbn [Z.eqb Pos.eqb].
  assert (be16 (fragment_prefix6 ip pl pn (zlen c)) 4 = pl - 40 + 8 + zlen c) as ->; [|unfold IPV6_LENGTH; lia].
  unfold be16, at_. rewrite !Hg. cbn [andb Z.leb Z.ltb Z.compare Pos.compare Pos.compare_cont]. apply be16_to_be. lia.
Qed.

(** A frame left as it is carries the datagram its header announces. *)
Lemma unchanged_fits frame l h options :
  octets (frame_bytes frame) -> 0 <= network_offset l <= zlen (frame_bytes frame) ->
  walked_from (zdrop (network_offset l) (frame_bytes frame)) h -> IpHeader_datagram_length h <= mtu options ->
  fits frame (network_offset l) options frame.
Proof.
  intros Ho Hoff Hw Hle. set (ip := zdrop (network_offset l) (frame_bytes frame)) in *.
  assert (octets ip) as Hio by (by apply octets_zdrop).
  assert (20 <= IpHeader_datagram_length h <= zlen ip /\
    announced_length ip = IpHeader_datagram_length h) as [Hlen Ha].
  { unfold announced_length. destruct h as [h|h]; cbn [walked_from IpHeader_datagram_length] in Hw |- *.
    - destruct (walk4_fields ip h Hio Hw) as (? & ? & _ & -> & _ & <- & _). cbn. split; [lia|done].
    - destruct (walk6_fields ip h Hio Hw) as (? & ? & -> & <- & _). cbn. unfold v6_datagram_length, IPV6_LENGTH in *.
      split; [lia|done]. }
  exists (ztake (IpHeader_datagram_length h) ip), (zdrop (IpHeader_datagram_length h) ip).
  assert (zlen (ztake (IpHeader_datagram_length h) ip) = IpHeader_datagram_length h) as Hz by (rewrite zlen_ztake; lia).
  rewrite Hz, ztake_zdrop_app. split_and!; try done; [|by unfold ip; rewrite ztake_zdrop_app|by left].
  etransitivity; [|exact Ha]. unfold announced_length, be16.
  assert (forall i, 0 <= i < 20 -> at_ (ztake (IpHeader_datagram_length h) ip) i = at_ ip i) as Hat.
  { intros i Hi. unfold at_. by rewrite zget_ztake, (proj2 (Z.ltb_lt _ _)) by lia. }
  by rewrite !Hat by lia.
Qed.

(** C39: fragmenting never panics and always ends; the frames it returns are
    within both output limits, and each of them, a frame returned unchanged
    included, carries behind the link header one whole datagram, of the length its
    header announces, that fits the MTU. *)
Theorem fragment_safe (frame : Frame) (options : FragmentOptions) :
  octets (frame_bytes frame) -> options_ok options ->
  fragment frame options <> Panic /\
  forall frames, fragment frame options = Ok frames ->
    zlen frames <= max_fragments options <= 8192 /\ total_bytes frames <= max_output_bytes options /\
    exists l, LinkHeader_walk (link_type frame) (frame_bytes frame) = Ok (Some l) /\
      forall f, f ∈ frames -> fits frame (network_offset l) options f.
Proof.
  intros Ho Hopt. apply safe_iff. eapply safe_mono; [by apply fragment_spec|]. cbv beta.
  intros frames (Hmax & l & h & Hl & _ & Hoff & Hw & Hf). cbv zeta in *.
  destruct Hf as [(Hle & -> & Hb)|Hf].
  { change (zlen [frame]) with 1. cbn [total_bytes foldr]. split_and!; try lia. exists l. split; [done|].
    intros f ->%list_elem_of_singleton. by eapply unchanged_fits. }
  destruct h as [h|h].
  - split_and!; try lia; try apply Hf. exists l. split; [done|]. by eapply cut_ipv4_fits.
  - split_and!; try lia; try apply Hf. exists l. split; [done|].
    by apply (cut_ipv6_fits frame (network_offset l) _ h options frames Hoff Hw (octets_zdrop _ _ Ho)).
Qed.

(** ** A sample datagram *)

(** A UDP datagram of 40 bytes in a raw IPv4 frame, cut at an MTU of 40. *)
Definition sample_ip : bytes :=
  [69; 0; 0; 60; 18; 52; 0; 0; 64; 17; 84; 123; 10; 0; 0; 1; 10; 0; 0; 2] ++ seqZ 100 40.
Definition sample_frame : Frame := mkFrame None 60 60 228 None None sample_ip.
Definition sample_options : FragmentOptions := mkFragmentOptions 40 None 16 4096.
Definition sample_pieces : list Frame := match fragment sample_frame sample_options with Ok l => l | _ => [] end.


Lemma sample_octets : octets (frame_bytes sample_frame).
Proof. by vm_compute; repeat constructor. Qed.

Lemma sample_options_ok : options_ok sample_options.
Proof. by vm_compute. Qed.

Lemma sample_cut : fragment sample_frame sample_options = Ok sample_pieces.
Proof. vm_compute. reflexivity. Qed.

Lemma fragment_safe_witness :
  zlen sample_pieces = 3 /\ zlen sample_pieces <= max_fragments sample_options /\
  total_bytes sample_pieces <= max_output_bytes sample_options /\
  forall f, f ∈ sample_pieces -> fits sample_frame 0 sample_options f.
Proof.
  destruct (fragment_safe sample_frame sample_options sample_octets sample_options_ok) as [_ H].
  destruct (H _ sample_cut) as ([Hc _] & Hb & l & Hl & Hfit). vm_compute in Hl. injection Hl as <-.
  split; [by vm_compute|]. split; [exact Hc|]. split; [exact Hb|exact Hfit].
Defined.

(** ** Pieces *)

Lemma tiles_concat payload pieces : forall position,
  0 <= position -> tiles payload position pieces -> mjoin (pieces.*2) = zdrop position payload.
Proof.
  induction pieces as [|[p c] pieces IH]; intros position Hp; cbn.
  - intros ->. by rewrite zdrop_all.
  - intros (_ & _ & Hc & Hs & Hle & Ht). rewrite (IH (position + zlen c) ltac:(lia) Ht), Hs at 1. unfold zslice.
    replace (position + zlen c - position) with (zlen c) by lia.
    rewrite <-(zdrop_zdrop (zlen c) position payload (Z.lt_le_incl _ _ Hc) Hp). apply ztake_zdrop_app.
Qed.

(** C31: the fragments are those the datagram asks for.  A datagram within the MTU
    is returned as it is.  Otherwise its payload (for IPv6, what follows the
    unfragmentable headers) is cut into consecutive pieces that join to the whole
    payload, each one but the last ending on an eight-byte boundary, and each
    fragment carries its piece behind a header with the right lengths,
    identification, offset and more-fragments flag.  For IPv4 the first fragment
    has the whole header of the datagram and the others its first twenty bytes and
    exactly the options whose copied flag is set, padded to a word; the checksum
    verifies and the other fields are unchanged.  For IPv6 the headers up to the
    last Hop-by-Hop or Routing header are followed by a Fragment header. *)
Theorem fragment_exact (frame : Frame) (options : FragmentOptions) (frames : list Frame) :
  octets (frame_bytes frame) -> options_ok options -> fragment frame options = Ok frames ->
  fragmented frame options frames /\
  (forall payload pieces, tiles payload 0 pieces -> mjoin (pieces.*2) = payload).
Proof.
  intros Ho Hopt Hf. split; [by destruct (safe_Ok _ _ _ (fragment_spec frame options Ho Hopt) Hf)|].
  intros payload pieces Ht. exact (tiles_concat payload pieces 0 (Z.le_refl 0) Ht).
Qed.

Lemma fragment_exact_witness :
  exists h, Ipv4Header_walk sample_ip = Ok h /\ cut_ipv4 sample_frame 0 sample_ip h sample_options sample_pieces.
Proof.
  destruct (fragment_exact _ _ _ sample_octets sample_options_ok sample_cut) as [(l & h & Hl & Hi & _ & Hw & Hf) _].
  vm_compute in Hl. injection Hl as <-. vm_compute in Hi. injection Hi as <-.
  eexists. split; [exact Hw|]. destruct Hf as [(Hm & _)|Hf]; [|exact Hf]. by vm_compute in Hm.
Defined.
