(* ===== verification/RoundTrip.v ===== *)
(** * Fragmenting, then reassembling: IPv4

    What the fragmenter emits is what the reassembler puts together again. *)

From stdpp Require Import base tactics option list numbers gmap strings.
From Stdlib Require Import ZArith Lia.
From S2P Require Import Prelude Checksum Ordered Flow Headers HeadersProofs Frame Transform Fragmenter.
From S2P Require Import IpModel IpValidate IpMerge IpReconstruct IpEngine IpRanges IpApply IpFragment IpRebuild.
From S2P Require Import IpCharge IpPush IpRetire IpTheorems IpDelivery IpPieces.
From S2P Require Import FragmenterProofs FragmenterIpv6 FragmenterTheorems.

(** ** IPv4 pieces that agree *)

Lemma headers_match_refl h : ipv4_headers_match h h = true.
Proof. unfold ipv4_headers_match. by rewrite !bool_decide_true, Z.eqb_refl by done. Qed.

Lemma Ecn_merge_same e : Ecn_merge e e = Ok e.
Proof. unfold Ecn_merge. by rewrite bool_decide_true. Qed.

Section pieces4.
Context (k : Ipv4DatagramKey) (S H0 : bytes) (e0 : Ecn).
Context (HH : header4_ok H0) (Hlen : zlen H0 + zlen S <= MAX_WIRE_LENGTH).

(** A piece with a valid header; that of the first one is [H0]. *)
Record good4 (f : Fragment) : Prop := {
  g4_piece : piece (Key4 k) S f;
  g4_aligned : fragment_more f = true -> zlen (fragment_payload f) mod 8 = 0;
  g4_atomic : fragment_units f = 0 -> fragment_more f = true;
  g4_header : match f with Fragment4 f4 => validate_ipv4_header f4 = Ok e0 | _ => False end;
  g4_length : 20 <= zlen (fragment_prefix f) <= zlen H0;
  g4_first : fragment_units f = 0 -> fragment_prefix f = H0
}.

Definition incoming4 (f : Fragment) : Incoming :=
  mkIncoming (fragment_key f) (fragment_units f * 8) (fragment_units f * 8 + zlen (fragment_payload f))
    (fragment_more f) (fragment_payload f) (Incoming4 (fragment_prefix f)) e0.

Definition kept4 (r : Reconstruction) : Prop :=
  exists hd, r = Reconstruct4 hd e0 /\ forall h, hd = Some h -> h = H0.

(** A wire length that is short enough passes. *)
Lemma wire_ok (prefix extent : Z) (family : Family) :
  prefix + extent <= MAX_WIRE_LENGTH ->
  (if match checked_add usize_max prefix extent with Some length => MAX_WIRE_LENGTH <? length | None => true end
   then malformed (ReconstructedLength family) else Ok tt) = Ok tt.
Proof.
  intros Hle. rewrite checked_add_ok by (unfold MAX_WIRE_LENGTH, usize_max, u64_max in *; lia).
  by rewrite (proj2 (Z.ltb_ge _ _)) by lia.
Qed.

Lemma wire4_ok lim f existing final :
  good4 f -> kept_by kept4 existing -> existing_wf lim (Key4 k) existing ->
  wire_extent existing (incoming4 f) final <= zlen S ->
  validate_family_wire_extent existing (incoming4 f) final = Ok tt.
Proof.
  intros Hg Hk Hex Hle. destruct Hg as [_ _ _ _ Hl _]. destruct HH as [_ HH']. unfold validate_family_wire_extent.
  rewrite (retained_last_end_spec lim (Key4 k) existing Hex). cbn [inc_reconstruction incoming4].
  match goal with |- context [checked_add usize_max _ (default ?d final)] =>
    assert (default d final = wire_extent existing (incoming4 f) final) as -> end.
  { unfold wire_extent. by destruct existing. }
  destruct (inc_offset _ =? 0); [rewrite Ok_bind; apply wire_ok; lia|].
  destruct existing as [st|]; [|rewrite Ok_bind; apply wire_ok; unfold IPV4_MIN_LENGTH; lia].
  destruct Hk as (hd & Er & Hhd). rewrite Er, Ok_bind. apply wire_ok.
  destruct hd as [h|]; [rewrite (Hhd h eq_refl); lia|unfold IPV4_MIN_LENGTH; lia].
Qed.

Lemma validates4 f lim : good4 f ->
  validate_fragment f lim =
    if max_bytes_per_datagram lim <? frag_end f
    then ip_resource (DatagramByteLimit (max_bytes_per_datagram lim)) else Ok (incoming4 f).
Proof.
  intros Hg. pose proof Hg as [Hp Ha Hat Hv Hl _]. pose proof (pc_end _ _ _ Hp) as He. pose proof (pc_nonempty _ _ _ Hp) as Hn.
  pose proof (fk_units _ (pc_ok _ _ _ Hp)) as Hu. pose proof (zlen_nonneg H0). unfold frag_end, MAX_WIRE_LENGTH in *.
  destruct f as [f|]; [|done]. cbn [fragment_units fragment_payload fragment_more fragment_prefix] in *.
  unfold validate_fragment. rewrite (proj2 (Z.ltb_ge 8191 _)) by lia. rewrite Hv, !Ok_bind.
  assert ((f4_fragment_offset f =? 0) && negb (f4_more_fragments f) = false) as ->.
  { destruct (Z.eqb_spec (f4_fragment_offset f) 0) as [E|]; [|done]. by rewrite (Hat E). }
  rewrite is_empty_zlen, (proj2 (Z.eqb_neq _ _)) by lia.
  assert (f4_more_fragments f && negb (zlen (f4_payload f) mod 8 =? 0) = false) as ->.
  { destruct (f4_more_fragments f); [|done]. by rewrite (Ha eq_refl). }
  unfold or_overflow. rewrite checked_mul_ok by (unfold usize_max, u64_max; lia). cbn [ok_or].
  rewrite Ok_bind, checked_add_ok by (unfold usize_max, u64_max; lia). cbn [ok_or]. rewrite Ok_bind.
  change (mkIncoming _ _ _ _ _ _ _) with (incoming4 (Fragment4 f)).
  rewrite (wire4_ok lim (Fragment4 f) None) by (try done; unfold wire_extent; cbn; destruct (f4_more_fragments f); cbn; lia).
  rewrite Ok_bind. cbn [inc_end incoming4 fragment_units fragment_payload].
  by replace (f4_fragment_offset f * 8 + zlen (f4_payload f)) with (8 * f4_fragment_offset f + zlen (f4_payload f)) by lia.
Qed.

#[export] Instance cut4 : CutDatagram (Key4 k) S good4 incoming4 kept4.
Proof.
  split.
  - by intros f [].
  - intros f lim. apply validates4.
  - intros f [_ _ _ Hv _ _]. destruct f as [f|]; [|done]. split; [split|]; cbn; unfold frag_end; cbn; try done; lia.
  - intros f [st|] Hg Hk; [|done]. destruct Hk as (hd & Er & Hhd). unfold validate_reconstruction_consistency.
    rewrite Er. cbn [inc_reconstruction incoming4]. destruct hd as [h|]; [|by rewrite andb_false_r].
    destruct (Z.eqb_spec (inc_offset (incoming4 f)) 0) as [E|]; [|done]. cbn in E.
    rewrite (Hhd h eq_refl), (g4_first _ Hg) by lia. by rewrite headers_match_refl.
  - intros f existing Hg Hk. unfold accumulated_ecn, settled.
    assert (kept4 (Reconstruct4 (if inc_offset (incoming4 f) =? 0 then Some (fragment_prefix f) else None) e0)) as Hnew.
    { eexists. split; [done|]. intros h Hh. destruct (Z.eqb_spec (inc_offset (incoming4 f)) 0) as [E|]; [|done].
      injection Hh as <-. cbn in E. apply (g4_first _ Hg). lia. }
    destruct existing as [st|]; [|by exists e0]. destruct Hk as (hd & Er & Hhd).
    exists e0. rewrite Er. cbn [Reconstruction_ecn inc_ecn incoming4]. rewrite Ecn_merge_same. split; [done|].
    cbn [fmap option_fmap option_map]. rewrite Er. destruct hd as [h|]; [|done]. exists (Some h). split; [done|].
    intros h' [= <-]. by apply Hhd.
  - apply wire4_ok.
Qed.
End pieces4.

(** ** The fragment a frame presents *)

Lemma ztake_app_eq {A} (l k : list A) n : n = zlen l -> ztake n (l ++ k) = l.
Proof. intros ->. unfold ztake, zlen. rewrite Nat2Z.id. apply take_app_length. Qed.

Lemma zdrop_app_eq {A} (l k : list A) n : n = zlen l -> zdrop n (l ++ k) = k.
Proof. intros ->. unfold zdrop, zlen. rewrite Nat2Z.id. apply drop_app_length. Qed.

(** The addresses, the identification and the protocol name the datagram. *)
Definition key4_of (scope : Z) (ip : bytes) (id : Z) : Ipv4DatagramKey :=
  mkKey4 scope (from_be_bytes (zslice 12 16 ip)) (from_be_bytes (zslice 16 20 ip)) id (at_ ip 9).

(** The fragment an IPv4 header announces, read off the wire. *)
Definition presented4 (scope : Z) (ip : bytes) : option Fragment :=
  match Ipv4Header_walk ip with
  | Ok h => Some (Fragment4 (mkFragment4 (key4_of scope ip (v4_identification h))
      (Z.land (v4_flags_and_offset h) 8191) (negb (Z.land (v4_flags_and_offset h) 8192 =? 0))
      (ztake (v4_header_length h) ip) (zslice (v4_header_length h) (v4_total_length h) ip)))
  | _ => None
  end.

Lemma emitted_data frame offset header piece :
  0 <= offset <= zlen (frame_bytes frame) ->
  exists pad, zdrop offset (frame_bytes (emitted frame offset header piece)) = header ++ piece ++ zrep pad 0.
Proof.
  intros Ho. destruct (emitted_bytes frame offset header piece) as [pad ->]. exists pad.
  rewrite zdrop_app_eq by (rewrite zlen_ztake; lia). by rewrite <-app_assoc.
Qed.

Lemma land_below x n m : 0 <= n -> 0 <= x < 2 ^ n -> Z.land (Z.ones n) m = 0 -> Z.land x m = 0.
Proof.
  intros Hn Hx Hm. rewrite <-(Z.mod_small x (2 ^ n)) by done. rewrite <-Z.land_ones by done.
  by rewrite <-Z.land_assoc, Hm, Z.land_0_r.
Qed.

Lemma fragment_word_fields more position :
  0 <= position < 65536 ->
  Z.land (fragment_word more position) 8191 = position / 8 /\
  negb (Z.land (fragment_word more position) 8192 =? 0) = more /\ Z.land (fragment_word more position) 49152 = 0.
Proof.
  intros Hp. pose proof (Z.div_pos position 8 ltac:(lia) ltac:(lia)). pose proof (Z.div_lt_upper_bound position 8 8192).
  unfold fragment_word. set (q := position / 8) in *.
  assert (Z.land q 8192 = 0) as H1 by (apply (land_below q 13); [lia|change (2 ^ 13) with 8192; lia|done]).
  assert (Z.land q 8191 = q) as H2.
  { change 8191 with (Z.ones 13). rewrite Z.land_ones by lia. apply Z.mod_small. change (2 ^ 13) with 8192. lia. }
  assert (forall x, 0 <= x < 16384 -> Z.land x 49152 = 0) as H3.
  { intros x Hx. apply (land_below x 14); [lia|change (2 ^ 14) with 16384; lia|done]. }
  destruct more; split_and!; try (apply H3; lia); rewrite ?Z.add_0_l, ?H1, ?H2; try done.
  - replace (8192 + q) with (Z.lor q 8192); [rewrite Z.land_lor_distr_l, H2; exact (Z.lor_0_r q)|].
    rewrite <-Z.lxor_lor, <-Z.add_nocarry_lxor by exact H1. lia.
  - replace (8192 + q) with (Z.lor q 8192); [by rewrite Z.land_lor_distr_l, H1|].
    rewrite <-Z.lxor_lor, <-Z.add_nocarry_lxor by exact H1. lia.
Qed.

Lemma at_app_l (l k : bytes) i : i < zlen l -> at_ (l ++ k) i = at_ l i.
Proof. intros Hi. unfold at_. by rewrite zget_app, (proj2 (Z.ltb_lt _ _)). Qed.

Lemma at_ztake (l : bytes) n i : i < n -> at_ (ztake n l) i = at_ l i.
Proof. intros Hi. unfold at_. by rewrite zget_ztake, (proj2 (Z.ltb_lt _ _)). Qed.

Lemma first_chunk_ok n l : n <= zlen l -> first_chunk n l = Some (ztake n l).
Proof. intros. by apply first_chunk_Some. Qed.

Section presents.
Context (ip : bytes) (hl p id : Z) (more : bool) (base header c : bytes) (scope : Z).
Context (Hb : base_header4 ip hl p base) (Hp : 0 <= p < 65536).
Context (Hw : wire_header4 base (zlen base + zlen c) id (fragment_word more p) header).

Lemma presents_len : zlen header = zlen base /\ 20 <= zlen header.
Proof. pose proof (w4_len _ _ _ _ _ Hw). destruct (b4_ok _ _ _ _ Hb) as [_ ?]. lia. Qed.

Lemma presents_at i : 0 <= i < 20 -> i ∉ [0; 2; 3; 4; 5; 6; 7; 10; 11] -> zget header i = zget ip i.
Proof.
  intros Hi Hn. rewrite (w4_other _ _ _ _ _ Hw) by set_solver. apply (b4_fixed _ _ _ _ Hb).
  destruct (decide (i = 0)) as [->|]; [set_solver|lia].
Qed.

Lemma presents_slice a b : 11 < a -> a <= b -> b <= 20 -> zslice a b header = zslice a b ip.
Proof.
  intros Ha Hab Hb'. apply zget_ext. intros i Hi. rewrite !zget_zslice by lia. case_match eqn:E; [|done].
  apply andb_true_iff in E as [_ E%Z.ltb_lt]. apply presents_at; [lia|].
  intros Hin. repeat (apply elem_of_cons in Hin as [?|Hin]; [lia|]). by apply elem_of_nil in Hin.
Qed.

Lemma presents_version : Z.shiftr (at_ header 0) 4 = 4 /\ Z.land (at_ header 0) 15 * 4 = zlen header.
Proof.
  destruct presents_len as [-> _]. assert (at_ header 0 = at_ base 0) as ->.
  { unfold at_. rewrite (w4_other _ _ _ _ _ Hw) by set_solver. done. }
  split; [apply (b4_version _ _ _ _ Hb)|apply (b4_ihl _ _ _ _ Hb)].
Qed.

Lemma presents_at9 : at_ header 9 = at_ ip 9.
Proof. unfold at_. rewrite presents_at; [done|lia|set_solver]. Qed.

(** The fragment of one piece. *)
Definition fragment4 : Ipv4Fragment := mkFragment4 (key4_of scope ip id) (p / 8) more header c.

Lemma emitted_presents pad : presented4 scope (header ++ c ++ pad) = Some (Fragment4 fragment4).
Proof.
  destruct presents_len as [Hl H20], presents_version as [Hv Hihl]. pose proof (zlen_nonneg c). pose proof (zlen_nonneg pad).
  destruct (fragment_word_fields more p Hp) as (F1 & F2 & _).
  assert (forall i, i < 20 -> at_ (ztake IPV4_MIN_LENGTH (header ++ c ++ pad)) i = at_ header i) as Hat.
  { intros i Hi. rewrite at_ztake by done. apply at_app_l. lia. }
  assert (Ipv4Header_walk (header ++ c ++ pad) =
    Ok (mkIpv4Header (zlen header) (zlen header + zlen c) id (fragment_word more p) (at_ ip 9))) as Hwalk.
  { unfold Ipv4Header_walk, Ipv4Header_walk_lengths.
    rewrite first_chunk_ok by (rewrite !zlen_app; unfold IPV4_MIN_LENGTH; lia).
    cbn [ok_or]. rewrite Ok_bind. unfold be16. rewrite !Hat by lia. rewrite Hv, Hihl, presents_at9. cbn [Z.eqb negb].
    change (from_be_bytes [at_ header 2; at_ header (2 + 1)]) with (be16 header 2).
    change (from_be_bytes [at_ header 4; at_ header (4 + 1)]) with (be16 header 4).
    change (from_be_bytes [at_ header 6; at_ header (6 + 1)]) with (be16 header 6).
    rewrite (w4_total _ _ _ _ _ Hw), (w4_id _ _ _ _ _ Hw), (w4_flags _ _ _ _ _ Hw), <-Hl, !zlen_app. unfold IPV4_MIN_LENGTH.
    rewrite !(proj2 (Z.ltb_ge _ _)) by lia. done. }
  unfold presented4. rewrite Hwalk. cbn [v4_header_length v4_total_length v4_identification v4_flags_and_offset].
  rewrite F1, F2, ztake_app_eq by done. unfold fragment4, key4_of, zslice at 3. rewrite zdrop_app_eq, ztake_app_eq by lia.
  assert (forall a b, 11 < a -> a <= b -> b <= 20 -> zslice a b (header ++ c ++ pad) = zslice a b ip) as Hs.
  { intros a b Ha Hab Hb'. rewrite <-(presents_slice a b) by done. apply zget_ext. intros i Hi.
    rewrite !zget_zslice by lia. case_match eqn:E; [|done]. apply andb_true_iff in E as [_ E%Z.ltb_lt].
    by rewrite zget_app, (proj2 (Z.ltb_lt _ _)) by lia. }
  rewrite !Hs by lia. rewrite at_app_l by lia. by rewrite presents_at9.
Qed.

Lemma emitted_header_valid : zlen base + zlen c <= 65535 -> validate_ipv4_header fragment4 = Ok (Ecn_from_ipv4_tos (at_ ip 1)).
Proof.
  intros Hmax. destruct presents_len as [Hl H20], presents_version as [Hv Hihl]. pose proof (zlen_nonneg c).
  destruct (fragment_word_fields more p Hp) as (F1 & F2 & _).
  assert (forall i, i < 20 -> at_ (ztake IPV4_MIN_LENGTH header) i = at_ header i) as Hat by (intros; by apply at_ztake).
  unfold validate_ipv4_header. cbn [f4_header f4_payload f4_fragment_offset f4_more_fragments f4_key fragment4].
  rewrite first_chunk_ok by exact H20. unfold be16. rewrite !Hat by lia.
  rewrite Hv. cbn [Z.eqb negb]. unfold or_overflow. rewrite checked_mul_ok by (rewrite ?Hihl; unfold usize_max, u64_max; lia).
  cbn [ok_or]. rewrite Ok_bind, Hihl, Z.eqb_refl, (proj2 (Z.ltb_ge _ _)) by (unfold IPV4_MIN_LENGTH; lia). cbn [orb negb].
  change (from_be_bytes [at_ header 2; at_ header (2 + 1)]) with (be16 header 2).
  change (from_be_bytes [at_ header 4; at_ header (4 + 1)]) with (be16 header 4).
  change (from_be_bytes [at_ header 6; at_ header (6 + 1)]) with (be16 header 6).
  rewrite (w4_total _ _ _ _ _ Hw), (w4_id _ _ _ _ _ Hw), (w4_flags _ _ _ _ _ Hw), Hl.
  rewrite checked_add_ok by (unfold usize_max, u64_max; lia). rewrite bool_decide_true by done. cbn [negb].
  rewrite F1, F2, Z.eqb_refl, eqb_reflx. cbn [negb orb k4_identification k4_protocol k4_source k4_destination key4_of].
  assert (forall a b, 11 < a -> a <= b -> b <= 20 -> zslice a b (ztake IPV4_MIN_LENGTH header) = zslice a b ip) as Hs.
  { intros a b Ha Hab Hb'. rewrite <-(presents_slice a b) by done. apply zget_ext. intros i Hi.
    rewrite !zget_zslice by lia. case_match eqn:E; [|done]. apply andb_true_iff in E as [_ E%Z.ltb_lt].
    by rewrite zget_ztake, (proj2 (Z.ltb_lt _ _)) by (unfold IPV4_MIN_LENGTH; lia). }
  rewrite !Hs, presents_at9, !Z.eqb_refl by lia. cbn [negb orb]. unfold at_. by rewrite presents_at by (lia || set_solver).
Qed.
End presents.

(** ** Pieces that tile a payload *)

Lemma tiles_in payload pieces p c : forall position,
  0 <= position -> tiles payload position pieces -> (p, c) ∈ pieces ->
  position <= p /\ p mod 8 = 0 /\ 0 < zlen c /\ c = zslice p (p + zlen c) payload /\ p + zlen c <= zlen payload /\
  (p + zlen c < zlen payload -> zlen c mod 8 = 0).
Proof.
  induction pieces as [|[p' c'] pieces IH]; intros position Hpos Ht Hin; [by apply elem_of_nil in Hin|].
  cbn in Ht. destruct Ht as (-> & H8 & Hc & Hs & Hle & Ht). apply elem_of_cons in Hin as [[= -> ->]|Hin].
  - split_and!; try done; try lia. intros Hlt. destruct pieces as [|[p2 c2] pieces]; cbn in Ht; [lia|].
    destruct Ht as (_ & H8' & _). rewrite Z.add_mod, H8, Z.add_0_l, Z.mod_mod in H8' by lia. done.
  - destruct (IH (position + zlen c') ltac:(lia) Ht Hin) as (? & ?). split; [lia|done].
Qed.

Lemma tiles_cover payload pieces i : forall position,
  tiles payload position pieces -> position <= i < zlen payload ->
  exists p c, (p, c) ∈ pieces /\ p <= i < p + zlen c.
Proof.
  induction pieces as [|[p' c'] pieces IH]; intros position Ht Hi; cbn in Ht; [lia|].
  destruct Ht as (-> & H8 & Hc & Hs & Hle & Ht). destruct (Z.lt_ge_cases i (position + zlen c')).
  - exists position, c'. split; [left|lia].
  - destruct (IH _ Ht ltac:(lia)) as (p & c & Hin & ?). exists p, c. split; [by right|done].
Qed.

Lemma tiles_same payload pieces p c p' c' i : forall position,
  0 <= position -> tiles payload position pieces -> (p, c) ∈ pieces -> (p', c') ∈ pieces ->
  p <= i < p + zlen c -> p' <= i < p' + zlen c' -> (p, c) = (p', c').
Proof.
  induction pieces as [|[q d] pieces IH]; intros position Hpos Ht H1 H2 Hi Hi'; [by apply elem_of_nil in H1|].
  cbn in Ht. destruct Ht as (-> & H8 & Hc & Hs & Hle & Ht).
  pose proof (fun x y H => tiles_in payload pieces x y (position + zlen d) ltac:(lia) Ht H) as Hlater.
  apply elem_of_cons in H1 as [[= -> ->]|H1]; apply elem_of_cons in H2 as [[= -> ->]|H2]; [done|..].
  - destruct (Hlater _ _ H2). lia.
  - destruct (Hlater _ _ H1). lia.
  - by apply (IH (position + zlen d)); [lia|..].
Qed.

Lemma tiles_nodup payload pieces : forall position, 0 <= position -> tiles payload position pieces -> NoDup pieces.
Proof.
  induction pieces as [|[q d] pieces IH]; intros position Hpos Ht; [by apply NoDup_nil|]. cbn in Ht.
  destruct Ht as (-> & H8 & Hc & Hs & Hle & Ht). apply NoDup_cons. split; [|by apply (IH (position + zlen d)); [lia|]].
  intros Hin. destruct (tiles_in _ _ _ _ (position + zlen d) ltac:(lia) Ht Hin). lia.
Qed.

(** [f] carries the piece. *)
Definition carries (piece : Z * bytes) (f : Fragment) : Prop :=
  8 * fragment_units f = piece.1 /\ fragment_payload f = piece.2.

Lemma carries_span piece f i : carries piece f -> in_span f i <-> piece.1 <= i < piece.1 + zlen piece.2.
Proof. intros [H1 H2]. unfold in_span, frag_end. by rewrite H1, H2. Qed.

Lemma tiles_pieces S good pieces frags :
  tiles S 0 pieces -> Forall2 carries pieces frags -> Forall good frags -> pieces_of S good frags.
Proof.
  intros Ht Hc Hg. pose proof (tiles_nodup _ _ 0 ltac:(lia) Ht) as Hnd.
  assert (forall f, f ∈ frags -> exists j p c, frags !! j = Some f /\ pieces !! j = Some (p, c) /\ carries (p, c) f) as Hat.
  { intros f [j Hj]%list_elem_of_lookup. destruct (Forall2_lookup_r _ _ _ _ _ Hc Hj) as ([p c] & Hp & ?). by exists j, p, c. }
  assert (forall f g i, f ∈ frags -> g ∈ frags -> in_span f i -> in_span g i -> f = g) as Hdis.
  { intros f g i Hf Hg' Hi Hi'. destruct (Hat f Hf) as (j & p & c & Ef & Ep & Hcf), (Hat g Hg') as (j' & p' & c' & Eg & Ep' & Hcg).
    apply (carries_span _ _ _ Hcf) in Hi. apply (carries_span _ _ _ Hcg) in Hi'.
    pose proof (tiles_same S pieces p c p' c' i 0 ltac:(lia) Ht (list_elem_of_lookup_2 _ _ _ Ep) (list_elem_of_lookup_2 _ _ _ Ep') Hi Hi') as E.
    injection E as <- <-. assert (j = j') as -> by (by eapply NoDup_lookup). congruence. }
  split; [done| |done|].
  - apply NoDup_alt. intros j j' f Ej Ej'. destruct (Forall2_lookup_r _ _ _ _ _ Hc Ej) as ([p c] & Hp & [H1 H2]).
    destruct (Forall2_lookup_r _ _ _ _ _ Hc Ej') as ([p' c'] & Hp' & [H1' H2']). cbn in *.
    assert (p = p') as <- by congruence. assert (c = c') as <- by congruence. by eapply NoDup_lookup.
  - intros i Hi. destruct (tiles_cover S pieces i 0 Ht Hi) as (p & c & [j Hj]%list_elem_of_lookup & Hi').
    destruct (Forall2_lookup_l _ _ _ _ _ Hc Hj) as (f & Hf & Hcf). exists f. split; [by eapply list_elem_of_lookup_2|].
    by apply (carries_span _ _ _ Hcf).
Qed.

(** ** What is pushed *)

(** The fragments read off the frames, in the order and at the times given. *)
Definition present (read : bytes -> option Fragment) (offset : Z) (order : list (Frame * Z)) : option (list (Fragment * Z)) :=
  mapM (fun '(f, now) => g ← read (zdrop offset (frame_bytes f)); Some (g, now)) order.

(** What the frames carry, in the order and at the times given. *)
Definition carried (R : Frame -> Fragment -> Prop) : list (Frame * Z) -> list (Fragment * Z) -> Prop :=
  Forall2 (fun fn gn => R fn.1 gn.1 /\ gn.2 = fn.2).

Lemma carried_order (R : Frame -> Fragment -> Prop) frames frags order :
  Forall2 R frames frags -> order.*1 ≡ₚ frames -> exists pushes, carried R order pushes /\ pushes.*1 ≡ₚ frags.
Proof.
  intros Hf Hp. destruct (Permutation_Forall2 (Permutation_sym Hp) Hf) as (frags' & Hp' & Hf').
  enough (exists pushes, carried R order pushes /\ pushes.*1 = frags') as (pushes & E & E').
  { exists pushes. split; [done|]. by rewrite E'. }
  clear Hf Hp Hp'. revert frags' Hf'. induction order as [|[f now] order IH]; intros frags' Hf'; cbn in Hf'.
  - inversion Hf'; subst. exists []. split; [constructor|done].
  - inversion Hf' as [|? g ? frags'' Hg Hrest]; subst. destruct (IH _ Hrest) as (pushes & E & <-).
    exists ((g, now) :: pushes). split; [by constructor|done].
Qed.

Lemma present_order read offset frames frags order :
  Forall2 (fun f g => read (zdrop offset (frame_bytes f)) = Some g) frames frags -> order.*1 ≡ₚ frames ->
  exists pushes, present read offset order = Some pushes /\ pushes.*1 ≡ₚ frags.
Proof.
  intros Hf Hp. destruct (carried_order _ _ _ _ Hf Hp) as (pushes & Hc & Hperm). exists pushes. split; [|done].
  apply mapM_Some_2. eapply Forall2_impl; [exact Hc|]. intros [f now] [g now'] [Hr Ht]. cbn in *. by rewrite Hr, Ht.
Qed.

(** ** The round trip *)

Section trip.
Context (scope : Z) (frame : Frame) (offset : Z) (ip : bytes) (h : Ipv4Header) (options : FragmentOptions) (frames : list Frame).
Context (Hoff : 0 <= offset <= zlen (frame_bytes frame)) (Ho : octets ip) (Hwalk : Ipv4Header_walk ip = Ok h).
Context (Hcut : cut_ipv4 frame offset ip h options frames).

#[local] Notation hl := (v4_header_length h).
#[local] Notation S := (zslice hl (v4_total_length h) ip).
#[local] Notation id := (chosen_id h options).
#[local] Notation more_after pc := (pc.1 + zlen pc.2 <? zlen S).
#[local] Notation e0 := (Ecn_from_ipv4_tos (at_ ip 1)).

Definition made4 (pc : Z * bytes) (f : Fragment) : Prop :=
  exists base header, f = Fragment4 (fragment4 ip pc.1 id (more_after pc) header pc.2 scope) /\
    base_header4 ip hl pc.1 base /\
    wire_header4 base (zlen base + zlen pc.2) id (fragment_word (more_after pc) pc.1) header /\
    zlen header + zlen pc.2 <= mtu options.

Lemma payload4_len : zlen S = v4_total_length h - hl /\ 0 < zlen S /\ hl + zlen S <= MAX_WIRE_LENGTH.
Proof.
  destruct (walk4_fields ip h Ho Hwalk) as (H1 & H2 & H3 & _). pose proof (c4_payload _ _ _ _ _ _ Hcut).
  rewrite zlen_zslice by lia. unfold MAX_WIRE_LENGTH. lia.
Qed.

Lemma frames_made pieces :
  Forall (fun pc => 0 <= pc.1 < 65536) pieces -> Forall2 (emitted4 frame offset ip h S id options) pieces frames ->
  exists frags, Forall2 (fun f g => presented4 scope (zdrop offset (frame_bytes f)) = Some g) frames frags /\
    Forall2 made4 pieces frags.
Proof.
  intros Hb Hall. clear Hcut. induction Hall as [|pc f pieces fs Hf Hall IH]; [by exists []|].
  apply Forall_cons in Hb as [Hpc Hb]. destruct (IH Hb) as (frags & H1 & H2).
  destruct Hf as (base & header & Hbase & Hw & Hm & ->).
  exists (Fragment4 (fragment4 ip pc.1 id (more_after pc) header pc.2 scope) :: frags). split; constructor; try done.
  - destruct (emitted_data frame offset header pc.2 Hoff) as [pad ->].
    apply (emitted_presents ip hl pc.1 id (more_after pc) base header pc.2 scope Hbase Hpc Hw).
  - by exists base, header.
Qed.

Lemma made_good H0 p c f :
  zlen H0 = hl -> made4 (p, c) f -> 0 <= p -> p mod 8 = 0 -> 0 < zlen c -> c = zslice p (p + zlen c) S ->
  p + zlen c <= zlen S -> (p + zlen c < zlen S -> zlen c mod 8 = 0) -> (p = 0 -> fragment_prefix f = H0) ->
  good4 (key4_of scope ip id) S H0 e0 f /\ carries (p, c) f.
Proof.
  intros Hlen (base & header & -> & Hb & Hw & Hm) Hp H8 Hc Hs Hle Hal Hfirst. cbn [fst snd fragment_prefix f4_header fragment4] in *.
  destruct payload4_len as (Hl & Hpos & Hmax). unfold MAX_WIRE_LENGTH in Hmax.
  destruct (walk4_fields ip h Ho Hwalk) as (H1 & H2 & _). pose proof (zlen_nonneg c).
  assert (8 * (p / 8) = p) as Hdiv by (pose proof (Z.div_mod p 8 ltac:(lia)); lia).
  pose proof (presents_len _ _ _ _ _ _ _ _ Hb Hw) as [Hhl H20]. pose proof (b4_max _ _ _ _ Hb) as Hbm.
  assert (carries (p, c) (Fragment4 (fragment4 ip p id (p + zlen c <? zlen S) header c scope))) as Hcar by (split; [exact Hdiv|done]).
  split; [|done]. split; cbn [fragment_units fragment_payload fragment_more fragment_prefix f4_fragment_offset f4_payload f4_more_fragments f4_header fragment4].
  - split; unfold frag_end; cbn [fragment_units fragment_payload fragment_more fragment_key f4_fragment_offset f4_payload f4_more_fragments f4_key fragment4];
      rewrite ?Hdiv; try done.
    split; cbn; unfold u16_max, ip_isize_max; try lia; try done.
    + rewrite Hs. by apply octets_zslice, octets_zslice.
    + apply (w4_octets _ _ _ _ _ Hw).
  - intros Hmore%Z.ltb_lt. auto.
  - intros H0'. apply Z.ltb_lt. assert (p = 0) as -> by lia.
    pose proof (c4_large _ _ _ _ _ _ Hcut). rewrite (b4_first _ _ _ _ Hb eq_refl), zlen_ztake in Hhl. lia.
  - apply (emitted_header_valid ip hl p id _ base header c scope Hb); [lia|exact Hw|lia].
  - lia.
  - intros H0'. apply Hfirst. lia.
Qed.

(** The fragments are the pieces of the payload; [H0] is the header of the first. *)
Lemma trip_pieces :
  exists H0 total flags frags,
    wire_header4 (ztake hl ip) total id flags H0 /\ Z.land flags 49152 = 0 /\
    Forall2 (fun f g => presented4 scope (zdrop offset (frame_bytes f)) = Some g) frames frags /\
    pieces_of S (good4 (key4_of scope ip id) S H0 e0) frags /\ frags <> [].
Proof.
  destruct (c4_pieces _ _ _ _ _ _ Hcut) as (pieces & Ht & Hall). destruct payload4_len as (_ & Hpos & Hmax).
  destruct (walk4_fields ip h Ho Hwalk) as (H1 & H2 & _). unfold MAX_WIRE_LENGTH in Hmax.
  assert (forall p c, (p, c) ∈ pieces -> 0 <= p /\ p mod 8 = 0 /\ 0 < zlen c /\ c = zslice p (p + zlen c) S /\ p + zlen c <= zlen S /\
    (p + zlen c < zlen S -> zlen c mod 8 = 0)) as Hin by (intros p c Hin; exact (tiles_in _ _ _ _ 0 ltac:(lia) Ht Hin)).
  destruct (frames_made pieces) as (frags & Hpres & Hmade); [|done|].
  { apply Forall_forall. intros [p c] Hpc. destruct (Hin p c Hpc) as (? & _ & ? & _ & ? & _). cbn. lia. }
  destruct pieces as [|[p0 c0] pieces]; [cbn in Ht; lia|]. destruct Ht as (E0 & H8 & Hc0 & Hs0 & Hle0 & Ht). cbn in E0. subst p0.
  inversion Hmade as [|? f0 ? frest Hm0 Hrest]; subst. pose proof Hm0 as (base & H0 & -> & Hb & Hw & Hm).
  cbn [fst snd] in *. pose proof (b4_first _ _ _ _ Hb eq_refl) as Eb. subst base.
  assert (zlen H0 = hl) as HlH by (rewrite (w4_len _ _ _ _ _ Hw), zlen_ztake; lia).
  exists H0, (zlen (ztake hl ip) + zlen c0), (fragment_word (0 + zlen c0 <? zlen S) 0). eexists.
  split; [done|]. split; [apply fragment_word_fields; lia|]. split; [exact Hpres|].
  assert (forall pc f, pc ∈ (0, c0) :: pieces -> made4 pc f -> (pc.1 = 0 -> fragment_prefix f = H0) ->
    good4 (key4_of scope ip id) S H0 e0 f /\ carries pc f) as Hgood.
  { intros [p c] f Hpc Hmf Hfirst. destruct (Hin p c Hpc) as (? & ? & ? & ? & ? & ?). by apply made_good. }
  assert (Forall2 (fun pc f => good4 (key4_of scope ip id) S H0 e0 f /\ carries pc f) ((0, c0) :: pieces)
    (Fragment4 (fragment4 ip 0 id (0 + zlen c0 <? zlen S) H0 c0 scope) :: frest)) as Hfor.
  { constructor; [apply Hgood; [left|done|done]|]. apply Forall2_same_length_lookup. split; [by eapply Forall2_length|].
    intros j pc f Hj Hf. pose proof (list_elem_of_lookup_2 _ _ _ Hj) as Hpc. apply Hgood; [by right| |].
    - by eapply Forall2_lookup_lr.
    - destruct pc as [p c]. intros E0. cbn in E0. subst p. destruct (tiles_in _ _ _ _ (0 + zlen c0) ltac:(lia) Ht Hpc). lia. }
  split; [|done]. apply (tiles_pieces S _ ((0, c0) :: pieces)).
  - by cbn.
  - eapply Forall2_impl; [exact Hfor|]. by intros ? ? [_ ?].
  - apply Forall_forall. intros f Hf. destruct (Forall2_elem _ _ _ _ Hfor Hf) as (? & _ & ? & _). done.
Qed.
End trip.

(** ** The datagram is restored *)

(** The bytes of [ip] again; only the identification may be new, and the checksum
    is that of this header. *)
Record restored4 (ip : bytes) (h : Ipv4Header) (id : Z) (d : bytes) : Prop := {
  rs_length : zlen d = v4_total_length h;
  rs_id : be16 d 4 = id;
  rs_checksum : checksum_parts [ztake (v4_header_length h) d] = 0;
  rs_bytes : forall i, 0 <= i < v4_total_length h -> i ∉ [4; 5; 10; 11] -> zget d i = zget ip i
}.

Lemma tos_restored x : 0 <= x < 256 -> Z.lor (Z.land x 252) (Ecn_ipv4_tos_bits (Ecn_from_ipv4_tos x)) = x.
Proof.
  intros Hx. assert (Ecn_ipv4_tos_bits (Ecn_from_ipv4_tos x) = Z.land x 3) as ->.
  { unfold Ecn_from_ipv4_tos, Ecn_from_bits. rewrite <-Z.land_assoc. change (Z.land 3 3) with 3. cbv zeta.
    assert (0 <= Z.land x 3 < 4) as H3.
    { change 3 with (Z.ones 2). rewrite Z.land_ones by lia. apply Z.mod_pos_bound. lia. }
    assert (Z.land x 3 = 0 \/ Z.land x 3 = 1 \/ Z.land x 3 = 2 \/ Z.land x 3 = 3) as [E|[E|[E|E]]] by lia; by rewrite E. }
  rewrite <-Z.land_lor_distr_r. change (Z.lor 252 3) with (Z.ones 8). rewrite Z.land_ones by lia. by apply Z.mod_small.
Qed.

(** Two octets are determined by the word they make. *)
Lemma be16_bytes l l' i :
  octets l -> octets l' -> 0 <= i -> i + 2 <= zlen l -> i + 2 <= zlen l' -> be16 l i = be16 l' i ->
  zget l i = zget l' i /\ zget l (i + 1) = zget l' (i + 1).
Proof.
  intros Ho Ho' Hi Hl Hl' E. pose proof (octets_at l i Ho). pose proof (octets_at l (i + 1) Ho).
  pose proof (octets_at l' i Ho'). pose proof (octets_at l' (i + 1) Ho').
  unfold be16, from_be_bytes in E. cbn in E. unfold at_ in *.
  destruct (zget_lt_is_Some l i) as [a Ea]; [lia|]. destruct (zget_lt_is_Some l (i + 1)) as [b Eb]; [lia|].
  destruct (zget_lt_is_Some l' i) as [a' Ea']; [lia|]. destruct (zget_lt_is_Some l' (i + 1)) as [b' Eb']; [lia|].
  rewrite Ea, Eb, Ea', Eb' in *. cbn in *. split; f_equal; lia.
Qed.

Lemma restored4_intro ip h id total flags H0 d :
  octets ip -> Ipv4Header_walk ip = Ok h -> be16 ip 6 = 0 ->
  wire_header4 (ztake (v4_header_length h) ip) total id flags H0 -> Z.land flags 49152 = 0 ->
  rebuilt4 H0 (Ecn_from_ipv4_tos (at_ ip 1)) (zslice (v4_header_length h) (v4_total_length h) ip) d ->
  restored4 ip h id d.
Proof.
  intros Ho Hwalk H6 Hw Hfl (h' & -> & Hr).
  destruct (walk4_fields ip h Ho Hwalk) as (W1 & W2 & W3 & _ & _ & Wt & _).
  set (hl := v4_header_length h) in *. set (S := zslice hl (v4_total_length h) ip) in *.
  assert (zlen S = v4_total_length h - hl) as HS by (unfold S; rewrite zlen_zslice; lia).
  assert (zlen H0 = hl) as HH by (rewrite (w4_len _ _ _ _ _ Hw), zlen_ztake; lia).
  assert (zlen h' = hl) as Hh' by (rewrite (r4_len _ _ _ _ Hr); lia).
  assert (forall i, i < hl -> i ∉ [2; 3; 4; 5; 6; 7; 10; 11] -> zget H0 i = zget ip i) as Hbase.
  { intros i Hi Hn. rewrite (w4_other _ _ _ _ _ Hw) by done. by rewrite zget_ztake, (proj2 (Z.ltb_lt _ _)). }
  assert (forall i, i < hl -> zget (h' ++ S) i = zget h' i) as Hleft.
  { intros i Hi. by rewrite zget_app, (proj2 (Z.ltb_lt _ _)) by lia. }
  destruct (be16_bytes h' ip 2 (r4_octets _ _ _ _ Hr) Ho) as [B2 B3]; [lia..|rewrite (r4_total _ _ _ _ Hr); lia|].
  destruct (be16_bytes h' ip 6 (r4_octets _ _ _ _ Hr) Ho) as [B6 B7]; [lia..| |].
  { by rewrite (r4_flags _ _ _ _ Hr), (w4_flags _ _ _ _ _ Hw), H6. }
  assert (zget h' 1 = zget ip 1) as B1.
  { pose proof (r4_tos _ _ _ _ Hr) as Ht. unfold at_ at 2 in Ht. rewrite (Hbase 1) in Ht by (lia || set_solver).
    fold (at_ ip 1) in Ht. rewrite tos_restored in Ht by (by apply octets_at).
    destruct (zget_lt_is_Some h' 1) as [a Ea]; [lia|]. destruct (zget_lt_is_Some ip 1) as [b Eb]; [lia|].
    unfold at_ in Ht. rewrite Ea, Eb in *. cbn in Ht. by subst. }
  split.
  - rewrite zlen_app. lia.
  - rewrite <-(w4_id _ _ _ _ _ Hw). unfold be16, at_. rewrite !Hleft by lia. by rewrite !(r4_other _ _ _ _ Hr) by set_solver.
  - rewrite ztake_app_eq by lia. apply (r4_checksum _ _ _ _ Hr).
  - intros i Hi Hn. destruct (Z.lt_ge_cases i hl) as [Hlt|Hge].
    + rewrite Hleft by done. destruct (decide (i ∈ [1; 2; 3; 6; 7])) as [Hin|Hout].
      * repeat (apply elem_of_cons in Hin as [->|Hin]; [done|]). by apply elem_of_nil in Hin.
      * rewrite (r4_other _ _ _ _ Hr) by set_solver. apply Hbase; [done|set_solver].
    + rewrite zget_app, (proj2 (Z.ltb_ge _ _)) by lia. unfold S. rewrite zget_zslice by lia.
      rewrite (proj2 (Z.leb_le _ _)), (proj2 (Z.ltb_lt _ _)) by lia. cbn. f_equal. lia.
Qed.

Lemma walked_ipv4 ip h h' : octets ip -> Ipv4Header_walk ip = Ok h -> walked_from ip h' -> h' = IpV4 h.
Proof.
  intros Ho Hw Hw'. destruct h' as [h'|h']; cbn in Hw'; [congruence|].
  destruct (walk4_fields ip h Ho Hw) as (_ & _ & _ & Hv & _). destruct (walk6_fields ip h' Ho Hw') as (_ & _ & Hv' & _).
  exfalso. congruence.
Qed.

(** C7: what the fragmenter emits, the reassembler puts together.  The fragments of
    an IPv4 datagram, pushed in any order, are each accepted unless a limit or the
    allocator refuses one; every push but the last leaves the datagram incomplete,
    and the last returns it: every byte as before, except a replaced
    identification and the checksum, which verifies.  No other datagram changes. *)
Theorem fragments_reassemble (alloc : ip_allocator) (scope : Z) (frame : Frame) (options : FragmentOptions)
  (frames : list Frame) (l : LinkHeader) (h : Ipv4Header) (r : IpReassembler) (order : list (Frame * Z)) :
  octets (frame_bytes frame) -> options_ok options -> fragment frame options = Ok frames ->
  LinkHeader_walk (link_type frame) (frame_bytes frame) = Ok (Some l) ->
  let ip := zdrop (network_offset l) (frame_bytes frame) in
  let id := chosen_id h options in
  Ipv4Header_walk ip = Ok h -> mtu options < v4_total_length h ->
  ip_wf r -> datagrams r !! Key4 (key4_of scope ip id) = None -> order.*1 ≡ₚ frames ->
  exists pushes, present (presented4 scope) (network_offset l) order = Some pushes /\
    ends resource_error (ip_push_all alloc r pushes) (fun '(r', outs) =>
      exists accepted o d, outs = (PushAccepted <$> accepted) ++ [PushCompleted o d] /\ ip_wf r' /\
        datagrams r' = datagrams r /\ restored4 ip h id (cd_bytes d)).
Proof.
  intros Ho Hopt Hf Hl ip id Hwalk Hbig Hr Hnone Horder.
  destruct (safe_Ok _ _ _ (fragment_spec frame options Ho Hopt) Hf) as (_ & l' & h' & Hl' & _ & Hoff & Hw & Hcases).
  rewrite Hl in Hl'. injection Hl' as <-. fold ip in Hw, Hcases. pose proof (octets_zdrop (network_offset l) _ Ho) as Hio.
  fold ip in Hio. destruct (walk4_fields ip h Hio Hwalk) as (W1 & W2 & _).
  assert (h' = IpV4 h) as -> by (exact (walked_ipv4 ip h h' Hio Hwalk Hw)).
  destruct Hcases as [(Hm & _)|Hcut]; [cbn in Hm; lia|].
  destruct (trip_pieces scope frame _ ip h options frames Hoff Hio Hwalk Hcut)
    as (H0 & total & flags & frags & Hw4 & Hfl & Hpres & Hps & Hne).
  destruct (present_order _ _ _ _ _ Hpres Horder) as (pushes & E & Hperm). exists pushes. split; [exact E|].
  destruct (payload4_len frame _ ip h options frames Hio Hwalk Hcut) as (HS & Hpos & Hmax).
  assert (zlen H0 = v4_header_length h) as HlH by (rewrite (w4_len _ _ _ _ _ Hw4), zlen_ztake; lia).
  assert (header4_ok H0) as HH.
  { split; [apply (w4_octets _ _ _ _ _ Hw4)|]. destruct (walk4_fields ip h Hio Hwalk) as [? _]. lia. }
  pose proof (cut4 (key4_of scope ip id) _ H0 (Ecn_from_ipv4_tos (at_ ip 1)) HH ltac:(rewrite HlH; exact Hmax)) as Hclass.
  eapply ends_mono.
  { apply (pieces_complete alloc _ _ _ _ _ pushes [] r Hr); [|by intros ->; apply Permutation_nil in Hperm|exact Hpos|].
    - unfold progress. by rewrite Hnone.
    - cbn [app]. by rewrite Hperm. }
  intros [r' outs] (acc & o & d & recon & -> & Hw' & Hd & (hd & -> & Hhd) & Hreb). exists acc, o, d. split_and!; try done.
  - rewrite Hd. by apply delete_id.
  - destruct hd as [H0'|]; [|done]. rewrite (Hhd H0' eq_refl) in Hreb. cbn in Hreb.
    eapply restored4_intro; try done. apply (c4_flags _ _ _ _ _ _ Hcut).
Qed.

(** The three fragments of the sample, last first. *)
Definition sample_order : list (Frame * Z) := (fun f => (f, 5)) <$> rev sample_pieces.

Lemma fragments_reassemble_witness :
  exists pushes r' outs h, present (presented4 0) 0 sample_order = Some pushes /\
    ip_push_all demo_alloc (demo_new PolicyReject) pushes = Ok (r', outs) /\ zlen outs = 3 /\
    Ipv4Header_walk sample_ip = Ok h /\ exists d, restored4 sample_ip h 4660 d.
Proof.
  assert (exists h, Ipv4Header_walk sample_ip = Ok h /\ mtu sample_options < v4_total_length h /\
    chosen_id h sample_options = 4660) as (h & Hw & Hm & Hid).
  { eexists. split; [vm_compute; reflexivity|]. by vm_compute. }
  assert (exists l, LinkHeader_walk (link_type sample_frame) (frame_bytes sample_frame) = Ok (Some l) /\ network_offset l = 0)
    as (l & Hl & Hoff) by (eexists; by vm_compute).
  assert (ip_wf (demo_new PolicyReject)) as Hr.
  { apply (ip_reachable_wf 0 IpLimits_default PolicyReject); [apply default_limits_ok|apply demo_new_reachable]. }
  assert (sample_order.*1 ≡ₚ sample_pieces) as Hperm.
  { unfold sample_order. rewrite <-list_fmap_compose, list_fmap_id. symmetry. apply Permutation_rev. }
  pose proof (fragments_reassemble demo_alloc 0 sample_frame sample_options sample_pieces l h (demo_new PolicyReject) sample_order
    sample_octets sample_options_ok sample_cut Hl) as H.
  cbv zeta in H. rewrite Hoff, zdrop_0, Hid in H.
  destruct (H Hw Hm Hr eq_refl Hperm) as (pushes & E & Hends).
  assert (match present (presented4 0) 0 sample_order with
          | Some pushes => match ip_push_all demo_alloc (demo_new PolicyReject) pushes with
                           | Ok (_, outs) => zlen outs = 3 | _ => False end
          | None => False end) as Hrun by (by vm_compute).
  rewrite E in Hrun. destruct (ip_push_all demo_alloc (demo_new PolicyReject) pushes) as [[r' outs]| |] eqn:Er;
    [|destruct Hrun|destruct Hrun].
  destruct Hends as (acc & o & d & _ & _ & _ & Hd). exists pushes, r', outs, h.
  split; [exact E|]. split; [exact Er|]. split; [exact Hrun|]. split; [exact Hw|]. exists (cd_bytes d). exact Hd.
Defined.
