(* ===== verification/RoundTripIpv6.v ===== *)
(** * Fragmenting, then reassembling: IPv6

    The fragments of an IPv6 datagram, pushed in any order, give back the datagram
    byte for byte. *)

From stdpp Require Import base tactics option list numbers gmap strings relations.
From Stdlib Require Import ZArith Lia.
From S2P Require Import Prelude Checksum Ordered Flow Headers HeadersProofs Frame Transform Fragmenter.
From S2P Require Import IpModel IpValidate IpMerge IpReconstruct IpEngine IpRanges IpApply IpFragment IpRebuild.
From S2P Require Import IpCharge IpPush IpRetire IpTheorems IpDelivery IpDecisions IpPieces.
From S2P Require Import FragmenterProofs FragmenterIpv6 FragmenterTheorems RoundTrip.

(** ** The chain with a Fragment header announced *)

Section announced.
Context (data P : bytes) (pn pl : Z).
Context (Ho : octets data) (Hpl : pl <= zlen P) (Hlen : pl <= zlen data).
Context (Hsame : forall i, i = 6 \/ IPV6_LENGTH <= i -> i < pl -> i <> pn -> at_ P i = at_ data i).
Context (Hpn : at_ P pn = FRAGMENT).

(** From a state of the chain onwards: it is the last, or it ends before the byte
    that the last one names. *)
Lemma chain_onwards x :
  rtc (ext_step data) x (pn, at_ data pn, pl) ->
  x = (pn, at_ data pn, pl) \/ x.2 + 8 <= pl /\ (x.2 = pn \/ x.2 + 8 <= pn).
Proof.
  revert x. apply rtc_ind_l; [by left|]. intros x y Hxy _ IH. right. destruct x as [[q protocol] offset]. cbn.
  apply ext_step_inv in Hxy as (_ & _ & len & Hl & Hend & ->).
  pose proof (extension_length_bounds _ _ _ (octets_at data (offset + 1) Ho) Hl).
  destruct IH as [[= ? _ ?]|[? [?|?]]]; cbn in *; split; try lia.
Qed.

Lemma chain_announced x :
  rtc (ext_step data) x (pn, at_ data pn, pl) -> x.1.1 < x.2 -> IPV6_LENGTH <= x.2 ->
  rtc (ext_step P) (x.1.1, if decide (x.1.1 = pn) then FRAGMENT else x.1.2, x.2) (pn, FRAGMENT, pl).
Proof.
  revert x. refine (rtc_ind_l _ _ _ _).
  - intros _ _. cbn. rewrite decide_True by done. apply rtc_refl.
  - intros x y Hxy Hrest IH Hq Ho40. pose proof (chain_onwards _ Hrest) as Hy. destruct x as [[q protocol] offset]. cbn in *.
    apply ext_step_inv in Hxy as (_ & Hw & len & Hl & Hend & ->). cbn in *.
    pose proof (extension_length_bounds _ _ _ (octets_at data (offset + 1) Ho) Hl).
    assert (q <> pn /\ offset + 1 <> pn /\ offset + len <= pl) as (Hne & Hne' & Hfit).
    { destruct Hy as [[= ? _ ?]|[? [?|?]]]; lia. }
    rewrite decide_False by done. eapply rtc_l; [|apply IH; lia].
    assert (at_ P offset = if decide (offset = pn) then FRAGMENT else at_ data offset) as <-.
    { destruct (decide (offset = pn)) as [->|Hoff]; [done|]. apply Hsame; [by right|lia|done]. }
    apply ext_step_walk; [done| |lia]. rewrite Hsame; [done|right; lia|lia|done].
Qed.

Lemma path_announced : prefix_end data pl pn -> ext_path P pn FRAGMENT pl.
Proof.
  intros Hpe. unfold ext_path. pose proof (chain_announced _ (pe_path _ _ _ Hpe)) as H. cbn in H.
  specialize (H ltac:(unfold IPV6_LENGTH; lia) ltac:(lia)).
  assert ((if decide (6 = pn) then FRAGMENT else at_ data 6) = at_ P 6) as E; [|by rewrite E in H].
  pose proof (pe_max _ _ _ Hpe). unfold IPV6_LENGTH in *.
  destruct (decide (6 = pn)) as [<-|]; [done|]. symmetry. apply Hsame; [by left|lia|done].
Qed.
End announced.

(** ** The headers of a fragment *)

(** The addresses and the identification name the datagram. *)
Definition key6_of (scope : Z) (ip : bytes) (id : Z) : Ipv6DatagramKey :=
  mkKey6 scope (from_be_bytes (zslice 8 24 ip)) (from_be_bytes (zslice 24 40 ip)) id.

(** [f] is the fragment that the chain of extension headers of [ip] announces, read
    off the wire. *)
Definition presents6 (scope : Z) (ip : bytes) (f : Fragment) : Prop :=
  exists q offset, ext_path ip q FRAGMENT offset /\
    offset + 8 <= IPV6_LENGTH + be16 ip 4 <= zlen ip /\
    let word := be16 ip (offset + 2) in
    f = Fragment6 (mkFragment6 (key6_of scope ip (from_be_bytes (zslice (offset + 4) (offset + 8) ip)))
          (Z.shiftr word 3) (negb (Z.land word 1 =? 0)) (at_ ip offset) (ztake offset ip) q
          (zslice (offset + 8) (IPV6_LENGTH + be16 ip 4) ip)).

Lemma be32_roundtrip x : 0 <= x <= u32_max -> from_be_bytes (to_be_bytes32 x) = x.
Proof.
  intros Hx. unfold u32_max in Hx. unfold from_be_bytes, to_be_bytes32. cbn [foldl].
  pose proof (Z.div_mod x 256 ltac:(lia)) as E1. pose proof (Z.div_mod (x / 256) 256 ltac:(lia)) as E2.
  pose proof (Z.div_mod (x / 65536) 256 ltac:(lia)) as E3.
  rewrite !Z.div_div in E2, E3 by lia. change (256 * 256) with 65536 in E2. change (65536 * 256) with 16777216 in E3.
  rewrite (Z.mod_small (x / 16777216)); [lia|]. split; [apply Z.div_pos; lia|apply Z.div_lt_upper_bound; lia].
Qed.

Lemma fragment_flags6_fields p more :
  0 <= p -> p mod 8 = 0 ->
  Z.shiftr (p + from_bool more) 3 = p / 8 /\ negb (Z.land (p + from_bool more) 1 =? 0) = more.
Proof.
  intros Hp H8. pose proof (Z.div_mod p 8 ltac:(lia)). split.
  - rewrite Z.shiftr_div_pow2 by lia. change (2 ^ 3) with 8. symmetry.
    apply (Z.div_unique _ _ _ (from_bool more)); destruct more; cbn; lia.
  - change 1 with (Z.ones 1) at 1. rewrite Z.land_ones by lia. change (2 ^ 1) with 2.
    assert ((p + from_bool more) mod 2 = from_bool more) as ->; [|by destruct more].
    symmetry. apply (Z.mod_unique _ _ (4 * (p / 8))); destruct more; cbn; lia.
Qed.

Section prefix.
Context (ip : bytes) (datagram_end pl pn : Z).
Context (Ho : octets ip) (Hend : datagram_end <= zlen ip) (Hpe : prefix_end (ztake datagram_end ip) pl pn).

Lemma prefix_bounds : IPV6_LENGTH <= pl <= datagram_end /\ 0 <= pn < pl /\ (pn = 6 \/ IPV6_LENGTH <= pn).
Proof.
  pose proof (pe_max _ _ _ Hpe) as Hm. rewrite zlen_ztake in Hm. pose proof (prefix_end_next _ _ _ Hpe).
  destruct (pe_where _ _ _ Hpe) as [[? ?]|[? ?]]; unfold IPV6_LENGTH in *; lia.
Qed.

Lemma prefix6_len count : zlen (fragment_prefix6 ip pl pn count) = pl.
Proof. destruct prefix_bounds as (? & ? & _). apply fragment_prefix6_len; lia. Qed.

Lemma prefix6_get count i :
  zget (fragment_prefix6 ip pl pn count) i =
  if (4 <=? i) && (i <? 6) then zget (to_be_bytes16 (pl - 40 + 8 + count)) (i - 4)
  else if i =? pn then Some FRAGMENT else if i <? pl then zget ip i else None.
Proof.
  destruct prefix_bounds as (H1 & H2 & _). unfold IPV6_LENGTH in H1. unfold fragment_prefix6.
  assert (zlen [FRAGMENT] = 1) as L1 by done. assert (forall x, zlen (to_be_bytes16 x) = 2) as L2 by done.
  assert (zlen (ztake pl ip) = pl) as Hp by (rewrite zlen_ztake; lia).
  rewrite zget_overwrite by (rewrite ?zlen_overwrite, ?L1, ?L2; rewrite ?L1; lia). rewrite L2.
  change (4 + 2) with 6. destruct ((4 <=? i) && (i <? 6)); [done|].
  rewrite zget_overwrite by (rewrite ?L1; lia). rewrite L1, zget_ztake.
  destruct (Z.eqb_spec i pn) as [->|Hne].
  - rewrite Z.leb_refl, (proj2 (Z.ltb_lt _ _)), Z.sub_diag by lia. done.
  - destruct (Z.leb_spec pn i), (Z.ltb_spec i (pn + 1)); try lia; done.
Qed.

Lemma prefix6_octets count : 0 <= pl - 40 + 8 + count <= 65535 -> octets (fragment_prefix6 ip pl pn count).
Proof.
  intros Hc. unfold fragment_prefix6. repeat apply octets_overwrite.
  - by apply octets_ztake.
  - by apply Forall_singleton.
  - by apply to_be_bytes16_octets.
Qed.

Lemma prefix6_length count : 0 <= pl - 40 + 8 + count <= 65535 ->
  be16 (fragment_prefix6 ip pl pn count) 4 = pl - 40 + 8 + count.
Proof. intros Hc. unfold be16, at_. rewrite !prefix6_get. cbn [andb Z.leb Z.ltb Z.compare Pos.compare Pos.compare_cont]. apply be16_to_be. lia. Qed.

(** Bytes that neither the length nor the announcement changes. *)
Lemma prefix6_same count i : 0 <= i < pl -> ~ 4 <= i < 6 -> i <> pn -> zget (fragment_prefix6 ip pl pn count) i = zget ip i.
Proof.
  intros Hi H4 Hn. rewrite prefix6_get, (proj2 (Z.eqb_neq _ _)), (proj2 (Z.ltb_lt i pl)) by lia.
  destruct (Z.leb_spec 4 i), (Z.ltb_spec i 6); try lia; done.
Qed.

(** The chain of any bytes that start with the prefix reaches the Fragment header. *)
Lemma prefix6_path count rest : ext_path (fragment_prefix6 ip pl pn count ++ rest) pn FRAGMENT pl.
Proof.
  destruct prefix_bounds as (H1 & H2 & H3). pose proof (zlen_nonneg rest). unfold IPV6_LENGTH in H1.
  assert (forall i, i < pl -> at_ (fragment_prefix6 ip pl pn count ++ rest) i = at_ (fragment_prefix6 ip pl pn count) i) as Hl.
  { intros i Hi. apply at_app_l. by rewrite prefix6_len. }
  apply (path_announced (ztake datagram_end ip)); [by apply octets_ztake|rewrite zlen_app, prefix6_len; lia| | |exact Hpe].
  - intros i Hi Hlt Hn. rewrite Hl by done. unfold IPV6_LENGTH in Hi.
    unfold at_. rewrite prefix6_same by lia. by rewrite zget_ztake, (proj2 (Z.ltb_lt _ _)) by lia.
  - rewrite Hl by lia. unfold at_. rewrite prefix6_get, Z.eqb_refl. unfold IPV6_LENGTH in H3.
    destruct (Z.leb_spec 4 pn), (Z.ltb_spec pn 6); try lia; done.
Qed.

Section presents.
Context (scope p id : Z) (more : bool) (c : bytes).
Context (Hp : 0 <= p) (H8 : p mod 8 = 0) (Hid : 0 <= id <= u32_max).
Context (Hv : Z.shiftr (at_ ip 0) 4 = 6) (Hc : pl - 40 + 8 + zlen c <= 65535).

#[local] Notation P := (fragment_prefix6 ip pl pn (zlen c)).

(** The fragment of one piece. *)
Definition fragment6 : Ipv6Fragment := mkFragment6 (key6_of scope ip id) (p / 8) more (at_ ip pn) P pn c.

Lemma wire_bounds : 0 <= pl - 40 + 8 + zlen c <= 65535 /\ 40 <= pl.
Proof. destruct prefix_bounds as (H1 & _). unfold IPV6_LENGTH in H1. pose proof (zlen_nonneg c). lia. Qed.

Lemma prefix6_addresses a b rest : 8 <= a -> a <= b -> b <= 40 -> zslice a b (P ++ rest) = zslice a b ip.
Proof.
  intros Ha Hab Hb. destruct prefix_bounds as (H1 & H2 & H3). unfold IPV6_LENGTH in *. apply zget_ext. intros i Hi.
  rewrite !zget_zslice by lia. case_match eqn:E; [|done]. apply andb_true_iff in E as [_ E%Z.ltb_lt].
  rewrite zget_app, prefix6_len, (proj2 (Z.ltb_lt _ _)) by lia. apply prefix6_same; lia.
Qed.

Lemma emitted_presents6 pad :
  presents6 scope (P ++ fragment_extension (at_ ip pn) (p + from_bool more) id ++ c ++ pad) (Fragment6 fragment6).
Proof.
  destruct wire_bounds as [Hw H40]. destruct (fragment_flags6_fields p more Hp H8) as [F1 F2].
  set (ext := fragment_extension (at_ ip pn) (p + from_bool more) id). pose proof (zlen_nonneg c). pose proof (zlen_nonneg pad).
  assert (zlen ext = 8) as L8 by done. set (D := P ++ ext ++ c ++ pad).
  assert (zlen D = pl + 8 + zlen c + zlen pad) as HD by (unfold D; rewrite !zlen_app, prefix6_len, L8; lia).
  assert (be16 D 4 = pl - 40 + 8 + zlen c) as H4.
  { unfold be16, D. rewrite !at_app_l by (rewrite prefix6_len; lia). by apply prefix6_length. }
  assert (forall k, 0 <= k < 8 -> at_ D (pl + k) = at_ ext k) as Hext.
  { intros k Hk. unfold at_, D. rewrite zget_app, prefix6_len, (proj2 (Z.ltb_ge _ _)) by lia.
    rewrite zget_app, L8, (proj2 (Z.ltb_lt _ _)) by lia. do 2 f_equal. lia. }
  assert (zdrop pl D = ext ++ c ++ pad) as Hdrop by (apply zdrop_app_eq; by rewrite prefix6_len).
  assert (be16 D (pl + 2) = p + from_bool more) as Hword.
  { unfold be16. rewrite <-Z.add_assoc, !Hext by lia. apply be16_to_be. destruct more; cbn; lia. }
  assert (from_be_bytes (zslice (pl + 4) (pl + 8) D) = id) as Hidr.
  { unfold zslice. rewrite <-zdrop_zdrop, Hdrop by lia. replace (pl + 8 - (pl + 4)) with 4 by lia.
    change (ztake 4 (zdrop 4 (ext ++ c ++ pad))) with (to_be_bytes32 id). by apply be32_roundtrip. }
  exists pn, pl. split; [apply prefix6_path|]. rewrite H4, HD. unfold IPV6_LENGTH. split; [lia|]. cbv zeta. rewrite Hword, F1, F2, Hidr.
  assert (at_ D pl = at_ ip pn) as -> by (rewrite <-(Z.add_0_r pl) at 1; by rewrite Hext by lia).
  assert (ztake pl D = P) as -> by (apply ztake_app_eq; by rewrite prefix6_len).
  assert (zslice (pl + 8) (40 + (pl - 40 + 8 + zlen c)) D = c) as ->.
  { unfold zslice. rewrite <-zdrop_zdrop, Hdrop by lia. rewrite zdrop_app_eq by done. apply ztake_app_eq. lia. }
  unfold fragment6, key6_of. by rewrite !(prefix6_addresses _ _ (ext ++ c ++ pad)) by lia.
Qed.

Lemma emitted_prefix_valid : validate_ipv6_prefix fragment6 = Ok (Ecn_from_ipv6_traffic_class (at_ ip 1)).
Proof.
  destruct wire_bounds as [Hw H40], prefix_bounds as (_ & Hpn & Hq). unfold IPV6_LENGTH in *. pose proof (zlen_nonneg c).
  pose proof (prefix6_len (zlen c)) as HL.
  destruct (fragment_predecessor_exact P (prefix6_octets _ Hw)) as (o & Eo & Hspec); [rewrite HL; unfold ip_isize_max; lia|].
  assert (o = Some pn) as ->.
  { apply Hspec. rewrite HL. split; [unfold IPV6_LENGTH; lia|]. rewrite <-(app_nil_r P). apply prefix6_path. }
  unfold validate_ipv6_prefix. cbn [f6_unfragmentable_prefix f6_predecessor_next_header_offset f6_payload f6_key fragment6].
  rewrite first_chunk_ok by (rewrite HL; unfold IPV6_LENGTH; lia).
  assert (forall i, i < 40 -> at_ (ztake IPV6_LENGTH P) i = at_ P i) as Hat by (intros; by apply at_ztake).
  assert (forall i, 0 <= i < 40 -> ~ 4 <= i < 6 -> i <> 6 -> at_ P i = at_ ip i) as Hsame.
  { intros i Hi H4 H6. unfold at_. rewrite prefix6_same by lia. done. }
  unfold be16. rewrite !Hat by lia. rewrite (Hsame 0), (Hsame 1) by lia. rewrite Hv. cbn [Z.eqb Pos.eqb negb].
  rewrite Eo, Ok_bind, bool_decide_true by done. cbn [negb]. unfold or_overflow, IPV6_FRAGMENT_HEADER_LENGTH.
  rewrite HL, checked_sub_ok by (unfold IPV6_LENGTH; lia). cbn [mbind option_bind]. unfold IPV6_LENGTH.
  rewrite (checked_add_ok _ (pl - 40)) by (unfold usize_max, u64_max; lia). cbn [mbind option_bind].
  rewrite checked_add_ok by (unfold usize_max, u64_max; lia). cbn [ok_or]. rewrite Ok_bind.
  fold (be16 P 4). rewrite prefix6_length, Z.eqb_refl by done. cbn [negb].
  assert (forall a, 8 <= a -> a + 16 <= 40 -> (rest ← get_from P a; from_be_bytes <$> first_chunk 16 rest)
    = Some (from_be_bytes (zslice a (a + 16) ip))) as Haddr.
  { intros a Ha Hb. unfold get_from. rewrite get_range_ok by lia. cbn [mbind option_bind].
    rewrite first_chunk_ok by (rewrite zlen_zslice; lia). cbn. do 2 f_equal. rewrite <-(prefix6_addresses a (a + 16) []) by lia.
    rewrite app_nil_r. unfold zslice. rewrite (ztake_all (zlen P - a)) by (rewrite zlen_zdrop; lia). f_equal. lia. }
  rewrite !Haddr by lia. cbn [k6_source k6_destination key6_of]. by rewrite !bool_decide_true by done.
Qed.
End presents.
End prefix.

(** ** IPv6 pieces that agree *)

Section pieces6.
Context (k : Ipv6DatagramKey) (S : bytes) (prefix : Z -> bytes) (pl pn next : Z) (e0 : Ecn).
Context (Hpl : IPV6_LENGTH <= pl) (Hprefix : forall count, zlen (prefix count) = pl).
Context (Hlen : pl - IPV6_LENGTH + zlen S <= MAX_WIRE_LENGTH).

(** A piece whose headers are the prefix for its length. *)
Record good6 (f : Fragment) : Prop := {
  g6_piece : piece (Key6 k) S f;
  g6_aligned : fragment_more f = true -> zlen (fragment_payload f) mod 8 = 0;
  g6_atomic : fragment_units f = 0 -> fragment_more f = true;
  g6_header : match f with
              | Fragment6 f6 => validate_ipv6_prefix f6 = Ok e0 /\ f6_unfragmentable_prefix f6 = prefix (zlen (f6_payload f6)) /\
                  f6_predecessor_next_header_offset f6 = pn /\ f6_next_header f6 = next
              | _ => False
              end
}.

Definition incoming6 (f : Fragment) : Incoming :=
  mkIncoming (fragment_key f) (fragment_units f * 8) (fragment_units f * 8 + zlen (fragment_payload f))
    (fragment_more f) (fragment_payload f) (Incoming6 (fragment_prefix f) pn next) e0.

Definition kept6 (r : Reconstruction) : Prop :=
  exists count zero, r = Reconstruct6 (prefix count) pn next e0 zero.

Lemma good6_prefix f : good6 f -> exists count, fragment_prefix f = prefix count.
Proof. intros [_ _ _ Hh]. destruct f as [|f]; [done|]. destruct Hh as (_ & Hp & _). by eexists. Qed.

Lemma wire6_ok lim f existing final :
  good6 f -> kept_by kept6 existing -> existing_wf lim (Key6 k) existing ->
  wire_extent existing (incoming6 f) final <= zlen S ->
  validate_family_wire_extent existing (incoming6 f) final = Ok tt.
Proof.
  intros Hg Hk Hex Hle. destruct (good6_prefix f Hg) as [count Hp]. unfold validate_family_wire_extent.
  rewrite (retained_last_end_spec lim (Key6 k) existing Hex). cbn [inc_reconstruction incoming6]. rewrite Hp.
  match goal with |- context [checked_add usize_max _ (default ?d final)] =>
    assert (default d final = wire_extent existing (incoming6 f) final) as -> end.
  { unfold wire_extent. by destruct existing. }
  assert (match existing with
          | Some state => match reconstruction state with
                          | Reconstruct6 established _ _ _ zero =>
                              if negb zero && (inc_offset (incoming6 f) =? 0) then zlen (prefix count) else zlen established
                          | Reconstruct4 _ _ => zlen (prefix count)
                          end
          | None => zlen (prefix count)
          end = pl) as ->.
  { destruct existing as [st|]; [|done]. destruct Hk as (c' & z & ->). by case_match. }
  unfold or_overflow. rewrite checked_sub_ok by lia. cbn [ok_or]. rewrite Ok_bind. apply wire_ok. lia.
Qed.

Lemma validates6 f lim : good6 f ->
  validate_fragment f lim =
    if max_bytes_per_datagram lim <? frag_end f
    then ip_resource (DatagramByteLimit (max_bytes_per_datagram lim)) else Ok (incoming6 f).
Proof.
  intros Hg. pose proof Hg as [Hp Ha Hat Hh]. pose proof (pc_end _ _ _ Hp) as He. pose proof (pc_nonempty _ _ _ Hp) as Hn.
  pose proof (fk_units _ (pc_ok _ _ _ Hp)) as Hu. unfold frag_end, MAX_WIRE_LENGTH in *.
  destruct f as [|f]; [done|]. cbn [fragment_units fragment_payload fragment_more] in *. destruct Hh as (Hv & _ & Epn & Enx).
  unfold validate_fragment. rewrite (proj2 (Z.ltb_ge 8191 _)) by lia. rewrite Hv, !Ok_bind.
  assert ((f6_fragment_offset f =? 0) && negb (f6_more_fragments f) = false) as ->.
  { destruct (Z.eqb_spec (f6_fragment_offset f) 0) as [E|]; [|done]. by rewrite (Hat E). }
  rewrite is_empty_zlen, (proj2 (Z.eqb_neq _ _)) by lia.
  assert (f6_more_fragments f && negb (zlen (f6_payload f) mod 8 =? 0) = false) as ->.
  { destruct (f6_more_fragments f); [|done]. by rewrite (Ha eq_refl). }
  unfold or_overflow. rewrite checked_mul_ok by (unfold usize_max, u64_max; lia). cbn [ok_or].
  rewrite Ok_bind, checked_add_ok by (unfold usize_max, u64_max; lia). cbn [ok_or]. rewrite Ok_bind, Epn, Enx.
  change (mkIncoming _ _ _ _ _ _ _) with (incoming6 (Fragment6 f)).
  rewrite (wire6_ok lim (Fragment6 f) None) by (try done; unfold wire_extent; cbn; destruct (f6_more_fragments f); cbn; lia).
  rewrite Ok_bind. cbn [inc_end incoming6 fragment_units fragment_payload].
  by replace (f6_fragment_offset f * 8 + zlen (f6_payload f)) with (8 * f6_fragment_offset f + zlen (f6_payload f)) by lia.
Qed.

#[export] Instance cut6 : CutDatagram (Key6 k) S good6 incoming6 kept6.
Proof.
  split.
  - by intros f [].
  - intros f lim. apply validates6.
  - intros f [_ _ _ Hh]. destruct f as [|f]; [done|]. destruct Hh as (_ & _ & Epn & Enx).
    split; [split|]; cbn; unfold frag_end; cbn; rewrite ?Epn, ?Enx; try done; lia.
  - intros f [st|] Hg Hk; [|done]. destruct Hk as (count & z & Er). unfold validate_reconstruction_consistency. by rewrite Er.
  - intros f existing Hg Hk. destruct (good6_prefix f Hg) as [count Hp]. unfold accumulated_ecn, settled.
    cbn [inc_reconstruction incoming6]. rewrite Hp.
    assert (forall z, kept6 (Reconstruct6 (prefix count) pn next e0 z)) as Hnew by (intros z; by exists count, z).
    destruct existing as [st|]; [|exists e0; split; [done|apply Hnew]]. destruct Hk as (c' & z & Er). exists e0.
    rewrite Er. cbn [Reconstruction_ecn inc_ecn incoming6]. rewrite Ecn_merge_same. split; [done|].
    cbn [fmap option_fmap option_map]. rewrite Er. case_match; [apply Hnew|]. by exists c', z.
  - apply wire6_ok.
Qed.
End pieces6.

(** ** The round trip *)

Section trip6.
Context (scope : Z) (frame : Frame) (offset : Z) (ip : bytes) (h : Ipv6Header) (options : FragmentOptions) (frames : list Frame).
Context (Hoff : 0 <= offset <= zlen (frame_bytes frame)) (Ho : octets ip) (Hwalk : Ipv6Header_walk ip = Ok h).
Context (Hcut : cut_ipv6 frame offset ip h options frames) (Hopt : options_ok options).

#[local] Notation total := (IPV6_LENGTH + v6_payload_length h).
#[local] Notation S pl := (zslice pl total ip).
#[local] Notation e0 := (Ecn_from_ipv6_traffic_class (at_ ip 1)).

(** The fragments are the pieces of what follows the unfragmentable part. *)
Lemma trip_pieces6 :
  exists pl pn id frags, IPV6_LENGTH <= pl < total /\ 0 <= pn < pl /\ (pn = 6 \/ IPV6_LENGTH <= pn) /\
    prefix_end (ztake total ip) pl pn /\ fo_identification options = Some id /\
    Forall2 (fun f g => presents6 scope (zdrop offset (frame_bytes f)) g) frames frags /\
    pieces_of (S pl) (good6 (key6_of scope ip id) (S pl) (fragment_prefix6 ip pl pn) pn (at_ ip pn) e0) frags /\ frags <> [].
Proof.
  destruct (c6_pieces _ _ _ _ _ _ Hcut) as (pl & pn & id & pieces & Hpe & [Hidopt Hroom8] & Ht & Hall).
  destruct (walk6_fields ip h Ho Hwalk) as (H1 & H2 & Hv & _). unfold IPV6_LENGTH in *.
  destruct (prefix_bounds ip total pl pn Hpe) as (Hb & Hpn & Hq). unfold IPV6_LENGTH in Hb.
  assert (0 <= id <= u32_max) as Hid.
  { destruct Hopt as (_ & Hi & _). by rewrite Hidopt in Hi. }
  assert (zlen (zslice pl (40 + v6_payload_length h) ip) = 40 + v6_payload_length h - pl) as HS by (rewrite zlen_zslice; lia).
  pose proof (c6_large _ _ _ _ _ _ Hcut) as Hbig. unfold IPV6_LENGTH in Hbig.
  set (Sl := zslice pl (40 + v6_payload_length h) ip) in *.
  assert (forall pc f, pc ∈ pieces -> emitted6 frame offset ip Sl pl pn (mtu options - (pl + 8)) id pc f ->
    let g := Fragment6 (fragment6 ip pl pn scope pc.1 id (pc.1 + zlen pc.2 <? zlen Sl) pc.2) in
    presents6 scope (zdrop offset (frame_bytes f)) g /\
    good6 (key6_of scope ip id) Sl (fragment_prefix6 ip pl pn) pn (at_ ip pn) e0 g /\ carries pc g) as Hone.
  { intros [p c] f Hin (Hroom & Hmax & ->). cbn [fst snd] in *.
    destruct (tiles_in _ _ _ _ 0 ltac:(lia) Ht Hin) as (Hp & H8 & Hc & Hs & Hle & Hal).
    assert (8 * (p / 8) = p) as Hdiv by (pose proof (Z.div_mod p 8 ltac:(lia)); lia).
    split_and!; [| |by split].
    - match goal with |- context [emitted frame offset ?header c] =>
        destruct (emitted_data frame offset header c Hoff) as [pad ->] end. rewrite <-app_assoc.
      exact (emitted_presents6 ip total pl pn Ho H2 Hpe scope p id _ c Hp H8 Hid Hmax (zrep pad 0)).
    - split; cbn [fragment_units fragment_payload fragment_more f6_fragment_offset f6_payload f6_more_fragments fragment6].
      + split; unfold frag_end;
          cbn [fragment_units fragment_payload fragment_more fragment_key f6_fragment_offset f6_payload f6_more_fragments f6_key fragment6];
          rewrite ?Hdiv; try done.
        split; cbn [fragment_units fragment_payload fragment_prefix f6_fragment_offset f6_payload f6_unfragmentable_prefix fragment6 f6_next_header];
          unfold u16_max, ip_isize_max; rewrite ?(prefix6_len ip total pl pn H2 Hpe); try lia.
        * rewrite Hs. by apply octets_zslice, octets_zslice.
        * apply prefix6_octets; [done|]. pose proof (zlen_nonneg c). lia.
        * by apply octets_at.
      + intros Hmore%Z.ltb_lt. auto.
      + intros H0. apply Z.ltb_lt. lia.
      + split_and!; try done. exact (emitted_prefix_valid ip total pl pn Ho H2 Hpe scope p id _ c Hv Hmax). }
  assert (forall pcs fs, (forall pc, pc ∈ pcs -> pc ∈ pieces) ->
    Forall2 (emitted6 frame offset ip Sl pl pn (mtu options - (pl + 8)) id) pcs fs ->
    exists frags, Forall2 (fun f g => presents6 scope (zdrop offset (frame_bytes f)) g) fs frags /\
      Forall (good6 (key6_of scope ip id) Sl (fragment_prefix6 ip pl pn) pn (at_ ip pn) e0) frags /\ Forall2 carries pcs frags) as Hmany.
  { intros pcs fs Hsub Hf. induction Hf as [|pc f pcs fs Hpf Hf IH]; [by exists []|].
    destruct IH as (frags & I1 & I2 & I3); [intros; apply Hsub; by right|].
    destruct (Hone pc f (Hsub pc ltac:(left)) Hpf) as (O1 & O2 & O3). eexists (_ :: frags). split_and!; constructor; done. }
  destruct (Hmany pieces frames ltac:(done) Hall) as (frags & I1 & I2 & I3).
  exists pl, pn, id, frags. split_and!; try done; try lia.
  - by apply (tiles_pieces Sl _ pieces).
  - intros ->. apply Forall2_nil_inv_r in I3. subst pieces. cbn in Ht. lia.
Qed.
End trip6.

(** ** The datagram is restored *)

Lemma class_restored x : 0 <= x < 256 -> Z.lor (Z.land x 207) (Ecn_ipv6_traffic_class_bits (Ecn_from_ipv6_traffic_class x)) = x.
Proof.
  intros Hx. assert (forallb (fun x => Z.lor (Z.land x 207) (Ecn_ipv6_traffic_class_bits (Ecn_from_ipv6_traffic_class x)) =? x)
    (seqZ 0 256) = true) as Hall by (by vm_compute).
  rewrite forallb_forall in Hall. apply Z.eqb_eq, Hall, list_elem_of_In, elem_of_seqZ. lia.
Qed.

Lemma restored6 ip h pl pn count d :
  octets ip -> Ipv6Header_walk ip = Ok h -> prefix_end (ztake (IPV6_LENGTH + v6_payload_length h) ip) pl pn ->
  rebuilt6 (fragment_prefix6 ip pl pn count) pn (at_ ip pn) (Ecn_from_ipv6_traffic_class (at_ ip 1))
    (zslice pl (IPV6_LENGTH + v6_payload_length h) ip) d ->
  d = ztake (IPV6_LENGTH + v6_payload_length h) ip.
Proof.
  intros Ho Hwalk Hpe (P & -> & Hr). destruct (walk6_fields ip h Ho Hwalk) as (H1 & H2 & _ & Hpay & _).
  set (total := IPV6_LENGTH + v6_payload_length h) in *.
  destruct (prefix_bounds ip total pl pn Hpe) as (Hb & Hpn & Hq). unfold IPV6_LENGTH in Hb, Hq.
  pose proof (prefix6_len ip total pl pn H2 Hpe count) as HL.
  assert (zlen P = pl) as HP by (rewrite (r6_len _ _ _ _ _ _ Hr); exact HL).
  assert (zlen (zslice pl total ip) = total - pl) as HS by (rewrite zlen_zslice; lia).
  destruct (be16_bytes P ip 4 (r6_octets _ _ _ _ _ _ Hr) Ho) as [B4 B5]; [lia..| |].
  { rewrite (r6_length _ _ _ _ _ _ Hr), HL, HS. unfold total, IPV6_LENGTH. lia. }
  assert (forall i, 0 <= i < pl -> ~ 4 <= i < 6 -> i <> pn -> zget (fragment_prefix6 ip pl pn count) i = zget ip i) as Hsame
    by (intros; by apply (prefix6_same ip total pl pn H2 Hpe)).
  assert (zget P 1 = zget ip 1) as B1.
  { pose proof (r6_class _ _ _ _ _ _ Hr) as Ht. unfold at_ at 2 in Ht. rewrite (Hsame 1) in Ht by lia.
    fold (at_ ip 1) in Ht. rewrite class_restored in Ht by (by apply octets_at).
    destruct (zget_lt_is_Some P 1) as [a Ea]; [lia|]. destruct (zget_lt_is_Some ip 1) as [b Eb]; [lia|].
    unfold at_ in Ht. rewrite Ea, Eb in *. cbn in Ht. by subst. }
  assert (zget P pn = zget ip pn) as Bn.
  { rewrite (r6_next _ _ _ _ _ _ Hr). unfold at_. destruct (zget_lt_is_Some ip pn) as [b ->]; [lia|]. done. }
  apply zget_ext. intros i Hi. rewrite zget_app, HP, zget_ztake. destruct (Z.ltb_spec i pl) as [Hlt|Hge].
  - rewrite (proj2 (Z.ltb_lt _ _)) by lia. destruct (decide (i ∈ [1; 4; 5; pn])) as [Hin|Hout].
    + repeat (apply elem_of_cons in Hin as [->|Hin]; [done|]). by apply elem_of_nil in Hin.
    + rewrite (r6_other _ _ _ _ _ _ Hr) by done. rewrite !not_elem_of_cons in Hout. apply Hsame; lia.
  - rewrite zget_zslice, (proj2 (Z.leb_le _ _)) by lia. cbn [andb].
    destruct (Z.ltb_spec (i - pl) (total - pl)), (Z.ltb_spec i total); try lia; [|done]. f_equal. lia.
Qed.

Lemma walked_ipv6 ip h h' : octets ip -> Ipv6Header_walk ip = Ok h -> walked_from ip h' -> h' = IpV6 h.
Proof.
  intros Ho Hw Hw'. destruct h' as [h'|h']; cbn in Hw'; [|congruence].
  destruct (walk6_fields ip h Ho Hw) as (_ & _ & Hv & _). destruct (walk4_fields ip h' Ho Hw') as (_ & _ & _ & Hv' & _).
  exfalso. congruence.
Qed.

(** C8: the fragments of an IPv6 datagram, pushed in any order, are each accepted
    unless a limit or the allocator refuses one; every push but the last leaves the
    datagram incomplete, and the last returns it byte for byte.  No other datagram
    changes. *)
Theorem fragments_reassemble_ipv6 (alloc : ip_allocator) (scope : Z) (frame : Frame) (options : FragmentOptions)
  (frames : list Frame) (l : LinkHeader) (h : Ipv6Header) (id : Z) (r : IpReassembler) (order : list (Frame * Z)) :
  octets (frame_bytes frame) -> options_ok options -> fragment frame options = Ok frames ->
  LinkHeader_walk (link_type frame) (frame_bytes frame) = Ok (Some l) ->
  let ip := zdrop (network_offset l) (frame_bytes frame) in
  let total := IPV6_LENGTH + v6_payload_length h in
  Ipv6Header_walk ip = Ok h -> mtu options < total -> fo_identification options = Some id ->
  ip_wf r -> datagrams r !! Key6 (key6_of scope ip id) = None -> order.*1 ≡ₚ frames ->
  exists pushes, carried (fun f => presents6 scope (zdrop (network_offset l) (frame_bytes f))) order pushes /\
    ends resource_error (ip_push_all alloc r pushes) (fun '(r', outs) =>
      exists accepted o d, outs = (PushAccepted <$> accepted) ++ [PushCompleted o d] /\ ip_wf r' /\
        datagrams r' = datagrams r /\ cd_bytes d = ztake total ip).
Proof.
  intros Ho Hopt Hf Hl ip total Hwalk Hbig Hid Hr Hnone Horder.
  destruct (safe_Ok _ _ _ (fragment_spec frame options Ho Hopt) Hf) as (_ & l' & h' & Hl' & _ & Hoff & Hw & Hcases).
  rewrite Hl in Hl'. injection Hl' as <-. fold ip in Hw, Hcases. pose proof (octets_zdrop (network_offset l) _ Ho) as Hio.
  fold ip in Hio. destruct (walk6_fields ip h Hio Hwalk) as (W1 & W2 & _).
  assert (h' = IpV6 h) as -> by (exact (walked_ipv6 ip h h' Hio Hwalk Hw)).
  destruct Hcases as [(Hm & _)|Hcut]; [destruct (Z.lt_irrefl total (Z.le_lt_trans _ _ _ Hm Hbig))|].
  destruct (trip_pieces6 scope frame _ ip h options frames Hoff Hio Hwalk Hcut Hopt)
    as (pl & pn & id' & frags & Hpl & Hpn & Hq & Hpe & Hid' & Hpres & Hps & Hne).
  rewrite Hid in Hid'. injection Hid' as <-. fold total in Hpe, Hps, Hpl.
  destruct (carried_order _ _ _ _ Hpres Horder) as (pushes & E & Hperm). exists pushes. split; [exact E|].
  assert (zlen (zslice pl total ip) = total - pl) as HS by (unfold total, IPV6_LENGTH in *; rewrite zlen_zslice; lia).
  pose proof (cut6 (key6_of scope ip id) (zslice pl total ip) (fragment_prefix6 ip pl pn) pl pn (at_ ip pn)
    (Ecn_from_ipv6_traffic_class (at_ ip 1)) (proj1 Hpl) (prefix6_len ip total pl pn W2 Hpe)
    ltac:(rewrite HS; unfold total, IPV6_LENGTH, MAX_WIRE_LENGTH in *; lia)) as Hclass.
  eapply ends_mono.
  { apply (pieces_complete alloc _ _ _ _ _ pushes [] r Hr); [|by intros ->; apply Permutation_nil in Hperm|rewrite HS; lia|].
    - unfold progress. by rewrite Hnone.
    - cbn [app]. by rewrite Hperm. }
  intros [r' outs] (acc & o & d & recon & -> & Hw' & Hd & (count & z & ->) & Hreb). exists acc, o, d. split_and!; try done.
  - rewrite Hd. by apply delete_id.
  - by apply (restored6 ip h pl pn count).
Qed.

(** A UDP datagram of 40 bytes in a raw IPv6 frame, cut at an MTU of 72. *)
Definition sample_ip6 : bytes :=
  [96; 0; 0; 0; 0; 40; 17; 64] ++ zrep 15 0 ++ [1] ++ zrep 15 0 ++ [2] ++ seqZ 100 40.
Definition sample_frame6 : Frame := mkFrame None 80 80 229 None None sample_ip6.
Definition sample_options6 : FragmentOptions := mkFragmentOptions 72 (Some 77) 16 4096.
Definition sample_pieces6 : list Frame := match fragment sample_frame6 sample_options6 with Ok l => l | _ => [] end.

(** Its two fragments, as the reassembler is given them, last first. *)
Definition sample_pushes6 : list (Fragment * Z) :=
  [(Fragment6 (fragment6 sample_ip6 40 6 0 24 77 false (zslice 64 80 sample_ip6)), 5);
   (Fragment6 (fragment6 sample_ip6 40 6 0 0 77 true (zslice 40 64 sample_ip6)), 6)].

Definition completed_bytes (o : outcome IpError (IpReassembler * list PushOutcome)) : option bytes :=
  match o with
  | Ok (_, outs) => match last outs with Some (PushCompleted _ d) => Some (cd_bytes d) | _ => None end
  | _ => None
  end.

Lemma fragments_reassemble_ipv6_witness :
  zlen sample_pieces6 = 2 /\ completed_bytes (ip_push_all demo_alloc (demo_new PolicyReject) sample_pushes6) = Some sample_ip6 /\
  exists pushes, carried (fun f => presents6 0 (frame_bytes f)) ((fun f => (f, 5)) <$> rev sample_pieces6) pushes /\
    ends resource_error (ip_push_all demo_alloc (demo_new PolicyReject) pushes) (fun '(_, outs) =>
      exists accepted o d, outs = (PushAccepted <$> accepted) ++ [PushCompleted o d] /\ cd_bytes d = sample_ip6).
Proof.
  split; [by vm_compute|]. split; [by vm_compute|].
  assert (exists h, Ipv6Header_walk sample_ip6 = Ok h /\ v6_payload_length h = 40) as (h & Hw & Hp).
  { eexists. split; [vm_compute; reflexivity|reflexivity]. }
  assert (exists l, LinkHeader_walk (link_type sample_frame6) (frame_bytes sample_frame6) = Ok (Some l) /\ network_offset l = 0)
    as (l & Hl & Hoff) by (eexists; by vm_compute).
  assert (ip_wf (demo_new PolicyReject)) as Hr.
  { apply (ip_reachable_wf 0 IpLimits_default PolicyReject); [apply default_limits_ok|apply demo_new_reachable]. }
  assert (octets (frame_bytes sample_frame6)) as Ho by (vm_compute; repeat constructor; done).
  assert (options_ok sample_options6) as Hopt by (by vm_compute).
  assert (fragment sample_frame6 sample_options6 = Ok sample_pieces6) as Hcut by (vm_compute; reflexivity).
  assert (((fun f => (f, 5)) <$> rev sample_pieces6).*1 ≡ₚ sample_pieces6) as Hperm.
  { rewrite <-list_fmap_compose, list_fmap_id. symmetry. apply Permutation_rev. }
  pose proof (fragments_reassemble_ipv6 demo_alloc 0 sample_frame6 sample_options6 sample_pieces6 l h 77 (demo_new PolicyReject)
    ((fun f => (f, 5)) <$> rev sample_pieces6) Ho Hopt Hcut Hl) as H.
  cbv zeta in H. rewrite Hoff, zdrop_0, Hp in H.
  destruct (H Hw eq_refl eq_refl Hr eq_refl Hperm) as (pushes & E & Hends). exists pushes. split; [exact E|].
  eapply ends_mono; [exact Hends|]. intros [r' outs] (acc & o & d & Eo & _ & _ & Hd). exists acc, o, d. split; [exact Eo|].
  rewrite Hd. by vm_compute.
Defined.
