(* ===== verification/TransformProofs.v ===== *)
(** * Transport checksum repair

    Big-endian integers, the pseudo-header checksum against RFC 1071, the repair
    of a checksum field, and safety of the coverage check. *)

From stdpp Require Import base tactics option list numbers strings.
From Stdlib Require Import ZArith Lia.
From S2P Require Import Prelude Checksum Ordered Flow Headers HeadersProofs Frame Transform Fragmenter.
From S2P Require Import IpRanges IpRebuild FragmenterProofs FragmenterIpv6 FragmenterTheorems.

(** ** Big-endian integers *)

Lemma zlen_be_bytes n x : zlen (be_bytes n x) = Z.of_nat n.
Proof. revert x. induction n as [|n IH]; intros x; cbn [be_bytes]; [done|]. rewrite zlen_app, IH. unfold zlen. cbn. lia. Qed.

Lemma octets_be_bytes n x : octets (be_bytes n x).
Proof.
  revert x. induction n as [|n IH]; intros x; cbn [be_bytes]; [constructor|].
  apply Forall_app. split; [done|]. apply Forall_singleton. apply Z.mod_pos_bound. lia.
Qed.

Lemma from_be_bytes_snoc l b : from_be_bytes (l ++ [b]) = from_be_bytes l * 256 + b.
Proof. unfold from_be_bytes. by rewrite foldl_snoc. Qed.

Lemma from_be_be_bytes n x : 0 <= x < 256 ^ Z.of_nat n -> from_be_bytes (be_bytes n x) = x.
Proof.
  revert x. induction n as [|n IH]; intros x Hx; cbn [be_bytes].
  - cbn in *. lia.
  - rewrite Nat2Z.inj_succ, Z.pow_succ_r in Hx by lia. rewrite from_be_bytes_snoc, IH.
    + pose proof (Z.div_mod x 256). lia.
    + split; [apply Z.div_pos; lia|]. apply Z.div_lt_upper_bound; lia.
Qed.

Lemma from_be_bytes_range l : octets l -> 0 <= from_be_bytes l < 256 ^ zlen l.
Proof.
  induction l as [|b l IH] using rev_ind; [done|]. intros [Hl Hb]%Forall_app. apply Forall_cons_1 in Hb as [Hb _]. specialize (IH Hl).
  rewrite from_be_bytes_snoc, zlen_app. change (zlen [b]) with 1. pose proof (zlen_nonneg l). rewrite Z.pow_add_r by lia. lia.
Qed.

Lemma be_bytes_16 x : 0 <= x <= 65535 -> be_bytes 2 x = to_be_bytes16 x.
Proof.
  intros Hx. unfold to_be_bytes16. cbn [be_bytes app]. pose proof (Z.div_pos x 256). pose proof (Z.div_lt_upper_bound x 256 256).
  by rewrite (Z.mod_small (x / 256)) by lia.
Qed.

Lemma be16_slice l i : 0 <= i -> i + 2 <= zlen l -> be16 l i = from_be_bytes (zslice i (i + 2) l).
Proof. intros. by rewrite zslice_two by lia. Qed.

Lemma zslice_overwrite {A} (l s : list A) a : 0 <= a -> a + zlen s <= zlen l -> zslice a (a + zlen s) (overwrite l a s) = s.
Proof.
  intros Ha Hl. pose proof (zlen_nonneg s). apply zget_ext. intros i Hi. rewrite zget_zslice, zget_overwrite by lia.
  destruct (Z.leb_spec 0 i), (Z.leb_spec a (a + i)), (Z.ltb_spec i (a + zlen s - a)), (Z.ltb_spec (a + i) (a + zlen s)); try lia; cbn.
  - f_equal. lia.
  - symmetry. apply zget_ge. lia.
Qed.

(** ** The pseudo-header *)

(** RFC 793 and RFC 8200, section 8.1. *)
Definition pseudo_header (source destination : IpAddr) (protocol length : Z) : bytes :=
  address_octets source ++ address_octets destination ++
  match source with
  | V4 _ => [0; protocol] ++ be_bytes 2 length
  | V6 _ => be_bytes 4 length ++ [0; 0; 0; protocol]
  end.

(** The longest segment each family's pseudo-header can announce. *)
Definition segment_max (a : IpAddr) : Z := match a with V4 _ => u16_max | V6 _ => u32_max end.

Lemma octets_address a : octets (address_octets a).
Proof. destruct a; apply octets_be_bytes. Qed.

Lemma octets_pseudo source destination protocol length :
  0 <= protocol < 256 -> octets (pseudo_header source destination protocol length).
Proof.
  intros Hp. unfold pseudo_header. apply Forall_app. split; [apply octets_address|]. apply Forall_app.
  split; [apply octets_address|]. destruct source; apply Forall_app; split; try apply octets_be_bytes; repeat constructor; lia.
Qed.

Lemma zlen_address a : zlen (address_octets a) = if is_ipv4 a then 4 else 16.
Proof. destruct a; cbn [address_octets is_ipv4]; by rewrite zlen_be_bytes. Qed.

Lemma zlen_pseudo source destination protocol length :
  is_ipv4 source = is_ipv4 destination ->
  zlen (pseudo_header source destination protocol length) = if is_ipv4 source then 12 else 40.
Proof.
  intros Hf. unfold pseudo_header. rewrite !zlen_app, !zlen_address, <-Hf.
  destruct source; cbn [is_ipv4]; rewrite zlen_app, zlen_be_bytes; done.
Qed.

Lemma transport_checksum_spec name source destination protocol segment :
  is_ipv4 source = is_ipv4 destination -> octets segment -> 0 <= protocol < 256 ->
  zlen segment <= segment_max source ->
  transport_checksum_parts name source destination protocol [segment]
  = Ok (internet_checksum (pseudo_header source destination protocol (zlen segment) ++ segment)).
Proof.
  intros Hf Ho Hp Hl. pose proof (zlen_nonneg segment).
  assert (zlen segment <= u32_max) as Hl32 by (destruct source; cbn in Hl; unfold u16_max, u32_max in *; lia).
  assert (parts_length 0 [segment] = Some (zlen segment)) as Hpl.
  { cbn [parts_length]. rewrite checked_add_ok by (unfold usize_max, u64_max, u32_max in *; lia). done. }
  unfold transport_checksum_parts. rewrite Hpl. cbn [ok_or]. rewrite Ok_bind.
  assert (forall pseudo, concat pseudo = pseudo_header source destination protocol (zlen segment) -> Forall octets pseudo ->
    accumulator_finish (foldl accumulator_add (foldl accumulator_add accumulator_default pseudo) [segment])
    = internet_checksum (pseudo_header source destination protocol (zlen segment) ++ segment)) as Hfin.
  { intros pseudo Hc Hps. rewrite <-foldl_app. change (accumulator_finish _) with (checksum_parts (pseudo ++ [segment])).
    assert (concat (pseudo ++ [segment]) = pseudo_header source destination protocol (zlen segment) ++ segment) as E.
    { rewrite concat_app, Hc. cbn. by rewrite app_nil_r. }
    rewrite checksum_parts_reference; [by rewrite E|apply Forall_app; split; [done|by constructor]|].
    rewrite E, zlen_app, zlen_pseudo by done. unfold u64_max, u32_max in *. destruct (is_ipv4 source); lia. }
  assert (octets [0; protocol] /\ octets [0; 0; 0; protocol]) as [P2 P4] by (split; repeat constructor; lia).
  pose proof (octets_address source). pose proof (octets_address destination).
  destruct source as [s|s], destination as [d|d]; try done; cbn [segment_max] in Hl;
    rewrite (proj2 (Z.leb_le _ _)) by lia; cbn [ok_or]; rewrite !Ok_bind; f_equal; apply Hfin;
    try (unfold pseudo_header; cbn [concat]; by rewrite ?app_nil_r);
    repeat first [done | apply octets_be_bytes | apply List.Forall_nil | apply List.Forall_cons].
Qed.

(** A zeroed field filled with the checksum, or with all ones where the checksum
    is zero, makes the whole verify. *)
Lemma filled_field_verifies before rest c :
  octets before -> octets rest -> Nat.Even (length before) ->
  (c = internet_checksum (before ++ [0; 0] ++ rest) \/ internet_checksum (before ++ [0; 0] ++ rest) = 0 /\ c = 65535) ->
  0 <= c <= 65535 /\ internet_checksum (before ++ be_bytes 2 c ++ rest) = 0.
Proof.
  intros Hb Hr He Hc.
  assert (octets (before ++ [0; 0] ++ rest)) as Ho.
  { apply Forall_app. split; [done|]. apply Forall_app. split; [|done]. repeat constructor; lia. }
  destruct (reference_spec _ Ho) as [Hv Hvb]. unfold internet_checksum in *.
  set (v := foldl oc_add 0 (words (before ++ [0; 0] ++ rest))) in *.
  assert (0 <= c <= 65535 /\ (c = 65535 - v \/ v = 65535 /\ c = 65535)) as [Hcr Hcv] by (clear -Hc Hvb; lia). split; [done|].
  assert (octets (before ++ be_bytes 2 c ++ rest)) as Ho'.
  { apply Forall_app. split; [done|]. apply Forall_app. split; [apply octets_be_bytes|done]. }
  destruct (reference_spec _ Ho') as [Hw Hwb].
  set (w := foldl oc_add 0 (words (before ++ be_bytes 2 c ++ rest))) in *.
  enough (w = 65535) by lia. apply oc_eq_unique; [|lia|lia]. eapply oc_eq_trans; [exact Hw|].
  assert (word_sum (before ++ be_bytes 2 c ++ rest) = word_sum (before ++ [0; 0] ++ rest) + c) as ->.
  { rewrite be_bytes_16 by done. rewrite !word_sum_app by (done || by exists 1%nat). unfold to_be_bytes16, word_sum. cbn [words foldr].
    pose proof (Z.div_mod c 256). lia. }
  destruct Hv as (? & ? & Hm & Hz). split_and!; [lia|lia| |lia].
  rewrite Z.add_mod, <-Hm, <-Z.add_mod by lia. destruct Hcv as [->|[-> ->]]; [by replace (v + (65535 - v)) with 65535 by lia|done].
Qed.

Lemma even_zlen {A} (l : list A) : zlen l mod 2 = 0 -> Nat.Even (length l).
Proof. intros Hm. unfold zlen in Hm. exists (Z.to_nat (Z.of_nat (length l) / 2)). pose proof (Z.div_mod (Z.of_nat (length l)) 2). lia. Qed.

(** ** Repairing a checksum field *)

Definition family_ok (source destination : IpAddr) : Prop := is_ipv4 source = is_ipv4 destination.

(** The segment after the repair of the field at [field]. *)
Record repaired (source destination : IpAddr) (protocol field : Z) (segment segment' : bytes) : Prop := {
  rp_len : zlen segment' = zlen segment;
  rp_octets : octets segment';
  rp_other : forall i, ~ field <= i < field + 2 -> zget segment' i = zget segment i;
  rp_checksum :
    protocol = UDP /\ is_ipv4 source = true /\ be16 segment field = 0 /\ segment' = segment \/
    (protocol = UDP -> be16 segment' field <> 0) /\
    internet_checksum (pseudo_header source destination protocol (zlen segment) ++ segment') = 0
}.

Lemma overwrite_verifies pre segment field c :
  octets pre -> octets segment -> zlen pre mod 2 = 0 -> field mod 2 = 0 -> 0 <= field -> field + 2 <= zlen segment ->
  (c = internet_checksum (pre ++ overwrite segment field [0; 0]) \/
   internet_checksum (pre ++ overwrite segment field [0; 0]) = 0 /\ c = 65535) ->
  0 <= c <= 65535 /\ internet_checksum (pre ++ overwrite segment field (be_bytes 2 c)) = 0.
Proof.
  intros Hp Ho Hpm Hfm Hf0 Hfl. unfold overwrite. rewrite zlen_be_bytes. change (zlen [0; 0]) with 2. change (Z.of_nat 2) with 2.
  rewrite !(app_assoc pre). apply filled_field_verifies.
  - apply Forall_app. split; [done|by apply octets_ztake].
  - by apply octets_zdrop.
  - apply even_zlen. rewrite zlen_app, zlen_ztake. rewrite Z.max_r, Z.min_l by lia.
    rewrite Z.add_mod, Hpm, Hfm by lia. done.
Qed.

Lemma be16_overwrite l a c : 0 <= a -> a + 2 <= zlen l -> 0 <= c <= 65535 -> be16 (overwrite l a (be_bytes 2 c)) a = c.
Proof.
  intros Ha Hl Hc. pose proof (zlen_be_bytes 2 c) as L. change (Z.of_nat 2) with 2 in L.
  rewrite be16_slice by (rewrite ?zlen_overwrite; lia). rewrite <-L at 1. rewrite zslice_overwrite by lia.
  apply from_be_be_bytes. cbn. lia.
Qed.

Lemma repair_checksum_spec segment field protocol name source destination :
  octets segment -> 0 <= field -> field + 2 <= zlen segment -> field mod 2 = 0 -> 0 <= protocol < 256 ->
  family_ok source destination -> zlen segment <= segment_max source ->
  exists segment' v, repair_checksum segment field protocol name (source, destination) = Ok (segment', v) /\
    repaired source destination protocol field segment segment'.
Proof.
  intros Ho H0 Hl Hm Hp Hf Hmax. unfold repair_checksum.
  assert (exists disabled, (if (protocol =? UDP) && is_ipv4 source
     then current ← @index_range TransformError Z segment field (field + 2); Ok (bytes_eqb current [0; 0]) else Ok false) = Ok disabled /\
     (disabled = true -> protocol = UDP /\ is_ipv4 source = true /\ be16 segment field = 0)) as (disabled & -> & Hd).
  { destruct (Z.eqb_spec protocol UDP), (is_ipv4 source); cbn [andb]; try (by exists false).
    rewrite index_range_ok by lia. rewrite Ok_bind. eexists. split; [done|]. intros E%bytes_eqb_spec.
    split; [done|]. split; [done|]. by rewrite be16_slice, E by lia. }
  rewrite Ok_bind. destruct disabled.
  { destruct (Hd eq_refl) as (Hu & H4 & H16). exists segment, None. split; [done|]. split; try done. by left. }
  assert (zlen [0; 0] = 2) as L0 by done. rewrite copy_at_ok by lia. rewrite Ok_bind.
  assert (octets (overwrite segment field [0; 0])) as Hz by (apply octets_overwrite; [done|repeat constructor; lia]).
  assert (zlen (overwrite segment field [0; 0]) = zlen segment) as Lz by (apply zlen_overwrite; lia).
  rewrite transport_checksum_spec by (rewrite ?Lz; done). rewrite Lz. cbn [map_err]. rewrite Ok_bind.
  set (pre := pseudo_header source destination protocol (zlen segment)).
  set (v := internet_checksum (pre ++ overwrite segment field [0; 0])).
  set (c := if (protocol =? UDP) && (v =? 0) then 65535 else v).
  assert (c = v \/ v = 0 /\ c = 65535) as Hc by (unfold c; destruct (protocol =? UDP), (Z.eqb_spec v 0); cbn; auto).
  destruct (overwrite_verifies pre segment field c) as [Hcr Hver]; try done.
  { by apply octets_pseudo. }
  { unfold pre. rewrite zlen_pseudo by done. by destruct (is_ipv4 source). }
  pose proof (zlen_be_bytes 2 c) as L. change (Z.of_nat 2) with 2 in L.
  rewrite copy_at_ok by lia. rewrite Ok_bind. rewrite overwrite_overwrite by lia.
  eexists _, _. split; [done|]. split.
  - apply zlen_overwrite; lia.
  - apply octets_overwrite; [done|apply octets_be_bytes].
  - intros i Hi. rewrite zget_overwrite by lia. rewrite L. by case_match eqn:E; [apply andb_prop in E as [?%Z.leb_le ?%Z.ltb_lt]; lia|].
  - right. split; [|done]. intros ->. rewrite be16_overwrite by lia. unfold c. rewrite Z.eqb_refl. cbn. by case_bool.
Qed.

(** ** Checksum coverage *)

Lemma refuse_options_safe next refused what fuel : options_iterator next -> forall it,
  octets (opt_bytes it) -> 0 <= opt_cursor it -> zlen (opt_bytes it) - opt_cursor it + 1 < Z.of_nat fuel -> (1 < fuel)%nat ->
  safe (refuse_options fuel next refused what it) (fun _ => True).
Proof.
  intros Hn. induction fuel as [|fuel IH]; intros it Ho Hc Hf Hf1; [lia|]. cbn [refuse_options].
  destruct (next it) as [[[o|e]|] it'] eqn:E; [|done|done].
  destruct (refused _); [done|]. pose proof (oi_bytes _ Hn _ _ _ E) as Hb.
  destruct (oi_option _ Hn _ _ _ Ho E) as [_ Hlt]. apply IH; rewrite ?Hb; try done; lia.
Qed.

Lemma refuse_extensions_safe ip extensions : octets ip -> forall first last, 0 <= first ->
  extensions_tile first last extensions -> safe (refuse_extensions ip extensions) (fun _ => True).
Proof.
  intros Ho. induction extensions as [|e rest IH]; intros first last H0 Ht; [done|]. cbn in Ht. destruct Ht as (He & H8 & Ht).
  cbn [refuse_extensions]. destruct (_ =? ROUTING); [done|]. unfold Ipv6Extension_options.
  set (b := if _ || _ then _ else 0). pose proof (zlen_nonneg ip).
  assert (0 <= b <= zlen ip) as Hb by (unfold b; destruct (_ || _); lia).
  rewrite index_range_ok by lia. rewrite Ok_bind. cbn [map_err]. rewrite Ok_bind. apply safe_bind.
  eapply safe_mono; [apply refuse_options_safe; [apply Ipv6Options_iterator|..]; cbn [opt_bytes opt_cursor]|].
  - by apply octets_zslice.
  - lia.
  - rewrite zlen_zslice by lia. lia.
  - lia.
  - intros [] _. eapply IH; [|exact Ht]. lia.
Qed.

Lemma ensure_checksum_coverage_safe ip header :
  octets ip -> walked_from ip header ->
  safe (ensure_checksum_coverage ip header) (fun _ => IpHeader_is_fragment header = false).
Proof.
  intros Ho Hw. unfold ensure_checksum_coverage. destruct (IpHeader_is_fragment header); [done|].
  destruct header as [h|h]; cbn [walked_from] in Hw.
  - destruct (walk4_fields ip h Ho Hw) as (H1 & H2 & _). unfold Ipv4Header_options. rewrite Z.min_l by lia.
    rewrite index_range_ok by lia. rewrite Ok_bind. cbn [map_err]. rewrite Ok_bind.
    eapply safe_mono; [apply refuse_options_safe; [apply Ipv4Options_iterator|..]; cbn [opt_bytes opt_cursor]|done].
    + by apply octets_zslice.
    + unfold IPV4_MIN_LENGTH. lia.
    + rewrite zlen_zslice by lia. unfold IPV4_MIN_LENGTH. lia.
    + lia.
  - destruct (walk6_fields ip h Ho Hw) as (_ & _ & _ & _ & _ & Htile & _).
    eapply safe_mono; [eapply refuse_extensions_safe; [done| |exact Htile]|done]. unfold IPV6_LENGTH. lia.
Qed.
