(* ===== verification/Rewrite.v ===== *)
(** * Rewriting headers

    [transform/rewrite.rs]: the outer Ethernet addresses and VLAN stack, the IP
    addresses and the TCP or UDP ports of a captured frame are replaced, and the
    checksums that cover them repaired. *)

From stdpp Require Import base tactics option list numbers strings.
From Stdlib Require Import ZArith Lia.
From S2P Require Import Prelude Checksum Ordered Flow Headers Frame Transform.

(** ** Requests *)

Record VlanRewrite : Type := mkVlanRewrite {
  vr_ether_type : Z;
  vr_identifier : Z;
  vr_priority : Z;
  vr_drop_eligible : bool
}.

Definition VlanRewrite_tci (r : VlanRewrite) : outcome TransformError Z :=
  kind ← ok_or (TInvalid InvVlanTag)
    (kind ← VlanKind_from_ether_type (vr_ether_type r);
     if (vr_identifier r <=? 4095) && (vr_priority r <=? 7) then Some kind else None);
  Ok (VlanTag_tci (mkVlanTag kind (vr_priority r) (vr_drop_eligible r) (vr_identifier r))).

(** [From<VlanTag>]. *)
Definition VlanRewrite_from (tag : VlanTag) : VlanRewrite :=
  mkVlanRewrite (VlanKind_ether_type (vlan_kind tag)) (vlan_id tag) (priority tag) (drop_eligible tag).

Record HeaderRewrite : Type := mkHeaderRewrite {
  source_mac : option bytes;
  destination_mac : option bytes;
  source_ip : option IpAddr;
  destination_ip : option IpAddr;
  hr_source_port : option Z;
  hr_destination_port : option Z;
  vlans : option (list VlanRewrite)
}.

Definition HeaderRewrite_default : HeaderRewrite := mkHeaderRewrite None None None None None None None.

Definition HeaderRewrite_is_empty (p : HeaderRewrite) : bool :=
  is_none (source_mac p) && is_none (destination_mac p) && is_none (source_ip p) && is_none (destination_ip p)
  && is_none (hr_source_port p) && is_none (hr_destination_port p) && is_none (vlans p).

Fixpoint check_tags (tags : list VlanRewrite) : outcome TransformError unit :=
  match tags with
  | [] => Ok tt
  | tag :: rest => _ ← VlanRewrite_tci tag; check_tags rest
  end.

Definition HeaderRewrite_validate (p : HeaderRewrite) : outcome TransformError unit :=
  _ ← match vlans p with
      | Some tags =>
          if MAX_VLAN_DEPTH <? zlen tags then Err (TLimit LimVlanDepth MAX_VLAN_DEPTH) else check_tags tags
      | None => Ok tt
      end;
  match source_ip p, destination_ip p with
  | Some source, Some destination =>
      if negb (Bool.eqb (is_ipv4 source) (is_ipv4 destination))
      then Err (TInvalid InvMixedAddressFamilies) else Ok tt
  | _, _ => Ok tt
  end.

Record RewriteLimits : Type := mkRewriteLimits { rl_max_output_bytes : Z }.

Definition RewriteLimits_default : RewriteLimits := mkRewriteLimits (16 * 1024 * 1024).

(** ** The transport layer *)

(** The name, the covered length and the checksum offset of the protocols with a
    pseudo-header checksum; [None] for those the rewrite leaves alone. *)
Definition transport_layout (segment : bytes) (protocol : Z) (ipv6 : bool)
  : outcome TransformError (option (string * Z * Z)) :=
  if protocol =? TCP then
    let header := (fun byte => Z.shiftr byte 4 * 4) <$> zget segment 12 in
    if negb (match header with Some header => (20 <=? header) && (header <=? zlen segment) | None => false end)
    then Err (TInvalid InvTcpHeaderLength) else Ok (Some ("tcp", zlen segment, 16))
  else if protocol =? UDP then
    length ← ok_or (TInvalid InvUdpLength) (from_be_bytes <$> get_range segment 4 6);
    if (length <? 8) || (zlen segment <? length) then Err (TInvalid InvUdpLength)
    else Ok (Some ("udp", length, 6))
  else if (protocol =? ICMPV6) && ipv6 then
    if zlen segment <? 4 then Err (TInvalid InvTruncatedIcmpv6) else Ok (Some ("icmpv6", zlen segment, 2))
  else if (protocol =? ICMPV4) || (protocol =? IGMP) || (protocol =? IPV4) || (protocol =? IPV6)
          || (protocol =? GRE) || (protocol =? NO_NEXT_HEADER) || (protocol =? SCTP)
  then Ok None
  else Err (TUnsupported UnsUpperLayerChecksum).

Definition write_port (segment : bytes) (port : option Z) (start : Z) : outcome TransformError bytes :=
  match port with Some port => copy_at segment start (be_bytes 2 port) | None => Ok segment end.

Definition transport (segment : bytes) (patch : HeaderRewrite) (protocol : Z) (addresses : IpAddr * IpAddr)
  : outcome TransformError bytes :=
  let ipv6 := is_ipv6 addresses.1 in
  let ports := is_some (hr_source_port patch) || is_some (hr_destination_port patch) in
  if ports && negb ((protocol =? TCP) || (protocol =? UDP)) then Err (TUnsupported UnsPortEditTransport) else
  layout ← transport_layout segment protocol ipv6;
  match layout with
  | None => Ok segment
  | Some (name, length, checksum_offset) =>
      segment ← write_port segment (hr_source_port patch) 0;
      segment ← write_port segment (hr_destination_port patch) 2;
      covered ← index_range segment 0 length;
      '(covered, _) ← repair_checksum covered checksum_offset protocol name addresses;
      Ok (covered ++ zdrop length segment)
  end.

(** ** The network layer *)

Definition write_address (ip : bytes) (header : IpHeader) (value : option IpAddr) (start : Z)
  : outcome TransformError bytes :=
  match header, value with
  | _, None => Ok ip
  | IpV4 _, Some (V4 value) => copy_at ip start (address_octets (V4 value))
  | IpV6 _, Some (V6 value) => copy_at ip start (address_octets (V6 value))
  | _, _ => Err (TInvalid InvAddressFamilyChange)
  end.

(** Where the source and the destination address start. *)
Definition address_offsets (header : IpHeader) : Z * Z :=
  match header with IpV4 _ => (12, 16) | IpV6 _ => (8, 24) end.

Definition has_authentication (header : IpHeader) : bool :=
  match header with
  | IpV4 _ => false
  | IpV6 ipv6 => existsb (fun extension => ext_protocol extension =? AH) (v6_extensions ipv6)
  end.

Definition network (ip : bytes) (header : IpHeader) (patch : HeaderRewrite) : outcome TransformError bytes :=
  _ ← ensure_checksum_coverage ip header;
  let '(source, destination) := address_offsets header in
  ip ← write_address ip header (source_ip patch) source;
  ip ← write_address ip header (destination_ip patch) destination;
  if has_authentication header then Err (TUnsupported UnsUpperLayerChecksum) else
  addresses ← map_err THeader (IpHeader_addresses header ip);
  let '(protocol, start) := IpHeader_upper_layer header in
  let last := IpHeader_datagram_length header in
  segment ← index_range ip start last;
  segment ← transport segment patch protocol addresses;
  ip ← copy_at ip start segment;
  match header with
  | IpV4 ipv4 =>
      ip ← copy_at ip 10 [0; 0];
      covered ← index_range ip 0 (v4_header_length ipv4);
      copy_at ip 10 (be_bytes 2 (checksum_parts [covered]))
  | IpV6 _ => Ok ip
  end.

(** ** The link layer and the frame *)

Fixpoint encode_tags (tags : list VlanRewrite) : outcome TransformError bytes :=
  match tags with
  | [] => Ok []
  | tag :: rest =>
      tci ← VlanRewrite_tci tag;
      tail ← encode_tags rest;
      Ok (be_bytes 2 (vr_ether_type tag) ++ be_bytes 2 tci ++ tail)
  end.

Definition rewrite_link (frame : Frame) (patch : HeaderRewrite) (link : LinkHeader) : outcome TransformError bytes :=
  match link with
  | LinkEthernet ethernet =>
      addresses ← index_range (frame_bytes frame) 0 12;
      match vlans patch with
      | Some tags => encoded ← encode_tags tags; Ok (addresses ++ encoded ++ be_bytes 2 (ether_type ethernet))
      | None => rest ← index_range (frame_bytes frame) 12 (network_offset link); Ok (addresses ++ rest)
      end
  | LinkRawIp _ => Ok []
  end.

Definition write_mac (data : bytes) (mac : option bytes) (start : Z) : outcome TransformError bytes :=
  match mac with Some mac => copy_at data start mac | None => Ok data end.

Definition network_edits (patch : HeaderRewrite) : bool :=
  is_some (source_ip patch) || is_some (destination_ip patch)
  || is_some (hr_source_port patch) || is_some (hr_destination_port patch).

Definition rewrite_network (data : bytes) (frame : Frame) (patch : HeaderRewrite) (link : LinkHeader) (new_offset : Z)
  : outcome TransformError bytes :=
  if negb (network_edits patch) then Ok data else
  header ← map_err THeader (LinkHeader_walk_ip link (frame_bytes frame));
  header ← ok_or (TUnsupported UnsNetworkEditWithoutIp) header;
  ip ← index_range data new_offset (zlen data);
  ip ← network ip header patch;
  if match link with LinkRawIp _ => true | LinkEthernet _ => false end
     && negb (IpHeader_datagram_length header =? zlen ip)
  then Err (TUnsupported UnsRawIpTrailer)
  else Ok (ztake new_offset data ++ ip).

Definition rewrite (frame : Frame) (patch : HeaderRewrite) (limits : RewriteLimits) : outcome TransformError Frame :=
  _ ← HeaderRewrite_validate patch;
  let max := rl_max_output_bytes limits in
  if max <? zlen (frame_bytes frame) then Err (TLimit LimMaxOutputBytes max) else
  if HeaderRewrite_is_empty patch then Ok frame else
  if negb (captured_length frame =? original_length frame) then Err (TInvalid InvRewriteTruncatedCapture) else
  let link_edits := is_some (source_mac patch) || is_some (destination_mac patch) || is_some (vlans patch) in
  if link_edits && negb (link_type frame =? 1) then Err (TUnsupported UnsLinkEditWithoutEthernet) else
  link ← map_err THeader (LinkHeader_walk (link_type frame) (frame_bytes frame));
  link ← ok_or (TUnsupported UnsRewriteLinkType) link;
  let old_offset := network_offset link in
  let new_offset := match vlans patch with
                    | Some tags => ETHERNET_LENGTH + VLAN_TAG_LENGTH * zlen tags
                    | None => old_offset
                    end in
  _ ← ok_or (TLimit LimMaxOutputBytes max)
    (n ← checked_sub (zlen (frame_bytes frame)) old_offset;
     length ← checked_add usize_max n new_offset;
     if length <=? max then Some length else None);
  data ← rewrite_link frame patch link;
  rest ← index_range (frame_bytes frame) old_offset (zlen (frame_bytes frame));
  data ← write_mac (data ++ rest) (source_mac patch) 6;
  data ← write_mac data (destination_mac patch) 0;
  data ← rewrite_network data frame patch link new_offset;
  output ← map_err TFrame (Frame_new None (link_type frame) data);
  Ok (mkFrame (fr_timestamp frame) (captured_length output) (original_length output) (link_type output)
        (fr_interface frame) (fr_direction frame) (frame_bytes output)).
