(* ===== verification/RewriteNetwork.v ===== *)
(** * Rewriting headers: the network and transport layers

    What [transport] and [network] of [transform/rewrite.rs] write, and that every
    other byte of the datagram is kept. *)

From stdpp Require Import base tactics option list numbers strings.
From Stdlib Require Import ZArith Lia.
From S2P Require Import Prelude Checksum Ordered Flow Headers HeadersProofs Frame Transform Fragmenter Rewrite.
From S2P Require Import IpRanges IpRebuild FragmenterProofs FragmenterIpv6 FragmenterTheorems TransformProofs.

(** ** Requests *)

Definition address_ok (a : IpAddr) : Prop :=
  match a with V4 x => 0 <= x < 2 ^ 32 | V6 x => 0 <= x < 2 ^ 128 end.

Definition port_ok (p : Z) : Prop := 0 <= p <= u16_max.
Definition mac_ok (m : bytes) : Prop := octets m /\ zlen m = 6.
Definition vlan_ok (r : VlanRewrite) : Prop :=
  0 <= vr_ether_type r <= u16_max /\ 0 <= vr_identifier r <= u16_max /\ 0 <= vr_priority r <= 255.

(** Every value of the request is one of its Rust type. *)
Record patch_ok (p : HeaderRewrite) : Prop := {
  po_source_mac : from_option mac_ok True (source_mac p);
  po_destination_mac : from_option mac_ok True (destination_mac p);
  po_source_ip : from_option address_ok True (source_ip p);
  po_destination_ip : from_option address_ok True (destination_ip p);
  po_source_port : from_option port_ok True (hr_source_port p);
  po_destination_port : from_option port_ok True (hr_destination_port p);
  po_vlans : from_option (Forall vlan_ok) True (vlans p)
}.

(** ** Byte ranges *)

Definition within (first last i : Z) : bool := (first <=? i) && (i <? last).

Lemma within_false first last i : within first last i = false <-> ~ first <= i < last.
Proof. unfold within. destruct (Z.leb_spec first i), (Z.ltb_spec i last); cbn; split; intros; try done; lia. Qed.

Lemma zslice_ext (l k : bytes) a b : 0 <= a -> (forall i, a <= i < b -> zget l i = zget k i) -> zslice a b l = zslice a b k.
Proof.
  intros Ha H. apply zget_ext. intros i Hi. rewrite !zget_zslice by lia.
  destruct (Z.leb_spec 0 i), (Z.ltb_spec i (b - a)); cbn; try done. apply H. lia.
Qed.

Lemma zslice_end (l : bytes) a : 0 <= a <= zlen l -> zslice a (zlen l) l = zdrop a l.
Proof. intros Ha. unfold zslice. apply ztake_all. rewrite zlen_zdrop. lia. Qed.

Lemma get_from_ok (l : bytes) a : 0 <= a <= zlen l -> get_from l a = Some (zdrop a l).
Proof. intros Ha. unfold get_from. rewrite get_range_ok by lia. by rewrite zslice_end by lia. Qed.

Lemma be16_ext l k i : zget l i = zget k i -> zget l (i + 1) = zget k (i + 1) -> be16 l i = be16 k i.
Proof. intros H1 H2. unfold be16, at_. by rewrite H1, H2. Qed.

(** Writing [s] at [a] leaves every byte outside of it. *)
Lemma overwrite_other (l s : bytes) a i :
  0 <= a -> a + zlen s <= zlen l -> ~ a <= i < a + zlen s -> zget (overwrite l a s) i = zget l i.
Proof.
  intros Ha Hl Hi. rewrite zget_overwrite by lia.
  destruct (Z.leb_spec a i), (Z.ltb_spec i (a + zlen s)); cbn; try done; lia.
Qed.

(** ** The transport layer *)

Definition checksum_field (protocol : Z) (ipv6 : bool) : option Z :=
  if protocol =? TCP then Some 16 else if protocol =? UDP then Some 6
  else if (protocol =? ICMPV6) && ipv6 then Some 2 else None.

(** The bytes of the segment its checksum covers. *)
Definition covered_length (segment : bytes) (protocol : Z) : Z :=
  if protocol =? UDP then be16 segment 4 else zlen segment.

(** The bytes of the segment the rewrite may change. *)
Definition transport_touched (patch : HeaderRewrite) (protocol : Z) (ipv6 : bool) (i : Z) : bool :=
  (is_some (hr_source_port patch) && within 0 2 i) || (is_some (hr_destination_port patch) && within 2 4 i)
  || match checksum_field protocol ipv6 with Some f => within f (f + 2) i | None => false end.

Record transport_rewritten (patch : HeaderRewrite) (protocol : Z) (source destination : IpAddr)
  (segment segment' : bytes) : Prop := {
  tr_len : zlen segment' = zlen segment;
  tr_octets : octets segment';
  tr_ports : is_some (hr_source_port patch) || is_some (hr_destination_port patch) = true ->
    protocol = TCP \/ protocol = UDP;
  tr_source : forall p, hr_source_port patch = Some p -> be16 segment' 0 = p;
  tr_destination : forall p, hr_destination_port patch = Some p -> be16 segment' 2 = p;
  tr_other : forall i, transport_touched patch protocol (is_ipv6 source) i = false -> zget segment' i = zget segment i;
  tr_checksum : forall f, checksum_field protocol (is_ipv6 source) = Some f ->
    let length := covered_length segment protocol in
    f + 2 <= length <= zlen segment /\
    (protocol = UDP /\ is_ipv4 source = true /\ be16 segment f = 0 /\ be16 segment' f = 0 \/
     (protocol = UDP -> be16 segment' f <> 0) /\
     internet_checksum (pseudo_header source destination protocol length ++ ztake length segment') = 0)
}.

Lemma transport_layout_spec segment protocol ipv6 :
  octets segment ->
  safe (transport_layout segment protocol ipv6) (fun layout =>
    match layout with
    | None => checksum_field protocol ipv6 = None /\ protocol <> TCP /\ protocol <> UDP
    | Some (_, length, f) => checksum_field protocol ipv6 = Some f /\ length = covered_length segment protocol /\
        0 <= f /\ f mod 2 = 0 /\ f + 2 <= length <= zlen segment /\ (protocol = TCP \/ protocol = UDP -> 4 <= f)
    end).
Proof.
  intros Ho. unfold transport_layout, checksum_field, covered_length. pose proof (zlen_nonneg segment).
  destruct (Z.eqb_spec protocol TCP) as [->|].
  { destruct (zget segment 12) as [b|]; cbn [fmap option_fmap option_map]; [|done].
    destruct (Z.leb_spec 20 (Z.shiftr b 4 * 4)), (Z.leb_spec (Z.shiftr b 4 * 4) (zlen segment)); cbn [andb negb]; try done.
    cbn [safe]. change (TCP =? UDP) with false. split_and!; try done; lia. }
  destruct (Z.eqb_spec protocol UDP) as [->|].
  { apply safe_bind, safe_ok_or. intros length Hl. destruct (get_range segment 4 6) as [w|] eqn:E; [|done].
    cbn in Hl. injection Hl as <-. apply get_range_Some in E as (_ & _ & Hl & ->).
    change 6 with (4 + 2). rewrite <-be16_slice by lia. pose proof (be16_range segment 4 Ho).
    destruct (Z.ltb_spec (be16 segment 4) 8), (Z.ltb_spec (zlen segment) (be16 segment 4)); cbn [orb];
      try done; cbn [safe]; split_and!; try done; lia. }
  destruct ((protocol =? ICMPV6) && ipv6).
  { destruct (Z.ltb_spec (zlen segment) 4); [done|]. cbn [safe]. split_and!; try done; lia. }
  by destruct (_ || _).
Qed.

Lemma write_port_spec segment port start :
  octets segment -> 0 <= start -> from_option port_ok True port ->
  (is_some port = true -> start + 2 <= zlen segment) ->
  exists segment', write_port segment port start = Ok segment' /\ zlen segment' = zlen segment /\ octets segment' /\
    (forall p, port = Some p -> be16 segment' start = p) /\
    forall i, is_some port && within start (start + 2) i = false -> zget segment' i = zget segment i.
Proof.
  intros Ho H0 Hp Hl. unfold write_port. destruct port as [p|]; [|by exists segment].
  specialize (Hl eq_refl). pose proof (zlen_be_bytes 2 p) as L. change (Z.of_nat 2) with 2 in L.
  unfold port_ok, u16_max in Hp. cbn [from_option] in Hp. rewrite copy_at_ok by lia. eexists. split; [done|].
  split; [apply zlen_overwrite; lia|]. split; [apply octets_overwrite; [done|apply octets_be_bytes]|].
  split; [intros q [= <-]; apply be16_overwrite; lia|]. cbn [is_some andb]. intros i Hi%within_false.
  apply overwrite_other; lia.
Qed.

(** The repaired part in front of the untouched rest. *)
Lemma repaired_app source destination protocol f segment length covered :
  0 <= f -> f + 2 <= length -> length <= zlen segment -> octets segment ->
  repaired source destination protocol f (ztake length segment) covered ->
  let segment' := covered ++ zdrop length segment in
  zlen segment' = zlen segment /\ octets segment' /\ ztake length segment' = covered /\
  (forall i, ~ f <= i < f + 2 -> zget segment' i = zget segment i) /\
  (forall i, i < length -> zget segment' i = zget covered i).
Proof.
  intros Hf Hl Hls Ho [Rl Ro Rother _]. rewrite zlen_ztake in Rl. cbv zeta.
  assert (zlen covered = length) as Lc by lia.
  assert (forall i, zget (covered ++ zdrop length segment) i = if i <? length then zget covered i else zget segment i) as Hg.
  { intros i. rewrite zget_app, Lc. destruct (Z.ltb_spec i length); [done|].
    rewrite zget_zdrop by lia. f_equal. lia. }
  split_and!.
  - rewrite zlen_app, zlen_zdrop. lia.
  - apply Forall_app. split; [done|by apply octets_zdrop].
  - apply zget_ext. intros i Hi. rewrite zget_ztake, Hg. destruct (Z.ltb_spec i length); [done|]. symmetry. apply zget_ge. lia.
  - intros i Hi. rewrite Hg. destruct (Z.ltb_spec i length); [|done]. rewrite Rother by done.
    rewrite zget_ztake. by rewrite (proj2 (Z.ltb_lt _ _)).
  - intros i Hi. rewrite Hg. by rewrite (proj2 (Z.ltb_lt _ _)).
Qed.

Lemma transport_spec segment patch protocol source destination :
  octets segment -> patch_ok patch -> 0 <= protocol < 256 -> family_ok source destination ->
  zlen segment <= segment_max source ->
  safe (transport segment patch protocol (source, destination))
    (transport_rewritten patch protocol source destination segment).
Proof.
  intros Ho Hpatch Hp Hf Hmax. unfold transport. cbn [fst].
  set (ports := is_some (hr_source_port patch) || is_some (hr_destination_port patch)).
  destruct (ports && _) eqn:Eports; [done|].
  assert (ports = true -> protocol = TCP \/ protocol = UDP) as Hports.
  { intros E. rewrite E in Eports. cbn in Eports. apply negb_false_iff, orb_prop in Eports as [?%Z.eqb_eq|?%Z.eqb_eq]; auto. }
  apply safe_bind. eapply safe_mono; [by apply transport_layout_spec|]. intros [[[name length] f]|] Hlay.
  2:{ destruct Hlay as (Hcf & Ht & Hu). assert (ports = false) as Hnp by (destruct ports; [destruct (Hports eq_refl); done|done]).
      apply orb_false_iff in Hnp as [Hs Hd]. cbn [safe]. split; try done; intros; try (by destruct (hr_source_port patch));
        [by destruct (hr_destination_port patch)|by rewrite Hcf in *]. }
  destruct Hlay as (Hcf & -> & Hf0 & Hfm & Hlen & Hf4). set (length := covered_length segment protocol) in *.
  assert (ports = true -> 4 <= zlen segment) as H4 by (intros E; specialize (Hf4 (Hports E)); lia).
  destruct (write_port_spec segment (hr_source_port patch) 0) as (s1 & -> & L1 & O1 & P1 & U1);
    [done|lia|apply Hpatch|intros E; unfold ports in H4; rewrite E in H4; specialize (H4 eq_refl); lia|]. rewrite Ok_bind.
  destruct (write_port_spec s1 (hr_destination_port patch) 2) as (s2 & -> & L2 & O2 & P2 & U2);
    [done|lia|apply Hpatch|intros E; unfold ports in H4; rewrite E, orb_true_r in H4; specialize (H4 eq_refl); lia|]. rewrite Ok_bind.
  rewrite index_range_ok by lia. rewrite Ok_bind.
  assert (zslice 0 length s2 = ztake length s2) as -> by (unfold zslice; by rewrite zdrop_0, Z.sub_0_r).
  assert (zlen (ztake length s2) = length) as Lt by (rewrite zlen_ztake; lia).
  destruct (repair_checksum_spec (ztake length s2) f protocol name source destination) as (cov & v & -> & Hrep);
    [by apply octets_ztake|done|lia|done|done|done|lia|]. rewrite Ok_bind. cbn [safe].
  destruct (repaired_app source destination protocol f s2 length cov) as (Lr & Or & Tr & Ur & Cr); try done; try lia.
  set (s3 := cov ++ zdrop length s2) in *.
  assert (ports = true -> 4 <= f) as Hpf by (intros E; auto).
  (* The bytes of the checksum field before the repair. *)
  assert (forall i, f <= i -> zget s2 i = zget segment i) as Hfield.
  { intros i Hi. rewrite U2, U1; [done|..].
    - destruct (is_some (hr_source_port patch)) eqn:E; [|done]. apply within_false.
      assert (4 <= f) by (apply Hpf; unfold ports; by rewrite ?E). lia.
    - destruct (is_some (hr_destination_port patch)) eqn:E; [|done]. apply within_false.
      assert (4 <= f) by (apply Hpf; unfold ports; by rewrite ?E, ?orb_true_r). lia. }
  split; try done.
  - lia.
  - intros p Hsp. assert (4 <= f) by (apply Hpf; unfold ports; by rewrite Hsp).
    rewrite <-(P1 p Hsp). apply be16_ext; rewrite Ur, U2 by (try (apply andb_false_iff; right; apply within_false); lia); done.
  - intros p Hdp. assert (4 <= f) by (apply Hpf; unfold ports; by rewrite Hdp, orb_true_r).
    rewrite <-(P2 p Hdp). apply be16_ext; rewrite Ur by lia; done.
  - unfold transport_touched. rewrite Hcf. intros i [[Hi1 Hi2]%orb_false_iff Hi3%within_false]%orb_false_iff.
    rewrite Ur, U2, U1; done.
  - intros f' Hf'. rewrite Hcf in Hf'. injection Hf' as <-. cbv zeta. fold length. split; [done|].
    assert (be16 (ztake length s2) f = be16 segment f) as E16.
    { apply be16_ext; rewrite zget_ztake, (proj2 (Z.ltb_lt _ _)), Hfield by lia; done. }
    assert (be16 s3 f = be16 cov f) as E3 by (apply be16_ext; apply Cr; lia).
    rewrite Tr, E3. destruct (rp_checksum _ _ _ _ _ _ Hrep) as [(Hu & H4' & H16 & E)|[Hnz Hver]].
    + left. split_and!; try done; [by rewrite <-E16|]. rewrite E. by rewrite E16, <-E16.
    + right. rewrite Lt in Hver. done.
Qed.

(** ** The network layer *)

Definition address_width (header : IpHeader) : Z := match header with IpV4 _ => 4 | IpV6 _ => 16 end.

Definition address_at (header : IpHeader) (ip : bytes) (start : Z) : IpAddr :=
  let x := from_be_bytes (zslice start (start + address_width header) ip) in
  match header with IpV4 _ => V4 x | IpV6 _ => V6 x end.

(** The shortest header of the version. *)
Definition fixed_length (header : IpHeader) : Z := match header with IpV4 _ => 20 | IpV6 _ => 40 end.

Lemma IpHeader_addresses_ok header ip :
  fixed_length header <= zlen ip ->
  IpHeader_addresses header ip
  = Ok (address_at header ip (address_offsets header).1, address_at header ip (address_offsets header).2).
Proof. intros Hl. destruct header; cbn [fixed_length] in Hl; cbn [IpHeader_addresses]; rewrite !get_range_ok by lia; done. Qed.

Lemma address_at_family header ip start : is_ipv4 (address_at header ip start) = match header with IpV4 _ => true | IpV6 _ => false end.
Proof. by destruct header. Qed.

(** The bytes of the datagram the rewrite may change. *)
Definition ip_touched (patch : HeaderRewrite) (header : IpHeader) (i : Z) : bool :=
  let '(source, destination) := address_offsets header in
  let '(protocol, start) := IpHeader_upper_layer header in
  (is_some (source_ip patch) && within source (source + address_width header) i)
  || (is_some (destination_ip patch) && within destination (destination + address_width header) i)
  || match header with
     | IpV4 _ => within 10 12 i || transport_touched patch protocol false (i - start)
     | IpV6 _ => transport_touched patch protocol true (i - start)
     end.

Record ip_rewritten (patch : HeaderRewrite) (header : IpHeader) (ip ip' : bytes) : Prop := {
  ir_len : zlen ip' = zlen ip;
  ir_octets : octets ip';
  ir_addresses : exists source destination,
    IpHeader_addresses header ip = Ok (source, destination) /\
    let source' := default source (source_ip patch) in
    let destination' := default destination (destination_ip patch) in
    IpHeader_addresses header ip' = Ok (source', destination') /\
    let '(protocol, start) := IpHeader_upper_layer header in
    let last := IpHeader_datagram_length header in
    transport_rewritten patch protocol source' destination' (zslice start last ip) (zslice start last ip');
  ir_header_checksum : match header with
    | IpV4 h => checksum_parts [ztake (v4_header_length h) ip'] = 0
    | IpV6 _ => True
    end;
  ir_other : forall i, ip_touched patch header i = false -> zget ip' i = zget ip i
}.

Lemma write_address_spec ip header value start :
  octets ip -> 0 <= start -> start + address_width header <= zlen ip -> from_option address_ok True value ->
  safe (write_address ip header value start) (fun ip' => zlen ip' = zlen ip /\ octets ip' /\
    address_at header ip' start = default (address_at header ip start) value /\
    forall i, is_some value && within start (start + address_width header) i = false -> zget ip' i = zget ip i).
Proof.
  intros Ho H0 Hl Hv. destruct value as [a|]; [|by destruct header].
  destruct header as [h|h], a as [x|x]; try done; cbn [write_address address_width from_option address_ok] in *.
  all: pose proof (zlen_address (V4 x)) as L4; pose proof (zlen_address (V6 x)) as L6; cbn [is_ipv4] in L4, L6.
  all: rewrite copy_at_ok by lia; cbn [safe is_some andb].
  all: split; [apply zlen_overwrite; lia|]; split; [apply octets_overwrite; [done|apply octets_address]|].
  all: split; [|intros i Hi%within_false; apply overwrite_other; lia].
  all: unfold address_at; cbn [address_width from_option id]; unfold id; f_equal.
  - rewrite <-L4 at 1. rewrite zslice_overwrite by lia. apply from_be_be_bytes. done.
  - rewrite <-L6 at 1. rewrite zslice_overwrite by lia. apply from_be_be_bytes. done.
Qed.

Lemma address_at_ext header ip ip' start :
  0 <= start -> (forall i, start <= i < start + address_width header -> zget ip' i = zget ip i) ->
  address_at header ip' start = address_at header ip start.
Proof. intros H0 H. unfold address_at. by rewrite (zslice_ext ip' ip) by done. Qed.

(** Where the upper layer of a walked header lies. *)
Lemma walked_extent ip header :
  octets ip -> walked_from ip header ->
  fixed_length header <= (IpHeader_upper_layer header).2 <= IpHeader_datagram_length header /\
  IpHeader_datagram_length header <= zlen ip /\ 
  IpHeader_datagram_length header - (IpHeader_upper_layer header).2 <= u16_max.
Proof.
  intros Ho Hw. unfold u16_max. destruct header as [h|h]; cbn [walked_from] in Hw; cbn.
  - destruct (walk4_fields ip h Ho Hw) as (H1 & H2 & H3 & _). lia.
  - destruct (walk6_fields ip h Ho Hw) as (H1 & H2 & _ & _ & _ & _ & H3). unfold v6_datagram_length, IPV6_LENGTH in *. lia.
Qed.

(** The header checksum written last. *)
Lemma header_checksum_write ip h :
  octets ip -> 20 <= v4_header_length h <= 60 -> v4_header_length h <= zlen ip ->
  exists ip', (ip ← copy_at ip 10 [0; 0]; covered ← index_range ip 0 (v4_header_length h);
     @copy_at TransformError Z ip 10 (be_bytes 2 (checksum_parts [covered]))) = Ok ip' /\
    zlen ip' = zlen ip /\ octets ip' /\ checksum_parts [ztake (v4_header_length h) ip'] = 0 /\
    forall i, within 10 12 i = false -> zget ip' i = zget ip i.
Proof.
  intros Ho Hh Hl. set (n := v4_header_length h) in *. assert (zlen [0; 0] = 2) as L0 by done.
  rewrite copy_at_ok by lia. rewrite Ok_bind. set (z := overwrite ip 10 [0; 0]).
  assert (zlen z = zlen ip) as Lz by (apply zlen_overwrite; lia). rewrite index_range_ok by lia. rewrite Ok_bind.
  set (c := checksum_parts _). pose proof (zlen_be_bytes 2 c) as L. change (Z.of_nat 2) with 2 in L.
  rewrite copy_at_ok by lia. eexists. split; [done|]. unfold z. rewrite overwrite_overwrite by lia.
  split; [apply zlen_overwrite; lia|]. split; [apply octets_overwrite; [done|apply octets_be_bytes]|].
  split; [|intros i Hi%within_false; apply overwrite_other; lia].
  assert (forall s, zlen s = 2 -> ztake n (overwrite ip 10 s) = overwrite (ztake n ip) 10 s) as Ht.
  { intros s Ls. apply zget_ext. intros i Hi. rewrite zget_ztake, !zget_overwrite, zget_ztake by (rewrite ?zlen_ztake; lia).
    destruct (Z.ltb_spec i n); [done|]. by destruct (Z.leb_spec 10 i), (Z.ltb_spec i (10 + zlen s)); try lia. }
  pose proof (checksum_range [zslice 0 n z]) as Hc. fold c in Hc. rewrite Ht by done. rewrite be_bytes_16 by done.
  unfold c, z. assert (zslice 0 n (overwrite ip 10 [0; 0]) = ztake n (overwrite ip 10 [0; 0])) as ->
    by (unfold zslice; by rewrite zdrop_0, Z.sub_0_r).
  rewrite Ht by done. apply header_checksum_verifies. split; [by apply octets_ztake|]. rewrite zlen_ztake. lia.
Qed.

Lemma walk_extensions_protocol fuel : forall c extensions,
  octets (ch_bytes c) -> zlen (ch_bytes c) <= u32_max -> 0 <= ch_protocol c < 256 ->
  forall extensions' c', walk_extensions fuel c extensions = Ok (extensions', c') -> 0 <= ch_protocol c' < 256.
Proof.
  induction fuel as [|fuel IH]; intros c extensions Ho Hl Hp extensions' c'; [done|]. cbn [walk_extensions]. unfold chain_next.
  destruct (ch_done c || negb _); [by intros [= _ <-]|]. destruct (ch_limit c <=? ch_taken c); [done|].
  pose proof (chain_step_spec c Ho ltac:(unfold u64_max, u32_max in *; lia)) as Hs.
  destruct (chain_step c) as [e| |]; [|done|done]. destruct Hs as (_ & _ & _ & Hz). rewrite Ok_bind.
  apply IH; cbn [ch_bytes ch_protocol]; [done|done|]. by eapply octets_zget.
Qed.

Lemma upper_layer_octet ip header : octets ip -> walked_from ip header -> 0 <= (IpHeader_upper_layer header).1 < 256.
Proof.
  intros Ho Hw. destruct header as [h|h]; cbn [walked_from] in Hw; cbn.
  - destruct (walk4_fields ip h Ho Hw) as (_ & _ & _ & _ & _ & _ & _ & _ & ->). by apply octets_at.
  - unfold Ipv6Header_walk in Hw. pose proof (Ipv6Header_walk_fixed_spec ip Ho) as Hs.
    inv_ok Hw. destruct a as [len nh]. rewrite Ha in Hs. destruct Hs as [Hlen H40].
    assert (0 <= nh < 256) as Hnh.
    { unfold Ipv6Header_walk_fixed in Ha. inv_ok Ha. apply ok_or_Ok, first_chunk_Some in Ha0 as [_ ->].
      cbv zeta in Ha. repeat case_match; try done. injection Ha as <- <-. by apply octets_at, octets_ztake. }
    inv_ok Hw. apply ok_or_Ok, get_range_Some in Ha0 as (_ & _ & Hd & ->). unfold Ipv6Header_walk_chain in Hw.
    inv_ok Hw. destruct a as [exts c]. cbn in Hw. injection Hw as <-. cbn.
    eapply walk_extensions_protocol; [| | |exact Ha0]; cbn [ch_bytes ch_protocol chain_new]; [| |done].
    + by apply octets_zslice.
    + rewrite zlen_zslice by (unfold IPV6_LENGTH in *; lia). unfold IPV6_LENGTH, u32_max, u16_max in *. lia.
Qed.

Lemma is_ipv6_at header ip start : is_ipv6 (address_at header ip start) = match header with IpV4 _ => false | IpV6 _ => true end.
Proof. by destruct header. Qed.

Lemma address_layout header :
  exists so, address_offsets header = (so, so + address_width header) /\ 0 <= so /\
    so + 2 * address_width header = fixed_length header /\ match header with IpV4 _ => 12 <= so | IpV6 _ => True end.
Proof. destruct header; [exists 12|exists 8]; cbn; split_and!; try done; lia. Qed.

(** The writes of [network], one after the other: [ip1] and [ip2] have the source
    and the destination address, [segment'] the transport layer. *)
Section writes.
Context (patch : HeaderRewrite) (header : IpHeader) (ip ip1 ip2 segment' : bytes) (so protocol start : Z).
Notation wid := (address_width header).
Notation last := (IpHeader_datagram_length header).

Context (Eo : address_offsets header = (so, so + wid)) (Eu : IpHeader_upper_layer header = (protocol, start)).
Context (Hso : 0 <= so) (Hfix : so + 2 * wid = fixed_length header) (Hwid : 0 < wid).
Context (H12 : match header with IpV4 _ => 12 <= so | IpV6 _ => True end).
Context (Hst : fixed_length header <= start <= last) (Hlast : last <= zlen ip).
Context (L1 : zlen ip1 = zlen ip) (L2 : zlen ip2 = zlen ip).
Context (A1 : address_at header ip1 so = default (address_at header ip so) (source_ip patch)).
Context (A2 : address_at header ip2 (so + wid) = default (address_at header ip1 (so + wid)) (destination_ip patch)).
Context (U1 : forall i, is_some (source_ip patch) && within so (so + wid) i = false -> zget ip1 i = zget ip i).
Context (U2 : forall i, is_some (destination_ip patch) && within (so + wid) (so + wid + wid) i = false ->
  zget ip2 i = zget ip1 i).

Lemma written_source : address_at header ip2 so = default (address_at header ip so) (source_ip patch).
Proof using A1 U2 Hso Hwid.
  rewrite <-A1. apply address_at_ext; [done|]. intros i Hi. apply U2, andb_false_iff. right. apply within_false. lia.
Qed.

Lemma written_destination :
  address_at header ip2 (so + wid) = default (address_at header ip (so + wid)) (destination_ip patch).
Proof using A2 U1 Hso Hwid.
  rewrite A2. f_equal. apply address_at_ext; [lia|]. intros i Hi. apply U1, andb_false_iff. right. apply within_false. lia.
Qed.

Lemma written_segment : zslice start last ip2 = zslice start last ip.
Proof using U1 U2 Hso Hwid Hfix Hst.
  apply zslice_ext; [lia|]. intros i Hi. rewrite U2, U1; [done|..]; apply andb_false_iff; right; apply within_false; lia.
Qed.

Notation source' := (address_at header ip2 so).
Notation destination' := (address_at header ip2 (so + wid)).

Context (Htr : transport_rewritten patch protocol source' destination' (zslice start last ip) segment').
Notation ip3 := (overwrite ip2 start segment').

Lemma written_segment_len : zlen segment' = last - start.
Proof using Htr Hst Hlast Hfix Hso Hwid. rewrite (tr_len _ _ _ _ _ _ Htr). apply zlen_zslice; lia. Qed.

(** Outside of the fields written, [ip3] is the datagram. *)
Lemma written_other i :
  ip_touched patch header i = false ->
  zget ip3 i = zget ip i /\ match header with IpV4 _ => within 10 12 i = false | IpV6 _ => True end.
Proof using All.
  unfold ip_touched. rewrite Eo, Eu. intros [[Hi1 Hi2]%orb_false_iff Hi3]%orb_false_iff. pose proof written_segment_len as Lseg.
  assert (transport_touched patch protocol (is_ipv6 source') (i - start) = false /\
    match header with IpV4 _ => within 10 12 i = false | IpV6 _ => True end) as [Ht Hc].
  { rewrite is_ipv6_at. destruct header; [by apply orb_false_iff in Hi3 as [? ?]|done]. }
  split; [|done]. rewrite <-U1, <-U2 by done. rewrite zget_overwrite by lia.
  destruct (Z.leb_spec start i), (Z.ltb_spec i (start + zlen segment')); cbn [andb]; try done.
  rewrite (tr_other _ _ _ _ _ _ Htr) by done. rewrite zget_zslice by lia.
  rewrite (proj2 (Z.leb_le _ _)), (proj2 (Z.ltb_lt _ _)) by lia. cbn [andb].
  replace (start + (i - start)) with i by lia. by rewrite U2, U1.
Qed.

Lemma written_rewritten ip' :
  zlen ip' = zlen ip -> octets ip' ->
  (forall i, match header with IpV4 _ => within 10 12 i = false | IpV6 _ => True end -> zget ip' i = zget ip3 i) ->
  match header with IpV4 h => checksum_parts [ztake (v4_header_length h) ip'] = 0 | IpV6 _ => True end ->
  ip_rewritten patch header ip ip'.
Proof using All.
  intros L' O' U' C'. pose proof written_segment_len as Lseg.
  assert (forall i, so <= i -> match header with IpV4 _ => within 10 12 i = false | IpV6 _ => True end) as H10.
  { intros i Hi. destruct header; [|done]. apply within_false. cbn in H12. lia. }
  assert (forall i, so <= i < start -> zget ip' i = zget ip2 i) as Haddr.
  { intros i Hi. rewrite U' by (apply H10; lia). apply overwrite_other; lia. }
  split; try done.
  - exists (address_at header ip so), (address_at header ip (so + wid)). rewrite IpHeader_addresses_ok, Eo by lia.
    split; [done|]. cbv zeta. rewrite <-written_source, <-written_destination, Eu. split.
    + rewrite IpHeader_addresses_ok, Eo by lia. cbn [fst snd].
      rewrite !(address_at_ext header ip2 ip') by (try lia; intros i Hi; apply Haddr; lia). done.
    + assert (zslice start last ip' = segment') as ->; [|done].
      rewrite (zslice_ext ip' ip3) by (try lia; intros i Hi; apply U', H10; lia).
      replace last with (start + zlen segment') by lia. apply zslice_overwrite; lia.
  - intros i Hi. destruct (written_other i Hi) as [<- Hc]. by apply U'.
Qed.
End writes.

Lemma network_spec ip header patch :
  octets ip -> walked_from ip header -> patch_ok patch -> zlen ip <= u32_max ->
  safe (network ip header patch) (ip_rewritten patch header ip).
Proof.
  intros Ho Hw Hpatch Hlen. unfold network. apply safe_bind.
  eapply safe_mono; [by apply ensure_checksum_coverage_safe|]. intros [] _.
  destruct (walked_extent ip header Ho Hw) as (Hst & Hlast & Hseg). pose proof (upper_layer_octet ip header Ho Hw) as Hp.
  destruct (address_layout header) as (so & Eo & Hso & Hfix & H12). rewrite Eo.
  assert (0 < address_width header) as Hwid by (destruct header; done).
  destruct (IpHeader_upper_layer header) as [protocol start] eqn:Eu. cbn [fst snd] in *.
  apply safe_bind. eapply safe_mono; [apply write_address_spec; [done|lia|lia|apply Hpatch]|].
  intros ip1 (L1 & O1 & A1 & U1). apply safe_bind.
  eapply safe_mono; [apply write_address_spec; [done|lia|lia|apply Hpatch]|]. intros ip2 (L2 & O2 & A2 & U2). rewrite L1 in L2.
  destruct (has_authentication header); [done|]. rewrite IpHeader_addresses_ok by lia. cbn [map_err]. rewrite Ok_bind, Eo. cbn [fst snd].
  rewrite index_range_ok by lia. rewrite Ok_bind. erewrite written_segment by eassumption.
  assert (zlen (zslice start (IpHeader_datagram_length header) ip) = IpHeader_datagram_length header - start) as Ls by (apply zlen_zslice; lia).
  apply safe_bind. eapply safe_mono; [apply transport_spec; [by apply octets_zslice|done|done|..]|].
  { unfold family_ok. by rewrite !address_at_family. }
  { rewrite Ls. destruct (address_at header ip2 so); cbn [segment_max]; unfold u16_max, u32_max in *; lia. }
  intros seg Htr. pose proof (tr_len _ _ _ _ _ _ Htr) as Lseg. rewrite Ls in Lseg. rewrite copy_at_ok by lia. rewrite Ok_bind.
  pose proof (fun ip' => written_rewritten patch header ip ip1 ip2 seg so protocol start Eo Eu Hso Hfix Hwid H12 Hst Hlast
    L1 L2 A1 A2 U1 U2 Htr ip') as Hfin.
  assert (zlen (overwrite ip2 start seg) = zlen ip) as L3 by (rewrite zlen_overwrite; lia).
  assert (octets (overwrite ip2 start seg)) as O3 by (apply octets_overwrite; [done|apply Htr]).
  destruct header as [h|h]; [|by apply Hfin].
  destruct (walk4_fields ip h Ho Hw) as (Hh & Ht & _).
  destruct (header_checksum_write _ h O3 ltac:(lia) ltac:(lia)) as (ip' & E & L' & O' & C' & U'). rewrite E. cbn [safe].
  apply Hfin; [lia|done|done|done].
Qed.
