(* ===== verification/RewriteProofs.v ===== *)
(** * Theorems on rewriting headers

    The rewritten frame parses to the same headers with the requested fields
    replaced; every byte outside of them and of the checksums is kept. *)

From stdpp Require Import base tactics option list numbers strings.
From Stdlib Require Import ZArith Lia.
From S2P Require Import Prelude Checksum Ordered Flow Headers HeadersProofs Frame Transform Fragmenter Rewrite.
From S2P Require Import IpRanges IpRebuild FragmenterProofs FragmenterIpv6 FragmenterTheorems TransformProofs RewriteNetwork.

(** ** The IP header parses as before *)

Lemma at_ext l k i : zget l i = zget k i -> at_ l i = at_ k i.
Proof. intros H. unfold at_. by rewrite H. Qed.

Lemma ztake_ext (l k : bytes) n : (forall i, 0 <= i < n -> zget l i = zget k i) -> ztake n l = ztake n k.
Proof.
  intros H. apply zget_ext. intros i Hi. rewrite !zget_ztake. destruct (Z.ltb_spec i n); [|done]. apply H. lia.
Qed.

Lemma walk4_same ip ip' h :
  Ipv4Header_walk ip = Ok h -> zlen ip' = zlen ip -> (forall i, 0 <= i < 10 -> zget ip' i = zget ip i) ->
  Ipv4Header_walk ip' = Ok h.
Proof.
  intros Hw Hl H. unfold Ipv4Header_walk, Ipv4Header_walk_lengths in *. inv_ok Hw. apply ok_or_Ok, first_chunk_Some in Ha as [Hlen ->].
  unfold first_chunk. rewrite Hl, (proj2 (Z.ltb_ge _ _)) by done. cbn [ok_or]. rewrite Ok_bind.
  assert (forall i, 0 <= i < 10 -> at_ (ztake IPV4_MIN_LENGTH ip') i = at_ (ztake IPV4_MIN_LENGTH ip) i) as Hat.
  { intros i Hi. apply at_ext. rewrite !zget_ztake. by destruct (i <? IPV4_MIN_LENGTH); [apply H|]. }
  unfold be16 in *. rewrite !Hat by lia. done.
Qed.

Lemma chain_step_same c c' e :
  chain_step c = Ok e -> ch_protocol c' = ch_protocol c -> ch_offset c' = ch_offset c ->
  zlen (ch_bytes c') = zlen (ch_bytes c) ->
  (forall i, ch_offset c <= i < ch_offset c + ext_length e -> zget (ch_bytes c') i = zget (ch_bytes c) i) ->
  8 <= ext_length e -> chain_step c' = Ok e.
Proof.
  intros Hs Ep Eo El H H8. unfold chain_step in *. inv_ok Hs. apply ok_or_Ok in Ha.
  destruct (get_from (ch_bytes c) (ch_offset c)) as [rest|] eqn:Eg; [|done]. cbn in Ha.
  apply get_from_Some in Eg as [Hoff ->]. apply first_chunk_Some in Ha as [Ha ->]. rewrite zlen_zdrop in Ha.
  unfold get_from. rewrite Ep, Eo, El, get_range_ok by lia. cbn [mbind option_bind].
  inv_ok Hs. rename a into len, Ha0 into Hlen. inv_ok Hs. rename a into last, Ha0 into Hlast.
  assert (last = ch_offset c + len) as -> by (unfold add_u, expect in Hlast; destruct (checked_add _ _ _) eqn:Ec; [|done];
    apply checked_add_Some in Ec as [-> _]; congruence).
  inv_ok Hs. rename a into header, Ha0 into Hh. apply ok_or_Ok in Hh. pose proof Hh as Hh'.
  apply get_range_Some in Hh as (_ & _ & Hend & ->).
  assert (ext_length e = len) as El' by (do 2 inv_ok Hs; by injection Hs as <-).
  assert (zlen (zslice (ch_offset c) (zlen (ch_bytes c)) (ch_bytes c')) = zlen (ch_bytes c) - ch_offset c) as Lz
    by (apply zlen_zslice; lia).
  unfold first_chunk. rewrite Lz, (proj2 (Z.ltb_ge _ _)) by lia. cbn [ok_or]. rewrite Ok_bind.
  assert (at_ (ztake 2 (zslice (ch_offset c) (zlen (ch_bytes c)) (ch_bytes c'))) 1 = at_ (ztake 2 (zdrop (ch_offset c) (ch_bytes c))) 1) as ->.
  { apply at_ext. rewrite !zget_ztake, zget_zslice, zget_zdrop by lia. rewrite !(proj2 (Z.ltb_lt _ _)) by lia. cbn. apply H. lia. }
  rewrite Hlen, Ok_bind, Hlast, Ok_bind, get_range_ok by lia. cbn [ok_or]. rewrite Ok_bind.
  rewrite (zslice_ext (ch_bytes c') (ch_bytes c)) by (try lia; intros i Hi; apply H; lia). exact Hs.
Qed.

(** The chain [c'] over bytes that agree with [c]'s where the walk reads. *)
Definition chain_like (c c' : Ipv6ExtensionChain) : Prop :=
  zlen (ch_bytes c') = zlen (ch_bytes c) /\ ch_protocol c' = ch_protocol c /\ ch_offset c' = ch_offset c /\
  ch_limit c' = ch_limit c /\ ch_taken c' = ch_taken c /\ ch_done c' = ch_done c.

Lemma walk_extensions_offset fuel : forall c exts exts' d,
  octets (ch_bytes c) -> zlen (ch_bytes c) <= u32_max ->
  walk_extensions fuel c exts = Ok (exts', d) -> ch_offset c <= ch_offset d.
Proof.
  induction fuel as [|fuel IH]; intros c exts exts' d Ho Hl; [done|]. cbn [walk_extensions]. unfold chain_next.
  destruct (ch_done c || negb _); [by intros [= _ <-]|]. destruct (ch_limit c <=? ch_taken c); [done|].
  pose proof (chain_step_spec c Ho ltac:(unfold u64_max, u32_max in *; lia)) as Hs.
  destruct (chain_step c) as [e| |]; [|done|done]. destruct Hs as (_ & H8 & _ & _). rewrite Ok_bind.
  intros Hw. apply IH in Hw; [|done|done]. cbn [ch_offset] in Hw. lia.
Qed.

Lemma walk_extensions_same fuel : forall c c' exts exts' d,
  octets (ch_bytes c) -> zlen (ch_bytes c) <= u32_max -> chain_like c c' ->
  walk_extensions fuel c exts = Ok (exts', d) ->
  (forall i, ch_offset c <= i < ch_offset d -> zget (ch_bytes c') i = zget (ch_bytes c) i) ->
  exists d', walk_extensions fuel c' exts = Ok (exts', d') /\ chain_like d d'.
Proof.
  induction fuel as [|fuel IH]; intros c c' exts exts' d Ho Hl Hlike; [done|]. cbn [walk_extensions]. unfold chain_next.
  pose proof Hlike as (El & Ep & Eo & Elim & Etk & Ed). rewrite Ep, Elim, Etk, Ed.
  destruct (ch_done c || negb _); [intros [= <- <-] _; by exists c'|]. destruct (ch_limit c <=? ch_taken c); [done|].
  pose proof (chain_step_spec c Ho ltac:(unfold u64_max, u32_max in *; lia)) as Hs.
  destruct (chain_step c) as [e| |] eqn:E; [|done|done]. destruct Hs as (He & H8 & Hend & _). rewrite Ok_bind.
  intros Hw H. pose proof Hw as Hoff. apply walk_extensions_offset in Hoff; [|done|done]. cbn [ch_offset] in Hoff.
  rewrite (chain_step_same c c' e) by (try done; intros i Hi; apply H; lia). rewrite Ok_bind, Eo.
  eapply IH; [| | |exact Hw|]; cbn [ch_bytes ch_offset]; try done. intros i Hi. apply H. lia.
Qed.

Lemma walk6_same ip ip' h :
  octets ip -> Ipv6Header_walk ip = Ok h -> zlen ip' = zlen ip -> (forall i, 0 <= i < 8 -> zget ip' i = zget ip i) ->
  (forall i, 40 <= i < v6_upper_layer_offset h -> zget ip' i = zget ip i) -> Ipv6Header_walk ip' = Ok h.
Proof.
  intros Ho Hw Hl H8 H40. pose proof (walk6_fields ip h Ho Hw) as (_ & _ & _ & _ & _ & _ & Hup).
  unfold Ipv6Header_walk in *. inv_ok Hw. destruct a as [len nh]. pose proof (Ipv6Header_walk_fixed_spec ip Ho) as Hs. rewrite Ha in Hs.
  destruct Hs as [Hlen _].
  assert (Ipv6Header_walk_fixed ip' = Ok (len, nh)) as ->.
  { unfold Ipv6Header_walk_fixed in *. inv_ok Ha. apply ok_or_Ok, first_chunk_Some in Ha0 as [Hn ->].
    unfold first_chunk. rewrite Hl, (proj2 (Z.ltb_ge _ _)) by done. cbn [ok_or]. rewrite Ok_bind.
    assert (forall i, 0 <= i < 8 -> at_ (ztake IPV6_LENGTH ip') i = at_ (ztake IPV6_LENGTH ip) i) as Hat.
    { intros i Hi. apply at_ext. rewrite !zget_ztake. by destruct (i <? IPV6_LENGTH); [apply H8|]. }
    unfold be16 in *. rewrite !Hat by lia. done. }
  rewrite Ok_bind. inv_ok Hw. apply ok_or_Ok, get_range_Some in Ha0 as (_ & _ & Hend & ->).
  assert (0 <= IPV6_LENGTH + len) as Hpos by (unfold IPV6_LENGTH in *; lia).
  rewrite get_range_ok by lia. cbn [ok_or]. rewrite Ok_bind. unfold Ipv6Header_walk_chain in *. inv_ok Hw.
  destruct a as [exts c]. cbn in Hw. injection Hw as <-. cbn [v6_upper_layer_offset] in *.
  destruct (walk_extensions_same 66 (chain_new (zslice 0 (IPV6_LENGTH + len) ip) IPV6_LENGTH nh)
    (chain_new (zslice 0 (IPV6_LENGTH + len) ip') IPV6_LENGTH nh) [] exts c) as (c' & -> & (_ & Ep & Eo & _)); try done.
  - by apply octets_zslice.
  - cbn [ch_bytes chain_new]. rewrite zlen_zslice by lia. unfold IPV6_LENGTH, u32_max, u16_max in *. lia.
  - split; [|done]. cbn [ch_bytes chain_new]. rewrite !zlen_zslice by lia. done.
  - cbn [ch_bytes ch_offset chain_new]. intros i Hi. rewrite !zget_zslice by lia.
    destruct (_ && _); [|done]. apply H40. unfold IPV6_LENGTH in *. lia.
  - rewrite Ok_bind. cbn. by rewrite Ep, Eo.
Qed.

(** ** VLAN tags *)

Lemma tci_decodes kind p d i :
  0 <= p <= 7 -> 0 <= i <= 4095 ->
  VlanTag_from_tci kind (VlanTag_tci (mkVlanTag kind p d i)) = mkVlanTag kind p d i /\
  0 <= VlanTag_tci (mkVlanTag kind p d i) <= 65535.
Proof.
  intros Hp Hi. assert (Z.land i 4095 = i) as Ei.
  { change 4095 with (Z.ones 12). rewrite Z.land_ones by lia. apply Z.mod_small. lia. }
  assert (Z.land i 4096 = 0) as E12.
  { rewrite <-Ei, <-Z.land_assoc. change (Z.land 4095 4096) with 0. apply Z.land_0_r. }
  assert (Z.shiftr i 13 = 0) as E13 by (rewrite Z.shiftr_div_pow2 by lia; apply Z.div_small; lia).
  unfold VlanTag_tci, VlanTag_from_tci. cbn [priority drop_eligible vlan_id]. rewrite Ei.
  set (top := Z.lor _ (if d then _ else 0)). 
  assert (p = 0 \/ p = 1 \/ p = 2 \/ p = 3 \/ p = 4 \/ p = 5 \/ p = 6 \/ p = 7) as Hcases by lia.
  assert (Z.land top 4095 = 0 /\ Z.land top 4096 = (if d then 4096 else 0) /\ Z.shiftr top 13 = p /\ 0 <= top <= 61440) as (T1 & T2 & T3 & T4).
  { unfold top. repeat destruct Hcases as [->|Hcases]; try subst p; destruct d; by vm_compute. }
  rewrite Z.shiftr_lor, !Z.land_lor_distr_l, Ei, E12, E13, T1, T2, T3, !Z.lor_0_r, Z.lor_0_l, Z.mod_small by lia.
  split; [by destruct d|].
  assert (Z.land top i = 0) as E0 by (by rewrite <-Ei, Z.land_comm, <-Z.land_assoc, (Z.land_comm 4095), T1, Z.land_0_r).
  pose proof (Z.add_lor_land top i). lia.
Qed.

Lemma VlanRewrite_tci_spec r :
  vlan_ok r ->
  safe (VlanRewrite_tci r) (fun tci => 0 <= tci <= 65535 /\
    exists kind, VlanKind_from_ether_type (vr_ether_type r) = Some kind /\
      VlanRewrite_from (VlanTag_from_tci kind tci) = r).
Proof.
  intros (He & Hi & Hp). unfold VlanRewrite_tci. apply safe_bind, safe_ok_or. intros kind Hk.
  destruct (VlanKind_from_ether_type (vr_ether_type r)) as [k|] eqn:E; [|done]. cbn in Hk.
  destruct (Z.leb_spec (vr_identifier r) 4095), (Z.leb_spec (vr_priority r) 7); try done. cbn in Hk. injection Hk as ->.
  destruct (tci_decodes kind (vr_priority r) (vr_drop_eligible r) (vr_identifier r)) as [Hd Hr]; [lia|lia|]. cbn [safe].
  split; [done|]. exists kind. split; [done|]. rewrite Hd. unfold VlanRewrite_from. cbn.
  assert (VlanKind_ether_type kind = vr_ether_type r) as ->; [|by destruct r].
  unfold VlanKind_from_ether_type in E. destruct (Z.eqb_spec (vr_ether_type r) 33024); [by injection E as <-|].
  destruct (Z.eqb_spec (vr_ether_type r) 34984); [by injection E as <-|done].
Qed.

Lemma encode_tags_spec tags :
  Forall vlan_ok tags -> check_tags tags = Ok tt ->
  exists enc, encode_tags tags = Ok enc /\ zlen enc = 4 * zlen tags /\ octets enc.
Proof.
  induction 1 as [|r tags Hr Htags IH]; [by exists []|]. cbn [check_tags encode_tags]. intros Hc. inv_ok Hc.
  rewrite Ha, Ok_bind. destruct (IH Hc) as (enc & -> & L & O). rewrite Ok_bind. eexists. split; [done|].
  rewrite !zlen_app, !zlen_be_bytes, L, zlen_cons. split; [lia|].
  apply Forall_app. split; [apply octets_be_bytes|]. apply Forall_app. split; [apply octets_be_bytes|done].
Qed.

(** One turn of the loop. *)
Lemma walk_vlans_step fuel frame tags et kind :
  VlanKind_from_ether_type et = Some kind -> zlen tags < MAX_VLAN_DEPTH -> 18 + 4 * zlen tags <= zlen frame ->
  walk_vlans (S fuel) frame tags et
  = walk_vlans fuel frame (tags ++ [VlanTag_from_tci kind (be16 frame (14 + 4 * zlen tags))]) (be16 frame (16 + 4 * zlen tags)).
Proof.
  intros Hk Hd Hl. pose proof (zlen_nonneg tags). cbn [walk_vlans]. rewrite Hk, (proj2 (Z.eqb_neq _ _)) by lia.
  unfold ETHERNET_LENGTH, VLAN_TAG_LENGTH. set (o := 14 + zlen tags * 4).
  unfold get_from. rewrite get_range_ok by lia. cbn [mbind option_bind].
  assert (zlen (zslice o (zlen frame) frame) = zlen frame - o) as Lz by (apply zlen_zslice; lia).
  unfold first_chunk. rewrite Lz, (proj2 (Z.ltb_ge _ _)) by lia. cbn [ok_or]. rewrite Ok_bind.
  assert (forall i, 0 <= i < 4 -> at_ (ztake 4 (zslice o (zlen frame) frame)) i = at_ frame (o + i)) as Hat.
  { intros i Hi. unfold at_. rewrite zget_ztake, zget_zslice by lia. rewrite (proj2 (Z.ltb_lt _ _)) by lia.
    rewrite (proj2 (Z.leb_le _ _)), (proj2 (Z.ltb_lt _ _)) by lia. done. }
  unfold be16. rewrite !Hat by lia. repeat (f_equal; try (unfold o; lia)).
Qed.

Lemma be16_block frame o x l :
  0 <= x <= 65535 -> (forall i, 0 <= i < 2 -> zget frame (o + i) = zget (be_bytes 2 x ++ l) i) -> be16 frame o = x.
Proof.
  intros Hx H. rewrite <-(from_be_be_bytes 2 x) by (cbn; lia). rewrite be_bytes_16 by done. unfold to_be_bytes16.
  rewrite be_bytes_16 in H by done. apply be16_zget; [rewrite <-(Z.add_0_r o)|]; rewrite H by lia; done.
Qed.

(** The walk reads back an encoded stack. *)
Lemma walk_vlans_encoded frame et : VlanKind_from_ether_type et = None -> 0 <= et <= 65535 ->
  forall tags fuel seen enc, Forall vlan_ok tags -> encode_tags tags = Ok enc ->
  zlen seen + zlen tags <= MAX_VLAN_DEPTH -> zlen tags < Z.of_nat fuel -> 14 + 4 * (zlen seen + zlen tags) <= zlen frame ->
  (forall i, 0 <= i < 4 * zlen tags + 2 -> zget frame (12 + 4 * zlen seen + i) = zget (enc ++ be_bytes 2 et) i) ->
  exists new, walk_vlans fuel frame seen (be16 frame (12 + 4 * zlen seen)) = Ok (seen ++ new, et) /\
    VlanRewrite_from <$> new = tags.
Proof.
  intros Het Hetr. induction tags as [|r tags IH]; intros fuel seen enc Htags Henc Hd Hf Hl Hs; pose proof (zlen_nonneg seen).
  { change (@zlen VlanRewrite []) with 0 in *. destruct fuel as [|fuel]; [lia|]. injection Henc as <-. cbn [app] in Hs. exists [].
    rewrite (be16_block frame _ et []) by (try done; intros i Hi; rewrite app_nil_r; apply Hs; lia).
    cbn [walk_vlans]. by rewrite Het, app_nil_r. }
  rewrite zlen_cons in *. pose proof (zlen_nonneg tags). destruct fuel as [|fuel]; [lia|].
  apply Forall_cons_1 in Htags as [Hr Htags]. cbn [encode_tags] in Henc. inv_ok Henc. inv_ok Henc.
  match type of Henc with Ok ?x = Ok _ => assert (enc = x) as -> by congruence end.
  pose proof (VlanRewrite_tci_spec r Hr) as Hv. rewrite Ha in Hv. destruct Hv as (Htci & kind & Hk & Hfrom). pose proof Hr as (Hety & _).
  rename a into tci, a0 into tail. unfold MAX_VLAN_DEPTH in *.
  assert (forall k, zget (be_bytes 2 (vr_ether_type r) ++ be_bytes 2 tci ++ tail ++ be_bytes 2 et) (2 + k)
    = if 0 <=? k then zget (be_bytes 2 tci ++ tail ++ be_bytes 2 et) k else zget (be_bytes 2 (vr_ether_type r)) (2 + k)) as Hg2.
  { intros k. rewrite zget_app, zlen_be_bytes. change (Z.of_nat 2) with 2. destruct (Z.leb_spec 0 k), (Z.ltb_spec (2 + k) 2); try lia; [f_equal; lia|done]. }
  rewrite <-!app_assoc in Hs.
  rewrite (be16_block frame (12 + 4 * zlen seen) (vr_ether_type r) (be_bytes 2 tci ++ tail ++ be_bytes 2 et))
    by (try done; intros i Hi; rewrite Hs by lia; done).
  rewrite (walk_vlans_step _ _ _ _ kind) by (unfold MAX_VLAN_DEPTH; try done; lia).
  rewrite (be16_block frame (14 + 4 * zlen seen) tci (tail ++ be_bytes 2 et)); [|done|].
  2:{ intros i Hi. replace (14 + 4 * zlen seen + i) with (12 + 4 * zlen seen + (2 + i)) by lia. rewrite Hs, Hg2 by lia.
      by rewrite (proj2 (Z.leb_le _ _)) by lia. }
  set (tag := VlanTag_from_tci kind tci) in *.
  assert (zlen (seen ++ [tag]) = zlen seen + 1) as Ls by (by rewrite zlen_app).
  destruct (IH fuel (seen ++ [tag]) tail) as (new & Hw & Hn); try done; rewrite ?Ls; try lia.
  - intros i Hi. replace (12 + 4 * (zlen seen + 1) + i) with (12 + 4 * zlen seen + (2 + (2 + i))) by lia.
    rewrite Hs, Hg2, (proj2 (Z.leb_le _ _)), zget_app, zlen_be_bytes by lia. change (Z.of_nat 2) with 2.
    rewrite (proj2 (Z.ltb_ge _ _)) by lia. f_equal. lia.
  - exists (tag :: new). rewrite Ls in Hw. replace (12 + 4 * (zlen seen + 1)) with (16 + 4 * zlen seen) in Hw by lia.
    rewrite Hw, <-app_assoc. split; [done|]. cbn. by rewrite Hfrom, Hn.
Qed.

(** A turn that does not fail has its tag in the frame. *)
Lemma walk_vlans_turn fuel frame tags et kind r :
  zlen tags <= MAX_VLAN_DEPTH -> VlanKind_from_ether_type et = Some kind -> walk_vlans (S fuel) frame tags et = Ok r ->
  zlen tags < MAX_VLAN_DEPTH /\ 18 + 4 * zlen tags <= zlen frame.
Proof.
  intros Hd Hk Hw. cbn [walk_vlans] in Hw. rewrite Hk in Hw. destruct (Z.eqb_spec (zlen tags) MAX_VLAN_DEPTH) as [|Hn]; [done|].
  inv_ok Hw. apply ok_or_Ok in Ha. destruct (get_from frame _) as [rest|] eqn:Eg; [|done]. cbn in Ha.
  apply get_from_Some in Eg as [Hb ->]. apply first_chunk_Some in Ha as [Ha _]. rewrite zlen_zdrop in Ha.
  unfold VLAN_TAG_LENGTH, ETHERNET_LENGTH in *. lia.
Qed.

Lemma walk_vlans_end fuel : forall frame tags et tags' et',
  walk_vlans fuel frame tags et = Ok (tags', et') -> zlen tags <= MAX_VLAN_DEPTH ->
  zlen tags <= zlen tags' /\ VlanKind_from_ether_type et' = None /\ (octets frame -> 0 <= et <= 65535 -> 0 <= et' <= 65535).
Proof.
  induction fuel as [|fuel IH]; intros frame tags et tags' et' Hw Hd; [done|].
  destruct (VlanKind_from_ether_type et) as [kind|] eqn:E.
  - destruct (walk_vlans_turn _ _ _ _ _ _ Hd E Hw) as [Hlt Hl]. rewrite (walk_vlans_step _ _ _ _ kind) in Hw by done.
    apply IH in Hw as (H1 & H2 & H3); rewrite zlen_app in *; change (zlen [_]) with 1 in *; [|lia].
    split; [lia|]. split; [done|]. intros Ho _. apply H3; [done|]. pose proof (be16_range frame (16 + 4 * zlen tags) Ho). lia.
  - cbn [walk_vlans] in Hw. rewrite E in Hw. by injection Hw as <- <-.
Qed.

(** The walk reads only the tags and the type that follows them. *)
Lemma walk_vlans_same fuel : forall frame frame' tags et tags' et',
  walk_vlans fuel frame tags et = Ok (tags', et') -> zlen tags <= MAX_VLAN_DEPTH -> 14 + 4 * zlen tags' <= zlen frame' ->
  (forall i, 14 + 4 * zlen tags <= i < 14 + 4 * zlen tags' -> zget frame' i = zget frame i) ->
  walk_vlans fuel frame' tags et = Ok (tags', et').
Proof.
  induction fuel as [|fuel IH]; intros frame frame' tags et tags' et' Hw Hd Hl H; [done|].
  destruct (VlanKind_from_ether_type et) as [kind|] eqn:E; [|cbn [walk_vlans] in *; by rewrite E in *].
  destruct (walk_vlans_turn _ _ _ _ _ _ Hd E Hw) as [Hlt Hl']. rewrite (walk_vlans_step _ _ _ _ kind) in Hw by done.
  pose proof Hw as Hend. apply walk_vlans_end in Hend as [Hle _]; rewrite zlen_app in *; change (zlen [_]) with 1 in *; [|lia].
  rewrite (walk_vlans_step _ _ _ _ kind) by (try done; lia). rewrite !(be16_ext frame' frame) by (apply H; lia).
  eapply IH; [exact Hw|..]; rewrite ?zlen_app; change (zlen [_]) with 1; [lia|done|]. intros i Hi. apply H. lia.
Qed.

(** ** The link layer *)

(** The link header of the rewritten frame. *)
Definition link_rewritten (patch : HeaderRewrite) (link link' : LinkHeader) : Prop :=
  match link, link' with
  | LinkEthernet h, LinkEthernet h' =>
      eth_destination h' = default (eth_destination h) (destination_mac patch) /\
      eth_source h' = default (eth_source h) (source_mac patch) /\
      VlanRewrite_from <$> vlan_tags h' = default (VlanRewrite_from <$> vlan_tags h) (vlans patch) /\
      ether_type h' = ether_type h
  | LinkRawIp version, LinkRawIp version' => version' = version
  | _, _ => False
  end.

Lemma zslice_ztake (l : bytes) a b n : 0 <= a -> b <= n -> zslice a b (ztake n l) = zslice a b l.
Proof. intros Ha Hb. apply zslice_ext; [done|]. intros i Hi. by rewrite zget_ztake, (proj2 (Z.ltb_lt _ _)) by lia. Qed.

Lemma EthernetHeader_walk_inv frame h :
  EthernetHeader_walk frame = Ok h ->
  14 <= zlen frame /\ eth_destination h = zslice 0 6 frame /\ eth_source h = zslice 6 12 frame /\
  walk_vlans 66 frame [] (be16 frame 12) = Ok (vlan_tags h, ether_type h).
Proof.
  intros Hw. unfold EthernetHeader_walk, EthernetHeader_base in Hw. inv_ok Hw. inv_ok Ha. apply ok_or_Ok, first_chunk_Some in Ha0 as [Hl ->].
  injection Ha as <-. inv_ok Hw. destruct a as [tags et]. injection Hw as <-. unfold ETHERNET_LENGTH in *. cbn [eth_destination eth_source vlan_tags ether_type].
  split; [done|]. split; [|split].
  1,2: by rewrite zslice_ztake by lia.
  rewrite (be16_ext (ztake 14 frame) frame) in Ha by (rewrite zget_ztake; done). exact Ha.
Qed.

Lemma EthernetHeader_walk_ok frame tags et :
  14 <= zlen frame -> walk_vlans 66 frame [] (be16 frame 12) = Ok (tags, et) ->
  EthernetHeader_walk frame = Ok (mkEthernetHeader (zslice 0 6 frame) (zslice 6 12 frame) tags et).
Proof.
  intros Hl Hw. unfold EthernetHeader_walk, EthernetHeader_base, first_chunk, ETHERNET_LENGTH. rewrite (proj2 (Z.ltb_ge _ _)) by done.
  cbn [ok_or]. rewrite !Ok_bind. rewrite (be16_ext _ frame) by (rewrite zget_ztake; done). rewrite Hw, Ok_bind.
  by rewrite !zslice_ztake by lia.
Qed.

(** Where the network header starts in the rewritten frame. *)
Definition rewritten_offset (patch : HeaderRewrite) (link : LinkHeader) : Z :=
  match vlans patch with Some tags => 14 + 4 * zlen tags | None => network_offset link end.

(** [HeaderRewrite_validate] on the VLAN stack. *)
Definition vlans_valid (patch : HeaderRewrite) : Prop :=
  from_option (fun tags => zlen tags <= MAX_VLAN_DEPTH /\ check_tags tags = Ok tt) True (vlans patch).

(** What of the frame [rewrite_link] keeps after the addresses. *)
Lemma rewrite_link_spec frame patch h :
  octets (frame_bytes frame) -> patch_ok patch -> vlans_valid patch -> EthernetHeader_walk (frame_bytes frame) = Ok h ->
  exists middle, rewrite_link frame patch (LinkEthernet h) = Ok (zslice 0 12 (frame_bytes frame) ++ middle) /\
    octets middle /\ 12 + zlen middle = rewritten_offset patch (LinkEthernet h) /\
    match vlans patch with
    | Some tags => exists enc, encode_tags tags = Ok enc /\ middle = enc ++ be_bytes 2 (ether_type h)
    | None => middle = zslice 12 (payload_offset h) (frame_bytes frame)
    end.
Proof.
  intros Ho Hp Hv Hw. pose proof (EthernetHeader_walk_spec (frame_bytes frame)) as Hs. rewrite Hw in Hs. destruct Hs as [_ Hoff].
  unfold ETHERNET_LENGTH in Hoff. unfold rewrite_link, rewritten_offset, vlans_valid in *. rewrite (index_range_ok _ 0 12) by lia. rewrite Ok_bind.
  pose proof (po_vlans _ Hp) as Hok. destruct (vlans patch) as [tags|]; cbn [from_option network_offset] in *.
  - destruct Hv as [_ Hc]. destruct (encode_tags_spec tags Hok Hc) as (enc & -> & L & O). rewrite Ok_bind.
    exists (enc ++ be_bytes 2 (ether_type h)). split; [done|]. rewrite zlen_app, zlen_be_bytes, L. change (Z.of_nat 2) with 2.
    split; [apply Forall_app; split; [done|apply octets_be_bytes]|]. split; [lia|]. by exists enc.
  - rewrite index_range_ok by lia. rewrite Ok_bind. eexists. split; [done|]. split; [by apply octets_zslice|].
    rewrite zlen_zslice by lia. split; [lia|done].
Qed.

Lemma ethernet_rewalk patch frame h middle data :
  octets frame -> patch_ok patch -> vlans_valid patch -> EthernetHeader_walk frame = Ok h ->
  match vlans patch with
  | Some tags => exists enc, encode_tags tags = Ok enc /\ middle = enc ++ be_bytes 2 (ether_type h)
  | None => middle = zslice 12 (payload_offset h) frame
  end ->
  rewritten_offset patch (LinkEthernet h) <= zlen data ->
  (forall i, 12 <= i < rewritten_offset patch (LinkEthernet h) -> zget data i = zget middle (i - 12)) ->
  zslice 0 6 data = default (eth_destination h) (destination_mac patch) ->
  zslice 6 12 data = default (eth_source h) (source_mac patch) ->
  exists h', EthernetHeader_walk data = Ok h' /\ link_rewritten patch (LinkEthernet h) (LinkEthernet h') /\
    payload_offset h' = rewritten_offset patch (LinkEthernet h).
Proof.
  intros Ho Hp Hv Hw Hmid Hl Hdata Hd Hs. destruct (EthernetHeader_walk_inv frame h Hw) as (H14 & _ & _ & Hvl).
  pose proof Hvl as Hend. apply walk_vlans_end in Hend as (_ & Hnone & Het); [|done].
  specialize (Het Ho ltac:(pose proof (be16_range frame 12 Ho); lia)).
  assert (exists tags', walk_vlans 66 data [] (be16 data 12) = Ok (tags', ether_type h) /\
    VlanRewrite_from <$> tags' = default (VlanRewrite_from <$> vlan_tags h) (vlans patch) /\
    14 + 4 * zlen tags' = rewritten_offset patch (LinkEthernet h)) as (tags' & Hw' & Ht & Hlen).
  { unfold rewritten_offset, vlans_valid, MAX_VLAN_DEPTH in *. pose proof (po_vlans _ Hp) as Hok.
    destruct (vlans patch) as [tags|]; cbn [from_option] in *.
    - destruct Hmid as (enc & Henc & ->). destruct Hv as [Hdep _].
      destruct (walk_vlans_encoded data (ether_type h) Hnone Het tags 66 [] enc) as (new & Hnew & Hfrom);
        try done; change (@zlen VlanTag []) with 0; unfold MAX_VLAN_DEPTH; try lia.
      { intros i Hi. rewrite Hdata by lia. f_equal. lia. }
      exists new. split; [done|]. split; [done|]. rewrite <-Hfrom. unfold zlen. by rewrite length_fmap.
    - subst middle. cbn [network_offset] in *. unfold payload_offset, ETHERNET_LENGTH, VLAN_TAG_LENGTH in *.
      assert (forall i, 12 <= i < 14 + zlen (vlan_tags h) * 4 -> zget data i = zget frame i) as Hsame.
      { intros i Hi. rewrite Hdata by lia. rewrite zget_zslice by lia.
        rewrite (proj2 (Z.leb_le _ _)), (proj2 (Z.ltb_lt _ _)) by lia. cbn [andb]. f_equal. lia. }
      pose proof (zlen_nonneg (vlan_tags h)). exists (vlan_tags h). split; [|split; [done|lia]].
      rewrite (be16_ext data frame) by (apply Hsame; lia). eapply walk_vlans_same; [exact Hvl|done|lia|].
      change (@zlen VlanTag []) with 0. intros i Hi. apply Hsame. lia. }
  pose proof (zlen_nonneg tags'). rewrite (EthernetHeader_walk_ok data tags' (ether_type h)) by (try done; lia). eexists. split; [done|].
  cbn [link_rewritten eth_destination eth_source vlan_tags ether_type]. unfold payload_offset, ETHERNET_LENGTH, VLAN_TAG_LENGTH.
  cbn [vlan_tags]. split; [done|lia].
Qed.

Lemma write_mac_spec data mac start :
  octets data -> 0 <= start -> from_option mac_ok True mac -> (is_some mac = true -> start + 6 <= zlen data) ->
  exists data', write_mac data mac start = Ok data' /\ zlen data' = zlen data /\ octets data' /\
    zslice start (start + 6) data' = default (zslice start (start + 6) data) mac /\
    forall i, ~ start <= i < start + 6 -> zget data' i = zget data i.
Proof.
  intros Ho H0 Hm Hl. destruct mac as [m|]; [|by exists data]. destruct Hm as [Hmo Hml]. specialize (Hl eq_refl).
  cbn [write_mac]. rewrite copy_at_ok by lia. eexists. split; [done|]. split; [apply zlen_overwrite; lia|].
  split; [by apply octets_overwrite|]. split; [|intros i Hi; apply overwrite_other; lia].
  cbn. rewrite <-Hml. apply zslice_overwrite; lia.
Qed.

Definition link_edits (patch : HeaderRewrite) : bool :=
  is_some (source_mac patch) || is_some (destination_mac patch) || is_some (vlans patch).

(** The frame after the link edits, [data]: its link header parses to the
    requested one whatever follows it. *)
Definition link_written (frame : Frame) (patch : HeaderRewrite) (link : LinkHeader) (data : bytes) : Prop :=
  let old := network_offset link in
  let new := rewritten_offset patch link in
  octets data /\ 0 <= new /\ zlen data = zlen (frame_bytes frame) - old + new /\ zdrop new data = zdrop old (frame_bytes frame) /\
  forall data', new <= zlen data' -> (forall i, 0 <= i < new -> zget data' i = zget data i) ->
    exists link', LinkHeader_walk (link_type frame) data' = Ok (Some link') /\ link_rewritten patch link link' /\
      network_offset link' = new.

(** The [data] of [rewrite] before the network edits. *)
Definition link_bytes (frame : Frame) (patch : HeaderRewrite) (link : LinkHeader) : outcome TransformError bytes :=
  l ← rewrite_link frame patch link;
  data ← write_mac (l ++ zdrop (network_offset link) (frame_bytes frame)) (source_mac patch) 6;
  write_mac data (destination_mac patch) 0.

Lemma ethernet_written frame patch h middle data0 :
  octets (frame_bytes frame) -> patch_ok patch -> vlans_valid patch -> link_type frame = 1 ->
  EthernetHeader_walk (frame_bytes frame) = Ok h -> octets data0 ->
  match vlans patch with
  | Some tags => exists enc, encode_tags tags = Ok enc /\ middle = enc ++ be_bytes 2 (ether_type h)
  | None => middle = zslice 12 (payload_offset h) (frame_bytes frame)
  end ->
  12 + zlen middle = rewritten_offset patch (LinkEthernet h) ->
  data0 = zslice 0 12 (frame_bytes frame) ++ middle ++ zdrop (payload_offset h) (frame_bytes frame) ->
  exists data, (data ← write_mac data0 (source_mac patch) 6; write_mac data (destination_mac patch) 0) = Ok data /\
    link_written frame patch (LinkEthernet h) data.
Proof.
  intros Ho Hp Hv E1 Hw O0 Hmid Lmid E0. destruct (EthernetHeader_walk_inv _ _ Hw) as (H14 & Edst & Esrc & _).
  pose proof (EthernetHeader_walk_spec (frame_bytes frame)) as Hs. rewrite Hw in Hs. destruct Hs as [_ Hoff].
  unfold link_written. cbn [network_offset]. unfold ETHERNET_LENGTH in Hoff.
  set (F := frame_bytes frame) in *. set (new := rewritten_offset patch (LinkEthernet h)) in *.
  set (rest := zdrop (payload_offset h) F) in *.
  assert (zlen (zslice 0 12 F) = 12) as L12 by (apply zlen_zslice; lia). pose proof (zlen_nonneg middle).
  assert (zlen rest = zlen F - payload_offset h) as Lr by (unfold rest; rewrite zlen_zdrop; lia).
  assert (forall i, zget data0 i = if i <? 12 then zget (zslice 0 12 F) i else if i <? new then zget middle (i - 12) else zget rest (i - new)) as H0.
  { intros i. rewrite E0, zget_app, L12. destruct (Z.ltb_spec i 12); [done|]. rewrite zget_app.
    destruct (Z.ltb_spec (i - 12) (zlen middle)), (Z.ltb_spec i new); try lia; [done|]. f_equal. lia. }
  assert (zlen data0 = new + zlen rest) as L0 by (rewrite E0, !zlen_app; lia). pose proof (zlen_nonneg rest).
  destruct (write_mac_spec data0 (source_mac patch) 6 O0) as (data1 & -> & L1 & O1 & S1 & U1); [lia|apply Hp|lia|]. rewrite Ok_bind.
  destruct (write_mac_spec data1 (destination_mac patch) 0 O1) as (data2 & -> & L2 & O2 & S2 & U2); [lia|apply Hp|lia|].
  change (0 + 6) with 6 in *. change (6 + 6) with 12 in *. exists data2. split; [done|]. split; [done|]. split; [lia|]. split; [lia|].
  assert (forall i, 12 <= i -> zget data2 i = if i <? new then zget middle (i - 12) else zget rest (i - new)) as Htail.
  { intros i Hi. rewrite U2, U1, H0 by lia. by rewrite (proj2 (Z.ltb_ge _ _)) by lia. }
  assert (forall a b, 0 <= a -> b <= 12 -> zslice a b data0 = zslice a b F) as Hhead.
  { intros a b Ha Hb. apply zslice_ext; [done|]. intros i Hi. rewrite H0, zget_zslice by lia.
    by rewrite !(proj2 (Z.ltb_lt _ _)), (proj2 (Z.leb_le _ _)) by lia. }
  split.
  - apply zget_ext. intros i Hi. rewrite zget_zdrop, Htail by lia. rewrite (proj2 (Z.ltb_ge _ _)) by lia. f_equal. lia.
  - intros data' Hl' Hsame. assert (forall a b, 0 <= a -> b <= new -> zslice a b data' = zslice a b data2) as Hs'
      by (intros a b Ha Hb; apply zslice_ext; [done|]; intros i Hi; apply Hsame; lia).
    destruct (ethernet_rewalk patch F h middle data') as (h' & Hh' & Hlink & Hoff'); try done.
    + intros i Hi. fold new in Hi. rewrite Hsame, Htail by lia. by rewrite (proj2 (Z.ltb_lt _ _)) by lia.
    + rewrite Hs' by lia. rewrite S2, Edst. f_equal.
      rewrite (zslice_ext data1 data0) by (try lia; intros i Hi; apply U1; lia). apply Hhead; lia.
    + rewrite Hs' by lia. rewrite (zslice_ext data2 data1) by (try lia; intros i Hi; apply U2; lia). rewrite S1, Esrc. f_equal.
      apply Hhead; lia.
    + exists (LinkEthernet h'). unfold LinkHeader_walk. rewrite E1, Z.eqb_refl, Hh'. done.
Qed.

Lemma link_bytes_spec frame patch link :
  octets (frame_bytes frame) -> patch_ok patch -> vlans_valid patch ->
  LinkHeader_walk (link_type frame) (frame_bytes frame) = Ok (Some link) ->
  link_edits patch && negb (link_type frame =? 1) = false ->
  exists data, link_bytes frame patch link = Ok data /\ link_written frame patch link data.
Proof.
  intros Ho Hp Hv Hw Hed. pose proof Hw as Hw'. unfold LinkHeader_walk in Hw. unfold link_bytes.
  destruct (Z.eqb_spec (link_type frame) 1) as [E1|E1].
  - inv_ok Hw. injection Hw as <-. destruct (rewrite_link_spec frame patch a Ho Hp Hv Ha) as (middle & -> & Omid & Lmid & Hmid).
    rewrite Ok_bind, <-app_assoc. cbn [network_offset]. eapply ethernet_written; try done.
    apply Forall_app. split; [by apply octets_zslice|]. apply Forall_app. split; [done|by apply octets_zdrop].
  - rewrite andb_true_r in Hed. apply orb_false_iff in Hed as [[Hs Hd]%orb_false_iff Hvl].
    assert (link_rewritten patch link link /\ network_offset link = 0 /\ rewrite_link frame patch link = Ok []) as (Hl & Hn & ->).
    { destruct (negb (is_raw_ip (link_type frame))); [done|]. by injection Hw as <-. }
    destruct (source_mac patch), (destination_mac patch), (vlans patch) eqn:Ev; try done.
    exists (frame_bytes frame). unfold link_written, rewritten_offset. rewrite Ev, Hn, zdrop_0. split; [done|].
    split_and!; try done; [lia|]. intros data' _ _. exists link. split; [|done]. rewrite <-Hw'. unfold LinkHeader_walk.
    by rewrite (proj2 (Z.eqb_neq _ _)) by done.
Qed.

(** ** The IP header *)

Lemma transport_touched_below patch protocol ipv6 i : i < 0 -> transport_touched patch protocol ipv6 i = false.
Proof.
  intros Hi. assert (forall a b, 0 <= a -> within a b i = false) as H by (intros; apply within_false; lia).
  unfold transport_touched, checksum_field. rewrite !H, !andb_false_r by lia.
  repeat case_match; simplify_eq; try done; by rewrite H by lia.
Qed.

(** The bytes in front of the upper layer that the rewrite leaves alone. *)
Lemma ip_touched_header patch header i :
  i < (IpHeader_upper_layer header).2 ->
  match header with IpV4 _ => i < 10 | IpV6 _ => i < 8 \/ 40 <= i end -> ip_touched patch header i = false.
Proof.
  intros Hs Hi. unfold ip_touched. destruct header as [h|h]; cbn in Hs |- *;
    rewrite transport_touched_below, !(proj2 (within_false _ _ _)), !andb_false_r by lia; done.
Qed.

Lemma IpHeader_walk_same patch header ip ip' :
  octets ip -> IpHeader_walk ip = Ok header -> ip_rewritten patch header ip ip' ->
  IpHeader_walk ip' = Ok header /\ head ip' = head ip.
Proof.
  intros Ho Hw Hr. pose proof (IpHeader_walk_spec ip Ho) as Hf. rewrite Hw in Hf. cbn [safe] in Hf.
  destruct (walked_extent ip header Ho Hf) as ((Hst & _) & _).
  assert (forall i, i < (IpHeader_upper_layer header).2 ->
    match header with IpV4 _ => i < 10 | IpV6 _ => i < 8 \/ 40 <= i end -> zget ip' i = zget ip i) as Hsame
    by (intros; by apply (ir_other _ _ _ _ Hr), ip_touched_header).
  assert (head ip' = head ip) as Hh.
  { assert (forall l : bytes, head l = zget l 0) as E by (by intros []). rewrite !E. apply Hsame; destruct header; cbn in *; lia. }
  split; [|done]. unfold IpHeader_walk in *. rewrite Hh. destruct (head ip) as [b|]; [|done].
  destruct header as [h|h]; cbn [walked_from fixed_length IpHeader_upper_layer snd] in *.
  - assert (Ipv4Header_walk ip' = Ok h) as E4.
    { eapply walk4_same; [exact Hf|apply Hr|]. intros i Hi. apply Hsame; lia. }
    destruct (_ =? 4); [by rewrite E4|]. destruct (_ =? 6); [|done]. inv_ok Hw. done.
  - assert (Ipv6Header_walk ip' = Ok h) as E6.
    { eapply walk6_same; [exact Ho|exact Hf|apply Hr|..]; intros i Hi; apply Hsame; lia. }
    destruct (_ =? 4); [inv_ok Hw; done|]. destruct (_ =? 6); [by rewrite E6|done].
Qed.

Lemma LinkHeader_walk_ip_inv link data header :
  LinkHeader_walk_ip link data = Ok (Some header) ->
  let ip := zdrop (network_offset link) data in
  carries_ip link = true /\ IpHeader_walk ip = Ok header /\
  match announced_ip_version link, (fun b => Z.shiftr b 4) <$> head ip with
  | Some expected, Some found => expected = found
  | _, _ => True
  end.
Proof.
  unfold LinkHeader_walk_ip. destruct (carries_ip link); [|done]. cbn [negb]. intros Hw. inv_ok Hw.
  apply ok_or_Ok, get_from_Some in Ha as [_ ->]. cbv zeta.
  destruct (announced_ip_version link) as [v|], (head (zdrop (network_offset link) data)) as [w|]; cbn in Hw |- *;
    [destruct (Z.eqb_spec v (Z.shiftr w 4)); [|done]|..]; cbn [negb] in Hw; (split; [done|]); inv_ok Hw; by injection Hw as <-.
Qed.

(** A rewritten link header leads to the same IP header, wherever it starts. *)
Lemma LinkHeader_walk_ip_moved patch link link' data data' header :
  0 <= network_offset link' <= zlen data' -> link_rewritten patch link link' ->
  LinkHeader_walk_ip link data = Ok (Some header) ->
  IpHeader_walk (zdrop (network_offset link') data') = Ok header ->
  head (zdrop (network_offset link') data') = head (zdrop (network_offset link) data) ->
  LinkHeader_walk_ip link' data' = Ok (Some header).
Proof.
  intros Hoff Hl Hw Hip' Hh. destruct (LinkHeader_walk_ip_inv _ _ _ Hw) as (Hc & _ & Hv).
  assert (carries_ip link' = carries_ip link /\ announced_ip_version link' = announced_ip_version link) as [Ec Ea].
  { destruct link, link'; try done; cbn in Hl |- *. destruct Hl as (_ & _ & _ & He). unfold EthernetHeader_ip_version. by rewrite He. }
  unfold LinkHeader_walk_ip. rewrite Ec, Hc, Ea. cbn [negb]. rewrite get_from_ok by lia. cbn [ok_or]. rewrite Ok_bind.
  rewrite Hh, Hip', Ok_bind. cbv zeta in Hv.
  destruct (announced_ip_version link) as [v|], (head (zdrop (network_offset link) data)) as [w|]; try done. cbn in Hv |- *. subst.
  by rewrite Z.eqb_refl.
Qed.

(** ** The frame *)

(** What [rewrite] makes of a frame. *)
Record frame_rewritten (frame : Frame) (patch : HeaderRewrite) (out : Frame) : Prop := {
  fw_link : exists link link',
    LinkHeader_walk (link_type frame) (frame_bytes frame) = Ok (Some link) /\
    LinkHeader_walk (link_type out) (frame_bytes out) = Ok (Some link') /\
    link_rewritten patch link link' /\
    let ip := zdrop (network_offset link) (frame_bytes frame) in
    let ip' := zdrop (network_offset link') (frame_bytes out) in
    if network_edits patch
    then exists header, LinkHeader_walk_ip link (frame_bytes frame) = Ok (Some header) /\
           LinkHeader_walk_ip link' (frame_bytes out) = Ok (Some header) /\ ip_rewritten patch header ip ip'
    else ip' = ip;
  fw_complete : captured_length out = zlen (frame_bytes out) /\ original_length out = zlen (frame_bytes out);
  fw_identity : link_type out = link_type frame /\ fr_timestamp out = fr_timestamp frame /\
    fr_interface out = fr_interface frame /\ fr_direction out = fr_direction frame
}.

Lemma rewrite_network_spec frame patch link data :
  octets (frame_bytes frame) -> zlen (frame_bytes frame) <= u32_max -> patch_ok patch ->
  LinkHeader_walk (link_type frame) (frame_bytes frame) = Ok (Some link) -> link_written frame patch link data ->
  safe (rewrite_network data frame patch link (rewritten_offset patch link)) (fun data' =>
    zlen data' = zlen data /\
    forall out, link_type out = link_type frame -> frame_bytes out = data' ->
    captured_length out = zlen data' -> original_length out = zlen data' -> fr_timestamp out = fr_timestamp frame ->
    fr_interface out = fr_interface frame -> fr_direction out = fr_direction frame -> frame_rewritten frame patch out).
Proof.
  intros Ho Hl32 Hp Hw (Od & Hnew & Ld & Hrest & Hlink). pose proof (LinkHeader_walk_spec (link_type frame) (frame_bytes frame)) as Hoff.
  rewrite Hw in Hoff. specialize (Hoff link eq_refl). set (old := network_offset link) in *. set (new := rewritten_offset patch link) in *.
  unfold rewrite_network. destruct (network_edits patch) eqn:En; cbn [negb].
  2:{ cbn [safe]. split; [done|]. intros out El Eb ????. destruct (Hlink data) as (link' & Hw' & Hr & Hn); [lia|done|].
      split; [|by rewrite Eb|done]. exists link, link'. rewrite En, El, Eb. split_and!; try done. by rewrite Hn. }
  pose proof (LinkHeader_walk_ip_spec link (frame_bytes frame) Ho Hoff) as Hi.
  destruct (LinkHeader_walk_ip link (frame_bytes frame)) as [[header|]|e|] eqn:Ei; cbn [map_err]; try done.
  rewrite Ok_bind. cbn [ok_or]. rewrite Ok_bind. cbn in Hi. specialize (Hi header eq_refl).
  rewrite index_range_ok by lia. rewrite Ok_bind.
  rewrite zslice_end, Hrest by lia.
  apply safe_bind. eapply safe_mono; [apply network_spec; [by apply octets_zdrop|done|done|rewrite zlen_zdrop; lia]|].
  intros ip' Hip. destruct (_ && _); [done|]. cbn [safe]. set (data' := ztake new data ++ ip').
  pose proof (ir_len _ _ _ _ Hip) as Lip. rewrite zlen_zdrop in Lip.
  assert (zlen (ztake new data) = new) as Lt by (rewrite zlen_ztake; lia).
  assert (zlen data' = zlen data) as L' by (unfold data'; rewrite zlen_app; lia). split; [done|].
  assert (zdrop new data' = ip') as Hd'.
  { apply zget_ext. intros i Hi0. unfold data'. rewrite zget_zdrop, zget_app, Lt, (proj2 (Z.ltb_ge _ _)) by lia. f_equal. lia. }
  intros out El Eb ????. destruct (Hlink data') as (link' & Hw' & Hr & Hn); [lia|..].
  { intros i Hi0. unfold data'. rewrite zget_app, Lt, (proj2 (Z.ltb_lt _ _)), zget_ztake, (proj2 (Z.ltb_lt _ _)) by lia. done. }
  split; [|by rewrite Eb|done]. exists link, link'. rewrite En, El, Eb. split_and!; try done. cbv zeta. exists header.
  rewrite Hn, Hd'. split; [done|]. split; [|done]. destruct (LinkHeader_walk_ip_inv _ _ _ Ei) as (_ & Hwalk & _).
  destruct (IpHeader_walk_same patch header _ ip' (octets_zdrop _ _ Ho) Hwalk Hip) as [Hwalk' Hh].
  apply (LinkHeader_walk_ip_moved patch link link' (frame_bytes frame)); try done; rewrite Hn, ?Hd'; [lia|done|done].
Qed.

Lemma validate_vlans patch : safe (HeaderRewrite_validate patch) (fun _ => patch_ok patch -> vlans_valid patch).
Proof.
  unfold HeaderRewrite_validate, vlans_valid. apply safe_bind.
  apply (safe_mono _ (fun _ => from_option (fun tags => zlen tags <= MAX_VLAN_DEPTH /\ check_tags tags = Ok tt) True (vlans patch))).
  2:{ intros _ H. destruct (source_ip patch), (destination_ip patch); try (intros _; exact H). destruct (negb _); [exact I|intros _; exact H]. }
  destruct (vlans patch) as [tags|]; [|done]. destruct (Z.ltb_spec MAX_VLAN_DEPTH (zlen tags)); [done|].
  assert (forall tags, check_tags tags <> Panic) as Hnp.
  { clear. induction tags as [|r tags IH]; [done|]. cbn. apply bind_not_Panic; [|done].
    unfold VlanRewrite_tci. apply bind_not_Panic; [apply ok_or_not_Panic|done]. }
  specialize (Hnp tags). cbn [from_option]. destruct (check_tags tags) as [[]|e|]; cbn [safe]; [by split|exact I|by apply Hnp].
Qed.

Lemma rewrite_spec frame patch limits :
  octets (frame_bytes frame) -> zlen (frame_bytes frame) <= u32_max -> patch_ok patch ->
  safe (rewrite frame patch limits) (fun out => zlen (frame_bytes out) <= rl_max_output_bytes limits /\
    if HeaderRewrite_is_empty patch then out = frame else frame_rewritten frame patch out).
Proof.
  intros Ho Hl Hp. unfold rewrite. apply safe_bind. eapply safe_mono; [apply validate_vlans|]. intros ? Hv. specialize (Hv Hp). cbv zeta.
  destruct (Z.ltb_spec (rl_max_output_bytes limits) (zlen (frame_bytes frame))); [done|].
  destruct (HeaderRewrite_is_empty patch); [done|]. destruct (negb _); [done|].
  fold (link_edits patch). destruct (link_edits patch && _) eqn:Eed; [done|].
  pose proof (LinkHeader_walk_spec (link_type frame) (frame_bytes frame)) as Hoff.
  destruct (LinkHeader_walk (link_type frame) (frame_bytes frame)) as [[link|]|e|] eqn:Ew; cbn [map_err]; try done.
  rewrite Ok_bind. cbn [ok_or]. rewrite Ok_bind. cbn in Hoff. specialize (Hoff link eq_refl).
  assert (match vlans patch with Some tags => ETHERNET_LENGTH + VLAN_TAG_LENGTH * zlen tags | None => network_offset link end
    = rewritten_offset patch link) as -> by done.
  rewrite checked_sub_ok by lia. apply safe_bind, safe_ok_or. intros len Hlen. cbn in Hlen.
  destruct (checked_add _ _ _) as [n|] eqn:En; [|done]. apply checked_add_Some in En as [-> _]. cbn in Hlen.
  destruct (Z.leb_spec (zlen (frame_bytes frame) - network_offset link + rewritten_offset patch link) (rl_max_output_bytes limits)); [|done].
  destruct (link_bytes_spec frame patch link Ho Hp Hv Ew Eed) as (data & Hlb & Hlw). unfold link_bytes in Hlb.
  inv_ok Hlb. rewrite Ha, Ok_bind. rewrite index_range_ok by lia. rewrite Ok_bind.
  rewrite zslice_end by lia.
  inv_ok Hlb. rewrite Ha0, Ok_bind, Hlb, Ok_bind. apply safe_bind. eapply safe_mono; [by apply rewrite_network_spec|].
  intros data' [L' Hout]. apply safe_bind. pose proof (Frame_new_ok None (link_type frame) data') as Hf.
  assert (@Frame_new None (link_type frame) data' <> Panic) as Hnp.
  { unfold Frame_new. destruct (_ <=? _); cbn [ok_or]; [rewrite Ok_bind|done]. unfold try_with_optional_timestamp. by repeat case_match. }
  destruct (Frame_new None (link_type frame) data') as [f| |]; [|done|done]. destruct (proj1 (Hf f) eq_refl) as [_ ->]. cbn.
  destruct Hlw as (_ & _ & Ld & _). split; [lia|]. by apply Hout.
Qed.

(** ** Theorems *)

(** C9: rewriting never panics; what it returns fits the output limit, and an
    empty request returns the frame itself.  Any other request yields a complete
    frame with the same capture identity whose link header parses to the old one
    with the requested addresses and VLAN stack, and whose IP bytes are the old
    ones or, when network fields are requested, parse to the same IP header with
    the requested addresses and ports, with the IPv4 header checksum and the
    transport checksum valid (a disabled IPv4 UDP checksum stays disabled) and
    every byte outside of those fields unchanged. *)
Theorem rewrite_exact (frame : Frame) (patch : HeaderRewrite) (limits : RewriteLimits) :
  octets (frame_bytes frame) -> zlen (frame_bytes frame) <= u32_max -> patch_ok patch ->
  rewrite frame patch limits <> Panic /\
  forall out, rewrite frame patch limits = Ok out ->
    zlen (frame_bytes out) <= rl_max_output_bytes limits /\
    if HeaderRewrite_is_empty patch then out = frame else frame_rewritten frame patch out.
Proof. intros. by apply safe_iff, rewrite_spec. Qed.

(** An IPv4 UDP datagram in an untagged Ethernet frame. *)
Definition sample_udp : Frame :=
  let data := [2; 0; 0; 0; 0; 1; 2; 0; 0; 0; 0; 2; 8; 0] ++
    [69; 0; 0; 32; 18; 52; 0; 0; 64; 17; 0; 0; 10; 0; 0; 1; 10; 0; 0; 2] ++
    [0; 53; 48; 57; 0; 12; 255; 255; 1; 2; 3; 4] in
  mkFrame (Some 1700000000000000000) (zlen data) (zlen data) 1 (Some 3) (Some Inbound) data.

Definition sample_patch : HeaderRewrite :=
  mkHeaderRewrite (Some [2; 0; 0; 0; 0; 9]) None (Some (V4 3232235777)) None None (Some 5353)
    (Some [mkVlanRewrite 33024 100 3 true]).

Lemma rewrite_exact_witness :
  exists out, rewrite sample_udp sample_patch RewriteLimits_default = Ok out /\ frame_rewritten sample_udp sample_patch out.
Proof.
  assert (patch_ok sample_patch) as Hp.
  { split; cbn [from_option source_mac destination_mac source_ip destination_ip hr_source_port hr_destination_port vlans sample_patch]; try exact I.
    - split; [by repeat constructor|done].
    - split; [lia|done].
    - split; unfold u16_max; lia.
    - constructor; [|constructor]. unfold vlan_ok. cbn. unfold u16_max. lia. }
  destruct (rewrite_exact sample_udp sample_patch RewriteLimits_default) as [_ H]; [by repeat constructor|by vm_compute|exact Hp|].
  destruct (rewrite sample_udp sample_patch RewriteLimits_default) as [out|e|] eqn:E; [|by vm_compute in E..].
  exists out. split; [done|]. exact (proj2 (H out eq_refl)).
Defined.
