(* ===== verification/AddressMap.v ===== *)
(** * Address maps

    [transform/address_map.rs]: many-to-many remapping of IP prefixes and Ethernet
    addresses through the header rewrite.  The textual form of a mapping is left
    out; [IpMapping_from_sides] is its validation once both sides are parsed. *)

From stdpp Require Import base tactics option list numbers strings gmap sorting.
From Stdlib Require Import ZArith Lia.
From S2P Require Import Prelude Checksum Ordered Flow Headers Frame Transform Rewrite.

(** ** 128-bit words *)

Definition u128_max : Z := 340282366920938463463374607431768211455.

Definition not128 (x : Z) : Z := Z.lxor x u128_max.

(** ** Mappings *)

Definition MAX_ADDRESS_MAP_ENTRIES : Z := 4096.

Record IpMapping : Type := mkIpMapping {
  map_old : IpAddr;
  map_new : IpAddr;
  prefix_length : Z
}.

Definition IpMapping_bits (m : IpMapping) : Z := if is_ipv4 (map_old m) then 32 else 128.

Definition numeric (a : IpAddr) : Z := match a with V4 x => x | V6 x => x end.

(** [u32::try_from(value).unwrap_or_default()] on the IPv4 side. *)
Definition address (value : Z) (ipv4 : bool) : IpAddr :=
  if ipv4 then V4 (if value <=? u32_max then value else 0) else V6 value.

(** [checked_shr] fails at the width of [u128]. *)
Definition mask (length bits : Z) : Z :=
  let width := if bits =? 32 then u32_max else u128_max in
  Z.land width (not128 (if length <? 128 then Z.shiftr width length else 0)).

(** [IpMapping::from_str] after both sides are parsed. *)
Definition IpMapping_from_sides (old : IpAddr) (old_length : Z) (new : IpAddr) (new_length : Z)
  : outcome TransformError IpMapping :=
  if negb (Bool.eqb (is_ipv4 old) (is_ipv4 new)) then Err (TInvalid InvAddressMapFamilies) else
  if negb (old_length =? new_length) then Err (TInvalid InvAddressMapPrefix) else
  let mapping := mkIpMapping old new old_length in
  let host := not128 (mask (prefix_length mapping) (IpMapping_bits mapping)) in
  if negb (Z.land (numeric old) host =? 0) || negb (Z.land (numeric new) host =? 0)
  then Err (TInvalid InvAddressMapHostBits) else Ok mapping.

(** An Ethernet address is its six octets. *)
Record MacMapping : Type := mkMacMapping {
  mac_old : bytes;
  mac_new : bytes
}.

(** ** Prefix tables *)

Record PrefixTable : Type := mkPrefixTable {
  pt_ipv4 : bool;
  by_length : list (Z * gmap Z Z)
}.

(** The table of the mapping's length, or a new one at the end. *)
Fixpoint insert_length (tables : list (Z * gmap Z Z)) (length old new : Z) : list (Z * gmap Z Z) :=
  match tables with
  | [] => [(length, {[old := new]})]
  | (l, table) :: rest =>
      if l =? length then (l, <[old := new]> table) :: rest else (l, table) :: insert_length rest length old new
  end.

Definition PrefixTable_insert (t : PrefixTable) (m : IpMapping) : PrefixTable :=
  mkPrefixTable (pt_ipv4 t) (insert_length (by_length t) (prefix_length m) (numeric (map_old m)) (numeric (map_new m))).

(** [find_map]. *)
Fixpoint lookup_lengths (tables : list (Z * gmap Z Z)) (ipv4 : bool) (value : Z) : option IpAddr :=
  match tables with
  | [] => None
  | (length, table) :: rest =>
      let network := mask length (if ipv4 then 32 else 128) in
      match table !! Z.land value network with
      | Some new => Some (address (Z.lor new (Z.land value (not128 network))) ipv4)
      | None => lookup_lengths rest ipv4 value
      end
  end.

Definition PrefixTable_lookup (t : PrefixTable) (value : Z) : option IpAddr :=
  lookup_lengths (by_length t) (pt_ipv4 t) value.

(** ** The map *)

Record AddressMap : Type := mkAddressMap {
  am_ipv4 : PrefixTable;
  am_ipv6 : PrefixTable;
  am_macs : gmap bytes bytes
}.

Definition AddressMap_empty : AddressMap := mkAddressMap (mkPrefixTable true []) (mkPrefixTable false []) ∅.

Definition overlaps (earlier mapping : IpMapping) : bool :=
  Bool.eqb (is_ipv4 (map_old earlier)) (is_ipv4 (map_old mapping)) &&
  let network := mask (Z.min (prefix_length earlier) (prefix_length mapping)) (IpMapping_bits mapping) in
  Z.land (numeric (map_old earlier)) network =? Z.land (numeric (map_old mapping)) network.

(** The loop over the IP mappings; [earlier] is [ips[..index]]. *)
Fixpoint insert_ips (earlier ips : list IpMapping) (map : AddressMap) : outcome TransformError AddressMap :=
  match ips with
  | [] => Ok map
  | mapping :: rest =>
      if existsb (fun e => overlaps e mapping) earlier then Err (TInvalid InvAddressMapOverlap) else
      insert_ips (earlier ++ [mapping]) rest
        (if is_ipv4 (map_old mapping)
         then mkAddressMap (PrefixTable_insert (am_ipv4 map) mapping) (am_ipv6 map) (am_macs map)
         else mkAddressMap (am_ipv4 map) (PrefixTable_insert (am_ipv6 map) mapping) (am_macs map))
  end.

Fixpoint insert_macs (macs : list MacMapping) (table : gmap bytes bytes) : outcome TransformError (gmap bytes bytes) :=
  match macs with
  | [] => Ok table
  | mapping :: rest =>
      if is_some (table !! mac_old mapping) then Err (TInvalid InvAddressMapOverlap)
      else insert_macs rest (<[mac_old mapping := mac_new mapping]> table)
  end.

(** Longest prefixes first.  The lengths are distinct, so the order an unstable
    sort leaves equal keys in does not arise. *)
Definition longer (a b : Z * gmap Z Z) : Prop := b.1 <= a.1.

#[export] Instance longer_dec : RelDecision longer.
Proof. intros a b. unfold longer. apply _. Defined.

Definition sort_lengths (t : PrefixTable) : PrefixTable :=
  mkPrefixTable (pt_ipv4 t) (merge_sort longer (by_length t)).

Definition AddressMap_new (ips : list IpMapping) (macs : list MacMapping) : outcome TransformError AddressMap :=
  if MAX_ADDRESS_MAP_ENTRIES <? saturating_add usize_max (zlen ips) (zlen macs)
  then Err (TLimit LimAddressMapEntries MAX_ADDRESS_MAP_ENTRIES) else
  map ← insert_ips [] ips AddressMap_empty;
  table ← insert_macs macs (am_macs map);
  Ok (mkAddressMap (sort_lengths (am_ipv4 map)) (sort_lengths (am_ipv6 map)) table).

(** ** Applying the map *)

(** The bytes from the outer IP header on. *)
Definition outer_ip (frame : Frame) : outcome TransformError (option bytes) :=
  match LinkHeader_walk (link_type frame) (frame_bytes frame) with
  | Panic => Panic
  | Err _ | Ok None => Ok None
  | Ok (Some link) =>
      Ok (if negb (carries_ip link) then None else
          ip ← get_from (frame_bytes frame) (network_offset link);
          first ← head ip;
          let version := Z.shiftr first 4 in
          if match announced_ip_version link with Some announced => announced =? version | None => true end
          then Some ip else None)
  end.

(** [read]: the bytes shifted into a [u128]. *)
Definition read_u128 (ip : bytes) (first last : Z) : outcome TransformError Z :=
  range ← index_range ip first last;
  Ok (foldl (fun value byte => Z.lor (Z.land (Z.shiftl value 8) u128_max) byte) 0 range).

(** The Ethernet part of the request. *)
Definition mac_patch (map : AddressMap) (frame : Frame) : outcome TransformError (option bytes * option bytes) :=
  if (link_type frame =? 1) && (12 <=? zlen (frame_bytes frame))
  then destination ← index_range (frame_bytes frame) 0 6;
       source ← index_range (frame_bytes frame) 6 12;
       Ok (am_macs map !! (source : bytes), am_macs map !! (destination : bytes))
  else Ok (None, None).

Definition AddressMap_apply (map : AddressMap) (frame : Frame) (limits : RewriteLimits) : outcome TransformError Frame :=
  '(source_mac, destination_mac) ← mac_patch map frame;
  let patch := mkHeaderRewrite source_mac destination_mac None None None None None in
  ip ← outer_ip frame;
  match ip with
  | None => rewrite frame patch limits
  | Some ip =>
      first ← index ip 0;
      let version := Z.shiftr first 4 in
      let fields :=
        if (version =? 4) && (IPV4_MIN_LENGTH <=? zlen ip) then Some (am_ipv4 map, (12, 16), (16, 20))
        else if (version =? 6) && (IPV6_LENGTH <=? zlen ip) then Some (am_ipv6 map, (8, 24), (24, 40))
        else None in
      match fields with
      | None => rewrite frame patch limits
      | Some (table, source, destination) =>
          source ← read_u128 ip source.1 source.2;
          destination ← read_u128 ip destination.1 destination.2;
          rewrite frame (mkHeaderRewrite source_mac destination_mac (PrefixTable_lookup table source)
            (PrefixTable_lookup table destination) None None None) limits
      end
  end.
