(* ===== verification/AddressMapProofs.v ===== *)
(** * Theorems on address maps

    The prefix tables against a reference that scans the mappings, and what
    applying a map does to a frame. *)

From stdpp Require Import base tactics option list numbers strings gmap sorting.
From Stdlib Require Import ZArith Lia.
From S2P Require Import Prelude Checksum Ordered Flow Headers HeadersProofs Frame Transform Fragmenter Rewrite AddressMap.
From S2P Require Import IpRanges IpRebuild FragmenterProofs FragmenterIpv6 FragmenterTheorems TransformProofs RewriteNetwork RewriteProofs.

(** ** Masks *)

Section masks.
Context (bits : Z) (Hbits : bits = 32 \/ bits = 128).

Lemma width_ones : (if bits =? 32 then u32_max else u128_max) = Z.ones bits.
Proof using Hbits. by destruct Hbits as [-> | ->]. Qed.

(** The bits of a mask are the leading [length] of [bits]. *)
Lemma mask_bits length i :
  0 <= length <= bits -> 0 <= i -> Z.testbit (mask length bits) i = (bits - length <=? i) && (i <? bits).
Proof using Hbits.
  intros Hl Hi. unfold mask, not128. rewrite width_ones. change u128_max with (Z.ones 128).
  assert ((if length <? 128 then Z.shiftr (Z.ones bits) length else 0) = Z.ones (bits - length)) as ->.
  { destruct (Z.ltb_spec length 128).
    - apply Z.bits_inj'. intros j Hj. rewrite Z.shiftr_spec, !Z.testbit_ones_nonneg by lia. apply eq_true_iff_eq. rewrite !Z.ltb_lt. lia.
    - assert (length = bits) as -> by lia. by rewrite Z.sub_diag. }
  rewrite Z.land_spec, Z.lxor_spec, !Z.testbit_ones_nonneg by lia.
  destruct (Z.ltb_spec i bits), (Z.ltb_spec i (bits - length)), (Z.leb_spec (bits - length) i), (Z.ltb_spec i 128); try done; lia.
Qed.

Lemma above_bits x i : 0 <= x < 2 ^ bits -> bits <= i -> Z.testbit x i = false.
Proof using Hbits.
  intros Hx Hi. destruct (Z.eq_dec x 0) as [->|]; [apply Z.bits_0|].
  apply Z.bits_above_log2; [lia|]. apply Z.log2_lt_pow2; [lia|]. apply Z.lt_le_trans with (2 ^ bits); [lia|]. apply Z.pow_le_mono_r; lia.
Qed.

(** The network part of an address. *)
Lemma land_mask x length :
  0 <= length <= bits -> 0 <= x < 2 ^ bits -> Z.land x (mask length bits) = x / 2 ^ (bits - length) * 2 ^ (bits - length).
Proof using Hbits.
  intros Hl Hx. rewrite <-Z.shiftr_div_pow2, <-Z.shiftl_mul_pow2 by lia. apply Z.bits_inj'. intros i Hi.
  rewrite Z.land_spec, mask_bits by lia. destruct (Z.leb_spec (bits - length) i); cbn.
  - rewrite Z.shiftl_spec, Z.shiftr_spec by lia. replace (i - (bits - length) + (bits - length)) with i by lia.
    destruct (Z.ltb_spec i bits); [by rewrite andb_true_r|]. rewrite andb_false_r. symmetry. by apply above_bits.
  - rewrite Z.shiftl_spec_low by lia. apply andb_false_r.
Qed.

(** The host part of an address. *)
Lemma land_host x length :
  0 <= length <= bits -> 0 <= x < 2 ^ bits -> Z.land x (not128 (mask length bits)) = x mod 2 ^ (bits - length).
Proof using Hbits.
  intros Hl Hx. rewrite <-Z.land_ones by lia. unfold not128. change u128_max with (Z.ones 128).
  apply Z.bits_inj'. intros i Hi. rewrite !Z.land_spec, Z.lxor_spec, mask_bits, !Z.testbit_ones_nonneg by lia.
  destruct (Z.ltb_spec i bits); [|by rewrite above_bits].
  destruct (Z.leb_spec (bits - length) i), (Z.ltb_spec i (bits - length)), (Z.ltb_spec i 128); try done; lia.
Qed.
End masks.

(** ** The reference *)

Definition bits_of (a : IpAddr) : Z := if is_ipv4 a then 32 else 128.

Definition host_bits (m : IpMapping) : Z := bits_of (map_old m) - prefix_length m.

(** A mapping of two prefixes of one family and length. *)
Record mapping_ok (m : IpMapping) : Prop := {
  mo_family : is_ipv4 (map_new m) = is_ipv4 (map_old m);
  mo_length : 0 <= prefix_length m <= bits_of (map_old m);
  mo_old : address_ok (map_old m);
  mo_new : address_ok (map_new m);
  mo_old_host : numeric (map_old m) mod 2 ^ host_bits m = 0;
  mo_new_host : numeric (map_new m) mod 2 ^ host_bits m = 0
}.

(** [a] lies in the mapping's old prefix. *)
Definition covers (m : IpMapping) (a : IpAddr) : Prop :=
  is_ipv4 a = is_ipv4 (map_old m) /\ numeric a / 2 ^ host_bits m = numeric (map_old m) / 2 ^ host_bits m.

#[export] Instance covers_dec m a : Decision (covers m a).
Proof. unfold covers. apply _. Defined.

(** The new prefix with the host bits of [a]. *)
Definition remapped (m : IpMapping) (a : IpAddr) : IpAddr :=
  let x := numeric (map_new m) + numeric a mod 2 ^ host_bits m in
  if is_ipv4 (map_old m) then V4 x else V6 x.

(** The first mapping that covers [a]. *)
Definition reference_lookup (ips : list IpMapping) (a : IpAddr) : option IpAddr :=
  match filter (fun m => covers m a) ips with m :: _ => Some (remapped m a) | [] => None end.

(** No address lies in two of the old prefixes. *)
Definition disjoint_prefixes (ips : list IpMapping) : Prop :=
  forall i j m m', i <> j -> ips !! i = Some m -> ips !! j = Some m' -> forall a, ~ (covers m a /\ covers m' a).

Lemma address_range a : address_ok a -> 0 <= numeric a < 2 ^ bits_of a.
Proof. by destruct a. Qed.

Lemma bits_cases a : bits_of a = 32 \/ bits_of a = 128.
Proof. unfold bits_of. destruct (is_ipv4 a); auto. Qed.

Lemma numeric_inj a b : is_ipv4 a = is_ipv4 b -> numeric a = numeric b -> a = b.
Proof. by destruct a, b; cbn; intros ? ->. Qed.

Lemma IpMapping_from_sides_ok old old_length new new_length m :
  address_ok old -> address_ok new -> 0 <= old_length <= bits_of old ->
  IpMapping_from_sides old old_length new new_length = Ok m -> mapping_ok m.
Proof.
  intros Ho Hn Hl. unfold IpMapping_from_sides. destruct (Bool.eqb_spec (is_ipv4 old) (is_ipv4 new)) as [Hf|]; [|done]. cbn [negb].
  destruct (negb _); [done|]. cbv zeta. cbn [prefix_length]. change (IpMapping_bits (mkIpMapping old new old_length)) with (bits_of old).
  assert (bits_of new = bits_of old) as Hb by (unfold bits_of; by rewrite Hf).
  rewrite !(land_host (bits_of old) (bits_cases old)) by (try apply address_range; rewrite <-?Hb; try apply address_range; done || lia).
  destruct (Z.eqb_spec (numeric old mod 2 ^ (bits_of old - old_length)) 0); [|done].
  destruct (Z.eqb_spec (numeric new mod 2 ^ (bits_of old - old_length)) 0); [|done]. intros [= <-]. by split.
Qed.

(** ** Overlap *)

Lemma div_coarser x y k K : 0 <= k <= K -> x / 2 ^ k = y / 2 ^ k -> x / 2 ^ K = y / 2 ^ K.
Proof.
  intros Hk H. replace K with (k + (K - k)) by lia. rewrite Z.pow_add_r by lia.
  pose proof (Z.pow_pos_nonneg 2 k ltac:(lia) ltac:(lia)). pose proof (Z.pow_pos_nonneg 2 (K - k) ltac:(lia) ltac:(lia)).
  by rewrite <-!Z.div_div, H by lia.
Qed.

(** The check compares the prefixes at the shorter length. *)
Lemma overlaps_spec e m :
  mapping_ok e -> mapping_ok m -> overlaps e m = true <-> exists a, covers e a /\ covers m a.
Proof.
  intros He Hm. unfold overlaps. change (IpMapping_bits m) with (bits_of (map_old m)). unfold covers, host_bits.
  destruct (Bool.eqb_spec (is_ipv4 (map_old e)) (is_ipv4 (map_old m))) as [Hf|Hf]; cbn [andb].
  2:{ split; [done|]. intros (a & [Ha _] & [Hb _]). congruence. }
  assert (bits_of (map_old e) = bits_of (map_old m)) as Hb by (unfold bits_of; by rewrite Hf).
  pose proof (mo_length e He) as Hle. pose proof (mo_length m Hm) as Hlm. rewrite Hb in *.
  set (B := bits_of (map_old m)) in *. set (s := Z.min (prefix_length e) (prefix_length m)).
  pose proof (Z.pow_pos_nonneg 2 (B - s) ltac:(lia) ltac:(lia)) as Hpos.
  pose proof (address_range _ (mo_old e He)) as Re. pose proof (address_range _ (mo_old m Hm)) as Rm. rewrite Hb in Re. fold B in Rm.
  rewrite !(land_mask B (bits_cases _)) by (done || lia).
  rewrite Z.eqb_eq. split.
  - intros E%Z.mul_reg_r; [|lia]. destruct (Z.le_ge_cases (prefix_length e) (prefix_length m)).
    + exists (map_old m). split; [|done]. split; [done|]. replace (prefix_length e) with s by lia. done.
    + exists (map_old e). split; [done|]. split; [done|]. replace (prefix_length m) with s by lia. done.
  - intros (a & [_ Ha] & [_ Hb']). f_equal.
    rewrite <-(div_coarser (numeric a) (numeric (map_old e)) (B - prefix_length e)) by (done || lia).
    by apply (div_coarser _ _ (B - prefix_length m)); [lia|].
Qed.

Lemma disjoint_snoc earlier m rest :
  Forall mapping_ok (earlier ++ m :: rest) -> disjoint_prefixes earlier ->
  if existsb (fun e => overlaps e m) earlier then ~ disjoint_prefixes (earlier ++ m :: rest) else disjoint_prefixes (earlier ++ [m]).
Proof.
  intros [Hok Hr]%Forall_app Hd. apply Forall_cons_1 in Hr as [Hm _].
  destruct (existsb _ _) eqn:E.
  - apply existsb_exists in E as (e & Hin%list_elem_of_In & Ho). intros Hdis.
    apply overlaps_spec in Ho as (a & Ha & Hb); [|by eapply Forall_forall in Hok|done].
    apply list_elem_of_lookup in Hin as [i Hi]. pose proof (lookup_lt_Some _ _ _ Hi).
    apply (Hdis i (length earlier) e m ltac:(lia) ltac:(by apply lookup_app_l_Some) ltac:(by apply list_lookup_middle) a). done.
  - assert (forall e, e ∈ earlier -> forall a, ~ (covers e a /\ covers m a)) as Hno.
    { intros e Hin a Hab. rewrite <-not_true_iff_false in E. apply E, existsb_exists. exists e. split; [by apply list_elem_of_In|].
      apply overlaps_spec; [by eapply Forall_forall in Hok|done|by exists a]. }
    intros i j x y Hij Hx Hy a [Hxa Hya].
    apply lookup_snoc_Some in Hx as [[Hi Hx]|[-> <-]], Hy as [[Hj Hy]|[-> <-]]; [by eapply Hd|..|done].
    + by eapply Hno; [eapply list_elem_of_lookup_2|].
    + by eapply (Hno y); [eapply list_elem_of_lookup_2|].
Qed.

(** ** Prefix tables *)

(** An entry of the tables by length. *)
Definition entry (l : list (Z * gmap Z Z)) (length old new : Z) : Prop :=
  exists table, (length, table) ∈ l /\ table !! old = Some new.

Lemma insert_length_keys l len old new k : k ∈ (insert_length l len old new).*1 <-> k = len \/ k ∈ l.*1.
Proof.
  induction l as [|[k' t] l IH]; cbn; [set_solver|]. destruct (Z.eqb_spec k' len) as [->|]; cbn; [set_solver|].
  rewrite !elem_of_cons, IH. tauto.
Qed.

Lemma insert_length_NoDup l len old new : NoDup l.*1 -> NoDup (insert_length l len old new).*1.
Proof.
  induction l as [|[k t] l IH]; cbn; intros Hn; [by apply NoDup_singleton|]. apply NoDup_cons in Hn as [Hk Hn].
  destruct (Z.eqb_spec k len) as [->|]; cbn; apply NoDup_cons; [done|]. split; [|by apply IH].
  rewrite insert_length_keys. intros [->|?]; done.
Qed.

Lemma entry_cons k t l len old new : entry ((k, t) :: l) len old new <-> k = len /\ t !! old = Some new \/ entry l len old new.
Proof. unfold entry. setoid_rewrite elem_of_cons. naive_solver. Qed.

Lemma entry_key l len old new : entry l len old new -> len ∈ l.*1.
Proof. intros (t & Hin & _). apply list_elem_of_fmap. by exists (len, t). Qed.

Lemma insert_length_entry l len old new len' old' new' :
  NoDup l.*1 -> (forall x, ~ entry l len old x) ->
  entry (insert_length l len old new) len' old' new' <-> (len' = len /\ old' = old /\ new' = new) \/ entry l len' old' new'.
Proof.
  induction l as [|[k t] l IH]; cbn; intros Hn Hno.
  { rewrite entry_cons, lookup_singleton_Some. unfold entry. set_solver. }
  apply NoDup_cons in Hn as [Hk Hn]. destruct (Z.eqb_spec k len) as [->|Hkl]; rewrite !entry_cons.
  - rewrite lookup_insert_Some. split; [naive_solver|]. intros [(-> & -> & ->)|[[-> Ht]|?]]; [naive_solver| |naive_solver].
    left. split; [done|]. destruct (decide (old = old')) as [->|]; [|naive_solver]. exfalso. apply (Hno new'). rewrite entry_cons. naive_solver.
  - rewrite IH; [naive_solver|done|]. intros x Hx. apply (Hno x). rewrite entry_cons. naive_solver.
Qed.

(** The table [t] holds the mappings [ms]. *)
Definition holds (t : PrefixTable) (ms : list IpMapping) : Prop :=
  NoDup (by_length t).*1 /\
  forall len old new, entry (by_length t) len old new <->
    exists m, m ∈ ms /\ prefix_length m = len /\ numeric (map_old m) = old /\ numeric (map_new m) = new.

Lemma holds_insert t ms m :
  holds t ms -> (forall m', m' ∈ ms -> prefix_length m' = prefix_length m -> numeric (map_old m') <> numeric (map_old m)) ->
  holds (PrefixTable_insert t m) (ms ++ [m]).
Proof.
  intros [Hn He] Hno. split; [by apply insert_length_NoDup|]. intros len old new. cbn [PrefixTable_insert by_length].
  rewrite insert_length_entry; [|done|].
  - rewrite He. setoid_rewrite elem_of_app. setoid_rewrite list_elem_of_singleton. split.
    + intros [(-> & -> & ->)|(m' & Hin & H)]; [exists m|exists m']; auto.
    + intros (m' & [Hin | ->] & Hl & Ho & Hw); [right; by exists m'|by left].
  - intros x (m' & Hin & Hl & Ho & _)%He. by apply (Hno m').
Qed.

Lemma holds_sort t ms : holds t ms -> holds (sort_lengths t) ms.
Proof.
  intros [Hn He]. pose proof (merge_sort_Permutation longer (by_length t)) as Hp. split; cbn [sort_lengths by_length].
  - by rewrite Hp.
  - intros len old new. rewrite <-He. unfold entry. by setoid_rewrite Hp.
Qed.

(** The first entry that matches, in any order of the lengths. *)
Lemma lookup_lengths_Some l ipv4 v r :
  lookup_lengths l ipv4 v = Some r -> exists len new,
    entry l len (Z.land v (mask len (if ipv4 then 32 else 128))) new /\
    r = address (Z.lor new (Z.land v (not128 (mask len (if ipv4 then 32 else 128))))) ipv4.
Proof.
  induction l as [|[k t] l IH]; cbn; [done|]. destruct (t !! _) as [new|] eqn:E.
  - intros [= <-]. exists k, new. split; [|done]. rewrite entry_cons. by left.
  - intros (len & new & He & ->)%IH. exists len, new. split; [|done]. rewrite entry_cons. by right.
Qed.

Lemma lookup_lengths_None l ipv4 v len new :
  lookup_lengths l ipv4 v = None -> ~ entry l len (Z.land v (mask len (if ipv4 then 32 else 128))) new.
Proof.
  induction l as [|[k t] l IH]; cbn; [by intros _ (? & ?%elem_of_nil & _)|].
  destruct (t !! _) as [x|] eqn:E; [done|]. intros Hl [[-> Ht]|He]%entry_cons; [congruence|by apply IH].
Qed.

(** ** Looking up *)

Lemma multiple_of_mod x k : 0 <= k -> x mod 2 ^ k = 0 -> x / 2 ^ k * 2 ^ k = x.
Proof. intros Hk Hm. pose proof (Z.pow_pos_nonneg 2 k ltac:(lia) Hk). pose proof (Z.div_mod x (2 ^ k) ltac:(lia)). lia. Qed.

(** The masked address is the old prefix exactly when it is covered. *)
Lemma masked_covers m a :
  mapping_ok m -> address_ok a -> is_ipv4 a = is_ipv4 (map_old m) ->
  Z.land (numeric a) (mask (prefix_length m) (bits_of a)) = numeric (map_old m) <-> covers m a.
Proof.
  intros Hm Ha Hf. assert (bits_of a = bits_of (map_old m)) as Hb by (unfold bits_of; by rewrite Hf).
  pose proof (mo_length m Hm) as Hl. pose proof (address_range a Ha) as Ra. unfold covers.
  rewrite (land_mask _ (bits_cases a)) by (done || lia). rewrite Hb. fold (host_bits m).
  assert (0 <= host_bits m) as Hk by (unfold host_bits; lia). pose proof (Z.pow_pos_nonneg 2 (host_bits m) ltac:(lia) Hk).
  rewrite <-(multiple_of_mod (numeric (map_old m)) (host_bits m)) at 1 by (done || apply Hm).
  split; [|intros [_ ->]; done]. intros E%Z.mul_reg_r; [done|lia].
Qed.

Lemma lor_disjoint x y k : 0 <= k -> x mod 2 ^ k = 0 -> 0 <= y < 2 ^ k -> Z.lor x y = x + y.
Proof.
  intros Hk Hx Hy. pose proof (Z.add_lor_land x y) as Hadd. enough (Z.land x y = 0) by lia.
  rewrite <-(Z.mod_small y (2 ^ k)), <-Z.land_ones, (Z.land_comm y), Z.land_assoc, Z.land_ones, Hx by lia. done.
Qed.

Lemma remapped_spec m a :
  mapping_ok m -> address_ok a -> is_ipv4 a = is_ipv4 (map_old m) ->
  address (Z.lor (numeric (map_new m)) (Z.land (numeric a) (not128 (mask (prefix_length m) (bits_of a))))) (is_ipv4 a) = remapped m a /\
  address_ok (remapped m a).
Proof.
  intros Hm Ha Hf. assert (bits_of a = bits_of (map_old m)) as Hb by (unfold bits_of; by rewrite Hf).
  assert (bits_of (map_new m) = bits_of (map_old m)) as Hbn by (unfold bits_of; by rewrite (mo_family m Hm)).
  pose proof (mo_length m Hm) as Hl. pose proof (address_range a Ha) as Ra. pose proof (address_range _ (mo_new m Hm)) as Rn. rewrite Hbn in Rn.
  rewrite (land_host _ (bits_cases a)) by (done || lia). rewrite Hb. fold (host_bits m).
  assert (0 <= host_bits m <= bits_of (map_old m)) as Hk by (unfold host_bits; lia). pose proof (Z.pow_pos_nonneg 2 (host_bits m) ltac:(lia) ltac:(lia)).
  pose proof (Z.mod_pos_bound (numeric a) (2 ^ host_bits m) ltac:(lia)) as Hmod.
  rewrite (lor_disjoint _ _ (host_bits m)) by (apply Hm || lia). unfold remapped. cbv zeta. rewrite Hf.
  set (x := numeric (map_new m) + _). assert (0 <= x < 2 ^ bits_of (map_old m)) as Hx.
  { unfold x. pose proof (multiple_of_mod (numeric (map_new m)) (host_bits m) ltac:(lia) (mo_new_host m Hm)) as Emul.
    set (q := numeric (map_new m) / 2 ^ host_bits m) in *.
    assert (2 ^ bits_of (map_old m) = 2 ^ (bits_of (map_old m) - host_bits m) * 2 ^ host_bits m) as E.
    { rewrite <-Z.pow_add_r by lia. f_equal. lia. }
    assert (q < 2 ^ (bits_of (map_old m) - host_bits m)) by nia. nia. }
  clearbody x. unfold bits_of in Hx. unfold address. destruct (is_ipv4 (map_old m)); [|split; [done|exact Hx]].
  rewrite (proj2 (Z.leb_le _ _)) by (unfold u32_max; lia). split; [done|exact Hx].
Qed.

Lemma covering_unique ips m m' a :
  disjoint_prefixes ips -> m ∈ ips -> m' ∈ ips -> covers m a -> covers m' a -> m = m'.
Proof.
  intros Hd [i Hi]%list_elem_of_lookup [j Hj]%list_elem_of_lookup Hm Hm'.
  destruct (decide (i = j)) as [->|Hij]; [congruence|]. destruct (Hd i j m m' Hij Hi Hj a). done.
Qed.

Lemma reference_Some ips a m :
  disjoint_prefixes ips -> m ∈ ips -> covers m a -> reference_lookup ips a = Some (remapped m a).
Proof.
  intros Hd Hin Hc. unfold reference_lookup. destruct (filter _ ips) as [|m' l] eqn:E.
  - assert (m ∈ filter (fun m => covers m a) ips) as Hm by (by apply list_elem_of_filter). rewrite E in Hm. by apply elem_of_nil in Hm.
  - assert (m' ∈ filter (fun m => covers m a) ips) as [Hc' Hin']%list_elem_of_filter by (rewrite E; set_solver).
    by rewrite (covering_unique ips m' m a).
Qed.

Lemma reference_None ips a : (forall m, m ∈ ips -> ~ covers m a) -> reference_lookup ips a = None.
Proof.
  intros H. unfold reference_lookup. destruct (filter _ ips) as [|m' l] eqn:E; [done|].
  assert (m' ∈ filter (fun m => covers m a) ips) as [Hc' Hin']%list_elem_of_filter by (rewrite E; set_solver). by destruct (H m').
Qed.

Notation of_family b := (filter (fun m => is_ipv4 (map_old m) = b)).

Lemma lookup_exact t ips a :
  Forall mapping_ok ips -> disjoint_prefixes ips -> holds t (of_family (is_ipv4 a) ips) -> pt_ipv4 t = is_ipv4 a ->
  address_ok a -> PrefixTable_lookup t (numeric a) = reference_lookup ips a.
Proof.
  intros Hok Hd [_ He] Ht Ha. unfold PrefixTable_lookup. rewrite Ht.
  assert (forall len new, entry (by_length t) len (Z.land (numeric a) (mask len (if is_ipv4 a then 32 else 128))) new <->
    exists m, m ∈ ips /\ covers m a /\ prefix_length m = len /\ numeric (map_new m) = new) as Hent.
  { intros len new. rewrite He. setoid_rewrite list_elem_of_filter. fold (bits_of a). split.
    - intros (m & [Hf Hin] & <- & Ho & <-). exists m. split_and!; try done. eapply Forall_forall in Hok; [|done]. by apply masked_covers.
    - intros (m & Hin & Hc & <- & <-). exists m. pose proof Hc as [Hf _]. split_and!; try done. symmetry. eapply Forall_forall in Hok; [|done].
      by apply masked_covers. }
  destruct (lookup_lengths _ _ _) as [r|] eqn:E.
  - apply lookup_lengths_Some in E as (len & new & (m & Hin & Hc & <- & <-)%Hent & ->).
    rewrite (reference_Some ips a m) by done. f_equal. eapply Forall_forall in Hok; [|done]. by apply remapped_spec; [..|apply Hc].
  - symmetry. apply reference_None. intros m Hin Hc.
    apply (lookup_lengths_None _ _ _ (prefix_length m) (numeric (map_new m)) E), Hent. by exists m.
Qed.

(** ** Building the map *)

Lemma insert_ips_spec ips : forall earlier map,
  Forall mapping_ok (earlier ++ ips) -> disjoint_prefixes earlier ->
  holds (am_ipv4 map) (of_family true earlier) -> holds (am_ipv6 map) (of_family false earlier) ->
  pt_ipv4 (am_ipv4 map) = true -> pt_ipv4 (am_ipv6 map) = false ->
  match insert_ips earlier ips map with
  | Ok map' => disjoint_prefixes (earlier ++ ips) /\
      holds (am_ipv4 map') (of_family true (earlier ++ ips)) /\ holds (am_ipv6 map') (of_family false (earlier ++ ips)) /\
      pt_ipv4 (am_ipv4 map') = true /\ pt_ipv4 (am_ipv6 map') = false /\ am_macs map' = am_macs map
  | Err e => e = TInvalid InvAddressMapOverlap /\ ~ disjoint_prefixes (earlier ++ ips)
  | Panic => False
  end.
Proof.
  induction ips as [|m rest IH]; intros earlier map Hok Hd H4 H6 P4 P6; cbn [insert_ips]; [by rewrite app_nil_r|].
  pose proof (disjoint_snoc earlier m rest Hok Hd) as Hs. destruct (existsb _ earlier); [done|].
  pose proof Hok as [He Hr]%Forall_app. apply Forall_cons_1 in Hr as [Hm _].
  assert (forall m', m' ∈ of_family (is_ipv4 (map_old m)) earlier -> prefix_length m' = prefix_length m ->
    numeric (map_old m') <> numeric (map_old m)) as Hno.
  { intros m' [Hf [i Hi]%list_elem_of_lookup]%list_elem_of_filter Hl Hn. pose proof (lookup_lt_Some _ _ _ Hi).
    apply (Hs i (length earlier) m' m ltac:(lia) ltac:(by apply lookup_app_l_Some) ltac:(by apply list_lookup_middle) (map_old m)).
    split; [|done]. split; [done|]. by rewrite Hn. }
  replace (earlier ++ m :: rest) with ((earlier ++ [m]) ++ rest) in * by (by rewrite <-app_assoc).
  set (map1 := if is_ipv4 (map_old m) then _ else _).
  assert (holds (am_ipv4 map1) (of_family true (earlier ++ [m])) /\ holds (am_ipv6 map1) (of_family false (earlier ++ [m])) /\
    pt_ipv4 (am_ipv4 map1) = true /\ pt_ipv4 (am_ipv6 map1) = false /\ am_macs map1 = am_macs map) as (H4' & H6' & P4' & P6' & <-).
  { unfold map1. rewrite !filter_app. destruct (is_ipv4 (map_old m)) eqn:Ef.
    - rewrite filter_cons_True, filter_cons_False, !filter_nil, app_nil_r by (by rewrite Ef). split; [by apply holds_insert|done].
    - rewrite filter_cons_False, filter_cons_True, !filter_nil, app_nil_r by (by rewrite Ef). split; [done|]. split; [by apply holds_insert|done]. }
  apply IH; done.
Qed.

Lemma insert_macs_spec macs : forall table,
  match insert_macs macs table with
  | Ok table' => NoDup (mac_old <$> macs) /\ (forall m, m ∈ macs -> table !! mac_old m = None) /\
      forall k v, table' !! k = Some v <-> table !! k = Some v \/ mkMacMapping k v ∈ macs
  | Err e => e = TInvalid InvAddressMapOverlap /\ ~ (NoDup (mac_old <$> macs) /\ forall m, m ∈ macs -> table !! mac_old m = None)
  | Panic => False
  end.
Proof.
  induction macs as [|m rest IH]; intros table; cbn [insert_macs].
  { split; [by apply NoDup_nil|]. split; [set_solver|]. set_solver. }
  destruct (table !! mac_old m) as [x|] eqn:E; cbn [is_some].
  { split; [done|]. intros [_ H]. specialize (H m ltac:(set_solver)). congruence. }
  specialize (IH (<[mac_old m := mac_new m]> table)).
  assert ((NoDup (mac_old <$> m :: rest) /\ forall m', m' ∈ m :: rest -> table !! mac_old m' = None) <->
    NoDup (mac_old <$> rest) /\ forall m', m' ∈ rest -> <[mac_old m := mac_new m]> table !! mac_old m' = None) as Hiff.
  { rewrite fmap_cons, NoDup_cons. setoid_rewrite lookup_insert_None. setoid_rewrite elem_of_cons. split.
    - intros ((Hn & Hd) & Hall). split; [done|]. intros m' Hm'. split; [by apply Hall; right|]. intros Eq. apply Hn.
      apply list_elem_of_fmap. by exists m'.
    - intros (Hd & Hall). split; [split; [|done]|].
      + intros (m' & Eq & Hin)%list_elem_of_fmap. by destruct (Hall m' Hin) as [_ []].
      + intros m' [->|Hin]; [done|]. by apply Hall. }
  destruct (insert_macs rest _) as [table'|e|]; [|split; [apply IH|]; intros H; by apply IH, Hiff|done].
  destruct IH as (Hd & Hall & Hlk). destruct (proj2 Hiff (conj Hd Hall)) as [Hd' Hall']. split; [done|]. split; [done|].
  intros k v. rewrite Hlk, lookup_insert_Some, elem_of_cons. split.
  - intros [[[<- <-]|[_ H]]|H]; [right; left; by destruct m|by left|by right; right].
  - intros [H|[<-|H]]; [left; right; split; [congruence|done]|by left; left|by right].
Qed.

(** ** Applying the map *)

(** Shifting the bytes in is reading them big-endian. *)
Lemma read_u128_ok ip first last :
  octets ip -> 0 <= first -> first <= last -> last <= zlen ip -> last - first <= 16 ->
  read_u128 ip first last = Ok (from_be_bytes (zslice first last ip)).
Proof.
  intros Ho H0 Hl Hz H16. unfold read_u128. rewrite index_range_ok by lia. rewrite Ok_bind. f_equal.
  assert (zlen (zslice first last ip) <= 16) as Hlen by (rewrite zlen_zslice by lia; done).
  pose proof (octets_zslice first last ip Ho) as Hs. revert Hlen Hs. generalize (zslice first last ip) as l.
  induction l as [|b l IH] using rev_ind; [done|]. rewrite zlen_app. change (zlen [b]) with 1. intros Hlen [Hs Hb]%Forall_app.
  apply Forall_cons_1 in Hb as [Hb _]. rewrite foldl_snoc, IH, from_be_bytes_snoc by (done || lia).
  pose proof (from_be_bytes_range l Hs) as Hr. pose proof (zlen_nonneg l). change u128_max with (Z.ones 128). rewrite Z.land_ones by lia.
  assert (256 ^ zlen l <= 256 ^ 15) by (apply Z.pow_le_mono_r; lia). change (256 ^ 15) with (2 ^ 120) in *.
  assert (2 ^ 128 = 2 ^ 120 * 256) as E by done. rewrite Z.shiftl_mul_pow2 by lia. change (2 ^ 8) with 256. rewrite Z.mod_small by lia.
  rewrite (lor_disjoint _ _ 8); [done|lia| |change (2 ^ 8) with 256; lia]. change (2 ^ 8) with 256. apply Z.mod_mul. lia.
Qed.

Definition macs_ok (m : MacMapping) : Prop := mac_ok (mac_old m) /\ mac_ok (mac_new m).

(** What [AddressMap_new] guarantees, as the clients use it. *)
Class RemapsBy (map : AddressMap) (ips : list IpMapping) : Prop := {
  rb_lookup : forall a, address_ok a ->
    PrefixTable_lookup (if is_ipv4 a then am_ipv4 map else am_ipv6 map) (numeric a) = reference_lookup ips a;
  rb_address : forall a, address_ok a -> from_option address_ok True (reference_lookup ips a);
  rb_mac : forall k, from_option mac_ok True (am_macs map !! (k : bytes))
}.

Lemma reference_address ips a :
  Forall mapping_ok ips -> address_ok a -> from_option address_ok True (reference_lookup ips a).
Proof.
  intros Hok Ha. unfold reference_lookup. destruct (filter _ ips) as [|m l] eqn:E; [done|].
  assert (m ∈ filter (fun m => covers m a) ips) as [[Hf _] Hin]%list_elem_of_filter by (rewrite E; set_solver).
  eapply Forall_forall in Hok; [|done]. by apply remapped_spec.
Qed.

Lemma walk_version ip header b :
  octets ip -> zget ip 0 = Some b -> IpHeader_walk ip = Ok header ->
  Z.shiftr b 4 = IpHeader_version header /\ fixed_length header <= zlen ip.
Proof.
  intros Ho Hb Hw. pose proof (IpHeader_walk_spec ip Ho) as Hf. rewrite Hw in Hf. cbn [safe] in Hf.
  destruct (walked_extent ip header Ho Hf) as ((? & ?) & ? & _). split; [|lia].
  unfold IpHeader_walk in Hw. assert (head ip = Some b) as Eh by (by destruct ip). rewrite Eh in Hw.
  destruct (Z.eqb_spec (Z.shiftr b 4) 4) as [->|]; [by inv_ok Hw; injection Hw as <-|].
  destruct (Z.eqb_spec (Z.shiftr b 4) 6) as [->|]; [by inv_ok Hw; injection Hw as <-|done].
Qed.

Lemma address_at_ok header ip start :
  octets ip -> 0 <= start -> start + address_width header <= zlen ip -> address_ok (address_at header ip start).
Proof.
  intros Ho H0 Hl. pose proof (from_be_bytes_range (zslice start (start + address_width header) ip) (octets_zslice _ _ _ Ho)) as Hr.
  assert (0 < address_width header) by (by destruct header). rewrite zlen_zslice in Hr by lia.
  replace (start + address_width header - start) with (address_width header) in Hr by lia. by destruct header.
Qed.

Section apply_map.
Context (map : AddressMap) (ips : list IpMapping) `{!RemapsBy map ips} (frame : Frame).
Context (Ho : octets (frame_bytes frame)).
Notation F := (frame_bytes frame).

Lemma mac_patch_spec : exists source destination, mac_patch map frame = Ok (source, destination) /\
  from_option mac_ok True source /\ from_option mac_ok True destination /\
  forall h, link_type frame = 1 -> EthernetHeader_walk F = Ok h ->
    source = am_macs map !! eth_source h /\ destination = am_macs map !! eth_destination h.
Proof using All.
  unfold mac_patch. destruct (Z.eqb_spec (link_type frame) 1) as [E1|E1]; cbn [andb]; [|by exists None, None].
  destruct (Z.leb_spec 12 (zlen F)).
  - rewrite !index_range_ok by lia. rewrite !Ok_bind. eexists _, _. split; [done|]. split; [apply rb_mac|]. split; [apply rb_mac|].
    intros h _ (_ & -> & -> & _)%EthernetHeader_walk_inv. done.
  - exists None, None. split_and!; try done. intros h _ (? & _)%EthernetHeader_walk_inv. lia.
Qed.

(** The outer IP bytes, and that they are found where the header walk succeeds. *)
Lemma outer_ip_spec : exists o, outer_ip frame = Ok o /\
  (forall ip, o = Some ip -> octets ip /\ exists b, zget ip 0 = Some b) /\
  forall link header, LinkHeader_walk (link_type frame) F = Ok (Some link) -> LinkHeader_walk_ip link F = Ok (Some header) ->
    o = Some (zdrop (network_offset link) F).
Proof using Ho.
  unfold outer_ip. pose proof (LinkHeader_walk_spec (link_type frame) F) as Hw.
  destruct (LinkHeader_walk (link_type frame) F) as [[link|]|e|]; [|by eexists|by eexists|done].
  specialize (Hw link eq_refl). cbv beta. eexists. split; [done|].
  rewrite get_from_ok by lia. cbn [mbind option_bind]. split.
  - intros ip. destruct (negb _); [done|]. destruct (head (zdrop (network_offset link) F)) as [b|] eqn:Eh; [|done]. cbn.
    case_match; [|done]. intros [= <-]. split; [by apply octets_zdrop|]. exists b. by destruct (zdrop (network_offset link) F).
  - intros link' header [= <-] (Hc & Hip & Hv)%LinkHeader_walk_ip_inv. rewrite Hc. cbn [negb]. unfold IpHeader_walk in Hip.
    destruct (head (zdrop (network_offset link) F)) as [b|]; [|done]. cbn in Hv |- *.
    destruct (announced_ip_version link) as [v|]; [|done]. by rewrite Hv, Z.eqb_refl.
Qed.

(** A request that replaces exactly the addresses the map remaps. *)
Definition remap_request (patch : HeaderRewrite) : Prop :=
  patch_ok patch /\ vlans patch = None /\ hr_source_port patch = None /\ hr_destination_port patch = None /\
  (forall h, link_type frame = 1 -> EthernetHeader_walk F = Ok h ->
    source_mac patch = am_macs map !! eth_source h /\ destination_mac patch = am_macs map !! eth_destination h) /\
  (forall link header s d, LinkHeader_walk (link_type frame) F = Ok (Some link) -> LinkHeader_walk_ip link F = Ok (Some header) ->
    IpHeader_addresses header (zdrop (network_offset link) F) = Ok (s, d) ->
    source_ip patch = reference_lookup ips s /\ destination_ip patch = reference_lookup ips d).

(** The outer IP bytes of a frame whose IP header parses. *)
Definition announces (ip : bytes) (b : Z) : Prop :=
  forall header link, LinkHeader_walk (link_type frame) F = Ok (Some link) -> LinkHeader_walk_ip link F = Ok (Some header) ->
    ip = zdrop (network_offset link) F /\ Z.shiftr b 4 = IpHeader_version header /\ fixed_length header <= zlen ip.

(** The two address fields of either family, looked up. *)
Lemma family_request ip b header sm dm :
  octets ip -> announces ip b -> fixed_length header <= zlen ip -> IpHeader_version header = Z.shiftr b 4 ->
  from_option mac_ok True sm -> from_option mac_ok True dm ->
  (forall h, link_type frame = 1 -> EthernetHeader_walk F = Ok h -> sm = am_macs map !! eth_source h /\ dm = am_macs map !! eth_destination h) ->
  remap_request (mkHeaderRewrite sm dm (reference_lookup ips (address_at header ip (address_offsets header).1))
    (reference_lookup ips (address_at header ip (address_offsets header).2)) None None None).
Proof using All.
  intros Oip Hver Hlen Hvn Hsm Hdm Hmac. destruct (address_layout header) as (so & Eo & Hso & Hfix & _). rewrite Eo. cbn [fst snd].
  assert (0 < address_width header) by (by destruct header).
  split; [split; try done; apply rb_address, address_at_ok; try done; lia|]. split_and!; try done.
  intros link header' s d Hl Hh Ha. destruct (Hver header' link Hl Hh) as (Ei & Hv' & Hlen'). rewrite <-Ei, IpHeader_addresses_ok in Ha by done.
  assert (address_offsets header' = (so, so + address_width header) /\ forall i, address_at header' ip i = address_at header ip i) as [Eo' Ea].
  { rewrite <-Eo. destruct header, header'; cbn in Hvn, Hv'; try done; lia. }
  rewrite Eo' in Ha. cbn [fst snd] in Ha. rewrite !Ea in Ha. by injection Ha as <- <-.
Qed.

Lemma no_ip_request sm dm :
  from_option mac_ok True sm -> from_option mac_ok True dm ->
  (forall h, link_type frame = 1 -> EthernetHeader_walk F = Ok h -> sm = am_macs map !! eth_source h /\ dm = am_macs map !! eth_destination h) ->
  (forall link header, LinkHeader_walk (link_type frame) F = Ok (Some link) -> LinkHeader_walk_ip link F = Ok (Some header) -> False) ->
  remap_request (mkHeaderRewrite sm dm None None None None None).
Proof using All. intros Hsm Hdm Hmac Hno. split; [by split|]. split_and!; try done. intros link header s d Hl Hh _. by destruct (Hno link header). Qed.

(** Applying the map is rewriting the addresses it remaps. *)
Lemma apply_is_rewrite limits :
  exists patch, AddressMap_apply map frame limits = rewrite frame patch limits /\ remap_request patch.
Proof using All.
  unfold AddressMap_apply. destruct mac_patch_spec as (sm & dm & -> & Hsm & Hdm & Hmac). rewrite Ok_bind.
  destruct outer_ip_spec as (o & -> & Hip & Hout). rewrite Ok_bind. destruct o as [ip|].
  2:{ eexists. split; [done|]. apply no_ip_request; try done. intros link header Hl Hh. by specialize (Hout _ _ Hl Hh). }
  destruct (Hip ip eq_refl) as (Oip & b & Hb). unfold index. rewrite Hb. cbn [expect]. rewrite Ok_bind. cbv zeta.
  assert (announces ip b) as Hver.
  { intros header link Hl Hh. specialize (Hout _ _ Hl Hh). injection Hout as ->. split; [done|].
    apply LinkHeader_walk_ip_inv in Hh as (_ & Hw & _). by apply walk_version. }
  unfold IPV4_MIN_LENGTH, IPV6_LENGTH. destruct ((Z.shiftr b 4 =? 4) && (20 <=? zlen ip)) eqn:E4.
  { apply andb_prop in E4 as [E4%Z.eqb_eq L4%Z.leb_le]. cbn [fst snd]. rewrite !read_u128_ok by (done || lia). rewrite !Ok_bind.
    set (header := IpV4 (mkIpv4Header 0 0 0 0 0)).
    pose proof (rb_lookup _ (address_at_ok header ip 12 Oip ltac:(lia) ltac:(cbn; lia))) as Rs.
    pose proof (rb_lookup _ (address_at_ok header ip 16 Oip ltac:(lia) ltac:(cbn; lia))) as Rd.
    eexists. split; [done|]. cbn in Rs, Rd. change (12 + 4) with 16 in Rs. change (16 + 4) with 20 in Rd. rewrite Rs, Rd. by apply (family_request ip b header). }
  destruct ((Z.shiftr b 4 =? 6) && (40 <=? zlen ip)) eqn:E6.
  { apply andb_prop in E6 as [E6%Z.eqb_eq L6%Z.leb_le]. cbn [fst snd]. rewrite !read_u128_ok by (done || lia). rewrite !Ok_bind.
    set (header := IpV6 (mkIpv6Header 0 0 [] 0 0)).
    pose proof (rb_lookup _ (address_at_ok header ip 8 Oip ltac:(lia) ltac:(cbn; lia))) as Rs.
    pose proof (rb_lookup _ (address_at_ok header ip 24 Oip ltac:(lia) ltac:(cbn; lia))) as Rd.
    eexists. split; [done|]. cbn in Rs, Rd. change (8 + 16) with 24 in Rs. change (24 + 16) with 40 in Rd. rewrite Rs, Rd. by apply (family_request ip b header). }
  eexists. split; [done|]. apply no_ip_request; try done. intros link header Hl Hh.
  destruct (Hver header link Hl Hh) as (_ & Hv & Hlen). rewrite Hv in E4, E6. 
  destruct header; cbn in Hlen, E4, E6; [rewrite (proj2 (Z.leb_le _ _)) in E4 by lia|rewrite (proj2 (Z.leb_le _ _)) in E6 by lia]; done.
Qed.
End apply_map.

(** ** The whole map *)

Lemma AddressMap_new_spec (ips : list IpMapping) (macs : list MacMapping) :
  Forall mapping_ok ips ->
  match AddressMap_new ips macs with
  | Ok map => zlen ips + zlen macs <= MAX_ADDRESS_MAP_ENTRIES /\ disjoint_prefixes ips /\ NoDup (mac_old <$> macs) /\
      (forall a, address_ok a ->
        PrefixTable_lookup (if is_ipv4 a then am_ipv4 map else am_ipv6 map) (numeric a) = reference_lookup ips a) /\
      (forall k v, am_macs map !! k = Some v <-> mkMacMapping k v ∈ macs)
  | Err e => e = TLimit LimAddressMapEntries MAX_ADDRESS_MAP_ENTRIES /\ MAX_ADDRESS_MAP_ENTRIES < zlen ips + zlen macs \/
      e = TInvalid InvAddressMapOverlap /\ ~ (disjoint_prefixes ips /\ NoDup (mac_old <$> macs))
  | Panic => False
  end.
Proof.
  intros Hok. unfold AddressMap_new. pose proof (zlen_nonneg ips). pose proof (zlen_nonneg macs).
  unfold saturating_add, MAX_ADDRESS_MAP_ENTRIES, usize_max, u64_max.
  destruct (Z.ltb_spec 4096 (Z.min 18446744073709551615 (zlen ips + zlen macs))); [left; split; [done|lia]|].
  assert (holds (mkPrefixTable true []) [] /\ holds (mkPrefixTable false []) []) as [He4 He6].
  { assert (forall len old new, ~ entry [] len old new) as Hno by (intros ??? (? & ?%elem_of_nil & _); done).
    split; (split; [apply NoDup_nil_2|]); intros len old new; (split; [by intros ?%Hno|by intros (m & ?%elem_of_nil & _)]). }
  pose proof (insert_ips_spec ips [] AddressMap_empty Hok ltac:(done) He4 He6 eq_refl eq_refl) as Hi.
  destruct (insert_ips [] ips AddressMap_empty) as [map|e|]; [|right; split; [apply Hi|]; intros [? _]; by apply Hi|done].
  destruct Hi as (Hd & H4 & H6 & P4 & P6 & Em). rewrite Ok_bind, Em.
  pose proof (insert_macs_spec macs ∅) as Hm. cbn [am_macs AddressMap_empty].
  destruct (insert_macs macs ∅) as [table|e|]; [|right; split; [apply Hm|]; intros [_ ?]; by apply Hm; split|done].
  destruct Hm as (Hn & _ & Hlk). rewrite Ok_bind. split; [lia|]. split; [done|]. split; [done|]. cbn [am_ipv4 am_ipv6 am_macs]. split.
  - intros a Ha. apply lookup_exact; [done|done| |by destruct (is_ipv4 a)|done].
    destruct (is_ipv4 a); by apply holds_sort.
  - intros k v. rewrite Hlk, lookup_empty. naive_solver.
Qed.

#[export] Instance VlanRewrite_from_inj : Inj (=) (=) VlanRewrite_from.
Proof. intros [[] p d i] [[] p' d' i']; unfold VlanRewrite_from; cbn; intros H; by simplify_eq. Qed.

Lemma AddressMap_new_remaps ips macs map :
  Forall mapping_ok ips -> Forall macs_ok macs -> AddressMap_new ips macs = Ok map -> RemapsBy map ips.
Proof.
  intros Hok Hmok Hnew. pose proof (AddressMap_new_spec ips macs Hok) as Hs. rewrite Hnew in Hs.
  destruct Hs as (_ & _ & _ & Hlk & Hmac). split; [done|by intros; apply reference_address|].
  intros k. destruct (am_macs map !! k) as [v|] eqn:E; [|done]. apply Hmac in E. eapply Forall_forall in Hmok; [|exact E]. apply Hmok.
Qed.

(** The link header with its Ethernet addresses remapped. *)
Definition link_remapped (map : AddressMap) (link link' : LinkHeader) : Prop :=
  match link, link' with
  | LinkEthernet h, LinkEthernet h' =>
      eth_source h' = default (eth_source h) (am_macs map !! eth_source h) /\
      eth_destination h' = default (eth_destination h) (am_macs map !! eth_destination h) /\
      vlan_tags h' = vlan_tags h /\ ether_type h' = ether_type h
  | LinkRawIp version, LinkRawIp version' => version' = version
  | _, _ => False
  end.

Section remapped_frame.
Context (map : AddressMap) (ips : list IpMapping) (frame out : Frame) (patch : HeaderRewrite).
Context (Hreq : remap_request map ips frame patch).
Context (link : LinkHeader) (header : IpHeader) (s d : IpAddr).
Context (Hl : LinkHeader_walk (link_type frame) (frame_bytes frame) = Ok (Some link)).
Context (Hh : LinkHeader_walk_ip link (frame_bytes frame) = Ok (Some header)).
Context (Ha : IpHeader_addresses header (zdrop (network_offset link) (frame_bytes frame)) = Ok (s, d)).

(** The addresses of [out] are the remapped ones. *)
Definition addresses_remapped : Prop :=
  exists link', LinkHeader_walk (link_type frame) (frame_bytes out) = Ok (Some link') /\
    LinkHeader_walk_ip link' (frame_bytes out) = Ok (Some header) /\
    IpHeader_addresses header (zdrop (network_offset link') (frame_bytes out))
      = Ok (default s (reference_lookup ips s), default d (reference_lookup ips d)) /\
    link_remapped map link link'.

Lemma link_macs : match link with
  | LinkEthernet h => source_mac patch = am_macs map !! eth_source h /\ destination_mac patch = am_macs map !! eth_destination h
  | LinkRawIp _ => True
  end.
Proof using All.
  destruct link as [h|]; [|done]. unfold LinkHeader_walk in Hl. destruct (Z.eqb_spec (link_type frame) 1) as [E1|]; [|by case_match].
  pose proof Hl as Hw. inv_ok Hw. injection Hw as <-. destruct Hreq as (_ & _ & _ & _ & Hmac & _). by apply Hmac.
Qed.

Lemma remapped_unchanged : HeaderRewrite_is_empty patch = true -> out = frame -> addresses_remapped.
Proof using All.
  intros He Eout. pose proof link_macs as Hm. destruct Hreq as (_ & _ & _ & _ & _ & Hip). destruct (Hip link header s d Hl Hh Ha) as [Hs Hd].
  unfold HeaderRewrite_is_empty in He. repeat (apply andb_prop in He as [He ?]).
  destruct (source_mac patch), (destination_mac patch), (source_ip patch), (destination_ip patch); try done.
  unfold addresses_remapped. rewrite Eout. exists link. rewrite <-Hs, <-Hd. split_and!; try done. destruct link as [h|]; [|done]. destruct Hm as [Hm1 Hm2]. cbn. by rewrite <-Hm1, <-Hm2.
Qed.

Lemma remapped_rewritten : frame_rewritten frame patch out -> addresses_remapped.
Proof using All.
  intros [(l & link' & Hl' & Hw' & Hlr & Hip) _ (El & _)]. rewrite Hl in Hl'. injection Hl' as <-. rewrite El in Hw'.
  pose proof link_macs as Hm. destruct Hreq as (_ & Hv & Hsp & Hdp & _ & Hips). destruct (Hips link header s d Hl Hh Ha) as [Hs Hd].
  assert (link_remapped map link link') as Hrm.
  { destruct link as [h|], link' as [h'|]; try done. cbn in Hlr |- *. destruct Hlr as (E1 & E2 & E3 & E4), Hm as [Hm1 Hm2].
    rewrite Hv in E3. apply (inj (fmap VlanRewrite_from)) in E3. rewrite E1, E2, Hm1, Hm2. done. }
  exists link'. split; [done|]. cbv zeta in Hip. destruct (network_edits patch) eqn:En.
  - destruct Hip as (h0 & Hh0 & Hh' & Hir). rewrite Hh in Hh0. injection Hh0 as <-. split; [done|]. split; [|done].
    destruct (ir_addresses _ _ _ _ Hir) as (s0 & d0 & Ha0 & Ha' & _). rewrite Ha in Ha0. injection Ha0 as <- <-.
    by rewrite Ha', Hs, Hd.
  - unfold network_edits in En. rewrite Hsp, Hdp in En. destruct (source_ip patch), (destination_ip patch); try done. rewrite <-Hs, <-Hd.
    rewrite Hip. split; [|split; done].
    destruct (LinkHeader_walk_ip_inv _ _ _ Hh) as (_ & Hwalk & _).
    pose proof (LinkHeader_walk_spec (link_type frame) (frame_bytes out)) as Hoff. rewrite Hw' in Hoff.
    apply (LinkHeader_walk_ip_moved patch link link' (frame_bytes frame)); try done; [by apply Hoff|by rewrite Hip..].
Qed.
End remapped_frame.

(** ** Theorems *)

(** C33: building a map succeeds exactly when it has at most 4096 entries, no
    address lies in two old prefixes and no Ethernet address is mapped twice, and
    reports which of them fails.  Looking up an address in the built prefix
    tables is the scan of the mappings: the new prefix with the address's host
    bits where a mapping covers it, and nothing otherwise. *)
Theorem address_map_exact (ips : list IpMapping) (macs : list MacMapping) :
  Forall mapping_ok ips ->
  match AddressMap_new ips macs with
  | Ok map => zlen ips + zlen macs <= MAX_ADDRESS_MAP_ENTRIES /\ disjoint_prefixes ips /\ NoDup (mac_old <$> macs) /\
      (forall a, address_ok a ->
        PrefixTable_lookup (if is_ipv4 a then am_ipv4 map else am_ipv6 map) (numeric a) = reference_lookup ips a) /\
      (forall k v, am_macs map !! k = Some v <-> mkMacMapping k v ∈ macs)
  | Err e => e = TLimit LimAddressMapEntries MAX_ADDRESS_MAP_ENTRIES /\ MAX_ADDRESS_MAP_ENTRIES < zlen ips + zlen macs \/
      e = TInvalid InvAddressMapOverlap /\ ~ (disjoint_prefixes ips /\ NoDup (mac_old <$> macs))
  | Panic => False
  end.
Proof. apply AddressMap_new_spec. Qed.

(** C32: applying a built map never panics; what it returns fits the output limit
    and is the frame itself or its rewrite by exactly the addresses the map
    remaps.  Where the frame's outer IP header parses, it parses again in the
    output, with both addresses and both Ethernet addresses remapped and the VLAN
    tags kept. *)
Theorem address_map_apply (ips : list IpMapping) (macs : list MacMapping) (map : AddressMap) (frame : Frame) (limits : RewriteLimits) :
  Forall mapping_ok ips -> Forall macs_ok macs -> AddressMap_new ips macs = Ok map ->
  octets (frame_bytes frame) -> zlen (frame_bytes frame) <= u32_max ->
  AddressMap_apply map frame limits <> Panic /\
  forall out, AddressMap_apply map frame limits = Ok out ->
    zlen (frame_bytes out) <= rl_max_output_bytes limits /\
    (out = frame \/ exists patch, remap_request map ips frame patch /\ frame_rewritten frame patch out) /\
    forall link header s d,
      LinkHeader_walk (link_type frame) (frame_bytes frame) = Ok (Some link) ->
      LinkHeader_walk_ip link (frame_bytes frame) = Ok (Some header) ->
      IpHeader_addresses header (zdrop (network_offset link) (frame_bytes frame)) = Ok (s, d) ->
      addresses_remapped map ips frame out link header s d.
Proof.
  intros Hok Hmok Hnew Ho Hl. apply AddressMap_new_remaps in Hnew; [|done|done].
  destruct (apply_is_rewrite map ips frame Ho limits) as (patch & -> & Hreq). apply safe_iff.
  eapply safe_mono; [apply rewrite_spec; [done|done|apply Hreq]|]. intros out [Hlen Hout]. split; [done|].
  destruct (HeaderRewrite_is_empty patch) eqn:E.
  - split; [by left|]. intros. by eapply remapped_unchanged.
  - split; [right; by exists patch|]. intros. by eapply remapped_rewritten.
Qed.

(** [10.0.0.0/24=192.168.5.0/24] and [2001:db8::/32=fd00::/32]. *)
Definition sample_ips : list IpMapping :=
  [mkIpMapping (V4 167772160) (V4 3232236800) 24;
   mkIpMapping (V6 42540766411282592856903984951653826560) (V6 336294682933583715844663186250927177728) 32].

Definition sample_macs : list MacMapping := [mkMacMapping [2; 0; 0; 0; 0; 1] [2; 0; 0; 0; 0; 7]].

Lemma sample_ips_ok : Forall mapping_ok sample_ips.
Proof. repeat constructor; by vm_compute. Qed.

Lemma sample_macs_ok : Forall macs_ok sample_macs.
Proof. by repeat constructor. Qed.

Lemma address_map_exact_witness :
  match AddressMap_new sample_ips sample_macs with
  | Ok map => PrefixTable_lookup (am_ipv4 map) 167772161 = Some (V4 3232236801) /\ disjoint_prefixes sample_ips
  | _ => False
  end.
Proof.
  pose proof (address_map_exact sample_ips sample_macs sample_ips_ok) as H.
  destruct (AddressMap_new sample_ips sample_macs) as [map|e|] eqn:E; [|by vm_compute in E..].
  destruct H as (_ & Hd & _ & Hl & _). split; [|exact Hd]. exact (Hl (V4 167772161) ltac:(by vm_compute)).
Defined.

Lemma address_map_apply_witness :
  match AddressMap_new sample_ips sample_macs with
  | Ok map =>
      match AddressMap_apply map sample_udp RewriteLimits_default with
      | Ok out => exists link', LinkHeader_walk 1 (frame_bytes out) = Ok (Some link') /\
          exists header, IpHeader_addresses header (zdrop (network_offset link') (frame_bytes out)) = Ok (V4 3232236801, V4 3232236802)
      | _ => False
      end
  | _ => False
  end.
Proof.
  destruct (AddressMap_new sample_ips sample_macs) as [map|e|] eqn:E; [|by vm_compute in E..].
  destruct (address_map_apply sample_ips sample_macs map sample_udp RewriteLimits_default sample_ips_ok sample_macs_ok E) as [_ H];
    [by repeat constructor|by vm_compute|].
  destruct (AddressMap_apply map sample_udp RewriteLimits_default) as [out|e|] eqn:Ea;
    [|vm_compute in E; injection E as <-; by vm_compute in Ea..].
  destruct (H out eq_refl) as (_ & _ & Hr). edestruct Hr as (link' & Hw & _ & Haddr & _); [by vm_compute|by vm_compute|by vm_compute|].
  exists link'. split; [exact Hw|]. eexists. rewrite Haddr. by vm_compute.
Defined.
