(* ===== verification/CaptureWire.v ===== *)
(** * Capture files: data, streams and wire primitives

    [capture_file/format.rs], [header.rs], [error.rs], [limits.rs],
    [wire/primitives.rs] and [wire/timestamp.rs]: the data of capture files, the
    input and output streams they are read from and written to, the integers of
    either byte order, and the conversion of capture times to ticks. *)

From stdpp Require Import base tactics option list numbers strings.
From Stdlib Require Import ZArith Lia.
From S2P Require Import Prelude Checksum Ordered Flow Headers Frame Transform.

(** ** Formats *)

Inductive Format : Type := Pcap | PcapNg.
Inductive Endianness : Type := Little | Big.
Inductive TimestampResolution : Type := Decimal (exponent : Z) | Binary (exponent : Z).
Inductive TimestampPrecision : Type := Microseconds | Nanoseconds.

Record Interface : Type := mkInterface {
  if_link_type : Z;
  if_snap_len : Z;
  if_timestamp_resolution : TimestampResolution;
  if_timestamp_offset : Z
}.

Record PcapNgOption : Type := mkPcapNgOption {
  opt_code : Z;
  opt_value : bytes
}.

#[export] Instance Format_eq_dec : EqDecision Format.
Proof. solve_decision. Defined.
#[export] Instance Endianness_eq_dec : EqDecision Endianness.
Proof. solve_decision. Defined.
#[export] Instance TimestampPrecision_eq_dec : EqDecision TimestampPrecision.
Proof. solve_decision. Defined.

(** ** Errors *)

(** [io::Error]: an error of the operating system with the kind the platform
    gives its code, a bare kind, a kind with a fixed message, or a payload with
    the messages of its chain of sources. *)
Inductive ErrorKind : Type := KindInterrupted | KindWriteZero | KindOther (kind : Z).

#[export] Instance ErrorKind_eq_dec : EqDecision ErrorKind.
Proof. solve_decision. Defined.

Inductive IoError : Type :=
| OsError (code : Z) (kind : ErrorKind)
| SimpleError (kind : ErrorKind)
| SimpleMessage (kind : ErrorKind) (message : string)
| CustomError (kind : ErrorKind) (message : string) (sources : list string).

Definition io_kind (e : IoError) : ErrorKind :=
  match e with OsError _ k => k | SimpleError k => k | SimpleMessage k _ => k | CustomError k _ _ => k end.

Definition is_interrupted (e : IoError) : bool := bool_decide (io_kind e = KindInterrupted).

(** [BoundaryError]: its message and the messages of its causes. *)
Definition BoundaryError : Type := list string.

Inductive CaptureError : Type :=
| CDurationLimit (actual limit : Z)
| CCancelled
| CAllocationFailed (kind : string) (requested : Z)
| CFrame (e : FrameError)
| CIo (e : IoError)
| CEmptyInput
| CUnrecognizedFormat (magic : bytes)
| CTruncated (context : string) (expected actual : Z)
| CUnsupportedVersion (format : Format) (major minor : Z)
| CInvalidData (format : Format) (reason : string)
| CSizeLimitExceeded (kind : string) (declared limit : Z)
| CInvalidBlockLength (length : Z)
| CBlockLengthMismatch (leading trailing : Z)
| CBlockCrossesSectionBoundary (block_length remaining : Z)
| CSectionEndedEarly (remaining : Z)
| CSectionHeaderBeforeBoundary (remaining : Z)
| CSectionRemainderTooSmall (remaining : Z)
| CTimestampOutOfRange (format : Format)
| CTimestampUnavailable (format : Format)
| CInvalidTimestampFraction (fraction denominator : Z)
| CLinkTypeOutOfRange (link_type : Z)
| CUndefinedInterface (interface available : Z)
| CInterfaceLimit (limit : Z)
| CTotalInterfaceLimit (limit : Z)
| CMetadataBlockLimit (limit : Z)
| CMetadataByteLimit (limit : Z)
| COptionLimit (limit : Z)
| CInterfaceLinkTypeMismatch (interface expected actual : Z)
| CAmbiguousInterface (link_type : Z)
| CMetadataNotRepresentable (format : Format) (field : string)
| CWrongWriterFormat (expected actual : Format)
| CFrameLimitExceeded (actual limit : Z)
| CStreamByteLimitExceeded (actual limit : Z)
| CInvalidLimit (field : string) (value : Z)
| CInvalidTimestampResolution (base exponent : Z)
| CPredicate (number : Z) (source : BoundaryError)
| CTransform (number : Z) (source : BoundaryError)
| CTransformMetadata (field : string)
| CTransformIdentity (number : Z)
| CMergeSources (maximum : Z)
| CMergeOption (reason : string)
| CMergeSource (input frame : Z) (source : CaptureError)
| CMergeClockRegression (input frame : Z)
| CMergeMetadata (input : Z) (field : string).

(** ** Computations on a mutable object

    A method on [&mut S] is a function of the object that returns its result
    with the object as the method leaves it, on errors too. *)
Definition stm (S A : Type) : Type := S -> outcome CaptureError A * S.

#[export] Instance stm_ret {S} : MRet (stm S) := fun A a s => (Ok a, s).
#[export] Instance stm_bind {S} : MBind (stm S) :=
  fun A B k m s => match m s with
                   | (Ok a, s') => k a s'
                   | (Err e, s') => (Err e, s')
                   | (Panic, s') => (Panic, s')
                   end.

(** [?] on a result that needs no object. *)
Definition lift {S A} (o : outcome CaptureError A) : stm S A := fun s => (o, s).
Definition throw {S A} (e : CaptureError) : stm S A := lift (Err e).

(** A call on a field of the object. *)
Definition zoom {S T A} (get : S -> T) (set : T -> S -> S) (m : stm T A) : stm S A :=
  fun s => let '(r, t) := m (get s) in (r, set t s).

Definition gets {S A} (f : S -> A) : stm S A := fun s => (Ok (f s), s).
Definition modify {S} (f : S -> S) : stm S unit := fun s => (Ok tt, f s).

(** ** Input streams

    A [Read] is the list of the answers it gives: some bytes (none at the end of
    the input) or an error.  A call that wants fewer bytes than the next answer
    holds leaves the rest; with no answer left the input is at its end. *)
Inductive read_event : Type :=
| Data (chunk : bytes)
| ReadFails (e : IoError).

Definition Source : Type := list read_event.

(** Does a reservation of that many bytes for that purpose succeed? *)
Definition capture_allocator : Type := string -> Z -> bool.

Definition try_reserve (alloc : capture_allocator) (kind : string) (requested : Z) : outcome CaptureError unit :=
  if alloc kind requested then Ok tt else Err (CAllocationFailed kind requested).

(** The loop of [read_exact_or_eof], with the filled part of its buffer. *)
Fixpoint fill_buffer (length : Z) (context : string) (filled : bytes) (source : Source)
  : outcome CaptureError (option bytes) * Source :=
  let ended := if zlen filled =? 0 then Ok None else Err (CTruncated context length (zlen filled)) in
  if zlen filled <? length then
    match source with
    | [] => (ended, [])
    | Data chunk :: rest =>
        let unfilled := length - zlen filled in
        if is_empty chunk then (ended, rest) else
        if unfilled <? zlen chunk
        then (Ok (Some (filled ++ ztake unfilled chunk)), Data (zdrop unfilled chunk) :: rest)
        else fill_buffer length context (filled ++ chunk) rest
    | ReadFails e :: rest =>
        if is_interrupted e then fill_buffer length context filled rest else (Err (CIo e), rest)
    end
  else (Ok (Some filled), source).

(** The filled buffer, or [None] for [false]. *)
Definition read_exact_or_eof (length : Z) (context : string) : stm Source (option bytes) :=
  fill_buffer length context [].

Definition read_exact_counted (length : Z) (context : string) : stm Source bytes :=
  buffer ← read_exact_or_eof length context;
  lift (ok_or (CTruncated context length 0) buffer).

(** [reader.take(length).read_to_end(buffer)]: what was appended. *)
Fixpoint take_to_end (length : Z) (filled : bytes) (source : Source) : outcome CaptureError bytes * Source :=
  if zlen filled <? length then
    match source with
    | [] => (Ok filled, [])
    | Data chunk :: rest =>
        let unfilled := length - zlen filled in
        if is_empty chunk then (Ok filled, rest) else
        if unfilled <? zlen chunk
        then (Ok (filled ++ ztake unfilled chunk), Data (zdrop unfilled chunk) :: rest)
        else take_to_end length (filled ++ chunk) rest
    | ReadFails e :: rest =>
        if is_interrupted e then take_to_end length filled rest else (Err (CIo e), rest)
    end
  else (Ok filled, source).

(** A buffer with spare capacity needs no reservation. *)
Definition read_exact_append (alloc : capture_allocator) (buffer : bytes) (capacity length : Z) (context : string)
  : stm Source bytes :=
  _ ← lift (if length <=? capacity - zlen buffer then Ok tt else try_reserve alloc context length);
  appended ← take_to_end length [];
  if zlen appended =? length then mret (buffer ++ appended)
  else throw (CTruncated context length (zlen appended)).

(** The buffer is cleared first; its capacity is left to the allocator. *)
Definition read_exact_vec (alloc : capture_allocator) (length : Z) (context : string) : stm Source bytes :=
  read_exact_append alloc [] 0 length context.

(** ** Output streams *)

(** A [Write] that this code writes all of a buffer to. *)
Class Write (W : Type) : Type := write_all : bytes -> stm W unit.

(** A sink holds the bytes it has accepted and the answers it gives to the calls
    to come: it accepts at most so many bytes, or fails.  When no answer is left
    it accepts whatever it is given. *)
Inductive write_event : Type :=
| Accept (count : Z)
| WriteFails (e : IoError).

Record Sink : Type := mkSink {
  sink_bytes : bytes;
  sink_script : list write_event
}.

Definition WRITE_ALL_EOF : IoError := SimpleMessage KindWriteZero "failed to write whole buffer".

Fixpoint sink_write_all (buffer accepted : bytes) (script : list write_event) : outcome CaptureError unit * Sink :=
  if is_empty buffer then (Ok tt, mkSink accepted script) else
  match script with
  | [] => (Ok tt, mkSink (accepted ++ buffer) [])
  | Accept count :: script' =>
      let written := Z.max 0 (Z.min count (zlen buffer)) in
      if written =? 0 then (Err (CIo WRITE_ALL_EOF), mkSink accepted script')
      else sink_write_all (zdrop written buffer) (accepted ++ ztake written buffer) script'
  | WriteFails e :: script' =>
      if is_interrupted e then sink_write_all buffer accepted script'
      else (Err (CIo e), mkSink accepted script')
  end.

#[export] Instance sink_write : Write Sink := fun buffer s => sink_write_all buffer (sink_bytes s) (sink_script s).

(** [&mut [u8]]: the part filled and the length of the whole. *)
Record SliceWriter : Type := mkSliceWriter {
  slice_filled : bytes;
  slice_length : Z
}.

#[export] Instance slice_write : Write SliceWriter := fun buffer s =>
  let room := slice_length s - zlen (slice_filled s) in
  if zlen buffer <=? room then (Ok tt, mkSliceWriter (slice_filled s ++ buffer) (slice_length s))
  else (Err (CIo WRITE_ALL_EOF), mkSliceWriter (slice_filled s ++ ztake room buffer) (slice_length s)).

(** [IoSlice::advance_slices]. *)
Fixpoint advance_slices (parts : list bytes) (count : Z) : list bytes :=
  match parts with
  | [] => []
  | part :: rest => if count <? zlen part then zdrop count part :: rest else advance_slices rest (count - zlen part)
  end.

Fixpoint write_parts (parts : list bytes) (accepted : bytes) (script : list write_event)
  : outcome CaptureError unit * Sink :=
  if is_empty parts then (Ok tt, mkSink accepted script) else
  let offered := concat parts in
  match script with
  | [] => if is_empty offered then (Err (CIo (SimpleError KindWriteZero)), mkSink accepted [])
          else (Ok tt, mkSink (accepted ++ offered) [])
  | Accept count :: script' =>
      let written := Z.max 0 (Z.min count (zlen offered)) in
      if written =? 0 then (Err (CIo (SimpleError KindWriteZero)), mkSink accepted script')
      else write_parts (advance_slices parts written) (accepted ++ ztake written offered) script'
  | WriteFails e :: script' =>
      if is_interrupted e then write_parts parts accepted script'
      else (Err (CIo e), mkSink accepted script')
  end.

Definition write_all_parts (parts : list bytes) : stm Sink unit :=
  fun s => write_parts parts (sink_bytes s) (sink_script s).

(** ** Constants ([wire/primitives.rs]) *)

Definition PCAP_GLOBAL_HEADER_LEN : Z := 24.
Definition PCAP_RECORD_HEADER_LEN : Z := 16.
Definition PCAPNG_SECTION_HEADER : bytes := [10; 13; 13; 10].
Definition PCAPNG_BYTE_ORDER_MAGIC : Z := 439041101.
Definition PCAPNG_SECTION_HEADER_BLOCK : Z := 168627466.
Definition PCAPNG_INTERFACE_DESCRIPTION_BLOCK : Z := 1.
Definition PCAPNG_PACKET_BLOCK : Z := 2.
Definition PCAPNG_SIMPLE_PACKET_BLOCK : Z := 3.
Definition PCAPNG_NAME_RESOLUTION_BLOCK : Z := 4.
Definition PCAPNG_INTERFACE_STATISTICS_BLOCK : Z := 5.
Definition PCAPNG_ENHANCED_PACKET_BLOCK : Z := 6.
Definition PCAPNG_CUSTOM_BLOCK : Z := 2989.
Definition PCAPNG_CUSTOM_BLOCK_NO_COPY : Z := 1073744813.
Definition PCAPNG_OPTION_END : Z := 0.
Definition PCAPNG_OPTION_COMMENT : Z := 1.
Definition PCAPNG_OPTION_EPB_FLAGS : Z := 2.
Definition PCAPNG_OPTION_IF_SPEED : Z := 8.
Definition PCAPNG_OPTION_IF_TSRESOL : Z := 9.
Definition PCAPNG_OPTION_IF_FCSLEN : Z := 13.
Definition PCAPNG_OPTION_IF_TSOFFSET : Z := 14.
Definition PCAPNG_OPTION_IF_TXSPEED : Z := 16.
Definition PCAPNG_OPTION_IF_RXSPEED : Z := 17.
Definition DEFAULT_TIMESTAMP_RESOLUTION : TimestampResolution := Decimal 6.
Definition WRITER_TIMESTAMP_RESOLUTION : TimestampResolution := Decimal 9.

(** ** Lengths *)

Definition validate_frame_size (frame : Frame) (max_size : Z) : outcome CaptureError unit :=
  if max_size <? captured_length frame
  then Err (CSizeLimitExceeded "captured packet" (captured_length frame) max_size) else Ok tt.

Definition validate_declared_lengths (captured original max_size : Z) (kind : string) : outcome CaptureError unit :=
  if original <? captured then Err (CFrame (OriginalLengthTooSmall captured original)) else
  if max_size <? captured then Err (CSizeLimitExceeded kind captured max_size) else Ok tt.

Definition usize_to_u32_limit (value : Z) : outcome CaptureError Z :=
  if value <=? u32_max then Ok value else Err (CSizeLimitExceeded "capture size" value u32_max).

Definition align_to_usize (value : Z) : outcome CaptureError Z :=
  padded ← ok_or (CInvalidData PcapNg "aligned length overflow") (checked_add usize_max value 3);
  Ok (Z.land padded (Z.lnot 3)).

Definition align_to_u32 (value : Z) : outcome CaptureError Z :=
  padded ← ok_or (CInvalidBlockLength value) (checked_add u32_max value 3);
  Ok (Z.land padded (Z.lnot 3)).

(** The bytes [first .. last) of a block; a copy is made when the block holds much more. *)
Definition pcapng_packet_bytes (alloc : capture_allocator) (body : bytes) (first last : Z) : outcome CaptureError bytes :=
  data ← index_range body first last;
  if zlen body - zlen data <=? 12 + 64 then Ok data else
  _ ← try_reserve alloc "pcapng packet data" (zlen data);
  Ok data.

(** ** Integers *)

Definition to_bytes (endianness : Endianness) (width : nat) (value : Z) : bytes :=
  match endianness with Little => rev (be_bytes width value) | Big => be_bytes width value end.

Definition of_bytes (endianness : Endianness) (word : bytes) : Z :=
  match endianness with Little => from_be_bytes (rev word) | Big => from_be_bytes word end.

Definition decode_array (length : Z) (data : bytes) (context : string) : outcome CaptureError bytes :=
  ok_or (CTruncated context length (zlen data)) (get_range data 0 length).

Definition decode_u16 (endianness : Endianness) (data : bytes) : outcome CaptureError Z :=
  word ← decode_array 2 data "two-byte field"; Ok (of_bytes endianness word).

Definition decode_u32 (endianness : Endianness) (data : bytes) : outcome CaptureError Z :=
  word ← decode_array 4 data "four-byte field"; Ok (of_bytes endianness word).

(** Two's complement. *)
Definition as_i64 (value : Z) : Z :=
  if value <? 9223372036854775808 then value else value - 18446744073709551616.

Definition decode_i64 (endianness : Endianness) (data : bytes) : outcome CaptureError Z :=
  word ← decode_array 8 data "eight-byte field"; Ok (as_i64 (of_bytes endianness word)).

Section write_int.
Context {W : Type} `{Write W}.

Definition write_u16 (endianness : Endianness) (value : Z) : stm W unit := write_all (to_bytes endianness 2 value).
Definition write_u32 (endianness : Endianness) (value : Z) : stm W unit := write_all (to_bytes endianness 4 value).
Definition write_i64 (endianness : Endianness) (value : Z) : stm W unit :=
  write_all (to_bytes endianness 8 (value mod 18446744073709551616)).

Definition write_padding (unpadded_length : Z) : stm W unit :=
  write_all (match unpadded_length mod 4 with
             | 1 => [0; 0; 0]
             | 2 => [0; 0]
             | 3 => [0]
             | _ => []
             end).

(** [for value in [..] { write_u32(..)? }]. *)
Fixpoint write_words (endianness : Endianness) (values : list Z) : stm W unit :=
  match values with
  | [] => mret tt
  | value :: rest => _ ← write_u32 endianness value; write_words endianness rest
  end.
End write_int.

(** ** Capture times ([wire/timestamp.rs]) *)

Definition u128_max : Z := 340282366920938463463374607431768211455.
Definition i128_max : Z := 170141183460469231731687303715884105727.
Definition i64_max : Z := 9223372036854775807.

Definition checked_i128 (value : Z) : option Z :=
  if (- i128_max - 1 <=? value) && (value <=? i128_max) then Some value else None.

(** [10^exponent] if it is a [u128], and [1 << exponent]. *)
Definition ticks_per_second (resolution : TimestampResolution) : option Z :=
  match resolution with
  | Decimal exponent => if 10 ^ exponent <=? u128_max then Some (10 ^ exponent) else None
  | Binary exponent => if exponent <? 128 then Some (Z.shiftl 1 exponent) else None
  end.

Definition to_tsresol (resolution : TimestampResolution) : outcome CaptureError Z :=
  match resolution with
  | Decimal exponent => if exponent <=? 127 then Ok exponent else Err (CInvalidTimestampResolution 10 exponent)
  | Binary exponent => if exponent <=? 127 then Ok (Z.lor exponent 128) else Err (CInvalidTimestampResolution 2 exponent)
  end.

Definition from_tsresol (tsresol : Z) : TimestampResolution :=
  if Z.land tsresol 128 =? 0 then Decimal tsresol else Binary (Z.land tsresol 127).

Definition validate_timestamp_resolution (resolution : TimestampResolution) : outcome CaptureError unit :=
  _ ← to_tsresol resolution; Ok tt.

Definition out_of_range : CaptureError := CTimestampOutOfRange PcapNg.

(** [SystemTime] counts seconds in an [i64] and the nanoseconds past them, so the
    epoch plus or minus a duration is a time exactly when its seconds fit. *)
Definition checked_time (time : Z) : option SystemTime :=
  if (- i64_max - 1 <=? time / 1000000000) && (time / 1000000000 <=? i64_max) then Some time else None.

(** [Duration::new]: nanoseconds of a second at most carry into the seconds. *)
Definition duration (seconds nanoseconds : Z) : outcome CaptureError Z :=
  if seconds + nanoseconds / 1000000000 <=? u64_max then Ok (seconds * 1000000000 + nanoseconds) else Panic.

Definition system_time_from_signed_unix (seconds nanoseconds : Z) : outcome CaptureError SystemTime :=
  if 0 <=? seconds then
    since ← ok_or out_of_range (if seconds <=? u64_max then Some seconds else None);
    span ← duration since nanoseconds;
    ok_or out_of_range (checked_time span)
  else if nanoseconds =? 0 then
    magnitude ← ok_or out_of_range
      (magnitude ← checked_i128 (- seconds); if magnitude <=? u64_max then Some magnitude else None);
    ok_or out_of_range (checked_time (- (magnitude * 1000000000)))
  else
    whole ← ok_or out_of_range
      (magnitude ← checked_i128 (- seconds);
       magnitude ← checked_i128 (magnitude - 1);
       if magnitude <=? u64_max then Some magnitude else None);
    subsecond ← ok_or out_of_range (checked_sub 1000000000 nanoseconds);
    span ← duration whole subsecond;
    ok_or out_of_range (checked_time (- span)).

Definition timestamp_from_ticks (ticks : Z) (resolution : TimestampResolution) (offset_seconds : Z)
  : outcome CaptureError SystemTime :=
  '(whole_seconds, nanoseconds) ←
    match ticks_per_second resolution with
    | Some per_second =>
        let whole_seconds := ticks / per_second in
        let remainder := ticks mod per_second in
        scaled ← expect (checked_mul u128_max remainder 1000000000);
        if negb (scaled mod per_second =? 0)
        then Err (CMetadataNotRepresentable PcapNg "sub-nanosecond timestamp")
        else Ok (whole_seconds, as_u32 (scaled / per_second))
    | None => if negb (ticks =? 0) then Err (CMetadataNotRepresentable PcapNg "sub-nanosecond timestamp") else Ok (0, 0)
    end;
  unix_seconds ← ok_or out_of_range (seconds ← checked_i128 whole_seconds; checked_i128 (seconds + offset_seconds));
  system_time_from_signed_unix unix_seconds nanoseconds.

Definition timestamp_to_ticks (timestamp : SystemTime) (resolution : TimestampResolution) (offset_seconds : Z)
  : outcome CaptureError Z :=
  let '(unix_seconds, nanoseconds) := unix_floor timestamp in
  relative_seconds ← ok_or out_of_range (checked_i128 (unix_seconds - offset_seconds));
  if relative_seconds <? 0 then Err out_of_range else
  if (relative_seconds =? 0) && (nanoseconds =? 0) then Ok 0 else
  per_second ← ok_or out_of_range (ticks_per_second resolution);
  fractional_numerator ← ok_or out_of_range (checked_mul u128_max nanoseconds per_second);
  if negb (fractional_numerator mod 1000000000 =? 0)
  then Err (CMetadataNotRepresentable PcapNg "timestamp resolution") else
  let fractional := fractional_numerator / 1000000000 in
  ticks ← ok_or out_of_range
    (whole_ticks ← checked_mul u128_max relative_seconds per_second; checked_add u128_max whole_ticks fractional);
  ok_or out_of_range (if ticks <=? u64_max then Some ticks else None).

(** ** Stream budgets ([limits.rs]) *)

Record StreamLimits : Type := mkStreamLimits {
  max_frames : Z;
  max_bytes : Z
}.

Definition StreamLimits_default : StreamLimits := mkStreamLimits 10000 (256 * 1024 * 1024).

Definition StreamLimits_validate (limits : StreamLimits) : outcome CaptureError unit :=
  if max_frames limits =? 0 then Err (CInvalidLimit "max_frames" (max_frames limits)) else
  if max_bytes limits =? 0 then Err (CInvalidLimit "max_bytes" (max_bytes limits)) else Ok tt.

Record Budget : Type := mkBudget {
  bg_limits : StreamLimits;
  bg_frames : Z;
  bg_captured_bytes : Z
}.

Definition Budget_new (limits : StreamLimits) : outcome CaptureError Budget :=
  _ ← StreamLimits_validate limits; Ok (mkBudget limits 0 0).

Definition Budget_after (b : Budget) (frame_bytes : Z) : outcome CaptureError Budget :=
  let limits := bg_limits b in
  frames ← ok_or (CFrameLimitExceeded u64_max (max_frames limits)) (checked_add u64_max (bg_frames b) 1);
  if max_frames limits <? frames then Err (CFrameLimitExceeded frames (max_frames limits)) else
  captured ← ok_or (CStreamByteLimitExceeded u64_max (max_bytes limits))
    (checked_add u64_max (bg_captured_bytes b) frame_bytes);
  if max_bytes limits <? captured then Err (CStreamByteLimitExceeded captured (max_bytes limits)) else
  Ok (mkBudget limits frames captured).

Definition Budget_charge (frame_bytes : Z) : stm Budget unit :=
  fun b => match Budget_after b frame_bytes with
           | Ok b' => (Ok tt, b')
           | Err e => (Err e, b)
           | Panic => (Panic, b)
           end.

Record ReaderLimits : Type := mkReaderLimits {
  rl_max_size : Z;
  rl_max_interfaces_per_section : Z;
  rl_max_total_interfaces : Z;
  rl_max_metadata_blocks_per_frame : Z;
  rl_max_metadata_bytes_per_frame : Z;
  rl_max_options_per_block : Z
}.

Definition DEFAULT_MAX_SIZE : Z := 16 * 1024 * 1024.
Definition DEFAULT_MAX_INTERFACES_PER_SECTION : Z := 4096.

Definition ReaderLimits_default : ReaderLimits :=
  mkReaderLimits DEFAULT_MAX_SIZE DEFAULT_MAX_INTERFACES_PER_SECTION 65536 4096 (64 * 1024 * 1024) 1024.
