(* ===== verification/CaptureRead.v ===== *)
(** * Capture files: reading

    [classic/decode.rs], [pcapng/*.rs] (the decoding half), [record.rs],
    [header.rs] and [reader.rs]: the classic and the block-structured format read
    one record at a time from a stream, within the limits of the reader. *)

From stdpp Require Import base tactics option list numbers strings.
From Stdlib Require Import ZArith Lia.
From S2P Require Import Prelude Checksum Ordered Flow Headers Frame Transform CaptureWire.

(** ** Headers and records *)

Record PcapHeader : Type := mkPcapHeader {
  ph_endianness : Endianness;
  ph_timestamp_resolution : TimestampResolution;
  ph_snap_len : Z;
  ph_network : Z;
  ph_raw : bytes
}.

Record SectionInfo : Type := mkSectionInfo {
  sec_index : Z;
  sec_endianness : Endianness;
  sec_major : Z;
  sec_minor : Z;
  sec_length : option Z;
  sec_options : list PcapNgOption;
  sec_raw : bytes
}.

Inductive CaptureHeader : Type :=
| HeaderPcap (header : PcapHeader)
| HeaderPcapNg (section : SectionInfo).

Definition CaptureHeader_format (h : CaptureHeader) : Format :=
  match h with HeaderPcap _ => Pcap | HeaderPcapNg _ => PcapNg end.

Definition CaptureHeader_raw (h : CaptureHeader) : bytes :=
  match h with HeaderPcap header => ph_raw header | HeaderPcapNg section => sec_raw section end.

Definition PCAP_FCS_LENGTH_PRESENT : Z := 67108864.
Definition PCAP_FCS_LENGTH : Z := 4026531840.

Definition PcapHeader_declares_fcs (h : PcapHeader) : bool :=
  negb (Z.land (ph_network h) PCAP_FCS_LENGTH_PRESENT =? 0) && negb (Z.land (ph_network h) PCAP_FCS_LENGTH =? 0).

Definition PcapNgOption_declares_fcs (o : PcapNgOption) : bool :=
  (opt_code o =? PCAPNG_OPTION_IF_FCSLEN) && negb (bytes_eqb (opt_value o) [0]).

Inductive PacketBlockKind : Type := BlockClassic | BlockEnhanced | BlockSimple | BlockObsolete.

Inductive MetadataBlockKind : Type :=
| MetaSection (section : SectionInfo)
| MetaInterfaceDescription (section local_id global_id : Z) (interface : Interface) (options : list PcapNgOption)
| MetaNameResolution (section : Z)
| MetaInterfaceStatistics (section interface_id : Z)
| MetaCustom (section block_type : Z)
| MetaUnknown (section block_type : Z).

Inductive RecordKind : Type :=
| KindPacket (block : PacketBlockKind) (section interface_id : option Z) (options : list PcapNgOption)
| KindMetadata (metadata : MetadataBlockKind).

Record CaptureRecord : Type := mkCaptureRecord {
  rec_kind : RecordKind;
  rec_frame : option Frame;
  rec_format : Format;
  rec_raw : bytes
}.

Section reading.
Context (alloc : capture_allocator).

(** ** Classic captures ([classic/decode.rs]) *)

Record PcapState : Type := mkPcapState {
  ps_endianness : Endianness;
  ps_precision : TimestampPrecision;
  ps_snap_len : Z;
  ps_link_type : Z
}.

Definition precision_resolution (precision : TimestampPrecision) : TimestampResolution :=
  match precision with Microseconds => Decimal 6 | Nanoseconds => Decimal 9 end.

Definition PcapState_interface (s : PcapState) : Interface :=
  mkInterface (ps_link_type s) (ps_snap_len s) (precision_resolution (ps_precision s)) 0.

(** [classic/encode.rs]. *)
Definition pcap_magic (endianness : Endianness) (precision : TimestampPrecision) : bytes :=
  match endianness, precision with
  | Little, Microseconds => [212; 195; 178; 161]
  | Big, Microseconds => [161; 178; 195; 212]
  | Little, Nanoseconds => [77; 60; 178; 161]
  | Big, Nanoseconds => [161; 178; 60; 77]
  end.

Definition pcap_layout (magic : bytes) : option (Endianness * TimestampPrecision) :=
  List.find (fun '(endianness, precision) => bytes_eqb (pcap_magic endianness precision) magic)
    [(Little, Microseconds); (Little, Nanoseconds); (Big, Microseconds); (Big, Nanoseconds)].

Definition read_pcap_header (magic : bytes) (endianness : Endianness) (precision : TimestampPrecision)
  : stm Source (PcapState * PcapHeader) :=
  remaining ← read_exact_counted (PCAP_GLOBAL_HEADER_LEN - 4) "pcap global header";
  lift (
    major ← decode_u16 endianness (zslice 0 2 remaining);
    minor ← decode_u16 endianness (zslice 2 4 remaining);
    if negb ((major =? 2) && (minor =? 4)) then Err (CUnsupportedVersion Pcap major minor) else
    snap_len ← decode_u32 endianness (zslice 12 16 remaining);
    if snap_len =? 0 then Err (CInvalidData Pcap "snapshot length must be non-zero") else
    network_word ← decode_u32 endianness (zslice 16 20 remaining);
    let link := Z.land network_word 65535 in
    Ok (mkPcapState endianness precision snap_len link,
        mkPcapHeader endianness (precision_resolution precision) snap_len network_word (magic ++ remaining))).

Definition pcap_record (state : PcapState) (seconds fraction captured original : Z) (raw : bytes)
  : outcome CaptureError CaptureRecord :=
  nanoseconds ← match ps_precision state with
                | Microseconds => expect (checked_mul u32_max fraction 1000)
                | Nanoseconds => Ok fraction
                end;
  span ← duration seconds nanoseconds;
  timestamp ← ok_or (CTimestampOutOfRange Pcap) (checked_time span);
  data ← index_range raw PCAP_RECORD_HEADER_LEN (zlen raw);
  frame ← map_err CFrame
    (try_with_optional_timestamp (Some timestamp) (ps_link_type state) (mkLengths captured original) data);
  Ok (mkCaptureRecord (KindPacket BlockClassic None None []) (Some frame) Pcap raw).

Definition read_next_pcap_record (state : PcapState) (max_size : Z) : stm Source (option CaptureRecord) :=
  let endianness := ps_endianness state in
  header ← read_exact_or_eof PCAP_RECORD_HEADER_LEN "pcap packet header";
  match header with
  | None => mret None
  | Some header =>
      seconds ← lift (decode_u32 endianness (zslice 0 4 header));
      fraction ← lift (decode_u32 endianness (zslice 4 8 header));
      captured ← lift (decode_u32 endianness (zslice 8 12 header));
      original ← lift (decode_u32 endianness (zslice 12 16 header));
      let denominator := match ps_precision state with Microseconds => 1000000 | Nanoseconds => 1000000000 end in
      if denominator <=? fraction then throw (CInvalidTimestampFraction fraction denominator) else
      _ ← lift (validate_declared_lengths captured original max_size "pcap packet");
      if ps_snap_len state <? captured
      then throw (CInvalidData Pcap "captured packet exceeds the file snap length") else
      let record_length := saturating_add usize_max PCAP_RECORD_HEADER_LEN captured in
      _ ← lift (try_reserve alloc "pcap packet data" record_length);
      raw ← read_exact_append alloc header record_length captured "pcap packet data";
      record ← lift (pcap_record state seconds fraction captured original raw);
      mret (Some record)
  end.

(** ** Options ([pcapng/options.rs]) *)

(** One turn of the loop; each turn moves the offset by at least four bytes. *)
Fixpoint parse_options_loop (fuel : nat) (options : bytes) (endianness : Endianness) (context : string)
  (max_options offset : Z) (parsed : list PcapNgOption) : outcome CaptureError (list PcapNgOption) :=
  match fuel with
  | O => Panic
  | S fuel =>
      if zlen options <=? offset then Ok parsed else
      header_end ← ok_or (CInvalidData PcapNg "option length overflow") (checked_add usize_max offset 4);
      header ← ok_or (CTruncated context header_end (zlen options)) (get_range options offset header_end);
      code ← decode_u16 endianness header;
      length ← decode_u16 endianness (zdrop 2 header);
      let offset := header_end in
      if code =? PCAPNG_OPTION_END then
        if negb (length =? 0) then Err (CInvalidData PcapNg "end-of-options marker has a non-zero length") else
        rest ← index_range options offset (zlen options);
        if existsb (fun byte => negb (byte =? 0)) rest
        then Err (CInvalidData PcapNg "non-zero bytes follow the end-of-options marker") else Ok parsed
      else
        padded_length ← align_to_usize length;
        last ← ok_or (CInvalidData PcapNg "option length overflow") (checked_add usize_max offset padded_length);
        if zlen options <? last then Err (CTruncated context last (zlen options)) else
        if max_options <=? zlen parsed then Err (COptionLimit max_options) else
        value_end ← add_u offset length;
        value ← index_range options offset value_end;
        parse_options_loop fuel options endianness context max_options last (parsed ++ [mkPcapNgOption code value])
  end.

Definition parse_options (options : bytes) (endianness : Endianness) (context : string) (max_options : Z)
  : outcome CaptureError (list PcapNgOption) :=
  parse_options_loop (Z.to_nat (zlen options) + 1) options endianness context max_options 0 [].

Definition unique_option (options : list PcapNgOption) (code : Z) (duplicate : string)
  : outcome CaptureError (option bytes) :=
  match List.filter (fun option => opt_code option =? code) options with
  | [] => Ok None
  | [option] => Ok (Some (opt_value option))
  | _ => Err (CInvalidData PcapNg duplicate)
  end.

(** ** Interface descriptions ([pcapng/interface.rs]) *)

Definition parse_interface_description (body : bytes) (endianness : Endianness) (max_options : Z)
  : outcome CaptureError (Interface * list PcapNgOption) :=
  if zlen body <? 8
  then Err (CInvalidData PcapNg "interface description block is shorter than 8 bytes") else
  link ← decode_u16 endianness body;
  word ← index_range body 4 8;
  snap_len ← decode_u32 endianness word;
  tail ← index_range body 8 (zlen body);
  options ← parse_options tail endianness "pcapng interface options" max_options;
  tsresol ← unique_option options PCAPNG_OPTION_IF_TSRESOL "if_tsresol option appears more than once";
  resolution ← match tsresol with
               | None => Ok DEFAULT_TIMESTAMP_RESOLUTION
               | Some [tsresol] => Ok (from_tsresol tsresol)
               | Some _ => Err (CInvalidData PcapNg "if_tsresol option must contain one byte")
               end;
  tsoffset ← unique_option options PCAPNG_OPTION_IF_TSOFFSET "if_tsoffset option appears more than once";
  offset ← match tsoffset with
           | None => Ok 0
           | Some value => if zlen value =? 8 then decode_i64 endianness value
                           else Err (CInvalidData PcapNg "if_tsoffset option must contain eight bytes")
           end;
  Ok (mkInterface link snap_len resolution offset, options).

(** ** Packets ([pcapng/packet.rs]) *)

Record ParsedPacket : Type := mkParsedPacket {
  pp_frame : Frame;
  pp_interface_id : Z;
  pp_options : list PcapNgOption
}.

Definition with_identity (f : Frame) (interface : option Z) (direction : option Direction) : Frame :=
  mkFrame (fr_timestamp f) (captured_length f) (original_length f) (link_type f) interface direction (frame_bytes f).

Definition packet_direction (options : list PcapNgOption) (endianness : Endianness)
  : outcome CaptureError (option Direction) :=
  flags ← unique_option options PCAPNG_OPTION_EPB_FLAGS "packet flags option appears more than once";
  match flags with
  | None => Ok None
  | Some flags =>
      if negb (zlen flags =? 4) then Err (CInvalidData PcapNg "epb_flags option must contain four bytes") else
      word ← decode_u32 endianness flags;
      Ok (Some (match Z.land word 3 with 1 => Inbound | 2 => Outbound | _ => UnknownDirection end))
  end.

Definition parse_packet (body : bytes) (endianness : Endianness) (interfaces : list Interface)
  (interface_base max_size max_options : Z) (obsolete_layout : bool) : outcome CaptureError ParsedPacket :=
  header ← ok_or (CInvalidData PcapNg (if obsolete_layout then "packet block is shorter than 20 bytes"
                                       else "enhanced packet block is shorter than 20 bytes"))
             (get_range body 0 20);
  interface_id ← (if obsolete_layout then decode_u16 endianness (zslice 0 2 header)
                  else decode_u32 endianness (zslice 0 4 header));
  high ← decode_u32 endianness (zslice 4 8 header);
  low ← decode_u32 endianness (zslice 8 12 header);
  let timestamp_ticks := Z.lor (Z.shiftl high 32) low in
  captured ← decode_u32 endianness (zslice 12 16 header);
  original ← decode_u32 endianness (zslice 16 20 header);
  _ ← validate_declared_lengths captured original max_size "pcapng packet";
  interface ← ok_or (CUndefinedInterface interface_id (zlen interfaces)) (zget interfaces interface_id);
  if negb (if_snap_len interface =? 0) && (if_snap_len interface <? captured)
  then Err (CInvalidData PcapNg "captured packet exceeds its interface snap length") else
  padded_length ← align_to_usize captured;
  data_end ← ok_or (CInvalidData PcapNg "packet data offset overflow") (checked_add usize_max 20 padded_length);
  if zlen body <? data_end then Err (CTruncated "pcapng packet data" data_end (zlen body)) else
  tail ← index_range body data_end (zlen body);
  options ← parse_options tail endianness "pcapng packet options" max_options;
  direction ← packet_direction options endianness;
  timestamp ← timestamp_from_ticks timestamp_ticks (if_timestamp_resolution interface) (if_timestamp_offset interface);
  global_interface ← ok_or (CInterfaceLimit usize_max) (checked_add u32_max interface_base interface_id);
  last ← add_u 20 captured;
  data ← pcapng_packet_bytes alloc body 20 last;
  frame ← map_err CFrame (try_with_optional_timestamp (Some timestamp) (if_link_type interface)
                            (mkLengths captured original) data);
  Ok (mkParsedPacket (with_identity frame (Some global_interface) direction) interface_id options).

Definition parse_simple_packet (body : bytes) (endianness : Endianness) (interfaces : list Interface)
  (interface_base max_size : Z) : outcome CaptureError ParsedPacket :=
  if zlen body <? 4 then Err (CInvalidData PcapNg "simple packet block is shorter than four bytes") else
  interface ← ok_or (CUndefinedInterface 0 0) (zget interfaces 0);
  original ← decode_u32 endianness body;
  let captured := if if_snap_len interface =? 0 then original else Z.min original (if_snap_len interface) in
  _ ← validate_declared_lengths captured original max_size "pcapng simple packet";
  padded_length ← align_to_usize captured;
  expected ← ok_or (CInvalidData PcapNg "simple packet data offset overflow") (checked_add usize_max 4 padded_length);
  if negb (zlen body =? expected)
  then Err (CInvalidData PcapNg "simple packet block length does not match its packet length") else
  last ← add_u 4 captured;
  data ← pcapng_packet_bytes alloc body 4 last;
  frame ← map_err CFrame (try_with_optional_timestamp None (if_link_type interface) (mkLengths captured original) data);
  Ok (mkParsedPacket (with_identity frame (Some interface_base) (fr_direction frame)) 0 []).

(** ** Sections ([pcapng/section.rs]) *)

Record SectionHeader : Type := mkSectionHeader {
  sh_endianness : Endianness;
  sh_major : Z;
  sh_minor : Z;
  sh_length : option Z;
  sh_options : list PcapNgOption;
  sh_block_length : Z;
  sh_raw : bytes
}.

Definition validate_pcapng_block_length (length max_size : Z) : outcome CaptureError unit :=
  if (length <? 12) || negb (length mod 4 =? 0) then Err (CInvalidBlockLength length) else
  if max_size <? length then Err (CSizeLimitExceeded "pcapng block" length max_size) else Ok tt.

Definition read_pcapng_block_header : stm Source (option bytes) := read_exact_or_eof 8 "pcapng block header".

Definition byte_order (raw_bom : bytes) : outcome CaptureError Endianness :=
  if bytes_eqb raw_bom [77; 60; 43; 26] then Ok Little else
  if bytes_eqb raw_bom [26; 43; 60; 77] then Ok Big else
  Err (CInvalidData PcapNg "invalid section byte-order magic").

Definition over_budget (metadata_budget : option (Z * Z)) (length : Z) : option Z :=
  match metadata_budget with
  | Some (consumed, limit) =>
      match checked_add usize_max consumed length with
      | None => Some limit
      | Some actual => if limit <? actual then Some limit else None
      end
  | None => None
  end.

(** The fields of a section header, from the bytes after its byte-order magic. *)
Definition parse_section_header (raw_length raw_bom scratch : bytes) (endianness : Endianness)
  (block_length max_options : Z) : outcome CaptureError SectionHeader :=
  split ← sub_u (zlen scratch) 4;
  fields ← index_range scratch 0 split;
  footer ← index_range scratch split (zlen scratch);
  trailing_length ← decode_u32 endianness footer;
  if negb (trailing_length =? block_length) then Err (CBlockLengthMismatch block_length trailing_length) else
  word ← index_range fields 0 2;
  major ← decode_u16 endianness word;
  word ← index_range fields 2 4;
  minor ← decode_u16 endianness word;
  if negb (major =? 1) || (negb (minor =? 0) && negb (minor =? 2))
  then Err (CUnsupportedVersion PcapNg major minor) else
  word ← index_range fields 4 12;
  section_length ← decode_i64 endianness word;
  if section_length <? -1
  then Err (CInvalidData PcapNg "section length is negative but is not the unknown-length sentinel") else
  if (0 <=? section_length) && negb (Z.rem section_length 4 =? 0)
  then Err (CInvalidData PcapNg "section length is not a multiple of four") else
  tail ← index_range fields 12 (zlen fields);
  options ← parse_options tail endianness "pcapng section options" max_options;
  _ ← try_reserve alloc "pcapng section header" block_length;
  Ok (mkSectionHeader endianness major minor (if 0 <=? section_length then Some section_length else None) options
        block_length (PCAPNG_SECTION_HEADER ++ raw_length ++ raw_bom ++ scratch)).

(** The rest of a section header whose byte order is known. *)
Definition read_section_rest (raw_length raw_bom : bytes) (endianness : Endianness) (max_size max_options : Z)
  (metadata_budget : option (Z * Z)) : stm Source SectionHeader :=
  block_length ← lift (decode_u32 endianness raw_length);
  _ ← lift (validate_pcapng_block_length block_length max_size);
  match over_budget metadata_budget block_length with
  | Some limit => throw (CMetadataByteLimit limit)
  | None =>
      if block_length <? 28 then throw (CInvalidBlockLength block_length) else
      scratch ← read_exact_vec alloc (block_length - 12) "pcapng section header";
      lift (parse_section_header raw_length raw_bom scratch endianness block_length max_options)
  end.

Definition read_section_header_with_length (raw_length : bytes) (max_size max_options : Z)
  (metadata_budget : option (Z * Z)) : stm Source SectionHeader :=
  raw_bom ← read_exact_counted 4 "pcapng byte-order magic";
  endianness ← lift (byte_order raw_bom);
  read_section_rest raw_length raw_bom endianness max_size max_options metadata_budget.

Definition read_section_header_after_type (max_size max_options : Z) : stm Source SectionHeader :=
  raw_length ← read_exact_counted 4 "pcapng section header length";
  read_section_header_with_length raw_length max_size max_options None.

(** ** Decoder state ([pcapng/decode.rs]) *)

Record PcapNgState : Type := mkPcapNgState {
  ng_endianness : Endianness;
  ng_interface_base : Z;
  ng_section_index : Z;
  ng_remaining_in_section : option Z;
  ng_metadata_blocks : Z;
  ng_metadata_bytes : Z
}.

Definition PcapNgState_new (header : SectionHeader) : PcapNgState :=
  mkPcapNgState (sh_endianness header) 0 0 (sh_length header) 0 0.

(** [all_interfaces.get(base..).unwrap_or_default()]. *)
Definition section_interfaces (s : PcapNgState) (all_interfaces : list Interface) : list Interface :=
  zdrop (ng_interface_base s) all_interfaces.

Definition start_section (header : SectionHeader) (all_interfaces : list Interface) (max_interfaces : Z)
  : stm PcapNgState unit :=
  base ← lift (ok_or (CInterfaceLimit max_interfaces)
                 (if zlen all_interfaces <=? u32_max then Some (zlen all_interfaces) else None));
  _ ← modify (fun s => mkPcapNgState (ng_endianness s) base (ng_section_index s) (ng_remaining_in_section s)
                         (ng_metadata_blocks s) (ng_metadata_bytes s));
  index ← gets ng_section_index;
  index ← lift (ok_or (CInterfaceLimit max_interfaces) (checked_add u64_max index 1));
  modify (fun s => mkPcapNgState (sh_endianness header) (ng_interface_base s) index (sh_length header)
                     (ng_metadata_blocks s) (ng_metadata_bytes s)).

Definition commit_block (block_length : Z) : stm PcapNgState unit :=
  modify (fun s => mkPcapNgState (ng_endianness s) (ng_interface_base s) (ng_section_index s)
                     (option_map (fun remaining => saturating_sub remaining block_length) (ng_remaining_in_section s))
                     (ng_metadata_blocks s) (ng_metadata_bytes s)).

Definition set_metadata (blocks consumed : Z) (s : PcapNgState) : PcapNgState :=
  mkPcapNgState (ng_endianness s) (ng_interface_base s) (ng_section_index s) (ng_remaining_in_section s) blocks consumed.

Definition account_metadata (length : Z) (limits : ReaderLimits) : stm PcapNgState unit :=
  _ ← modify (fun s => set_metadata (saturating_add usize_max (ng_metadata_blocks s) 1) (ng_metadata_bytes s) s);
  blocks ← gets ng_metadata_blocks;
  if rl_max_metadata_blocks_per_frame limits <? blocks
  then throw (CMetadataBlockLimit (rl_max_metadata_blocks_per_frame limits)) else
  consumed ← gets ng_metadata_bytes;
  consumed ← lift (ok_or (CMetadataByteLimit (rl_max_metadata_bytes_per_frame limits))
    (actual ← checked_add usize_max consumed length;
     if actual <=? rl_max_metadata_bytes_per_frame limits then Some actual else None));
  modify (fun s => set_metadata (ng_metadata_blocks s) consumed s).

Definition reset_metadata : stm PcapNgState unit := modify (set_metadata 0 0).

(** The object the block decoder works on: the stream, its own state and the
    table of all interfaces. *)
Record NgReader : Type := mkNgReader {
  nr_source : Source;
  nr_state : PcapNgState;
  nr_interfaces : list Interface
}.

Definition on_source {A} (m : stm Source A) : stm NgReader A :=
  zoom nr_source (fun source r => mkNgReader source (nr_state r) (nr_interfaces r)) m.

Definition on_state {A} (m : stm PcapNgState A) : stm NgReader A :=
  zoom nr_state (fun state r => mkNgReader (nr_source r) state (nr_interfaces r)) m.

Definition add_interface (description : Interface) (limits : ReaderLimits) : stm NgReader Z :=
  local ← gets (fun r => zlen (section_interfaces (nr_state r) (nr_interfaces r)));
  if rl_max_interfaces_per_section limits <=? local
  then throw (CInterfaceLimit (rl_max_interfaces_per_section limits)) else
  total ← gets (fun r => zlen (nr_interfaces r));
  if rl_max_total_interfaces limits <=? total
  then throw (CTotalInterfaceLimit (rl_max_total_interfaces limits)) else
  global_id ← lift (ok_or (CTotalInterfaceLimit (rl_max_total_interfaces limits))
                      (if total <=? u32_max then Some total else None));
  _ ← modify (fun r => mkNgReader (nr_source r) (nr_state r) (nr_interfaces r ++ [description]));
  mret global_id.

(** ** Blocks ([pcapng/decode/framing.rs]) *)

Record FramedBlock : Type := mkFramedBlock {
  fb_block_type : Z;
  fb_body : bytes;
  fb_raw : bytes
}.

Definition packet_block_kind (block_type : Z) : option PacketBlockKind :=
  if block_type =? PCAPNG_ENHANCED_PACKET_BLOCK then Some BlockEnhanced else
  if block_type =? PCAPNG_PACKET_BLOCK then Some BlockObsolete else
  if block_type =? PCAPNG_SIMPLE_PACKET_BLOCK then Some BlockSimple else None.

(** The rest of a block whose header has been accepted. *)
Definition read_block_rest (raw_header : bytes) (endianness : Endianness) (block_type block_length : Z) : stm NgReader FramedBlock :=
  _ ← lift (try_reserve alloc "pcapng source block" block_length);
  raw ← on_source (read_exact_append alloc raw_header block_length (block_length - 8) "pcapng block");
  body_end ← lift (sub_u (zlen raw) 4);
  footer ← lift (index_range raw body_end (zlen raw));
  trailing_length ← lift (decode_u32 endianness footer);
  if negb (trailing_length =? block_length) then throw (CBlockLengthMismatch block_length trailing_length) else
  _ ← on_state (commit_block block_length);
  body ← lift (index_range raw 8 body_end);
  mret (mkFramedBlock block_type body raw).

Definition read_block (raw_header : bytes) (limits : ReaderLimits) : stm NgReader FramedBlock :=
  endianness ← gets (fun r => ng_endianness (nr_state r));
  block_type ← lift (decode_u32 endianness (zslice 0 4 raw_header));
  block_length ← lift (decode_u32 endianness (zslice 4 8 raw_header));
  _ ← lift (validate_pcapng_block_length block_length (rl_max_size limits));
  remaining ← gets (fun r => ng_remaining_in_section (nr_state r));
  _ ← lift (match remaining with
            | Some remaining =>
                if remaining <? block_length then Err (CBlockCrossesSectionBoundary block_length remaining) else Ok tt
            | None => Ok tt
            end);
  _ ← (if is_none (packet_block_kind block_type) then on_state (account_metadata block_length limits) else mret tt);
  read_block_rest raw_header endianness block_type block_length.

(** ** Records ([pcapng/decode/record.rs]) *)

Definition ng_record (kind : RecordKind) (frame : option Frame) (raw : bytes) : CaptureRecord :=
  mkCaptureRecord kind frame PcapNg raw.

Definition decode_interface (body raw : bytes) (limits : ReaderLimits) : stm NgReader CaptureRecord :=
  state ← gets nr_state;
  '(description, options) ←
    lift (parse_interface_description body (ng_endianness state) (rl_max_options_per_block limits));
  local ← gets (fun r => zlen (section_interfaces state (nr_interfaces r)));
  local_id ← lift (ok_or (CInterfaceLimit (rl_max_interfaces_per_section limits))
                     (if local <=? u32_max then Some local else None));
  global_id ← add_interface description limits;
  mret (ng_record (KindMetadata (MetaInterfaceDescription (ng_section_index state) local_id global_id description options))
          None raw).

Definition decode_packet (kind : PacketBlockKind) (body raw : bytes) (limits : ReaderLimits) : stm NgReader CaptureRecord :=
  state ← gets nr_state;
  interfaces ← gets (fun r => section_interfaces state (nr_interfaces r));
  let endianness := ng_endianness state in
  let base := ng_interface_base state in
  parsed ← lift (match kind with
    | BlockEnhanced =>
        parse_packet body endianness interfaces base (rl_max_size limits) (rl_max_options_per_block limits) false
    | BlockObsolete =>
        parse_packet body endianness interfaces base (rl_max_size limits) (rl_max_options_per_block limits) true
    | BlockSimple | BlockClassic => parse_simple_packet body endianness interfaces base (rl_max_size limits)
    end);
  _ ← on_state reset_metadata;
  mret (ng_record (KindPacket kind (Some (ng_section_index state)) (Some (pp_interface_id parsed)) (pp_options parsed))
          (Some (pp_frame parsed)) raw).

Definition decode_metadata (block_type : Z) (body raw : bytes) : stm NgReader CaptureRecord :=
  state ← gets nr_state;
  interfaces ← gets (fun r => section_interfaces state (nr_interfaces r));
  let section := ng_section_index state in
  kind ← lift (
    if block_type =? PCAPNG_NAME_RESOLUTION_BLOCK then Ok (MetaNameResolution section) else
    if block_type =? PCAPNG_INTERFACE_STATISTICS_BLOCK then
      if zlen body <? 4
      then Err (CInvalidData PcapNg "interface statistics block is shorter than four bytes") else
      interface_id ← decode_u32 (ng_endianness state) body;
      if zlen interfaces <=? interface_id then Err (CUndefinedInterface interface_id (zlen interfaces)) else
      Ok (MetaInterfaceStatistics section interface_id) else
    if (block_type =? PCAPNG_CUSTOM_BLOCK) || (block_type =? PCAPNG_CUSTOM_BLOCK_NO_COPY)
    then Ok (MetaCustom section block_type) else
    Ok (MetaUnknown section block_type));
  mret (ng_record (KindMetadata kind) None raw).

Definition decode_record (block : FramedBlock) (limits : ReaderLimits) : stm NgReader CaptureRecord :=
  if fb_block_type block =? PCAPNG_INTERFACE_DESCRIPTION_BLOCK
  then decode_interface (fb_body block) (fb_raw block) limits
  else match packet_block_kind (fb_block_type block) with
       | Some kind => decode_packet kind (fb_body block) (fb_raw block) limits
       | None => decode_metadata (fb_block_type block) (fb_body block) (fb_raw block)
       end.

Definition section_info (index : Z) (header : SectionHeader) : SectionInfo :=
  mkSectionInfo index (sh_endianness header) (sh_major header) (sh_minor header) (sh_length header)
    (sh_options header) (sh_raw header).

Definition read_section_record (raw_header : bytes) (limits : ReaderLimits) : stm NgReader CaptureRecord :=
  state ← gets nr_state;
  _ ← lift (match ng_remaining_in_section state with
            | Some remaining => if remaining =? 0 then Ok tt else Err (CSectionHeaderBeforeBoundary remaining)
            | None => Ok tt
            end);
  header ← on_source (read_section_header_with_length (zslice 4 8 raw_header) (rl_max_size limits)
    (rl_max_options_per_block limits) (Some (ng_metadata_bytes state, rl_max_metadata_bytes_per_frame limits)));
  _ ← on_state (account_metadata (sh_block_length header) limits);
  interfaces ← gets nr_interfaces;
  _ ← on_state (start_section header interfaces (rl_max_interfaces_per_section limits));
  index ← gets (fun r => ng_section_index (nr_state r));
  mret (mkCaptureRecord (KindMetadata (MetaSection (section_info index header))) None PcapNg (sh_raw header)).

Definition read_next_pcapng_record (limits : ReaderLimits) : stm NgReader (option CaptureRecord) :=
  remaining ← gets (fun r => ng_remaining_in_section (nr_state r));
  _ ← lift (match remaining with
            | Some remaining =>
                if negb (remaining =? 0) && (remaining <? 12) then Err (CSectionRemainderTooSmall remaining) else Ok tt
            | None => Ok tt
            end);
  raw_header ← on_source read_pcapng_block_header;
  match raw_header with
  | None =>
      lift (match remaining with
            | Some remaining => if negb (remaining =? 0) then Err (CSectionEndedEarly remaining) else Ok None
            | None => Ok None
            end)
  | Some raw_header =>
      record ← (if bytes_eqb (ztake 4 raw_header) PCAPNG_SECTION_HEADER
                then read_section_record raw_header limits
                else block ← read_block raw_header limits; decode_record block limits);
      mret (Some record)
  end.

(** ** The reader ([reader.rs])

    [check_interrupted] asks the cancellation signal and the deadline.  It is
    called before a record is read and once more afterwards; its answers are
    arguments, [None] for [Ok]. *)
Inductive ReaderState : Type :=
| ReaderPcap (state : PcapState)
| ReaderPcapNg (state : PcapNgState).

Record Reader : Type := mkReader {
  rd_inner : Source;
  rd_state : ReaderState;
  rd_header : CaptureHeader;
  rd_interfaces : list Interface;
  rd_declares_fcs : bool;
  rd_limits : ReaderLimits;
  rd_finished : bool
}.

Definition answer (check : option CaptureError) : outcome CaptureError unit :=
  match check with Some e => Err e | None => Ok tt end.

Definition read_header (limits : ReaderLimits) : stm Source Reader :=
  magic ← read_exact_or_eof 4 "capture magic";
  magic ← lift (ok_or CEmptyInput magic);
  '(state, header) ←
    (if bytes_eqb magic PCAPNG_SECTION_HEADER then
       header ← read_section_header_after_type (rl_max_size limits) (rl_max_options_per_block limits);
       mret (ReaderPcapNg (PcapNgState_new header), HeaderPcapNg (section_info 0 header))
     else match pcap_layout magic with
          | None => throw (CUnrecognizedFormat magic)
          | Some (endianness, precision) =>
              '(state, header) ← read_pcap_header magic endianness precision;
              mret (ReaderPcap state, HeaderPcap header)
          end);
  let interfaces := match state with ReaderPcap state => [PcapState_interface state] | ReaderPcapNg _ => [] end in
  if rl_max_total_interfaces limits <? zlen interfaces
  then throw (CTotalInterfaceLimit (rl_max_total_interfaces limits)) else
  let declares_fcs := match header with HeaderPcap header => PcapHeader_declares_fcs header | HeaderPcapNg _ => false end in
  fun source => (Ok (mkReader source state header interfaces declares_fcs limits false), source).

(** The deadline is asked before and after. *)
Definition Reader_with_control (limits : ReaderLimits) (before after : option CaptureError) : stm Source Reader :=
  fun source =>
  match before with
  | Some e => (Err e, source)
  | None => let '(result, source') := read_header limits source in
            match after with Some e => (Err e, source') | None => (result, source') end
  end.

Definition Reader_format (r : Reader) : Format := CaptureHeader_format (rd_header r).

Definition Reader_endianness (r : Reader) : Endianness :=
  match rd_state r with ReaderPcap state => ps_endianness state | ReaderPcapNg state => ng_endianness state end.

Definition refuse_declared_fcs (r : Reader) : outcome CaptureError unit :=
  if rd_declares_fcs r then Err (CTransformMetadata "declared frame check sequence") else Ok tt.

Definition set_finished (finished : bool) (r : Reader) : Reader :=
  mkReader (rd_inner r) (rd_state r) (rd_header r) (rd_interfaces r) (rd_declares_fcs r) (rd_limits r) finished.

(** The call on the state of either format. *)
Definition read_state : stm Reader (option CaptureRecord) := fun r =>
  match rd_state r with
  | ReaderPcap state =>
      let '(result, source) := read_next_pcap_record state (rl_max_size (rd_limits r)) (rd_inner r) in
      (result, mkReader source (rd_state r) (rd_header r) (rd_interfaces r) (rd_declares_fcs r) (rd_limits r) (rd_finished r))
  | ReaderPcapNg state =>
      let '(result, n) := read_next_pcapng_record (rd_limits r) (mkNgReader (rd_inner r) state (rd_interfaces r)) in
      (result, mkReader (nr_source n) (ReaderPcapNg (nr_state n)) (rd_header r) (nr_interfaces n) (rd_declares_fcs r)
                 (rd_limits r) (rd_finished r))
  end.

Definition record_declares_fcs (record : option CaptureRecord) : bool :=
  match record with
  | Some record =>
      match rec_kind record with
      | KindMetadata (MetaInterfaceDescription _ _ _ _ options) => existsb PcapNgOption_declares_fcs options
      | _ => false
      end
  | None => false
  end.

Definition read_record (before after : option CaptureError) : stm Reader (option CaptureRecord) :=
  _ ← lift (answer before);
  record ← (fun r => match read_state r with
                     | (Err e, r') => (Err (default e after), r')
                     | result => result
                     end);
  _ ← lift (answer after);
  _ ← modify (fun r => mkReader (rd_inner r) (rd_state r) (rd_header r) (rd_interfaces r)
                         (rd_declares_fcs r || record_declares_fcs record) (rd_limits r) (rd_finished r));
  mret record.

Definition next_record (before after : option CaptureError) : stm Reader (option CaptureRecord) := fun r =>
  if rd_finished r then (Ok None, r) else
  match read_record before after r with
  | (Ok (Some record), r') => (Ok (Some record), r')
  | (Ok None, r') => (Ok None, set_finished true r')
  | (Err e, r') => (Err e, set_finished true r')
  | (Panic, r') => (Panic, r')
  end.

(** Each turn reads one record; [checks] gives the answers of its two checks. *)
Fixpoint next_frame (fuel : nat) (checks : nat -> option CaptureError * option CaptureError) : stm Reader (option Frame) :=
  match fuel with
  | O => fun r => (Panic, r)
  | S fuel =>
      record ← next_record (checks fuel).1 (checks fuel).2;
      match record with
      | None => mret None
      | Some record =>
          match rec_frame record with
          | Some frame => mret (Some frame)
          | None => next_frame fuel checks
          end
      end
  end.

(** [rewind]: [seek] is what rewinding the stream gives, its error or the stream
    from its start; [checks] are the answers of the five checks in their order. *)
Definition set_inner (source : Source) (r : Reader) : Reader :=
  mkReader source (rd_state r) (rd_header r) (rd_interfaces r) (rd_declares_fcs r) (rd_limits r) (rd_finished r).

Definition rewind (seek : IoError + Source) (checks : nat -> option CaptureError) : stm Reader unit :=
  _ ← modify (set_finished true);
  _ ← lift (answer (checks 0%nat));
  _ ← match seek with
      | inl e => throw (default (CIo e) (checks 1%nat))
      | inr source => modify (set_inner source)
      end;
  _ ← lift (answer (checks 1%nat));
  limits ← gets rd_limits;
  fresh ← zoom rd_inner set_inner (Reader_with_control limits (checks 2%nat) (checks 3%nat));
  _ ← modify (fun r => mkReader (rd_inner r) (rd_state fresh) (rd_header fresh) (rd_interfaces fresh)
                         (rd_declares_fcs fresh) (rd_limits r) (rd_finished r));
  _ ← lift (answer (checks 4%nat));
  modify (set_finished false).
End reading.
