(* ===== verification/CaptureWrite.v ===== *)
(** * Capture files: writing

    [classic/encode.rs], [pcapng/encode.rs] and [writer.rs]: the writer checks a
    frame against its format, its interfaces and its budget, and writes it to a
    stream that may fail at any byte. *)

From stdpp Require Import base tactics option list numbers strings.
From Stdlib Require Import ZArith Lia.
From S2P Require Import Prelude Checksum Ordered Flow Headers Frame Transform CaptureWire CaptureRead.

(** The whole array behind a slice writer, zero where nothing was written. *)
Definition slice_array (s : SliceWriter) : bytes :=
  slice_filled s ++ zrep (slice_length s - zlen (slice_filled s)) 0.

(** Writes to a local array of that length, and its state afterwards. *)
Definition in_array {S A} (length : Z) (m : stm SliceWriter A) : stm S SliceWriter :=
  fun s => match m (mkSliceWriter [] length) with
           | (Ok _, array) => (Ok array, s)
           | (Err e, _) => (Err e, s)
           | (Panic, _) => (Panic, s)
           end.

(** ** Classic records ([classic/encode.rs]) *)

Definition write_pcap_header (endianness : Endianness) (precision : TimestampPrecision) (snap_len link : Z) : stm Sink unit :=
  _ ← write_all (pcap_magic endianness precision);
  _ ← write_u16 endianness 2;
  _ ← write_u16 endianness 4;
  _ ← write_u32 endianness 0;
  _ ← write_u32 endianness 0;
  _ ← write_u32 endianness snap_len;
  write_u32 endianness link.

Definition write_pcap_frame (endianness : Endianness) (seconds fraction : Z) (frame : Frame) : stm Sink unit :=
  header ← in_array PCAP_RECORD_HEADER_LEN
    (write_words endianness [seconds; fraction; captured_length frame; original_length frame]);
  write_all_parts [slice_array header; frame_bytes frame].

(** ** Blocks ([pcapng/encode.rs]) *)

Record InterfacePlan : Type := mkInterfacePlan {
  ip_id : Z;
  ip_description : Interface;
  ip_requires_description_block : bool
}.

Definition interface_description_base_length (timestamp_offset : Z) : Z :=
  if timestamp_offset =? 0 then 32 else 44.

Definition description_block_length (plan : InterfacePlan) : Z :=
  if ip_requires_description_block plan
  then interface_description_base_length (if_timestamp_offset (ip_description plan)) else 0.

Definition write_section_header (endianness : Endianness) : stm Sink unit :=
  _ ← write_u32 endianness PCAPNG_SECTION_HEADER_BLOCK;
  _ ← write_u32 endianness 28;
  _ ← write_u32 endianness PCAPNG_BYTE_ORDER_MAGIC;
  _ ← write_u16 endianness 1;
  _ ← write_u16 endianness 0;
  _ ← write_i64 endianness (-1);
  write_u32 endianness 28.

(** [4 + value.len().div_ceil(4) * 4]. *)
Definition option_length (option : PcapNgOption) : outcome CaptureError Z :=
  padded ← expect (checked_mul usize_max (div_ceil (zlen (opt_value option)) 4) 4);
  add_u 4 padded.

Fixpoint options_length (length : Z) (options : list PcapNgOption) : outcome CaptureError Z :=
  match options with
  | [] => Ok length
  | option :: rest =>
      more ← option_length option;
      length ← ok_or (CInvalidData PcapNg "interface option length overflow") (checked_add usize_max length more);
      options_length length rest
  end.

Fixpoint write_options (endianness : Endianness) (options : list PcapNgOption) : stm Sink unit :=
  match options with
  | [] => mret tt
  | option :: rest =>
      _ ← write_u16 endianness (opt_code option);
      _ ← write_u16 endianness (zlen (opt_value option) mod 65536);
      _ ← write_all (opt_value option);
      _ ← write_padding (as_u32 (zlen (opt_value option)));
      write_options endianness rest
  end.

Definition write_interface_description (endianness : Endianness) (description : Interface) (options : list PcapNgOption)
  : stm Sink unit :=
  let base := interface_description_base_length (if_timestamp_offset description) in
  length ← lift (options_length base options);
  block_length ← lift (usize_to_u32_limit length);
  _ ← write_u32 endianness PCAPNG_INTERFACE_DESCRIPTION_BLOCK;
  _ ← write_u32 endianness block_length;
  _ ← write_u16 endianness (if_link_type description mod 65536);
  _ ← write_u16 endianness 0;
  _ ← write_u32 endianness (if_snap_len description);
  _ ← write_u16 endianness PCAPNG_OPTION_IF_TSRESOL;
  _ ← write_u16 endianness 1;
  tsresol ← lift (to_tsresol (if_timestamp_resolution description));
  _ ← write_all [tsresol; 0; 0; 0];
  _ ← (if negb (if_timestamp_offset description =? 0) then
         _ ← write_u16 endianness PCAPNG_OPTION_IF_TSOFFSET;
         _ ← write_u16 endianness 8;
         write_i64 endianness (if_timestamp_offset description)
       else mret tt);
  _ ← write_options endianness options;
  _ ← write_u16 endianness PCAPNG_OPTION_END;
  _ ← write_u16 endianness 0;
  write_u32 endianness block_length.

Definition direction_flags (direction : Direction) : Z :=
  match direction with UnknownDirection => 0 | Inbound => 1 | Outbound => 2 end.

(** The padding, options and footer of an enhanced packet block. *)
Definition write_packet_tail (endianness : Endianness) (block_length : Z) (frame : Frame) : stm SliceWriter unit :=
  _ ← write_padding (captured_length frame);
  _ ← match fr_direction frame with
      | Some direction =>
          _ ← write_u16 endianness PCAPNG_OPTION_EPB_FLAGS;
          _ ← write_u16 endianness 4;
          _ ← write_u32 endianness (direction_flags direction);
          _ ← write_u16 endianness PCAPNG_OPTION_END;
          write_u16 endianness 0
      | None => mret tt
      end;
  write_u32 endianness block_length.

Definition write_enhanced_packet (endianness : Endianness) (interface_id timestamp block_length : Z) (frame : Frame)
  : stm Sink unit :=
  header ← in_array 28 (write_words endianness
    [PCAPNG_ENHANCED_PACKET_BLOCK; block_length; interface_id; as_u32 (Z.shiftr timestamp 32); as_u32 timestamp;
     captured_length frame; original_length frame]);
  tail ← in_array (3 + 12 + 4) (write_packet_tail endianness block_length frame);
  write_all_parts [slice_array header; frame_bytes frame; slice_filled tail].

Definition validate_new_interface (description : Interface) (existing : list Interface) (max_size max_interfaces : Z)
  : outcome CaptureError Z :=
  _ ← validate_timestamp_resolution (if_timestamp_resolution description);
  let block_length := interface_description_base_length (if_timestamp_offset description) in
  if max_size <? block_length then Err (CSizeLimitExceeded "pcapng interface description" block_length max_size) else
  next_count ← ok_or (CInterfaceLimit max_interfaces) (checked_add usize_max (zlen existing) 1);
  if max_interfaces <? next_count then Err (CInterfaceLimit max_interfaces) else
  interface_id ← ok_or (CInterfaceLimit (Z.min max_interfaces u32_max))
    (if zlen existing <=? u32_max then Some (zlen existing) else None);
  if u16_max <? if_link_type description then Err (CLinkTypeOutOfRange (if_link_type description)) else
  Ok interface_id.

(** [iter().enumerate().filter(..)] on the link type. *)
Fixpoint interfaces_matching (link index : Z) (interfaces : list Interface) : list (Z * Interface) :=
  match interfaces with
  | [] => []
  | interface :: rest =>
      if if_link_type interface =? link then (index, interface) :: interfaces_matching link (index + 1) rest
      else interfaces_matching link (index + 1) rest
  end.

Definition select_interface (frame : Frame) (interfaces : list Interface) (max_size max_interfaces : Z)
  : outcome CaptureError InterfacePlan :=
  match fr_interface frame with
  | Some interface_id =>
      interface ← ok_or (CUndefinedInterface interface_id (zlen interfaces)) (zget interfaces interface_id);
      if negb (if_link_type interface =? link_type frame)
      then Err (CInterfaceLinkTypeMismatch interface_id (if_link_type interface) (link_type frame)) else
      Ok (mkInterfacePlan interface_id interface false)
  | None =>
      match interfaces_matching (link_type frame) 0 interfaces with
      | [] =>
          snap_len ← usize_to_u32_limit max_size;
          let description := mkInterface (link_type frame) snap_len WRITER_TIMESTAMP_RESOLUTION 0 in
          id ← validate_new_interface description interfaces max_size max_interfaces;
          Ok (mkInterfacePlan id description true)
      | [(index, description)] => Ok (mkInterfacePlan (as_u32 index) description false)
      | _ => Err (CAmbiguousInterface (link_type frame))
      end
  end.

(** ** The writer ([writer.rs]) *)

Inductive WriterState : Type :=
| WriterPcap (endianness : Endianness) (precision : TimestampPrecision) (snap_len link_type : Z)
| WriterPcapNg (endianness : Endianness) (interfaces : list Interface).

Inductive FrameEncoding : Type :=
| EncodePcap (seconds fraction : Z)
| EncodePcapNg (interface_id timestamp block_length : Z) (new_interface : option Interface).

Record FramePlan : Type := mkFramePlan {
  fp_encoding : FrameEncoding;
  fp_encoded_size : Z;
  fp_budget : Budget
}.

(** The part of an output error that can be kept. *)
Record OutputFailure : Type := mkOutputFailure {
  of_kind : ErrorKind;
  of_raw_os_error : option Z;
  of_source : option (string * list string)
}.

Definition snapshot (e : IoError) : OutputFailure :=
  match e with
  | OsError code kind => mkOutputFailure kind (Some code) None
  | SimpleError kind => mkOutputFailure kind None None
  | SimpleMessage kind _ => mkOutputFailure kind None None
  | CustomError kind message sources => mkOutputFailure kind None (Some (message, sources))
  end.

(** An operating-system code has the kind it had when it was recorded. *)
Definition OutputFailure_to_error (f : OutputFailure) : CaptureError :=
  CIo (match of_raw_os_error f with
       | Some code => OsError code (of_kind f)
       | None => match of_source f with
                 | Some (message, sources) => CustomError (of_kind f) message sources
                 | None => SimpleError (of_kind f)
                 end
       end).

Record Writer : Type := mkWriter {
  wr_inner : Sink;
  wr_state : WriterState;
  wr_max_size : Z;
  wr_max_interfaces : Z;
  wr_budget : Budget;
  wr_output_failure : option OutputFailure
}.

Record PcapOptions : Type := mkPcapOptions {
  po_endianness : Endianness;
  po_timestamp_resolution : TimestampResolution;
  po_snap_len : Z;
  po_max_size : Z;
  po_stream_limits : StreamLimits
}.

Record PcapNgOptions : Type := mkPcapNgOptions {
  pn_endianness : Endianness;
  pn_max_size : Z;
  pn_max_interfaces : Z;
  pn_stream_limits : StreamLimits
}.

Definition PcapOptions_default : PcapOptions :=
  mkPcapOptions Little WRITER_TIMESTAMP_RESOLUTION DEFAULT_MAX_SIZE DEFAULT_MAX_SIZE StreamLimits_default.

Definition PcapNgOptions_default : PcapNgOptions :=
  mkPcapNgOptions Little DEFAULT_MAX_SIZE DEFAULT_MAX_INTERFACES_PER_SECTION StreamLimits_default.

Definition Writer_endianness (w : Writer) : Endianness :=
  match wr_state w with WriterPcap endianness _ _ _ => endianness | WriterPcapNg endianness _ => endianness end.

Definition set_state (state : WriterState) (w : Writer) : Writer :=
  mkWriter (wr_inner w) state (wr_max_size w) (wr_max_interfaces w) (wr_budget w) (wr_output_failure w).

Definition set_budget (budget : Budget) (w : Writer) : Writer :=
  mkWriter (wr_inner w) (wr_state w) (wr_max_size w) (wr_max_interfaces w) budget (wr_output_failure w).

Definition ensure_output_available (w : Writer) : outcome CaptureError unit :=
  match wr_output_failure w with Some failure => Err (OutputFailure_to_error failure) | None => Ok tt end.

(** An input or output error is remembered, any other passes. *)
Definition write_output {A} (operation : stm Sink A) : stm Writer A := fun w =>
  match ensure_output_available w with
  | Err e => (Err e, w)
  | Panic => (Panic, w)
  | Ok _ =>
      let '(result, inner) := operation (wr_inner w) in
      let failure := match result with Err (CIo e) => Some (snapshot e) | _ => wr_output_failure w end in
      (result, mkWriter inner (wr_state w) (wr_max_size w) (wr_max_interfaces w) (wr_budget w) failure)
  end.

Definition pcapng_interfaces (w : Writer) : outcome CaptureError (list Interface) :=
  match wr_state w with
  | WriterPcapNg _ interfaces => Ok interfaces
  | WriterPcap _ _ _ _ => Err (CWrongWriterFormat PcapNg Pcap)
  end.

Definition push_interface (description : Interface) (w : Writer) : Writer :=
  match wr_state w with
  | WriterPcapNg endianness interfaces => set_state (WriterPcapNg endianness (interfaces ++ [description])) w
  | WriterPcap _ _ _ _ => w
  end.

Definition write_interface (description : Interface) (options : list PcapNgOption) : stm Writer unit :=
  endianness ← gets Writer_endianness;
  _ ← write_output (write_interface_description endianness description options);
  _ ← (fun w => (pcapng_interfaces w, w));
  modify (push_interface description).

Fixpoint check_interface_options (length : Z) (options : list PcapNgOption) : outcome CaptureError Z :=
  match options with
  | [] => Ok length
  | option :: rest =>
      if (opt_code option =? PCAPNG_OPTION_END) || (opt_code option =? PCAPNG_OPTION_IF_TSRESOL)
         || (opt_code option =? PCAPNG_OPTION_IF_TSOFFSET) || (u16_max <? zlen (opt_value option))
      then Err (CInvalidData PcapNg "custom interface options conflict with generated metadata or exceed wire length") else
      more ← option_length option;
      check_interface_options (saturating_add usize_max length more) rest
  end.

Definition add_interface_description_with_options (description : Interface) (options : list PcapNgOption) : stm Writer Z :=
  _ ← (fun w => (ensure_output_available w, w));
  length ← lift (check_interface_options (interface_description_base_length (if_timestamp_offset description)) options);
  max_size ← gets wr_max_size;
  if negb (is_empty options) && (max_size <? length)
  then throw (CSizeLimitExceeded "interface description" length max_size) else
  max_interfaces ← gets wr_max_interfaces;
  existing ← (fun w => (pcapng_interfaces w, w));
  interface_id ← lift (validate_new_interface description existing max_size max_interfaces);
  _ ← write_interface description options;
  mret interface_id.

Definition Writer_add_interface (link : Z) : stm Writer Z :=
  _ ← (fun w => (ensure_output_available w, w));
  max_size ← gets wr_max_size;
  snap_len ← lift (usize_to_u32_limit max_size);
  add_interface_description_with_options (mkInterface link snap_len WRITER_TIMESTAMP_RESOLUTION 0) [].

Definition validate_pcap_frame (frame : Frame) (precision : TimestampPrecision) (snap_len link : Z)
  : outcome CaptureError (Z * Z) :=
  if is_some (fr_interface frame) then Err (CMetadataNotRepresentable Pcap "interface") else
  if is_some (fr_direction frame) then Err (CMetadataNotRepresentable Pcap "direction") else
  if negb (link_type frame =? link) then Err (CInterfaceLinkTypeMismatch 0 link (link_type frame)) else
  if snap_len <? captured_length frame
  then Err (CSizeLimitExceeded "pcap captured packet" (captured_length frame) snap_len) else
  timestamp ← ok_or (CTimestampUnavailable Pcap) (fr_timestamp frame);
  if timestamp <? 0 then Err (CTimestampOutOfRange Pcap) else
  let seconds := timestamp / 1000000000 in
  let subsec_nanos := timestamp mod 1000000000 in
  if u32_max <? seconds then Err (CTimestampOutOfRange Pcap) else
  match precision with
  | Microseconds =>
      if negb (subsec_nanos mod 1000 =? 0)
      then Err (CMetadataNotRepresentable Pcap "microsecond timestamp precision")
      else Ok (seconds, subsec_nanos / 1000)
  | Nanoseconds => Ok (seconds, subsec_nanos)
  end.

(** What a block writer needs of a frame: the encoding, its size, and the size of
    the interface block before it. *)
Definition prepare_pcapng (frame : Frame) (interfaces : list Interface) (max_size max_interfaces : Z)
  : outcome CaptureError (FrameEncoding * Z * Z) :=
  plan ← select_interface frame interfaces max_size max_interfaces;
  let prefix_size := description_block_length plan in
  let interface := ip_description plan in
  if negb (if_snap_len interface =? 0) && (if_snap_len interface <? captured_length frame)
  then Err (CSizeLimitExceeded "pcapng captured packet" (captured_length frame) (if_snap_len interface)) else
  captured_time ← ok_or (CTimestampUnavailable PcapNg) (fr_timestamp frame);
  timestamp ← timestamp_to_ticks captured_time (if_timestamp_resolution interface) (if_timestamp_offset interface);
  padded_packet_length ← align_to_u32 (captured_length frame);
  let option_length := if is_some (fr_direction frame) then 12 else 0 in
  block_length ← ok_or (CInvalidBlockLength u32_max)
    (length ← checked_add u32_max 32 padded_packet_length; checked_add u32_max length option_length);
  if max_size <? block_length
  then Err (CSizeLimitExceeded "pcapng enhanced packet block" block_length max_size) else
  Ok (EncodePcapNg (ip_id plan) timestamp block_length
        (if ip_requires_description_block plan then Some interface else None), block_length, prefix_size).

(** The kind [Other]. *)
Definition OTHER : ErrorKind := KindOther 0.

Definition prepare_frame (w : Writer) (frame : Frame) : outcome CaptureError FramePlan :=
  _ ← ensure_output_available w;
  _ ← validate_frame_size frame (wr_max_size w);
  budget ← Budget_after (wr_budget w) (captured_length frame);
  '(encoding, record_size, prefix_size) ←
    match wr_state w with
    | WriterPcap _ precision snap_len link =>
        '(seconds, fraction) ← validate_pcap_frame frame precision snap_len link;
        Ok (EncodePcap seconds fraction, zlen (frame_bytes frame), PCAP_RECORD_HEADER_LEN)
    | WriterPcapNg _ interfaces => prepare_pcapng frame interfaces (wr_max_size w) (wr_max_interfaces w)
    end;
  encoded_size ← ok_or (CIo (CustomError OTHER "capture size preview overflow" []))
    (checked_add usize_max record_size prefix_size);
  Ok (mkFramePlan encoding encoded_size budget).

Definition encoded_frame_size (w : Writer) (frame : Frame) : outcome CaptureError Z :=
  plan ← prepare_frame w frame; Ok (fp_encoded_size plan).

Definition write_frame (frame : Frame) : stm Writer unit :=
  plan ← (fun w => (prepare_frame w frame, w));
  endianness ← gets Writer_endianness;
  _ ← match fp_encoding plan with
      | EncodePcap seconds fraction => write_output (write_pcap_frame endianness seconds fraction frame)
      | EncodePcapNg interface_id timestamp block_length new_interface =>
          _ ← match new_interface with
              | Some description => write_interface description []
              | None => mret tt
              end;
          write_output (write_enhanced_packet endianness interface_id timestamp block_length frame)
      end;
  modify (set_budget (fp_budget plan)).

(** [flushed] is what flushing the sink gives. *)
Definition Writer_flush (flushed : option IoError) : stm Writer unit :=
  _ ← (fun w => (ensure_output_available w, w));
  lift (match flushed with Some e => Err (CIo e) | None => Ok tt end).

(** The sink is given up when construction fails. *)
Definition given_to {A} (m : stm Sink A) (inner : Sink) (k : Sink -> Writer) : outcome CaptureError Writer :=
  match m inner with (Ok _, inner) => Ok (k inner) | (Err e, _) => Err e | (Panic, _) => Panic end.

Definition pcap_with_options (inner : Sink) (link : Z) (options : PcapOptions) : outcome CaptureError Writer :=
  budget ← Budget_new (po_stream_limits options);
  if u16_max <? link then Err (CLinkTypeOutOfRange link) else
  precision ← match po_timestamp_resolution options with
              | Decimal exponent => if exponent =? 6 then Ok Microseconds else if exponent =? 9 then Ok Nanoseconds
                                    else Err (CInvalidTimestampResolution 10 exponent)
              | Binary exponent => Err (CInvalidTimestampResolution 2 exponent)
              end;
  snap_len ← usize_to_u32_limit (po_snap_len options);
  if snap_len =? 0 then Err (CInvalidData Pcap "snapshot length must be non-zero") else
  given_to (write_pcap_header (po_endianness options) precision snap_len link) inner
    (fun inner => mkWriter inner (WriterPcap (po_endianness options) precision snap_len link) (po_max_size options)
                    DEFAULT_MAX_INTERFACES_PER_SECTION budget None).

Definition pcapng_with_options (inner : Sink) (options : PcapNgOptions) : outcome CaptureError Writer :=
  budget ← Budget_new (pn_stream_limits options);
  if pn_max_size options <? 28
  then Err (CSizeLimitExceeded "pcapng section header" 28 (pn_max_size options)) else
  given_to (write_section_header (pn_endianness options)) inner
    (fun inner => mkWriter inner (WriterPcapNg (pn_endianness options) []) (pn_max_size options)
                    (pn_max_interfaces options) budget None).

(** [Writer::new]: default settings and, for blocks, interface zero. *)
Definition Writer_new (inner : Sink) (format : Format) (link : Z) : outcome CaptureError Writer :=
  match format with
  | Pcap => pcap_with_options inner link PcapOptions_default
  | PcapNg =>
      if u16_max <? link then Err (CLinkTypeOutOfRange link) else
      w ← pcapng_with_options inner PcapNgOptions_default;
      match Writer_add_interface link w with (Ok _, w) => Ok w | (Err e, _) => Err e | (Panic, _) => Panic end
  end.
