(* ===== verification/CaptureStreams.v ===== *)
(** * Capture files: lemmas on streams

    Reasoning about computations on a mutable object, what the read loops return
    on a stream that delivers given bytes, and the promise of every [Write]. *)

From stdpp Require Import base tactics option list numbers strings.
From Stdlib Require Import ZArith Lia.
From S2P Require Import Prelude Checksum Ordered Flow Headers Frame Transform TransformProofs CaptureWire CaptureRead CaptureWrite.

(** ** Computations *)

Section stm.
Context {S : Type}.

Lemma stm_bind_Ok {A B} (m : stm S A) (k : A -> stm S B) s b s'' :
  (m ≫= k) s = (Ok b, s'') <-> exists a s', m s = (Ok a, s') /\ k a s' = (Ok b, s'').
Proof. unfold mbind, stm_bind. destruct (m s) as [[a|e|] s'] eqn:E; naive_solver. Qed.

Lemma stm_bind_eq {A B} (m : stm S A) (k : A -> stm S B) s a s' : m s = (Ok a, s') -> (m ≫= k) s = k a s'.
Proof. intros E. unfold mbind, stm_bind. by rewrite E. Qed.

Lemma lift_Ok {A} (o : outcome CaptureError A) (s : S) a s' : lift o s = (Ok a, s') <-> o = Ok a /\ s' = s.
Proof. unfold lift. naive_solver. Qed.

Lemma lift_bind_eq {A B} (o : outcome CaptureError A) (k : A -> stm S B) s a :
  o = Ok a -> (lift o ≫= k) s = k a s.
Proof. intros ->. reflexivity. Qed.

Lemma gets_bind {A B} (f : S -> A) (k : A -> stm S B) s : (gets f ≫= k) s = k (f s) s.
Proof. done. Qed.

(** [m] does not panic; its results satisfy [Q] and its errors [F]. *)
Definition wp {A} (m : stm S A) (s : S) (Q : A -> S -> Prop) (F : CaptureError -> S -> Prop) : Prop :=
  match m s with (Ok a, s') => Q a s' | (Err e, s') => F e s' | (Panic, _) => False end.

Lemma wp_bind {A B} (m : stm S A) (k : A -> stm S B) s Q F :
  wp m s (fun a s' => wp (k a) s' Q F) F -> wp (m ≫= k) s Q F.
Proof. unfold wp, mbind, stm_bind. by destruct (m s) as [[] ?]. Qed.

Lemma wp_mono {A} (m : stm S A) s (Q Q' : A -> S -> Prop) (F F' : CaptureError -> S -> Prop) :
  wp m s Q F -> (forall a s', Q a s' -> Q' a s') -> (forall e s', F e s' -> F' e s') -> wp m s Q' F'.
Proof. unfold wp. destruct (m s) as [[] ?]; naive_solver. Qed.

Lemma wp_ret {A} (a : A) s (Q : A -> S -> Prop) F : Q a s -> wp (mret a) s Q F.
Proof. done. Qed.

Lemma wp_lift {A} (o : outcome CaptureError A) s (Q : A -> S -> Prop) (F : CaptureError -> S -> Prop) :
  safe o (fun a => Q a s) -> (forall e, F e s) -> wp (lift o) s Q F.
Proof. unfold wp, lift, safe. destruct o; naive_solver. Qed.

Lemma wp_throw {A} e s (Q : A -> S -> Prop) (F : CaptureError -> S -> Prop) : F e s -> wp (throw e) s Q F.
Proof. done. Qed.

Lemma wp_gets {A} (f : S -> A) s (Q : A -> S -> Prop) F : Q (f s) s -> wp (gets f) s Q F.
Proof. done. Qed.

Lemma wp_modify (f : S -> S) s (Q : unit -> S -> Prop) F : Q tt (f s) -> wp (modify f) s Q F.
Proof. done. Qed.

Lemma wp_zoom {T A} (get : S -> T) (set : T -> S -> S) (m : stm T A) s Q F :
  match m (get s) with (Ok a, t) => Q a (set t s) | (Err e, t) => F e (set t s) | (Panic, _) => False end ->
  wp (zoom get set m) s Q F.
Proof. unfold wp, zoom. by destruct (m (get s)) as [[] ?]. Qed.
End stm.

(** Peel one [bind] of a hypothesis [H : _ s = (Ok _, _)]. *)
Ltac inv_stm H :=
  let a := fresh "a" in let s := fresh "s" in let Ha := fresh "Ha" in
  apply stm_bind_Ok in H as (a & s & Ha & H).

Lemma Forall_zget {A} (P : A -> Prop) l k x : Forall P l -> zget l k = Some x -> P x.
Proof. unfold zget. intros Hl Hk. destruct (0 <=? k); [|done]. by eapply Forall_lookup_1. Qed.

(** ** Sources *)

(** The source gives these bytes, in chunks of any size and with interruptions
    anywhere, and then ends. *)
Inductive delivers : Source -> bytes -> Prop :=
| delivers_end : delivers [] []
| delivers_chunk chunk source data : chunk <> [] -> delivers source data -> delivers (Data chunk :: source) (chunk ++ data)
| delivers_interrupted e source data : is_interrupted e = true -> delivers source data ->
    delivers (ReadFails e :: source) data.

Lemma delivers_one (data : bytes) : data <> [] -> delivers [Data data] data.
Proof. intros. rewrite <- (app_nil_r data) at 2. by repeat constructor. Qed.

(** Cutting [a ++ b] where a chunk ends. *)
Lemma app_split (a b chunk data : bytes) :
  chunk ++ data = a ++ b ->
  (zlen chunk <= zlen a /\ a = chunk ++ zdrop (zlen chunk) a /\ data = zdrop (zlen chunk) a ++ b) \/
  (zlen a < zlen chunk /\ ztake (zlen a) chunk = a /\ zdrop (zlen a) chunk ++ data = b).
Proof.
  intros E. destruct (decide (zlen chunk <= zlen a)) as [H|H]; [left|right].
  - split; [done|]. unfold zlen, zdrop in *. rewrite Nat2Z.id.
    assert (take (length chunk) a = chunk) as Et.
    { rewrite <- (take_app_le a b) by lia. rewrite <- E. apply take_app_length. }
    rewrite <- Et at 1. rewrite take_drop. split; [done|].
    rewrite <- (drop_app_le a b) by lia. by rewrite <- E, drop_app_length.
  - split; [lia|]. unfold zlen, zdrop, ztake in *. rewrite Nat2Z.id. split.
    + rewrite <- (take_app_le chunk data) by lia. by rewrite E, take_app_length.
    + rewrite <- (drop_app_le chunk data) by lia. by rewrite E, drop_app_length.
Qed.

Lemma nonempty_zlen {A} (l : list A) : l <> [] -> is_empty l = false /\ 0 < zlen l.
Proof. destruct l; [done|]. rewrite zlen_cons. pose proof (zlen_nonneg l). split; [done|lia]. Qed.

Lemma fill_buffer_delivers source data : delivers source data -> forall a b length context filled,
  data = a ++ b -> zlen filled + zlen a = length ->
  exists source', fill_buffer length context filled source = (Ok (Some (filled ++ a)), source') /\ delivers source' b.
Proof.
  induction 1 as [|chunk source data Hc Hd IH|e source data He Hd IH]; intros a b length context filled E L; cbn [fill_buffer].
  - symmetry in E. apply app_eq_nil in E as [-> ->]. rewrite zlen_nil in L.
    rewrite (proj2 (Z.ltb_ge _ _)) by lia. exists []. rewrite app_nil_r. split; [done|constructor].
  - destruct (Z.ltb_spec (zlen filled) length) as [Hlt|Hge].
    + destruct (nonempty_zlen chunk Hc) as [-> Hp]. apply app_split in E as [(Hle & Ea & Ed)|(Hlt' & Et & Eb)].
      * rewrite (proj2 (Z.ltb_ge _ _)) by lia.
        destruct (IH _ b length context (filled ++ chunk) Ed) as (s' & -> & Hs').
        { rewrite zlen_app. rewrite Ea, zlen_app in L. lia. }
        exists s'. split; [|done]. by rewrite <- app_assoc, <- Ea.
      * rewrite (proj2 (Z.ltb_lt _ _)) by lia. replace (length - zlen filled) with (zlen a) by lia. rewrite Et.
        eexists. split; [done|]. rewrite <- Eb. constructor; [|done].
        intros Hn. apply (f_equal zlen) in Hn. rewrite zlen_zdrop in Hn. change (zlen []) with 0 in Hn. lia.
    + pose proof (zlen_nonneg a). assert (a = []) as -> by (apply zlen_0; lia). rewrite app_nil_r.
      eexists. split; [done|]. cbn in E. subst. by constructor.
  - destruct (Z.ltb_spec (zlen filled) length) as [Hlt|Hge].
    + rewrite He. by apply IH.
    + pose proof (zlen_nonneg a). assert (a = []) as -> by (apply zlen_0; lia). rewrite app_nil_r.
      eexists. split; [done|]. cbn in E. subst. by constructor.
Qed.

Lemma read_exact_or_eof_delivers source a b length context :
  delivers source (a ++ b) -> zlen a = length ->
  exists source', read_exact_or_eof length context source = (Ok (Some a), source') /\ delivers source' b.
Proof. intros Hd L. apply (fill_buffer_delivers _ _ Hd a b length context []); [done|]. rewrite zlen_nil. lia. Qed.

Lemma read_exact_or_eof_end source length context :
  delivers source [] -> 0 < length ->
  exists source', read_exact_or_eof length context source = (Ok None, source') /\ delivers source' [].
Proof.
  intros Hd L. unfold read_exact_or_eof. remember ([] : bytes) as data eqn:E in Hd. revert E.
  induction Hd as [|chunk source data Hc Hd IH|e source data He Hd IH]; cbn [fill_buffer];
    intros E; change (zlen []) with 0; rewrite (proj2 (Z.ltb_lt _ _)) by lia.
  - eexists. split; [done|constructor].
  - by apply app_eq_nil in E as [-> ?].
  - rewrite He. by apply IH.
Qed.

Lemma read_exact_counted_delivers source a b length context :
  delivers source (a ++ b) -> zlen a = length ->
  exists source', read_exact_counted length context source = (Ok a, source') /\ delivers source' b.
Proof.
  intros Hd L. destruct (read_exact_or_eof_delivers _ _ _ _ context Hd L) as (s' & E & Hs').
  exists s'. split; [|done]. unfold read_exact_counted. by rewrite (stm_bind_eq _ _ _ _ _ E).
Qed.

Lemma take_to_end_delivers source data : delivers source data -> forall a b length filled,
  data = a ++ b -> zlen filled + zlen a = length ->
  exists source', take_to_end length filled source = (Ok (filled ++ a), source') /\ delivers source' b.
Proof.
  induction 1 as [|chunk source data Hc Hd IH|e source data He Hd IH]; intros a b length filled E L; cbn [take_to_end].
  - symmetry in E. apply app_eq_nil in E as [-> ->]. rewrite zlen_nil in L.
    rewrite (proj2 (Z.ltb_ge _ _)) by lia. exists []. rewrite app_nil_r. split; [done|constructor].
  - destruct (Z.ltb_spec (zlen filled) length) as [Hlt|Hge].
    + destruct (nonempty_zlen chunk Hc) as [-> Hp]. apply app_split in E as [(Hle & Ea & Ed)|(Hlt' & Et & Eb)].
      * rewrite (proj2 (Z.ltb_ge _ _)) by lia.
        destruct (IH _ b length (filled ++ chunk) Ed) as (s' & -> & Hs').
        { rewrite zlen_app. rewrite Ea, zlen_app in L. lia. }
        exists s'. split; [|done]. by rewrite <- app_assoc, <- Ea.
      * rewrite (proj2 (Z.ltb_lt _ _)) by lia. replace (length - zlen filled) with (zlen a) by lia. rewrite Et.
        eexists. split; [done|]. rewrite <- Eb. constructor; [|done].
        intros Hn. apply (f_equal zlen) in Hn. rewrite zlen_zdrop in Hn. change (zlen []) with 0 in Hn. lia.
    + pose proof (zlen_nonneg a). assert (a = []) as -> by (apply zlen_0; lia). rewrite app_nil_r.
      eexists. split; [done|]. cbn in E. subst. by constructor.
  - destruct (Z.ltb_spec (zlen filled) length) as [Hlt|Hge].
    + rewrite He. by apply IH.
    + pose proof (zlen_nonneg a). assert (a = []) as -> by (apply zlen_0; lia). rewrite app_nil_r.
      eexists. split; [done|]. cbn in E. subst. by constructor.
Qed.

Lemma read_exact_append_delivers alloc buffer capacity source a b length context :
  delivers source (a ++ b) -> zlen a = length -> alloc context length = true ->
  exists source', read_exact_append alloc buffer capacity length context source = (Ok (buffer ++ a), source') /\
    delivers source' b.
Proof.
  intros Hd L Ha. destruct (take_to_end_delivers _ _ Hd a b length [] eq_refl) as (s' & E & Hs'); [by rewrite zlen_nil, L|].
  exists s'. split; [|done]. unfold read_exact_append. rewrite (lift_bind_eq _ _ _ tt).
  - rewrite (stm_bind_eq _ _ _ _ _ E). cbn [app]. by rewrite L, Z.eqb_refl.
  - unfold try_reserve. by destruct (_ <=? _); [|rewrite Ha].
Qed.

(** ** What a read takes from any source *)

(** The bytes a source still holds, whatever errors lie between them. *)
Fixpoint source_bytes (source : Source) : bytes :=
  match source with
  | [] => []
  | Data chunk :: rest => chunk ++ source_bytes rest
  | ReadFails _ :: rest => source_bytes rest
  end.

Lemma fill_buffer_wp length context source : forall filled, zlen filled <= length ->
  wp (fill_buffer length context filled) source
    (fun result source' =>
       match result with
       | Some buffer => zlen buffer = length /\ filled ++ source_bytes source = buffer ++ source_bytes source'
       | None => filled = [] /\ 0 < length /\ source_bytes source' = source_bytes source
       end)
    (fun _ source' => exists skipped, source_bytes source = skipped ++ source_bytes source').
Proof.
  unfold wp. induction source as [|[chunk|e] source IH]; intros filled L; cbn [fill_buffer].
  - destruct (Z.ltb_spec (zlen filled) length); [|split; [lia|done]].
    destruct (Z.eqb_spec (zlen filled) 0) as [E|]; [|by exists []]. apply zlen_0 in E. subst. rewrite zlen_nil in *. done.
  - destruct (Z.ltb_spec (zlen filled) length); [|split; [lia|done]]. cbn [source_bytes].
    destruct (is_empty chunk) eqn:Ec.
    { rewrite is_empty_zlen, Z.eqb_eq in Ec. apply zlen_0 in Ec. subst.
      destruct (Z.eqb_spec (zlen filled) 0) as [E|]; [|by exists []]. apply zlen_0 in E. subst. rewrite zlen_nil in *. done. }
    destruct (Z.ltb_spec (length - zlen filled) (zlen chunk)).
    + cbn [source_bytes]. rewrite zlen_app, zlen_ztake. split; [lia|].
      by rewrite <- app_assoc, (app_assoc (ztake _ _)), ztake_zdrop_app.
    + specialize (IH (filled ++ chunk)). destruct (fill_buffer length context (filled ++ chunk) source) as [[[b|]|?|] s'].
      * rewrite app_assoc. apply IH. rewrite zlen_app. lia.
      * destruct IH as (E & _); [rewrite zlen_app; lia|]. apply app_eq_nil in E as [_ ->]. done.
      * destruct IH as (k & ->); [rewrite zlen_app; lia|]. exists (chunk ++ k). by rewrite app_assoc.
      * apply IH. rewrite zlen_app. lia.
  - destruct (Z.ltb_spec (zlen filled) length); [|split; [lia|done]]. cbn [source_bytes].
    destruct (is_interrupted e); [|by exists []]. by apply IH.
Qed.

Lemma take_to_end_wp length source : forall filled, zlen filled <= length ->
  wp (take_to_end length filled) source
    (fun buffer source' => filled ++ source_bytes source = buffer ++ source_bytes source')
    (fun _ source' => exists skipped, source_bytes source = skipped ++ source_bytes source').
Proof.
  unfold wp. induction source as [|[chunk|e] source IH]; intros filled L; cbn [take_to_end].
  - by destruct (Z.ltb_spec (zlen filled) length).
  - destruct (Z.ltb_spec (zlen filled) length); [|done]. cbn [source_bytes].
    destruct (is_empty chunk) eqn:Ec.
    { rewrite is_empty_zlen, Z.eqb_eq in Ec. apply zlen_0 in Ec. by subst. }
    destruct (Z.ltb_spec (length - zlen filled) (zlen chunk)).
    + cbn [source_bytes]. by rewrite <- app_assoc, (app_assoc (ztake _ _)), ztake_zdrop_app.
    + specialize (IH (filled ++ chunk)). destruct (take_to_end length (filled ++ chunk) source) as [[b|?|] s'].
      * rewrite app_assoc. apply IH. rewrite zlen_app. lia.
      * destruct IH as (k & ->); [rewrite zlen_app; lia|]. exists (chunk ++ k). by rewrite app_assoc.
      * apply IH. rewrite zlen_app. lia.
  - destruct (Z.ltb_spec (zlen filled) length); [|done]. cbn [source_bytes].
    destruct (is_interrupted e); [|by exists []]. by apply IH.
Qed.

(** What remains of the source is a suffix of what it held. *)
Definition leaves (data : bytes) (source : Source) : Prop := exists skipped, data = skipped ++ source_bytes source.

Lemma leaves_refl source : leaves (source_bytes source) source.
Proof. by exists []. Qed.

Lemma leaves_app a b source : leaves b source -> leaves (a ++ b) source.
Proof. intros (k & ->). exists (a ++ k). by rewrite app_assoc. Qed.

Lemma read_exact_or_eof_wp length context source : 0 <= length ->
  wp (read_exact_or_eof length context) source
    (fun result source' =>
       match result with
       | Some buffer => zlen buffer = length /\ source_bytes source = buffer ++ source_bytes source'
       | None => source_bytes source' = source_bytes source
       end)
    (fun _ source' => leaves (source_bytes source) source').
Proof.
  intros L. eapply wp_mono; [apply (fill_buffer_wp length context source []); by rewrite zlen_nil| |done].
  intros [b|] s'; cbn [app]; [done|]. by intros (_ & _ & ?).
Qed.

Lemma read_exact_counted_wp length context source : 0 <= length ->
  wp (read_exact_counted length context) source
    (fun buffer source' => zlen buffer = length /\ source_bytes source = buffer ++ source_bytes source')
    (fun _ source' => leaves (source_bytes source) source').
Proof.
  intros L. unfold read_exact_counted. apply wp_bind. eapply wp_mono; [by apply read_exact_or_eof_wp| |done].
  intros [b|] s'; cbn; intros H.
  - done.
  - unfold wp, lift. cbn. rewrite <- H. apply leaves_refl.
Qed.

Lemma read_exact_append_wp alloc buffer capacity length context source : 0 <= length ->
  wp (read_exact_append alloc buffer capacity length context) source
    (fun result source' => exists more, result = buffer ++ more /\ zlen more = length /\
       source_bytes source = more ++ source_bytes source')
    (fun _ source' => leaves (source_bytes source) source').
Proof.
  intros L. unfold read_exact_append. apply wp_bind, wp_lift; [|intros; apply leaves_refl].
  assert (forall s, wp (appended ← take_to_end length [];
    if zlen appended =? length then mret (buffer ++ appended) else throw (CTruncated context length (zlen appended))) s
    (fun result source' => exists more, result = buffer ++ more /\ zlen more = length /\
       source_bytes s = more ++ source_bytes source')
    (fun _ source' => leaves (source_bytes s) source')) as Hs.
  { intros s. apply wp_bind. eapply wp_mono; [apply take_to_end_wp; by rewrite zlen_nil| |done].
    intros more s' H. cbn in H. destruct (Z.eqb_spec (zlen more) length).
    - apply wp_ret. by exists more.
    - apply wp_throw. rewrite H. by exists more. }
  destruct (_ <=? _); [apply Hs|]. unfold try_reserve. destruct (alloc _ _); [apply Hs|done].
Qed.

(** ** Sinks *)

Lemma ztake_prefix {A} n (l : list A) : ztake n l `prefix_of` l.
Proof. exists (zdrop n l). by rewrite ztake_zdrop_app. Qed.

Lemma sink_write_all_spec script : forall buffer accepted,
  match sink_write_all buffer accepted script with
  | (Ok _, s) => sink_bytes s = accepted ++ buffer
  | (Err e, s) => (exists part, sink_bytes s = accepted ++ part /\ part `prefix_of` buffer) /\ exists io, e = CIo io
  | (Panic, _) => False
  end.
Proof.
  induction script as [|[count|e] script IH]; intros buffer accepted; cbn [sink_write_all];
    (destruct (is_empty buffer) eqn:E; [rewrite is_empty_zlen, Z.eqb_eq in E; apply zlen_0 in E; subst; cbn; by rewrite app_nil_r|]).
  - done.
  - set (m := Z.max 0 (Z.min count (zlen buffer))). destruct (Z.eqb_spec m 0).
    + split; [|by eexists]. exists []. rewrite app_nil_r. split; [done|apply prefix_nil].
    + specialize (IH (zdrop m buffer) (accepted ++ ztake m buffer)).
      destruct (sink_write_all _ _ _) as [[]s].
      * by rewrite IH, <- app_assoc, ztake_zdrop_app.
      * destruct IH as ((part & -> & (k & Hk)) & Hio). split; [|done]. exists (ztake m buffer ++ part). rewrite app_assoc. split; [done|].
        exists k. by rewrite <- app_assoc, <- Hk, ztake_zdrop_app.
      * done.
  - destruct (is_interrupted e); [apply IH|]. split; [|by eexists]. exists []. rewrite app_nil_r. split; [done|apply prefix_nil].
Qed.

Lemma concat_advance parts : forall n, 0 <= n <= zlen (concat parts) ->
  concat (advance_slices parts n) = zdrop n (concat parts) /\
  (advance_slices parts n = [] \/ exists p rest, advance_slices parts n = p :: rest /\ p <> []).
Proof.
  induction parts as [|p parts IH]; intros n Hn; cbn [advance_slices concat] in *.
  - change (zlen []) with 0 in Hn. split; [by rewrite zdrop_all by (rewrite zlen_nil; lia)|by left].
  - rewrite zlen_app in Hn. destruct (Z.ltb_spec n (zlen p)).
    + split.
      * cbn [concat]. unfold zdrop. rewrite drop_app_le; [done|]. unfold zlen in *. lia.
      * right. do 2 eexists. split; [done|]. intros E. apply (f_equal zlen) in E. rewrite zlen_zdrop in E. change (zlen []) with 0 in E. lia.
    + destruct (IH (n - zlen p)) as [-> Hne]; [lia|]. split; [|done].
      unfold zdrop, zlen in *. rewrite drop_app_ge by lia. f_equal. lia.
Qed.

(** Writing parts whose first is not empty is writing their concatenation. *)
Lemma write_parts_spec script : forall (parts : list bytes) (accepted : bytes),
  parts = [] \/ (exists p rest, parts = p :: rest /\ p <> []) ->
  match write_parts parts accepted script with
  | (Ok _, s) => sink_bytes s = accepted ++ concat parts
  | (Err e, s) => (exists part, sink_bytes s = accepted ++ part /\ part `prefix_of` concat parts) /\ exists io, e = CIo io
  | (Panic, _) => False
  end.
Proof.
  assert (forall parts : list bytes, parts = [] \/ (exists p rest, parts = p :: rest /\ p <> []) ->
    is_empty parts = false -> is_empty (concat parts) = false) as Hne.
  { intros parts [->|(p & rest & -> & Hp)] ?; [done|]. by destruct p as [|x p]; [destruct Hp|]. }
  induction script as [|[count|e] script IH]; intros parts accepted Hp; cbn [write_parts];
    (destruct (is_empty parts) eqn:E; [rewrite is_empty_zlen, Z.eqb_eq in E; apply zlen_0 in E; subst; cbn; by rewrite app_nil_r|]).
  - by rewrite (Hne _ Hp E).
  - set (m := Z.max 0 (Z.min count (zlen (concat parts)))). destruct (Z.eqb_spec m 0).
    + split; [|by eexists]. exists []. rewrite app_nil_r. split; [done|apply prefix_nil].
    + pose proof (zlen_nonneg (concat parts)). destruct (concat_advance parts m) as [Ec Hn]; [subst m; lia|].
      specialize (IH (advance_slices parts m) (accepted ++ ztake m (concat parts)) Hn). rewrite Ec in IH.
      destruct (write_parts _ _ _) as [[]s].
      * by rewrite IH, <- app_assoc, ztake_zdrop_app.
      * destruct IH as ((part & -> & (k & Hk)) & Hio). split; [|done].
        exists (ztake m (concat parts) ++ part). rewrite app_assoc. split; [done|].
        exists k. by rewrite <- app_assoc, <- Hk, ztake_zdrop_app.
      * done.
  - destruct (is_interrupted e); [by apply IH|]. split; [|by eexists]. exists []. rewrite app_nil_r. split; [done|apply prefix_nil].
Qed.

(** ** Encoded fields *)

Lemma zlen_rev {A} (l : list A) : zlen (rev l) = zlen l.
Proof. unfold zlen. by rewrite length_rev. Qed.

Lemma zlen_to_bytes e n x : zlen (to_bytes e n x) = Z.of_nat n.
Proof. destruct e; cbn [to_bytes]; rewrite ?zlen_rev; apply zlen_be_bytes. Qed.

Lemma octets_to_bytes e n x : octets (to_bytes e n x).
Proof. destruct e; cbn [to_bytes]; [apply List.Forall_rev|]; apply octets_be_bytes. Qed.

Lemma of_to_bytes e n x : 0 <= x < 256 ^ Z.of_nat n -> of_bytes e (to_bytes e n x) = x.
Proof. intros. destruct e; cbn; rewrite ?rev_involutive; by apply from_be_be_bytes. Qed.

Lemma decode_array_prefix n a b context : zlen a = n -> decode_array n (a ++ b) context = Ok a.
Proof.
  intros L. unfold decode_array, get_range. rewrite zlen_app. pose proof (zlen_nonneg a). pose proof (zlen_nonneg b).
  rewrite !(proj2 (Z.leb_le _ _)) by lia. cbn [andb ok_or]. unfold zslice, zdrop, ztake. cbn. f_equal.
  rewrite Z.sub_0_r, <- L. unfold zlen. rewrite Nat2Z.id. apply take_app_length.
Qed.

Lemma decode_u16_to e x rest : 0 <= x < 65536 -> decode_u16 e (to_bytes e 2 x ++ rest) = Ok x.
Proof. intros. unfold decode_u16. rewrite decode_array_prefix by apply zlen_to_bytes. cbn. by rewrite of_to_bytes. Qed.

Lemma decode_u32_to e x rest : 0 <= x <= u32_max -> decode_u32 e (to_bytes e 4 x ++ rest) = Ok x.
Proof.
  intros. unfold decode_u32. rewrite decode_array_prefix by apply zlen_to_bytes. cbn. rewrite of_to_bytes; [done|].
  unfold u32_max in *. cbn. lia.
Qed.

Lemma decode_i64_to e x rest : - i64_max - 1 <= x <= i64_max ->
  decode_i64 e (to_bytes e 8 (x mod 18446744073709551616) ++ rest) = Ok x.
Proof.
  intros. unfold decode_i64. rewrite decode_array_prefix by apply zlen_to_bytes. cbn [mbind outcome_bind].
  pose proof (Z.mod_pos_bound x 18446744073709551616 ltac:(lia)). rewrite of_to_bytes by (cbn; lia).
  unfold as_i64, i64_max in *. f_equal. destruct (decide (0 <= x)).
  - rewrite Z.mod_small by lia. rewrite (proj2 (Z.ltb_lt _ _)); lia.
  - rewrite <- (Z.mod_unique x 18446744073709551616 (-1) (x + 18446744073709551616)) by lia.
    rewrite (proj2 (Z.ltb_ge _ _)); lia.
Qed.

(** Decoding exactly the field. *)
Lemma decode_u16_exact e x : 0 <= x < 65536 -> decode_u16 e (to_bytes e 2 x) = Ok x.
Proof. intros. rewrite <- (app_nil_r (to_bytes e 2 x)). by apply decode_u16_to. Qed.
Lemma decode_u32_exact e x : 0 <= x <= u32_max -> decode_u32 e (to_bytes e 4 x) = Ok x.
Proof. intros. rewrite <- (app_nil_r (to_bytes e 4 x)). by apply decode_u32_to. Qed.
Lemma decode_i64_exact e x : - i64_max - 1 <= x <= i64_max -> decode_i64 e (to_bytes e 8 (x mod 18446744073709551616)) = Ok x.
Proof. intros. rewrite <- (app_nil_r (to_bytes e 8 _)). by apply decode_i64_to. Qed.

(** A slice of a concatenation, part by part. *)
Lemma zslice_skip {A} (a b : list A) i j : zlen a <= i -> i <= j -> zslice i j (a ++ b) = zslice (i - zlen a) (j - zlen a) b.
Proof.
  intros. unfold zslice. replace (j - zlen a - (i - zlen a)) with (j - i) by lia. f_equal.
  unfold zdrop, zlen in *. rewrite drop_app_ge by lia. f_equal. lia.
Qed.

Lemma zslice_here {A} (a b : list A) j : zlen a = j -> zslice 0 j (a ++ b) = a.
Proof.
  intros <-. unfold zslice, ztake, zdrop. cbn. rewrite Z.sub_0_r. unfold zlen. rewrite Nat2Z.id. apply take_app_length.
Qed.

Lemma zslice_all {A} (a : list A) j : zlen a = j -> zslice 0 j a = a.
Proof. intros. rewrite <- (app_nil_r a) at 1. by apply zslice_here. Qed.

(** ** What a writer emits *)

(** [op] appends exactly [data] to the sink when it succeeds, a part of it when it
    fails, fails only for the sink, and does not fail on a sink that accepts
    everything. *)
Definition emits {A} (op : stm Sink A) (data : bytes) : Prop :=
  (forall s, match op s with
             | (Ok _, s') => sink_bytes s' = sink_bytes s ++ data
             | (Err e, s') => (exists part, sink_bytes s' = sink_bytes s ++ part /\ part `prefix_of` data) /\ exists io, e = CIo io
             | (Panic, _) => False
             end) /\
  (forall accepted, exists a, op (mkSink accepted []) = (Ok a, mkSink (accepted ++ data) [])).

Lemma emits_all buffer : emits (write_all buffer) buffer.
Proof.
  split; [intros s; apply sink_write_all_spec|]. intros accepted. exists tt. cbn.
  destruct buffer; [by rewrite app_nil_r|done].
Qed.

Lemma emits_ret {A} (a : A) : emits (mret a) [].
Proof. split; [intros s; cbn; by rewrite app_nil_r|]. intros accepted. exists a. by rewrite app_nil_r. Qed.

Lemma emits_bind {A B} (m : stm Sink A) (k : A -> stm Sink B) d1 d2 :
  emits m d1 -> (forall a, emits (k a) d2) -> emits (m ≫= k) (d1 ++ d2).
Proof.
  intros [H1 H1'] H2. split.
  - intros s. specialize (H1 s). unfold mbind, stm_bind. destruct (m s) as [[a|e|] s']; [| |done].
    + destruct (H2 a) as [Hk _]. specialize (Hk s'). destruct (k a s') as [[b|e|] s'']; [| |done].
      * by rewrite Hk, H1, app_assoc.
      * destruct Hk as ((part & -> & Hp) & Hio). split; [|done]. exists (d1 ++ part). rewrite H1, app_assoc. split; [done|].
        by apply prefix_app.
    + destruct H1 as ((part & -> & Hp) & Hio). split; [|done]. exists part. split; [done|]. by apply prefix_app_r.
  - intros accepted. destruct (H1' accepted) as (a & E). destruct (H2 a) as [_ Hk]. destruct (Hk (accepted ++ d1)) as (b & E').
    exists b. rewrite (stm_bind_eq _ _ _ _ _ E), E', app_assoc. done.
Qed.

(** A check that succeeds in front of the writes. *)
Lemma emits_lift_bind {A B} (o : outcome CaptureError A) (k : A -> stm Sink B) d a :
  o = Ok a -> emits (k a) d -> emits (lift o ≫= k) d.
Proof. by intros ->. Qed.

Lemma emits_eq {A} (op op' : stm Sink A) data : (forall s, op s = op' s) -> emits op' data -> emits op data.
Proof.
  intros E [H1 H2]. split; [intros s; rewrite E; apply H1|]. intros accepted. destruct (H2 accepted) as (a & Ea).
  exists a. by rewrite E.
Qed.

Lemma emits_parts (parts : list bytes) : (exists p rest, parts = p :: rest /\ p <> []) -> emits (write_all_parts parts) (concat parts).
Proof.
  intros Hp. split.
  - intros s. apply write_parts_spec. by right.
  - intros accepted. exists tt. destruct Hp as (p & rest & -> & Hp). unfold write_all_parts. cbn.
    by destruct p.
Qed.

#[export] Hint Resolve emits_all emits_ret : pcr.
