(* ===== verification/CaptureTime.v ===== *)
(** * Capture files: capture times

    Ticks of any resolution and capture times are exact images of each other:
    both conversions are characterised by one equation. *)

From stdpp Require Import base tactics option list numbers strings.
From Stdlib Require Import ZArith Lia.
From S2P Require Import Prelude Checksum Ordered Flow Headers Frame Transform CaptureWire CaptureStreams.

(** A [SystemTime], an [i64] and a resolution with its [u8] exponent. *)
Definition is_time (t : Z) : Prop := checked_time t = Some t.
Definition is_i64 (x : Z) : Prop := - i64_max - 1 <= x <= i64_max.
Definition resolution_ok (r : TimestampResolution) : Prop :=
  match r with Decimal e => 0 <= e <= 255 | Binary e => 0 <= e <= 255 end.

Lemma checked_time_Some t t' : checked_time t = Some t' <-> t' = t /\ - i64_max - 1 <= t / 1000000000 <= i64_max.
Proof. unfold checked_time. repeat case_bool; split; naive_solver lia. Qed.

Lemma checked_i128_ok x : - i128_max - 1 <= x <= i128_max -> checked_i128 x = Some x.
Proof. intros. unfold checked_i128. by rewrite !(proj2 (Z.leb_le _ _)) by lia. Qed.

Lemma ticks_per_second_pos r p : resolution_ok r -> ticks_per_second r = Some p -> 0 < p <= u128_max.
Proof.
  destruct r as [e|e]; cbn [resolution_ok ticks_per_second]; intros He.
  - destruct (Z.leb_spec (10 ^ e) u128_max); [|done]. intros [= <-]. split; [apply Z.pow_pos_nonneg; lia|lia].
  - destruct (Z.ltb_spec e 128); [|done]. intros [= <-]. rewrite Z.shiftl_mul_pow2 by lia.
    pose proof (Z.pow_pos_nonneg 2 e ltac:(lia) ltac:(lia)). pose proof (Z.pow_le_mono_r 2 e 127 ltac:(lia) ltac:(lia)).
    change (2 ^ 127) with 170141183460469231731687303715884105728 in *. unfold u128_max. lia.
Qed.

Lemma duration_ok s n : 0 <= s <= u64_max -> 0 <= n < 1000000000 -> duration s n = Ok (s * 1000000000 + n).
Proof. intros. unfold duration. rewrite Z.div_small by lia. by rewrite (proj2 (Z.leb_le _ _)) by lia. Qed.

Lemma ok_or_bind_not_Panic {A B} e (o : option A) (k : A -> outcome CaptureError B) :
  (forall a, o = Some a -> k a <> Panic) -> (ok_or e o ≫= k) <> Panic.
Proof. intros. destruct o; [|done]. cbn. auto. Qed.

Lemma system_time_safe seconds nanoseconds : 0 <= nanoseconds < 1000000000 ->
  system_time_from_signed_unix seconds nanoseconds <> Panic.
Proof.
  intros Hn. unfold system_time_from_signed_unix.
  destruct (Z.leb_spec 0 seconds); [|destruct (Z.eqb_spec nanoseconds 0)].
  - apply ok_or_bind_not_Panic. intros s Hs. destruct (Z.leb_spec seconds u64_max); simplify_eq.
    rewrite duration_ok by lia. apply ok_or_not_Panic.
  - apply ok_or_bind_not_Panic. intros s Hs. apply ok_or_not_Panic.
  - apply ok_or_bind_not_Panic. intros s Hs. apply bind_Some in Hs as (m & Hm & Hs). apply bind_Some in Hs as (m' & Hm' & Hs).
    unfold checked_i128 in *. destruct (_ && _); [|done]. destruct (_ && _); [|done]. simplify_eq.
    destruct (Z.leb_spec (- seconds - 1) u64_max); simplify_eq.
    rewrite checked_sub_ok by lia. cbn [ok_or]. rewrite Ok_bind, duration_ok by lia. apply ok_or_not_Panic.
Qed.

(** The time is the signed seconds and the nanoseconds after them, when it is one. *)
Lemma system_time_iff seconds nanoseconds t :
  - i128_max <= seconds <= i128_max -> 0 <= nanoseconds < 1000000000 ->
  system_time_from_signed_unix seconds nanoseconds = Ok t <-> t = seconds * 1000000000 + nanoseconds /\ is_time t.
Proof.
  intros Hs Hn. unfold system_time_from_signed_unix, is_time.
  pose proof duration_ok as Hd.
  assert (forall x : Z, ok_or out_of_range (checked_time x) = Ok t <-> t = x /\ checked_time t = Some t) as Ht.
  { intros x. rewrite ok_or_Ok, !checked_time_Some. split; [intros [-> ?]|intros [-> [_ ?]]]; done. }
  unfold i128_max in *. destruct (Z.leb_spec 0 seconds).
  - destruct (Z.leb_spec seconds u64_max); cbn [ok_or]; rewrite ?Ok_bind, ?Hd by lia; rewrite ?Ok_bind; [apply Ht|].
    cbn. split; [done|]. intros [-> H']. apply checked_time_Some in H' as [_ H'].
    rewrite Z.div_add_l, Z.div_small in H' by lia. unfold u64_max, i64_max in *. lia.
  - assert (forall m, 0 <= m <= 170141183460469231731687303715884105727 -> checked_i128 m = Some m) as Hc.
    { intros. apply checked_i128_ok. unfold i128_max. lia. }
    rewrite (Hc (- seconds)) by lia. cbn [mbind option_bind]. destruct (Z.eqb_spec nanoseconds 0) as [->|].
    + destruct (Z.leb_spec (- seconds) u64_max); cbn [ok_or].
      * rewrite Ok_bind, Ht. split; intros [-> ?]; (split; [lia|done]).
      * split; [done|]. intros [-> H']. apply checked_time_Some in H' as [_ H'].
        rewrite Z.div_add_l, Z.div_small in H' by lia. unfold u64_max, i64_max in *. lia.
    + rewrite (Hc (- seconds - 1)) by lia. cbn [mbind option_bind].
      destruct (Z.leb_spec (- seconds - 1) u64_max); cbn [ok_or].
      * rewrite Ok_bind, checked_sub_ok by lia. cbn [ok_or]. rewrite Ok_bind, Hd by lia. rewrite Ok_bind, Ht.
        split; intros [-> ?]; (split; [lia|done]).
      * split; [done|]. intros [-> H']. apply checked_time_Some in H' as [_ H'].
        rewrite Z.div_add_l, Z.div_small in H' by lia. unfold u64_max, i64_max in *. lia.
Qed.

(** So many ticks after the offset is that time. *)
Definition tick_time (ticks : Z) (r : TimestampResolution) (offset t : Z) : Prop :=
  match ticks_per_second r with
  | Some p => ticks * 1000000000 = (t - offset * 1000000000) * p
  | None => ticks = 0 /\ t = offset * 1000000000
  end.

Lemma tick_time_parts ticks p q : 0 < p -> 0 <= q ->
  ticks * 1000000000 = q * p <->
  (ticks mod p * 1000000000) mod p = 0 /\ q = ticks / p * 1000000000 + ticks mod p * 1000000000 / p.
Proof.
  intros Hp Hq. pose proof (Z.div_mod ticks p ltac:(lia)) as E. set (w := ticks / p) in *. set (m := ticks mod p) in *. split.
  - intros H. assert (m * 1000000000 = (q - w * 1000000000) * p) as Em by nia. rewrite Em.
    rewrite Z.mod_mul, Z.div_mul by lia. split; [done|lia].
  - intros [H1 H2]. apply Z.mod_divide in H1 as [k Hk]; [|lia]. rewrite Hk, Z.div_mul in H2 by lia. nia.
Qed.

Lemma from_ticks_iff ticks r offset t :
  resolution_ok r -> 0 <= ticks <= u64_max -> is_i64 offset ->
  timestamp_from_ticks ticks r offset = Ok t <-> is_time t /\ tick_time ticks r offset t.
Proof.
  intros Hr Ht Ho. unfold timestamp_from_ticks, tick_time, is_i64, i64_max, u64_max in *.
  destruct (ticks_per_second r) as [p|] eqn:Ep.
  - apply ticks_per_second_pos in Ep as Hp; [|done].
    pose proof (Z.mod_pos_bound ticks p ltac:(lia)). pose proof (Z.mod_le ticks p ltac:(lia) ltac:(lia)).
    pose proof (Z.div_pos ticks p ltac:(lia) ltac:(lia)).
    pose proof (Z.div_le_upper_bound ticks p ticks ltac:(lia) ltac:(nia)).
    rewrite checked_mul_ok by (unfold u128_max; nia). cbn [expect]. rewrite Ok_bind.
    set (scaled := ticks mod p * 1000000000) in *.
    assert (0 <= scaled / p < 1000000000) as Hq by (split; [apply Z.div_pos; lia|apply Z.div_lt_upper_bound; nia]).
    destruct (Z.eqb_spec (scaled mod p) 0) as [E|E]; cbn [negb].
    + rewrite Ok_bind. rewrite (checked_i128_ok (ticks / p)) by (unfold i128_max; lia). cbn [mbind option_bind].
      rewrite checked_i128_ok by (unfold i128_max; lia). cbn [ok_or]. rewrite Ok_bind.
      unfold as_u32. rewrite (Z.mod_small (scaled / p)) by lia.
      rewrite system_time_iff by (unfold i128_max; lia). split.
      * intros [-> ?]. split; [done|]. apply tick_time_parts; [lia|lia|]. fold scaled. split; [done|lia].
      * intros [? Hq']. split; [|done]. apply tick_time_parts in Hq' as [_ Hq']; [fold scaled in Hq'; lia|lia|nia].
    + split; [done|]. intros [_ Hq']. apply tick_time_parts in Hq' as [? _]; [done|lia|nia].
  - destruct (Z.eqb_spec ticks 0) as [->|]; cbn [negb]; [|split; [done|]; naive_solver].
    rewrite Ok_bind. rewrite (checked_i128_ok 0) by (unfold i128_max; lia). cbn [mbind option_bind].
    rewrite checked_i128_ok by (unfold i128_max; lia). cbn [ok_or]. rewrite Ok_bind.
    rewrite system_time_iff by (unfold i128_max; lia). split; [intros [-> ?]|intros (? & _ & ->)]; (split; [done || lia|]); try done.
    split; [done|lia].
Qed.

Lemma timestamp_from_ticks_safe ticks r offset :
  resolution_ok r -> 0 <= ticks <= u64_max -> is_i64 offset -> timestamp_from_ticks ticks r offset <> Panic.
Proof.
  intros Hr Ht Ho. unfold timestamp_from_ticks, is_i64, i64_max, u64_max in *.
  apply bind_not_Panic.
  - destruct (ticks_per_second r) as [p|] eqn:Ep; [|by destruct (negb _)].
    apply ticks_per_second_pos in Ep as Hp; [|done]. pose proof (Z.mod_pos_bound ticks p ltac:(lia)).
    pose proof (Z.mod_le ticks p ltac:(lia) ltac:(lia)). rewrite checked_mul_ok by (unfold u128_max; nia).
    cbn [expect]. rewrite Ok_bind. by destruct (negb _).
  - intros [w n] E. assert (0 <= n < 1000000000 /\ 0 <= w <= 18446744073709551615) as [Hn Hw].
    { destruct (ticks_per_second r) as [p|] eqn:Ep; [|by destruct (negb _); [|injection E as <- <-]].
      apply ticks_per_second_pos in Ep as Hp; [|done]. pose proof (Z.mod_pos_bound ticks p ltac:(lia)).
      pose proof (Z.mod_le ticks p ltac:(lia) ltac:(lia)). rewrite checked_mul_ok in E by (unfold u128_max; nia).
      cbn [expect] in E. rewrite Ok_bind in E. destruct (negb _); [done|]. injection E as <- <-.
      assert (0 <= ticks mod p * 1000000000 / p < 1000000000) by (split; [apply Z.div_pos; lia|apply Z.div_lt_upper_bound; nia]).
      unfold as_u32. rewrite Z.mod_small by lia. split; [lia|]. split; [apply Z.div_pos; lia|].
      apply Z.div_le_upper_bound; nia. }
    apply bind_not_Panic; [apply ok_or_not_Panic|]. intros s Es. apply ok_or_Ok in Es.
    rewrite (checked_i128_ok w) in Es by (unfold i128_max; lia). cbn [mbind option_bind] in Es.
    rewrite checked_i128_ok in Es by (unfold i128_max; lia). injection Es as <-.
    apply system_time_safe; lia.
Qed.

(** The arithmetic of [timestamp_to_ticks], for a time [d] seconds and [n]
    nanoseconds after the offset. *)
Lemma to_ticks_arith (d n p ticks : Z) : 0 <= d -> 0 <= n < 1000000000 -> 0 < p ->
  (fractional_numerator ← ok_or out_of_range (checked_mul u128_max n p);
   if negb (fractional_numerator mod 1000000000 =? 0)
   then Err (CMetadataNotRepresentable PcapNg "timestamp resolution") else
   let fractional := fractional_numerator / 1000000000 in
   ticks ← ok_or out_of_range
     (whole_ticks ← checked_mul u128_max d p; checked_add u128_max whole_ticks fractional);
   ok_or out_of_range (if ticks <=? u64_max then Some ticks else None)) = Ok ticks <->
  0 <= ticks <= u64_max /\ ticks * 1000000000 = (d * 1000000000 + n) * p.
Proof.
  intros Hd Hn Hp. unfold u64_max, u128_max in *. split.
  - intros E. inv_ok E. apply ok_or_Ok, checked_mul_Some in Ha as [-> _].
    destruct (Z.eqb_spec ((n * p) mod 1000000000) 0) as [Hm|]; [|done]. cbn [negb] in E.
    inv_ok E. apply ok_or_Ok in Ha. apply ok_or_Ok in E.
    apply bind_Some in Ha as (w & Hw & Ha). apply checked_mul_Some in Hw as [-> _]. apply checked_add_Some in Ha as [-> _].
    apply Z.mod_divide in Hm as [f Hf]; [|lia]. rewrite Hf, Z.div_mul in E by lia.
    destruct (Z.leb_spec (d * p + f) 18446744073709551615); simplify_eq. nia.
  - intros [Hk E]. assert (n * p = (ticks - d * p) * 1000000000) as Ef by nia. assert (0 <= d * p <= ticks) by nia.
    rewrite (checked_mul_ok _ n p) by nia. cbn [ok_or]. rewrite Ok_bind, Ef, Z.mod_mul, Z.div_mul by lia. cbn [Z.eqb negb].
    rewrite checked_mul_ok by nia. cbn [mbind option_bind]. rewrite checked_add_ok by lia. cbn [ok_or]. rewrite Ok_bind.
    replace (d * p + (ticks - d * p)) with ticks by lia. by rewrite (proj2 (Z.leb_le _ _)) by lia.
Qed.

Lemma to_ticks_iff ticks r offset t :
  resolution_ok r -> is_i64 offset -> is_time t ->
  timestamp_to_ticks t r offset = Ok ticks <-> 0 <= ticks <= u64_max /\ tick_time ticks r offset t.
Proof.
  intros Hr Ho Ht. apply checked_time_Some in Ht as [_ Ht]. unfold timestamp_to_ticks, tick_time.
  destruct (unix_floor_exact t) as [-> _]. pose proof (Z.div_mod t 1000000000 ltac:(lia)) as Et.
  pose proof (Z.mod_pos_bound t 1000000000 ltac:(lia)). unfold is_i64, i64_max in *.
  set (s := t / 1000000000) in *. set (n := t mod 1000000000) in *.
  rewrite checked_i128_ok by (unfold i128_max; lia). cbn [ok_or]. rewrite Ok_bind.
  destruct (Z.ltb_spec (s - offset) 0).
  { split; [done|]. intros [Hk E]. destruct (ticks_per_second r) as [p|] eqn:Ep; [|lia].
    apply ticks_per_second_pos in Ep; [|done]. nia. }
  destruct ((s - offset =? 0) && (n =? 0)) eqn:Ez.
  { apply andb_true_iff in Ez as [?%Z.eqb_eq ?%Z.eqb_eq]. assert (t = offset * 1000000000) as -> by lia. unfold u64_max.
    rewrite Z.sub_diag. split; [intros [= <-]|]; destruct (ticks_per_second r); [lia|lia| |]; intros [? ?]; f_equal; lia. }
  destruct (ticks_per_second r) as [p|] eqn:Ep; cbn [ok_or].
  - apply ticks_per_second_pos in Ep; [|done]. rewrite Ok_bind, to_ticks_arith by lia.
    replace (t - offset * 1000000000) with ((s - offset) * 1000000000 + n) by lia. done.
  - split; [done|]. intros (_ & _ & E). apply andb_false_iff in Ez as [?%Z.eqb_neq|?%Z.eqb_neq]; lia.
Qed.

(** Capture times and ticks are exact inverses at every resolution and offset:
    a time is written as some ticks exactly when those ticks read back as the time,
    and then the ticks after the offset, at the ticks per second of the resolution,
    are the time to the nanosecond.  Neither conversion rounds, and reading never
    panics. *)
Theorem timestamp_ticks_inverse (t ticks offset : Z) (r : TimestampResolution) :
  resolution_ok r -> 0 <= ticks <= u64_max -> is_i64 offset -> is_time t ->
  (timestamp_to_ticks t r offset = Ok ticks <-> timestamp_from_ticks ticks r offset = Ok t) /\
  (timestamp_from_ticks ticks r offset = Ok t <-> tick_time ticks r offset t) /\
  timestamp_from_ticks ticks r offset <> Panic.
Proof.
  intros Hr Hk Ho Ht. rewrite to_ticks_iff, from_ticks_iff by done. split; [tauto|]. split; [tauto|].
  by apply timestamp_from_ticks_safe.
Qed.

Lemma timestamp_ticks_inverse_witness :
  timestamp_from_ticks 1700000000123456 (Decimal 6) (-5) = Ok 1699999995123456000 /\
  timestamp_to_ticks 1699999995123456000 (Decimal 6) (-5) = Ok 1700000000123456.
Proof.
  destruct (timestamp_ticks_inverse 1699999995123456000 1700000000123456 (-5) (Decimal 6)) as [H [H' _]];
    [cbn; lia|unfold u64_max; lia|unfold is_i64, i64_max; lia|reflexivity|].
  assert (timestamp_from_ticks 1700000000123456 (Decimal 6) (-5) = Ok 1699999995123456000) as E by (apply H'; reflexivity).
  split; [exact E|]. by apply H.
Defined.
