(* ===== verification/CaptureEncode.v ===== *)
(** * Capture files: what the writer writes

    The bytes of every header, block and record, and that the encoders emit
    exactly those bytes. *)

From stdpp Require Import base tactics option list numbers strings.
From Stdlib Require Import ZArith Lia.
From S2P Require Import Prelude Checksum Ordered Flow Headers Frame Transform TransformProofs CaptureWire CaptureRead CaptureWrite CaptureStreams CaptureTime.

(** ** Well-formed data *)

Definition is_u32 (x : Z) : Prop := 0 <= x <= u32_max.

(** A frame as its constructors leave it, with fields of their widths. *)
Definition frame_wf (f : Frame) : Prop :=
  frame_ok f /\ original_length f <= u32_max /\ is_u32 (link_type f) /\
  (forall t, fr_timestamp f = Some t -> is_time t) /\ (forall i, fr_interface f = Some i -> is_u32 i).

(** An interface the writer has accepted. *)
Definition interface_wf (i : Interface) : Prop :=
  0 <= if_link_type i <= u16_max /\ is_u32 (if_snap_len i) /\
  match if_timestamp_resolution i with Decimal e => 0 <= e <= 127 | Binary e => 0 <= e <= 127 end /\
  is_i64 (if_timestamp_offset i).

Definition option_wf (o : PcapNgOption) : Prop :=
  0 < opt_code o <= u16_max /\ zlen (opt_value o) <= u16_max.

Lemma frame_wf_lengths f : frame_wf f ->
  0 <= captured_length f <= u32_max /\ 0 <= original_length f <= u32_max /\ captured_length f <= original_length f /\
  zlen (frame_bytes f) = captured_length f.
Proof. intros ((Hc & Ho) & Hu & _). pose proof (zlen_nonneg (frame_bytes f)). lia. Qed.

Lemma interface_wf_resolution i : interface_wf i -> resolution_ok (if_timestamp_resolution i).
Proof. intros (_ & _ & H & _). destruct (if_timestamp_resolution i); cbn in *; lia. Qed.

(** ** Padding *)

Definition padding (n : Z) : bytes := zrep ((- n) mod 4) 0.
Definition padded (n : Z) : Z := n + (- n) mod 4.

Lemma zlen_padding n : zlen (padding n) = (- n) mod 4.
Proof. unfold padding. rewrite zlen_zrep. pose proof (Z.mod_pos_bound (- n) 4). lia. Qed.

Lemma padded_mod n : padded n mod 4 = 0.
Proof. unfold padded. rewrite Zplus_mod_idemp_r. by rewrite Z.add_opp_diag_r. Qed.

Lemma padded_bounds n : n <= padded n < n + 4.
Proof. unfold padded. pose proof (Z.mod_pos_bound (- n) 4). lia. Qed.

(** Rounding up to a multiple of four, as the code does it. *)
Lemma align4 n : Z.land (n + 3) (Z.lnot 3) = padded n.
Proof.
  change 3 with (Z.ones 2) at 2. rewrite <- Z.ldiff_land, Z.ldiff_ones_r, Z.shiftl_mul_pow2, Z.shiftr_div_pow2 by lia.
  change (2 ^ 2) with 4. unfold padded. pose proof (Z.div_mod (n + 3) 4 ltac:(lia)). pose proof (Z.div_mod (- n) 4 ltac:(lia)).
  pose proof (Z.mod_pos_bound (n + 3) 4 ltac:(lia)). pose proof (Z.mod_pos_bound (- n) 4 ltac:(lia)). lia.
Qed.

Lemma div_ceil4 n : div_ceil n 4 * 4 = padded n.
Proof.
  unfold div_ceil, padded. pose proof (Z.div_mod (n + 4 - 1) 4 ltac:(lia)). pose proof (Z.div_mod (- n) 4 ltac:(lia)).
  pose proof (Z.mod_pos_bound (n + 4 - 1) 4 ltac:(lia)). pose proof (Z.mod_pos_bound (- n) 4 ltac:(lia)). lia.
Qed.

Lemma align_to_usize_ok n : 0 <= n <= u32_max -> align_to_usize n = Ok (padded n).
Proof. intros. unfold align_to_usize. rewrite checked_add_ok by (unfold usize_max, u64_max, u32_max in *; lia). cbn. by rewrite align4. Qed.

Lemma write_padding_eq {W} `{Write W} n : @write_padding W _ n = write_all (padding n).
Proof.
  unfold write_padding, padding. f_equal. pose proof (Z.div_mod n 4 ltac:(lia)). pose proof (Z.mod_pos_bound n 4 ltac:(lia)).
  assert (n mod 4 = 0 \/ n mod 4 = 1 \/ n mod 4 = 2 \/ n mod 4 = 3) as [E|[E|[E|E]]] by lia; rewrite E.
  - by rewrite (Z.mod_opp_l_z n 4) by lia.
  - by rewrite (Z.mod_opp_l_nz n 4), E by lia.
  - by rewrite (Z.mod_opp_l_nz n 4), E by lia.
  - by rewrite (Z.mod_opp_l_nz n 4), E by lia.
Qed.

(** ** Arrays *)

Lemma slice_write_fits buffer filled length : zlen filled + zlen buffer <= length ->
  slice_write buffer (mkSliceWriter filled length) = (Ok tt, mkSliceWriter (filled ++ buffer) length).
Proof. intros. unfold slice_write. cbn. by rewrite (proj2 (Z.leb_le _ _)) by lia. Qed.

Lemma slice_write_bind {B} buffer filled length (k : unit -> stm SliceWriter B) : zlen filled + zlen buffer <= length ->
  (write_all buffer ≫= k) (mkSliceWriter filled length) = k tt (mkSliceWriter (filled ++ buffer) length).
Proof. intros. apply stm_bind_eq. by apply slice_write_fits. Qed.

Definition words (e : Endianness) (values : list Z) : bytes := concat (map (to_bytes e 4) values).

Lemma zlen_words e values : zlen (words e values) = 4 * zlen values.
Proof. induction values; [done|]. cbn. rewrite zlen_app, zlen_cons, zlen_to_bytes. unfold words in IHvalues. lia. Qed.

Lemma slice_write_words e values : forall filled length, zlen filled + 4 * zlen values <= length ->
  write_words e values (mkSliceWriter filled length) = (Ok tt, mkSliceWriter (filled ++ words e values) length).
Proof.
  induction values as [|v values IH]; intros filled length L; cbn [write_words].
  - cbn. by rewrite app_nil_r.
  - rewrite zlen_cons in L. pose proof (zlen_nonneg values).
    rewrite (stm_bind_eq _ _ _ tt (mkSliceWriter (filled ++ to_bytes e 4 v) length)).
    + rewrite IH by (rewrite zlen_app, zlen_to_bytes; lia). by rewrite <- app_assoc.
    + apply slice_write_fits. rewrite zlen_to_bytes. lia.
Qed.

Lemma in_array_eq {S A B} length (m : stm SliceWriter A) (k : SliceWriter -> stm S B) a data (s : S) :
  m (mkSliceWriter [] length) = (Ok a, mkSliceWriter data length) ->
  (in_array length m ≫= k) s = k (mkSliceWriter data length) s.
Proof. intros E. unfold mbind, stm_bind, in_array. by rewrite E. Qed.

Lemma slice_array_full data length : zlen data = length -> slice_array (mkSliceWriter data length) = data.
Proof. intros <-. unfold slice_array. cbn. rewrite Z.sub_diag. by rewrite app_nil_r. Qed.

(** ** Classic records *)

Definition pcap_header_bytes (e : Endianness) (precision : TimestampPrecision) (snap_len link : Z) : bytes :=
  pcap_magic e precision ++ to_bytes e 2 2 ++ to_bytes e 2 4 ++ to_bytes e 4 0 ++ to_bytes e 4 0 ++
  to_bytes e 4 snap_len ++ to_bytes e 4 link.

Definition pcap_frame_bytes (e : Endianness) (seconds fraction : Z) (f : Frame) : bytes :=
  words e [seconds; fraction; captured_length f; original_length f] ++ frame_bytes f.

Ltac emit := repeat first [apply emits_all | apply emits_ret | apply emits_bind; [apply emits_all|intros []]].

Lemma write_pcap_header_emits e precision snap_len link :
  emits (write_pcap_header e precision snap_len link) (pcap_header_bytes e precision snap_len link).
Proof. unfold write_pcap_header, pcap_header_bytes, write_u16, write_u32. emit. Qed.

Lemma write_pcap_frame_emits e seconds fraction f :
  emits (write_pcap_frame e seconds fraction f) (pcap_frame_bytes e seconds fraction f).
Proof.
  unfold write_pcap_frame, pcap_frame_bytes. set (vs := [seconds; fraction; captured_length f; original_length f]).
  assert (zlen (words e vs) = PCAP_RECORD_HEADER_LEN) as L by (by rewrite zlen_words).
  eapply emits_eq.
  { intros s. rewrite (in_array_eq _ _ _ tt (words e vs)) by (by apply slice_write_words).
    rewrite slice_array_full by done. reflexivity. }
  rewrite <- (app_nil_r (frame_bytes f)). change (words e vs ++ frame_bytes f ++ []) with (concat [words e vs; frame_bytes f]).
  rewrite app_nil_r. apply emits_parts. do 2 eexists. split; [done|]. intros E. apply (f_equal zlen) in E. by rewrite L in E.
Qed.

(** ** Blocks *)

Definition section_bytes (e : Endianness) : bytes :=
  to_bytes e 4 PCAPNG_SECTION_HEADER_BLOCK ++ to_bytes e 4 28 ++ to_bytes e 4 PCAPNG_BYTE_ORDER_MAGIC ++
  to_bytes e 2 1 ++ to_bytes e 2 0 ++ to_bytes e 8 18446744073709551615 ++ to_bytes e 4 28.

Lemma write_section_header_emits e : emits (write_section_header e) (section_bytes e).
Proof. unfold write_section_header, section_bytes, write_u16, write_u32, write_i64. emit. Qed.

Definition option_bytes (e : Endianness) (o : PcapNgOption) : bytes :=
  to_bytes e 2 (opt_code o) ++ to_bytes e 2 (zlen (opt_value o)) ++ opt_value o ++ padding (zlen (opt_value o)).

Definition options_bytes (e : Endianness) (options : list PcapNgOption) : bytes := concat (map (option_bytes e) options).

Definition options_size (options : list PcapNgOption) : Z :=
  foldr (fun o size => 4 + padded (zlen (opt_value o)) + size) 0 options.

Lemma zlen_option_bytes e o : zlen (option_bytes e o) = 4 + padded (zlen (opt_value o)).
Proof. unfold option_bytes, padded. rewrite !zlen_app, !zlen_to_bytes, zlen_padding. lia. Qed.

Lemma zlen_options_bytes e options : zlen (options_bytes e options) = options_size options.
Proof.
  unfold options_bytes. induction options as [|o options IH]; [done|]. cbn [map concat options_size foldr].
  fold (options_size options). rewrite zlen_app, IH, zlen_option_bytes. lia.
Qed.

Lemma options_size_nonneg options : 0 <= options_size options.
Proof. rewrite <- (zlen_options_bytes Little). apply zlen_nonneg. Qed.

Lemma options_size_mod options : options_size options mod 4 = 0.
Proof.
  induction options as [|o options IH]; [done|]. cbn [options_size foldr]. fold (options_size options).
  rewrite <- Z.add_assoc, Z.add_mod, (Z.add_mod (padded _)), padded_mod, IH by lia. done.
Qed.

Lemma write_options_emits e options : Forall option_wf options -> emits (write_options e options) (options_bytes e options).
Proof.
  unfold options_bytes. induction 1 as [|o options Ho _ IH]; cbn [write_options map concat]; [apply emits_ret|].
  destruct Ho as (Hc & Hl). pose proof (zlen_nonneg (opt_value o)). unfold u16_max in *.
  unfold option_bytes, write_u16, as_u32. rewrite write_padding_eq, !Z.mod_small by lia. rewrite <- !app_assoc.
  repeat (apply emits_bind; [apply emits_all|intros []]). exact IH.
Qed.

Lemma option_length_ok o : option_wf o -> option_length o = Ok (4 + padded (zlen (opt_value o))).
Proof.
  intros (Hc & Hl). unfold option_length. pose proof (zlen_nonneg (opt_value o)). pose proof (padded_bounds (zlen (opt_value o))).
  unfold u16_max, usize_max, u64_max in *. rewrite checked_mul_ok by (rewrite div_ceil4; lia). cbn [expect]. rewrite Ok_bind, div_ceil4.
  by rewrite add_u_ok by (unfold u64_max; lia).
Qed.

Lemma options_length_Ok options : Forall option_wf options -> forall base,
  safe (options_length base options) (fun length => length = base + options_size options).
Proof.
  induction 1 as [|o options Ho _ IH]; intros base; cbn [options_length].
  - cbn. lia.
  - rewrite option_length_ok by done. rewrite Ok_bind. cbn [options_size foldr]. fold (options_size options).
    apply safe_bind, safe_ok_or. intros l Hl. apply checked_add_Some in Hl as [-> _].
    eapply safe_mono; [apply IH|]. intros ? ->. lia.
Qed.

(** The description block of an interface, with the length and resolution fields it carries. *)
Definition description_bytes (e : Endianness) (i : Interface) (options : list PcapNgOption) (tsresol : Z) : bytes :=
  let offset := if if_timestamp_offset i =? 0 then []
    else to_bytes e 2 PCAPNG_OPTION_IF_TSOFFSET ++ to_bytes e 2 8 ++
         to_bytes e 8 (if_timestamp_offset i mod 18446744073709551616) in
  to_bytes e 2 (if_link_type i) ++ to_bytes e 2 0 ++ to_bytes e 4 (if_snap_len i) ++
  to_bytes e 2 PCAPNG_OPTION_IF_TSRESOL ++ to_bytes e 2 1 ++ [tsresol; 0; 0; 0] ++ offset ++
  options_bytes e options ++ to_bytes e 2 PCAPNG_OPTION_END ++ to_bytes e 2 0.

(** A block: its type and length, its body, and its length again. *)
Definition block_bytes (e : Endianness) (block_type length : Z) (body : bytes) : bytes :=
  to_bytes e 4 block_type ++ to_bytes e 4 length ++ body ++ to_bytes e 4 length.

Lemma zlen_block_bytes e t length body : zlen (block_bytes e t length body) = 12 + zlen body.
Proof. unfold block_bytes. rewrite !zlen_app, !zlen_to_bytes. lia. Qed.

Definition description_size (i : Interface) (options : list PcapNgOption) : Z :=
  interface_description_base_length (if_timestamp_offset i) + options_size options.

Lemma zlen_description_bytes e i options tsresol :
  12 + zlen (description_bytes e i options tsresol) = description_size i options.
Proof.
  unfold description_bytes, description_size, interface_description_base_length. pose proof (zlen_options_bytes e options).
  destruct (if_timestamp_offset i =? 0); rewrite !zlen_app, !zlen_to_bytes, ?zlen_nil, H, !zlen_cons, zlen_nil; lia.
Qed.

Lemma write_interface_description_emits e i options tsresol length :
  interface_wf i -> Forall option_wf options -> to_tsresol (if_timestamp_resolution i) = Ok tsresol ->
  options_length (interface_description_base_length (if_timestamp_offset i)) options = Ok length -> length <= u32_max ->
  emits (write_interface_description e i options)
    (block_bytes e PCAPNG_INTERFACE_DESCRIPTION_BLOCK length (description_bytes e i options tsresol)).
Proof.
  intros (Hl & _) Ho Hr HL Hu. unfold write_interface_description. eapply emits_lift_bind; [exact HL|].
  eapply emits_lift_bind; [unfold usize_to_u32_limit; by rewrite (proj2 (Z.leb_le _ _)) by lia|].
  unfold block_bytes, description_bytes, write_u16, write_u32, write_i64, u16_max in *.
  rewrite (Z.mod_small (if_link_type i)) by lia. rewrite <- !app_assoc.
  repeat (apply emits_bind; [apply emits_all|intros []]). eapply emits_lift_bind; [exact Hr|].
  apply emits_bind; [apply emits_all|intros []]. destruct (if_timestamp_offset i =? 0); cbn [negb].
  - eapply (emits_bind _ _ []); [apply emits_ret|intros []].
    apply emits_bind; [by apply write_options_emits|intros []]. emit.
  - apply emits_bind; [|intros []; apply emits_bind; [by apply write_options_emits|intros []]; emit]. emit.
Qed.

(** ** Packets *)

Definition packet_option_bytes (e : Endianness) (direction : option Direction) : bytes :=
  match direction with
  | Some d => to_bytes e 2 PCAPNG_OPTION_EPB_FLAGS ++ to_bytes e 2 4 ++ to_bytes e 4 (direction_flags d) ++
              to_bytes e 2 PCAPNG_OPTION_END ++ to_bytes e 2 0
  | None => []
  end.

Definition packet_body (e : Endianness) (interface_id timestamp : Z) (f : Frame) : bytes :=
  words e [interface_id; as_u32 (Z.shiftr timestamp 32); as_u32 timestamp; captured_length f; original_length f] ++
  frame_bytes f ++ padding (captured_length f) ++ packet_option_bytes e (fr_direction f).

Lemma zlen_packet_body e id ts f : frame_wf f ->
  12 + zlen (packet_body e id ts f) = 32 + padded (captured_length f) + (if is_some (fr_direction f) then 12 else 0).
Proof.
  intros Hf. apply frame_wf_lengths in Hf as (_ & _ & _ & E). unfold packet_body, padded.
  rewrite !zlen_app, zlen_words, zlen_padding, E. destruct (fr_direction f); cbn [is_some packet_option_bytes];
    rewrite ?zlen_app, ?zlen_to_bytes, ?zlen_nil, !zlen_cons, zlen_nil; lia.
Qed.

Lemma write_enhanced_packet_emits e id ts length f :
  emits (write_enhanced_packet e id ts length f)
    (block_bytes e PCAPNG_ENHANCED_PACKET_BLOCK length (packet_body e id ts f)).
Proof.
  unfold write_enhanced_packet. set (vs := [PCAPNG_ENHANCED_PACKET_BLOCK; length; id; _; _; _; _]).
  set (tail := padding (captured_length f) ++ packet_option_bytes e (fr_direction f) ++ to_bytes e 4 length).
  assert (zlen (words e vs) = 28) as L by (by rewrite zlen_words).
  assert (write_packet_tail e length f (mkSliceWriter [] (3 + 12 + 4)) = (Ok tt, mkSliceWriter tail (3 + 12 + 4))) as Ht.
  { pose proof (zlen_padding (captured_length f)). pose proof (Z.mod_pos_bound (- captured_length f) 4).
    unfold write_packet_tail. rewrite write_padding_eq.
    unfold write_u16, write_u32. rewrite slice_write_bind by (rewrite zlen_nil; lia). subst tail. cbn [app].
    destruct (fr_direction f) as [d|]; cbn [packet_option_bytes].
    - erewrite stm_bind_eq.
      2: { do 4 (rewrite slice_write_bind by (rewrite ?zlen_app, ?zlen_to_bytes; lia)).
           apply slice_write_fits. rewrite ?zlen_app, ?zlen_to_bytes. lia. }
      rewrite <- !app_assoc. etrans; [apply slice_write_fits; rewrite !zlen_app, !zlen_to_bytes; lia|]. by rewrite <- !app_assoc.
    - apply (slice_write_fits (to_bytes e 4 length)). rewrite zlen_to_bytes. lia. }
  eapply emits_eq.
  { intros s. rewrite (in_array_eq _ _ _ tt (words e vs)) by (by apply slice_write_words).
    rewrite (in_array_eq _ _ _ tt tail) by exact Ht. rewrite slice_array_full by done. reflexivity. }
  replace (block_bytes _ _ _ _) with (concat [words e vs; frame_bytes f; tail]).
  - apply emits_parts. do 2 eexists. split; [done|]. intros E. apply (f_equal zlen) in E. by rewrite L in E.
  - subst tail vs. unfold block_bytes, packet_body, words. cbn [concat map]. by rewrite !app_nil_r, <- !app_assoc.
Qed.
