(* ===== verification/CaptureWriter.v ===== *)
(** * Capture files: the writer

    What a frame is planned to be, what writing it does to the stream and to the
    writer on every branch, and what a failed stream does to the writer. *)

From stdpp Require Import base tactics option list numbers strings.
From Stdlib Require Import ZArith Lia.
From S2P Require Import Prelude Checksum Ordered Flow Headers Frame Transform TransformProofs CaptureWire CaptureRead CaptureWrite CaptureStreams CaptureTime CaptureEncode.

(** ** The invariant of a writer *)

Definition writer_wf (w : Writer) : Prop :=
  0 <= wr_max_size w <= usize_max /\
  match wr_state w with
  | WriterPcap _ _ snap_len link => 0 < snap_len <= u32_max /\ 0 <= link <= u16_max
  | WriterPcapNg _ interfaces => Forall interface_wf interfaces /\ zlen interfaces <= u32_max + 1
  end.

(** ** Budgets *)

Lemma Budget_after_Ok b n b' : Budget_after b n = Ok b' ->
  bg_limits b' = bg_limits b /\ bg_frames b' = bg_frames b + 1 /\ bg_captured_bytes b' = bg_captured_bytes b + n /\
  bg_frames b' <= max_frames (bg_limits b) /\ bg_captured_bytes b' <= max_bytes (bg_limits b).
Proof.
  unfold Budget_after. intros H. inv_ok H. apply ok_or_Ok, checked_add_Some in Ha as [-> _].
  destruct (Z.ltb_spec (max_frames (bg_limits b)) (bg_frames b + 1)); [done|].
  inv_ok H. apply ok_or_Ok, checked_add_Some in Ha as [-> _].
  destruct (Z.ltb_spec (max_bytes (bg_limits b)) (bg_captured_bytes b + n)); [done|]. injection H as <-. cbn. split; [done|lia].
Qed.

Lemma Budget_after_safe b n : Budget_after b n <> Panic.
Proof.
  unfold Budget_after. apply ok_or_bind_not_Panic. intros f _. destruct (_ <? _); [done|].
  apply ok_or_bind_not_Panic. intros c _. by destruct (_ <? _).
Qed.

(** ** Planning a block *)

(** The interfaces after a plan that may add one. *)
Definition with_new (interfaces : list Interface) (new : option Interface) : list Interface :=
  interfaces ++ match new with Some i => [i] | None => [] end.

(** What a planned packet block is: the interface [i] it refers to, which is the
    frame's own or one of its link type, and its fields. *)
Record ng_planned (f : Frame) (interfaces : list Interface) (max_size max_interfaces id ts size : Z)
  (new : option Interface) (i : Interface) : Prop := {
  np_id : is_u32 id;
  np_lookup : zget (with_new interfaces new) id = Some i;
  np_link : if_link_type i = link_type f;
  np_wf : interface_wf i;
  np_own : forall own, fr_interface f = Some own -> id = own;
  np_snap : if_snap_len i = 0 \/ captured_length f <= if_snap_len i;
  np_time : exists t, fr_timestamp f = Some t /\
    timestamp_to_ticks t (if_timestamp_resolution i) (if_timestamp_offset i) = Ok ts;
  np_size : size = 32 + padded (captured_length f) + (if is_some (fr_direction f) then 12 else 0);
  np_max : size <= max_size /\ size <= u32_max;
  np_new : match new with
           | Some j => j = i /\ id = zlen interfaces /\ if_timestamp_resolution i = Decimal 9 /\ if_timestamp_offset i = 0 /\
                       zlen interfaces < max_interfaces /\ 32 <= max_size
           | None => True
           end
}.

Lemma interfaces_matching_In link interfaces : forall index k i,
  (k, i) ∈ interfaces_matching link index interfaces -> index <= k /\ zget interfaces (k - index) = Some i /\ if_link_type i = link.
Proof.
  induction interfaces as [|j interfaces IH]; intros index k i; cbn [interfaces_matching]; [by rewrite elem_of_nil|].
  assert (forall k i, (k, i) ∈ interfaces_matching link (index + 1) interfaces ->
    index <= k /\ zget (j :: interfaces) (k - index) = Some i /\ if_link_type i = link) as Hr.
  { intros k' i' (? & Hz & ?)%IH. split_and!; [lia| |done].
    change (j :: interfaces) with ([j] ++ interfaces). rewrite zget_app. change (zlen [j]) with 1.
    rewrite (proj2 (Z.ltb_ge _ _)) by lia. rewrite <- Hz. f_equal. lia. }
  destruct (Z.eqb_spec (if_link_type j) link); [|apply Hr].
  rewrite elem_of_cons. intros [[= -> ->]|?]; [|by apply Hr]. by rewrite Z.sub_diag.
Qed.

Lemma validate_new_interface_Ok i existing max_size max_interfaces id :
  validate_new_interface i existing max_size max_interfaces = Ok id ->
  id = zlen existing /\ zlen existing <= u32_max /\ if_link_type i <= u16_max /\ zlen existing < max_interfaces /\
  interface_description_base_length (if_timestamp_offset i) <= max_size /\
  (exists tsresol, to_tsresol (if_timestamp_resolution i) = Ok tsresol).
Proof.
  unfold validate_new_interface, validate_timestamp_resolution. intros H. inv_ok H. inv_ok Ha.
  destruct (Z.ltb_spec max_size (interface_description_base_length (if_timestamp_offset i))); [done|].
  inv_ok H. apply ok_or_Ok, checked_add_Some in Ha1 as [-> _].
  destruct (Z.ltb_spec max_interfaces (zlen existing + 1)); [done|].
  inv_ok H. apply ok_or_Ok in Ha1. destruct (Z.leb_spec (zlen existing) u32_max); simplify_eq.
  destruct (Z.ltb_spec u16_max (if_link_type i)); simplify_eq. split_and!; try lia. by eexists.
Qed.

Lemma select_interface_Ok f interfaces max_size max_interfaces plan :
  frame_wf f -> Forall interface_wf interfaces -> zlen interfaces <= u32_max + 1 -> 0 <= max_size ->
  select_interface f interfaces max_size max_interfaces = Ok plan ->
  let new := if ip_requires_description_block plan then Some (ip_description plan) else None in
  is_u32 (ip_id plan) /\ zget (with_new interfaces new) (ip_id plan) = Some (ip_description plan) /\
  if_link_type (ip_description plan) = link_type f /\ interface_wf (ip_description plan) /\
  (forall own, fr_interface f = Some own -> ip_id plan = own) /\
  (ip_requires_description_block plan = true -> ip_id plan = zlen interfaces /\
     if_timestamp_resolution (ip_description plan) = Decimal 9 /\ if_timestamp_offset (ip_description plan) = 0 /\
     zlen interfaces < max_interfaces /\ 32 <= max_size).
Proof.
  intros (_ & _ & Hlink & _ & Hown) Hwf Hlen Hmax Hs. unfold select_interface in Hs.
  pose proof (fun k i => Forall_zget _ _ k i Hwf) as Hget.
  destruct (fr_interface f) as [own|] eqn:Ei.
  - inv_ok Hs. apply ok_or_Ok in Ha. destruct (Z.eqb_spec (if_link_type a) (link_type f)); simplify_eq/=.
    unfold with_new. rewrite app_nil_r. split_and!; try done; [by apply Hown|by eapply Hget|naive_solver].
  - destruct (interfaces_matching (link_type f) 0 interfaces) as [|[k i] [|]] eqn:Em; [| |done].
    + inv_ok Hs. inv_ok Hs. simplify_eq/=. apply validate_new_interface_Ok in Ha0 as (-> & Hu & Hl & Hm & Hb & _).
      unfold usize_to_u32_limit in Ha. destruct (Z.leb_spec max_size u32_max); simplify_eq/=.
      unfold interface_description_base_length in Hb. cbn in Hb. pose proof (zlen_nonneg interfaces).
      unfold with_new, is_u32, interface_wf, is_i64, i64_max in *. cbn. split_and!; try lia; try done.
      rewrite zget_app, Z.ltb_irrefl, Z.sub_diag. done.
    + simplify_eq/=. destruct (interfaces_matching_In (link_type f) interfaces 0 k i) as (Hk & Hz & El); [rewrite Em; constructor|].
      rewrite Z.sub_0_r in Hz. apply zget_Some_lt in Hz as Hb.
      unfold as_u32, with_new, is_u32, u32_max in *. rewrite app_nil_r, Z.mod_small by lia. split_and!; try done; try lia.
      by eapply Hget.
Qed.

Lemma prepare_pcapng_Ok f interfaces max_size max_interfaces enc size prefix :
  frame_wf f -> Forall interface_wf interfaces -> zlen interfaces <= u32_max + 1 -> 0 <= max_size ->
  prepare_pcapng f interfaces max_size max_interfaces = Ok (enc, size, prefix) ->
  exists id ts new i, enc = EncodePcapNg id ts size new /\ prefix = (if is_some new then 32 else 0) /\
    ng_planned f interfaces max_size max_interfaces id ts size new i.
Proof.
  intros Hf Hwf Hlen Hmax H. unfold prepare_pcapng in H. inv_ok H. rename a into plan, Ha into Hs.
  apply select_interface_Ok in Hs as (Hid & Hz & Hl & Hi & Hown & Hnew); [|done..].
  destruct (negb _ && _) eqn:Esnap; [done|]. inv_ok H. apply ok_or_Ok in Ha. inv_ok H.
  apply frame_wf_lengths in Hf as (Hc & _). inv_ok H. inv_ok H.
  unfold align_to_u32 in Ha1. inv_ok Ha1. apply ok_or_Ok, checked_add_Some in Ha3 as [-> _]. rewrite align4 in Ha1. simplify_eq.
  apply ok_or_Ok, bind_Some in Ha2 as (l & Hl1 & Hl2). apply checked_add_Some in Hl1 as [-> _]. apply checked_add_Some in Hl2 as [-> Hu].
  destruct (Z.ltb_spec max_size (32 + padded (captured_length f) + (if is_some (fr_direction f) then 12 else 0))); simplify_eq.
  exists (ip_id plan), a0, (if ip_requires_description_block plan then Some (ip_description plan) else None), (ip_description plan).
  split; [done|]. split.
  - unfold description_block_length. destruct (ip_requires_description_block plan) eqn:Er; [|done].
    destruct (Hnew eq_refl) as (_ & _ & -> & _). done.
  - split; try done.
    + apply andb_false_iff in Esnap as [?%negb_false_iff%Z.eqb_eq|?%Z.ltb_ge]; [by left|by right].
    + by exists a.
    + destruct (ip_requires_description_block plan); [|done]. naive_solver.
Qed.

(** ** Writing *)

Definition with_inner (s : Sink) (w : Writer) : Writer :=
  mkWriter s (wr_state w) (wr_max_size w) (wr_max_interfaces w) (wr_budget w) (wr_output_failure w).

Definition with_failure (s : Sink) (io : IoError) (w : Writer) : Writer :=
  mkWriter s (wr_state w) (wr_max_size w) (wr_max_interfaces w) (wr_budget w) (Some (snapshot io)).

Lemma write_output_spec {A} (op : stm Sink A) data w : emits op data -> wr_output_failure w = None ->
  match write_output op w with
  | (Ok _, w') => exists s, w' = with_inner s w /\ sink_bytes s = sink_bytes (wr_inner w) ++ data
  | (Err e, w') => exists io s part, e = CIo io /\ w' = with_failure s io w /\
      sink_bytes s = sink_bytes (wr_inner w) ++ part /\ part `prefix_of` data
  | (Panic, _) => False
  end /\
  (sink_script (wr_inner w) = [] ->
    exists a, write_output op w = (Ok a, with_inner (mkSink (sink_bytes (wr_inner w) ++ data) []) w)).
Proof.
  intros [H1 H2] Hn. unfold write_output, ensure_output_available. rewrite Hn. split.
  - specialize (H1 (wr_inner w)). destruct (op (wr_inner w)) as [[a|e|] s]; [| |done].
    + exists s. unfold with_inner. by rewrite Hn.
    + destruct H1 as ((part & ? & ?) & io & ->). by exists io, s, part.
  - intros Hs. destruct (wr_inner w) as [b script]. cbn in Hs. subst. destruct (H2 b) as (a & E). cbn. rewrite E.
    exists a. unfold with_inner. by rewrite Hn.
Qed.

(** The bytes of a planned frame. *)
Definition encoding_bytes (e : Endianness) (f : Frame) (encoding : FrameEncoding) : bytes :=
  match encoding with
  | EncodePcap seconds fraction => pcap_frame_bytes e seconds fraction f
  | EncodePcapNg id ts size new =>
      match new with
      | Some i => block_bytes e PCAPNG_INTERFACE_DESCRIPTION_BLOCK 32 (description_bytes e i [] 9)
      | None => []
      end ++ block_bytes e PCAPNG_ENHANCED_PACKET_BLOCK size (packet_body e id ts f)
  end.

(** The state of the writer once they are written. *)
Definition after_encoding (state : WriterState) (encoding : FrameEncoding) : WriterState :=
  match state, encoding with
  | WriterPcapNg e interfaces, EncodePcapNg _ _ _ new => WriterPcapNg e (with_new interfaces new)
  | _, _ => state
  end.

(** A plan the writer made for the frame. *)
Definition planned (w : Writer) (f : Frame) (plan : FramePlan) : Prop :=
  wr_output_failure w = None /\ captured_length f <= wr_max_size w /\
  Budget_after (wr_budget w) (captured_length f) = Ok (fp_budget plan) /\
  match wr_state w with
  | WriterPcap e precision snap_len link => exists seconds fraction,
      fp_encoding plan = EncodePcap seconds fraction /\
      validate_pcap_frame f precision snap_len link = Ok (seconds, fraction) /\
      fp_encoded_size plan = PCAP_RECORD_HEADER_LEN + captured_length f
  | WriterPcapNg e interfaces => exists id ts size new i,
      fp_encoding plan = EncodePcapNg id ts size new /\ fp_encoded_size plan = size + (if is_some new then 32 else 0) /\
      ng_planned f interfaces (wr_max_size w) (wr_max_interfaces w) id ts size new i
  end.

Lemma prepare_frame_planned w f plan : writer_wf w -> frame_wf f -> prepare_frame w f = Ok plan -> planned w f plan.
Proof.
  intros Hw Hf H. unfold prepare_frame in H. inv_ok H. unfold ensure_output_available in Ha.
  destruct (wr_output_failure w) eqn:Ef; [done|]. inv_ok H. unfold validate_frame_size in Ha0.
  destruct (Z.ltb_spec (wr_max_size w) (captured_length f)); [done|]. inv_ok H. inv_ok H.
  destruct a2 as [[enc size] prefix]. inv_ok H. apply ok_or_Ok, checked_add_Some in Ha3 as [-> _]. simplify_eq.
  unfold planned. split; [done|]. split; [done|]. split; [done|]. cbn [fp_encoding fp_encoded_size].
  destruct Hw as [Hmax Hw]. destruct (wr_state w) as [e precision snap_len link|e interfaces].
  - apply bind_Ok in Ha2 as ([seconds fraction] & Hv & Ha2). simplify_eq. exists seconds, fraction. split_and!; [done..|].
    apply frame_wf_lengths in Hf as (_ & _ & _ & ->). lia.
  - destruct Hw as [Hi Hn]. apply prepare_pcapng_Ok in Ha2 as (id & ts & new & i & -> & -> & Hp); [|done..|lia].
    by exists id, ts, size, new, i.
Qed.

Lemma encoding_size w f plan : frame_wf f -> planned w f plan ->
  zlen (encoding_bytes (Writer_endianness w) f (fp_encoding plan)) = fp_encoded_size plan.
Proof.
  intros Hf (_ & _ & _ & Hp). unfold Writer_endianness. destruct (wr_state w) as [e precision snap_len link|e interfaces].
  - destruct Hp as (seconds & fraction & -> & _ & ->). cbn [encoding_bytes]. unfold pcap_frame_bytes.
    rewrite zlen_app, zlen_words. apply frame_wf_lengths in Hf as (_ & _ & _ & ->). done.
  - destruct Hp as (id & ts & size & new & i & -> & -> & Hp). cbn [encoding_bytes].
    rewrite zlen_app, zlen_block_bytes, zlen_packet_body by done. rewrite (np_size _ _ _ _ _ _ _ _ _ Hp).
    destruct new as [j|]; cbn [is_some]; [|rewrite zlen_nil; lia].
    destruct (np_new _ _ _ _ _ _ _ _ _ Hp) as (-> & _ & _ & E0 & _).
    rewrite zlen_block_bytes, zlen_description_bytes. unfold description_size. rewrite E0. cbn. lia.
Qed.

(** Writing the description block a plan adds. *)
Lemma write_interface_spec w i options tsresol length :
  interface_wf i -> Forall option_wf options -> to_tsresol (if_timestamp_resolution i) = Ok tsresol ->
  options_length (interface_description_base_length (if_timestamp_offset i)) options = Ok length -> length <= u32_max ->
  wr_output_failure w = None -> (exists e interfaces, wr_state w = WriterPcapNg e interfaces) ->
  let data := block_bytes (Writer_endianness w) PCAPNG_INTERFACE_DESCRIPTION_BLOCK length
                (description_bytes (Writer_endianness w) i options tsresol) in
  match write_interface i options w with
  | (Ok _, w') => exists s, w' = push_interface i (with_inner s w) /\ sink_bytes s = sink_bytes (wr_inner w) ++ data
  | (Err e, w') => exists io s part, e = CIo io /\ w' = with_failure s io w /\
      sink_bytes s = sink_bytes (wr_inner w) ++ part /\ part `prefix_of` data
  | (Panic, _) => False
  end /\
  (sink_script (wr_inner w) = [] ->
    write_interface i options w = (Ok tt, push_interface i (with_inner (mkSink (sink_bytes (wr_inner w) ++ data) []) w))).
Proof.
  intros Hi Ho Hr HL Hu Hn (e & interfaces & Es) data. unfold write_interface, mbind, stm_bind, gets.
  destruct (write_output_spec (write_interface_description (Writer_endianness w) i options) data w) as [H1 H2];
    [by apply write_interface_description_emits|done|].
  split.
  - destruct (write_output _ w) as [[a|err|] w']; [|done|done]. destruct H1 as (s & -> & Hb). unfold pcapng_interfaces.
    cbn [with_inner wr_state]. rewrite Es. cbn. by exists s.
  - intros Hs. destruct (H2 Hs) as (a & ->). unfold pcapng_interfaces. cbn [with_inner wr_state]. by rewrite Es.
Qed.

Lemma ng_planned_new_wf f interfaces max_size max_interfaces id ts size new i :
  ng_planned f interfaces max_size max_interfaces id ts size new i ->
  Forall interface_wf interfaces -> zlen interfaces <= u32_max + 1 ->
  Forall interface_wf (with_new interfaces new) /\ zlen (with_new interfaces new) <= u32_max + 1.
Proof.
  intros Hp Hi Hn. unfold with_new. destruct new as [j|]; [|by rewrite app_nil_r].
  destruct (np_new _ _ _ _ _ _ _ _ _ Hp) as (-> & Hid & _). pose proof (np_id _ _ _ _ _ _ _ _ _ Hp) as Hu.
  rewrite Forall_app, Forall_singleton, zlen_app. change (zlen [i]) with 1. unfold is_u32 in Hu.
  split; [split; [done|apply (np_wf _ _ _ _ _ _ _ _ _ Hp)]|lia].
Qed.

(** The writer after a write that failed: it remembers the failure and has
    charged nothing; an interface block that was complete stays. *)
Definition failed_write (w w' : Writer) (encoding : FrameEncoding) (io : IoError) (data : bytes) : Prop :=
  wr_output_failure w' = Some (snapshot io) /\ wr_budget w' = wr_budget w /\
  (wr_state w' = wr_state w \/ wr_state w' = after_encoding (wr_state w) encoding) /\
  wr_max_size w' = wr_max_size w /\ wr_max_interfaces w' = wr_max_interfaces w /\
  exists part, sink_bytes (wr_inner w') = sink_bytes (wr_inner w) ++ part /\ part `prefix_of` data.

Lemma write_packet_spec w f id ts size :
  wr_output_failure w = None ->
  let data := block_bytes (Writer_endianness w) PCAPNG_ENHANCED_PACKET_BLOCK size (packet_body (Writer_endianness w) id ts f) in
  match write_output (write_enhanced_packet (Writer_endianness w) id ts size f) w with
  | (Ok _, w') => exists s, w' = with_inner s w /\ sink_bytes s = sink_bytes (wr_inner w) ++ data
  | (Err e, w') => exists io s part, e = CIo io /\ w' = with_failure s io w /\
      sink_bytes s = sink_bytes (wr_inner w) ++ part /\ part `prefix_of` data
  | (Panic, _) => False
  end /\
  (sink_script (wr_inner w) = [] ->
    exists a, write_output (write_enhanced_packet (Writer_endianness w) id ts size f) w =
      (Ok a, with_inner (mkSink (sink_bytes (wr_inner w) ++ data) []) w)).
Proof. intros. apply write_output_spec; [apply write_enhanced_packet_emits|done]. Qed.

(** The new interface is committed once its block is out. *)
Lemma push_interface_fields w e interfaces i s : wr_state w = WriterPcapNg e interfaces -> wr_output_failure w = None ->
  push_interface i (with_inner s w) =
  mkWriter s (WriterPcapNg e (with_new interfaces (Some i))) (wr_max_size w) (wr_max_interfaces w) (wr_budget w) None.
Proof. intros Es Hn. unfold push_interface. cbn. by rewrite Es, <- Hn. Qed.

(** The writes of a planned frame, before the budget is charged. *)
Definition write_encoding (e : Endianness) (f : Frame) (encoding : FrameEncoding) : stm Writer unit :=
  match encoding with
  | EncodePcap seconds fraction => write_output (write_pcap_frame e seconds fraction f)
  | EncodePcapNg interface_id timestamp block_length new_interface =>
      _ ← match new_interface with
          | Some description => write_interface description []
          | None => mret tt
          end;
      write_output (write_enhanced_packet e interface_id timestamp block_length f)
  end.

(** The result of those writes, and that a sink that accepts everything lets them pass. *)
Definition encoding_written (w : Writer) (f : Frame) (encoding : FrameEncoding) : Prop :=
  let data := encoding_bytes (Writer_endianness w) f encoding in
  match write_encoding (Writer_endianness w) f encoding w with
  | (Ok _, w') => exists s, sink_bytes s = sink_bytes (wr_inner w) ++ data /\
      w' = mkWriter s (after_encoding (wr_state w) encoding) (wr_max_size w) (wr_max_interfaces w) (wr_budget w) None
  | (Err e, w') => exists io, e = CIo io /\ failed_write w w' encoding io data
  | (Panic, _) => False
  end /\
  (sink_script (wr_inner w) = [] -> exists a w', write_encoding (Writer_endianness w) f encoding w = (Ok a, w')).

Lemma write_pcap_written w f seconds fraction e precision snap_len link :
  wr_output_failure w = None -> wr_state w = WriterPcap e precision snap_len link ->
  encoding_written w f (EncodePcap seconds fraction).
Proof.
  intros Hn Es. unfold encoding_written. cbn [write_encoding encoding_bytes].
  destruct (write_output_spec _ _ w (write_pcap_frame_emits (Writer_endianness w) seconds fraction f) Hn) as [H1 H2]. split.
  - destruct (write_output _ w) as [[a|err|] w']; [| |done].
    + destruct H1 as (s & -> & Hb). exists s. split; [done|]. unfold with_inner. by rewrite Es, Hn.
    + destruct H1 as (io & s & part & -> & -> & Hb & Hpre). exists io. unfold failed_write, with_failure. cbn. naive_solver.
  - intros Hs. destruct (H2 Hs) as (a & ->). by do 2 eexists.
Qed.

Lemma write_old_written w f id ts size e interfaces :
  wr_output_failure w = None -> wr_state w = WriterPcapNg e interfaces ->
  encoding_written w f (EncodePcapNg id ts size None).
Proof.
  intros Hn Es. unfold encoding_written. cbn [write_encoding encoding_bytes app]. unfold mbind, stm_bind, mret, stm_ret.
  destruct (write_packet_spec w f id ts size Hn) as [H1 H2]. split.
  - destruct (write_output _ w) as [[a|err|] w']; [| |done].
    + destruct H1 as (s & -> & Hb). exists s. split; [done|]. unfold with_inner, after_encoding, with_new. by rewrite Es, app_nil_r, Hn.
    + destruct H1 as (io & s & part & -> & -> & Hb & Hpre). exists io. unfold failed_write, with_failure. cbn. naive_solver.
  - intros Hs. destruct (H2 Hs) as (a & ->). by do 2 eexists.
Qed.

Lemma write_new_written w f id ts size i e interfaces :
  wr_output_failure w = None -> wr_state w = WriterPcapNg e interfaces -> interface_wf i ->
  if_timestamp_resolution i = Decimal 9 -> if_timestamp_offset i = 0 ->
  encoding_written w f (EncodePcapNg id ts size (Some i)).
Proof.
  intros Hn Es Hi Er E0. unfold encoding_written. cbn [write_encoding encoding_bytes]. unfold mbind, stm_bind.
  destruct (write_interface_spec w i [] 9 32) as [H1 H2]; try done; [by rewrite Er|by rewrite E0|by rewrite Es; eauto|].
  pose proof (fun s => push_interface_fields w e interfaces i s Es Hn) as Hpush.
  assert (Writer_endianness w = e) as Ee by (unfold Writer_endianness; by rewrite Es). rewrite Ee in *. split.
  - destruct (write_interface i [] w) as [[a|err|] w1]; [| |done].
    + destruct H1 as (s & -> & Hb). rewrite Hpush.
      match goal with |- context [write_output _ ?w1] => destruct (write_packet_spec w1 f id ts size eq_refl) as [K1 _] end.
      cbn [Writer_endianness wr_state wr_inner] in K1. destruct (write_output _ _) as [[a'|err|] w2]; [| |done].
      * destruct K1 as (s' & -> & Hb'). exists s'. rewrite Hb', Hb, <- app_assoc. split; [done|]. by rewrite Es.
      * destruct K1 as (io & s' & part & -> & -> & Hb' & Hpre). exists io. split; [done|]. unfold failed_write, with_failure. cbn.
        rewrite Es. split_and!; try done; [by right|]. eexists. rewrite Hb', Hb, <- app_assoc. split; [done|]. by apply prefix_app.
    + destruct H1 as (io & s & part & -> & -> & Hb & Hpre). exists io. split; [done|]. unfold failed_write, with_failure. cbn.
      split_and!; try done; [by left|]. exists part. split; [done|]. by apply prefix_app_r.
  - intros Hs. rewrite (H2 Hs), Hpush.
    match goal with |- context [write_output _ ?w1] => destruct (write_packet_spec w1 f id ts size eq_refl) as [_ K2] end.
    cbn [Writer_endianness wr_state] in K2. destruct (K2 eq_refl) as (a & ->). by do 2 eexists.
Qed.

Lemma planned_written w f plan : planned w f plan -> encoding_written w f (fp_encoding plan).
Proof.
  intros (Hn & _ & _ & Hp). destruct (wr_state w) as [e precision snap_len link|e interfaces] eqn:Es.
  - destruct Hp as (seconds & fraction & -> & _). by eapply write_pcap_written.
  - destruct Hp as (id & ts & size & [j|] & i & -> & _ & Hp); [|by eapply write_old_written].
    destruct (np_new _ _ _ _ _ _ _ _ _ Hp) as (-> & _ & Er & E0 & _).
    eapply write_new_written; [done..|apply (np_wf _ _ _ _ _ _ _ _ _ Hp)|done|done].
Qed.

Lemma write_frame_spec w f plan : writer_wf w -> frame_wf f -> prepare_frame w f = Ok plan ->
  let data := encoding_bytes (Writer_endianness w) f (fp_encoding plan) in
  match write_frame f w with
  | (Ok _, w') => exists s, sink_bytes s = sink_bytes (wr_inner w) ++ data /\
      w' = mkWriter s (after_encoding (wr_state w) (fp_encoding plan)) (wr_max_size w) (wr_max_interfaces w)
             (fp_budget plan) None
  | (Err e, w') => exists io, e = CIo io /\ failed_write w w' (fp_encoding plan) io data
  | (Panic, _) => False
  end /\
  (sink_script (wr_inner w) = [] -> exists w', write_frame f w = (Ok tt, w')).
Proof.
  intros Hw Hf Hp data. apply prepare_frame_planned in Hp as Hpl; [|done..].
  destruct (planned_written _ _ _ Hpl) as [H1 H2]. fold data in H1.
  assert (write_frame f w = (_ ← write_encoding (Writer_endianness w) f (fp_encoding plan); modify (set_budget (fp_budget plan))) w) as ->.
  { unfold write_frame. unfold mbind at 1, stm_bind at 1. rewrite Hp. reflexivity. }
  unfold mbind, stm_bind. split.
  - destruct (write_encoding _ _ _ w) as [[a|err|] w']; [|done|done]. destruct H1 as (s & Hb & ->). by exists s.
  - intros Hs. destruct (H2 Hs) as (a & w' & ->). by eexists.
Qed.

Lemma writer_wf_after w w' f plan : writer_wf w -> planned w f plan -> wr_max_size w' = wr_max_size w ->
  wr_state w' = wr_state w \/ wr_state w' = after_encoding (wr_state w) (fp_encoding plan) -> writer_wf w'.
Proof.
  intros [Hm Hw] (_ & _ & _ & Hp) Em Es. unfold writer_wf. rewrite Em. split; [done|]. destruct Es as [->| ->]; [done|].
  destruct (wr_state w) as [e precision snap_len link|e interfaces].
  - by destruct Hp as (seconds & fraction & -> & _).
  - destruct Hp as (id & ts & size & new & i & -> & _ & Hp). cbn. destruct Hw. by eapply ng_planned_new_wf.
Qed.

(** ** Errors that are not the stream's *)

Definition not_io (e : CaptureError) : Prop := forall io, e <> CIo io.

Lemma usize_to_u32_limit_ends n : ends not_io (usize_to_u32_limit n) (fun m => m = n /\ n <= u32_max).
Proof. unfold usize_to_u32_limit. by destruct (Z.leb_spec n u32_max). Qed.

Lemma to_tsresol_ends r : ends not_io (to_tsresol r) (fun _ => True).
Proof. unfold to_tsresol. by destruct r; destruct (_ <=? _). Qed.

Lemma timestamp_to_ticks_ends t r offset : ends not_io (timestamp_to_ticks t r offset) (fun _ => True).
Proof.
  unfold timestamp_to_ticks. destruct (unix_floor t) as [s n]. apply ends_bind, ends_ok_or; [done|]. intros d _.
  destruct (d <? 0); [done|]. destruct (_ && _); [done|]. apply ends_bind, ends_ok_or; [done|]. intros p _.
  apply ends_bind, ends_ok_or; [done|]. intros m _. destruct (negb _); [done|].
  apply ends_bind, ends_ok_or; [done|]. intros k _. by apply ends_ok_or.
Qed.

Lemma validate_new_interface_ends i existing max_size max_interfaces :
  ends not_io (validate_new_interface i existing max_size max_interfaces) (fun _ => True).
Proof.
  unfold validate_new_interface, validate_timestamp_resolution. apply ends_bind, ends_bind.
  eapply ends_mono; [apply to_tsresol_ends|]. intros r _. cbn. destruct (_ <? _); [done|].
  apply ends_bind, ends_ok_or; [done|]. intros n _. destruct (_ <? _); [done|].
  apply ends_bind, ends_ok_or; [done|]. intros id _. by destruct (_ <? _).
Qed.

Lemma select_interface_ends f interfaces max_size max_interfaces :
  ends not_io (select_interface f interfaces max_size max_interfaces) (fun _ => True).
Proof.
  unfold select_interface. destruct (fr_interface f).
  - apply ends_bind, ends_ok_or; [done|]. intros i _. by destruct (negb _).
  - destruct (interfaces_matching _ _ _) as [|[k i] [|]]; [|done|done].
    apply ends_bind. eapply ends_mono; [apply usize_to_u32_limit_ends|]. intros n _.
    apply ends_bind. eapply ends_mono; [apply validate_new_interface_ends|]. done.
Qed.

Lemma prepare_pcapng_ends f interfaces max_size max_interfaces :
  ends not_io (prepare_pcapng f interfaces max_size max_interfaces) (fun _ => True).
Proof.
  unfold prepare_pcapng. apply ends_bind. eapply ends_mono; [apply select_interface_ends|]. intros plan _.
  destruct (negb _ && _); [done|]. apply ends_bind, ends_ok_or; [done|]. intros t _.
  apply ends_bind. eapply ends_mono; [apply timestamp_to_ticks_ends|]. intros ts _.
  apply ends_bind. unfold align_to_u32. apply ends_bind, ends_ok_or; [done|]. intros n _.
  apply ends_bind, ends_ok_or; [done|]. intros k _. by destruct (_ <? _).
Qed.

Lemma validate_pcap_frame_ends f precision snap_len link :
  ends not_io (validate_pcap_frame f precision snap_len link) (fun _ => True).
Proof.
  unfold validate_pcap_frame. destruct (is_some _); [done|]. destruct (is_some _); [done|]. destruct (negb _); [done|].
  destruct (_ <? _); [done|]. apply ends_bind, ends_ok_or; [done|]. intros t _. destruct (_ <? _); [done|].
  destruct (_ <? _); [done|]. destruct precision; [|done]. by destruct (negb _).
Qed.

(** A plan fails for the frame or the limits, unless the stream has failed before. *)
Lemma prepare_frame_ends w f : writer_wf w -> frame_wf f -> wr_output_failure w = None ->
  ends not_io (prepare_frame w f) (fun _ => True).
Proof.
  intros [Hm Hw] Hf Hn. unfold prepare_frame, ensure_output_available. rewrite Hn. rewrite Ok_bind.
  unfold validate_frame_size. destruct (Z.ltb_spec (wr_max_size w) (captured_length f)); [done|]. rewrite Ok_bind.
  apply ends_bind. unfold Budget_after at 1. apply ends_bind, ends_ok_or; [done|]. intros n _. destruct (_ <? _); [done|].
  apply ends_bind, ends_ok_or; [done|]. intros c _. destruct (_ <? _); [done|]. cbn [ends]. apply ends_bind.
  assert (forall a b, 0 <= a <= u32_max -> 0 <= b <= 44 -> forall X : CaptureError, exists k, ok_or X (checked_add usize_max a b) = Ok k) as Hadd.
  { intros a b ? ? X. rewrite checked_add_ok by (unfold usize_max, u64_max, u32_max in *; lia). by eexists. }
  destruct (wr_state w) as [e precision snap_len link|e interfaces].
  - apply ends_bind. eapply ends_mono; [apply validate_pcap_frame_ends|]. intros [s' r] _. cbn [ends].
    apply frame_wf_lengths in Hf as (Hc & _ & _ & ->). destruct (Hadd (captured_length f) 16 Hc ltac:(lia) (CIo (CustomError OTHER "capture size preview overflow" []))) as (k & E).
    unfold PCAP_RECORD_HEADER_LEN. rewrite E. done.
  - destruct (prepare_pcapng f interfaces (wr_max_size w) (wr_max_interfaces w)) as [[[enc size] prefix]|err|] eqn:Ep.
    + destruct Hw as [Hi Hl]. apply prepare_pcapng_Ok in Ep as (id & ts & new & i & -> & -> & Hp); [|done..|lia]. cbn [ends].
      pose proof (np_size _ _ _ _ _ _ _ _ _ Hp). pose proof (padded_bounds (captured_length f)). apply frame_wf_lengths in Hf as (Hc & _).
      destruct (Hadd size (if is_some new then 32 else 0)) with (X := CIo (CustomError OTHER "capture size preview overflow" [])) as (k & E);
        [destruct (np_max _ _ _ _ _ _ _ _ _ Hp); destruct (is_some (fr_direction f)); lia|destruct (is_some new); lia|].
      by rewrite E.
    + pose proof (prepare_pcapng_ends f interfaces (wr_max_size w) (wr_max_interfaces w)) as H'. by rewrite Ep in H'.
    + pose proof (prepare_pcapng_ends f interfaces (wr_max_size w) (wr_max_interfaces w)) as H'. by rewrite Ep in H'.
Qed.

(** ** Interfaces the caller adds *)

(** Fields of their widths, not yet checked by the writer. *)
Definition interface_typed (i : Interface) : Prop :=
  is_u32 (if_link_type i) /\ is_u32 (if_snap_len i) /\ resolution_ok (if_timestamp_resolution i) /\ is_i64 (if_timestamp_offset i).

Definition option_typed (o : PcapNgOption) : Prop := 0 <= opt_code o <= u16_max.

(** Options a description block may carry beside its own. *)
Definition custom_option (o : PcapNgOption) : Prop :=
  option_wf o /\ opt_code o <> PCAPNG_OPTION_IF_TSRESOL /\ opt_code o <> PCAPNG_OPTION_IF_TSOFFSET.

Lemma check_interface_options_ends options : Forall option_typed options -> forall length, 0 <= length ->
  ends not_io (check_interface_options length options)
    (fun total => Forall custom_option options /\ total = Z.min usize_max (length + options_size options) \/
                  Forall custom_option options /\ options = [] /\ total = length).
Proof.
  induction 1 as [|o options Ho _ IH]; intros length Hl; cbn [check_interface_options].
  { right. done. }
  destruct (_ || _) eqn:Eb; [done|]. apply orb_false_iff in Eb as [Eb Hv]. apply orb_false_iff in Eb as [Eb H3].
  apply orb_false_iff in Eb as [H1 H2]. apply Z.eqb_neq in H1, H2, H3. apply Z.ltb_ge in Hv.
  assert (option_wf o) as How by (split; [unfold PCAPNG_OPTION_END in *; unfold option_typed in Ho; lia|done]).
  rewrite option_length_ok by done. rewrite Ok_bind. pose proof (padded_bounds (zlen (opt_value o))). pose proof (zlen_nonneg (opt_value o)).
  pose proof (options_size_nonneg options). unfold saturating_add, usize_max, u64_max.
  eapply ends_mono; [apply IH; lia|]. cbn [options_size foldr]. fold (options_size options). unfold usize_max, u64_max.
  intros total [[Hf ->]|(Hf & -> & ->)]; left; (split; [by constructor|]); cbn [options_size foldr] in *; lia.
Qed.

(** What is known of an interface the writer has added. *)
Record ng_added (w : Writer) (e : Endianness) (interfaces : list Interface) (i : Interface) (options : list PcapNgOption)
  (tsresol : Z) : Prop := {
  na_state : wr_state w = WriterPcapNg e interfaces;
  na_count : zlen interfaces <= u32_max /\ zlen interfaces < wr_max_interfaces w;
  na_wf : interface_wf i;
  na_options : Forall custom_option options;
  na_tsresol : to_tsresol (if_timestamp_resolution i) = Ok tsresol;
  na_size : description_size i options <= wr_max_size w /\ description_size i options <= u32_max
}.

Definition description_block (e : Endianness) (i : Interface) (options : list PcapNgOption) (tsresol : Z) : bytes :=
  block_bytes e PCAPNG_INTERFACE_DESCRIPTION_BLOCK (description_size i options) (description_bytes e i options tsresol).

Lemma custom_options_wf options : Forall custom_option options -> Forall option_wf options.
Proof. intros H. eapply Forall_impl; [exact H|]. by intros o (? & _). Qed.

Lemma interface_typed_wf i tsresol : interface_typed i -> if_link_type i <= u16_max ->
  to_tsresol (if_timestamp_resolution i) = Ok tsresol -> interface_wf i.
Proof.
  intros (Hl & Hs & Hr & Ho) Hu Ht. unfold interface_wf, is_u32 in *. split_and!; try done; try lia.
  unfold to_tsresol, resolution_ok in *. destruct (if_timestamp_resolution i); destruct (Z.leb_spec exponent 127); simplify_eq; lia.
Qed.

(** The writes of an accepted description: the block goes out and the interface
    is kept, or the stream fails; a length that fits no block is refused first. *)
Lemma write_interface_result w e interfaces i options tsresol :
  wr_output_failure w = None -> wr_state w = WriterPcapNg e interfaces -> interface_wf i -> Forall custom_option options ->
  to_tsresol (if_timestamp_resolution i) = Ok tsresol ->
  match write_interface i options w with
  | (Ok _, w') => description_size i options <= u32_max /\ exists s,
      sink_bytes s = sink_bytes (wr_inner w) ++ description_block e i options tsresol /\
      w' = mkWriter s (WriterPcapNg e (interfaces ++ [i])) (wr_max_size w) (wr_max_interfaces w) (wr_budget w) None
  | (Err err, w') => (exists io, err = CIo io /\ wr_output_failure w' = Some (snapshot io)) \/ not_io err /\ w' = w
  | (Panic, _) => False
  end.
Proof.
  intros Hn Es Hi Ho Hr. assert (Writer_endianness w = e) as Ee by (unfold Writer_endianness; by rewrite Es).
  pose proof (options_length_Ok options (custom_options_wf _ Ho) (interface_description_base_length (if_timestamp_offset i))) as HL.
  assert (forall err, not_io err ->
    (length ← options_length (interface_description_base_length (if_timestamp_offset i)) options; usize_to_u32_limit length) = Err err ->
    write_interface i options w = (Err err, w)) as Hrefuse.
  { intros err He E. unfold write_interface, mbind at 1, stm_bind at 1, gets. unfold mbind at 1, stm_bind at 1, write_output, ensure_output_available.
    rewrite Hn. unfold write_interface_description. unfold mbind in E. unfold mbind at 1, stm_bind at 1, lift.
    destruct (options_length _ _) as [l|e'|]; cbn in E; simplify_eq.
    - unfold mbind at 1, stm_bind at 1. rewrite E. by destruct err; first [destruct w; cbn in *; subst; reflexivity | destruct (He _ eq_refl)].
    - by destruct err; first [destruct w; cbn in *; subst; reflexivity | destruct (He _ eq_refl)]. }
  destruct (options_length _ options) as [length|err|] eqn:EL; [| |done].
  - cbn in HL. subst length. fold (description_size i options) in EL. destruct (Z.leb_spec (description_size i options) u32_max).
    + destruct (write_interface_spec w i options tsresol (description_size i options)) as [H1 _]; try done;
        [by apply custom_options_wf|by rewrite Es; eauto|]. rewrite Ee in H1. fold (description_block e i options tsresol) in H1.
      destruct (write_interface i options w) as [[a|err|] w']; [| |done].
      * split; [done|]. destruct H1 as (s & -> & Hb). exists s. split; [done|]. by apply push_interface_fields.
      * left. destruct H1 as (io & s & part & -> & -> & _). by exists io.
    + rewrite (Hrefuse (CSizeLimitExceeded "capture size" (description_size i options) u32_max)); [by right|done|].
      rewrite Ok_bind. unfold usize_to_u32_limit. fold (description_size i options). by rewrite (proj2 (Z.leb_gt _ _)) by lia.
  - assert (not_io err) as He.
    { clear -EL Ho. apply custom_options_wf in Ho. revert EL. generalize (interface_description_base_length (if_timestamp_offset i)) as base.
      induction Ho as [|o options Ho _ IH]; intros base; cbn [options_length]; [done|]. rewrite option_length_ok, Ok_bind by done.
      destruct (checked_add _ _ _); cbn; [apply IH|]. by intros [= <-]. }
    rewrite (Hrefuse err) by done. by right.
Qed.

Lemma add_description_result w i options :
  writer_wf w -> interface_typed i -> Forall option_typed options -> wr_output_failure w = None ->
  match add_interface_description_with_options i options w with
  | (Ok id, w') => exists e interfaces tsresol s, ng_added w e interfaces i options tsresol /\ id = zlen interfaces /\
      sink_bytes s = sink_bytes (wr_inner w) ++ description_block e i options tsresol /\
      w' = mkWriter s (WriterPcapNg e (interfaces ++ [i])) (wr_max_size w) (wr_max_interfaces w) (wr_budget w) None
  | (Err err, w') => (exists io, err = CIo io /\ wr_output_failure w' = Some (snapshot io)) \/ not_io err /\ w' = w
  | (Panic, _) => False
  end.
Proof.
  intros [Hm Hw] Hi Ho Hn. unfold add_interface_description_with_options, mbind, stm_bind, lift, gets, ensure_output_available.
  rewrite Hn. assert (0 <= interface_description_base_length (if_timestamp_offset i)) as Hb
    by (unfold interface_description_base_length; by destruct (_ =? _)).
  pose proof (check_interface_options_ends options Ho _ Hb) as Hc.
  destruct (check_interface_options _ options) as [total|err|]; [|by right|done]. cbn in Hc.
  destruct (negb (is_empty options) && (wr_max_size w <? total)) eqn:Es; [by right|]. unfold pcapng_interfaces.
  destruct (wr_state w) as [e precision snap_len link|e interfaces] eqn:Ew; [by right|].
  pose proof (validate_new_interface_ends i interfaces (wr_max_size w) (wr_max_interfaces w)) as Hv.
  destruct (validate_new_interface i interfaces (wr_max_size w) (wr_max_interfaces w)) as [id|err|] eqn:Ev; [|by right|done].
  apply validate_new_interface_Ok in Ev as (-> & Hu & Hl & Hmax & Hbase & tsresol & Hr).
  assert (Forall custom_option options) as Hco by (destruct Hc as [[? _]|(? & _)]; done).
  pose proof (interface_typed_wf i tsresol Hi Hl Hr) as Hiw.
  pose proof (write_interface_result w e interfaces i options tsresol Hn Ew Hiw Hco Hr) as Hres.
  destruct (write_interface i options w) as [[a|err|] w']; [|done|done]. destruct Hres as (Hsize & s & Hbytes & ->).
  exists e, interfaces, tsresol, s. split; [|done]. split; try done. split; [|done]. unfold description_size.
  destruct options as [|o options]; [cbn; lia|]. cbn [is_empty negb andb] in Es. apply Z.ltb_ge in Es.
  destruct Hc as [[_ ->]|(_ & ? & _)]; [|done]. unfold description_size in Hsize. unfold usize_max, u64_max, u32_max in *. lia.
Qed.

(** ** Operations of a caller *)

Inductive writer_op : Type :=
| OpAddInterface (link : Z)
| OpInterface (description : Interface) (options : list PcapNgOption)
| OpFrame (frame : Frame)
| OpFlush (flushed : option IoError).

Definition writer_step (op : writer_op) : stm Writer unit :=
  match op with
  | OpAddInterface link => _ ← Writer_add_interface link; mret tt
  | OpInterface description options => _ ← add_interface_description_with_options description options; mret tt
  | OpFrame frame => write_frame frame
  | OpFlush flushed => Writer_flush flushed
  end.

Definition op_wf (op : writer_op) : Prop :=
  match op with
  | OpAddInterface link => is_u32 link
  | OpInterface description options => interface_typed description /\ Forall option_typed options
  | OpFrame frame => frame_wf frame
  | OpFlush _ => True
  end.

Lemma add_interface_eq w link : wr_output_failure w = None ->
  writer_step (OpAddInterface link) w =
  (if wr_max_size w <=? u32_max
   then writer_step (OpInterface (mkInterface link (wr_max_size w) WRITER_TIMESTAMP_RESOLUTION 0) []) w
   else (Err (CSizeLimitExceeded "capture size" (wr_max_size w) u32_max), w)).
Proof.
  intros Hn. cbn [writer_step]. unfold Writer_add_interface, usize_to_u32_limit, mbind, stm_bind, gets, lift, ensure_output_available at 1.
  rewrite Hn. by destruct (wr_max_size w <=? u32_max).
Qed.

Lemma writer_step_failed op w failure : wr_output_failure w = Some failure ->
  writer_step op w = (Err (OutputFailure_to_error failure), w).
Proof.
  intros Hf. assert (ensure_output_available w = Err (OutputFailure_to_error failure)) as He by (unfold ensure_output_available; by rewrite Hf).
  destruct op; cbn [writer_step]; unfold Writer_add_interface, add_interface_description_with_options, write_frame, Writer_flush,
    prepare_frame, mbind, stm_bind; by rewrite He.
Qed.

(** An operation that fails on the stream leaves the failure behind. *)
Lemma description_failure w w' d options io : writer_wf w -> interface_typed d -> Forall option_typed options ->
  wr_output_failure w = None -> writer_step (OpInterface d options) w = (Err (CIo io), w') -> wr_output_failure w' = Some (snapshot io).
Proof.
  intros Hw Hd Hop Hn E. pose proof (add_description_result w d options Hw Hd Hop Hn) as Hr. cbn [writer_step] in E.
  unfold mbind, stm_bind in E. destruct (add_interface_description_with_options d options w) as [[id|err|] w1]; simplify_eq.
  destruct Hr as [(io' & [= <-] & ?)|[Hio _]]; [done|]. by destruct (Hio io).
Qed.

Lemma frame_failure w w' f io : writer_wf w -> frame_wf f -> wr_output_failure w = None ->
  write_frame f w = (Err (CIo io), w') -> wr_output_failure w' = Some (snapshot io).
Proof.
  intros Hw Hf Hn E. pose proof (prepare_frame_ends w f Hw Hf Hn) as Hp. destruct (prepare_frame w f) as [plan|err|] eqn:Epl; [| |done].
  - destruct (write_frame_spec w f plan Hw Hf Epl) as [H _]. rewrite E in H. by destruct H as (io' & [= <-] & ? & _).
  - unfold write_frame, mbind, stm_bind in E. rewrite Epl in E. simplify_eq. by destruct (Hp io).
Qed.

Lemma operation_failure w w' op io : writer_wf w -> op_wf op -> wr_output_failure w = None ->
  (forall flushed, op <> OpFlush flushed) -> writer_step op w = (Err (CIo io), w') -> wr_output_failure w' = Some (snapshot io).
Proof.
  intros Hw Ho Hn Hflush Hs. destruct op as [link|d options|f|flushed].
  - rewrite add_interface_eq in Hs by done. destruct (Z.leb_spec (wr_max_size w) u32_max); [|done].
    eapply description_failure; [done| |constructor|done|exact Hs]. destruct Hw as [Hm _]. cbn in Ho.
    unfold interface_typed, is_u32, is_i64, i64_max, u32_max in *. cbn in *. lia.
  - destruct Ho. by eapply description_failure.
  - cbn [writer_step] in Hs. unfold mbind, stm_bind in Hs. by eapply frame_failure.
  - by destruct (Hflush flushed).
Qed.

(** ** Theorems *)

(** C12: The size preview is exact.  When it refuses a frame, writing the frame
    refuses it with the same error and changes nothing.  When it answers a size,
    writing either appends exactly that many bytes and charges the frame to the
    budget, which stays within its limits, or fails because the stream failed,
    with at most that many bytes written, nothing charged and the failure
    remembered; on a stream that accepts everything it succeeds.  It never panics,
    and the writer stays well formed. *)
Theorem write_frame_exact (w : Writer) (f : Frame) : writer_wf w -> frame_wf f ->
  match encoded_frame_size w f with
  | Ok size =>
      (sink_script (wr_inner w) = [] -> exists w', write_frame f w = (Ok tt, w')) /\
      match write_frame f w with
      | (Ok _, w') => writer_wf w' /\
          (exists data, zlen data = size /\ sink_bytes (wr_inner w') = sink_bytes (wr_inner w) ++ data) /\
          bg_frames (wr_budget w') = bg_frames (wr_budget w) + 1 /\
          bg_captured_bytes (wr_budget w') = bg_captured_bytes (wr_budget w) + captured_length f /\
          bg_frames (wr_budget w') <= max_frames (bg_limits (wr_budget w)) /\
          bg_captured_bytes (wr_budget w') <= max_bytes (bg_limits (wr_budget w))
      | (Err e, w') => writer_wf w' /\
          (exists part, zlen part <= size /\ sink_bytes (wr_inner w') = sink_bytes (wr_inner w) ++ part) /\
          wr_budget w' = wr_budget w /\ exists io, e = CIo io /\ wr_output_failure w' = Some (snapshot io)
      | (Panic, _) => False
      end
  | Err e => write_frame f w = (Err e, w)
  | Panic => False
  end.
Proof.
  intros Hw Hf. unfold encoded_frame_size. destruct (prepare_frame w f) as [plan|e|] eqn:Hp; cbn.
  - apply prepare_frame_planned in Hp as Hpl; [|done..]. apply encoding_size in Hpl as Hsize; [|done].
    destruct (write_frame_spec w f plan Hw Hf Hp) as [H1 H2]. split; [done|].
    destruct (write_frame f w) as [[a|err|] w']; [| |done].
    + destruct H1 as (s & Hb & ->). split; [by eapply writer_wf_after; eauto|]. split; [by eexists|]. cbn.
      destruct Hpl as (_ & _ & Hbud & _). apply Budget_after_Ok in Hbud. tauto.
    + destruct H1 as (io & -> & Hfail & Hbud & Hstate & Hm & _ & part & Hb & Hpre). split; [by eapply writer_wf_after; eauto|].
      split; [|by eauto]. exists part. split; [|done]. destruct Hpre as (k & E). rewrite <- Hsize, E, zlen_app.
      pose proof (zlen_nonneg k). lia.
  - unfold write_frame, mbind, stm_bind. by rewrite Hp.
  - destruct (wr_output_failure w) eqn:En.
    + unfold prepare_frame, ensure_output_available in Hp. by rewrite En in Hp.
    + pose proof (prepare_frame_ends w f Hw Hf En) as He. by rewrite Hp in He.
Qed.

(** C15: A stream on which a write has failed is never written again.  After an
    operation that writes (a frame, an interface, an interface description) has
    failed on the stream, every later operation of the writer, whatever it is,
    fails with an error of the same kind and leaves the writer and the stream as
    they are.  A failed flush is not remembered: it leaves the writer as it was. *)
Theorem output_failure_sticky (w w' : Writer) (op : writer_op) (io : IoError) :
  writer_wf w -> op_wf op -> wr_output_failure w = None ->
  writer_step op w = (Err (CIo io), w') ->
  match op with
  | OpFlush flushed => flushed = Some io /\ w' = w
  | _ => exists io', io_kind io' = io_kind io /\ forall later, writer_step later w' = (Err (CIo io'), w')
  end.
Proof.
  intros Hw Ho Hn Hs.
  assert ((forall flushed, op <> OpFlush flushed) ->
    exists io', io_kind io' = io_kind io /\ forall later, writer_step later w' = (Err (CIo io'), w')) as Hsticky.
  { intros Hflush. pose proof (operation_failure w w' op io Hw Ho Hn Hflush Hs) as Hf.
    exists (match OutputFailure_to_error (snapshot io) with CIo io' => io' | _ => io end).
    split; [by destruct io|]. intros later. rewrite (writer_step_failed later w' _ Hf). by destruct io. }
  destruct op as [link|d options|f|flushed]; [by apply Hsticky..|].
  cbn [writer_step] in Hs. unfold Writer_flush, mbind, stm_bind, lift, ensure_output_available in Hs.
  rewrite Hn in Hs. destruct flushed; [|done]. by injection Hs as -> ->.
Qed.

(** ** Witnesses *)

Definition demo_frame : Frame := mkFrame (Some 1700000000123456789) 3 60 1 None (Some Inbound) [1; 2; 3].

Lemma demo_frame_wf : frame_wf demo_frame.
Proof.
  unfold frame_wf, frame_ok, is_u32, u32_max. cbn. split_and!; try lia; try done.
  intros t [= <-]. reflexivity.
Qed.

(** A writer whose stream accepts ten bytes and then fails. *)
Definition demo_writer (script : list write_event) : Writer :=
  mkWriter (mkSink [] script) (WriterPcapNg Big []) 65535 8 (mkBudget StreamLimits_default 0 0) None.

Lemma demo_writer_wf script : writer_wf (demo_writer script).
Proof. unfold writer_wf, usize_max, u64_max, u32_max. cbn. split; [lia|]. split; [constructor|]. done. Qed.

Lemma write_frame_exact_witness : encoded_frame_size (demo_writer []) demo_frame = Ok 80 /\
  exists w', write_frame demo_frame (demo_writer []) = (Ok tt, w') /\ zlen (sink_bytes (wr_inner w')) = 80.
Proof.
  assert (encoded_frame_size (demo_writer []) demo_frame = Ok 80) as E by reflexivity. split; [exact E|].
  pose proof (write_frame_exact (demo_writer []) demo_frame (demo_writer_wf []) demo_frame_wf) as H. rewrite E in H.
  destruct H as [Hok Hres]. destruct (Hok eq_refl) as (w' & Ew). rewrite Ew in Hres. exists w'. split; [done|].
  destruct Hres as (_ & (data & Hd & ->) & _). exact Hd.
Defined.

Definition demo_failure : IoError := OsError 28 (KindOther 3).

Lemma output_failure_sticky_witness : exists w' io',
  writer_step (OpFrame demo_frame) (demo_writer [Accept 10; WriteFails demo_failure]) = (Err (CIo demo_failure), w') /\
  writer_step (OpFlush None) w' = (Err (CIo io'), w').
Proof.
  destruct (writer_step (OpFrame demo_frame) (demo_writer [Accept 10; WriteFails demo_failure])) as [r w'] eqn:E.
  assert (r = Err (CIo demo_failure)) as -> by (by vm_compute in E; injection E as <- _).
  destruct (output_failure_sticky _ w' (OpFrame demo_frame) demo_failure (demo_writer_wf _) demo_frame_wf eq_refl E) as (io' & _ & H).
  exists w', io'. split; [done|apply H].
Defined.
