(* ===== verification/CaptureReader.v ===== *)
(** * Capture files: the reader on any stream

    Whatever the stream holds and however it fails, the reader does not panic,
    keeps its invariant, and hands on every byte it consumes. *)

From stdpp Require Import base tactics option list numbers strings.
From Stdlib Require Import ZArith Lia.
From S2P Require Import Prelude Checksum Ordered Flow Headers HeadersProofs Frame Transform TransformProofs IpRanges IpRebuild.
From S2P Require Import CaptureWire CaptureRead CaptureWrite CaptureStreams CaptureTime CaptureEncode.

(** ** Decoded fields *)

Lemma octets_rev l : octets l -> octets (rev l).
Proof. apply List.Forall_rev. Qed.

Lemma octets_concat2 (a b : bytes) : octets (a ++ b) -> octets a /\ octets b.
Proof. apply Forall_app. Qed.

Lemma octets_check l : forallb (fun x => (0 <=? x) && (x <? 256)) l = true -> octets l.
Proof.
  induction l as [|x l IH]; cbn; [constructor|]. intros [[?%Z.leb_le ?%Z.ltb_lt]%andb_true_iff ?]%andb_true_iff. constructor; auto.
Qed.

#[export] Hint Resolve octets_zslice octets_ztake octets_zdrop octets_rev : octets.

Lemma of_bytes_range e word n : octets word -> zlen word = n -> 0 <= of_bytes e word < 256 ^ n.
Proof.
  intros Ho <-. destruct e; cbn [of_bytes].
  - rewrite <- (zlen_rev word). apply from_be_bytes_range. by apply octets_rev.
  - by apply from_be_bytes_range.
Qed.

Lemma decode_array_safe n data context : octets data -> 0 <= n ->
  safe (decode_array n data context) (fun word => octets word /\ zlen word = n).
Proof.
  intros Ho Hn. unfold decode_array, get_range. apply safe_ok_or. intros word Hw.
  destruct (_ && _) eqn:E; [|done]. apply andb_true_iff in E as [_ E%Z.leb_le]. injection Hw as <-.
  split; [auto with octets|]. rewrite zlen_zslice; lia.
Qed.

Lemma decode_u16_safe e data : octets data -> safe (decode_u16 e data) (fun x => 0 <= x <= u16_max).
Proof.
  intros Ho. unfold decode_u16. apply safe_bind. eapply safe_mono; [by apply decode_array_safe|]. intros word [Hw Hl]. cbn.
  pose proof (of_bytes_range e word 2 Hw Hl). unfold u16_max. lia.
Qed.

Lemma decode_u32_safe e data : octets data -> safe (decode_u32 e data) is_u32.
Proof.
  intros Ho. unfold decode_u32. apply safe_bind. eapply safe_mono; [by apply decode_array_safe|]. intros word [Hw Hl]. cbn.
  pose proof (of_bytes_range e word 4 Hw Hl). unfold is_u32, u32_max. lia.
Qed.

Lemma decode_i64_safe e data : octets data -> safe (decode_i64 e data) is_i64.
Proof.
  intros Ho. unfold decode_i64. apply safe_bind. eapply safe_mono; [by apply decode_array_safe|]. intros word [Hw Hl]. cbn.
  pose proof (of_bytes_range e word 8 Hw Hl) as Hr. change (256 ^ 8) with 18446744073709551616 in Hr.
  unfold as_i64, is_i64, i64_max. destruct (Z.ltb_spec (of_bytes e word) 9223372036854775808); lia.
Qed.

Lemma index_range_safe {A} (l : list A) a b (P : list A -> Prop) : 0 <= a -> a <= b -> b <= zlen l ->
  P (zslice a b l) -> safe (E := CaptureError) (index_range l a b) P.
Proof. intros. by rewrite index_range_ok. Qed.

(** ** Classic records *)

(** What every frame a reader returns satisfies. *)
Definition frame_read (max_size : Z) (f : Frame) : Prop :=
  frame_ok f /\ 0 <= original_length f <= u32_max /\ captured_length f <= max_size /\
  (forall t, fr_timestamp f = Some t -> is_time t) /\ is_u32 (link_type f).

Lemma interface_wf_link i : interface_wf i -> is_u32 (if_link_type i).
Proof. intros [H _]. unfold is_u32, u16_max, u32_max in *. lia. Qed.

Lemma try_frame_safe timestamp link captured original data max_size :
  captured = zlen data -> captured <= original -> original <= u32_max -> captured <= max_size ->
  (forall t, timestamp = Some t -> is_time t) -> is_u32 link ->
  exists f, try_with_optional_timestamp timestamp link (mkLengths captured original) data = Ok f /\
    f = mkFrame timestamp captured original link None None data /\ frame_read max_size f.
Proof.
  intros -> Hc Hu Hm Ht Hlink. unfold try_with_optional_timestamp. cbn. rewrite Z.eqb_refl. cbn.
  rewrite (proj2 (Z.ltb_ge _ _)) by lia. eexists. split; [done|]. split; [done|].
  pose proof (zlen_nonneg data). unfold frame_read, frame_ok. cbn. split_and!; try lia; done.
Qed.

Lemma validate_declared_lengths_safe captured original max_size kind :
  safe (validate_declared_lengths captured original max_size kind) (fun _ => captured <= original /\ captured <= max_size).
Proof.
  unfold validate_declared_lengths. destruct (Z.ltb_spec original captured); [done|]. by destruct (Z.ltb_spec max_size captured).
Qed.

Lemma pcap_record_safe state seconds fraction captured original header data max_size :
  is_u32 (ps_link_type state) ->
  is_u32 seconds -> is_u32 original -> captured <= original -> captured <= max_size -> zlen header = 16 -> zlen data = captured ->
  0 <= fraction < match ps_precision state with Microseconds => 1000000 | Nanoseconds => 1000000000 end ->
  safe (pcap_record state seconds fraction captured original (header ++ data))
    (fun record => rec_raw record = header ++ data /\ exists f, rec_frame record = Some f /\ frame_read max_size f /\
       fr_interface f = None /\ rec_kind record = KindPacket BlockClassic None None []).
Proof.
  intros Hlink Hs Ho Hc Hm Hh Hd Hf. unfold pcap_record, is_u32, u32_max in *.
  assert (exists n, match ps_precision state with Microseconds => expect (E := CaptureError) (checked_mul 4294967295 fraction 1000)
    | Nanoseconds => Ok fraction end = Ok n /\ 0 <= n < 1000000000) as (n & Hn & Hb).
  { destruct (ps_precision state); [|by eexists]. rewrite checked_mul_ok by lia. eexists. split; [done|lia]. }
  unfold u32_max. rewrite Hn, Ok_bind, duration_ok by (unfold u64_max; lia). rewrite Ok_bind.
  assert (is_time (seconds * 1000000000 + n)) as Ht.
  { apply checked_time_Some. split; [done|]. rewrite Z.div_add_l, Z.div_small by lia. unfold i64_max. lia. }
  rewrite Ht. cbn [ok_or]. rewrite Ok_bind. unfold PCAP_RECORD_HEADER_LEN. pose proof (zlen_nonneg data).
  rewrite index_range_ok by (rewrite ?zlen_app; lia). rewrite Ok_bind, zslice_skip by (rewrite ?zlen_app; lia).
  rewrite Hh, zlen_app, Hh. rewrite zslice_all by lia.
  destruct (try_frame_safe (Some (seconds * 1000000000 + n)) (ps_link_type state) captured original data max_size) as (f & E & Ef & Hfr);
    [lia|lia|unfold u32_max; lia|lia|intros t [= <-]; exact Ht|done|]. rewrite E. cbn. split; [done|]. exists f. by subst.
Qed.

(** The result of reading one record: the bytes of the record are the bytes taken
    from the stream. *)
Definition took {A} (raw : A -> bytes) (before after : bytes) (record : option A) : Prop :=
  match record with
  | Some record => before = raw record ++ after /\ raw record <> []
  | None => after = before
  end.

Lemma read_next_pcap_record_wp alloc state max_size source : is_u32 (ps_link_type state) -> octets (source_bytes source) ->
  wp (read_next_pcap_record alloc state max_size) source
    (fun record source' => took rec_raw (source_bytes source) (source_bytes source') record /\
       forall r, record = Some r -> exists f, rec_frame r = Some f /\ frame_read max_size f /\
         fr_interface f = None /\ rec_kind r = KindPacket BlockClassic None None [])
    (fun _ source' => leaves (source_bytes source) source').
Proof.
  intros Hlink Ho. unfold read_next_pcap_record. apply wp_bind. eapply wp_mono; [by apply read_exact_or_eof_wp| |done].
  intros [header|] s1 H1; [|by apply wp_ret]. destruct H1 as [Lh E1]. rewrite E1 in Ho. apply octets_concat2 in Ho as [Oh Os].
  assert (forall e, wp (A := option CaptureRecord) (throw e) s1 (fun _ _ => False) (fun _ source' => leaves (source_bytes source) source')) as Hthrow.
  { intros e. apply wp_throw. rewrite E1. apply leaves_app, leaves_refl. }
  assert (leaves (source_bytes source) s1) as Hl by (rewrite E1; apply leaves_app, leaves_refl).
  do 4 (apply wp_bind, wp_lift; [|done]; eapply safe_mono; [apply decode_u32_safe; auto with octets|]; intros ? ?).
  set (denominator := match ps_precision state with Microseconds => 1000000 | Nanoseconds => 1000000000 end).
  destruct (Z.leb_spec denominator a0); [by eapply wp_mono; [apply Hthrow| |]|].
  apply wp_bind, wp_lift; [|done]. eapply safe_mono; [apply validate_declared_lengths_safe|]. intros _ [Hc Hm].
  destruct (ps_snap_len state <? a1); [by eapply wp_mono; [apply Hthrow| |]|].
  apply wp_bind, wp_lift; [|done]. unfold try_reserve. destruct (alloc _ _); [|done]. cbn [safe].
  unfold is_u32 in *. apply wp_bind. eapply wp_mono; [apply read_exact_append_wp; lia| |].
  - intros raw s2 (data & -> & Ld & E2). rewrite E2 in Os. assert (source_bytes source = (header ++ data) ++ source_bytes s2) as E3 by (by rewrite E1, E2, app_assoc).
    apply wp_bind, wp_lift; [|intros; rewrite E3; apply leaves_app, leaves_refl].
    eapply safe_mono; [apply (pcap_record_safe _ _ _ _ _ _ _ max_size); try done; unfold is_u32; lia|].
    intros record (Er & f & Ef & Hf). apply wp_ret. split; [|intros r [= <-]; eauto]. cbn. rewrite Er. split; [done|].
    intros En. apply app_eq_nil in En as [-> _]. rewrite zlen_nil in Lh. done.
  - intros e s2 (k & Hk). rewrite E1. exists (header ++ k). by rewrite Hk, app_assoc.
Qed.

(** ** Options *)

Lemma parse_options_loop_safe options e context max_options : octets options -> forall fuel offset parsed,
  0 <= offset <= zlen options -> zlen options - offset < Z.of_nat fuel -> Forall (fun o => octets (opt_value o)) parsed ->
  zlen parsed <= Z.max 0 max_options ->
  safe (parse_options_loop fuel options e context max_options offset parsed)
    (fun result => Forall (fun o => octets (opt_value o)) result /\ zlen result <= Z.max 0 max_options).
Proof.
  intros Ho. induction fuel as [|fuel IH]; intros offset parsed H0 Hfuel Hp Hn; cbn [parse_options_loop].
  { lia. }
  destruct (Z.leb_spec (zlen options) offset); [done|].
  apply safe_bind, safe_ok_or. intros header_end [-> _]%checked_add_Some.
  apply safe_bind, safe_ok_or. intros header Hh. unfold get_range in Hh.
  destruct (_ && _) eqn:E; [|done]. apply andb_true_iff in E as [_ E%Z.leb_le]. injection Hh as <-.
  apply safe_bind. eapply safe_mono; [apply decode_u16_safe; auto with octets|]. intros code Hcode.
  apply safe_bind. eapply safe_mono; [apply decode_u16_safe; auto with octets|]. intros length Hlength. unfold u16_max in *.
  destruct (code =? PCAPNG_OPTION_END).
  { destruct (negb _); [done|]. rewrite index_range_ok by lia. rewrite Ok_bind. by destruct (existsb _ _). }
  rewrite align_to_usize_ok by (unfold u32_max; lia). rewrite Ok_bind. pose proof (padded_bounds length).
  apply safe_bind, safe_ok_or. intros last [-> Hlast]%checked_add_Some. unfold usize_max in *.
  destruct (Z.ltb_spec (zlen options) (offset + 4 + padded length)); [done|].
  destruct (Z.leb_spec max_options (zlen parsed)); [done|].
  rewrite add_u_ok by lia. rewrite Ok_bind, index_range_ok by lia. rewrite Ok_bind.
  apply IH; [lia|lia| |].
  - apply Forall_app. split; [done|]. apply Forall_singleton. cbn. auto with octets.
  - rewrite zlen_app. change (zlen [_]) with 1. lia.
Qed.

Lemma parse_options_safe options e context max_options : octets options ->
  safe (parse_options options e context max_options)
    (fun result => Forall (fun o => octets (opt_value o)) result /\ zlen result <= Z.max 0 max_options).
Proof.
  intros Ho. unfold parse_options. pose proof (zlen_nonneg options).
  apply parse_options_loop_safe; [done|lia|lia|constructor|]. rewrite zlen_nil. lia.
Qed.

Lemma parse_options_loop_codes options e context max_options : octets options -> forall fuel offset parsed result,
  Forall (fun o => 0 <= opt_code o <= u16_max) parsed ->
  parse_options_loop fuel options e context max_options offset parsed = Ok result ->
  Forall (fun o => 0 <= opt_code o <= u16_max) result.
Proof.
  intros Ho. induction fuel as [|fuel IH]; intros offset parsed result Hp H; cbn [parse_options_loop] in H; [done|].
  destruct (_ <=? offset); [by injection H as <-|]. do 2 inv_ok H.
  apply ok_or_Ok in Ha0. unfold get_range in Ha0. destruct (_ && _); [|done]. injection Ha0 as <-.
  inv_ok H. pose proof (decode_u16_safe e _ (octets_zslice offset a options Ho)) as Hc. rewrite Ha0 in Hc. cbn in Hc.
  inv_ok H. destruct (a0 =? PCAPNG_OPTION_END).
  { destruct (negb _); [done|]. inv_ok H. destruct (existsb _ _); [done|]. by injection H as <-. }
  do 2 inv_ok H. destruct (_ <? _); [done|]. destruct (_ <=? zlen parsed); [done|]. do 2 inv_ok H.
  eapply IH; [|exact H]. apply Forall_app. split; [done|]. by apply Forall_singleton.
Qed.

Lemma unique_option_safe options code duplicate : Forall (fun o => octets (opt_value o)) options ->
  safe (unique_option options code duplicate) (fun found => forall value, found = Some value -> octets value).
Proof.
  intros Ho. unfold unique_option. destruct (List.filter _ options) as [|o [|]] eqn:E; [done| |done].
  cbn. intros value [= <-]. rewrite List.Forall_forall in Ho. apply Ho.
  assert (In o (List.filter (fun option => opt_code option =? code) options)) as Hin by (rewrite E; by left).
  by apply filter_In in Hin as [? _].
Qed.

Lemma parse_interface_description_safe body e max_options : octets body ->
  safe (parse_interface_description body e max_options)
    (fun result => interface_wf result.1 /\ Forall (fun o => 0 <= opt_code o <= u16_max) result.2).
Proof.
  intros Ho. unfold parse_interface_description. destruct (Z.ltb_spec (zlen body) 8); [done|].
  apply safe_bind. eapply safe_mono; [by apply decode_u16_safe|]. intros link Hlink.
  apply safe_bind, index_range_safe; [lia..|]. apply safe_bind. eapply safe_mono; [apply decode_u32_safe; auto with octets|].
  intros snap_len Hsnap. apply safe_bind, index_range_safe; [lia..|]. apply safe_bind.
  pose proof (parse_options_safe (zslice 8 (zlen body) body) e "pcapng interface options" max_options ltac:(auto with octets)) as Hsafe.
  destruct (parse_options _ _ _ _) as [options|err|] eqn:Eo; [|done|done]. destruct Hsafe as [Hopt _]. cbn [safe].
  apply (parse_options_loop_codes (zslice 8 (zlen body) body)) in Eo as Hcodes; [|auto with octets|constructor].
  apply safe_bind. eapply safe_mono; [by apply unique_option_safe|]. intros tsresol Hts. apply safe_bind.
  assert (safe match tsresol with
    | None => Ok DEFAULT_TIMESTAMP_RESOLUTION
    | Some [tsresol] => Ok (from_tsresol tsresol)
    | Some _ => Err (CInvalidData PcapNg "if_tsresol option must contain one byte")
    end (fun r => match r with Decimal x => 0 <= x <= 127 | Binary x => 0 <= x <= 127 end)) as Hr.
  { destruct tsresol as [[|x [|]]|]; try done. specialize (Hts _ eq_refl). apply Forall_cons_1 in Hts as [Hx _]. cbn. unfold from_tsresol.
    destruct (Z.eqb_spec (Z.land x 128) 0) as [E|E].
    - destruct (decide (x <= 127)); [lia|]. assert (Z.testbit x 7 = true) as Hb.
      { rewrite Z.testbit_true by lia. change (2 ^ 7) with 128. replace (x / 128) with 1; [done|]. apply (Z.div_unique x 128 1 (x - 128)); lia. }
      assert (Z.testbit (Z.land x 128) 7 = true) as Hc by (by rewrite Z.land_spec, Hb). rewrite E in Hc. done.
    - change 127 with (Z.ones 7). rewrite Z.land_ones by lia. change (2 ^ 7) with 128. pose proof (Z.mod_pos_bound x 128). change (Z.ones 7) with 127. lia. }
  eapply safe_mono; [exact Hr|]. intros resolution Hres.
  apply safe_bind. eapply safe_mono; [by apply unique_option_safe|]. intros tsoffset Hto. apply safe_bind.
  eapply (safe_mono _ is_i64).
  - destruct tsoffset as [value|]; [|cbn; unfold is_i64, i64_max; lia]. destruct (zlen value =? 8); [|done]. apply decode_i64_safe. by apply Hto.
  - intros offset Hoff. cbn. unfold interface_wf. cbn. done.
Qed.

(** ** Packets *)

Lemma ticks_range high low : is_u32 high -> is_u32 low -> 0 <= Z.lor (Z.shiftl high 32) low <= u64_max.
Proof.
  unfold is_u32, u32_max, u64_max. intros Hh Hl. assert (Z.lor (Z.shiftl high 32) low = high * 4294967296 + low) as ->; [|lia].
  rewrite <- Z.add_lor_land. rewrite (Z.shiftl_mul_pow2 _ 32) by lia. change (2 ^ 32) with 4294967296.
  assert (Z.land (high * 4294967296) low = 0) as ->; [|lia].
  apply Z.bits_inj'. intros n Hn. rewrite Z.land_spec, Z.bits_0. change 4294967296 with (2 ^ 32).
  destruct (Z.ltb_spec n 32); [by rewrite Z.mul_pow2_bits_low|].
  rewrite (Z.bits_above_log2 low n), andb_false_r; [done|lia|]. destruct (decide (low = 0)) as [->|]; [cbn; lia|].
  apply Z.log2_lt_pow2; [lia|]. pose proof (Z.pow_le_mono_r 2 32 n). change (2 ^ 32) with 4294967296 in *. lia.
Qed.

Lemma pcapng_packet_bytes_safe alloc body first last : 0 <= first -> first <= last -> last <= zlen body ->
  safe (pcapng_packet_bytes alloc body first last) (fun data => data = zslice first last body).
Proof.
  intros. unfold pcapng_packet_bytes. rewrite index_range_ok by lia. rewrite Ok_bind. destruct (_ <=? _); [done|].
  unfold try_reserve. by destruct (alloc _ _).
Qed.

(** A packet refers to an interface of its section. *)
Definition packet_read (max_size base count : Z) (p : ParsedPacket) : Prop :=
  frame_read max_size (pp_frame p) /\
  exists i, fr_interface (pp_frame p) = Some i /\ base <= i < base + count.

Lemma parse_packet_safe alloc body e interfaces base max_size max_options obsolete :
  octets body -> Forall interface_wf interfaces -> 0 <= base ->
  safe (parse_packet alloc body e interfaces base max_size max_options obsolete) (packet_read max_size base (zlen interfaces)).
Proof.
  intros Ho Hi Hb. unfold parse_packet. apply safe_bind, safe_ok_or. intros header Hh. unfold get_range in Hh.
  destruct (_ && _) eqn:E; [|done]. apply andb_true_iff in E as [_ E%Z.leb_le]. injection Hh as <-.
  apply safe_bind. eapply (safe_mono _ is_u32).
  { destruct obsolete; [|apply decode_u32_safe; auto with octets]. eapply safe_mono; [apply decode_u16_safe; auto with octets|].
    intros x ?. unfold is_u32, u16_max, u32_max in *. lia. }
  intros id Hid. do 4 (apply safe_bind; eapply safe_mono; [apply decode_u32_safe; auto with octets|]; intros ? ?).
  rename a into high, a0 into low, a1 into captured, a2 into original.
  apply safe_bind. eapply safe_mono; [apply validate_declared_lengths_safe|]. intros _ [Hc Hm].
  apply safe_bind, safe_ok_or. intros i Hlook. apply zget_Some_lt in Hlook as Hlt.
  pose proof (Forall_zget _ _ _ _ Hi Hlook) as Hiw.
  destruct (negb _ && _); [done|]. rewrite align_to_usize_ok by done. rewrite Ok_bind. pose proof (padded_bounds captured).
  apply safe_bind, safe_ok_or. intros data_end [-> _]%checked_add_Some.
  destruct (Z.ltb_spec (zlen body) (20 + padded captured)); [done|]. unfold is_u32, u32_max in *.
  rewrite index_range_ok by lia. rewrite Ok_bind. apply safe_bind. eapply safe_mono; [apply parse_options_safe; auto with octets|].
  intros options [Hopt _]. apply safe_bind. eapply (safe_mono _ (fun _ => True)).
  { unfold packet_direction. apply safe_bind. eapply safe_mono; [by apply unique_option_safe|]. intros [flags|] Hfl; [|done].
    destruct (negb _); [done|]. apply safe_bind. eapply safe_mono; [apply decode_u32_safe; by apply Hfl|]. done. }
  intros direction _. apply safe_bind.
  pose proof (ticks_range high low) as Hticks. unfold is_u32, u32_max in Hticks. specialize (Hticks ltac:(lia) ltac:(lia)).
  eapply (safe_mono _ is_time).
  { apply safe_iff. pose proof Hiw as (_ & _ & _ & Hoff). split; [by apply timestamp_from_ticks_safe; [apply interface_wf_resolution| |]|].
    intros t Ht. apply from_ticks_iff in Ht as [? _]; [done|by apply interface_wf_resolution|done|done]. }
  intros t Ht. apply safe_bind, safe_ok_or. intros global [-> _]%checked_add_Some.
  rewrite add_u_ok by (unfold u64_max; lia). rewrite Ok_bind. apply safe_bind.
  eapply safe_mono; [apply pcapng_packet_bytes_safe; lia|]. intros data ->.
  destruct (try_frame_safe (Some t) (if_link_type i) captured original (zslice 20 (20 + captured) body) max_size) as (f & -> & -> & Hf);
    [rewrite zlen_zslice; lia|lia|unfold u32_max; lia|lia|intros ? [= <-]; done|by apply interface_wf_link|].
  cbn. split; [exact Hf|]. eexists. split; [done|lia].
Qed.

Lemma parse_simple_packet_safe alloc body e interfaces base max_size :
  octets body -> Forall interface_wf interfaces -> 0 <= base ->
  safe (parse_simple_packet alloc body e interfaces base max_size) (packet_read max_size base (zlen interfaces)).
Proof.
  intros Ho Hi Hb. unfold parse_simple_packet. destruct (Z.ltb_spec (zlen body) 4); [done|].
  apply safe_bind, safe_ok_or. intros i Hlook. apply zget_Some_lt in Hlook as Hlt.
  pose proof (Forall_zget _ _ _ _ Hi Hlook) as Hiw.
  apply safe_bind. eapply safe_mono; [by apply decode_u32_safe|]. intros original Hor.
  set (captured := if if_snap_len i =? 0 then original else Z.min original (if_snap_len i)).
  assert (is_u32 captured) as Hcap.
  { destruct Hiw as (_ & Hs & _). subst captured. unfold is_u32 in *. destruct (_ =? _); lia. }
  apply safe_bind. eapply safe_mono; [apply validate_declared_lengths_safe|]. intros _ [Hc Hm].
  rewrite align_to_usize_ok by done. rewrite Ok_bind. pose proof (padded_bounds captured).
  apply safe_bind, safe_ok_or. intros expected [-> _]%checked_add_Some.
  destruct (Z.eqb_spec (zlen body) (4 + padded captured)); [|done]. cbn [negb]. unfold is_u32, u32_max in *.
  rewrite add_u_ok by (unfold u64_max; lia). rewrite Ok_bind. apply safe_bind.
  eapply safe_mono; [apply pcapng_packet_bytes_safe; lia|]. intros data ->.
  destruct (try_frame_safe None (if_link_type i) captured original (zslice 4 (4 + captured) body) max_size) as (f & -> & -> & Hf);
    [rewrite zlen_zslice; lia|lia|unfold u32_max; lia|lia|done|by apply interface_wf_link|].
  cbn. split; [exact Hf|]. eexists. split; [done|lia].
Qed.
