(* ===== verification/CaptureBlocks.v ===== *)
(** * Capture files: the reader's invariant

    Sections, blocks and records of the block format on any stream, and the
    reader of either format: what every call preserves and returns. *)

From stdpp Require Import base tactics option list numbers strings.
From Stdlib Require Import ZArith Lia.
From S2P Require Import Prelude Checksum Ordered Flow Headers HeadersProofs Frame Transform TransformProofs IpRanges IpRebuild.
From S2P Require Import CaptureWire CaptureRead CaptureWrite CaptureStreams CaptureTime CaptureEncode CaptureReader.

(** ** Section headers *)

(** The fields that later reading depends on. *)
Definition section_read (h : SectionHeader) : Prop :=
  is_u32 (sh_block_length h) /\ (forall n, sh_length h = Some n -> 0 <= n) /\ sh_raw h <> [].

Lemma parse_section_header_safe alloc raw_length raw_bom scratch e block_length max_options :
  octets scratch -> zlen scratch = block_length - 12 -> 28 <= block_length <= u32_max ->
  safe (parse_section_header alloc raw_length raw_bom scratch e block_length max_options)
    (fun h => section_read h /\ sh_raw h = PCAPNG_SECTION_HEADER ++ raw_length ++ raw_bom ++ scratch).
Proof.
  intros Ho Hs Hb. unfold parse_section_header. rewrite sub_u_ok by lia. rewrite Ok_bind.
  apply safe_bind, index_range_safe; [lia..|]. apply safe_bind, index_range_safe; [lia..|].
  set (fields := zslice 0 (zlen scratch - 4) scratch). assert (zlen fields = zlen scratch - 4) as Hf by (subst fields; rewrite zlen_zslice; lia).
  assert (octets fields) as Hof by (subst fields; auto with octets).
  apply safe_bind. eapply safe_mono; [apply decode_u32_safe; auto with octets|]. intros trailing _. destruct (negb _); [done|].
  apply safe_bind, index_range_safe; [lia..|]. apply safe_bind. eapply safe_mono; [apply decode_u16_safe; auto with octets|]. intros major _.
  apply safe_bind, index_range_safe; [lia..|]. apply safe_bind. eapply safe_mono; [apply decode_u16_safe; auto with octets|]. intros minor _.
  destruct (negb _ || _); [done|].
  apply safe_bind, index_range_safe; [lia..|]. apply safe_bind. eapply safe_mono; [apply decode_i64_safe; auto with octets|]. intros length _.
  destruct (length <? -1); [done|]. destruct (_ && _); [done|]. apply safe_bind, index_range_safe; [lia..|].
  apply safe_bind. eapply safe_mono; [apply parse_options_safe; auto with octets|]. intros options _.
  unfold try_reserve. destruct (alloc _ _); [|done]. cbn. split; [|done]. split; cbn; [unfold is_u32; lia|].
  split; [|done]. destruct (Z.leb_spec 0 length); naive_solver.
Qed.

Lemma read_section_rest_wp alloc raw_length bom e max_size max_options budget source :
  octets (source_bytes source) -> octets raw_length ->
  wp (read_section_rest alloc raw_length bom e max_size max_options budget) source
    (fun h source' => section_read h /\
       PCAPNG_SECTION_HEADER ++ raw_length ++ bom ++ source_bytes source = sh_raw h ++ source_bytes source' /\
       leaves (source_bytes source) source')
    (fun _ source' => leaves (source_bytes source) source').
Proof.
  intros Ho Hrl. pose proof (leaves_refl source) as Hl. unfold read_section_rest.
  apply wp_bind, wp_lift; [|done]. eapply safe_mono; [by apply decode_u32_safe|]. intros n Hn.
  apply wp_bind, wp_lift; [|done]. unfold validate_pcapng_block_length. destruct (_ || _); [done|]. destruct (_ <? _); [done|].
  cbn [safe]. destruct (over_budget _ _); [by apply wp_throw|]. destruct (Z.ltb_spec n 28); [by apply wp_throw|].
  apply wp_bind. eapply wp_mono; [apply read_exact_append_wp; lia| |done].
  intros scratch s2 (more & -> & Hm & E2). cbn [app]. rewrite E2 in Ho. apply octets_concat2 in Ho as [Hmo _].
  apply wp_lift; [|intros; rewrite E2; apply leaves_app, leaves_refl].
  eapply safe_mono; [apply parse_section_header_safe; [done|lia|unfold is_u32 in Hn; lia]|].
  intros h [Hh ->]. split; [done|]. split; [by rewrite E2, <- !app_assoc|]. rewrite E2. apply leaves_app, leaves_refl.
Qed.

Lemma read_section_header_wp alloc raw_length max_size max_options budget source :
  octets (source_bytes source) -> octets raw_length ->
  wp (read_section_header_with_length alloc raw_length max_size max_options budget) source
    (fun h source' => section_read h /\
       PCAPNG_SECTION_HEADER ++ raw_length ++ source_bytes source = sh_raw h ++ source_bytes source' /\
       leaves (source_bytes source) source')
    (fun _ source' => leaves (source_bytes source) source').
Proof.
  intros Ho Hrl. unfold read_section_header_with_length. apply wp_bind. eapply wp_mono; [by apply read_exact_counted_wp| |done].
  intros bom s1 [Hb E1]. rewrite E1 in Ho. apply octets_concat2 in Ho as [Hbom Hs1]. rewrite E1.
  apply wp_bind, wp_lift; [|intros; apply leaves_app, leaves_refl]. unfold byte_order.
  assert (forall e, wp (read_section_rest alloc raw_length bom e max_size max_options budget) s1
    (fun h source' => section_read h /\ PCAPNG_SECTION_HEADER ++ raw_length ++ bom ++ source_bytes s1 = sh_raw h ++ source_bytes source' /\
       leaves (bom ++ source_bytes s1) source')
    (fun _ source' => leaves (bom ++ source_bytes s1) source')) as Hrest.
  { intros e. eapply wp_mono; [by apply read_section_rest_wp| |].
    - intros h s' (? & ? & ?). split_and!; [done..|by apply leaves_app].
    - intros; by apply leaves_app. }
  destruct (bytes_eqb bom _); [apply Hrest|]. destruct (bytes_eqb bom _); [apply Hrest|done].
Qed.

(** ** Decoder state *)

Record ng_ok (limits : ReaderLimits) (s : PcapNgState) (interfaces : list Interface) : Prop := {
  no_interfaces : Forall interface_wf interfaces;
  no_total : zlen interfaces <= rl_max_total_interfaces limits;
  no_base : 0 <= ng_interface_base s <= zlen interfaces;
  no_blocks : 0 <= ng_metadata_blocks s <= rl_max_metadata_blocks_per_frame limits;
  no_bytes : 0 <= ng_metadata_bytes s;
  no_remaining : forall n, ng_remaining_in_section s = Some n -> 0 <= n
}.

(** The count of metadata blocks since the last packet. *)
Definition counted (s : PcapNgState) : Z := saturating_add usize_max (ng_metadata_blocks s) 1.

Lemma account_metadata_wp length limits s (F : CaptureError -> PcapNgState -> Prop) :
  0 <= length -> 0 <= ng_metadata_bytes s -> (forall e s', F e s') ->
  wp (account_metadata length limits) s
    (fun _ s' => s' = set_metadata (counted s) (ng_metadata_bytes s + length) s /\
       counted s <= rl_max_metadata_blocks_per_frame limits) F.
Proof.
  intros Hl Hb HF. unfold account_metadata. apply wp_bind, wp_modify, wp_bind, wp_gets. cbn [set_metadata ng_metadata_blocks].
  fold (counted s). destruct (Z.ltb_spec (rl_max_metadata_blocks_per_frame limits) (counted s)); [by apply wp_throw|].
  apply wp_bind, wp_gets, wp_bind, wp_lift; [|done]. apply safe_ok_or. cbn [set_metadata ng_metadata_bytes].
  intros n Hn. apply bind_Some in Hn as (m & Hm & Hn). apply checked_add_Some in Hm as [-> _].
  destruct (_ <=? _); simplify_eq. apply wp_modify. by split.
Qed.

Lemma section_interfaces_wf limits s interfaces : ng_ok limits s interfaces -> Forall interface_wf (section_interfaces s interfaces).
Proof. intros Hn. unfold section_interfaces, zdrop. apply Forall_drop, (no_interfaces _ _ _ Hn). Qed.

Lemma zlen_section_interfaces limits s interfaces : ng_ok limits s interfaces ->
  zlen (section_interfaces s interfaces) = zlen interfaces - ng_interface_base s.
Proof. intros Hn. unfold section_interfaces. rewrite zlen_zdrop. pose proof (no_base _ _ _ Hn). lia. Qed.

(** What a record does to the interfaces of the reader: a description adds its
    interface under the next number, and exactly packets carry a frame. *)
Definition record_effect (interfaces : list Interface) (record : CaptureRecord) (interfaces' : list Interface) : Prop :=
  match rec_kind record with
  | KindMetadata (MetaInterfaceDescription _ _ global_id i options) =>
      interfaces' = interfaces ++ [i] /\ global_id = zlen interfaces /\ rec_frame record = None /\
      Forall (fun o => 0 <= opt_code o <= u16_max) options
  | KindMetadata _ => interfaces' = interfaces /\ rec_frame record = None
  | KindPacket _ _ _ _ => interfaces' = interfaces /\ is_Some (rec_frame record)
  end.

(** What reading a record leaves, in terms of the interfaces and the count of
    metadata blocks: a packet resets the count, metadata adds one. *)
Definition ng_step (limits : ReaderLimits) (s : PcapNgState) (interfaces : list Interface) (record : CaptureRecord)
  (r : NgReader) : Prop :=
  ng_ok limits (nr_state r) (nr_interfaces r) /\ record_effect interfaces record (nr_interfaces r) /\
  match rec_frame record with
  | Some f => frame_read (rl_max_size limits) f /\ ng_metadata_blocks (nr_state r) = 0 /\
      exists i, fr_interface f = Some i /\ 0 <= i < zlen (nr_interfaces r)
  | None => ng_metadata_blocks (nr_state r) = counted s
  end.

(** The state after a block of metadata has been framed. *)
Definition framed (limits : ReaderLimits) (s : PcapNgState) (interfaces : list Interface) (packet : bool) (r : NgReader) : Prop :=
  nr_interfaces r = interfaces /\ ng_ok limits (nr_state r) interfaces /\
  (packet = false -> ng_metadata_blocks (nr_state r) = counted s).

Lemma counted_nonneg limits s interfaces : ng_ok limits s interfaces -> 0 <= counted s.
Proof. intros Hn. pose proof (no_blocks _ _ _ Hn). unfold counted, saturating_add, usize_max, u64_max. lia. Qed.

(** ** Framing *)

(** What a framed block is, taken from the stream behind its header. *)
Definition block_framed (limits : ReaderLimits) (r : NgReader) (raw_header : bytes) (block : FramedBlock) (r' : NgReader) : Prop :=
  framed limits (nr_state r) (nr_interfaces r) (is_some (packet_block_kind (fb_block_type block))) r' /\
  octets (fb_body block) /\ raw_header ++ source_bytes (nr_source r) = fb_raw block ++ source_bytes (nr_source r') /\
  fb_raw block <> [].

Lemma read_block_rest_wp alloc raw_header e block_type block_length limits r r0 :
  octets (source_bytes (nr_source r)) -> octets raw_header -> zlen raw_header = 8 -> 12 <= block_length ->
  nr_source r0 = nr_source r -> framed limits (nr_state r) (nr_interfaces r) (is_some (packet_block_kind block_type)) r0 ->
  wp (read_block_rest alloc raw_header e block_type block_length) r0 (block_framed limits r raw_header)
    (fun _ r' => leaves (source_bytes (nr_source r)) (nr_source r')).
Proof.
  intros Hs Hh Lh Hb Er (Ei & Hn0 & Hk). unfold read_block_rest.
  apply wp_bind, wp_lift; [|intros; rewrite Er; apply leaves_refl]. unfold try_reserve. destruct (alloc _ _); [|done]. cbn [safe].
  apply wp_bind, wp_zoom. rewrite Er. pose proof (read_exact_append_wp alloc raw_header block_length (block_length - 8) "pcapng block" (nr_source r) ltac:(lia)) as Hr.
  unfold wp in Hr. destruct (read_exact_append _ _ _ _ _ (nr_source r)) as [[raw|err|] s']; [|done|done].
  destruct Hr as (more & -> & Lm & Em). rewrite Em in Hs. apply octets_concat2 in Hs as [Hm _].
  assert (zlen (raw_header ++ more) = block_length) as Lr by (rewrite zlen_app; lia).
  assert (octets (raw_header ++ more)) as Hor by (by apply Forall_app).
  assert (leaves (source_bytes (nr_source r)) s') as Hl' by (rewrite Em; apply leaves_app, leaves_refl).
  apply wp_bind, wp_lift; [|done]. rewrite sub_u_ok by lia. cbn [safe].
  apply wp_bind, wp_lift; [|done]. apply index_range_safe; [lia..|].
  apply wp_bind, wp_lift; [|done]. eapply safe_mono; [apply decode_u32_safe; auto with octets|]. intros trailing _.
  destruct (negb _); [by apply wp_throw|]. apply wp_bind, wp_zoom. cbn [commit_block modify].
  apply wp_bind, wp_lift; [|done]. apply index_range_safe; [lia..|]. apply wp_ret. unfold block_framed.
  cbn [fb_block_type fb_body fb_raw nr_source nr_state nr_interfaces].
  split; [|split; [auto with octets|split; [by rewrite Em, app_assoc|]]].
  - split; [done|]. split; [|exact Hk]. destruct Hn0. split; try done. cbn. intros n. destruct (ng_remaining_in_section _) eqn:E'; [|done].
    cbn. intros [= <-]. unfold saturating_sub. lia.
  - intros E. rewrite E in Lr. rewrite zlen_nil in Lr. lia.
Qed.

Lemma read_block_wp alloc raw_header limits r :
  ng_ok limits (nr_state r) (nr_interfaces r) -> octets (source_bytes (nr_source r)) -> octets raw_header -> zlen raw_header = 8 ->
  wp (read_block alloc raw_header limits) r (block_framed limits r raw_header)
    (fun _ r' => leaves (source_bytes (nr_source r)) (nr_source r')).
Proof.
  intros Hn Hs Hh Lh. unfold read_block. apply wp_bind, wp_gets. pose proof (leaves_refl (nr_source r)) as Hl.
  apply wp_bind, wp_lift; [|done]. eapply safe_mono; [apply decode_u32_safe; auto with octets|]. intros block_type _.
  apply wp_bind, wp_lift; [|done]. eapply safe_mono; [apply decode_u32_safe; auto with octets|]. intros block_length Hbl.
  apply wp_bind, wp_lift; [|done]. unfold validate_pcapng_block_length. destruct (_ || _) eqn:Ev; [done|].
  apply orb_false_iff in Ev as [Ev%Z.ltb_ge _]. destruct (_ <? _); [done|]. cbn [safe].
  apply wp_bind, wp_gets, wp_bind, wp_lift; [|done]. eapply (safe_mono _ (fun _ => True)).
  { destruct (ng_remaining_in_section _); [|done]. by destruct (_ <? _). }
  intros _ _. apply wp_bind. destruct (packet_block_kind block_type) as [kind|] eqn:Ek; cbn [is_none is_some negb].
  - apply wp_ret, read_block_rest_wp; try done. by rewrite Ek.
  - apply wp_zoom. pose proof (account_metadata_wp block_length limits (nr_state r) (fun _ _ => True)) as Ha.
    unfold wp in Ha. specialize (Ha ltac:(lia) (no_bytes _ _ _ Hn) ltac:(done)).
    destruct (account_metadata block_length limits (nr_state r)) as [[[]|err|] s']; [|done|done].
    destruct Ha as [-> Hc]. apply read_block_rest_wp; try done. rewrite Ek. split; [done|]. split; [|done].
    pose proof (counted_nonneg _ _ _ Hn). pose proof (no_bytes _ _ _ Hn). destruct Hn. split; try done; cbn; lia.
Qed.

(** ** Records *)

Section records.
Context (alloc : capture_allocator) (limits : ReaderLimits).
Implicit Types (r : NgReader) (block : FramedBlock).

(** A record of [block] decoded after framing, from the state [s] before it. *)
Definition decoded (s : PcapNgState) (interfaces : list Interface) (raw : bytes) r (record : CaptureRecord) (r' : NgReader) : Prop :=
  ng_step limits s interfaces record r' /\ rec_raw record = raw /\ nr_source r' = nr_source r.

Lemma decode_interface_wp s interfaces body raw r : framed limits s interfaces false r -> octets body ->
  wp (decode_interface body raw limits) r (decoded s interfaces raw r) (fun _ r' => nr_source r' = nr_source r).
Proof.
  intros (Ei & Hn & Hk) Ho. unfold decode_interface, add_interface. apply wp_bind, wp_gets, wp_bind, wp_lift; [|done].
  eapply safe_mono; [by apply parse_interface_description_safe|]. intros [description options] [Hd Hcodes]. cbn in Hd, Hcodes.
  apply wp_bind, wp_gets, wp_bind, wp_lift; [|done]. apply safe_ok_or. intros local _.
  apply wp_bind, wp_bind, wp_gets. destruct (_ <=? _); [by apply wp_throw|]. apply wp_bind, wp_gets.
  destruct (Z.leb_spec (rl_max_total_interfaces limits) (zlen (nr_interfaces r))); [by apply wp_throw|].
  apply wp_bind, wp_lift; [|done]. apply safe_ok_or. intros global Hg. destruct (_ <=? _); [|done]. injection Hg as <-. apply wp_bind, wp_modify, wp_ret, wp_ret.
  split; [|done]. rewrite Ei in *. split; [|split; [done|cbn; by apply Hk]]. cbn [nr_state nr_interfaces]. destruct Hn.
  split; try done; rewrite ?zlen_app; change (zlen [description]) with 1; try lia. apply Forall_app. by split; [|apply Forall_singleton].
Qed.

Lemma decode_packet_wp s interfaces kind body raw r : framed limits s interfaces true r -> octets body ->
  wp (decode_packet alloc kind body raw limits) r (decoded s interfaces raw r) (fun _ r' => nr_source r' = nr_source r).
Proof.
  intros (Ei & Hn & _) Ho. unfold decode_packet. do 2 apply wp_bind, wp_gets. rewrite Ei. apply wp_bind, wp_lift; [|done].
  pose proof (section_interfaces_wf _ _ _ Hn) as Hw. pose proof (zlen_section_interfaces _ _ _ Hn) as Hz. pose proof (no_base _ _ _ Hn) as Hb.
  eapply (safe_mono _ (packet_read (rl_max_size limits) (ng_interface_base (nr_state r)) (zlen (section_interfaces (nr_state r) interfaces)))).
  { destruct kind; (apply parse_packet_safe || apply parse_simple_packet_safe); try done; lia. }
  intros p (Hf & i & Hi & Hr). apply wp_bind, wp_zoom. cbn [reset_metadata modify]. apply wp_ret. split; [|done].
  cbn [ng_step nr_state nr_interfaces]. split; [|split; [by split; [|eexists]|]].
  - pose proof (no_blocks _ _ _ Hn). rewrite Ei. destruct Hn. cbn [nr_state]. split; try done; cbn; lia.
  - cbn. split; [done|]. split; [done|]. exists i. split; [done|]. rewrite Ei. lia.
Qed.

Lemma decode_metadata_wp s interfaces block_type body raw r : framed limits s interfaces false r -> octets body ->
  wp (decode_metadata block_type body raw) r (decoded s interfaces raw r) (fun _ r' => nr_source r' = nr_source r).
Proof.
  intros (Ei & Hn & Hk) Ho. unfold decode_metadata. do 2 apply wp_bind, wp_gets. apply wp_bind, wp_lift; [|done].
  eapply (safe_mono _ (fun kind => match kind with MetaInterfaceDescription _ _ _ _ _ => False | _ => True end)).
  { destruct (_ =? _); [done|]. destruct (_ =? _); [|by destruct (_ || _)]. destruct (_ <? _); [done|].
    apply safe_bind. eapply safe_mono; [by apply decode_u32_safe|]. intros id _. by destruct (_ <=? _). }
  intros kind Hkind. apply wp_ret. split; [|done]. split; [by rewrite Ei|]. split; [by destruct kind|]. cbn. by apply Hk.
Qed.

Lemma decode_record_wp s interfaces block r :
  framed limits s interfaces (is_some (packet_block_kind (fb_block_type block))) r -> octets (fb_body block) ->
  wp (decode_record alloc block limits) r (decoded s interfaces (fb_raw block) r) (fun _ r' => nr_source r' = nr_source r).
Proof.
  intros Hf Ho. unfold decode_record. destruct (Z.eqb_spec (fb_block_type block) PCAPNG_INTERFACE_DESCRIPTION_BLOCK) as [E|_].
  - rewrite E in Hf. by apply decode_interface_wp.
  - destruct (packet_block_kind (fb_block_type block)) as [kind|]; [by apply decode_packet_wp|by apply decode_metadata_wp].
Qed.

Lemma start_section_wp header interfaces max_interfaces s (F : CaptureError -> PcapNgState -> Prop) : (forall e s', F e s') ->
  wp (start_section header interfaces max_interfaces) s
    (fun _ s' => exists index, s' = mkPcapNgState (sh_endianness header) (zlen interfaces) index (sh_length header)
                              (ng_metadata_blocks s) (ng_metadata_bytes s)) F.
Proof.
  intros HF. unfold start_section. apply wp_bind, wp_lift; [|done]. apply safe_ok_or. intros base Hb.
  destruct (_ <=? _); simplify_eq. apply wp_bind, wp_modify, wp_bind, wp_gets, wp_bind, wp_lift; [|done].
  apply safe_ok_or. intros index _. apply wp_modify. by exists index.
Qed.

Lemma read_section_record_wp raw_header r :
  ng_ok limits (nr_state r) (nr_interfaces r) -> octets (source_bytes (nr_source r)) -> octets raw_header -> zlen raw_header = 8 ->
  ztake 4 raw_header = PCAPNG_SECTION_HEADER ->
  wp (read_section_record alloc raw_header limits) r
    (fun record r' => ng_step limits (nr_state r) (nr_interfaces r) record r' /\
       raw_header ++ source_bytes (nr_source r) = rec_raw record ++ source_bytes (nr_source r') /\ rec_raw record <> [])
    (fun _ r' => leaves (source_bytes (nr_source r)) (nr_source r')).
Proof.
  intros Hn Hs Hh Lh Et. unfold read_section_record. pose proof (leaves_refl (nr_source r)) as Hl.
  apply wp_bind, wp_gets, wp_bind, wp_lift; [|done]. eapply (safe_mono _ (fun _ => True)).
  { destruct (ng_remaining_in_section _); [|done]. by destruct (_ =? _). }
  intros _ _. apply wp_bind, wp_zoom.
  pose proof (read_section_header_wp alloc (zslice 4 8 raw_header) (rl_max_size limits) (rl_max_options_per_block limits)
    (Some (ng_metadata_bytes (nr_state r), rl_max_metadata_bytes_per_frame limits)) (nr_source r) Hs ltac:(auto with octets)) as Hr.
  unfold wp in Hr. destruct (read_section_header_with_length _ _ _ _ _ _) as [[header|err|] s']; [|done|done].
  destruct Hr as ((Hbl & Hlen & Hne) & Eraw & Hl'). assert (raw_header = PCAPNG_SECTION_HEADER ++ zslice 4 8 raw_header) as Ehead.
  { rewrite <- (ztake_zdrop_app 4 raw_header) at 1. rewrite Et. f_equal. symmetry. apply ztake_all. rewrite zlen_zdrop. lia. }
  apply wp_bind, wp_zoom. cbn [nr_state]. unfold is_u32 in Hbl.
  pose proof (account_metadata_wp (sh_block_length header) limits (nr_state r) (fun _ _ => True)) as Ha.
  unfold wp in Ha. specialize (Ha ltac:(lia) (no_bytes _ _ _ Hn) ltac:(done)).
  destruct (account_metadata _ limits (nr_state r)) as [[[]|err|] s1]; [|done|done]. destruct Ha as [-> Hc].
  apply wp_bind, wp_gets, wp_bind, wp_zoom. cbn [nr_state nr_interfaces].
  pose proof (start_section_wp header (nr_interfaces r) (rl_max_interfaces_per_section limits)
    (set_metadata (counted (nr_state r)) (ng_metadata_bytes (nr_state r) + sh_block_length header) (nr_state r)) (fun _ _ => True) ltac:(done)) as Hst.
  unfold wp in Hst. destruct (start_section _ _ _ _) as [[[]|err|] s2]; [|done|done]. destruct Hst as (index & ->).
  apply wp_bind, wp_gets, wp_ret. cbn [rec_raw nr_source nr_state]. split; [|by rewrite Ehead, <- app_assoc].
  split; [|split; done]. cbn. pose proof (counted_nonneg _ _ _ Hn). pose proof (no_bytes _ _ _ Hn).
  pose proof (zlen_nonneg (nr_interfaces r)). destruct Hn. split; cbn; try done; lia.
Qed.

Lemma read_next_pcapng_record_wp r : ng_ok limits (nr_state r) (nr_interfaces r) -> octets (source_bytes (nr_source r)) ->
  wp (read_next_pcapng_record alloc limits) r
    (fun record r' => took rec_raw (source_bytes (nr_source r)) (source_bytes (nr_source r')) record /\
       match record with
       | Some record => ng_step limits (nr_state r) (nr_interfaces r) record r'
       | None => nr_state r' = nr_state r /\ nr_interfaces r' = nr_interfaces r
       end)
    (fun _ r' => leaves (source_bytes (nr_source r)) (nr_source r')).
Proof.
  intros Hn Hs. unfold read_next_pcapng_record. pose proof (leaves_refl (nr_source r)) as Hl.
  apply wp_bind, wp_gets, wp_bind, wp_lift; [|done]. eapply (safe_mono _ (fun _ => True)).
  { destruct (ng_remaining_in_section _); [|done]. by destruct (_ && _). }
  intros _ _. apply wp_bind, wp_zoom. pose proof (read_exact_or_eof_wp 8 "pcapng block header" (nr_source r) ltac:(lia)) as Hr.
  unfold wp in Hr. unfold read_pcapng_block_header. destruct (read_exact_or_eof 8 _ (nr_source r)) as [[[raw_header|]|err|] s1]; [| |done|done].
  - destruct Hr as [Lh E1]. rewrite E1 in Hs. apply octets_concat2 in Hs as [Hh Hs1].
    set (r1 := mkNgReader s1 (nr_state r) (nr_interfaces r)). apply wp_bind.
    destruct (bytes_eqb (ztake 4 raw_header) PCAPNG_SECTION_HEADER) eqn:Eb.
    + apply bool_decide_eq_true_1 in Eb. eapply wp_mono; [by apply (read_section_record_wp raw_header r1)| |].
      * intros record r' (Hstep & Eraw & Hne). apply wp_ret. cbn. by rewrite E1.
      * intros ? r' Hr'. rewrite E1. by apply leaves_app.
    + apply wp_bind. eapply wp_mono; [by apply (read_block_wp alloc raw_header limits r1)| |].
      * intros block r' (Hf & Hbody & Eraw & Hne). eapply wp_mono; [by apply decode_record_wp| |].
        -- intros record r2 (Hstep & Er & Es). apply wp_ret. cbn. rewrite E1, Er, Es. done.
        -- intros ? r2 ->. rewrite E1. cbn in Eraw. rewrite Eraw. apply leaves_app, leaves_refl.
      * intros ? r' Hr'. rewrite E1. by apply leaves_app.
  - apply wp_lift; [|intros; cbn; rewrite <- Hr; apply leaves_refl].
    destruct (ng_remaining_in_section _) as [n|]; [destruct (negb _)|]; done.
Qed.
End records.
