(* ===== verification/CaptureSafety.v ===== *)
(** * Capture files: reading any stream to its end

    The reader of either format on a stream with any contents, any cuts and any
    errors. *)

From stdpp Require Import base tactics option list numbers strings.
From Stdlib Require Import ZArith Lia.
From S2P Require Import Prelude Checksum Ordered Flow Headers HeadersProofs Frame Transform TransformProofs IpRanges IpRebuild.
From S2P Require Import CaptureWire CaptureRead CaptureWrite CaptureStreams CaptureTime CaptureEncode CaptureReader CaptureBlocks.

(** ** The invariant of a reader *)

Definition limits_ok (limits : ReaderLimits) : Prop :=
  0 <= rl_max_total_interfaces limits /\ 0 <= rl_max_metadata_blocks_per_frame limits.

(** A finished reader is never asked again. *)
Definition reader_ok (r : Reader) : Prop :=
  octets (source_bytes (rd_inner r)) /\
  (rd_finished r = false ->
   match rd_state r with
   | ReaderPcap s => zlen (rd_interfaces r) <= rl_max_total_interfaces (rd_limits r) /\ is_u32 (ps_link_type s)
   | ReaderPcapNg s => ng_ok (rd_limits r) s (rd_interfaces r)
   end).

(** What every frame of a record satisfies. *)
Definition record_ok (limits : ReaderLimits) (record : CaptureRecord) : Prop :=
  rec_raw record <> [] /\
  forall f, rec_frame record = Some f ->
    frame_read (rl_max_size limits) f /\ forall i, fr_interface f = Some i -> 0 <= i < rl_max_total_interfaces limits.

Lemma octets_leaves data source : leaves data source -> octets data -> octets (source_bytes source).
Proof. intros (k & ->) [_ H]%octets_concat2. exact H. Qed.

Section reader.
Context (alloc : capture_allocator).

Lemma read_pcap_header_wp magic e precision source : octets (source_bytes source) ->
  wp (read_pcap_header magic e precision) source
    (fun result source' => is_u32 (ps_link_type result.1) /\
       exists more, ph_raw result.2 = magic ++ more /\ source_bytes source = more ++ source_bytes source')
    (fun _ source' => leaves (source_bytes source) source').
Proof.
  intros Ho. unfold read_pcap_header, PCAP_GLOBAL_HEADER_LEN. apply wp_bind. eapply wp_mono; [by apply read_exact_counted_wp| |done].
  intros rest s1 [Hl E1]. rewrite E1 in Ho. apply octets_concat2 in Ho as [Hr _].
  apply wp_lift; [|intros; rewrite E1; apply leaves_app, leaves_refl].
  do 2 (apply safe_bind; eapply safe_mono; [apply decode_u16_safe; auto with octets|]; intros ? _). destruct (negb _); [done|].
  apply safe_bind. eapply safe_mono; [apply decode_u32_safe; auto with octets|]. intros snap_len _. destruct (_ =? _); [done|].
  apply safe_bind. eapply safe_mono; [apply decode_u32_safe; auto with octets|]. intros network Hn. cbn.
  split; [|by exists rest]. change 65535 with (Z.ones 16). rewrite Z.land_ones by lia. pose proof (Z.mod_pos_bound network (2 ^ 16)).
  unfold is_u32, u32_max. lia.
Qed.

(** Opening a stream consumes exactly the header. *)
Lemma read_header_wp limits source : limits_ok limits -> octets (source_bytes source) ->
  wp (read_header alloc limits) source
    (fun r source' => reader_ok r /\ rd_finished r = false /\ rd_limits r = limits /\ rd_inner r = source' /\
       source_bytes source = CaptureHeader_raw (rd_header r) ++ source_bytes source')
    (fun _ source' => leaves (source_bytes source) source').
Proof.
  intros [Ht Hb] Ho. unfold read_header. apply wp_bind. eapply wp_mono; [by apply read_exact_or_eof_wp| |done].
  intros [magic|] s1 H1; [|apply wp_bind, wp_lift; [done|]; intros; rewrite <- H1; apply leaves_refl].
  destruct H1 as [Lm E1]. apply wp_bind, wp_lift; [|intros; rewrite E1; apply leaves_app, leaves_refl]. cbn [ok_or safe].
  rewrite E1 in *. apply octets_concat2 in Ho as [Hm Hs1]. apply wp_bind.
  eapply (wp_mono _ _ (fun '(state, header) s2 => magic ++ source_bytes s1 = CaptureHeader_raw header ++ source_bytes s2 /\
    leaves (source_bytes s1) s2 /\
    match state with ReaderPcap s => is_u32 (ps_link_type s) | ReaderPcapNg s => ng_ok limits s [] end) _
    (fun _ s2 => leaves (magic ++ source_bytes s1) s2)).
  - destruct (bytes_eqb magic PCAPNG_SECTION_HEADER) eqn:Eb.
    + apply bool_decide_eq_true_1 in Eb. subst magic. unfold read_section_header_after_type. apply wp_bind, wp_bind.
      eapply wp_mono; [by apply read_exact_counted_wp| |].
      * intros len s2 [Hl E2]. rewrite E2 in Hs1. apply octets_concat2 in Hs1 as [Hlen Hs2].
        eapply wp_mono; [by apply read_section_header_wp| |].
        -- intros h s3 ((_ & Hrem & _) & Eraw & Hlv). apply wp_ret. cbn. split; [by rewrite E2|].
           split; [rewrite E2; by apply leaves_app|]. split; cbn; try done; lia.
        -- intros ? s3 Hlv. rewrite E2. by apply leaves_app, leaves_app.
      * intros ? s2 Hlv. by apply leaves_app.
    + destruct (pcap_layout magic) as [[e precision]|]; [|apply wp_throw, leaves_app, leaves_refl].
      apply wp_bind. eapply wp_mono; [by apply read_pcap_header_wp| |].
      * intros [state header] s2 (Hlink & more & Eraw & E2). apply wp_ret. cbn in *. rewrite Eraw, E2, <- app_assoc. split; [done|].
        split; [|done]. apply leaves_app, leaves_refl.
      * intros ? s2 Hlv. by apply leaves_app.
  - intros [state header] s2 (Eraw & Hlv & Hst). pose proof (octets_leaves _ _ Hlv Hs1) as Ho2.
    destruct (Z.ltb_spec (rl_max_total_interfaces limits) (zlen match state with ReaderPcap st => [PcapState_interface st] | ReaderPcapNg _ => [] end)) as [Hc|Hc];
      [by apply wp_throw, leaves_app|].
    unfold wp. split; [|done]. split; [done|]. intros _. by destruct state.
  - done.
Qed.

(** One call of [read_state]: the record is what left the stream. *)
Lemma read_state_wp r : reader_ok r -> rd_finished r = false ->
  wp (read_state alloc) r
    (fun record r' => reader_ok r' /\ rd_finished r' = false /\ rd_limits r' = rd_limits r /\
       took rec_raw (source_bytes (rd_inner r)) (source_bytes (rd_inner r')) record /\
       (forall x, record = Some x -> record_ok (rd_limits r) x))
    (fun _ r' => rd_limits r' = rd_limits r /\ leaves (source_bytes (rd_inner r)) (rd_inner r')).
Proof.
  intros [Ho Hr] Hf. specialize (Hr Hf). unfold wp, read_state. destruct (rd_state r) as [state|state] eqn:Es.
  - pose proof (read_next_pcap_record_wp alloc state (rl_max_size (rd_limits r)) (rd_inner r) (proj2 Hr) Ho) as Hw. unfold wp in Hw.
    destruct (read_next_pcap_record _ _ _ _) as [[record|err|] source]; [|done|done]. destruct Hw as [Ht Hx].
    split; [|split; [done|split; [done|split; [done|]]]].
    + split; [|intros _; exact Hr]. eapply octets_leaves; [|exact Ho]. cbn. destruct record as [x|]; cbn in Ht; [|rewrite <- Ht; apply leaves_refl].
      destruct Ht as [-> _]. apply leaves_app, leaves_refl.
    + intros x ->. destruct (Hx x eq_refl) as (f & Ef & Hfr & Hi & _). destruct Ht as [_ Hne]. split; [done|].
      intros f' Hf'. rewrite Ef in Hf'. injection Hf' as <-. split; [done|]. by rewrite Hi.
  - pose proof (read_next_pcapng_record_wp alloc (rd_limits r) (mkNgReader (rd_inner r) state (rd_interfaces r)) Hr Ho) as Hw. unfold wp in Hw.
    destruct (read_next_pcapng_record _ _ _) as [[record|err|] n]; [|done|done]. destruct Hw as [Ht Hx]. cbn [nr_source nr_state nr_interfaces] in *.
    assert (octets (source_bytes (nr_source n))) as Ho'.
    { eapply octets_leaves; [|exact Ho]. destruct record as [x|]; cbn in Ht; [|rewrite <- Ht; apply leaves_refl].
      destruct Ht as [-> _]. apply leaves_app, leaves_refl. }
    split; [|split; [done|split; [done|split; [done|]]]].
    + split; [done|]. intros _. cbn. destruct record as [x|]; [apply Hx|]. by destruct Hx as [-> ->].
    + intros x ->. destruct Ht as [_ Hne]. split; [done|]. intros f Hfr. destruct Hx as (Hn & _ & Hm). rewrite Hfr in Hm.
      destruct Hm as (Hok & _ & i & Hi & Hb). split; [done|]. intros j Hj. rewrite Hi in Hj. injection Hj as <-.
      pose proof (no_total _ _ _ Hn). lia.
Qed.

Lemma next_record_spec before after r : reader_ok r -> rd_finished r = false ->
  match next_record alloc before after r with
  | (Ok record, r') => reader_ok r' /\ rd_limits r' = rd_limits r /\ rd_finished r' = is_none record /\
      took rec_raw (source_bytes (rd_inner r)) (source_bytes (rd_inner r')) record /\
      (forall x, record = Some x -> record_ok (rd_limits r) x)
  | (Err _, r') => reader_ok r' /\ rd_limits r' = rd_limits r /\ rd_finished r' = true /\
      leaves (source_bytes (rd_inner r)) (rd_inner r')
  | (Panic, _) => False
  end.
Proof.
  intros Hr Hf. unfold next_record, read_record, answer, mbind, stm_bind, lift, modify, mret, stm_ret. rewrite Hf.
  assert (forall r', leaves (source_bytes (rd_inner r)) (rd_inner r') -> reader_ok (set_finished true r')) as Hfin.
  { intros r' Hl. split; [|done]. cbn. by eapply octets_leaves; [|apply Hr]. }
  destruct before as [e|]; [by split_and!; [apply Hfin, leaves_refl|..|apply leaves_refl]|].
  pose proof (read_state_wp r Hr Hf) as Hw. unfold wp in Hw. destruct (read_state alloc r) as [[record|err|] r1]; [| |done].
  - destruct Hw as (Hr1 & Hf1 & Hl1 & Ht & Hx). assert (leaves (source_bytes (rd_inner r)) (rd_inner r1)) as Hl.
    { destruct record; cbn in Ht; [destruct Ht as [-> _]; apply leaves_app, leaves_refl|rewrite <- Ht; apply leaves_refl]. }
    destruct after as [e|]; [by split_and!; [apply Hfin|..]|]. destruct record as [x|]; cbn.
    + destruct Hr1 as [Ho1 Hst]. split; [by split; [|intros _; apply Hst]|]. split; [done|]. split; [done|]. by split; [exact Ht|].
    + split; [by apply (Hfin (mkReader _ _ _ _ _ _ _))|]. done.
  - destruct Hw as [Hl1 Hl]. destruct after; cbn; by split_and!; [apply Hfin|..].
Qed.

(** A record without a frame counts against the metadata limit. *)
Lemma next_record_counts before after r x r' : reader_ok r ->
  next_record alloc before after r = (Ok (Some x), r') -> rec_frame x = None ->
  exists s s', rd_state r = ReaderPcapNg s /\ rd_state r' = ReaderPcapNg s' /\ ng_metadata_blocks s' = counted s.
Proof.
  intros [Ho Hr] E Ex. unfold next_record, read_record, answer, mbind, stm_bind, lift, modify, mret, stm_ret in E.
  destruct (rd_finished r) eqn:Hf; [done|]. specialize (Hr eq_refl). destruct before; [done|]. unfold read_state in E.
  destruct (rd_state r) as [state|state] eqn:Es.
  - pose proof (read_next_pcap_record_wp alloc state (rl_max_size (rd_limits r)) (rd_inner r) (proj2 Hr) Ho) as Hw. unfold wp in Hw.
    destruct (read_next_pcap_record _ _ _ _) as [[[y|]|err|] source]; [|by destruct after|by destruct after|done].
    destruct after; simplify_eq/=. destruct Hw as [_ Hw]. destruct (Hw x eq_refl) as (f & Ef & _). by rewrite Ef in Ex.
  - pose proof (read_next_pcapng_record_wp alloc (rd_limits r) (mkNgReader (rd_inner r) state (rd_interfaces r)) Hr Ho) as Hw. unfold wp in Hw.
    destruct (read_next_pcapng_record _ _ _) as [[[y|]|err|] n]; [|by destruct after|by destruct after|done].
    destruct after; simplify_eq/=. destruct Hw as (_ & _ & _ & Hm). rewrite Ex in Hm. by exists state, (nr_state n).
Qed.

(** Metadata blocks that may still come before the next packet. *)
Definition pending (r : Reader) : Z :=
  match rd_state r with
  | ReaderPcap _ => 0
  | ReaderPcapNg s => rl_max_metadata_blocks_per_frame (rd_limits r) - ng_metadata_blocks s
  end.

Lemma next_frame_total checks fuel : forall r, reader_ok r -> rl_max_metadata_blocks_per_frame (rd_limits r) < usize_max ->
  pending r < Z.of_nat fuel -> (rd_finished r = true -> fuel <> O) ->
  match next_frame alloc fuel checks r with
  | (Panic, _) => False
  | (_, r') => reader_ok r' /\ rd_limits r' = rd_limits r
  end.
Proof.
  induction fuel as [|fuel IH]; intros r Hr Hu Hp Hf; cbn [next_frame].
  { destruct (rd_finished r) eqn:E; [by apply Hf|]. destruct Hr as [_ Hr]. specialize (Hr E). unfold pending in Hp.
    destruct (rd_state r) as [|s]; [lia|]. pose proof (no_blocks _ _ _ Hr). lia. }
  unfold mbind, stm_bind. destruct (rd_finished r) eqn:Ef; [by unfold next_record; rewrite Ef|].
  pose proof (next_record_spec (checks fuel).1 (checks fuel).2 r Hr Ef) as Hs.
  destruct (next_record alloc (checks fuel).1 (checks fuel).2 r) as [[[x|]|err|] r'] eqn:E; [| |naive_solver|done].
  - destruct Hs as (Hr' & Hl' & Hf' & _). destruct (rec_frame x) eqn:Ex; [done|].
    destruct (next_record_counts _ _ _ _ _ Hr E Ex) as (s & s' & Es & Es' & Hc).
    destruct Hr as [_ Hr]. specialize (Hr Ef). rewrite Es in Hr. pose proof (no_blocks _ _ _ Hr).
    pose proof (IH r' Hr') as Hi. rewrite Hl' in Hi. apply Hi; [done| |by rewrite Hf'].
    unfold pending in *. rewrite Es', Hl', Hc. rewrite Es in Hp. unfold counted, saturating_add, usize_max in *. lia.
  - naive_solver.
Qed.

(** ** Whole streams *)

(** Records until the end of the stream or an error. *)
Fixpoint read_records (fuel : nat) (checks : nat -> option CaptureError * option CaptureError) (r : Reader)
  : list CaptureRecord * outcome CaptureError unit * Reader :=
  match fuel with
  | O => ([], Panic, r)
  | S fuel =>
      match next_record alloc (checks fuel).1 (checks fuel).2 r with
      | (Ok (Some record), r') => let '(records, result, r'') := read_records fuel checks r' in (record :: records, result, r'')
      | (Ok None, r') => ([], Ok tt, r')
      | (Err e, r') => ([], Err e, r')
      | (Panic, r') => ([], Panic, r')
      end
  end.

Lemma read_records_spec checks fuel : forall r, reader_ok r -> rd_finished r = false ->
  zlen (source_bytes (rd_inner r)) < Z.of_nat fuel ->
  let '(records, result, r') := read_records fuel checks r in
  result <> Panic /\ rd_finished r' = true /\ Forall (record_ok (rd_limits r)) records /\
  exists skipped, source_bytes (rd_inner r) = concat (map rec_raw records) ++ skipped ++ source_bytes (rd_inner r') /\
    (result = Ok tt -> skipped = []).
Proof.
  induction fuel as [|fuel IH]; intros r Hr Hf Hz; cbn [read_records].
  { pose proof (zlen_nonneg (source_bytes (rd_inner r))). lia. }
  pose proof (next_record_spec (checks fuel).1 (checks fuel).2 r Hr Hf) as Hs.
  destruct (next_record alloc (checks fuel).1 (checks fuel).2 r) as [[[x|]|err|] r']; [| | |done].
  - destruct Hs as (Hr' & Hl' & Hf' & [Ht Hne] & Hx). specialize (Hx x eq_refl). cbn in Hf'.
    specialize (IH r' Hr' Hf'). rewrite Ht, zlen_app in Hz. destruct (nonempty_zlen _ Hne) as [_ Hpos].
    specialize (IH ltac:(lia)). destruct (read_records fuel checks r') as [[records result] r''].
    destruct IH as (H1 & H2 & H3 & skipped & H4 & H5). rewrite Hl' in H3. split_and!; [done|done|by constructor|].
    exists skipped. split; [|done]. cbn. by rewrite Ht, H4, app_assoc.
  - destruct Hs as (_ & _ & Hf' & Ht & _). cbn in Hf', Ht. split_and!; try done. exists []. cbn. by rewrite Ht.
  - destruct Hs as (_ & _ & Hf' & (skipped & Hk)). split_and!; try done. by exists skipped.
Qed.
End reader.

(** ** Theorems *)

(** C13: The reader on any stream.  Whatever bytes the stream holds, wherever its
    reads are cut, interrupted or fail, whatever the allocator and the deadline
    answer, opening and reading to the end never panics and takes at most one
    record per byte; the header and the raw bytes of the records, in order, are
    exactly the bytes taken from the stream, up to the record an error stopped
    in; every frame has consistent lengths within the size limit, a valid time
    and an interface below the limit; and the reader ends finished. *)
Theorem reader_reads_any_stream (alloc : capture_allocator) (limits : ReaderLimits) (source : Source)
  (before after : option CaptureError) (checks : nat -> option CaptureError * option CaptureError) :
  limits_ok limits -> octets (source_bytes source) ->
  match Reader_with_control alloc limits before after source with
  | (Ok r, _) =>
      let '(records, result, r') := read_records alloc (S (length (source_bytes source))) checks r in
      result <> Panic /\ rd_finished r' = true /\ Forall (record_ok limits) records /\
      exists skipped, source_bytes source =
        CaptureHeader_raw (rd_header r) ++ concat (map rec_raw records) ++ skipped ++ source_bytes (rd_inner r') /\
        (result = Ok tt -> skipped = [])
  | (Err _, rest) => leaves (source_bytes source) rest
  | (Panic, _) => False
  end.
Proof.
  intros Hl Ho. unfold Reader_with_control. destruct before; [apply leaves_refl|].
  pose proof (read_header_wp alloc limits source Hl Ho) as Hw. unfold wp in Hw.
  destruct (read_header alloc limits source) as [[r|e|] rest]; [|by destruct after|done].
  destruct Hw as (Hr & Hf & <- & <- & E). destruct after; [rewrite E; apply leaves_app, leaves_refl|].
  assert (zlen (source_bytes (rd_inner r)) < Z.of_nat (S (length (source_bytes source)))) as Hz.
  { rewrite E, length_app. unfold zlen. lia. }
  pose proof (read_records_spec alloc checks (S (length (source_bytes source))) r Hr Hf Hz) as Hs'.
  destruct (read_records _ _ _ _) as [[records result] r']. destruct Hs' as (H1 & H2 & H3 & skipped & H4 & H5).
  split_and!; try done. exists skipped. split; [|done]. by rewrite E at 1; rewrite H4.
Qed.

(** C14: Asking for the next frame always answers: between two packets the reader
    passes at most as many metadata blocks as its limit allows, so one record
    more than the limit suffices, on any stream and in any state the reader can
    be in. *)
Theorem next_frame_terminates (alloc : capture_allocator) (limits : ReaderLimits) (source : Source)
  (before after : option CaptureError) (checks : nat -> option CaptureError * option CaptureError) (n : nat) :
  limits_ok limits -> rl_max_metadata_blocks_per_frame limits < usize_max -> octets (source_bytes source) ->
  let fuel := S (Z.to_nat (rl_max_metadata_blocks_per_frame limits)) in
  match Reader_with_control alloc limits before after source with
  | (Ok r, _) => (next_frame alloc fuel checks
      (Nat.iter n (fun r => (next_frame alloc fuel checks r).2) r)).1 <> Panic
  | (result, _) => result <> Panic
  end.
Proof.
  intros Hl Hu Ho fuel. unfold Reader_with_control. destruct before; [done|].
  pose proof (read_header_wp alloc limits source Hl Ho) as Hw. unfold wp in Hw.
  destruct (read_header alloc limits source) as [[r|e|] rest]; [|by destruct after|done].
  destruct Hw as (Hr & Hf & Elim & _). destruct after; [done|].
  assert (forall r, reader_ok r -> rd_limits r = limits -> match next_frame alloc fuel checks r with
    | (Panic, _) => False | (_, r') => reader_ok r' /\ rd_limits r' = rd_limits r end) as Hstep.
  { intros r1 Hr1 El. destruct Hl as [_ Hb]. destruct (rd_finished r1) eqn:Ef.
    - subst fuel. cbn [next_frame]. unfold mbind, stm_bind, next_record. by rewrite Ef.
    - apply next_frame_total; [done|by rewrite El| |done]. destruct Hr1 as [_ Hr1]. specialize (Hr1 Ef). unfold pending. rewrite El.
      destruct (rd_state r1) as [|s]; [subst fuel; lia|]. pose proof (no_blocks _ _ _ Hr1). subst fuel. lia. }
  assert (reader_ok (Nat.iter n (fun r => (next_frame alloc fuel checks r).2) r) /\
    rd_limits (Nat.iter n (fun r => (next_frame alloc fuel checks r).2) r) = limits) as [Hn Eln].
  { induction n as [|n [IH1 IH2]]; [done|]. rewrite Nat.iter_succ. specialize (Hstep _ IH1 IH2). rewrite IH2 in Hstep.
    by destruct (next_frame alloc fuel checks _) as [[] r']. }
  specialize (Hstep _ Hn Eln). by destruct (next_frame _ _ _ _) as [[] ?].
Qed.

(** ** Witnesses *)

(** A classic capture with one record, cut in the middle of its header, an
    interruption and an error behind it. *)
Definition demo_capture : Source :=
  [Data [161; 178; 195; 212; 0; 2; 0; 4; 0; 0; 0; 0]; ReadFails (SimpleError KindInterrupted);
   Data [0; 0; 0; 0; 0; 0; 255; 255; 0; 0; 0; 1; 0; 0; 0; 5; 0; 0; 0; 7; 0; 0; 0; 2; 0; 0; 0; 60; 8; 9];
   ReadFails (SimpleError (KindOther 1))].

Definition demo_limits : ReaderLimits := mkReaderLimits 65535 4 4 4 1024 16.

Lemma reader_reads_any_stream_witness :
  match Reader_with_control (fun _ _ => true) demo_limits None None demo_capture with
  | (Ok r, _) =>
      let '(records, result, _) := read_records (fun _ _ => true) (S (length (source_bytes demo_capture))) (fun _ => (None, None)) r in
      length records = 1%nat /\ result = Err (CIo (SimpleError (KindOther 1))) /\ Forall (record_ok demo_limits) records
  | _ => False
  end.
Proof.
  assert (limits_ok demo_limits) as Hl by (split; cbn; lia).
  assert (octets (source_bytes demo_capture)) as Ho by (by apply octets_check).
  pose proof (reader_reads_any_stream (fun _ _ => true) demo_limits demo_capture None None (fun _ => (None, None)) Hl Ho) as H.
  assert (match Reader_with_control (fun _ _ => true) demo_limits None None demo_capture with
    | (Ok r, _) =>
        let '(records, result, _) := read_records (fun _ _ => true) (S (length (source_bytes demo_capture))) (fun _ => (None, None)) r in
        length records = 1%nat /\ result = Err (CIo (SimpleError (KindOther 1)))
    | _ => False
    end) as Hc by (vm_compute; split; reflexivity).
  destruct (Reader_with_control _ _ _ _ _) as [[r|e|] rest]; [|done|done].
  destruct (read_records _ _ _ _) as [[records result] r']. destruct H as (_ & _ & HF & _). destruct Hc as [H1 H2].
  by split_and!.
Defined.

Lemma next_frame_terminates_witness :
  match Reader_with_control (fun _ _ => true) demo_limits None None demo_capture with
  | (Ok r, _) => (next_frame (fun _ _ => true) 5 (fun _ => (None, None)) r).1 <> Panic
  | (result, _) => result <> Panic
  end.
Proof.
  apply (next_frame_terminates (fun _ _ => true) demo_limits demo_capture None None (fun _ => (None, None)) 0);
    [split; cbn; lia|cbn; unfold usize_max, u64_max; lia|].
  by apply octets_check.
Defined.
