(* ===== verification/CaptureRoundTrip.v ===== *)
(** * Capture files: classic captures read back

    What a writer of classic captures has written, a reader gives back frame by
    frame, over any stream that delivers the bytes. *)

From stdpp Require Import base tactics option list numbers strings.
From Stdlib Require Import ZArith Lia.
From S2P Require Import Prelude Checksum Ordered Flow Headers HeadersProofs Frame Transform TransformProofs.
From S2P Require Import CaptureWire CaptureRead CaptureWrite CaptureStreams CaptureTime CaptureEncode CaptureWriter.

(** ** Reading all frames *)

(** No cancellation and no deadline. *)
Definition no_checks (_ : nat) : option CaptureError * option CaptureError := (None, None).

(** The iterator of a reader, until it ends; [count] bounds the frames and [fuel]
    the records of each call. *)
Fixpoint collect (alloc : capture_allocator) (count fuel : nat) (r : Reader) : outcome CaptureError (list Frame) * Reader :=
  match count with
  | O => (Panic, r)
  | S count =>
      match next_frame alloc fuel no_checks r with
      | (Ok (Some f), r') =>
          let '(frames, r'') := collect alloc count fuel r' in
          (match frames with Ok frames => Ok (f :: frames) | e => e end, r'')
      | (Ok None, r') => (Ok [], r')
      | (Err e, r') => (Err e, r')
      | (Panic, r') => (Panic, r')
      end
  end.

(** Every call of a caller that only writes frames. *)
Fixpoint write_frames (frames : list Frame) : stm Writer unit :=
  match frames with
  | [] => mret tt
  | f :: rest => _ ← write_frame f; write_frames rest
  end.

(** The reader after a record. *)
Definition after_record (record : option CaptureRecord) (r : Reader) : Reader :=
  mkReader (rd_inner r) (rd_state r) (rd_header r) (rd_interfaces r) (rd_declares_fcs r || record_declares_fcs record)
    (rd_limits r) (if is_none record then true else rd_finished r).

Lemma next_record_eq alloc r record r1 : rd_finished r = false -> read_state alloc r = (Ok record, r1) ->
  next_record alloc None None r = (Ok record, after_record record r1).
Proof.
  intros Hf E. unfold next_record, read_record, mbind, stm_bind, lift, answer. rewrite Hf, E. by destruct record.
Qed.

(** A packet is returned, the end is passed on. *)
Lemma next_frame_packet alloc fuel r x f r1 : rd_finished r = false -> read_state alloc r = (Ok (Some x), r1) -> rec_frame x = Some f ->
  next_frame alloc (S fuel) no_checks r = (Ok (Some f), after_record (Some x) r1).
Proof.
  intros Hf E Ex. cbn [next_frame]. unfold mbind, stm_bind. cbn [no_checks fst snd]. rewrite (next_record_eq _ _ _ _ Hf E). by rewrite Ex.
Qed.

Lemma next_frame_end alloc fuel r r1 : rd_finished r = false -> read_state alloc r = (Ok None, r1) ->
  next_frame alloc (S fuel) no_checks r = (Ok None, after_record None r1).
Proof.
  intros Hf E. cbn [next_frame]. unfold mbind, stm_bind. cbn [no_checks fst snd]. by rewrite (next_record_eq _ _ _ _ Hf E).
Qed.

Lemma collect_frame alloc count fuel r x f r1 : rd_finished r = false -> read_state alloc r = (Ok (Some x), r1) -> rec_frame x = Some f ->
  collect alloc (S count) (S fuel) r =
  (let '(frames, r') := collect alloc count (S fuel) (after_record (Some x) r1) in
   (match frames with Ok frames => Ok (f :: frames) | e => e end, r')).
Proof. intros Hf E Ex. cbn [collect]. by rewrite (next_frame_packet _ _ _ _ _ _ Hf E Ex). Qed.

(** Metadata is passed over. *)
Lemma next_frame_metadata alloc fuel r x r1 : rd_finished r = false -> read_state alloc r = (Ok (Some x), r1) -> rec_frame x = None ->
  next_frame alloc (S fuel) no_checks r = next_frame alloc fuel no_checks (after_record (Some x) r1).
Proof.
  intros Hf E Ex. cbn [next_frame]. unfold mbind at 1, stm_bind at 1. cbn [no_checks fst snd]. rewrite (next_record_eq _ _ _ _ Hf E). by rewrite Ex.
Qed.

Lemma collect_end alloc count fuel r r1 : rd_finished r = false -> read_state alloc r = (Ok None, r1) ->
  collect alloc (S count) (S fuel) r = (Ok [], after_record None r1).
Proof. intros Hf E. cbn [collect]. by rewrite (next_frame_end _ _ _ _ Hf E). Qed.

(** ** Fields of a row of words *)

Lemma zslice_words e vs : forall (k : nat) v rest, vs !! k = Some v ->
  zslice (4 * Z.of_nat k) (4 * Z.of_nat k + 4) (words e vs ++ rest) = to_bytes e 4 v.
Proof.
  unfold words. induction vs as [|u vs IH]; intros k v rest H; [done|]. cbn [map concat]. rewrite <- app_assoc.
  destruct k as [|k]; cbn in H.
  - injection H as <-. apply (zslice_here (to_bytes e 4 u) _ 4), zlen_to_bytes.
  - rewrite zslice_skip by (rewrite ?zlen_to_bytes; lia). rewrite zlen_to_bytes, <- (IH k v rest H). f_equal; lia.
Qed.

Lemma decode_words e vs (k : nat) v a b : vs !! k = Some v -> is_u32 v -> a = 4 * Z.of_nat k -> b = a + 4 ->
  decode_u32 e (zslice a b (words e vs)) = Ok v.
Proof.
  intros Hk Hv -> ->. rewrite <- (app_nil_r (words e vs)), (zslice_words e vs k v) by done. by apply decode_u32_exact.
Qed.

(** ** Classic records *)

Lemma validate_pcap_frame_Ok f precision snap_len link seconds fraction :
  validate_pcap_frame f precision snap_len link = Ok (seconds, fraction) ->
  fr_interface f = None /\ fr_direction f = None /\ link_type f = link /\ captured_length f <= snap_len /\
  exists t, fr_timestamp f = Some t /\ is_u32 seconds /\
    match precision with
    | Microseconds => t = seconds * 1000000000 + fraction * 1000 /\ 0 <= fraction < 1000000
    | Nanoseconds => t = seconds * 1000000000 + fraction /\ 0 <= fraction < 1000000000
    end.
Proof.
  unfold validate_pcap_frame. destruct (fr_interface f), (fr_direction f); try done. cbn [is_some].
  destruct (Z.eqb_spec (link_type f) link); [|done]. cbn [negb]. destruct (Z.ltb_spec snap_len (captured_length f)); [done|].
  destruct (fr_timestamp f) as [t|]; [|done]. cbn [ok_or]. rewrite Ok_bind. destruct (Z.ltb_spec t 0); [done|].
  destruct (Z.ltb_spec u32_max (t / 1000000000)); [done|]. pose proof (Z.div_mod t 1000000000 ltac:(lia)).
  pose proof (Z.mod_pos_bound t 1000000000 ltac:(lia)). pose proof (Z.div_pos t 1000000000 ltac:(lia) ltac:(lia)). intros E.
  do 4 (split; [done|]). exists t. split; [done|]. destruct precision.
  - destruct (Z.eqb_spec (t mod 1000000000 mod 1000) 0) as [Em|]; [|done]. injection E as <- <-.
    pose proof (Z.div_mod (t mod 1000000000) 1000 ltac:(lia)). unfold is_u32. split; [lia|]. split; [lia|].
    split; [apply Z.div_pos; lia|apply Z.div_lt_upper_bound; lia].
  - injection E as <- <-. unfold is_u32. lia.
Qed.

Section classic.
Context (alloc : capture_allocator) (alloc_ok : forall kind n, alloc kind n = true).
Context (e : Endianness) (precision : TimestampPrecision) (snap_len link : Z).

Definition classic_state : PcapState := mkPcapState e precision snap_len link.

(** The record a frame is read back as. *)
Definition classic_record (f : Frame) (raw : bytes) : CaptureRecord :=
  mkCaptureRecord (KindPacket BlockClassic None None []) (Some f) Pcap raw.

Lemma pcap_record_eq f seconds fraction :
  frame_wf f -> validate_pcap_frame f precision snap_len link = Ok (seconds, fraction) ->
  pcap_record classic_state seconds fraction (captured_length f) (original_length f) (pcap_frame_bytes e seconds fraction f) =
  Ok (classic_record f (pcap_frame_bytes e seconds fraction f)).
Proof using.
  intros Hf Hv. apply validate_pcap_frame_Ok in Hv as (Hi & Hd & Hl & _ & t & Ht & Hs & Hfr).
  pose proof Hf as (_ & _ & _ & Htime & _). specialize (Htime t Ht). apply frame_wf_lengths in Hf as (Hc & Ho & Hco & Hz).
  unfold pcap_record, is_u32, u32_max in *. cbn [classic_state ps_precision ps_link_type].
  assert (exists n, match precision with Microseconds => expect (E := CaptureError) (checked_mul 4294967295 fraction 1000)
    | Nanoseconds => Ok fraction end = Ok n /\ 0 <= n < 1000000000 /\ t = seconds * 1000000000 + n) as (n & Hn & Hb & Et).
  { destruct precision; [|eexists; split; [done|lia]]. rewrite checked_mul_ok by lia. eexists. split; [done|lia]. }
  unfold u32_max. rewrite Hn, Ok_bind, duration_ok by (unfold u64_max; lia). rewrite Ok_bind, <- Et, Htime. cbn [ok_or]. rewrite Ok_bind.
  unfold pcap_frame_bytes, PCAP_RECORD_HEADER_LEN. set (ws := words e _).
  assert (zlen ws = 16) as L by (subst ws; by rewrite zlen_words).
  rewrite index_range_ok by (rewrite ?zlen_app; lia). rewrite Ok_bind, zslice_skip by (rewrite ?zlen_app; lia).
  rewrite L, zlen_app, L, zslice_all by lia. unfold try_with_optional_timestamp. cbn [ln_captured ln_original].
  rewrite Hz, Z.eqb_refl, (proj2 (Z.ltb_ge _ _)) by lia. cbn. unfold classic_record. destruct f. cbn in *. by subst.
Qed.

(** Reading a written record gives the frame. *)
Lemma read_classic_record f seconds fraction max_size source rest :
  frame_wf f -> captured_length f <= max_size -> validate_pcap_frame f precision snap_len link = Ok (seconds, fraction) ->
  delivers source (pcap_frame_bytes e seconds fraction f ++ rest) ->
  exists source', read_next_pcap_record alloc classic_state max_size source =
    (Ok (Some (classic_record f (pcap_frame_bytes e seconds fraction f))), source') /\ delivers source' rest.
Proof using alloc_ok.
  intros Hf Hm Hv Hd. pose proof (validate_pcap_frame_Ok _ _ _ _ _ _ Hv) as (_ & _ & _ & Hsnap & t & _ & Hs & Hfr).
  pose proof (frame_wf_lengths f Hf) as (Hc & Ho & Hco & Hz). unfold read_next_pcap_record.
  set (vs := [seconds; fraction; captured_length f; original_length f]).
  assert (pcap_frame_bytes e seconds fraction f = words e vs ++ frame_bytes f) as Eb by done. rewrite Eb, <- app_assoc in Hd.
  destruct (read_exact_or_eof_delivers source (words e vs) (frame_bytes f ++ rest) 16 "pcap packet header" Hd) as (s1 & E1 & Hd1); [by rewrite zlen_words|].
  rewrite (stm_bind_eq _ _ _ _ _ E1). cbn [classic_state ps_endianness ps_precision ps_snap_len].
  assert (is_u32 fraction) as Hfu by (unfold is_u32, u32_max; destruct precision; lia).
  rewrite (lift_bind_eq _ _ _ seconds) by (by apply (decode_words e vs 0)).
  rewrite (lift_bind_eq _ _ _ fraction) by (by apply (decode_words e vs 1)).
  rewrite (lift_bind_eq _ _ _ (captured_length f)) by (by apply (decode_words e vs 2)).
  rewrite (lift_bind_eq _ _ _ (original_length f)) by (by apply (decode_words e vs 3)).
  rewrite (proj2 (Z.leb_gt (match precision with Microseconds => 1000000 | Nanoseconds => 1000000000 end) fraction)) by (destruct precision; lia).
  rewrite (lift_bind_eq _ _ _ tt); [|unfold validate_declared_lengths; by rewrite !(proj2 (Z.ltb_ge _ _)) by lia].
  rewrite (proj2 (Z.ltb_ge _ _)) by lia. rewrite (lift_bind_eq _ _ _ tt) by (unfold try_reserve; by rewrite alloc_ok).
  destruct (read_exact_append_delivers alloc (words e vs) (saturating_add usize_max PCAP_RECORD_HEADER_LEN (captured_length f)) s1 (frame_bytes f) rest
    (captured_length f) "pcap packet data" Hd1 Hz (alloc_ok _ _)) as (s2 & E2 & Hd2).
  rewrite (stm_bind_eq _ _ _ _ _ E2). rewrite <- Eb. rewrite (lift_bind_eq _ _ _ _ (pcap_record_eq f seconds fraction Hf Hv)).
  by exists s2.
Qed.

(** The frames and the bytes they were written as. *)
Inductive classic_encodes (max_size : Z) : list Frame -> bytes -> Prop :=
| classic_none : classic_encodes max_size [] []
| classic_one f frames seconds fraction data :
    frame_wf f -> captured_length f <= max_size -> validate_pcap_frame f precision snap_len link = Ok (seconds, fraction) ->
    classic_encodes max_size frames data ->
    classic_encodes max_size (f :: frames) (pcap_frame_bytes e seconds fraction f ++ data).

(** What writing frames appends. *)
Lemma write_frames_classic frames : forall w w', Forall frame_wf frames -> writer_wf w ->
  wr_state w = WriterPcap e precision snap_len link -> write_frames frames w = (Ok tt, w') ->
  exists data, sink_bytes (wr_inner w') = sink_bytes (wr_inner w) ++ data /\ classic_encodes (wr_max_size w) frames data.
Proof using.
  induction frames as [|f frames IH]; intros w w' Hf Hw Es E; cbn [write_frames] in E.
  - injection E as <-. exists []. rewrite app_nil_r. split; [done|constructor].
  - apply Forall_cons_1 in Hf as [Hf Hfs]. inv_stm E. destruct a. destruct (prepare_frame w f) as [plan|err|] eqn:Ep;
      [|unfold write_frame, mbind, stm_bind in Ha; by rewrite Ep in Ha..].
    destruct (write_frame_spec w f plan Hw Hf Ep) as [Hs _]. rewrite Ha in Hs. destruct Hs as (sk & Hb & ->).
    apply prepare_frame_planned in Ep as Hpl; [|done..]. pose proof Hpl as (_ & Hm & _ & Hp). rewrite Es in Hp.
    destruct Hp as (seconds & fraction & Ee & Hv & _). rewrite Ee in Hb, E. rewrite Es in E. cbn [after_encoding encoding_bytes] in Hb, E.
    unfold Writer_endianness in Hb. rewrite Es in Hb.
    eapply IH in E as (data & Hd & Henc); [|done| |done].
    + exists (pcap_frame_bytes e seconds fraction f ++ data). cbn [wr_inner wr_max_size] in *. rewrite Hd, Hb, <- app_assoc. split; [done|].
      by constructor.
    + eapply (writer_wf_after w); [done|exact Hpl|done|]. cbn. left. by rewrite Es.
Qed.

(** The reader at the start of the records. *)
Lemma collect_classic max_size frames data : classic_encodes max_size frames data -> forall header interfaces fcs limits source fuel,
  max_size <= rl_max_size limits -> delivers source data ->
  exists r', collect alloc (S (length frames)) (S fuel)
    (mkReader source (ReaderPcap classic_state) header interfaces fcs limits false) = (Ok frames, r') /\
    rd_finished r' = true /\ rd_interfaces r' = interfaces.
Proof using alloc_ok.
  induction 1 as [|f frames seconds fraction data Hf Hm Hv _ IH]; intros header interfaces fcs limits source fuel Hl Hd.
  - destruct (read_exact_or_eof_end source 16 "pcap packet header" Hd) as (s' & E & _); [lia|].
    rewrite (collect_end _ _ _ _ (mkReader s' (ReaderPcap classic_state) header interfaces fcs limits false)); [by eexists|done|].
    unfold read_state. cbn [rd_state rd_limits rd_inner]. unfold read_next_pcap_record. by rewrite (stm_bind_eq _ _ _ _ _ E).
  - destruct (read_classic_record f seconds fraction (rl_max_size limits) source data Hf ltac:(lia) Hv Hd) as (s' & E & Hd').
    destruct (IH header interfaces (fcs || false) limits s' fuel Hl Hd') as (r' & Er & H').
    exists r'. split; [|done]. erewrite collect_frame; [|done| |].
    2: { unfold read_state. cbn [rd_state rd_limits rd_inner]. rewrite E. reflexivity. }
    2: done.
    change (length (f :: frames)) with (S (length frames)). unfold after_record. cbn [rd_inner rd_state rd_header rd_interfaces rd_declares_fcs rd_limits rd_finished is_none is_some negb].
    change (record_declares_fcs _) with false. by rewrite Er.
Qed.
End classic.

(** ** The global header *)

Lemma pcap_layout_magic e precision : pcap_layout (pcap_magic e precision) = Some (e, precision).
Proof. by destruct e, precision. Qed.

Lemma zlen_pcap_magic e precision : zlen (pcap_magic e precision) = 4.
Proof. by destruct e, precision. Qed.

(** Fields of a concatenation, one after the other. *)
Ltac field := repeat first
  [ rewrite zslice_skip by (rewrite ?zlen_to_bytes; lia)
  | rewrite zlen_to_bytes
  | rewrite zslice_here by (by rewrite zlen_to_bytes)
  | rewrite zslice_all by (by rewrite zlen_to_bytes) ].

Lemma read_classic_header alloc limits e precision snap_len link source rest :
  0 < snap_len <= u32_max -> 0 <= link <= u16_max -> 1 <= rl_max_total_interfaces limits ->
  delivers source (pcap_header_bytes e precision snap_len link ++ rest) ->
  exists source' header fcs, read_header alloc limits source =
    (Ok (mkReader source' (ReaderPcap (classic_state e precision snap_len link)) (HeaderPcap header)
           [mkInterface link snap_len (precision_resolution precision) 0] fcs limits false), source') /\
    delivers source' rest.
Proof.
  intros Hs Hl Ht Hd. unfold pcap_header_bytes in Hd. rewrite <- app_assoc in Hd.
  destruct (read_exact_or_eof_delivers source _ _ 4 "capture magic" Hd (zlen_pcap_magic e precision)) as (s1 & E1 & Hd1).
  set (fields := to_bytes e 2 2 ++ to_bytes e 2 4 ++ to_bytes e 4 0 ++ to_bytes e 4 0 ++ to_bytes e 4 snap_len ++ to_bytes e 4 link) in *.
  destruct (read_exact_counted_delivers s1 fields rest 20 "pcap global header" Hd1) as (s2 & E2 & Hd2).
  { subst fields. by rewrite !zlen_app, !zlen_to_bytes. }
  exists s2. unfold read_header. rewrite (stm_bind_eq _ _ _ _ _ E1). rewrite (lift_bind_eq _ _ _ (pcap_magic e precision)) by done.
  assert (bytes_eqb (pcap_magic e precision) PCAPNG_SECTION_HEADER = false) as -> by (by destruct e, precision).
  rewrite pcap_layout_magic. unfold u16_max, u32_max in *.
  assert (read_pcap_header (pcap_magic e precision) e precision s1 =
    (Ok (classic_state e precision snap_len link,
         mkPcapHeader e (precision_resolution precision) snap_len link (pcap_magic e precision ++ fields)), s2)) as Er.
  { unfold read_pcap_header. rewrite (stm_bind_eq _ _ _ _ _ E2). unfold lift. f_equal. subst fields.
    field. rewrite (decode_u16_exact e 2) by lia. rewrite Ok_bind. rewrite (decode_u16_exact e 4) by lia. rewrite Ok_bind. cbn [Z.eqb Pos.eqb andb negb].
    rewrite (decode_u32_exact e snap_len) by (unfold u32_max; lia). rewrite Ok_bind. rewrite (proj2 (Z.eqb_neq _ _)) by lia.
    rewrite decode_u32_exact by (unfold u32_max; lia). rewrite Ok_bind.
    change 65535 with (Z.ones 16). rewrite Z.land_ones, Z.mod_small by lia. done. }
  do 2 eexists. split; [|exact Hd2]. rewrite (stm_bind_eq _ _ _ (ReaderPcap (classic_state e precision snap_len link), HeaderPcap
    (mkPcapHeader e (precision_resolution precision) snap_len link (pcap_magic e precision ++ fields))) s2).
  - cbn [PcapState_interface classic_state]. change (zlen [_]) with 1. rewrite (proj2 (Z.ltb_ge _ _)) by lia. reflexivity.
  - by rewrite (stm_bind_eq _ _ _ _ _ Er).
Qed.

(** The writer a caller starts with. *)
Lemma pcap_with_options_Ok script link options w :
  0 <= link -> 0 <= po_snap_len options -> 0 <= po_max_size options <= usize_max ->
  pcap_with_options (mkSink [] script) link options = Ok w ->
  exists precision, writer_wf w /\
    wr_state w = WriterPcap (po_endianness options) precision (po_snap_len options) link /\ wr_max_size w = po_max_size options /\
    0 < po_snap_len options <= u32_max /\ link <= u16_max /\
    sink_bytes (wr_inner w) = pcap_header_bytes (po_endianness options) precision (po_snap_len options) link.
Proof.
  intros Hl Hs Hm H. unfold pcap_with_options in H. inv_ok H. destruct (Z.ltb_spec u16_max link); [done|]. inv_ok H.
  inv_ok H. unfold usize_to_u32_limit in Ha1. destruct (Z.leb_spec (po_snap_len options) u32_max); simplify_eq.
  destruct (Z.eqb_spec (po_snap_len options) 0); [done|]. unfold given_to in H.
  destruct (write_pcap_header_emits (po_endianness options) a0 (po_snap_len options) link) as [He _].
  specialize (He (mkSink [] script)). destruct (write_pcap_header _ _ _ _ _) as [[]s]; simplify_eq. cbn in He.
  exists a0. unfold writer_wf. cbn. split_and!; try done; lia.
Qed.

(** C11: A classic capture reads back.  Whatever frames a writer has accepted, in
    either byte order and at either precision, over a stream that takes the bytes
    in any pieces, a reader whose limits admit them opens the result and returns
    exactly those frames, with their times, lengths and link type, and then the
    end, over any stream that delivers the bytes in any pieces and with
    interruptions anywhere. *)
Theorem pcap_roundtrip (alloc : capture_allocator) (script : list write_event) (link : Z) (options : PcapOptions)
  (frames : list Frame) (w w' : Writer) (limits : ReaderLimits) (source : Source) :
  0 <= link -> 0 <= po_snap_len options -> 0 <= po_max_size options <= usize_max -> Forall frame_wf frames ->
  (forall kind n, alloc kind n = true) -> po_max_size options <= rl_max_size limits -> 1 <= rl_max_total_interfaces limits ->
  pcap_with_options (mkSink [] script) link options = Ok w ->
  write_frames frames w = (Ok tt, w') ->
  delivers source (sink_bytes (wr_inner w')) ->
  exists r rest r', Reader_with_control alloc limits None None source = (Ok r, rest) /\
    Reader_format r = Pcap /\ Reader_endianness r = po_endianness options /\
    collect alloc (S (length frames)) 1 r = (Ok frames, r') /\ rd_finished r' = true.
Proof.
  intros Hl Hs Hm Hf Halloc Hsize Htotal Hw Hwf Hd.
  apply pcap_with_options_Ok in Hw as (precision & Hwf0 & Es & Em & Hsn & Hlk & Hb); [|done..].
  destruct (write_frames_classic _ _ _ _ _ _ _ Hf Hwf0 Es Hwf) as (data & Hdata & Henc). rewrite Hdata, Hb in Hd.
  destruct (read_classic_header alloc limits _ precision _ link source data Hsn (conj Hl Hlk) Htotal Hd) as (s1 & header & fcs & E1 & Hd1).
  rewrite Em in Henc.
  destruct (collect_classic alloc Halloc _ _ _ _ _ _ _ Henc (HeaderPcap header) [mkInterface link (po_snap_len options) (precision_resolution precision) 0] fcs limits s1 0 Hsize Hd1)
    as (r' & Ec & Hfin & _).
  do 3 eexists. unfold Reader_with_control. rewrite E1. by split_and!.
Qed.

(** ** Witness *)

Definition demo_pcap_frames : list Frame :=
  [mkFrame (Some 1700000000123456789) 3 60 1 None None [1; 2; 3]; mkFrame (Some 5) 0 0 1 None None []].

Definition demo_pcap_options : PcapOptions := mkPcapOptions Big (Decimal 9) 128 128 StreamLimits_default.

Definition demo_pcap_script : list write_event := [Accept 3; WriteFails (SimpleError KindInterrupted); Accept 7].

Definition demo_pcap_writer : Writer :=
  match pcap_with_options (mkSink [] demo_pcap_script) 1 demo_pcap_options with Ok w => w | _ => demo_writer [] end.

Definition demo_pcap_written : Writer := (write_frames demo_pcap_frames demo_pcap_writer).2.

Lemma pcap_roundtrip_witness : exists r rest r',
  Reader_with_control (fun _ _ => true) ReaderLimits_default None None [Data (sink_bytes (wr_inner demo_pcap_written))] = (Ok r, rest) /\
  Reader_format r = Pcap /\ Reader_endianness r = Big /\
  collect (fun _ _ => true) 3 1 r = (Ok demo_pcap_frames, r') /\ rd_finished r' = true.
Proof.
  apply (pcap_roundtrip (fun _ _ => true) demo_pcap_script 1 demo_pcap_options demo_pcap_frames demo_pcap_writer demo_pcap_written);
    [lia|cbn; lia|cbn; unfold usize_max, u64_max; lia| |done|by vm_compute|by vm_compute|vm_compute; reflexivity|vm_compute; reflexivity|].
  - assert (forall f, f ∈ demo_pcap_frames -> frame_wf f) as H; [|by apply Forall_forall].
    intros f Hf. unfold demo_pcap_frames in Hf. rewrite !elem_of_cons, elem_of_nil in Hf.
    destruct Hf as [->|[->|[]]]; unfold frame_wf, frame_ok, is_u32, u32_max; cbn; split_and!; try lia; try done; by intros t [= <-].
  - apply delivers_one. by vm_compute.
Defined.
