(* ===== verification/CaptureDecode.v ===== *)
(** * Capture files: written blocks decode

    Option lists, interface descriptions, packets and block frames, decoded from
    the bytes the encoders emit. *)

From stdpp Require Import base tactics option list numbers strings.
From Stdlib Require Import ZArith Lia.
From S2P Require Import Prelude Checksum Ordered Flow Headers HeadersProofs Frame Transform TransformProofs IpRanges.
From S2P Require Import CaptureWire CaptureRead CaptureWrite CaptureStreams CaptureTime CaptureEncode CaptureWriter CaptureRoundTrip.

(** ** Options *)

(** The marker that ends a list of options. *)
Definition end_of_options (e : Endianness) : bytes := to_bytes e 2 PCAPNG_OPTION_END ++ to_bytes e 2 0.

Lemma decode_end_of_options e : decode_u16 e (end_of_options e) = Ok 0 /\ decode_u16 e (zdrop 2 (end_of_options e)) = Ok 0.
Proof. by destruct e. Qed.

Lemma zslice_mid {A} (pre a post : list A) i j : i = zlen pre -> j = zlen pre + zlen a -> zslice i j (pre ++ a ++ post) = a.
Proof.
  intros -> ->. pose proof (zlen_nonneg a). rewrite zslice_skip by lia. rewrite Z.sub_diag. apply zslice_here. lia.
Qed.

Lemma get_range_mid {A} (pre a post : list A) i j : i = zlen pre -> j = zlen pre + zlen a -> get_range (pre ++ a ++ post) i j = Some a.
Proof.
  intros Hi Hj. pose proof (zlen_nonneg pre). pose proof (zlen_nonneg a). pose proof (zlen_nonneg post). unfold get_range.
  rewrite !zlen_app, !(proj2 (Z.leb_le _ _)) by lia. cbn [andb]. by rewrite zslice_mid.
Qed.

Lemma index_range_mid {A} (pre a post : list A) i j : i = zlen pre -> j = zlen pre + zlen a ->
  index_range (E := CaptureError) (pre ++ a ++ post) i j = Ok a.
Proof. intros. unfold index_range. by rewrite get_range_mid. Qed.

(** The option at an offset is parsed and the loop goes on behind it. *)
Lemma parse_option_step e context max_options fuel pre o post parsed :
  option_wf o -> zlen parsed < max_options -> zlen (pre ++ option_bytes e o ++ post) <= u32_max ->
  parse_options_loop (S fuel) (pre ++ option_bytes e o ++ post) e context max_options (zlen pre) parsed =
  parse_options_loop fuel ((pre ++ option_bytes e o) ++ post) e context max_options (zlen (pre ++ option_bytes e o))
    (parsed ++ [o]).
Proof.
  intros (Hc & Hv) Hn Hu. rewrite <- app_assoc. cbn [parse_options_loop]. set (all := pre ++ option_bytes e o ++ post) in *.
  pose proof (zlen_nonneg pre). pose proof (zlen_nonneg post). pose proof (zlen_nonneg (opt_value o)).
  pose proof (padded_bounds (zlen (opt_value o))). pose proof (zlen_option_bytes e o) as Lo.
  assert (zlen all = zlen pre + (4 + padded (zlen (opt_value o))) + zlen post) as La by (subst all; rewrite !zlen_app, Lo; lia).
  set (head := to_bytes e 2 (opt_code o) ++ to_bytes e 2 (zlen (opt_value o))).
  assert (zlen head = 4) as Lh by (subst head; by rewrite zlen_app, !zlen_to_bytes).
  assert (all = pre ++ head ++ (opt_value o ++ padding (zlen (opt_value o)) ++ post)) as E1
    by (subst all head; unfold option_bytes; by rewrite <- !app_assoc).
  assert (all = (pre ++ head) ++ opt_value o ++ (padding (zlen (opt_value o)) ++ post)) as E2 by (rewrite E1; by rewrite <- !app_assoc).
  unfold u16_max, u32_max, usize_max, u64_max in *.
  rewrite (proj2 (Z.leb_gt _ _)) by lia. rewrite checked_add_ok by (unfold usize_max, u64_max; lia). cbn [ok_or]. rewrite Ok_bind.
  rewrite E1, get_range_mid, <- E1 by lia. cbn [ok_or]. rewrite Ok_bind. subst head.
  rewrite decode_u16_to by lia. rewrite Ok_bind.
  assert (zdrop 2 (to_bytes e 2 (opt_code o) ++ to_bytes e 2 (zlen (opt_value o))) = to_bytes e 2 (zlen (opt_value o))) as ->.
  { unfold zdrop. apply drop_app_length'. pose proof (zlen_to_bytes e 2 (opt_code o)). unfold zlen in *. lia. }
  rewrite decode_u16_exact by lia. rewrite Ok_bind. unfold PCAPNG_OPTION_END. rewrite (proj2 (Z.eqb_neq _ _)) by lia.
  rewrite align_to_usize_ok by (unfold u32_max; lia). rewrite Ok_bind.
  rewrite checked_add_ok by (unfold usize_max, u64_max; lia). cbn [ok_or]. rewrite Ok_bind.
  rewrite (proj2 (Z.ltb_ge _ _)) by lia. rewrite (proj2 (Z.leb_gt _ _)) by lia. rewrite add_u_ok by (unfold u64_max; lia). rewrite Ok_bind.
  rewrite E2, index_range_mid, <- E2 by (rewrite zlen_app, Lh; lia). rewrite Ok_bind. f_equal; [rewrite zlen_app, Lo; lia|].
  by destruct o.
Qed.

Lemma parse_options_loop_bytes e context max_options options : forall fuel pre fin parsed,
  Forall option_wf options -> zlen parsed + zlen options <= max_options -> fin = [] \/ fin = end_of_options e ->
  zlen (pre ++ options_bytes e options ++ fin) <= u32_max -> (length options < fuel)%nat ->
  parse_options_loop fuel (pre ++ options_bytes e options ++ fin) e context max_options (zlen pre) parsed = Ok (parsed ++ options).
Proof.
  induction options as [|o options IH]; intros fuel pre fin parsed Ho Hn Hfin Hu Hfuel; (destruct fuel as [|fuel]; [cbn in Hfuel; lia|]).
  - unfold options_bytes. cbn [map concat app]. rewrite app_nil_r. cbn [parse_options_loop]. destruct Hfin as [->| ->].
    + rewrite app_nil_r, (proj2 (Z.leb_le _ _)) by lia. done.
    + assert (zlen (end_of_options e) = 4) as L by (unfold end_of_options; by rewrite zlen_app, !zlen_to_bytes).
      change (options_bytes e [] ++ end_of_options e) with (end_of_options e) in Hu.
      pose proof (zlen_nonneg pre). rewrite zlen_app, L in *. unfold u32_max in Hu. rewrite (proj2 (Z.leb_gt _ _)) by lia.
      rewrite checked_add_ok by (unfold usize_max, u64_max; lia). cbn [ok_or]. rewrite Ok_bind.
      rewrite <- (app_nil_r (end_of_options e)) at 1. rewrite get_range_mid by lia. cbn [ok_or]. rewrite Ok_bind.
      destruct (decode_end_of_options e) as [-> ->]. rewrite !Ok_bind. cbn [Z.eqb PCAPNG_OPTION_END negb].
      rewrite <- (app_nil_r (pre ++ end_of_options e)). rewrite <- (app_nil_r ((pre ++ end_of_options e) ++ [])).
      rewrite <- (app_assoc _ [] []). rewrite index_range_mid by (rewrite ?zlen_app, L, ?zlen_nil; lia). done.
  - unfold options_bytes in *. cbn [map concat] in *. rewrite <- app_assoc in *. apply Forall_cons_1 in Ho as [Ho Hos]. rewrite zlen_cons in Hn.
    pose proof (zlen_nonneg options). rewrite parse_option_step by (done || lia). cbn in Hfuel. rewrite IH; [by rewrite <- app_assoc|done| |done| |lia].
    + rewrite zlen_app. change (zlen [o]) with 1. lia.
    + by rewrite <- app_assoc.
Qed.

Lemma options_length_bytes e options : (length options <= length (options_bytes e options))%nat.
Proof.
  unfold options_bytes. induction options as [|o options IH]; [done|]. cbn [map concat]. rewrite length_app. cbn [length].
  pose proof (zlen_option_bytes e o) as L. pose proof (padded_bounds (zlen (opt_value o))). pose proof (zlen_nonneg (opt_value o)).
  unfold zlen in *. lia.
Qed.

Lemma parse_options_bytes e context max_options options fin :
  Forall option_wf options -> zlen options <= max_options -> fin = [] \/ fin = end_of_options e ->
  zlen (options_bytes e options ++ fin) <= u32_max ->
  parse_options (options_bytes e options ++ fin) e context max_options = Ok options.
Proof.
  intros Ho Hn Hfin Hu. unfold parse_options.
  apply (parse_options_loop_bytes e context max_options options _ [] fin []); try done.
  pose proof (options_length_bytes e options). unfold zlen. rewrite length_app. lia.
Qed.

(** ** Interface descriptions *)

Lemma from_to_tsresol r tsresol : resolution_ok r -> to_tsresol r = Ok tsresol -> from_tsresol tsresol = r /\ 0 <= tsresol < 256.
Proof.
  unfold to_tsresol, from_tsresol, resolution_ok. assert (forall x, 0 <= x <= 127 ->
    (Z.land x 128 =? 0) = true /\ (Z.land (Z.lor x 128) 128 =? 0) = false /\ Z.land (Z.lor x 128) 127 = x /\ Z.lor x 128 < 256) as H.
  { intros x Hx. assert (forallb (fun x => (Z.land x 128 =? 0) && negb (Z.land (Z.lor x 128) 128 =? 0) && (Z.land (Z.lor x 128) 127 =? x)
      && (Z.lor x 128 <? 256)) (map Z.of_nat (seq 0 128)) = true) as Hall by (vm_compute; reflexivity).
    rewrite forallb_forall in Hall. specialize (Hall x). rewrite !andb_true_iff, negb_true_iff, Z.eqb_eq, Z.eqb_eq, Z.ltb_lt in Hall.
    destruct Hall as [[[H1 H2] H3] H4]; [|by rewrite H1]. apply in_map_iff. exists (Z.to_nat x). split; [lia|]. apply in_seq. lia. }
  destruct r as [x|x]; intros Hr; destruct (Z.leb_spec x 127); intros [= <-]; destruct (H x ltac:(lia)) as (H1 & H2 & H3 & H4).
  - rewrite H1. split; [done|lia].
  - rewrite H2, H3. split; [done|]. assert (0 <= Z.lor x 128) by (apply Z.lor_nonneg; lia). lia.
Qed.

(** The options a description carries for itself. *)
Definition own_options (e : Endianness) (i : Interface) (tsresol : Z) : list PcapNgOption :=
  mkPcapNgOption PCAPNG_OPTION_IF_TSRESOL [tsresol] ::
  (if if_timestamp_offset i =? 0 then []
   else [mkPcapNgOption PCAPNG_OPTION_IF_TSOFFSET (to_bytes e 8 (if_timestamp_offset i mod 18446744073709551616))]).

Lemma own_options_wf e i tsresol : Forall option_wf (own_options e i tsresol).
Proof.
  unfold own_options, option_wf, u16_max. constructor; [cbn; change (zlen [tsresol]) with 1; unfold PCAPNG_OPTION_IF_TSRESOL; lia|].
  destruct (_ =? _); [constructor|]. constructor; [|constructor]. cbn. rewrite zlen_to_bytes. unfold PCAPNG_OPTION_IF_TSOFFSET. lia.
Qed.

Lemma description_bytes_eq e i options tsresol : description_bytes e i options tsresol =
  to_bytes e 2 (if_link_type i) ++ to_bytes e 2 0 ++ to_bytes e 4 (if_snap_len i) ++
  options_bytes e (own_options e i tsresol ++ options) ++ end_of_options e.
Proof.
  unfold description_bytes, own_options, options_bytes, end_of_options. rewrite map_app, concat_app.
  destruct (if_timestamp_offset i =? 0); cbn [map concat]; unfold option_bytes; cbn [opt_code opt_value];
    rewrite ?zlen_to_bytes; change (zlen [tsresol]) with 1; cbn [padding];
    change (padding 1) with [0; 0; 0]; change (padding (Z.of_nat 8)) with (@nil Z); rewrite ?app_nil_r, <- ?app_assoc; done.
Qed.

(** A custom option never has a code of the block itself. *)
Lemma filter_custom code options : (forall o, o ∈ options -> opt_code o <> code) ->
  List.filter (fun o => opt_code o =? code) options = [].
Proof.
  induction options as [|o options IH]; intros H; [done|]. cbn. rewrite (proj2 (Z.eqb_neq _ _)).
  - apply IH. intros o' ?. apply H. by right.
  - apply H. by left.
Qed.

Lemma custom_codes code options : Forall custom_option options -> code = PCAPNG_OPTION_IF_TSRESOL \/ code = PCAPNG_OPTION_IF_TSOFFSET ->
  List.filter (fun o => opt_code o =? code) options = [].
Proof.
  intros Hc Hcode. apply filter_custom. intros o Ho. rewrite Forall_forall in Hc. specialize (Hc o Ho). destruct Hc as (_ & H1 & H2).
  by destruct Hcode as [-> | ->].
Qed.

Lemma unique_own e i tsresol options duplicate : Forall custom_option options ->
  unique_option (own_options e i tsresol ++ options) PCAPNG_OPTION_IF_TSRESOL duplicate = Ok (Some [tsresol]) /\
  unique_option (own_options e i tsresol ++ options) PCAPNG_OPTION_IF_TSOFFSET duplicate =
    Ok (if if_timestamp_offset i =? 0 then None else Some (to_bytes e 8 (if_timestamp_offset i mod 18446744073709551616))).
Proof.
  intros Hc. unfold unique_option. rewrite !List.filter_app, !(custom_codes _ options), !app_nil_r by (done || (by left) || (by right)).
  unfold own_options. by destruct (if_timestamp_offset i =? 0).
Qed.

Lemma parse_description e i options tsresol max_options :
  interface_wf i -> Forall custom_option options -> to_tsresol (if_timestamp_resolution i) = Ok tsresol ->
  zlen options + 2 <= max_options -> description_size i options <= u32_max ->
  parse_interface_description (description_bytes e i options tsresol) e max_options =
  Ok (i, own_options e i tsresol ++ options).
Proof.
  intros Hi Hc Hr Hmax Hsize. pose proof (zlen_description_bytes e i options tsresol) as Ld. pose proof (options_size_nonneg options).
  assert (32 <= description_size i options) as H32 by (unfold description_size, interface_description_base_length; destruct (_ =? _); lia).
  pose proof (interface_wf_resolution i Hi) as Hres. destruct Hi as (Hlink & Hsnap & _ & Hoff). unfold u16_max, u32_max in *.
  unfold parse_interface_description. rewrite (proj2 (Z.ltb_ge _ _)) by lia.
  rewrite description_bytes_eq. set (own := own_options e i tsresol). set (tail := options_bytes e (own ++ options) ++ end_of_options e).
  pose proof (zlen_to_bytes e 2 (if_link_type i)) as L1. pose proof (zlen_to_bytes e 2 0) as L2.
  pose proof (zlen_to_bytes e 4 (if_snap_len i)) as L3.
  assert (12 + (8 + zlen tail) = description_size i options) as Lt.
  { rewrite <- Ld, description_bytes_eq. fold own. fold tail. rewrite !zlen_app, L1, L2, L3. lia. }
  pose proof (zlen_nonneg tail). rewrite decode_u16_to by lia. rewrite Ok_bind.
  rewrite (app_assoc (to_bytes e 2 (if_link_type i))).
  rewrite (index_range_mid (to_bytes e 2 (if_link_type i) ++ to_bytes e 2 0) (to_bytes e 4 (if_snap_len i)) tail 4 8) by (rewrite ?zlen_app; lia).
  rewrite Ok_bind, decode_u32_exact by exact Hsnap. rewrite Ok_bind.
  rewrite (app_assoc _ (to_bytes e 4 (if_snap_len i)) tail). set (front := (_ ++ _) ++ to_bytes e 4 (if_snap_len i)).
  assert (zlen front = 8) as Lf by (subst front; rewrite !zlen_app; lia).
  rewrite <- (app_nil_r tail) at 1. rewrite (index_range_mid front tail []) by (rewrite ?zlen_app; lia). rewrite Ok_bind.
  assert (zlen own <= 2) as Lown by (subst own; unfold own_options; destruct (_ =? _); rewrite ?zlen_cons, ?zlen_nil; lia).
  subst tail. rewrite parse_options_bytes; [| | |by right|unfold u32_max; lia].
  2: { apply Forall_app. split; [apply own_options_wf|by apply custom_options_wf]. }
  2: { rewrite zlen_app. lia. }
  rewrite Ok_bind. destruct (from_to_tsresol _ _ Hres Hr) as [Hfrom _]. subst own.
  rewrite (proj1 (unique_own e i tsresol options "if_tsresol option appears more than once" Hc)). rewrite Ok_bind, Ok_bind.
  rewrite (proj2 (unique_own e i tsresol options "if_tsoffset option appears more than once" Hc)). rewrite Ok_bind.
  destruct (Z.eqb_spec (if_timestamp_offset i) 0) as [E0|E0].
  - rewrite Ok_bind, Hfrom. destruct i. cbn in *. by subst.
  - rewrite zlen_to_bytes. change (Z.of_nat 8 =? 8) with true. cbv iota. rewrite decode_i64_exact by done. rewrite Ok_bind, Hfrom. by destruct i.
Qed.

(** ** Packets *)

(** The options of a written packet. *)
Definition packet_options (e : Endianness) (direction : option Direction) : list PcapNgOption :=
  match direction with
  | Some d => [mkPcapNgOption PCAPNG_OPTION_EPB_FLAGS (to_bytes e 4 (direction_flags d))]
  | None => []
  end.

Lemma packet_options_wf e direction : Forall option_wf (packet_options e direction).
Proof.
  destruct direction as [d|]; [|constructor]. constructor; [|constructor]. unfold option_wf, u16_max, PCAPNG_OPTION_EPB_FLAGS. cbn. rewrite zlen_to_bytes. lia.
Qed.

Lemma packet_option_bytes_eq e direction : exists fin,
  packet_option_bytes e direction = options_bytes e (packet_options e direction) ++ fin /\ (fin = [] \/ fin = end_of_options e).
Proof.
  destruct direction as [d|]; [exists (end_of_options e)|exists []]; (split; [|tauto]); [|done].
  unfold options_bytes, end_of_options. cbn [packet_options packet_option_bytes map concat]. unfold option_bytes. cbn [opt_code opt_value].
  rewrite zlen_to_bytes. change (padding (Z.of_nat 4)) with (@nil Z). by rewrite !app_nil_r, <- !app_assoc.
Qed.

Lemma packet_direction_eq e direction : packet_direction (packet_options e direction) e = Ok direction.
Proof. by destruct direction as [[]|], e. Qed.

(** The two halves of a timestamp. *)
Lemma ticks_halves ts : 0 <= ts <= u64_max -> Z.lor (Z.shiftl (as_u32 (Z.shiftr ts 32)) 32) (as_u32 ts) = ts.
Proof.
  intros H. unfold as_u32, u64_max in *. rewrite (Z.mod_small (Z.shiftr ts 32)).
  - change 4294967296 with (2 ^ 32). rewrite <- Z.ldiff_ones_r, <- Z.land_ones by lia. apply Z.lor_ldiff_and.
  - rewrite Z.shiftr_div_pow2 by lia. change (2 ^ 32) with 4294967296.
    split; [apply Z.div_pos; lia|apply Z.div_lt_upper_bound; lia].
Qed.

Lemma packet_bytes_eq alloc (pre data post : bytes) first last : (forall kind n, alloc kind n = true) ->
  first = zlen pre -> last = zlen pre + zlen data -> pcapng_packet_bytes alloc (pre ++ data ++ post) first last = Ok data.
Proof.
  intros Ha Hf Hl. unfold pcapng_packet_bytes. rewrite index_range_mid, Ok_bind by done. unfold try_reserve. rewrite Ha.
  by destruct (_ <=? _).
Qed.

(** What the writer has checked of a packet, seen from its reader. *)
Record packet_fits (f : Frame) (interfaces : list Interface) (max_size id ts : Z) (i : Interface) : Prop := {
  pf_frame : frame_wf f;
  pf_id : is_u32 id;
  pf_lookup : zget interfaces id = Some i;
  pf_link : if_link_type i = link_type f;
  pf_interface : interface_wf i;
  pf_own : forall own, fr_interface f = Some own -> id = own;
  pf_snap : if_snap_len i = 0 \/ captured_length f <= if_snap_len i;
  pf_time : exists t, fr_timestamp f = Some t /\ timestamp_to_ticks t (if_timestamp_resolution i) (if_timestamp_offset i) = Ok ts;
  pf_size : 12 + zlen (packet_body Little id ts f) <= max_size;
  pf_u32 : 12 + zlen (packet_body Little id ts f) <= u32_max
}.

Lemma packet_fits_time f interfaces max_size id ts i : packet_fits f interfaces max_size id ts i -> exists t,
  fr_timestamp f = Some t /\ 0 <= ts <= u64_max /\
  timestamp_from_ticks ts (if_timestamp_resolution i) (if_timestamp_offset i) = Ok t.
Proof.
  intros Hp. destruct (pf_time _ _ _ _ _ _ Hp) as (t & Ht & Hts). exists t. split; [done|].
  pose proof (pf_interface _ _ _ _ _ _ Hp) as Hi. pose proof (interface_wf_resolution i Hi) as Hr. destruct Hi as (_ & _ & _ & Ho).
  destruct (pf_frame _ _ _ _ _ _ Hp) as (_ & _ & _ & Htime & _). specialize (Htime t Ht).
  apply to_ticks_iff in Hts as [Hb Htt]; [|done..]. split; [done|]. by apply from_ticks_iff.
Qed.

Lemma packet_body_size e id ts f max_size interfaces i : packet_fits f interfaces max_size id ts i ->
  zlen (packet_body e id ts f) = zlen (packet_body Little id ts f) /\ captured_length f <= max_size.
Proof.
  intros Hp. pose proof (pf_frame _ _ _ _ _ _ Hp) as Hf. pose proof (zlen_packet_body e id ts f Hf).
  pose proof (zlen_packet_body Little id ts f Hf). pose proof (pf_size _ _ _ _ _ _ Hp). pose proof (padded_bounds (captured_length f)).
  split; [lia|]. destruct (is_some (fr_direction f)); lia.
Qed.

Lemma parse_written_packet alloc e f interfaces max_size id ts i max_options :
  (forall kind n, alloc kind n = true) -> packet_fits f interfaces max_size id ts i -> 1 <= max_options ->
  parse_packet alloc (packet_body e id ts f) e interfaces 0 max_size max_options false =
  Ok (mkParsedPacket (with_identity f (Some id) (fr_direction f)) id (packet_options e (fr_direction f))).
Proof.
  intros Ha Hp Hmax. destruct (packet_fits_time _ _ _ _ _ _ Hp) as (t & Ht & Hts & Hfrom).
  destruct (packet_body_size e _ _ _ _ _ _ Hp) as [Hbs Hc]. pose proof (pf_u32 _ _ _ _ _ _ Hp) as Hu. rewrite <- Hbs in Hu. clear Hbs.
  destruct Hp as [Hf Hid Hlook Hlink _ _ Hsnap _ _ _].
  pose proof (zlen_packet_body e id ts f Hf) as Lb. apply frame_wf_lengths in Hf as (Hcap & Horig & Hco & Hz).
  set (vs := [id; as_u32 (Z.shiftr ts 32); as_u32 ts; captured_length f; original_length f]).
  assert (zlen (words e vs) = 20) as Lw by (by rewrite zlen_words).
  set (body := packet_body e id ts f) in *.
  assert (body = words e vs ++ frame_bytes f ++ (padding (captured_length f) ++ packet_option_bytes e (fr_direction f))) as Eb by done.
  assert (forall x, is_u32 (as_u32 x)) as Has by (intros x; unfold is_u32, as_u32, u32_max; pose proof (Z.mod_pos_bound x 4294967296); lia).
  unfold parse_packet. assert (get_range body 0 20 = Some (words e vs)) as -> by (rewrite Eb; apply (get_range_mid []); [done|rewrite zlen_nil; lia]).
  cbn [ok_or]. rewrite Ok_bind. rewrite (decode_words e vs 0 id 0 4) by done. rewrite Ok_bind.
  rewrite (decode_words e vs 1 (as_u32 (Z.shiftr ts 32)) 4 8) by done. rewrite Ok_bind.
  rewrite (decode_words e vs 2 (as_u32 ts) 8 12) by done. rewrite Ok_bind, ticks_halves by done.
  rewrite (decode_words e vs 3 (captured_length f) 12 16) by done. rewrite Ok_bind.
  rewrite (decode_words e vs 4 (original_length f) 16 20) by done. rewrite Ok_bind.
  unfold validate_declared_lengths. rewrite !(proj2 (Z.ltb_ge _ _)) by lia. rewrite Ok_bind, Hlook. cbn [ok_or]. rewrite Ok_bind.
  assert (negb (if_snap_len i =? 0) && (if_snap_len i <? captured_length f) = false) as ->.
  { destruct Hsnap as [->|Hs]; [done|]. by rewrite (proj2 (Z.ltb_ge _ _)), andb_false_r by lia. }
  pose proof (padded_bounds (captured_length f)) as Hpad. unfold is_u32, u32_max in *.
  rewrite align_to_usize_ok, Ok_bind by (unfold u32_max; lia). rewrite (checked_add_ok usize_max 20) by (unfold usize_max, u64_max; lia). cbn [ok_or].
  rewrite Ok_bind. rewrite (proj2 (Z.ltb_ge _ _)) by (destruct (is_some (fr_direction f)); lia).
  destruct (packet_option_bytes_eq e (fr_direction f)) as (fin & Eo & Hfin).
  set (front := words e vs ++ frame_bytes f ++ padding (captured_length f)).
  assert (zlen front = 20 + padded (captured_length f)) as Lf by (subst front; rewrite !zlen_app, zlen_padding; unfold padded; lia).
  assert (body = front ++ packet_option_bytes e (fr_direction f) ++ []) as Eb' by (subst front; rewrite app_nil_r, Eb; by rewrite <- !app_assoc).
  pose proof (f_equal zlen Eb') as Lb'. rewrite !zlen_app, zlen_nil in Lb'.
  assert (index_range (E := CaptureError) body (20 + padded (captured_length f)) (zlen body) = Ok (packet_option_bytes e (fr_direction f))) as ->
    by (rewrite Eb' at 1; apply index_range_mid; lia).
  rewrite Ok_bind, Eo. rewrite parse_options_bytes; [|apply packet_options_wf| |done|].
  2: { destruct (fr_direction f); cbn; rewrite ?zlen_cons, zlen_nil; lia. }
  2: { rewrite <- Eo. unfold u32_max. pose proof (zlen_nonneg front). lia. }
  rewrite Ok_bind, packet_direction_eq, Ok_bind, Hfrom, Ok_bind. rewrite checked_add_ok by (unfold u32_max; lia). cbn [ok_or]. rewrite Ok_bind.
  rewrite add_u_ok, Ok_bind by (unfold u64_max; lia).
  rewrite Eb, packet_bytes_eq, Ok_bind by (done || lia). unfold try_with_optional_timestamp. cbn [ln_captured ln_original].
  rewrite Hz, Z.eqb_refl, (proj2 (Z.ltb_ge _ _)) by lia. cbn. by rewrite Hlink, <- Ht.
Qed.
