(* ===== verification/CaptureRoundTripNg.v ===== *)
(** * Capture files: block captures read back

    What a writer of PCAPNG has written, interfaces and packets in any order, a
    reader gives back frame by frame, over any stream that delivers the bytes. *)

From stdpp Require Import base tactics option list numbers strings.
From Stdlib Require Import ZArith Lia.
From S2P Require Import Prelude Checksum Ordered Flow Headers HeadersProofs Frame Transform TransformProofs IpRanges.
From S2P Require Import CaptureWire CaptureRead CaptureWrite CaptureStreams CaptureTime CaptureEncode CaptureWriter CaptureRoundTrip CaptureDecode.

(** ** Computations on a part of the reader *)

Lemma on_source_bind {A B} (m : stm Source A) (k : A -> stm NgReader B) source state interfaces a source' :
  m source = (Ok a, source') ->
  (on_source m ≫= k) (mkNgReader source state interfaces) = k a (mkNgReader source' state interfaces).
Proof. intros E. apply stm_bind_eq. unfold on_source, zoom. cbn. by rewrite E. Qed.

Lemma on_state_bind {A B} (m : stm PcapNgState A) (k : A -> stm NgReader B) source state interfaces a state' :
  m state = (Ok a, state') ->
  (on_state m ≫= k) (mkNgReader source state interfaces) = k a (mkNgReader source state' interfaces).
Proof. intros E. apply stm_bind_eq. unfold on_state, zoom. cbn. by rewrite E. Qed.

Section blocks.
Context (alloc : capture_allocator) (alloc_ok : forall kind n, alloc kind n = true).
Context (e : Endianness) (limits : ReaderLimits).

(** The state of a reader in the one section a writer opens. *)
Definition ng_state (blocks consumed : Z) : PcapNgState := mkPcapNgState e 0 0 None blocks consumed.

Lemma account_metadata_eq blocks consumed length : blocks < usize_max ->
  blocks + 1 <= rl_max_metadata_blocks_per_frame limits ->
  consumed + length <= rl_max_metadata_bytes_per_frame limits <= usize_max ->
  account_metadata length limits (ng_state blocks consumed) = (Ok tt, ng_state (blocks + 1) (consumed + length)).
Proof using.
  intros Hb Hn Hc. unfold account_metadata. rewrite (stm_bind_eq _ _ _ tt (ng_state (blocks + 1) consumed)).
  2: { unfold modify, set_metadata, saturating_add. cbn [ng_metadata_blocks ng_state]. by rewrite Z.min_r by lia. }
  rewrite gets_bind. cbn [ng_state ng_metadata_blocks]. rewrite (proj2 (Z.ltb_ge _ _)) by lia. rewrite gets_bind.
  rewrite (lift_bind_eq _ _ _ (consumed + length)); [done|]. cbn [ng_state ng_metadata_bytes].
  rewrite checked_add_ok by lia. cbn [mbind option_bind]. by rewrite (proj2 (Z.leb_le _ _)) by lia.
Qed.

(** The frame of a block, once its header has been read. *)
Lemma read_written_block t length body source rest blocks consumed blocks' consumed' interfaces :
  is_u32 t -> length = 12 + zlen body -> length mod 4 = 0 -> length <= rl_max_size limits -> length <= u32_max ->
  (if is_none (packet_block_kind t)
   then account_metadata length limits (ng_state blocks consumed) = (Ok tt, ng_state blocks' consumed')
   else blocks' = blocks /\ consumed' = consumed) ->
  delivers source (body ++ to_bytes e 4 length ++ rest) ->
  exists source', read_block alloc (to_bytes e 4 t ++ to_bytes e 4 length) limits
      (mkNgReader source (ng_state blocks consumed) interfaces) =
    (Ok (mkFramedBlock t body (block_bytes e t length body)), mkNgReader source' (ng_state blocks' consumed') interfaces) /\
    delivers source' rest.
Proof using alloc_ok.
  intros Ht Hlen Hmod Hmax Hu Hacc Hd. pose proof (zlen_nonneg body). set (header := to_bytes e 4 t ++ to_bytes e 4 length).
  assert (zlen header = 8) as Lh by (subst header; by rewrite zlen_app, !zlen_to_bytes).
  rewrite app_assoc in Hd.
  destruct (read_exact_append_delivers alloc header length source (body ++ to_bytes e 4 length) rest (length - 8) "pcapng block" Hd) as (s' & E & Hd');
    [rewrite zlen_app, zlen_to_bytes; lia|apply alloc_ok|].
  exists s'. split; [|done]. assert (header ++ body ++ to_bytes e 4 length = block_bytes e t length body) as Er
    by (subst header; unfold block_bytes; by rewrite <- app_assoc).
  rewrite Er in E. unfold read_block. rewrite gets_bind. cbn [nr_state ng_state ng_endianness].
  rewrite (lift_bind_eq _ _ _ t).
  2: { subst header. rewrite zslice_here by (by rewrite zlen_to_bytes). by apply decode_u32_exact. }
  rewrite (lift_bind_eq _ _ _ length).
  2: { subst header. rewrite zslice_skip by (rewrite ?zlen_to_bytes; lia). rewrite zlen_to_bytes, zslice_all by (by rewrite zlen_to_bytes).
       apply decode_u32_exact. lia. }
  rewrite (lift_bind_eq _ _ _ tt).
  2: { unfold validate_pcapng_block_length. rewrite (proj2 (Z.ltb_ge _ _)) by lia. rewrite Hmod. cbn. by rewrite (proj2 (Z.ltb_ge _ _)) by lia. }
  rewrite gets_bind. cbn [nr_state ng_state ng_remaining_in_section]. rewrite (lift_bind_eq _ _ _ tt) by done.
  fold (ng_state blocks consumed). rewrite (stm_bind_eq _ _ _ tt (mkNgReader source (ng_state blocks' consumed') interfaces)).
  2: { destruct (is_none _); [|by destruct Hacc as [-> ->]]. unfold on_state, zoom. cbn [nr_state]. by rewrite Hacc. }
  unfold read_block_rest. rewrite (lift_bind_eq _ _ _ tt) by (unfold try_reserve; by rewrite alloc_ok).
  rewrite (on_source_bind _ _ _ _ _ _ _ E). pose proof (zlen_block_bytes e t length body) as Lb.
  rewrite (lift_bind_eq _ _ _ (8 + zlen body)) by (rewrite sub_u_ok by lia; f_equal; lia).
  rewrite (lift_bind_eq _ _ _ (to_bytes e 4 length)).
  2: { assert (block_bytes e t length body = (header ++ body) ++ to_bytes e 4 length ++ []) as E3 by (rewrite app_nil_r, <- Er; by rewrite <- app_assoc).
       rewrite E3 at 1. apply index_range_mid; rewrite ?zlen_app, ?zlen_to_bytes; lia. }
  rewrite (lift_bind_eq _ _ _ length) by (apply decode_u32_exact; lia). rewrite Z.eqb_refl. cbn [negb].
  rewrite (on_state_bind _ _ _ _ _ tt (ng_state blocks' consumed')) by done.
  rewrite (lift_bind_eq _ _ _ body); [done|]. rewrite <- Er. apply index_range_mid; lia.
Qed.

(** A block of one of the two kinds that are written goes to its decoder. *)
Lemma read_written_record t length body source rest blocks consumed blocks' consumed' interfaces :
  t = PCAPNG_INTERFACE_DESCRIPTION_BLOCK \/ t = PCAPNG_ENHANCED_PACKET_BLOCK ->
  length = 12 + zlen body -> length mod 4 = 0 -> length <= rl_max_size limits -> length <= u32_max ->
  (if is_none (packet_block_kind t)
   then account_metadata length limits (ng_state blocks consumed) = (Ok tt, ng_state blocks' consumed')
   else blocks' = blocks /\ consumed' = consumed) ->
  delivers source (block_bytes e t length body ++ rest) ->
  exists source', read_next_pcapng_record alloc limits (mkNgReader source (ng_state blocks consumed) interfaces) =
    (record ← decode_record alloc (mkFramedBlock t body (block_bytes e t length body)) limits; mret (Some record))
      (mkNgReader source' (ng_state blocks' consumed') interfaces) /\
    delivers source' rest.
Proof using alloc_ok.
  intros Ht Hlen Hmod Hmax Hu Hacc Hd. set (header := to_bytes e 4 t ++ to_bytes e 4 length).
  assert (zlen header = 8) as Lh by (subst header; by rewrite zlen_app, !zlen_to_bytes).
  assert (block_bytes e t length body ++ rest = header ++ (body ++ to_bytes e 4 length ++ rest)) as Eb
    by (subst header; unfold block_bytes; by rewrite <- !app_assoc).
  rewrite Eb in Hd. destruct (read_exact_or_eof_delivers source header _ 8 "pcapng block header" Hd Lh) as (s1 & E1 & Hd1).
  assert (is_u32 t) as Ht' by (unfold is_u32, u32_max; destruct Ht as [-> | ->]; done).
  destruct (read_written_block t length body s1 rest blocks consumed blocks' consumed' interfaces Ht' Hlen Hmod Hmax Hu Hacc Hd1) as (s2 & E2 & Hd2).
  exists s2. split; [|done]. unfold read_next_pcapng_record. rewrite gets_bind. cbn [nr_state ng_state ng_remaining_in_section].
  rewrite (lift_bind_eq _ _ _ tt) by done. unfold read_pcapng_block_header. rewrite (on_source_bind _ _ _ _ _ _ _ E1).
  assert (bytes_eqb (ztake 4 header) PCAPNG_SECTION_HEADER = false) as ->.
  { subst header. unfold ztake. rewrite take_app_length' by (pose proof (zlen_to_bytes e 4 t); unfold zlen in *; lia).
    by destruct Ht as [-> | ->], e. }
  subst header. fold (ng_state blocks consumed). unfold mbind, stm_bind. by rewrite E2.
Qed.

(** The end of the stream is the end of the capture. *)
Lemma read_written_end source blocks consumed interfaces : delivers source [] -> exists source',
  read_next_pcapng_record alloc limits (mkNgReader source (ng_state blocks consumed) interfaces) =
  (Ok None, mkNgReader source' (ng_state blocks consumed) interfaces).
Proof using.
  intros Hd. destruct (read_exact_or_eof_end source 8 "pcapng block header" Hd) as (s' & E & _); [lia|]. exists s'.
  unfold read_next_pcapng_record. rewrite gets_bind. cbn [nr_state ng_state ng_remaining_in_section]. rewrite (lift_bind_eq _ _ _ tt) by done.
  unfold read_pcapng_block_header. by rewrite (on_source_bind _ _ _ _ _ _ _ E).
Qed.

(** An interface description adds its interface. *)
Lemma read_written_description i options tsresol source rest blocks consumed interfaces :
  interface_wf i -> Forall custom_option options -> to_tsresol (if_timestamp_resolution i) = Ok tsresol ->
  description_size i options <= rl_max_size limits -> description_size i options <= u32_max ->
  zlen options + 2 <= rl_max_options_per_block limits -> blocks < usize_max ->
  blocks + 1 <= rl_max_metadata_blocks_per_frame limits ->
  consumed + description_size i options <= rl_max_metadata_bytes_per_frame limits <= usize_max ->
  zlen interfaces <= u32_max -> zlen interfaces < rl_max_interfaces_per_section limits ->
  zlen interfaces < rl_max_total_interfaces limits ->
  delivers source (description_block e i options tsresol ++ rest) ->
  exists source' x, read_next_pcapng_record alloc limits (mkNgReader source (ng_state blocks consumed) interfaces) =
    (Ok (Some x), mkNgReader source' (ng_state (blocks + 1) (consumed + description_size i options)) (interfaces ++ [i])) /\
    rec_frame x = None /\ delivers source' rest.
Proof using alloc_ok.
  intros Hi Hc Hr Hmax Hu Hopt Hb Hbl Hby Hn Hsec Htot Hd. unfold description_block in Hd.
  assert (description_size i options mod 4 = 0) as Hmod.
  { unfold description_size. rewrite Z.add_mod, options_size_mod by lia. unfold interface_description_base_length. by destruct (_ =? _). }
  destruct (read_written_record _ _ _ _ _ blocks consumed _ _ interfaces (or_introl eq_refl)
    (eq_sym (zlen_description_bytes e i options tsresol)) Hmod Hmax Hu (account_metadata_eq _ _ _ Hb Hbl Hby) Hd) as (s' & E & Hd').
  exists s'. rewrite E. unfold decode_record. cbn [fb_block_type fb_body fb_raw]. rewrite Z.eqb_refl. clear E.
  match goal with |- context [(decode_interface ?b ?r ?l ≫= ?k) ?n] => assert (exists x, decode_interface b r l n =
    (Ok x, mkNgReader s' (ng_state (blocks + 1) (consumed + description_size i options)) (interfaces ++ [i])) /\ rec_frame x = None) as (x & Ex & Hx) end.
  2: { exists x. by rewrite (stm_bind_eq _ _ _ _ _ Ex). }
  unfold decode_interface. eexists. split. 1: rewrite gets_bind. cbn [nr_state ng_state ng_endianness].
  rewrite (lift_bind_eq _ _ _ (i, own_options e i tsresol ++ options)) by (by apply parse_description).
  rewrite gets_bind. unfold section_interfaces. cbn [nr_interfaces ng_interface_base]. rewrite zdrop_0.
  rewrite (lift_bind_eq _ _ _ (zlen interfaces)) by (by rewrite (proj2 (Z.leb_le _ _)) by lia).
  erewrite stm_bind_eq; [reflexivity|]. unfold add_interface. rewrite gets_bind. unfold section_interfaces.
  cbn [nr_state nr_interfaces ng_interface_base]. rewrite zdrop_0, (proj2 (Z.leb_gt _ _)) by lia. rewrite gets_bind.
  cbn [nr_interfaces]. rewrite (proj2 (Z.leb_gt _ _)) by lia.
  rewrite (lift_bind_eq _ _ _ (zlen interfaces)) by (by rewrite (proj2 (Z.leb_le _ _)) by lia). all: reflexivity.
Qed.

(** A packet gives its frame and ends a run of metadata. *)
Lemma read_written_packet f interfaces id ts i source rest blocks consumed :
  packet_fits f interfaces (rl_max_size limits) id ts i -> 1 <= rl_max_options_per_block limits ->
  delivers source (block_bytes e PCAPNG_ENHANCED_PACKET_BLOCK (12 + zlen (packet_body e id ts f)) (packet_body e id ts f) ++ rest) ->
  exists source' x, read_next_pcapng_record alloc limits (mkNgReader source (ng_state blocks consumed) interfaces) =
    (Ok (Some x), mkNgReader source' (ng_state 0 0) interfaces) /\
    rec_frame x = Some (with_identity f (Some id) (fr_direction f)) /\ delivers source' rest.
Proof using alloc_ok.
  intros Hp Hopt Hd. destruct (packet_body_size e _ _ _ _ _ _ Hp) as [Hbs _]. pose proof (pf_size _ _ _ _ _ _ Hp) as Hmax.
  pose proof (pf_u32 _ _ _ _ _ _ Hp) as Hu. rewrite <- Hbs in Hmax, Hu.
  assert ((12 + zlen (packet_body e id ts f)) mod 4 = 0) as Hmod.
  { rewrite (zlen_packet_body e id ts f) by (apply (pf_frame _ _ _ _ _ _ Hp)).
    rewrite Z.add_mod, (Z.add_mod 32), padded_mod by lia. by destruct (is_some _). }
  destruct (read_written_record _ _ _ _ _ blocks consumed blocks consumed interfaces (or_intror eq_refl)
    eq_refl Hmod Hmax Hu (conj eq_refl eq_refl) Hd) as (s' & E & Hd').
  exists s'. rewrite E. unfold decode_record. cbn [fb_block_type fb_body fb_raw]. change (_ =? _) with false. cbv iota.
  change (packet_block_kind _) with (Some BlockEnhanced). cbv iota. clear E.
  match goal with |- context [(decode_packet _ ?a ?b ?r ?l ≫= ?k) ?n] => assert (exists x, decode_packet alloc a b r l n =
    (Ok x, mkNgReader s' (ng_state 0 0) interfaces) /\ rec_frame x = Some (with_identity f (Some id) (fr_direction f))) as (x & Ex & Hx) end.
  2: { exists x. by rewrite (stm_bind_eq _ _ _ _ _ Ex). }
  unfold decode_packet. eexists. split. 1: rewrite gets_bind, gets_bind. unfold section_interfaces.
  cbn [nr_state nr_interfaces ng_state ng_endianness ng_interface_base]. rewrite zdrop_0.
  rewrite (lift_bind_eq _ _ _ _ (parse_written_packet alloc e f interfaces _ id ts i _ alloc_ok Hp Hopt)).
  rewrite (on_state_bind _ _ _ _ _ tt (ng_state 0 0)) by done. all: reflexivity.
Qed.
End blocks.

(** ** What a run of the writer leaves on the stream *)

Fixpoint run_ops (ops : list writer_op) : stm Writer unit :=
  match ops with
  | [] => mret tt
  | op :: rest => _ ← writer_step op; run_ops rest
  end.

(** The frames of a run, and the options of its interface descriptions. *)
Definition op_frames (ops : list writer_op) : list Frame :=
  omap (fun op => match op with OpFrame f => Some f | _ => None end) ops.

Definition op_options (op : writer_op) : list PcapNgOption :=
  match op with OpInterface _ options => options | _ => [] end.

Definition options_total (ops : list writer_op) : Z := foldr (fun op total => options_size (op_options op) + total) 0 ops.

Section written.
Context (e : Endianness) (max_size max_options : Z).

(** From some interfaces and bytes of options, these frames, read back as those,
    with the interfaces and bytes of options there are then. *)
Inductive ng_encodes : list Interface -> Z -> list Frame -> list Frame -> list Interface -> Z -> bytes -> Prop :=
| ng_none interfaces size : ng_encodes interfaces size [] [] interfaces size []
| ng_description i options tsresol interfaces size frames read interfaces' size' data :
    interface_wf i -> Forall custom_option options -> to_tsresol (if_timestamp_resolution i) = Ok tsresol ->
    description_size i options <= max_size -> description_size i options <= u32_max -> zlen options + 2 <= max_options ->
    zlen interfaces <= u32_max ->
    ng_encodes (interfaces ++ [i]) (size + options_size options) frames read interfaces' size' data ->
    ng_encodes interfaces size frames read interfaces' size' (description_block e i options tsresol ++ data)
| ng_packet f id ts i interfaces size frames read interfaces' size' data :
    packet_fits f interfaces max_size id ts i -> 2 <= max_options ->
    ng_encodes interfaces size frames read interfaces' size' data ->
    ng_encodes interfaces size (f :: frames) (with_identity f (Some id) (fr_direction f) :: read) interfaces' size'
      (block_bytes e PCAPNG_ENHANCED_PACKET_BLOCK (12 + zlen (packet_body e id ts f)) (packet_body e id ts f) ++ data).

Lemma ng_encodes_grows interfaces size frames read interfaces' size' data :
  ng_encodes interfaces size frames read interfaces' size' data ->
  (exists more, interfaces' = interfaces ++ more) /\ size <= size'.
Proof using.
  induction 1 as [interfaces size|i options tsresol interfaces size frames read interfaces' size' data ??????? _ IH|].
  - split; [|lia]. exists []. by rewrite app_nil_r.
  - destruct IH as [[more ->] IH]. split; [exists ([i] ++ more); by rewrite app_assoc|]. pose proof (options_size_nonneg options). lia.
  - done.
Qed.

(** A planned packet is one its reader accepts. *)
Lemma ng_planned_fits f interfaces max_interfaces id ts size new i : frame_wf f ->
  ng_planned f interfaces max_size max_interfaces id ts size new i ->
  packet_fits f (with_new interfaces new) max_size id ts i /\ forall e, size = 12 + zlen (packet_body e id ts f).
Proof using.
  intros Hf Hp. assert (forall e, size = 12 + zlen (packet_body e id ts f)) as Hs
    by (intros e'; by rewrite zlen_packet_body, (np_size _ _ _ _ _ _ _ _ _ Hp)).
  split; [|done]. destruct (np_max _ _ _ _ _ _ _ _ _ Hp). destruct Hp. split; try done; rewrite <- Hs; lia.
Qed.

(** What writing a frame leaves. *)
Lemma write_frame_encodes w w' f interfaces size : writer_wf w -> frame_wf f -> wr_max_size w = max_size ->
  wr_state w = WriterPcapNg e interfaces -> 2 <= max_options -> write_frame f w = (Ok tt, w') ->
  exists g interfaces' data, wr_state w' = WriterPcapNg e interfaces' /\ writer_wf w' /\ wr_max_size w' = max_size /\
    sink_bytes (wr_inner w') = sink_bytes (wr_inner w) ++ data /\
    forall frames read interfaces'' size'' rest, ng_encodes interfaces' size frames read interfaces'' size'' rest ->
      ng_encodes interfaces size (f :: frames) (g :: read) interfaces'' size'' (data ++ rest).
Proof using.
  intros Hw Hf Hm Es Hmo E. destruct (prepare_frame w f) as [plan|err|] eqn:Ep;
    [|unfold write_frame, mbind, stm_bind in E; by rewrite Ep in E..].
  destruct (write_frame_spec w f plan Hw Hf Ep) as [Hs _]. rewrite E in Hs. destruct Hs as (sk & Hb & ->).
  apply prepare_frame_planned in Ep as Hpl; [|done..]. pose proof (writer_wf_after w (mkWriter sk (after_encoding (wr_state w) (fp_encoding plan))
    (wr_max_size w) (wr_max_interfaces w) (fp_budget plan) None) f plan Hw Hpl eq_refl (or_intror eq_refl)) as Hw'.
  destruct Hpl as (_ & _ & _ & Hp). rewrite Es in *. destruct Hp as (id & ts & sz & new & i & Ee & _ & Hp). rewrite Ee in *. cbn [after_encoding] in *.
  rewrite Hm in Hp. destruct (ng_planned_fits _ _ _ _ _ _ _ _ Hf Hp) as [Hfits Hsz]. rewrite (Hsz e) in Hb. unfold Writer_endianness in Hb. rewrite Es in Hb.
  cbn [encoding_bytes] in Hb. do 3 eexists. split; [reflexivity|]. split; [exact Hw'|]. split; [done|]. split; [exact Hb|].
  intros frames read interfaces'' size'' rest Henc. rewrite <- app_assoc. destruct new as [j|].
  - destruct (np_new _ _ _ _ _ _ _ _ _ Hp) as (-> & Hid & Hr & Ho & _ & Hmax). pose proof (np_wf _ _ _ _ _ _ _ _ _ Hp) as Hi.
    assert (description_size i [] = 32) as E32 by (unfold description_size; by rewrite Ho).
    rewrite <- E32. apply ng_description; [done|constructor|by rewrite Hr|lia|unfold u32_max; lia|done| |].
    { pose proof (np_id _ _ _ _ _ _ _ _ _ Hp) as [_ ?]. lia. }
    cbn [options_size foldr]. rewrite Z.add_0_r. by eapply ng_packet.
  - unfold with_new in *. rewrite app_nil_r in *. by eapply ng_packet.
Qed.

(** What an interface description leaves. *)
Lemma add_interface_encodes w w' d options interfaces size : writer_wf w -> interface_typed d -> Forall option_typed options ->
  wr_output_failure w = None -> wr_max_size w = max_size ->
  wr_state w = WriterPcapNg e interfaces -> zlen options + 2 <= max_options -> writer_step (OpInterface d options) w = (Ok tt, w') ->
  exists interfaces' data, wr_state w' = WriterPcapNg e interfaces' /\ writer_wf w' /\ wr_max_size w' = max_size /\
    sink_bytes (wr_inner w') = sink_bytes (wr_inner w) ++ data /\
    forall frames read interfaces'' size'' rest, ng_encodes interfaces' (size + options_size options) frames read interfaces'' size'' rest ->
      ng_encodes interfaces size frames read interfaces'' size'' (data ++ rest).
Proof using.
  intros Hw Hd Ho Hn Hm Es Hmo E. pose proof (add_description_result w d options Hw Hd Ho Hn) as Hr. cbn [writer_step] in E.
  unfold mbind, stm_bind in E. destruct (add_interface_description_with_options d options w) as [[id|err|] w1]; [|done..].
  injection E as <-. destruct Hr as (e' & I & tsresol & s & Ha & _ & Hb & ->). destruct Ha as [Hst Hc Hi Hco Hr Hs].
  rewrite Es in Hst. injection Hst as <- <-. rewrite Hm in *. do 2 eexists. split; [reflexivity|]. split.
  - destruct Hw as [Hmax Hw]. rewrite Es in Hw. unfold writer_wf. cbn. rewrite <- Hm. split; [done|]. split; [apply Forall_app; naive_solver|].
    rewrite zlen_app. change (zlen [d]) with 1. lia.
  - split; [done|]. split; [exact Hb|]. intros. eapply ng_description; try done; lia.
Qed.

Lemma writer_step_encodes w w' op interfaces size : writer_wf w -> op_wf op -> wr_max_size w = max_size ->
  wr_state w = WriterPcapNg e interfaces -> zlen (op_options op) + 2 <= max_options -> writer_step op w = (Ok tt, w') ->
  exists read interfaces' data, wr_state w' = WriterPcapNg e interfaces' /\ writer_wf w' /\ wr_max_size w' = max_size /\
    sink_bytes (wr_inner w') = sink_bytes (wr_inner w) ++ data /\
    forall frames read' interfaces'' size'' rest,
      ng_encodes interfaces' (size + options_size (op_options op)) frames read' interfaces'' size'' rest ->
      ng_encodes interfaces size (op_frames [op] ++ frames) (read ++ read') interfaces'' size'' (data ++ rest).
Proof using.
  intros Hw Ho Hm Es Hmo E. destruct (wr_output_failure w) as [failure|] eqn:Hn.
  { by rewrite (writer_step_failed _ _ _ Hn) in E. }
  destruct op as [link|d options|f|flushed]; cbn [op_options] in *.
  - rewrite add_interface_eq in E by done. destruct (Z.leb_spec (wr_max_size w) u32_max); [|done].
    assert (interface_typed (mkInterface link (wr_max_size w) WRITER_TIMESTAMP_RESOLUTION 0)) as Hd.
    { destruct Hw as [? _]. cbn in Ho. unfold interface_typed, is_u32, is_i64, i64_max, u32_max in *. cbn. lia. }
    destruct (add_interface_encodes _ _ _ _ _ size Hw Hd (Forall_nil_2 _) Hn Hm Es Hmo E) as (I' & data & Hx). exists []. by exists I', data.
  - destruct Ho as [Hd Hop]. destruct (add_interface_encodes _ _ _ _ _ size Hw Hd Hop Hn Hm Es Hmo E) as (I' & data & H). exists []. by exists I', data.
  - rewrite zlen_nil in Hmo. destruct (write_frame_encodes _ _ _ _ size Hw Ho Hm Es Hmo E) as (g & I' & data & H1 & H2 & H3 & H4 & H5). exists [g], I', data.
    split_and!; try done. intros. rewrite Z.add_0_r in *. by apply H5.
  - cbn [writer_step] in E. unfold Writer_flush, mbind, stm_bind, ensure_output_available in E. rewrite Hn in E. destruct flushed; [done|]. injection E as <-.
    exists [], interfaces, []. rewrite app_nil_r. split_and!; try done. intros. by rewrite Z.add_0_r in *.
Qed.

Lemma run_ops_encodes ops : forall w w' interfaces size, Forall op_wf ops ->
  Forall (fun op => zlen (op_options op) + 2 <= max_options) ops -> writer_wf w -> wr_max_size w = max_size ->
  wr_state w = WriterPcapNg e interfaces -> run_ops ops w = (Ok tt, w') ->
  exists read interfaces' data, wr_state w' = WriterPcapNg e interfaces' /\ writer_wf w' /\
    sink_bytes (wr_inner w') = sink_bytes (wr_inner w) ++ data /\
    ng_encodes interfaces size (op_frames ops) read interfaces' (size + options_total ops) data.
Proof using.
  induction ops as [|op ops IH]; intros w w' interfaces size Ho Hopt Hw Hm Es E; cbn [run_ops] in E.
  - injection E as <-. exists [], interfaces, []. rewrite app_nil_r. split_and!; try done. cbn. rewrite Z.add_0_r. constructor.
  - apply Forall_cons_1 in Ho as [Ho Hos], Hopt as [Hop Hops]. inv_stm E. destruct a.
    destruct (writer_step_encodes _ _ _ _ size Hw Ho Hm Es Hop Ha) as (read & I' & data & Es' & Hw' & Hm' & Hb & Henc).
    eapply IH in E as (read' & I'' & data' & Es'' & Hw'' & Hb' & Henc'); [|done..].
    exists (read ++ read'), I'', (data ++ data'). split_and!; [done..|by rewrite Hb', Hb, <- app_assoc|].
    apply Henc in Henc'. change (op :: ops) with ([op] ++ ops). unfold op_frames in *. rewrite omap_app.
    cbn [options_total foldr app]. fold (options_total ops). by rewrite Z.add_assoc.
Qed.
End written.

(** ** Reading it back *)

(** As [collect], with fewer records left for the first call. *)
Definition collect_from (alloc : capture_allocator) (count fuel first : nat) (r : Reader) : outcome CaptureError (list Frame) * Reader :=
  match next_frame alloc first no_checks r with
  | (Ok (Some f), r') =>
      let '(frames, r'') := collect alloc count fuel r' in
      (match frames with Ok frames => Ok (f :: frames) | e => e end, r'')
  | (Ok None, r') => (Ok [], r')
  | (Err e, r') => (Err e, r')
  | (Panic, r') => (Panic, r')
  end.

(** What a reader must allow for a run with these operations and interfaces. *)
Record reader_admits (limits : ReaderLimits) (max_size : Z) (ops : list writer_op) (interfaces : list Interface) : Prop := {
  ra_size : max_size <= rl_max_size limits;
  ra_section : zlen interfaces <= rl_max_interfaces_per_section limits;
  ra_total : zlen interfaces <= rl_max_total_interfaces limits;
  ra_blocks : zlen interfaces <= rl_max_metadata_blocks_per_frame limits;
  ra_bytes : 44 * zlen interfaces + options_total ops <= rl_max_metadata_bytes_per_frame limits <= usize_max;
  ra_options : Forall (fun op => zlen (op_options op) + 2 <= rl_max_options_per_block limits) ops
}.

Section reading.
Context (alloc : capture_allocator) (alloc_ok : forall kind n, alloc kind n = true).
Context (e : Endianness) (limits : ReaderLimits) (header : CaptureHeader) (interfaces' : list Interface) (size' : Z).
Context (count_ok : zlen interfaces' <= u32_max + 1) (section_ok : zlen interfaces' <= rl_max_interfaces_per_section limits)
  (total_ok : zlen interfaces' <= rl_max_total_interfaces limits) (blocks_ok : zlen interfaces' <= rl_max_metadata_blocks_per_frame limits)
  (bytes_ok : 44 * zlen interfaces' + size' <= rl_max_metadata_bytes_per_frame limits <= usize_max).

Definition ng_reader (source : Source) (blocks consumed : Z) (interfaces : list Interface) (fcs : bool) : Reader :=
  mkReader source (ReaderPcapNg (ng_state e blocks consumed)) header interfaces fcs limits false.

Lemma read_state_ng source blocks consumed interfaces fcs record n :
  read_next_pcapng_record alloc limits (mkNgReader source (ng_state e blocks consumed) interfaces) = (Ok record, n) ->
  read_state alloc (ng_reader source blocks consumed interfaces fcs) =
  (Ok record, mkReader (nr_source n) (ReaderPcapNg (nr_state n)) header (nr_interfaces n) fcs limits false).
Proof using. intros E. unfold read_state, ng_reader. cbn. by rewrite E. Qed.

Lemma collect_ng max_size interfaces size frames read data (fuel : nat) :
  ng_encodes e max_size (rl_max_options_per_block limits) interfaces size frames read interfaces' size' data ->
  max_size <= rl_max_size limits -> zlen interfaces' < Z.of_nat fuel -> 0 <= size ->
  forall source blocks consumed fcs (first : nat), 0 <= blocks <= zlen interfaces -> consumed <= 44 * zlen interfaces + size ->
    zlen interfaces' - zlen interfaces < Z.of_nat first -> delivers source data ->
    exists r', collect_from alloc (length frames) fuel first (ng_reader source blocks consumed interfaces fcs) = (Ok read, r') /\
      rd_finished r' = true /\ rd_interfaces r' = interfaces'.
Proof using alloc_ok count_ok section_ok total_ok blocks_ok bytes_ok.
  intros Henc Hmax Hfuel. revert count_ok section_ok total_ok blocks_ok bytes_ok Hfuel.
  induction Henc as [interfaces size|i options tsresol interfaces size frames read interfaces' size' data Hi Hc Hr Hs Hu Ho Hn Henc IH
    |f id ts i interfaces size frames read interfaces' size' data Hfits Hopt Henc IH];
    intros count_ok section_ok total_ok blocks_ok bytes_ok Hfuel Hsize source blocks consumed fcs first Hb Hby Hfirst Hd.
  - destruct first as [|first]; [lia|]. destruct (read_written_end alloc e limits source blocks consumed interfaces Hd) as (s' & E).
    unfold collect_from. rewrite (next_frame_end _ first (ng_reader source blocks consumed interfaces fcs) _ eq_refl (read_state_ng _ _ _ _ fcs _ _ E)). by eexists.
  - destruct (ng_encodes_grows _ _ _ _ _ _ _ _ _ _ Henc) as [[more ->] Hgrow]. rewrite !zlen_app in *. change (zlen [i]) with 1 in *.
    pose proof (zlen_nonneg more). pose proof (options_size_nonneg options).
    assert (description_size i options <= 44 + options_size options) as H44
      by (unfold description_size, interface_description_base_length; destruct (_ =? _); lia).
    destruct (read_written_description alloc alloc_ok e limits i options tsresol source data blocks consumed interfaces) as (s' & x & E & Ex & Hd');
      try done; try (unfold usize_max, u64_max, u32_max in *; lia).
    destruct first as [|first]; [lia|]. specialize (IH ltac:(lia) ltac:(lia) ltac:(lia) ltac:(lia) ltac:(lia) ltac:(lia) ltac:(lia)
      s' (blocks + 1) (consumed + description_size i options) (fcs || record_declares_fcs (Some x)) first ltac:(lia) ltac:(lia) ltac:(lia) Hd').
    unfold collect_from in *. rewrite (next_frame_metadata _ first (ng_reader source blocks consumed interfaces fcs) _ _ eq_refl (read_state_ng _ _ _ _ fcs _ _ E) Ex). exact IH.
  - destruct (ng_encodes_grows _ _ _ _ _ _ _ _ _ _ Henc) as [[more Em] _]. pose proof (f_equal zlen Em) as Lm. rewrite zlen_app in Lm.
    pose proof (zlen_nonneg more). pose proof (zlen_nonneg interfaces).
    assert (packet_fits f interfaces (rl_max_size limits) id ts i) as Hfits' by (destruct Hfits; split; try done; lia).
    destruct (read_written_packet alloc alloc_ok e limits f interfaces id ts i source data blocks consumed Hfits' ltac:(lia) Hd) as (s' & x & E & Ex & Hd').
    destruct first as [|first]; [lia|]. destruct fuel as [|fuel]; [lia|].
    destruct (IH count_ok section_ok total_ok blocks_ok bytes_ok Hfuel Hsize s' 0 0 (fcs || record_declares_fcs (Some x)) (S fuel)
      ltac:(lia) ltac:(lia) ltac:(lia) Hd') as (r' & Ec & H').
    exists r'. split; [|done]. unfold collect_from. rewrite (next_frame_packet _ first (ng_reader source blocks consumed interfaces fcs) _ _ _ eq_refl (read_state_ng _ _ _ _ fcs _ _ E) Ex).
    change (length (f :: frames)) with (S (length frames)). cbn [collect]. unfold collect_from in Ec. unfold after_record.
    cbn [rd_inner rd_state rd_header rd_interfaces rd_declares_fcs rd_limits rd_finished nr_source nr_state nr_interfaces is_none is_some negb].
    unfold ng_reader in Ec. by rewrite Ec.
Qed.
End reading.

(** ** The section header *)

Lemma parse_written_section alloc e max_options : (forall kind n, alloc kind n = true) ->
  exists raw, parse_section_header alloc (to_bytes e 4 28) (to_bytes e 4 PCAPNG_BYTE_ORDER_MAGIC)
    (to_bytes e 2 1 ++ to_bytes e 2 0 ++ to_bytes e 8 18446744073709551615 ++ to_bytes e 4 28) e 28 max_options =
  Ok (mkSectionHeader e 1 0 None [] 28 raw).
Proof. intros Ha. unfold parse_section_header, try_reserve. rewrite Ha. eexists. by destruct e. Qed.

Lemma read_ng_header alloc limits e source rest : (forall kind n, alloc kind n = true) ->
  28 <= rl_max_size limits -> 0 <= rl_max_total_interfaces limits -> delivers source (section_bytes e ++ rest) ->
  exists source' section, read_header alloc limits source =
    (Ok (mkReader source' (ReaderPcapNg (ng_state e 0 0)) (HeaderPcapNg section) [] false limits false), source') /\
    delivers source' rest.
Proof.
  intros Ha Hm Ht Hd. unfold section_bytes in Hd.
  set (tail := to_bytes e 2 1 ++ to_bytes e 2 0 ++ to_bytes e 8 18446744073709551615 ++ to_bytes e 4 28) in *.
  rewrite <- !app_assoc in Hd.
  destruct (read_exact_or_eof_delivers source _ _ 4 "capture magic" Hd (zlen_to_bytes _ _ _)) as (s1 & E1 & Hd1).
  destruct (read_exact_counted_delivers s1 _ _ 4 "pcapng section header length" Hd1 (zlen_to_bytes _ _ _)) as (s2 & E2 & Hd2).
  destruct (read_exact_counted_delivers s2 _ _ 4 "pcapng byte-order magic" Hd2 (zlen_to_bytes _ _ _)) as (s3 & E3 & Hd3).
  destruct (read_exact_append_delivers alloc [] 0 s3 tail rest 16 "pcapng section header" Hd3) as (s4 & E4 & Hd4);
    [subst tail; by rewrite !zlen_app, !zlen_to_bytes|apply Ha|].
  destruct (parse_written_section alloc e (rl_max_options_per_block limits) Ha) as (raw & Ep). fold tail in Ep.
  assert (read_section_header_after_type alloc (rl_max_size limits) (rl_max_options_per_block limits) s1 =
    (Ok (mkSectionHeader e 1 0 None [] 28 raw), s4)) as Es.
  { unfold read_section_header_after_type. rewrite (stm_bind_eq _ _ _ _ _ E2). unfold read_section_header_with_length.
    rewrite (stm_bind_eq _ _ _ _ _ E3). rewrite (lift_bind_eq _ _ _ e) by (by destruct e). unfold read_section_rest.
    rewrite (lift_bind_eq _ _ _ 28) by (by destruct e).
    rewrite (lift_bind_eq _ _ _ tt) by (unfold validate_pcapng_block_length; cbn; by rewrite (proj2 (Z.ltb_ge _ _)) by lia).
    cbn [over_budget]. change (28 <? 28) with false. cbv iota. unfold read_exact_vec. rewrite (stm_bind_eq _ _ _ _ _ E4).
    unfold lift. cbn [app]. by rewrite Ep. }
  exists s4, (section_info 0 (mkSectionHeader e 1 0 None [] 28 raw)). split; [|done]. unfold read_header. rewrite (stm_bind_eq _ _ _ _ _ E1).
  rewrite (lift_bind_eq _ _ _ (to_bytes e 4 PCAPNG_SECTION_HEADER_BLOCK)) by done.
  assert (bytes_eqb (to_bytes e 4 PCAPNG_SECTION_HEADER_BLOCK) PCAPNG_SECTION_HEADER = true) as -> by (by destruct e).
  unfold mbind, stm_bind. rewrite Es. cbn. change (zlen []) with 0. by rewrite (proj2 (Z.ltb_ge _ _)) by lia.
Qed.

Lemma pcapng_with_options_Ok script options w : 0 <= pn_max_size options <= usize_max ->
  pcapng_with_options (mkSink [] script) options = Ok w ->
  writer_wf w /\ wr_state w = WriterPcapNg (pn_endianness options) [] /\ wr_max_size w = pn_max_size options /\
  28 <= pn_max_size options /\ sink_bytes (wr_inner w) = section_bytes (pn_endianness options).
Proof.
  intros Hm H. unfold pcapng_with_options in H. inv_ok H. destruct (Z.ltb_spec (pn_max_size options) 28); [done|].
  unfold given_to in H. destruct (write_section_header_emits (pn_endianness options)) as [He _]. specialize (He (mkSink [] script)).
  destruct (write_section_header _ _) as [[]s]; simplify_eq. cbn in He. unfold writer_wf. cbn. change (zlen []) with 0.
  unfold u32_max. split_and!; (done || lia || constructor).
Qed.

(** ** Theorem *)

(** How a written frame is read back: as it was, under its own interface or one of
    its link type. *)
Definition read_back (interfaces : list Interface) (f g : Frame) : Prop :=
  exists id i, g = with_identity f (Some id) (fr_direction f) /\ zget interfaces id = Some i /\
    if_link_type i = link_type f /\ forall own, fr_interface f = Some own -> id = own.

Lemma ng_encodes_read_back e max_size max_options interfaces size frames read interfaces' size' data :
  ng_encodes e max_size max_options interfaces size frames read interfaces' size' data -> Forall2 (read_back interfaces') frames read.
Proof.
  induction 1 as [|i options tsresol interfaces size frames read interfaces' size' data ??????? _ IH|f id ts i interfaces size frames read interfaces' size' data Hfits ? Henc IH]; [constructor|done|].
  constructor; [|done]. destruct (ng_encodes_grows _ _ _ _ _ _ _ _ _ _ Henc) as [[more ->] _]. exists id, i.
  pose proof (pf_lookup _ _ _ _ _ _ Hfits) as Hl. apply zget_Some_lt in Hl as Hb. split_and!; [done| |apply Hfits..].
  rewrite zget_app. by rewrite (proj2 (Z.ltb_lt _ _)) by lia.
Qed.

(** What a writer has accepted is read back. *)
Lemma written_reads_back (alloc : capture_allocator) (script : list write_event) (options : PcapNgOptions)
  (ops : list writer_op) (w w' : Writer) (interfaces : list Interface) (limits : ReaderLimits) (source : Source) :
  0 <= pn_max_size options <= usize_max -> Forall op_wf ops -> (forall kind n, alloc kind n = true) ->
  pcapng_with_options (mkSink [] script) options = Ok w -> run_ops ops w = (Ok tt, w') -> pcapng_interfaces w' = Ok interfaces ->
  reader_admits limits (pn_max_size options) ops interfaces -> delivers source (sink_bytes (wr_inner w')) ->
  exists r rest r' frames, Reader_with_control alloc limits None None source = (Ok r, rest) /\
    Reader_format r = PcapNg /\ Reader_endianness r = pn_endianness options /\
    collect alloc (S (length (op_frames ops))) (S (Z.to_nat (rl_max_metadata_blocks_per_frame limits))) r = (Ok frames, r') /\
    Forall2 (read_back interfaces) (op_frames ops) frames /\ rd_finished r' = true /\ rd_interfaces r' = interfaces.
Proof.
  intros Hm Ho Ha Hw Hrun Hi Hadm Hd. apply pcapng_with_options_Ok in Hw as (Hwf & Es & Em & H28 & Hb); [|done].
  destruct Hadm as [Hs Hsec Htot Hbl Hby Hopt].
  destruct (run_ops_encodes (pn_endianness options) (pn_max_size options) (rl_max_options_per_block limits) ops w w' [] 0 Ho Hopt Hwf Em Es Hrun) as (read & I' & data & Es' & [_ Hwf'] & Hb' & Henc).
  unfold pcapng_interfaces in Hi. rewrite Es' in *. injection Hi as <-. destruct Hwf' as [_ Hc]. rewrite Hb', Hb in Hd.
  pose proof (zlen_nonneg I').
  destruct (read_ng_header alloc limits (pn_endianness options) source data Ha ltac:(lia) ltac:(lia) Hd) as (s1 & section & E1 & Hd1).
  destruct (collect_ng alloc Ha (pn_endianness options) limits (HeaderPcapNg section) _ _ Hc Hsec Htot Hbl Hby _ _ _ _ _ _
    (S (Z.to_nat (rl_max_metadata_blocks_per_frame limits))) Henc Hs ltac:(lia) ltac:(lia) s1 0 0 false
    (S (Z.to_nat (rl_max_metadata_blocks_per_frame limits)))) as (r' & E2 & Hf & Hi); [change (zlen []) with 0; lia..|done|].
  do 3 eexists. exists read. unfold Reader_with_control. rewrite E1. split; [reflexivity|]. split_and!; try done.
  by eapply ng_encodes_read_back.
Qed.

(** C10: A block capture reads back.  Whatever interfaces and frames a writer has
    accepted, in any order, with interfaces added on the way, over a stream that
    takes the bytes in any pieces, a reader whose limits admit them opens the
    result and returns exactly those frames, each with its bytes, lengths, time
    and direction under the interface it was written to, and then the end; it has
    then the interfaces of the writer.  The bytes may come in any pieces and with
    interruptions anywhere. *)
Theorem pcapng_roundtrip (alloc : capture_allocator) (script : list write_event) (options : PcapNgOptions)
  (ops : list writer_op) (w w' : Writer) (interfaces : list Interface) (limits : ReaderLimits) (source : Source) :
  0 <= pn_max_size options <= usize_max -> Forall op_wf ops -> (forall kind n, alloc kind n = true) ->
  pcapng_with_options (mkSink [] script) options = Ok w -> run_ops ops w = (Ok tt, w') -> pcapng_interfaces w' = Ok interfaces ->
  reader_admits limits (pn_max_size options) ops interfaces -> delivers source (sink_bytes (wr_inner w')) ->
  exists r rest r' frames, Reader_with_control alloc limits None None source = (Ok r, rest) /\
    Reader_format r = PcapNg /\ Reader_endianness r = pn_endianness options /\
    collect alloc (S (length (op_frames ops))) (S (Z.to_nat (rl_max_metadata_blocks_per_frame limits))) r = (Ok frames, r') /\
    Forall2 (read_back interfaces) (op_frames ops) frames /\ rd_finished r' = true /\ rd_interfaces r' = interfaces.
Proof. apply written_reads_back. Qed.

(** ** Witness *)

(** An interface of the caller's own, one added for the first frame, a frame with
    its own interface and direction, and a flush. *)
Definition demo_ng_ops : list writer_op :=
  [OpInterface (mkInterface 101 64 (Binary 10) (-7)) [mkPcapNgOption 2 [101; 116; 104]];
   OpFrame (mkFrame (Some 1700000000123456789) 3 60 1 None (Some Outbound) [1; 2; 3]);
   OpFlush None;
   OpFrame (mkFrame (Some (-6500000000)) 5 5 101 (Some 0) None [9; 8; 7; 6; 5])].

Definition demo_ng_options : PcapNgOptions := mkPcapNgOptions Big 128 4 StreamLimits_default.

Definition demo_ng_writer : Writer :=
  match pcapng_with_options (mkSink [] demo_pcap_script) demo_ng_options with Ok w => w | _ => demo_writer [] end.

Definition demo_ng_written : Writer := (run_ops demo_ng_ops demo_ng_writer).2.

Definition demo_ng_interfaces : list Interface :=
  [mkInterface 101 64 (Binary 10) (-7); mkInterface 1 128 (Decimal 9) 0].

Lemma demo_ng_ops_wf : Forall op_wf demo_ng_ops.
Proof.
  assert (forall t c o l i d b, frame_ok (mkFrame (Some t) c o l i d b) -> o <= 4294967295 -> 0 <= l <= 4294967295 -> is_time t ->
    (forall own, i = Some own -> is_u32 own) -> op_wf (OpFrame (mkFrame (Some t) c o l i d b))) as H.
  { intros t c o l i d b ?????. unfold op_wf, frame_wf, is_u32, u32_max. cbn. split_and!; try done; try lia. by intros t' [= <-]. }
  constructor; [|constructor; [|constructor; [done|constructor; [|constructor]]]].
  - cbn. unfold interface_typed, is_u32, is_i64, i64_max, u32_max. cbn. split; [lia|]. repeat constructor; cbn; unfold u16_max; lia.
  - apply H; [by split|lia|lia|reflexivity|done].
  - apply H; [by split|lia|lia|reflexivity|]. intros own [= <-]. unfold is_u32, u32_max. lia.
Qed.

Lemma pcapng_roundtrip_witness : exists r rest r' frames,
  Reader_with_control (fun _ _ => true) ReaderLimits_default None None [Data (sink_bytes (wr_inner demo_ng_written))] = (Ok r, rest) /\
  Reader_format r = PcapNg /\ Reader_endianness r = Big /\
  collect (fun _ _ => true) 3 4097 r = (Ok frames, r') /\
  Forall2 (read_back demo_ng_interfaces) (op_frames demo_ng_ops) frames /\ rd_finished r' = true /\ rd_interfaces r' = demo_ng_interfaces.
Proof.
  apply (pcapng_roundtrip (fun _ _ => true) demo_pcap_script demo_ng_options demo_ng_ops demo_ng_writer demo_ng_written demo_ng_interfaces
    ReaderLimits_default); [cbn; unfold usize_max, u64_max; lia|exact demo_ng_ops_wf|done|vm_compute; reflexivity|vm_compute; reflexivity
    |vm_compute; reflexivity| |apply delivers_one; by vm_compute].
  split; [by vm_compute..|by split; vm_compute|]. repeat constructor; by vm_compute.
Defined.
