(* ===== verification/CaptureCopy.v ===== *)
(** * Capture files: copying and selecting ([rewrite.rs])

    Copies of a whole capture and of the frames a predicate selects, with what
    the output holds on every branch. *)

From stdpp Require Import base tactics option list numbers strings.
From Stdlib Require Import ZArith Lia.
From S2P Require Import Prelude Checksum Ordered Flow Headers HeadersProofs Frame Transform TransformProofs IpRanges.
From S2P Require Import CaptureWire CaptureRead CaptureWrite CaptureStreams CaptureTime CaptureEncode CaptureWriter CaptureReader CaptureBlocks CaptureSafety.

Record SelectionReport : Type := mkSelectionReport {
  sr_format : Format;
  sr_frames_read : Z;
  sr_frames_selected : Z;
  sr_captured_bytes_read : Z;
  sr_captured_bytes_selected : Z;
  sr_interfaces : Z;
  sr_metadata_records : Z
}.

Record RewriteReport : Type := mkRewriteReport {
  rw_format : Format;
  rw_frames : Z;
  rw_captured_bytes : Z;
  rw_interfaces : Z;
  rw_metadata_records : Z
}.

(** A section header whose declared length is replaced by the unknown-length
    sentinel ([pcapng/section.rs]). *)
Definition write_selected_section (raw : bytes) : stm Sink unit :=
  front ← lift (index_range raw 0 16);
  _ ← write_all front;
  _ ← write_all (zrep 8 255);
  tail ← lift (index_range raw 24 (zlen raw));
  write_all tail.

(** The reader a copy borrows and the output it owns. *)
Record Copier : Type := mkCopier {
  cp_reader : Reader;
  cp_output : Sink
}.

Definition on_reader {A} (m : stm Reader A) : stm Copier A :=
  zoom cp_reader (fun r c => mkCopier r (cp_output c)) m.

Definition on_output {A} (m : stm Sink A) : stm Copier A :=
  zoom cp_output (fun output c => mkCopier (cp_reader c) output) m.

(** What the loop does with a record before it is written: the budget and the
    report after it, and whether it is written. *)
Definition consider (predicate : Z -> Frame -> outcome CaptureError bool) (budget : Budget) (report : SelectionReport)
  (record : CaptureRecord) : outcome CaptureError (Budget * SelectionReport * bool) :=
  match rec_frame record with
  | Some frame =>
      budget ← Budget_after budget (captured_length frame);
      let report := mkSelectionReport (sr_format report) (bg_frames budget) (sr_frames_selected report)
                      (bg_captured_bytes budget) (sr_captured_bytes_selected report) (sr_interfaces report)
                      (sr_metadata_records report) in
      keep ← predicate (sr_frames_read report) frame;
      if negb keep then Ok (budget, report, false) else
      Ok (budget, mkSelectionReport (sr_format report) (sr_frames_read report)
                    (saturating_add u64_max (sr_frames_selected report) 1) (sr_captured_bytes_read report)
                    (saturating_add u64_max (sr_captured_bytes_selected report) (captured_length frame))
                    (sr_interfaces report) (sr_metadata_records report), true)
  | None =>
      Ok (budget, mkSelectionReport (sr_format report) (sr_frames_read report) (sr_frames_selected report)
                    (sr_captured_bytes_read report) (sr_captured_bytes_selected report) (sr_interfaces report)
                    (saturating_add u64_max (sr_metadata_records report) 1), true)
  end.

Definition is_section (record : CaptureRecord) : bool :=
  match rec_kind record with KindMetadata (MetaSection _) => true | _ => false end.

Definition write_record (selecting : bool) (record : CaptureRecord) : stm Sink unit :=
  if selecting && is_section record then write_selected_section (rec_raw record) else write_all (rec_raw record).

Section copying.
Context (alloc : capture_allocator) (checks : nat -> option CaptureError * option CaptureError).
Context (selecting : bool) (predicate : Z -> Frame -> outcome CaptureError bool).

(** Each turn takes one record. *)
Fixpoint copy_loop (fuel : nat) (budget : Budget) (report : SelectionReport) : stm Copier SelectionReport :=
  match fuel with
  | O => lift Panic
  | S fuel =>
      record ← on_reader (next_record alloc (checks fuel).1 (checks fuel).2);
      match record with
      | None => mret report
      | Some record =>
          '(budget, report, written) ← lift (consider predicate budget report record);
          _ ← (if written : bool then on_output (write_record selecting record) else mret tt);
          copy_loop fuel budget report
      end
  end.

Definition write_header : stm Copier unit :=
  r ← gets cp_reader;
  on_output (if selecting && bool_decide (Reader_format r = PcapNg)
             then write_selected_section (CaptureHeader_raw (rd_header r))
             else write_all (CaptureHeader_raw (rd_header r))).

(** [flushed] is what flushing the output gives. *)
Definition copy_records (fuel : nat) (limits : StreamLimits) (flushed : option IoError) : stm Copier SelectionReport :=
  budget ← lift (Budget_new limits);
  format ← gets (fun c => Reader_format (cp_reader c));
  _ ← write_header;
  report ← copy_loop fuel budget (mkSelectionReport format 0 0 0 0 0 0);
  _ ← lift (match flushed with Some e => Err (CIo e) | None => Ok tt end);
  interfaces ← gets (fun c => zlen (rd_interfaces (cp_reader c)));
  mret (mkSelectionReport (sr_format report) (sr_frames_read report) (sr_frames_selected report)
          (sr_captured_bytes_read report) (sr_captured_bytes_selected report) interfaces (sr_metadata_records report)).
End copying.

(** [rewrite]: every record is copied verbatim. *)
Definition capture_rewrite (alloc : capture_allocator) (checks : nat -> option CaptureError * option CaptureError) (fuel : nat)
  (limits : StreamLimits) (flushed : option IoError) : stm Copier RewriteReport :=
  report ← copy_records alloc checks false (fun _ _ => Ok true) fuel limits flushed;
  mret (mkRewriteReport (sr_format report) (sr_frames_read report) (sr_captured_bytes_read report) (sr_interfaces report)
          (sr_metadata_records report)).

(** [select]: the predicate is given the one-based number of the frame. *)
Definition capture_select (alloc : capture_allocator) (checks : nat -> option CaptureError * option CaptureError) (fuel : nat)
  (limits : StreamLimits) (flushed : option IoError) (predicate : Z -> Frame -> BoundaryError + bool) : stm Copier SelectionReport :=
  copy_records alloc checks true
    (fun number frame => match predicate number frame with inl e => Err (CPredicate number e) | inr keep => Ok keep end)
    fuel limits flushed.

(** ** What is written *)

(** A section header with an unknown length. *)
Definition selected_section (raw : bytes) : bytes := ztake 16 raw ++ zrep 8 255 ++ zdrop 24 raw.

Lemma write_selected_section_emits raw : 24 <= zlen raw -> emits (write_selected_section raw) (selected_section raw).
Proof.
  intros L. unfold write_selected_section, selected_section. eapply emits_lift_bind; [by rewrite index_range_ok by lia|].
  assert (zslice 0 16 raw = ztake 16 raw) as -> by (unfold zslice; by rewrite zdrop_0).
  do 2 (apply emits_bind; [apply emits_all|intros []]). eapply emits_lift_bind; [by rewrite index_range_ok by lia|].
  assert (zslice 24 (zlen raw) raw = zdrop 24 raw) as ->; [|apply emits_all].
  unfold zslice. apply ztake_all. rewrite zlen_zdrop. lia.
Qed.

(** Every section header has its length field. *)
Definition section_long (record : CaptureRecord) : Prop := is_section record = true -> 24 <= zlen (rec_raw record).

Lemma byte_order_zlen raw e : byte_order raw = Ok e -> zlen raw = 4.
Proof.
  unfold byte_order. destruct (bytes_eqb raw [77; 60; 43; 26]) eqn:E; [apply bool_decide_eq_true_1 in E; by subst|].
  destruct (bytes_eqb raw [26; 43; 60; 77]) eqn:E'; [apply bool_decide_eq_true_1 in E'; by subst|done].
Qed.

Lemma read_section_raw alloc raw_length max_size max_options budget s h s' :
  read_section_header_with_length alloc raw_length max_size max_options budget s = (Ok h, s') -> 24 <= zlen (sh_raw h).
Proof.
  intros H. unfold read_section_header_with_length in H. inv_stm H. inv_stm H. apply lift_Ok in Ha0 as [Hb ->].
  apply byte_order_zlen in Hb. unfold read_section_rest in H. inv_stm H. inv_stm H. destruct (over_budget _ _); [done|].
  destruct (Z.ltb_spec a1 28); [done|]. inv_stm H. apply lift_Ok in H as [H _]. unfold read_exact_vec, read_exact_append in Ha2.
  inv_stm Ha2. inv_stm Ha2. destruct (Z.eqb_spec (zlen a5) (a1 - 12)); [|done]. injection Ha2 as <- _.
  unfold parse_section_header in H. do 4 inv_ok H. destruct (negb _); [done|]. do 4 inv_ok H. destruct (_ || _); [done|].
  do 2 inv_ok H. destruct (_ <? -1); [done|]. destruct (_ && _); [done|]. do 3 inv_ok H. injection H as <-. cbn [sh_raw].
  rewrite !zlen_cons, !zlen_app. pose proof (zlen_nonneg raw_length). lia.
Qed.

Lemma read_next_section_long alloc limits n x n' : read_next_pcapng_record alloc limits n = (Ok (Some x), n') -> section_long x.
Proof.
  intros H Hx. unfold read_next_pcapng_record in H. inv_stm H. inv_stm H. inv_stm H. destruct a1 as [raw|].
  2: { apply lift_Ok in H as [H _]. destruct a as [remaining|]; [destruct (negb _)|]; done. }
  inv_stm H. injection H as -> ->. destruct (bytes_eqb _ _).
  - unfold read_section_record in Ha2. do 7 inv_stm Ha2. injection Ha2 as <- _. cbn [rec_raw]. unfold on_source, zoom in Ha5.
    destruct (read_section_header_with_length _ _ _ _ _ _) as [[h|?|] s''] eqn:E; simplify_eq. by eapply read_section_raw.
  - inv_stm Ha2. unfold decode_record in Ha2. destruct (_ =? _).
    + unfold decode_interface in Ha2. do 2 inv_stm Ha2. destruct a3 as [d options]. do 3 inv_stm Ha2. injection Ha2 as <- _. done.
    + destruct (packet_block_kind _).
      * unfold decode_packet in Ha2. do 4 inv_stm Ha2. injection Ha2 as <- _. done.
      * unfold decode_metadata in Ha2. do 3 inv_stm Ha2. injection Ha2 as <- _. apply lift_Ok in Ha6 as [Hk _].
        destruct a4; try done. destruct (_ =? PCAPNG_NAME_RESOLUTION_BLOCK); [done|].
        destruct (_ =? PCAPNG_INTERFACE_STATISTICS_BLOCK); [|by destruct (_ || _)]. destruct (_ <? 4); [done|].
        inv_ok Hk. by destruct (_ <=? _).
Qed.

Lemma next_record_section_long alloc before after r x r' : next_record alloc before after r = (Ok (Some x), r') -> section_long x.
Proof.
  intros H. unfold next_record in H. destruct (rd_finished r); [done|]. destruct (read_record alloc before after r) as [[[y|]|e|] r1] eqn:E; simplify_eq.
  unfold read_record in E. inv_stm E. inv_stm E. inv_stm E. inv_stm E. injection E as -> _.
  destruct (read_state alloc s) as [[record|e|] s3] eqn:Er; simplify_eq. unfold read_state in Er. destruct (rd_state s) as [state|state].
  - destruct (read_next_pcap_record _ _ _ _) as [o source] eqn:En. injection Er as -> _. unfold read_next_pcap_record in En.
    inv_stm En. destruct a0 as [header|]; [|done]. do 4 inv_stm En. destruct (_ <=? _); [done|]. inv_stm En. destruct (_ <? _); [done|].
    do 3 inv_stm En. injection En as <- _. match goal with H : lift (pcap_record _ _ _ _ _ _) _ = _ |- _ => apply lift_Ok in H as [Hp _] end.
    unfold pcap_record in Hp. do 5 inv_ok Hp. by injection Hp as <-.
  - destruct (read_next_pcapng_record _ _ _) as [o n] eqn:En. injection Er as -> _. by eapply read_next_section_long.
Qed.

Lemma read_header_section_long alloc limits source r rest : read_header alloc limits source = (Ok r, rest) ->
  Reader_format r = PcapNg -> 24 <= zlen (CaptureHeader_raw (rd_header r)).
Proof.
  intros H Hf. unfold read_header in H. inv_stm H. inv_stm H. apply stm_bind_Ok in H as ([state header] & s1 & Hs & H).
  destruct (_ <? _); [done|]. injection H as <- _. unfold Reader_format in Hf. cbn [rd_header] in *. destruct (bytes_eqb a0 _).
  - inv_stm Hs. injection Hs as _ <- _. unfold read_section_header_after_type in Ha1. inv_stm Ha1. by apply read_section_raw in Ha1.
  - destruct (pcap_layout a0) as [[e precision]|]; [|by apply lift_Ok in Hs as [? _]]. apply stm_bind_Ok in Hs as ([st h] & s2 & _ & Hs). injection Hs as _ <- _. done.
Qed.

(** ** Which records are written *)

Definition frames_of (records : list CaptureRecord) : list Frame := omap rec_frame records.
Definition captured_of (records : list CaptureRecord) : Z := foldr (fun f total => captured_length f + total) 0 (frames_of records).

Lemma frames_of_cons x records : frames_of (x :: records) = match rec_frame x with Some f => f :: frames_of records | None => frames_of records end.
Proof. done. Qed.

Lemma captured_of_cons x records :
  captured_of (x :: records) = match rec_frame x with Some f => captured_length f + captured_of records | None => captured_of records end.
Proof. unfold captured_of. rewrite frames_of_cons. by destruct (rec_frame x). Qed.

Lemma frames_of_length records : 0 <= zlen (frames_of records) <= zlen records.
Proof.
  induction records as [|x records IH]; [done|]. rewrite frames_of_cons. destruct (rec_frame x); rewrite ?zlen_cons; lia.
Qed.

Section output.
Context (selecting : bool) (predicate : Z -> Frame -> outcome CaptureError bool).

(** The records that pass, the frames numbered from [n + 1] on. *)
Fixpoint selected (n : Z) (records : list CaptureRecord) : list CaptureRecord :=
  match records with
  | [] => []
  | x :: rest =>
      match rec_frame x with
      | None => x :: selected n rest
      | Some f => match predicate (n + 1) f with Ok true => x :: selected (n + 1) rest | _ => selected (n + 1) rest end
      end
  end.

Definition record_bytes (x : CaptureRecord) : bytes :=
  if selecting && is_section x then selected_section (rec_raw x) else rec_raw x.

Definition output_bytes (n : Z) (records : list CaptureRecord) : bytes := concat (map record_bytes (selected n records)).

Lemma write_record_emits x : section_long x -> emits (write_record selecting x) (record_bytes x).
Proof using.
  intros Hx. unfold write_record, record_bytes. destruct selecting; cbn [andb]; [|apply emits_all].
  destruct (is_section x) eqn:E; [|apply emits_all]. by apply write_selected_section_emits, Hx.
Qed.

(** What a copy has counted when it has gone through these records. *)
Definition counts (budget : Budget) (report : SelectionReport) (records : list CaptureRecord) : SelectionReport :=
  let kept := selected (bg_frames budget) records in
  mkSelectionReport (sr_format report)
    (bg_frames budget + zlen (frames_of records))
    (Z.min u64_max (sr_frames_selected report + zlen (frames_of kept)))
    (bg_captured_bytes budget + captured_of records)
    (Z.min u64_max (sr_captured_bytes_selected report + captured_of kept))
    (sr_interfaces report)
    (Z.min u64_max (sr_metadata_records report + (zlen records - zlen (frames_of records)))).

(** The report of a running copy is that of its budget. *)
Definition report_ok (budget : Budget) (report : SelectionReport) : Prop :=
  sr_frames_read report = bg_frames budget /\ sr_captured_bytes_read report = bg_captured_bytes budget /\
  sr_frames_selected report <= u64_max /\ sr_captured_bytes_selected report <= u64_max /\ sr_metadata_records report <= u64_max.

Lemma report_counts_nil budget report : report_ok budget report -> counts budget report [] = report.
Proof using.
  intros (H1 & H2 & H3 & H4 & H5). unfold counts, captured_of. cbn. change (zlen []) with 0. rewrite !Z.add_0_r, !Z.min_r by lia.
  destruct report. cbn in *. by subst.
Qed.

Lemma captured_of_nonneg records : Forall (fun x => forall f, rec_frame x = Some f -> 0 <= captured_length f) records ->
  0 <= captured_of records.
Proof using.
  induction 1 as [|x records Hx _ IH]; [done|]. rewrite captured_of_cons. destruct (rec_frame x) as [f|]; [|done]. specialize (Hx f eq_refl). lia.
Qed.

(** One turn of the loop, seen from what it has written and counted at the end. *)
Lemma consider_output budget report x budget' report' written records : consider predicate budget report x = Ok (budget', report', written) ->
  output_bytes (bg_frames budget) (x :: records) = (if written then record_bytes x else []) ++ output_bytes (bg_frames budget') records.
Proof using.
  intros H. unfold consider in H. unfold output_bytes. cbn [selected]. destruct (rec_frame x) as [f|]; [|by injection H as <- <- <-].
  inv_ok H. apply Budget_after_Ok in Ha as (_ & Hf & _). cbn [sr_frames_read] in H. inv_ok H. rewrite <- Hf, Ha.
  by destruct a0; injection H as <- <- <-.
Qed.

Lemma consider_counts budget report x budget' report' written records :
  report_ok budget report -> Forall (fun x => forall f, rec_frame x = Some f -> 0 <= captured_length f) (x :: records) ->
  consider predicate budget report x = Ok (budget', report', written) ->
  report_ok budget' report' /\ counts budget' report' records = counts budget report (x :: records).
Proof using.
  intros (H1 & H2 & H3 & H4 & H5) Hnn H. apply Forall_cons_1 in Hnn as [Hx Hrest]. unfold consider in H.
  pose proof (frames_of_length records). pose proof (captured_of_nonneg _ Hrest).
  assert (forall n, 0 <= captured_of (selected n records) /\ 0 <= zlen (frames_of (selected n records))) as Hsel.
  { intros n. split; [|apply frames_of_length]. apply captured_of_nonneg. clear -Hrest. revert n.
    induction Hrest as [|y records Hy Hr IH]; intros n; cbn [selected]; [constructor|]. destruct (rec_frame y) eqn:Ey; [|constructor; [by rewrite Ey|auto]].
    destruct (predicate _ _) as [[]| |]; try constructor; rewrite ?Ey; auto. }
  unfold report_ok, counts. cbn [selected]. rewrite frames_of_cons, captured_of_cons.
  destruct (rec_frame x) as [f|] eqn:Ef.
  - inv_ok H. apply Budget_after_Ok in Ha as (Hl & Hf & Hb & _). cbn [sr_frames_read] in H. inv_ok H.
    rewrite <- Hf, Ha. destruct (Hsel (bg_frames a)). specialize (Hx f eq_refl). unfold saturating_add in H.
    destruct a0; cbn [negb] in H; injection H as <- <- <-; cbn [sr_frames_read sr_frames_selected sr_captured_bytes_read sr_captured_bytes_selected
      sr_interfaces sr_metadata_records sr_format map concat]; rewrite ?frames_of_cons, ?captured_of_cons, ?Ef, ?zlen_cons;
      (split_and!; try done; try lia); f_equal; lia.
  - injection H as <- <- <-. cbn [sr_frames_read sr_frames_selected sr_captured_bytes_read sr_captured_bytes_selected
      sr_interfaces sr_metadata_records sr_format map concat]. unfold saturating_add.
    rewrite ?frames_of_cons, ?captured_of_cons, ?Ef, ?zlen_cons. split_and!; try done; try lia. f_equal; lia.
Qed.
End output.

(** ** The loop *)

Section loop.
Context (alloc : capture_allocator) (checks : nat -> option CaptureError * option CaptureError).
Context (selecting : bool) (predicate : Z -> Frame -> outcome CaptureError bool) (answers : forall n f, predicate n f <> Panic).

Lemma on_reader_bind {A B} (m : stm Reader A) (k : A -> stm Copier B) r o a r' : m r = (Ok a, r') ->
  (on_reader m ≫= k) (mkCopier r o) = k a (mkCopier r' o).
Proof using. intros E. apply stm_bind_eq. unfold on_reader, zoom. cbn. by rewrite E. Qed.

Lemma consider_safe budget report x : consider predicate budget report x <> Panic.
Proof using answers.
  unfold consider. destruct (rec_frame x) as [f|]; [|done]. apply bind_not_Panic; [apply Budget_after_safe|]. intros b _.
  apply bind_not_Panic; [apply answers|]. intros [] _; done.
Qed.

Lemma record_ok_nonneg limits x : record_ok limits x -> forall f, rec_frame x = Some f -> 0 <= captured_length f.
Proof using. intros [_ H] f Hf. destruct (H f Hf) as (((Hc & _) & _) & _). pose proof (zlen_nonneg (frame_bytes f)). lia. Qed.

(** What a copy that has failed has written: a part of the output for the records
    it has seen. *)
Definition partly_written (data : bytes) (n : Z) (o o' : Sink) : Prop :=
  exists records part, concat (map rec_raw records) `prefix_of` data /\
    part `prefix_of` output_bytes selecting predicate n records /\ sink_bytes o' = sink_bytes o ++ part.

Lemma partly_nothing data n o : partly_written data n o o.
Proof using. exists [], []. rewrite app_nil_r. split_and!; [apply prefix_nil|apply prefix_nil|done]. Qed.

Lemma copy_loop_spec fuel : forall budget report r o, reader_ok r -> rd_finished r = false -> report_ok budget report ->
  zlen (source_bytes (rd_inner r)) < Z.of_nat fuel ->
  match copy_loop alloc checks selecting predicate fuel budget report (mkCopier r o) with
  | (Ok report', c) => exists records, read_records alloc fuel checks r = (records, Ok tt, cp_reader c) /\
      sink_bytes (cp_output c) = sink_bytes o ++ output_bytes selecting predicate (bg_frames budget) records /\
      report' = counts predicate budget report records
  | (Err _, c) => partly_written (source_bytes (rd_inner r)) (bg_frames budget) o (cp_output c)
  | (Panic, _) => False
  end.
Proof using answers.
  induction fuel as [|fuel IH]; intros budget report r o Hr Hf Hrep Hz; cbn [copy_loop read_records].
  { pose proof (zlen_nonneg (source_bytes (rd_inner r))). lia. }
  pose proof (next_record_spec alloc (checks fuel).1 (checks fuel).2 r Hr Hf) as Hs. unfold mbind at 1, stm_bind at 1, on_reader, zoom.
  cbn [cp_reader cp_output]. destruct (next_record alloc (checks fuel).1 (checks fuel).2 r) as [[[x|]|err|] r'] eqn:En; [| |apply partly_nothing|done].
  2: { unfold mret, stm_ret. exists []. split; [done|]. rewrite app_nil_r. split; [done|]. by rewrite report_counts_nil. }
  destruct Hs as (Hr' & Hl' & Hf' & [Ht Hne] & Hx). specialize (Hx x eq_refl). cbn in Hf'. rewrite Ht, zlen_app in Hz.
  destruct (nonempty_zlen _ Hne) as [_ Hpos]. pose proof (next_record_section_long _ _ _ _ _ _ En) as Hlong.
  unfold mbind at 1, stm_bind at 1, lift. pose proof (consider_safe budget report x) as Hsafe.
  destruct (consider predicate budget report x) as [[[budget' report'] written]|err|] eqn:Ec; [|apply partly_nothing|done].
  assert (Forall (fun x => forall f, rec_frame x = Some f -> 0 <= captured_length f) [x]) as Hx1 by (constructor; [by eapply record_ok_nonneg|constructor]).
  destruct (consider_counts predicate _ _ _ _ _ _ [] Hrep Hx1 Ec) as (Hrep' & _).
  pose proof (fun records => consider_output selecting predicate _ _ _ _ _ _ records Ec) as Hout.
  assert (match (if written then on_output (write_record selecting x) else mret tt) (mkCopier r' o) with
    | (Ok _, c) => exists o1, c = mkCopier r' o1 /\ sink_bytes o1 = sink_bytes o ++ (if written then record_bytes selecting x else [])
    | (Err _, c) => written = true /\ exists part, part `prefix_of` record_bytes selecting x /\ sink_bytes (cp_output c) = sink_bytes o ++ part
    | (Panic, _) => False end) as Hw.
  { destruct written; [|by eexists; rewrite app_nil_r]. destruct (write_record_emits selecting x Hlong) as [He _]. specialize (He o).
    unfold on_output, zoom. cbn [cp_output cp_reader]. destruct (write_record selecting x o) as [[a|err|] o1]; [by eexists| |done].
    destruct He as [(part & ? & ?) _]. split; [done|]. by exists part. }
  unfold mbind at 1, stm_bind at 1. match goal with |- context [(if written then ?m else ?m') ?c] => destruct ((if written then m else m') c) as [[a|err|] c1] end; [| |done].
  - destruct Hw as (o1 & -> & Ho1). specialize (IH budget' report' r' o1 Hr' Hf' Hrep' ltac:(lia)).
    pose proof (read_records_spec alloc checks fuel r' Hr' Hf' ltac:(lia)) as Hrr.
    destruct (copy_loop _ _ _ _ fuel budget' report' _) as [[report''|err|] c]; [| |done].
    + destruct IH as (records & Er & Hb & ->). rewrite Er in *. destruct Hrr as (_ & _ & Hall & _). exists (x :: records). split; [done|].
      assert (Forall (fun x => forall f, rec_frame x = Some f -> 0 <= captured_length f) (x :: records)) as Hnn.
      { constructor; [by eapply record_ok_nonneg|]. eapply Forall_impl; [exact Hall|]. intros y Hy. by eapply record_ok_nonneg. }
      destruct (consider_counts predicate _ _ _ _ _ _ records Hrep Hnn Ec) as (_ & Hc).
      split; [|done]. by rewrite Hb, Ho1, Hout, <- app_assoc.
    + destruct IH as (records & part & Hp & Hq & Hb). exists (x :: records), ((if written then record_bytes selecting x else []) ++ part).
      split; [rewrite Ht; cbn; by apply prefix_app|]. split; [|by rewrite Hb, Ho1, <- app_assoc].
      rewrite Hout. by apply prefix_app.
  - destruct Hw as (-> & part & Hp & Hb). exists [x], part. split; [|split; [|done]].
    + rewrite Ht. cbn. rewrite app_nil_r. by apply prefix_app_r.
    + rewrite Hout. by apply prefix_app_r.
Qed.

Lemma Budget_after_total b n : 0 <= n -> bg_frames b + 1 <= max_frames (bg_limits b) <= u64_max ->
  bg_captured_bytes b + n <= max_bytes (bg_limits b) <= u64_max ->
  Budget_after b n = Ok (mkBudget (bg_limits b) (bg_frames b + 1) (bg_captured_bytes b + n)).
Proof using.
  intros Hn Hf Hb. unfold Budget_after. rewrite (checked_add_ok _ (bg_frames b)) by lia. cbn [ok_or]. rewrite Ok_bind, (proj2 (Z.ltb_ge _ _)) by lia.
  rewrite checked_add_ok by lia. cbn [ok_or]. by rewrite Ok_bind, (proj2 (Z.ltb_ge _ _)) by lia.
Qed.

(** When the input is read to its end, the predicate always answers, the budget
    suffices and the output accepts everything, the copy succeeds. *)
Lemma copy_loop_total fuel : forall budget report r b records r', (forall n f, exists keep, predicate n f = Ok keep) ->
  read_records alloc fuel checks r = (records, Ok tt, r') ->
  Forall (fun x => forall f, rec_frame x = Some f -> 0 <= captured_length f) records ->
  bg_frames budget + zlen (frames_of records) <= max_frames (bg_limits budget) <= u64_max ->
  bg_captured_bytes budget + captured_of records <= max_bytes (bg_limits budget) <= u64_max ->
  exists report' c, copy_loop alloc checks selecting predicate fuel budget report (mkCopier r (mkSink b [])) = (Ok report', c).
Proof using.
  induction fuel as [|fuel IH]; intros budget report r b records r' Hk E Hnn Hf Hb; cbn [read_records copy_loop] in *; [done|].
  destruct (next_record alloc (checks fuel).1 (checks fuel).2 r) as [[[x|]|err|] r1] eqn:En; [| |done|done].
  2: { rewrite (on_reader_bind _ _ _ _ _ _ En). by do 2 eexists. }
  rewrite (on_reader_bind _ _ _ _ _ _ En). destruct (read_records alloc fuel checks r1) as [[records1 result1] r2] eqn:Er.
  injection E as <- -> ->. apply Forall_cons_1 in Hnn as [Hx Hnn]. rewrite frames_of_cons in Hf. rewrite captured_of_cons in Hb.
  pose proof (frames_of_length records1). pose proof (captured_of_nonneg _ Hnn).
  pose proof (next_record_section_long _ _ _ _ _ _ En) as Hlong.
  assert (exists budget' report' written, consider predicate budget report x = Ok (budget', report', written) /\
    bg_frames budget' + zlen (frames_of records1) <= max_frames (bg_limits budget') <= u64_max /\
    bg_captured_bytes budget' + captured_of records1 <= max_bytes (bg_limits budget') <= u64_max) as (budget' & report' & written & Ec & Hf' & Hb').
  { unfold consider. destruct (rec_frame x) as [f|]; [|by do 3 eexists]. specialize (Hx f eq_refl). rewrite zlen_cons in Hf.
    rewrite Budget_after_total by lia. rewrite Ok_bind. cbn [bg_frames bg_captured_bytes sr_frames_read]. destruct (Hk (bg_frames budget + 1) f) as ([] & ->);
      rewrite Ok_bind; do 3 eexists; (split; [reflexivity|]); cbn; lia. }
  rewrite (lift_bind_eq _ _ _ _ Ec).
  assert (exists b', (if written then on_output (write_record selecting x) else mret tt) (mkCopier r1 (mkSink b [])) = (Ok tt, mkCopier r1 (mkSink b' []))) as (b' & Ew).
  { destruct written; [|by eexists]. destruct (write_record_emits selecting x Hlong) as [_ He]. destruct (He b) as ([] & Ew). unfold on_output, zoom. cbn. rewrite Ew. by eexists. }
  rewrite (stm_bind_eq _ _ _ _ _ Ew). by eapply IH.
Qed.

(** ** The whole copy *)

(** What is written of the header. *)
Definition header_bytes (r : Reader) : bytes :=
  if selecting && bool_decide (Reader_format r = PcapNg) then selected_section (CaptureHeader_raw (rd_header r))
  else CaptureHeader_raw (rd_header r).

Definition header_long (r : Reader) : Prop := Reader_format r = PcapNg -> 24 <= zlen (CaptureHeader_raw (rd_header r)).

Lemma header_emits r : header_long r ->
  emits (if selecting && bool_decide (Reader_format r = PcapNg) then write_selected_section (CaptureHeader_raw (rd_header r))
         else write_all (CaptureHeader_raw (rd_header r))) (header_bytes r).
Proof using.
  intros Hl. unfold header_bytes. destruct selecting; cbn [andb]; [|apply emits_all]. destruct (bool_decide (Reader_format r = PcapNg)) eqn:E; [|apply emits_all].
  by apply write_selected_section_emits, Hl, (bool_decide_eq_true_1 _ E).
Qed.

(** The report of a copy of these records. *)
Definition full_report (r r' : Reader) (records : list CaptureRecord) : SelectionReport :=
  let kept := selected predicate 0 records in
  mkSelectionReport (Reader_format r) (zlen (frames_of records)) (Z.min u64_max (zlen (frames_of kept)))
    (captured_of records) (Z.min u64_max (captured_of kept)) (zlen (rd_interfaces r'))
    (Z.min u64_max (zlen records - zlen (frames_of records))).

Lemma copy_records_spec fuel limits flushed r o : reader_ok r -> rd_finished r = false -> header_long r ->
  zlen (source_bytes (rd_inner r)) < Z.of_nat fuel ->
  match copy_records alloc checks selecting predicate fuel limits flushed (mkCopier r o) with
  | (Ok report, c) => exists records, read_records alloc fuel checks r = (records, Ok tt, cp_reader c) /\
      sink_bytes (cp_output c) = sink_bytes o ++ header_bytes r ++ output_bytes selecting predicate 0 records /\
      report = full_report r (cp_reader c) records
  | (Err _, c) => exists records part, concat (map rec_raw records) `prefix_of` source_bytes (rd_inner r) /\
      part `prefix_of` header_bytes r ++ output_bytes selecting predicate 0 records /\ sink_bytes (cp_output c) = sink_bytes o ++ part
  | (Panic, _) => False
  end.
Proof using answers.
  intros Hr Hf Hl Hz. unfold copy_records. unfold mbind at 1, stm_bind at 1, lift at 1.
  assert (forall part, part `prefix_of` header_bytes r -> exists records part', concat (map rec_raw records) `prefix_of` source_bytes (rd_inner r) /\
    part' `prefix_of` header_bytes r ++ output_bytes selecting predicate 0 records /\ part' = part) as Hfail.
  { intros part Hp. exists [], part. split; [apply prefix_nil|]. split; [by apply prefix_app_r|done]. }
  destruct (Budget_new limits) as [budget|err|] eqn:Eb.
  2: { destruct (Hfail [] (prefix_nil _)) as (l & part & ? & ? & ->). exists l, []. by rewrite app_nil_r. }
  2: { unfold Budget_new, StreamLimits_validate, mbind, outcome_bind in Eb. repeat case_match; done. }
  assert (bg_frames budget = 0 /\ bg_captured_bytes budget = 0) as [Ef0 Eb0].
  { unfold Budget_new in Eb. inv_ok Eb. by injection Eb as <-. }
  unfold mbind at 1, stm_bind at 1, gets at 1. unfold mbind at 1, stm_bind at 1, write_header. rewrite gets_bind. cbn [cp_reader].
  destruct (header_emits r Hl) as [He _]. specialize (He o). unfold on_output, zoom. cbn [cp_reader cp_output].
  match goal with |- context [(if ?b then ?m else ?m') o] => destruct ((if b then m else m') o) as [[a|err|] o1] end; [| |done].
  2: { destruct He as [(part & Hb & Hp) _]. destruct (Hfail part Hp) as (l & part' & ? & ? & ->). by exists l, part. }
  unfold mbind at 1, stm_bind at 1.
  assert (report_ok budget (mkSelectionReport (Reader_format r) 0 0 0 0 0 0)) as Hrep by (unfold report_ok, u64_max; cbn; lia).
  pose proof (copy_loop_spec fuel budget _ r o1 Hr Hf Hrep Hz) as Hs.
  destruct (copy_loop _ _ _ _ fuel budget _ _) as [[report|err|] c]; [| |done].
  - destruct Hs as (records & Er & Hb & ->). rewrite Ef0 in Hb. destruct flushed as [e|]; cbn.
    + pose proof (read_records_spec alloc checks fuel r Hr Hf Hz) as Hrr. rewrite Er in Hrr. destruct Hrr as (_ & _ & _ & skipped & Hsk & _).
      exists records, (header_bytes r ++ output_bytes selecting predicate 0 records). split; [rewrite Hsk; by apply prefix_app_r|].
      split; [done|]. by rewrite Hb, He, <- app_assoc.
    + exists records. split; [done|]. split; [by rewrite Hb, He, <- app_assoc|]. unfold full_report, counts. cbn. by rewrite Ef0, Eb0.
  - destruct Hs as (records & part & Hp & Hq & Hb). rewrite Ef0 in Hq. exists records, (header_bytes r ++ part). split; [done|].
    split; [by apply prefix_app|]. by rewrite Hb, He, <- app_assoc.
Qed.

Lemma copy_records_total fuel limits r o records r' : header_long r -> (forall n f, exists keep, predicate n f = Ok keep) ->
  sink_script o = [] -> read_records alloc fuel checks r = (records, Ok tt, r') ->
  Forall (fun x => forall f, rec_frame x = Some f -> 0 <= captured_length f) records ->
  0 < max_frames limits -> zlen (frames_of records) <= max_frames limits <= u64_max ->
  0 < max_bytes limits -> captured_of records <= max_bytes limits <= u64_max ->
  exists report c, copy_records alloc checks selecting predicate fuel limits None (mkCopier r o) = (Ok report, c).
Proof using.
  intros Hl Hk Hs Er Hnn Hf0 Hf Hb0 Hb. unfold copy_records.
  rewrite (lift_bind_eq _ _ _ (mkBudget limits 0 0)).
  2: { unfold Budget_new, StreamLimits_validate. by rewrite !(proj2 (Z.eqb_neq _ _)) by lia. }
  rewrite gets_bind. cbn [cp_reader]. destruct o as [b script]. cbn in Hs. subst script.
  destruct (header_emits r Hl) as [_ He]. destruct (He b) as (a & Eh).
  rewrite (stm_bind_eq _ _ _ a (mkCopier r (mkSink (b ++ header_bytes r) []))).
  2: { unfold write_header. rewrite gets_bind. unfold on_output, zoom. cbn [cp_reader cp_output]. by rewrite Eh. }
  destruct (copy_loop_total fuel (mkBudget limits 0 0) (mkSelectionReport (Reader_format r) 0 0 0 0 0 0) r (b ++ header_bytes r) records r' Hk Er Hnn Hf Hb) as (report & c & El).
  rewrite (stm_bind_eq _ _ _ _ _ El). by do 2 eexists.
Qed.
End loop.

(** ** Theorems *)

(** What opening a stream gives a copy. *)
Lemma opened_reader alloc limits source r rest : limits_ok limits -> octets (source_bytes source) ->
  Reader_with_control alloc limits None None source = (Ok r, rest) ->
  reader_ok r /\ rd_finished r = false /\ rd_limits r = limits /\ header_long r /\
  source_bytes source = CaptureHeader_raw (rd_header r) ++ source_bytes (rd_inner r) /\
  zlen (source_bytes (rd_inner r)) < Z.of_nat (S (length (source_bytes source))).
Proof.
  intros Hl Ho H. unfold Reader_with_control in H. destruct (read_header alloc limits source) as [result rest'] eqn:E. injection H as -> ->.
  pose proof (read_header_wp alloc limits source Hl Ho) as Hw. unfold wp in Hw. rewrite E in Hw. destruct Hw as (Hr & Hf & Elim & <- & Es).
  split_and!; try done; [intros Hfmt; by eapply read_header_section_long|]. rewrite Es, length_app. unfold zlen. lia.
Qed.

Lemma selected_all n records : selected (fun _ _ => Ok true) n records = records.
Proof. revert n. induction records as [|x records IH]; intros n; cbn; [done|]. destruct (rec_frame x); by rewrite IH. Qed.

Lemma records_nonneg alloc checks limits fuel r records result r' : reader_ok r -> rd_finished r = false -> rd_limits r = limits ->
  zlen (source_bytes (rd_inner r)) < Z.of_nat fuel -> read_records alloc fuel checks r = (records, result, r') ->
  Forall (fun x => forall f, rec_frame x = Some f -> 0 <= captured_length f) records /\
  exists more, source_bytes (rd_inner r) = concat (map rec_raw records) ++ more ++ source_bytes (rd_inner r') /\ (result = Ok tt -> more = []).
Proof.
  intros Hr Hf Hl Hz E. pose proof (read_records_spec alloc checks fuel r Hr Hf Hz) as H. rewrite E in H. destruct H as (_ & _ & Hall & H).
  split; [|done]. eapply Forall_impl; [exact Hall|]. intros x Hx. by eapply record_ok_nonneg.
Qed.

(** C16: Copying a capture is verbatim.  On any stream that opens, whatever its
    contents, cuts and errors, the copy never panics; when it succeeds the output
    has received exactly the bytes taken from the input, in order and nothing
    else, and the report counts its frames, captured bytes, interfaces and
    metadata; when it fails the output has received a part of the input from its
    start.  It does succeed when the input reads to its end, the limits admit its
    frames and the output accepts everything. *)
Theorem capture_rewrite_verbatim (alloc : capture_allocator) (limits : ReaderLimits) (source : Source) (r : Reader) (rest : Source)
  (checks : nat -> option CaptureError * option CaptureError) (ceilings : StreamLimits) (flushed : option IoError) (output : Sink) :
  limits_ok limits -> octets (source_bytes source) -> Reader_with_control alloc limits None None source = (Ok r, rest) ->
  let fuel := S (length (source_bytes source)) in
  match capture_rewrite alloc checks fuel ceilings flushed (mkCopier r output) with
  | (Ok report, c) => exists records copied, read_records alloc fuel checks r = (records, Ok tt, cp_reader c) /\
      source_bytes source = copied ++ source_bytes (rd_inner (cp_reader c)) /\
      sink_bytes (cp_output c) = sink_bytes output ++ copied /\
      report = mkRewriteReport (Reader_format r) (zlen (frames_of records)) (captured_of records)
                 (zlen (rd_interfaces (cp_reader c))) (Z.min u64_max (zlen records - zlen (frames_of records)))
  | (Err _, c) => exists part, part `prefix_of` source_bytes source /\ sink_bytes (cp_output c) = sink_bytes output ++ part
  | (Panic, _) => False
  end /\
  (forall records r', read_records alloc fuel checks r = (records, Ok tt, r') -> sink_script output = [] ->
    0 < max_frames ceilings -> zlen (frames_of records) <= max_frames ceilings <= u64_max ->
    0 < max_bytes ceilings -> captured_of records <= max_bytes ceilings <= u64_max ->
    exists report c, capture_rewrite alloc checks fuel ceilings None (mkCopier r output) = (Ok report, c)).
Proof.
  intros Hl Ho H fuel. destruct (opened_reader _ _ _ _ _ Hl Ho H) as (Hr & Hf & Hlim & Hlong & Es & Hz). fold fuel in Hz. unfold capture_rewrite. split.
  - pose proof (copy_records_spec alloc checks false (fun _ _ => Ok true) ltac:(done) fuel ceilings flushed r output Hr Hf Hlong Hz) as Hs.
    unfold mbind, stm_bind. destruct (copy_records _ _ _ _ _ _ _ _) as [[report|e|] c]; [| |done].
    + destruct Hs as (records & Er & Hb & ->). exists records, (CaptureHeader_raw (rd_header r) ++ concat (map rec_raw records)).
      destruct (records_nonneg _ _ _ _ _ _ _ _ Hr Hf Hlim Hz Er) as (_ & more & Em & Hm). rewrite (Hm eq_refl) in Em.
      unfold output_bytes in Hb. rewrite selected_all in Hb. split_and!; [done|by rewrite Es, Em, <- app_assoc|exact Hb|done].
    + destruct Hs as (records & part & Hp & Hq & Hb). exists part. split; [|done]. unfold output_bytes in Hq. rewrite selected_all in Hq.
      etrans; [exact Hq|]. rewrite Es. by apply prefix_app.
  - intros records r' Er Hs Hf0 Hf1 Hb0 Hb1. destruct (records_nonneg _ _ _ _ _ _ _ _ Hr Hf Hlim Hz Er) as (Hnn & _).
    destruct (copy_records_total alloc checks false (fun _ _ => Ok true) fuel ceilings r output records r' Hlong) as (report & c & E); try done; [by eexists|].
    rewrite (stm_bind_eq _ _ _ _ _ E). by do 2 eexists.
Qed.

(** C17: Selecting frames writes exactly the selection.  On any stream that opens,
    selecting never panics; when it succeeds the output has received the header
    and, in order, every metadata record and exactly the packet records whose
    frame the predicate accepted under its one-based number, each verbatim except
    that a section header declares an unknown length; the report counts what was
    read and what was selected.  When it fails, the output is a part of that for
    the records seen.  It does succeed when the input reads to its end, the
    predicate always answers, the limits admit the frames and the output accepts
    everything. *)
Theorem capture_select_exact (alloc : capture_allocator) (limits : ReaderLimits) (source : Source) (r : Reader) (rest : Source)
  (checks : nat -> option CaptureError * option CaptureError) (ceilings : StreamLimits) (flushed : option IoError) (output : Sink)
  (predicate : Z -> Frame -> BoundaryError + bool) :
  limits_ok limits -> octets (source_bytes source) -> Reader_with_control alloc limits None None source = (Ok r, rest) ->
  let fuel := S (length (source_bytes source)) in
  let accepts := fun number frame => match predicate number frame with inl e => Err (CPredicate number e) | inr keep => Ok keep end in
  match capture_select alloc checks fuel ceilings flushed predicate (mkCopier r output) with
  | (Ok report, c) => exists records, read_records alloc fuel checks r = (records, Ok tt, cp_reader c) /\
      sink_bytes (cp_output c) = sink_bytes output ++ header_bytes true r ++
        concat (map (record_bytes true) (selected accepts 0 records)) /\
      report = full_report accepts r (cp_reader c) records
  | (Err _, c) => exists records part, concat (map rec_raw records) `prefix_of` source_bytes (rd_inner r) /\
      part `prefix_of` header_bytes true r ++ concat (map (record_bytes true) (selected accepts 0 records)) /\
      sink_bytes (cp_output c) = sink_bytes output ++ part
  | (Panic, _) => False
  end /\
  (forall records r', read_records alloc fuel checks r = (records, Ok tt, r') -> sink_script output = [] ->
    (forall n f, exists keep, predicate n f = inr keep) ->
    0 < max_frames ceilings -> zlen (frames_of records) <= max_frames ceilings <= u64_max ->
    0 < max_bytes ceilings -> captured_of records <= max_bytes ceilings <= u64_max ->
    exists report c, capture_select alloc checks fuel ceilings None predicate (mkCopier r output) = (Ok report, c)).
Proof.
  intros Hl Ho H fuel accepts. destruct (opened_reader _ _ _ _ _ Hl Ho H) as (Hr & Hf & Hlim & Hlong & Es & Hz). fold fuel in Hz.
  unfold capture_select. fold accepts. split.
  - apply (copy_records_spec alloc checks true accepts); try done. intros n f. unfold accepts. by destruct (predicate n f).
  - intros records r' Er Hs Hk Hf0 Hf1 Hb0 Hb1. destruct (records_nonneg _ _ _ _ _ _ _ _ Hr Hf Hlim Hz Er) as (Hnn & _).
    eapply copy_records_total; try done. intros n f. destruct (Hk n f) as (keep & E). exists keep. unfold accepts. by rewrite E.
Qed.

(** ** Witnesses *)

(** A block capture in one section of declared length with an interface and two
    packets, delivered in two pieces. *)
Definition demo_blocks : Source :=
  [Data ([10; 13; 13; 10; 0; 0; 0; 28; 26; 43; 60; 77; 0; 1; 0; 0; 0; 0; 0; 0; 0; 0; 0; 92; 0; 0; 0; 28] ++
         [0; 0; 0; 1; 0; 0; 0; 20; 0; 1; 0; 0; 0; 0; 0; 0; 0; 0; 0; 20; 0; 0]);
   Data ([0; 6; 0; 0; 0; 36; 0; 0; 0; 0; 0; 0; 0; 0; 0; 0; 0; 7; 0; 0; 0; 1; 0; 0; 0; 1; 5; 0; 0; 0; 0; 0; 0; 36] ++
         [0; 0; 0; 6; 0; 0; 0; 36; 0; 0; 0; 0; 0; 0; 0; 0; 0; 0; 0; 9; 0; 0; 0; 2; 0; 0; 0; 60; 8; 9; 0; 0; 0; 0; 0; 36])].

Definition demo_open : outcome CaptureError Reader * Source :=
  Reader_with_control (fun _ _ => true) demo_limits None None demo_blocks.

Definition demo_reader : Reader :=
  match demo_open.1 with
  | Ok r => r
  | _ => mkReader [] (ReaderPcap (mkPcapState Little Microseconds 0 0)) (HeaderPcap (mkPcapHeader Little (Decimal 6) 0 0 [])) [] false demo_limits true
  end.

Lemma demo_records_counts :
  let '(records, result, r') := read_records (fun _ _ => true) (S (length (source_bytes demo_blocks))) (fun _ => (None, None)) demo_reader in
  result = Ok tt /\ zlen (frames_of records) = 2 /\ captured_of records = 3 /\ source_bytes (rd_inner r') = [].
Proof. vm_compute. by split_and!. Qed.

Lemma capture_rewrite_verbatim_witness : exists report c,
  capture_rewrite (fun _ _ => true) (fun _ => (None, None)) (S (length (source_bytes demo_blocks))) StreamLimits_default None
    (mkCopier demo_reader (mkSink [] [])) = (Ok report, c) /\
  rw_frames report = 2 /\ sink_bytes (cp_output c) = source_bytes demo_blocks.
Proof.
  assert (Reader_with_control (fun _ _ => true) demo_limits None None demo_blocks = (Ok demo_reader, rd_inner demo_reader)) as Eo
    by (vm_compute; reflexivity).
  destruct (capture_rewrite_verbatim (fun _ _ => true) demo_limits demo_blocks demo_reader (rd_inner demo_reader) (fun _ => (None, None))
    StreamLimits_default None (mkSink [] [])) as [H Htotal]; [split; cbn; lia|by apply octets_check|exact Eo|].
  pose proof demo_records_counts as Hc.
  destruct (read_records (fun _ _ => true) (S (length (source_bytes demo_blocks))) (fun _ => (None, None)) demo_reader) as [[records result] r'] eqn:Er.
  destruct Hc as (-> & E2 & E3 & E4).
  destruct (Htotal records r' eq_refl eq_refl) as (report & c & E); [cbn; unfold u64_max; lia..|].
  rewrite E in H. destruct H as (records' & copied & Er' & Hc & Hb & ->). injection Er' as -> Ec.
  do 2 eexists. split; [exact E|]. cbn [rw_frames]. split; [exact E2|]. rewrite Hb, Hc, <- Ec, E4. symmetry. apply app_nil_r.
Defined.

Lemma demo_selection_sizes :
  let '(records, _, _) := read_records (fun _ _ => true) (S (length (source_bytes demo_blocks))) (fun _ => (None, None)) demo_reader in
  let kept := selected (fun number _ => Ok (number =? 2)) 0 records in
  zlen (frames_of kept) = 1 /\ zlen ([] ++ header_bytes true demo_reader ++ concat (map (record_bytes true) kept)) = 84.
Proof. vm_compute. by split. Qed.

Lemma capture_select_exact_witness : exists report c,
  capture_select (fun _ _ => true) (fun _ => (None, None)) (S (length (source_bytes demo_blocks))) StreamLimits_default None
    (fun number _ => inr (number =? 2)) (mkCopier demo_reader (mkSink [] [])) = (Ok report, c) /\
  sr_frames_read report = 2 /\ sr_frames_selected report = 1 /\ zlen (sink_bytes (cp_output c)) = 84.
Proof.
  assert (Reader_with_control (fun _ _ => true) demo_limits None None demo_blocks = (Ok demo_reader, rd_inner demo_reader)) as Eo
    by (vm_compute; reflexivity).
  destruct (capture_select_exact (fun _ _ => true) demo_limits demo_blocks demo_reader (rd_inner demo_reader) (fun _ => (None, None))
    StreamLimits_default None (mkSink [] []) (fun number _ => inr (number =? 2))) as [H Htotal]; [split; cbn; lia|by apply octets_check|exact Eo|].
  pose proof demo_records_counts as Hc. pose proof demo_selection_sizes as Hd.
  destruct (read_records (fun _ _ => true) (S (length (source_bytes demo_blocks))) (fun _ => (None, None)) demo_reader) as [[records result] r'] eqn:Er.
  destruct Hc as (-> & E2 & E3 & _). destruct (Htotal records r' eq_refl eq_refl) as (report & c & E);
    [intros; eexists; reflexivity|cbn; unfold u64_max; lia..|].
  rewrite E in H. destruct H as (records' & Er' & Hb & ->). injection Er' as <- Ec. destruct Hd as [E5 E6].
  do 2 eexists. split; [exact E|]. split; [exact E2|]. split; [cbn; rewrite E5; reflexivity|]. rewrite Hb. exact E6.
Defined.
