(* ===== verification/CaptureRecords.v ===== *)
(** * Capture files: what the passes over whole captures share

    The check of packet flags ([pcapng/packet.rs]) that mapping and merging make,
    and what one record does to the reader: the interfaces it adds, the frame it
    carries and the frame check sequences it declares. *)

From stdpp Require Import base tactics option list numbers strings.
From Stdlib Require Import ZArith Lia.
From S2P Require Import Prelude Checksum Ordered Flow Headers HeadersProofs Frame Transform TransformProofs IpRanges.
From S2P Require Import CaptureWire CaptureRead CaptureWrite CaptureStreams CaptureTime CaptureEncode CaptureWriter CaptureReader CaptureBlocks CaptureSafety CaptureRoundTrip CaptureDecode CaptureRoundTripNg CaptureCopy.

(** Only a direction that a rewritten packet can carry passes. *)
Fixpoint validate_rewritable_packet_flags (options : list PcapNgOption) (endianness : Endianness) (malformed_reason : string)
  : outcome string unit :=
  match options with
  | [] => Ok tt
  | option :: rest =>
      if negb (opt_code option =? PCAPNG_OPTION_EPB_FLAGS) then validate_rewritable_packet_flags rest endianness malformed_reason else
      if negb (zlen (opt_value option) =? 4) then Err malformed_reason else
      let flags := of_bytes endianness (opt_value option) in
      if negb (Z.land flags (u32_max - 3) =? 0) then Err "extended packet flags"%string else
      if flags =? 3 then Err "undefined packet direction"%string else
      validate_rewritable_packet_flags rest endianness malformed_reason
  end.

Definition DECLARED_FCS : string := "declared frame check sequence".

Lemma flags_safe options e reason : validate_rewritable_packet_flags options e reason <> Panic.
Proof. induction options as [|o options IH]; cbn; [done|]. repeat case_match; done. Qed.

(** ** One record *)

(** A reader with its interfaces: those of its sections, or the one of a classic
    capture. *)
Definition reader_whole (r : Reader) : Prop :=
  reader_ok r /\ Forall interface_wf (rd_interfaces r) /\
  match rd_header r with
  | HeaderPcap _ => exists s, rd_state r = ReaderPcap s /\ zlen (rd_interfaces r) = 1
  | HeaderPcapNg _ => exists s, rd_state r = ReaderPcapNg s
  end.

Lemma reader_whole_ok r : reader_whole r -> reader_ok r.
Proof. by intros [? _]. Qed.

Section records.
Context (alloc : capture_allocator).

Lemma next_record_inv before after r x r' : next_record alloc before after r = (Ok (Some x), r') ->
  exists r1, read_state alloc r = (Ok (Some x), r1) /\ rd_finished r = false /\
    r' = mkReader (rd_inner r1) (rd_state r1) (rd_header r1) (rd_interfaces r1)
           (rd_declares_fcs r1 || record_declares_fcs (Some x)) (rd_limits r1) (rd_finished r1).
Proof using.
  intros H. unfold next_record in H. destruct (rd_finished r) eqn:Ef; [done|].
  destruct (read_record alloc before after r) as [[[y|]|e|] r2] eqn:E; simplify_eq.
  unfold read_record in E. inv_stm E. inv_stm E. inv_stm E. inv_stm E. apply lift_Ok in Ha as [_ ->]. apply lift_Ok in Ha1 as [_ ->].
  injection E as -> ->. destruct (read_state alloc r) as [[record|e|] r1] eqn:Er; simplify_eq. injection Ha2 as <-. by exists s0.
Qed.

(** The frame of a record, and that its packets name an interface the reader has. *)
Definition frame_placed (r : Reader) (x : CaptureRecord) : Prop :=
  forall f, rec_frame x = Some f -> frame_read (rl_max_size (rd_limits r)) f /\
    0 <= default 0 (fr_interface f) < zlen (rd_interfaces r).

Lemma read_state_effect r x r' : reader_whole r -> rd_finished r = false -> read_state alloc r = (Ok (Some x), r') ->
  reader_whole r' /\ record_effect (rd_interfaces r) x (rd_interfaces r') /\ frame_placed r x /\
  rd_header r' = rd_header r /\ rd_declares_fcs r' = rd_declares_fcs r /\ rd_limits r' = rd_limits r /\ rd_finished r' = false.
Proof using.
  intros ([Ho Hr] & Hi & Hh) Hf E. specialize (Hr Hf).
  pose proof (read_state_wp alloc r (conj Ho (fun _ => Hr)) Hf) as Hw. unfold wp in Hw. rewrite E in Hw.
  destruct Hw as (Hr' & Hf' & Hl' & _ & _). unfold read_state in E. destruct (rd_state r) as [state|state] eqn:Es.
  - assert (exists h, rd_header r = HeaderPcap h /\ zlen (rd_interfaces r) = 1) as (h & Eh & H1).
    { destruct (rd_header r) as [h|h]; [destruct Hh as (? & _ & ?); by exists h|by destruct Hh as [? ?]]. }
    pose proof (read_next_pcap_record_wp alloc state (rl_max_size (rd_limits r)) (rd_inner r) (proj2 Hr) Ho) as Hw. unfold wp in Hw.
    destruct (read_next_pcap_record _ _ _ _) as [[record|err|] source]; simplify_eq/=. destruct Hw as [_ Hx].
    destruct (Hx x eq_refl) as (f & Ef & Hfr & Hn & Hk). split; [|split; [|split; [|done]]].
    + split; [done|]. cbn. split; [done|]. rewrite Eh. by exists state.
    + unfold record_effect. rewrite Hk. split; [done|]. by exists f.
    + intros f' Hf2. rewrite Ef in Hf2. injection Hf2 as <-. split; [done|]. rewrite Hn. cbn. lia.
  - assert (exists h, rd_header r = HeaderPcapNg h) as (h & Eh).
    { destruct (rd_header r) as [h|h]; [by destruct Hh as (? & ? & _)|by exists h]. }
    pose proof (read_next_pcapng_record_wp alloc (rd_limits r) (mkNgReader (rd_inner r) state (rd_interfaces r)) Hr Ho) as Hw. unfold wp in Hw.
    destruct (read_next_pcapng_record _ _ _) as [[record|err|] n]; simplify_eq/=. destruct Hw as [_ (Hn & He & Hm)].
    split; [|split; [done|split; [|done]]].
    + split; [done|]. cbn. split; [apply (no_interfaces _ _ _ Hn)|]. rewrite Eh. by eexists.
    + intros f Hfr. rewrite Hfr in Hm. destruct Hm as (Hfread & _ & i & -> & Hb). split; [done|]. cbn.
      unfold record_effect in He. destruct (rec_kind x) as [|[]]; try (destruct He as [He _]; by rewrite He in Hb);
        try (destruct He as [_ He]; by rewrite He in Hfr). destruct He as (_ & _ & He & _). by rewrite He in Hfr.
Qed.

Lemma next_record_effect before after r x r' : reader_whole r -> next_record alloc before after r = (Ok (Some x), r') ->
  reader_whole r' /\ record_effect (rd_interfaces r) x (rd_interfaces r') /\ frame_placed r x /\
  rd_header r' = rd_header r /\ rd_declares_fcs r' = rd_declares_fcs r || record_declares_fcs (Some x) /\
  rd_limits r' = rd_limits r /\ rd_finished r = false /\ rd_finished r' = false.
Proof using.
  intros Hw H. apply next_record_inv in H as (r1 & E & Hf & ->).
  destruct (read_state_effect _ _ _ Hw Hf E) as (Hw1 & He & Hp & Hh & Hd & Hl & Hf1). cbn. rewrite Hd. split_and!; done.
Qed.

(** The end of the stream changes nothing but the flag. *)
Lemma next_record_end before after r r' : reader_whole r -> next_record alloc before after r = (Ok None, r') ->
  reader_whole r' /\ rd_interfaces r' = rd_interfaces r /\ rd_finished r' = true /\ rd_header r' = rd_header r /\
  rd_declares_fcs r' = rd_declares_fcs r.
Proof using.
  intros ([Ho Hr] & Hi & Hh) H. destruct (rd_finished r) eqn:Hf.
  { unfold next_record in H. rewrite Hf in H. injection H as <-. split_and!; try done. split; [split; [done|by rewrite Hf]|done]. }
  pose proof (next_record_spec alloc before after r (conj Ho (fun _ => Hr eq_refl)) Hf) as Hs. rewrite H in Hs. destruct Hs as (Hr' & _ & Hf' & _).
  unfold next_record in H. rewrite Hf in H. destruct (read_record alloc before after r) as [[[y|]|e|] r2] eqn:E; simplify_eq.
  unfold read_record in E. do 4 inv_stm E. apply lift_Ok in Ha as [_ ->]. apply lift_Ok in Ha1 as [_ ->]. injection E as -> ->.
  destruct (read_state alloc r) as [[record|e|] r1] eqn:Er; simplify_eq. injection Ha2 as <-. specialize (Hr eq_refl).
  unfold read_state in Er. destruct (rd_state r) as [state|state] eqn:Es.
  - destruct (read_next_pcap_record _ _ _ _) as [[record|err|] source]; simplify_eq/=. rewrite orb_false_r. by split_and!.
  - pose proof (read_next_pcapng_record_wp alloc (rd_limits r) (mkNgReader (rd_inner r) state (rd_interfaces r)) Hr Ho) as Hw. unfold wp in Hw.
    destruct (read_next_pcapng_record _ _ _) as [[record|err|] n]; simplify_eq/=. destruct Hw as (_ & En & Ei). cbn in En, Ei.
    split_and!; try done; [|cbn; apply orb_false_r]. split; [exact Hr'|]. cbn. rewrite Ei, En. split; [done|].
    destruct (rd_header r); [by destruct Hh as (? & ? & _)|by exists state].
Qed.

(** An open capture. *)
Lemma opened_whole limits source r rest : limits_ok limits -> octets (source_bytes source) ->
  Reader_with_control alloc limits None None source = (Ok r, rest) -> reader_whole r.
Proof using.
  intros Hl Ho H. unfold Reader_with_control in H. destruct (read_header alloc limits source) as [result rest'] eqn:E. injection H as -> ->.
  pose proof (read_header_wp alloc limits source Hl Ho) as Hw. unfold wp in Hw. rewrite E in Hw. destruct Hw as (Hr & _).
  split; [done|]. unfold read_header in E. inv_stm E. inv_stm E. apply lift_Ok in Ha0 as [Hmagic ->].
  apply stm_bind_Ok in E as ([state header] & s1 & Hs & E). destruct (_ <? _); [done|]. injection E as <- _. cbn [rd_interfaces rd_header rd_state].
  destruct (bytes_eqb a0 _).
  { inv_stm Hs. injection Hs as <- <- _. split; [constructor|]. by eexists. }
  destruct (pcap_layout a0) as [[e precision]|]; [|by apply lift_Ok in Hs as [? _]].
  apply stm_bind_Ok in Hs as ([st h] & s2 & Hp & Hs). injection Hs as <- <- _. split; [|by exists st].
  constructor; [|constructor]. unfold read_pcap_header in Hp. inv_stm Hp. apply lift_Ok in Hp as [Hp _].
  pose proof (read_exact_counted_wp (PCAP_GLOBAL_HEADER_LEN - 4) "pcap global header" s ltac:(done)) as Hw. unfold wp in Hw. rewrite Ha0 in Hw.
  destruct Hw as [_ Es]. pose proof (read_exact_or_eof_wp 4 "capture magic" source ltac:(done)) as Hw. unfold wp in Hw. rewrite Ha in Hw.
  destruct a as [magic|]; [|done]. destruct Hw as [_ Es0]. rewrite Es0, Es in Ho. apply octets_concat2 in Ho as [_ Ho]. apply octets_concat2 in Ho as [Ho _].
  do 2 inv_ok Hp. destruct (negb _); [done|]. inv_ok Hp.
  match goal with H : decode_u32 _ (zslice 12 16 _) = Ok ?x |- _ =>
    pose proof (decode_u32_safe e _ (octets_zslice 12 16 _ Ho)) as Hsnap; rewrite H in Hsnap; cbn in Hsnap end.
  destruct (_ =? 0); [done|]. inv_ok Hp. injection Hp as <- <-.
  match goal with H : decode_u32 _ (zslice 16 20 _) = Ok ?x |- _ => pose proof (Z.mod_pos_bound x (2 ^ 16) ltac:(lia)) end.
  unfold interface_wf, PcapState_interface, is_i64, i64_max. cbn. change 65535 with (Z.ones 16). rewrite Z.land_ones by lia. unfold u16_max.
  split_and!; try lia; [done|]. destruct precision; cbn; lia.
Qed.

(** Exactly the packets of a capture carry frames. *)
Definition kind_matches (x : CaptureRecord) : Prop :=
  match rec_kind x with KindMetadata _ => rec_frame x = None | KindPacket _ _ _ _ => is_Some (rec_frame x) end.

(** The description of an interface, as the types of the source have it. *)
Definition description_typed (x : CaptureRecord) : Prop :=
  match rec_kind x with
  | KindMetadata (MetaInterfaceDescription _ _ _ i options) => interface_wf i /\ Forall option_typed options
  | _ => True
  end.

Lemma record_effect_kind interfaces x interfaces' : record_effect interfaces x interfaces' -> kind_matches x.
Proof using. unfold record_effect, kind_matches. destruct (rec_kind x) as [|[]]; tauto. Qed.

Lemma read_records_kinds checks fuel : forall r records result r', reader_whole r ->
  read_records alloc fuel checks r = (records, result, r') -> Forall kind_matches records /\ Forall description_typed records.
Proof using.
  induction fuel as [|fuel IH]; intros r records result r' Hr E; cbn [read_records] in E; [by injection E as <- _ _|].
  destruct (next_record alloc (checks fuel).1 (checks fuel).2 r) as [[[x|]|err|] r1] eqn:En; [|by injection E as <- _ _..].
  destruct (next_record_effect _ _ _ _ _ Hr En) as (Hr1 & Hx & _).
  destruct (read_records alloc fuel checks r1) as [[records1 result1] r2] eqn:Er. injection E as <- <- <-.
  destruct (IH _ _ _ _ Hr1 Er) as [H1 H2]. split; constructor; [by eapply record_effect_kind|done| |done].
  unfold record_effect, description_typed in *. destruct (rec_kind x) as [|[]]; try done. destruct Hx as (Ex & _ & _ & Hcodes).
  destruct Hr1 as (_ & Hi & _). rewrite Ex in Hi. apply Forall_app in Hi as [_ Hi]. by apply Forall_cons_1 in Hi as [? _].
Qed.
End records.

(** A block capture starts without interfaces. *)
Lemma opened_interfaces alloc limits source r rest : Reader_with_control alloc limits None None source = (Ok r, rest) ->
  rd_interfaces r = match rd_state r with ReaderPcap s => [PcapState_interface s] | ReaderPcapNg _ => [] end /\ rd_finished r = false.
Proof.
  intros H. unfold Reader_with_control in H. destruct (read_header alloc limits source) as [result rest'] eqn:E. injection H as -> ->.
  unfold read_header in E. inv_stm E. inv_stm E. apply stm_bind_Ok in E as ([state header] & s1 & Hs & E).
  destruct (_ <? _); [done|]. by injection E as <- _.
Qed.

(** ** Running the operations of a writer *)

Lemma run_ops_app a b w : run_ops (a ++ b) w = (_ ← run_ops a; run_ops b) w.
Proof.
  revert w. induction a as [|op a IH]; intros w; [done|]. cbn [app run_ops]. unfold mbind, stm_bind in *.
  destruct (writer_step op w) as [[[]|err|] w']; [|done|done]. apply IH.
Qed.

Lemma run_ops_snoc ops op w w' : run_ops ops w = (Ok tt, w') -> run_ops (ops ++ [op]) w = writer_step op w'.
Proof.
  intros E. rewrite run_ops_app, (stm_bind_eq _ _ _ _ _ E). cbn [run_ops]. unfold mbind, stm_bind, mret, stm_ret.
  by destruct (writer_step op w') as [[[]|err|] w2].
Qed.

Definition writer_interfaces (w : Writer) : list Interface :=
  match wr_state w with WriterPcapNg _ interfaces => interfaces | WriterPcap _ _ _ _ => [] end.

(** Adding an interface gives it the next number. *)
Lemma add_description_step w d options : writer_wf w -> interface_typed d -> Forall option_typed options ->
  match add_interface_description_with_options d options w with
  | (Ok id, w') => writer_step (OpInterface d options) w = (Ok tt, w') /\ writer_wf w' /\ Writer_endianness w' = Writer_endianness w /\
      id = zlen (writer_interfaces w) /\ id <= u32_max /\ writer_interfaces w' = writer_interfaces w ++ [d] /\
      exists e, wr_state w' = WriterPcapNg e (writer_interfaces w')
  | (Err e, w') => writer_step (OpInterface d options) w = (Err e, w')
  | (Panic, _) => False
  end.
Proof.
  intros Hw Hd Ho. assert (forall r, add_interface_description_with_options d options w = r ->
    writer_step (OpInterface d options) w = (match r.1 with Ok _ => Ok tt | Err e => Err e | Panic => Panic end, r.2)) as Hstep.
  { intros [[id|e|] w'] E; cbn [writer_step]; unfold mbind, stm_bind; by rewrite E. }
  destruct (add_interface_description_with_options d options w) as [[id|e|] w'] eqn:E; specialize (Hstep _ eq_refl); [|done|].
  - split; [exact Hstep|]. destruct (wr_output_failure w) as [failure|] eqn:Hn.
    { by rewrite (writer_step_failed _ _ _ Hn) in Hstep. }
    pose proof (add_description_result w d options Hw Hd Ho Hn) as Hr. rewrite E in Hr.
    destruct Hr as (e & interfaces & tsresol & s & Hadded & -> & Hb & ->). destruct Hadded as [Es [Hu Hm] Hi _ _ _].
    unfold writer_interfaces, Writer_endianness, writer_wf in *. rewrite Es in *. cbn [wr_state wr_max_size]. destruct Hw as (Hsz & Hall & Hcount).
    split; [|by split_and!; [..|eexists]]. split; [done|]. split; [by apply Forall_app; split; [|apply Forall_singleton]|].
    rewrite zlen_app. change (zlen [d]) with 1. lia.
  - destruct (wr_output_failure w) as [failure|] eqn:Hn; [by rewrite (writer_step_failed _ _ _ Hn) in Hstep|].
    pose proof (add_description_result w d options Hw Hd Ho Hn) as Hr. by rewrite E in Hr.
Qed.

Lemma prepare_placed f interfaces max_size max_interfaces enc size prefix id : fr_interface f = Some id ->
  prepare_pcapng f interfaces max_size max_interfaces = Ok (enc, size, prefix) -> exists ts size', enc = EncodePcapNg id ts size' None.
Proof.
  intros Hi H. unfold prepare_pcapng in H. inv_ok H. unfold select_interface in Ha. rewrite Hi in Ha. inv_ok Ha.
  destruct (negb _); [done|]. injection Ha as <-. cbn in H. destruct (_ && _); [done|]. do 4 inv_ok H. destruct (_ <? _); [done|].
  injection H as <- <- <-. by do 2 eexists.
Qed.

(** Writing a frame under an interface of its own leaves the interfaces alone. *)
Lemma write_frame_step w f id : writer_wf w -> frame_wf f -> fr_interface f = Some id ->
  match write_frame f w with
  | (Ok _, w') => writer_wf w' /\ wr_state w' = wr_state w
  | (Err _, _) => True
  | (Panic, _) => False
  end.
Proof.
  intros Hw Hf Hi. destruct (prepare_frame w f) as [plan|e|] eqn:Hp.
  - destruct (write_frame_spec w f plan Hw Hf Hp) as [H _]. destruct (write_frame f w) as [[a|e|] w']; [|done|done].
    destruct H as (s & _ & ->). apply prepare_frame_planned in Hp as Hpl; [|done..].
    assert (after_encoding (wr_state w) (fp_encoding plan) = wr_state w) as E.
    { unfold prepare_frame in Hp. do 3 inv_ok Hp. apply bind_Ok in Hp as ([[enc size] prefix] & Hp & Hq). inv_ok Hq. injection Hq as <-.
      cbn [fp_encoding]. destruct (wr_state w) as [|e interfaces]; [by destruct enc|].
      apply (prepare_placed _ _ _ _ _ _ _ _ Hi) in Hp as (ts & size' & ->). cbn. unfold with_new. by rewrite app_nil_r. }
    split; [|exact E]. eapply writer_wf_after; [done|exact Hpl|done|by right].
  - unfold write_frame, mbind, stm_bind. by rewrite Hp.
  - unfold write_frame, mbind, stm_bind. rewrite Hp. destruct (wr_output_failure w) eqn:En.
    + unfold prepare_frame, ensure_output_available in Hp. by rewrite En in Hp.
    + pose proof (prepare_frame_ends w f Hw Hf En) as He. by rewrite Hp in He.
Qed.
