(* ===== verification/CaptureMap.v ===== *)
(** * Capture files: mapping every frame ([map.rs])

    A pass that writes every frame of a capture, changed by a function of the
    caller, into a block capture with the interfaces of the input; the plan of
    writer operations it amounts to, and that it carries out exactly that plan. *)

From stdpp Require Import base tactics option list numbers strings.
From Stdlib Require Import ZArith Lia.
From S2P Require Import Prelude Checksum Ordered Flow Headers HeadersProofs Frame Transform TransformProofs IpRanges.
From S2P Require Import CaptureWire CaptureRead CaptureWrite CaptureStreams CaptureTime CaptureEncode CaptureWriter CaptureReader CaptureBlocks CaptureSafety.
From S2P Require Import CaptureRoundTrip CaptureDecode CaptureRoundTripNg CaptureCopy CaptureRecords.

Record MapReport : Type := mkMapReport {
  mr_frames_read : Z;
  mr_frames_changed : Z;
  mr_captured_bytes_read : Z;
  mr_captured_bytes_written : Z;
  mr_interfaces : Z;
  mr_source_metadata_records : Z
}.

Definition Writer_format (w : Writer) : Format :=
  match wr_state w with WriterPcap _ _ _ _ => Pcap | WriterPcapNg _ _ => PcapNg end.

(** The reader and the writer the pass borrows. *)
Record Mapper : Type := mkMapper {
  mp_reader : Reader;
  mp_output : Writer
}.

Definition on_input {A} (m : stm Reader A) : stm Mapper A :=
  zoom mp_reader (fun r s => mkMapper r (mp_output s)) m.

Definition on_writer {A} (m : stm Writer A) : stm Mapper A :=
  zoom mp_output (fun output s => mkMapper (mp_reader s) output) m.

(** ** Interfaces *)

Definition is_speed (code : Z) : bool :=
  (code =? PCAPNG_OPTION_IF_SPEED) || (code =? PCAPNG_OPTION_IF_TXSPEED) || (code =? PCAPNG_OPTION_IF_RXSPEED).

Definition rewrite_interface_option (option : PcapNgOption) (source target : Endianness) : outcome CaptureError PcapNgOption :=
  if bool_decide (source = target) || negb (is_speed (opt_code option)) then Ok option else
  if negb (zlen (opt_value option) =? 8) then Err (CTransformMetadata "malformed interface speed") else
  Ok (mkPcapNgOption (opt_code option) (rev (opt_value option))).

(** The writer generates the end of options, the resolution and the offset itself. *)
Fixpoint retained_options (options : list PcapNgOption) (source target : Endianness) : outcome CaptureError (list PcapNgOption) :=
  match options with
  | [] => Ok []
  | option :: rest =>
      if (opt_code option =? PCAPNG_OPTION_END) || (opt_code option =? PCAPNG_OPTION_IF_TSRESOL)
         || (opt_code option =? PCAPNG_OPTION_IF_TSOFFSET)
      then retained_options rest source target else
      option ← rewrite_interface_option option source target;
      rest ← retained_options rest source target;
      Ok (option :: rest)
  end.

Definition grown_interface (interface : Interface) (growth : Z) : outcome CaptureError Interface :=
  if if_snap_len interface =? 0 then Ok interface else
  snap_len ← ok_or (CInvalidData PcapNg "rewritten interface snapshot length overflows")
    (checked_add u32_max (if_snap_len interface) (as_u32 growth));
  Ok (mkInterface (if_link_type interface) snap_len (if_timestamp_resolution interface) (if_timestamp_offset interface)).

(** [add_interface]. *)
Definition add_mapped_interface (interface : Interface) (options : list PcapNgOption) (growth : Z) (source_endianness : Endianness)
  : stm Writer Z :=
  interface ← lift (grown_interface interface growth);
  target ← gets Writer_endianness;
  retained ← lift (retained_options options source_endianness target);
  add_interface_description_with_options interface retained.

(** ** Frames *)

#[export] Instance Direction_eq_dec : EqDecision Direction.
Proof. solve_decision. Defined.

Definition same_identity (frame changed : Frame) : bool :=
  bool_decide (fr_timestamp changed = fr_timestamp frame) && bool_decide (fr_interface changed = fr_interface frame)
  && (link_type changed =? link_type frame) && bool_decide (fr_direction changed = fr_direction frame).

(** A frame of a classic capture goes to interface zero. *)
Definition placed (f : Frame) : Frame :=
  if is_none (fr_interface f) then with_identity f (Some 0) (fr_direction f) else f.

Section mapping.
Context (alloc : capture_allocator) (checks : nat -> option CaptureError * option CaptureError).
Context (mapper : Z -> Frame -> BoundaryError + Frame) (limits : StreamLimits) (growth : Z).

(** What is written for a packet, with the budget and the report before it is. *)
Definition map_packet (budget : Budget) (report : MapReport) (endianness : Endianness) (options : list PcapNgOption)
  (frame : option Frame) : outcome CaptureError (Budget * MapReport * Frame) :=
  _ ← map_err CTransformMetadata (validate_rewritable_packet_flags options endianness "malformed packet flags");
  frame ← ok_or (CTransformMetadata "packet record without frame") frame;
  budget ← Budget_after budget (captured_length frame);
  let number := bg_frames budget in
  changed ← match mapper number frame with inl e => Err (CTransform number e) | inr changed => Ok changed end;
  if negb (same_identity frame changed) then Err (CTransformIdentity number) else
  if saturating_add usize_max (zlen (frame_bytes frame)) growth <? zlen (frame_bytes changed)
  then Err (CTransformMetadata "mapper exceeded declared frame growth") else
  frames_changed ← (if bytes_eqb (frame_bytes changed) (frame_bytes frame) then Ok (mr_frames_changed report)
                    else add_u (mr_frames_changed report) 1);
  Ok (budget, mkMapReport number frames_changed (bg_captured_bytes budget) (mr_captured_bytes_written report)
                (mr_interfaces report) (mr_source_metadata_records report), placed changed).

Definition count_metadata (report : MapReport) : outcome CaptureError MapReport :=
  records ← add_u (mr_source_metadata_records report) 1;
  Ok (mkMapReport (mr_frames_read report) (mr_frames_changed report) (mr_captured_bytes_read report)
        (mr_captured_bytes_written report) (mr_interfaces report) records).

(** One interface of the input, under the number it must have. *)
Definition map_interface (interface : Interface) (options : list PcapNgOption) (number : Z) (endianness : Endianness)
  (report : MapReport) : stm Mapper MapReport :=
  id ← on_writer (add_mapped_interface interface options growth endianness);
  if negb (id =? number) then throw (CTransformMetadata "nonempty output interface table") else
  interfaces ← lift (add_u (mr_interfaces report) 1);
  mret (mkMapReport (mr_frames_read report) (mr_frames_changed report) (mr_captured_bytes_read report)
          (mr_captured_bytes_written report) interfaces (mr_source_metadata_records report)).

(** The body of the loop: the budget, the report and the byte order after a record. *)
Definition map_record (budget : Budget) (report : MapReport) (endianness : Endianness) (record : CaptureRecord)
  : stm Mapper (Budget * MapReport * Endianness) :=
  match rec_kind record with
  | KindMetadata metadata =>
      report ← lift (count_metadata report);
      match metadata with
      | MetaSection section => mret (budget, report, sec_endianness section)
      | MetaInterfaceDescription _ _ global_id interface options =>
          _ ← (fun m => (refuse_declared_fcs (mp_reader m), m));
          report ← map_interface interface options global_id endianness report;
          mret (budget, report, endianness)
      | _ => mret (budget, report, endianness)
      end
  | KindPacket _ _ _ options =>
      '(budget, report, changed) ← lift (map_packet budget report endianness options (rec_frame record));
      _ ← on_writer (write_frame changed);
      written ← lift (ok_or (CStreamByteLimitExceeded u64_max (max_bytes limits))
        (checked_add u64_max (mr_captured_bytes_written report) (captured_length changed)));
      mret (budget, mkMapReport (mr_frames_read report) (mr_frames_changed report) (mr_captured_bytes_read report)
                      written (mr_interfaces report) (mr_source_metadata_records report), endianness)
  end.

(** Each turn takes one record. *)
Fixpoint map_loop (fuel : nat) (budget : Budget) (report : MapReport) (endianness : Endianness) : stm Mapper MapReport :=
  match fuel with
  | O => lift Panic
  | S fuel =>
      record ← on_input (next_record alloc (checks fuel).1 (checks fuel).2);
      match record with
      | None => mret report
      | Some record =>
          '(budget, report, endianness) ← map_record budget report endianness record;
          map_loop fuel budget report endianness
      end
  end.

(** The interfaces of a classic capture, numbered by the count so far. *)
Fixpoint map_interfaces (interfaces : list Interface) (endianness : Endianness) (report : MapReport) : stm Mapper MapReport :=
  match interfaces with
  | [] => mret report
  | interface :: rest =>
      report ← map_interface interface [] (mr_interfaces report) endianness report;
      map_interfaces rest endianness report
  end.

Definition map_frames (fuel : nat) : stm Mapper MapReport :=
  budget ← lift (Budget_new limits);
  format ← gets (fun m => Writer_format (mp_output m));
  if negb (bool_decide (format = PcapNg)) then throw (CWrongWriterFormat PcapNg format) else
  if 256 <? growth then throw (CTransformMetadata "more than 256 growth bytes per frame") else
  endianness ← gets (fun m => Reader_endianness (mp_reader m));
  _ ← (fun m => (refuse_declared_fcs (mp_reader m), m));
  reader ← gets mp_reader;
  report ← (match rd_header reader with
            | HeaderPcap _ => map_interfaces (rd_interfaces reader) endianness (mkMapReport 0 0 0 0 0 0)
            | HeaderPcapNg _ => mret (mkMapReport 0 0 0 0 0 0)
            end);
  map_loop fuel budget report endianness.
End mapping.

(** ** The plan

    What the records of an input ask of the writer, without any state: one
    operation for each interface and each frame, or nothing when the pass must
    refuse them. *)

(** The interface wide enough for frames that grow: a snapshot length of zero means
    none, any other grows with them and must still fit 32 bits. *)
Definition widened (growth : Z) (i : Interface) : option Interface :=
  if decide (if_snap_len i = 0) then Some i
  else if decide (if_snap_len i + growth < 2 ^ 32)
  then Some {| if_link_type := if_link_type i; if_snap_len := if_snap_len i + growth;
               if_timestamp_resolution := if_timestamp_resolution i; if_timestamp_offset := if_timestamp_offset i |}
  else None.

(** The options whose value is an eight-byte integer in the byte order of its
    section: if_speed, if_txspeed and if_rxspeed. *)
Definition speed_codes : list Z := [8; 16; 17].

(** The options the writer generates itself: the end, if_tsresol and if_tsoffset. *)
Definition generated_codes : list Z := [0; 9; 14].

(** The eight bytes of an integer in the other byte order. *)
Definition swapped (value : bytes) : bytes := (fun k => at_ value (7 - k)) <$> seqZ 0 8.

Definition carried_option (source target : Endianness) (o : PcapNgOption) : option PcapNgOption :=
  if decide (opt_code o ∉ speed_codes \/ source = target) then Some o
  else if decide (zlen (opt_value o) = 8)
  then Some {| opt_code := opt_code o; opt_value := swapped (opt_value o) |} else None.

Definition carried_options (source target : Endianness) (options : list PcapNgOption) : option (list PcapNgOption) :=
  mapM (carried_option source target) (filter (fun o => opt_code o ∉ generated_codes) options).

(** The caller's function may change the bytes and the lengths of a frame only. *)
Definition same_capture (f g : Frame) : Prop :=
  (fr_timestamp g, fr_interface g, link_type g, fr_direction g) =
  (fr_timestamp f, fr_interface f, link_type f, fr_direction f).

#[export] Instance same_capture_dec f g : Decision (same_capture f g).
Proof. unfold same_capture. apply _. Defined.

Section plan.
Context (mapper : Z -> Frame -> BoundaryError + Frame) (growth : Z) (target : Endianness).

Definition interface_op (e : Endianness) (i : Interface) (options : list PcapNgOption) : option writer_op :=
  i ← widened growth i;
  options ← carried_options e target options;
  Some (OpInterface i options).

(** A frame of a classic capture is written under interface zero. *)
Definition mapped_frame (n : Z) (f : Frame) : option Frame :=
  match mapper n f with
  | inr g =>
      if bool_decide (same_capture f g) && (zlen (frame_bytes g) <=? saturating_add usize_max (zlen (frame_bytes f)) growth)
      then Some {| fr_timestamp := fr_timestamp g; captured_length := captured_length g; original_length := original_length g;
                   link_type := link_type g; fr_interface := Some (default 0 (fr_interface g)); fr_direction := fr_direction g;
                   frame_bytes := frame_bytes g |}
      else None
  | inl _ => None
  end.

(** The operations of one record after [n] frames, and the byte order after it. *)
Definition record_ops (e : Endianness) (n : Z) (x : CaptureRecord) : option (list writer_op) :=
  match rec_kind x with
  | KindMetadata (MetaInterfaceDescription _ _ _ i options) =>
      if existsb PcapNgOption_declares_fcs options then None else op ← interface_op e i options; Some [op]
  | KindMetadata _ => Some []
  | KindPacket _ _ _ options =>
      match validate_rewritable_packet_flags options e "", rec_frame x with
      | Ok _, Some f => g ← mapped_frame (n + 1) f; Some [OpFrame g]
      | _, _ => None
      end
  end.

Definition next_endianness (e : Endianness) (x : CaptureRecord) : Endianness :=
  match rec_kind x with KindMetadata (MetaSection section) => sec_endianness section | _ => e end.

Fixpoint map_plan (e : Endianness) (n : Z) (records : list CaptureRecord) : option (list writer_op) :=
  match records with
  | [] => Some []
  | x :: rest =>
      ops ← record_ops e n x;
      more ← map_plan (next_endianness e x) (n + zlen (frames_of [x])) rest;
      Some (ops ++ more)
  end.

(** A classic capture begins with its interface. *)
Definition header_plan (r : Reader) : option (list writer_op) :=
  match rd_header r with
  | HeaderPcap _ => mapM (fun i => interface_op (Reader_endianness r) i []) (rd_interfaces r)
  | HeaderPcapNg _ => Some []
  end.
End plan.

(** The captured bytes of the frames written. *)
Definition captured_total (frames : list Frame) : Z := foldr (fun f total => captured_length f + total) 0 frames.

(** How many frames the pass changes. *)
Fixpoint frames_altered (mapper : Z -> Frame -> BoundaryError + Frame) (n : Z) (frames : list Frame) : Z :=
  match frames with
  | [] => 0
  | f :: rest =>
      (match mapper (n + 1) f with inr g => if bytes_eqb (frame_bytes g) (frame_bytes f) then 0 else 1 | inl _ => 0 end)
      + frames_altered mapper (n + 1) rest
  end.

(** ** The code meets the plan *)

Lemma grown_interface_widened i growth : 0 <= growth <= 256 ->
  widened growth i = match grown_interface i growth with Ok j => Some j | _ => None end.
Proof.
  intros Hg. unfold widened, grown_interface. assert (as_u32 growth = growth) as -> by (unfold as_u32; rewrite Z.mod_small; lia).
  destruct (Z.eqb_spec (if_snap_len i) 0); [by rewrite decide_True|]. rewrite decide_False by done.
  unfold checked_add. change (2 ^ 32) with (u32_max + 1).
  destruct (Z.leb_spec (if_snap_len i + growth) u32_max); [by rewrite decide_True by lia|by rewrite decide_False by lia].
Qed.

Lemma swapped_rev value : zlen value = 8 -> swapped value = rev value.
Proof.
  unfold zlen. intros H. do 8 (destruct value as [|? value]; [cbn in H; lia|]). destruct value; [done|cbn in H; lia].
Qed.

(** The value reads as the same number in the other byte order. *)
Lemma swapped_reads_same source target value : source <> target -> zlen value = 8 ->
  of_bytes target (swapped value) = of_bytes source value.
Proof. intros Hne Hz. rewrite (swapped_rev _ Hz). destruct source, target; try done; unfold of_bytes; by rewrite ?rev_involutive. Qed.

Lemma rewrite_option_carried o source target :
  carried_option source target o = match rewrite_interface_option o source target with Ok o' => Some o' | _ => None end.
Proof.
  unfold carried_option, rewrite_interface_option.
  assert (is_speed (opt_code o) = bool_decide (opt_code o ∈ speed_codes)) as ->.
  { apply eq_true_iff_eq. unfold is_speed, speed_codes. rewrite bool_decide_eq_true, !orb_true_iff, !Z.eqb_eq.
    rewrite !elem_of_cons. unfold PCAPNG_OPTION_IF_SPEED, PCAPNG_OPTION_IF_TXSPEED, PCAPNG_OPTION_IF_RXSPEED.
    pose proof (not_elem_of_nil (opt_code o)). tauto. }
  destruct (decide (_ \/ _)) as [Hd|Hd].
  - destruct Hd as [Hd|Hd]; [rewrite (bool_decide_false _ Hd), orb_true_r|rewrite (bool_decide_true _ Hd)]; done.
  - rewrite (bool_decide_false (source = target)), (bool_decide_true (opt_code o ∈ _)) by (destruct (decide (opt_code o ∈ speed_codes)); tauto).
    cbn [orb negb]. destruct (Z.eqb_spec (zlen (opt_value o)) 8) as [Hz|Hz]; cbn [negb].
    + rewrite decide_True by done. by rewrite swapped_rev.
    + by rewrite decide_False.
Qed.

Lemma retained_options_carried options source target :
  carried_options source target options = match retained_options options source target with Ok kept => Some kept | _ => None end.
Proof.
  unfold carried_options. induction options as [|o options IH]; [done|]. cbn [retained_options]. rewrite filter_cons.
  assert ((opt_code o =? PCAPNG_OPTION_END) || (opt_code o =? PCAPNG_OPTION_IF_TSRESOL) || (opt_code o =? PCAPNG_OPTION_IF_TSOFFSET)
    = bool_decide (opt_code o ∈ generated_codes)) as ->.
  { apply eq_true_iff_eq. unfold generated_codes. rewrite bool_decide_eq_true, !orb_true_iff, !Z.eqb_eq, !elem_of_cons.
    unfold PCAPNG_OPTION_END, PCAPNG_OPTION_IF_TSRESOL, PCAPNG_OPTION_IF_TSOFFSET. pose proof (not_elem_of_nil (opt_code o)). tauto. }
  destruct (decide (opt_code o ∉ generated_codes)) as [Hd|Hd].
  - rewrite bool_decide_false by done. cbn [mapM]. rewrite IH, rewrite_option_carried.
    destruct (rewrite_interface_option o source target); [|done|done]. rewrite Ok_bind. cbn [mbind option_bind].
    by destruct (retained_options options source target).
  - rewrite bool_decide_true by (destruct (decide (opt_code o ∈ generated_codes)); tauto). exact IH.
Qed.

Lemma interface_op_code growth target e i options : 0 <= growth <= 256 ->
  interface_op growth target e i options =
  match grown_interface i growth, retained_options options e target with
  | Ok i, Ok options => Some (OpInterface i options)
  | _, _ => None
  end.
Proof.
  intros Hg. unfold interface_op. rewrite grown_interface_widened, retained_options_carried by done.
  destruct (grown_interface i growth), (retained_options options e target); done.
Qed.

Lemma interface_op_frames growth target e i options op : interface_op growth target e i options = Some op -> op_frames [op] = [].
Proof. intros H. unfold interface_op in H. apply bind_Some in H as (j & _ & H). by apply bind_Some in H as (kept & _ & [= <-]). Qed.

Lemma mapped_frame_code mapper growth n f :
  mapped_frame mapper growth n f =
  match mapper n f with
  | inr g => if same_identity f g && (zlen (frame_bytes g) <=? saturating_add usize_max (zlen (frame_bytes f)) growth)
             then Some (placed g) else None
  | inl _ => None
  end.
Proof.
  unfold mapped_frame. destruct (mapper n f) as [|g]; [done|].
  assert (bool_decide (same_capture f g) = same_identity f g) as ->.
  { apply eq_true_iff_eq. unfold same_identity, same_capture. rewrite !andb_true_iff, !bool_decide_eq_true, Z.eqb_eq.
    split; [by intros [= -> -> -> ->]|by intros [[[-> ->] ->] ->]]. }
  destruct (_ && _); [|done]. unfold placed, with_identity. by destruct g as [? ? ? ? [?|] ? ?].
Qed.

(** ** One record *)

Lemma flags_reason options e a b : validate_rewritable_packet_flags options e a = Ok tt -> validate_rewritable_packet_flags options e b = Ok tt.
Proof. induction options as [|o options IH]; cbn; [done|]. repeat case_match; try done; auto. Qed.

Lemma grown_interface_safe i growth : interface_wf i -> 0 <= growth <= 256 ->
  safe (grown_interface i growth) (fun j => interface_wf j /\ if_link_type j = if_link_type i /\
    if_timestamp_resolution j = if_timestamp_resolution i /\ if_timestamp_offset j = if_timestamp_offset i).
Proof.
  intros Hi Hg. unfold grown_interface. destruct (_ =? _); [done|]. apply safe_bind, safe_ok_or.
  intros snap_len [-> Hs]%checked_add_Some. cbn. destruct Hi as (H1 & H2 & H3 & H4). split; [|done].
  unfold interface_wf, is_u32 in *. cbn. assert (as_u32 growth = growth) as E by (unfold as_u32; rewrite Z.mod_small; lia).
  rewrite E in *. split_and!; try done; lia.
Qed.

Lemma retained_options_safe options source target : Forall option_typed options ->
  safe (retained_options options source target) (Forall option_typed).
Proof.
  induction 1 as [|o options Ho _ IH]; cbn; [constructor|]. destruct (_ || _); [done|]. apply safe_bind.
  eapply (safe_mono _ option_typed).
  - unfold rewrite_interface_option. destruct (_ || _); [done|]. by destruct (negb _).
  - intros o' Ho'. apply safe_bind. eapply safe_mono; [exact IH|]. intros rest Hr. by constructor.
Qed.

Lemma interface_wf_typed i : interface_wf i -> interface_typed i.
Proof.
  intros Hi. pose proof (interface_wf_resolution i Hi). pose proof (interface_wf_link i Hi). destruct Hi as (_ & H2 & _ & H4). done.
Qed.

Lemma placed_interface f : exists id, fr_interface (placed f) = Some id.
Proof. unfold placed. destruct (fr_interface f) eqn:E; cbn; eauto. Qed.

Lemma placed_wf f : frame_wf f -> frame_wf (placed f).
Proof.
  intros Hf. unfold placed. destruct (fr_interface f) eqn:E; cbn; [done|]. destruct Hf as (H1 & H2 & H3 & H4 & _).
  unfold frame_wf, frame_ok in *. cbn. split_and!; try done; try apply H1. intros i [= <-]. unfold is_u32, u32_max. lia.
Qed.

Lemma captured_placed f : captured_length (placed f) = captured_length f.
Proof. unfold placed. by destruct (fr_interface f). Qed.

(** What a failed pass has done to the writer: nothing more, or a run of these
    operations. *)
Definition attempted (plan : option (list writer_op)) (w w' : Writer) : Prop :=
  w' = w \/ exists ops result, plan = Some ops /\ run_ops ops w = (result, w').

Lemma run_one op w : run_ops [op] w = writer_step op w.
Proof. cbn. unfold mbind, stm_bind, mret, stm_ret. by destruct (writer_step op w) as [[[]|err|] w']. Qed.

Lemma add_mapped_interface_spec i options growth e w : writer_wf w -> interface_wf i -> Forall option_typed options -> 0 <= growth <= 256 ->
  match add_mapped_interface i options growth e w with
  | (Ok id, w') => exists op, interface_op growth (Writer_endianness w) e i options = Some op /\ writer_step op w = (Ok tt, w') /\
      writer_wf w' /\ Writer_endianness w' = Writer_endianness w /\ id = zlen (writer_interfaces w) /\
      zlen (writer_interfaces w') = zlen (writer_interfaces w) + 1
  | (Err _, w') => attempted (op ← interface_op growth (Writer_endianness w) e i options; Some [op]) w w'
  | (Panic, _) => False
  end.
Proof.
  intros Hw Hi Ho Hg. rewrite interface_op_code by done. unfold add_mapped_interface. unfold mbind at 1, stm_bind at 1, lift at 1.
  pose proof (grown_interface_safe i growth Hi Hg) as Hgrown. destruct (grown_interface i growth) as [j|err|]; [|by left|done].
  destruct Hgrown as [Hj _]. rewrite gets_bind. unfold mbind at 1, stm_bind at 1, lift at 1.
  pose proof (retained_options_safe options e (Writer_endianness w) Ho) as Hret.
  destruct (retained_options options e (Writer_endianness w)) as [kept|err|]; [|by left|done]. cbn in Hret.
  pose proof (add_description_step w j kept Hw (interface_wf_typed j Hj) Hret) as Hs.
  destruct (add_interface_description_with_options j kept w) as [[id|err|] w']; [| |done].
  - destruct Hs as (H1 & H2 & H3 & H4 & _ & H5 & _). exists (OpInterface j kept). rewrite H5, zlen_app. change (zlen [j]) with 1. done.
  - right. exists [OpInterface j kept], (Err err). split; [done|]. by rewrite run_one.
Qed.

Section spec.
Context (alloc : capture_allocator) (checks : nat -> option CaptureError * option CaptureError).
Context (mapper : Z -> Frame -> BoundaryError + Frame) (limits : StreamLimits) (growth : Z).
Context (mapper_wf : forall n f g, mapper n f = inr g -> frame_wf g) (growth_ok : 0 <= growth <= 256).

Lemma map_interface_spec i options number e report r w : writer_wf w -> interface_wf i -> Forall option_typed options ->
  mr_interfaces report < u64_max ->
  match map_interface growth i options number e report (mkMapper r w) with
  | (Ok report', m) => exists op w', m = mkMapper r w' /\ interface_op growth (Writer_endianness w) e i options = Some op /\
      writer_step op w = (Ok tt, w') /\ writer_wf w' /\ Writer_endianness w' = Writer_endianness w /\
      number = zlen (writer_interfaces w) /\ zlen (writer_interfaces w') = zlen (writer_interfaces w) + 1 /\
      report' = mkMapReport (mr_frames_read report) (mr_frames_changed report) (mr_captured_bytes_read report)
                  (mr_captured_bytes_written report) (mr_interfaces report + 1) (mr_source_metadata_records report)
  | (Err _, m) => mp_reader m = r /\ attempted (op ← interface_op growth (Writer_endianness w) e i options; Some [op]) w (mp_output m)
  | (Panic, _) => False
  end.
Proof using growth_ok.
  intros Hw Hi Ho Hn. unfold map_interface, on_writer, zoom. unfold mbind at 1, stm_bind at 1. cbn [mp_reader mp_output].
  pose proof (add_mapped_interface_spec i options growth e w Hw Hi Ho growth_ok) as Hs.
  destruct (add_mapped_interface i options growth e w) as [[id|err|] w']; [| |done]; [|done].
  destruct Hs as (op & Hop & Hstep & Hw' & He & -> & Hz). destruct (Z.eqb_spec (zlen (writer_interfaces w)) number) as [<-|]; cbn [negb].
  - rewrite (lift_bind_eq _ _ _ (mr_interfaces report + 1)) by (apply add_u_ok; lia). exists op, w'. done.
  - cbn. split; [done|]. right. exists [op], (Ok tt). rewrite Hop, run_one. done.
Qed.

(** What the report gains with a packet. *)
Lemma map_packet_spec budget report e options frame : mr_frames_changed report <= bg_frames budget ->
  safe (map_packet mapper growth budget report e options frame) (fun '(budget', report', g) =>
    exists f, frame = Some f /\ validate_rewritable_packet_flags options e "" = Ok tt /\
      mapped_frame mapper growth (bg_frames budget + 1) f = Some g /\ Budget_after budget (captured_length f) = Ok budget' /\
      report' = mkMapReport (bg_frames budget') (mr_frames_changed report + frames_altered mapper (bg_frames budget) [f])
                  (bg_captured_bytes budget') (mr_captured_bytes_written report) (mr_interfaces report) (mr_source_metadata_records report) /\
      0 <= frames_altered mapper (bg_frames budget) [f] <= 1).
Proof using.
  intros Hc. unfold map_packet. apply safe_bind. pose proof (flags_safe options e "malformed packet flags") as Hflags.
  destruct (validate_rewritable_packet_flags options e "malformed packet flags") as [[]|err|] eqn:Ef; [|done|done]. apply (flags_reason _ _ _ ""%string) in Ef.
  apply safe_bind, safe_ok_or. intros f ->. apply safe_bind. pose proof (Budget_after_safe budget (captured_length f)) as Hb.
  destruct (Budget_after budget (captured_length f)) as [budget'|err|] eqn:Eb; [|done|done]. apply Budget_after_Ok in Eb as Hb'.
  destruct Hb' as (_ & En & _ & _). cbn [safe]. rewrite En.
  destruct (mapper (bg_frames budget + 1) f) as [err|g] eqn:Em; [done|]. rewrite Ok_bind.
  destruct (same_identity f g) eqn:Es; [|done]. cbn [negb]. destruct (Z.ltb_spec (saturating_add usize_max (zlen (frame_bytes f)) growth) (zlen (frame_bytes g))); [done|].
  assert (mapped_frame mapper growth (bg_frames budget + 1) f = Some (placed g)) as Hmap.
  { rewrite mapped_frame_code, Em, Es. cbn [andb]. by rewrite (proj2 (Z.leb_le _ _)). }
  destruct (bytes_eqb (frame_bytes g) (frame_bytes f)) eqn:Ed.
  - rewrite Ok_bind. cbn. exists f. rewrite Em, Ed, En, !Z.add_0_r. by split_and!.
  - assert (bg_frames budget + 1 <= u64_max) as Hu.
    { unfold Budget_after in Eb. inv_ok Eb. by apply ok_or_Ok, checked_add_Some in Ha as [_ ?]. }
    rewrite add_u_ok by lia. rewrite Ok_bind. cbn. exists f. rewrite Em, Ed, En, !Z.add_0_r. by split_and!.
Qed.

(** The report of a running pass is that of its budget and its reader. *)
Definition map_report_ok (budget : Budget) (report : MapReport) (interfaces : list Interface) : Prop :=
  mr_frames_read report = bg_frames budget /\ mr_captured_bytes_read report = bg_captured_bytes budget /\
  mr_interfaces report = zlen interfaces /\ mr_frames_changed report <= bg_frames budget.

(** What these records, read up to these interfaces, add to the report. *)
Definition map_counts (budget : Budget) (report : MapReport) (records : list CaptureRecord) (ops : list writer_op)
  (interfaces : list Interface) : MapReport :=
  mkMapReport (bg_frames budget + zlen (frames_of records))
    (mr_frames_changed report + frames_altered mapper (bg_frames budget) (frames_of records))
    (bg_captured_bytes budget + captured_of records)
    (mr_captured_bytes_written report + captured_total (op_frames ops)) (zlen interfaces)
    (mr_source_metadata_records report + (zlen records - zlen (frames_of records))).

(** One turn of the loop. *)
Definition map_turn (budget : Budget) (report : MapReport) (e : Endianness) (x : CaptureRecord) (r : Reader) (w : Writer)
  (budget' : Budget) (report' : MapReport) (e' : Endianness) (m : Mapper) : Prop :=
  exists ops w', m = mkMapper r w' /\ record_ops mapper growth (Writer_endianness w) e (bg_frames budget) x = Some ops /\
    run_ops ops w = (Ok tt, w') /\ writer_wf w' /\ Writer_endianness w' = Writer_endianness w /\ e' = next_endianness e x /\
    bg_frames budget' = bg_frames budget + zlen (frames_of [x]) /\ bg_captured_bytes budget' = bg_captured_bytes budget + captured_of [x] /\
    report' = map_counts budget report [x] ops (rd_interfaces r) /\ mr_frames_changed report' <= bg_frames budget'.

Lemma map_packet_turn budget report e x r w options : writer_wf w ->
  map_report_ok budget report (rd_interfaces r) -> (exists k s l, rec_kind x = KindPacket k s l options) ->
  match map_record mapper limits growth budget report e x (mkMapper r w) with
  | (Ok (budget', report', e'), m) => map_turn budget report e x r w budget' report' e' m
  | (Err _, m) => mp_reader m = r /\ attempted (record_ops mapper growth (Writer_endianness w) e (bg_frames budget) x) w (mp_output m)
  | (Panic, _) => False
  end.
Proof using mapper_wf.
  intros Hw (H1 & H2 & H3 & H4) (k & s & l & Hk). unfold map_record, map_turn, record_ops, next_endianness. rewrite Hk.
  unfold mbind at 1, stm_bind at 1, lift at 1. pose proof (map_packet_spec budget report e options (rec_frame x) H4) as Hp.
  destruct (map_packet _ _ _ _ _ _ _) as [[[budget' report'] g]|err|]; [|by split; [|left]|done].
  destruct Hp as (f & Ef & Hflags & Hg & Hb & -> & Ha). rewrite Hflags, Ef, Hg. cbn [mbind option_bind].
  assert (frame_wf g /\ exists id, fr_interface g = Some id) as (Hgw & id & Hid).
  { rewrite mapped_frame_code in Hg. destruct (mapper _ f) as [|g0] eqn:Em; [done|]. destruct (_ && _); [|done]. injection Hg as <-.
    split; [apply placed_wf; by eapply mapper_wf|apply placed_interface]. }
  pose proof (write_frame_step w g id Hw Hgw Hid) as Hs. unfold on_writer, zoom. unfold mbind at 1, stm_bind at 1. cbn [mp_output mp_reader].
  assert (forall result w', write_frame g w = (result, w') -> run_ops [OpFrame g] w = (result, w')) as Hrun by (intros ? ? E; by rewrite run_one).
  destruct (write_frame g w) as [[[]|err|] w']; specialize (Hrun _ _ eq_refl); [| |done].
  - destruct Hs as [Hw' Es]. unfold mbind at 1, stm_bind at 1, lift at 1. destruct (checked_add u64_max _ (captured_length g)) as [written|] eqn:Ec; cbn [ok_or].
    + apply checked_add_Some in Ec as [-> _]. apply Budget_after_Ok in Hb as (_ & Hbf & Hbc & _).
      exists [OpFrame g], w'. unfold map_counts, op_frames, captured_total, captured_of. cbn [omap list_omap].
      rewrite frames_of_cons, Ef. change (frames_of []) with (@nil Frame). change (zlen [f]) with 1. change (zlen [x]) with 1. cbn [foldr mr_captured_bytes_written mr_frames_changed].
      unfold Writer_endianness. rewrite Es. cbn [mr_frames_read mr_captured_bytes_read mr_interfaces mr_source_metadata_records].
      rewrite Hbf, Hbc, H3, !Z.add_0_r. split_and!; try done; lia.
    + cbn. split; [done|]. right. by exists [OpFrame g], (Ok tt).
  - cbn. split; [done|]. right. by exists [OpFrame g], (Err err).
Qed.

Lemma map_record_spec budget report e x r w interfaces : writer_wf w -> reader_whole r ->
  record_effect interfaces x (rd_interfaces r) -> rd_declares_fcs r = record_declares_fcs (Some x) ->
  map_report_ok budget report interfaces -> mr_source_metadata_records report < u64_max -> zlen interfaces < u64_max ->
  match map_record mapper limits growth budget report e x (mkMapper r w) with
  | (Ok (budget', report', e'), m) => map_turn budget report e x r w budget' report' e' m
  | (Err _, m) => mp_reader m = r /\ attempted (record_ops mapper growth (Writer_endianness w) e (bg_frames budget) x) w (mp_output m)
  | (Panic, _) => False
  end.
Proof using mapper_wf growth_ok.
  intros Hw (_ & Hi & _) Hx Hfcs Hrep Hm Hz. unfold record_effect in Hx. destruct (rec_kind x) as [k s l options|metadata] eqn:Hk.
  { destruct Hx as [Ex _]. rewrite <- Ex in Hrep. apply (map_packet_turn _ _ _ _ _ _ options); try done. by exists k, s, l. }
  destruct Hrep as (H1 & H2 & H3 & H4). unfold map_record, map_turn, record_ops, next_endianness. rewrite Hk.
  assert (rec_frame x = None) as Hn by (destruct metadata; tauto).
  unfold count_metadata, map_counts, captured_of. rewrite add_u_ok, Ok_bind by lia. unfold mbind at 1, stm_bind at 1, lift at 1.
  rewrite frames_of_cons, Hn. change (frames_of []) with (@nil Frame). change (zlen []) with 0. change (zlen [x]) with 1. cbn [foldr].
  destruct metadata as [section|s l global_id i options|s|s id|s t|s t].
  2: { destruct Hx as (Ex & -> & _ & Hcodes). rewrite Ex in Hi. apply Forall_app in Hi as [_ Hi]. apply Forall_cons_1 in Hi as [Hi _].
    unfold record_declares_fcs in Hfcs. rewrite Hk in Hfcs. unfold mbind at 1, stm_bind at 1, refuse_declared_fcs. cbn [mp_reader]. rewrite Hfcs.
    destruct (existsb PcapNgOption_declares_fcs options); [by split; [|left]|].
    pose proof (map_interface_spec i options (zlen interfaces) e (mkMapReport (mr_frames_read report) (mr_frames_changed report) (mr_captured_bytes_read report)
      (mr_captured_bytes_written report) (mr_interfaces report) (mr_source_metadata_records report + 1)) r w Hw Hi Hcodes ltac:(cbn; lia)) as Hs.
    unfold mbind at 1, stm_bind at 1. destruct (map_interface _ _ _ _ _ _ _) as [[report'|err|] m]; [|done|done].
    destruct Hs as (op & w' & -> & Hop & Hstep & Hw' & He & _ & _ & ->). exists [op], w'. rewrite Hop, run_one, Ex, zlen_app. change (zlen [i]) with 1.
    assert (op_frames [op] = []) as Eop.
    { by eapply interface_op_frames. }
    unfold captured_total. rewrite Eop. cbn. rewrite !Z.add_0_r. split_and!; try done; try lia; f_equal; lia. }
  all: destruct Hx as [Ex _]; rewrite Ex; unfold mret, stm_ret; exists [], w; unfold captured_total, op_frames; cbn; rewrite !Z.add_0_r;
    split_and!; try done; try lia; f_equal; lia.
Qed.

Lemma frames_of_app a b : frames_of (a ++ b) = frames_of a ++ frames_of b.
Proof using. apply omap_app. Qed.

Lemma captured_total_app a b : captured_total (a ++ b) = captured_total a + captured_total b.
Proof using. unfold captured_total. induction a as [|f a IH]; cbn; lia. Qed.

Lemma frames_altered_app n a b : frames_altered mapper n (a ++ b) = frames_altered mapper n a + frames_altered mapper (n + zlen a) b.
Proof using.
  revert n. induction a as [|f a IH]; intros n; cbn [app frames_altered]; [by change (zlen (@nil Frame)) with 0; rewrite Z.add_0_r|].
  rewrite IH. replace (n + zlen (f :: a)) with (n + 1 + zlen a) by (rewrite zlen_cons; lia). lia.
Qed.

Lemma op_frames_app a b : op_frames (a ++ b) = op_frames a ++ op_frames b.
Proof using. apply omap_app. Qed.

Lemma map_counts_cons budget report x records ops more budget' interfaces interfaces' :
  bg_frames budget' = bg_frames budget + zlen (frames_of [x]) -> bg_captured_bytes budget' = bg_captured_bytes budget + captured_of [x] ->
  map_counts budget' (map_counts budget report [x] ops interfaces) records more interfaces' =
  map_counts budget report (x :: records) (ops ++ more) interfaces'.
Proof using.
  intros Hf Hc. unfold map_counts. cbn [mr_frames_changed mr_captured_bytes_written mr_source_metadata_records].
  change (x :: records) with ([x] ++ records). unfold captured_of in *. rewrite Hf, Hc, !frames_of_app, op_frames_app, frames_altered_app.
  fold (captured_total (frames_of records)) (captured_total (frames_of [x])). fold (captured_total (frames_of [x] ++ frames_of records)).
  rewrite !captured_total_app, !zlen_app. f_equal; lia.
Qed.

Lemma map_counts_nil budget report interfaces : map_report_ok budget report interfaces ->
  map_counts budget report [] [] interfaces = report.
Proof using.
  intros (H1 & H2 & H3 & _). unfold map_counts, captured_of, captured_total. cbn. change (zlen []) with 0. rewrite !Z.add_0_r.
  destruct report. cbn in *. by subst.
Qed.

Lemma record_ops_fcs target e n x ops : record_ops mapper growth target e n x = Some ops -> record_declares_fcs (Some x) = false.
Proof using.
  unfold record_ops, record_declares_fcs. destruct (rec_kind x) as [|[]]; try done. by destruct (existsb _ _).
Qed.

Lemma map_plan_cons target e n x records ops more : record_ops mapper growth target e n x = Some ops ->
  map_plan mapper growth target (next_endianness e x) (n + zlen (frames_of [x])) records = Some more ->
  map_plan mapper growth target e n (x :: records) = Some (ops ++ more).
Proof using. intros E1 E2. cbn [map_plan]. rewrite E1. cbn [mbind option_bind]. by rewrite E2. Qed.

(** What a pass that failed has seen and done. *)
Definition map_stopped (e : Endianness) (n : Z) (data : bytes) (w w' : Writer) : Prop :=
  exists records ops result, concat (map rec_raw records) `prefix_of` data /\
    map_plan mapper growth (Writer_endianness w) e n records = Some ops /\ run_ops ops w = (result, w').

Lemma map_stopped_nothing e n data w : map_stopped e n data w w.
Proof using. exists [], [], (Ok tt). split; [apply prefix_nil|done]. Qed.

Lemma map_loop_spec fuel : forall budget report e r w, reader_whole r -> rd_finished r = false -> rd_declares_fcs r = false ->
  writer_wf w -> map_report_ok budget report (rd_interfaces r) -> zlen (source_bytes (rd_inner r)) < Z.of_nat fuel ->
  mr_source_metadata_records report + zlen (source_bytes (rd_inner r)) <= u64_max ->
  zlen (rd_interfaces r) + zlen (source_bytes (rd_inner r)) <= u64_max ->
  match map_loop alloc checks mapper limits growth fuel budget report e (mkMapper r w) with
  | (Ok report', m) => exists records ops, read_records alloc fuel checks r = (records, Ok tt, mp_reader m) /\
      map_plan mapper growth (Writer_endianness w) e (bg_frames budget) records = Some ops /\ run_ops ops w = (Ok tt, mp_output m) /\
      report' = map_counts budget report records ops (rd_interfaces (mp_reader m))
  | (Err _, m) => map_stopped e (bg_frames budget) (source_bytes (rd_inner r)) w (mp_output m)
  | (Panic, _) => False
  end.
Proof using mapper_wf growth_ok.
  induction fuel as [|fuel IH]; intros budget report e r w Hr Hf Hfcs Hw Hrep Hz Hm Hi; cbn [map_loop read_records].
  { pose proof (zlen_nonneg (source_bytes (rd_inner r))). lia. }
  pose proof (next_record_spec alloc (checks fuel).1 (checks fuel).2 r (reader_whole_ok _ Hr) Hf) as Hs.
  unfold mbind at 1, stm_bind at 1, on_input, zoom. cbn [mp_reader mp_output].
  destruct (next_record alloc (checks fuel).1 (checks fuel).2 r) as [[[x|]|err|] r'] eqn:En; [| |apply map_stopped_nothing|done].
  2: { apply next_record_end in En as (_ & Ei & _); [|done]. unfold mret, stm_ret. exists [], []. split_and!; try done. cbn. by rewrite Ei, map_counts_nil. }
  destruct Hs as (_ & _ & _ & [Ht Hne] & _). destruct (nonempty_zlen _ Hne) as [_ Hpos]. rewrite Ht, zlen_app in Hz, Hm, Hi.
  destruct (next_record_effect _ _ _ _ _ _ Hr En) as (Hr' & Hx & _ & _ & Hd & _ & _ & Hf'). rewrite Hfcs, orb_false_l in Hd.
  pose proof (zlen_nonneg (source_bytes (rd_inner r'))).
  pose proof (map_record_spec budget report e x r' w (rd_interfaces r) Hw Hr' Hx Hd Hrep ltac:(lia) ltac:(lia)) as Hs.
  unfold mbind at 1, stm_bind at 1. destruct (map_record _ _ _ _ _ _ _ _) as [[[[budget' report'] e']|err|] m]; [| |done].
  - destruct Hs as (ops & w' & -> & Hops & Hrun & Hw' & He & -> & Hbf & Hbc & -> & Hch).
    pose proof (frames_of_length [x]) as Hfx. change (zlen [x]) with 1 in Hfx.
    assert (zlen (rd_interfaces r') <= zlen (rd_interfaces r) + 1) as Hgrow.
    { unfold record_effect in Hx. destruct (rec_kind x) as [|[]]; destruct Hx as [-> _]; rewrite ?zlen_app, ?zlen_cons, ?zlen_nil; lia. }
    assert (mr_source_metadata_records (map_counts budget report [x] ops (rd_interfaces r')) <= mr_source_metadata_records report + 1) as Hmeta.
    { unfold map_counts. cbn [mr_source_metadata_records]. change (zlen [x]) with 1. lia. }
    assert (map_report_ok budget' (map_counts budget report [x] ops (rd_interfaces r')) (rd_interfaces r')) as Hrep'
      by (split_and!; [by rewrite Hbf|by rewrite Hbc|done|exact Hch]).
    specialize (IH budget' (map_counts budget report [x] ops (rd_interfaces r')) (next_endianness e x) r' w' Hr' Hf').
    rewrite Hd, (record_ops_fcs _ _ _ _ _ Hops) in IH. specialize (IH eq_refl Hw').
    rewrite He, Hbf in IH. destruct (map_loop _ _ _ _ _ fuel budget' _ _ _) as [[report'|err|] m].
    + destruct IH as (records & more & Er & Hp & Hr2 & ->); [done|lia|lia|lia|].
      rewrite Er. exists (x :: records), (ops ++ more). split; [done|]. split; [by eapply map_plan_cons|].
      split; [by rewrite run_ops_app, (stm_bind_eq _ _ _ _ _ Hrun)|]. by apply map_counts_cons.
    + destruct IH as (records & more & result & Hpre & Hp & Hr2); [done|lia|lia|lia|].
      exists (x :: records), (ops ++ more), result. split; [rewrite Ht; cbn; by apply prefix_app|]. rewrite He in Hp. split; [by eapply map_plan_cons|].
      by rewrite run_ops_app, (stm_bind_eq _ _ _ _ _ Hrun).
    + apply IH; [done|lia|lia|lia].
  - destruct Hs as [_ [->|(ops & result & Hops & Hrun)]]; [apply map_stopped_nothing|].
    exists [x], (ops ++ []), result. split; [rewrite Ht; cbn; rewrite app_nil_r; by apply prefix_app_r|]. split; [by eapply map_plan_cons|]. by rewrite app_nil_r.
Qed.

(** ** When it succeeds *)

Lemma add_mapped_interface_total i options e w op w' : writer_wf w -> interface_wf i -> Forall option_typed options ->
  interface_op growth (Writer_endianness w) e i options = Some op -> writer_step op w = (Ok tt, w') ->
  add_mapped_interface i options growth e w = (Ok (zlen (writer_interfaces w)), w').
Proof using growth_ok.
  intros Hw Hi Ho Hop Hs. pose proof (add_mapped_interface_spec i options growth e w Hw Hi Ho growth_ok) as H. rewrite Hop in H.
  destruct (add_mapped_interface i options growth e w) as [[id|err|] w1] eqn:E; [| |done].
  - destruct H as (op' & [= <-] & Hs' & _ & _ & -> & _). rewrite Hs in Hs'. by injection Hs' as <-.
  - rewrite interface_op_code in Hop by done. destruct (grown_interface i growth) as [j|?|] eqn:E1; [|done|done].
    destruct (retained_options options e (Writer_endianness w)) as [kept|?|] eqn:E2; [|done|done]. injection Hop as <-.
    exfalso. unfold add_mapped_interface in E. rewrite E1, (lift_bind_eq _ _ _ j eq_refl), gets_bind, E2, (lift_bind_eq _ _ _ kept eq_refl) in E.
    cbn [writer_step] in Hs. unfold mbind, stm_bind in Hs. by rewrite E in Hs.
Qed.

Lemma map_packet_total budget report e options f g : validate_rewritable_packet_flags options e "" = Ok tt ->
  mapped_frame mapper growth (bg_frames budget + 1) f = Some g -> 0 <= captured_length f ->
  bg_frames budget + 1 <= max_frames (bg_limits budget) <= u64_max ->
  bg_captured_bytes budget + captured_length f <= max_bytes (bg_limits budget) <= u64_max ->
  mr_frames_changed report <= bg_frames budget ->
  exists report', map_packet mapper growth budget report e options (Some f) =
    Ok (mkBudget (bg_limits budget) (bg_frames budget + 1) (bg_captured_bytes budget + captured_length f), report', g) /\
    mr_captured_bytes_written report' = mr_captured_bytes_written report.
Proof using.
  intros Hflags Hg H0 Hf Hb Hc. unfold map_packet. rewrite (flags_reason _ _ _ "malformed packet flags"%string Hflags). cbn [map_err ok_or]. rewrite !Ok_bind.
  rewrite Budget_after_total by done. rewrite Ok_bind. cbn [bg_frames bg_captured_bytes]. rewrite mapped_frame_code in Hg.
  destruct (mapper (bg_frames budget + 1) f) as [|g0]; [done|]. rewrite Ok_bind. destruct (same_identity f g0); [|done]. cbn [andb negb] in *.
  destruct (Z.leb_spec (zlen (frame_bytes g0)) (saturating_add usize_max (zlen (frame_bytes f)) growth)); [|done]. injection Hg as <-.
  rewrite (proj2 (Z.ltb_ge _ _)) by done. destruct (bytes_eqb _ _); [|rewrite add_u_ok by lia]; rewrite Ok_bind; eexists; by split.
Qed.

Lemma map_record_total budget report e x r w interfaces ops w1 : writer_wf w -> reader_whole r ->
  record_effect interfaces x (rd_interfaces r) -> rd_declares_fcs r = record_declares_fcs (Some x) ->
  map_report_ok budget report interfaces -> mr_source_metadata_records report < u64_max -> zlen interfaces < u64_max ->
  (forall f, rec_frame x = Some f -> 0 <= captured_length f) -> zlen (writer_interfaces w) = zlen interfaces ->
  record_ops mapper growth (Writer_endianness w) e (bg_frames budget) x = Some ops -> run_ops ops w = (Ok tt, w1) ->
  bg_frames budget + zlen (frames_of [x]) <= max_frames (bg_limits budget) <= u64_max ->
  bg_captured_bytes budget + captured_of [x] <= max_bytes (bg_limits budget) <= u64_max ->
  mr_captured_bytes_written report + captured_total (op_frames ops) <= u64_max ->
  exists budget' report', map_record mapper limits growth budget report e x (mkMapper r w) = (Ok (budget', report', next_endianness e x), mkMapper r w1) /\
    bg_limits budget' = bg_limits budget /\ zlen (writer_interfaces w1) = zlen (rd_interfaces r).
Proof using mapper_wf growth_ok.
  intros Hw (_ & Hi & _) Hx Hfcs (H1 & H2 & H3 & H4) Hm Hz Hnn Hwi Hops Hrun Hbf Hbc Hbw.
  unfold record_effect in Hx. unfold map_record, record_ops, next_endianness in *. destruct (rec_kind x) as [k s l options|metadata] eqn:Hk.
  - destruct Hx as [Ex _]. destruct (validate_rewritable_packet_flags options e "") as [[]|?|] eqn:Hflags; [|done|done].
    destruct (rec_frame x) as [f|] eqn:Ef; [|done]. destruct (mapped_frame mapper growth (bg_frames budget + 1) f) as [g|] eqn:Hg; [|done]. injection Hops as <-.
    rewrite frames_of_cons, Ef in Hbf. rewrite captured_of_cons, Ef in Hbc. change (zlen (f :: frames_of [])) with 1 in Hbf. change (captured_of []) with 0 in Hbc.
    unfold captured_total in Hbw. cbn in Hbw. rewrite Z.add_0_r in Hbw. specialize (Hnn f eq_refl). rewrite Z.add_0_r in Hbc.
    destruct (map_packet_total budget report e options f g Hflags Hg Hnn Hbf Hbc H4) as (report' & Ep & Ew).
    rewrite (lift_bind_eq _ _ _ _ Ep). rewrite run_one in Hrun. cbn [writer_step] in Hrun.
    assert (frame_wf g /\ exists id, fr_interface g = Some id) as (Hgw & id & Hid).
    { rewrite mapped_frame_code in Hg. destruct (mapper _ f) as [|g0] eqn:Em; [done|]. destruct (_ && _); [|done]. injection Hg as <-.
      split; [apply placed_wf; by eapply mapper_wf|apply placed_interface]. }
    pose proof (write_frame_step w g id Hw Hgw Hid) as Hstep. rewrite Hrun in Hstep. destruct Hstep as [_ Es].
    rewrite (stm_bind_eq _ _ _ tt (mkMapper r w1)) by (unfold on_writer, zoom; cbn; by rewrite Hrun).
    rewrite (lift_bind_eq _ _ _ (mr_captured_bytes_written report' + captured_length g)) by (rewrite checked_add_ok by lia; done).
    do 2 eexists. split; [reflexivity|]. split; [done|]. unfold writer_interfaces in *. by rewrite Es, Ex.
  - unfold count_metadata. rewrite add_u_ok, Ok_bind by lia. rewrite (lift_bind_eq _ _ _ _ eq_refl).
    destruct metadata as [section|s l global_id i options|s|s id|s t|s t].
    2: { destruct Hx as (Ex & -> & _ & Hcodes). rewrite Ex in Hi. apply Forall_app in Hi as [_ Hi]. apply Forall_cons_1 in Hi as [Hi _].
      unfold record_declares_fcs in Hfcs. rewrite Hk in Hfcs. destruct (existsb _ options); [done|].
      destruct (interface_op growth (Writer_endianness w) e i options) as [op|] eqn:Hop; [|done]. injection Hops as <-. rewrite run_one in Hrun.
      unfold mbind at 1, stm_bind at 1, refuse_declared_fcs. cbn [mp_reader]. rewrite Hfcs.
      pose proof (add_mapped_interface_total i options e w op w1 Hw Hi Hcodes Hop Hrun) as Ea.
      pose proof (add_mapped_interface_spec i options growth e w Hw Hi Hcodes growth_ok) as Hspec. rewrite Ea in Hspec. destruct Hspec as (_ & _ & _ & _ & _ & _ & Hlen).
      unfold map_interface. unfold mbind at 1, stm_bind at 1. rewrite (stm_bind_eq _ _ _ (zlen (writer_interfaces w)) (mkMapper r w1)) by (unfold on_writer, zoom; cbn; by rewrite Ea).
      rewrite Hwi, Z.eqb_refl. cbn [negb mr_interfaces]. rewrite (lift_bind_eq _ _ _ (mr_interfaces report + 1)) by (apply add_u_ok; lia).
      do 2 eexists. split; [reflexivity|]. split; [done|]. rewrite Hlen, Hwi, Ex, zlen_app. by change (zlen [i]) with 1. }
    all: destruct Hx as [Ex _]; injection Hops as <-; injection Hrun as <-; do 2 eexists; split; [reflexivity|]; split; [done|]; by rewrite Ex.
Qed.

Lemma captured_of_app a b : captured_of (a ++ b) = captured_of a + captured_of b.
Proof using. unfold captured_of. rewrite frames_of_app. apply captured_total_app. Qed.

Lemma map_loop_total fuel : forall budget report e r w records r' ops w', reader_whole r -> rd_finished r = false -> rd_declares_fcs r = false ->
  writer_wf w -> map_report_ok budget report (rd_interfaces r) -> zlen (source_bytes (rd_inner r)) < Z.of_nat fuel ->
  mr_source_metadata_records report + zlen (source_bytes (rd_inner r)) <= u64_max ->
  zlen (rd_interfaces r) + zlen (source_bytes (rd_inner r)) <= u64_max -> zlen (writer_interfaces w) = zlen (rd_interfaces r) ->
  read_records alloc fuel checks r = (records, Ok tt, r') ->
  map_plan mapper growth (Writer_endianness w) e (bg_frames budget) records = Some ops -> run_ops ops w = (Ok tt, w') ->
  bg_frames budget + zlen (frames_of records) <= max_frames (bg_limits budget) <= u64_max ->
  bg_captured_bytes budget + captured_of records <= max_bytes (bg_limits budget) <= u64_max ->
  mr_captured_bytes_written report + captured_total (op_frames ops) <= u64_max -> Forall (fun f => 0 <= captured_length f) (op_frames ops) ->
  exists report' m, map_loop alloc checks mapper limits growth fuel budget report e (mkMapper r w) = (Ok report', m).
Proof using mapper_wf growth_ok.
  induction fuel as [|fuel IH]; intros budget report e r w records r' ops w' Hr Hf Hfcs Hw Hrep Hz Hm Hi Hwi E Hp Hrun Hbf Hbc Hbw Hnn;
    cbn [map_loop read_records] in *; [done|].
  pose proof (next_record_spec alloc (checks fuel).1 (checks fuel).2 r (reader_whole_ok _ Hr) Hf) as Hs.
  destruct (next_record alloc (checks fuel).1 (checks fuel).2 r) as [[[x|]|err|] r1] eqn:En; [| |done|done].
  2: { rewrite (stm_bind_eq _ _ _ None (mkMapper r1 w)) by (unfold on_input, zoom; cbn; by rewrite En). by do 2 eexists. }
  rewrite (stm_bind_eq _ _ _ (Some x) (mkMapper r1 w)) by (unfold on_input, zoom; cbn; by rewrite En).
  destruct Hs as (_ & _ & _ & [Ht Hne] & Hx0). specialize (Hx0 x eq_refl). destruct (nonempty_zlen _ Hne) as [_ Hpos]. rewrite Ht, zlen_app in Hz, Hm, Hi.
  destruct (next_record_effect _ _ _ _ _ _ Hr En) as (Hr1 & Hx & _ & _ & Hd & _ & _ & Hf1). rewrite Hfcs, orb_false_l in Hd.
  pose proof (zlen_nonneg (source_bytes (rd_inner r1))).
  destruct (read_records alloc fuel checks r1) as [[records1 result1] r2] eqn:Er. injection E as <- -> ->.
  cbn [map_plan] in Hp. apply bind_Some in Hp as (ops1 & Hops & Hp). apply bind_Some in Hp as (more & Hplan & [= <-]).
  rewrite run_ops_app in Hrun. apply stm_bind_Ok in Hrun as ([] & w1 & Hrun1 & Hrun2). rewrite op_frames_app in *. apply Forall_app in Hnn as [Hnn1 Hnn2].
  rewrite captured_total_app in Hbw. change (x :: records1) with ([x] ++ records1) in Hbf, Hbc. rewrite frames_of_app, zlen_app in Hbf. rewrite captured_of_app in Hbc.
  assert (forall fs, Forall (fun f => 0 <= captured_length f) fs -> 0 <= captured_total fs) as Htot.
  { unfold captured_total. induction 1; cbn; lia. }
  assert (0 <= captured_of records1) as Hcr.
  { apply captured_of_nonneg. pose proof (read_records_spec alloc checks fuel r1 (reader_whole_ok _ Hr1) Hf1 ltac:(lia)) as Hrr. rewrite Er in Hrr.
    destruct Hrr as (_ & _ & Hall & _). eapply Forall_impl; [exact Hall|]. intros y Hy. by eapply record_ok_nonneg. }
  pose proof (frames_of_length records1). pose proof (Htot _ Hnn1). pose proof (Htot _ Hnn2).
  destruct (map_record_total budget report e x r1 w (rd_interfaces r) ops1 w1 Hw Hr1 Hx Hd Hrep ltac:(lia) ltac:(lia)) as (budget1 & report1 & Emap & Hlim & Hwi1);
    [intros f Hfx; by eapply record_ok_nonneg|done|done|done|lia|lia|lia|].
  rewrite (stm_bind_eq _ _ _ _ _ Emap).
  pose proof (map_record_spec budget report e x r1 w (rd_interfaces r) Hw Hr1 Hx Hd Hrep ltac:(lia) ltac:(lia)) as Hspec. rewrite Emap in Hspec.
  destruct Hspec as (ops' & w1' & [= <-] & Hops' & _ & Hw1 & He & _ & Hbf1 & Hbc1 & -> & Hch). rewrite Hops in Hops'. injection Hops' as <-.
  pose proof (frames_of_length [x]) as Hfx. change (zlen [x]) with 1 in Hfx.
  assert (zlen (rd_interfaces r1) <= zlen (rd_interfaces r) + 1) as Hgrow.
  { unfold record_effect in Hx. destruct (rec_kind x) as [|[]]; destruct Hx as [-> _]; rewrite ?zlen_app, ?zlen_cons, ?zlen_nil; lia. }
  eapply (IH budget1 (map_counts budget report [x] ops1 (rd_interfaces r1)) (next_endianness e x) r1 w1 records1 r' more w'); try done; try lia.
  - by rewrite Hd, (record_ops_fcs _ _ _ _ _ Hops).
  - unfold map_counts. cbn [mr_source_metadata_records]. change (zlen [x]) with 1. lia.
  - by rewrite He, Hbf1.
  - rewrite Hlim, Hbf1. lia.
  - rewrite Hlim, Hbc1. lia.
  - unfold map_counts. cbn [mr_captured_bytes_written]. lia.
Qed.

(** ** The whole pass *)

(** The reader as it was opened. *)
Definition fresh_reader (r : Reader) : Prop :=
  reader_whole r /\ rd_finished r = false /\
  match rd_header r with HeaderPcap _ => exists i, rd_interfaces r = [i] | HeaderPcapNg _ => rd_interfaces r = [] end.

(** The interfaces of the header. *)
Lemma map_header_spec r w : fresh_reader r -> writer_wf w ->
  match (match rd_header r with
         | HeaderPcap _ => map_interfaces growth (rd_interfaces r) (Reader_endianness r) (mkMapReport 0 0 0 0 0 0)
         | HeaderPcapNg _ => mret (mkMapReport 0 0 0 0 0 0)
         end) (mkMapper r w) with
  | (Ok report, m) => exists head w', m = mkMapper r w' /\ header_plan growth (Writer_endianness w) r = Some head /\ run_ops head w = (Ok tt, w') /\
      writer_wf w' /\ Writer_endianness w' = Writer_endianness w /\ report = mkMapReport 0 0 0 0 (zlen (rd_interfaces r)) 0 /\
      op_frames head = [] /\ zlen (writer_interfaces w') = zlen (writer_interfaces w) + zlen (rd_interfaces r)
  | (Err _, m) => attempted (header_plan growth (Writer_endianness w) r) w (mp_output m)
  | (Panic, _) => False
  end.
Proof using growth_ok.
  intros ((_ & Hi & _) & _ & Hh) Hw. unfold header_plan. destruct (rd_header r) as [h|h].
  - destruct Hh as (i & Ei). rewrite Ei in *. apply Forall_cons_1 in Hi as [Hi _]. cbn [map_interfaces mapM].
    pose proof (map_interface_spec i [] 0 (Reader_endianness r) (mkMapReport 0 0 0 0 0 0) r w Hw Hi ltac:(constructor) ltac:(done)) as Hs.
    unfold mbind at 1, stm_bind at 1. cbn [mr_interfaces]. destruct (map_interface _ _ _ _ _ _ _) as [[report'|err|] m]; [| |done].
    + destruct Hs as (op & w' & -> & Hop & Hstep & Hw' & He & _ & Hz & ->). exists [op], w'. rewrite Hop, run_one, Hz. cbn.
      split_and!; try done. by eapply interface_op_frames.
    + destruct Hs as [_ H]. by destruct (interface_op growth (Writer_endianness w) (Reader_endianness r) i []).
  - rewrite Hh. exists [], w. change (zlen []) with 0. rewrite Z.add_0_r. done.
Qed.

(** The report of a whole pass. *)
Definition map_summary (records : list CaptureRecord) (ops : list writer_op) (r' : Reader) : MapReport :=
  mkMapReport (zlen (frames_of records)) (frames_altered mapper 0 (frames_of records)) (captured_of records)
    (captured_total (op_frames ops)) (zlen (rd_interfaces r')) (zlen records - zlen (frames_of records)).

Lemma map_frames_spec fuel r w : fresh_reader r -> writer_wf w ->
  zlen (source_bytes (rd_inner r)) < Z.of_nat fuel -> zlen (source_bytes (rd_inner r)) < u64_max ->
  match map_frames alloc checks mapper limits growth fuel (mkMapper r w) with
  | (Ok report, m) => exists records head ops, read_records alloc fuel checks r = (records, Ok tt, mp_reader m) /\
      header_plan growth (Writer_endianness w) r = Some head /\
      map_plan mapper growth (Writer_endianness w) (Reader_endianness r) 0 records = Some ops /\
      run_ops (head ++ ops) w = (Ok tt, mp_output m) /\ report = map_summary records ops (mp_reader m)
  | (Err _, m) => mp_output m = w \/ exists records head ops result, concat (map rec_raw records) `prefix_of` source_bytes (rd_inner r) /\
      header_plan growth (Writer_endianness w) r = Some head /\
      map_plan mapper growth (Writer_endianness w) (Reader_endianness r) 0 records = Some ops /\ run_ops (head ++ ops) w = (result, mp_output m)
  | (Panic, _) => False
  end.
Proof using mapper_wf growth_ok.
  intros Hfresh Hw Hz Hu. unfold map_frames. unfold mbind at 1, stm_bind at 1, lift at 1.
  destruct (Budget_new limits) as [budget|err|] eqn:Eb; [|by left|].
  2: { unfold Budget_new, StreamLimits_validate, mbind, outcome_bind in Eb. repeat case_match; done. }
  assert (budget = mkBudget limits 0 0) as -> by (unfold Budget_new in Eb; inv_ok Eb; by injection Eb as <-).
  rewrite gets_bind. destruct (negb _); [by left|]. destruct (256 <? growth); [by left|]. rewrite gets_bind.
  unfold mbind at 1, stm_bind at 1, refuse_declared_fcs. cbn [mp_reader]. destruct (rd_declares_fcs r) eqn:Hd; [by left|].
  rewrite gets_bind. cbn [mp_reader]. pose proof (map_header_spec r w Hfresh Hw) as Hs. unfold mbind at 1, stm_bind at 1.
  match goal with |- context [match ?t (mkMapper r w) with _ => _ end] => destruct (t (mkMapper r w)) as [[report|err|] m] end; [| |done].
  - destruct Hs as (head & w1 & -> & Hhead & Hrun1 & Hw1 & He & -> & _ & _). destruct Hfresh as (Hr & Hf & Hh).
    assert (zlen (rd_interfaces r) <= 1) as H1 by (destruct (rd_header r); [destruct Hh as (? & ->)|rewrite Hh]; rewrite ?zlen_cons, ?zlen_nil; lia).
    pose proof (map_loop_spec fuel (mkBudget limits 0 0) (mkMapReport 0 0 0 0 (zlen (rd_interfaces r)) 0) (Reader_endianness r) r w1 Hr Hf Hd Hw1
      ltac:(by split_and!) Hz ltac:(cbn; lia) ltac:(lia)) as Hl.
    destruct (map_loop _ _ _ _ _ fuel _ _ _ _) as [[report|err|] m]; [| |done].
    + destruct Hl as (records & ops & Er & Hp & Hrun2 & ->). rewrite He in Hp. exists records, head, ops. split_and!; try done.
      by rewrite run_ops_app, (stm_bind_eq _ _ _ _ _ Hrun1).
    + destruct Hl as (records & ops & result & Hpre & Hp & Hrun2). rewrite He in Hp. right. exists records, head, ops, result. split_and!; try done.
      by rewrite run_ops_app, (stm_bind_eq _ _ _ _ _ Hrun1).
  - destruct Hs as [->|(head & result & Hhead & Hrun)]; [by left|]. right. exists [], head, [], result. rewrite app_nil_r.
    split_and!; try done. apply prefix_nil.
Qed.

Lemma map_frames_total fuel r w records r' head ops w' : fresh_reader r -> writer_wf w ->
  zlen (source_bytes (rd_inner r)) < Z.of_nat fuel -> zlen (source_bytes (rd_inner r)) < u64_max ->
  rd_declares_fcs r = false -> (exists e, wr_state w = WriterPcapNg e []) -> read_records alloc fuel checks r = (records, Ok tt, r') ->
  header_plan growth (Writer_endianness w) r = Some head ->
  map_plan mapper growth (Writer_endianness w) (Reader_endianness r) 0 records = Some ops -> run_ops (head ++ ops) w = (Ok tt, w') ->
  0 < max_frames limits -> zlen (frames_of records) <= max_frames limits <= u64_max ->
  0 < max_bytes limits -> captured_of records <= max_bytes limits <= u64_max ->
  captured_total (op_frames ops) <= u64_max -> Forall (fun f => 0 <= captured_length f) (op_frames ops) ->
  exists report m, map_frames alloc checks mapper limits growth fuel (mkMapper r w) = (Ok report, m).
Proof using mapper_wf growth_ok.
  intros Hfresh Hw Hz Hu Hd (e & Es) Er Hhead Hp Hrun Hf0 Hf Hb0 Hb Ht Hnn. unfold map_frames. rewrite (lift_bind_eq _ _ _ (mkBudget limits 0 0)).
  2: { unfold Budget_new, StreamLimits_validate. by rewrite !(proj2 (Z.eqb_neq _ _)) by lia. }
  rewrite gets_bind. unfold Writer_format. cbn [mp_output]. rewrite Es. cbn [bool_decide negb]. rewrite bool_decide_eq_true_2 by done. cbn [negb].
  rewrite (proj2 (Z.ltb_ge _ _)) by lia. rewrite gets_bind. unfold mbind at 1, stm_bind at 1, refuse_declared_fcs. cbn [mp_reader]. rewrite Hd, gets_bind. cbn [mp_reader].
  rewrite run_ops_app in Hrun. apply stm_bind_Ok in Hrun as ([] & w1 & Hrun1 & Hrun2).
  pose proof (map_header_spec r w Hfresh Hw) as Hs. unfold mbind at 1, stm_bind at 1.
  match goal with |- context [match ?t (mkMapper r w) with _ => _ end] => destruct (t (mkMapper r w)) as [[report|err|] m] eqn:Et end; [| |done].
  - destruct Hs as (head' & w1' & -> & Hhead' & Hrun1' & Hw1 & He & -> & _ & Hlen). rewrite Hhead in Hhead'. injection Hhead' as <-.
    rewrite Hrun1 in Hrun1'. injection Hrun1' as <-. destruct Hfresh as (Hr & Hfin & Hh).
    assert (zlen (rd_interfaces r) <= 1) as H1 by (destruct (rd_header r); [destruct Hh as (? & ->)|rewrite Hh]; rewrite ?zlen_cons, ?zlen_nil; lia).
    eapply (map_loop_total fuel (mkBudget limits 0 0) _ _ r w1 records r' ops w'); try done; cbn; try lia; [|by rewrite He].
    rewrite Hlen. unfold writer_interfaces. by rewrite Es.
  - exfalso. destruct Hfresh as ((_ & Hi & _) & _ & Hh). unfold header_plan in Hhead. destruct (rd_header r) as [h|h]; [|done].
    destruct Hh as (i & Ei). rewrite Ei in *. apply Forall_cons_1 in Hi as [Hi _]. cbn [map_interfaces mapM] in *.
    apply bind_Some in Hhead as (op & Hop & Hhead). injection Hhead as <-. rewrite run_one in Hrun1.
    unfold map_interface in Et. pose proof (add_mapped_interface_total i [] (Reader_endianness r) w op w1 Hw Hi ltac:(constructor) Hop Hrun1) as Ea.
    unfold mbind at 1, stm_bind at 1 in Et. rewrite (stm_bind_eq _ _ _ (zlen (writer_interfaces w)) (mkMapper r w1)) in Et by (unfold on_writer, zoom; cbn; by rewrite Ea).
    unfold writer_interfaces in Et. rewrite Es in Et. done.
Qed.
End spec.

(** The frames that go out for these frames. *)
Fixpoint mapped_frames (mapper : Z -> Frame -> BoundaryError + Frame) (growth n : Z) (frames : list Frame) : option (list Frame) :=
  match frames with
  | [] => Some []
  | f :: rest => g ← mapped_frame mapper growth (n + 1) f; more ← mapped_frames mapper growth (n + 1) rest; Some (g :: more)
  end.

Lemma mapped_frames_length mapper growth frames : forall n mapped, mapped_frames mapper growth n frames = Some mapped -> length mapped = length frames.
Proof.
  induction frames as [|f frames IH]; intros n mapped H; cbn [mapped_frames] in H; [by injection H as <-|].
  apply bind_Some in H as (g & _ & H). apply bind_Some in H as (more & Hm & [= <-]). cbn. by rewrite (IH _ _ Hm).
Qed.

Lemma map_plan_frames mapper growth target records : forall e n ops, Forall kind_matches records ->
  map_plan mapper growth target e n records = Some ops -> mapped_frames mapper growth n (frames_of records) = Some (op_frames ops).
Proof.
  induction records as [|x records IH]; intros e n ops Hk Hp; cbn [map_plan] in Hp; [by injection Hp as <-|].
  apply Forall_cons_1 in Hk as [Hx Hk]. apply bind_Some in Hp as (ops1 & Hops & Hp). apply bind_Some in Hp as (more & Hplan & [= <-]).
  rewrite op_frames_app. apply (IH _ _ _ Hk) in Hplan as Hm. unfold kind_matches in Hx. unfold record_ops in Hops.
  rewrite !frames_of_cons in *. change (frames_of []) with (@nil Frame) in Hm.
  destruct (rec_kind x) as [k s l options|metadata].
  - destruct Hx as (f & Ef). rewrite Ef in *. change (zlen [f]) with 1 in Hm. destruct (validate_rewritable_packet_flags _ _ _); [|done|done].
    cbn [mapped_frames]. destruct (mapped_frame mapper growth (n + 1) f) as [g|]; [|done]. injection Hops as <-. cbn [mbind option_bind]. by rewrite Hm.
  - rewrite Hx in *. change (zlen (@nil Frame)) with 0 in Hm. rewrite Z.add_0_r in Hm. assert (op_frames ops1 = []) as ->; [|done].
    destruct metadata; try by injection Hops as <-. destruct (existsb _ _); [done|]. apply bind_Some in Hops as (op & Hop & [= <-]). by eapply interface_op_frames.
Qed.

Lemma interface_op_wf growth target e i options op : 0 <= growth <= 256 -> interface_wf i -> Forall option_typed options ->
  interface_op growth target e i options = Some op -> op_wf op.
Proof.
  intros Hg Hi Ho H. rewrite interface_op_code in H by done. pose proof (grown_interface_safe i growth Hi Hg) as H1.
  pose proof (retained_options_safe options e target Ho) as H2. destruct (grown_interface i growth) as [j|?|]; [|done|done].
  destruct (retained_options options e target) as [kept|?|]; [|done|done]. injection H as <-. destruct H1. split; [by apply interface_wf_typed|done].
Qed.

Lemma map_plan_wf mapper growth target records : 0 <= growth <= 256 -> (forall n f g, mapper n f = inr g -> frame_wf g) ->
  Forall description_typed records -> forall e n ops, map_plan mapper growth target e n records = Some ops -> Forall op_wf ops.
Proof.
  intros Hg Hm. induction 1 as [|x records Hx _ IH]; intros e n ops Hp; cbn [map_plan] in Hp; [injection Hp as <-; constructor|].
  apply bind_Some in Hp as (ops1 & Hops & Hp). apply bind_Some in Hp as (more & Hplan & [= <-]). apply Forall_app. split; [|by eapply IH].
  unfold record_ops, description_typed in *. destruct (rec_kind x) as [k s l options|metadata].
  - destruct (validate_rewritable_packet_flags _ _ _); [|done|done]. destruct (rec_frame x) as [f|]; [|done].
    apply bind_Some in Hops as (g & Hmapped & [= <-]). apply Forall_singleton. rewrite mapped_frame_code in Hmapped.
    destruct (mapper (n + 1) f) as [|g0] eqn:Em; [done|]. destruct (_ && _); [|done]. injection Hmapped as <-. cbn. apply placed_wf. by eapply Hm.
  - destruct metadata; try (injection Hops as <-; constructor). destruct (existsb _ _); [done|]. apply bind_Some in Hops as (op & Hop & [= <-]).
    apply Forall_singleton. destruct Hx. by eapply interface_op_wf.
Qed.

Lemma header_plan_wf growth target r head : 0 <= growth <= 256 -> fresh_reader r -> header_plan growth target r = Some head ->
  Forall op_wf head /\ op_frames head = [].
Proof.
  intros Hg ((_ & Hi & _) & _ & Hh) H. unfold header_plan in H. destruct (rd_header r); [|injection H as <-; split; [constructor|done]].
  destruct Hh as (i & Ei). rewrite Ei in *. apply Forall_cons_1 in Hi as [Hi _]. cbn [mapM] in H. apply bind_Some in H as (op & Hop & H). injection H as <-.
  split; [apply Forall_singleton; by eapply interface_op_wf|]. by eapply interface_op_frames.
Qed.

Lemma map_frames_growth alloc checks mapper limits growth fuel r w : 256 < growth ->
  match map_frames alloc checks mapper limits growth fuel (mkMapper r w) with (Err _, m) => mp_output m = w | _ => False end.
Proof.
  intros Hg. unfold map_frames. unfold mbind at 1, stm_bind at 1, lift at 1.
  destruct (Budget_new limits) as [budget|err|] eqn:Eb; [|done|].
  - rewrite gets_bind. destruct (negb _); [done|]. by rewrite (proj2 (Z.ltb_lt _ _)) by lia.
  - unfold Budget_new, StreamLimits_validate, mbind, outcome_bind in Eb. repeat case_match; done.
Qed.

Lemma opened_fresh alloc limits source r rest : limits_ok limits -> octets (source_bytes source) ->
  Reader_with_control alloc limits None None source = (Ok r, rest) -> fresh_reader r.
Proof.
  intros Hl Ho H. pose proof (opened_whole _ _ _ _ _ Hl Ho H) as Hw. destruct (opened_interfaces _ _ _ _ _ H) as [Hi Hf].
  split; [done|]. split; [done|]. destruct Hw as (_ & _ & Hh). destruct (rd_header r) as [h|h].
  - destruct Hh as (s & Es & _). rewrite Es in Hi. by eexists.
  - destruct Hh as (s & Es). by rewrite Es in Hi.
Qed.

(** ** Theorems *)

(** C26: Mapping a capture carries out exactly its plan.  On any stream that opens,
    the pass never panics; when it succeeds the input was read to its end and the
    output is the writer after the operations of the plan, in order: the
    interfaces of the input, their snapshot lengths widened by the growth (zero,
    no limit, stays zero), with their options but those the writer generates, the
    speeds put in the byte order of the output; and every frame with the time,
    interface, link type and direction it had and the bytes the caller's function
    gave it; the report counts frames, changed frames, bytes read and written, interfaces and
    metadata.  When it fails, the output is untouched or the writer after a run of
    the plan for the records seen.  It does succeed when the input reads to its
    end, the plan exists, the limits admit it and the writer accepts it. *)
Theorem map_frames_exact (alloc : capture_allocator) (limits : ReaderLimits) (source : Source) (r : Reader) (rest : Source)
  (checks : nat -> option CaptureError * option CaptureError) (mapper : Z -> Frame -> BoundaryError + Frame)
  (ceilings : StreamLimits) (growth : Z) (w : Writer) :
  limits_ok limits -> octets (source_bytes source) -> zlen (source_bytes source) < u64_max ->
  Reader_with_control alloc limits None None source = (Ok r, rest) ->
  (forall n f g, mapper n f = inr g -> frame_wf g) -> 0 <= growth -> writer_wf w ->
  let fuel := S (length (source_bytes source)) in
  let header := header_plan growth (Writer_endianness w) r in
  let plan := map_plan mapper growth (Writer_endianness w) (Reader_endianness r) 0 in
  match map_frames alloc checks mapper ceilings growth fuel (mkMapper r w) with
  | (Ok report, m) => exists records head ops, read_records alloc fuel checks r = (records, Ok tt, mp_reader m) /\
      header = Some head /\ plan records = Some ops /\ run_ops (head ++ ops) w = (Ok tt, mp_output m) /\
      mapped_frames mapper growth 0 (frames_of records) = Some (op_frames ops) /\ report = map_summary mapper records ops (mp_reader m)
  | (Err _, m) => mp_output m = w \/ exists records head ops result, concat (map rec_raw records) `prefix_of` source_bytes (rd_inner r) /\
      header = Some head /\ plan records = Some ops /\ run_ops (head ++ ops) w = (result, mp_output m)
  | (Panic, _) => False
  end /\
  (forall records r' head ops w', growth <= 256 -> rd_declares_fcs r = false -> (exists e, wr_state w = WriterPcapNg e []) ->
    read_records alloc fuel checks r = (records, Ok tt, r') -> header = Some head -> plan records = Some ops ->
    run_ops (head ++ ops) w = (Ok tt, w') ->
    0 < max_frames ceilings -> zlen (frames_of records) <= max_frames ceilings <= u64_max ->
    0 < max_bytes ceilings -> captured_of records <= max_bytes ceilings <= u64_max ->
    captured_total (op_frames ops) <= u64_max -> Forall (fun f => 0 <= captured_length f) (op_frames ops) ->
    exists report m, map_frames alloc checks mapper ceilings growth fuel (mkMapper r w) = (Ok report, m)).
Proof.
  intros Hl Ho Hu H Hm Hg Hw fuel header plan. pose proof (opened_fresh _ _ _ _ _ Hl Ho H) as Hfresh.
  destruct (opened_reader _ _ _ _ _ Hl Ho H) as (_ & _ & _ & _ & Es & Hz). fold fuel in Hz.
  assert (zlen (source_bytes (rd_inner r)) < u64_max) as Hu' by (rewrite Es, zlen_app in Hu; pose proof (zlen_nonneg (CaptureHeader_raw (rd_header r))); lia).
  split.
  - destruct (Z.leb_spec growth 256) as [Hg'|Hg'].
    + pose proof (map_frames_spec alloc checks mapper ceilings growth Hm ltac:(lia) fuel r w Hfresh Hw Hz Hu') as Hs.
      destruct (map_frames _ _ _ _ _ _ _) as [[report|err|] m]; [|done|done]. destruct Hs as (records & head & ops & Er & Hh & Hp & Hrun & Hrep).
      exists records, head, ops. split_and!; try done. eapply map_plan_frames; [|exact Hp]. eapply read_records_kinds; [|exact Er]. apply Hfresh.
    + pose proof (map_frames_growth alloc checks mapper ceilings growth fuel r w Hg') as Hs.
      destruct (map_frames _ _ _ _ _ _ _) as [[report|err|] m]; [done|by left|done].
  - intros. by eapply map_frames_total.
Qed.

(** The interfaces of the output are those of the input, in order, widened. *)
Definition interfaces_kept (growth : Z) (input output : list Interface) : Prop :=
  Forall2 (fun i j => widened growth i = Some j) input output.

Lemma interface_op_kept growth target e i options op w w' interfaces : 0 <= growth <= 256 -> interface_wf i -> Forall option_typed options ->
  interface_op growth target e i options = Some op -> writer_wf w -> writer_step op w = (Ok tt, w') ->
  interfaces_kept growth interfaces (writer_interfaces w) -> interfaces_kept growth (interfaces ++ [i]) (writer_interfaces w') /\ writer_wf w' /\
  exists e', wr_state w' = WriterPcapNg e' (writer_interfaces w').
Proof.
  intros Hg Hi Ho Hop Hw Hs Hk. pose proof (interface_op_wf _ _ _ _ _ _ Hg Hi Ho Hop) as Hwf.
  apply bind_Some in Hop as (j & Ej & Hop). apply bind_Some in Hop as (kept & _ & Hop). injection Hop as <-. destruct Hwf as [Hj Hkept]. pose proof (add_description_step w j kept Hw Hj Hkept) as H.
  destruct (add_interface_description_with_options j kept w) as [[id|?|] w1]; [| |done].
  - destruct H as (Hs' & Hw' & _ & _ & _ & Ei & Hng). rewrite Hs in Hs'. injection Hs' as <-. split; [|done]. rewrite Ei. apply Forall2_app; [done|]. by repeat constructor.
  - by rewrite Hs in H.
Qed.

Lemma map_plan_interfaces alloc checks mapper growth target fuel : 0 <= growth <= 256 -> (forall n f g, mapper n f = inr g -> frame_wf g) ->
  forall e n r w records r' ops w', reader_whole r -> writer_wf w -> read_records alloc fuel checks r = (records, Ok tt, r') ->
  map_plan mapper growth target e n records = Some ops -> run_ops ops w = (Ok tt, w') ->
  interfaces_kept growth (rd_interfaces r) (writer_interfaces w) -> (exists e, wr_state w = WriterPcapNg e (writer_interfaces w)) ->
  interfaces_kept growth (rd_interfaces r') (writer_interfaces w') /\ exists e, wr_state w' = WriterPcapNg e (writer_interfaces w').
Proof.
  intros Hg Hm. induction fuel as [|fuel IH]; intros e n r w records r' ops w' Hr Hw E Hp Hrun Hk Hng; cbn [read_records] in E; [done|].
  destruct (next_record alloc (checks fuel).1 (checks fuel).2 r) as [[[x|]|err|] r1] eqn:En; [| |done|done].
  2: { injection E as <- <-. injection Hp as <-. injection Hrun as <-. apply next_record_end in En as (_ & -> & _); done. }
  destruct (next_record_effect _ _ _ _ _ _ Hr En) as (Hr1 & Hx & _).
  destruct (read_records alloc fuel checks r1) as [[records1 result1] r2] eqn:Er. injection E as <- -> ->. cbn [map_plan] in Hp.
  apply bind_Some in Hp as (ops1 & Hops & Hp). apply bind_Some in Hp as (more & Hplan & [= <-]).
  rewrite run_ops_app in Hrun. apply stm_bind_Ok in Hrun as ([] & w1 & Hrun1 & Hrun2).
  cut (interfaces_kept growth (rd_interfaces r1) (writer_interfaces w1) /\ writer_wf w1 /\ exists e', wr_state w1 = WriterPcapNg e' (writer_interfaces w1));
    [intros (Hk1 & Hw1 & Hng1); by eapply IH|].
  unfold record_ops, record_effect in *. destruct (rec_kind x) as [k s l options|metadata].
  - destruct Hx as [-> _]. destruct (validate_rewritable_packet_flags _ _ _); [|done|done]. destruct (rec_frame x) as [f|]; [|done].
    apply bind_Some in Hops as (g & Hmapped & [= <-]). rewrite run_one in Hrun1. cbn [writer_step] in Hrun1. rewrite mapped_frame_code in Hmapped.
    destruct (mapper (n + 1) f) as [|g0] eqn:Em; [done|]. destruct (_ && _); [|done]. injection Hmapped as <-. destruct (placed_interface g0) as (id & Hid).
    pose proof (write_frame_step w (placed g0) id Hw (placed_wf _ (Hm _ _ _ Em)) Hid) as Hs. rewrite Hrun1 in Hs. destruct Hs as [Hw1 Es].
    unfold writer_interfaces in *. by rewrite Es.
  - destruct metadata; try (destruct Hx as [-> _]; injection Hops as <-; by injection Hrun1 as <-).
    destruct (existsb _ _); [done|]. apply bind_Some in Hops as (op & Hop & [= <-]). rewrite run_one in Hrun1.
    destruct Hx as (Ex & _ & _ & Hcodes). destruct Hr1 as (_ & Hi & _). rewrite Ex in *. apply Forall_app in Hi as [_ Hi]. apply Forall_cons_1 in Hi as [Hi _].
    by eapply interface_op_kept.
Qed.

(** C27: A mapped capture reads back as the mapped frames.  When a pass into a new
    block capture succeeds, over an output that takes the bytes in any pieces, a
    reader whose limits admit the result opens it and returns, in order, exactly
    the frames of the input as the caller's function changed them, with their
    bytes, lengths, times and directions, each under the interface it had, and
    then the end; its interfaces are those of the input, in order, widened by the
    growth. *)
Theorem mapped_capture_reads_back (alloc : capture_allocator) (limits : ReaderLimits) (source : Source) (r : Reader) (rest : Source)
  (checks : nat -> option CaptureError * option CaptureError) (mapper : Z -> Frame -> BoundaryError + Frame)
  (ceilings : StreamLimits) (growth : Z) (script : list write_event) (options : PcapNgOptions) (w : Writer) (report : MapReport) (m : Mapper) :
  limits_ok limits -> octets (source_bytes source) -> zlen (source_bytes source) < u64_max ->
  Reader_with_control alloc limits None None source = (Ok r, rest) ->
  (forall n f g, mapper n f = inr g -> frame_wf g) -> 0 <= growth -> (forall kind n, alloc kind n = true) ->
  0 <= pn_max_size options <= usize_max -> pcapng_with_options (mkSink [] script) options = Ok w ->
  map_frames alloc checks mapper ceilings growth (S (length (source_bytes source))) (mkMapper r w) = (Ok report, m) ->
  exists records head ops mapped interfaces,
    read_records alloc (S (length (source_bytes source))) checks r = (records, Ok tt, mp_reader m) /\
    header_plan growth (Writer_endianness w) r = Some head /\
    map_plan mapper growth (Writer_endianness w) (Reader_endianness r) 0 records = Some ops /\
    mapped_frames mapper growth 0 (frames_of records) = Some mapped /\ pcapng_interfaces (mp_output m) = Ok interfaces /\
    interfaces_kept growth (rd_interfaces (mp_reader m)) interfaces /\
    forall limits' source', reader_admits limits' (pn_max_size options) (head ++ ops) interfaces ->
    delivers source' (sink_bytes (wr_inner (mp_output m))) ->
    exists r1 rest1 r2 frames, Reader_with_control alloc limits' None None source' = (Ok r1, rest1) /\
      collect alloc (S (length mapped)) (S (Z.to_nat (rl_max_metadata_blocks_per_frame limits'))) r1 = (Ok frames, r2) /\
      Forall2 (read_back interfaces) mapped frames /\ rd_finished r2 = true /\ rd_interfaces r2 = interfaces.
Proof.
  intros Hl Ho Hu H Hm Hg Ha Hms Hw E. set (fuel := S (length (source_bytes source))) in *. pose proof (opened_fresh _ _ _ _ _ Hl Ho H) as Hfresh.
  destruct (opened_reader _ _ _ _ _ Hl Ho H) as (_ & _ & _ & _ & Es & Hz). fold fuel in Hz.
  assert (zlen (source_bytes (rd_inner r)) < u64_max) as Hu' by (rewrite Es, zlen_app in Hu; pose proof (zlen_nonneg (CaptureHeader_raw (rd_header r))); lia).
  destruct (pcapng_with_options_Ok _ _ _ Hms Hw) as (Hwf & Est & _ & _ & _).
  destruct (Z.leb_spec growth 256) as [Hg'|Hg']; [|pose proof (map_frames_growth alloc checks mapper ceilings growth fuel r w Hg') as Hx; by rewrite E in Hx].
  pose proof (map_frames_spec alloc checks mapper ceilings growth Hm ltac:(lia) fuel r w Hfresh Hwf Hz Hu') as Hs. rewrite E in Hs.
  destruct Hs as (records & head & ops & Er & Hh & Hp & Hrun & Hrep). destruct (header_plan_wf growth _ _ _ ltac:(lia) Hfresh Hh) as [Hhw Hhf].
  assert (reader_whole r) as Hr by apply Hfresh. destruct (read_records_kinds alloc checks fuel r _ _ _ Hr Er) as [Hkinds Htyped].
  pose proof (map_plan_wf _ _ _ _ (conj Hg Hg') Hm Htyped _ _ _ Hp) as Hopw.
  pose proof (map_plan_frames _ _ _ _ _ _ _ Hkinds Hp) as Hframes. pose proof Hrun as Hrun'. rewrite run_ops_app in Hrun'.
  apply stm_bind_Ok in Hrun' as ([] & w1 & Hrun1 & Hrun2).
  assert (interfaces_kept growth (rd_interfaces r) (writer_interfaces w1) /\ writer_wf w1 /\ exists e1, wr_state w1 = WriterPcapNg e1 (writer_interfaces w1)) as (Hk1 & Hw1 & Hng1).
  { clear -Hh Hrun1 Hfresh Hwf Est Hg Hg' Hw. destruct Hfresh as ((_ & Hi & _) & _ & Hhd). unfold header_plan in Hh. destruct (rd_header r).
    - destruct Hhd as (i & Ei). rewrite Ei in *. apply Forall_cons_1 in Hi as [Hi _]. cbn [mapM] in Hh. apply bind_Some in Hh as (op & Hop & Hh). injection Hh as <-.
      rewrite run_one in Hrun1. change [i] with ([] ++ [i]). apply (interface_op_kept growth (Writer_endianness w) (Reader_endianness r) i [] op w w1 [] (conj Hg Hg') Hi ltac:(constructor) Hop Hwf Hrun1).
      unfold writer_interfaces. rewrite Est. constructor.
    - injection Hh as <-. injection Hrun1 as <-. rewrite Hhd. unfold writer_interfaces. rewrite Est. split; [constructor|]. split; [done|]. by eexists. }
  destruct (map_plan_interfaces alloc checks mapper growth _ fuel (conj Hg Hg') Hm _ _ r w1 records _ ops _ Hr Hw1 Er Hp Hrun2 Hk1 Hng1) as [Hk (e2 & Hng2)].
  assert (pcapng_interfaces (mp_output m) = Ok (writer_interfaces (mp_output m))) as Hpi by (unfold pcapng_interfaces; by rewrite Hng2).
  assert (op_frames (head ++ ops) = op_frames ops) as Eops by (by rewrite op_frames_app, Hhf).
  exists records, head, ops, (op_frames ops), (writer_interfaces (mp_output m)). split_and!; try done.
  intros limits' source' Hadm Hd. assert (Forall op_wf (head ++ ops)) as Hall by (by apply Forall_app).
  destruct (written_reads_back alloc script options (head ++ ops) w (mp_output m) _ limits' source' Hms Hall Ha Hw Hrun Hpi Hadm Hd)
    as (r1 & rest1 & r2 & frames & H1 & _ & _ & H2 & H3 & H4 & H5). rewrite Eops in *. by exists r1, rest1, r2, frames.
Qed.

(** ** Witnesses *)

(** The first frame is kept, the second gets a byte more, any other is refused. *)
Definition demo_mapper (n : Z) (f : Frame) : BoundaryError + Frame :=
  if n =? 1 then inr (mkFrame (Some 7000) 1 1 1 (Some 0) None [5])
  else if n =? 2 then inr (mkFrame (Some 9000) 3 60 1 (Some 0) None [8; 9; 10])
  else inl ["no such frame"]%string.

Lemma demo_mapper_wf n f g : demo_mapper n f = inr g -> frame_wf g.
Proof.
  unfold demo_mapper. intros H. assert (forall t c o i b, g = mkFrame (Some t) c o 1 (Some i) None b -> c = zlen b -> c <= o <= u32_max -> is_time t ->
    is_u32 i -> frame_wf g) as Hwf.
  { intros t c o i b -> Hc Ho Ht Hi. unfold frame_wf, frame_ok, is_u32, u32_max in *. cbn. split_and!; try done; try lia; by intros ? [= <-]. }
  destruct (n =? 1); [|destruct (n =? 2); [|done]]; injection H as <-.
  - by eapply Hwf; [reflexivity|..].
  - by eapply Hwf; [reflexivity|..].
Qed.

Definition demo_map_options : PcapNgOptions := mkPcapNgOptions Little 128 4 StreamLimits_default.

Definition demo_map_writer : Writer :=
  match pcapng_with_options (mkSink [] demo_pcap_script) demo_map_options with Ok w => w | _ => demo_writer [] end.

Definition demo_fuel : nat := S (length (source_bytes demo_blocks)).

Definition demo_mapped : outcome CaptureError MapReport * Mapper :=
  map_frames (fun _ _ => true) (fun _ => (None, None)) demo_mapper StreamLimits_default 1 demo_fuel (mkMapper demo_reader demo_map_writer).

Lemma demo_map_writer_ok : pcapng_with_options (mkSink [] demo_pcap_script) demo_map_options = Ok demo_map_writer.
Proof. by vm_compute. Qed.

Definition demo_read : list CaptureRecord * outcome CaptureError unit * Reader :=
  read_records (fun _ _ => true) demo_fuel (fun _ => (None, None)) demo_reader.

Definition demo_plan : option (list writer_op) :=
  map_plan demo_mapper 1 (Writer_endianness demo_map_writer) (Reader_endianness demo_reader) 0 demo_read.1.1.

Definition plan_facts (read : list CaptureRecord * outcome CaptureError unit * Reader) (plan : option (list writer_op)) : Prop :=
  read.1.2 = Ok tt /\ zlen (frames_of read.1.1) = 2 /\ captured_of read.1.1 = 3 /\
  frames_altered demo_mapper 0 (frames_of read.1.1) = 1 /\ zlen (rd_interfaces read.2) = 1 /\
  match plan with
  | Some ops => (run_ops ops demo_map_writer).1 = Ok tt /\ captured_total (op_frames ops) = 4 /\ options_total ops = 0 /\
      forallb (fun f => 0 <=? captured_length f) (op_frames ops) = true /\ forallb (fun op => zlen (op_options op) =? 0) ops = true
  | None => False
  end.

Lemma demo_map_plan : plan_facts demo_read demo_plan.
Proof. vm_compute. by split_and!. Qed.

Lemma plan_facts_inv read plan : plan_facts read plan -> exists records r' ops w', read = (records, Ok tt, r') /\ plan = Some ops /\
  zlen (frames_of records) = 2 /\ captured_of records = 3 /\ frames_altered demo_mapper 0 (frames_of records) = 1 /\ zlen (rd_interfaces r') = 1 /\
  run_ops ops demo_map_writer = (Ok tt, w') /\ captured_total (op_frames ops) = 4 /\ options_total ops = 0 /\
  Forall (fun f => 0 <= captured_length f) (op_frames ops) /\ Forall (fun op => zlen (op_options op) = 0) ops.
Proof.
  intros (H1 & H2 & H3 & H4 & H5 & Hp). destruct read as [[records result] r']. cbn [fst snd] in *. subst result. destruct plan as [ops|]; [|done].
  destruct Hp as (Hr & H6 & H7 & H8 & H9). destruct (run_ops ops demo_map_writer) as [result w'] eqn:E. cbn in Hr. subst result.
  exists records, r', ops, w'. split_and!; try done; apply List.Forall_forall; intros y Hy.
  - apply Z.leb_le. by apply (proj1 (forallb_forall _ _) H8).
  - apply Z.eqb_eq. by apply (proj1 (forallb_forall _ _) H9).
Qed.

Lemma result_ok {A S} (x : outcome CaptureError A * S) : match x.1 with Ok _ => true | _ => false end = true -> exists a s, x = (Ok a, s).
Proof. destruct x as [[a| |] s]; try done. by exists a, s. Qed.

Lemma demo_mapped_ok : exists report m, demo_mapped = (Ok report, m).
Proof. apply result_ok. by vm_compute. Qed.

Lemma map_frames_exact_witness : exists report m, demo_mapped = (Ok report, m) /\
  mr_frames_read report = 2 /\ mr_frames_changed report = 1 /\ mr_captured_bytes_written report = 4.
Proof.
  destruct (map_frames_exact (fun _ _ => true) demo_limits demo_blocks demo_reader (rd_inner demo_reader) (fun _ => (None, None)) demo_mapper
    StreamLimits_default 1 demo_map_writer) as [H Htotal];
    [split; cbn; lia|by apply octets_check|by vm_compute|vm_compute; reflexivity|exact demo_mapper_wf|lia| |].
  { destruct (pcapng_with_options_Ok demo_pcap_script demo_map_options demo_map_writer) as [Hw _]; [cbn; unfold usize_max, u64_max; lia|exact demo_map_writer_ok|exact Hw]. }
  fold demo_fuel in H, Htotal. fold demo_read in H, Htotal.
  destruct (plan_facts_inv _ _ demo_map_plan) as (records & r' & ops & w' & Er & Hp & E2 & E3 & E4 & _ & Hrun & E5 & _ & Hnn & _).
  unfold demo_plan in Hp. rewrite Er in Hp. cbn [fst snd] in Hp.
  destruct (Htotal records r' [] ops w' ltac:(lia) ltac:(by vm_compute) ltac:(by eexists) Er ltac:(by vm_compute) Hp Hrun) as (report & m & E);
    [cbn; unfold u64_max; lia..|exact Hnn|].
  rewrite E in H. destruct H as (records' & head & ops' & Er' & Hh & Hp' & Hrun' & _ & ->).
  rewrite Er in Er'. injection Er' as <- Em. rewrite Hp in Hp'. injection Hp' as <-.
  do 2 eexists. split; [exact E|]. split; [exact E2|]. split; [exact E4|exact E5].
Defined.

Lemma mapped_capture_reads_back_witness : exists report m frames r1 rest1 r2, demo_mapped = (Ok report, m) /\
  Reader_with_control (fun _ _ => true) ReaderLimits_default None None [Data (sink_bytes (wr_inner (mp_output m)))] = (Ok r1, rest1) /\
  collect (fun _ _ => true) 3 4097 r1 = (Ok frames, r2) /\ length frames = 2%nat.
Proof.
  destruct demo_mapped_ok as (report & m & E).
  destruct (mapped_capture_reads_back (fun _ _ => true) demo_limits demo_blocks demo_reader (rd_inner demo_reader) (fun _ => (None, None)) demo_mapper
    StreamLimits_default 1 demo_pcap_script demo_map_options demo_map_writer report m) as (records & head & ops & mapped & interfaces & Er & Hh & Hp & Hmap & Hi & Hk & Hread);
    [split; cbn; lia|by apply octets_check|by vm_compute|vm_compute; reflexivity|exact demo_mapper_wf|lia|done|cbn; unfold usize_max, u64_max; lia
    |exact demo_map_writer_ok|exact E|].
  fold demo_fuel in Er. fold demo_read in Er.
  destruct (plan_facts_inv _ _ demo_map_plan) as (records' & r' & ops' & w' & Er' & Hp' & E2 & _ & _ & E5 & _ & _ & E6 & _ & Hopt).
  unfold demo_plan in Hp'. rewrite Er in Er', Hp'. injection Er' as <- <-. cbn [fst snd] in Hp'. rewrite Hp in Hp'. injection Hp' as <-.
  injection Hh as <-. apply Forall2_length in Hk as Hlen.
  assert (zlen interfaces = 1) as E7 by (unfold zlen in *; lia).
  assert (length mapped = 2%nat) as E8.
  { apply mapped_frames_length in Hmap. unfold zlen in E2. lia. }
  destruct (Hread ReaderLimits_default [Data (sink_bytes (wr_inner (mp_output m)))]) as (r1 & rest1 & r2 & frames & H1 & H2 & H3 & _).
  - split; cbn [app]; rewrite ?E7; [by vm_compute..|rewrite E6; vm_compute; by split|]. eapply Forall_impl; [exact Hopt|].
    intros op Hop. rewrite Hop. by vm_compute.
  - apply delivers_one. replace m with (demo_mapped.2) by (rewrite E; reflexivity). by vm_compute.
  - rewrite E8 in H2. exists report, m, frames, r1, rest1, r2. split; [done|]. split; [exact H1|]. split; [exact H2|].
    apply Forall2_length in H3. lia.
Defined.
