(* ===== verification/CaptureMerge.v ===== *)
(** * Capture files: merging ([merge.rs])

    Several captures merged into one block capture: each source is read through a
    look-ahead window, the earliest head is taken in turn, and every interface of a
    source that has a frame is described in the output before its first frame. *)

From stdpp Require Import base tactics option list numbers strings gmap.
From Stdlib Require Import ZArith Lia.
From S2P Require Import Prelude Checksum Ordered Flow Headers HeadersProofs Frame Transform TransformProofs IpRanges.
From S2P Require Import CaptureWire CaptureRead CaptureWrite CaptureStreams CaptureTime CaptureEncode CaptureWriter CaptureReader CaptureBlocks CaptureSafety.
From S2P Require Import CaptureRoundTrip CaptureDecode CaptureRoundTripNg CaptureCopy CaptureRecords CaptureMap.

(** ** Data *)

(** [ms_turns] bounds the records that may still be read and numbers the answers of
    the deadline checks. *)
Record MergeSource : Type := mkMergeSource {
  ms_name : bytes;
  ms_reader : Reader;
  ms_turns : nat
}.

Definition MAX_MERGE_SOURCES : Z := 64.
Definition MAX_SOURCE_NAME_BYTES : Z := 4096.
Definition MAX_REORDER_FRAMES : Z := 65536.
Definition DEFAULT_MAX_TOTAL_INTERFACES : Z := 65536.

Inductive MergeOrder : Type := Chronological | Append.

#[export] Instance MergeOrder_eq_dec : EqDecision MergeOrder.
Proof. solve_decision. Defined.

Record MergeLimits : Type := mkMergeLimits {
  ml_streams : StreamLimits;
  ml_max_sources : Z;
  ml_max_interfaces : Z;
  ml_order : MergeOrder;
  ml_max_reorder_frames : Z
}.

Definition MergeLimits_default : MergeLimits :=
  mkMergeLimits StreamLimits_default MAX_MERGE_SOURCES DEFAULT_MAX_TOTAL_INTERFACES Chronological 0.

Definition MergeLimits_validate (limits : MergeLimits) : outcome CaptureError unit :=
  _ ← StreamLimits_validate (ml_streams limits);
  if negb ((1 <=? ml_max_sources limits) && (ml_max_sources limits <=? MAX_MERGE_SOURCES))
  then Err (CMergeSources MAX_MERGE_SOURCES) else
  if MAX_REORDER_FRAMES <? ml_max_reorder_frames limits
  then Err (CMergeOption "the reorder window exceeds the supported maximum") else
  if bool_decide (ml_order limits = Append) && (0 <? ml_max_reorder_frames limits)
  then Err (CMergeOption "append order keeps timestamps verbatim and cannot reorder frames") else Ok tt.

Record MergedInterface : Type := mkMergedInterface {
  mi_source : Z;
  mi_source_name : bytes;
  mi_section : option Z;
  mi_local_interface : option Z;
  mi_global_interface : Z;
  mi_output_interface : Z
}.

Record MergeReport : Type := mkMergeReport {
  gr_frames : Z;
  gr_captured_bytes : Z;
  gr_source_frames : list Z;
  gr_interfaces : list MergedInterface;
  gr_source_metadata_records : Z
}.

Record Pending : Type := mkPending {
  pd_frame : Frame;
  pd_number : Z;
  pd_time : SystemTime;
  pd_description : Interface;
  pd_section : option Z;
  pd_local : option Z;
  pd_global : Z
}.

Record MergeState : Type := mkMergeState {
  st_previous : option SystemTime;
  st_window : list Pending;
  st_exhausted : bool;
  st_interfaces : Z;
  st_endianness : Endianness
}.

(** ** Heaps

    A [BinaryHeap] is the bag of its elements; taking one removes the first in the
    order of the heap.  No two elements of the heaps here have the same key, so
    which of two equals comes first does not arise. *)
Section heap.
Context {A : Type} (first : A -> A -> bool).

Fixpoint heap_take (heap : list A) : option (A * list A) :=
  match heap with
  | [] => None
  | x :: rest =>
      match heap_take rest with
      | None => Some (x, [])
      | Some (y, others) => if first y x then Some (y, x :: others) else Some (x, rest)
      end
  end.
End heap.

Definition pair_first (x y : Z * Z) : bool := (x.1 <? y.1) || ((x.1 =? y.1) && (x.2 <? y.2)).

(** [Windowed]: the earliest frame, the oldest position first. *)
Definition windowed_first (p q : Pending) : bool := pair_first (pd_time p, pd_number p) (pd_time q, pd_number q).

(** ** One source *)

(** What [advance] and [read_frame] borrow. *)
Record Feed : Type := mkFeed {
  fd_source : MergeSource;
  fd_state : MergeState;
  fd_interfaces : Z;
  fd_report : MergeReport;
  fd_budget : Budget
}.

Definition feed_reader (s : Feed) : Reader := ms_reader (fd_source s).

Definition set_fd_source (source : MergeSource) (s : Feed) : Feed :=
  mkFeed source (fd_state s) (fd_interfaces s) (fd_report s) (fd_budget s).
Definition set_fd_state (state : MergeState) (s : Feed) : Feed :=
  mkFeed (fd_source s) state (fd_interfaces s) (fd_report s) (fd_budget s).

Definition set_window (window : list Pending) (st : MergeState) : MergeState :=
  mkMergeState (st_previous st) window (st_exhausted st) (st_interfaces st) (st_endianness st).
Definition set_exhausted (st : MergeState) : MergeState :=
  mkMergeState (st_previous st) (st_window st) true (st_interfaces st) (st_endianness st).
Definition set_previous (time : SystemTime) (st : MergeState) : MergeState :=
  mkMergeState (Some time) (st_window st) (st_exhausted st) (st_interfaces st) (st_endianness st).
Definition set_endianness (endianness : Endianness) (st : MergeState) : MergeState :=
  mkMergeState (st_previous st) (st_window st) (st_exhausted st) (st_interfaces st) endianness.
Definition set_st_interfaces (count : Z) (st : MergeState) : MergeState :=
  mkMergeState (st_previous st) (st_window st) (st_exhausted st) count (st_endianness st).

Definition update_state (f : MergeState -> MergeState) : stm Feed unit := modify (fun s => set_fd_state (f (fd_state s)) s).

Section merging.
Context (alloc : capture_allocator) (checks : Z -> nat -> option CaptureError * option CaptureError).
Context (limits : MergeLimits).

(** The next record of the source; an error names the source and the frame. *)
Definition read_source (index next : Z) (turns : nat) : stm Feed (option CaptureRecord) := fun s =>
  let '(result, reader) := next_record alloc (checks index turns).1 (checks index turns).2 (feed_reader s) in
  (map_err (CMergeSource index next) result, set_fd_source (mkMergeSource (ms_name (fd_source s)) reader turns) s).

(** The interfaces of all sources, with those the record has added. *)
Definition count_interfaces : stm Feed unit :=
  s ← gets id;
  let count := zlen (rd_interfaces (feed_reader s)) in
  interfaces ← lift (ok_or (CTotalInterfaceLimit (ml_max_interfaces limits))
    (total ← checked_add usize_max (fd_interfaces s) (saturating_sub count (st_interfaces (fd_state s)));
     if total <=? ml_max_interfaces limits then Some total else None));
  modify (fun s => mkFeed (fd_source s) (set_st_interfaces count (fd_state s)) interfaces (fd_report s) (fd_budget s)).

Definition count_source_metadata : stm Feed unit :=
  s ← gets id;
  records ← lift (ok_or (CMetadataBlockLimit usize_max) (checked_add u64_max (gr_source_metadata_records (fd_report s)) 1));
  modify (fun s => let report := fd_report s in
    mkFeed (fd_source s) (fd_state s) (fd_interfaces s)
      (mkMergeReport (gr_frames report) (gr_captured_bytes report) (gr_source_frames report) (gr_interfaces report) records) (fd_budget s)).

Definition admit_metadata (index : Z) (metadata : MetadataBlockKind) : stm Feed unit :=
  _ ← count_source_metadata;
  match metadata with
  | MetaSection section => update_state (set_endianness (sec_endianness section))
  | MetaInterfaceDescription _ _ _ _ _ =>
      declares ← gets (fun s => rd_declares_fcs (feed_reader s));
      if declares : bool then throw (CMergeMetadata index DECLARED_FCS) else mret tt
  | _ => mret tt
  end.

Definition charge (index next : Z) (frame : Frame) : stm Feed unit := fun s =>
  match Budget_after (fd_budget s) (captured_length frame) with
  | Ok budget =>
      let report := fd_report s in
      (Ok tt, mkFeed (fd_source s) (fd_state s) (fd_interfaces s)
                (mkMergeReport (bg_frames budget) (bg_captured_bytes budget) (zput (gr_source_frames report) index next)
                   (gr_interfaces report) (gr_source_metadata_records report)) budget)
  | Err e => (Err e, s)
  | Panic => (Panic, s)
  end.

Definition take_packet (index next : Z) (section local : option Z) (options : list PcapNgOption) (frame : option Frame)
  : stm Feed Pending :=
  endianness ← gets (fun s => st_endianness (fd_state s));
  _ ← lift (map_err (CMergeMetadata index) (validate_rewritable_packet_flags options endianness "packet flags"));
  format ← gets (fun s => Reader_format (feed_reader s));
  frame ← lift (ok_or (CInvalidData format "packet record has no frame") frame);
  time ← lift (ok_or (CMergeSource index next (CTimestampUnavailable PcapNg)) (fr_timestamp frame));
  _ ← charge index next frame;
  let global := default 0 (fr_interface frame) in
  interfaces ← gets (fun s => rd_interfaces (feed_reader s));
  description ← lift (ok_or (CUndefinedInterface global (zlen interfaces)) (zget interfaces global));
  mret (mkPending frame next time description section local global).

(** The loop of [read_frame]: each turn reads one record. *)
Fixpoint read_frame_loop (turns : nat) (index next : Z) : stm Feed (option Pending) :=
  match turns with
  | O => lift Panic
  | S turns =>
      record ← read_source index next turns;
      match record with
      | None => mret None
      | Some record =>
          _ ← count_interfaces;
          match rec_kind record with
          | KindPacket _ section local options =>
              taken ← take_packet index next section local options (rec_frame record);
              mret (Some taken)
          | KindMetadata metadata =>
              _ ← admit_metadata index metadata;
              read_frame_loop turns index next
          end
      end
  end.

Definition read_frame (index : Z) : stm Feed (option Pending) := fun s =>
  (read ← lift (expect (zget (gr_source_frames (fd_report s)) index));
   next ← lift (ok_or (CFrameLimitExceeded u64_max (max_frames (ml_streams limits))) (checked_add u64_max read 1));
   read_frame_loop (ms_turns (fd_source s)) index next) s.

(** Each turn fills a place of the window or ends the source. *)
Fixpoint fill_window (fuel : nat) (window index : Z) : stm Feed unit := fun s =>
  if negb (st_exhausted (fd_state s)) && (zlen (st_window (fd_state s)) <? window) then
    match fuel with
    | O => (Panic, s)
    | S fuel =>
        (frame ← read_frame index;
         _ ← match frame with
             | Some frame => update_state (fun st => set_window (frame :: st_window st) st)
             | None => update_state set_exhausted
             end;
         fill_window fuel window index) s
    end
  else (Ok tt, s).

Definition advance (index : Z) : stm Feed (option Pending) :=
  let window := Z.max (ml_max_reorder_frames limits) 1 in
  _ ← fill_window (S (Z.to_nat window)) window index;
  st ← gets fd_state;
  match heap_take windowed_first (st_window st) with
  | None => mret None
  | Some (next, rest) =>
      _ ← update_state (set_window rest);
      if bool_decide (ml_order limits = Chronological) &&
         match st_previous st with Some previous => pd_time next <? previous | None => false end
      then throw (CMergeClockRegression index (pd_number next)) else
      _ ← update_state (set_previous (pd_time next));
      mret (Some next)
  end.

(** ** All sources *)

Record Merger : Type := mkMerger {
  mg_sources : list MergeSource;
  mg_states : list MergeState;
  mg_interface_count : Z;
  mg_report : MergeReport;
  mg_budget : Budget;
  mg_output : Writer
}.

(** A call with [&mut sources[index]] and [&mut states[index]]. *)
Definition on_feed {A} (index : Z) (m : stm Feed A) : stm Merger A := fun g =>
  match zget (mg_sources g) index, zget (mg_states g) index with
  | Some source, Some state =>
      let '(result, s) := m (mkFeed source state (mg_interface_count g) (mg_report g) (mg_budget g)) in
      (result, mkMerger (zput (mg_sources g) index (fd_source s)) (zput (mg_states g) index (fd_state s)) (fd_interfaces s)
                 (fd_report s) (fd_budget s) (mg_output g))
  | _, _ => (Panic, g)
  end.

Definition on_merged {A} (m : stm Writer A) : stm Merger A :=
  zoom mg_output (fun output g =>
    mkMerger (mg_sources g) (mg_states g) (mg_interface_count g) (mg_report g) (mg_budget g) output) m.

Definition header_endianness (header : CaptureHeader) : Endianness :=
  match header with HeaderPcap header => ph_endianness header | HeaderPcapNg section => sec_endianness section end.

Fixpoint initial_states (index : Z) (sources : list MergeSource) (count : Z) : outcome CaptureError (list MergeState * Z) :=
  match sources with
  | [] => Ok ([], count)
  | source :: rest =>
      let reader := ms_reader source in
      if rd_declares_fcs reader then Err (CMergeMetadata index DECLARED_FCS) else
      count ← ok_or (CTotalInterfaceLimit (ml_max_interfaces limits)) (checked_add usize_max count (zlen (rd_interfaces reader)));
      '(states, count) ← initial_states (index + 1) rest count;
      Ok (mkMergeState None [] false (zlen (rd_interfaces reader)) (header_endianness (rd_header reader)) :: states, count)
  end.

(** The head of every source from [index] on. *)
Fixpoint first_heads (count : nat) (index : Z) : stm Merger (list (option Pending)) :=
  match count with
  | O => mret []
  | S count =>
      head ← on_feed index (advance index);
      rest ← first_heads count (index + 1);
      mret (head :: rest)
  end.

Fixpoint chronological_heads (index : Z) (pending : list (option Pending)) : list (Z * Z) :=
  match pending with
  | [] => []
  | Some p :: rest => (pd_time p, index) :: chronological_heads (index + 1) rest
  | None :: rest => chronological_heads (index + 1) rest
  end.

(** [pending.iter().position(Option::is_some)]. *)
Fixpoint first_present (index : Z) (pending : list (option Pending)) : option Z :=
  match pending with
  | [] => None
  | Some _ :: _ => Some index
  | None :: rest => first_present (index + 1) rest
  end.

(** The source to write from with its frame, and what is left. *)
Definition take_next (pending : list (option Pending)) (chronological : option (list (Z * Z)))
  : outcome CaptureError (option (Z * Pending) * list (option Pending) * option (list (Z * Z))) :=
  let '(index, chronological) :=
    match chronological with
    | Some heads =>
        match heap_take pair_first heads with
        | Some (head, heads) => (Some head.2, Some heads)
        | None => (None, Some heads)
        end
    | None => (first_present 0 pending, None)
    end in
  match index with
  | None => Ok (None, pending, chronological)
  | Some index =>
      slot ← expect (zget pending index);
      Ok (match slot with Some p => Some (index, p) | None => None end, zput pending index None, chronological)
  end.

(** The text a merged interface carries: JSON made by [serde_json]. *)
Context (provenance : MergedInterface -> bytes).

Definition provenance_option (mapping : MergedInterface) : PcapNgOption := mkPcapNgOption PCAPNG_OPTION_COMMENT (provenance mapping).

(** The number of the interface in the output; the first frame of an interface
    describes it. *)
Definition output_interface (index : Z) (current : Pending) (mappings : gmap (Z * Z) Z) : stm Merger (Z * gmap (Z * Z) Z) :=
  let key := (index, pd_global current) in
  match mappings !! key with
  | Some id => mret (id, mappings)
  | None =>
      source ← (fun g => (expect (zget (mg_sources g) index), g));
      let mapping := mkMergedInterface index (ms_name source) (pd_section current) (pd_local current) (pd_global current) 0 in
      id ← on_merged (add_interface_description_with_options (pd_description current) [provenance_option mapping]);
      _ ← modify (fun g => let report := mg_report g in
        mkMerger (mg_sources g) (mg_states g) (mg_interface_count g)
          (mkMergeReport (gr_frames report) (gr_captured_bytes report) (gr_source_frames report)
             (gr_interfaces report ++ [mkMergedInterface index (ms_name source) (pd_section current) (pd_local current) (pd_global current) id])
             (gr_source_metadata_records report)) (mg_budget g) (mg_output g));
      mret (id, <[key := id]> mappings)
  end.

Definition push_head (chronological : option (list (Z * Z))) (index : Z) (next : option Pending) : option (list (Z * Z)) :=
  match chronological, next with
  | Some heads, Some next => Some ((pd_time next, index) :: heads)
  | _, _ => chronological
  end.

(** Each turn writes one frame. *)
Fixpoint merge_loop (fuel : nat) (pending : list (option Pending)) (chronological : option (list (Z * Z)))
  (mappings : gmap (Z * Z) Z) : stm Merger unit :=
  match fuel with
  | O => lift Panic
  | S fuel =>
      '(next, pending, chronological) ← lift (take_next pending chronological);
      match next with
      | None => mret tt
      | Some (index, current) =>
          '(id, mappings) ← output_interface index current mappings;
          _ ← on_merged (write_frame (with_identity (pd_frame current) (Some id) (fr_direction (pd_frame current))));
          head ← on_feed index (advance index);
          merge_loop fuel (zput pending index head) (push_head chronological index head) mappings
      end
  end.

(** [flushed] is what flushing the output gives. *)
Definition merge (fuel : nat) (sources : list MergeSource) (flushed : option IoError) : stm Writer (MergeReport * list MergeSource) := fun output =>
  let refuse e := (Err e, output) in
  match MergeLimits_validate limits, Budget_new (ml_streams limits) with
  | Err e, _ => refuse e
  | _, Err e => refuse e
  | Panic, _ => (Panic, output)
  | _, Panic => (Panic, output)
  | Ok _, Ok budget =>
      if is_empty sources || (ml_max_sources limits <? zlen sources)
         || existsb (fun source => MAX_SOURCE_NAME_BYTES <? zlen (ms_name source)) sources
      then refuse (CMergeSources (ml_max_sources limits)) else
      if negb (bool_decide (Writer_format output = PcapNg)) then refuse (CWrongWriterFormat PcapNg (Writer_format output)) else
      match initial_states 0 sources 0 with
      | Err e => refuse e
      | Panic => (Panic, output)
      | Ok (states, interface_count) =>
          if ml_max_interfaces limits <? interface_count then refuse (CTotalInterfaceLimit (ml_max_interfaces limits)) else
          let report := mkMergeReport 0 0 (repeat 0 (length sources)) [] 0 in
          let '(result, g) :=
            (pending ← first_heads (length sources) 0;
             let chronological := if bool_decide (ml_order limits = Chronological) then Some (chronological_heads 0 pending) else None in
             _ ← merge_loop fuel pending chronological ∅;
             _ ← on_merged (Writer_flush flushed);
             gets (fun g => (mg_report g, mg_sources g)))
            (mkMerger sources states interface_count report budget output) in
          (result, mg_output g)
      end
  end.
End merging.
