(* ===== verification/CaptureMergeSource.v ===== *)
(** * Capture files: one source of a merge

    What reading a source gives: the frames of its records, numbered, with the
    interfaces they belong to; when reading refuses them; and what it charges. *)

From stdpp Require Import base tactics option list numbers strings gmap sorting.
From Stdlib Require Import ZArith Lia.
From S2P Require Import Prelude Checksum Ordered Flow Headers HeadersProofs Frame Transform TransformProofs IpRanges.
From S2P Require Import CaptureWire CaptureRead CaptureWrite CaptureStreams CaptureTime CaptureEncode CaptureWriter CaptureReader CaptureBlocks CaptureSafety.
From S2P Require Import CaptureRoundTrip CaptureDecode CaptureRoundTripNg CaptureCopy CaptureRecords CaptureMap CaptureMerge.

(** ** Heaps *)

Section heap.
Context {A : Type} (first : A -> A -> bool).
Context (first_asym : forall x y, first x y = true -> first y x = false).
Context (first_neg_trans : forall x y z, first x y = false -> first y z = false -> first x z = false).

Lemma heap_take_None heap : heap_take first heap = None <-> heap = [].
Proof using.
  destruct heap as [|x heap]; cbn; [done|]. split; [|done]. destruct (heap_take first heap) as [[y others]|]; [|done]. by destruct (first y x).
Qed.

Lemma heap_take_Some heap x rest : heap_take first heap = Some (x, rest) ->
  heap ≡ₚ x :: rest /\ Forall (fun y => first y x = false) rest.
Proof using first_asym first_neg_trans.
  revert x rest. induction heap as [|y heap IH]; intros x rest H; cbn in H; [done|].
  destruct (heap_take first heap) as [[z others]|] eqn:E.
  - destruct (IH _ _ eq_refl) as [Hp Hf]. destruct (first z y) eqn:Ez; injection H as <- <-.
    + split; [rewrite Hp; apply Permutation_swap|]. constructor; [by apply first_asym|done].
    + split; [done|]. rewrite Hp. constructor; [done|]. eapply Forall_impl; [exact Hf|]. intros u Hu. exact (first_neg_trans _ _ _ Hu Ez).
  - injection H as <- <-. apply heap_take_None in E as ->. done.
Qed.
End heap.

Lemma pair_first_spec x y : pair_first x y = true <-> x.1 < y.1 \/ x.1 = y.1 /\ x.2 < y.2.
Proof. unfold pair_first. rewrite orb_true_iff, andb_true_iff, Z.ltb_lt, Z.eqb_eq, Z.ltb_lt. done. Qed.

Lemma pair_first_false x y : pair_first x y = false <-> y.1 < x.1 \/ y.1 = x.1 /\ y.2 <= x.2.
Proof.
  rewrite <- not_true_iff_false, pair_first_spec. destruct x as [a b], y as [c d]. cbn. lia.
Qed.

Lemma pair_first_asym x y : pair_first x y = true -> pair_first y x = false.
Proof. rewrite pair_first_spec, pair_first_false. lia. Qed.

Lemma pair_first_neg_trans x y z : pair_first x y = false -> pair_first y z = false -> pair_first x z = false.
Proof. rewrite !pair_first_false. lia. Qed.

(** ** The frames of a source *)

(** The frames of these records after [n] frames, each with its interface in this
    list; nothing when a frame has no time or no such interface. *)
Fixpoint pendings (interfaces : list Interface) (n : Z) (records : list CaptureRecord) : option (list Pending) :=
  match records with
  | [] => Some []
  | x :: rest =>
      match rec_kind x with
      | KindMetadata _ => pendings interfaces n rest
      | KindPacket _ section local _ =>
          f ← rec_frame x;
          time ← fr_timestamp f;
          let global := default 0 (fr_interface f) in
          description ← zget interfaces global;
          more ← pendings interfaces (n + 1) rest;
          Some (mkPending f (n + 1) time description section local global :: more)
      end
  end.

(** What the records of a source must satisfy: packets with flags a rewritten
    packet can carry, and no frame check sequences. *)
Definition record_admitted (e : Endianness) (x : CaptureRecord) : Prop :=
  match rec_kind x with
  | KindPacket _ _ _ options => validate_rewritable_packet_flags options e "" = Ok tt
  | KindMetadata (MetaInterfaceDescription _ _ _ _ options) => existsb PcapNgOption_declares_fcs options = false
  | KindMetadata _ => True
  end.

Fixpoint admitted (e : Endianness) (records : list CaptureRecord) : Prop :=
  match records with
  | [] => True
  | x :: rest => record_admitted e x /\ admitted (next_endianness e x) rest
  end.

Definition endianness_after (e : Endianness) (records : list CaptureRecord) : Endianness := foldl next_endianness e records.

Lemma admitted_app e a b : admitted e (a ++ b) <-> admitted e a /\ admitted (endianness_after e a) b.
Proof. revert e. induction a as [|x a IH]; intros e; cbn; [naive_solver|]. rewrite IH. unfold endianness_after. cbn. naive_solver. Qed.

Lemma pendings_app interfaces a b : forall n read, pendings interfaces n a = Some read ->
  pendings interfaces n (a ++ b) = (more ← pendings interfaces (n + zlen read) b; Some (read ++ more)).
Proof.
  induction a as [|x a IH]; intros n read H; cbn [app pendings] in *.
  - injection H as <-. change (zlen []) with 0. rewrite Z.add_0_r. cbn. by destruct (pendings interfaces n b).
  - destruct (rec_kind x) as [k s l o|m]; [|by apply IH]. destruct (rec_frame x) as [f|]; [|done]. cbn [mbind option_bind] in *.
    destruct (fr_timestamp f) as [t|]; [|done]. cbn [mbind option_bind] in *. destruct (zget interfaces _) as [d|]; [|done]. cbn [mbind option_bind] in *.
    destruct (pendings interfaces (n + 1) a) as [more|] eqn:E; [|done]. injection H as <-. rewrite (IH _ _ E).
    rewrite zlen_cons. replace (n + (1 + zlen more)) with (n + 1 + zlen more) by lia. by destruct (pendings interfaces (n + 1 + zlen more) b).
Qed.

Lemma pendings_prefix interfaces n a b all : pendings interfaces n (a ++ b) = Some all ->
  exists read rest, pendings interfaces n a = Some read /\ pendings interfaces (n + zlen read) b = Some rest /\ all = read ++ rest.
Proof.
  revert n all. induction a as [|x a IH]; intros n all H; cbn [app pendings] in *.
  - exists [], all. change (zlen []) with 0. rewrite Z.add_0_r. done.
  - destruct (rec_kind x) as [k s l o|m]; [|by apply IH]. destruct (rec_frame x) as [f|]; [|done]. cbn [mbind option_bind] in *.
    destruct (fr_timestamp f) as [t|]; [|done]. cbn [mbind option_bind] in *. destruct (zget interfaces _) as [d|]; [|done]. cbn [mbind option_bind] in *.
    destruct (pendings interfaces (n + 1) (a ++ b)) as [more|] eqn:E; [|done]. injection H as <-. destruct (IH _ _ E) as (read & rest & -> & Hr & ->).
    eexists (_ :: read), rest. split; [reflexivity|]. rewrite zlen_cons. replace (n + (1 + zlen read)) with (n + 1 + zlen read) by lia. done.
Qed.

(** More interfaces change nothing. *)
Lemma pendings_grow interfaces more records : forall n read, pendings interfaces n records = Some read ->
  pendings (interfaces ++ more) n records = Some read.
Proof.
  induction records as [|x records IH]; intros n read H; cbn [pendings] in *; [done|].
  destruct (rec_kind x) as [k s l o|m]; [|by apply IH]. destruct (rec_frame x) as [f|]; [|done]. cbn [mbind option_bind] in *.
  destruct (fr_timestamp f) as [t|]; [|done]. cbn [mbind option_bind] in *. destruct (zget interfaces _) as [d|] eqn:Ed; [|done]. cbn [mbind option_bind] in *.
  apply zget_Some_lt in Ed as Hlt. rewrite zget_app, (proj2 (Z.ltb_lt _ _)) by lia. rewrite Ed. cbn [mbind option_bind].
  destruct (pendings interfaces (n + 1) records) as [rest|] eqn:E; [|done]. by rewrite (IH _ _ E).
Qed.

(** Frames are numbered in their order. *)
Lemma pendings_numbers interfaces records : forall n read, pendings interfaces n records = Some read ->
  forall k p, zget read k = Some p -> pd_number p = n + k + 1.
Proof.
  induction records as [|x records IH]; intros n read H k p Hp; cbn [pendings] in H; [injection H as <-; by rewrite zget_nil in Hp|].
  destruct (rec_kind x) as [kk s l o|m]; [|by eapply IH]. destruct (rec_frame x) as [f|]; [|done]. cbn [mbind option_bind] in *.
  destruct (fr_timestamp f) as [t|]; [|done]. cbn [mbind option_bind] in *. destruct (zget interfaces _) as [d|] eqn:Ed; [|done]. cbn [mbind option_bind] in *.
  destruct (pendings interfaces (n + 1) records) as [rest|] eqn:E; [|done]. injection H as <-. apply zget_Some_lt in Hp as Hb.
  change (mkPending f (n + 1) t d s l (default 0 (fr_interface f)) :: rest) with ([mkPending f (n + 1) t d s l (default 0 (fr_interface f))] ++ rest) in Hp.
  rewrite zget_app in Hp. change (zlen [_]) with 1 in Hp. destruct (Z.ltb_spec k 1).
  - assert (k = 0) as -> by lia. injection Hp as <-. cbn. lia.
  - rewrite (IH _ _ E (k - 1) p Hp). lia.
Qed.

(** ** Reading a source *)

Definition captured_pending (read : list Pending) : Z := captured_total (pd_frame <$> read).

(** What the writer relies on: a frame as the reader makes them, and its interface. *)
Definition pending_wf (p : Pending) : Prop := (exists max_size, frame_read max_size (pd_frame p)) /\ interface_wf (pd_description p).

Definition feed_weight (s : Feed) : Z := zlen (source_bytes (rd_inner (feed_reader s))).

Section source.
Context (alloc : capture_allocator) (checks : Z -> nat -> option CaptureError * option CaptureError) (limits : MergeLimits).
Context (index : Z) (r0 : Reader) (t0 : nat) (e0 : Endianness).

(** The source after these records, with these frames. *)
Record source_at (records : list CaptureRecord) (read : list Pending) (source : MergeSource) (st : MergeState) : Prop := {
  sa_whole : reader_whole (ms_reader source);
  sa_fcs : rd_declares_fcs (ms_reader source) = false;
  sa_trace : if st_exhausted st then read_records alloc t0 (checks index) r0 = (records, Ok tt, ms_reader source)
    else rd_finished (ms_reader source) = false /\ zlen (source_bytes (rd_inner (ms_reader source))) < Z.of_nat (ms_turns source) /\
      forall more result r', read_records alloc (ms_turns source) (checks index) (ms_reader source) = (more, result, r') ->
        read_records alloc t0 (checks index) r0 = (records ++ more, result, r');
  sa_read : pendings (rd_interfaces (ms_reader source)) 0 records = Some read;
  sa_wf : Forall pending_wf read;
  sa_interfaces : st_interfaces st = zlen (rd_interfaces (ms_reader source));
  sa_endianness : st_endianness st = endianness_after e0 records;
  sa_admitted : admitted e0 records
}.

(** The source can be read to its end: its records are admitted and have these
    frames, and what other sources have left of the limits suffices. *)
Definition source_good (frames : list Pending) (others : Z) (budget : Budget) (read : list Pending) : Prop :=
  exists records r', read_records alloc t0 (checks index) r0 = (records, Ok tt, r') /\
    pendings (rd_interfaces r') 0 records = Some frames /\ admitted e0 records /\
    Forall (fun p => 0 <= captured_length (pd_frame p)) frames /\
    others + zlen (rd_interfaces r') <= ml_max_interfaces limits <= usize_max /\
    bg_frames budget + (zlen frames - zlen read) <= max_frames (bg_limits budget) <= u64_max /\
    bg_captured_bytes budget + (captured_pending frames - captured_pending read) <= max_bytes (bg_limits budget) <= u64_max.

Definition others (s : Feed) : Z := fd_interfaces s - st_interfaces (fd_state s).

(** What reading leaves as it is. *)
Definition fed (s s' : Feed) : Prop :=
  ms_name (fd_source s') = ms_name (fd_source s) /\ st_window (fd_state s') = st_window (fd_state s) /\
  st_previous (fd_state s') = st_previous (fd_state s) /\ st_exhausted (fd_state s') = st_exhausted (fd_state s) /\
  others s' = others s /\ gr_interfaces (fd_report s') = gr_interfaces (fd_report s) /\
  gr_source_metadata_records (fd_report s') + feed_weight s' <= gr_source_metadata_records (fd_report s) + feed_weight s /\
  feed_weight s' <= feed_weight s /\ gr_source_metadata_records (fd_report s) <= gr_source_metadata_records (fd_report s').

Lemma count_interfaces_spec s : st_interfaces (fd_state s) <= zlen (rd_interfaces (feed_reader s)) ->
  match count_interfaces limits s with
  | (Ok _, s') => s' = mkFeed (fd_source s) (set_st_interfaces (zlen (rd_interfaces (feed_reader s))) (fd_state s))
                         (others s + zlen (rd_interfaces (feed_reader s))) (fd_report s) (fd_budget s)
  | (Err _, _) => ~ (others s + zlen (rd_interfaces (feed_reader s)) <= ml_max_interfaces limits <= usize_max)
  | (Panic, _) => False
  end.
Proof using.
  intros Hs. unfold count_interfaces. rewrite gets_bind. unfold mbind at 1, stm_bind at 1, lift. unfold id, saturating_sub, others.
  rewrite Z.max_r by lia. destruct (checked_add usize_max (fd_interfaces s) _) as [total|] eqn:E.
  - apply checked_add_Some in E as [-> _]. cbn [mbind option_bind]. destruct (Z.leb_spec (fd_interfaces s + (zlen (rd_interfaces (feed_reader s)) - st_interfaces (fd_state s))) (ml_max_interfaces limits)); cbn.
    + f_equal. lia.
    + lia.
  - cbn. unfold checked_add in E. destruct (Z.leb_spec (fd_interfaces s + (zlen (rd_interfaces (feed_reader s)) - st_interfaces (fd_state s))) usize_max); [done|]. lia.
Qed.

Lemma next_endianness_snoc records x : endianness_after e0 (records ++ [x]) = next_endianness (endianness_after e0 records) x.
Proof using. unfold endianness_after. by rewrite foldl_app. Qed.

Lemma admitted_snoc records x : admitted e0 (records ++ [x]) <-> admitted e0 records /\ record_admitted (endianness_after e0 records) x.
Proof using. rewrite admitted_app. cbn [admitted]. split; [intros (H1 & H2 & _)|intros (H1 & H2)]; by split_and!. Qed.

Lemma record_effect_prefix interfaces x interfaces' : record_effect interfaces x interfaces' -> exists more, interfaces' = interfaces ++ more.
Proof using. unfold record_effect. destruct (rec_kind x) as [|[]]; intros (-> & _); (by exists []; rewrite app_nil_r) || by eexists. Qed.

(** The metadata of a record. *)
Lemma admit_metadata_spec s records x metadata : rec_kind x = KindMetadata metadata -> st_endianness (fd_state s) = endianness_after e0 records ->
  rd_declares_fcs (feed_reader s) = record_declares_fcs (Some x) -> gr_source_metadata_records (fd_report s) < u64_max ->
  match admit_metadata index metadata s with
  | (Ok _, s') => record_admitted (endianness_after e0 records) x /\
      s' = mkFeed (fd_source s) (set_endianness (endianness_after e0 (records ++ [x])) (fd_state s)) (fd_interfaces s)
             (mkMergeReport (gr_frames (fd_report s)) (gr_captured_bytes (fd_report s)) (gr_source_frames (fd_report s)) (gr_interfaces (fd_report s))
                (gr_source_metadata_records (fd_report s) + 1)) (fd_budget s)
  | (Err _, _) => ~ record_admitted (endianness_after e0 records) x
  | (Panic, _) => False
  end.
Proof using.
  intros Hk He Hd Hm. unfold admit_metadata, count_source_metadata. unfold mbind at 1, stm_bind at 1. rewrite gets_bind.
  unfold id. rewrite (lift_bind_eq _ _ _ (gr_source_metadata_records (fd_report s) + 1)) by (rewrite checked_add_ok by lia; done).
  unfold modify. rewrite next_endianness_snoc. unfold record_admitted, next_endianness. rewrite Hk.
  destruct s as [source st interfaces report budget]. destruct st as [previous window exhausted count e]. cbn [fd_state st_endianness] in He. subst e.
  destruct metadata as [section|a b c i options| | | |]; try done.
  rewrite gets_bind. unfold feed_reader in *. cbn [fd_source] in *. rewrite Hd. unfold record_declares_fcs. rewrite Hk. by destruct (existsb _ options).
Qed.

Definition charged (s : Feed) (next : Z) (budget : Budget) : Feed :=
  mkFeed (fd_source s) (fd_state s) (fd_interfaces s)
    (mkMergeReport (bg_frames budget) (bg_captured_bytes budget) (zput (gr_source_frames (fd_report s)) index next)
       (gr_interfaces (fd_report s)) (gr_source_metadata_records (fd_report s))) budget.

Lemma take_packet_spec s x next k section local options e : rec_kind x = KindPacket k section local options ->
  st_endianness (fd_state s) = e -> is_Some (rec_frame x) ->
  (forall f, rec_frame x = Some f -> 0 <= default 0 (fr_interface f) < zlen (rd_interfaces (feed_reader s))) ->
  match take_packet index next section local options (rec_frame x) s with
  | (Ok p, s') => record_admitted e x /\ exists f t d budget, rec_frame x = Some f /\ fr_timestamp f = Some t /\
      zget (rd_interfaces (feed_reader s)) (default 0 (fr_interface f)) = Some d /\
      p = mkPending f next t d section local (default 0 (fr_interface f)) /\
      Budget_after (fd_budget s) (captured_length f) = Ok budget /\ s' = charged s next budget
  | (Err _, _) => ~ (record_admitted e x /\ exists f t budget, rec_frame x = Some f /\ fr_timestamp f = Some t /\
      Budget_after (fd_budget s) (captured_length f) = Ok budget)
  | (Panic, _) => False
  end.
Proof using.
  intros Hk He (f & Ef) Hr. unfold take_packet, record_admitted. rewrite Hk, Ef, gets_bind, He. unfold mbind at 1, stm_bind at 1, lift at 1.
  pose proof (flags_safe options e "packet flags") as Hflags. destruct (validate_rewritable_packet_flags options e "packet flags") as [[]|err|] eqn:Efl; [| |done].
  2: { cbn. intros [Hc _]. apply (flags_reason _ _ _ "packet flags"%string) in Hc. by rewrite Hc in Efl. }
  cbn [map_err]. rewrite gets_bind. rewrite (lift_bind_eq _ _ _ f eq_refl). unfold mbind at 1, stm_bind at 1, lift at 1.
  destruct (fr_timestamp f) as [t|] eqn:Et; cbn [ok_or].
  2: { intros (_ & f' & t & b & [= <-] & Ht & _). by rewrite Et in Ht. }
  unfold mbind at 1, stm_bind at 1, charge. pose proof (Budget_after_safe (fd_budget s) (captured_length f)) as Hb.
  destruct (Budget_after (fd_budget s) (captured_length f)) as [budget|err|] eqn:Eb; [| |done].
  2: { intros (_ & f' & t' & b & [= <-] & _ & Hc). by rewrite Eb in Hc. }
  rewrite gets_bind. destruct (zget_lt_is_Some _ _ (Hr f Ef)) as (d & Ed). change (feed_reader (mkFeed (fd_source s) _ _ _ _)) with (feed_reader s).
  rewrite Ed. rewrite (lift_bind_eq _ _ _ d eq_refl). unfold mret, stm_ret. split; [by eapply flags_reason|]. by exists f, t, d, budget.
Qed.

Lemma read_records_grow fuel : forall r records r', reader_whole r -> read_records alloc fuel (checks index) r = (records, Ok tt, r') ->
  exists more, rd_interfaces r' = rd_interfaces r ++ more.
Proof using.
  induction fuel as [|fuel IH]; intros r records r' Hr E; cbn [read_records] in E; [done|].
  destruct (next_record alloc (checks index fuel).1 (checks index fuel).2 r) as [[[x|]|err|] r1] eqn:En; [| |done|done].
  - destruct (next_record_effect _ _ _ _ _ _ Hr En) as (Hr1 & Hx & _). destruct (read_records alloc fuel (checks index) r1) as [[records1 result1] r2] eqn:Er.
    injection E as <- -> <-. destruct (IH _ _ _ Hr1 Er) as (more & ->). apply record_effect_prefix in Hx as (m1 & ->). exists (m1 ++ more). by rewrite app_assoc.
  - injection E as <- <-. apply next_record_end in En as (_ & -> & _); [|done]. exists []. by rewrite app_nil_r.
Qed.

Lemma source_at_step records read source st t x r' more st' : source_at records read source st -> st_exhausted st = false ->
  ms_turns source = S t -> next_record alloc (checks index t).1 (checks index t).2 (ms_reader source) = (Ok (Some x), r') ->
  record_admitted (endianness_after e0 records) x -> pendings (rd_interfaces r') (zlen read) [x] = Some more -> Forall pending_wf more ->
  st_exhausted st' = false -> st_interfaces st' = zlen (rd_interfaces r') -> st_endianness st' = endianness_after e0 (records ++ [x]) ->
  source_at (records ++ [x]) (read ++ more) (mkMergeSource (ms_name source) r' t) st' /\
  zlen (source_bytes (rd_inner r')) + 1 <= zlen (source_bytes (rd_inner (ms_reader source))).
Proof using.
  intros [Hw Hd Htr Hrd Hwf _ He Ha] Hex Ht En Hax Hp Hpw Hex' Hi' He'. rewrite Hex in Htr. destruct Htr as (Hf & Hz & Htr).
  destruct (next_record_effect _ _ _ _ _ _ Hw En) as (Hw' & Hx & _ & _ & Hd' & _ & _ & Hf').
  pose proof (next_record_spec alloc (checks index t).1 (checks index t).2 _ (reader_whole_ok _ Hw) Hf) as Hs. rewrite En in Hs.
  destruct Hs as (_ & _ & _ & [Hb Hne] & _). destruct (nonempty_zlen _ Hne) as [_ Hpos]. apply (f_equal zlen) in Hb. rewrite zlen_app in Hb. split; [|lia].
  apply record_effect_prefix in Hx as (m1 & Ei). split; cbn [ms_reader ms_turns]; try done.
  - rewrite Hd', Hd. unfold record_declares_fcs, record_admitted in *. destruct (rec_kind x) as [|[]]; done.
  - rewrite Hex'. split; [done|]. split; [rewrite Ht in Hz; lia|]. intros rest result r'' Er. rewrite <- app_assoc. apply Htr. rewrite Ht. cbn [read_records]. by rewrite En, Er.
  - rewrite Ei in *. erewrite pendings_app by (by apply pendings_grow). by rewrite Z.add_0_l, Hp.
  - by apply Forall_app.
  - by apply admitted_snoc.
Qed.

(** A source that can be read to its end has this record next. *)
Lemma source_good_next frames o budget records read source st t x r' : source_at records read source st -> st_exhausted st = false ->
  ms_turns source = S t -> next_record alloc (checks index t).1 (checks index t).2 (ms_reader source) = (Ok (Some x), r') ->
  source_good frames o budget read -> record_admitted (endianness_after e0 records) x /\ o + zlen (rd_interfaces r') <= ml_max_interfaces limits <= usize_max /\
  match rec_kind x with
  | KindMetadata _ => True
  | KindPacket _ _ _ _ => exists f time budget', rec_frame x = Some f /\ fr_timestamp f = Some time /\ Budget_after budget (captured_length f) = Ok budget'
  end.
Proof using.
  intros [Hw Hd Htr Hrd _ _ He Ha] Hex Ht En (R & rf & ER & Hfr & HaR & Hnn & Hmi & Hmf & Hmb). rewrite Hex in Htr. destruct Htr as (Hf & Hz & Htr).
  destruct (next_record_effect _ _ _ _ _ _ Hw En) as (Hw' & Hx & _). rewrite Ht in Htr. cbn [read_records] in Htr. rewrite En in Htr.
  destruct (read_records alloc t (checks index) r') as [[more result] r2] eqn:Er. rewrite (Htr _ _ _ eq_refl) in ER. injection ER as <- -> ->.
  destruct (read_records_grow _ _ _ _ Hw' Er) as (m2 & Ef). apply record_effect_prefix in Hx as (m1 & Ei).
  apply admitted_app in HaR as [_ [Hax _]]. split; [done|]. split; [rewrite Ef, zlen_app in Hmi; pose proof (zlen_nonneg m2); lia|].
  apply pendings_prefix in Hfr as (read2 & rest & Hr2 & Hrest & ->). rewrite Ef, Ei in *.
  rewrite <- app_assoc in Hr2. rewrite (pendings_grow _ _ _ _ _ Hrd) in Hr2. injection Hr2 as <-. cbn [pendings] in Hrest.
  destruct (rec_kind x) as [k s l o'|m]; [|done]. apply bind_Some in Hrest as (f & Hfx & Hrest). apply bind_Some in Hrest as (time & Htime & Hrest).
  apply bind_Some in Hrest as (d & _ & Hrest). apply bind_Some in Hrest as (more' & _ & [= <-]). exists f, time. rewrite Hfx, Htime.
  apply Forall_app in Hnn as [_ Hnn]. apply Forall_cons_1 in Hnn as [Hf0 Hnn]. cbn [pd_frame] in Hf0.
  unfold captured_pending in Hmb. rewrite fmap_app, captured_total_app, fmap_cons in Hmb. cbn [captured_total foldr pd_frame] in Hmb.
  rewrite zlen_app, zlen_cons in Hmf. assert (0 <= captured_total (pd_frame <$> more')) as H0.
  { clear -Hnn. unfold captured_total. induction Hnn; cbn; lia. }
  fold (captured_total (pd_frame <$> more')) in Hmb. pose proof (zlen_nonneg more').
  eexists. split; [done|]. split; [done|]. apply Budget_after_total; [done|lia|lia].
Qed.

(** Exactly a frame more. *)
Definition frame_taken (s : Feed) (records : list CaptureRecord) (read : list Pending) (p : Pending) (s' : Feed) : Prop :=
  exists more, source_at (records ++ more) (read ++ [p]) (fd_source s') (fd_state s') /\ fed s s' /\ feed_weight s' + 1 <= feed_weight s /\
    Budget_after (fd_budget s) (captured_length (pd_frame p)) = Ok (fd_budget s') /\
    gr_frames (fd_report s') = bg_frames (fd_budget s') /\ gr_captured_bytes (fd_report s') = bg_captured_bytes (fd_budget s') /\
    gr_source_frames (fd_report s') = zput (gr_source_frames (fd_report s)) index (zlen read + 1) /\
    gr_source_metadata_records (fd_report s') = gr_source_metadata_records (fd_report s) + zlen more - 1.

(** Nothing more. *)
Definition source_ended (s : Feed) (records : list CaptureRecord) (read : list Pending) (s' : Feed) : Prop :=
  exists more, source_at (records ++ more) read (fd_source s') (set_exhausted (fd_state s')) /\ fed s s' /\ fd_budget s' = fd_budget s /\
    gr_frames (fd_report s') = gr_frames (fd_report s) /\ gr_captured_bytes (fd_report s') = gr_captured_bytes (fd_report s) /\
    gr_source_frames (fd_report s') = gr_source_frames (fd_report s) /\
    gr_source_metadata_records (fd_report s') = gr_source_metadata_records (fd_report s) + zlen more.

Lemma fed_trans s s1 s2 : fed s s1 -> fed s1 s2 -> fed s s2.
Proof using.
  intros (A1 & A2 & A3 & A4 & A5 & A6 & A7 & A8 & A9) (B1 & B2 & B3 & B4 & B5 & B6 & B7 & B8 & B9). unfold fed.
  rewrite B1, B2, B3, B4, B5, B6. split_and!; try done; lia.
Qed.

Lemma read_end s records read t r' : source_at records read (fd_source s) (fd_state s) -> st_exhausted (fd_state s) = false ->
  ms_turns (fd_source s) = S t -> next_record alloc (checks index t).1 (checks index t).2 (feed_reader s) = (Ok None, r') ->
  source_ended s records read (set_fd_source (mkMergeSource (ms_name (fd_source s)) r' t) s).
Proof using.
  intros [Hw Hd Htr Hrd Hwf Hi He Ha] Hex Ht En. rewrite Hex in Htr. destruct Htr as (Hf & Hz & Htr).
  destruct (next_record_end _ _ _ _ _ Hw En) as (Hw' & Ei & _ & _ & Hd').
  pose proof (next_record_spec alloc (checks index t).1 (checks index t).2 _ (reader_whole_ok _ Hw) Hf) as Hs. unfold feed_reader in *. rewrite En in Hs.
  destruct Hs as (_ & _ & _ & Hb & _). cbn in Hb. exists []. rewrite app_nil_r.
  split; [|split; [|by rewrite zlen_nil, Z.add_0_r]].
  - split; cbn [ms_reader fd_source fd_state set_fd_source set_exhausted st_exhausted st_interfaces st_endianness]; try done; rewrite ?Ei, ?Hd'; try done.
    specialize (Htr [] (Ok tt) r'). rewrite app_nil_r in Htr. apply Htr. rewrite Ht. cbn [read_records]. by rewrite En.
  - unfold fed, feed_weight, feed_reader, others. cbn. rewrite Hb. split_and!; try done; lia.
Qed.

Lemma read_frame_loop_spec turns : forall s records read, ms_turns (fd_source s) = turns -> st_exhausted (fd_state s) = false ->
  source_at records read (fd_source s) (fd_state s) -> gr_source_metadata_records (fd_report s) + feed_weight s <= u64_max ->
  match read_frame_loop alloc checks limits turns index (zlen read + 1) s with
  | (Ok (Some p), s') => frame_taken s records read p s'
  | (Ok None, s') => source_ended s records read s'
  | (Err _, _) => forall frames, ~ source_good frames (others s) (fd_budget s) read
  | (Panic, _) => False
  end.
Proof using.
  induction turns as [|turns IH]; intros s records read Ht Hex Hat Hm; cbn [read_frame_loop].
  { destruct Hat as [_ _ Htr _ _ _ _ _]. rewrite Hex, Ht in Htr. destruct Htr as (_ & Hz & _). pose proof (zlen_nonneg (source_bytes (rd_inner (ms_reader (fd_source s))))). lia. }
  unfold mbind at 1, stm_bind at 1, read_source. pose proof (sa_whole _ _ _ _ Hat) as Hw.
  destruct (next_record alloc (checks index turns).1 (checks index turns).2 (feed_reader s)) as [[[x|]|err|] r'] eqn:En; cbn [map_err].
  - set (s1 := set_fd_source (mkMergeSource (ms_name (fd_source s)) r' turns) s).
    destruct (next_record_effect _ _ _ _ _ _ Hw En) as (Hw' & Hx & Hpl & _ & Hd' & _). rewrite (sa_fcs _ _ _ _ Hat), orb_false_l in Hd'.
    apply record_effect_kind in Hx as Hkind. apply record_effect_prefix in Hx as Hgrow. destruct Hgrow as (m1 & Ei).
    pose proof (sa_interfaces _ _ _ _ Hat) as Hsi. pose proof (zlen_nonneg m1).
    pose proof (count_interfaces_spec s1) as Hc. change (feed_reader s1) with r' in Hc. change (others s1) with (others s) in Hc.
    change (fd_state s1) with (fd_state s) in Hc. specialize (Hc ltac:(rewrite Hsi, Ei, zlen_app; lia)).
    unfold mbind at 1, stm_bind at 1. destruct (count_interfaces limits s1) as [[a|err|] s2]; [| |done].
    2: { intros frames Hg. destruct (source_good_next _ _ _ _ _ _ _ _ _ _ Hat Hex Ht En Hg) as (_ & Hi & _). done. }
    set (s2' := mkFeed _ _ _ _ _) in Hc. subst s2. rename s2' into s2.
    pose proof (sa_endianness _ _ _ _ Hat) as He.
    assert (forall st more, record_admitted (endianness_after e0 records) x -> pendings (rd_interfaces r') (zlen read) [x] = Some more -> Forall pending_wf more ->
      st_exhausted st = false -> st_interfaces st = zlen (rd_interfaces r') -> st_endianness st = endianness_after e0 (records ++ [x]) ->
      source_at (records ++ [x]) (read ++ more) (mkMergeSource (ms_name (fd_source s)) r' turns) st /\ zlen (source_bytes (rd_inner r')) + 1 <= feed_weight s) as Hstep.
    { intros st more ?????? . by eapply source_at_step. }
    destruct (rec_kind x) as [k section local options|metadata] eqn:Hk.
    + pose proof (take_packet_spec s2 x (zlen read + 1) k section local options (endianness_after e0 records) Hk) as Hp.
      assert (forall f, rec_frame x = Some f -> 0 <= default 0 (fr_interface f) < zlen (rd_interfaces r')) as Hin.
      { intros f Ef. destruct (Hpl f Ef) as [_ Hin]. change (ms_reader (fd_source s)) with (feed_reader s) in *. rewrite Ei, zlen_app. unfold feed_reader in *. lia. }
      unfold kind_matches in Hkind. rewrite Hk in Hkind. specialize (Hp He Hkind Hin). unfold mbind at 1, stm_bind at 1.
      destruct (take_packet index (zlen read + 1) section local options (rec_frame x) s2) as [[p|err|] s3]; [| |done].
      * destruct Hp as (Hax & f & t & d & budget & Ef & Et & Ed & -> & Eb & ->). change (feed_reader s2) with r' in Ed.
        destruct (Hstep (fd_state s2) [mkPending f (zlen read + 1) t d section local (default 0 (fr_interface f))]) as [Hat' Hwt]; try done.
        { cbn [pendings]. rewrite Hk, Ef. cbn [mbind option_bind]. rewrite Et. cbn [mbind option_bind]. by rewrite Ed. }
        { apply Forall_singleton. destruct (Hpl f Ef) as [Hfr _]. split; [by eexists|]. destruct Hw' as (_ & Hi & _). by eapply Forall_zget. }
        { rewrite next_endianness_snoc. unfold next_endianness. by rewrite Hk. }
        exists [x]. split; [exact Hat'|]. split; [|split; [exact Hwt|split_and!; try done; change (zlen [x]) with 1; cbn; lia]].
        unfold fed, feed_weight, others, feed_reader in *. cbn. split_and!; try done; lia.
      * intros frames Hg. destruct (source_good_next _ _ _ _ _ _ _ _ _ _ Hat Hex Ht En Hg) as (Hax & _ & Hpk). rewrite Hk in Hpk.
        destruct Hpk as (f & time & budget' & ? & ? & ?). apply Hp. split; [done|]. by exists f, time, budget'.
    + assert (zlen (source_bytes (rd_inner r')) + 1 <= feed_weight s) as Hwt.
      { pose proof (next_record_spec alloc (checks index turns).1 (checks index turns).2 (feed_reader s) (reader_whole_ok _ Hw)) as Hs. rewrite En in Hs.
        destruct Hat as [_ _ Htr _ _ _ _ _]. rewrite Hex in Htr. destruct Htr as (Hf & _). specialize (Hs Hf). destruct Hs as (_ & _ & _ & [Hb Hne] & _).
        destruct (nonempty_zlen _ Hne) as [_ Hpos]. apply (f_equal zlen) in Hb. rewrite zlen_app in Hb. unfold feed_weight. lia. }
      pose proof (zlen_nonneg (source_bytes (rd_inner r'))).
      pose proof (admit_metadata_spec s2 records x metadata Hk He Hd' ltac:(unfold s2; cbn; lia)) as Hmeta. unfold mbind at 1, stm_bind at 1.
      destruct (admit_metadata index metadata s2) as [[b|err|] s3]; [| |done].
      * destruct Hmeta as (Hax & ->). set (s3 := mkFeed _ _ _ _ _).
        destruct (Hstep (fd_state s3) [] Hax ltac:(cbn [pendings]; by rewrite Hk) (Forall_nil_2 _) Hex eq_refl eq_refl) as [Hat' _].
        rewrite app_nil_r in Hat'.
        assert (fed s s3) as Hfed by (unfold fed, feed_weight, others, feed_reader in *; cbn; split_and!; try done; lia).
        assert (gr_source_metadata_records (fd_report s3) + feed_weight s3 <= u64_max) as Hm3 by (destruct Hfed as (_ & _ & _ & _ & _ & _ & ? & _); lia).
        specialize (IH s3 (records ++ [x]) read eq_refl Hex Hat' Hm3).
        destruct (read_frame_loop alloc checks limits turns index (zlen read + 1) s3) as [[[p|]|err|] s4]; [| | |done].
        -- destruct IH as (more & H1 & H2 & H3 & H4 & H5 & H6 & H7 & H8). exists ([x] ++ more). rewrite app_assoc, zlen_app. change (zlen [x]) with 1. split; [done|].
           split; [by eapply fed_trans|]. split; [change (feed_weight s3) with (zlen (source_bytes (rd_inner r'))) in H3; lia|]. cbn in H8. split_and!; try done; lia.
        -- destruct IH as (more & H1 & H2 & H3 & H4 & H5 & H6 & H7). exists ([x] ++ more). rewrite app_assoc, zlen_app. change (zlen [x]) with 1. split; [done|].
           split; [by eapply fed_trans|]. cbn in H7. split_and!; try done; lia.
        -- assert (others s3 = others s) as <- by (by destruct Hfed as (_ & _ & _ & _ & ? & _)). done.
      * intros frames Hg. destruct (source_good_next _ _ _ _ _ _ _ _ _ _ Hat Hex Ht En Hg) as (Hax & _). done.
  - by eapply read_end.
  - intros frames (R & rf & ER & _). destruct Hat as [_ _ Htr _ _ _ _ _]. rewrite Hex, Ht in Htr. destruct Htr as (_ & _ & Htr).
    specialize (Htr [] (Err err) r'). cbn [read_records] in Htr. unfold feed_reader in En. rewrite En in Htr. specialize (Htr eq_refl). rewrite ER in Htr. done.
  - pose proof (next_record_spec alloc (checks index turns).1 (checks index turns).2 (feed_reader s) (reader_whole_ok _ Hw)) as Hs. rewrite En in Hs.
    destruct Hat as [_ _ Htr _ _ _ _ _]. rewrite Hex in Htr. destruct Htr as (Hf & _). by apply Hs.
Qed.

(** What has been read is the beginning of what there is. *)
Lemma source_good_read frames o budget records read source st : source_at records read source st -> source_good frames o budget read ->
  exists rest, frames = read ++ rest /\ (st_exhausted st = true -> rest = []).
Proof using.
  intros [Hw Hd Htr Hrd _ _ He Ha] (R & rf & ER & Hfr & _). destruct (st_exhausted st).
  - rewrite Htr in ER. injection ER as <- <-. rewrite Hrd in Hfr. injection Hfr as <-. exists []. by rewrite app_nil_r.
  - destruct Htr as (Hf & Hz & Htr). destruct (read_records alloc (ms_turns source) (checks index) (ms_reader source)) as [[more result] r2] eqn:Er.
    rewrite (Htr _ _ _ eq_refl) in ER. injection ER as <- -> ->. destruct (read_records_grow _ _ _ _ Hw Er) as (m2 & Ef). rewrite Ef in Hfr.
    apply pendings_prefix in Hfr as (read2 & rest & Hr2 & Hrest & ->). rewrite (pendings_grow _ _ _ _ _ Hrd) in Hr2. injection Hr2 as <-. by exists rest.
Qed.

Lemma source_good_taken frames s records read p s' : source_good frames (others s) (fd_budget s) read -> frame_taken s records read p s' ->
  source_good frames (others s') (fd_budget s') (read ++ [p]).
Proof using.
  intros (R & rf & ER & Hfr & HaR & Hnn & Hmi & Hmf & Hmb) (more & _ & Hfed & _ & Hb & _). apply Budget_after_Ok in Hb as (El & Ef & Ec & _).
  assert (others s' = others s) as Eo by (by destruct Hfed as (_ & _ & _ & _ & ? & _)).
  exists R, rf. split_and!; try done; rewrite ?Eo, ?El, ?Ef, ?Ec; try lia; unfold captured_pending in *;
    rewrite ?zlen_app, ?fmap_app, ?captured_total_app; change (zlen [p]) with 1; cbn; lia.
Qed.

Lemma read_frame_spec s records read : st_exhausted (fd_state s) = false -> source_at records read (fd_source s) (fd_state s) ->
  zget (gr_source_frames (fd_report s)) index = Some (zlen read) -> zlen read + feed_weight s < u64_max ->
  gr_source_metadata_records (fd_report s) + feed_weight s <= u64_max ->
  match read_frame alloc checks limits index s with
  | (Ok (Some p), s') => frame_taken s records read p s'
  | (Ok None, s') => source_ended s records read s'
  | (Err _, _) => forall frames, ~ source_good frames (others s) (fd_budget s) read
  | (Panic, _) => False
  end.
Proof using.
  intros Hex Hat Hn Hw Hm. unfold read_frame. rewrite Hn. cbn [expect]. rewrite (lift_bind_eq _ _ _ (zlen read) eq_refl).
  assert (0 <= feed_weight s) by (unfold feed_weight; apply zlen_nonneg).
  rewrite (lift_bind_eq _ _ _ (zlen read + 1)) by (rewrite checked_add_ok by lia; done). by apply read_frame_loop_spec.
Qed.
End source.
