(* ===== verification/CaptureMergeLanes.v ===== *)
(** * Capture files: the look-ahead window of a merged source

    What [fill_window] and [advance] do to a source: frames leave it in order, and
    the window repairs exactly the inputs in which no frame is overtaken by as many
    frames as the window holds. *)

From stdpp Require Import base tactics option list numbers strings gmap sorting.
From Stdlib Require Import ZArith Lia.
From S2P Require Import Prelude Checksum Ordered Flow Headers HeadersProofs Frame Transform TransformProofs IpRanges.
From S2P Require Import CaptureWire CaptureRead CaptureWrite CaptureStreams CaptureTime CaptureEncode CaptureWriter CaptureReader CaptureBlocks CaptureSafety.
From S2P Require Import CaptureRoundTrip CaptureDecode CaptureRoundTripNg CaptureCopy CaptureRecords CaptureMap CaptureMerge CaptureMergeSource.

(** ** The order of frames *)

Definition merge_window (limits : MergeLimits) : Z := Z.max (ml_max_reorder_frames limits) 1.

(** Of two frames of a source, which comes first. *)
Definition before (order : MergeOrder) (p q : Pending) : Prop :=
  match order with
  | Chronological => pd_time p < pd_time q \/ pd_time p = pd_time q /\ pd_number p < pd_number q
  | Append => pd_number p < pd_number q
  end.

Lemma before_trans order p q r : before order p q -> before order q r -> before order p r.
Proof. destruct order; cbn; lia. Qed.

Lemma windowed_first_false p q : windowed_first p q = false -> pd_time q < pd_time p \/ pd_time q = pd_time p /\ pd_number q <= pd_number p.
Proof. unfold windowed_first. rewrite pair_first_false. done. Qed.

Lemma window_pop window m rest : heap_take windowed_first window = Some (m, rest) ->
  window ≡ₚ m :: rest /\ Forall (fun q => pd_time m < pd_time q \/ pd_time m = pd_time q /\ pd_number m <= pd_number q) rest.
Proof.
  intros H. apply heap_take_Some in H as [Hp Hf].
  - split; [done|]. eapply Forall_impl; [exact Hf|]. intros q. apply windowed_first_false.
  - intros p q. apply pair_first_asym.
  - intros p q r. apply pair_first_neg_trans.
Qed.

(** No frame is overtaken by as many frames as the window holds. *)
Definition orderly (order : MergeOrder) (window : Z) (frames : list Pending) : Prop :=
  match order with
  | Append => True
  | Chronological => forall k x, frames !! k = Some x ->
      Z.of_nat (length (filter (fun y => pd_time x < pd_time y) (take k frames))) < window
  end.

(** Frames of a source are numbered from one. *)
Definition numbered (frames : list Pending) : Prop := forall k p, zget frames k = Some p -> pd_number p = k + 1.

Lemma numbered_elem frames p : numbered frames -> p ∈ frames -> 1 <= pd_number p <= zlen frames.
Proof.
  intros Hn (k & Hk)%list_elem_of_lookup. assert (zget frames (Z.of_nat k) = Some p) as Hz.
  { unfold zget. rewrite (proj2 (Z.leb_le _ _)) by lia. by rewrite Nat2Z.id. }
  rewrite (Hn _ _ Hz). apply zget_Some_lt in Hz. lia.
Qed.

Lemma numbered_NoDup frames : numbered frames -> NoDup (pd_number <$> frames).
Proof.
  intros Hn. apply NoDup_alt. intros i j n Hi Hj. rewrite list_lookup_fmap in Hi, Hj.
  apply fmap_Some in Hi as (p & Hp & ->). apply fmap_Some in Hj as (q & Hq & E).
  assert (forall k x, frames !! k = Some x -> pd_number x = Z.of_nat k + 1) as Hk.
  { intros k x Hx. apply Hn. unfold zget. rewrite (proj2 (Z.leb_le _ _)) by lia. by rewrite Nat2Z.id. }
  rewrite (Hk _ _ Hp), (Hk _ _ Hq) in E. lia.
Qed.

Lemma numbered_later read rest p x : numbered (read ++ rest) -> p ∈ read -> x ∈ rest -> pd_number p < pd_number x.
Proof.
  intros Hn Hp Hx. apply list_elem_of_lookup in Hp as (i & Hi), Hx as (j & Hj).
  assert (forall k y, (read ++ rest) !! k = Some y -> pd_number y = Z.of_nat k + 1) as Hk.
  { intros k y Hy. apply Hn. unfold zget. rewrite (proj2 (Z.leb_le _ _)) by lia. by rewrite Nat2Z.id. }
  rewrite (Hk i p), (Hk (length read + j)%nat x).
  - apply lookup_lt_Some in Hi. lia.
  - rewrite lookup_app_r by lia. by replace (length read + j - length read)%nat with j by lia.
  - rewrite lookup_app_l; [done|]. by eapply lookup_lt_Some.
Qed.

Lemma NoDup_numbers_ne (popped rest : list Pending) m q : NoDup (pd_number <$> popped ++ m :: rest) -> q ∈ popped ++ rest -> pd_number q <> pd_number m.
Proof.
  intros Hn Hq E. assert (popped ++ m :: rest ≡ₚ m :: popped ++ rest) as Hp by (symmetry; apply Permutation_middle).
  rewrite Hp, fmap_cons in Hn. apply NoDup_cons in Hn as [Hn _]. apply Hn. rewrite <- E. by apply list_elem_of_fmap_2.
Qed.

(** When the window is full, the frame it gives up comes before all unread ones. *)
Lemma orderly_first order frames read rest popped window m others : orderly order (zlen window) frames ->
  frames = read ++ rest -> numbered frames -> read ≡ₚ popped ++ window -> window ≡ₚ m :: others ->
  Forall (fun q => pd_time m < pd_time q \/ pd_time m = pd_time q /\ pd_number m <= pd_number q) others -> Forall (before order m) rest.
Proof.
  intros Ho -> Hn Hp Hw Hm. apply Forall_forall. intros x Hx.
  assert (m ∈ read) as Hmr by (rewrite Hp, Hw; set_solver).
  pose proof (numbered_later _ _ _ _ Hn Hmr Hx) as Hnum. destruct order; cbn [before]; [|done].
  destruct (decide (pd_time x < pd_time m)) as [Hlt|Hge]; [|lia]. exfalso.
  apply list_elem_of_lookup in Hx as (j & Hj). cbn [orderly] in Ho. specialize (Ho (length read + j)%nat x).
  rewrite lookup_app_r in Ho by lia. replace (length read + j - length read)%nat with j in Ho by lia. specialize (Ho Hj).
  rewrite take_app_ge, filter_app, length_app in Ho by lia.
  assert (length window <= length (filter (fun y => (pd_time x < pd_time y)%Z) read))%nat as Hlen.
  { rewrite Hp, filter_app, length_app. enough (filter (fun y => pd_time x < pd_time y) window = window) as -> by lia.
    apply filter_all. rewrite Hw. constructor; [done|]. eapply Forall_impl; [exact Hm|]. intros q. cbn. lia. }
  unfold zlen in Ho. lia.
Qed.

Lemma orderly_mono order w w' frames : w <= w' -> orderly order w frames -> orderly order w' frames.
Proof. intros Hw. destruct order; [|done]. intros H k x Hx. specialize (H k x Hx). lia. Qed.

Lemma captured_pending_app a b : captured_pending (a ++ b) = captured_pending a + captured_pending b.
Proof. unfold captured_pending. by rewrite fmap_app, captured_total_app. Qed.

(** ** Filling the window *)

Section lane.
Context (alloc : capture_allocator) (checks : Z -> nat -> option CaptureError * option CaptureError) (limits : MergeLimits).
Context (index : Z) (r0 : Reader) (t0 : nat) (e0 : Endianness).
Local Notation at_source := (source_at alloc checks index r0 t0 e0).
Local Notation good := (source_good alloc checks limits index r0 t0 e0).

(** What reading these frames more leaves and what it charges. *)
Definition accounts (s : Feed) (read got : list Pending) (s' : Feed) : Prop :=
  ms_name (fd_source s') = ms_name (fd_source s) /\ others s' = others s /\ gr_interfaces (fd_report s') = gr_interfaces (fd_report s) /\
  gr_source_metadata_records (fd_report s') + feed_weight s' <= gr_source_metadata_records (fd_report s) + feed_weight s /\
  feed_weight s' + zlen got <= feed_weight s /\
  bg_limits (fd_budget s') = bg_limits (fd_budget s) /\ bg_frames (fd_budget s') = bg_frames (fd_budget s) + zlen got /\
  bg_captured_bytes (fd_budget s') = bg_captured_bytes (fd_budget s) + captured_pending got /\
  gr_source_frames (fd_report s') = zput (gr_source_frames (fd_report s)) index (zlen (read ++ got)) /\
  gr_frames (fd_report s') - bg_frames (fd_budget s') = gr_frames (fd_report s) - bg_frames (fd_budget s) /\
  gr_captured_bytes (fd_report s') - bg_captured_bytes (fd_budget s') = gr_captured_bytes (fd_report s) - bg_captured_bytes (fd_budget s).

(** The report counts what the budget has been charged. *)
Definition books (s : Feed) (read : list Pending) : Prop :=
  gr_frames (fd_report s) = bg_frames (fd_budget s) /\ gr_captured_bytes (fd_report s) = bg_captured_bytes (fd_budget s) /\
  zget (gr_source_frames (fd_report s)) index = Some (zlen read) /\ zlen read + feed_weight s < u64_max /\
  gr_source_metadata_records (fd_report s) + feed_weight s <= u64_max.

Lemma accounts_trans s1 s2 s3 read got more : accounts s1 read got s2 -> accounts s2 (read ++ got) more s3 -> accounts s1 read (got ++ more) s3.
Proof using.
  intros (A1 & A2 & A3 & A4 & A5 & A6 & A7 & A8 & A9 & A10 & A11) (B1 & B2 & B3 & B4 & B5 & B6 & B7 & B8 & B9 & B10 & B11). unfold accounts.
  rewrite zlen_app, captured_pending_app, B9, A9, zput_zput, app_assoc, B1, B2, B3, B6. split_and!; try done; lia.
Qed.

Lemma accounts_books s s' read got : books s read -> accounts s read got s' -> books s' (read ++ got).
Proof using.
  intros (B1 & B2 & B3 & B4 & B5) (A1 & A2 & A3 & A4 & A5 & A6 & A7 & A8 & A9 & A10 & A11). apply zget_Some_lt in B3 as Hi. unfold books.
  rewrite A9, zget_zput_eq by done. rewrite zlen_app. split_and!; try done; lia.
Qed.

Lemma accounts_good frames s s' read got : good frames (others s) (fd_budget s) read -> accounts s read got s' ->
  good frames (others s') (fd_budget s') (read ++ got).
Proof using.
  intros (R & rf & ER & Hfr & HaR & Hnn & Hmi & Hmf & Hmb) (A1 & A2 & A3 & A4 & A5 & A6 & A7 & A8 & A9 & A10 & A11).
  exists R, rf. rewrite A2, A6, A7, A8, zlen_app, captured_pending_app. split_and!; try done; lia.
Qed.

Lemma accounts_taken s records read p s' : books s read -> frame_taken alloc checks index r0 t0 e0 s records read p s' -> accounts s read [p] s'.
Proof using.
  intros (B1 & B2 & _) (more & _ & (F1 & _ & _ & _ & F5 & F6 & F7 & F8 & F9) & Hw & Hb & G1 & G2 & G3 & _). apply Budget_after_Ok in Hb as (C1 & C2 & C3 & _).
  unfold accounts, captured_pending, captured_total. rewrite zlen_app. change (zlen [p]) with 1. cbn. rewrite G1, G2, Z.add_0_r. split_and!; try done; lia.
Qed.

Lemma accounts_ended s records read s' : books s read -> source_ended alloc checks index r0 t0 e0 s records read s' -> accounts s read [] s'.
Proof using.
  intros (B1 & B2 & B3 & _) (more & _ & (F1 & _ & _ & _ & F5 & F6 & F7 & F8 & F9) & Hb & G1 & G2 & G3 & _).
  unfold accounts, captured_pending, captured_total. rewrite app_nil_r, G3, zput_id, Hb, G1, G2 by done. change (zlen []) with 0. cbn. rewrite !Z.add_0_r. split_and!; try done; lia.
Qed.

Lemma source_at_window records read source st window : at_source records read source st -> at_source records read source (set_window window st).
Proof using. intros []. by split. Qed.

Lemma source_at_previous records read source st time : at_source records read source st -> at_source records read source (set_previous time st).
Proof using. intros []. by split. Qed.

(** The window after it has been filled. *)
Definition filled (s : Feed) (records : list CaptureRecord) (read : list Pending) (s' : Feed) : Prop :=
  exists more got, at_source (records ++ more) (read ++ got) (fd_source s') (fd_state s') /\
    st_window (fd_state s') ≡ₚ got ++ st_window (fd_state s) /\ st_previous (fd_state s') = st_previous (fd_state s) /\
    (st_exhausted (fd_state s') = true \/ merge_window limits <= zlen (st_window (fd_state s'))) /\
    zlen (st_window (fd_state s')) <= merge_window limits /\ accounts s read got s' /\
    gr_source_metadata_records (fd_report s') = gr_source_metadata_records (fd_report s) + zlen more - zlen got.

Lemma fill_window_spec fuel : forall s records read, at_source records read (fd_source s) (fd_state s) -> books s read ->
  zlen (st_window (fd_state s)) <= merge_window limits -> merge_window limits - zlen (st_window (fd_state s)) <= Z.of_nat fuel ->
  match fill_window alloc checks limits fuel (merge_window limits) index s with
  | (Ok _, s') => filled s records read s'
  | (Err _, _) => forall frames, ~ good frames (others s) (fd_budget s) read
  | (Panic, _) => False
  end.
Proof using.
  induction fuel as [|fuel IH]; intros s records read Hat Hb Hw Hfuel; cbn [fill_window].
  all: destruct (st_exhausted (fd_state s)) eqn:Hex; cbn [negb andb].
  all: try (exists [], []; rewrite !app_nil_r; split_and!; try done; [by left| |by rewrite zlen_nil, Z.add_0_r, Z.sub_0_r]; unfold accounts, captured_pending, captured_total;
    destruct Hb as (_ & _ & B3 & _); rewrite app_nil_r, zput_id by done; change (zlen []) with 0; cbn; rewrite !Z.add_0_r; split_and!; try done; lia).
  all: destruct (Z.ltb_spec (zlen (st_window (fd_state s))) (merge_window limits)).
  all: try (exists [], []; rewrite !app_nil_r; split_and!; try done; [by right| |by rewrite zlen_nil, Z.add_0_r, Z.sub_0_r]; unfold accounts, captured_pending, captured_total;
    destruct Hb as (_ & _ & B3 & _); rewrite app_nil_r, zput_id by done; change (zlen []) with 0; cbn; rewrite !Z.add_0_r; split_and!; try done; lia).
  { lia. }
  unfold mbind at 1, stm_bind at 1. destruct Hb as (B1 & B2 & B3 & B4 & B5).
  pose proof (read_frame_spec alloc checks limits index r0 t0 e0 s records read Hex Hat B3 B4 B5) as Hr.
  assert (books s read) as Hb by done.
  destruct (read_frame alloc checks limits index s) as [[[p|]|err|] s1]; [| |done|done].
  - pose proof (accounts_taken _ _ _ _ _ Hb Hr) as Hacc. destruct Hr as (more & Hat1 & (_ & F2 & F3 & F4 & _) & _ & _ & _ & _ & _ & Hmeta).
    rewrite (stm_bind_eq _ _ _ tt (set_fd_state (set_window (p :: st_window (fd_state s1)) (fd_state s1)) s1)) by done.
    set (s2 := set_fd_state _ s1). assert (accounts s read [p] s2) as Hacc2 by exact Hacc.
    specialize (IH s2 (records ++ more) (read ++ [p]) (source_at_window _ _ _ _ _ Hat1) (accounts_books _ _ _ _ Hb Hacc2)).
    assert (zlen (st_window (fd_state s2)) = 1 + zlen (st_window (fd_state s))) as Ez by (cbn; by rewrite F2, zlen_cons).
    specialize (IH ltac:(rewrite Ez; lia) ltac:(rewrite Ez; lia)).
    destruct (fill_window alloc checks limits fuel (merge_window limits) index s2) as [[[]|err|] s3]; [| |done].
    + destruct IH as (more2 & got2 & I1 & I2 & I3 & I4 & I5 & I6 & I7). exists (more ++ more2), ([p] ++ got2). rewrite !app_assoc. split; [done|].
      split; [rewrite I2; cbn; rewrite F2; by rewrite <- Permutation_middle|]. split; [rewrite I3; cbn; by rewrite F3|]. split; [done|]. split; [done|].
      split; [by eapply accounts_trans|]. cbn in I7. rewrite !zlen_app. change (zlen [p]) with 1. lia.
    + intros frames Hg. by eapply IH, accounts_good.
  - pose proof (accounts_ended _ _ _ _ Hb Hr) as Hacc. destruct Hr as (more & Hat1 & (_ & F2 & F3 & F4 & _) & _ & _ & _ & _ & Hmeta).
    rewrite (stm_bind_eq _ _ _ tt (set_fd_state (set_exhausted (fd_state s1)) s1)) by done. set (s2 := set_fd_state _ s1).
    assert (fill_window alloc checks limits fuel (merge_window limits) index s2 = (Ok tt, s2)) as -> by (by destruct fuel).
    exists more, []. rewrite app_nil_r. split; [exact Hat1|]. cbn. rewrite F2, F3, zlen_nil. split_and!; try done; (by left) || lia.
Qed.

Lemma source_at_numbered records read source st : at_source records read source st -> numbered read.
Proof using. intros [_ _ _ H _ _ _ _] k p Hp. rewrite (pendings_numbers _ _ _ _ H k p Hp). lia. Qed.

Lemma good_numbered frames o budget read : good frames o budget read -> numbered frames.
Proof using. intros (R & rf & _ & H & _) k p Hp. rewrite (pendings_numbers _ _ _ _ H k p Hp). lia. Qed.
End lane.

(** ** Taking the next frame *)

Section order.
Context (limits : MergeLimits).

(** What a source has given so far, in order, and its window behind it. *)
Record lane_ok (popped read : list Pending) (st : MergeState) : Prop := {
  lo_perm : read ≡ₚ popped ++ st_window st;
  lo_sorted : StronglySorted (before (ml_order limits)) popped;
  lo_window : Forall (fun p => Forall (before (ml_order limits) p) (st_window st)) popped;
  lo_previous : st_previous st = pd_time <$> last popped;
  lo_room : zlen (st_window st) < merge_window limits
}.

(** The window suffices, and what has been given comes before what is unread. *)
Definition lane_good (frames popped read : list Pending) : Prop :=
  orderly (ml_order limits) (merge_window limits) frames /\
  Forall (fun p => Forall (before (ml_order limits) p) (drop (length read) frames)) popped.

(** The frame a full window gives up, with the others in it. *)
Lemma pop_before popped read window m rest : read ≡ₚ popped ++ window -> numbered read -> window ≡ₚ m :: rest ->
  Forall (fun q => pd_time m < pd_time q \/ pd_time m = pd_time q /\ pd_number m <= pd_number q) rest ->
  (ml_order limits = Append -> rest = []) -> Forall (before (ml_order limits) m) rest.
Proof using.
  intros Hp Hn Hw Hm Happ. apply numbered_NoDup in Hn. rewrite Hp, Hw in Hn. rewrite Forall_forall in Hm |- *. intros q Hq.
  assert (pd_number q <> pd_number m) as Hne by (eapply NoDup_numbers_ne; [exact Hn|]; set_solver).
  destruct (ml_order limits); cbn [before]; [|by rewrite Happ in Hq; [apply not_elem_of_nil in Hq|]]. specialize (Hm q Hq). lia.
Qed.

(** The frame popped comes after those given before it, unless its time is earlier
    than the last one's. *)
Lemma popped_before popped read got window st m rest : lane_ok popped read st -> numbered (read ++ got) -> window ≡ₚ got ++ st_window st -> window ≡ₚ m :: rest ->
  (ml_order limits = Chronological -> forall previous, st_previous st = Some previous -> previous <= pd_time m) ->
  Forall (fun p => before (ml_order limits) p m) popped.
Proof using.
  intros [Hp Hs Hlw Hprev _] Hn Hw Hm Hc. apply Forall_forall. intros p Hpp.
  assert (m ∈ got ++ st_window st) as Hin by (rewrite <- Hw, Hm; set_solver). apply elem_of_app in Hin as [Hin|Hin].
  - assert (p ∈ read) as Hpr by (rewrite Hp; set_solver). pose proof (numbered_later _ _ _ _ Hn Hpr Hin) as Hnum.
    destruct (ml_order limits) eqn:Eo; cbn [before]; [|done]. specialize (Hc eq_refl).
    assert (exists q, last popped = Some q /\ pd_time p <= pd_time q) as (q & Hq & Hle).
    { clear -Hs Hpp. destruct popped as [|x l _] using rev_ind; [by apply not_elem_of_nil in Hpp|]. rewrite last_snoc. exists x. split; [done|].
      apply elem_of_app in Hpp as [Hpp| ->%list_elem_of_singleton]; [|done]. apply (StronglySorted_app_1_elem_of _ _ [x] p x) in Hs; [cbn in Hs; lia|done|by apply list_elem_of_singleton]. }
    rewrite Hq in Hprev. specialize (Hc _ Hprev). lia.
  - rewrite Forall_forall in Hlw. specialize (Hlw p Hpp). rewrite Forall_forall in Hlw. by apply Hlw.
Qed.

Lemma lane_pop popped read got st m rest previous : lane_ok popped read st -> numbered (read ++ got) -> (ml_order limits = Append -> merge_window limits = 1) ->
  forall window, window ≡ₚ got ++ st_window st -> zlen window <= merge_window limits -> heap_take windowed_first window = Some (m, rest) ->
  (ml_order limits = Chronological -> forall previous, st_previous st = Some previous -> previous <= pd_time m) ->
  forall st', st_window st' = rest -> st_previous st' = Some previous -> previous = pd_time m -> lane_ok (popped ++ [m]) (read ++ got) st'.
Proof using.
  intros Hok Hn Happ window Hw Hz Hpop Hc st' Ew Ep ->. apply window_pop in Hpop as [Hm Hf].
  assert (read ++ got ≡ₚ popped ++ window) as Hperm.
  { rewrite Hw, (lo_perm _ _ _ Hok), <- app_assoc. apply Permutation_app_head. apply Permutation_app_comm. }
  assert (zlen window = 1 + zlen rest) as Ez by (unfold zlen; rewrite Hm; cbn; lia). pose proof (zlen_nonneg rest).
  pose proof (popped_before _ _ _ _ _ _ _ Hok Hn Hw Hm Hc) as Hbefore.
  assert (Forall (before (ml_order limits) m) rest) as Hrest.
  { eapply pop_before; [exact Hperm|done|exact Hm|done|]. intros Ha. apply zlen_0. rewrite (Happ Ha) in Hz. lia. }
  split.
  - rewrite Hperm, Hm, Ew, <- app_assoc. done.
  - apply StronglySorted_app_2; [|apply Hok|by repeat constructor]. intros p q Hp ->%list_elem_of_singleton.
    rewrite Forall_forall in Hbefore. by apply Hbefore.
  - rewrite Ew. apply Forall_app. split; [|by apply Forall_singleton]. eapply Forall_impl; [exact Hbefore|]. intros p Hp.
    eapply Forall_impl; [exact Hrest|]. intros q. by apply before_trans.
  - by rewrite last_snoc.
  - rewrite Ew. lia.
Qed.
End order.

Section advance.
Context (alloc : capture_allocator) (checks : Z -> nat -> option CaptureError * option CaptureError) (limits : MergeLimits).
Context (index : Z) (r0 : Reader) (t0 : nat) (e0 : Endianness).
Local Notation at_source := (source_at alloc checks index r0 t0 e0).
Local Notation good := (source_good alloc checks limits index r0 t0 e0).
Context (append_window : ml_order limits = Append -> merge_window limits = 1).

(** The source after its next frame has been taken from it. *)
Definition advanced (s : Feed) (records : list CaptureRecord) (read popped : list Pending) (next : option Pending) (s' : Feed) : Prop :=
  exists more got, at_source (records ++ more) (read ++ got) (fd_source s') (fd_state s') /\ accounts index s read got s' /\
    gr_source_metadata_records (fd_report s') = gr_source_metadata_records (fd_report s) + zlen more - zlen got /\
    lane_ok limits (popped ++ option_list next) (read ++ got) (fd_state s') /\
    (next = None -> st_exhausted (fd_state s') = true /\ st_window (fd_state s') = []) /\
    feed_weight s' + zlen (st_window (fd_state s')) + zlen (option_list next) <= feed_weight s + zlen (st_window (fd_state s)) /\
    (forall frames, good frames (others s) (fd_budget s) read -> lane_good limits frames popped read ->
      lane_good limits frames (popped ++ option_list next) (read ++ got)).

Lemma lane_good_more frames popped read got : lane_good limits frames popped read -> lane_good limits frames popped (read ++ got).
Proof using.
  intros [Ho Hf]. split; [done|]. eapply Forall_impl; [exact Hf|]. intros p Hp. rewrite length_app, <- drop_drop. by apply Forall_drop.
Qed.

(** The last frame given is not later than those in the window and those unread. *)
Lemma regression_excluded popped read got rest st previous m : lane_ok limits popped read st -> ml_order limits = Chronological ->
  lane_good limits ((read ++ got) ++ rest) popped read -> st_previous st = Some previous -> m ∈ got ++ st_window st -> previous <= pd_time m.
Proof using.
  intros Hok Eo [_ Hg] Hp Hm. rewrite (lo_previous _ _ _ _ Hok) in Hp. apply fmap_Some in Hp as (q & Hq & ->).
  assert (q ∈ popped) as Hin by (by apply last_Some_elem_of). rewrite <- app_assoc, drop_app_length in Hg.
  pose proof (lo_window _ _ _ _ Hok) as Hw. rewrite Forall_forall in Hg, Hw. specialize (Hg q Hin). specialize (Hw q Hin). rewrite Forall_forall in Hg, Hw.
  assert (before (ml_order limits) q m) as Hb; [|rewrite Eo in Hb; cbn in Hb; lia].
  apply elem_of_app in Hm as [Hm|Hm]; [|by apply Hw]. apply Hg. apply elem_of_app. by left.
Qed.

Lemma lane_good_pop frames popped read got st records source window m rest : at_source records (read ++ got) source st ->
  forall o budget, good frames o budget (read ++ got) -> lane_good limits frames popped read -> read ++ got ≡ₚ popped ++ window ->
  (st_exhausted st = true \/ merge_window limits <= zlen window) -> zlen window <= merge_window limits ->
  heap_take windowed_first window = Some (m, rest) -> lane_good limits frames (popped ++ [m]) (read ++ got).
Proof using.
  intros Hat o budget Hg Hl Hperm Hfull Hmax Hpop. apply (lane_good_more _ _ _ got) in Hl as [Ho Hf]. split; [done|].
  apply Forall_app. split; [done|]. apply Forall_singleton.
  pose proof (good_numbered _ _ _ _ _ _ _ _ _ _ _ Hg) as Hn. destruct (source_good_read _ _ _ _ _ _ _ _ _ _ _ _ _ _ Hat Hg) as (unread & -> & Hend).
  rewrite drop_app_length. destruct Hfull as [Hex|Hfull]; [by rewrite Hend|].
  apply window_pop in Hpop as [Hm Hmin]. eapply (orderly_first _ _ _ _ popped window); try done. by eapply orderly_mono; [|exact Ho].
Qed.

Lemma advance_spec s records read popped : at_source records read (fd_source s) (fd_state s) -> books index s read -> lane_ok limits popped read (fd_state s) ->
  match advance alloc checks limits index s with
  | (Ok next, s') => advanced s records read popped next s'
  | (Err _, _) => forall frames, good frames (others s) (fd_budget s) read -> ~ lane_good limits frames popped read
  | (Panic, _) => False
  end.
Proof using append_window.
  intros Hat Hb Hok. unfold advance. fold (merge_window limits). assert (1 <= merge_window limits) as Hone by (unfold merge_window; lia).
  pose proof (lo_room _ _ _ _ Hok) as Hroom. pose proof (zlen_nonneg (st_window (fd_state s))).
  pose proof (fill_window_spec alloc checks limits index r0 t0 e0 (S (Z.to_nat (merge_window limits))) s records read Hat Hb ltac:(lia) ltac:(lia)) as Hf.
  unfold mbind at 1, stm_bind at 1. destruct (fill_window alloc checks limits _ _ index s) as [[[]|err|] s1]; [| |done].
  2: { intros frames Hg. by destruct (Hf frames). }
  destruct Hf as (more & got & Hat1 & Hw & Hp & Hfull & Hmax & Hacc & Hmeta). rewrite gets_bind.
  assert (read ++ got ≡ₚ popped ++ st_window (fd_state s1)) as Hperm.
  { rewrite Hw, (lo_perm _ _ _ _ Hok), <- app_assoc. apply Permutation_app_head. apply Permutation_app_comm. }
  assert (zlen (st_window (fd_state s1)) = zlen got + zlen (st_window (fd_state s))) as Ez by (unfold zlen; rewrite Hw, length_app; lia).
  assert (feed_weight s1 + zlen got <= feed_weight s) as Hwt by apply Hacc.
  destruct (heap_take windowed_first (st_window (fd_state s1))) as [[m rest]|] eqn:Epop.
  - unfold mbind at 1, stm_bind at 1, update_state, modify. rewrite Hp. set (s2 := set_fd_state (set_window rest (fd_state s1)) s1).
    assert (m ∈ got ++ st_window (fd_state s)) as Hm.
    { rewrite <- Hw. apply window_pop in Epop as [Em _]. rewrite Em. apply list_elem_of_here. }
    destruct (bool_decide (ml_order limits = Chronological) && _) eqn:Ereg.
    + intros frames Hg Hl. apply andb_true_iff in Ereg as [Eo%bool_decide_eq_true Ereg]. destruct (st_previous (fd_state s)) as [previous|] eqn:Eprev; [|done].
      apply Z.ltb_lt in Ereg. pose proof (accounts_good _ _ _ _ _ _ _ _ _ _ _ _ Hg Hacc) as Hg1.
      destruct (source_good_read _ _ _ _ _ _ _ _ _ _ _ _ _ _ Hat1 Hg1) as (unread & -> & _).
      pose proof (regression_excluded _ _ _ _ _ _ _ Hok Eo Hl Eprev Hm). lia.
    + rewrite (stm_bind_eq _ _ _ tt (set_fd_state (set_previous (pd_time m) (fd_state s2)) s2)) by done. set (s3 := set_fd_state _ s2).
      unfold mret, stm_ret. exists more, got. split; [apply source_at_previous; by apply source_at_window|]. split; [exact Hacc|].
      split; [exact Hmeta|]. split; [|split; [done|split]].
      * eapply (lane_pop limits popped read got (fd_state s) m rest (pd_time m)); try done; [by eapply source_at_numbered|].
        intros Eo previous Eprev. rewrite Eprev, bool_decide_eq_true_2 in Ereg by done. cbn in Ereg. apply Z.ltb_ge in Ereg. done.
      * apply window_pop in Epop as [Em _]. change (st_window (fd_state s3)) with rest. change (feed_weight s3) with (feed_weight s1).
        assert (zlen (st_window (fd_state s1)) = 1 + zlen rest) by (unfold zlen; rewrite Em; cbn; lia). change (zlen (option_list (Some m))) with 1. lia.
      * intros frames Hg Hl. eapply lane_good_pop; [exact Hat1|by eapply accounts_good|done|exact Hperm|done|done|exact Epop].
  - apply heap_take_None in Epop. rewrite Epop in *. cbn in Hmax, Hfull. unfold mret, stm_ret. exists more, got. split; [done|]. split; [done|]. split; [done|]. change (option_list None) with (@nil Pending). rewrite app_nil_r.
    destruct Hfull as [Hex|Hfull]; [|change (zlen []) with 0 in Hfull; lia]. split; [|split; [done|split; [rewrite Epop; unfold zlen in *; cbn [length option_list] in *; lia|intros frames _; apply lane_good_more]]].
    destruct Hok as [_ Hs _ Hprev _]. split; [by rewrite Epop|done|rewrite Epop; by apply Forall_forall|by rewrite Hp|rewrite Epop; unfold zlen; cbn [length]; lia].
Qed.
End advance.
