(* ===== verification/CaptureMergeOrder.v ===== *)
(** * Capture files: what a merge writes, and in which order

    The specification of a merge: all frames of all sources sorted by time, source
    and position (or by source and position), and the operations that write them
    with the interfaces they need; that [take_next] picks the head that comes
    first in that order; and the sources of a merge together. *)

From stdpp Require Import base tactics option list numbers strings gmap sorting.
From Stdlib Require Import ZArith Lia.
From S2P Require Import Prelude Checksum Ordered Flow Headers HeadersProofs Frame Transform TransformProofs IpRanges IpDelivery.
From S2P Require Import CaptureWire CaptureRead CaptureWrite CaptureStreams CaptureTime CaptureEncode CaptureWriter CaptureReader CaptureBlocks CaptureSafety.
From S2P Require Import CaptureRoundTrip CaptureDecode CaptureRoundTripNg CaptureCopy CaptureRecords CaptureMap CaptureMerge CaptureMergeSource CaptureMergeLanes.

(** ** The order of all frames *)

Definition entry : Type := Z * Pending.

Definition same_source_before (e f : entry) : Prop := e.1 < f.1 \/ e.1 = f.1 /\ pd_number e.2 < pd_number f.2.

(** Which of two frames, each with its source, is written first. *)
Definition entry_before (order : MergeOrder) (e f : entry) : Prop :=
  match order with
  | Chronological => pd_time e.2 < pd_time f.2 \/ pd_time e.2 = pd_time f.2 /\ same_source_before e f
  | Append => same_source_before e f
  end.

Definition entry_le (order : MergeOrder) (e f : entry) : Prop := ~ entry_before order f e.

#[export] Instance entry_le_dec order : RelDecision (entry_le order).
Proof. intros e f. unfold entry_le, entry_before, same_source_before. destruct order; apply _. Defined.

#[export] Instance entry_le_total order : Total (entry_le order).
Proof. intros e f. unfold entry_le, entry_before, same_source_before. destruct order; lia. Qed.

#[export] Instance entry_le_trans order : Transitive (entry_le order).
Proof. intros e f g. unfold entry_le, entry_before, same_source_before. destruct order; lia. Qed.

#[export] Instance entry_before_trans order : Transitive (entry_before order).
Proof. intros e f g. unfold entry_before, same_source_before. destruct order; lia. Qed.

Lemma entry_before_irrefl order e : ~ entry_before order e e.
Proof. unfold entry_before, same_source_before. destruct order; lia. Qed.

Lemma entry_before_le order e f : entry_before order e f -> entry_le order e f.
Proof. unfold entry_le, entry_before, same_source_before. destruct order; lia. Qed.

Lemma entry_before_same order i p q : before order p q -> entry_before order (i, p) (i, q).
Proof. unfold before, entry_before, same_source_before. destruct order; cbn; lia. Qed.

(** A sorted list that holds all of another sorted list, and else only what comes
    after, begins with it. *)
Lemma sorted_prefix {A} (R : relation A) : (forall x, ~ R x x) -> Transitive R -> forall l all, StronglySorted R l -> StronglySorted R all ->
  (forall x, x ∈ l -> x ∈ all) -> (forall x, x ∈ all -> x ∈ l \/ Forall (fun y => R y x) l) -> exists rest, all = l ++ rest.
Proof.
  intros Hirr Htr. induction l as [|e l IH]; intros all Hl Ha Hin Hor; [by exists all|].
  apply StronglySorted_cons in Hl as [He Hl]. rewrite Forall_forall in He. destruct all as [|s all]; [by destruct (not_elem_of_nil e); apply Hin, list_elem_of_here|].
  apply StronglySorted_cons in Ha as [Hs Ha]. rewrite Forall_forall in Hs.
  assert (s = e) as ->.
  { destruct (Hor s ltac:(apply list_elem_of_here)) as [[Hse|Hse]%elem_of_cons|Hse]; [done| |].
    all: pose proof (Hin e ltac:(apply list_elem_of_here)) as Hes; apply elem_of_cons in Hes as [Hes|Hes]; [done|]. all: destruct (Hirr e); eapply Htr; [|by apply Hs].
    - by apply He.
    - by apply Forall_cons_1 in Hse as [? _]. }
  destruct (IH all Hl Ha) as (rest & ->); [| |by exists rest].
  - intros x Hx. pose proof (Hin x ltac:(by right)) as Hxs. apply elem_of_cons in Hxs as [->|?]; [|done]. by destruct (Hirr e); apply He.
  - intros x Hx. destruct (Hor x ltac:(by right)) as [[->|?]%elem_of_cons|Hf]; [by destruct (Hirr e); apply Hs|by left|]. right. by apply Forall_cons_1 in Hf as [_ ?].
Qed.

(** ** All frames of all sources *)

(** What a source holds when it has been read to its end. *)
Record Stream : Type := mkStream { sm_frames : list Pending; sm_interfaces : Z; sm_metadata : Z }.

Fixpoint number_from {A} (i : Z) (l : list A) : list (Z * A) :=
  match l with [] => [] | x :: rest => (i, x) :: number_from (i + 1) rest end.

Lemma elem_of_number_from {A} (l : list A) : forall i k x, (k, x) ∈ number_from i l <-> zget l (k - i) = Some x.
Proof.
  induction l as [|y l IH]; intros i k x; cbn [number_from]; [rewrite zget_nil; split; [by intros ?%not_elem_of_nil|done]|].
  rewrite elem_of_cons, IH, zget_cons. replace (k - i - 1) with (k - (i + 1)) by lia. destruct (Z.eqb_spec (k - i) 0) as [E|E].
  - rewrite (zget_neg l) by lia. replace k with i by lia. split; [by intros [[= ->]|?]|intros [= ->]; by left].
  - split; [intros [[= -> ->]|?]; [lia|done]|by right].
Qed.

Lemma fst_number_from {A} (l : list A) i : (number_from i l).*2 = l.
Proof. revert i. induction l as [|x l IH]; intros i; cbn; [done|]. by rewrite IH. Qed.

Definition stream_entries (streams : list Stream) : list entry :=
  mjoin ((fun '(i, sm) => pair i <$> sm_frames sm) <$> number_from 0 streams).

(** Everything that is to be written, in order. *)
Definition merge_sequence (order : MergeOrder) (streams : list Stream) : list entry := merge_sort (entry_le order) (stream_entries streams).

Lemma elem_of_entries_from (streams : list Stream) i0 i p :
  (i, p) ∈ mjoin ((fun '(i, sm) => pair i <$> sm_frames sm) <$> number_from i0 streams) <-> exists sm, zget streams (i - i0) = Some sm /\ p ∈ sm_frames sm.
Proof.
  rewrite list_elem_of_join. split.
  - intros (l & Hl & Hp). apply list_elem_of_fmap in Hp as ([k sm] & -> & Hk). apply list_elem_of_fmap in Hl as (q & [= -> ->] & Hq).
    exists sm. by rewrite elem_of_number_from in Hk.
  - intros (sm & Hs & Hp). exists (pair i <$> sm_frames sm). split; [by apply list_elem_of_fmap_2|]. apply list_elem_of_fmap. exists (i, sm).
    split; [done|]. by apply elem_of_number_from.
Qed.

Lemma elem_of_sequence order streams i p : (i, p) ∈ merge_sequence order streams <-> exists sm, zget streams i = Some sm /\ p ∈ sm_frames sm.
Proof. unfold merge_sequence. rewrite merge_sort_Permutation. unfold stream_entries. rewrite elem_of_entries_from. by rewrite Z.sub_0_r. Qed.

Definition entry_key (e : entry) : Z * Z := (e.1, pd_number e.2).

Lemma NoDup_entries_from streams : Forall (fun sm => numbered (sm_frames sm)) streams ->
  forall i0, NoDup (entry_key <$> mjoin ((fun '(i, sm) => pair i <$> sm_frames sm) <$> number_from i0 streams)).
Proof.
  induction 1 as [|sm streams Hn _ IH]; intros i0; cbn [number_from]; [constructor|]. rewrite fmap_cons. cbn [mjoin list_join]. rewrite fmap_app. apply NoDup_app. split; [|split; [|apply IH]].
  - rewrite <- list_fmap_compose. rewrite (list_fmap_ext (entry_key ∘ pair i0) (pair i0 ∘ pd_number)) by done. rewrite list_fmap_compose.
    apply NoDup_fmap; [intros ? ? [=]; done|]. by apply numbered_NoDup.
  - intros [i n] Hi Hj. apply list_elem_of_fmap in Hi as (e & [= -> ->] & (q & -> & _)%list_elem_of_fmap).
    apply list_elem_of_fmap in Hj as ([j r] & [= Ej _] & (sm' & Hz & _)%elem_of_entries_from). cbn in Ej. rewrite zget_neg in Hz by lia. done.
Qed.

Lemma sequence_sorted order streams : Forall (fun sm => numbered (sm_frames sm)) streams -> StronglySorted (entry_before order) (merge_sequence order streams).
Proof.
  intros Hn. assert (NoDup (entry_key <$> merge_sequence order streams)) as Hnd.
  { unfold merge_sequence. rewrite merge_sort_Permutation. by apply NoDup_entries_from. }
  assert (StronglySorted (entry_le order) (merge_sequence order streams)) as Hs by (apply StronglySorted_merge_sort; apply _).
  induction Hs as [|x l _ IH Hx]; constructor; rewrite fmap_cons, NoDup_cons in Hnd; destruct Hnd as [Hk Hnd]; [by apply IH|].
  rewrite Forall_forall in Hx |- *. intros y Hy. specialize (Hx y Hy). assert (entry_key x <> entry_key y) as Hne by (intros E; apply Hk; rewrite E; by apply list_elem_of_fmap_2).
  clear -Hx Hne. unfold entry_key, entry_le, entry_before, same_source_before in *. assert (~ (x.1 = y.1 /\ pd_number x.2 = pd_number y.2)) by (intros [E1 E2]; by rewrite E1, E2 in Hne).
  destruct order; lia.
Qed.

(** Frames in order that all others come after begin the sequence. *)
Lemma sequence_prefix order streams E : Forall (fun sm => numbered (sm_frames sm)) streams -> StronglySorted (entry_before order) E ->
  (forall i p, (i, p) ∈ E -> exists sm, zget streams i = Some sm /\ p ∈ sm_frames sm) ->
  (forall i p sm, zget streams i = Some sm -> p ∈ sm_frames sm -> (i, p) ∈ E \/ Forall (fun e => entry_before order e (i, p)) E) ->
  exists rest, merge_sequence order streams = E ++ rest.
Proof.
  intros Hn Hs He Hrest. apply (sorted_prefix (entry_before order)); [apply entry_before_irrefl|apply _|done|by apply sequence_sorted| |].
  - intros [i p] Hip. apply elem_of_sequence. by apply He.
  - intros [i p] (sm & Hz & Hp)%elem_of_sequence. by eapply Hrest.
Qed.

(** Frames in order that are those of the sources are the sequence. *)
Lemma sequence_unique order streams E : Forall (fun sm => numbered (sm_frames sm)) streams -> StronglySorted (entry_before order) E ->
  (forall i p, (i, p) ∈ E <-> exists sm, zget streams i = Some sm /\ p ∈ sm_frames sm) -> E = merge_sequence order streams.
Proof.
  intros Hn Hs He. destruct (sequence_prefix order streams E Hn Hs) as (rest & Er).
  - intros i p. apply He.
  - intros i p sm Hz Hp. left. apply He. by exists sm.
  - rewrite Er. destruct rest as [|[i p] rest]; [by rewrite app_nil_r|]. exfalso. pose proof (sequence_sorted order streams Hn) as Hsq. rewrite Er in Hsq.
    assert ((i, p) ∈ E) as Hin by (apply He; apply (elem_of_sequence order); rewrite Er; apply elem_of_app; right; apply list_elem_of_here).
    apply (entry_before_irrefl order (i, p)). eapply StronglySorted_app_1_elem_of; [exact Hsq|done|apply list_elem_of_here].
Qed.

(** ** What is written for them *)

(** Where the frames so far have been put. *)
Record Placement : Type := mkPlacement {
  pl_mappings : gmap (Z * Z) Z;
  pl_ops : list writer_op;
  pl_interfaces : list MergedInterface;
  pl_count : Z
}.

Definition place_frame (p : Pending) (id : Z) : writer_op := OpFrame (with_identity (pd_frame p) (Some id) (fr_direction (pd_frame p))).

Definition merged_interface (names : list bytes) (e : entry) (id : Z) : MergedInterface :=
  mkMergedInterface e.1 (default [] (zget names e.1)) (pd_section e.2) (pd_local e.2) (pd_global e.2) id.

(** A frame is written under the interface of its source, which is described before
    the first of them. *)
Definition place (provenance : MergedInterface -> bytes) (names : list bytes) (acc : Placement) (e : entry) : Placement :=
  let key := (e.1, pd_global e.2) in
  match pl_mappings acc !! key with
  | Some id => mkPlacement (pl_mappings acc) (pl_ops acc ++ [place_frame e.2 id]) (pl_interfaces acc) (pl_count acc)
  | None =>
      let id := pl_count acc in
      mkPlacement (<[key := id]> (pl_mappings acc))
        (pl_ops acc ++ [OpInterface (pd_description e.2) [provenance_option provenance (merged_interface names e 0)]; place_frame e.2 id])
        (pl_interfaces acc ++ [merged_interface names e id]) (id + 1)
  end.

(** All of them, into a capture that has [count] interfaces. *)
Definition merge_plan (provenance : MergedInterface -> bytes) (names : list bytes) (count : Z) (entries : list entry) : Placement :=
  foldl (place provenance names) (mkPlacement ∅ [] [] count) entries.

Lemma merge_plan_snoc provenance names count E e : merge_plan provenance names count (E ++ [e]) = place provenance names (merge_plan provenance names count E) e.
Proof. unfold merge_plan. by rewrite foldl_app. Qed.

Lemma place_grows provenance names acc e : exists ops, pl_ops (place provenance names acc e) = pl_ops acc ++ ops.
Proof. unfold place. destruct (pl_mappings acc !! _); by eexists. Qed.

Lemma merge_plan_prefix provenance names count E rest : exists ops,
  pl_ops (merge_plan provenance names count (E ++ rest)) = pl_ops (merge_plan provenance names count E) ++ ops.
Proof.
  revert E. induction rest as [|e rest IH]; intros E; [exists []; by rewrite !app_nil_r|].
  rewrite cons_middle, app_assoc. destruct (IH (E ++ [e])) as (ops & ->). rewrite merge_plan_snoc.
  destruct (place_grows provenance names (merge_plan provenance names count E) e) as (ops' & ->). exists (ops' ++ ops). by rewrite app_assoc.
Qed.

(** ** The frames of one source among them *)

Definition from_source (i : Z) (entries : list entry) : list Pending :=
  omap (fun e => if bool_decide (e.1 = i) then Some e.2 else None) entries.

Lemma from_source_snoc i entries e : from_source i (entries ++ [e]) = from_source i entries ++ (if bool_decide (e.1 = i) then [e.2] else []).
Proof. unfold from_source. rewrite omap_app. cbn. by destruct (bool_decide (e.1 = i)). Qed.

Lemma elem_of_from_source i entries p : p ∈ from_source i entries <-> (i, p) ∈ entries.
Proof.
  unfold from_source. rewrite list_elem_of_omap. split.
  - intros ([j q] & He & Hq). cbn in Hq. destruct (bool_decide_reflect (j = i)) as [<-|?]; [|done]. by injection Hq as <-.
  - intros He. exists (i, p). split; [done|]. cbn. by rewrite bool_decide_true.
Qed.

(** ** Taking the next head *)

Lemma chronological_heads_put pending : forall k i q, 0 <= k < zlen pending ->
  chronological_heads i (zput pending k (Some q)) ≡ₚ (pd_time q, i + k) :: chronological_heads i (zput pending k None).
Proof.
  unfold zput. induction pending as [|o pending IH]; intros k i q Hk; [change (zlen []) with 0 in Hk; lia|]. rewrite zlen_cons in Hk.
  destruct (decide (k = 0)) as [->|Hn]; [cbn; by rewrite Z.add_0_r|].
  specialize (IH (k - 1) (i + 1) q ltac:(lia)). replace (i + 1 + (k - 1)) with (i + k) in IH by lia.
  replace (Z.to_nat k) with (S (Z.to_nat (k - 1))) by lia. cbn [insert list_insert]. destruct o as [p|]; cbn [chronological_heads]; [|exact IH].
  rewrite IH. apply Permutation_swap.
Qed.

Lemma elem_of_chronological_heads pending : forall i t k, (t, k) ∈ chronological_heads i pending <-> exists q, zget pending (k - i) = Some (Some q) /\ t = pd_time q.
Proof.
  induction pending as [|o pending IH]; intros i t k; cbn [chronological_heads].
  - split; [by intros ?%not_elem_of_nil|]. intros (q & H & _). by rewrite zget_nil in H.
  - rewrite zget_cons. assert (forall q, zget pending (k - (i + 1)) = Some (Some q) -> k - i <> 0) as Hne by (intros q Hq; apply zget_Some_lt in Hq; lia).
    replace (k - i - 1) with (k - (i + 1)) by lia. destruct o as [p|]; rewrite ?elem_of_cons, IH; destruct (Z.eqb_spec (k - i) 0) as [E|E].
    + split; [intros [[= -> ->]|(q & Hq & _)]; [by exists p|by destruct (Hne q)]|]. intros (q & [= <-] & ->). left. f_equal. lia.
    + split; [intros [[= -> ->]|H]; [lia|done]|by right].
    + split; intros (q & Hq & _); [by destruct (Hne q)|done].
    + done.
Qed.

Lemma first_present_Some pending : forall i k, first_present i pending = Some k ->
  (exists p, zget pending (k - i) = Some (Some p)) /\ forall j q, zget pending (j - i) = Some (Some q) -> k <= j.
Proof.
  induction pending as [|o pending IH]; intros i k H; cbn in H; [done|]. destruct o as [p|].
  - injection H as <-. split; [exists p; by rewrite Z.sub_diag|]. intros j q Hq%zget_Some_lt. lia.
  - apply IH in H as [(p & Hp) Hmin]. apply zget_Some_lt in Hp as Hb. split.
    + exists p. rewrite zget_cons, (proj2 (Z.eqb_neq _ _)) by lia. by replace (k - i - 1) with (k - (i + 1)) by lia.
    + intros j q Hq. rewrite zget_cons in Hq. destruct (Z.eqb_spec (j - i) 0); [done|]. apply (Hmin j q). by replace (j - (i + 1)) with (j - i - 1) by lia.
Qed.

Lemma first_present_None pending : forall i, first_present i pending = None -> Forall (fun o => o = None) pending.
Proof. induction pending as [|[p|] pending IH]; intros i H; cbn in H; [constructor|done|]. constructor; [done|]. by eapply IH. Qed.

(** The heap of heads holds the heads there are. *)
Definition heads_ok (order : MergeOrder) (chronological : option (list (Z * Z))) (pending : list (option Pending)) : Prop :=
  match order with
  | Chronological => exists heads, chronological = Some heads /\ heads ≡ₚ chronological_heads 0 pending
  | Append => chronological = None
  end.

Lemma push_head_ok order chronological pending i next : 0 <= i < zlen pending -> heads_ok order chronological (zput pending i None) ->
  heads_ok order (push_head chronological i next) (zput pending i next).
Proof.
  intros Hi. destruct order; cbn [heads_ok].
  - intros (heads & -> & Hp). destruct next as [q|]; cbn [push_head]; [|by exists heads]. eexists. split; [done|].
    rewrite (chronological_heads_put _ _ _ _ Hi), Hp. by rewrite Z.add_0_l.
  - intros ->. by destruct next.
Qed.

(** The head that is taken comes before the others. *)
Lemma take_next_spec order chronological pending : heads_ok order chronological pending ->
  (exists chronological', take_next pending chronological = Ok (None, pending, chronological') /\ Forall (fun o => o = None) pending) \/
  (exists i p chronological', take_next pending chronological = Ok (Some (i, p), zput pending i None, chronological') /\ zget pending i = Some (Some p) /\
    heads_ok order chronological' (zput pending i None) /\ forall j q, zget pending j = Some (Some q) -> j <> i -> entry_before order (i, p) (j, q)).
Proof.
  unfold take_next. destruct order; cbn [heads_ok].
  - intros (heads & -> & Hp). destruct (heap_take pair_first heads) as [[[t i] rest]|] eqn:E.
    + apply heap_take_Some in E as [Eh Hf]; [|apply pair_first_asym|apply pair_first_neg_trans].
      assert ((t, i) ∈ chronological_heads 0 pending) as Hin by (rewrite <- Hp, Eh; apply list_elem_of_here).
      apply elem_of_chronological_heads in Hin as (p & Hz & ->). rewrite Z.sub_0_r in Hz. cbn [snd]. rewrite Hz. cbn. right. exists i, p, (Some rest).
      split; [done|]. split; [done|]. apply zget_Some_lt in Hz as Hb.
      assert (rest ≡ₚ chronological_heads 0 (zput pending i None)) as Hr.
      { apply (Permutation_cons_inv (a := (pd_time p, i))). rewrite <- Eh, Hp. rewrite <- (zput_id _ _ _ Hz) at 1. by rewrite (chronological_heads_put _ _ _ _ Hb). }
      split; [by exists rest|]. intros j q Hq Hne. rewrite Forall_forall in Hf. specialize (Hf (pd_time q, j)).
      rewrite pair_first_false in Hf. cbn in Hf |- *. unfold same_source_before. cbn. assert ((pd_time q, j) ∈ rest) as Hj; [|specialize (Hf Hj); lia].
      rewrite Hr. apply elem_of_chronological_heads. exists q. rewrite Z.sub_0_r, zget_zput_ne by lia. done.
    + apply heap_take_None in E as ->. left. eexists. split; [done|]. apply Forall_forall. intros [p|] Ho; [|done].
      apply list_elem_of_lookup in Ho as (k & Hk). symmetry in Hp. apply Permutation_nil_r in Hp. destruct (not_elem_of_nil (pd_time p, Z.of_nat k)). rewrite <- Hp.
      apply elem_of_chronological_heads. exists p. rewrite Z.sub_0_r. unfold zget. rewrite (proj2 (Z.leb_le _ _)) by lia. by rewrite Nat2Z.id.
  - intros ->. destruct (first_present 0 pending) as [i|] eqn:E.
    + apply first_present_Some in E as [(p & Hp) Hmin]. rewrite Z.sub_0_r in Hp. rewrite Hp. cbn. right. exists i, p, None. split_and!; try done.
      intros j q Hq Hne. specialize (Hmin j q). rewrite Z.sub_0_r in Hmin. specialize (Hmin Hq). unfold same_source_before. cbn. lia.
    + left. eexists. split; [done|]. by eapply first_present_None.
Qed.

(** ** Capture files: the sources of a merge together

    The state of a merge as its lanes, one per source, with the totals the report,
    the budget and the interface count keep; and what advancing one lane does to
    them. *)

(** ** Sums over lists *)

Definition zsum {A} (f : A -> Z) (l : list A) : Z := foldr (fun x total => f x + total) 0 l.

Lemma zget_fmap {A B} (f : A -> B) l i : zget (f <$> l) i = f <$> zget l i.
Proof. unfold zget. destruct (0 <=? i); [|done]. apply list_lookup_fmap. Qed.

Lemma fmap_zput {A B} (f : A -> B) l i x : f <$> zput l i x = zput (f <$> l) i (f x).
Proof. unfold zput. apply list_fmap_insert. Qed.

Lemma zput_cons {A} (x y : A) l i : 0 <= i -> zput (x :: l) i y = if i =? 0 then y :: l else x :: zput l (i - 1) y.
Proof.
  intros Hi. unfold zput. destruct (Z.eqb_spec i 0) as [->|Hn]; [done|]. replace (Z.to_nat i) with (S (Z.to_nat (i - 1))) by lia. done.
Qed.

Lemma zsum_zput {A} (f : A -> Z) l : forall i x y, zget l i = Some x -> zsum f (zput l i y) = zsum f l + (f y - f x).
Proof.
  induction l as [|z l IH]; intros i x y H; [by rewrite zget_nil in H|]. apply zget_Some_lt in H as Hb. rewrite zput_cons by lia. rewrite zget_cons in H.
  destruct (Z.eqb_spec i 0) as [->|Hn]; cbn; [injection H as ->; lia|]. fold (zsum f l). fold (zsum f (zput l (i - 1) y)). rewrite (IH _ _ _ H). lia.
Qed.

Lemma zsum_nonneg {A} (f : A -> Z) l : Forall (fun x => 0 <= f x) l -> 0 <= zsum f l.
Proof. induction 1; cbn; [done|]. fold (zsum f l). lia. Qed.

Lemma zsum_elem {A} (f : A -> Z) l i x : Forall (fun x => 0 <= f x) l -> zget l i = Some x -> f x <= zsum f l.
Proof.
  intros Hf. revert i. induction Hf as [|y l Hy Hf IH]; intros i H; [by rewrite zget_nil in H|]. rewrite zget_cons in H. apply zsum_nonneg in Hf. cbn. fold (zsum f l).
  destruct (Z.eqb_spec i 0); [injection H as ->; lia|]. specialize (IH _ H). lia.
Qed.

(** What one may still grow by when all of them are below their ends. *)
Lemma zsum_slack {A B} (f : A -> Z) (h : B -> Z) l m : Forall2 (fun x y => f x <= h y) l m ->
  forall i x y, zget l i = Some x -> zget m i = Some y -> zsum f l + (h y - f x) <= zsum h m.
Proof.
  induction 1 as [|a b l m Hab Hf IH]; intros i x y Hx Hy; [by rewrite zget_nil in Hx|]. rewrite zget_cons in Hx. rewrite zget_cons in Hy. cbn. fold (zsum f l). fold (zsum h m).
  destruct (Z.eqb_spec i 0); [|specialize (IH _ _ _ Hx Hy); lia]. injection Hx as ->. injection Hy as ->.
  enough (zsum f l <= zsum h m) by lia. clear -Hf. induction Hf; cbn; [done|]. fold (zsum f l). fold (zsum h l'). lia.
Qed.

Lemma zsum_ext2 {A B} (f : A -> Z) (h : B -> Z) l m : Forall2 (fun x y => f x = h y) l m -> zsum f l = zsum h m.
Proof. induction 1; cbn; [done|]. fold (zsum f l). fold (zsum h l'). lia. Qed.

Lemma Forall_zput {A} (P : A -> Prop) l i x : Forall P l -> P x -> Forall P (zput l i x).
Proof. intros Hl Hx. unfold zput. by apply Forall_insert. Qed.

Lemma Forall2_zput_l {A B} (P : A -> B -> Prop) l m : Forall2 P l m -> forall i x, (forall y, zget m i = Some y -> P x y) -> 0 <= i -> Forall2 P (zput l i x) m.
Proof.
  induction 1 as [|a b l m Hab Hf IH]; intros i x Hx Hi; [constructor|]. rewrite zput_cons by done. destruct (Z.eqb_spec i 0) as [->|Hn].
  - constructor; [|done]. apply Hx. by rewrite zget_cons.
  - constructor; [done|]. apply IH; [|lia]. intros y Hy. apply Hx. rewrite zget_cons, (proj2 (Z.eqb_neq _ _)) by lia. done.
Qed.

Lemma Forall2_zget {A B} (P : A -> B -> Prop) l m : Forall2 P l m -> forall i x, zget l i = Some x -> exists y, zget m i = Some y /\ P x y.
Proof.
  intros H i x Hx. unfold zget in *. destruct (0 <=? i); [|done]. by eapply Forall2_lookup_l.
Qed.

(** ** What a source holds *)

Definition source_endianness (source : MergeSource) : Endianness := header_endianness (rd_header (ms_reader source)).

Section ledger.
Context (alloc : capture_allocator) (checks : Z -> nat -> option CaptureError * option CaptureError) (limits : MergeLimits).
Context (append_window : ml_order limits = Append -> merge_window limits = 1).

(** The source can be read to its end and is admitted: its frames, the number of its
    interfaces and that of its other records. *)
Definition source_stream (i : Z) (source : MergeSource) (sm : Stream) : Prop :=
  rd_declares_fcs (ms_reader source) = false /\ exists records r', read_records alloc (ms_turns source) (checks i) (ms_reader source) = (records, Ok tt, r') /\
    pendings (rd_interfaces r') 0 records = Some (sm_frames sm) /\ admitted (source_endianness source) records /\
    sm_interfaces sm = zlen (rd_interfaces r') /\ sm_metadata sm = zlen records - zlen (sm_frames sm).

Definition streams_fit (streams : list Stream) : Prop :=
  zsum sm_interfaces streams <= ml_max_interfaces limits <= usize_max /\
  zsum (fun sm => zlen (sm_frames sm)) streams <= max_frames (ml_streams limits) <= u64_max /\
  zsum (fun sm => captured_pending (sm_frames sm)) streams <= max_bytes (ml_streams limits) <= u64_max.

(** ** Lanes *)

Record Lane : Type := mkLane {
  ln_index : Z;
  ln_origin : MergeSource;
  ln_source : MergeSource;
  ln_state : MergeState;
  ln_records : list CaptureRecord;
  ln_read : list Pending;
  ln_popped : list Pending;
  ln_head : option Pending
}.

Definition lane_weight (ln : Lane) : Z := zlen (source_bytes (rd_inner (ms_reader (ln_source ln)))).

(** What is left to do. *)
Definition lane_load (ln : Lane) : Z := lane_weight ln + zlen (st_window (ln_state ln)) + zlen (option_list (ln_head ln)).

Record lane_live (ln : Lane) : Prop := {
  ll_origin : reader_whole (ms_reader (ln_origin ln)) /\ rd_declares_fcs (ms_reader (ln_origin ln)) = false;
  ll_at : source_at alloc checks (ln_index ln) (ms_reader (ln_origin ln)) (ms_turns (ln_origin ln)) (source_endianness (ln_origin ln))
    (ln_records ln) (ln_read ln) (ln_source ln) (ln_state ln);
  ll_ok : lane_ok limits (ln_popped ln) (ln_read ln) (ln_state ln);
  ll_name : ms_name (ln_source ln) = ms_name (ln_origin ln)
}.

Definition lane_done (ln : Lane) : Prop := st_exhausted (ln_state ln) = true /\ st_window (ln_state ln) = [].

Lemma read_records_frames i fuel : forall r records result r', reader_whole r -> read_records alloc fuel (checks i) r = (records, result, r') ->
  Forall (fun x => forall f, rec_frame x = Some f -> 0 <= captured_length f) records.
Proof using.
  induction fuel as [|fuel IH]; intros r records result r' Hr E; cbn [read_records] in E; [by injection E as <- _ _|].
  destruct (next_record alloc (checks i fuel).1 (checks i fuel).2 r) as [[[x|]|err|] r1] eqn:En; [|by injection E as <- _ _..].
  destruct (next_record_effect _ _ _ _ _ _ Hr En) as (Hr1 & _ & Hpl & _).
  destruct (read_records alloc fuel (checks i) r1) as [[records1 result1] r2] eqn:Er. injection E as <- <- <-. constructor; [|by eapply IH].
  intros f Hf. destruct (Hpl f Hf) as [([Hc _] & _) _]. rewrite Hc. apply zlen_nonneg.
Qed.

Lemma pendings_frames (P : Frame -> Prop) interfaces records : forall n read, Forall (fun x => forall f, rec_frame x = Some f -> P f) records ->
  pendings interfaces n records = Some read -> Forall (fun p => P (pd_frame p)) read.
Proof using.
  induction records as [|x records IH]; intros n read Hf H; cbn [pendings] in H; [by injection H as <-|]. apply Forall_cons_1 in Hf as [Hx Hf].
  destruct (rec_kind x) as [k s l o|m]; [|by eapply IH]. apply bind_Some in H as (f & Ef & H). apply bind_Some in H as (time & _ & H).
  apply bind_Some in H as (d & _ & H). apply bind_Some in H as (more & Hm & [= <-]). constructor; [by apply Hx|]. by eapply IH.
Qed.

(** What a lane has read is the beginning of what its source holds. *)
Lemma stream_read ln sm : lane_live ln -> source_stream (ln_index ln) (ln_origin ln) sm ->
  exists rest, sm_frames sm = ln_read ln ++ rest /\ (st_exhausted (ln_state ln) = true -> rest = []) /\ st_interfaces (ln_state ln) <= sm_interfaces sm /\
    Forall (fun p => 0 <= captured_length (pd_frame p)) (sm_frames sm) /\ numbered (sm_frames sm).
Proof using.
  intros [[Ho _] [Hw Hd Htr Hrd _ Hi He Ha] _ _] (_ & records & r' & ER & Hfr & _ & Hsi & _).
  pose proof (pendings_frames (fun f => 0 <= captured_length f) _ _ _ _ (read_records_frames _ _ _ _ _ _ Ho ER) Hfr) as Hnn.
  assert (numbered (sm_frames sm)) as Hnum by (intros k p Hp; rewrite (pendings_numbers _ _ _ _ Hfr k p Hp); lia).
  destruct (st_exhausted (ln_state ln)).
  - rewrite Htr in ER. injection ER as <- <-. rewrite Hrd in Hfr. injection Hfr as Hfr. exists []. rewrite app_nil_r, Hi, Hsi. split_and!; try done; lia.
  - destruct Htr as (Hf & Hz & Htr). destruct (read_records alloc (ms_turns (ln_source ln)) (checks (ln_index ln)) (ms_reader (ln_source ln))) as [[more result] r2] eqn:Er.
    rewrite (Htr _ _ _ eq_refl) in ER. injection ER as <- -> ->. destruct (read_records_grow _ _ _ _ _ _ _ Hw Er) as (m2 & Ef). rewrite Ef in Hfr.
    apply pendings_prefix in Hfr as (read2 & rest & Hr2 & Hrest & Eall). rewrite (pendings_grow _ _ _ _ _ Hrd) in Hr2. injection Hr2 as <-. exists rest.
    split; [done|]. split; [done|]. split; [|done]. rewrite Hi, Hsi, Ef, zlen_app. pose proof (zlen_nonneg m2). lia.
Qed.

(** A lane whose source has ended holds all of it. *)
Definition lane_stream (ln : Lane) : Stream := mkStream (ln_read ln) (st_interfaces (ln_state ln)) (zlen (ln_records ln) - zlen (ln_read ln)).

Lemma lane_stream_done ln : lane_live ln -> lane_done ln -> source_stream (ln_index ln) (ln_origin ln) (lane_stream ln).
Proof using.
  intros [[_ Hfcs] [Hw Hd Htr Hrd _ Hi He Ha] _ _] [Hex _]. rewrite Hex in Htr. split; [done|]. exists (ln_records ln), (ms_reader (ln_source ln)). by split_and!.
Qed.

(** ** The totals *)

Record ledger (total : Z) (g : Merger) (lanes : list Lane) : Prop := {
  ld_sources : mg_sources g = ln_source <$> lanes;
  ld_states : mg_states g = ln_state <$> lanes;
  ld_live : Forall lane_live lanes;
  ld_index : forall i ln, zget lanes i = Some ln -> ln_index ln = i;
  ld_interfaces : mg_interface_count g = zsum (fun ln => st_interfaces (ln_state ln)) lanes;
  ld_frames : gr_frames (mg_report g) = zsum (fun ln => zlen (ln_read ln)) lanes;
  ld_bytes : gr_captured_bytes (mg_report g) = zsum (fun ln => captured_pending (ln_read ln)) lanes;
  ld_source_frames : gr_source_frames (mg_report g) = (fun ln => zlen (ln_read ln)) <$> lanes;
  ld_metadata : gr_source_metadata_records (mg_report g) = zsum (fun ln => zlen (ln_records ln) - zlen (ln_read ln)) lanes;
  ld_budget : bg_limits (mg_budget g) = ml_streams limits /\ bg_frames (mg_budget g) = gr_frames (mg_report g) /\
    bg_captured_bytes (mg_budget g) = gr_captured_bytes (mg_report g);
  ld_read_bound : zsum (fun ln => lane_weight ln + zlen (ln_read ln)) lanes <= total;
  ld_metadata_bound : gr_source_metadata_records (mg_report g) + zsum lane_weight lanes <= total;
  ld_total : total < u64_max
}.

Definition feed_of (g : Merger) (ln : Lane) : Feed := mkFeed (ln_source ln) (ln_state ln) (mg_interface_count g) (mg_report g) (mg_budget g).

Lemma lane_books total g lanes i ln : ledger total g lanes -> zget lanes i = Some ln -> books i (feed_of g ln) (ln_read ln).
Proof using.
  intros [] Hz. unfold books, feed_of, feed_weight, feed_reader. cbn.
  assert (lane_weight ln + zlen (ln_read ln) <= zsum (fun ln => lane_weight ln + zlen (ln_read ln)) lanes) as H1.
  { apply (zsum_elem (fun ln => lane_weight ln + zlen (ln_read ln)) _ _ _ ltac:(apply Forall_true; intros; unfold lane_weight; pose proof (zlen_nonneg (ln_read x)); pose proof (zlen_nonneg (source_bytes (rd_inner (ms_reader (ln_source x))))); lia) Hz). }
  assert (lane_weight ln <= zsum lane_weight lanes) as H2 by (eapply zsum_elem; [apply Forall_true; intros; apply zlen_nonneg|exact Hz]).
  destruct ld_budget0 as (_ & -> & ->). rewrite ld_source_frames0, zget_fmap, Hz. unfold lane_weight in *. split_and!; try done; lia.
Qed.

(** The sources hold these frames, each in an order the window can repair, and what
    has been taken comes before what has not been read. *)
Definition streams_good (streams : list Stream) (lanes : list Lane) : Prop :=
  streams_fit streams /\
  Forall2 (fun ln sm => source_stream (ln_index ln) (ln_origin ln) sm /\ lane_good limits (sm_frames sm) (ln_popped ln) (ln_read ln)) lanes streams.

Lemma streams_good_feed total g lanes streams i ln sm : ledger total g lanes -> streams_good streams lanes -> zget lanes i = Some ln -> zget streams i = Some sm ->
  source_good alloc checks limits i (ms_reader (ln_origin ln)) (ms_turns (ln_origin ln)) (source_endianness (ln_origin ln)) (sm_frames sm) (others (feed_of g ln)) (mg_budget g) (ln_read ln).
Proof using.
  intros Hl [(Fi & Ff & Fb) Hg] Hz Hs. pose proof (ld_index _ _ _ Hl _ _ Hz) as Ei. pose proof (ld_live _ _ _ Hl) as Hlive.
  destruct (Forall2_zget _ _ _ Hg _ _ Hz) as (sm' & Hs' & Hsm & _). rewrite Hs in Hs'. injection Hs' as <-.
  assert (Forall2 (fun ln sm => lane_live ln /\ exists rest, sm_frames sm = ln_read ln ++ rest /\ st_interfaces (ln_state ln) <= sm_interfaces sm /\
    Forall (fun p => 0 <= captured_length (pd_frame p)) (sm_frames sm)) lanes streams) as Hr.
  { clear -Hg Hlive. induction Hg as [|ln sm lanes streams [Hsm _] _ IH]; constructor; apply Forall_cons_1 in Hlive as [Hl Hlive]; [|by apply IH].
    split; [done|]. destruct (stream_read _ _ Hl Hsm) as (rest & ? & _ & ? & ? & _). by exists rest. }
  destruct (Forall2_zget _ _ _ Hr _ _ Hz) as (sm' & Hs' & _ & rest & Efr & _ & Hnn). rewrite Hs in Hs'. injection Hs' as <-.
  destruct Hsm as (_ & records & r' & ER & Hp & Ha & Hsi & _). rewrite Ei in ER. exists records, r'. split; [done|]. split; [done|]. split; [done|]. split; [done|].
  destruct (ld_budget _ _ _ Hl) as (Bl & Bf & Bb). unfold others, feed_of. cbn. rewrite Bl, Bf, Bb, (ld_interfaces _ _ _ Hl), (ld_frames _ _ _ Hl), (ld_bytes _ _ _ Hl).
  assert (forall f h, (forall ln sm, (exists rest, sm_frames sm = ln_read ln ++ rest /\ st_interfaces (ln_state ln) <= sm_interfaces sm /\
    Forall (fun p => 0 <= captured_length (pd_frame p)) (sm_frames sm)) -> f ln <= h sm) -> zsum f lanes + (h sm - f ln) <= zsum h streams) as Hslack.
  { intros f h Hfh. eapply zsum_slack; [|exact Hz|exact Hs]. eapply Forall2_impl; [exact Hr|]. intros x y [_ Hxy]. by apply Hfh. }
  pose proof (Hslack (fun ln => st_interfaces (ln_state ln)) sm_interfaces) as H1.
  pose proof (Hslack (fun ln => zlen (ln_read ln)) (fun sm => zlen (sm_frames sm))) as H2.
  pose proof (Hslack (fun ln => captured_pending (ln_read ln)) (fun sm => captured_pending (sm_frames sm))) as H3. cbn beta in H1, H2, H3.
  split_and!; try lia.
  - enough (zsum (fun ln => st_interfaces (ln_state ln)) lanes + (sm_interfaces sm - st_interfaces (ln_state ln)) <= zsum sm_interfaces streams) by lia.
    apply H1. by intros ? ? (? & _ & ? & _).
  - enough (zsum (fun ln => zlen (ln_read ln)) lanes + (zlen (sm_frames sm) - zlen (ln_read ln)) <= zsum (fun sm => zlen (sm_frames sm)) streams) by lia.
    apply H2. intros x y (rest' & -> & _). rewrite zlen_app. pose proof (zlen_nonneg rest'). lia.
  - enough (zsum (fun ln => captured_pending (ln_read ln)) lanes + (captured_pending (sm_frames sm) - captured_pending (ln_read ln)) <= zsum (fun sm => captured_pending (sm_frames sm)) streams) by lia.
    apply H3. intros x y (rest' & -> & _ & Hnn'). rewrite captured_pending_app. apply Forall_app in Hnn' as [_ Hnn'].
    assert (0 <= captured_pending rest'); [|lia]. clear -Hnn'. unfold captured_pending, captured_total. induction Hnn'; cbn; lia.
Qed.

(** The lane after its source has given up a frame. *)
Definition lane_after (ln : Lane) (more : list CaptureRecord) (got : list Pending) (next : option Pending) (s : Feed) : Lane :=
  mkLane (ln_index ln) (ln_origin ln) (fd_source s) (fd_state s) (ln_records ln ++ more) (ln_read ln ++ got) (ln_popped ln ++ option_list next) next.

Definition feed_back (g : Merger) (i : Z) (s : Feed) : Merger :=
  mkMerger (zput (mg_sources g) i (fd_source s)) (zput (mg_states g) i (fd_state s)) (fd_interfaces s) (fd_report s) (fd_budget s) (mg_output g).

Lemma ledger_after total g lanes i ln more got next s : ledger total g lanes -> zget lanes i = Some ln ->
  lane_live (lane_after ln more got next s) -> accounts i (feed_of g ln) (ln_read ln) got s ->
  gr_source_metadata_records (fd_report s) = gr_source_metadata_records (mg_report g) + zlen more - zlen got ->
  ledger total (feed_back g i s) (zput lanes i (lane_after ln more got next s)).
Proof using.
  intros Hl Hz Hlive (A1 & A2 & A3 & A4 & A5 & A6 & A7 & A8 & A9 & A10 & A11) Hm.
  unfold feed_of, others, feed_weight, feed_reader in *. cbn in A2, A4, A5, A6, A7, A8, A9, A10, A11.
  destruct Hl as [L1 L2 L3 L4 L5 L6 L7 L8 L9 (L10 & L11 & L12) L13 L14 L15]. pose proof (zget_Some_lt _ _ _ Hz) as Hb.
  split; cbn [feed_back mg_sources mg_states mg_interface_count mg_report mg_budget]; rewrite ?fmap_zput, ?(zsum_zput _ _ _ _ _ Hz); cbn [lane_after ln_source ln_state ln_read ln_records]; unfold lane_weight in *;
    cbn [lane_after ln_source]; rewrite ?zlen_app, ?captured_pending_app.
  - by rewrite L1.
  - by rewrite L2.
  - by apply Forall_zput.
  - intros j ln' Hj. destruct (decide (j = i)) as [->|Hne]; [|rewrite zget_zput_ne in Hj by lia; by apply L4].
    rewrite zget_zput_eq in Hj by done. injection Hj as <-. cbn. by apply L4.
  - lia.
  - lia.
  - lia.
  - rewrite A9, L8. by rewrite zlen_app.
  - lia.
  - split_and!; try done; [by rewrite A6|lia|lia].
  - lia.
  - lia.
  - done.
Qed.

(** Advancing one lane. *)
Definition lane_advanced (total : Z) (g : Merger) (lanes : list Lane) (i : Z) (ln : Lane) (next : option Pending) (g' : Merger) : Prop :=
  exists ln', ledger total g' (zput lanes i ln') /\ ln_index ln' = ln_index ln /\ ln_origin ln' = ln_origin ln /\
    ln_popped ln' = ln_popped ln ++ option_list next /\ ln_head ln' = next /\ (next = None -> lane_done ln') /\
    (forall p, next = Some p -> Forall (fun q => before (ml_order limits) q p) (ln_popped ln) /\ pending_wf p) /\
    lane_load ln' <= lane_weight ln + zlen (st_window (ln_state ln)) /\ mg_output g' = mg_output g /\
    gr_interfaces (mg_report g') = gr_interfaces (mg_report g) /\
    (forall streams, streams_good streams lanes -> streams_good streams (zput lanes i ln')).

Lemma on_feed_advance total g lanes i ln : ledger total g lanes -> zget lanes i = Some ln ->
  match on_feed i (advance alloc checks limits i) g with
  | (Ok next, g') => lane_advanced total g lanes i ln next g'
  | (Err _, g') => (forall streams, ~ streams_good streams lanes) /\ mg_output g' = mg_output g
  | (Panic, _) => False
  end.
Proof using append_window.
  intros Hl Hz. unfold on_feed. rewrite (ld_sources _ _ _ Hl), (ld_states _ _ _ Hl), !zget_fmap, Hz. cbn [fmap option_fmap option_map].
  fold (feed_of g ln). pose proof (Forall_zget _ _ _ _ (ld_live _ _ _ Hl) Hz) as Hlive. pose proof (ld_index _ _ _ Hl _ _ Hz) as Ei.
  destruct Hlive as [Ho Hat Hok Hname]. rewrite Ei in Hat.
  pose proof (advance_spec alloc checks limits i (ms_reader (ln_origin ln)) (ms_turns (ln_origin ln)) (source_endianness (ln_origin ln)) append_window
    (feed_of g ln) (ln_records ln) (ln_read ln) (ln_popped ln) Hat (lane_books _ _ _ _ _ Hl Hz) Hok) as Ha.
  destruct (advance alloc checks limits i (feed_of g ln)) as [[next|err|] s]; [| |done].
  - destruct Ha as (more & got & Hat' & Hacc & Hmeta & Hok' & Hnone & Hwt & Hgood).
    assert (lane_live (lane_after ln more got next s)) as Hlive.
    { split; cbn; [done|by rewrite Ei|done|]. destruct Hacc as (-> & _). done. }
    pose proof (ledger_after total g lanes i ln more got next s Hl Hz Hlive Hacc Hmeta) as Hled. unfold feed_back in Hled.
    rewrite (ld_sources _ _ _ Hl), (ld_states _ _ _ Hl) in Hled. exists (lane_after ln more got next s). split; [exact Hled|]. split; [done|]. split; [done|]. split; [done|]. split; [done|].
    split; [exact Hnone|]. split; [|split; [|split; [done|split]]].
    + intros p ->. cbn [option_list] in Hok'. pose proof (lo_sorted _ _ _ _ Hok') as Hs. split.
      * apply Forall_forall. intros q Hq. eapply StronglySorted_app_1_elem_of; [exact Hs|done|by apply list_elem_of_singleton].
      * pose proof (sa_wf _ _ _ _ _ _ _ _ _ _ Hat') as Hwf. rewrite (lo_perm _ _ _ _ Hok') in Hwf. apply Forall_app in Hwf as [Hwf _]. apply Forall_app in Hwf as [_ Hwf].
        by apply Forall_cons_1 in Hwf as [? _].
    + unfold lane_load, lane_weight. cbn. unfold feed_weight, feed_reader, feed_of in Hwt. cbn in Hwt. lia.
    + destruct Hacc as (_ & _ & E & _). exact E.
    + intros streams Hsg. pose proof Hsg as [Hfit Hg]. split; [done|]. apply zget_Some_lt in Hz as Hb. apply Forall2_zput_l; [done| |lia]. intros sm Hsm.
      destruct (Forall2_zget _ _ _ Hg _ _ Hz) as (sm' & Hs' & Hst & Hlg). rewrite Hsm in Hs'. injection Hs' as <-. cbn. split; [done|].
      apply Hgood; [|done]. by eapply streams_good_feed.
  - split; [|done]. intros streams Hsg. destruct (Forall2_zget _ _ _ (proj2 Hsg) _ _ Hz) as (sm & Hsm & Hst & Hlg). apply (Ha (sm_frames sm)); [|done]. by eapply streams_good_feed.
Qed.
End ledger.
