(* ===== verification/CaptureMergeProofs.v ===== *)
(** * Capture files: merging carries out its specification

    The loop of a merge writes the frames of its sources in the order of
    [merge_sequence], with the operations of [merge_plan]; and the whole pass from its
    start to its end. *)

From stdpp Require Import base tactics option list numbers strings gmap sorting.
From Stdlib Require Import ZArith Lia.
From S2P Require Import Prelude Checksum Ordered Flow Headers HeadersProofs Frame Transform TransformProofs IpRanges IpDelivery.
From S2P Require Import CaptureWire CaptureRead CaptureWrite CaptureStreams CaptureTime CaptureEncode CaptureWriter CaptureReader CaptureBlocks CaptureSafety.
From S2P Require Import CaptureRoundTrip CaptureDecode CaptureRoundTripNg CaptureCopy CaptureRecords CaptureMap CaptureMerge CaptureMergeSource CaptureMergeLanes CaptureMergeOrder.

(** ** Writing one frame *)

(** The writer does not accept these operations. *)
Definition refuses (ops : list writer_op) (w : Writer) : Prop := forall w', run_ops ops w <> (Ok tt, w').

Lemma refuses_app a b c w w1 : run_ops a w = (Ok tt, w1) -> refuses b w1 -> refuses (a ++ b ++ c) w.
Proof.
  intros Ha Hb w' H. rewrite !run_ops_app, (stm_bind_eq _ _ _ _ _ Ha), run_ops_app in H. apply stm_bind_Ok in H as ([] & w2 & H & _). by apply (Hb w2).
Qed.

Lemma pending_frame_wf p id : pending_wf p -> is_u32 id -> frame_wf (with_identity (pd_frame p) (Some id) (fr_direction (pd_frame p))).
Proof.
  intros [(max_size & (Hok & Ho & _ & Ht & Hl)) _] Hid. unfold frame_wf, frame_ok, with_identity in *. cbn. split_and!; try done; try lia. by intros i [= <-].
Qed.

Lemma stm_bind_err {A B} (m : stm Writer A) (k : A -> stm Writer B) w e w' : m w = (Err e, w') -> (m ≫= k) w = (Err e, w').
Proof. intros E. unfold mbind, stm_bind. by rewrite E. Qed.

(** An operation of a plan: an interface, or a frame under one. *)
Definition placed_op (op : writer_op) : Prop :=
  op_wf op /\ match op with OpInterface _ _ => True | OpFrame f => is_Some (fr_interface f) | _ => False end.

Lemma place_frame_placed p id : pending_wf p -> is_u32 id -> placed_op (place_frame p id).
Proof. intros Hp Hid. split; [by apply pending_frame_wf|]. by eexists. Qed.

Section proofs.
Context (alloc : capture_allocator) (checks : Z -> nat -> option CaptureError * option CaptureError) (limits : MergeLimits).
Context (provenance : MergedInterface -> bytes) (append_window : ml_order limits = Append -> merge_window limits = 1).
Context (names : list bytes).

Definition set_output (g : Merger) (interfaces : list MergedInterface) (output : Writer) : Merger :=
  mkMerger (mg_sources g) (mg_states g) (mg_interface_count g)
    (mkMergeReport (gr_frames (mg_report g)) (gr_captured_bytes (mg_report g)) (gr_source_frames (mg_report g)) interfaces (gr_source_metadata_records (mg_report g)))
    (mg_budget g) output.

(** The writer where the plan has it. *)
Record written (w : Writer) (interfaces : list MergedInterface) (acc : Placement) : Prop := {
  wn_wf : writer_wf w;
  wn_count : zlen (writer_interfaces w) = pl_count acc;
  wn_ids : map_Forall (fun _ id => is_u32 id) (pl_mappings acc);
  wn_interfaces : interfaces = pl_interfaces acc;
  wn_ops : Forall placed_op (pl_ops acc)
}.

Lemma output_interface_spec g i p acc source : written (mg_output g) (gr_interfaces (mg_report g)) acc -> pending_wf p ->
  zget (mg_sources g) i = Some source -> default [] (zget names i) = ms_name source ->
  match output_interface provenance i p (pl_mappings acc) g with
  | (Ok (id, mappings), g') => exists ops w, pl_mappings (place provenance names acc (i, p)) = mappings /\
      pl_ops (place provenance names acc (i, p)) = pl_ops acc ++ ops ++ [place_frame p id] /\ run_ops ops (mg_output g) = (Ok tt, w) /\
      g' = set_output g (pl_interfaces (place provenance names acc (i, p))) w /\ is_u32 id /\
      written w (pl_interfaces (place provenance names acc (i, p))) (place provenance names acc (i, p))
  | (Err e, g') => exists ops id w, pl_ops (place provenance names acc (i, p)) = pl_ops acc ++ ops ++ [place_frame p id] /\
      run_ops ops (mg_output g) = (Err e, w) /\ mg_output g' = w
  | (Panic, _) => False
  end.
Proof using.
  intros [Hw Hc Hids Hi Hops] Hp Hs Hn. unfold output_interface, place. cbn [fst snd]. destruct (pl_mappings acc !! (i, pd_global p)) as [id|] eqn:Em.
  - assert (is_u32 id) as Hid by (by apply (Hids _ _ Em)). cbn. exists [], (mg_output g). split_and!; try done.
    + rewrite <- Hi. unfold set_output. by destruct g as [? ? ? [] ? ?].
    + split; try done. cbn. apply Forall_app. split; [done|]. apply Forall_singleton. by apply place_frame_placed.
  - unfold mbind at 1, stm_bind at 1. rewrite Hs. cbn [expect].
    set (mapping := mkMergedInterface i (ms_name source) (pd_section p) (pd_local p) (pd_global p) 0).
    assert (merged_interface names (i, p) 0 = mapping) as Emi by (unfold merged_interface; cbn [fst snd]; by rewrite Hn).
    assert (Forall option_typed [provenance_option provenance mapping]) as Hopt.
    { apply Forall_singleton. unfold option_typed. cbn. unfold u16_max, PCAPNG_OPTION_COMMENT. lia. }
    pose proof (add_description_step (mg_output g) (pd_description p) _ Hw (interface_wf_typed _ (proj2 Hp)) Hopt) as Ha.
    unfold mbind at 1, stm_bind at 1, on_merged at 1, zoom.
    destruct (add_interface_description_with_options (pd_description p) [provenance_option provenance mapping] (mg_output g)) as [[id|e|] w]; [| |done].
    + destruct Ha as (Hstep & Hw' & _ & Hid & Hu & Ei & _). rewrite <- run_one in Hstep. rewrite Hc in Hid. subst id.
      unfold mbind at 1, stm_bind at 1, modify. unfold mret, stm_ret. cbn [pl_mappings pl_ops pl_interfaces].
      exists [OpInterface (pd_description p) [provenance_option provenance mapping]], w. rewrite Emi. split; [done|]. split; [done|]. split; [done|].
      split; [unfold set_output; cbn; rewrite Hi; unfold merged_interface; cbn [fst snd]; by rewrite Hn|].
      assert (is_u32 (pl_count acc)) as Hidu by (unfold is_u32; pose proof (zlen_nonneg (writer_interfaces (mg_output g))); lia). split; [done|].
      split; cbn [pl_count pl_mappings pl_interfaces pl_ops]; [done| |by apply map_Forall_insert_2|done|].
      * rewrite Ei, zlen_app. change (zlen [_]) with 1. lia.
      * apply Forall_app. split; [done|]. constructor; [|apply Forall_singleton; by apply place_frame_placed]. split; [|done]. split; [apply interface_wf_typed, Hp|done].
    + rewrite <- run_one in Ha. exists [OpInterface (pd_description p) [provenance_option provenance mapping]], (pl_count acc), w. rewrite Emi. by split_and!.
Qed.

(** The writer after the frame, or where it gave up. *)
Lemma write_entry_spec g i p acc source w0 : written (mg_output g) (gr_interfaces (mg_report g)) acc -> pending_wf p ->
  zget (mg_sources g) i = Some source -> default [] (zget names i) = ms_name source -> run_ops (pl_ops acc) w0 = (Ok tt, mg_output g) ->
  match ('(id, mappings) ← output_interface provenance i p (pl_mappings acc);
         _ ← on_merged (write_frame (with_identity (pd_frame p) (Some id) (fr_direction (pd_frame p))));
         mret mappings) g with
  | (Ok mappings, g') => exists w, mappings = pl_mappings (place provenance names acc (i, p)) /\
      run_ops (pl_ops (place provenance names acc (i, p))) w0 = (Ok tt, w) /\ g' = set_output g (pl_interfaces (place provenance names acc (i, p))) w /\
      written w (pl_interfaces (place provenance names acc (i, p))) (place provenance names acc (i, p))
  | (Err _, g') => exists e, run_ops (pl_ops (place provenance names acc (i, p))) w0 = (Err e, mg_output g')
  | (Panic, _) => False
  end.
Proof using.
  intros Hwr Hp Hs Hn Hrun. pose proof (output_interface_spec g i p acc source Hwr Hp Hs Hn) as Ho. unfold mbind at 1, stm_bind at 1.
  destruct (output_interface provenance i p (pl_mappings acc) g) as [[[id mappings]|e|] g1]; [| |done].
  - destruct Ho as (ops & w1 & Em & Eo & Hr1 & -> & Hid & Hw1). unfold mbind at 1, stm_bind at 1, on_merged, zoom. cbn [mg_output set_output].
    pose proof (write_frame_step w1 _ id (wn_wf _ _ _ Hw1) (pending_frame_wf _ _ Hp Hid) eq_refl) as Hf. fold (place_frame p id) in *.
    assert (forall result w2, write_frame (with_identity (pd_frame p) (Some id) (fr_direction (pd_frame p))) w1 = (result, w2) ->
      run_ops (pl_ops (place provenance names acc (i, p))) w0 = (result, w2)) as Hall.
    { intros result w2 E2. rewrite Eo, run_ops_app, (stm_bind_eq _ _ _ _ _ Hrun), run_ops_app, (stm_bind_eq _ _ _ _ _ Hr1), run_one. cbn [writer_step place_frame]. done. }
    destruct (write_frame _ w1) as [[[]|e|] w2]; [| |done].
    + destruct Hf as [Hw2 Es]. exists w2. split; [done|]. split; [by apply Hall|]. split; [done|]. destruct Hw1 as [H1 H2 H3 H4 H5]. split; [done| |done|done|done].
      unfold writer_interfaces in *. by rewrite Es.
    + exists e. by apply Hall.
  - destruct Ho as (ops & id & w & Eo & Hr & <-). exists e. by rewrite Eo, run_ops_app, (stm_bind_eq _ _ _ _ _ Hrun), run_ops_app, (stm_bind_err _ _ _ _ _ Hr).
Qed.

(** ** The loop *)

Context (total : Z) (w0 : Writer).
Local Notation order := (ml_order limits).
Local Notation plan := (merge_plan provenance names (zlen (writer_interfaces w0))).
Local Notation ledger := (ledger alloc checks limits total).
Local Notation streams_good := (streams_good alloc checks limits).
Local Notation source_stream := (source_stream alloc checks).

(** A lane offers its next frame unless it is done. *)
Definition lane_headed (ln : Lane) : Prop := match ln_head ln with Some p => pending_wf p | None => lane_done ln end.

Definition lane_tag (ln : Lane) : Z * MergeSource := (ln_index ln, ln_origin ln).

(** These frames have been written. *)
Record merging (g : Merger) (lanes : list Lane) (E : list entry) : Prop := {
  mr_ledger : ledger g lanes;
  mr_headed : Forall lane_headed lanes;
  mr_popped : Forall (fun ln => ln_popped ln = from_source (ln_index ln) E ++ option_list (ln_head ln)) lanes;
  mr_range : forall i p, (i, p) ∈ E -> 0 <= i < zlen lanes;
  mr_sorted : StronglySorted (entry_before order) E;
  mr_before : forall i ln p, zget lanes i = Some ln -> ln_head ln = Some p -> Forall (fun e => entry_before order e (i, p)) E;
  mr_names : names = (fun ln => ms_name (ln_origin ln)) <$> lanes;
  mr_run : run_ops (pl_ops (plan E)) w0 = (Ok tt, mg_output g);
  mr_written : written (mg_output g) (gr_interfaces (mg_report g)) (plan E)
}.

(** The head of this lane comes before those of the others. *)
Definition first_head (lanes : list Lane) (i : Z) (p : Pending) : Prop :=
  exists ln, zget lanes i = Some ln /\ ln_head ln = Some p /\
    forall j ln' q, zget lanes j = Some ln' -> ln_head ln' = Some q -> j <> i -> entry_before order (i, p) (j, q).

Lemma lane_facts g lanes i ln : ledger g lanes -> zget lanes i = Some ln -> lane_live alloc checks limits ln /\ ln_index ln = i.
Proof using. intros Hl Hz. split; [by eapply Forall_zget, Hz; apply Hl|by eapply ld_index]. Qed.

(** The frames of a lane that have not been taken come after its head. *)
Lemma lane_rest ln sm q : lane_live alloc checks limits ln -> lane_headed ln -> source_stream (ln_index ln) (ln_origin ln) sm -> lane_good limits (sm_frames sm) (ln_popped ln) (ln_read ln) ->
  q ∈ sm_frames sm -> q ∈ ln_popped ln \/ exists p, ln_head ln = Some p /\ (p ∈ ln_popped ln -> before order p q).
Proof using.
  intros Hlive Hh Hs [_ Hg] Hq. destruct (stream_read _ _ _ _ _ Hlive Hs) as (rest & Er & Hend & _). pose proof (ll_ok _ _ _ _ Hlive) as Hok.
  rewrite Er in Hq, Hg. rewrite drop_app_length in Hg. apply elem_of_app in Hq as [Hq|Hq].
  - rewrite (lo_perm _ _ _ _ Hok) in Hq. apply elem_of_app in Hq as [Hq|Hq]; [by left|]. right. unfold lane_headed, lane_done in Hh. destruct (ln_head ln) as [p|].
    + exists p. split; [done|]. intros Hp. pose proof (lo_window _ _ _ _ Hok) as Hw. rewrite Forall_forall in Hw. specialize (Hw p Hp). rewrite Forall_forall in Hw. by apply Hw.
    + destruct Hh as [_ Hh]. rewrite Hh in Hq. by apply not_elem_of_nil in Hq.
  - right. unfold lane_headed, lane_done in Hh. destruct (ln_head ln) as [p|].
    + exists p. split; [done|]. intros Hp. rewrite Forall_forall in Hg. specialize (Hg p Hp). rewrite Forall_forall in Hg. by apply Hg.
    + destruct Hh as [Hh _]. rewrite (Hend Hh) in Hq. by apply not_elem_of_nil in Hq.
Qed.

Lemma sorted_snoc g lanes E i p : merging g lanes E -> first_head lanes i p -> StronglySorted (entry_before order) (E ++ [(i, p)]).
Proof using.
  intros Hm (ln & Hz & Hh & _). pose proof (mr_before _ _ _ Hm _ _ _ Hz Hh) as Hb. rewrite Forall_forall in Hb.
  apply StronglySorted_app_2; [|apply Hm|by repeat constructor]. intros e f He ->%list_elem_of_singleton. by apply Hb.
Qed.

Lemma streams_numbered lanes streams : Forall (lane_live alloc checks limits) lanes -> streams_good streams lanes -> Forall (fun sm => numbered (sm_frames sm)) streams.
Proof using.
  intros Hlive [_ Hg]. induction Hg as [|ln sm lanes streams [Hsm _] _ IH]; constructor; apply Forall_cons_1 in Hlive as [Hl Hlive]; [|by apply IH].
  by destruct (stream_read _ _ _ _ _ Hl Hsm) as (rest & _ & _ & _ & _ & ?).
Qed.

(** The frames written and the next one begin what is to be written. *)
Lemma emitted_prefix g lanes E i p streams : merging g lanes E -> first_head lanes i p -> streams_good streams lanes ->
  exists rest, merge_sequence order streams = (E ++ [(i, p)]) ++ rest.
Proof using.
  intros Hm Hfirst Hsg. pose proof Hsg as [_ Hg]. pose proof (mr_ledger _ _ _ Hm) as Hl. pose proof (sorted_snoc _ _ _ _ _ Hm Hfirst) as Hsorted.
  destruct Hfirst as (ln & Hz & Hh & Hmin).
  assert (forall j ln', zget lanes j = Some ln' -> ln_popped ln' = from_source j E ++ option_list (ln_head ln')) as Hpop.
  { intros j ln' Hj. pose proof (Forall_zget _ _ _ _ (mr_popped _ _ _ Hm) Hj) as Hp. cbn in Hp. by rewrite (ld_index _ _ _ _ _ _ Hl _ _ Hj) in Hp. }
  apply sequence_prefix; [eapply streams_numbered, Hsg; apply Hl|done| |].
  - intros j q Hjq. assert (exists ln', zget lanes j = Some ln' /\ q ∈ ln_popped ln') as (ln' & Hj & Hq).
    { apply elem_of_app in Hjq as [Hjq|Hjq%list_elem_of_singleton].
      - destruct (zget_lt_is_Some lanes j) as (ln' & Hj); [by eapply mr_range|]. exists ln'. split; [done|]. rewrite (Hpop _ _ Hj). apply elem_of_app. left. by apply elem_of_from_source.
      - injection Hjq as -> ->. exists ln. split; [done|]. rewrite (Hpop _ _ Hz), Hh. apply elem_of_app. right. by apply list_elem_of_singleton. }
    destruct (Forall2_zget _ _ _ Hg _ _ Hj) as (sm & Hsm & Hst & _). exists sm. split; [done|]. destruct (lane_facts _ _ _ _ Hl Hj) as [Hlive _].
    destruct (stream_read _ _ _ _ _ Hlive Hst) as (rest & -> & _). apply elem_of_app. left. rewrite (lo_perm _ _ _ _ (ll_ok _ _ _ _ Hlive)). apply elem_of_app. by left.
  - intros j q sm Hsm Hq. apply Forall2_flip in Hg. destruct (Forall2_zget _ _ _ Hg _ _ Hsm) as (ln' & Hj & Hst & Hlg).
    destruct (lane_facts _ _ _ _ Hl Hj) as [Hlive Ej]. pose proof (Forall_zget _ _ _ _ (mr_headed _ _ _ Hm) Hj) as Hhead.
    assert (forall r, ln_head ln' = Some r -> (j, r) ∈ E ++ [(i, p)] \/ Forall (fun e => entry_before order e (j, r)) (E ++ [(i, p)])) as Hheads.
    { intros r Hr. destruct (decide (j = i)) as [->|Hne].
      - rewrite Hz in Hj. injection Hj as <-. rewrite Hh in Hr. injection Hr as <-. left. apply elem_of_app. right. by apply list_elem_of_singleton.
      - right. apply Forall_app. split; [by eapply mr_before|]. apply Forall_singleton. by eapply Hmin. }
    destruct (lane_rest _ _ _ Hlive Hhead Hst Hlg Hq) as [Hin|(r & Hr & Hbefore)].
    + rewrite (Hpop _ _ Hj) in Hin. apply elem_of_app in Hin as [Hin|Hin]; [left; apply elem_of_app; left; by apply elem_of_from_source|].
      destruct (ln_head ln') as [r|]; [|by apply not_elem_of_nil in Hin]. apply list_elem_of_singleton in Hin as ->. by apply Hheads.
    + right. specialize (Hbefore ltac:(rewrite (Hpop _ _ Hj), Hr; apply elem_of_app; right; by apply list_elem_of_singleton)).
      pose proof (entry_before_same _ j _ _ Hbefore) as Hjq. destruct (Hheads r Hr) as [Hin|Hall].
      * assert (j = i /\ r = p) as [-> ->].
        { apply elem_of_app in Hin as [Hin|Hin%list_elem_of_singleton]; [|by injection Hin as -> ->]. exfalso.
          pose proof (mr_before _ _ _ Hm _ _ _ Hj Hr) as Hb. rewrite Forall_forall in Hb. by apply (entry_before_irrefl order (j, r)), Hb. }
        apply Forall_app. split; [|by apply Forall_singleton]. eapply Forall_impl; [by eapply mr_before|]. intros e He. by transitivity (i, p).
      * eapply Forall_impl; [exact Hall|]. intros e He. by transitivity (j, r).
Qed.

Lemma ledger_output g lanes interfaces w : ledger g lanes -> ledger (set_output g interfaces w) lanes.
Proof using. by intros []. Qed.

(** A frame has been written and its lane advanced. *)
Lemma emit_advanced g lanes E i p ln next w g' : merging g lanes E -> first_head lanes i p -> zget lanes i = Some ln ->
  run_ops (pl_ops (plan (E ++ [(i, p)]))) w0 = (Ok tt, w) -> written w (pl_interfaces (plan (E ++ [(i, p)]))) (plan (E ++ [(i, p)])) ->
  lane_advanced alloc checks limits total (set_output g (pl_interfaces (plan (E ++ [(i, p)]))) w) lanes i ln next g' ->
  exists lanes', merging g' lanes' (E ++ [(i, p)]) /\ ln_head <$> lanes' = zput (ln_head <$> lanes) i next /\ lane_tag <$> lanes' = lane_tag <$> lanes /\
    zsum lane_load lanes' < zsum lane_load lanes /\ (forall streams, streams_good streams lanes -> streams_good streams lanes').
Proof using.
  intros Hm Hfirst Hz Hrun Hwr (ln' & Hled & Ei & Eo & Ep & Eh & Hdone & Hnext & Hload & Hout & Hint & Hgood).
  pose proof (sorted_snoc _ _ _ _ _ Hm Hfirst) as Hsorted. destruct Hfirst as (ln0 & Hz0 & Hh & Hmin). rewrite Hz in Hz0. injection Hz0 as <-.
  pose proof (zget_Some_lt _ _ _ Hz) as Hb. pose proof (mr_ledger _ _ _ Hm) as Hl. destruct (lane_facts _ _ _ _ Hl Hz) as [_ Eln].
  pose proof (Forall_zget _ _ _ _ (mr_popped _ _ _ Hm) Hz) as Hpop. cbn in Hpop. rewrite Hh in Hpop.
  exists (zput lanes i ln'). rewrite !fmap_zput, Eh. split_and!; [split|done| | |done].
  - done.
  - apply Forall_zput; [apply Hm|]. unfold lane_headed. rewrite Eh. destruct next as [q|]; [by apply Hnext|by apply Hdone].
  - apply Forall_forall. intros x Hx. apply list_elem_of_lookup in Hx as (k & Hk). assert (zget (zput lanes i ln') (Z.of_nat k) = Some x) as Hzx.
    { unfold zget. rewrite (proj2 (Z.leb_le _ _)) by lia. by rewrite Nat2Z.id. }
    rewrite from_source_snoc. cbn [fst snd]. destruct (decide (Z.of_nat k = i)) as [E1|E1].
    + rewrite E1, zget_zput_eq in Hzx by done. injection Hzx as <-. rewrite Ep, Eh, Hpop, Ei, Eln, bool_decide_true by done. done.
    + rewrite zget_zput_ne in Hzx by lia. pose proof (Forall_zget _ _ _ _ (mr_popped _ _ _ Hm) Hzx) as Hpx. cbn in Hpx. destruct (lane_facts _ _ _ _ Hl Hzx) as [_ Ex].
      rewrite bool_decide_false, app_nil_r by lia. done.
  - intros j q Hjq. rewrite zlen_zput. apply elem_of_app in Hjq as [Hjq|Hjq%list_elem_of_singleton]; [by eapply mr_range|]. by injection Hjq as -> _.
  - done.
  - intros j x q Hj Hq. destruct (decide (j = i)) as [->|Hne].
    + rewrite zget_zput_eq in Hj by done. injection Hj as <-. rewrite Eh in Hq. destruct (Hnext q Hq) as [Hbq _]. rewrite Hpop in Hbq. apply Forall_app in Hbq as [_ Hbq].
      apply Forall_cons_1 in Hbq as [Hbq _]. apply (entry_before_same _ i) in Hbq. apply Forall_app. split; [|by apply Forall_singleton].
      eapply Forall_impl; [by eapply mr_before|]. intros e He. by transitivity (i, p).
    + rewrite zget_zput_ne in Hj by lia. apply Forall_app. split; [by eapply mr_before|]. apply Forall_singleton. by eapply Hmin.
  - rewrite fmap_zput, Eo, <- (mr_names _ _ _ Hm). symmetry. apply zput_id. rewrite (mr_names _ _ _ Hm), zget_fmap, Hz. done.
  - by rewrite Hout.
  - by rewrite Hout, Hint.
  - apply zput_id. rewrite zget_fmap, Hz. cbn. unfold lane_tag. by rewrite Ei, Eo.
  - rewrite (zsum_zput _ _ _ _ _ Hz). unfold lane_load in *. rewrite Hh. cbn [option_list] in *. change (zlen (option_list (Some p))) with 1. lia.
Qed.

(** What the loop leaves when it fails. *)
Definition gave_up (w : Writer) : Prop := exists entries result, StronglySorted (entry_before order) entries /\ run_ops (pl_ops (plan entries)) w0 = (result, w).

Definition ended (lanes : list Lane) (g : Merger) : Prop := exists lanes' E, merging g lanes' E /\ Forall (fun ln => ln_head ln = None) lanes' /\ lane_tag <$> lanes' = lane_tag <$> lanes.

Lemma merge_loop_spec fuel : forall g lanes chronological E, merging g lanes E -> heads_ok order chronological (ln_head <$> lanes) ->
  zsum lane_load lanes < Z.of_nat fuel ->
  match merge_loop alloc checks limits provenance fuel (ln_head <$> lanes) chronological (pl_mappings (plan E)) g with
  | (Ok _, g') => ended lanes g'
  | (Err _, g') => gave_up (mg_output g') /\ forall streams, streams_good streams lanes -> refuses (pl_ops (plan (merge_sequence order streams))) w0
  | (Panic, _) => False
  end.
Proof using append_window.
  induction fuel as [|fuel IH]; intros g lanes chronological E Hm Hheads Hfuel; cbn [merge_loop].
  { assert (0 <= zsum lane_load lanes); [|lia]. apply zsum_nonneg. apply Forall_true. intros ln. unfold lane_load, lane_weight.
    pose proof (zlen_nonneg (source_bytes (rd_inner (ms_reader (ln_source ln))))). pose proof (zlen_nonneg (st_window (ln_state ln))). pose proof (zlen_nonneg (option_list (ln_head ln))). lia. }
  destruct (take_next_spec _ _ _ Hheads) as [(chronological' & Et & Hnone)|(i & p & chronological' & Et & Hzp & Hheads' & Hmin)].
  { unfold mbind at 1, stm_bind at 1, lift. rewrite Et. exists lanes, E. split; [done|]. split; [by apply Forall_fmap in Hnone|done]. }
  unfold mbind at 1, stm_bind at 1, lift. rewrite Et. rewrite zget_fmap in Hzp. destruct (zget lanes i) as [ln|] eqn:Hz; [|done]. injection Hzp as Hh.
  assert (first_head lanes i p) as Hfirst.
  { exists ln. split; [done|]. split; [done|]. intros j ln' q Hj Hq. apply Hmin. rewrite zget_fmap, Hj. cbn. by rewrite Hq. }
  pose proof (mr_ledger _ _ _ Hm) as Hl. destruct (lane_facts _ _ _ _ Hl Hz) as [Hlive Eln].
  pose proof (Forall_zget _ _ _ _ (mr_headed _ _ _ Hm) Hz) as Hhd. unfold lane_headed in Hhd. rewrite Hh in Hhd.
  assert (zget (mg_sources g) i = Some (ln_source ln)) as Hsrc by (rewrite (ld_sources _ _ _ _ _ _ Hl), zget_fmap, Hz; done).
  assert (default [] (zget names i) = ms_name (ln_source ln)) as Hname by (rewrite (mr_names _ _ _ Hm), zget_fmap, Hz; cbn; by rewrite (ll_name _ _ _ _ Hlive)).
  pose proof (write_entry_spec g i p (plan E) (ln_source ln) w0 (mr_written _ _ _ Hm) Hhd Hsrc Hname (mr_run _ _ _ Hm)) as Hwe.
  rewrite <- merge_plan_snoc in Hwe. pose proof (sorted_snoc _ _ _ _ _ Hm Hfirst) as Hsorted.
  assert (forall e w, run_ops (pl_ops (plan (E ++ [(i, p)]))) w0 = (Err e, w) -> gave_up w /\ forall streams, streams_good streams lanes -> refuses (pl_ops (plan (merge_sequence order streams))) w0) as Hfail.
  { intros e w Hr. split; [by exists (E ++ [(i, p)]), (Err e)|]. intros streams Hs w' Hok. destruct (emitted_prefix _ _ _ _ _ _ Hm Hfirst Hs) as (rest & Eseq).
    rewrite Eseq in Hok. destruct (merge_plan_prefix provenance names (zlen (writer_interfaces w0)) (E ++ [(i, p)]) rest) as (ops & Eops). rewrite Eops, run_ops_app, (stm_bind_err _ _ _ _ _ Hr) in Hok. done. }
  revert Hwe. unfold mbind, stm_bind. destruct (output_interface provenance i p (pl_mappings (plan E)) g) as [[[id mappings]|e|] g1]; [| |done].
  2: { intros (e' & He). by eapply Hfail. }
  destruct (on_merged _ g1) as [[[]|e|] g2]; [| |done].
  2: { intros (e' & He). by eapply Hfail. }
  unfold mret at 1, stm_ret at 1. intros (w & -> & Hrun & -> & Hwr).
  match goal with |- context [set_output g ?interfaces w] => set (g2 := set_output g interfaces w) end.
  pose proof (on_feed_advance alloc checks limits append_window total g2 lanes i ln (ledger_output _ _ _ _ Hl) Hz) as Ha.
  destruct (on_feed i (advance alloc checks limits i) g2) as [[next|e|] g3]; [| |done].
  2: { destruct Ha as [Hbad Eout]. split; [exists (E ++ [(i, p)]), (Ok tt); by rewrite Eout|]. intros streams Hs. by destruct (Hbad streams). }
  destruct (emit_advanced _ _ _ _ _ _ _ _ _ Hm Hfirst Hz Hrun Hwr Ha) as (lanes' & Hm' & Eheads & Etags & Hless & Hgood).
  pose proof (zget_Some_lt _ _ _ Hz) as Hb. rewrite zput_zput, <- Eheads.
  specialize (IH g3 lanes' (push_head chronological' i next) (E ++ [(i, p)]) Hm').
  rewrite Eheads in IH |- *. specialize (IH ltac:(apply push_head_ok; [by rewrite zlen_fmap|done]) ltac:(lia)).
  destruct (merge_loop _ _ _ _ _ _ _ _ g3) as [[[]|e|] g4]; [| |done].
  - destruct IH as (lanes2 & E2 & H1 & H2 & H3). exists lanes2, E2. split; [done|]. split; [done|]. by rewrite H3.
  - destruct IH as [H1 H2]. split; [done|]. intros streams Hs. by apply H2, Hgood.
Qed.

(** ** The first heads *)

(** A lane from which at most its head has been taken. *)
Definition lane_started (ln : Lane) : Prop := ln_popped ln = option_list (ln_head ln).

Definition started (lanes lanes' : list Lane) (g g' : Merger) : Prop :=
  ledger g' lanes' /\ Forall (fun ln => lane_started ln /\ lane_headed ln) lanes' /\ lane_tag <$> lanes' = lane_tag <$> lanes /\
  zsum lane_load lanes' <= zsum lane_load lanes /\ mg_output g' = mg_output g /\ gr_interfaces (mg_report g') = gr_interfaces (mg_report g) /\
  (forall streams, streams_good streams lanes -> streams_good streams lanes').

Lemma first_heads_spec count : forall i g before_lanes lanes, ledger g (before_lanes ++ lanes) -> zlen before_lanes = i -> length lanes = count ->
  Forall (fun ln => lane_started ln /\ lane_headed ln) before_lanes -> Forall (fun ln => lane_started ln /\ ln_head ln = None) lanes ->
  match first_heads alloc checks limits count i g with
  | (Ok pending, g') => exists after_lanes, started (before_lanes ++ lanes) (before_lanes ++ after_lanes) g g' /\ pending = ln_head <$> after_lanes
  | (Err _, g') => (forall streams, ~ streams_good streams (before_lanes ++ lanes)) /\ mg_output g' = mg_output g
  | (Panic, _) => False
  end.
Proof using append_window.
  induction count as [|count IH]; intros i g first lanes Hl Hi Hc Hf Hr; cbn [first_heads].
  { apply length_zero_iff_nil in Hc as ->. exists []. split; [|done]. rewrite app_nil_r in *. by split_and!. }
  destruct lanes as [|ln lanes]; [done|]. injection Hc as Hc. apply Forall_cons_1 in Hr as [[Hst Hh] Hr].
  assert (zget (first ++ ln :: lanes) i = Some ln) as Hz by (rewrite zget_app, (proj2 (Z.ltb_ge _ _)), zget_cons by lia; replace (i - zlen first) with 0 by lia; done).
  pose proof (on_feed_advance alloc checks limits append_window total g _ i ln Hl Hz) as Ha. unfold mbind, stm_bind.
  destruct (on_feed i (advance alloc checks limits i) g) as [[next|e|] g1]; [|done|done].
  destruct Ha as (ln' & Hled & Ei & Eo & Ep & Eh & Hdone & Hnext & Hload & Hout & Hint & Hgood).
  assert (zput (first ++ ln :: lanes) i ln' = (first ++ [ln']) ++ lanes) as Eput.
  { unfold zput. replace (Z.to_nat i) with (length first + 0)%nat by (unfold zlen in Hi; lia). by rewrite insert_app_r, <- app_assoc. }
  unfold lane_started in Hst. rewrite Hh in Hst. cbn in Hst. rewrite Hst in Ep. cbn in Ep. pose proof (zsum_zput lane_load _ _ _ ln' Hz) as Esum. rewrite Eput in *.
  assert (lane_started ln' /\ lane_headed ln') as Hln.
  { unfold lane_started, lane_headed. rewrite Ep, Eh. split; [done|]. destruct next as [p|]; [by apply Hnext|by apply Hdone]. }
  specialize (IH (i + 1) g1 (first ++ [ln']) lanes Hled ltac:(rewrite zlen_app; change (zlen [ln']) with 1; lia) Hc ltac:(by apply Forall_app; split; [|apply Forall_singleton]) Hr).
  assert (lane_load ln' <= lane_load ln) as Hle by (unfold lane_load at 2; pose proof (zlen_nonneg (option_list (ln_head ln))); lia).
  destruct (first_heads alloc checks limits count (i + 1) g1) as [[pending|e|] g2]; [| |done].
  - destruct IH as (after & (S1 & S2 & S3 & S4 & S5 & S6 & S7) & ->). exists (ln' :: after). rewrite <- (app_assoc first [ln'] after) in S1, S2, S3, S4.
    split; [|cbn; by rewrite Eh]. split_and!; try done.
    + change (first ++ ln' :: after) with (first ++ [ln'] ++ after). rewrite S3, !fmap_app, !fmap_cons, <- app_assoc. cbn. f_equal. f_equal. unfold lane_tag. by rewrite Ei, Eo.
    + change (first ++ ln' :: after) with (first ++ [ln'] ++ after). lia.
    + by rewrite S5, Hout.
    + by rewrite S6, Hint.
    + intros streams Hs. change (first ++ ln' :: after) with (first ++ [ln'] ++ after). rewrite app_assoc. by apply S7, Hgood.
  - destruct IH as [Hbad Eout]. split; [|by rewrite Eout]. intros streams Hs. by apply (Hbad streams), Hgood.
Qed.

(** Nothing has been written yet. *)
Lemma merging_started lanes lanes' g g' : started lanes lanes' g g' -> names = (fun ln => ms_name (ln_origin ln)) <$> lanes' -> writer_wf w0 -> mg_output g = w0 ->
  gr_interfaces (mg_report g) = [] -> merging g' lanes' [].
Proof using.
  intros (S1 & S2 & S3 & S4 & S5 & S6 & S7) Hn Hw Ho Hi. split; try done.
  - eapply Forall_impl; [exact S2|]. by intros ln [_ ?].
  - eapply Forall_impl; [exact S2|]. by intros ln [? _].
  - intros i p H. by apply not_elem_of_nil in H.
  - constructor.
  - cbn. by rewrite S5, Ho.
  - rewrite S5, S6, Ho, Hi. split; done.
Qed.

(** At the end everything has been written. *)
Lemma merging_ended g lanes E : merging g lanes E -> Forall (fun ln => ln_head ln = None) lanes ->
  E = merge_sequence order (lane_stream <$> lanes) /\ Forall2 (fun tag sm => source_stream tag.1 tag.2 sm) (lane_tag <$> lanes) (lane_stream <$> lanes).
Proof using.
  intros Hm Hnone. pose proof (mr_ledger _ _ _ Hm) as Hl.
  assert (Forall (fun ln => lane_live alloc checks limits ln /\ lane_done ln /\ ln_popped ln = from_source (ln_index ln) E) lanes) as Hall.
  { pose proof (ld_live _ _ _ _ _ _ Hl) as H1. pose proof (mr_headed _ _ _ Hm) as H2. pose proof (mr_popped _ _ _ Hm) as H3. rewrite Forall_forall in *. intros ln Hln.
    specialize (H1 ln Hln). specialize (H2 ln Hln). specialize (H3 ln Hln). specialize (Hnone ln Hln). unfold lane_headed in H2. rewrite Hnone in H2, H3. cbn in H3. by rewrite app_nil_r in H3. }
  split.
  - apply sequence_unique; [|apply Hm|].
    + apply Forall_fmap. eapply Forall_impl; [exact Hall|]. intros ln (Hlive & _). cbn. eapply source_at_numbered, Hlive.
    + intros i p. split.
      * intros Hip. destruct (zget_lt_is_Some lanes i) as (ln & Hz); [by eapply mr_range|]. exists (lane_stream ln). rewrite zget_fmap, Hz. split; [done|]. cbn.
        pose proof (Forall_zget _ _ _ _ Hall Hz) as (Hlive & (_ & Hw) & Hp). rewrite (lo_perm _ _ _ _ (ll_ok _ _ _ _ Hlive)), Hw, app_nil_r, Hp, (ld_index _ _ _ _ _ _ Hl _ _ Hz). by apply elem_of_from_source.
      * intros (sm & Hz & Hp). rewrite zget_fmap in Hz. destruct (zget lanes i) as [ln|] eqn:Hln; [|done]. injection Hz as <-. cbn in Hp.
        pose proof (Forall_zget _ _ _ _ Hall Hln) as (Hlive & (_ & Hw) & Hpop). rewrite (lo_perm _ _ _ _ (ll_ok _ _ _ _ Hlive)), Hw, app_nil_r, Hpop, (ld_index _ _ _ _ _ _ Hl _ _ Hln) in Hp. by apply elem_of_from_source.
  - apply Forall2_fmap. apply Forall_Forall2_diag. eapply Forall_impl; [exact Hall|]. intros ln (Hlive & Hdone & _). cbn. by eapply lane_stream_done.
Qed.
End proofs.

(** ** Capture files: a merge from its start to its end

    The state a merge starts from, what it promises ([sources_hold],
    [write_merged], [merge_summary]), and that the whole pass keeps it. *)

(** ** The start *)

Definition source_size (source : MergeSource) : Z := zlen (source_bytes (rd_inner (ms_reader source))).

(** An open capture of which nothing has been read, with a turn for each of its
    records and its end. *)
Definition source_ready (source : MergeSource) : Prop :=
  reader_whole (ms_reader source) /\ rd_finished (ms_reader source) = false /\ source_size source < Z.of_nat (ms_turns source).

Definition initial_state (source : MergeSource) : MergeState :=
  mkMergeState None [] false (zlen (rd_interfaces (ms_reader source))) (source_endianness source).

Definition fresh_lane (tag : Z * MergeSource) : Lane := mkLane tag.1 tag.2 tag.2 (initial_state tag.2) [] [] [] None.

Definition fresh_lanes (sources : list MergeSource) : list Lane := fresh_lane <$> number_from 0 sources.

Lemma zget_number_from {A} (l : list A) i k : zget (number_from i l) k = (fun x => (i + k, x)) <$> zget l k.
Proof.
  revert i k. induction l as [|x l IH]; intros i k; cbn [number_from]; [by rewrite !zget_nil|]. rewrite !zget_cons, IH.
  destruct (Z.eqb_spec k 0) as [->|Hn]; [by rewrite Z.add_0_r|]. by replace (i + 1 + (k - 1)) with (i + k) by lia.
Qed.

Lemma zsum_fresh (f : Lane -> Z) (h : MergeSource -> Z) sources : (forall tag, f (fresh_lane tag) = h tag.2) -> zsum f (fresh_lanes sources) = zsum h sources.
Proof.
  intros Hf. unfold fresh_lanes. generalize 0. induction sources as [|x l IH]; intros i; [done|]. cbn [number_from]. rewrite fmap_cons. cbn [zsum foldr].
  fold (zsum f (fresh_lane <$> number_from (i + 1) l)). fold (zsum h l). by rewrite IH, Hf.
Qed.

Lemma fmap_fresh {A} (f : Lane -> A) (h : MergeSource -> A) sources : (forall tag, f (fresh_lane tag) = h tag.2) -> f <$> fresh_lanes sources = h <$> sources.
Proof.
  intros Hf. unfold fresh_lanes. generalize 0. induction sources as [|x l IH]; intros i; [done|]. cbn [number_from]. rewrite !fmap_cons. by rewrite IH, Hf.
Qed.

Lemma tag_fresh sources : lane_tag <$> fresh_lanes sources = number_from 0 sources.
Proof. unfold fresh_lanes. rewrite <- list_fmap_compose. rewrite <- (list_fmap_id (number_from 0 sources)) at 2. apply list_fmap_ext. by intros i [] _. Qed.

Lemma zsum_zero {A} (l : list A) : zsum (fun _ => 0) l = 0.
Proof. induction l as [|x l IH]; [done|]. cbn. fold (zsum (fun _ : A => 0) l). by rewrite IH. Qed.

Lemma initial_states_spec limits sources : forall index count, 0 <= count ->
  match initial_states limits index sources count with
  | Ok (states, count') => Forall (fun source => rd_declares_fcs (ms_reader source) = false) sources /\ states = initial_state <$> sources /\
      count' = count + zsum (fun source => zlen (rd_interfaces (ms_reader source))) sources
  | Err _ => ~ (Forall (fun source => rd_declares_fcs (ms_reader source) = false) sources /\
      count + zsum (fun source => zlen (rd_interfaces (ms_reader source))) sources <= usize_max)
  | Panic => False
  end.
Proof.
  induction sources as [|x l IH]; intros index count Hc; cbn [initial_states].
  { split; [constructor|]. split; [done|]. cbn. lia. }
  set (h := fun source => zlen (rd_interfaces (ms_reader source))) in *. change (zsum h (x :: l)) with (h x + zsum h l).
  assert (0 <= zsum h l) as Hnn by (apply zsum_nonneg, Forall_true; intros; apply zlen_nonneg). pose proof (zlen_nonneg (rd_interfaces (ms_reader x))) as Hx. fold (h x) in Hx |- *.
  destruct (rd_declares_fcs (ms_reader x)) eqn:Ef; [intros [H _]; apply Forall_cons_1 in H as [H _]; by rewrite Ef in H|].
  unfold checked_add. destruct (Z.leb_spec (count + h x) usize_max) as [Hle|Hgt]; cbn [ok_or mbind outcome_bind]; [|intros [_ H]; lia].
  specialize (IH (index + 1) (count + h x) ltac:(lia)). destruct (initial_states limits (index + 1) l (count + h x)) as [[states count']|e|]; cbn [mbind outcome_bind]; [| |done].
  - destruct IH as (H1 & -> & ->). split; [by constructor|]. split; [done|]. lia.
  - intros [H1 H2]. apply IH. apply Forall_cons_1 in H1 as [_ H1]. split; [done|]. lia.
Qed.

Section theorem.
Context (alloc : capture_allocator) (checks : Z -> nat -> option CaptureError * option CaptureError) (limits : MergeLimits).
Context (provenance : MergedInterface -> bytes).

Lemma fresh_lane_live index source : source_ready source -> rd_declares_fcs (ms_reader source) = false -> lane_live alloc checks limits (fresh_lane (index, source)).
Proof using.
  intros (Hw & Hf & Hz) Hd. split; cbn [fresh_lane ln_origin ln_index ln_records ln_read ln_source ln_state ln_popped fst snd]; [done| | |done].
  - by split.
  - split; cbn; [done|constructor|constructor|done|]. unfold merge_window. change (zlen []) with 0. lia.
Qed.

Definition fresh_merger (sources : list MergeSource) (count : Z) (output : Writer) : Merger :=
  mkMerger sources (initial_state <$> sources) count (mkMergeReport 0 0 (repeat 0 (length sources)) [] 0) (mkBudget (ml_streams limits) 0 0) output.

Lemma fresh_ledger sources output : Forall source_ready sources -> Forall (fun source => rd_declares_fcs (ms_reader source) = false) sources ->
  zsum source_size sources < u64_max ->
  ledger alloc checks limits (zsum source_size sources) (fresh_merger sources (zsum (fun source => zlen (rd_interfaces (ms_reader source))) sources) output) (fresh_lanes sources).
Proof using.
  intros Hr Hd Hu. split; cbn [fresh_merger mg_sources mg_states mg_interface_count mg_report mg_budget gr_frames gr_captured_bytes gr_source_frames gr_source_metadata_records bg_limits bg_frames bg_captured_bytes].
  - symmetry. rewrite (fmap_fresh _ id) by done. apply list_fmap_id.
  - symmetry. by apply fmap_fresh.
  - unfold fresh_lanes. generalize 0. clear Hu. induction Hr as [|x l Hx Hr IH]; intros i; [constructor|]. apply Forall_cons_1 in Hd as [Hdx Hd]. constructor; [by apply fresh_lane_live|]. by apply IH.
  - intros i ln Hz. unfold fresh_lanes in Hz. rewrite zget_fmap, zget_number_from in Hz. destruct (zget sources i); [|done]. by injection Hz as <-.
  - symmetry. by apply zsum_fresh.
  - rewrite (zsum_fresh _ (fun _ => 0)) by done. by rewrite zsum_zero.
  - rewrite (zsum_fresh _ (fun _ => 0)) by done. by rewrite zsum_zero.
  - rewrite (fmap_fresh _ (fun _ => 0)) by done. clear. induction sources as [|x l IH]; [done|]. cbn. by rewrite IH.
  - rewrite (zsum_fresh _ (fun _ => 0)) by done. by rewrite zsum_zero.
  - done.
  - rewrite (zsum_fresh _ source_size); [lia|]. intros tag. change (zlen (ln_read (fresh_lane tag))) with 0. rewrite Z.add_0_r. done.
  - rewrite (zsum_fresh _ source_size) by done. lia.
  - done.
Qed.

(** ** What a merge promises *)

(** The arguments are in order. *)
Definition merge_admits (sources : list MergeSource) (output : Writer) : Prop :=
  MergeLimits_validate limits = Ok tt /\ sources <> [] /\ zlen sources <= ml_max_sources limits /\
  Forall (fun source => zlen (ms_name source) <= MAX_SOURCE_NAME_BYTES) sources /\ Writer_format output = PcapNg.

(** What the sources hold. *)
Definition sources_hold (sources : list MergeSource) (streams : list Stream) : Prop :=
  Forall2 (fun tag sm => source_stream alloc checks tag.1 tag.2 sm) (number_from 0 sources) streams.

(** The limits admit it, and the window repairs its order. *)
Definition streams_admitted (streams : list Stream) : Prop :=
  streams_fit limits streams /\ Forall (fun sm => orderly (ml_order limits) (merge_window limits) (sm_frames sm)) streams.

Definition merged_plan (sources : list MergeSource) (output : Writer) (entries : list entry) : Placement :=
  merge_plan provenance (ms_name <$> sources) (zlen (writer_interfaces output)) entries.

(** Writing everything in order. *)
Definition write_merged (sources : list MergeSource) (flushed : option IoError) (streams : list Stream) : stm Writer unit := fun output =>
  (_ ← run_ops (pl_ops (merged_plan sources output (merge_sequence (ml_order limits) streams))); Writer_flush flushed) output.

Definition merge_summary (streams : list Stream) (placement : Placement) : MergeReport :=
  mkMergeReport (zsum (fun sm => zlen (sm_frames sm)) streams) (zsum (fun sm => captured_pending (sm_frames sm)) streams)
    ((fun sm => zlen (sm_frames sm)) <$> streams) (pl_interfaces placement) (zsum sm_metadata streams).

Lemma zsum_fmap {A B} (f : B -> Z) (h : A -> B) l : zsum f (h <$> l) = zsum (fun x => f (h x)) l.
Proof using. induction l as [|x l IH]; [done|]. cbn. fold (zsum f (h <$> l)). fold (zsum (fun x => f (h x)) l). by rewrite IH. Qed.

Lemma MergeLimits_validate_append : MergeLimits_validate limits = Ok tt -> ml_order limits = Append -> merge_window limits = 1.
Proof using.
  intros H E. unfold MergeLimits_validate in H. inv_ok H. destruct (negb _); [done|]. destruct (_ <? _); [done|]. rewrite E in H. rewrite bool_decide_true in H by done. cbn in H.
  destruct (Z.ltb_spec 0 (ml_max_reorder_frames limits)); [done|]. unfold merge_window. lia.
Qed.

Lemma merge_summary_ended total g lanes streams placement : ledger alloc checks limits total g lanes -> streams = lane_stream <$> lanes ->
  gr_interfaces (mg_report g) = pl_interfaces placement -> mg_report g = merge_summary streams placement.
Proof using.
  intros [_ _ _ _ _ L6 L7 L8 L9 _ _ _ _] -> Hi. unfold merge_summary. rewrite !zsum_fmap, <- list_fmap_compose. destruct (mg_report g) as [a b c d e]. cbn in *. by rewrite L6, L7, L8, L9, Hi.
Qed.

(** The frames have been taken from the sources and written. *)
Definition merge_body (fuel : nat) (sources : list MergeSource) (flushed : option IoError) : stm Merger (MergeReport * list MergeSource) :=
  pending ← first_heads alloc checks limits (length sources) 0;
  _ ← merge_loop alloc checks limits provenance fuel pending (if bool_decide (ml_order limits = Chronological) then Some (chronological_heads 0 pending) else None) ∅;
  _ ← on_merged (Writer_flush flushed);
  gets (fun g => (mg_report g, mg_sources g)).

Lemma fresh_good sources streams : sources_hold sources streams -> streams_admitted streams -> streams_good alloc checks limits streams (fresh_lanes sources).
Proof using.
  intros Hh [Hf Ho]. split; [done|]. unfold sources_hold, fresh_lanes in *. apply Forall2_fmap_l. clear Hf.
  induction Hh as [|tag sm tags streams Hs _ IH]; constructor; apply Forall_cons_1 in Ho as [Hsm Ho]; [|by apply IH]. split; [done|]. cbn. split; [done|constructor].
Qed.

Lemma source_stream_unique i source sm sm' : source_stream alloc checks i source sm -> source_stream alloc checks i source sm' -> sm = sm'.
Proof using.
  intros (_ & records & r & E & Hp & _ & Hi & Hm) (_ & records' & r' & E' & Hp' & _ & Hi' & Hm'). rewrite E in E'. injection E' as <- <-.
  destruct sm as [f n k], sm' as [f' n' k']. cbn in *. rewrite Hp in Hp'. injection Hp' as <-. by subst.
Qed.

Lemma sources_hold_unique sources streams streams' : sources_hold sources streams -> sources_hold sources streams' -> streams = streams'.
Proof using.
  unfold sources_hold. generalize (number_from 0 sources). intros tags H. revert streams'. induction H as [|tag sm tags streams Hs _ IH]; intros streams' H'.
  - by apply Forall2_nil_inv_l in H'.
  - apply Forall2_cons_inv_l in H' as (sm' & streams2 & Hs' & H' & ->). f_equal; [by eapply source_stream_unique|by apply IH].
Qed.

Lemma Writer_flush_same flushed w : exists result, Writer_flush flushed w = (result, w) /\ result <> Panic.
Proof using. unfold Writer_flush, mbind, stm_bind, lift, ensure_output_available. destruct (wr_output_failure w); [by eexists|]. destruct flushed; by eexists. Qed.

Lemma merge_body_spec fuel sources flushed output : MergeLimits_validate limits = Ok tt -> Forall source_ready sources -> Forall (fun source => rd_declares_fcs (ms_reader source) = false) sources ->
  zsum source_size sources < u64_max -> zsum source_size sources < Z.of_nat fuel -> writer_wf output ->
  match merge_body fuel sources flushed (fresh_merger sources (zsum (fun source => zlen (rd_interfaces (ms_reader source))) sources) output) with
  | (Ok (report, _), g) => exists streams, sources_hold sources streams /\ write_merged sources flushed streams output = (Ok tt, mg_output g) /\
      report = merge_summary streams (merged_plan sources output (merge_sequence (ml_order limits) streams)) /\
      Forall placed_op (pl_ops (merged_plan sources output (merge_sequence (ml_order limits) streams)))
  | (Err _, g) => gave_up limits provenance (ms_name <$> sources) output (mg_output g) /\
      forall streams w', sources_hold sources streams -> streams_admitted streams -> write_merged sources flushed streams output <> (Ok tt, w')
  | (Panic, _) => False
  end.
Proof using.
  intros Hv Hr Hd Hu Hfuel Hw. pose proof (MergeLimits_validate_append Hv) as Happ. set (g0 := fresh_merger _ _ output). set (lanes := fresh_lanes sources).
  assert (ledger alloc checks limits (zsum source_size sources) g0 ([] ++ lanes)) as Hl by (by apply fresh_ledger).
  assert (length lanes = length sources) as Hlen by (unfold lanes; rewrite <- (length_fmap lane_tag), tag_fresh, <- (length_fmap snd), fst_number_from; done).
  assert (Forall (fun ln => lane_started ln /\ ln_head ln = None) lanes) as Hst by (apply Forall_fmap, Forall_true; done).
  pose proof (first_heads_spec alloc checks limits Happ (zsum source_size sources) (length sources) 0 g0 [] lanes Hl eq_refl Hlen (Forall_nil_2 _) Hst) as Hfirst.
  unfold merge_body, mbind, stm_bind. destruct (first_heads alloc checks limits (length sources) 0 g0) as [[pending|e|] g1]; [| |done].
  2: { destruct Hfirst as [Hbad Eout]. split; [exists [], (Ok tt); split; [constructor|by rewrite Eout]|]. intros streams w' Hh Ha. by destruct (Hbad streams (fresh_good _ _ Hh Ha)). }
  destruct Hfirst as (lanes1 & Hstarted & ->). cbn [app] in Hstarted. pose proof Hstarted as (_ & _ & Etag & Hload & _ & _ & Hgood).
  assert (ms_name <$> sources = (fun ln => ms_name (ln_origin ln)) <$> lanes1) as Hnames.
  { apply (f_equal (fmap (fun tag : Z * MergeSource => ms_name tag.2))) in Etag. rewrite <- !list_fmap_compose in Etag. unfold lanes in Etag.
    symmetry. etrans; [exact Etag|]. by apply fmap_fresh. }
  pose proof (merging_started alloc checks limits provenance (ms_name <$> sources) _ output lanes lanes1 g0 g1 Hstarted Hnames Hw eq_refl eq_refl) as Hm.
  assert (zsum lane_load lanes = zsum source_size sources) as Eload.
  { apply zsum_fresh. intros tag. unfold lane_load. cbn. change (zlen []) with 0. unfold source_size, lane_weight. cbn. lia. }
  set (heads := if bool_decide _ then _ else _).
  assert (heads_ok (ml_order limits) heads (ln_head <$> lanes1)) as Hheads by (unfold heads, heads_ok; destruct (ml_order limits); [by eexists|done]).
  pose proof (merge_loop_spec alloc checks limits provenance Happ (ms_name <$> sources) _ output fuel g1 lanes1 heads [] Hm Hheads ltac:(lia)) as Hloop.
  cbn [merge_plan foldl pl_mappings] in Hloop. destruct (merge_loop alloc checks limits provenance fuel _ heads ∅ g1) as [[[]|e|] g2]; [| |done].
  2: { destruct Hloop as [Hgave Hbad]. split; [done|]. intros streams w' Hh Ha Hrun. unfold write_merged in Hrun. apply stm_bind_Ok in Hrun as ([] & w1 & Hrun & _).
       by apply (Hbad streams (Hgood _ (fresh_good _ _ Hh Ha)) w1). }
  destruct Hloop as (lanes2 & E & Hm2 & Hnone & Etag2). destruct (merging_ended _ _ _ _ _ _ _ _ _ _ Hm2 Hnone) as [-> Hall].
  rewrite Etag2, Etag in Hall. unfold lanes in Hall. rewrite tag_fresh in Hall. pose proof (mr_run _ _ _ _ _ _ _ _ _ _ Hm2) as Hrun.
  destruct (Writer_flush_same flushed (mg_output g2)) as (result & Hflush & Hsafe).
  assert (forall streams, sources_hold sources streams -> write_merged sources flushed streams output = (result, mg_output g2)) as Hwrite.
  { intros streams Hh. rewrite (sources_hold_unique _ _ _ Hh Hall). unfold write_merged. by rewrite (stm_bind_eq _ _ _ _ _ Hrun). }
  unfold on_merged, zoom. rewrite Hflush. destruct result as [[]|e|]; [| |done]; cbn.
  - exists (lane_stream <$> lanes2). split; [exact Hall|]. split; [by apply Hwrite|]. destruct (mr_written _ _ _ _ _ _ _ _ _ _ Hm2) as [_ _ _ Hint Hops]. split; [|exact Hops]. eapply merge_summary_ended; [apply Hm2|done|exact Hint].
  - split; [exists (merge_sequence (ml_order limits) (lane_stream <$> lanes2)), (Ok tt); split; [apply Hm2|exact Hrun]|]. intros streams w' Hh _ Hc. by rewrite (Hwrite _ Hh) in Hc.
Qed.

Lemma sources_hold_start sources streams : Forall source_ready sources -> sources_hold sources streams ->
  Forall (fun source => rd_declares_fcs (ms_reader source) = false) sources /\
  zsum (fun source => zlen (rd_interfaces (ms_reader source))) sources <= zsum sm_interfaces streams.
Proof using limits.
  unfold sources_hold. generalize 0 as i. intros i Hr. revert i streams. induction Hr as [|x l Hx _ IH]; intros i streams H; cbn [number_from] in H.
  - apply Forall2_nil_inv_l in H as ->. by split.
  - apply Forall2_cons_inv_l in H as (sm & streams2 & Hs & H & ->). destruct (IH _ _ H) as [H1 H2]. cbn [fst snd] in Hs. pose proof Hs as [Hd _]. split; [by constructor|].
    destruct (stream_read _ _ limits _ _ (fresh_lane_live i x Hx Hd) Hs) as (_ & _ & _ & Hi & _). cbn in Hi |- *. fold (zsum sm_interfaces streams2).
    fold (zsum (fun source => zlen (rd_interfaces (ms_reader source))) l). lia.
Qed.

Lemma existsb_names sources : Forall (fun source => zlen (ms_name source) <= MAX_SOURCE_NAME_BYTES) sources ->
  existsb (fun source => MAX_SOURCE_NAME_BYTES <? zlen (ms_name source)) sources = false.
Proof using. induction 1 as [|x l Hx _ IH]; [done|]. cbn [existsb]. rewrite IH, (proj2 (Z.ltb_ge _ _)) by done. done. Qed.

Lemma merge_spec fuel sources flushed output : Forall source_ready sources -> zsum source_size sources < u64_max -> zsum source_size sources < Z.of_nat fuel -> writer_wf output ->
  match merge alloc checks limits provenance fuel sources flushed output with
  | (Ok (report, _), w) => exists streams, sources_hold sources streams /\ write_merged sources flushed streams output = (Ok tt, w) /\
      report = merge_summary streams (merged_plan sources output (merge_sequence (ml_order limits) streams)) /\
      Forall placed_op (pl_ops (merged_plan sources output (merge_sequence (ml_order limits) streams)))
  | (Err _, w) => gave_up limits provenance (ms_name <$> sources) output w /\
      (merge_admits sources output -> forall streams w', sources_hold sources streams -> streams_admitted streams -> write_merged sources flushed streams output <> (Ok tt, w'))
  | (Panic, _) => False
  end.
Proof using.
  intros Hr Hu Hfuel Hw. assert (gave_up limits provenance (ms_name <$> sources) output output) as Hgave by (exists [], (Ok tt); by split; [constructor|]).
  unfold merge. destruct (MergeLimits_validate limits) as [[]|e|] eqn:Hv.
  2: { split; [done|]. intros [Hc _]. by rewrite Hv in Hc. }
  2: { unfold MergeLimits_validate, StreamLimits_validate, mbind, outcome_bind in Hv. repeat case_match; done. }
  assert (Budget_new (ml_streams limits) = Ok (mkBudget (ml_streams limits) 0 0)) as ->.
  { unfold MergeLimits_validate in Hv. inv_ok Hv. unfold Budget_new. by destruct (StreamLimits_validate (ml_streams limits)) as [[]|?|]. }
  destruct (is_empty sources || _ || _) eqn:Eb.
  { split; [done|]. intros (_ & Hne & Hmax & Hnames & _). rewrite (existsb_names _ Hnames), (proj2 (Z.ltb_ge _ _)) in Eb by done. destruct sources; done. }
  destruct (negb _) eqn:Efmt.
  { split; [done|]. intros (_ & _ & _ & _ & Hf). by rewrite bool_decide_true in Efmt. }
  pose proof (initial_states_spec limits sources 0 0 ltac:(lia)) as Hi. destruct (initial_states limits 0 sources 0) as [[states count]|e|]; [| |done].
  2: { split; [done|]. intros _ streams w' Hh ((Hf & _) & _). destruct Hi. destruct (sources_hold_start _ _ Hr Hh). split; [done|]. lia. }
  destruct Hi as (Hd & -> & ->). rewrite Z.add_0_l. destruct (Z.ltb_spec (ml_max_interfaces limits) (zsum (fun source => zlen (rd_interfaces (ms_reader source))) sources)).
  { split; [done|]. intros _ streams w' Hh ((Hf & _) & _). destruct (sources_hold_start _ _ Hr Hh). lia. }
  pose proof (merge_body_spec fuel sources flushed output Hv Hr Hd Hu Hfuel Hw) as Hbody.
  match goal with |- context [?f (mkMerger sources ?s ?c ?r ?b output)] =>
    change (f (mkMerger sources s c r b output)) with (merge_body fuel sources flushed (fresh_merger sources c output)) end.
  destruct (merge_body _ _ _ _) as [[[report sources']|e|] g]; [done| |done]. destruct Hbody as [H1 H2]. split; [done|]. intros _. exact H2.
Qed.
End theorem.
