(* ===== verification/CaptureMergeTheorems.v ===== *)
(** * Capture files: a merge is exact, and reads back

    A merge is reading all sources, sorting their frames and writing them; read
    again, the result gives those frames in that order, each under an interface
    like the one it had.  Two captures are merged as an example. *)

From stdpp Require Import base tactics option list numbers strings gmap sorting.
From Stdlib Require Import ZArith Lia.
From S2P Require Import Prelude Checksum Ordered Flow Headers HeadersProofs Frame Transform TransformProofs IpRanges IpDelivery.
From S2P Require Import CaptureWire CaptureRead CaptureWrite CaptureStreams CaptureTime CaptureEncode CaptureWriter CaptureReader CaptureBlocks CaptureSafety.
From S2P Require Import CaptureRoundTrip CaptureDecode CaptureRoundTripNg CaptureCopy CaptureRecords CaptureMap CaptureMerge CaptureMergeSource CaptureMergeLanes CaptureMergeOrder CaptureMergeProofs.

(** ** What a merge does *)

(** C18: A merge writes all frames of all its sources in order.  For sources that
    have been opened, with the limits and options given, the merge never panics.
    When it succeeds, every source was read to its end, and the output is the
    writer after exactly these operations, and flushed: the frames of all sources
    sorted by time, then source, then position (or by source and position when
    appending), each under an output interface of its own source interface, which
    is described, with its provenance, right before its first frame; and the
    report counts the frames, bytes and other records and lists the interfaces.
    When it fails, the output holds what writing some such frames in order leaves.
    And it does succeed when the arguments are in order, every source can be read
    to its end and is admitted, the limits admit all of it, no frame is overtaken
    by as many frames of its source as the window holds, and the writer accepts
    the operations. *)
Theorem merge_exact (alloc : capture_allocator) (checks : Z -> nat -> option CaptureError * option CaptureError) (limits : MergeLimits)
  (provenance : MergedInterface -> bytes) (fuel : nat) (sources : list MergeSource) (flushed : option IoError) (output : Writer) :
  Forall source_ready sources -> zsum source_size sources < u64_max -> zsum source_size sources < Z.of_nat fuel -> writer_wf output ->
  match merge alloc checks limits provenance fuel sources flushed output with
  | (Ok (report, _), w) => exists streams, sources_hold alloc checks sources streams /\
      write_merged limits provenance sources flushed streams output = (Ok tt, w) /\
      report = merge_summary streams (merged_plan provenance sources output (merge_sequence (ml_order limits) streams))
  | (Err _, w) => exists entries result, StronglySorted (entry_before (ml_order limits)) entries /\
      run_ops (pl_ops (merged_plan provenance sources output entries)) output = (result, w)
  | (Panic, _) => False
  end /\
  (forall streams w', merge_admits limits sources output -> sources_hold alloc checks sources streams -> streams_admitted limits streams ->
    write_merged limits provenance sources flushed streams output = (Ok tt, w') ->
    exists report sources', merge alloc checks limits provenance fuel sources flushed output = (Ok (report, sources'), w')).
Proof.
  intros Hr Hu Hf Hw. pose proof (merge_spec alloc checks limits provenance fuel sources flushed output Hr Hu Hf Hw) as H.
  destruct (merge alloc checks limits provenance fuel sources flushed output) as [[[report sources']|e|] w]; [| |done]; split.
  - destruct H as (streams & H1 & H2 & H3 & _). by exists streams.
  - intros streams w' _ Hh _ Hwrite. destruct H as (streams2 & Hh2 & Hw2 & _). rewrite (sources_hold_unique _ _ _ _ _ Hh Hh2), Hw2 in Hwrite. injection Hwrite as <-. by exists report, sources'.
  - apply H.
  - intros streams w' Ha Hh Hs Hwrite. destruct H as [_ H]. by destruct (H Ha streams w' Hh Hs).
Qed.

(** ** The interfaces of a plan *)

Definition op_descriptions (ops : list writer_op) : list Interface := omap (fun op => match op with OpInterface d _ => Some d | _ => None end) ops.

Lemma op_descriptions_app a b : op_descriptions (a ++ b) = op_descriptions a ++ op_descriptions b.
Proof. apply omap_app. Qed.

Lemma run_placed_ops ops : forall w w', Forall placed_op ops -> writer_wf w -> (exists e, wr_state w = WriterPcapNg e (writer_interfaces w)) -> run_ops ops w = (Ok tt, w') ->
  writer_interfaces w' = writer_interfaces w ++ op_descriptions ops /\ exists e, wr_state w' = WriterPcapNg e (writer_interfaces w').
Proof.
  induction ops as [|op ops IH]; intros w w' Hops Hw Hng Hrun; cbn [run_ops] in Hrun; [injection Hrun as <-; by rewrite app_nil_r|].
  apply Forall_cons_1 in Hops as [[Hwf Hop] Hops]. apply stm_bind_Ok in Hrun as ([] & w1 & Hs & Hrun). destruct op as [link|d options|f|flushed]; try done.
  - destruct Hwf as [Hd Ho]. pose proof (add_description_step w d options Hw Hd Ho) as H. destruct (add_interface_description_with_options d options w) as [[id|?|] w2]; [| |done].
    + destruct H as (Hs' & Hw' & _ & _ & _ & Ei & Hng'). rewrite Hs in Hs'. injection Hs' as <-. destruct (IH _ _ Hops Hw' Hng' Hrun) as [-> Hng2]. split; [|done]. by rewrite Ei, <- app_assoc.
    + by rewrite Hs in H.
  - destruct Hop as (id & Hid). pose proof (write_frame_step w f id Hw Hwf Hid) as H. cbn [writer_step] in Hs. rewrite Hs in H. destruct H as [Hw' Es].
    assert (writer_interfaces w1 = writer_interfaces w) as Ei by (unfold writer_interfaces; by rewrite Es). rewrite <- Ei. apply IH; [done|done| |done]. by rewrite Es, Ei.
Qed.

(** Frames of one interface have one description. *)
Definition described_alike (entries : list entry) : Prop :=
  forall e f, e ∈ entries -> f ∈ entries -> e.1 = f.1 -> pd_global e.2 = pd_global f.2 -> pd_description e.2 = pd_description f.2.

(** A frame of the plan, under an interface with the description of its own. *)
Definition placed_as (count : Z) (descriptions : list Interface) (e : entry) (f : Frame) : Prop :=
  exists id, f = with_identity (pd_frame e.2) (Some id) (fr_direction (pd_frame e.2)) /\ count <= id /\ zget descriptions (id - count) = Some (pd_description e.2).

Lemma placed_as_more count a b e f : placed_as count a e f -> placed_as count (a ++ b) e f.
Proof.
  intros (id & -> & Hc & Hz). exists id. split; [done|]. split; [done|]. apply zget_Some_lt in Hz as Hb. rewrite zget_app, (proj2 (Z.ltb_lt _ _)) by lia. done.
Qed.

Record plan_places (count : Z) (acc : Placement) (entries : list entry) : Prop := {
  pp_count : pl_count acc = count + zlen (op_descriptions (pl_ops acc));
  pp_mapped : forall k id, pl_mappings acc !! k = Some id -> exists e, e ∈ entries /\ k = (e.1, pd_global e.2) /\ count <= id /\
    zget (op_descriptions (pl_ops acc)) (id - count) = Some (pd_description e.2);
  pp_frames : Forall2 (placed_as count (op_descriptions (pl_ops acc))) entries (op_frames (pl_ops acc))
}.

Lemma merge_plan_places provenance names count entries : described_alike entries -> plan_places count (merge_plan provenance names count entries) entries.
Proof.
  induction entries as [|e entries IH] using rev_ind; intros Hd.
  { split; [cbn; change (zlen []) with 0; lia|intros k id H; cbn in H; by rewrite lookup_empty in H|constructor]. }
  rewrite merge_plan_snoc. destruct IH as [Pc Pm Pf]; [intros x y Hx Hy; apply Hd; apply elem_of_app; by left|].
  set (acc := merge_plan provenance names count entries) in *. unfold place. destruct (pl_mappings acc !! (e.1, pd_global e.2)) as [id|] eqn:Em.
  - destruct (Pm _ _ Em) as (e' & He' & [= E1 E2] & Hc & Hz). split; cbn [pl_count pl_ops pl_mappings]; rewrite op_descriptions_app; cbn [op_descriptions omap list_omap place_frame]; rewrite app_nil_r.
    + done.
    + intros k id' Hk. destruct (Pm _ _ Hk) as (x & Hx & Hrest). exists x. split; [apply elem_of_app; by left|done].
    + rewrite op_frames_app. apply Forall2_app; [done|]. constructor; [|constructor]. exists id. split; [done|]. split; [done|]. rewrite Hz. f_equal.
      apply Hd; [apply elem_of_app; by left|apply elem_of_app; right; by apply list_elem_of_singleton|done|done].
  - pose proof (zlen_nonneg (op_descriptions (pl_ops acc))) as Hnn.
    split; cbn [pl_count pl_ops pl_mappings]; rewrite op_descriptions_app; cbn [op_descriptions omap list_omap place_frame].
    + rewrite zlen_app. change (zlen [_]) with 1. lia.
    + intros k id' Hk. rewrite lookup_insert_Some in Hk. destruct Hk as [[<- <-]|[_ Hk]].
      * exists e. split; [apply elem_of_app; right; by apply list_elem_of_singleton|]. split; [done|]. split; [lia|]. rewrite Pc, zget_app, (proj2 (Z.ltb_ge _ _)) by lia.
        replace (count + _ - count - _) with 0 by lia. done.
      * destruct (Pm _ _ Hk) as (x & Hx & -> & Hc & Hz). exists x. split; [apply elem_of_app; by left|]. split; [done|]. split; [done|].
        apply zget_Some_lt in Hz as Hb. rewrite zget_app, (proj2 (Z.ltb_lt _ _)) by lia. done.
    + rewrite op_frames_app. apply Forall2_app; [eapply Forall2_impl; [exact Pf|]; intros ? ?; apply placed_as_more|]. constructor; [|constructor].
      exists (pl_count acc). split; [done|]. split; [lia|]. rewrite Pc, zget_app, (proj2 (Z.ltb_ge _ _)) by lia. replace (count + _ - count - _) with 0 by lia. done.
Qed.

Lemma pendings_described interfaces records : forall n read, pendings interfaces n records = Some read ->
  Forall (fun p => zget interfaces (pd_global p) = Some (pd_description p)) read.
Proof.
  induction records as [|x records IH]; intros n read H; cbn [pendings] in H; [by injection H as <-|].
  destruct (rec_kind x) as [k s l o|m]; [|by eapply IH]. apply bind_Some in H as (f & _ & H). apply bind_Some in H as (time & _ & H).
  apply bind_Some in H as (d & Hd & H). apply bind_Some in H as (more & Hm & [= <-]). constructor; [done|]. by eapply IH.
Qed.

Lemma sequence_described alloc checks order sources streams : sources_hold alloc checks sources streams -> described_alike (merge_sequence order streams).
Proof.
  intros Hh [i p] [j q] Hp Hq E1 E2. cbn in E1, E2 |- *. subst j. apply elem_of_sequence in Hp as (sm & Hz & Hp), Hq as (sm' & Hz' & Hq). rewrite Hz in Hz'. injection Hz' as <-.
  unfold sources_hold in Hh. apply Forall2_flip in Hh. destruct (Forall2_zget _ _ _ Hh _ _ Hz) as (tag & _ & _ & records & r' & _ & Hpend & _).
  apply pendings_described in Hpend. rewrite Forall_forall in Hpend. pose proof (Hpend p Hp) as H1. pose proof (Hpend q Hq) as H2. cbn in H1, H2. rewrite E2 in H1. congruence.
Qed.

(** ** Reading a merged capture *)

(** The frame read is the one merged, under an interface as its own. *)
Definition merged_back (interfaces : list Interface) (e : entry) (f : Frame) : Prop :=
  exists id, f = with_identity (pd_frame e.2) (Some id) (fr_direction (pd_frame e.2)) /\ zget interfaces id = Some (pd_description e.2).

Lemma placed_read_back interfaces e f g : placed_as 0 interfaces e f -> read_back interfaces f g -> merged_back interfaces e g.
Proof.
  intros (id & -> & _ & Hz) (id' & i & -> & _ & _ & Hown). rewrite (Hown id eq_refl). rewrite Z.sub_0_r in Hz. by exists id.
Qed.

(** C19: A merged capture reads back.  When a merge into a new block capture
    succeeds, over an output that takes the bytes in any pieces, a reader whose
    limits admit the result opens it and returns exactly the frames of all sources,
    in the order of the merge, with their bytes, lengths, times and directions,
    each under an interface described as its own was, and then the end. *)
Theorem merged_capture_reads_back (alloc : capture_allocator) (checks : Z -> nat -> option CaptureError * option CaptureError) (limits : MergeLimits)
  (provenance : MergedInterface -> bytes) (fuel : nat) (sources : list MergeSource) (flushed : option IoError)
  (script : list write_event) (options : PcapNgOptions) (output : Writer) (report : MergeReport) (sources' : list MergeSource) (w : Writer) :
  Forall source_ready sources -> zsum source_size sources < u64_max -> zsum source_size sources < Z.of_nat fuel -> (forall kind n, alloc kind n = true) ->
  0 <= pn_max_size options <= usize_max -> pcapng_with_options (mkSink [] script) options = Ok output ->
  merge alloc checks limits provenance fuel sources flushed output = (Ok (report, sources'), w) ->
  exists streams interfaces, sources_hold alloc checks sources streams /\ pcapng_interfaces w = Ok interfaces /\
    forall limits' source', reader_admits limits' (pn_max_size options) (pl_ops (merged_plan provenance sources output (merge_sequence (ml_order limits) streams))) interfaces ->
    delivers source' (sink_bytes (wr_inner w)) ->
    exists r rest r' frames, Reader_with_control alloc limits' None None source' = (Ok r, rest) /\
      collect alloc (S (length (merge_sequence (ml_order limits) streams))) (S (Z.to_nat (rl_max_metadata_blocks_per_frame limits'))) r = (Ok frames, r') /\
      Forall2 (merged_back interfaces) (merge_sequence (ml_order limits) streams) frames /\ rd_finished r' = true /\ rd_interfaces r' = interfaces.
Proof.
  intros Hr Hu Hf Ha Hms Hnew E. destruct (pcapng_with_options_Ok _ _ _ Hms Hnew) as (Hw & Est & _).
  pose proof (merge_spec alloc checks limits provenance fuel sources flushed output Hr Hu Hf Hw) as Hs. rewrite E in Hs. destruct Hs as (streams & Hh & Hwrite & _ & Hops).
  set (entries := merge_sequence (ml_order limits) streams) in *. set (ops := pl_ops (merged_plan provenance sources output entries)) in *.
  assert (writer_interfaces output = []) as Ei by (unfold writer_interfaces; by rewrite Est).
  unfold write_merged in Hwrite. apply stm_bind_Ok in Hwrite as ([] & w1 & Hrun & Hflush). fold entries ops in Hrun.
  destruct (Writer_flush_same flushed w1) as (result & Hfl & _). rewrite Hfl in Hflush. injection Hflush as -> ->.
  destruct (run_placed_ops _ _ _ Hops Hw ltac:(rewrite Ei; by eexists) Hrun) as [Eiw (e & Hng)]. rewrite Ei in Eiw. cbn [app] in Eiw.
  assert (pcapng_interfaces w = Ok (writer_interfaces w)) as Hpi by (unfold pcapng_interfaces; by rewrite Hng).
  exists streams, (writer_interfaces w). split; [done|]. split; [done|]. intros limits' source' Hadm Hd.
  assert (Forall op_wf ops) as Hopw by (eapply Forall_impl; [exact Hops|]; by intros op [? _]).
  destruct (written_reads_back alloc script options ops output w _ limits' source' Hms Hopw Ha Hnew Hrun Hpi Hadm Hd) as (r & rest & r' & frames & H1 & _ & _ & H2 & H3 & H4 & H5).
  pose proof (pp_frames _ _ _ (merge_plan_places provenance (ms_name <$> sources) (zlen (writer_interfaces output)) entries (sequence_described _ _ _ _ _ Hh))) as Hp.
  fold (merged_plan provenance sources output entries) in Hp. fold ops in Hp. rewrite Ei in Hp. change (zlen []) with 0 in Hp. rewrite <- Eiw in Hp.
  pose proof (Forall2_length _ _ _ Hp) as Hlen. rewrite <- Hlen in H2. exists r, rest, r', frames. split; [done|]. split; [done|]. split; [|done].
  eapply Forall2_trans; [|exact Hp|exact H3]. intros x y z. apply placed_read_back.
Qed.

(** ** Witnesses *)

(** The second capture has its frames out of order. *)
Definition demo_late_blocks : Source :=
  [Data ([10; 13; 13; 10; 0; 0; 0; 28; 26; 43; 60; 77; 0; 1; 0; 0; 0; 0; 0; 0; 0; 0; 0; 92; 0; 0; 0; 28] ++
         [0; 0; 0; 1; 0; 0; 0; 20; 0; 1; 0; 0; 0; 0; 0; 0; 0; 0; 0; 20; 0; 0]);
   Data ([0; 6; 0; 0; 0; 36; 0; 0; 0; 0; 0; 0; 0; 0; 0; 0; 0; 8; 0; 0; 0; 1; 0; 0; 0; 1; 5; 0; 0; 0; 0; 0; 0; 36] ++
         [0; 0; 0; 6; 0; 0; 0; 36; 0; 0; 0; 0; 0; 0; 0; 0; 0; 0; 0; 6; 0; 0; 0; 2; 0; 0; 0; 60; 8; 9; 0; 0; 0; 0; 0; 36])].

Definition demo_late_reader : Reader :=
  match (Reader_with_control (fun _ _ => true) demo_limits None None demo_late_blocks).1 with Ok r => r | _ => demo_reader end.

Definition demo_sources : list MergeSource := [mkMergeSource [97] demo_reader demo_fuel; mkMergeSource [98] demo_late_reader demo_fuel].

Definition demo_merge_limits : MergeLimits := mkMergeLimits StreamLimits_default 4 16 Chronological 2.

Definition demo_checks (i : Z) (n : nat) : option CaptureError * option CaptureError := (None, None).

Definition demo_provenance (m : MergedInterface) : bytes := [48 + mi_source m].

Definition demo_merge_fuel : nat := 400.

Definition demo_merged : outcome CaptureError (MergeReport * list MergeSource) * Writer :=
  merge (fun _ _ => true) demo_checks demo_merge_limits demo_provenance demo_merge_fuel demo_sources None demo_map_writer.

Definition demo_source_read (i : Z) (source : MergeSource) : list CaptureRecord * outcome CaptureError unit * Reader :=
  read_records (fun _ _ => true) (ms_turns source) (demo_checks i) (ms_reader source).

Definition demo_stream (tag : Z * MergeSource) : Stream :=
  let read := demo_source_read tag.1 tag.2 in
  let frames := default [] (pendings (rd_interfaces read.2) 0 read.1.1) in
  mkStream frames (zlen (rd_interfaces read.2)) (zlen read.1.1 - zlen frames).

Definition demo_streams : list Stream := demo_stream <$> number_from 0 demo_sources.

Lemma demo_ready : Forall source_ready demo_sources.
Proof.
  assert (forall source r rest, octets (source_bytes source) -> Reader_with_control (fun _ _ => true) demo_limits None None source = (Ok r, rest) ->
    forall name turns, zlen (source_bytes (rd_inner r)) < Z.of_nat turns -> source_ready (mkMergeSource name r turns)) as H.
  { intros source r rest Ho Hr name turns Ht. split; [|split; [|exact Ht]]; cbn.
    - eapply opened_whole; [|exact Ho|exact Hr]. split; cbn; lia.
    - by eapply opened_interfaces. }
  constructor; [|constructor; [|constructor]].
  - apply (H demo_blocks demo_reader (rd_inner demo_reader)); [by apply octets_check|by vm_compute|by vm_compute].
  - apply (H demo_late_blocks demo_late_reader (rd_inner demo_late_reader)); [by apply octets_check|by vm_compute|by vm_compute].
Qed.

Lemma demo_hold : sources_hold (fun _ _ => true) demo_checks demo_sources demo_streams.
Proof.
  unfold sources_hold, demo_streams, demo_sources. cbn [number_from]. rewrite !fmap_cons. constructor; [|constructor; [|constructor]].
  all: split; [by vm_compute|]; cbn [fst snd].
  - exists (demo_source_read 0 (mkMergeSource [97] demo_reader demo_fuel)).1.1, (demo_source_read 0 (mkMergeSource [97] demo_reader demo_fuel)).2.
    split; [by vm_compute|]. split; [by vm_compute|]. split; [vm_compute; by split_and!|]. by split; vm_compute.
  - exists (demo_source_read 1 (mkMergeSource [98] demo_late_reader demo_fuel)).1.1, (demo_source_read 1 (mkMergeSource [98] demo_late_reader demo_fuel)).2.
    split; [by vm_compute|]. split; [by vm_compute|]. split; [vm_compute; by split_and!|]. by split; vm_compute.
Qed.

Lemma demo_admitted : streams_admitted demo_merge_limits demo_streams.
Proof.
  split; [vm_compute; by split_and!|]. unfold demo_streams, demo_sources. cbn [number_from]. rewrite !fmap_cons. constructor; [|constructor; [|constructor]].
  all: intros k x Hx; vm_compute in Hx; destruct k as [|[|k]]; [injection Hx as <-; by vm_compute..|destruct k; done].
Qed.

Lemma demo_merge_admits : merge_admits demo_merge_limits demo_sources demo_map_writer.
Proof. split; [by vm_compute|]. split; [done|]. split; [by vm_compute|]. split; [repeat constructor; by vm_compute|by vm_compute]. Qed.

Lemma demo_written : (write_merged demo_merge_limits demo_provenance demo_sources None demo_streams demo_map_writer).1 = Ok tt.
Proof. by vm_compute. Qed.

Lemma demo_map_writer_wf : writer_wf demo_map_writer.
Proof. destruct (pcapng_with_options_Ok demo_pcap_script demo_map_options demo_map_writer) as [Hw _]; [cbn; unfold usize_max, u64_max; lia|exact demo_map_writer_ok|exact Hw]. Qed.

Lemma unit_ok {S} (x : outcome CaptureError unit * S) : x.1 = Ok tt -> x = (Ok tt, x.2).
Proof. destruct x as [result s]. cbn. by intros ->. Qed.

Lemma merge_exact_witness : exists report sources' w, demo_merged = (Ok (report, sources'), w) /\
  write_merged demo_merge_limits demo_provenance demo_sources None demo_streams demo_map_writer = (Ok tt, w) /\
  gr_frames report = 4 /\ (fun e => pd_time e.2) <$> merge_sequence Chronological demo_streams = [6000; 7000; 8000; 9000].
Proof.
  destruct (merge_exact (fun _ _ => true) demo_checks demo_merge_limits demo_provenance demo_merge_fuel demo_sources None demo_map_writer) as [H Htotal];
    [exact demo_ready|by vm_compute|by vm_compute|exact demo_map_writer_wf|].
  pose proof (unit_ok _ demo_written) as Hw. destruct (Htotal demo_streams _ demo_merge_admits demo_hold demo_admitted Hw) as (report & sources' & E).
  rewrite E in H. destruct H as (streams & Hh & _ & Hreport). pose proof (sources_hold_unique _ _ _ _ _ Hh demo_hold) as Es. rewrite Es in Hreport. clear Hh Es.
  exists report, sources'. eexists. split; [exact E|]. rewrite Hreport. split; [exact Hw|]. split; by vm_compute.
Defined.

Lemma merged_capture_reads_back_witness : exists report sources' w r rest r' frames, demo_merged = (Ok (report, sources'), w) /\
  Reader_with_control (fun _ _ => true) ReaderLimits_default None None [Data (sink_bytes (wr_inner w))] = (Ok r, rest) /\
  collect (fun _ _ => true) 5 4097 r = (Ok frames, r') /\ length frames = 4%nat.
Proof.
  assert (exists a w, demo_merged = (Ok a, w)) as ([report sources'] & w & E) by (apply result_ok; by vm_compute).
  destruct (merged_capture_reads_back (fun _ _ => true) demo_checks demo_merge_limits demo_provenance demo_merge_fuel demo_sources None demo_pcap_script demo_map_options
    demo_map_writer report sources' w) as (streams & interfaces & Hh & Hi & Hread);
    [exact demo_ready|by vm_compute|by vm_compute|done|cbn; unfold usize_max, u64_max; lia|exact demo_map_writer_ok|exact E|].
  rewrite (sources_hold_unique _ _ _ _ _ Hh demo_hold) in Hread. assert (w = demo_merged.2) as -> by (by rewrite E).
  assert (length (merge_sequence (ml_order demo_merge_limits) demo_streams) = 4%nat) as E4 by (by vm_compute).
  assert (zlen interfaces = 2) as E2.
  { assert (match pcapng_interfaces demo_merged.2 with Ok l => zlen l | _ => 0 end = 2) as H by (by vm_compute). by rewrite Hi in H. }
  destruct (Hread ReaderLimits_default [Data (sink_bytes (wr_inner demo_merged.2))]) as (r & rest & r' & frames & H1 & H2 & H3 & _).
  - split; rewrite ?E2; [by vm_compute..|vm_compute; by split|]. vm_compute. by repeat constructor.
  - apply delivers_one. by vm_compute.
  - rewrite E4 in H2. apply Forall2_length in H3. rewrite E4 in H3. exists report, sources', demo_merged.2, r, rest, r', frames. split; [exact E|]. split; [exact H1|]. split; [exact H2|done].
Defined.
