(* ===== verification/FilterLexer.v ===== *)
(** * Display filters: limits, errors and tokens

    [filter/limits.rs], the errors of [filter/error.rs] that compiling and matching a
    filter give, and [filter/lexer.rs].  The source of a filter is its UTF-8 bytes;
    an index that only grows with the source is its distance from the start, so the
    saturating additions of the code are plain ones. *)

From stdpp Require Import base tactics option list numbers strings.
From Stdlib Require Import ZArith Lia Ascii.
From S2P Require Import Prelude.
Local Open Scope Z_scope.

(** ** Text *)

(** The bytes of a literal of the source. *)
Definition ascii_bytes (s : string) : bytes := map (fun c => Z.of_N (N_of_ascii c)) (String.list_ascii_of_string s).

Definition is_continuation (b : Z) : bool := (128 <=? b) && (b <=? 191).

Definition between (low high b : Z) : bool := (low <=? b) && (b <=? high).

(** [str::from_utf8]: well-formed UTF-8. *)
Fixpoint valid_utf8 (l : bytes) : bool :=
  match l with
  | [] => true
  | b0 :: t =>
      if b0 <? 128 then valid_utf8 t else
      match t with
      | [] => false
      | b1 :: t =>
          if between 194 223 b0 then is_continuation b1 && valid_utf8 t else
          match t with
          | [] => false
          | b2 :: t =>
              if between 224 239 b0
              then between (if b0 =? 224 then 160 else 128) (if b0 =? 237 then 159 else 191) b1 && is_continuation b2 && valid_utf8 t
              else
              match t with
              | [] => false
              | b3 :: t =>
                  between 240 244 b0 && between (if b0 =? 240 then 144 else 128) (if b0 =? 244 then 143 else 191) b1
                  && is_continuation b2 && is_continuation b3 && valid_utf8 t
              end
          end
      end
  end.

(** The bytes of the first character. *)
Definition first_character (l : bytes) : bytes :=
  match l with
  | [] => []
  | b :: _ => ztake (if b <? 128 then 1 else if b <? 224 then 2 else if b <? 240 then 3 else 4) l
  end.

Definition is_ascii_whitespace (b : Z) : bool := (b =? 32) || (b =? 9) || (b =? 10) || (b =? 12) || (b =? 13).

Definition is_ascii_digit (b : Z) : bool := between 48 57 b.
Definition is_ascii_upper (b : Z) : bool := between 65 90 b.
Definition is_ascii_lower (b : Z) : bool := between 97 122 b.
Definition is_ascii_alphanumeric (b : Z) : bool := is_ascii_digit b || is_ascii_upper b || is_ascii_lower b.

Definition to_ascii_lowercase (l : bytes) : bytes := map (fun b => if is_ascii_upper b then b + 32 else b) l.

(** [char::to_digit(16)]. *)
Definition to_hex_digit (b : Z) : option Z :=
  if is_ascii_digit b then Some (b - 48) else
  if between 65 70 b then Some (b - 55) else
  if between 97 102 b then Some (b - 87) else None.

(** ** Tokens *)

Inductive CompareOperator : Type := Equal | NotEqual | Greater | GreaterOrEqual | Less | LessOrEqual.

Inductive TextMode : Type := Prefix | Suffix | ContainsFold | EqualsFold.

Inductive Token : Type :=
| LeftParen | RightParen | LeftBrace | RightBrace | Comma | And | Or | Not | In | Contains
| TextMatch (mode : TextMode)
| Ampersand
| Compare (operator : CompareOperator)
| Word (word : bytes)
| Text (text : bytes)
| ByteString (contents : bytes)
| SliceToken (contents : bytes).

Record Spanned : Type := mkSpanned { sp_token : Token; sp_offset : Z }.

Inductive Quoting : Type := QuoteText | QuoteBytes.

#[export] Instance CompareOperator_eq_dec : EqDecision CompareOperator.
Proof. solve_decision. Defined.
#[export] Instance TextMode_eq_dec : EqDecision TextMode.
Proof. solve_decision. Defined.
#[export] Instance Quoting_eq_dec : EqDecision Quoting.
Proof. solve_decision. Defined.

(** ** Limits and errors *)

(** The text of a syntax error, as what it is formatted from; [FreeMessage] is one the
    predicates give. *)
Inductive Message : Type :=
| ExpectedDouble (symbol : Z)
| ExpectedEquals
| UnexpectedCharacter (character : bytes)
| SliceNests
| SliceUnterminated
| Unterminated (quoting : Quoting)
| TrailingEscape
| HexEscape
| EscapeNotAscii (value : Z)
| UnsupportedEscape (character : bytes)
| TextNotUtf8
| ExpectedField (found : Token)
| UnmatchedRight
| ExpectedOperator (found : Token)
| EndsEarly
| UnmatchedLeft
| FreeMessage (text : bytes).

Inductive FilterError : Type :=
| FStreamIndexUnavailable
| FTimestampUnavailable
| FEmpty
| FSizeLimit (actual limit : Z)
| FNestingLimit (limit : Z)
| FInvalidNestingLimit (value maximum : Z)
| FInvalidTermLimit (value maximum : Z)
| FTermLimit (limit : Z)
| FSetMemberLimit (limit : Z)
| FInvalidSetMemberLimit (value maximum : Z)
| FSyntax (offset : Z) (message : Message)
| FUnknownField (offset : Z) (path : bytes)
| FUnsliceableField (offset : Z) (path : bytes)
| FIncompatibleLiteral (offset : Z) (path kind literal : bytes)
| FUnquotedByteWord (offset : Z) (path literal : bytes)
| FOrderedPrefixComparison (offset : Z) (path literal : bytes)
| FOrderedRangeComparison (offset : Z) (path literal : bytes)
| FInvalidRange (offset : Z) (path literal reason : bytes)
| FMaskedField (offset : Z) (path kind : bytes)
| FMaskOperand (offset : Z) (path found : bytes)
| FUnresolvableProtocol (path protocol : bytes)
| FProjectionField (source : FilterError)
| FProjectionLimit (field : bytes) (limit : Z).

Definition DEFAULT_MAX_FILTER_BYTES : Z := 64 * 1024.
Definition MAX_FILTER_NESTING : Z := 64.
Definition MAX_FILTER_TERMS : Z := 1024.
Definition MAX_FILTER_SET_MEMBERS : Z := 1024.

Record FilterLimits : Type := mkFilterLimits {
  fl_max_bytes : Z;
  fl_max_nesting : Z;
  fl_max_terms : Z;
  fl_max_set_members : Z
}.

Definition FilterLimits_default : FilterLimits :=
  mkFilterLimits DEFAULT_MAX_FILTER_BYTES MAX_FILTER_NESTING MAX_FILTER_TERMS MAX_FILTER_SET_MEMBERS.

Definition FilterLimits_validate (limits : FilterLimits) : outcome FilterError unit :=
  if MAX_FILTER_NESTING <? fl_max_nesting limits then Err (FInvalidNestingLimit (fl_max_nesting limits) MAX_FILTER_NESTING) else
  if MAX_FILTER_TERMS <? fl_max_terms limits then Err (FInvalidTermLimit (fl_max_terms limits) MAX_FILTER_TERMS) else
  if MAX_FILTER_SET_MEMBERS <? fl_max_set_members limits
  then Err (FInvalidSetMemberLimit (fl_max_set_members limits) MAX_FILTER_SET_MEMBERS) else Ok tt.

(** ** The lexer *)

Definition is_word_byte (b : Z) : bool :=
  is_ascii_alphanumeric b || (b =? 95) || (b =? 46) || (b =? 58) || (b =? 47) || (b =? 35) || (b =? 45).

Definition syntax {A} (offset : Z) (message : Message) : outcome FilterError A := Err (FSyntax offset message).

Definition keyword (word : bytes) : option Token :=
  let lowered := to_ascii_lowercase word in
  let spells s := bytes_eqb lowered (ascii_bytes s) in
  if spells "and" then Some And else if spells "or" then Some Or else if spells "not" then Some Not else if spells "in" then Some In else
  if spells "contains" then Some Contains else if spells "startswith" then Some (TextMatch Prefix) else
  if spells "endswith" then Some (TextMatch Suffix) else if spells "icontains" then Some (TextMatch ContainsFold) else
  if spells "iequals" then Some (TextMatch EqualsFold) else if spells "eq" then Some (Compare Equal) else
  if spells "ne" then Some (Compare NotEqual) else if spells "gt" then Some (Compare Greater) else
  if spells "ge" then Some (Compare GreaterOrEqual) else if spells "lt" then Some (Compare Less) else
  if spells "le" then Some (Compare LessOrEqual) else None.

(** [character_at]: the replacement character where no character starts. *)
Definition character_at (rest : bytes) : bytes :=
  match rest with
  | b :: _ => if is_continuation b then [239; 191; 189] else first_character rest
  | [] => [239; 191; 189]
  end.

(** The contents up to the closing bracket, what follows it, and where. *)
Fixpoint read_slice (open : Z) (rest : bytes) (index : Z) : outcome FilterError (bytes * bytes * Z) :=
  match rest with
  | [] => syntax open SliceUnterminated
  | b :: t =>
      if b =? 93 then Ok ([], t, index + 1) else
      if b =? 91 then syntax index SliceNests else
      '(contents, rest, next) ← read_slice open t (index + 1);
      Ok (b :: contents, rest, next)
  end.

Definition hex_digit (offset : Z) (rest : bytes) : outcome FilterError (Z * bytes) :=
  match rest with
  | b :: t => digit ← ok_or (FSyntax offset HexEscape) (to_hex_digit b); Ok (digit, t)
  | [] => syntax offset HexEscape
  end.

(** What follows a backslash at [offset]: the byte it stands for, what is left, and
    the number of bytes read. *)
Definition read_escape (rest : bytes) (offset : Z) (quoting : Quoting) : outcome FilterError (Z * bytes * Z) :=
  match rest with
  | [] => syntax offset TrailingEscape
  | c :: t =>
      if c =? 92 then Ok (92, t, 1) else if c =? 34 then Ok (34, t, 1) else
      if c =? 114 then Ok (13, t, 1) else if c =? 110 then Ok (10, t, 1) else
      if c =? 116 then Ok (9, t, 1) else if c =? 48 then Ok (0, t, 1) else
      if c =? 120 then
        '(high, t) ← hex_digit offset t;
        '(low, t) ← hex_digit offset t;
        let value := Z.lor (Z.land (Z.shiftl high 4) 255) low in
        if bool_decide (quoting = QuoteText) && (128 <=? value) then syntax offset (EscapeNotAscii value) else Ok (value, t, 3)
      else syntax offset (UnsupportedEscape (first_character rest))
  end.

(** The contents of a quoted literal.  A character of several bytes holds neither a
    quote nor a backslash, so it is copied byte by byte. *)
Fixpoint read_quoted (fuel : nat) (literal : Z) (rest : bytes) (index : Z) (quoting : Quoting) : outcome FilterError (bytes * bytes * Z) :=
  match fuel with
  | O => Panic
  | S fuel =>
      match rest with
      | [] => syntax literal (Unterminated quoting)
      | b :: t =>
          if b =? 34 then Ok ([], t, index + 1) else
          if b =? 92 then
            '(value, t, count) ← read_escape t index quoting;
            '(contents, rest, next) ← read_quoted fuel literal t (index + 1 + count) quoting;
            Ok (value :: contents, rest, next)
          else
            '(contents, rest, next) ← read_quoted fuel literal t (index + 1) quoting;
            Ok (b :: contents, rest, next)
      end
  end.

Definition text_from (contents : bytes) (offset : Z) : outcome FilterError bytes :=
  if valid_utf8 contents then Ok contents else syntax offset TextNotUtf8.

(** The longest word, and what is left. *)
Fixpoint read_word (rest : bytes) : bytes * bytes :=
  match rest with
  | b :: t => if is_word_byte b then let '(word, rest) := read_word t in (b :: word, rest) else ([], rest)
  | [] => ([], [])
  end.

Definition next_is (t : bytes) (b : Z) : bool := match t with c :: _ => c =? b | [] => false end.

(** One token: what it is, what is left, and where that starts. *)
Definition read_token (byte : Z) (t : bytes) (offset : Z) : outcome FilterError (Token * bytes * Z) :=
  if byte =? 40 then Ok (LeftParen, t, offset + 1) else
  if byte =? 41 then Ok (RightParen, t, offset + 1) else
  if byte =? 123 then Ok (LeftBrace, t, offset + 1) else
  if byte =? 125 then Ok (RightBrace, t, offset + 1) else
  if byte =? 44 then Ok (Comma, t, offset + 1) else
  if byte =? 91 then
    '(contents, rest, next) ← read_slice offset t (offset + 1);
    Ok (SliceToken contents, rest, next)
  else if byte =? 34 then
    '(contents, rest, next) ← read_quoted (S (length t)) offset t (offset + 1) QuoteText;
    text ← text_from contents offset;
    Ok (Text text, rest, next)
  else if (byte =? 98) && next_is t 34 then
    '(contents, rest, next) ← read_quoted (S (length t)) offset (zdrop 1 t) (offset + 2) QuoteBytes;
    Ok (ByteString contents, rest, next)
  else if (byte =? 38) && negb (next_is t 38) then Ok (Ampersand, t, offset + 1)
  else if (byte =? 38) || (byte =? 124) then
    if negb (next_is t byte) then syntax offset (ExpectedDouble byte) else
    Ok (if byte =? 38 then And else Or, zdrop 1 t, offset + 2)
  else if byte =? 61 then
    if negb (next_is t 61) then syntax offset ExpectedEquals else Ok (Compare Equal, zdrop 1 t, offset + 2)
  else if byte =? 33 then
    if next_is t 61 then Ok (Compare NotEqual, zdrop 1 t, offset + 2) else Ok (Not, t, offset + 1)
  else if (byte =? 62) || (byte =? 60) then
    let inclusive := next_is t 61 in
    let operator := if byte =? 62 then (if inclusive then GreaterOrEqual else Greater) else (if inclusive then LessOrEqual else Less) in
    Ok (Compare operator, (if inclusive then zdrop 1 t else t), offset + (if inclusive then 2 else 1))
  else if is_word_byte byte then
    let '(word, rest) := read_word (byte :: t) in
    Ok (default (Word word) (keyword word), rest, offset + zlen word)
  else syntax offset (UnexpectedCharacter (character_at (byte :: t))).

(** Each turn skips a blank or reads a token. *)
Fixpoint tokenize_loop (fuel : nat) (rest : bytes) (index : Z) : outcome FilterError (list Spanned) :=
  match fuel with
  | O => Panic
  | S fuel =>
      match rest with
      | [] => Ok []
      | byte :: t =>
          if is_ascii_whitespace byte then tokenize_loop fuel t (index + 1) else
          '(token, rest, next) ← read_token byte t index;
          tokens ← tokenize_loop fuel rest next;
          Ok (mkSpanned token index :: tokens)
      end
  end.

Definition tokenize (source : bytes) : outcome FilterError (list Spanned) := tokenize_loop (S (length source)) source 0.

Example tokenize_demo :
  (map sp_token <$> (match tokenize (ascii_bytes "ip.ttl >= 5 && !(udp)") with Ok l => Some l | _ => None end))
  = Some [Word (ascii_bytes "ip.ttl"); Compare GreaterOrEqual; Word (ascii_bytes "5"); And; Not; LeftParen; Word (ascii_bytes "udp"); RightParen].
Proof. by vm_compute. Qed.

(** ** Display filters: the lexer loses nothing

    Reading tokens never panics and reads no more tokens than the source has bytes;
    what a list of tokens is spelled as is read back as those tokens, each at the
    offset it is spelled at. *)

(** ** Every reader ends *)

Lemma read_slice_safe open rest : forall index, safe (read_slice open rest index) (fun '(_, rest', _) => (length rest' <= length rest)%nat).
Proof.
  induction rest as [|b t IH]; intros index; simpl; [done|]. destruct (b =? 93); simpl; [lia|]. destruct (b =? 91); simpl; [done|].
  apply safe_bind. eapply safe_mono; [apply IH|]. intros [[c l] n]; simpl; lia.
Qed.

Lemma hex_digit_safe offset rest : safe (hex_digit offset rest) (fun '(_, rest') => (length rest' <= length rest)%nat).
Proof. destruct rest as [|b t]; simpl; [done|]. destruct (to_hex_digit b); simpl; [lia|done]. Qed.

Lemma read_escape_safe rest offset quoting : safe (read_escape rest offset quoting) (fun '(_, rest', _) => (length rest' <= length rest)%nat).
Proof.
  destruct rest as [|c t]; simpl; [done|]. repeat (match goal with |- context [if c =? ?v then _ else _] => destruct (c =? v) end; simpl; try lia).
  apply safe_bind. eapply safe_mono; [apply hex_digit_safe|]. intros [h t1] L1. simpl.
  apply safe_bind. eapply safe_mono; [apply hex_digit_safe|]. intros [l t2] L2. simpl. case_match; simpl; [done|lia].
Qed.

Lemma read_quoted_safe literal quoting fuel : forall rest index, (length rest < fuel)%nat ->
  safe (read_quoted fuel literal rest index quoting) (fun '(_, rest', _) => (length rest' <= length rest)%nat).
Proof.
  induction fuel as [|fuel IH]; intros rest index F; [lia|]. destruct rest as [|b t]; simpl in *; [done|].
  destruct (b =? 34); simpl; [lia|]. destruct (b =? 92).
  - apply safe_bind. eapply safe_mono; [apply read_escape_safe|]. intros [[v l] n] L. simpl.
    apply safe_bind. eapply safe_mono; [apply IH; lia|]. intros [[c k] m] M. simpl. lia.
  - apply safe_bind. eapply safe_mono; [apply IH; lia|]. intros [[c k] m] M. simpl. lia.
Qed.

Lemma read_word_app rest : (read_word rest).1 ++ (read_word rest).2 = rest.
Proof.
  induction rest as [|b t IH]; simpl; [done|]. destruct (is_word_byte b); simpl; [|done].
  destruct (read_word t) as [w l]; simpl in *. by rewrite IH.
Qed.

Lemma zdrop_1_cons {A} (x : A) l : zdrop 1 (x :: l) = l.
Proof. done. Qed.

Lemma zdrop_1_length {A} (l : list A) : (length (zdrop 1 l) <= length l)%nat.
Proof. destruct l; [done|]. rewrite zdrop_1_cons. simpl. lia. Qed.

Lemma read_token_safe byte t offset : safe (read_token byte t offset) (fun '(_, rest', _) => (length rest' <= length t)%nat).
Proof.
  pose proof (zdrop_1_length t) as D. unfold read_token.
  repeat (match goal with |- safe (if byte =? ?v then Ok _ else _) _ => destruct (byte =? v) end; [simpl; lia|]).
  destruct (byte =? 91).
  { apply safe_bind. eapply safe_mono; [apply read_slice_safe|]. by intros [[c l] n]. }
  destruct (byte =? 34).
  { apply safe_bind. eapply safe_mono; [apply read_quoted_safe; lia|]. intros [[c l] n] L. simpl.
    unfold text_from. by destruct (valid_utf8 c). }
  destruct ((byte =? 98) && next_is t 34).
  { apply safe_bind. eapply safe_mono; [apply read_quoted_safe; lia|]. intros [[c l] n] L. simpl. lia. }
  destruct ((byte =? 38) && negb (next_is t 38)); [simpl; lia|].
  destruct ((byte =? 38) || (byte =? 124)); [case_match; simpl; [done|lia]|].
  destruct (byte =? 61); [case_match; simpl; [done|lia]|].
  destruct (byte =? 33); [case_match; simpl; lia|].
  destruct ((byte =? 62) || (byte =? 60)); [simpl; case_match; lia|].
  destruct (is_word_byte byte) eqn:W; [|done].
  pose proof (read_word_app (byte :: t)) as E. destruct (read_word (byte :: t)) as [w l] eqn:R. simpl in E |- *.
  simpl in R. rewrite W in R. destruct (read_word t) as [w' l'] eqn:R'. simplify_eq. simpl in E. simplify_eq.
  rewrite length_app. lia.
Qed.

Lemma tokenize_loop_safe fuel : forall rest index, (length rest < fuel)%nat ->
  safe (tokenize_loop fuel rest index) (fun tokens => (length tokens <= length rest)%nat).
Proof.
  induction fuel as [|fuel IH]; intros rest index F; [lia|]. destruct rest as [|b t]; simpl in *; [done|].
  destruct (is_ascii_whitespace b); [eapply safe_mono; [apply IH; lia|]; simpl; intros; lia|].
  apply safe_bind. eapply safe_mono; [apply read_token_safe|]. intros [[token l] next] L. simpl in L |- *.
  apply safe_bind. eapply safe_mono; [apply IH; lia|]. intros tokens M. simpl in M |- *. lia.
Qed.

Lemma tokenize_safe source : safe (tokenize source) (fun tokens => zlen tokens <= zlen source).
Proof. unfold tokenize, zlen. eapply safe_mono; [apply tokenize_loop_safe; lia|]. simpl. intros; lia. Qed.

(** ** Spelling tokens *)

Definition hex_spelling (v : Z) : Z := if v <? 10 then 48 + v else 87 + v.

(** A byte inside quotes: a quote and a backslash are escaped, and what is not ASCII is
    escaped in a byte string. *)
Definition spell_byte (quoting : Quoting) (b : Z) : bytes :=
  if (b =? 34) || (b =? 92) then [92; b] else
  if bool_decide (quoting = QuoteBytes) && (128 <=? b) then [92; 120; hex_spelling (b / 16); hex_spelling (b mod 16)] else [b].

Definition spell_quoted (quoting : Quoting) (contents : bytes) : bytes := concat (map (spell_byte quoting) contents) ++ [34].

Definition spell (token : Token) : bytes :=
  match token with
  | LeftParen => [40] | RightParen => [41] | LeftBrace => [123] | RightBrace => [125] | Comma => [44]
  | And => [38; 38] | Or => [124; 124] | Not => [33] | In => ascii_bytes "in" | Contains => ascii_bytes "contains"
  | TextMatch Prefix => ascii_bytes "startswith" | TextMatch Suffix => ascii_bytes "endswith"
  | TextMatch ContainsFold => ascii_bytes "icontains" | TextMatch EqualsFold => ascii_bytes "iequals"
  | Ampersand => [38]
  | Compare Equal => [61; 61] | Compare NotEqual => [33; 61] | Compare Greater => [62] | Compare GreaterOrEqual => [62; 61]
  | Compare Less => [60] | Compare LessOrEqual => [60; 61]
  | Word word => word
  | Text text => 34 :: spell_quoted QuoteText text
  | ByteString contents => 98 :: 34 :: spell_quoted QuoteBytes contents
  | SliceToken contents => 91 :: contents ++ [93]
  end.

(** What a token can hold. *)
Definition spellable (token : Token) : Prop :=
  match token with
  | Word word => word <> [] /\ Forall (fun b => is_word_byte b = true) word /\ keyword word = None
  | Text text => valid_utf8 text = true
  | ByteString contents => Forall (fun b => 0 <= b <= 255) contents
  | SliceToken contents => valid_utf8 contents = true /\ Forall (fun b => b <> 91 /\ b <> 93) contents
  | _ => True
  end.

(** Tokens with a space after each, and where each is. *)
Definition spell_all (tokens : list Token) : bytes := concat (map (fun token => spell token ++ [32]) tokens).

Fixpoint spelled_at (offset : Z) (tokens : list Token) : list Spanned :=
  match tokens with
  | [] => []
  | token :: rest => mkSpanned token offset :: spelled_at (offset + zlen (spell token) + 1) rest
  end.

(** ** Reading what is spelled *)

Lemma read_slice_spelled open contents rest : forall index, Forall (fun b => b <> 91 /\ b <> 93) contents ->
  read_slice open (contents ++ 93 :: rest) index = Ok (contents, rest, index + zlen contents + 1).
Proof.
  induction contents as [|b l IH]; intros index F; simpl; [by rewrite Z.add_0_r|]. apply Forall_cons in F as [[B1 B2] F].
  rewrite (proj2 (Z.eqb_neq b 93)), (proj2 (Z.eqb_neq b 91)) by done. rewrite IH by done. simpl. rewrite zlen_cons.
  do 2 f_equal. lia.
Qed.

Lemma hex_spelling_digit v : 0 <= v < 16 -> to_hex_digit (hex_spelling v) = Some v.
Proof.
  intros B. assert (C : v = 0 \/ v = 1 \/ v = 2 \/ v = 3 \/ v = 4 \/ v = 5 \/ v = 6 \/ v = 7 \/ v = 8 \/ v = 9 \/ v = 10 \/ v = 11
    \/ v = 12 \/ v = 13 \/ v = 14 \/ v = 15) by lia. by repeat destruct C as [->|C]; [..|subst v].
Qed.

Lemma nibbles b : 0 <= b <= 255 -> Z.lor (Z.land (Z.shiftl (b / 16) 4) 255) (b mod 16) = b.
Proof.
  intros B. change 255 with (Z.ones 8). change 16 with (2 ^ 4). rewrite <- Z.shiftr_div_pow2, <- Z.land_ones by lia.
  apply Z.bits_inj'. intros n Hn. rewrite Z.lor_spec, Z.land_spec, Z.land_spec, Z.shiftl_spec by done.
  rewrite !Z.testbit_ones_nonneg by lia. destruct (Z.ltb_spec n 4).
  - rewrite (Z.testbit_neg_r _ (n - 4)) by lia. by rewrite andb_true_r.
  - rewrite Z.shiftr_spec by lia. replace (n - 4 + 4) with n by lia. rewrite andb_false_r, orb_false_r.
    destruct (Z.ltb_spec n 8); [by rewrite andb_true_r|]. rewrite andb_false_r. symmetry.
    rewrite Z.testbit_eqb by lia. rewrite Z.div_small; [done|]. pose proof (Z.pow_le_mono_r 2 8 n). lia.
Qed.

Lemma spell_quoted_cons quoting b contents : spell_quoted quoting (b :: contents) = spell_byte quoting b ++ spell_quoted quoting contents.
Proof. unfold spell_quoted. simpl. by rewrite <- (assoc_L (++)). Qed.
Arguments spell_quoted : simpl never.

Lemma read_quoted_spelled literal quoting contents rest : forall fuel index,
  (length (spell_quoted quoting contents) <= fuel)%nat -> (quoting = QuoteBytes -> Forall (fun b => 0 <= b <= 255) contents) ->
  read_quoted fuel literal (spell_quoted quoting contents ++ rest) index quoting
  = Ok (contents, rest, index + zlen (spell_quoted quoting contents)).
Proof.
  induction contents as [|b l IH]; intros fuel index F B; [by destruct fuel; [simpl in F; unfold spell_quoted in F; simpl in F; lia|]|].
  assert (Bl : quoting = QuoteBytes -> Forall (fun b => 0 <= b <= 255) l) by (intros Q; specialize (B Q); by apply Forall_cons in B as [_ ?]).
  rewrite spell_quoted_cons, <- (assoc_L (++)). rewrite spell_quoted_cons, length_app in F. unfold spell_byte in *.
  destruct fuel as [|fuel]; [repeat case_match; simpl in F; lia|].
  destruct ((b =? 34) || (b =? 92)) eqn:Q; [|destruct (bool_decide (quoting = QuoteBytes) && (128 <=? b)) eqn:H].
  - apply orb_true_iff in Q as [->%Z.eqb_eq| ->%Z.eqb_eq]; simpl in *;
      (rewrite (IH fuel); [|lia|done]); simpl; rewrite !zlen_cons; do 2 f_equal; lia.
  - apply andb_true_iff in H as [Hq%bool_decide_eq_true_1 Hb]. subst quoting. specialize (B eq_refl). apply Forall_cons in B as [B _].
    pose proof (Z.div_mod b 16). pose proof (Z.mod_pos_bound b 16). simpl in *.
    rewrite (hex_spelling_digit (b / 16)) by lia. simpl. rewrite (hex_spelling_digit (b mod 16)) by lia. simpl.
    rewrite nibbles by done. rewrite (IH fuel); [|lia|done]. simpl. rewrite !zlen_cons. do 2 f_equal. lia.
  - apply orb_false_iff in Q as [Q1 Q2]. simpl in *. rewrite Q1, Q2. rewrite (IH fuel); [|lia|done]. simpl.
    rewrite !zlen_cons. do 2 f_equal. lia.
Qed.

Lemma read_word_spelled word b rest : Forall (fun b => is_word_byte b = true) word -> is_word_byte b = false ->
  read_word (word ++ b :: rest) = (word, b :: rest).
Proof.
  intros F B. induction F as [|c l C F IH]; simpl; [by rewrite B|]. rewrite C, IH. done.
Qed.

(** A word byte starts a word, a byte string's prefix before a quote apart. *)
Lemma read_token_word b l rest offset :
  Forall (fun b => is_word_byte b = true) (b :: l) ->
  read_token b (l ++ 32 :: rest) offset = Ok (default (Word (b :: l)) (keyword (b :: l)), 32 :: rest, offset + zlen (b :: l)).
Proof.
  intros F. pose proof F as [W _]%Forall_cons. unfold read_token.
  assert (N : forall v, is_word_byte v = false -> (b =? v) = false) by (intros v V; destruct (Z.eqb_spec b v); congruence).
  rewrite (N 40), (N 41), (N 123), (N 125), (N 44), (N 91), (N 34), (N 38), (N 124), (N 61), (N 33), (N 62), (N 60) by done.
  assert (Q : next_is (l ++ 32 :: rest) 34 = false).
  { destruct l as [|c l]; simpl; [done|]. apply Forall_cons in F as [_ [C _]%Forall_cons]. destruct (Z.eqb_spec c 34); [|done]. by subst. }
  rewrite Q, andb_false_r. cbv beta iota delta [andb orb]. rewrite W. pose proof (read_word_spelled (b :: l) 32 rest F eq_refl) as E.
  simpl app in E. by rewrite E.
Qed.

(** [spelling] is read as [token] and leaves what follows its space. *)
Definition reads_as (spelling : bytes) (token : Token) : Prop :=
  forall rest offset, exists b t, spelling ++ 32 :: rest = b :: t /\ is_ascii_whitespace b = false /\
    read_token b t offset = Ok (token, 32 :: rest, offset + zlen spelling).

Lemma word_not_blank b : is_word_byte b = true -> is_ascii_whitespace b = false.
Proof.
  intros W. assert (N : forall v, is_word_byte v = false -> (b =? v) = false) by (intros v V; destruct (Z.eqb_spec b v); congruence).
  unfold is_ascii_whitespace. by rewrite !N.
Qed.

Lemma word_reads_as word token : word <> [] -> Forall (fun b => is_word_byte b = true) word ->
  default (Word word) (keyword word) = token -> reads_as word token.
Proof.
  intros N F K rest offset. destruct word as [|b l]; [done|]. exists b, (l ++ 32 :: rest).
  split_and!; [done|apply word_not_blank; by apply Forall_cons in F as [? _]|]. by rewrite read_token_word, K.
Qed.

Lemma spelled_reads_as token : spellable token -> reads_as (spell token) token.
Proof.
  intros S. destruct token as [| | | | | | | | | |[]| |[]|w|text|contents|contents]; simpl in S;
    try (by intros rest offset; eexists _, _); try (by apply word_reads_as; [done|repeat constructor|vm_compute]).
  - destruct S as (N&F&K). change (spell (Word w)) with w. apply word_reads_as; [done..|]. by rewrite K.
  - intros rest offset. eexists _, _; split_and!; [reflexivity|done|]. unfold read_token. simpl Z.eqb. cbv beta iota.
    rewrite read_quoted_spelled; [|rewrite length_app; lia|done]. simpl. unfold text_from. rewrite S. simpl.
    rewrite zlen_cons. do 2 f_equal. lia.
  - intros rest offset. eexists _, _; split_and!; [reflexivity|done|]. unfold read_token. simpl Z.eqb. simpl next_is. cbv beta iota.
    simpl (_ && _). cbv iota. rewrite zdrop_1_cons, read_quoted_spelled; [|simpl; rewrite length_app; lia|done]. simpl.
    rewrite !zlen_cons. do 2 f_equal. lia.
  - intros rest offset. exists 91, (contents ++ 93 :: 32 :: rest); split_and!; [simpl; by rewrite <- (assoc_L (++))|done|]. unfold read_token. simpl Z.eqb. cbv beta iota.
    destruct S as [_ S]. rewrite read_slice_spelled by done. simpl.
    rewrite zlen_cons, zlen_app, (zlen_cons 93), zlen_nil. do 2 f_equal. lia.
Qed.

Lemma tokenize_spelled tokens : forall fuel offset, Forall spellable tokens -> (length (spell_all tokens) < fuel)%nat ->
  tokenize_loop fuel (spell_all tokens) offset = Ok (spelled_at offset tokens).
Proof.
  induction tokens as [|token tokens IH]; intros fuel offset F L; [by destruct fuel; [simpl in L; lia|]|]. apply Forall_cons in F as [S F].
  unfold spell_all in *. simpl in *. rewrite !length_app in L. rewrite <- (assoc_L (++)). simpl.
  destruct (spelled_reads_as token S (concat (map (fun token => spell token ++ [32]) tokens)) offset) as (b&t&E&W&R).
  rewrite E. destruct fuel as [|[|fuel]]; [simpl in *; lia..|]. simpl. rewrite W, R. simpl. rewrite IH; [done|done|]. simpl in L.
  destruct (spell token); simpl in *; [by simplify_eq|lia].
Qed.

(** Tokens are read back from their spelling, at the offsets they are spelled at. *)
Lemma tokenize_spell_all tokens : Forall spellable tokens -> tokenize (spell_all tokens) = Ok (spelled_at 0 tokens).
Proof. intros. apply tokenize_spelled; [done|lia]. Qed.

Lemma spelled_at_tokens tokens : forall offset, map sp_token (spelled_at offset tokens) = tokens.
Proof. induction tokens as [|token tokens IH]; intros offset; simpl; [done|]. by rewrite IH. Qed.

(** ** A spelling is text *)

(** Text is a sequence of characters: [Q] holds of all text when it does of none and of
    a character in front of text it holds of. *)
Lemma valid_utf8_chars (Q : bytes -> Prop) :
  Q [] ->
  (forall c l, c <> [] -> (forall k, valid_utf8 (c ++ k) = valid_utf8 k) -> Forall (fun b => 128 <= b) c \/ (exists b, c = [b] /\ b < 128) ->
    Q l -> Q (c ++ l)) ->
  forall l, valid_utf8 l = true -> Q l.
Proof.
  intros Q0 Qc l. remember (length l) as n eqn:En. revert l En. induction (lt_wf n) as [n _ IH]. intros l -> V.
  assert (step : forall c k, l = c ++ k -> c <> [] -> (forall k, valid_utf8 (c ++ k) = valid_utf8 k) ->
    Forall (fun b => 128 <= b) c \/ (exists b, c = [b] /\ b < 128) -> Q l).
  { intros c k -> N C B. apply Qc; [done..|]. eapply IH; [|done|by rewrite <- C]. rewrite length_app. destruct c; simpl; [done|lia]. }
  destruct l as [|b0 l]; [done|]. simpl in V. destruct (Z.ltb_spec b0 128) as [L|L].
  { apply (step [b0] l); [done..| |right; eauto]. intros k. simpl. by rewrite (proj2 (Z.ltb_lt _ _) L). }
  destruct l as [|b1 l]; [done|]. destruct (between 194 223 b0) eqn:B2.
  { apply andb_true_iff in V as [C1 V]. apply (step [b0; b1] l); [done..| |left].
    - intros k. simpl. by rewrite (proj2 (Z.ltb_ge _ _) L), B2, C1.
    - unfold is_continuation in C1. repeat constructor; lia. }
  destruct l as [|b2 l]; [done|]. destruct (between 224 239 b0) eqn:B3.
  { apply andb_true_iff in V as [[C1 C2]%andb_true_iff V]. apply (step [b0; b1; b2] l); [done..| |left].
    - intros k. simpl. by rewrite (proj2 (Z.ltb_ge _ _) L), B2, B3, C1, C2.
    - unfold is_continuation, between in *. repeat case_match; repeat constructor; lia. }
  destruct l as [|b3 l]; [done|]. apply andb_true_iff in V as [[[[B4 C1]%andb_true_iff C2]%andb_true_iff C3]%andb_true_iff V].
  apply (step [b0; b1; b2; b3] l); [done..| |left].
  - intros k. simpl. by rewrite (proj2 (Z.ltb_ge _ _) L), B2, B3, B4, C1, C2, C3.
  - unfold is_continuation, between in *. repeat case_match; repeat constructor; lia.
Qed.

Lemma valid_utf8_app l k : valid_utf8 l = true -> valid_utf8 (l ++ k) = valid_utf8 k.
Proof.
  intros V. revert l V. apply valid_utf8_chars; [done|]. intros c l _ C _ IH. by rewrite <- (assoc_L (++)), C.
Qed.

Lemma valid_utf8_ascii l : Forall (fun b => b < 128) l -> valid_utf8 l = true.
Proof. induction 1 as [|b l B _ IH]; simpl; [done|]. by rewrite (proj2 (Z.ltb_lt _ _) B). Qed.

Lemma spell_byte_other b : 128 <= b -> spell_byte QuoteText b = [b].
Proof. intros B. unfold spell_byte. by rewrite (proj2 (Z.eqb_neq b 34)), (proj2 (Z.eqb_neq b 92)) by lia. Qed.

Lemma spell_text_valid text : valid_utf8 text = true -> valid_utf8 (concat (map (spell_byte QuoteText) text)) = true.
Proof.
  revert text. apply valid_utf8_chars; [done|]. intros c l _ C [B|(b&->&B)] IH; rewrite map_app, concat_app.
  - replace (concat (map (spell_byte QuoteText) c)) with c; [by rewrite C|].
    clear C. induction B as [|b c B F IHc]; simpl; [done|]. rewrite spell_byte_other by done. simpl. by rewrite <- IHc.
  - rewrite valid_utf8_app; [done|]. apply valid_utf8_ascii. simpl. rewrite app_nil_r. unfold spell_byte. simpl.
    destruct ((b =? 34) || (b =? 92)); repeat constructor; lia.
Qed.

Lemma spell_bytes_ascii contents : Forall (fun b => 0 <= b <= 255) contents ->
  Forall (fun b => b < 128) (concat (map (spell_byte QuoteBytes) contents)).
Proof.
  induction 1 as [|b l B _ IH]; simpl; [done|]. apply Forall_app; split; [|done]. unfold spell_byte, hex_spelling. simpl.
  pose proof (Z.div_mod b 16). pose proof (Z.mod_pos_bound b 16).
  destruct (_ || _) eqn:Q; [|destruct (Z.leb_spec 128 b)]; repeat constructor; repeat case_match; lia.
Qed.

Lemma word_ascii word : Forall (fun b => is_word_byte b = true) word -> Forall (fun b => b < 128) word.
Proof.
  intros F. eapply Forall_impl; [exact F|]. intros b. simpl. unfold is_word_byte, is_ascii_alphanumeric, is_ascii_digit, is_ascii_upper, is_ascii_lower, between. lia.
Qed.

Lemma spell_valid token : spellable token -> valid_utf8 (spell token) = true.
Proof.
  intros S. destruct token as [| | | | | | | | | |[]| |[]|w|text|contents|contents]; simpl in S; try (by vm_compute).
  - destruct S as (_&F&_). by apply valid_utf8_ascii, word_ascii.
  - simpl. unfold spell_quoted. by rewrite valid_utf8_app by by apply spell_text_valid.
  - apply valid_utf8_ascii. simpl. repeat constructor. apply Forall_app; split; [by apply spell_bytes_ascii|by repeat constructor].
  - simpl. rewrite valid_utf8_app by apply S. done.
Qed.

Lemma spell_all_valid tokens : Forall spellable tokens -> valid_utf8 (spell_all tokens) = true.
Proof.
  unfold spell_all. induction 1 as [|token tokens S _ IH]; simpl; [done|].
  rewrite <- (assoc_L (++)), valid_utf8_app by by apply spell_valid. done.
Qed.

(** C23: what tokens are spelled as is text, and reading it gives those tokens back,
    each at the offset it is spelled at: no word, quoted text, byte string or slice a
    token can hold is lost or split, whatever it contains. *)
Theorem tokens_read_back (tokens : list Token) : Forall spellable tokens ->
  valid_utf8 (spell_all tokens) = true /\ tokenize (spell_all tokens) = Ok (spelled_at 0 tokens)
  /\ map sp_token (spelled_at 0 tokens) = tokens.
Proof. intros S. split_and!; [by apply spell_all_valid|by apply tokenize_spell_all|apply spelled_at_tokens]. Qed.

Lemma tokens_read_back_witness :
  tokenize (spell_all [Not; LeftParen; Word (ascii_bytes "http.host"); Contains; Text [34; 226; 130; 172; 92]; Or; Word (ascii_bytes "ip.src");
    SliceToken (ascii_bytes "0:2"); Compare NotEqual; ByteString [0; 34; 200]; RightParen])
  = Ok (spelled_at 0 [Not; LeftParen; Word (ascii_bytes "http.host"); Contains; Text [34; 226; 130; 172; 92]; Or; Word (ascii_bytes "ip.src");
    SliceToken (ascii_bytes "0:2"); Compare NotEqual; ByteString [0; 34; 200]; RightParen]).
Proof.
  refine (proj1 (proj2 (tokens_read_back _ _))).
  repeat (apply Forall_cons; split; [first [exact I|split_and!; first [by vm_compute|repeat constructor; done]|by vm_compute
    |repeat (apply Forall_cons; split; [by vm_compute|]); by apply Forall_nil]|]). by apply Forall_nil.
Defined.
