(* ===== verification/FilterCompile.v ===== *)
(** * Display filters: compiling and evaluating

    [filter/parser.rs], [filter/plan.rs], [filter/requirements.rs] and
    [filter/model.rs]: an operator stack turns tokens into a postfix program, jumps
    are threaded through it, and a packet is tested by following them.  What one
    predicate is, how it is parsed and how it is tested are parameters here, given by
    [FilterPredicate] and [FilterEval]. *)

From stdpp Require Import base tactics option list numbers strings.
From Stdlib Require Import ZArith Lia.
From S2P Require Import Prelude FilterLexer.
Local Open Scope Z_scope.

(** ** Programs *)

Inductive Op (P : Type) : Type := Leaf (predicate : P) | OpNot | OpAnd | OpOr.
Arguments Leaf {P} predicate.
Arguments OpNot {P}.
Arguments OpAnd {P}.
Arguments OpOr {P}.

Inductive Operator : Type := NotOperator | AndOperator | OrOperator.

Definition precedence (operator : Operator) : Z :=
  match operator with NotOperator => 3 | AndOperator => 2 | OrOperator => 1 end.

Definition into_op {P} (operator : Operator) : Op P :=
  match operator with NotOperator => OpNot | AndOperator => OpAnd | OrOperator => OpOr end.

Inductive PendingOperator : Type := PendingOp (operator : Operator) | PendingParen.

Record Requirements : Type := mkRequirements {
  rq_stream_index : bool;
  rq_tcp_stream : bool;
  rq_udp_stream : bool;
  rq_timestamp : bool
}.

Definition Requirements_default : Requirements := mkRequirements false false false false.

Definition Requirements_union (a b : Requirements) : Requirements :=
  mkRequirements (rq_stream_index a || rq_stream_index b) (rq_tcp_stream a || rq_tcp_stream b)
    (rq_udp_stream a || rq_udp_stream b) (rq_timestamp a || rq_timestamp b).

(** [source.trim().is_empty()]: only white space, as Unicode has it. *)
Fixpoint is_blank (l : bytes) : bool :=
  match l with
  | [] => true
  | b0 :: t =>
      if between 9 13 b0 || (b0 =? 32) then is_blank t else
      match t with
      | [] => false
      | b1 :: t =>
          if (b0 =? 194) && ((b1 =? 133) || (b1 =? 160)) then is_blank t else
          match t with
          | [] => false
          | b2 :: t =>
              if ((b0 =? 225) && (b1 =? 154) && (b2 =? 128))
                 || ((b0 =? 226) && (b1 =? 128) && (between 128 138 b2 || (b2 =? 168) || (b2 =? 169) || (b2 =? 175)))
                 || ((b0 =? 226) && (b1 =? 129) && (b2 =? 159))
                 || ((b0 =? 227) && (b1 =? 128) && (b2 =? 128))
              then is_blank t else false
          end
      end
  end.

Definition validate_limits (source : bytes) (limits : FilterLimits) : outcome FilterError unit :=
  if fl_max_bytes limits <? zlen source then Err (FSizeLimit (zlen source) (fl_max_bytes limits)) else
  if is_blank source then Err FEmpty else FilterLimits_validate limits.

(** ** The operator stack *)

Section compiler.
Context {P : Type}.
Context (parse_predicate : FilterLimits -> list Spanned -> Z -> Requirements -> outcome FilterError (P * Z * Requirements)).
Context (limits : FilterLimits) (tokens : list Spanned).

(** The stack of operators has its top first. *)
Record Compiler : Type := mkCompiler {
  cm_program : list (Op P);
  cm_operators : list PendingOperator;
  cm_requirements : Requirements;
  cm_expect_operand : bool;
  cm_depth : Z;
  cm_terms : Z;
  cm_index : Z
}.

Definition Compiler_new : Compiler := mkCompiler [] [] Requirements_default true 0 0 0.

Definition consume_operand (c : Compiler) : outcome FilterError Compiler :=
  spanned ← expect (zget tokens (cm_index c));
  match sp_token spanned with
  | LeftParen =>
      let depth := saturating_add usize_max (cm_depth c) 1 in
      if fl_max_nesting limits <? depth then Err (FNestingLimit (fl_max_nesting limits)) else
      Ok (mkCompiler (cm_program c) (PendingParen :: cm_operators c) (cm_requirements c) true depth (cm_terms c)
            (saturating_add usize_max (cm_index c) 1))
  | Not =>
      Ok (mkCompiler (cm_program c) (PendingOp NotOperator :: cm_operators c) (cm_requirements c) true (cm_depth c) (cm_terms c)
            (saturating_add usize_max (cm_index c) 1))
  | Word _ =>
      let terms := saturating_add usize_max (cm_terms c) 1 in
      if fl_max_terms limits <? terms then Err (FTermLimit (fl_max_terms limits)) else
      '(predicate, next, requirements) ← parse_predicate limits tokens (cm_index c) (cm_requirements c);
      Ok (mkCompiler (cm_program c ++ [Leaf predicate]) (cm_operators c) requirements false (cm_depth c) terms next)
  | other => syntax (sp_offset spanned) (ExpectedField other)
  end.

(** The operators on top that bind at least as tightly move to the program. *)
Fixpoint pop_tighter (incoming : Operator) (operators : list PendingOperator) (program : list (Op P)) : list PendingOperator * list (Op P) :=
  match operators with
  | PendingOp top :: rest =>
      if precedence top <? precedence incoming then (operators, program)
      else pop_tighter incoming rest (program ++ [into_op top])
  | _ => (operators, program)
  end.

(** The operators down to the open parenthesis move to the program. *)
Fixpoint pop_to_paren (operators : list PendingOperator) (program : list (Op P)) : option (list PendingOperator * list (Op P)) :=
  match operators with
  | PendingOp operator :: rest => pop_to_paren rest (program ++ [into_op operator])
  | PendingParen :: rest => Some (rest, program)
  | [] => None
  end.

Definition consume_binary (incoming : Operator) (c : Compiler) : Compiler :=
  let '(operators, program) := pop_tighter incoming (cm_operators c) (cm_program c) in
  mkCompiler program (PendingOp incoming :: operators) (cm_requirements c) true (cm_depth c) (cm_terms c)
    (saturating_add usize_max (cm_index c) 1).

Definition consume_operator (c : Compiler) : outcome FilterError Compiler :=
  spanned ← expect (zget tokens (cm_index c));
  match sp_token spanned with
  | And => Ok (consume_binary AndOperator c)
  | Or => Ok (consume_binary OrOperator c)
  | RightParen =>
      if cm_depth c =? 0 then syntax (sp_offset spanned) UnmatchedRight else
      match pop_to_paren (cm_operators c) (cm_program c) with
      | Some (operators, program) =>
          Ok (mkCompiler program operators (cm_requirements c) false (saturating_sub (cm_depth c) 1) (cm_terms c)
                (saturating_add usize_max (cm_index c) 1))
      | None => syntax (sp_offset spanned) UnmatchedRight
      end
  | other => syntax (sp_offset spanned) (ExpectedOperator other)
  end.

Fixpoint flush_operators (source_len : Z) (operators : list PendingOperator) (program : list (Op P)) : outcome FilterError (list (Op P)) :=
  match operators with
  | [] => Ok program
  | PendingOp operator :: rest => flush_operators source_len rest (program ++ [into_op operator])
  | PendingParen :: _ => syntax source_len UnmatchedLeft
  end.

Definition finish (source_len : Z) (c : Compiler) : outcome FilterError (list (Op P) * Requirements) :=
  if cm_expect_operand c then syntax source_len EndsEarly else
  program ← flush_operators source_len (cm_operators c) (cm_program c);
  Ok (program, cm_requirements c).

(** Each turn moves past a token at least. *)
Fixpoint compile_loop (fuel : nat) (c : Compiler) : outcome FilterError Compiler :=
  if zlen tokens <=? cm_index c then Ok c else
  match fuel with
  | O => Panic
  | S fuel =>
      c ← (if cm_expect_operand c then consume_operand c else consume_operator c);
      compile_loop fuel c
  end.

Definition Compiler_compile (source_len : Z) : outcome FilterError (list (Op P) * Requirements) :=
  c ← compile_loop (length tokens) Compiler_new;
  finish source_len c.
End compiler.

(** ** Jumps *)

Definition MATCH : Z := u32_max.
Definition MISS : Z := u32_max - 1.

Record Step (P : Type) : Type := mkStep { sp_predicate : P; sp_on_true : Z; sp_on_false : Z }.
Arguments mkStep {P}.
Arguments sp_predicate {P}.
Arguments sp_on_true {P}.
Arguments sp_on_false {P}.

Section plan.
Context {P : Type}.
Implicit Types (program : list (Op P)).

Definition get_at (l : list Z) (i : Z) : outcome FilterError Z := expect (zget l i).
Definition put_at (l : list Z) (i x : Z) : outcome FilterError (list Z) := if (0 <=? i) && (i <? zlen l) then Ok (zput l i x) else Panic.
Definition add_u32 (a b : Z) : outcome FilterError Z := expect (checked_add u32_max a b).

(** The root of the left operand of every binary operation. *)
Fixpoint left_roots program (index : Z) (roots left_root : list Z) : outcome FilterError (list Z) :=
  match program with
  | [] => Ok left_root
  | Leaf _ :: rest => left_roots rest (index + 1) (as_u32 index :: roots) left_root
  | OpNot :: rest => left_roots rest (index + 1) (as_u32 index :: tail roots) left_root
  | OpAnd :: rest | OpOr :: rest =>
      let roots := tail roots in
      left_root ← put_at left_root index (default 0 (head roots));
      left_roots rest (index + 1) (as_u32 index :: tail roots) left_root
  end.

Definition thread_not (index : Z) (jumps : list Z * list Z) : outcome FilterError (list Z * list Z) :=
  let '(on_true, on_false) := jumps in
  child ← sub_u index 1;
  target ← get_at on_false index;
  on_true ← put_at on_true child target;
  target ← get_at on_true index;
  on_false ← put_at on_false child target;
  Ok (on_true, on_false).

Definition thread_binary (is_and : bool) (left_root : list Z) (index : Z) (jumps : list Z * list Z) : outcome FilterError (list Z * list Z) :=
  let '(on_true, on_false) := jumps in
  left ← get_at left_root index;
  right ← sub_u index 1;
  target ← get_at on_true index;
  on_true ← put_at on_true right target;
  target ← get_at on_false index;
  on_false ← put_at on_false right target;
  next ← add_u32 left 1;
  if is_and then
    on_true ← put_at on_true left next;
    target ← get_at on_false index;
    on_false ← put_at on_false left target;
    Ok (on_true, on_false)
  else
    target ← get_at on_true index;
    on_true ← put_at on_true left target;
    on_false ← put_at on_false left next;
    Ok (on_true, on_false).

(** From the last operation of [program], which is reversed, to the first. *)
Fixpoint thread_jumps program (left_root : list Z) (index : Z) (jumps : list Z * list Z) : outcome FilterError (list Z * list Z) :=
  match program with
  | [] => Ok jumps
  | op :: rest =>
      jumps ← match op with
              | Leaf _ => Ok jumps
              | OpNot => thread_not index jumps
              | OpAnd => thread_binary true left_root index jumps
              | OpOr => thread_binary false left_root index jumps
              end;
      thread_jumps rest left_root (index - 1) jumps
  end.

(** The steps, one per leaf, and the number of the step at every leaf. *)
Fixpoint number_steps program (index : Z) (jumps : list Z * list Z) (step_of : list Z) (steps : list (Step P))
  : outcome FilterError (list Z * list (Step P)) :=
  match program with
  | [] => Ok (step_of, steps)
  | Leaf predicate :: rest =>
      step_of ← put_at step_of index (as_u32 (zlen steps));
      on_true ← get_at jumps.1 index;
      on_false ← get_at jumps.2 index;
      number_steps rest (index + 1) jumps step_of (steps ++ [mkStep predicate on_true on_false])
  | _ :: rest => number_steps rest (index + 1) jumps step_of steps
  end.

Definition resolve (program_len : Z) (step_of : list Z) (target : Z) : outcome FilterError Z :=
  if target =? program_len then Ok MATCH else
  miss ← add_u32 program_len 1;
  if target =? miss then Ok MISS else get_at step_of target.

Fixpoint resolve_steps (program_len : Z) (step_of : list Z) (steps : list (Step P)) : outcome FilterError (list (Step P)) :=
  match steps with
  | [] => Ok []
  | step :: rest =>
      on_true ← resolve program_len step_of (sp_on_true step);
      on_false ← resolve program_len step_of (sp_on_false step);
      rest ← resolve_steps program_len step_of rest;
      Ok (mkStep (sp_predicate step) on_true on_false :: rest)
  end.

Definition root_jumps (program_len : Z) (jumps : list Z * list Z) : outcome FilterError (list Z * list Z) :=
  match checked_sub program_len 1 with
  | None => Ok jumps
  | Some root =>
      on_true ← put_at jumps.1 root program_len;
      miss ← add_u32 program_len 1;
      on_false ← put_at jumps.2 root miss;
      Ok (on_true, on_false)
  end.

Definition Plan_compile program : outcome FilterError (list (Step P)) :=
  let program_len := as_u32 (zlen program) in
  left_root ← left_roots program 0 [] (zrep (zlen program) 0);
  jumps ← root_jumps program_len (zrep (zlen program) 0, zrep (zlen program) 0);
  jumps ← thread_jumps (rev program) left_root (zlen program - 1) jumps;
  '(step_of, steps) ← number_steps program 0 jumps (zrep (zlen program) MISS) [];
  resolve_steps program_len step_of steps.

(** [steps.get], which looks at the length before it looks for the step. *)
Definition step_at (steps : list (Step P)) (index : Z) : option (Step P) := if zlen steps <=? index then None else zget steps index.

(** Each turn tests one step; [holds] says which predicates hold. *)
Fixpoint follow (fuel : nat) (steps : list (Step P)) (holds : P -> bool) (index : Z) : outcome FilterError bool :=
  match step_at steps index with
  | None => Ok (index =? MATCH)
  | Some step =>
      match fuel with
      | O => Panic
      | S fuel => follow fuel steps holds (if holds (sp_predicate step) then sp_on_true step else sp_on_false step)
      end
  end.

Definition Plan_evaluate (steps : list (Step P)) (holds : P -> bool) : outcome FilterError bool := follow (length steps) steps holds 0.
End plan.

(** ** Filters *)

Section filter.
Context {P C : Type}.
Context (parse_predicate : FilterLimits -> list Spanned -> Z -> Requirements -> outcome FilterError (P * Z * Requirements)).
Context (test : P -> C -> bool) (has_timestamp : C -> bool).

Record Filter : Type := mkFilter { ft_plan : list (Step P); ft_requirements : Requirements }.

(** [parser::compile]. *)
Definition compile (source : bytes) (limits : FilterLimits) : outcome FilterError (list (Op P) * Requirements) :=
  _ ← validate_limits source limits;
  tokens ← tokenize source;
  Compiler_compile parse_predicate limits tokens (zlen source).

Definition Filter_compile (source : bytes) (limits : FilterLimits) : outcome FilterError Filter :=
  '(program, requirements) ← compile source limits;
  plan ← Plan_compile program;
  Ok (mkFilter plan requirements).

Definition is_literal_token (tokens : list Spanned) : bool :=
  match tokens with
  | [spanned] => match sp_token spanned with Word _ | Text _ | ByteString _ => true | _ => false end
  | _ => false
  end.

Definition compile_equality (field value : bytes) : outcome FilterError Filter :=
  filter ← Filter_compile (field ++ ascii_bytes " == " ++ value) FilterLimits_default;
  tokens ← tokenize value;
  if negb (is_literal_token tokens) then
    offset ← add_u (zlen field) 4;
    syntax offset (FreeMessage (ascii_bytes "expected a single literal"))
  else Ok filter.

Definition Filter_matches (filter : Filter) (context : C) : outcome FilterError bool :=
  if rq_timestamp (ft_requirements filter) && negb (has_timestamp context) then Err FTimestampUnavailable else
  Plan_evaluate (ft_plan filter) (fun predicate => test predicate context).
End filter.

(** ** Display filters: the jumps of a plan

    Expressions over predicates, their postfix programs, and the proof that threading
    jumps through a program gives a plan that decides the expression.  [planned] is the
    plan an expression should have: the steps of an operand in front of those of the
    next, each jumping to where the answer is decided. *)

Inductive expr (P : Type) : Type :=
| ELeaf (predicate : P)
| ENot (e : expr P)
| EGroup (e : expr P)
| EBinary (is_and : bool) (x y : expr P).
Arguments ELeaf {P} predicate.
Arguments ENot {P} e.
Arguments EGroup {P} e.
Arguments EBinary {P} is_and x y.
Notation EAnd := (EBinary true).
Notation EOr := (EBinary false).

Definition binary_op {P} (is_and : bool) : Op P := if is_and then OpAnd else OpOr.

Section expressions.
Context {P : Type}.
Implicit Types (e x y : expr P).

Fixpoint postfix e : list (Op P) :=
  match e with
  | ELeaf predicate => [Leaf predicate]
  | ENot e => postfix e ++ [OpNot]
  | EGroup e => postfix e
  | EBinary is_and x y => postfix x ++ postfix y ++ [binary_op is_and]
  end.

(** What the expression says when [holds] tells which predicates hold. *)
Fixpoint eval (holds : P -> bool) e : bool :=
  match e with
  | ELeaf predicate => holds predicate
  | ENot e => negb (eval holds e)
  | EGroup e => eval holds e
  | EBinary is_and x y => if is_and then eval holds x && eval holds y else eval holds x || eval holds y
  end.

Fixpoint size e : Z :=
  match e with
  | ELeaf _ => 1
  | ENot e => size e + 1
  | EGroup e => size e
  | EBinary _ x y => size x + size y + 1
  end.

(** The number of predicates. *)
Fixpoint terms e : Z :=
  match e with
  | ELeaf _ => 1
  | ENot e | EGroup e => terms e
  | EBinary _ x y => terms x + terms y
  end.

(** The steps of [e] from number [first] on; the answer is at [yes] or at [no]. *)
Fixpoint planned e (first yes no : Z) : list (Step P) :=
  match e with
  | ELeaf predicate => [mkStep predicate yes no]
  | ENot e => planned e first no yes
  | EGroup e => planned e first yes no
  | EBinary is_and x y =>
      let next := first + terms x in
      planned x first (if is_and then next else yes) (if is_and then no else next) ++ planned y next yes no
  end.

(** The jumps before they are numbered: targets are positions in the program. *)
Fixpoint raw e (a yes no : Z) : list (Step P) :=
  match e with
  | ELeaf predicate => [mkStep predicate yes no]
  | ENot e => raw e a no yes
  | EGroup e => raw e a yes no
  | EBinary is_and x y =>
      let next := a + size x in
      raw x a (if is_and then next else yes) (if is_and then no else next) ++ raw y next yes no
  end.

Lemma size_pos e : 1 <= size e.
Proof using. induction e; simpl; lia. Qed.

Lemma terms_pos e : 1 <= terms e <= size e.
Proof using. induction e; simpl; lia. Qed.

Lemma zlen_postfix e : zlen (postfix e) = size e.
Proof using. induction e; simpl; autorewrite with pcr_len; lia. Qed.

Lemma zlen_planned e : forall first yes no, zlen (planned e first yes no) = terms e.
Proof using. induction e; intros; simpl; rewrite ?zlen_app, ?IHe1, ?IHe2, ?IHe; done. Qed.

Lemma zlen_raw e : forall a yes no, zlen (raw e a yes no) = terms e.
Proof using. induction e; intros; simpl; rewrite ?zlen_app, ?IHe1, ?IHe2, ?IHe; done. Qed.

(** ** Facts of the vectors of positions *)

Lemma put_at_ok (l : list Z) i v : 0 <= i < zlen l -> put_at l i v = Ok (zput l i v).
Proof using. intros; unfold put_at. rewrite (proj2 (Z.leb_le 0 i)), (proj2 (Z.ltb_lt i (zlen l))); done || lia. Qed.

Lemma get_at_ok (l : list Z) i v : zget l i = Some v -> get_at l i = Ok v.
Proof using. by intros E; unfold get_at; rewrite E. Qed.

Lemma as_u32_id v : 0 <= v <= u32_max -> as_u32 v = v.
Proof using. intros; unfold as_u32, u32_max in *; apply Z.mod_small; lia. Qed.

Lemma add_u32_ok v w : v + w <= u32_max -> add_u32 v w = Ok (v + w).
Proof using. intros; unfold add_u32; by rewrite checked_add_ok. Qed.

(** Two vectors agree but on [a, b). *)
Definition agree (a b : Z) (l k : list Z) : Prop := zlen l = zlen k /\ forall i, ~ a <= i < b -> zget l i = zget k i.

Lemma agree_refl a b l : agree a b l l.
Proof using. done. Qed.

Lemma agree_trans a b l k m : agree a b l k -> agree a b k m -> agree a b l m.
Proof using. intros [L1 G1] [L2 G2]; split; [congruence|]. intros i Hi. by rewrite G1, G2. Qed.

Lemma agree_mono a b a' b' l k : a' <= a -> b <= b' -> agree a b l k -> agree a' b' l k.
Proof using. intros Ha Hb [L G]; split; [done|]. intros; apply G; lia. Qed.

Lemma agree_zput a b l i v : 0 <= i -> a <= i < b -> agree a b l (zput l i v).
Proof using. intros; split; [by rewrite zlen_zput|]. intros j ?; symmetry; apply zget_zput_ne; lia. Qed.

Lemma agree_get a b l k i : agree a b l k -> ~ a <= i < b -> zget k i = zget l i.
Proof using. intros [_ H] ?; symmetry; auto. Qed.

Lemma agree_len a b l k : agree a b l k -> zlen k = zlen l.
Proof using. by intros [-> _]. Qed.

(** ** The left operands *)

(** Every binary operation of [e], which starts at [a], finds its left operand. *)
Fixpoint rooted e (a : Z) (left_root : list Z) : Prop :=
  match e with
  | ELeaf _ => True
  | ENot e | EGroup e => rooted e a left_root
  | EBinary _ x y =>
      rooted x a left_root /\ rooted y (a + size x) left_root /\
      zget left_root (a + size x + size y) = Some (a + size x - 1)
  end.

Lemma rooted_agree e : forall a b c l k, agree b c l k -> a + size e <= b \/ c <= a -> rooted e a l -> rooted e a k.
Proof using.
  induction e; simpl; intros a b c l k A D R; [done|by eapply IHe; eauto; lia..|].
  pose proof (size_pos e1); pose proof (size_pos e2); destruct R as (?&?&R).
  split_and!; [eapply IHe1|eapply IHe2|rewrite (agree_get _ _ _ _ _ A)]; eauto; lia.
Qed.

Lemma left_roots_spec e : forall a rest roots left_root,
  0 <= a -> a + size e <= zlen left_root -> zlen left_root <= u32_max ->
  exists left_root', rooted e a left_root' /\ agree a (a + size e) left_root left_root' /\
    left_roots (postfix e ++ rest) a roots left_root
    = left_roots rest (a + size e) ((a + size e - 1) :: roots) left_root'.
Proof using.
  induction e as [p|e IH|e IH|is_and e1 IH1 e2 IH2]; intros a rest roots l Ha Hl Hu; simpl in *.
  - exists l. split_and!; [done|apply agree_refl|]. rewrite as_u32_id by lia. f_equal. f_equal. lia.
  - destruct (IH a ([OpNot] ++ rest) roots l) as (l'&R&A&E); [lia..|].
    exists l'. split_and!; [done|eapply agree_mono, A; lia|]. rewrite <- (assoc_L (++)), E. simpl.
    pose proof (size_pos e). rewrite as_u32_id by lia. f_equal; [lia|]. f_equal; lia.
  - apply IH; lia.
  - pose proof (size_pos e1); pose proof (size_pos e2). rewrite <- !(assoc_L (++)).
    destruct (IH1 a (postfix e2 ++ [binary_op is_and] ++ rest) roots l) as (l1&R1&A1&E1); [lia..|].
    pose proof (agree_len _ _ _ _ A1).
    destruct (IH2 (a + size e1) ([binary_op is_and] ++ rest) ((a + size e1 - 1) :: roots) l1) as (l2&R2&A2&E2); [lia..|].
    pose proof (agree_len _ _ _ _ A2).
    assert (A3 : agree (a + size e1 + size e2) (a + (size e1 + size e2 + 1)) l2 (zput l2 (a + size e1 + size e2) (a + size e1 - 1)))
      by (apply agree_zput; lia).
    exists (zput l2 (a + size e1 + size e2) (a + size e1 - 1)); split_and!.
    + eapply rooted_agree; [exact A3|lia|]. eapply rooted_agree; [exact A2|lia|done].
    + eapply rooted_agree; [exact A3|lia|done].
    + apply zget_zput_eq; lia.
    + eapply agree_trans; [eapply agree_mono, A1; lia|]. eapply agree_trans; [eapply agree_mono, A2; lia|].
      eapply agree_mono, A3; lia.
    + rewrite E1, E2. destruct is_and; simpl; rewrite put_at_ok by lia; simpl; rewrite as_u32_id by lia; (f_equal; [lia|f_equal; lia]).
Qed.

(** ** The jumps *)

(** Every predicate of [e], which starts at [a], jumps where the answer takes it. *)
Fixpoint targeted e (a yes no : Z) (jumps : list Z * list Z) : Prop :=
  match e with
  | ELeaf _ => zget jumps.1 a = Some yes /\ zget jumps.2 a = Some no
  | ENot e => targeted e a no yes jumps
  | EGroup e => targeted e a yes no jumps
  | EBinary is_and x y =>
      let next := a + size x in
      targeted x a (if is_and then next else yes) (if is_and then no else next) jumps /\ targeted y next yes no jumps
  end.

Definition agree2 (a b : Z) (j k : list Z * list Z) : Prop := agree a b j.1 k.1 /\ agree a b j.2 k.2.

Lemma agree2_trans a b j k m : agree2 a b j k -> agree2 a b k m -> agree2 a b j m.
Proof using. intros [??] [??]; split; eauto using agree_trans. Qed.

Lemma agree2_mono a b a' b' j k : a' <= a -> b <= b' -> agree2 a b j k -> agree2 a' b' j k.
Proof using. intros Ha Hb [??]; split; eauto using agree_mono. Qed.

Lemma targeted_agree e : forall a yes no b c j k,
  agree2 b c j k -> a + size e <= b \/ c <= a -> targeted e a yes no j -> targeted e a yes no k.
Proof using.
  induction e as [p|e IH|e IH|is_and e1 IH1 e2 IH2]; simpl; intros a yes no b c j k A D R; [|by eapply IH; eauto; lia..|].
  - destruct A as [A1 A2]. by rewrite (agree_get _ _ _ _ _ A1), (agree_get _ _ _ _ _ A2) by lia.
  - pose proof (size_pos e1); pose proof (size_pos e2). destruct R; split; [eapply IH1|eapply IH2]; eauto; lia.
Qed.

(** Vectors of one length, short enough to be numbered, with a root at [root]. *)
Definition ready (root yes no : Z) (j : list Z * list Z) : Prop :=
  0 <= root /\ zlen j.2 = zlen j.1 /\ zlen j.1 <= u32_max /\ zget j.1 root = Some yes /\ zget j.2 root = Some no.

Lemma ready_agree root yes no a b j k : agree2 a b j k -> ~ a <= root < b -> ready root yes no j -> ready root yes no k.
Proof using.
  intros [A1 A2] D (?&?&?&?&?). pose proof (agree_len _ _ _ _ A1); pose proof (agree_len _ _ _ _ A2).
  unfold ready. rewrite (agree_get _ _ _ _ _ A1), (agree_get _ _ _ _ _ A2) by lia. split_and!; done || lia.
Qed.

Lemma thread_not_ok a yes no j : 0 <= a -> ready (a + 1) yes no j ->
  exists k, thread_not (a + 1) j = Ok k /\ agree2 a (a + 1) j k /\ ready a no yes k.
Proof using.
  intros Ha (_&L&U&T&F). destruct j as [t f]; simpl in *. pose proof (zget_Some_lt _ _ _ T).
  unfold thread_not. rewrite sub_u_ok by lia. replace (a + 1 - 1) with a by lia. simpl.
  rewrite (get_at_ok _ _ _ F). simpl. rewrite put_at_ok by lia. simpl.
  rewrite (get_at_ok (zput t a no) (a + 1) yes) by (rewrite zget_zput_ne; done || lia). simpl.
  rewrite put_at_ok by lia. simpl. eexists; split; [done|]. split; [split; apply agree_zput; lia|].
  unfold ready; simpl. rewrite !zlen_zput, !zget_zput_eq by lia. auto.
Qed.

Lemma thread_binary_ok is_and left_root left index yes no j :
  zget left_root index = Some left -> 0 <= left < index - 1 -> ready index yes no j ->
  exists k, thread_binary is_and left_root index j = Ok k /\ agree2 left index j k /\
    ready left (if is_and then left + 1 else yes) (if is_and then no else left + 1) k /\ ready (index - 1) yes no k.
Proof using.
  intros R B (_&L&U&T&F). destruct j as [t f]; simpl in *. pose proof (zget_Some_lt _ _ _ T).
  unfold thread_binary. rewrite (get_at_ok _ _ _ R). simpl. rewrite sub_u_ok by lia. simpl.
  rewrite (get_at_ok _ _ _ T). simpl. rewrite put_at_ok by lia. simpl.
  rewrite (get_at_ok _ _ _ F). simpl. rewrite put_at_ok by lia. simpl.
  rewrite add_u32_ok by (unfold u32_max in *; lia). simpl.
  destruct is_and; simpl.
  - rewrite put_at_ok by (rewrite zlen_zput; lia). simpl.
    rewrite (get_at_ok _ index no) by (rewrite zget_zput_ne; done || lia). simpl.
    rewrite put_at_ok by (rewrite zlen_zput; lia). simpl. eexists; split; [done|].
    split; [split; (eapply agree_trans; apply agree_zput; lia)|].
    unfold ready; simpl. rewrite !zlen_zput. split; split_and!; try lia; try (rewrite zget_zput_eq; [done|rewrite ?zlen_zput; lia]);
      (rewrite zget_zput_ne by lia; rewrite zget_zput_eq; done || lia).
  - rewrite (get_at_ok _ index yes) by (rewrite zget_zput_ne; done || lia). simpl.
    rewrite put_at_ok by (rewrite zlen_zput; lia). simpl.
    rewrite put_at_ok by (rewrite zlen_zput; lia). simpl. eexists; split; [done|].
    split; [split; (eapply agree_trans; apply agree_zput; lia)|].
    unfold ready; simpl. rewrite !zlen_zput. split; split_and!; try lia; try (rewrite zget_zput_eq; [done|rewrite ?zlen_zput; lia]);
      (rewrite zget_zput_ne by lia; rewrite zget_zput_eq; done || lia).
Qed.

Lemma thread_jumps_spec e left_root : forall a yes no rest j,
  0 <= a -> rooted e a left_root -> ready (a + size e - 1) yes no j ->
  exists k, targeted e a yes no k /\ agree2 a (a + size e) j k /\
    thread_jumps (rev (postfix e) ++ rest) left_root (a + size e - 1) j = thread_jumps rest left_root (a - 1) k.
Proof using.
  induction e as [p|e IH|e IH|is_and e1 IH1 e2 IH2]; intros a yes no rest j Ha R J; simpl in *.
  - destruct J as (_&_&_&T&F). replace (a + 1 - 1) with a in * by lia. exists j.
    split_and!; [done..|split; apply agree_refl|done].
  - pose proof (size_pos e). rewrite rev_app_distr. simpl. replace (a + (size e + 1) - 1) with (a + size e - 1 + 1) in * by lia.
    destruct (thread_not_ok (a + size e - 1) yes no j) as (k&->&A&K); [lia|done|]. simpl.
    replace (a + size e - 1 + 1 - 1) with (a + size e - 1) by lia.
    destruct (IH a no yes rest k) as (m&M&A'&E); [done..|]. exists m. split_and!; [done| |done].
    eapply agree2_trans; [eapply agree2_mono, A|eapply agree2_mono, A']; lia.
  - by apply IH.
  - pose proof (size_pos e1); pose proof (size_pos e2). destruct R as (R1&R2&R).
    rewrite !rev_app_distr, <- !(assoc_L (++)). simpl.
    replace (a + (size e1 + size e2 + 1) - 1) with (a + size e1 + size e2) in * by lia.
    destruct (thread_binary_ok is_and left_root (a + size e1 - 1) (a + size e1 + size e2) yes no j) as (k&E&A&K1&K2); [done|lia|done|].
    assert (E' : match binary_op (P := P) is_and with Leaf _ => Ok j | OpNot => thread_not (a + size e1 + size e2) j
      | OpAnd => thread_binary true left_root (a + size e1 + size e2) j
      | OpOr => thread_binary false left_root (a + size e1 + size e2) j end = Ok k) by (by destruct is_and).
    rewrite E'. simpl. replace (a + size e1 - 1 + 1) with (a + size e1) in K1 by lia.
    destruct (IH2 (a + size e1) yes no (rev (postfix e1) ++ rest) k) as (m&M&A2&->); [lia|done|done|].
    destruct (IH1 a (if is_and then a + size e1 else yes) (if is_and then no else a + size e1) rest m) as (q&Q&A1&->);
      [done|done|eapply ready_agree; [exact A2|lia|done]|].
    exists q. split_and!; [done|eapply targeted_agree; [exact A1|lia|done]| |done].
    eapply agree2_trans; [eapply agree2_mono, A; lia|]. eapply agree2_trans; [eapply agree2_mono, A2; lia|].
    eapply agree2_mono, A1; lia.
Qed.

(** ** The numbers of the steps *)

Fixpoint numbered e (a first : Z) (step_of : list Z) : Prop :=
  match e with
  | ELeaf _ => zget step_of a = Some first
  | ENot e | EGroup e => numbered e a first step_of
  | EBinary _ x y => numbered x a first step_of /\ numbered y (a + size x) (first + terms x) step_of
  end.

Lemma numbered_head e : forall a first step_of, numbered e a first step_of -> zget step_of a = Some first.
Proof using. induction e; simpl; intros; naive_solver. Qed.

Lemma numbered_agree e : forall a first b c l k,
  agree b c l k -> a + size e <= b \/ c <= a -> numbered e a first l -> numbered e a first k.
Proof using.
  induction e as [p|e IH|e IH|is_and e1 IH1 e2 IH2]; simpl; intros a first b c l k A D R; [|by eapply IH; eauto; lia..|].
  - by rewrite (agree_get _ _ _ _ _ A) by lia.
  - pose proof (size_pos e1); pose proof (size_pos e2). destruct R; split; [eapply IH1|eapply IH2]; eauto; lia.
Qed.

Lemma number_steps_spec e j : forall a yes no rest step_of steps,
  targeted e a yes no j -> zlen steps <= a -> a + size e <= zlen step_of -> zlen step_of <= u32_max ->
  exists step_of', numbered e a (zlen steps) step_of' /\ agree a (a + size e) step_of step_of' /\
    number_steps (postfix e ++ rest) a j step_of steps = number_steps rest (a + size e) j step_of' (steps ++ raw e a yes no).
Proof using.
  induction e as [p|e IH|e IH|is_and e1 IH1 e2 IH2]; intros a yes no rest so steps T B1 B2 B3;
    pose proof (zlen_nonneg steps); simpl in *.
  - destruct T as [T F]. rewrite as_u32_id, put_at_ok by lia. simpl. rewrite (get_at_ok _ _ _ T), (get_at_ok _ _ _ F). simpl.
    exists (zput so a (zlen steps)); split_and!; [apply zget_zput_eq; lia|apply agree_zput; lia|done].
  - destruct (IH a no yes ([OpNot] ++ rest) so steps) as (so'&N&A&E); [done|lia..|]. exists so'.
    rewrite <- (assoc_L (++)), E. split_and!; [done|eapply agree_mono, A; lia|]. simpl. f_equal; lia.
  - by apply IH.
  - pose proof (size_pos e1); pose proof (size_pos e2); pose proof (terms_pos e1). destruct T as [T1 T2].
    destruct (IH1 a _ _ (postfix e2 ++ [binary_op is_and] ++ rest) so steps T1) as (s1&N1&A1&E1); [lia..|].
    pose proof (agree_len _ _ _ _ A1).
    destruct (IH2 (a + size e1) _ _ ([binary_op is_and] ++ rest) s1 (steps ++ raw e1 a (if is_and then a + size e1 else yes)
      (if is_and then no else a + size e1)) T2) as (s2&N2&A2&E2); [rewrite ?zlen_app, ?zlen_raw; lia..|].
    rewrite zlen_app, zlen_raw in N2. exists s2. split_and!; [eapply numbered_agree; [exact A2|lia|done]|done| |].
    + eapply agree_trans; [eapply agree_mono, A1; lia|eapply agree_mono, A2; lia].
    + rewrite <- !(assoc_L (++)), E1, E2, <- (assoc_L (++)). destruct is_and; simpl; f_equal; lia.
Qed.

Lemma resolve_steps_app n step_of (l k l' k' : list (Step P)) :
  resolve_steps n step_of l = Ok l' -> resolve_steps n step_of k = Ok k' -> resolve_steps n step_of (l ++ k) = Ok (l' ++ k').
Proof using.
  revert l'; induction l as [|x l IH]; intros l' L K; simpl in *; [by simplify_eq|].
  destruct (resolve n step_of (sp_on_true x)) as [t| |]; [|done..]. destruct (resolve n step_of (sp_on_false x)) as [f| |]; [|done..].
  simpl in *. destruct (resolve_steps n step_of l) as [m| |]; [|done..]. simpl in L. simplify_eq.
  by rewrite (IH m eq_refl K).
Qed.

Lemma resolve_inside n step_of t v : t < n -> n < u32_max -> zget step_of t = Some v -> resolve n step_of t = Ok v.
Proof using.
  intros ?? E. unfold resolve. rewrite (proj2 (Z.eqb_neq t n)) by lia. rewrite add_u32_ok by lia. simpl.
  rewrite (proj2 (Z.eqb_neq t (n + 1))) by lia. by apply get_at_ok.
Qed.

Lemma resolve_steps_spec e n step_of : n < u32_max -> forall a first yes no yes' no',
  numbered e a first step_of -> a + size e <= n -> resolve n step_of yes = Ok yes' -> resolve n step_of no = Ok no' ->
  resolve_steps n step_of (raw e a yes no) = Ok (planned e first yes' no').
Proof using.
  intros Hn. induction e as [p|e IH|e IH|is_and e1 IH1 e2 IH2]; intros a first yes no yes' no' N B Y F; simpl in *.
  - by rewrite Y, F.
  - apply IH; done || lia.
  - by apply IH.
  - destruct N as [N1 N2]. pose proof (size_pos e1); pose proof (size_pos e2).
    assert (X : resolve n step_of (a + size e1) = Ok (first + terms e1)) by (apply resolve_inside, numbered_head with e2; done || lia).
    apply resolve_steps_app; [apply IH1|by apply IH2; done || lia]; first [lia|by destruct is_and].
Qed.

(** ** Following the steps *)

Lemma step_at_zget (steps : list (Step P)) index : step_at steps index = zget steps index.
Proof using. unfold step_at. destruct (Z.leb_spec (zlen steps) index); [by rewrite zget_ge|done]. Qed.

(** From its first step, the plan of [e] leads to the step of its answer, whatever
    stands around it. *)
Lemma follow_planned holds e : forall before after yes no,
  exists used, (used <= Z.to_nat (terms e))%nat /\ forall fuel,
    follow (used + fuel) (before ++ planned e (zlen before) yes no ++ after) holds (zlen before)
    = follow fuel (before ++ planned e (zlen before) yes no ++ after) holds (if eval holds e then yes else no).
Proof using.
  induction e as [p|e IH|e IH|is_and e1 IH1 e2 IH2]; intros before after yes no; simpl.
  - exists 1%nat. split; [lia|]. intros fuel. simpl. rewrite step_at_zget, zget_app, (proj2 (Z.ltb_ge _ _)) by lia.
    by replace (zlen before - zlen before) with 0 by lia.
  - destruct (IH before after no yes) as (u&?&E). exists u. split; [done|]. intros fuel. rewrite E. by destruct (eval holds e).
  - apply IH.
  - pose proof (terms_pos e1); pose proof (terms_pos e2).
    set (next := zlen before + terms e1). set (one := planned e1 (zlen before) _ _).
    assert (L : zlen (before ++ one) = next) by (unfold one; by rewrite zlen_app, zlen_planned).
    destruct (IH1 before (planned e2 next yes no ++ after) (if is_and then next else yes) (if is_and then no else next)) as (u1&U1&E1).
    destruct (IH2 (before ++ one) after yes no) as (u2&U2&E2). fold one in E1. rewrite L, <- (assoc_L (++)) in E2.
    rewrite <- (assoc_L (++)). destruct (Bool.eqb (eval holds e1) is_and) eqn:Eq.
    + apply Bool.eqb_prop in Eq. exists (u1 + u2)%nat. split; [lia|]. intros fuel. rewrite <- Nat.add_assoc, E1, Eq.
      replace (if is_and then if is_and then next else yes else if is_and then no else next) with next by (by destruct is_and).
      rewrite E2. by destruct is_and.
    + exists u1. split; [lia|]. intros fuel. rewrite E1. by destruct is_and, (eval holds e1).
Qed.

Lemma follow_end fuel (steps : list (Step P)) holds index : zlen steps <= index -> follow fuel steps holds index = Ok (index =? MATCH).
Proof using. intros; destruct fuel; simpl; by rewrite step_at_zget, zget_ge. Qed.

(** ** Plans *)

(** The plan of a program is the plan of its expression. *)
Lemma Plan_compile_planned e : size e < u32_max -> Plan_compile (postfix e) = Ok (planned e 0 MATCH MISS).
Proof using.
  intros B. pose proof (size_pos e). unfold Plan_compile. rewrite zlen_postfix, as_u32_id by lia.
  destruct (left_roots_spec e 0 [] [] (zrep (size e) 0)) as (lr&R&_&E); [lia|rewrite zlen_zrep; lia..|].
  rewrite app_nil_r in E. rewrite E. simpl.
  unfold root_jumps. rewrite checked_sub_ok by lia. simpl. rewrite put_at_ok by (rewrite zlen_zrep; lia). simpl.
  rewrite add_u32_ok by lia. simpl. rewrite put_at_ok by (rewrite zlen_zrep; lia). simpl.
  destruct (thread_jumps_spec e lr 0 (size e) (size e + 1) [] (zput (zrep (size e) 0) (size e - 1) (size e), zput (zrep (size e) 0) (size e - 1) (size e + 1)))
    as (j&T&_&E'); [lia|done| |].
  { unfold ready; simpl. rewrite !zlen_zput, !zget_zput_eq, !zlen_zrep by (rewrite ?zlen_zrep; lia). split_and!; done || lia. }
  rewrite app_nil_r in E'. change (0 + size e - 1) with (size e - 1) in E'. rewrite E'. simpl.
  destruct (number_steps_spec e j 0 (size e) (size e + 1) [] (zrep (size e) MISS) []) as (so&N&_&E2);
    [done|rewrite ?zlen_zrep, ?zlen_nil; lia..|].
  rewrite app_nil_r in E2. rewrite E2. simpl. apply resolve_steps_spec; [done|exact N|lia|..]; unfold resolve.
  - by rewrite Z.eqb_refl.
  - rewrite (proj2 (Z.eqb_neq _ _)) by lia. rewrite add_u32_ok by lia. simpl. by rewrite Z.eqb_refl.
Qed.

(** Following the plan from its first step decides the expression. *)
Lemma Plan_evaluate_planned holds e : size e < u32_max - 1 -> Plan_evaluate (planned e 0 MATCH MISS) holds = Ok (eval holds e).
Proof using.
  intros B. destruct (follow_planned holds e [] [] MATCH MISS) as (u&U&E). simpl in E. rewrite app_nil_r in E.
  change (zlen (@nil (Step P))) with 0 in E. pose proof (terms_pos e).
  unfold Plan_evaluate. pose proof (zlen_planned e 0 MATCH MISS) as L. unfold zlen in L.
  replace (length _) with (u + (length (planned e 0 MATCH MISS) - u))%nat at 1 by lia.
  rewrite E, follow_end; [by destruct (eval holds e)|]. rewrite zlen_planned. destruct (eval holds e); unfold MATCH, MISS; lia.
Qed.
End expressions.

(** C22: the jumps threaded through the program of an expression decide it: compiling
    the program gives a plan with one step per predicate, and following it from its
    first step ends and answers what the expression says, whichever predicates hold.
    The program is shorter than the numbers kept for the answers. *)
Theorem plan_decides {P} (e : expr P) : size e < u32_max - 1 ->
  exists plan, Plan_compile (postfix e) = Ok plan /\ zlen plan = terms e /\
    forall holds, Plan_evaluate plan holds = Ok (eval holds e).
Proof.
  intros B. exists (planned e 0 MATCH MISS). split_and!; [apply Plan_compile_planned; lia|apply zlen_planned|].
  intros holds. by apply Plan_evaluate_planned.
Qed.

(** [a || !(b && c) && d]. *)
Definition demo_expression : expr Z := EOr (ELeaf 1) (EAnd (ENot (EGroup (EAnd (ELeaf 2) (ELeaf 3)))) (ELeaf 4)).

Lemma plan_decides_witness :
  exists plan, Plan_compile (postfix demo_expression) = Ok plan /\ Plan_evaluate plan (fun p => p =? 4) = Ok true
    /\ Plan_evaluate plan (fun p => 2 <=? p) = Ok false.
Proof.
  destruct (plan_decides demo_expression) as (plan&E&_&H); [by vm_compute|]. exists plan. rewrite !H. by split_and!.
Defined.
