(* ===== verification/FilterValues.v ===== *)
(** * Display filters: values, literals and comparisons

    The values of fields ([field.rs]), the literals of filters ([filter/literal.rs]),
    and how the two compare ([filter/comparison.rs]) and are looked up in sets
    ([filter/membership.rs]).  An address is its number, a MAC address its six bytes,
    text its UTF-8 bytes.  The substring search of the [memchr] package is the
    parameter [memmem_find]. *)

From stdpp Require Import base tactics option list numbers gmap strings.
From Stdlib Require Import ZArith Lia Btauto.
From S2P Require Import Prelude FilterLexer.
Local Open Scope Z_scope.

(** ** Values and literals *)

Inductive Kind : Type :=
| KBool | KUnsigned | KSigned | KText | KBytes | KIpv4 | KIpv6 | KMac | KList | KObject | KAny.

#[export] Instance Kind_eq_dec : EqDecision Kind.
Proof. solve_decision. Defined.

Inductive Value : Type :=
| VBool (value : bool)
| VUnsigned (value : Z)
| VSigned (value : Z)
| VText (value : bytes)
| VBytes (value : bytes)
| VIpv4 (value : Z)
| VIpv6 (value : Z)
| VMac (value : bytes)
| VList (values : list Value)
| VObject (members : list (bytes * Value)).

Inductive Range : Type :=
| RUnsigned (low high : Z)
| RIpv4 (low high : Z)
| RIpv6 (low high : Z).

Inductive Literal : Type :=
| LBool (value : bool)
| LUnsigned (value : Z)
| LSigned (value : Z)
| LText (value : bytes)
| LBytes (value : bytes)
| LIpv4 (value : Z)
| LIpv6 (value : Z)
| LIpv4Net (network prefix : Z)
| LIpv6Net (network prefix : Z)
| LMac (value : bytes)
| LRange (range : Range).

Definition is_prefix (literal : Literal) : bool := match literal with LIpv4Net _ _ | LIpv6Net _ _ => true | _ => false end.
Definition is_range (literal : Literal) : bool := match literal with LRange _ => true | _ => false end.

Definition kind_name (kind : Kind) : bytes :=
  ascii_bytes match kind with
  | KBool => "a boolean" | KUnsigned => "an unsigned number" | KSigned => "a signed number" | KText => "text" | KBytes => "bytes"
  | KIpv4 => "an IPv4 address" | KIpv6 => "an IPv6 address" | KMac => "a MAC address" | KList => "a list" | KObject => "an object"
  | KAny => "a value"
  end.

(** ** Comparison *)

(** [Ord::cmp] of byte slices. *)
Fixpoint bytes_compare (a b : bytes) : comparison :=
  match a, b with
  | [], [] => Eq
  | [], _ => Lt
  | _, [] => Gt
  | x :: a, y :: b => match Z.compare x y with Eq => bytes_compare a b | other => other end
  end.

Definition bool_compare (a b : bool) : comparison := Z.compare (from_bool a) (from_bool b).

Definition prefix_mask_u32 (prefix : Z) : Z :=
  if prefix =? 0 then 0 else Z.land (Z.shiftl u32_max (saturating_sub 32 prefix)) u32_max.

Definition u128_max : Z := 2 ^ 128 - 1.
Definition prefix_mask_u128 (prefix : Z) : Z :=
  if prefix =? 0 then 0 else Z.land (Z.shiftl u128_max (saturating_sub 128 prefix)) u128_max.

Definition in_range (value : Value) (range : Range) : option bool :=
  match value, range with
  | VUnsigned value, RUnsigned low high => Some (between low high value)
  | VSigned value, RUnsigned low high => Some ((0 <=? value) && between low high value)
  | VIpv4 value, RIpv4 low high => Some (between low high value)
  | VIpv6 value, RIpv6 low high => Some (between low high value)
  | _, _ => None
  end.

Definition containment (value : Value) (literal : Literal) : option bool :=
  match value, literal with
  | VIpv4 address, LIpv4Net network prefix =>
      let mask := prefix_mask_u32 prefix in Some (Z.land address mask =? Z.land network mask)
  | VIpv6 address, LIpv6Net network prefix =>
      let mask := prefix_mask_u128 prefix in Some (Z.land address mask =? Z.land network mask)
  | _, LRange range => in_range value range
  | _, _ => None
  end.

Definition compare_value (value : Value) (literal : Literal) : option comparison :=
  match value, literal with
  | VBool l, LBool r => Some (bool_compare l r)
  | VBool l, LUnsigned r => Some (Z.compare (from_bool l) r)
  | VUnsigned l, LUnsigned r | VUnsigned l, LSigned r | VSigned l, LSigned r | VSigned l, LUnsigned r => Some (Z.compare l r)
  | VText l, LText r => Some (bytes_compare l r)
  | VBytes l, LBytes r | VBytes l, LMac r | VBytes l, LText r => Some (bytes_compare l r)
  | VBytes l, LUnsigned r => match l with [only] => Some (Z.compare only r) | _ => None end
  | VMac l, LMac r | VMac l, LBytes r => Some (bytes_compare l r)
  | VIpv4 l, LIpv4 r => Some (Z.compare l r)
  | VIpv6 l, LIpv6 r => Some (Z.compare l r)
  | _, _ => None
  end.

Definition ordered (operator : CompareOperator) (ordering : comparison) : bool :=
  match operator, ordering with
  | Equal, Eq => true
  | NotEqual, (Lt | Gt) => true
  | Greater, Gt => true
  | GreaterOrEqual, (Eq | Gt) => true
  | Less, Lt => true
  | LessOrEqual, (Eq | Lt) => true
  | _, _ => false
  end.

Fixpoint matches (value : Value) (operator : CompareOperator) (literal : Literal) : bool :=
  match containment value literal with
  | Some contained => match operator with Equal => contained | NotEqual => negb contained | _ => false end
  | None =>
      match value with
      | VList values => existsb (fun element => matches element operator literal) values
      | _ => match compare_value value literal with None => false | Some ordering => ordered operator ordering end
      end
  end.

Definition masked (value : Value) (mask : Z) (operator : CompareOperator) (expected : Z) : bool :=
  match value with
  | VUnsigned value => matches (VUnsigned (Z.land value mask)) operator (LUnsigned expected)
  | _ => false
  end.

(** ** Sets *)

(** The sets of [HashSet]s; the pair of flags is [bools]. *)
Record Index : Type := mkIndex {
  ix_bools : bool * bool;
  ix_unsigned : gset Z;
  ix_signed : gset Z;
  ix_text : gset bytes;
  ix_bytes : gset bytes;
  ix_macs : gset bytes;
  ix_ipv4 : gset Z;
  ix_ipv6 : gset Z
}.

Definition Index_default : Index := mkIndex (false, false) ∅ ∅ ∅ ∅ ∅ ∅ ∅.

Definition bools_at (bools : bool * bool) (b : bool) : bool := if b then bools.2 else bools.1.
Definition bools_set (bools : bool * bool) (b : bool) : bool * bool := if b then (bools.1, true) else (true, bools.2).

(** One member goes to the index, or to the members that are scanned. *)
Definition index_member (set : Index) (member : Literal) : Index * list Literal :=
  let '(mkIndex bools unsigned signed text bytes macs ipv4 ipv6) := set in
  match member with
  | LBool value => (mkIndex (bools_set bools value) unsigned signed text bytes macs ipv4 ipv6, [])
  | LUnsigned value => (mkIndex bools ({[value]} ∪ unsigned) signed text bytes macs ipv4 ipv6, [])
  | LSigned value => (mkIndex bools unsigned ({[value]} ∪ signed) text bytes macs ipv4 ipv6, [])
  | LText value => (mkIndex bools unsigned signed ({[value]} ∪ text) ({[value]} ∪ bytes) macs ipv4 ipv6, [])
  | LBytes value =>
      (mkIndex bools unsigned signed text ({[value]} ∪ bytes) (if zlen value =? 6 then {[value]} ∪ macs else macs) ipv4 ipv6, [])
  | LMac value => (mkIndex bools unsigned signed text ({[value]} ∪ bytes) ({[value]} ∪ macs) ipv4 ipv6, [])
  | LIpv4 value => (mkIndex bools unsigned signed text bytes macs ({[value]} ∪ ipv4) ipv6, [])
  | LIpv6 value => (mkIndex bools unsigned signed text bytes macs ipv4 ({[value]} ∪ ipv6), [])
  | LIpv4Net _ _ | LIpv6Net _ _ | LRange _ => (set, [member])
  end.

Fixpoint index_members (set : Index) (scanned members : list Literal) : Index * list Literal :=
  match members with
  | [] => (set, scanned)
  | member :: rest => let '(set, kept) := index_member set member in index_members set (scanned ++ kept) rest
  end.

Record MemberSet : Type := mkMemberSet { ms_index : option Index; ms_scanned : list Literal }.

Definition INDEXED_MINIMUM : Z := 8.

Definition MemberSet_new (members : list Literal) : MemberSet :=
  if zlen members <? INDEXED_MINIMUM then mkMemberSet None members
  else let '(set, scanned) := index_members Index_default [] members in mkMemberSet (Some set) scanned.

Definition i64_max : Z := 9223372036854775807.
Definition i64_min : Z := -9223372036854775808.

Definition has (v : Z) (set : gset Z) : bool := bool_decide (v ∈ set).
Definition has_bytes (v : bytes) (set : gset bytes) : bool := bool_decide (v ∈ set).

Definition Index_contains (index : Index) (value : Value) : bool :=
  match value with
  | VBool value => bools_at (ix_bools index) value || has (from_bool value) (ix_unsigned index)
  | VUnsigned value => has value (ix_unsigned index) || ((value <=? i64_max) && has value (ix_signed index))
  | VSigned value => has value (ix_signed index) || ((0 <=? value) && has value (ix_unsigned index))
  | VText value => has_bytes value (ix_text index)
  | VBytes value =>
      has_bytes value (ix_bytes index) || match value with [only] => has only (ix_unsigned index) | _ => false end
  | VMac value => has_bytes value (ix_macs index)
  | VIpv4 value => has value (ix_ipv4 index)
  | VIpv6 value => has value (ix_ipv6 index)
  | VList _ | VObject _ => false
  end.

Fixpoint MemberSet_contains (set : MemberSet) (value : Value) : bool :=
  match value with
  | VList values => existsb (MemberSet_contains set) values
  | _ =>
      match ms_index set with Some index => Index_contains index value | None => false end
      || existsb (fun member => matches value Equal member) (ms_scanned set)
  end.

(** ** Text search *)

Definition needle_bytes (literal : Literal) : option bytes :=
  match literal with LBytes value | LText value | LMac value => Some value | _ => None end.

Definition haystack_bytes (value : Value) : option bytes :=
  match value with VBytes value | VText value | VMac value => Some value | _ => None end.

(** A needle is its bytes. *)
Definition Needle_new (literal : Literal) : option bytes := needle_bytes literal.

Definition Needle_for_mode (literal : Literal) (mode : TextMode) : option bytes :=
  bytes ← needle_bytes literal;
  Some match mode with ContainsFold | EqualsFold => to_ascii_lowercase bytes | Prefix | Suffix => bytes end.

Definition starts_with (haystack needle : bytes) : bool := bytes_eqb (ztake (zlen needle) haystack) needle.
Definition ends_with (haystack needle : bytes) : bool :=
  (zlen needle <=? zlen haystack) && bytes_eqb (zdrop (zlen haystack - zlen needle) haystack) needle.
Definition eq_ignore_ascii_case (a b : bytes) : bool := bytes_eqb (to_ascii_lowercase a) (to_ascii_lowercase b).

Section search.
Context (memmem_find : bytes -> bytes -> option Z).

Definition Needle_find (needle haystack : bytes) : bool := is_empty needle || is_some (memmem_find needle haystack).

Fixpoint contains (value : Value) (needle : bytes) : bool :=
  match value with
  | VList values => existsb (fun element => contains element needle) values
  | _ => match haystack_bytes value with Some haystack => Needle_find needle haystack | None => false end
  end.

Definition text_test (haystack needle : bytes) (mode : TextMode) : bool :=
  match mode with
  | Prefix => starts_with haystack needle
  | Suffix => ends_with haystack needle
  | EqualsFold => eq_ignore_ascii_case haystack needle
  | ContainsFold =>
      if zlen haystack <? zlen needle then false
      else Needle_find needle (if existsb is_ascii_upper haystack then to_ascii_lowercase haystack else haystack)
  end.

Fixpoint text_match (value : Value) (needle : bytes) (mode : TextMode) : bool :=
  match value with
  | VList values => existsb (fun element => text_match element needle mode) values
  | _ => match haystack_bytes value with Some haystack => text_test haystack needle mode | None => false end
  end.
End search.

(** ** Display filters: reading literals

    [filter/literal.rs]: how a word is read as a value.  The numbers and addresses are
    read as [FromStr] of the standard library reads them.  Every literal read is in the
    bounds of its type, and a range has its ends in order. *)

(** ** Numbers *)

Definition to_digit (radix b : Z) : option Z :=
  digit ← to_hex_digit b; if digit <? radix then Some digit else None.

Fixpoint read_digits (radix max value : Z) (digits : bytes) : option Z :=
  match digits with
  | [] => Some value
  | b :: rest =>
      digit ← to_digit radix b;
      value ← checked_mul max value radix;
      value ← checked_add max value digit;
      read_digits radix max value rest
  end.

Fixpoint read_negative (min value : Z) (digits : bytes) : option Z :=
  match digits with
  | [] => Some value
  | b :: rest =>
      digit ← to_digit 10 b;
      if value * 10 <? min then None else
      if value * 10 - digit <? min then None else read_negative min (value * 10 - digit) rest
  end.

(** [from_str_radix] of an unsigned type. *)
Definition parse_unsigned (radix max : Z) (text : bytes) : option Z :=
  match text with
  | [] => None
  | b :: rest => if b =? 43 then match rest with [] => None | _ => read_digits radix max 0 rest end else read_digits radix max 0 text
  end.

Definition parse_i64 (text : bytes) : option Z :=
  match text with
  | [] => None
  | b :: rest =>
      if b =? 43 then match rest with [] => None | _ => read_digits 10 i64_max 0 rest end else
      if b =? 45 then match rest with [] => None | _ => read_negative i64_min 0 rest end
      else read_digits 10 i64_max 0 text
  end.

(** ** Addresses *)

(** [read_number]: at most [limit] digits, the value within [max]. *)
Fixpoint read_number_digits (radix max : Z) (limit : nat) (count value : Z) (text : bytes) : option (Z * Z * bytes) :=
  match text with
  | b :: rest =>
      match to_digit radix b with
      | None => Some (value, count, text)
      | Some digit =>
          match limit with
          | O => None
          | S limit => if max <? value * radix + digit then None else read_number_digits radix max limit (count + 1) (value * radix + digit) rest
          end
      end
  | [] => Some (value, count, [])
  end.

Definition next_byte_is (text : bytes) (b : Z) : bool := match text with c :: _ => c =? b | [] => false end.

Definition read_number (radix max : Z) (limit : nat) (allow_zero_prefix : bool) (text : bytes) : option (Z * bytes) :=
  '(value, count, rest) ← read_number_digits radix max limit 0 0 text;
  if count =? 0 then None else
  if negb allow_zero_prefix && next_byte_is text 48 && (1 <? count) then None else Some (value, rest).

(** [read_separator]: the separator before every part but the first. *)
Definition read_separator {A} (separator : Z) (index : Z) (read : bytes -> option (A * bytes)) (text : bytes) : option (A * bytes) :=
  if index =? 0 then read text else
  match text with b :: rest => if b =? separator then read rest else None | [] => None end.

Fixpoint read_octets (count : nat) (index value : Z) (text : bytes) : option (Z * bytes) :=
  match count with
  | O => Some (value, text)
  | S count =>
      '(octet, rest) ← read_separator 46 index (read_number 10 255 3 false) text;
      read_octets count (index + 1) (value * 256 + octet) rest
  end.

Definition read_ipv4_addr (text : bytes) : option (Z * bytes) := read_octets 4 0 0 text.

Definition parse_ipv4 (text : bytes) : option Z :=
  if 15 <? zlen text then None else
  '(value, rest) ← read_ipv4_addr text; if is_empty rest then Some value else None.

(** The groups of an address, up to [limit], whether an IPv4 address ends them, and
    what is left. *)
Fixpoint read_groups (limit : nat) (index : Z) (text : bytes) : list Z * bool * bytes :=
  match limit with
  | O => ([], false, text)
  | S limit =>
      match (if (0 <? Z.of_nat limit) then read_separator 58 index read_ipv4_addr text else None) with
      | Some (address, rest) => ([address / 65536; address mod 65536], true, rest)
      | None =>
          match read_separator 58 index (read_number 16 65535 4 true) text with
          | Some (group, rest) => let '(groups, ipv4, rest) := read_groups limit (index + 1) rest in (group :: groups, ipv4, rest)
          | None => ([], false, text)
          end
      end
  end.

Definition groups_value (groups : list Z) : Z := fold_left (fun value group => value * 65536 + group) groups 0.

Definition read_ipv6_addr (text : bytes) : option (Z * bytes) :=
  let '(head, head_ipv4, rest) := read_groups 8 0 text in
  if zlen head =? 8 then Some (groups_value head, rest) else
  if head_ipv4 then None else
  if negb (next_byte_is rest 58 && next_byte_is (zdrop 1 rest) 58) then None else
  let '(tail, _, rest) := read_groups (Z.to_nat (8 - (zlen head + 1))) 0 (zdrop 2 rest) in
  Some (groups_value (head ++ zrep (8 - zlen head - zlen tail) 0 ++ tail), rest).

Definition parse_ipv6 (text : bytes) : option Z :=
  '(value, rest) ← read_ipv6_addr text; if is_empty rest then Some value else None.

(** ** Words *)

Definition is_ascii_hexdigit (b : Z) : bool := is_some (to_hex_digit b).

Definition contains_byte (b : Z) (text : bytes) : bool := existsb (fun c => c =? b) text.

(** [split_once] and [split] at a byte, and [split_once] at two dots. *)
Fixpoint split_once (separator : Z) (text : bytes) : option (bytes * bytes) :=
  match text with
  | [] => None
  | b :: rest => if b =? separator then Some ([], rest) else '(before, after) ← split_once separator rest; Some (b :: before, after)
  end.

Fixpoint split_groups (separates : Z -> bool) (text : bytes) : list bytes :=
  match text with
  | [] => [[]]
  | b :: rest =>
      if separates b then [] :: split_groups separates rest
      else match split_groups separates rest with group :: groups => (b :: group) :: groups | [] => [[b]] end
  end.

Fixpoint split_dots (text : bytes) : option (bytes * bytes) :=
  match text with
  | [] => None
  | b :: rest => if (b =? 46) && next_byte_is rest 46 then Some ([], zdrop 1 rest) else '(before, after) ← split_dots rest; Some (b :: before, after)
  end.

Definition strip_prefix (prefix text : bytes) : option bytes :=
  if starts_with text prefix then Some (zdrop (zlen prefix) text) else None.

Fixpoint hex_group_bytes (groups : list bytes) : option bytes :=
  match groups with
  | [] => Some []
  | group :: rest =>
      if negb (zlen group =? 2) || negb (forallb is_ascii_hexdigit group) then None else
      value ← parse_unsigned 16 255 group;
      values ← hex_group_bytes rest;
      Some (value :: values)
  end.

Definition hex_groups (word : bytes) : option bytes :=
  separator ← (if contains_byte 58 word then Some 58 else if contains_byte 45 word then Some 45 else None);
  if contains_byte (if separator =? 58 then 45 else 58) word then None else
  bytes ← hex_group_bytes (split_groups (fun b => b =? separator) word);
  if 2 <=? zlen bytes then Some bytes else None.

Definition hex_prefixed (word : bytes) : option bytes :=
  match strip_prefix (ascii_bytes "0x") word with Some rest => Some rest | None => strip_prefix (ascii_bytes "0X") word end.

(** What a word without a slash or a radix prefix is: the first reading that fits. *)
Definition parse_plain (word : bytes) : option Literal :=
  match parse_ipv4 word with
  | Some value => Some (LIpv4 value)
  | None =>
      match hex_groups word with
      | Some groups => Some (if zlen groups =? 6 then LMac groups else LBytes groups)
      | None =>
          match parse_ipv6 word with
          | Some value => Some (LIpv6 value)
          | None => match parse_unsigned 10 u64_max word with Some value => Some (LUnsigned value) | None => LSigned <$> parse_i64 word end
          end
      end
  end.

Definition parse_network (address prefix : bytes) : option Literal :=
  prefix ← parse_unsigned 10 255 prefix;
  match parse_ipv4 address with
  | Some value => if prefix <=? 32 then Some (LIpv4Net value prefix) else None
  | None => value ← parse_ipv6 address; if prefix <=? 128 then Some (LIpv6Net value prefix) else None
  end.

Definition parse (word : bytes) : option Literal :=
  if bytes_eqb word (ascii_bytes "true") then Some (LBool true) else
  if bytes_eqb word (ascii_bytes "false") then Some (LBool false) else
  match hex_prefixed word with
  | Some rest => LUnsigned <$> parse_unsigned 16 u64_max rest
  | None => match split_once 47 word with Some (address, prefix) => parse_network address prefix | None => parse_plain word end
  end.

Definition is_malformed_byte_word (word : bytes) : bool :=
  let hex := forallb is_ascii_hexdigit in
  if negb (contains_byte 58 word || contains_byte 45 word) then (2 <=? zlen word) && hex word else
  existsb is_ascii_hexdigit word && forallb (fun group => (zlen group <=? 2) && hex group) (split_groups (fun b => (b =? 58) || (b =? 45)) word).

(** ** Ranges *)

Definition REVERSED_RANGE : bytes := ascii_bytes "the start of a range is above its end".

Definition is_range_end (literal : Literal) : bool := match literal with LUnsigned _ | LIpv4 _ | LIpv6 _ => true | _ => false end.

Definition range_between (low high : option Literal) : outcome bytes Literal :=
  match low, high with
  | Some low, Some high =>
      match low, high with
      | LUnsigned low, LUnsigned high => if low <=? high then Ok (LRange (RUnsigned low high)) else Err REVERSED_RANGE
      | LIpv4 low, LIpv4 high => if low <=? high then Ok (LRange (RIpv4 low high)) else Err REVERSED_RANGE
      | LIpv6 low, LIpv6 high => if low <=? high then Ok (LRange (RIpv6 low high)) else Err REVERSED_RANGE
      | _, _ =>
          if is_range_end low && is_range_end high then Err (ascii_bytes "range ends must be the same kind of value")
          else Err (ascii_bytes "range ends must be unsigned numbers or IP addresses")
      end
  | _, _ => Err (ascii_bytes "a range needs a number or address at both ends")
  end.

Definition is_endpoint (literal : option Literal) : bool :=
  match literal with Some (LUnsigned _ | LSigned _ | LIpv4 _ | LIpv6 _) => true | _ => false end.

Definition parse_range (word : bytes) : option (outcome bytes Literal) :=
  '(low, high) ← split_dots word;
  let low := parse low in
  let high := parse high in
  if negb (is_endpoint low) && negb (is_endpoint high) then None else Some (range_between low high).

Example parse_demo :
  (parse (ascii_bytes "10.0.0.1"), parse (ascii_bytes "0x1F"), parse (ascii_bytes "fe80::1"), parse (ascii_bytes "10.0.0.0/8"),
   parse (ascii_bytes "01:02:03:04:05:06"), parse (ascii_bytes "-5"), parse (ascii_bytes "tcp"), parse_range (ascii_bytes "1..9"))
  = (Some (LIpv4 167772161), Some (LUnsigned 31), Some (LIpv6 338288524927261089654018896841347694593), Some (LIpv4Net 167772160 8),
     Some (LMac [1; 2; 3; 4; 5; 6]), Some (LSigned (-5)), None, Some (Ok (LRange (RUnsigned 1 9)))).
Proof. by vm_compute. Qed.

(** ** What is read is typed *)

Definition is_byte (b : Z) : bool := between 0 255 b.

Definition literal_typed (literal : Literal) : bool :=
  match literal with
  | LBool _ | LText _ => true
  | LUnsigned value => between 0 u64_max value
  | LSigned value => between i64_min i64_max value
  | LBytes value => forallb is_byte value
  | LMac value => (zlen value =? 6) && forallb is_byte value
  | LIpv4 value => between 0 u32_max value
  | LIpv6 value => between 0 u128_max value
  | LIpv4Net network prefix => between 0 u32_max network && between 0 32 prefix
  | LIpv6Net network prefix => between 0 u128_max network && between 0 128 prefix
  | LRange (RUnsigned low high) => between 0 high low && between 0 u64_max high
  | LRange (RIpv4 low high) => between 0 high low && between 0 u32_max high
  | LRange (RIpv6 low high) => between 0 high low && between 0 u128_max high
  end.

Lemma to_digit_bounds radix b digit : to_digit radix b = Some digit -> 0 <= digit < radix.
Proof.
  unfold to_digit. intros (d&D&E)%bind_Some. destruct (Z.ltb_spec d radix); [|done]. simplify_eq.
  unfold to_hex_digit, is_ascii_digit, between in D. repeat case_match; simplify_eq; lia.
Qed.

Lemma read_digits_bounds radix max digits : forall value result, 0 <= radix -> 0 <= value <= max ->
  read_digits radix max value digits = Some result -> 0 <= result <= max.
Proof.
  induction digits as [|b rest IH]; simpl; intros value result R V E; [by simplify_eq|].
  apply bind_Some in E as (digit&D%to_digit_bounds&E). apply bind_Some in E as (v&M%checked_mul_Some&E).
  apply bind_Some in E as (w&A%checked_add_Some&E). eapply IH; [done| |exact E]. nia.
Qed.

Lemma read_negative_bounds digits : forall value result, i64_min <= value <= 0 ->
  read_negative i64_min value digits = Some result -> i64_min <= result <= 0.
Proof.
  induction digits as [|b rest IH]; simpl; intros value result V E; [by simplify_eq|].
  apply bind_Some in E as (digit&D%to_digit_bounds&E).
  destruct (Z.ltb_spec (value * 10) i64_min); [done|]. destruct (Z.ltb_spec (value * 10 - digit) i64_min); [done|].
  eapply IH; [|exact E]. lia.
Qed.

Lemma parse_unsigned_bounds radix max text value : 0 <= radix -> 0 <= max -> parse_unsigned radix max text = Some value -> 0 <= value <= max.
Proof.
  unfold parse_unsigned. intros R M E. destruct text as [|b rest]; [done|].
  destruct (b =? 43); [destruct rest as [|c rest]; [done|]|]; by eapply read_digits_bounds in E.
Qed.

Lemma parse_i64_bounds text value : parse_i64 text = Some value -> i64_min <= value <= i64_max.
Proof.
  unfold parse_i64, i64_max. intros E. destruct text as [|b rest]; [done|]. destruct (b =? 43); [|destruct (b =? 45)].
  - destruct rest; [done|]. apply read_digits_bounds in E; unfold i64_min; lia.
  - destruct rest; [done|]. apply read_negative_bounds in E; unfold i64_min in *; lia.
  - apply read_digits_bounds in E; unfold i64_min; lia.
Qed.

Lemma read_number_digits_bounds radix max limit : forall count value text result count' rest, 0 <= radix -> 0 <= value <= max ->
  read_number_digits radix max limit count value text = Some (result, count', rest) -> 0 <= result <= max.
Proof.
  induction limit as [|limit IH]; intros count value [|b text] result count' rest R V E; simpl in E; simplify_eq; try done;
    destruct (to_digit radix b) as [digit|] eqn:D; simplify_eq; try done.
  apply to_digit_bounds in D. destruct (Z.ltb_spec max (value * radix + digit)); [done|]. eapply IH; [done| |exact E]. nia.
Qed.

Lemma read_number_bounds radix max limit allow text value rest : 0 <= radix -> 0 <= max ->
  read_number radix max limit allow text = Some (value, rest) -> 0 <= value <= max.
Proof.
  intros R M. unfold read_number. intros ([[v count] r]&E&H)%bind_Some. repeat case_match; simplify_eq.
  by eapply read_number_digits_bounds in E.
Qed.

Lemma read_separator_Some {A} separator index (read : bytes -> option (A * bytes)) text x rest :
  read_separator separator index read text = Some (x, rest) -> exists text', read text' = Some (x, rest).
Proof. unfold read_separator. intros E. repeat case_match; simplify_eq; eauto. Qed.

Lemma read_octets_bounds count : forall index value text result rest, 0 <= value ->
  read_octets count index value text = Some (result, rest) -> 0 <= result < (value + 1) * 256 ^ Z.of_nat count.
Proof.
  induction count as [|count IH]; intros index value text result rest V E; [simpl in E; simplify_eq; lia|].
  cbn [read_octets] in E. apply bind_Some in E as ([octet r]&S&E). apply read_separator_Some in S as [t S].
  apply read_number_bounds in S; [|lia..]. apply IH in E; [|lia].
  rewrite Nat2Z.inj_succ, Z.pow_succ_r by lia. nia.
Qed.

Lemma read_ipv4_addr_bounds text value rest : read_ipv4_addr text = Some (value, rest) -> 0 <= value <= u32_max.
Proof. unfold read_ipv4_addr. intros E%read_octets_bounds; [|done]. change (256 ^ Z.of_nat 4) with 4294967296 in E. unfold u32_max. lia. Qed.

Lemma parse_ipv4_bounds text value : parse_ipv4 text = Some value -> 0 <= value <= u32_max.
Proof.
  unfold parse_ipv4. intros E. destruct (15 <? zlen text); [done|]. apply bind_Some in E as ([v rest]&E&H).
  destruct (is_empty rest); [|done]. simplify_eq. by eapply read_ipv4_addr_bounds.
Qed.

Definition is_group (group : Z) : Prop := 0 <= group < 65536.

Lemma read_groups_bounds limit : forall index text groups ipv4 rest, read_groups limit index text = (groups, ipv4, rest) ->
  zlen groups <= Z.of_nat limit /\ Forall is_group groups.
Proof.
  induction limit as [|limit IH]; intros index text groups ipv4 rest E; simpl in E; [by simplify_eq|].
  destruct (if 0 <? Z.of_nat limit then read_separator 58 index read_ipv4_addr text else None) as [[address r]|] eqn:A.
  - simplify_eq. destruct (Z.ltb_spec 0 (Z.of_nat limit)); [|done]. apply read_separator_Some in A as [t A%read_ipv4_addr_bounds].
    rewrite !zlen_cons, zlen_nil. split; [lia|]. unfold u32_max in A. pose proof (Z.mod_pos_bound address 65536).
    constructor; [split; [apply Z.div_pos; lia|apply Z.div_lt_upper_bound; lia]|]. constructor; [unfold is_group; lia|done].
  - destruct (read_separator 58 index (read_number 16 65535 4 true) text) as [[group r]|] eqn:G.
    + apply read_separator_Some in G as [t G%read_number_bounds]; [|lia..].
      destruct (read_groups limit (index + 1) r) as [[gs i4] r'] eqn:R. simplify_eq. apply IH in R as [L F].
      rewrite zlen_cons. split; [lia|]. constructor; [unfold is_group; lia|done].
    + simplify_eq. rewrite zlen_nil. split; [lia|done].
Qed.

Lemma groups_value_bounds groups : Forall is_group groups -> forall value, 0 <= value ->
  0 <= fold_left (fun value group => value * 65536 + group) groups value < (value + 1) * 65536 ^ zlen groups.
Proof.
  induction 1 as [|g l G F IH]; intros value V; cbn [fold_left]; [change (65536 ^ zlen (@nil Z)) with 1; lia|]. unfold is_group in G.
  rewrite zlen_cons, Z.pow_add_r by (pose proof (zlen_nonneg l); lia). rewrite Z.pow_1_r.
  specialize (IH (value * 65536 + g) ltac:(lia)). pose proof (Z.pow_pos_nonneg 65536 (zlen l) ltac:(lia) (zlen_nonneg l)). nia.
Qed.

Lemma groups_value_u128 groups : Forall is_group groups -> zlen groups = 8 -> 0 <= groups_value groups <= u128_max.
Proof.
  intros F L. pose proof (groups_value_bounds groups F 0 ltac:(lia)) as H. unfold groups_value. rewrite L in H.
  change (65536 ^ 8) with (2 ^ 128) in H. unfold u128_max. lia.
Qed.

Lemma parse_ipv6_bounds text value : parse_ipv6 text = Some value -> 0 <= value <= u128_max.
Proof.
  unfold parse_ipv6. intros ([v rest]&E&H)%bind_Some. destruct (is_empty rest); [|done]. simplify_eq. unfold read_ipv6_addr in E.
  destruct (read_groups 8 0 text) as [[head head_ipv4] r] eqn:R. apply read_groups_bounds in R as [L F].
  destruct (Z.eqb_spec (zlen head) 8); [simplify_eq; by apply groups_value_u128|]. destruct head_ipv4; [done|].
  destruct (negb (next_byte_is r 58 && next_byte_is (zdrop 1 r) 58)); [done|].
  destruct (read_groups (Z.to_nat (8 - (zlen head + 1))) 0 (zdrop 2 r)) as [[tail i4] r'] eqn:R'. simplify_eq.
  apply read_groups_bounds in R' as [L' F']. apply groups_value_u128.
  - apply Forall_app; split; [done|]. apply Forall_app; split; [|done]. apply Forall_replicate. unfold is_group. lia.
  - rewrite !zlen_app, zlen_zrep. pose proof (zlen_nonneg tail). lia.
Qed.

Lemma hex_group_bytes_typed groups : forall bytes, hex_group_bytes groups = Some bytes -> forallb is_byte bytes = true.
Proof.
  induction groups as [|group groups IH]; simpl; intros bytes E; [by simplify_eq|]. repeat case_match; simplify_eq.
  apply bind_Some in E as (v&V%parse_unsigned_bounds&E); [|lia..]. apply bind_Some in E as (l&L&E). simplify_eq. simpl.
  rewrite (IH l L). unfold is_byte, between. lia.
Qed.

Lemma between_true low high v : low <= v <= high -> between low high v = true.
Proof. unfold between. lia. Qed.

(** A literal read from a word is in the bounds of its type. *)
Lemma parse_typed word literal : parse word = Some literal -> literal_typed literal = true.
Proof.
  unfold parse. intros E. destruct (bytes_eqb word _); [by simplify_eq|]. destruct (bytes_eqb word _); [by simplify_eq|].
  destruct (hex_prefixed word) as [rest|].
  { apply fmap_Some in E as (v&V%parse_unsigned_bounds&->); [|done..]. by apply between_true. }
  destruct (split_once 47 word) as [[address prefix]|].
  - unfold parse_network in E. apply bind_Some in E as (p&P%parse_unsigned_bounds&E); [|done..].
    destruct (parse_ipv4 address) as [v|] eqn:A.
    + apply parse_ipv4_bounds in A. destruct (Z.leb_spec p 32); simplify_eq. simpl. by rewrite !between_true by lia.
    + apply bind_Some in E as (v&V%parse_ipv6_bounds&E). destruct (Z.leb_spec p 128); simplify_eq. simpl. by rewrite !between_true by lia.
  - unfold parse_plain in E. destruct (parse_ipv4 word) as [v|] eqn:A; [apply parse_ipv4_bounds in A; simplify_eq; by apply between_true|].
    destruct (hex_groups word) as [groups|] eqn:G.
    { assert (T : forallb is_byte groups = true).
      { unfold hex_groups in G. apply bind_Some in G as (sep&_&G). destruct (contains_byte _ word); [done|].
        apply bind_Some in G as (b&B%hex_group_bytes_typed&G). destruct (2 <=? zlen b); by simplify_eq. }
      simplify_eq. destruct (zlen groups =? 6) eqn:L; simpl; [by rewrite L|done]. }
    destruct (parse_ipv6 word) as [v|] eqn:B; [apply parse_ipv6_bounds in B; simplify_eq; by apply between_true|].
    destruct (parse_unsigned 10 u64_max word) as [v|] eqn:U.
    { apply parse_unsigned_bounds in U; [|done..]. simplify_eq. by apply between_true. }
    apply fmap_Some in E as (v&V%parse_i64_bounds&->). by apply between_true.
Qed.

(** The ends of a range are in order, and each in the bounds of its type. *)
Lemma parse_range_typed word literal : parse_range word = Some (Ok literal) -> literal_typed literal = true.
Proof.
  unfold parse_range. intros ([low high]&_&E)%bind_Some. destruct (negb _ && negb _); [done|]. injection E as E.
  destruct (parse low) as [l|] eqn:L; [|done]. destruct (parse high) as [h|] eqn:H; [|done]. apply parse_typed in L, H.
  destruct l, h; simpl in E, L, H; try done; case_match; simplify_eq; simpl; unfold between in *; lia.
Qed.

(** ** Display filters: sets and text search do what they say

    An indexed set holds exactly the values its members equal one by one, and every
    text operator finds what its definition over plain bytes does. *)

(** ** What the types of the code bound *)

Definition literal_ok (literal : Literal) : bool :=
  match literal with
  | LUnsigned value => between 0 u64_max value
  | LSigned value => between i64_min i64_max value
  | LMac value => zlen value =? 6
  | _ => true
  end.

Fixpoint value_ok (value : Value) : bool :=
  match value with
  | VUnsigned value => between 0 u64_max value
  | VSigned value => between i64_min i64_max value
  | VMac value => zlen value =? 6
  | VList values => forallb value_ok values
  | _ => true
  end.

Definition is_list (value : Value) : bool := match value with VList _ => true | _ => false end.

(** Induction through lists of values. *)
Lemma Value_list_ind (Q : Value -> Prop) :
  (forall value, is_list value = false -> Q value) -> (forall values, Forall Q values -> Q (VList values)) -> forall value, Q value.
Proof.
  intros base step. fix IH 1. intros [| | | | | | | |values|]; try (by apply base). apply step.
  induction values as [|v values IHv]; constructor; [apply IH|exact IHv].
Qed.

(** ** Equality *)

Lemma bytes_compare_eq a : forall b, ordered Equal (bytes_compare a b) = bytes_eqb a b.
Proof.
  induction a as [|x a IH]; intros [|y b]; try done. cbn [bytes_compare]. unfold bytes_eqb in *.
  destruct (Z.compare_spec x y) as [-> |L|L].
  - rewrite IH. apply bool_decide_ext. naive_solver.
  - symmetry; apply bool_decide_eq_false_2. intros ?; simplify_eq; lia.
  - symmetry; apply bool_decide_eq_false_2. intros ?; simplify_eq; lia.
Qed.

Lemma compare_eq a b : ordered Equal (a ?= b) = (a =? b).
Proof. destruct (Z.compare_spec a b); simpl; symmetry; [by apply Z.eqb_eq|apply Z.eqb_neq; lia..]. Qed.

Lemma bool_compare_eq a b : ordered Equal (bool_compare a b) = Bool.eqb a b.
Proof. by destruct a, b. Qed.

Lemma has_insert v x set : has v ({[x]} ∪ set) = (v =? x) || has v set.
Proof.
  unfold has. destruct (Z.eqb_spec v x) as [-> |N]; simpl; [apply bool_decide_eq_true_2; set_solver|].
  apply bool_decide_ext. set_solver.
Qed.

Lemma has_bytes_insert v x set : has_bytes v ({[x]} ∪ set) = bytes_eqb v x || has_bytes v set.
Proof.
  unfold has_bytes, bytes_eqb. destruct (decide (v = x)) as [-> |N].
  - rewrite (bool_decide_eq_true_2 (x = x)) by done. apply bool_decide_eq_true_2. set_solver.
  - rewrite (bool_decide_eq_false_2 (v = x)) by done. simpl. apply bool_decide_ext. set_solver.
Qed.

Lemma bools_at_set bools a b : bools_at (bools_set bools a) b = Bool.eqb b a || bools_at bools b.
Proof. by destruct a, b; simpl; rewrite ?orb_true_r. Qed.

(** ** One member *)

(** A member of another length than a MAC address equals none. *)
Lemma bytes_eqb_length v x : zlen v <> zlen x -> bytes_eqb v x = false.
Proof. intros N. unfold bytes_eqb. apply bool_decide_eq_false_2. by intros ->. Qed.

Lemma unsigned_bound v x : between i64_min i64_max x = true -> (v <=? i64_max) && (v =? x) = (v =? x).
Proof. unfold between. intros. destruct (Z.eqb_spec v x); [|by rewrite andb_false_r]. subst. lia. Qed.

Lemma signed_bound v x : between 0 u64_max x = true -> (0 <=? v) && (v =? x) = (v =? x).
Proof. unfold between. intros. destruct (Z.eqb_spec v x); [|by rewrite andb_false_r]. subst. lia. Qed.

Lemma index_member_exact set member value : is_list value = false -> literal_ok member = true -> value_ok value = true ->
  Index_contains (index_member set member).1 value || existsb (fun m => matches value Equal m) (index_member set member).2
  = Index_contains set value || matches value Equal member.
Proof.
  intros S L V. destruct set as [bools unsigned signed text bytes macs ipv4 ipv6].
  destruct member as [b|x|x|x|x|x|x| | |x|]; simpl index_member; cbv [fst snd]; rewrite ?orb_false_r.
  all: try (simpl (existsb _ _); by rewrite orb_false_r).
  all: simpl in L; destruct value as [w|v|v|v|v|v|v|v|vs|ms]; simpl in S, V; try done; cbn -[ordered];
    rewrite ?has_insert, ?has_bytes_insert, ?bools_at_set, ?compare_eq, ?bytes_compare_eq, ?bool_compare_eq; try btauto.
  - rewrite andb_orb_distrib_r, signed_bound by done. btauto.
  - destruct v as [|only []]; cbn -[ordered]; rewrite ?has_insert, ?compare_eq; btauto.
  - rewrite andb_orb_distrib_r, unsigned_bound by done. btauto.
  - destruct (Z.eqb_spec (zlen x) 6) as [E|E]; [rewrite has_bytes_insert; btauto|]. rewrite bytes_eqb_length by lia. btauto.
Qed.

Lemma index_members_exact value members : is_list value = false -> value_ok value = true -> forallb literal_ok members = true ->
  forall set scanned, let '(set', scanned') := index_members set scanned members in
  Index_contains set' value || existsb (fun m => matches value Equal m) scanned'
  = (Index_contains set value || existsb (fun m => matches value Equal m) scanned) || existsb (fun m => matches value Equal m) members.
Proof.
  intros S V. induction members as [|member members IH]; simpl; intros L set scanned; [by rewrite orb_false_r|].
  apply andb_true_iff in L as [L1 L2]. pose proof (index_member_exact set member value S L1 V) as E.
  destruct (index_member set member) as [set1 kept]. simpl in E. specialize (IH L2 set1 (scanned ++ kept)).
  destruct (index_members set1 (scanned ++ kept) members) as [set' scanned']. rewrite IH, existsb_app.
  transitivity ((Index_contains set1 value || existsb (fun m => matches value Equal m) kept) || existsb (fun m => matches value Equal m) scanned
    || existsb (fun m => matches value Equal m) members); [btauto|]. rewrite E. btauto.
Qed.

Lemma Index_default_empty value : Index_contains Index_default value = false.
Proof.
  destruct value as [[]|v|v|v|[|only []]|v|v|v|vs|ms]; simpl; unfold has, has_bytes; rewrite ?bool_decide_eq_false_2 by set_solver; btauto.
Qed.

Lemma existsb_swap {A B} (f : A -> B -> bool) l k :
  existsb (fun a => existsb (f a) k) l = existsb (fun b => existsb (fun a => f a b) l) k.
Proof.
  apply eq_true_iff_eq. rewrite !existsb_exists. setoid_rewrite existsb_exists. naive_solver.
Qed.

Lemma existsb_ext_in {A} (f g : A -> bool) l : Forall (fun a => f a = g a) l -> existsb f l = existsb g l.
Proof. induction 1 as [|a l E _ IH]; simpl; [done|]. by rewrite E, IH. Qed.

Lemma matches_list values operator literal : matches (VList values) operator literal = existsb (fun element => matches element operator literal) values.
Proof. by destruct literal as [| | | | | | | | | |[]]. Qed.

(** A set holds a value when a member equals it, however large the set is. *)
Lemma set_contains_exact members value : forallb literal_ok members = true -> value_ok value = true ->
  MemberSet_contains (MemberSet_new members) value = existsb (fun member => matches value Equal member) members.
Proof.
  intros L. revert value. refine (Value_list_ind _ _ _).
  - intros value S V. assert (E : MemberSet_contains (MemberSet_new members) value
      = match ms_index (MemberSet_new members) with Some index => Index_contains index value | None => false end
        || existsb (fun member => matches value Equal member) (ms_scanned (MemberSet_new members))) by (by destruct value).
    rewrite E. unfold MemberSet_new. destruct (zlen members <? INDEXED_MINIMUM); [done|].
    pose proof (index_members_exact value members S V L Index_default []) as X.
    destruct (index_members Index_default [] members) as [set scanned]. simpl. rewrite X, Index_default_empty. done.
  - intros values F V. simpl in V. cbn [MemberSet_contains]. rewrite (existsb_ext_in _ (fun v => existsb (fun member => matches v Equal member) members)).
    + rewrite existsb_swap. apply existsb_ext_in, Forall_forall. intros m _. by rewrite matches_list.
    + apply Forall_forall. intros v Hv. rewrite Forall_forall in F. apply F; [done|].
      rewrite forallb_forall in V. apply V. by apply list_elem_of_In.
Qed.

(** ** Text *)

(** [needle] somewhere in [haystack]. *)
Definition infix_of (needle haystack : bytes) : Prop := exists before after, haystack = before ++ needle ++ after.

(** What the substring search of the [memchr] package documents. *)
Class FindsInfix (memmem_find : bytes -> bytes -> option Z) : Prop :=
  finds_infix : forall needle haystack, is_some (memmem_find needle haystack) = true <-> infix_of needle haystack.

(** What each operator means for the bytes of a value and those of the literal. *)
Definition text_meaning (mode : TextMode) (haystack literal : bytes) : Prop :=
  match mode with
  | Prefix => exists after, haystack = literal ++ after
  | Suffix => exists before, haystack = before ++ literal
  | ContainsFold => infix_of (to_ascii_lowercase literal) (to_ascii_lowercase haystack)
  | EqualsFold => to_ascii_lowercase haystack = to_ascii_lowercase literal
  end.

(** Some scalar of the value has the bytes [Q] asks for. *)
Fixpoint some_text (Q : bytes -> Prop) (value : Value) : Prop :=
  match value with
  | VList values => fold_right (fun element rest => some_text Q element \/ rest) False values
  | VBytes text | VText text | VMac text => Q text
  | _ => False
  end.

Lemma lowercase_idem l : to_ascii_lowercase (to_ascii_lowercase l) = to_ascii_lowercase l.
Proof.
  unfold to_ascii_lowercase. rewrite map_map. apply map_ext. intros b. unfold is_ascii_upper, between.
  destruct ((65 <=? b) && (b <=? 90)) eqn:E; [|by rewrite E]. destruct ((65 <=? b + 32) && (b + 32 <=? 90)) eqn:E'; lia.
Qed.

Lemma lowercase_same l : existsb is_ascii_upper l = false -> to_ascii_lowercase l = l.
Proof. induction l as [|b l IH]; simpl; [done|]. intros [-> E]%orb_false_iff. by rewrite IH. Qed.

Lemma zlen_lowercase l : zlen (to_ascii_lowercase l) = zlen l.
Proof. unfold zlen, to_ascii_lowercase. by rewrite length_map. Qed.

Lemma starts_with_spec haystack needle : starts_with haystack needle = true <-> exists after, haystack = needle ++ after.
Proof.
  unfold starts_with. rewrite bytes_eqb_spec. split.
  - intros E. exists (zdrop (zlen needle) haystack). rewrite <- E at 1. by rewrite ztake_zdrop_app.
  - intros [after ->]. unfold ztake, zlen. rewrite Nat2Z.id. by apply take_app_length.
Qed.

Lemma ends_with_spec haystack needle : ends_with haystack needle = true <-> exists before, haystack = before ++ needle.
Proof.
  unfold ends_with. rewrite andb_true_iff, bytes_eqb_spec. split.
  - intros [_ E]. exists (ztake (zlen haystack - zlen needle) haystack). rewrite <- E at 2. by rewrite ztake_zdrop_app.
  - intros [before ->]. rewrite zlen_app. split; [pose proof (zlen_nonneg before); lia|].
    replace (zlen before + zlen needle - zlen needle) with (zlen before) by lia.
    unfold zdrop, zlen. rewrite Nat2Z.id. apply drop_app_length.
Qed.

Section text.
Context (memmem_find : bytes -> bytes -> option Z) {MF : FindsInfix memmem_find}.

Lemma Needle_find_spec needle haystack : Needle_find memmem_find needle haystack = true <-> infix_of needle haystack.
Proof using MF.
  unfold Needle_find. rewrite orb_true_iff, finds_infix. split; [|by right].
  intros [E|]; [|done]. destruct needle; [|done]. by exists [], haystack.
Qed.

Lemma infix_of_length needle haystack : infix_of needle haystack -> zlen needle <= zlen haystack.
Proof using. intros (a&b&->). rewrite !zlen_app. pose proof (zlen_nonneg a); pose proof (zlen_nonneg b). lia. Qed.

Lemma text_test_spec literal mode needle haystack text :
  needle_bytes literal = Some text -> Needle_for_mode literal mode = Some needle ->
  text_test memmem_find haystack needle mode = true <-> text_meaning mode haystack text.
Proof using MF.
  unfold Needle_for_mode. intros -> N. simpl in N. simplify_eq. destruct mode; simpl.
  - apply starts_with_spec.
  - apply ends_with_spec.
  - replace (if existsb is_ascii_upper haystack then to_ascii_lowercase haystack else haystack) with (to_ascii_lowercase haystack)
      by (destruct (existsb is_ascii_upper haystack) eqn:E; [done|by apply lowercase_same]).
    destruct (Z.ltb_spec (zlen haystack) (zlen (to_ascii_lowercase text))) as [L|L]; [|apply Needle_find_spec].
    split; [done|]. intros I%infix_of_length. rewrite !zlen_lowercase in *. lia.
  - unfold eq_ignore_ascii_case. by rewrite bytes_eqb_spec, lowercase_idem.
Qed.

Lemma existsb_fold {A} (f : A -> bool) (Q : A -> Prop) l : Forall (fun a => f a = true <-> Q a) l ->
  existsb f l = true <-> fold_right (fun a rest => Q a \/ rest) False l.
Proof using. induction 1 as [|a l E _ IH]; simpl; [done|]. by rewrite orb_true_iff, E, IH. Qed.

(** A text operator holds of a value when some text in it means so. *)
Lemma text_match_exact literal mode needle text value :
  needle_bytes literal = Some text -> Needle_for_mode literal mode = Some needle ->
  text_match memmem_find value needle mode = true <-> some_text (fun haystack => text_meaning mode haystack text) value.
Proof using MF.
  intros T N. revert value. refine (Value_list_ind _ _ _).
  - intros [] S; try done; simpl; by apply (text_test_spec literal).
  - intros values F. apply existsb_fold, F.
Qed.

Lemma contains_exact literal needle value : Needle_new literal = Some needle ->
  contains memmem_find value needle = true <-> some_text (fun haystack => infix_of needle haystack) value.
Proof using MF.
  intros _. revert value. refine (Value_list_ind _ _ _).
  - intros [] S; try done; simpl; by apply Needle_find_spec.
  - intros values F. apply existsb_fold, F.
Qed.
End text.
