(* ===== verification/FilterGrammar.v ===== *)
(** * Display filters: the grammar the operator stack recognises

    [parses] is the grammar of filters over tokens: [||] binds less than [&&], which
    binds less than [!], both binary operators to the left.  The operator stack of
    [parser.rs] accepts the tokens the grammar derives, within its limits, and gives
    the postfix program of the expression. *)

From stdpp Require Import base tactics option list numbers relations.
From Stdlib Require Import ZArith Lia.
From S2P Require Import Prelude FilterLexer FilterCompile.
Local Open Scope Z_scope.

(** What a parser of predicates promises to the operator stack: it reads one token at
    least and none past the last. *)
Class PredicateParser {P : Type}
  (parse_predicate : FilterLimits -> list Spanned -> Z -> Requirements -> outcome FilterError (P * Z * Requirements)) : Prop := {
  parse_forward : forall limits tokens i r predicate next r', 0 <= i < zlen tokens -> zlen tokens <= usize_max ->
    parse_predicate limits tokens i r = Ok (predicate, next, r') -> i < next <= zlen tokens;
  parse_total : forall limits tokens i r, 0 <= i < zlen tokens -> zlen tokens <= usize_max -> parse_predicate limits tokens i r <> Panic
}.

Section grammar.
Context {P : Type}.
Context (parse_predicate : FilterLimits -> list Spanned -> Z -> Requirements -> outcome FilterError (P * Z * Requirements)).
Context (limits : FilterLimits) (tokens : list Spanned).
Implicit Types (e x y : expr P) (r : Requirements) (c : @Compiler P).

Definition token_at (i : Z) (t : Token) : Prop := sp_token <$> zget tokens i = Some t.

Definition binary_token (is_and : bool) : Token := if is_and then And else Or.
Definition binary_level (is_and : bool) : Z := if is_and then 2 else 1.
Definition binary_operator (is_and : bool) : Operator := if is_and then AndOperator else OrOperator.

(** [parses level i r j r' e]: the tokens from [i] to [j] spell [e], whose operators
    outside parentheses bind at [level] or tighter, and its predicates take the
    requirements from [r] to [r']. *)
Inductive parses : Z -> Z -> Requirements -> Z -> Requirements -> expr P -> Prop :=
| parses_leaf i r word predicate j r' :
    token_at i (Word word) -> parse_predicate limits tokens i r = Ok (predicate, j, r') ->
    parses 3 i r j r' (ELeaf predicate)
| parses_group i r j r' e :
    token_at i LeftParen -> parses 1 (i + 1) r j r' e -> token_at j RightParen ->
    parses 3 i r (j + 1) r' (EGroup e)
| parses_not i r j r' e :
    token_at i Not -> parses 3 (i + 1) r j r' e -> parses 3 i r j r' (ENot e)
| parses_binary is_and i r j r1 k r2 x y :
    parses (binary_level is_and) i r j r1 x -> token_at j (binary_token is_and) ->
    parses (binary_level is_and + 1) (j + 1) r1 k r2 y ->
    parses (binary_level is_and) i r k r2 (EBinary is_and x y)
| parses_tighter level level' i r j r' e :
    level <= level' -> parses level' i r j r' e -> parses level i r j r' e.

(** How deep parentheses nest. *)
Fixpoint nesting e : Z :=
  match e with
  | ELeaf _ => 0
  | ENot e => nesting e
  | EGroup e => nesting e + 1
  | EBinary _ x y => Z.max (nesting x) (nesting y)
  end.

Definition within e : Prop := nesting e <= fl_max_nesting limits /\ terms e <= fl_max_terms limits.

Lemma nesting_nonneg e : 0 <= nesting e.
Proof using. induction e; simpl; lia. Qed.

Context {PP : PredicateParser parse_predicate}.
Context (Hlimits : FilterLimits_validate limits = Ok tt) (Hnesting : 0 <= fl_max_nesting limits) (Htokens : zlen tokens <= usize_max).

Lemma limits_bounds : fl_max_nesting limits <= 64 /\ fl_max_terms limits <= 1024.
Proof using Hlimits.
  revert Hlimits. unfold FilterLimits_validate, MAX_FILTER_NESTING, MAX_FILTER_TERMS. intros.
  destruct (Z.ltb_spec 64 (fl_max_nesting limits)), (Z.ltb_spec 1024 (fl_max_terms limits)); simplify_eq; done.
Qed.

Lemma token_at_Some i t : token_at i t -> exists offset, zget tokens i = Some (mkSpanned t offset) /\ 0 <= i < zlen tokens.
Proof using.
  unfold token_at. intros E. destruct (zget tokens i) as [[? offset]|] eqn:G; [|done]. simpl in E. simplify_eq.
  exists offset. split; [done|]. by eapply zget_Some_lt.
Qed.

Lemma next_index i : i < zlen tokens -> saturating_add usize_max i 1 = i + 1.
Proof using Htokens. intros. unfold saturating_add. lia. Qed.

Lemma count_up n m : n < m -> m <= 1024 -> saturating_add usize_max n 1 = n + 1.
Proof using. intros. unfold saturating_add, usize_max, u64_max. lia. Qed.

Lemma parses_bounds level i r j r' e : parses level i r j r' e -> 0 <= i < j /\ j <= zlen tokens /\ level <= 3.
Proof using PP Htokens.
  induction 1 as [i r w p j r' T E|i r j r' e T _ IH T'|i r j r' e T _ IH|a i r j r1 k r2 x y _ IH1 T _ IH2|level level' i r j r' e L _ IH].
  - apply token_at_Some in T as (o&T&B). pose proof (parse_forward _ _ _ _ _ _ _ B Htokens E). lia.
  - apply token_at_Some in T as (o&T&B), T' as (o'&T'&B'). lia.
  - apply token_at_Some in T as (o&T&B). lia.
  - destruct a; simpl in *; lia.
  - lia.
Qed.

(** ** Every derivation is found *)

(** One turn of the loop. *)
Definition turn c : outcome FilterError Compiler :=
  if cm_expect_operand c then consume_operand parse_predicate limits tokens c else consume_operator tokens c.

Definition moves c c' : Prop := 0 <= cm_index c < cm_index c' /\ cm_index c' <= zlen tokens /\ turn c = Ok c'.

(** No operator of the top of the stack takes part in an expression of [level]. *)
Definition blocks (level : Z) (operators : list PendingOperator) : Prop :=
  match operators with PendingOp top :: _ => precedence top < level \/ 3 <= level | _ => True end.

Definition pending (operators : list Operator) : list PendingOperator := map PendingOp operators.
Definition ops (operators : list Operator) : list (Op P) := map into_op operators.

Lemma pending_snoc operators o S : pending (operators ++ [o]) ++ S = pending operators ++ PendingOp o :: S.
Proof using. unfold pending. by rewrite map_app, <- (assoc_L (++)). Qed.

Lemma pop_tighter_pending incoming operators S (program : list (Op P)) :
  Forall (fun o => precedence incoming <= precedence o) operators -> blocks (precedence incoming) S -> precedence incoming < 3 ->
  pop_tighter incoming (pending operators ++ S) program = (S, program ++ ops operators).
Proof using.
  intros F B L. revert program; induction F as [|o l H F IH]; intros program; simpl.
  - rewrite app_nil_r. destruct S as [|[top|] S]; simpl in *; [done| |done]. by rewrite (proj2 (Z.ltb_lt _ _)) by lia.
  - rewrite (proj2 (Z.ltb_ge _ _)) by lia. rewrite IH, <- (assoc_L (++)). done.
Qed.

Lemma pop_to_paren_pending operators S (program : list (Op P)) :
  pop_to_paren (pending operators ++ PendingParen :: S) program = Some (S, program ++ ops operators).
Proof using.
  revert program; induction operators as [|o l IH]; intros program; simpl; [by rewrite app_nil_r|].
  by rewrite IH, <- (assoc_L (++)).
Qed.

Lemma flush_pending len operators (program : list (Op P)) :
  flush_operators len (pending operators) program = Ok (program ++ ops operators).
Proof using.
  revert program; induction operators as [|o l IH]; intros program; simpl; [by rewrite app_nil_r|].
  by rewrite IH, <- (assoc_L (++)).
Qed.

(** The state before an operand, and after one: [q] and [operators] hold its program. *)
Definition before_operand (program : list (Op P)) S r d t i : Compiler := mkCompiler program S r true d t i.
Definition after_operand (program : list (Op P)) S r d t i : Compiler := mkCompiler program S r false d t i.

Lemma move_paren program S r d t i : token_at i LeftParen -> d + 1 <= fl_max_nesting limits ->
  moves (before_operand program S r d t i) (before_operand program (PendingParen :: S) r (d + 1) t (i + 1)).
Proof using Hlimits Htokens.
  intros T D. apply token_at_Some in T as (o&T&B). pose proof limits_bounds. split_and!; simpl; [lia..|].
  unfold turn, consume_operand; simpl. rewrite T; simpl. rewrite (count_up d (fl_max_nesting limits)), next_index by lia.
  by rewrite (proj2 (Z.ltb_ge _ _)) by lia.
Qed.

Lemma move_not program S r d t i : token_at i Not ->
  moves (before_operand program S r d t i) (before_operand program (PendingOp NotOperator :: S) r d t (i + 1)).
Proof using Htokens.
  intros T. apply token_at_Some in T as (o&T&B). split_and!; simpl; [lia..|].
  unfold turn, consume_operand; simpl. rewrite T; simpl. by rewrite next_index by lia.
Qed.

Lemma move_leaf program S r d t i word predicate j r' :
  token_at i (Word word) -> parse_predicate limits tokens i r = Ok (predicate, j, r') -> t + 1 <= fl_max_terms limits ->
  moves (before_operand program S r d t i) (after_operand (program ++ [Leaf predicate]) S r' d (t + 1) j).
Proof using PP Hlimits Htokens.
  intros T E D. apply token_at_Some in T as (o&T&B). pose proof limits_bounds. pose proof (parse_forward _ _ _ _ _ _ _ B Htokens E).
  split_and!; simpl; [lia..|].
  unfold turn, consume_operand; simpl. rewrite T; simpl. rewrite (count_up t (fl_max_terms limits)) by lia.
  rewrite (proj2 (Z.ltb_ge _ _)) by lia. by rewrite E.
Qed.

Lemma move_binary is_and program operators S r d t j :
  token_at j (binary_token is_and) -> Forall (fun o => binary_level is_and <= precedence o) operators ->
  blocks (binary_level is_and) S ->
  moves (after_operand program (pending operators ++ S) r d t j)
    (before_operand (program ++ ops operators) (PendingOp (binary_operator is_and) :: S) r d t (j + 1)).
Proof using Htokens.
  intros T F B. apply token_at_Some in T as (o&T&Bj). split_and!; simpl; [lia..|].
  unfold turn, consume_operator; simpl. rewrite T; simpl.
  destruct is_and; simpl; unfold consume_binary; simpl; by rewrite pop_tighter_pending, next_index by done || lia.
Qed.

Lemma move_close program operators S r d t j : token_at j RightParen -> 0 <= d ->
  moves (after_operand program (pending operators ++ PendingParen :: S) r (d + 1) t j)
    (after_operand (program ++ ops operators) S r d t (j + 1)).
Proof using Htokens.
  intros T D. apply token_at_Some in T as (o&T&Bj). split_and!; simpl; [lia..|].
  unfold turn, consume_operator; simpl. rewrite T; simpl. rewrite (proj2 (Z.eqb_neq _ _)) by lia.
  rewrite pop_to_paren_pending, next_index by lia. unfold saturating_sub. do 2 f_equal. lia.
Qed.

Lemma binary_operator_into is_and : into_op (P := P) (binary_operator is_and) = binary_op is_and.
Proof using. by destruct is_and. Qed.

Lemma binary_precedence is_and : precedence (binary_operator is_and) = binary_level is_and.
Proof using. by destruct is_and. Qed.

Lemma parses_runs level i r j r' e : parses level i r j r' e -> forall program S d t,
  blocks level S -> 0 <= d -> d + nesting e <= fl_max_nesting limits -> t + terms e <= fl_max_terms limits ->
  exists q operators, rtc moves (before_operand program S r d t i) (after_operand (program ++ q) (pending operators ++ S) r' d (t + terms e) j) /\
    q ++ ops operators = postfix e /\ Forall (fun o => level <= precedence o) operators.
Proof using PP Hlimits Htokens.
  induction 1 as [i r w p j r' T E|i r j r' e T _ IH T'|i r j r' e T _ IH|a i r j r1 k r2 x y _ IH1 T _ IH2|level level' i r j r' e L _ IH];
    intros program S d t B D N M; simpl in *.
  - exists [Leaf p], []. split_and!; [|done..]. apply rtc_once. by eapply move_leaf.
  - pose proof (nesting_nonneg e). destruct (IH program (PendingParen :: S) (d + 1) t) as (q&l&R&E&F); [done|lia..|].
    exists (postfix e), []. split_and!; [|by rewrite app_nil_r|done].
    eapply rtc_l; [apply move_paren; done || lia|]. eapply rtc_r; [exact R|].
    rewrite <- E, (assoc_L (++)). by apply move_close.
  - destruct (IH program (PendingOp NotOperator :: S) d t) as (q&l&R&E&F); [simpl; lia|lia..|].
    exists q, (l ++ [NotOperator]). split_and!.
    + eapply rtc_l; [by apply move_not|]. by rewrite pending_snoc.
    + unfold ops. rewrite map_app, (assoc_L (++)). by f_equal.
    + apply Forall_app; split; [done|]. by repeat constructor.
  - pose proof (terms_pos x); pose proof (terms_pos y).
    destruct (IH1 program S d t) as (q1&l1&R1&E1&F1); [done|lia..|].
    destruct (IH2 ((program ++ q1) ++ ops l1) (PendingOp (binary_operator a) :: S) d (t + terms x)) as (q2&l2&R2&E2&F2);
      [simpl; rewrite binary_precedence; destruct a; simpl; lia|lia..|].
    exists (q1 ++ ops l1 ++ q2), (l2 ++ [binary_operator a]). split_and!.
    + etrans; [exact R1|]. eapply rtc_l; [by apply move_binary|].
      by rewrite pending_snoc, Z.add_assoc, !(assoc_L (++)).
    + unfold ops in *. rewrite map_app, <- E1, <- E2, <- !(assoc_L (++)). simpl. by rewrite binary_operator_into.
    + apply Forall_app; split; [eapply Forall_impl; [exact F2|]; simpl; intros; lia|].
      constructor; [by rewrite binary_precedence|done].
  - destruct (IH program S d t) as (q&l&R&E&F); [|lia..|].
    + destruct S as [|[]]; simpl in *; lia || done.
    + exists q, l. split_and!; [done..|]. eapply Forall_impl; [exact F|]. simpl. intros. lia.
Qed.

Lemma moves_loop c c' : rtc moves c c' -> forall fuel, (Z.to_nat (zlen tokens - cm_index c) <= fuel)%nat ->
  exists fuel', (Z.to_nat (zlen tokens - cm_index c') <= fuel')%nat /\
    compile_loop parse_predicate limits tokens fuel c = compile_loop parse_predicate limits tokens fuel' c'.
Proof using.
  induction 1 as [c|c c1 c2 (I&L&E) _ IH]; intros fuel F; [by exists fuel|].
  destruct fuel as [|fuel]; [lia|]. destruct (IH fuel) as (f&?&E'); [lia|]. exists f. split; [done|].
  rewrite <- E'. simpl. rewrite (proj2 (Z.leb_gt _ _)) by lia. unfold turn in E. by rewrite E.
Qed.

Lemma grammar_complete source_len r e :
  parses 1 0 Requirements_default (zlen tokens) r e -> within e ->
  Compiler_compile parse_predicate limits tokens source_len = Ok (postfix e, r).
Proof using PP Hlimits Htokens.
  intros D [N T]. destruct (parses_runs _ _ _ _ _ _ D [] [] 0 0) as (q&l&R&E&_); [done|lia..|].
  simpl in R. rewrite app_nil_r in R.
  destruct (moves_loop _ _ R (length tokens)) as (fuel&_&E'); [simpl; unfold zlen; lia|].
  unfold Compiler_compile. change (Compiler_new) with (before_operand [] [] Requirements_default 0 0 0). rewrite E'.
  assert (Z : compile_loop parse_predicate limits tokens fuel (after_operand q (pending l) r 0 (terms e) (zlen tokens))
    = Ok (after_operand q (pending l) r 0 (terms e) (zlen tokens))) by (destruct fuel; simpl; by rewrite Z.leb_refl).
  change (0 + terms e) with (terms e). rewrite Z. simpl. unfold finish; simpl. rewrite flush_pending. simpl. by rewrite E.
Qed.

(** ** Nothing else is accepted *)

(** What the stack, the program and the index stand for while an operand is expected:
    the operators wait for it over their left operands. *)
Inductive waiting : list PendingOperator -> list (Op P) -> Requirements -> Z -> Z -> Z -> Prop :=
| waiting_start : waiting [] [] Requirements_default 0 0 0
| waiting_paren S program r d t i :
    waiting S program r d t i -> token_at i LeftParen -> d + 1 <= fl_max_nesting limits ->
    waiting (PendingParen :: S) program r (d + 1) t (i + 1)
| waiting_not S program r d t i :
    waiting S program r d t i -> token_at i Not -> waiting (PendingOp NotOperator :: S) program r d t (i + 1)
| waiting_binary is_and S program r d t i j r' e :
    waiting S program r d t i -> blocks (binary_level is_and) S -> parses (binary_level is_and) i r j r' e ->
    token_at j (binary_token is_and) -> d + nesting e <= fl_max_nesting limits -> t + terms e <= fl_max_terms limits ->
    waiting (PendingOp (binary_operator is_and) :: S) (program ++ postfix e) r' d (t + terms e) (j + 1).

(** The stack holds an operand of [level], which ends at [j]. *)
Definition holding (level : Z) S program r d t j : Prop :=
  exists before r0 t0 i e, waiting S before r0 d t0 i /\ blocks level S /\ parses level i r0 j r e /\
    program = before ++ postfix e /\ t = t0 + terms e /\ d + nesting e <= fl_max_nesting limits /\ t <= fl_max_terms limits.

Lemma waiting_depth S program r d t i : waiting S program r d t i -> 0 <= d /\ 0 <= t /\ 0 <= i.
Proof using PP Htokens.
  induction 1 as [|S p r d t i _ IH T D|S p r d t i _ IH T|a S p r d t i j r' e _ IH B D T N M]; [lia..|].
  apply parses_bounds in D. pose proof (terms_pos e). lia.
Qed.

Lemma waiting_nesting S program r d t i : waiting S program r d t i -> d <= fl_max_nesting limits.
Proof using Hnesting. induction 1; lia. Qed.

(** An operator on top of the stack takes the operand. *)
Lemma holding_reduce level o S program r d t j :
  holding level (PendingOp o :: S) program r d t j -> holding (precedence o) S (program ++ [into_op o]) r d t j.
Proof using PP Htokens.
  intros (before&r0&t0&i&e&W&B&D&->&->&N&M). simpl in B. destruct (parses_bounds _ _ _ _ _ _ D) as (?&?&L3).
  inversion W as [| |S' p r1 d' t' i' W' T|a S' p r1 d' t' i' k r2 x W' B' D' T N' M']; subst.
  - exists before, r0, t0, i', (ENot e). split_and!; [done|destruct S as [|[]]; simpl; lia || done| |..|done]; simpl; [|by rewrite (assoc_L (++))|done|lia].
    apply parses_not; [done|]. eapply parses_tighter; [|exact D]. simpl in B. lia.
  - exists p, r1, t', i', (EBinary a x e). rewrite binary_precedence, binary_operator_into in *.
    split_and!; [done|done| |simpl; by rewrite <- !(assoc_L (++))|simpl; lia|simpl; lia|lia].
    eapply parses_binary; [done|done|]. eapply parses_tighter; [|exact D]. destruct a; simpl in *; lia.
Qed.

Lemma pop_tighter_holding incoming level S program r d t j S' program' :
  holding level S program r d t j -> precedence incoming <= level -> precedence incoming < 3 ->
  pop_tighter incoming S program = (S', program') ->
  blocks (precedence incoming) S' /\ exists level', precedence incoming <= level' /\ holding level' S' program' r d t j.
Proof using PP Htokens.
  intros H L L3 E. revert level program H L E. induction S as [|[o|] S IH]; intros level program H L E; simpl in E; simplify_eq; [split; [done|by eauto]| |split; [done|by eauto]].
  destruct (Z.ltb_spec (precedence o) (precedence incoming)); simplify_eq; [split; [by left|eauto]|].
  eapply IH; [by eapply holding_reduce|done|done].
Qed.

Lemma pop_to_paren_holding level S program r d t j S' program' :
  holding level S program r d t j -> 1 <= level -> pop_to_paren S program = Some (S', program') ->
  exists level', 1 <= level' /\ holding level' (PendingParen :: S') program' r d t j.
Proof using PP Htokens.
  intros H L E. revert level program H L E. induction S as [|[o|] S IH]; intros level program H L E; simpl in E; simplify_eq; [|eauto].
  eapply IH; [by eapply holding_reduce| |done]. destruct o; simpl; lia.
Qed.

Lemma flush_holding source_len level S program r d t j program' :
  holding level S program r d t j -> 1 <= level -> flush_operators source_len S program = Ok program' ->
  exists level', 1 <= level' /\ holding level' [] program' r d t j.
Proof using PP Htokens.
  intros H L E. revert level program H L E. induction S as [|[o|] S IH]; intros level program H L E; simpl in E; simplify_eq; [eauto|].
  eapply IH; [by eapply holding_reduce| |done]. destruct o; simpl; lia.
Qed.

Definition tracked c : Prop :=
  cm_index c <= zlen tokens /\
  if cm_expect_operand c then waiting (cm_operators c) (cm_program c) (cm_requirements c) (cm_depth c) (cm_terms c) (cm_index c)
  else holding 3 (cm_operators c) (cm_program c) (cm_requirements c) (cm_depth c) (cm_terms c) (cm_index c).

Lemma token_at_intro i sp : zget tokens i = Some sp -> token_at i (sp_token sp).
Proof using. intros E. unfold token_at. by rewrite E. Qed.

Lemma operand_tracked S program r d t i :
  waiting S program r d t i -> i < zlen tokens ->
  safe (consume_operand parse_predicate limits tokens (mkCompiler program S r true d t i)) (fun c => tracked c /\ i < cm_index c).
Proof using PP Hlimits Hnesting Htokens.
  intros W L. pose proof limits_bounds. destruct (waiting_depth _ _ _ _ _ _ W) as (?&?&?).
  unfold consume_operand; simpl. destruct (zget_lt_is_Some tokens i ltac:(lia)) as [[tok o] G]. rewrite G; simpl.
  pose proof (token_at_intro _ _ G) as T. simpl in T.
  destruct tok; simpl; try done; rewrite ?(next_index i) by lia.
  - destruct (Z.ltb_spec (fl_max_nesting limits) (saturating_add usize_max d 1)) as [|B]; [done|].
    assert (saturating_add usize_max d 1 = d + 1) as Eq by (revert B; unfold saturating_add, usize_max, u64_max; lia).
    rewrite Eq in *. split; [split; [simpl; lia|]|simpl; lia]. simpl. by constructor.
  - split; [split; [simpl; lia|]|simpl; lia]. simpl. by constructor.
  - destruct (Z.ltb_spec (fl_max_terms limits) (saturating_add usize_max t 1)) as [|B]; [done|].
    assert (saturating_add usize_max t 1 = t + 1) as Eq by (revert B; unfold saturating_add, usize_max, u64_max; lia).
    rewrite Eq in *. destruct (parse_predicate limits tokens i r) as [[[p next] r']| |] eqn:E; simpl; [|done|by eapply parse_total in E].
    assert (Bi : 0 <= i < zlen tokens) by lia.
    pose proof (parse_forward _ _ _ _ _ _ _ Bi Htokens E). split; [split; simpl; [lia|]|simpl; lia].
    exists program, r, t, i, (ELeaf p). split_and!; simpl; [done|destruct S as [|[]]; simpl; lia || done|by eapply parses_leaf|done|done| |lia].
    apply waiting_nesting in W. lia.
Qed.

Lemma operator_tracked S program r d t j :
  holding 3 S program r d t j -> 0 <= j < zlen tokens ->
  safe (consume_operator tokens (mkCompiler program S r false d t j)) (fun c => tracked c /\ j < cm_index c).
Proof using PP Hnesting Htokens.
  intros H L. unfold consume_operator; simpl. destruct (zget_lt_is_Some tokens j ltac:(lia)) as [[tok o] G]. rewrite G; simpl.
  pose proof (token_at_intro _ _ G) as T. simpl in T.
  assert (B : forall is_and, tok = binary_token is_and ->
    safe (Ok (consume_binary (P := P) (binary_operator is_and) (mkCompiler program S r false d t j)) : outcome FilterError _)
      (fun c => tracked c /\ j < cm_index c)).
  { intros is_and ->. unfold consume_binary; simpl. rewrite next_index by lia.
    destruct (pop_tighter (binary_operator is_and) S program) as [S' program'] eqn:E.
    assert (Pb : precedence (binary_operator is_and) < 3) by (by destruct is_and).
    destruct (pop_tighter_holding _ _ _ _ _ _ _ _ _ _ H (Z.lt_le_incl _ _ Pb) Pb E) as (B&level&Lv&(before&r0&t0&i&e&W&_&D&->&->&N&M)).
    rewrite binary_precedence in *. split; [split; [simpl; lia|]|simpl; lia]. simpl.
    eapply waiting_binary; [done..|by eapply parses_tighter|done|done|done]. }
  destruct tok; simpl; try done; [|by apply (B true)|by apply (B false)].
  destruct (Z.eqb_spec d 0) as [|D0]; [done|]. destruct (pop_to_paren S program) as [[S' program']|] eqn:E; [|done].
  destruct (pop_to_paren_holding _ _ _ _ _ _ _ _ _ H ltac:(lia) E) as (level&Lv&(before&r0&t0&i&e&W&_&D&->&->&N&M)).
  rewrite next_index by lia. split; [split; [simpl; lia|]|simpl; lia]. simpl.
  inversion W as [|S0 p1 r1 d1 t1 i1 W' T' D'| |]; subst. replace (saturating_sub (d1 + 1) 1) with d1 by (apply waiting_depth in W'; unfold saturating_sub; lia).
  exists before, r0, t0, i1, (EGroup e). split_and!; [done|destruct S' as [|[]]; simpl; lia || done| |done|done|simpl; lia|done].
  apply parses_group; [done| |done]. by eapply parses_tighter.
Qed.

Lemma loop_tracked fuel : forall c, 0 <= cm_index c -> (Z.to_nat (zlen tokens - cm_index c) <= fuel)%nat -> tracked c ->
  safe (compile_loop parse_predicate limits tokens fuel c) (fun c => tracked c /\ cm_index c = zlen tokens).
Proof using PP Hlimits Hnesting Htokens.
  induction fuel as [|fuel IH]; intros c I F [L T]; simpl; destruct (Z.leb_spec (zlen tokens) (cm_index c)); simpl;
    [split; [split; done|lia]|lia|split; [split; done|lia]|].
  destruct c as [program S r expecting d t i]; simpl in *. apply safe_bind.
  eapply (safe_mono _ (fun c => tracked c /\ i < cm_index c)).
  - destruct expecting; [by apply operand_tracked|by apply operator_tracked].
  - intros c [T' I']. simpl in *. apply IH; [lia..|done].
Qed.

Lemma grammar_sound source_len :
  safe (Compiler_compile parse_predicate limits tokens source_len) (fun '(program, r) =>
    exists e, parses 1 0 Requirements_default (zlen tokens) r e /\ within e /\ program = postfix e).
Proof using PP Hlimits Hnesting Htokens.
  unfold Compiler_compile. apply safe_bind. eapply safe_mono; [apply loop_tracked; simpl; [lia|unfold zlen; lia|split; [apply zlen_nonneg|constructor]]|].
  intros [program S r expecting d t i] [[_ T] I]. simpl in *. subst i. unfold finish; simpl. destruct expecting; [done|].
  destruct (flush_operators source_len S program) as [program'| |] eqn:E; simpl.
  - destruct (flush_holding _ _ _ _ _ _ _ _ _ T ltac:(lia) E) as (level&Lv&(before&r0&t0&i&e&W&_&D&->&->&N&M)).
    inversion W; subst. exists e. split_and!; [by eapply parses_tighter|unfold within; lia|done].
  - done.
  - clear -E. revert program E. by induction S as [|[o|] S IH]; simpl; intros; [|eauto|].
Qed.

(** The stack accepts what the grammar derives within the limits, and gives the program
    and the requirements of the expression. *)
Lemma compiles_iff source_len program r :
  Compiler_compile parse_predicate limits tokens source_len = Ok (program, r) <->
  exists e, parses 1 0 Requirements_default (zlen tokens) r e /\ within e /\ program = postfix e.
Proof using PP Hlimits Hnesting Htokens.
  split.
  - intros E. exact (safe_Ok _ _ _ (grammar_sound source_len) E).
  - intros (e&D&W&->). by apply grammar_complete.
Qed.
End grammar.
