(* ===== verification/FilterEval.v ===== *)
(** * Display filters: predicates and the values they read

    The predicates of [filter/ast.rs], the field references of [filter/path.rs], the
    paths of [field/path.rs] and the evaluation of [filter/eval.rs].  A layer is what
    the [Layer] trait gives of it: its protocol and its fields by index and by name. *)

From stdpp Require Import base tactics option list numbers strings.
From Stdlib Require Import ZArith Lia.
From S2P Require Import Prelude Frame FilterLexer FilterValues.
Local Open Scope Z_scope.

(** ** Field references *)

Inductive FrameField : Type :=
| FFNumber | FFTimeEpoch | FFTimeNanoseconds | FFLength | FFCapturedLength | FFInterfaceId | FFLinkType | FFDirection
| FFTruncated | FFLayerCount | FFProtocols.

Inductive Occurrence : Type := Nth (wanted : Z) | Last.
Inductive Selector : Type := SelectAll | SelectLast.
Inductive StreamTransport : Type := StreamTcp | StreamUdp.

Inductive Component : Type := CName (name : bytes) | CIndex (index : Z).

Record Path : Type := mkPath { pt_root : bytes; pt_components : list Component }.

Record ListSelection : Type := mkListSelection { sl_selector : Selector; sl_element : option Path }.

Inductive FilterFieldBinding : Type :=
| BDirect (protocol field : bytes)
| BBits (protocol field : bytes) (mask shift : Z)
| BEither (protocol : bytes) (fields : list bytes).

Definition binding_protocol (binding : FilterFieldBinding) : bytes :=
  match binding with BDirect protocol _ | BBits protocol _ _ _ | BEither protocol _ => protocol end.

Definition binding_fields (binding : FilterFieldBinding) : list bytes :=
  match binding with BDirect _ field | BBits _ field _ _ => [field] | BEither _ fields => fields end.

Inductive FieldSource : Type :=
| NestedLayer (protocol : bytes) (path : Path) (root_index : Z) (selection : option ListSelection) (occurrence : option Occurrence)
| LayerSource (binding : FilterFieldBinding) (indices : list Z) (occurrence : option Occurrence)
| FrameSource (which : FrameField)
| StreamSource (transport : StreamTransport).

Record FieldSpec : Type := mkFieldSpec { fs_kind : Kind; fs_derived : bool; fs_structured : bool }.

Record ByteSlice : Type := mkByteSlice { bs_start : Z; bs_end : option Z }.

Record FieldRef : Type := mkFieldRef {
  fd_source : FieldSource;
  fd_slice : option ByteSlice;
  fd_specs : list FieldSpec;
  fd_path : bytes
}.

Inductive Measure : Type := MeasureLen | MeasureCount.

Inductive Predicate : Type :=
| LayerPresent (protocol : bytes) (occurrence : option Occurrence)
| Bare (field : FieldRef) (flag : bool)
| PCompare (field : FieldRef) (operator : CompareOperator) (value : Literal)
| Membership (field : FieldRef) (values : MemberSet)
| PContains (field : FieldRef) (needle : bytes)
| PTextMatch (field : FieldRef) (needle : bytes) (mode : TextMode)
| PMeasure (field : FieldRef) (measure : Measure) (operator : CompareOperator) (value : Z)
| Masked (field : FieldRef) (mask : Z) (operator : CompareOperator) (value : Z).

(** ** Packets *)

Record Layer : Type := mkLayer {
  ly_protocol : bytes;
  ly_field_by_index : Z -> option Value;
  ly_field : bytes -> option Value
}.

Record DecodedPacket : Type := mkDecoded { dp_frame : Frame; dp_layers : list Layer }.

Record DerivedPacket : Type := mkDerived { dv_decoded : DecodedPacket; dv_replayed_prefix_layers : Z }.

Record Context : Type := mkContext {
  cx_decoded : DecodedPacket;
  cx_derived : list DerivedPacket;
  cx_number : Z;
  cx_tcp_stream : option Z;
  cx_udp_stream : option Z
}.

(** ** Reading values *)

(** [Path::get]. *)
Fixpoint get_components (components : list Component) (value : Value) : option Value :=
  match components with
  | [] => Some value
  | component :: rest =>
      value ← match component, value with
              | CName name, VObject members => snd <$> find (fun member => bytes_eqb member.1 name) members
              | CIndex index, VList values => zget values index
              | _, _ => None
              end;
      get_components rest value
  end.

Definition path_get (path : Path) (root : Value) : option Value := get_components (pt_components path) root.

Definition visible_layers (context : Context) : list Layer :=
  dp_layers (cx_decoded context)
  ++ concat (map (fun derived => zdrop (dv_replayed_prefix_layers derived) (dp_layers (dv_decoded derived))) (cx_derived context)).

(** The layer counted [index + 1], counted from [index] on. *)
Fixpoint counted (index : Z) (wanted : Z) (layers : list Layer) : list Layer :=
  match layers with
  | [] => []
  | layer :: rest => (if saturating_add usize_max index 1 =? wanted then [layer] else []) ++ counted (index + 1) wanted rest
  end.

Definition layers (context : Context) (protocol : bytes) (occurrence : option Occurrence) : list Layer :=
  let matching := List.filter (fun layer => bytes_eqb (ly_protocol layer) protocol) (visible_layers context) in
  match occurrence with
  | Some Last => option_list (last matching)
  | Some (Nth wanted) => counted 0 wanted matching
  | None => matching
  end.

Definition slice_range (len : Z) (slice : ByteSlice) : option (Z * Z) :=
  if (len <=? bs_start slice) && match bs_end slice with Some last => bs_start slice <? last | None => false end then None else
  let last := Z.min (default len (bs_end slice)) len in
  if bs_start slice <=? last then Some (bs_start slice, last) else None.

Definition sliced_bytes (data : bytes) (slice : ByteSlice) : option Value :=
  '(first, last) ← slice_range (zlen data) slice;
  Some (VBytes (zslice first last data)).

(** The octets of an address, most significant first. *)
Fixpoint octets (count : nat) (address : Z) : bytes :=
  match count with
  | O => []
  | S count => Z.land (Z.shiftr address (8 * Z.of_nat count)) 255 :: octets count address
  end.

Definition slice_value (value : Value) (slice : ByteSlice) : option Value :=
  match value with
  | VBytes data =>
      '(first, last) ← slice_range (zlen data) slice;
      VBytes <$> checked_slice data first last
  | VMac data | VText data => sliced_bytes data slice
  | VIpv4 address => sliced_bytes (octets 4 address) slice
  | VIpv6 address => sliced_bytes (octets 16 address) slice
  | _ => None
  end.

Definition byte_addressable (kind : Kind) : bool := match kind with KBytes | KMac | KText | KIpv4 | KIpv6 => true | _ => false end.

Definition as_u64 (value : Value) : option Z := match value with VUnsigned value => Some value | _ => None end.

Definition project (value : Value) (binding : FilterFieldBinding) (slice : option ByteSlice) : option Value :=
  value ← match binding with
          | BBits _ _ mask shift => value ← as_u64 value; Some (VUnsigned (Z.shiftr (Z.land value mask) shift))
          | BDirect _ _ | BEither _ _ => Some value
          end;
  match slice with Some slice => slice_value value slice | None => Some value end.

Definition project_nested (value : Value) (slice : option ByteSlice) : option Value :=
  match slice with Some slice => slice_value value slice | None => Some value end.

Definition selected_elements (value : Value) (selection : ListSelection) : list Value :=
  let items := match value with VList items => items | _ => [] end in
  let picked := match sl_selector selection with SelectAll => items | SelectLast => option_list (last items) end in
  omap (fun item => match sl_element selection with Some path => path_get path item | None => Some item end) picked.

Definition frame_value (context : Context) (which : FrameField) : option Value :=
  let frame := dp_frame (cx_decoded context) in
  match which with
  | FFNumber => Some (VUnsigned (cx_number context))
  | FFTimeEpoch =>
      timestamp ← fr_timestamp frame;
      let seconds := (unix_floor timestamp).1 in
      if between 0 u64_max seconds then Some (VUnsigned seconds)
      else if between i64_min i64_max seconds then Some (VSigned seconds) else None
  | FFTimeNanoseconds => timestamp ← fr_timestamp frame; Some (VUnsigned (unix_floor timestamp).2)
  | FFLength => Some (VUnsigned (original_length frame))
  | FFCapturedLength => Some (VUnsigned (captured_length frame))
  | FFInterfaceId => interface ← fr_interface frame; Some (VUnsigned interface)
  | FFLinkType => Some (VUnsigned (link_type frame))
  | FFDirection =>
      direction ← fr_direction frame;
      Some (VText (ascii_bytes match direction with Inbound => "inbound" | Outbound => "outbound" | UnknownDirection => "unknown" end))
  | FFTruncated => Some (VBool (captured_length frame <? original_length frame))
  | FFLayerCount => Some (VUnsigned (zlen (visible_layers context)))
  | FFProtocols => Some (VList (map (fun layer => VText (ly_protocol layer)) (visible_layers context)))
  end.

Section each.
Context {S : Type}.

(** A loop whose body says whether the function returns from it. *)
Fixpoint each_of {A} (body : S -> A -> S * bool) (s : S) (l : list A) : S * bool :=
  match l with
  | [] => (s, false)
  | x :: rest => let '(s, stop) := body s x in if (stop : bool) then (s, true) else each_of body s rest
  end.

(** [let Some(value) = .. else { continue }]. *)
Definition given {A} (o : option A) (body : S -> A -> S * bool) (s : S) : S * bool :=
  match o with Some x => body s x | None => (s, false) end.

Context (context : Context) (consume : S -> Value -> S * bool).

Definition nested_body (path : Path) (root_index : Z) (selection : option ListSelection) (slice : option ByteSlice) (s : S) (layer : Layer)
  : S * bool :=
  given (ly_field_by_index layer root_index) (fun s root =>
    given (path_get path root) (fun s value =>
      match selection with
      | None => given (project_nested value slice) consume s
      | Some selection => each_of (fun s element => given (project_nested element slice) consume s) s (selected_elements value selection)
      end) s) s.

(** The fields of a binding with their positions from [position] on. *)
Definition field_body (binding : FilterFieldBinding) (indices : list Z) (slice : option ByteSlice) (layer : Layer) (s : S) (field : Z * bytes)
  : S * bool :=
  let '(position, name) := field in
  let value := match zget indices position with Some index => ly_field_by_index layer index | None => ly_field layer name end in
  given value (fun s value => given (project value binding slice) consume s) s.

Fixpoint enumerate {A} (position : Z) (l : list A) : list (Z * A) :=
  match l with [] => [] | x :: rest => (position, x) :: enumerate (position + 1) rest end.

Definition each_value (field : FieldRef) (s : S) : S :=
  match fd_source field with
  | NestedLayer protocol path root_index selection occurrence =>
      (each_of (nested_body path root_index selection (fd_slice field)) s (layers context protocol occurrence)).1
  | FrameSource which => (given (frame_value context which) consume s).1
  | StreamSource transport =>
      (given (match transport with StreamTcp => cx_tcp_stream context | StreamUdp => cx_udp_stream context end)
         (fun s index => consume s (VUnsigned index)) s).1
  | LayerSource binding indices occurrence =>
      (each_of (fun s layer => each_of (field_body binding indices (fd_slice field) layer) s (enumerate 0 (binding_fields binding)))
         s (layers context (binding_protocol binding) occurrence)).1
  end.
End each.

Definition any_value (context : Context) (field : FieldRef) (predicate : Value -> bool) : bool :=
  each_value context (fun _ value => let matched := predicate value in (matched, matched)) field false.

(** ** Predicates *)

Definition is_set (value : Value) : bool :=
  match value with VBool value => value | VUnsigned value | VSigned value => negb (value =? 0) | _ => true end.

Definition byte_length (value : Value) : option Z :=
  match value with VBytes data | VText data | VMac data => Some (zlen data) | VIpv4 _ => Some 4 | VIpv6 _ => Some 16 | _ => None end.

Definition any_byte_length (value : Value) (test : Z -> bool) : bool :=
  match value with
  | VList elements => existsb test (omap byte_length elements)
  | other => match byte_length other with Some length => test length | None => false end
  end.

Definition test (memmem_find : bytes -> bytes -> option Z) (predicate : Predicate) (context : Context) : bool :=
  match predicate with
  | LayerPresent protocol occurrence => negb (is_empty (layers context protocol occurrence))
  | Bare field flag => any_value context field (fun value => negb flag || is_set value)
  | PCompare field operator value => any_value context field (fun candidate => matches candidate operator value)
  | Membership field values => any_value context field (fun candidate => MemberSet_contains values candidate)
  | PContains field needle => any_value context field (fun candidate => contains memmem_find candidate needle)
  | PTextMatch field needle mode => any_value context field (fun candidate => text_match memmem_find candidate needle mode)
  | Masked field mask operator value => any_value context field (fun candidate => masked candidate mask operator value)
  | PMeasure field measure operator value =>
      let wanted := LUnsigned value in
      any_value context field (fun candidate =>
        match measure with
        | MeasureLen => any_byte_length candidate (fun length => matches (VUnsigned length) operator wanted)
        | MeasureCount =>
            match candidate with VList elements => matches (VUnsigned (zlen elements)) operator wanted | _ => false end
        end)
  end.

(** ** The values of a field *)

(** Every value a field reads, in order. *)
Definition field_values (context : Context) (field : FieldRef) : list Value :=
  match fd_source field with
  | NestedLayer protocol path root_index selection occurrence =>
      layer ← layers context protocol occurrence;
      root ← option_list (ly_field_by_index layer root_index);
      value ← option_list (path_get path root);
      match selection with
      | None => option_list (project_nested value (fd_slice field))
      | Some selection => element ← selected_elements value selection; option_list (project_nested element (fd_slice field))
      end
  | FrameSource which => option_list (frame_value context which)
  | StreamSource transport =>
      index ← option_list (match transport with StreamTcp => cx_tcp_stream context | StreamUdp => cx_udp_stream context end);
      [VUnsigned index]
  | LayerSource binding indices occurrence =>
      layer ← layers context (binding_protocol binding) occurrence;
      '(position, name) ← enumerate 0 (binding_fields binding);
      value ← option_list (match zget indices position with Some index => ly_field_by_index layer index | None => ly_field layer name end);
      option_list (project value binding (fd_slice field))
  end.

(** ** Display filters: a predicate asks for some value

    The loops of the evaluator stop at the first value that satisfies a predicate:
    they say whether one of the field's values does.  So membership in a set is
    equality with one of its members. *)

Lemma existsb_bind {A B} (p : B -> bool) (f : A -> list B) l : existsb p (l ≫= f) = existsb (fun x => existsb p (f x)) l.
Proof. induction l as [|x l IH]; [done|]. by rewrite bind_cons, existsb_app, IH. Qed.

(** A body that says at once whether [p] holds. *)
Definition scans {A} (body : bool -> A -> bool * bool) (p : A -> bool) : Prop := forall x, body false x = (p x, p x).

Lemma each_of_scans {A} (body : bool -> A -> bool * bool) p l : scans body p -> each_of body false l = (existsb p l, existsb p l).
Proof. intros H. induction l as [|x l IH]; simpl; [done|]. rewrite H. by destruct (p x). Qed.

Lemma given_scans {A} (o : option A) (body : bool -> A -> bool * bool) p : scans body p ->
  given o body false = (existsb p (option_list o), existsb p (option_list o)).
Proof. intros H. destruct o as [x|]; simpl; [|done]. by rewrite H, orb_false_r. Qed.

(** A field is searched as far as its first value that satisfies the predicate, and
    no further than its last. *)
Lemma any_value_exact context field p : any_value context field p = existsb p (field_values context field).
Proof.
  unfold any_value, each_value, field_values. set (consume := fun (_ : bool) value => let matched := p value in (matched, matched)).
  assert (C : scans consume p) by done.
  destruct (fd_source field) as [protocol path root selection occurrence|binding indices occurrence|which|transport].
  - rewrite existsb_bind. erewrite (each_of_scans _ _ _); [reflexivity|]. intros layer. unfold nested_body. rewrite existsb_bind.
    apply given_scans. intros root'. rewrite existsb_bind. apply given_scans. intros value. destruct selection as [selection|].
    + rewrite existsb_bind. apply each_of_scans. intros element. by apply given_scans.
    + by apply given_scans.
  - rewrite existsb_bind. erewrite (each_of_scans _ _ _); [reflexivity|]. intros layer. rewrite existsb_bind.
    apply each_of_scans. intros [position name]. unfold field_body. rewrite existsb_bind. apply given_scans. intros value. by apply given_scans.
  - by erewrite (given_scans _ _ _).
  - rewrite existsb_bind. erewrite (given_scans _ _ _); [reflexivity|]. intros index. simpl. by rewrite orb_false_r.
Qed.

(** C24: [field in { .. }] holds of a packet exactly when [field == member] holds of it for
    one of the members, however many members the set has (from eight on it is indexed
    by kind), whatever values the field has there, lists included. *)
Theorem membership_is_equality memmem_find context field members :
  forallb literal_ok members = true -> forallb value_ok (field_values context field) = true ->
  test memmem_find (Membership field (MemberSet_new members)) context
  = existsb (fun member => test memmem_find (PCompare field Equal member) context) members.
Proof.
  intros L V. cbn [test]. rewrite any_value_exact.
  rewrite (existsb_ext_in (fun member => test memmem_find (PCompare field Equal member) context)
    (fun member => existsb (fun v => matches v Equal member) (field_values context field)))
    by (apply Forall_forall; intros m _; apply any_value_exact).
  rewrite <- existsb_swap. apply existsb_ext_in, Forall_forall. intros v Hv. apply set_contains_exact; [done|].
  rewrite forallb_forall in V. apply V. by apply list_elem_of_In.
Qed.

(** A frame of a capture, 20 of its 60 bytes captured. *)
Definition demo_context : Context := mkContext (mkDecoded (mkFrame (Some 5) 20 60 1 None None []) []) [] 7 None None.
Definition demo_field : FieldRef := mkFieldRef (FrameSource FFLength) None [mkFieldSpec KUnsigned false false] (ascii_bytes "frame.len").
Definition demo_members : list Literal :=
  [LUnsigned 1; LUnsigned 2; LText [65]; LIpv4Net 0 8; LMac [1; 2; 3; 4; 5; 6]; LSigned (-1); LBytes [9]; LSigned 60].

Lemma membership_is_equality_witness :
  test (fun _ _ => None) (Membership demo_field (MemberSet_new demo_members)) demo_context = true
  /\ existsb (fun member => test (fun _ _ => None) (PCompare demo_field Equal member) demo_context) demo_members = true.
Proof.
  rewrite (membership_is_equality (fun _ _ => None) demo_context demo_field demo_members); [|by vm_compute..]. split; by vm_compute.
Defined.
