(* ===== verification/FilterPredicate.v ===== *)
(** * Display filters: parsing predicates, and whole filters

    [filter/parser/predicate.rs] with its [operand.rs] and [measure.rs], the slices of
    [filter/path.rs], and filters from their text to the answer for a packet.  How a
    path is resolved in the registry of protocols is the parameter [resolve]; the text
    of a literal in an error is the parameter [display]. *)

From stdpp Require Import base tactics option list numbers strings pretty.
From Stdlib Require Import ZArith Lia.
From S2P Require Import Prelude Frame FilterLexer FilterCompile FilterValues FilterGrammar FilterEval.
Local Open Scope Z_scope.

(** ** Fields *)

Inductive Resolved : Type :=
| RLayer (protocol : bytes) (occurrence : option Occurrence)
| RField (field : FieldRef).

Definition FieldSpec_synthetic (kind : Kind) : FieldSpec := mkFieldSpec kind false false.

Definition is_flag (field : FieldRef) : bool :=
  match fd_source field with
  | LayerSource (BBits _ _ _ _) _ _ => true
  | _ => negb (is_empty (fd_specs field)) && forallb (fun spec => bool_decide (fs_kind spec = KBool)) (fd_specs field)
  end.

(** A path whose text ends with a bracket ends with an index. *)
Definition ends_indexed (path : Path) : bool := match last (pt_components path) with Some (CIndex _) => true | _ => false end.

Definition reads_list_elements (field : FieldRef) : bool :=
  match fd_source field with
  | NestedLayer _ path _ selection _ =>
      match selection with
      | None => ends_indexed path
      | Some selection => match sl_element selection with None => true | Some element => ends_indexed element end
      end
  | _ => false
  end.

Definition is_byte_run (field : FieldRef) : bool :=
  negb (is_empty (fd_specs field)) && forallb (fun spec => match fs_kind spec with KBytes | KMac => true | _ => false end) (fd_specs field).

Definition require_stream (requirements : Requirements) (transport : StreamTransport) : Requirements :=
  match transport with
  | StreamTcp => mkRequirements true true (rq_udp_stream requirements) (rq_timestamp requirements)
  | StreamUdp => mkRequirements true (rq_tcp_stream requirements) true (rq_timestamp requirements)
  end.

Definition record_requirements (field : FieldRef) (requirements : Requirements) : Requirements :=
  let requirements := match fd_source field with StreamSource transport => require_stream requirements transport | _ => requirements end in
  match fd_source field with
  | FrameSource (FFTimeEpoch | FFTimeNanoseconds) =>
      mkRequirements (rq_stream_index requirements) (rq_tcp_stream requirements) (rq_udp_stream requirements) true
  | _ => requirements
  end.

(** ** Slices *)

(** [str::trim]. *)
Fixpoint trim_end (text : bytes) : bytes :=
  if is_blank text then [] else match text with [] => [] | b :: rest => b :: trim_end rest end.

Fixpoint trim_start (text : bytes) : bytes :=
  match text with
  | [] => []
  | b0 :: t =>
      if is_blank [b0] then trim_start t else
      match t with
      | [] => text
      | b1 :: t =>
          if is_blank [b0; b1] then trim_start t else
          match t with
          | [] => text
          | b2 :: t => if is_blank [b0; b1; b2] then trim_start t else text
          end
      end
  end.

Definition trim (text : bytes) : bytes := trim_end (trim_start text).

(** The text of a message, and of a number in it. *)
Definition free {A} (offset : Z) (text : bytes) : outcome FilterError A := syntax offset (FreeMessage text).
Definition decimal (v : Z) : bytes := ascii_bytes (pretty v).

Definition describe (token : Token) : bytes :=
  match token with
  | Word word => [96] ++ word ++ [96]
  | LeftParen => ascii_bytes "`(`" | RightParen => ascii_bytes "`)`" | LeftBrace => ascii_bytes "`{`" | RightBrace => ascii_bytes "`}`"
  | Comma => ascii_bytes "`,`" | And => ascii_bytes "`&&`" | Or => ascii_bytes "`||`" | Not => ascii_bytes "`!`"
  | In => ascii_bytes "`in`" | Contains => ascii_bytes "`contains`" | TextMatch _ => ascii_bytes "a text operator"
  | Ampersand => ascii_bytes "`&`" | Compare _ => ascii_bytes "a comparison operator" | Text _ => ascii_bytes "quoted text"
  | ByteString _ => ascii_bytes "a byte string" | SliceToken _ => ascii_bytes "a byte slice"
  end.

Definition slice_bound (offset : Z) (text : bytes) : outcome FilterError Z :=
  ok_or (FSyntax offset (FreeMessage (ascii_bytes "byte slice bound `" ++ text ++ ascii_bytes "` is not a number"))) (parse_unsigned 10 usize_max (trim text)).

Definition read_byte_slice (contents : bytes) (offset : Z) : outcome FilterError ByteSlice :=
  match split_once 58 contents with
  | None =>
      first ← slice_bound offset contents;
      last ← ok_or (FSyntax offset (FreeMessage (ascii_bytes "byte slice index " ++ decimal first ++ ascii_bytes " has no representable exclusive end")))
               (checked_add usize_max first 1);
      Ok (mkByteSlice first (Some last))
  | Some (first, last) =>
      first ← (if is_blank first then Ok 0 else slice_bound offset first);
      last ← (if is_blank last then Ok None else last ← slice_bound offset last; Ok (Some last));
      Ok (mkByteSlice first last)
  end.

Definition attach_slice (field : FieldRef) (contents : bytes) (offset : Z) : outcome FilterError FieldRef :=
  slice ← read_byte_slice contents offset;
  if match bs_end slice with Some last => last <? bs_start slice | None => false end
  then free offset (ascii_bytes "byte slice end " ++ decimal (default 0 (bs_end slice)) ++ ascii_bytes " precedes start " ++ decimal (bs_start slice)) else
  if match fd_source field with FrameSource _ | StreamSource _ => true | _ => false end then Err (FUnsliceableField offset (fd_path field)) else
  if negb (is_empty (fd_specs field)) && negb (existsb (fun spec => byte_addressable (fs_kind spec)) (fd_specs field))
  then Err (FUnsliceableField offset (fd_path field)) else
  Ok (mkFieldRef (fd_source field) (Some slice) [FieldSpec_synthetic KBytes] (fd_path field ++ [91] ++ contents ++ [93])).

(** ** Operands *)

Section predicates.
Context (resolve : bytes -> Z -> outcome FilterError Resolved).
Context (display : Literal -> bytes).

Definition compatible (spec : FieldSpec) (literal : Literal) : bool :=
  match fs_kind spec with
  | KBool => match literal with LBool _ => true | LUnsigned value => (value =? 0) || (value =? 1) | _ => false end
  | KUnsigned | KSigned =>
      match literal with
      | LUnsigned _ | LSigned _ | LRange (RUnsigned _ _) => true
      | LText text => fs_derived spec && bytes_eqb text (ascii_bytes "auto")
      | _ => false
      end
  | KText => match literal with LText _ => true | _ => false end
  | KBytes => match literal with LBytes _ | LMac _ | LText _ => true | LUnsigned value => value <=? u8_max | _ => false end
  | KIpv4 => match literal with LIpv4 _ | LIpv4Net _ _ | LRange (RIpv4 _ _) => true | _ => false end
  | KIpv6 => match literal with LIpv6 _ | LIpv6Net _ _ | LRange (RIpv6 _ _) => true | _ => false end
  | KMac => match literal with LMac _ | LBytes _ => true | _ => false end
  | KList | KAny => true
  | KObject => false
  end.

Definition searchable (spec : FieldSpec) : bool :=
  match fs_kind spec with KBytes | KText | KMac => true | KList => negb (fs_structured spec) | _ => false end.

Definition incompatible (field : FieldRef) (value : Literal) (offset : Z) : FilterError :=
  FIncompatibleLiteral offset (fd_path field) (kind_name (match fd_specs field with spec :: _ => fs_kind spec | [] => KBytes end)) (display value).

Definition check_literal (field : FieldRef) (value : Literal) (offset : Z) : outcome FilterError unit :=
  if is_empty (fd_specs field) || existsb (fun spec => compatible spec value) (fd_specs field) then Ok tt else Err (incompatible field value offset).

Definition check_searchable (field : FieldRef) (needle : Literal) (offset : Z) : outcome FilterError unit :=
  if is_empty (fd_specs field) || existsb searchable (fd_specs field) then Ok tt else Err (incompatible field needle offset).

Definition is_ranged (field : FieldRef) : bool :=
  is_empty (fd_specs field)
  || existsb (fun spec => match fs_kind spec with KUnsigned | KSigned | KIpv4 | KIpv6 | KList => true | _ => false end) (fd_specs field).

Definition range_or_literal (field : FieldRef) (word : bytes) (offset : Z) : outcome FilterError (option Literal) :=
  match (if is_ranged field then parse_range word else None) with
  | Some range => value ← map_err (FInvalidRange offset (fd_path field) word) range; Ok (Some value)
  | None => Ok (parse word)
  end.

Definition parse_literal (field : FieldRef) (tokens : list Spanned) (index operator_offset : Z) : outcome FilterError (Literal * Z) :=
  match zget tokens index with
  | None => free operator_offset (ascii_bytes "expected a value")
  | Some spanned =>
      value ← match sp_token spanned with
              | Text text => Ok (LText text)
              | ByteString contents => Ok (LBytes contents)
              | Word word =>
                  value ← range_or_literal field word (sp_offset spanned);
                  match value with
                  | Some value => Ok value
                  | None =>
                      if is_byte_run field && is_malformed_byte_word word
                      then Err (FUnquotedByteWord (sp_offset spanned) (fd_path field) word) else Ok (LText word)
                  end
              | other => free (sp_offset spanned) (ascii_bytes "expected a value, found " ++ describe other)
              end;
      Ok (value, saturating_add usize_max index 1)
  end.

Definition unsigned_operand (field : FieldRef) (tokens : list Spanned) (index fallback : Z) : outcome FilterError Z :=
  match zget tokens index with
  | None => Err (FMaskOperand fallback (fd_path field) (ascii_bytes "the end of the filter"))
  | Some spanned =>
      match sp_token spanned with
      | Word word =>
          match parse word with
          | Some (LUnsigned value) => Ok value
          | _ => Err (FMaskOperand (sp_offset spanned) (fd_path field) (describe (sp_token spanned)))
          end
      | other => Err (FMaskOperand (sp_offset spanned) (fd_path field) (describe other))
      end
  end.

(** ** Subjects *)

Inductive Subject : Type :=
| SubjectField (field : FieldRef) (index : Z)
| SubjectPredicate (predicate : Predicate) (index : Z).

Definition is_selector (contents : bytes) : bool := bytes_eqb contents (ascii_bytes "*") || bytes_eqb contents (ascii_bytes "-1").

Definition is_index_text (contents : bytes) : bool := negb (is_empty contents) && forallb is_ascii_digit contents.

(** The path grows over every bracket that selects from a list; each turn moves past a
    token at least. *)
Fixpoint extend_path (fuel : nat) (tokens : list Spanned) (offset : Z) (combined : bytes) (index : Z) : outcome FilterError (bytes * Z) :=
  match fuel with
  | O => Panic
  | S fuel =>
      match zget tokens index with
      | Some (mkSpanned (SliceToken contents) _) =>
          let selector := is_selector contents in
          if negb selector && negb (is_index_text contents) then Ok (combined, index) else
          let candidate := combined ++ [91] ++ contents ++ [93] in
          let '(candidate, next) :=
            match zget tokens (index + 1) with
            | Some (mkSpanned (Word tail) _) => if starts_with tail [46] then (candidate ++ tail, index + 2) else (candidate, index + 1)
            | _ => (candidate, index + 1)
            end in
          match resolve candidate offset with
          | Ok (RField _) => extend_path fuel tokens offset candidate next
          | Ok (RLayer _ _) => Ok (combined, index)
          | Err error => if selector || (index + 1 <? next) then Err error else Ok (combined, index)
          | Panic => Panic
          end
      | _ => Ok (combined, index)
      end
  end.

Definition has_no_value (token : Token) : bool :=
  match token with Compare _ | In | Contains | TextMatch _ | Ampersand => true | _ => false end.

Definition parse_subject (tokens : list Spanned) (start : Z) : outcome FilterError Subject :=
  spanned ← expect (zget tokens start);
  let offset := sp_offset spanned in
  match sp_token spanned with
  | Word word =>
      '(combined, index) ← extend_path (S (length tokens)) tokens offset word (saturating_add usize_max start 1);
      resolved ← resolve combined offset;
      match resolved with
      | RField field => Ok (SubjectField field index)
      | RLayer protocol occurrence =>
          match zget tokens index with
          | Some (mkSpanned (SliceToken _) slice_offset) => Err (FUnsliceableField slice_offset word)
          | Some (mkSpanned token operator_offset) =>
              if has_no_value token
              then free operator_offset ([96] ++ word ++ ascii_bytes "` names a layer, not a field, so it has no value")
              else Ok (SubjectPredicate (LayerPresent protocol occurrence) index)
          | None => Ok (SubjectPredicate (LayerPresent protocol occurrence) index)
          end
      end
  | _ => free offset (ascii_bytes "expected a field path")
  end.

(** A slice right after the path. *)
Definition take_slice (tokens : list Spanned) (field : FieldRef) (index : Z) : outcome FilterError (FieldRef * Z) :=
  match zget tokens index with
  | Some (mkSpanned (SliceToken contents) offset) =>
      field ← attach_slice field contents offset; Ok (field, saturating_add usize_max index 1)
  | _ => Ok (field, index)
  end.

(** ** Measures *)

Definition measure_call (tokens : list Spanned) (start : Z) : option Measure :=
  match zget tokens start, zget tokens (saturating_add usize_max start 1) with
  | Some (mkSpanned (Word word) offset), Some (mkSpanned LeftParen opened) =>
      if negb (opened =? saturating_add usize_max offset (zlen word)) then None else
      if eq_ignore_ascii_case word (ascii_bytes "len") then Some MeasureLen else
      if eq_ignore_ascii_case word (ascii_bytes "count") then Some MeasureCount else None
  | _, _ => None
  end.

Definition measure_name (measure : Measure) : bytes := ascii_bytes match measure with MeasureLen => "len" | MeasureCount => "count" end.

Definition check_measurable (field : FieldRef) (measure : Measure) (offset : Z) : outcome FilterError unit :=
  if is_empty (fd_specs field) then Ok tt else
  if match measure, fd_source field with MeasureLen, FrameSource FFProtocols => true | _, _ => false end
  then free offset (ascii_bytes "`len(` would measure each protocol name, not the layers; use `count(" ++ fd_path field
         ++ ascii_bytes ")` or `frame.layer_count`") else
  let measurable :=
    match measure with
    | MeasureLen => existsb (fun spec => byte_addressable (fs_kind spec) || (bool_decide (fs_kind spec = KList) && negb (fs_structured spec))) (fd_specs field)
    | MeasureCount => existsb (fun spec => bool_decide (fs_kind spec = KList)) (fd_specs field) && is_none (fd_slice field) && negb (reads_list_elements field)
    end in
  if measurable then Ok tt else
  free offset ([96] ++ measure_name measure ++ ascii_bytes "(` needs a field holding "
    ++ ascii_bytes match measure with MeasureLen => "bytes, text, an address, or a list of them" | MeasureCount => "a whole list" end
    ++ ascii_bytes ", but `" ++ fd_path field ++ ascii_bytes "` does not").

Definition offset_at (tokens : list Spanned) (index fallback : Z) : Z :=
  match zget tokens index with Some spanned => sp_offset spanned | None => fallback end.

(** The number a measure is compared to. *)
Definition measure_amount (tokens : list Spanned) (index : Z) (measure : Measure) (operator_offset : Z) : outcome FilterError Z :=
  let refuse offset found := free offset ([96] ++ measure_name measure ++ ascii_bytes "(..)` is compared to an unsigned number, found " ++ found) in
  match zget tokens index with
  | Some (mkSpanned (Word word) offset) =>
      match parse word with Some (LUnsigned amount) => Ok amount | _ => refuse offset ([96] ++ word ++ [96]) end
  | Some (mkSpanned other offset) => refuse offset (describe other)
  | None => refuse operator_offset (ascii_bytes "the end of the filter")
  end.

Definition parse_measure (tokens : list Spanned) (start : Z) (measure : Measure) (requirements : Requirements)
  : outcome FilterError (Predicate * Z * Requirements) :=
  let name := measure_name measure in
  opened ← expect (zget tokens (saturating_add usize_max start 1));
  let inner := saturating_add usize_max start 2 in
  if negb match zget tokens inner with Some (mkSpanned (Word _) _) => true | _ => false end
  then free (sp_offset opened) ([96] ++ name ++ ascii_bytes "(` needs a field path") else
  subject ← parse_subject tokens inner;
  match subject with
  | SubjectPredicate _ _ => free (offset_at tokens inner 0) ([96] ++ name ++ ascii_bytes "(` takes a field, not a layer")
  | SubjectField field index =>
      '(field, index) ← take_slice tokens field index;
      if negb match zget tokens index with Some (mkSpanned RightParen _) => true | _ => false end
      then free (offset_at tokens index (sp_offset opened)) (ascii_bytes "expected `)` to close `" ++ name ++ ascii_bytes "(`") else
      _ ← check_measurable field measure (sp_offset opened);
      let requirements := record_requirements field requirements in
      let compare := saturating_add usize_max index 1 in
      match zget tokens compare with
      | Some (mkSpanned (Compare operator) operator_offset) =>
          let value := saturating_add usize_max compare 1 in
          amount ← measure_amount tokens value measure operator_offset;
          Ok (PMeasure field measure operator amount, saturating_add usize_max value 1, requirements)
      | _ =>
          free (offset_at tokens compare (sp_offset opened))
            ([96] ++ name ++ ascii_bytes "(..)` must be compared to a number, as in `" ++ name ++ [40] ++ fd_path field ++ ascii_bytes ") > 1`")
      end
  end.

(** ** Predicates of a field *)

Definition parse_masked (tokens : list Spanned) (index : Z) (field : FieldRef) (operator_offset : Z) : outcome FilterError (Predicate * Z) :=
  if negb (is_empty (fd_specs field)) && negb (forallb (fun spec => bool_decide (fs_kind spec = KUnsigned)) (fd_specs field))
  then Err (FMaskedField operator_offset (fd_path field)
         (kind_name (default KUnsigned (find (fun kind => negb (bool_decide (kind = KUnsigned))) (map fs_kind (fd_specs field)))))) else
  let mask_index := saturating_add usize_max index 1 in
  mask ← unsigned_operand field tokens mask_index operator_offset;
  let after := saturating_add usize_max mask_index 1 in
  match zget tokens after with
  | Some (mkSpanned (Compare operator) compare_offset) =>
      let value_index := saturating_add usize_max after 1 in
      value ← unsigned_operand field tokens value_index compare_offset;
      Ok (Masked field mask operator value, saturating_add usize_max value_index 1)
  | _ => Ok (Masked field mask NotEqual 0, after)
  end.

(** The members of a set up to its brace; each turn moves past a token at least. *)
Fixpoint parse_members (fuel : nat) (tokens : list Spanned) (field : FieldRef) (limits : FilterLimits) (offset index : Z) (values : list Literal)
  : outcome FilterError (list Literal * Z) :=
  match fuel with
  | O => Panic
  | S fuel =>
      match zget tokens index with
      | None => free offset (ascii_bytes "unterminated set, expected `}`")
      | Some (mkSpanned RightBrace _) => Ok (values, saturating_add usize_max index 1)
      | Some (mkSpanned current current_offset) =>
          index ← (if is_empty values then Ok index else
                   match current with
                   | Comma => Ok (saturating_add usize_max index 1)
                   | _ => free current_offset (ascii_bytes "expected `,` or `}` in a set")
                   end);
          '(value, next) ← parse_literal field tokens index offset;
          _ ← check_literal field value (offset_at tokens index offset);
          let values := values ++ [value] in
          if fl_max_set_members limits <? zlen values then Err (FSetMemberLimit (fl_max_set_members limits)) else
          parse_members fuel tokens field limits offset next values
      end
  end.

Definition parse_membership (tokens : list Spanned) (start : Z) (field : FieldRef) (limits : FilterLimits) (offset : Z)
  : outcome FilterError (Predicate * Z) :=
  match zget tokens start with
  | None => free offset (ascii_bytes "`in` needs a value or a `{ .. }` set")
  | Some (mkSpanned LeftBrace _) =>
      '(values, index) ← parse_members (S (length tokens)) tokens field limits offset (saturating_add usize_max start 1) [];
      if is_empty values then free offset (ascii_bytes "a set needs at least one member") else Ok (Membership field (MemberSet_new values), index)
  | Some _ =>
      '(value, next) ← parse_literal field tokens start offset;
      _ ← check_literal field value offset;
      Ok (Membership field (MemberSet_new [value]), next)
  end.

Definition is_equality (operator : CompareOperator) : bool := match operator with Equal | NotEqual => true | _ => false end.

Definition parse_field_predicate (tokens : list Spanned) (index : Z) (field : FieldRef) (limits : FilterLimits) : outcome FilterError (Predicate * Z) :=
  let after := saturating_add usize_max index 1 in
  match zget tokens index with
  | Some (mkSpanned (Compare operator) offset) =>
      '(value, next) ← parse_literal field tokens after offset;
      _ ← check_literal field value offset;
      if is_prefix value && negb (is_equality operator) then Err (FOrderedPrefixComparison offset (fd_path field) (display value)) else
      if is_range value && negb (is_equality operator) then Err (FOrderedRangeComparison offset (fd_path field) (display value)) else
      Ok (PCompare field operator value, next)
  | Some (mkSpanned Contains offset) =>
      '(literal, next) ← parse_literal field tokens after offset;
      _ ← check_searchable field literal offset;
      needle ← ok_or (incompatible field literal offset) (Needle_new literal);
      Ok (PContains field needle, next)
  | Some (mkSpanned (TextMatch mode) offset) =>
      '(literal, next) ← parse_literal field tokens after offset;
      _ ← check_searchable field literal offset;
      needle ← ok_or (incompatible field literal offset) (Needle_for_mode literal mode);
      Ok (PTextMatch field needle mode, next)
  | Some (mkSpanned Ampersand offset) => parse_masked tokens index field offset
  | Some (mkSpanned In offset) => parse_membership tokens after field limits offset
  | _ => Ok (Bare field (is_flag field), index)
  end.

(** [predicate::parse]. *)
Definition parse_predicate (limits : FilterLimits) (tokens : list Spanned) (start : Z) (requirements : Requirements)
  : outcome FilterError (Predicate * Z * Requirements) :=
  match measure_call tokens start with
  | Some measure => parse_measure tokens start measure requirements
  | None =>
      subject ← parse_subject tokens start;
      match subject with
      | SubjectPredicate predicate index => Ok (predicate, index, requirements)
      | SubjectField field index =>
          '(field, index) ← take_slice tokens field index;
          let requirements := record_requirements field requirements in
          '(predicate, next) ← parse_field_predicate tokens index field limits;
          Ok (predicate, next, requirements)
      end
  end.
End predicates.

(** ** What a parsed predicate holds *)

(** The value a token of the filter writes: a quoted text or byte string stands for
    itself, and a word for what it reads as, within the bounds of its type, or for
    its own text when it reads as nothing. *)
Definition written (tokens : list Spanned) (literal : Literal) : Prop :=
  exists index offset token, zget tokens index = Some (mkSpanned token offset) /\
    match token with
    | Text text => literal = LText text
    | ByteString contents => literal = LBytes contents
    | Word word => literal_typed literal = true /\
        (parse word = None /\ literal = LText word \/ parse word = Some literal \/ parse_range word = Some (Ok literal))
    | _ => False
    end.

(** The bytes a token of the filter writes: those of a quoted text or byte string, of
    a word that reads as a byte run or a hardware address, or of a word that reads as
    no value at all; a word that reads as a number, an address, a prefix, a range or
    a truth value writes none. *)
Definition written_bytes (tokens : list Spanned) (text : bytes) : Prop :=
  exists index offset token, zget tokens index = Some (mkSpanned token offset) /\
    match token with
    | Text contents | ByteString contents => text = contents
    | Word word => parse word = None /\ text = word \/ parse word = Some (LBytes text) \/ parse word = Some (LMac text)
    | _ => False
    end.

Definition predicate_ok (tokens : list Spanned) (predicate : Predicate) : Prop :=
  match predicate with
  | LayerPresent _ _ | Bare _ _ => True
  | PCompare _ operator value => written tokens value /\ (is_prefix value || is_range value = true -> is_equality operator = true)
  | Membership _ values => exists members, values = MemberSet_new members /\ members <> [] /\ Forall (written tokens) members
  | PContains _ needle => written_bytes tokens needle
  | PTextMatch _ needle mode => exists text, written_bytes tokens text /\
      needle = match mode with ContainsFold | EqualsFold => to_ascii_lowercase text | Prefix | Suffix => text end
  | PMeasure _ _ _ value => 0 <= value <= u64_max
  | Masked _ mask _ value => 0 <= mask <= u64_max /\ 0 <= value <= u64_max
  end.

(** No word reads as a text, and a range is a range of numbers or of addresses. *)
Lemma parse_not_text word text : parse word <> Some (LText text).
Proof.
  unfold parse, parse_network, parse_plain. intros E.
  repeat match type of E with
  | (if ?b then _ else _) = _ => destruct b
  | Some (if ?b then _ else _) = _ => destruct b
  | match ?o with _ => _ end = _ => destruct o
  | _ ≫= _ = Some _ => apply bind_Some in E as (? & _ & E)
  | _ <$> _ = Some _ => apply fmap_Some in E as (? & _ & E)
  end; try done; simplify_eq.
Qed.

Lemma parse_range_is_range word literal : parse_range word = Some (Ok literal) -> is_range literal = true.
Proof.
  unfold parse_range. intros ([low high]&_&E)%bind_Some. destruct (negb _ && negb _); [done|]. injection E as E.
  revert E. unfold range_between. repeat case_match; intros; simplify_eq; done.
Qed.

(** A needle is made from a value that writes bytes. *)
Lemma written_needle tokens literal needle : written tokens literal -> needle_bytes literal = Some needle -> written_bytes tokens needle.
Proof.
  intros (index&offset&token&T&W) N. exists index, offset, token. split; [exact T|].
  destruct token; try done; [|by subst; injection N as <-..]. destruct W as [_ [[P ->]|[P|P]]].
  - left. by injection N as <-.
  - right. destruct literal; try done; injection N as ->; first [by left|by right|by apply parse_not_text in P].
  - apply parse_range_is_range in P. by destruct literal.
Qed.

Lemma parse_unsigned_literal word value : parse word = Some (LUnsigned value) -> 0 <= value <= u64_max.
Proof. intros E%parse_typed. simpl in E. unfold between in E. lia. Qed.

Section parsing.
Context (resolve : bytes -> Z -> outcome FilterError Resolved) (display : Literal -> bytes).
Context (Hresolve : forall path offset, resolve path offset <> Panic).
Context (tokens : list Spanned) (Htokens : zlen tokens <= usize_max).

(** The next token of the one at [index]. *)
Lemma after_token index spanned : zget tokens index = Some spanned -> saturating_add usize_max index 1 = index + 1 /\ 0 <= index /\ index + 1 <= zlen tokens.
Proof using Htokens. intros E%zget_Some_lt. unfold saturating_add. lia. Qed.

Definition reached (from next : Z) : Prop := from <= next <= zlen tokens.

Lemma range_or_literal_safe field word offset :
  safe (range_or_literal field word offset) (fun value => match value with
    | Some literal => literal_typed literal = true /\ (parse word = Some literal \/ parse_range word = Some (Ok literal))
    | None => parse word = None
    end).
Proof using.
  unfold range_or_literal. destruct (if is_ranged field then parse_range word else None) as [range|] eqn:R.
  - destruct (is_ranged field); [|done].
    assert (S : safe range (fun literal => literal_typed literal = true /\ parse_range word = Some (Ok literal))).
    { apply safe_iff. split; [|intros l ->; split; [by eapply parse_range_typed|done]].
      intros ->. unfold parse_range in R. apply bind_Some in R as ([low high]&_&R). destruct (negb _ && negb _); [done|]. injection R as R.
      revert R. unfold range_between. repeat case_match; done. }
    destruct range as [literal| |]; simpl in *; [|done..]. destruct S as [S1 S2]. split; [exact S1|by right].
  - simpl. destruct (parse word) as [literal|] eqn:P; [|done]. split; [by eapply parse_typed|by left].
Qed.

Lemma parse_literal_safe field index offset :
  safe (parse_literal field tokens index offset) (fun '(value, next) => 0 <= index /\ next = index + 1 /\ next <= zlen tokens /\ written tokens value).
Proof using Htokens.
  unfold parse_literal. destruct (zget tokens index) as [[token o]|] eqn:E; [|done].
  assert (W : forall value, match token with
    | Text text => value = LText text | ByteString contents => value = LBytes contents
    | Word word => literal_typed value = true /\
        (parse word = None /\ value = LText word \/ parse word = Some value \/ parse_range word = Some (Ok value))
    | _ => False end -> written tokens value) by (intros value V; by exists index, o, token).
  apply after_token in E as (->&?&?).
  apply safe_bind. eapply (safe_mono _ (written tokens)); [|intros value V; simpl; split_and!; done || lia].
  destruct token; simpl; try done; [|by apply W..]. apply safe_bind. eapply safe_mono; [apply range_or_literal_safe|].
  intros [value|] V; simpl in *; [apply W; destruct V as [V1 V2]; split; [exact V1|by right]|].
  destruct (is_byte_run field && is_malformed_byte_word word); [done|]. apply W. split; [done|by left].
Qed.

Lemma unsigned_operand_safe field index fallback :
  safe (unsigned_operand field tokens index fallback) (fun value => 0 <= index < zlen tokens /\ 0 <= value <= u64_max).
Proof using.
  unfold unsigned_operand. destruct (zget tokens index) as [[token o]|] eqn:E; [|done]. apply zget_Some_lt in E.
  destruct token; simpl; try done. destruct (parse word) as [[]|] eqn:P; simpl; try done. split; [done|]. by eapply parse_unsigned_literal.
Qed.

Lemma extend_path_safe offset fuel : forall combined index, 0 <= index <= zlen tokens -> zlen tokens - index < Z.of_nat fuel ->
  safe (extend_path resolve fuel tokens offset combined index) (fun '(_, next) => reached index next).
Proof using Hresolve.
  induction fuel as [|fuel IH]; intros combined index I F; [lia|]. simpl.
  assert (D : reached index index) by (unfold reached; lia).
  destruct (zget tokens index) as [[[] o]|] eqn:E; simpl; try done. apply zget_Some_lt in E.
  destruct (negb (is_selector contents) && negb (is_index_text contents)); [done|].
  assert (C : exists candidate next, match zget tokens (index + 1) with
      | Some (mkSpanned (Word tail) _) => if starts_with tail [46] then ((combined ++ 91 :: contents ++ [93]) ++ tail, index + 2)
          else (combined ++ 91 :: contents ++ [93], index + 1)
      | _ => (combined ++ 91 :: contents ++ [93], index + 1) end = (candidate, next) /\ index < next <= zlen tokens).
  { destruct (zget tokens (index + 1)) as [[[] o']|] eqn:E'; try (eexists _, _; split; [reflexivity|lia]).
    apply zget_Some_lt in E'. destruct (starts_with word [46]); eexists _, _; (split; [reflexivity|lia]). }
  destruct C as (candidate&next&->&N). destruct (resolve candidate offset) as [[|]|error|] eqn:R; simpl; [done| | |by apply Hresolve in R].
  - eapply safe_mono; [apply IH; lia|]. intros [c k]. unfold reached. lia.
  - by destruct (is_selector contents || (index + 1 <? next)).
Qed.

Lemma parse_subject_safe start : 0 <= start < zlen tokens ->
  safe (parse_subject resolve tokens start) (fun subject =>
    match subject with SubjectField _ next => reached (start + 1) next | SubjectPredicate p next => reached (start + 1) next /\ predicate_ok tokens p end).
Proof using Hresolve Htokens.
  intros B. unfold parse_subject. destruct (zget_lt_is_Some tokens start B) as [[token o] E]. rewrite E. simpl.
  apply after_token in E as (->&_). destruct token; simpl; try done.
  apply safe_bind. eapply safe_mono; [apply (extend_path_safe _ (S (length tokens))); [lia|unfold zlen; lia]|]. intros [combined index] I. simpl.
  destruct (resolve combined o) as [[|]|error|] eqn:R; simpl; [|done|done|by apply Hresolve in R].
  destruct (zget tokens index) as [[token oo]|]; [|done]. destruct token; simpl; done.
Qed.

Lemma attach_slice_safe field contents offset : safe (attach_slice field contents offset) (fun _ => True).
Proof using.
  assert (B : forall text, safe (slice_bound offset text) (fun _ => True)) by (intros; unfold slice_bound; by apply safe_ok_or).
  unfold attach_slice. apply safe_bind. eapply (safe_mono _ (fun _ => True)); [|intros slice _; repeat case_match; done].
  unfold read_byte_slice. destruct (split_once 58 contents) as [[first last]|].
  - apply safe_bind. eapply (safe_mono _ (fun _ => True)); [by destruct (is_blank first); [|apply B]|]. intros f _. simpl.
    apply safe_bind. eapply (safe_mono _ (fun _ => True)); [|done]. destruct (is_blank last); [done|].
    apply safe_bind. by eapply safe_mono; [apply B|].
  - apply safe_bind. eapply safe_mono; [apply B|]. intros f _. simpl. apply safe_bind. by apply safe_ok_or.
Qed.

Lemma take_slice_safe field index : 0 <= index <= zlen tokens ->
  safe (take_slice tokens field index) (fun '(_, next) => reached index next).
Proof using Htokens.
  intros I. unfold take_slice. assert (D : reached index index) by (unfold reached; lia).
  destruct (zget tokens index) as [[[] o]|] eqn:E; simpl; try done. apply after_token in E as (->&?&?).
  apply safe_bind. eapply safe_mono; [apply attach_slice_safe|]. intros f _. simpl. unfold reached. lia.
Qed.

Lemma check_measurable_safe field measure offset : safe (check_measurable field measure offset) (fun _ => True).
Proof using. unfold check_measurable. repeat case_match; done. Qed.

Lemma measure_amount_safe index measure offset :
  safe (measure_amount tokens index measure offset) (fun value => 0 <= index < zlen tokens /\ 0 <= value <= u64_max).
Proof using.
  unfold measure_amount. destruct (zget tokens index) as [[token o]|] eqn:E; [|done]. apply zget_Some_lt in E.
  destruct token; simpl; try done. destruct (parse word) as [[]|] eqn:P; simpl; try done. split; [done|]. by eapply parse_unsigned_literal.
Qed.

Lemma check_literal_safe field value offset : safe (check_literal display field value offset) (fun _ => True).
Proof using. unfold check_literal. by case_match. Qed.

Lemma check_searchable_safe field value offset : safe (check_searchable display field value offset) (fun _ => True).
Proof using. unfold check_searchable. by case_match. Qed.

(** A predicate and where it ends, past [from]. *)
Definition parsed_past (from : Z) (result : Predicate * Z) : Prop := reached from result.2 /\ predicate_ok tokens result.1.

Lemma parse_masked_safe index field offset : 0 <= index < zlen tokens -> safe (parse_masked tokens index field offset) (parsed_past index).
Proof using Htokens.
  intros I. unfold parse_masked. case_match; [done|].
  assert (E1 : saturating_add usize_max index 1 = index + 1) by (unfold saturating_add; lia). rewrite E1.
  apply safe_bind. eapply safe_mono; [apply unsigned_operand_safe|]. intros mask [M1 M2]. cbv beta zeta.
  assert (E2 : saturating_add usize_max (index + 1) 1 = index + 2) by (unfold saturating_add; lia). rewrite E2.
  assert (D : safe (Ok (Masked field mask NotEqual 0, index + 2) : outcome FilterError _) (parsed_past index)).
  { unfold parsed_past, reached; simpl. unfold u64_max in *. lia. }
  destruct (zget tokens (index + 2)) as [[[] o]|] eqn:E; try exact D. apply after_token in E as (->&?&?).
  apply safe_bind. eapply safe_mono; [apply unsigned_operand_safe|]. intros value [V1 V2]. cbv beta.
  unfold parsed_past, reached, saturating_add; simpl. lia.
Qed.

Lemma parse_members_safe field limits offset fuel : forall index values, 0 <= index <= zlen tokens -> zlen tokens - index < Z.of_nat fuel ->
  Forall (written tokens) values ->
  safe (parse_members display fuel tokens field limits offset index values)
    (fun '(values, next) => reached index next /\ Forall (written tokens) values).
Proof using Htokens.
  induction fuel as [|fuel IH]; intros index values I F V; [lia|]. cbn [parse_members].
  destruct (zget tokens index) as [[token o]|] eqn:E; [|done]. apply after_token in E as (E1&?&?).
  assert (B : forall current, safe (index ← (if is_empty values then Ok index else match current with
        | Comma => Ok (saturating_add usize_max index 1) | _ => free o (ascii_bytes "expected `,` or `}` in a set") end);
      '(value, next) ← parse_literal field tokens index offset;
      _ ← check_literal display field value (offset_at tokens index offset);
      let values := values ++ [value] in
      if fl_max_set_members limits <? zlen values then Err (FSetMemberLimit (fl_max_set_members limits)) else
      parse_members display fuel tokens field limits offset next values)
    (fun '(values, next) => reached index next /\ Forall (written tokens) values)).
  { intros current. apply safe_bind. eapply (safe_mono _ (fun k => index <= k)).
    { destruct (is_empty values); [simpl; lia|]. rewrite E1. destruct current; simpl; done || lia. }
    intros k K. apply safe_bind. eapply safe_mono; [by apply parse_literal_safe|]. intros [value next] (?&->&?&L).
    apply safe_bind. eapply safe_mono; [apply check_literal_safe|]. intros _ _. cbv beta zeta. case_match; [done|].
    eapply safe_mono; [apply IH; [lia..|apply Forall_app; split; [done|by apply Forall_singleton]]|]. intros [vs n] [R W]. unfold reached in *. split; [lia|done]. }
  specialize (B token). destruct token; try exact B. rewrite E1. simpl. unfold reached. split; [lia|done].
Qed.

Lemma parse_membership_safe start field limits offset : 0 <= start -> safe (parse_membership display tokens start field limits offset) (parsed_past start).
Proof using Htokens.
  intros S0. unfold parse_membership. destruct (zget tokens start) as [[token o]|] eqn:E; [|done]. apply after_token in E as (E1&?&?).
  assert (B : safe ('(value, next) ← parse_literal field tokens start offset; _ ← check_literal display field value offset;
    Ok (Membership field (MemberSet_new [value]), next)) (parsed_past start)).
  { apply safe_bind. eapply safe_mono; [by apply parse_literal_safe|]. intros [value next] (?&->&?&L).
    apply safe_bind. eapply safe_mono; [apply check_literal_safe|]. intros _ _. split; simpl; [unfold reached; lia|].
    exists [value]. split_and!; [done..|]. by apply Forall_singleton. }
  destruct token; try exact B. rewrite E1. apply safe_bind. eapply safe_mono; [apply parse_members_safe; [lia|unfold zlen; lia|constructor]|].
  intros [values index] [R V]. destruct (is_empty values) eqn:Em; [done|]. split; simpl; [unfold reached in *; lia|].
  exists values. split_and!; [done|by intros ->|done].
Qed.

Lemma parse_field_predicate_safe index field limits : 0 <= index <= zlen tokens ->
  safe (parse_field_predicate display tokens index field limits) (parsed_past index).
Proof using Htokens.
  intros I. unfold parse_field_predicate. assert (D : parsed_past index (Bare field (is_flag field), index)) by (split; [simpl; unfold reached; lia|done]).
  destruct (zget tokens index) as [[token offset]|] eqn:E; [|done]. pose proof (zget_Some_lt _ _ _ E). apply after_token in E as (->&?&?).
  destruct token; try done; cbv zeta.
  - eapply safe_mono; [by apply parse_membership_safe; lia|]. intros [p next] [R W]. split; [simpl in *; unfold reached in *; lia|done].
  - apply safe_bind. eapply safe_mono; [by apply parse_literal_safe|]. intros [literal next] (?&->&?&L).
    apply safe_bind. eapply safe_mono; [apply check_searchable_safe|]. intros _ _. apply safe_bind, safe_ok_or. intros needle N.
    split; simpl; [unfold reached; lia|by eapply written_needle].
  - apply safe_bind. eapply safe_mono; [by apply parse_literal_safe|]. intros [literal next] (?&->&?&L).
    apply safe_bind. eapply safe_mono; [apply check_searchable_safe|]. intros _ _. apply safe_bind, safe_ok_or. intros needle N.
    unfold Needle_for_mode in N. apply bind_Some in N as (text&N&E). injection E as <-.
    split; simpl; [unfold reached; lia|]. exists text. split; [by eapply written_needle|done].
  - by apply parse_masked_safe.
  - apply safe_bind. eapply safe_mono; [by apply parse_literal_safe|]. intros [value next] (?&->&?&L).
    apply safe_bind. eapply safe_mono; [apply check_literal_safe|]. intros _ _. cbv beta.
    destruct (is_prefix value && negb (is_equality operator)) eqn:P1; [done|].
    destruct (is_range value && negb (is_equality operator)) eqn:P2; [done|]. split; simpl; [unfold reached; lia|]. split; [done|].
    destruct (is_prefix value), (is_range value), (is_equality operator); done.
Qed.

Lemma parse_measure_safe start measure requirements : 0 <= start -> zget tokens (start + 1) <> None ->
  safe (parse_measure resolve tokens start measure requirements) (fun '(p, next, _) => parsed_past (start + 1) (p, next)).
Proof using Hresolve Htokens.
  intros S0 O. destruct (zget tokens (start + 1)) as [opened|] eqn:E; [|done]. clear O. unfold parse_measure.
  pose proof (zget_Some_lt _ _ _ E). assert (E1 : saturating_add usize_max start 1 = start + 1) by (unfold saturating_add; lia). rewrite E1, E. simpl.
  destruct (zget tokens (saturating_add usize_max start 2)) as [[token o]|] eqn:E2; [|done]. pose proof (zget_Some_lt _ _ _ E2).
  destruct token; try done. cbn [negb]. assert (E3 : start + 1 <= saturating_add usize_max start 2) by (unfold saturating_add; lia).
  apply safe_bind. eapply safe_mono; [by apply parse_subject_safe|]. intros [field index|p index] R; [|done].
  apply safe_bind. eapply safe_mono; [apply take_slice_safe; unfold reached in R; lia|]. intros [field' index'] R'. cbv beta.
  destruct (zget tokens index') as [[token' o']|] eqn:E4; [|done]. apply after_token in E4 as (->&?&?). destruct token'; try done. cbn [negb].
  apply safe_bind. eapply safe_mono; [apply check_measurable_safe|]. intros _ _. cbv zeta.
  destruct (zget tokens (index' + 1)) as [[token' o'']|] eqn:E5; [|done]. apply after_token in E5 as (->&?&?). destruct token'; try done.
  apply safe_bind. eapply safe_mono; [apply measure_amount_safe|]. intros amount [M1 M2]. cbv beta.
  split; simpl; [|done]. unfold reached, saturating_add in *. lia.
Qed.

Lemma parse_predicate_safe limits start requirements : 0 <= start < zlen tokens ->
  safe (parse_predicate resolve display limits tokens start requirements) (fun '(p, next, _) => parsed_past (start + 1) (p, next)).
Proof using Hresolve Htokens.
  intros B. unfold parse_predicate. destruct (measure_call tokens start) as [measure|] eqn:M.
  - apply parse_measure_safe; [lia|]. intros E. unfold measure_call in M.
    assert (E1 : saturating_add usize_max start 1 = start + 1) by (unfold saturating_add; lia). rewrite E1, E in M.
    destruct (zget tokens start) as [[[] ?]|]; done.
  - apply safe_bind. eapply safe_mono; [by apply parse_subject_safe|]. intros [field index|p index] R; [|by destruct R; split].
    apply safe_bind. eapply safe_mono; [apply take_slice_safe; unfold reached in R; lia|]. intros [field' index'] R'. cbv zeta.
    apply safe_bind. eapply safe_mono; [apply parse_field_predicate_safe; unfold reached in *; lia|]. intros [p next] [N W].
    split; [|done]. simpl in *. unfold reached in *. lia.
Qed.
End parsing.

(** The parser of predicates keeps what the operator stack relies on. *)
#[export] Instance parse_predicate_parser resolve display : (forall path offset, resolve path offset <> Panic) ->
  PredicateParser (parse_predicate resolve display).
Proof.
  intros R. split.
  - intros limits tokens i r predicate next r' B L E. pose proof (parse_predicate_safe resolve display R tokens L limits i r B) as S.
    rewrite E in S. destruct S as [N _]. simpl in N. unfold reached in N. lia.
  - intros limits tokens i r B L E. pose proof (parse_predicate_safe resolve display R tokens L limits i r B) as S. by rewrite E in S.
Qed.

(** ** Whole filters *)

Definition has_timestamp (context : Context) : bool := is_some (fr_timestamp (dp_frame (cx_decoded context))).



Section filters.
Context (resolve : bytes -> Z -> outcome FilterError Resolved) (display : Literal -> bytes).
Context (Hresolve : forall path offset, resolve path offset <> Panic).

(** What [source] says: the expression of its tokens within the limits, and what its
    predicates require. *)
Definition spells (limits : FilterLimits) (source : bytes) (requirements : Requirements) (e : expr Predicate) : Prop :=
  exists tokens, tokenize source = Ok tokens /\
    parses (parse_predicate resolve display) limits tokens 1 0 Requirements_default (zlen tokens) requirements e /\ within limits e.

Lemma parses_size limits tokens level i r j r' e : zlen tokens <= usize_max ->
  parses (parse_predicate resolve display) limits tokens level i r j r' e -> size e <= j - i.
Proof using Hresolve.
  intros L. pose proof (parse_predicate_parser resolve display Hresolve) as PP.
  induction 1 as [i r w p j r' T E|i r j r' e T D IH T'|i r j r' e T D IH|a i r j r1 k r2 x y D1 IH1 T D2 IH2|level level' i r j r' e Lv D IH];
    simpl; try lia.
  apply token_at_Some in T as (o&T&B). pose proof (parse_forward _ _ _ _ _ _ _ B L E). lia.
Qed.


Context (limits : FilterLimits).
Context (Hnesting : 0 <= fl_max_nesting limits) (Hbytes : fl_max_bytes limits < u32_max - 1).

Lemma validate_limits_safe source : safe (validate_limits source limits) (fun _ => zlen source <= fl_max_bytes limits /\ FilterLimits_validate limits = Ok tt).
Proof using.
  unfold validate_limits. destruct (Z.ltb_spec (fl_max_bytes limits) (zlen source)); [done|]. destruct (is_blank source); [done|].
  unfold FilterLimits_validate. repeat case_match; done || (simpl; split; [lia|done]).
Qed.

(** The plan of a filter is the plan of the expression its text spells. *)
Lemma Filter_compile_spec source :
  safe (Filter_compile (parse_predicate resolve display) source limits) (fun filter =>
    validate_limits source limits = Ok tt /\
    exists e, spells limits source (ft_requirements filter) e /\ ft_plan filter = planned e 0 MATCH MISS /\ size e < u32_max - 1).
Proof using Hresolve Hnesting Hbytes.
  pose proof (parse_predicate_parser resolve display Hresolve) as PP. unfold Filter_compile, compile. apply safe_bind, safe_bind.
  destruct (validate_limits source limits) as [[]| |] eqn:V; pose proof (validate_limits_safe source) as VS; rewrite V in VS; [|done..].
  destruct VS as [Ls Lv]. simpl. apply safe_bind. pose proof (tokenize_safe source) as TS.
  destruct (tokenize source) as [tokens| |] eqn:T; simpl in *; [|done..].
  assert (Lt : zlen tokens <= usize_max) by (unfold usize_max, u64_max, u32_max in *; lia).
  eapply safe_mono; [by apply grammar_sound|]. intros [program r] (e&D&W&->). simpl.
  pose proof (parses_size _ _ _ _ _ _ _ _ Lt D). rewrite Plan_compile_planned by lia. simpl. split; [done|].
  exists e. split_and!; [by exists tokens|done|lia].
Qed.

Lemma Filter_compile_complete source e r : validate_limits source limits = Ok tt -> spells limits source r e ->
  Filter_compile (parse_predicate resolve display) source limits = Ok (mkFilter (planned e 0 MATCH MISS) r).
Proof using Hresolve Hbytes.
  intros V (tokens&T&D&W). pose proof (parse_predicate_parser resolve display Hresolve) as PP.
  pose proof (validate_limits_safe source) as VS. rewrite V in VS. destruct VS as [Ls Lv]. pose proof (tokenize_safe source) as TS. rewrite T in TS. simpl in TS.
  assert (Lt : zlen tokens <= usize_max) by (unfold usize_max, u64_max, u32_max in *; lia). pose proof (parses_size _ _ _ _ _ _ _ _ Lt D).
  unfold Filter_compile, compile. rewrite V. simpl. rewrite T. simpl. erewrite grammar_complete by done. simpl.
  by rewrite Plan_compile_planned by lia.
Qed.
End filters.

(** C21: compiling a filter never panics, and accepts a text exactly when it fits the
    limits and its tokens spell an expression of the grammar within them; the filter
    then holds the plan of that expression and the requirements of its predicates.
    The size limit is below the numbers kept for the answers. *)
Theorem filter_compiles_exactly resolve display limits source :
  (forall path offset, resolve path offset <> Panic) -> 0 <= fl_max_nesting limits -> fl_max_bytes limits < u32_max - 1 ->
  Filter_compile (parse_predicate resolve display) source limits <> Panic /\
  forall filter, Filter_compile (parse_predicate resolve display) source limits = Ok filter <->
    validate_limits source limits = Ok tt /\
    exists e, spells resolve display limits source (ft_requirements filter) e /\ ft_plan filter = planned e 0 MATCH MISS.
Proof.
  intros R N B. pose proof (Filter_compile_spec resolve display R limits N B source) as S. split.
  - intros E. by rewrite E in S.
  - intros filter. split.
    + intros E. rewrite E in S. destruct S as [V (e&D&L&_)]. eauto.
    + intros (V&e&D&L). rewrite (Filter_compile_complete resolve display R limits B source e _ V D), <- L. by destruct filter.
Qed.

(** C20: a filter answers for every packet what its text says: with the expression the
    tokens spell, [||] weaker than [&&] and both weaker than [!], and each predicate
    tested on the packet, unless it needs a capture time the packet has not. *)
Theorem filter_answers resolve display memmem_find limits source filter :
  (forall path offset, resolve path offset <> Panic) -> 0 <= fl_max_nesting limits -> fl_max_bytes limits < u32_max - 1 ->
  Filter_compile (parse_predicate resolve display) source limits = Ok filter ->
  exists e, spells resolve display limits source (ft_requirements filter) e /\
    forall context, Filter_matches (test memmem_find) has_timestamp filter context
      = if rq_timestamp (ft_requirements filter) && negb (has_timestamp context) then Err FTimestampUnavailable
        else Ok (eval (fun predicate => test memmem_find predicate context) e).
Proof.
  intros R N B E. pose proof (Filter_compile_spec resolve display R limits N B source) as S. rewrite E in S. destruct S as [_ (e&D&L&Z)].
  exists e. split; [done|]. intros context. unfold Filter_matches. case_match; [done|]. rewrite L. by apply Plan_evaluate_planned.
Qed.


(** A registry with one field, one layer and the frame's time. *)
Definition demo_resolve (path : bytes) (offset : Z) : outcome FilterError Resolved :=
  if bytes_eqb path (ascii_bytes "ip.ttl")
  then Ok (RField (mkFieldRef (LayerSource (BDirect (ascii_bytes "ip") (ascii_bytes "ttl")) [0] None) None [FieldSpec_synthetic KUnsigned] path)) else
  if bytes_eqb path (ascii_bytes "frame.time_epoch")
  then Ok (RField (mkFieldRef (FrameSource FFTimeEpoch) None [FieldSpec_synthetic KSigned] path)) else
  if bytes_eqb path (ascii_bytes "udp") then Ok (RLayer path None) else Err (FUnknownField offset path).

Definition demo_source : bytes := ascii_bytes "ip.ttl in {5, 7..9} || !(udp) && frame.time_epoch > 3".

Lemma demo_resolve_total path offset : demo_resolve path offset <> Panic.
Proof. unfold demo_resolve. repeat case_match; done. Qed.

Definition demo_filter : Filter :=
  match Filter_compile (parse_predicate demo_resolve (fun _ => [])) demo_source FilterLimits_default with Ok filter => filter | _ => mkFilter [] Requirements_default end.

(** A packet with one IP layer. *)
Definition demo_packet (ttl : Z) (timestamp : option SystemTime) : Context :=
  mkContext (mkDecoded (mkFrame timestamp 20 60 1 None None [])
    [mkLayer (ascii_bytes "ip") (fun index => if index =? 0 then Some (VUnsigned ttl) else None) (fun _ => None)]) [] 1 None None.

Lemma filter_compiles_exactly_witness :
  exists e, spells demo_resolve (fun _ => []) FilterLimits_default demo_source (ft_requirements demo_filter) e
    /\ ft_plan demo_filter = planned e 0 MATCH MISS.
Proof.
  refine (proj2 (proj1 (proj2 (filter_compiles_exactly demo_resolve (fun _ => []) FilterLimits_default demo_source demo_resolve_total _ _) demo_filter) _)); by vm_compute.
Defined.

Lemma filter_answers_witness :
  exists e, spells demo_resolve (fun _ => []) FilterLimits_default demo_source (ft_requirements demo_filter) e /\
    Filter_matches (test (fun _ _ => None)) has_timestamp demo_filter (demo_packet 8 (Some 0)) = Ok true /\
    eval (fun predicate => test (fun _ _ => None) predicate (demo_packet 8 (Some 0))) e = true /\
    Filter_matches (test (fun _ _ => None)) has_timestamp demo_filter (demo_packet 8 None) = Err FTimestampUnavailable.
Proof.
  destruct (filter_answers demo_resolve (fun _ => []) (fun _ _ => None) FilterLimits_default demo_source demo_filter demo_resolve_total)
    as (e&S&M); [by vm_compute..|]. exists e. split; [exact S|]. split; [by vm_compute|]. split; [|by vm_compute].
  assert (Y : Filter_matches (test (fun _ _ => None)) has_timestamp demo_filter (demo_packet 8 (Some 0)) = Ok true) by (by vm_compute).
  rewrite M in Y. destruct (rq_timestamp _ && negb _) in Y; [discriminate Y|]. injection Y as Y. exact Y.
Defined.

